(* ===== verification/_CoqProject ===== *)
-Q . S2P
Prelude.v
Json.v
Utf8.v
Float64.v
Containers.v
StateMachine.v
TwoPhaseCommit.v
TransactionOwner.v
SessionStore.v
RunningQueries.v
Supervision.v
D1Sql.v
Cypher.v
SqlErrorPosition.v
ConfigLayers.v
ConfigExpression.v
ValueLiterals.v
DdlScan.v
SecretPayload.v
DataCompare.v
AgentPolicy.v
McpAccess.v
McpAccessSpec.v
McpStoreSpec.v
SchemaCache.v
SqlDialect.v
SqlLex.v
SqlBlocks.v
SqlBlocksSpec.v
SqlScanner.v
SqlRanges.v
SqlRangesSpec.v
SqlFileImport.v
SqlSplitter.v
SqlSplitterSpec.v
SqlSplitterGrammar.v
SqlScannerSpec.v
QueryExecutionSql.v
QueryExecutionSqlSpec.v
SqlRisk.v
SqlRiskSpec.v
ProductionSafety.v
ProductionSafetySpec.v
McpGate.v
McpGateSpec.v
TextExport.v
TableImport.v
TextExportSpec.v
TableImportSpec.v
Backup.v
BackupSpec.v
BackupStoreSpec.v
BackupServiceSpec.v
SchemaDiff.v
SchemaCompare.v
SchemaDiffSpec.v
SchemaCompareSpec.v
SqlIdentifiers.v
SqlIdentifiersSpec.v
