(* ===== verification/Prelude.v ===== *)
(** * DBX verification library

    DBX is a database client: a desktop application, a web server and an MCP
    server for agents over one Rust core ([crates/]).  This library models the
    parts of the core whose behaviour does not depend on a database server:
    the coordination of transactions, sessions, queries and background tasks,
    the guards that decide what may run, and the scanners and writers of SQL
    text.  Every definition is translated from the source it names; the
    definitions are executable, and each theorem with hypotheses has a witness
    that evaluates it on a concrete input.

    ** The parts and how they interact

    A client or agent opens a session (SessionStore.v); a session may hold an
    owner task for one database connection (TransactionOwner.v), which the
    registry invalidates when the connection changes.  A query registers in the
    registry of running queries (RunningQueries.v), which cancels it by id,
    connection, session or scope; long batches report coalesced progress, run
    under a task supervisor and, on protected connections, within a write
    window (Supervision.v).  A statement over several databases is committed by
    the two-phase coordinator (TwoPhaseCommit.v), which keeps its record in the
    persisted state machines (StateMachine.v) of the application's storage.
    What an agent may do is decided by the MCP policies, in their first version
    and as access levels with rules (AgentPolicy.v, McpAccess.v), which the
    storage keeps side by side, by tool approvals, and by the gates of the MCP
    server (McpGate.v), which read the policies, ask for confirmations and read
    the policies again before a tool reaches the database.  Guards look at the
    text: D1 SQL (D1Sql.v), read-only
    Cypher (Cypher.v), the read-only check and the guard of EXPLAIN for every
    other database (QueryExecutionSql.v), and the risk levels of parsed statements
    (SqlRisk.v), which fall back on the read-only check when nothing parses.  A
    write to a production database waits for a confirmation (ProductionSafety.v,
    on the read-only check).  Text the user runs is split into statements for the
    dialect of its database (SqlSplitter.v, on SqlDialect.v, SqlLex.v and
    SqlBlocks.v), the editor asks for the statement at its cursor (SqlRanges.v,
    SqlScanner.v), and the statements of a dump are prepared and merged before
    they are sent (SqlFileImport.v).  Configuration comes in layers with tags and expressions
    (ConfigLayers.v, ConfigExpression.v).  Tables are compared row by row
    (DataCompare.v), schemas table by table, in an order of their dependencies
    (SchemaDiff.v, SchemaCompare.v), and metadata is cached (SchemaCache.v);
    literals, names, CREATE TABLE texts and error positions have writers and readers
    of their own (ValueLiterals.v, SqlIdentifiers.v, DdlScan.v,
    SqlErrorPosition.v).  Rows are exported as text (TextExport.v) and read back by
    the import, which maps them to the columns of a table and sends them in batches
    (TableImport.v).  Backups are scheduled, queued, run by one worker and deleted
    again (Backup.v).  Exported secrets are encrypted, signed or masked
    (SecretPayload.v).

    ** Files

    - Prelude.v: results and the [?] operator, state-passing computations, text
      as bytes or scalar values, integers in decimal, shared list lemmas,
      tactics and the [dbx] hint databases.
    - Json.v: [serde_json::Value] and the [Codec] class for serialised records.
    - Utf8.v: character boundaries, slices that panic, [find], [chars].
    - Float64.v: [str::parse::<f64>] on the Standard Library's [SpecFloat].
    - StateMachine.v: [crates/dbx-core/src/persistence/state_persistence.rs]
      (trait [StateBackend], [LocalBackend], [StateMachine]) and the table
      [state_store] of [storage.rs].  The class [StateBackend] with
      [StateBackendLaws] is the interface; module [Storage] implements it.
    - TwoPhaseCommit.v: [crates/dbx-core/src/query/two_phase_commit.rs], proved
      against the [StateBackend] interface and participants that may fail.
    - TransactionOwner.v: [crates/dbx-mcp/src/transaction.rs] over the class
      [TransactionIo] with [TransactionIoLaws]; module
      [TransactionOwnerRegistry].
    - SessionStore.v: [crates/dbx-mcp/src/session.rs]; module [Spec] is the
      abstract lifecycle the store refines.
    - RunningQueries.v: [crates/dbx-core/src/query/query_cancel.rs], and the
      errors of [query/mod.rs] and [agent_driver.rs] that end a query.
    - Supervision.v: modules [TaskSupervisor] ([connection/task_supervisor.rs]),
      [WriteUnlock] ([safety/write_unlock.rs]), [BatchProgress]
      ([query/batch_progress.rs]).
    - D1Sql.v: [crates/dbx-drivers/src/db/cloudflare_d1/sql_lexer.rs],
      [sql_guard.rs], [sql_limits.rs].
    - Cypher.v: [crates/dbx-sql-core/src/cypher_read_only.rs].
    - SqlErrorPosition.v: [crates/dbx-sql-core/src/sql_error_position.rs].
    - ConfigLayers.v, ConfigExpression.v:
      [crates/dbx-core/src/persistence/config/] ([layer.rs], [tag.rs],
      [trace.rs]; [expression.rs]).
    - ValueLiterals.v: [crates/dbx-sql-core/src/value_literals.rs].
    - DdlScan.v: [crates/dbx-driver-support/src/ddl_scan.rs].
    - SecretPayload.v: modules [EncryptedPayload] and [Desensitize], sections
      8.3 and 8.5 of [state_persistence.rs].
    - DataCompare.v: the row comparison of
      [crates/dbx-core/src/data/data_compare.rs].
    - SchemaCache.v: the table [schema_cache] of [storage.rs] with its pruning,
      and the keys of [crates/dbx-core/src/query/object_cache.rs].
    - SqlIdentifiers.v: modules [Capabilities] and [Identifiers], from
      [capabilities.rs], [identifiers.rs] and parts of [table_select.rs] in
      [crates/dbx-sql-dialect/src/sql_dialect/], with SqlIdentifiersSpec.v.
    - SqlDialect.v to SqlScannerSpec.v: [crates/dbx-sql-core/src/sql.rs] and
      [tdsql_mysql.rs].  SqlDialect.v has the profiles of the database types;
      SqlLex.v the lexical helpers; SqlBlocks.v the recognition of routine and
      control-flow blocks (modules [MysqlRoutine], [SqlServer], [PlSql], and HANA
      and Firebird), with the incremental tracker and, in SqlBlocksSpec.v, its
      equivalence with the definition it replaces; SqlScanner.v the scanner
      [SqlScanner] and the blanking of psql commands; SqlRanges.v the statement
      ranges, [GO] batches and the cursor lookup, with SqlRangesSpec.v;
      SqlFileImport.v the preparation and merging of the statements of a file;
      SqlSplitter.v the streaming splitter [SqlStatementSplitter] and the
      execution plans, with its theorems for all texts in SqlSplitterSpec.v, for
      texts of a grammar of statements in SqlSplitterGrammar.v, and on what the
      blanking of psql commands leaves of a script in SqlScannerSpec.v.
    - QueryExecutionSql.v: [crates/dbx-sql-core/src/query_execution_sql.rs], with
      QueryExecutionSqlSpec.v, whose theorems are about the texts of the grammar
      of SqlSplitterGrammar.v.
    - SqlRisk.v: [crates/dbx-sql-core/src/sql_risk.rs] over syntax trees with the
      nodes and fields the code looks at, with SqlRiskSpec.v, which also has the
      meaning of predicates ([Evaluation], [EvaluationLaws]).
    - ProductionSafety.v: [crates/dbx-core/src/safety/production_safety.rs], with
      ProductionSafetySpec.v.
    - AgentPolicy.v: modules [McpPolicy] ([crates/dbx-core/src/ai/mcp_policy.rs]
      with the policy records of [storage.rs]) and [ToolApproval]
      ([ai/tool_approval.rs]).
    - Containers.v: trimmed strings, sorted maps and sets as the policies use them.
    - McpAccess.v: modules [V1] (the normalisation of the first-version policy in
      [storage.rs]), [V2] ([ai/mcp_access.rs]) and [Store] (loading, saving and
      resetting both in [storage.rs]); McpAccessSpec.v relates the versions,
      McpStoreSpec.v the saved copies.
    - McpGate.v: modules [Calls] (programs that ask the backend, and their
      weakest preconditions) and [Gate] (the gates of
      [crates/dbx-mcp/src/server.rs] with [backend.rs], [approval.rs],
      [products.rs] and [plugin_tools.rs]), with McpGateSpec.v.
    - TextExport.v: modules [Csv] ([crates/dbx-formats/src/csv_export.rs]), [Pages]
      (its writers and [crates/dbx-core/src/data/csv_export.rs]) and [TextFormats]
      ([text_export.rs]), with TextExportSpec.v.
    - TableImport.v: modules [Delimited], [Plan] and [PgCopy]
      ([crates/dbx-core/src/data/table_import.rs]), with TableImportSpec.v.
    - Backup.v: modules [Models], [Store] and [Service]
      ([crates/dbx-core/src/scheduled_backup/]: [models.rs], [store.rs], [service.rs]
      with the tick of [engine.rs]), with BackupSpec.v for times and names,
      BackupStoreSpec.v for the tables, and BackupServiceSpec.v for files.

    - SchemaDiff.v: the tables, columns and differences of
      [crates/dbx-sql-schema/src/schema_diff.rs], with modules [Graph] (the
      dependencies of tables, their order and layers) and [Diff]; SchemaCompare.v:
      modules [Columns], [Indexes], [Views], [TableCharset]
      ([schema_diff/mysql_charset.rs]), [Schema] (the comparison of two schemas and
      of one shard) and [Rollback]; with SchemaDiffSpec.v and SchemaCompareSpec.v.

    ** What the theorems show

    - Transactions: commits follow a unanimous vote, every run ends with a
      durable verdict that is true, each participant is asked, retried and
      committed once, recovery on a working backend follows the record; concurrent state transitions follow the graph without
      lost updates; an owner's status and replies are true under every schedule.
    - Concurrency: the session store refines its lifecycle; interrupts are never
      orphaned by a cancel through the registry, completions are proved by their owner; shutdown is final; write
      windows are bounded; an approval is the answer of the session that asked.
    - Guards: what D1 and Cypher guards accept, the execution mode in force, the
      merge that a tag guard lets through, the bindings of a signature.
    - Read-only check and risk levels, for texts of a grammar of plain characters,
      quoted items and comments: the scan of a statement leaves exactly its code; a
      write verb in the code is refused wherever it stands, by the read-only check
      (statements that open with PRAGMA or SHOW excepted) and by EXPLAIN.  What is
      classified as a read is never dangerous, what is proven to read is classified
      as a read; the writes of a parsed script that pass without permission are
      bounded wherever they stand in a statement, and replace no rows; the
      disjunctions found complementary are false on no row.
    - Production databases: a script of such a grammar is stopped exactly when a
      statement switches to a marked database, writes to one by a match of the target
      expressions, or is a write that may name more than the matches give; a script
      is confined to its databases exactly when all of its references are; the text
      that is searched for targets keeps the code of the script.
    - Agents: a statement or tool reaches the database only as the policies read
      last admit it, a high-risk one only with a confirmation of this very call
      given before that; in an unconfirmed restricted run product tools and SQL only
      read; the two versions of the policy make the same decisions; for rules with
      trimmed names the projection to the first is never wider, and the saved copies
      never disagree in favour of the agent; what reads an unreadable policy fails
      closed.
    - Export and import: an exported file is CSV text of its rows, and no text in
      it starts a formula; a table written page by page holds every page the server
      sent, once and in order; the default import reads back what the default export
      wrote, up to the guard of formulas and the text of NULL; the import streams the
      rows the preview showed, with distinct names and the least types; the COPY
      fast path sends every row once.
    - Backups: every state of the store is consistent and each run follows its life
      cycle, except that finishing it writes its outcome in any phase; a schedule that is due gets one run, once; the next time is the first
      that the clocks show after the present; a restart frees what was interrupted;
      only owned files that no other run refers to, inside the destination, are
      removed, and the oldest runs first; names stay below their directory.
    - Schemas: tables are put in an order in which each follows the tables it
      depends on, when there is one; the tables of two schemas are matched one to
      one; a schema does not differ from itself; the differences of a table
      account for every column once; the check of a rollback accepts a
      comparison exactly when it has no renamed table.
    - Texts: string and array literals, references to tables, markers, expressions,
      identifiers and payloads are read back as written.
    - SQL: for every script and database type the statements of the plan are
      pieces of the scanned text in order, nothing lost or repeated; the scanned text
      is the script but for blanked psql command lines, none of them in a literal; in
      dialects without blocks a script of statements with literals and comments is
      split into exactly them; the splitter is in one lexical context at a time, does
      not depend on how a script is cut into lines, and returns; statement ranges,
      when the scanner returns them, are increasing slices and the cursor finds the
      one it is in; the merging of inserts
      accounts for every statement of the file, within its limits.
    - Data: the difference of two tables turns one into the other, and equals
      the definition by nested loops; merged configuration comes from the
      highest layer; resolution and masking of JSON are leafwise; the schema
      cache stays within its budgets, keeps what was just saved, and is
      invalidated per connection.
    Where the code does not do what it means to, a theorem or example states
    what it does: [recreate_blocks_transitions],
    [execute_state_entry_stays_created], [spawn_once_may_unregister_successor],
    [remaining_ms_may_drop_new_window], [oversized_marker_is_not_stripped],
    [strict_policy_is_block], [quoted_pragma_name_passes],
    [backslash_in_backticks_hides_a_clause], [unterminated_identifier_panics],
    [preserve_prefix_panics], [non_ascii_prefix_deletes_nothing],
    [commented_statement_is_executed], [star_after_comment_opens_comment],
    [tag_across_chunks], [psql_command_inside_literal], [entity_is_cut],
    [slash_delimiter_panics], [comment_hides_the_comma],
    [comment_hides_the_keyword], [hash_hides_a_write],
    [hash_operator_hides_a_write], [dashes_hide_a_write],
    [backslash_hides_a_write], [quote_swallows_a_semicolon],
    [parentheses_hide_a_tautology], [dollars_hide_a_write],
    [double_minus_hides_a_write], [restricted_plugin_call_passes],
    [long_quote_panics], [apostrophe_quotes], [guard_stays],
    [guarded_null_is_text], [blank_line_is_lost], [headerless_pages],
    [markdown_keeps_cr], [reserved_name_stays_reserved],
    [unfinished_run_blocks_its_schedule], [shards_lose_target_tables],
    [self_reference_loses_the_order], [trigger_bodies_are_not_compared],
    [index_directions_are_not_compared], [mysql_comment_swallows_the_next_line],
    [oracle_comment_joins_words], [oracle_quotes_are_dropped],
    [current_user_needs_its_parenthesis], [rollback_is_consistent_unless_renamed],
    [untrimmed_rule_widens], [parent_cancellation_runs_no_handle],
    [quoted_name_is_code], [bracketed_name_is_not_quoted], [where_prefix_is_cut],
    [transfer_quotes_differ].

    ** Conventions, bounds and fuel

    A method on shared state takes the state and gives the next one; where
    several tasks interleave, the component has a step relation whose steps are
    the sections of code under one lock or between two awaits, and the theorems
    are about all reachable states.  Clocks, random ids, I/O failures and the
    choices of [select!] are arguments or schedules.  Integers are [Z] with the
    code's wrap-around or checks written out where a value can reach the bound
    (versions and registration ids in u64, markers in u32).  A loop over text
    takes the length of the text as fuel: every round consumes at least one
    character, and the theorems about the result hold for the functions with
    that fuel ([push_chunk_fuel_enough], [ranges_are_increasing_slices] prove it
    enough for the splitter and the range scanner, [strip_enough] for the scan of
    the read-only check).  The search for a free name of a column takes two rounds
    more than there are names in use ([next_candidate_fresh]); the export takes the
    number of pages as fuel, and [table_export_is_complete] says that as many as the
    server answers are enough; the order of tables takes the number of tables, which
    [build_order_respects_dependencies] shows to be enough.  Texts of sql.rs are scalar
    values and positions count them, where the code counts bytes of the same
    text; sizes that are limits count bytes.  Hash maps are stdpp's [gmap].  A panic
    of the code is [None].  Numbers of JSON are their texts, also where they are
    compared (-0.0 and 0.0 differ).  Where a method reads the clock twice in a row,
    one instant stands for both.

    Code of other crates is an argument with its documented behaviour as laws:
    [serde_json] ([Codec], [to_string], [from_value]), AES-GCM, Argon2id,
    SHA-256 and base64 ([Crypto]), regular expressions ([Regexes]), Unicode letter
    classes ([UnicodeTables]) and case conversion ([UnicodeCase]), the tokenizers, the
    parser and the visitor of the sqlparser crate ([SqlTokenizer],
    [SqlparserLexers], [SqlparserParser], [AstVisitor], [PostgresScope]),
    the MySQL connection ([TransactionIo]), the serialised policies
    ([PolicySerde]) and the answers of the MCP backend, the printing of JSON
    ([JsonText]), the reader of the csv crate ([CsvReader]; [CsvMachine] is an
    automaton that satisfies its laws), the validity of an encoding, the
    normalisation of temporal values by an import, time zones and the texts of times
    ([Calendar] with [CalendarLaws]), the payloads of backups ([Serde] with
    [SerdeLaws], which allow for the last digits of a float), the file system
    with the store's transactions ([Disk]), the order in which a hash map is
    walked ([HashOrder] with [HashOrderLaws]), the tokens of MySQL statements
    ([MysqlTokenizer]), the manifest of database types ([DatabaseManifest]), the
    decoding of percent escapes ([PercentDecode]) and the classes of letters in names
    ([LetterClasses]).

    ** What is not modelled

    Drivers and their wire protocols, the desktop and web front ends, the transfer
    of data between databases, the conversation with model providers, and the
    Redis, database and S3 backends of the state machine are I/O around the
    parts above; the decoding of SQL files is the encoding_rs crate's.  Of the
    parts above, these operations are left out: in [table_import.rs] the sources
    other than delimited text (their readers are other crates) and the texts of
    INSERT batches; in [data_compare.rs] the sync statements, the sampling and
    the degradation levels; in [schema_diff.rs] the texts of the statements it
    writes, the guessing of renamed tables, the compatibility scores and the
    patterns of names; in [table_select.rs] the other select statements; in
    [scheduled_backup/] the export of one database, the loop
    that elects a leader and the regular expressions of table patterns. *)

From stdpp Require Export base gmap strings list pretty sorting.
From Stdlib Require Export ZArith Lia.

(** ** Results *)

(** Rust's [Result<A, E>]; [E] is usually [String]. *)
Inductive result (A E : Type) : Type :=
| Ok (a : A)
| Err (e : E).
Arguments Ok {A E} a.
Arguments Err {A E} e.

#[global] Instance result_eq_dec {A E} `{EqDecision A, EqDecision E} : EqDecision (result A E).
Proof. solve_decision. Defined.

Definition is_ok {A E} (r : result A E) : bool := match r with Ok _ => true | Err _ => false end.

Definition result_bind {A B E} (r : result A E) (k : A -> result B E) : result B E :=
  match r with Ok a => k a | Err e => Err e end.

#[global] Instance Ok_inj {A E} : Inj (=) (=) (@Ok A E).
Proof. by intros a b [=]. Qed.

Declare Scope dbx_scope.
Delimit Scope dbx_scope with dbx.

(** The [?] operator on [Result] values. *)
Notation "'let?' x ':=' r 'in' k" := (result_bind r (fun x => k))
  (at level 10, x pattern, r at level 100, k at level 200) : dbx_scope.

#[global] Open Scope dbx_scope.

(** ** Records

    Rust's [Self { field: v, ..base }] and assignments to a field: each field
    that the models update has an instance. *)

Class Setter {R T : Type} (f : R -> T) : Type := set_field : T -> R -> R.
Arguments set_field {R T} f {_} v r.

Notation "r <| f := v |>" := (set_field f v r)
  (at level 12, f at level 10, v at level 200, left associativity) : dbx_scope.

(** ** State-passing computations

    A method that reads and writes a shared state of type [S]. *)

Definition M (S A : Type) : Type := S -> A * S.

Definition ret {S A} (a : A) : M S A := fun s => (a, s).
Definition bind {S A B} (m : M S A) (k : A -> M S B) : M S B := fun s => let '(a, s') := m s in k a s'.

(** [m.await?]: an error ends the computation, its effects stay. *)
Definition try_bind {S A B E} (m : M S (result A E)) (k : A -> M S (result B E)) : M S (result B E) :=
  bind m (fun r => match r with Ok a => k a | Err e => ret (Err e) end).

Notation "'let!' x ':=' m 'in' k" := (bind m (fun x => k))
  (at level 10, x pattern, m at level 100, k at level 200) : dbx_scope.
Notation "'let!?' x ':=' m 'in' k" := (try_bind m (fun x => k))
  (at level 10, x pattern, m at level 100, k at level 200) : dbx_scope.

(** ** Text

    A Rust [str] that the code scans is a list of integers: its UTF-8 bytes
    where the code walks [as_bytes()] or byte offsets, its Unicode scalar
    values where the code walks [chars()].  Each component says which view it
    uses.  Strings that are only compared, stored or formatted (identifiers,
    error messages) are values of Stdlib's [string]. *)

Definition text : Type := list Z.

Definition txt (s : string) : text :=
  map (fun a => Z.of_N (Ascii.N_of_ascii a)) (String.list_ascii_of_string s).

(** The string with the given bytes. *)
Definition untxt (s : text) : string :=
  String.string_of_list_ascii (map (fun c => Ascii.ascii_of_N (Z.to_N c)) s).

(** ASCII character classes ([u8::is_ascii_digit] and the like). *)
Definition is_ascii_digit (c : Z) : bool := (48 <=? c)%Z && (c <=? 57)%Z.
Definition is_ascii_uppercase (c : Z) : bool := (65 <=? c)%Z && (c <=? 90)%Z.
Definition is_ascii_lowercase (c : Z) : bool := (97 <=? c)%Z && (c <=? 122)%Z.
Definition is_ascii_alphabetic (c : Z) : bool := is_ascii_uppercase c || is_ascii_lowercase c.
Definition is_ascii_alphanumeric (c : Z) : bool := is_ascii_alphabetic c || is_ascii_digit c.
Definition is_ascii_control (c : Z) : bool := ((0 <=? c)%Z && (c <=? 31)%Z) || (c =? 127)%Z.

Definition to_ascii_uppercase (c : Z) : Z := if is_ascii_lowercase c then (c - 32)%Z else c.
Definition to_ascii_lowercase (c : Z) : Z := if is_ascii_uppercase c then (c + 32)%Z else c.

(** [str::eq_ignore_ascii_case]. *)
Definition eq_ignore_ascii_case (a b : text) : bool :=
  bool_decide (map to_ascii_lowercase a = map to_ascii_lowercase b).

(** [char::is_whitespace]: the Unicode [White_Space] property, on scalar values. *)
Definition is_whitespace (c : Z) : bool :=
  ((9 <=? c) && (c <=? 13))%Z || (c =? 32)%Z || (c =? 133)%Z || (c =? 160)%Z ||
  (c =? 5760)%Z || ((8192 <=? c) && (c <=? 8202))%Z || (c =? 8232)%Z || (c =? 8233)%Z ||
  (c =? 8239)%Z || (c =? 8287)%Z || (c =? 12288)%Z.

(** The same property on UTF-8 bytes: the number of bytes of the whitespace
    character that starts the text, 0 when none does. *)
Definition whitespace_prefix (s : text) : nat :=
  match s with
  | c1 :: rest =>
    if ((9 <=? c1) && (c1 <=? 13))%Z || (c1 =? 32)%Z then 1
    else match rest with
    | c2 :: rest2 =>
      if (c1 =? 194)%Z && ((c2 =? 133)%Z || (c2 =? 160)%Z) then 2
      else match rest2 with
      | c3 :: _ =>
        if ((c1 =? 225) && (c2 =? 154) && (c3 =? 128))%Z ||
           ((c1 =? 226) && (c2 =? 128) && (((128 <=? c3) && (c3 <=? 138)) || (c3 =? 168) || (c3 =? 169) || (c3 =? 175)))%Z ||
           ((c1 =? 226) && (c2 =? 129) && (c3 =? 159))%Z ||
           ((c1 =? 227) && (c2 =? 128) && (c3 =? 128))%Z
        then 3 else 0
      | [] => 0
      end
    | [] => 0
    end
  | [] => 0
  end.

(** [str::trim_start] on UTF-8 bytes; every round drops at least one byte, so
    the length of the text is enough fuel. *)
Fixpoint trim_start_fuel (fuel : nat) (s : text) : text :=
  match fuel with
  | 0 => s
  | S fuel' =>
    match whitespace_prefix s with
    | 0 => s
    | n => trim_start_fuel fuel' (drop n s)
    end
  end.
Definition trim_start (s : text) : text := trim_start_fuel (length s) s.

(** The whitespace character that ends the text, as a number of bytes.  UTF-8
    is self-synchronising, so a suffix of the bytes that is the encoding of a
    whitespace character is the text's last character. *)
Definition whitespace_suffix (s : text) : nat :=
  let n := length s in
  if (whitespace_prefix (drop (n - 1) s) =? 1)%nat then 1
  else if (2 <=? n)%nat && (whitespace_prefix (drop (n - 2) s) =? 2)%nat then 2
  else if (3 <=? n)%nat && (whitespace_prefix (drop (n - 3) s) =? 3)%nat then 3
  else 0.

Fixpoint trim_end_fuel (fuel : nat) (s : text) : text :=
  match fuel with
  | 0 => s
  | S fuel' =>
    match whitespace_suffix s with
    | 0 => s
    | n => trim_end_fuel fuel' (take (length s - n) s)
    end
  end.
Definition trim_end (s : text) : text := trim_end_fuel (length s) s.

(** [str::trim]. *)
Definition trim (s : text) : text := trim_end (trim_start s).

(** [str::trim_start], [trim_end] and [trim] on scalar values. *)
Fixpoint trim_chars_start (s : text) : text :=
  match s with c :: rest => if is_whitespace c then trim_chars_start rest else s | [] => [] end.
Definition trim_chars_end (s : text) : text := reverse (trim_chars_start (reverse s)).
Definition trim_chars (s : text) : text := trim_chars_end (trim_chars_start s).

(** [Option<&str>::unwrap_or_default]. *)
Definition default_text (o : option text) : text := default [] o.

(** [&s[start..end]] for [start <= end <= s.len()]. *)
Definition slice {A} (start stop : nat) (s : list A) : list A := take (stop - start) (drop start s).

(** [bytes.get(i) == Some(&c)]. *)
Definition at_is (s : text) (i : nat) (c : Z) : bool :=
  match s !! i with Some d => (d =? c)%Z | None => false end.

(** The longest prefix of characters that satisfy [p], and the rest. *)
Fixpoint span (p : Z -> bool) (s : text) : text * text :=
  match s with
  | c :: rest => if p c then let '(a, b) := span p rest in (c :: a, b) else ([], s)
  | [] => ([], [])
  end.

(** [str::split(sep)]: at least one part. *)
Fixpoint split_on (sep : Z) (s : text) : list text :=
  match s with
  | [] => [[]]
  | c :: rest =>
    if (c =? sep)%Z then [] :: split_on sep rest
    else match split_on sep rest with
         | part :: parts => (c :: part) :: parts
         | [] => [[c]]
         end
  end.

(** [char::is_control]: the category [Cc]. *)
Definition is_control (c : Z) : bool := ((0 <=? c) && (c <=? 31))%Z || ((127 <=? c) && (c <=? 159))%Z.

(** [str::len] of a text of scalar values: its UTF-8 bytes. *)
Definition char_len (c : Z) : nat := if (c <? 128)%Z then 1 else if (c <? 2048)%Z then 2 else if (c <? 65536)%Z then 3 else 4.
Definition byte_len (s : text) : nat := sum_list_with char_len s.

(** [s.split(p)] for a predicate on characters. *)
Fixpoint split_pred_from (p : Z -> bool) (piece s : text) : list text :=
  match s with
  | [] => [piece]
  | c :: rest => if p c then piece :: split_pred_from p [] rest else split_pred_from p (piece ++ [c]) rest
  end.
Definition split_pred (p : Z -> bool) (s : text) : list text := split_pred_from p [] s.

(** [s.replace(pattern, replacement)] for a pattern that is not empty: the leftmost
    occurrences that do not overlap. *)
Fixpoint replace_fuel (fuel : nat) (pattern replacement s : text) : text :=
  match fuel, s with
  | S fuel', c :: rest =>
    if bool_decide (pattern `prefix_of` s)
    then replacement ++ replace_fuel fuel' pattern replacement (drop (length pattern) s)
    else c :: replace_fuel fuel' pattern replacement rest
  | _, _ => []
  end.

(** [[..].join(sep)]. *)
Fixpoint join (sep : text) (l : list text) : text :=
  match l with
  | [] => []
  | [x] => x
  | x :: rest => x ++ sep ++ join sep rest
  end.

(** [<uN as FromStr>::from_str] with [max] the largest value of the type: an
    optional plus sign, then digits, refused when the value does not fit. *)
Fixpoint parse_digits (max acc : Z) (s : text) : option Z :=
  match s with
  | [] => Some acc
  | c :: rest =>
    if is_ascii_digit c then
      let acc' := (acc * 10 + (c - 48))%Z in
      if (acc' <=? max)%Z then parse_digits max acc' rest else None
    else None
  end.

Definition strip_plus (s : text) : text :=
  match s with c :: rest => if (c =? 43)%Z then rest else s | [] => [] end.

Definition parse_unsigned (max : Z) (s : text) : option Z :=
  match strip_plus s with
  | [] => None
  | digits => parse_digits max 0 digits
  end.

(** [Display] of an unsigned integer: its decimal digits.  A number has at most
    as many decimal as binary digits, which bounds the recursion. *)
Fixpoint decimal_fuel (fuel : nat) (n : Z) : text :=
  match fuel with
  | 0 => []
  | S fuel' => (if (n <? 10)%Z then [] else decimal_fuel fuel' (n / 10)) ++ [(48 + n mod 10)%Z]
  end.
Definition decimal (n : Z) : text := decimal_fuel (S (Z.to_nat (Z.log2 n))) n.

Definition u32_max : Z := (2 ^ 32 - 1)%Z.
Definition u64_max : Z := (2 ^ 64 - 1)%Z.

(** ** Shared lemmas *)

Lemma untxt_txt s : untxt (txt s) = s.
Proof.
  unfold untxt, txt. rewrite map_map, (map_ext _ id), map_id; [apply String.string_of_list_ascii_of_string|].
  intros a. rewrite N2Z.id. apply Ascii.ascii_N_embedding.
Qed.

Lemma txt_inj s t : txt s = txt t -> s = t.
Proof. intros H. by rewrite <- (untxt_txt s), <- (untxt_txt t), H. Qed.

Lemma span_app p s : (span p s).1 ++ (span p s).2 = s.
Proof. induction s as [|c s IH]; simpl; [done|]. case_match; [|done]. destruct (span p s). simpl in *. by f_equal. Qed.

Lemma span_all p s : Forall (fun c => p c = true) (span p s).1.
Proof.
  induction s as [|c s IH]; simpl; [constructor|]. case_match; [|constructor].
  destruct (span p s). simpl in *. by constructor.
Qed.

Lemma span_stop p s : match (span p s).2 with c :: _ => p c = false | [] => True end.
Proof. induction s as [|c s IH]; simpl; [done|]. destruct (p c) eqn:E; [|done]. by destruct (span p s). Qed.

Lemma span_length p s : length (span p s).2 <= length s.
Proof. rewrite <- (span_app p s) at 2. rewrite length_app. lia. Qed.

Lemma span_exact p s t : Forall (fun c => p c = true) s -> match t with [] => True | c :: _ => p c = false end ->
  span p (s ++ t) = (s, t).
Proof.
  intros Hs Ht. induction Hs as [|c s Hc Hs IH]; simpl; [|by rewrite Hc, IH].
  destruct t as [|c t]; simpl; [done|]. by rewrite Ht.
Qed.

Lemma parse_digits_bounds max acc s n :
  (0 <= acc <= max)%Z -> parse_digits max acc s = Some n -> (acc <= n <= max)%Z.
Proof.
  revert acc. induction s as [|c s IH]; intros acc Ha; simpl; [intros; simplify_eq; lia|].
  destruct (is_ascii_digit c) eqn:Ed; [|done]. unfold is_ascii_digit in Ed.
  apply andb_true_iff in Ed as [?%Z.leb_le ?%Z.leb_le].
  destruct (_ <=? max)%Z eqn:El; [|done]. apply Z.leb_le in El. intros Hp%IH; lia.
Qed.

Lemma parse_digits_app max acc s t :
  parse_digits max acc (s ++ t) = parse_digits max acc s ≫= fun n => parse_digits max n t.
Proof. revert acc. induction s as [|c s IH]; intros acc; simpl; [done|]. by repeat case_match. Qed.

Lemma parse_decimal_fuel fuel max n :
  (0 <= n <= max)%Z -> (Z.log2 n < Z.of_nat fuel)%Z -> parse_digits max 0 (decimal_fuel fuel n) = Some n.
Proof.
  revert n. induction fuel as [|fuel IH]; intros n Hn Hf; [pose proof (Z.log2_nonneg n); lia|]. cbn [decimal_fuel]. rewrite parse_digits_app.
  pose proof (Z.mod_pos_bound n 10 ltac:(lia)) as Hm. pose proof (Z.div_mod n 10 ltac:(lia)) as Hd.
  assert (Hlast : forall q, (q * 10 + n mod 10 = n)%Z -> parse_digits max q [(48 + n mod 10)%Z] = Some n).
  { intros q Hq. cbn [parse_digits].
    assert (Hdig : is_ascii_digit (48 + n mod 10) = true) by (unfold is_ascii_digit; lia).
    rewrite Hdig. replace (q * 10 + (48 + n mod 10 - 48))%Z with n by lia. by rewrite (proj2 (Z.leb_le n max)) by lia. }
  destruct (Z.ltb_spec n 10) as [Hlt|Hge].
  - simpl. apply Hlast. rewrite Z.mod_small; lia.
  - assert (0 <= n / 10)%Z by (apply Z.div_pos; lia). assert (0 < n / 10)%Z by (apply Z.div_str_pos; lia).
    assert (n / 10 < n)%Z by (apply Z.div_lt; lia).
    assert (Z.succ (Z.log2 (n / 10)) <= Z.log2 n)%Z by (rewrite <- Z.log2_double by lia; apply Z.log2_le_mono; lia).
    rewrite IH; [|lia|lia]. simpl. apply Hlast. lia.
Qed.

Lemma decimal_nonempty n : decimal n <> [].
Proof. unfold decimal. simpl. intros [_ ?]%app_nil. done. Qed.

Lemma decimal_digits n : (0 <= n)%Z -> Forall (fun c => is_ascii_digit c = true) (decimal n).
Proof.
  unfold decimal. generalize (S (Z.to_nat (Z.log2 n))) as fuel. intros fuel. revert n.
  induction fuel as [|fuel IH]; intros n Hn; simpl; [constructor|]. apply Forall_app. split.
  - destruct (n <? 10)%Z; [constructor|]. apply IH. apply Z.div_pos; lia.
  - pose proof (Z.mod_pos_bound n 10 ltac:(lia)). constructor; [unfold is_ascii_digit; lia|constructor].
Qed.

Lemma byte_len_app s t : byte_len (s ++ t) = byte_len s + byte_len t.
Proof. unfold byte_len. apply sum_list_with_app. Qed.

(** Parsing what [Display] wrote gives the number back. *)
Lemma parse_decimal max n : (0 <= n <= max)%Z -> parse_unsigned max (decimal n) = Some n.
Proof.
  intros Hn. pose proof (Z.log2_nonneg n).
  pose proof (parse_decimal_fuel (S (Z.to_nat (Z.log2 n))) max n Hn ltac:(lia)) as Hp. fold (decimal n) in Hp.
  pose proof (decimal_digits n ltac:(lia)) as Hd. pose proof (decimal_nonempty n). unfold parse_unsigned.
  destruct (decimal n) as [|c l] eqn:E; [done|]. apply Forall_cons in Hd as [Hc _]. simpl strip_plus.
  destruct (Z.eqb_spec c 43) as [->|]; [done|]. exact Hp.
Qed.

Lemma decimal_inj n m : (0 <= n)%Z -> (0 <= m)%Z -> decimal n = decimal m -> n = m.
Proof.
  intros Hn Hm He. pose proof (parse_decimal (Z.max n m) n ltac:(lia)) as H1. pose proof (parse_decimal (Z.max n m) m ltac:(lia)) as H2.
  rewrite He in H1. rewrite H1 in H2. by injection H2.
Qed.

Lemma parse_unsigned_bounds max s n : (0 <= max)%Z -> parse_unsigned max s = Some n -> (0 <= n <= max)%Z.
Proof.
  intros Hm. unfold parse_unsigned. destruct (strip_plus s); [done|].
  apply parse_digits_bounds. lia.
Qed.

Lemma trim_start_suffix s : trim_start s `suffix_of` s.
Proof.
  unfold trim_start. generalize (length s) as fuel. intros fuel. revert s.
  induction fuel as [|fuel IH]; intros s; simpl; [done|].
  destruct (whitespace_prefix s) as [|n]; [done|].
  etrans; [apply IH|]. exists (take (S n) s). by rewrite take_drop.
Qed.

Lemma trim_end_prefix s : trim_end s `prefix_of` s.
Proof.
  unfold trim_end. generalize (length s) as fuel. intros fuel. revert s.
  induction fuel as [|fuel IH]; intros s; simpl; [done|].
  destruct (whitespace_suffix s) as [|n]; [done|].
  etrans; [apply IH|]. eexists (drop _ s). by rewrite take_drop.
Qed.

(** Trimming keeps a contiguous piece of the text. *)
Lemma trim_infix s : exists pre post, s = pre ++ trim s ++ post.
Proof.
  destruct (trim_start_suffix s) as [pre Hpre].
  destruct (trim_end_prefix (trim_start s)) as [post Hpost].
  exists pre, post. unfold trim. rewrite <- Hpost. exact Hpre.
Qed.

Lemma trim_length s : length (trim s) <= length s.
Proof.
  destruct (trim_infix s) as (pre & post & H).
  apply (f_equal length) in H. rewrite !length_app in H. lia.
Qed.

(** *** Trimming scalar values *)

Lemma trim_chars_start_suffix s : exists ws, s = ws ++ trim_chars_start s /\ Forall (fun c => is_whitespace c = true) ws.
Proof.
  induction s as [|c s (ws & IH & Hws)]; simpl; [by exists []|].
  destruct (is_whitespace c) eqn:E; [|by exists []].
  exists (c :: ws). split; [by rewrite IH at 1|by constructor].
Qed.

Lemma trim_chars_start_solid s : match trim_chars_start s with c :: _ => is_whitespace c = false | [] => True end.
Proof. induction s as [|c s IH]; simpl; [done|]. by destruct (is_whitespace c) eqn:E. Qed.

Lemma trim_chars_start_id s : match s with c :: _ => is_whitespace c = false | [] => True end -> trim_chars_start s = s.
Proof. destruct s; simpl; [done|]. by intros ->. Qed.

Lemma trim_chars_start_app s t :
  trim_chars_start (s ++ t) = if bool_decide (trim_chars_start s = []) then trim_chars_start t else trim_chars_start s ++ t.
Proof. induction s as [|c s IH]; simpl; [done|]. by destruct (is_whitespace c). Qed.

Lemma trim_chars_end_prefix s : exists ws, s = trim_chars_end s ++ ws /\ Forall (fun c => is_whitespace c = true) ws.
Proof.
  destruct (trim_chars_start_suffix (reverse s)) as (ws & H & Hws). exists (reverse ws). split; [|by apply Forall_reverse].
  unfold trim_chars_end. rewrite <- reverse_app, <- H. by rewrite reverse_involutive.
Qed.

(** A text is its trimmed part between two runs of whitespace. *)
Lemma trim_chars_split s : exists a b, s = a ++ trim_chars s ++ b /\
  Forall (fun c => is_whitespace c = true) a /\ Forall (fun c => is_whitespace c = true) b.
Proof.
  destruct (trim_chars_start_suffix s) as (a & Ha & ?). destruct (trim_chars_end_prefix (trim_chars_start s)) as (b & Hb & ?).
  exists a, b. unfold trim_chars. rewrite <- Hb. done.
Qed.

Lemma trim_chars_head s : match trim_chars s with c :: _ => is_whitespace c = false | [] => True end.
Proof.
  pose proof (trim_chars_start_solid s) as Hs. unfold trim_chars.
  destruct (trim_chars_end_prefix (trim_chars_start s)) as (b & Hb & _).
  destruct (trim_chars_end (trim_chars_start s)) as [|c t]; [done|]. rewrite Hb in Hs. done.
Qed.

Lemma trim_chars_idemp s : trim_chars (trim_chars s) = trim_chars s.
Proof.
  unfold trim_chars at 1. rewrite (trim_chars_start_id _ (trim_chars_head s)).
  unfold trim_chars, trim_chars_end. rewrite reverse_involutive. f_equal. apply trim_chars_start_id, trim_chars_start_solid.
Qed.

Lemma trim_chars_start_ws ws s : Forall (fun c => is_whitespace c = true) ws -> trim_chars_start (ws ++ s) = trim_chars_start s.
Proof. induction 1 as [|c ws Hc Hws IH]; simpl; [done|]. by rewrite Hc. Qed.

Lemma trim_chars_ws_l ws s : Forall (fun c => is_whitespace c = true) ws -> trim_chars (ws ++ s) = trim_chars s.
Proof. intros. unfold trim_chars. by rewrite trim_chars_start_ws. Qed.

Lemma trim_chars_ws_r ws s : Forall (fun c => is_whitespace c = true) ws -> trim_chars (s ++ ws) = trim_chars s.
Proof.
  intros Hws. unfold trim_chars. rewrite trim_chars_start_app. case_bool_decide as E.
  - rewrite E. rewrite <- (app_nil_r ws), trim_chars_start_ws by done. done.
  - unfold trim_chars_end. rewrite reverse_app, trim_chars_start_ws; [done|]. by apply Forall_reverse.
Qed.

Lemma trim_chars_nil : trim_chars [] = [].
Proof. done. Qed.

(** *** Splitting and joining *)

Lemma split_on_clean sep s : sep ∉ s -> split_on sep s = [s].
Proof.
  induction s as [|c s IH]; [done|]. intros Hs. apply not_elem_of_cons in Hs as [Hc Hs]. cbn [split_on].
  rewrite (proj2 (Z.eqb_neq c sep)) by done. by rewrite IH.
Qed.

Lemma split_on_first sep s rest : sep ∉ s -> split_on sep (s ++ sep :: rest) = s :: split_on sep rest.
Proof.
  induction s as [|c s IH]; [simpl; by rewrite Z.eqb_refl|]. intros Hs. apply not_elem_of_cons in Hs as [Hc Hs]. cbn [app split_on].
  rewrite (proj2 (Z.eqb_neq c sep)) by done. by rewrite IH.
Qed.

Lemma split_on_app sep a b : split_on sep (a ++ sep :: b) = split_on sep a ++ split_on sep b.
Proof.
  induction a as [|c a IH]; cbn [app split_on]; [by rewrite Z.eqb_refl|]. destruct (c =? sep)%Z; [by rewrite IH|]. rewrite IH.
  destruct (split_on sep a) as [|part parts] eqn:E; [|done]. destruct a as [|d a]; cbn in E; [done|]. by repeat case_match.
Qed.

Lemma join_first (sep w : text) ws : join sep (w :: ws) = w ++ concat (map (fun x => sep ++ x) ws).
Proof.
  revert w. induction ws as [|w' ws IH]; intros w; [simpl; by rewrite app_nil_r|].
  change (join sep (w :: w' :: ws)) with (w ++ sep ++ join sep (w' :: ws)). rewrite IH. simpl. by rewrite <- !app_assoc.
Qed.

Lemma split_joined sep ws : ws <> [] -> Forall (fun w => sep ∉ w) ws -> split_on sep (join [sep] ws) = ws.
Proof.
  intros Hne Hw. induction Hw as [|w ws Hc Hw IH]; [done|]. destruct ws as [|w' ws]; [by apply split_on_clean|].
  change (join [sep] (w :: w' :: ws)) with (w ++ [sep] ++ join [sep] (w' :: ws)). cbn [app]. by rewrite split_on_first, IH.
Qed.

Lemma slice_length {A} start stop (s : list A) :
  start <= stop -> stop <= length s -> length (slice start stop s) = stop - start.
Proof. intros. unfold slice. rewrite length_take, length_drop. lia. Qed.

(** Consecutive slices glue back together. *)
Lemma slice_app {A} i j k (s : list A) :
  i <= j -> j <= k -> slice i j s ++ slice j k s = slice i k s.
Proof.
  intros Hij Hjk. unfold slice.
  replace (drop j s) with (drop (j - i) (drop i s)) by (rewrite drop_drop; f_equal; lia).
  replace (k - i) with ((j - i) + (k - j)) by lia.
  by rewrite take_take_drop.
Qed.

Lemma slice_full {A} (s : list A) : slice 0 (length s) s = s.
Proof. unfold slice. rewrite drop_0, Nat.sub_0_r. by rewrite firstn_all. Qed.

Lemma eq_ignore_ascii_case_refl a : eq_ignore_ascii_case a a = true.
Proof. unfold eq_ignore_ascii_case. by rewrite bool_decide_true. Qed.

(** An element of a concatenation is in the left part or in the right part. *)
Lemma app_cons_split {A} (l1 l2 a b : list A) x :
  l1 ++ l2 = a ++ x :: b ->
  (exists c, l1 = a ++ x :: c /\ b = c ++ l2) \/ (exists c, a = l1 ++ c /\ l2 = c ++ x :: b).
Proof.
  intros [([|y k] & -> & Hk)|(k & -> & Hk)]%app_eq_inv; simplify_eq/=; [|by eauto|by eauto].
  right. exists []. by rewrite !app_nil_r.
Qed.

(** Parts that do not contain a separator are found back around it. *)
Lemma separator_split {A} (sep : A) (a b x y : list A) :
  sep ∉ a -> sep ∉ b -> a ++ sep :: x = b ++ sep :: y -> a = b /\ x = y.
Proof.
  revert b. induction a as [|c a IH]; intros [|d b] Ha Hb Heq; simplify_eq/=; [done|by destruct Hb; left|by destruct Ha; left|].
  rewrite not_elem_of_cons in Ha, Hb. destruct (IH b) as [-> ->]; tauto.
Qed.

(** stdpp's [filter] is on propositions; the models filter by bool functions. *)
Lemma elem_of_bool_filter {A} (p : A -> bool) l x : x ∈ List.filter p l <-> x ∈ l /\ p x = true.
Proof. rewrite !list_elem_of_In. apply filter_In. Qed.

Lemma NoDup_map_filter {A B} (f : A -> B) (p : A -> bool) l : NoDup (map f l) -> NoDup (map f (List.filter p l)).
Proof.
  induction l as [|a l IH]; simpl; [done|]. intros [Ha Hl]%NoDup_cons. case_match; simpl; [|by auto].
  apply NoDup_cons. split; [|by auto]. contradict Ha. apply list_elem_of_fmap in Ha as (b & -> & Hb).
  apply elem_of_bool_filter in Hb as [? _]. apply list_elem_of_fmap. eauto.
Qed.

Lemma result_bind_ok {A B E} (r : result A E) (k : A -> result B E) b :
  result_bind r k = Ok b -> exists a, r = Ok a /\ k a = Ok b.
Proof. destruct r; [eauto|done]. Qed.

Lemma bind_inv {S A B} (m : M S A) (k : A -> M S B) s b s'' :
  bind m k s = (b, s'') -> exists a s', m s = (a, s') /\ k a s' = (b, s'').
Proof. unfold bind. destruct (m s) as [a s']. eauto. Qed.

Lemma bind_run {S A B} (m : M S A) (k : A -> M S B) s a s' : m s = (a, s') -> bind m k s = k a s'.
Proof. unfold bind. by intros ->. Qed.

Lemma try_run {S A B E} (m : M S (result A E)) (k : A -> M S (result B E)) s a s' :
  m s = (Ok a, s') -> try_bind m k s = k a s'.
Proof. intros Hm. unfold try_bind. by rewrite (bind_run _ _ _ _ _ Hm). Qed.

Lemma try_bind_inv {S A B E} (m : M S (result A E)) (k : A -> M S (result B E)) s b s'' :
  try_bind m k s = (b, s'') ->
  (exists a s', m s = (Ok a, s') /\ k a s' = (b, s'')) \/ (exists e, m s = (Err e, s'') /\ b = Err e).
Proof.
  intros (r & s' & Hm & Hk)%bind_inv. destruct r as [a|e]; [eauto|].
  unfold ret in Hk. simplify_eq. eauto.
Qed.

(** ** Automation *)

(** Split a conjunction of boolean tests in the context into propositions. *)
Ltac bool_solver :=
  repeat match goal with
  | H : _ && _ = true |- _ => apply andb_true_iff in H as [??]
  | H : _ || _ = false |- _ => apply orb_false_iff in H as [??]
  | H : negb _ = true |- _ => apply negb_true_iff in H
  | H : negb _ = false |- _ => apply negb_false_iff in H
  | H : bool_decide _ = true |- _ => apply bool_decide_eq_true in H
  | H : bool_decide _ = false |- _ => apply bool_decide_eq_false in H
  end.

(** Read off the result of a computation that returns at once. *)
Ltac inv_ret := repeat match goal with H : ret _ _ = (_, _) |- _ => unfold ret in H; simplify_eq/= end.

(** The values of a chain of [?] that succeeded. *)
Ltac inv_ok :=
  repeat match goal with
  | H : Ok _ = Ok _ |- _ => apply Ok_inj in H; simplify_eq
  | H : Err _ = Ok _ |- _ => discriminate H
  | H : result_bind _ _ = Ok _ |- _ => let E := fresh "E" in apply result_bind_ok in H as (? & E & H)
  | H : (match ?x with (_, _) => _ end) = Ok _ |- _ => is_var x; destruct x
  | H : (if ?b then _ else _) = Ok _ |- _ => let E := fresh "E" in destruct b eqn:E
  end.

(** Case split on every [match] and [if] of the goal and close the leaves. *)
Ltac split_matches := repeat (case_match; simplify_eq/=; try done).

(** Case analysis on the condition that decides the result the premise of the goal
    is about, and on no other. *)
Ltac branch :=
  match goal with
  | |- (if ?b then _ else _) = _ -> _ => destruct b eqn:?
  | |- (match ?x with _ => _ end) = _ -> _ => destruct x eqn:?
  end.

Create HintDb dbx.
Create Rewrite HintDb dbx.
#[export] Hint Resolve trim_start_suffix trim_end_prefix trim_length : dbx.
#[export] Hint Rewrite @length_app @length_map @length_take @length_drop : dbx.
