(* ===== verification/Json.v ===== *)
(** * JSON values and serialisation

    [serde_json::Value] as the workspace builds it: with [arbitrary_precision]
    a number is its decimal text, with [preserve_order] an object is the list
    of its members in insertion order.  [serde_json::to_vec] and
    [serde_json::from_slice] are not part of the repository: a component that
    stores serialised records takes them as an instance of [Codec], whose law
    is that a record written by [to_vec] is read back by [from_slice].
    [CountableCodec] is one concrete instance, used to evaluate the models. *)

From S2P Require Import Prelude.

Inductive json : Type :=
| JNull
| JBool (b : bool)
| JNumber (repr : string)
| JString (s : string)
| JArray (l : list json)
| JObject (members : list (string * json)).

Section json_induction.
Variable P : json -> Prop.
Hypothesis Hnull : P JNull.
Hypothesis Hbool : forall b, P (JBool b).
Hypothesis Hnum : forall r, P (JNumber r).
Hypothesis Hstr : forall s, P (JString s).
Hypothesis Harr : forall l, Forall P l -> P (JArray l).
Hypothesis Hobj : forall m, Forall (fun kv => P kv.2) m -> P (JObject m).

  (** Induction with hypotheses for the elements and the members. *)
Fixpoint json_nested_ind (j : json) : P j :=
    match j with
    | JNull => Hnull
    | JBool b => Hbool b
    | JNumber r => Hnum r
    | JString s => Hstr s
    | JArray l => Harr l
        ((fix go (l : list json) : Forall P l :=
            match l with
            | [] => Forall_nil_2 P
            | x :: l' => Forall_cons_2 P x l' (json_nested_ind x) (go l')
            end) l)
    | JObject m => Hobj m
        ((fix go (m : list (string * json)) : Forall (fun kv => P kv.2) m :=
            match m with
            | [] => Forall_nil_2 _
            | kv :: m' => Forall_cons_2 (fun kv => P kv.2) kv m' (json_nested_ind kv.2) (go m')
            end) m)
    end.
End json_induction.

(** [map.get(key)]: serde's map has one member per key, the first match is it. *)
Fixpoint obj_get (key : string) (m : list (string * json)) : option json :=
  match m with
  | [] => None
  | (k, v) :: m' => if String.eqb k key then Some v else obj_get key m'
  end.

(** [map.insert(key, value)]: the value is replaced in place, or appended. *)
Fixpoint obj_insert (key : string) (value : json) (m : list (string * json)) : list (string * json) :=
  match m with
  | [] => [(key, value)]
  | (k, v) :: m' => if String.eqb k key then (k, value) :: m' else (k, v) :: obj_insert key value m'
  end.

Fixpoint json_to_tree (j : json) : gen_tree (string + bool) :=
  match j with
  | JNull => GenNode 0 []
  | JBool b => GenNode 1 [GenLeaf (inr b)]
  | JNumber r => GenNode 2 [GenLeaf (inl r)]
  | JString s => GenNode 3 [GenLeaf (inl s)]
  | JArray l => GenNode 4 (map json_to_tree l)
  | JObject m => GenNode 5 (map (fun kv => GenNode 6 [GenLeaf (inl kv.1); json_to_tree kv.2]) m)
  end.

Fixpoint json_of_tree (t : gen_tree (string + bool)) : json :=
  match t with
  | GenNode 1 [GenLeaf (inr b)] => JBool b
  | GenNode 2 [GenLeaf (inl r)] => JNumber r
  | GenNode 3 [GenLeaf (inl s)] => JString s
  | GenNode 4 l => JArray (map json_of_tree l)
  | GenNode 5 l =>
      JObject (map (fun t' => match t' with
                              | GenNode 6 [GenLeaf (inl k); t''] => (k, json_of_tree t'')
                              | _ => (""%string, JNull)
                              end) l)
  | _ => JNull
  end.

Lemma json_of_to_tree j : json_of_tree (json_to_tree j) = j.
Proof.
  induction j as [| | | |l IH|m IH] using json_nested_ind; simpl; try done.
  - f_equal. rewrite map_map. induction IH; simpl; by f_equal.
  - f_equal. rewrite map_map. induction IH as [|[k v] m Hv _ IH]; simpl in *; [done|].
    by rewrite Hv, IH.
Qed.

#[global] Instance json_eq_dec : EqDecision json.
Proof.
  refine (fun a b => cast_if (decide (json_to_tree a = json_to_tree b))); [|by intros ->].
  by rewrite <- (json_of_to_tree a), <- (json_of_to_tree b), e.
Defined.
#[global] Instance json_countable : Countable json :=
  inj_countable' json_to_tree json_of_tree json_of_to_tree.

(** ** Codecs *)

Definition bytes : Type := list Z.

Class Codec (A : Type) := {
  to_vec : A -> result bytes string;
  from_slice : bytes -> result A string;
  from_to_slice a v : to_vec a = Ok v -> from_slice v = Ok a;
}.

(** A codec that never refuses to serialise, which is what serde's derived
    serialisers do on the records of this development. *)
Class TotalCodec (A : Type) `{Codec A} := to_vec_total (a : A) : exists v, to_vec a = Ok v.

Module CountableCodec.
Fixpoint pos_bytes (p : positive) : bytes :=
    match p with xH => [] | xO q => 0%Z :: pos_bytes q | xI q => 1%Z :: pos_bytes q end.
Fixpoint bytes_pos (b : bytes) : positive :=
    match b with [] => xH | 0%Z :: b' => xO (bytes_pos b') | _ :: b' => xI (bytes_pos b') end.

Lemma bytes_pos_bytes p : bytes_pos (pos_bytes p) = p.
Proof. induction p; simpl; by f_equal. Qed.

Definition decode_bytes {A} `{Countable A} (v : bytes) : result A string :=
    match decode (bytes_pos v) with Some a => Ok a | None => Err "invalid payload"%string end.

#[refine] Definition codec {A} `{Countable A} : Codec A := {|
    to_vec a := Ok (pos_bytes (encode a));
    from_slice := decode_bytes;
  |}.
Proof.
    intros a v Hv. simplify_eq. unfold decode_bytes.
    by rewrite bytes_pos_bytes, decode_encode.
  Defined.

Lemma total {A} `{Countable A} : @TotalCodec A codec.
Proof. intros a. by eexists. Qed.
End CountableCodec.
