(* ===== verification/Utf8.v ===== *)
(** * UTF-8 text and string slices

    The parts of Rust's [str] that several components share, on text as UTF-8
    bytes: character boundaries and slices, which panic off a boundary, [find],
    [strip_prefix] and the characters of a text. *)

From S2P Require Import Prelude.

(** A byte that continues a character. *)
Definition is_continuation (b : Z) : bool := (128 <=? b)%Z && (b <? 192)%Z.

(** [char::len_utf8], from the first byte of the character's encoding. *)
Definition len_utf8 (c : Z) : nat :=
  if (c <? 128)%Z then 1 else if (c <? 224)%Z then 2 else if (c <? 240)%Z then 3 else 4.

(** [str::is_char_boundary]. *)
Definition is_char_boundary (s : text) (pos : nat) : bool :=
  match s !! pos with
  | Some b => negb (is_continuation b)
  | None => (pos =? length s)%nat
  end.

(** [s.get(pos..)]. *)
Definition get_from (s : text) (pos : nat) : option text :=
  if is_char_boundary s pos then Some (drop pos s) else None.

(** [&s[start..stop]], which panics ([None]) off a character boundary. *)
Definition index_slice (start stop : nat) (s : text) : option text :=
  if (start <=? stop)%nat && is_char_boundary s start && is_char_boundary s stop
  then Some (slice start stop s) else None.

(** [s.find(pat)] for a non-empty pattern. *)
Fixpoint find_sub (pat s : text) : option nat :=
  if bool_decide (pat `prefix_of` s) then Some 0
  else match s with
  | [] => None
  | _ :: rest => S <$> find_sub pat rest
  end.

(** [s.strip_prefix(pat)]. *)
Fixpoint strip_prefix (pat s : text) : option text :=
  match pat, s with
  | [], _ => Some s
  | p :: pat', c :: s' => if (p =? c)%Z then strip_prefix pat' s' else None
  | _ :: _, [] => None
  end.

(** The bytes of one character: a first byte and as many more as it announces. *)
Definition wf_char (c : text) : Prop :=
  match c with
  | b :: rest => is_continuation b = false /\ length c = len_utf8 b
  | [] => False
  end.

(** Text in UTF-8: characters whose further bytes are continuation bytes. *)
Definition utf8 (s : text) : Prop :=
  exists cs, s = concat cs /\ Forall (fun c => wf_char c /\ Forall (fun b => is_continuation b = true) (tail c)) cs.

(** [s.chars()], each character as its bytes; every round takes at least one
    byte, so the length of the text is enough fuel. *)
Fixpoint chars_fuel (fuel : nat) (s : text) : list text :=
  match fuel, s with
  | S fuel', b :: _ => take (len_utf8 b) s :: chars_fuel fuel' (drop (len_utf8 b) s)
  | _, _ => []
  end.
Definition chars (s : text) : list text := chars_fuel (length s) s.

(** ** Lemmas *)

Lemma drop_app_step {A} i (s x rest : list A) : drop i s = x ++ rest -> drop (i + length x) s = rest.
Proof. intros H. rewrite <- drop_drop, H. by rewrite drop_app_length. Qed.

Lemma drop_cons_lt {A} i (s : list A) c rest : drop i s = c :: rest -> i < length s.
Proof. intros H. apply (f_equal length) in H. rewrite length_drop in H. simpl in H. lia. Qed.

Lemma lookup_of_drop i (s : text) : s !! i = head (drop i s).
Proof. unfold text in *. by rewrite head_lookup, lookup_drop, Nat.add_0_r. Qed.

Lemma slice_to_end {A} (s : list A) i : slice i (length s) s = drop i s.
Proof. unfold slice. apply take_ge. rewrite length_drop. lia. Qed.

Lemma ascii_not_continuation c : (c < 128)%Z -> is_continuation c = false.
Proof. intros. unfold is_continuation. lia. Qed.

Lemma ascii_len c : (c < 128)%Z -> len_utf8 c = 1.
Proof. intros. unfold len_utf8. rewrite (proj2 (Z.ltb_lt c 128)); lia. Qed.

Lemma len_utf8_pos c : 1 <= len_utf8 c.
Proof. unfold len_utf8. repeat case_match; lia. Qed.

Lemma wf_char_inv c : wf_char c -> exists b t, c = b :: t /\ is_continuation b = false /\ length c = len_utf8 b.
Proof. destruct c as [|b t]; simpl; [done|]. intros [??]. eauto. Qed.

Lemma find_sub_bound p s k : find_sub p s = Some k -> k + length p <= length s.
Proof.
  revert k. induction s as [|c s IH]; intros k; simpl; case_bool_decide as Hp; intros; simplify_eq.
  - by apply prefix_length in Hp.
  - apply prefix_length in Hp. simpl in *. lia.
  - destruct (find_sub p s) as [k'|]; simplify_eq/=. specialize (IH k' eq_refl). lia.
Qed.

Lemma find_sub_app p s t k : find_sub p s = Some k -> find_sub p (s ++ t) = Some k.
Proof.
  revert k. induction s as [|c s IH]; intros k Hk.
  - simpl in Hk. case_bool_decide as Hp; simplify_eq. apply prefix_nil_inv in Hp. subst p.
    by destruct t.
  - pose proof (find_sub_bound _ _ _ Hk) as Hb. simpl in Hk |- *. case_bool_decide as Hp; simplify_eq.
    + rewrite bool_decide_true; [done|]. by apply (prefix_app_r _ (c :: s)).
    + destruct (find_sub p s) as [k'|] eqn:E; simplify_eq/=. rewrite (IH _ eq_refl), bool_decide_false; [done|].
      intros [u Hu]. apply Hp. exists (drop (length p) (c :: s)).
      rewrite <- (take_drop (length p) (c :: s)) at 1. f_equal.
      change (c :: s ++ t) with ((c :: s) ++ t) in Hu.
      apply (f_equal (take (length p))) in Hu. rewrite take_app_length in Hu. rewrite take_app_le in Hu by (simpl; lia). done.
Qed.

Lemma find_sub_char c s t : Forall (fun x => x <> c) s -> find_sub [c] (s ++ c :: t) = Some (length s).
Proof.
  induction 1 as [|x s Hx Hs IH]; simpl.
  - by rewrite bool_decide_true by apply prefix_cons, prefix_nil.
  - rewrite bool_decide_false by (intros ?%prefix_cons_inv_1; congruence). by rewrite IH.
Qed.

Lemma get_from_first sql i s : drop i sql = s -> i <= length sql -> is_char_boundary s 0 = true -> get_from sql i = Some s.
Proof.
  intros Hd Hi Hb. unfold get_from, is_char_boundary in *. rewrite lookup_of_drop, Hd.
  rewrite lookup_of_drop, drop_0 in Hb. destruct s as [|c s]; simpl in *; [|by rewrite Hb].
  apply (f_equal length) in Hd. rewrite length_drop in Hd. simpl in Hd. rewrite (proj2 (Nat.eqb_eq i (length sql))); [done|lia].
Qed.

Lemma boundary_app s t : s <> [] -> is_char_boundary s 0 = true -> is_char_boundary (s ++ t) 0 = true.
Proof. unfold is_char_boundary. rewrite !lookup_of_drop, !drop_0. by destruct s. Qed.

Lemma slice_of_drop {A} (sql : list A) i x rest : drop i sql = x ++ rest -> slice i (i + length x) sql = x.
Proof. intros Hd. unfold slice. rewrite Hd. replace (i + length x - i) with (length x) by lia. by rewrite take_app_length. Qed.

Lemma boundary_at sql i c rest : drop i sql = c :: rest -> is_continuation c = false -> is_char_boundary sql i = true.
Proof. intros Hd Hc. unfold is_char_boundary. rewrite lookup_of_drop, Hd. simpl. by rewrite Hc. Qed.

Lemma utf8_first s : utf8 s -> s = [] \/ exists b t, s = b :: t /\ is_continuation b = false.
Proof.
  intros (cs & -> & Hcs). destruct Hcs as [|c cs [Hc _] _]; [by left|]. right.
  destruct (wf_char_inv c Hc) as (b & t & -> & Hb & _). simpl. eauto.
Qed.

Lemma strip_prefix_app p s : strip_prefix p (p ++ s) = Some s.
Proof. induction p as [|c p IH]; simpl; [done|]. by rewrite Z.eqb_refl. Qed.


Lemma chars_fuel_concat fuel s : length s <= fuel -> concat (chars_fuel fuel s) = s.
Proof.
  revert s. induction fuel as [|fuel IH]; intros [|b s] Hl; try done; [simpl in Hl; lia|]. cbn [chars_fuel concat].
  pose proof (len_utf8_pos b). rewrite IH; [by rewrite take_drop|]. rewrite length_drop. simpl in *. lia.
Qed.

(** The characters of a text, put together, are the text. *)
Lemma chars_concat s : concat (chars s) = s.
Proof. by apply chars_fuel_concat. Qed.

Lemma chars_fuel_length fuel s : length (chars_fuel fuel s) <= length s.
Proof.
  revert s. induction fuel as [|fuel IH]; intros [|b s]; cbn [chars_fuel length]; try lia.
  pose proof (len_utf8_pos b). pose proof (IH (drop (len_utf8 b) (b :: s))) as Hd. rewrite length_drop in Hd. simpl in *. lia.
Qed.

(** A text has at most as many characters as bytes. *)
Lemma chars_length s : length (chars s) <= length s.
Proof. apply chars_fuel_length. Qed.
