(* ===== verification/Float64.v ===== *)
(** * Reading floating-point numbers

    [str::parse::<f64>] of the standard library, on the Standard Library's
    specification of IEEE 754 arithmetic: decimal digits with an optional point
    and exponent, rounded to the nearest double, ties to even.  The components
    that compare numbers in SQL text read them with it. *)

From S2P Require Import Prelude.
From Stdlib Require Import SpecFloat.

Definition f64 : Type := spec_float.

(** The value [m * 10 ^ e], rounded.  A quotient is taken with at least 64
    significant bits and the position of the rest. *)
Definition decimal_to_f64 (negative : bool) (m e : Z) : f64 :=
  if (m =? 0)%Z then S754_zero negative
  else if (0 <=? e)%Z then binary_normalize 53 1024 ((if negative then -1 else 1) * (m * 10 ^ e)) 0 negative
  else
    let den := (10 ^ (- e))%Z in
    let shift := Z.max 0 (66 + Z.log2 den - Z.log2 m) in
    let n := Z.shiftl m shift in
    let rest := (n mod den)%Z in
    let position := if (rest =? 0)%Z then loc_Exact else loc_Inexact (Z.compare (2 * rest) den) in
    binary_round_aux 53 1024 negative (n / den) (- shift) position.

Definition digits_value (s : text) : Z := fold_left (fun acc c => (10 * acc + (c - 48))%Z) s 0%Z.

(** The exponent and what is left, [None] if the marker has no digits. *)
Definition parse_exponent (s : text) : option Z :=
  match s with
  | [] => Some 0%Z
  | marker :: rest =>
    if negb ((marker =? 101) || (marker =? 69))%Z then None
    else
      let '(sign, digits) := match rest with
                             | c :: rest' => if (c =? 45)%Z then ((-1)%Z, rest') else if (c =? 43)%Z then (1%Z, rest') else (1%Z, rest)
                             | [] => (1%Z, rest)
                             end in
      if bool_decide (digits = []) || negb (forallb is_ascii_digit digits) then None else Some (sign * digits_value digits)%Z
  end.

(** [s.parse::<f64>().ok()]. *)
Definition parse_f64 (s : text) : option f64 :=
  let '(negative, body) := match s with
                           | c :: rest => if (c =? 45)%Z then (true, rest) else if (c =? 43)%Z then (false, rest) else (false, s)
                           | [] => (false, s)
                           end in
  if eq_ignore_ascii_case body (txt "inf") || eq_ignore_ascii_case body (txt "infinity") then Some (S754_infinity negative)
  else if eq_ignore_ascii_case body (txt "nan") then Some S754_nan
  else
    let '(whole, after) := span is_ascii_digit body in
    let '(fraction, after) := match after with
                              | c :: rest => if (c =? 46)%Z then span is_ascii_digit rest else ([], after)
                              | [] => ([], after)
                              end in
    if bool_decide (whole ++ fraction = []) then None
    else
      e ← parse_exponent after;
      Some (decimal_to_f64 negative (digits_value (whole ++ fraction)) (e - Z.of_nat (length fraction))).

Definition is_zero (x : f64) : bool := SFeqb x (S754_zero false).

(** The doubles nearest to one tenth and to the text of the largest one; text that
    is too large is infinite, text that is too small is zero. *)
Example parses_tenth : parse_f64 (txt "0.1") = Some (S754_finite false 7205759403792794 (-56)).
Proof. vm_compute. reflexivity. Qed.

Example parses_largest : parse_f64 (txt "1.7976931348623157e308") = Some (S754_finite false 9007199254740991 971).
Proof. vm_compute. reflexivity. Qed.

Example parses_extremes : parse_f64 (txt "-1e309") = Some (S754_infinity true) /\ parse_f64 (txt "2e-324") = Some (S754_zero false)
  /\ parse_f64 (txt "3e-324") = Some (S754_finite false 1 (-1074)) /\ parse_f64 (txt ".") = None /\ parse_f64 (txt "1e") = None.
Proof. vm_compute. done. Qed.
