(* ===== verification/Containers.v ===== *)
(** * Ordered containers of the Standard Library of Rust

    What the policy records and the settings use of [Vec], [HashMap] and
    [BTreeMap]: a map is a [gmap], a [BTreeMap] is walked in the order of its
    keys, names are trimmed, sorted and deduplicated.  The lemmas say that
    walking an ordered map visits exactly its bindings, and what a loop of
    [entry(key).or_default()] updates leaves at a key. *)

From S2P Require Import Prelude.

(** ** Strings *)

(** [str::trim] on a [String]. *)
Definition trim_str (s : string) : string := untxt (trim (txt s)).

(** [Vec::dedup]: runs of equal elements are reduced to their first. *)
Fixpoint dedup_adjacent {A} `{EqDecision A} (l : list A) : list A :=
  match l with
  | x :: rest =>
    match rest with
    | y :: _ => if decide (x = y) then dedup_adjacent rest else x :: dedup_adjacent rest
    | [] => [x]
    end
  | [] => []
  end.

(** Names trimmed, without the empty ones, in byte order and once each. *)
Definition trimmed_names (l : list string) : list string :=
  dedup_adjacent (merge_sort String.le (List.filter (fun s => negb (String.eqb s "")) (map trim_str l))).

(** ** Maps *)

Definition by_key {K V} (le : relation K) : relation (K * V) := fun a b => le a.1 b.1.

#[global] Instance by_key_dec {K V} (le : relation K) `{!RelDecision le} : RelDecision (by_key (V := V) le) :=
  fun a b => decide (le a.1 b.1).

(** [map.iter()] of a [BTreeMap] with keys ordered by [le]. *)
Definition btree_entries {K V} `{Countable K} (le : relation K) `{!RelDecision le} (m : gmap K V) : list (K * V) :=
  merge_sort (by_key le) (map_to_list m).

(** [*map.entry(key).or_insert(d)] updated by [f]. *)
Definition entry_update {K V} `{Countable K} (d : V) (key : K) (f : V -> V) (m : gmap K V) : gmap K V :=
  <[key := f (default d (m !! key))]> m.

(** ** Lemmas *)

Section trimming.

Lemma whitespace_prefix_app s t : whitespace_prefix s <> 0 -> whitespace_prefix (s ++ t) = whitespace_prefix s.
Proof.
  destruct s as [|a [|b [|c s]]]; [done|..]; simpl; intros Hs; repeat case_match; try done.
Qed.

Lemma whitespace_prefix_le s : whitespace_prefix s <= length s.
Proof. destruct s as [|a [|b [|c s]]]; simpl; repeat case_match; simpl; lia. Qed.

Lemma trim_start_fuel_solid fuel s : length s <= fuel -> whitespace_prefix (trim_start_fuel fuel s) = 0.
Proof.
  revert s. induction fuel as [|fuel IH]; intros s Hs; simpl; [by destruct s; [|simpl in Hs; lia]|].
  pose proof (whitespace_prefix_le s). destruct (whitespace_prefix s) as [|n] eqn:E; [done|].
  apply IH. rewrite length_drop. lia.
Qed.

Lemma whitespace_suffix_le s : whitespace_suffix s <= length s.
Proof.
  unfold whitespace_suffix. pose proof (whitespace_prefix_le (drop (length s - 1) s)) as H. rewrite length_drop in H.
  destruct (Nat.eqb_spec (whitespace_prefix (drop (length s - 1) s)) 1); [lia|].
  destruct (Nat.leb_spec 2 (length s)); cbn [andb]; [|destruct (Nat.leb_spec 3 (length s)); cbn [andb]; [exfalso; lia|lia]].
  destruct (_ =? 2); [lia|]. destruct (Nat.leb_spec 3 (length s)); cbn [andb]; [|lia]. destruct (_ =? 3); lia.
Qed.

Lemma trim_end_fuel_solid fuel s : length s <= fuel -> whitespace_suffix (trim_end_fuel fuel s) = 0.
Proof.
  revert s. induction fuel as [|fuel IH]; intros s Hs; simpl; [by destruct s; [|simpl in Hs; lia]|].
  pose proof (whitespace_suffix_le s). destruct (whitespace_suffix s) as [|n] eqn:E; [done|].
  apply IH. rewrite length_take. lia.
Qed.

Lemma trim_start_solid_id s : whitespace_prefix s = 0 -> trim_start s = s.
Proof. intros Hs. unfold trim_start. destruct (length s); simpl; [done|]. by rewrite Hs. Qed.

Lemma trim_end_solid_id s : whitespace_suffix s = 0 -> trim_end s = s.
Proof. intros Hs. unfold trim_end. destruct (length s); simpl; [done|]. by rewrite Hs. Qed.

Lemma trim_idemp s : trim (trim s) = trim s.
Proof.
  unfold trim. set (t := trim_start s).
  assert (Ht : whitespace_prefix t = 0) by (apply trim_start_fuel_solid; lia).
  rewrite (trim_start_solid_id (trim_end t)).
  - apply trim_end_solid_id, trim_end_fuel_solid. lia.
  - destruct (trim_end_prefix t) as [u Hu]. rewrite Hu in Ht.
    destruct (decide (whitespace_prefix (trim_end t) = 0)) as [|Hn]; [done|].
    by rewrite whitespace_prefix_app in Ht.
Qed.

Lemma txt_bytes s : Forall (fun c => (0 <= c < 256)%Z) (txt s).
Proof.
  unfold txt. apply Forall_forall. intros c Hc. apply list_elem_of_In, in_map_iff in Hc as (a & <- & _).
  pose proof (Ascii.N_ascii_bounded a). lia.
Qed.

Lemma txt_untxt s : Forall (fun c => (0 <= c < 256)%Z) s -> txt (untxt s) = s.
Proof.
  intros Hs. unfold txt, untxt. rewrite String.list_ascii_of_string_of_list_ascii, map_map.
  rewrite <- (map_id s) at 2. apply map_ext_in. intros c Hc%list_elem_of_In.
  rewrite Forall_forall in Hs. specialize (Hs c Hc). rewrite Ascii.N_ascii_embedding by lia. lia.
Qed.

Lemma trim_str_idemp s : trim_str (trim_str s) = trim_str s.
Proof.
  unfold trim_str. rewrite txt_untxt; [by rewrite trim_idemp|].
  destruct (trim_infix (txt s)) as (a & b & E). pose proof (txt_bytes s) as H. rewrite E in H.
  by apply Forall_app in H as [_ [H _]%Forall_app].
Qed.
End trimming.

Lemma elem_of_dedup_adjacent {A} `{EqDecision A} (l : list A) x : x ∈ dedup_adjacent l <-> x ∈ l.
Proof.
  induction l as [|y [|z l] IH]; [done|done|]. cbn [dedup_adjacent] in *. case_decide as E.
  - subst. rewrite IH, !elem_of_cons. tauto.
  - rewrite (elem_of_cons _ x y), IH, (elem_of_cons (z :: l) x y). tauto.
Qed.

Lemma elem_of_trimmed_names l x : x ∈ trimmed_names l <-> x <> "" /\ exists s, s ∈ l /\ trim_str s = x.
Proof.
  unfold trimmed_names. rewrite elem_of_dedup_adjacent, merge_sort_Permutation, elem_of_bool_filter, negb_true_iff, String.eqb_neq.
  rewrite list_elem_of_In, in_map_iff. setoid_rewrite list_elem_of_In. naive_solver.
Qed.

(** On names that are trimmed already nothing but the empty name is lost. *)
Definition wf_name (s : string) : Prop := trim_str s = s /\ s <> "".

#[global] Instance wf_name_dec s : Decision (wf_name s) := _.

Lemma wf_trim s : trim_str s <> "" -> wf_name (trim_str s).
Proof. split; [apply trim_str_idemp|done]. Qed.

Lemma elem_of_trimmed_wf l x : Forall wf_name l -> x ∈ trimmed_names l <-> x ∈ l.
Proof.
  intros Hl. rewrite Forall_forall in Hl. rewrite elem_of_trimmed_names. split.
  - intros (Hx & s & Hs & <-). destruct (Hl s Hs) as [-> _]. done.
  - intros Hx. destruct (Hl x Hx) as [E Hn]. eauto.
Qed.

Lemma trimmed_names_wf l : Forall wf_name (trimmed_names l).
Proof. apply Forall_forall. intros x (Hx & s & _ & <-)%elem_of_trimmed_names. by apply wf_trim. Qed.

Section btree.
Context {K V : Type} `{Countable K} (le : relation K) `{!RelDecision le}.
Implicit Types m : gmap K V.

Lemma elem_of_btree_entries m k v : (k, v) ∈ btree_entries le m <-> m !! k = Some v.
Proof. unfold btree_entries. by rewrite merge_sort_Permutation, elem_of_map_to_list. Qed.

Lemma btree_entries_keys_NoDup m : NoDup (btree_entries le m).*1.
Proof. unfold btree_entries. rewrite merge_sort_Permutation. apply NoDup_fst_map_to_list. Qed.

Lemma btree_entries_sorted `{!Total le} m : Sorted (by_key le) (btree_entries le m).
Proof. unfold btree_entries. apply Sorted_merge_sort. intros a b. apply (total le). Qed.

Lemma list_to_map_btree_entries m : list_to_map (btree_entries le m) = m.
Proof.
  unfold btree_entries. rewrite (list_to_map_proper _ (map_to_list m)).
  - apply list_to_map_to_list.
  - rewrite merge_sort_Permutation. apply NoDup_fst_map_to_list.
  - apply merge_sort_Permutation.
Qed.
End btree.

Lemma lookup_entry_update {K V} `{Countable K} (d : V) k f (m : gmap K V) k' :
  entry_update d k f m !! k' = if decide (k = k') then Some (f (default d (m !! k))) else m !! k'.
Proof. unfold entry_update. case_decide; subst; by simplify_map_eq. Qed.

(** A loop of updates whose keys are distinct: at a key there is the update of
    the element that has it. *)
Lemma foldl_entry_update {K V A} `{Countable K} (d : V) (key : A -> K) (f : A -> V -> V) l (m : gmap K V) k :
  NoDup (map key l) ->
  foldl (fun m a => entry_update d (key a) (f a) m) m l !! k =
  match List.find (fun a => bool_decide (key a = k)) l with
  | Some a => Some (f a (default d (m !! k)))
  | None => m !! k
  end.
Proof.
  revert m. induction l as [|a l IH]; intros m Hl; [done|]. simpl in *. apply NoDup_cons in Hl as [Ha Hl].
  rewrite IH by done. case_bool_decide as E; rewrite lookup_entry_update; subst.
  - destruct (List.find _ l) as [b|] eqn:Ef; [|by rewrite decide_True].
    apply List.find_some in Ef as [Hb E%bool_decide_eq_true]. destruct Ha. rewrite <- E. by apply list_elem_of_In, in_map.
  - by rewrite decide_False.
Qed.

Lemma Sorted_weaken {A} (R S : relation A) l : (forall a b, R a b -> S a b) -> Sorted R l -> Sorted S l.
Proof. intros HRS. induction 1 as [|a l Hl IH Ha]; constructor; [done|]. destruct Ha; constructor; auto. Qed.

(** A loop over the bindings of an ordered map that changes each key by itself. *)
Lemma foldl_btree {K V W} `{Countable K} (le : relation K) `{!RelDecision le} (upd : K * V -> option W -> option W)
    (step : gmap K W -> K * V -> gmap K W) (m : gmap K V) (acc : gmap K W) k :
  (forall acc e k, step acc e !! k = if decide (k = e.1) then upd e (acc !! k) else acc !! k) ->
  foldl step acc (btree_entries le m) !! k = match m !! k with Some v => upd (k, v) (acc !! k) | None => acc !! k end.
Proof.
  intros Hstep.
  assert (Hl : forall l acc, NoDup l.*1 ->
    (forall v, (k, v) ∈ l -> foldl step acc l !! k = upd (k, v) (acc !! k)) /\ (k ∉ l.*1 -> foldl step acc l !! k = acc !! k)).
  { induction l as [|[k' v'] l IH]; intros acc' Hn; cbn [foldl]; [set_solver|]. apply NoDup_cons in Hn as [Hni Hn].
    destruct (IH (step acc' (k', v')) Hn) as [IH1 IH2]. split.
    - intros v [Eq|Hv]%elem_of_cons.
      + injection Eq as <- <-. rewrite IH2 by done. rewrite Hstep. by rewrite decide_True.
      + rewrite (IH1 v Hv), Hstep, decide_False; [done|]. intros ->. apply Hni. exact (list_elem_of_fmap_2 fst _ _ Hv).
    - intros Hn'. cbn [fmap list_fmap] in Hn'. apply not_elem_of_cons in Hn' as [Hne Hn']. by rewrite IH2, Hstep, decide_False. }
  destruct (Hl (btree_entries le m) acc (btree_entries_keys_NoDup le m)) as [H1 H2]. destruct (m !! k) as [v|] eqn:E.
  - apply H1. by apply elem_of_btree_entries.
  - apply H2. intros ([k' v] & Ek & Hi)%list_elem_of_fmap. simpl in Ek. subst k'. apply elem_of_btree_entries in Hi. congruence.
Qed.
