(* ===== verification/StateMachine.v ===== *)
(** * Persisted state machines

    Models [crates/dbx-core/src/persistence/state_persistence.rs] (the
    [StateBackend] trait, [LocalBackend], the [StateTransition] graph and
    [StateMachine]) and the [state_store] table of
    [crates/dbx-core/src/persistence/storage.rs].

    A backend is a type [B] of backend states with an instance of
    [StateBackend]; every operation maps a state to a result and the next
    state.  [StateBackendLaws] is what the clients of the trait rely on.
    [Storage] models the SQLite table row by row; [faults] is the schedule of
    I/O failures, one entry per statement, so that every theorem covers a
    statement that fails. *)

From S2P Require Import Prelude Json.

(** ** The backend interface *)

Class StateBackend (B : Type) := {
  be_save : string -> bytes -> B -> result unit string * B;
  be_save_with_content_type : string -> bytes -> string -> B -> result unit string * B;
  be_load : string -> B -> result (option bytes) string * B;
  be_delete : string -> B -> result unit string * B;
  be_exists : string -> B -> result bool string * B;
  be_compare_and_swap : string -> option bytes -> bytes -> B -> result bool string * B;
}.

(** What a backend promises: it is a map from keys to payloads, a failed or
    refused operation changes nothing. *)
Class StateBackendLaws (B : Type) `{StateBackend B} := {
  contents : B -> gmap string bytes;
  save_spec k v b r b' : be_save k v b = (r, b') ->
    contents b' = match r with Ok _ => <[k:=v]> (contents b) | Err _ => contents b end;
  load_spec k b r b' : be_load k b = (r, b') ->
    contents b' = contents b /\ forall o, r = Ok o -> o = contents b !! k;
  delete_spec k b r b' : be_delete k b = (r, b') ->
    contents b' = match r with Ok _ => delete k (contents b) | Err _ => contents b end;
  exists_spec k b r b' : be_exists k b = (r, b') ->
    contents b' = contents b /\ forall x, r = Ok x -> x = bool_decide (is_Some (contents b !! k));
  cas_spec k old new b r b' : be_compare_and_swap k old new b = (r, b') ->
    contents b' = match r with Ok true => <[k:=new]> (contents b) | _ => contents b end;
}.

(** ** The [state_store] table of [Storage] *)

Module Storage.

Record state_row := {
  row_value : bytes;
  row_content_type : string;
  row_version : Z;
}.

(** The table, and the outcomes of the next statements: [Some e] makes the
    statement fail with error [e], anything else lets it run. *)
Record t := {
  rows : gmap string state_row;
  faults : list (option string);
}.

(** [Storage::with_conn]: run one statement, or report the scheduled failure. *)
Definition with_conn {A} (f : gmap string state_row -> A * gmap string state_row) (s : t)
    : result A string * t :=
  match s.(faults) with
  | Some e :: rest => (Err e, {| rows := s.(rows); faults := rest |})
  | fs => let '(a, rows') := f s.(rows) in (Ok a, {| rows := rows'; faults := drop 1 fs |})
  end.

Definition save_state (key : string) (value : bytes) (content_type : string) : t -> result unit string * t :=
  with_conn (fun rows =>
    let version := match rows !! key with Some r => (r.(row_version) + 1)%Z | None => 1%Z end in
    (tt, <[key := {| row_value := value; row_content_type := content_type; row_version := version |}]> rows)).

Definition load_state (key : string) : t -> result (option (bytes * string)) string * t :=
  with_conn (fun rows => ((fun r => (r.(row_value), r.(row_content_type))) <$> rows !! key, rows)).

Definition delete_state (key : string) : t -> result unit string * t :=
  with_conn (fun rows => (tt, delete key rows)).

Definition state_exists (key : string) : t -> result bool string * t :=
  with_conn (fun rows => (bool_decide (is_Some (rows !! key)), rows)).

Definition get_state_version (key : string) : t -> result (option Z) string * t :=
  with_conn (fun rows => (row_version <$> rows !! key, rows)).

(** The body of [compare_and_swap_state]: the version is read and the row is
    written under one hold of the connection. *)
Definition cas_rows (key : string) (expected_version : option Z) (new_value : bytes) (content_type : string)
    (rows : gmap string state_row) : bool * gmap string state_row :=
  match row_version <$> rows !! key, expected_version with
  | None, None =>
      (true, <[key := {| row_value := new_value; row_content_type := content_type; row_version := 1 |}]> rows)
  | Some v, Some expected =>
      if (v =? expected)%Z
      then (true, <[key := {| row_value := new_value; row_content_type := content_type; row_version := v + 1 |}]> rows)
      else (false, rows)
  | _, _ => (false, rows)
  end.

Definition compare_and_swap_state (key : string) (expected_version : option Z) (new_value : bytes)
    (content_type : string) : t -> result bool string * t :=
  with_conn (cas_rows key expected_version new_value content_type).

End Storage.

(** ** Transitions *)

Inductive StateTransition : Type :=
| Created
| Running
| Paused
| OscSyncing
| Completed
| Failed
| Cancelled
| RollingBack
| FullyRolledBack
| PartiallyRolledBack
| RecoveryRequired.

#[global] Instance StateTransition_eq_dec : EqDecision StateTransition.
Proof. solve_decision. Defined.

Definition as_str (s : StateTransition) : string :=
  match s with
  | Created => "created"
  | Running => "running"
  | Paused => "paused"
  | OscSyncing => "osc_syncing"
  | Completed => "completed"
  | Failed => "failed"
  | Cancelled => "cancelled"
  | RollingBack => "rolling_back"
  | FullyRolledBack => "fully_rolled_back"
  | PartiallyRolledBack => "partially_rolled_back"
  | RecoveryRequired => "recovery_required"
  end.

Definition from_str (s : string) : option StateTransition :=
  if String.eqb s "created" then Some Created
  else if String.eqb s "running" then Some Running
  else if String.eqb s "paused" then Some Paused
  else if String.eqb s "osc_syncing" then Some OscSyncing
  else if String.eqb s "completed" then Some Completed
  else if String.eqb s "failed" then Some Failed
  else if String.eqb s "cancelled" then Some Cancelled
  else if String.eqb s "rolling_back" then Some RollingBack
  else if String.eqb s "fully_rolled_back" then Some FullyRolledBack
  else if String.eqb s "partially_rolled_back" then Some PartiallyRolledBack
  else if String.eqb s "recovery_required" then Some RecoveryRequired
  else None.

Definition ALLOWED_TRANSITIONS : list (StateTransition * list StateTransition) :=
  [ (Created, [Running; Cancelled]);
    (Running, [Paused; OscSyncing; Completed; Failed]);
    (Paused, [Running; Cancelled]);
    (OscSyncing, [Completed; Failed]);
    (Completed, [RollingBack; FullyRolledBack]);
    (Failed, [Running; Cancelled; RollingBack; RecoveryRequired]);
    (Cancelled, []);
    (RollingBack, [FullyRolledBack; PartiallyRolledBack; RecoveryRequired]);
    (FullyRolledBack, []);
    (PartiallyRolledBack, [RecoveryRequired]);
    (RecoveryRequired, []) ].

Definition is_valid_transition (from to : StateTransition) : bool :=
  existsb (fun '(state, allowed) => bool_decide (state = from) && bool_decide (to ∈ allowed))
    ALLOWED_TRANSITIONS.

(** ** Entries and the state machine *)

Record StateEntry := {
  se_key : string;
  se_current_state : string;
  se_version : Z;
  se_metadata : json;
}.

#[global] Instance StateEntry_eq_dec : EqDecision StateEntry.
Proof. solve_decision. Defined.
#[global] Instance StateEntry_countable : Countable StateEntry.
Proof.
  refine (inj_countable' (fun e => (se_key e, se_current_state e, se_version e, se_metadata e))
            (fun '(k, c, v, m) => {| se_key := k; se_current_state := c; se_version := v; se_metadata := m |}) _).
  by intros [].
Defined.

(** [u64] addition as the release profile compiles it. *)
Definition u64_add (a b : Z) : Z := ((a + b) mod 2 ^ 64)%Z.

Definition STATE_KEY_PREFIX : string := "state:".
Definition state_key (key : string) : string := STATE_KEY_PREFIX +:+ key.

(** [LocalBackend]: the trait over [Storage].  The version a swap expects is
    read from the payload the caller passes as [old]. *)
Section LocalBackend.
Context `{Codec StateEntry}.

Definition local_compare_and_swap (key : string) (old : option bytes) (new : bytes) (s : Storage.t)
    : result bool string * Storage.t :=
  match old with
  | Some data =>
    match from_slice (A:=StateEntry) data with
    | Err e => (Err ("CAS deserialize error: " +:+ e), s)
    | Ok entry => Storage.compare_and_swap_state key (Some entry.(se_version)) new "application/json" s
    end
  | None => Storage.compare_and_swap_state key None new "application/json" s
  end.

#[global] Instance LocalBackend : StateBackend Storage.t := {
  be_save k v := Storage.save_state k v "application/octet-stream";
  be_save_with_content_type k v c := Storage.save_state k v c;
  be_load k s := let '(r, s') := Storage.load_state k s in
    (match r with Ok o => Ok (fst <$> o) | Err e => Err e end, s');
  be_delete := Storage.delete_state;
  be_exists := Storage.state_exists;
  be_compare_and_swap := local_compare_and_swap;
}.

End LocalBackend.

Section StateMachine.
Context {B : Type} `{StateBackend B} `{Codec StateEntry}.

Definition create_state (key : string) (metadata : json) (b : B) : result StateEntry string * B :=
  let entry := {| se_key := key; se_current_state := as_str Created; se_version := 1; se_metadata := metadata |} in
  match to_vec entry with
  | Err e => (Err e, b)
  | Ok data =>
    let '(r, b') := be_save (state_key key) data b in
    (match r with Ok _ => Ok entry | Err e => Err e end, b')
  end.

Definition compare_and_swap_state (key : string) (expected_version : Z) (new_state : StateEntry) (b : B)
    : result bool string * B :=
  let old_entry := {| se_key := key; se_current_state := ""; se_version := expected_version; se_metadata := JNull |} in
  match to_vec old_entry with
  | Err e => (Err e, b)
  | Ok old_data =>
    match to_vec new_state with
    | Err e => (Err e, b)
    | Ok new_data => be_compare_and_swap (state_key key) (Some old_data) new_data b
    end
  end.

(** The load half of a round of [transition]: the entry as read, and the entry
    to swap in. *)
Definition prepare_transition (key : string) (to : StateTransition) (b : B)
    : result (StateEntry * StateEntry) string * B :=
  let '(raw, b) := be_load (state_key key) b in
  let r :=
    let? raw := raw in
    match raw with
    | None => Err ("State not found: " +:+ key)
    | Some data =>
      let? entry := from_slice (A:=StateEntry) data in
      match from_str entry.(se_current_state) with
      | None => Err ("Invalid current state: " +:+ entry.(se_current_state))
      | Some current =>
        if is_valid_transition current to
        then Ok (entry, {| se_key := entry.(se_key); se_current_state := as_str to;
                           se_version := u64_add entry.(se_version) 1; se_metadata := entry.(se_metadata) |})
        else Err ("Invalid transition: " +:+ as_str current +:+ " -> " +:+ as_str to)
      end
    end in
  (r, b).

(** [transition]: [attempts] rounds of load, check and swap; [max_retries = 3]
    gives the four rounds of [for attempt in 0..=max_retries]. *)
Fixpoint transition_loop (attempts : nat) (key : string) (to : StateTransition) (b : B)
    : result StateEntry string * B :=
  match attempts with
  | 0 => (Err ("CAS failed after " +:+ pretty 3%Z +:+ " retries for state key: " +:+ key), b)
  | S attempts' =>
    let '(r, b) := prepare_transition key to b in
    match r with
    | Err e => (Err e, b)
    | Ok (old, new) =>
      let '(r, b) := compare_and_swap_state key old.(se_version) new b in
      match r with
      | Err e => (Err e, b)
      | Ok true => (Ok new, b)
      | Ok false => transition_loop attempts' key to b
      end
    end
  end.

Definition transition (key : string) (to : StateTransition) (b : B) : result StateEntry string * B :=
  transition_loop 4 key to b.

Definition get_state (key : string) (b : B) : result (option StateEntry) string * B :=
  let '(raw, b) := be_load (state_key key) b in
  (let? raw := raw in
   match raw with
   | None => Ok None
   | Some data => let? entry := from_slice (A:=StateEntry) data in Ok (Some entry)
   end, b).

Definition delete_state (key : string) (b : B) : result unit string * B :=
  be_delete (state_key key) b.

End StateMachine.

(** ** Several writers

    Any number of tasks run [transition] on the same key; each load and each
    swap is one statement on the shared table, so the tasks interleave at that
    grain.  [pending] holds, for a task between its load and its swap, the
    entry it read and the entry it will write. *)
Module Concurrent.
Section Writers.
Context `{Codec StateEntry}.

Record sys := { store : Storage.t; pending : gmap nat (StateEntry * StateEntry) }.

(** The version column is an SQLite INTEGER. *)
Definition version_in_range (key : string) (s : Storage.t) : Prop :=
  forall r, s.(Storage.rows) !! state_key key = Some r -> (0 <= r.(Storage.row_version) < 2 ^ 63 - 1)%Z.

Inductive step (key : string) : sys -> sys -> Prop :=
| step_load i to old new s st' :
    prepare_transition key to s.(store) = (Ok (old, new), st') ->
    step key s {| store := st'; pending := <[i := (old, new)]> s.(pending) |}
| step_load_fails to e s st' :
    prepare_transition key to s.(store) = (Err e, st') ->
    step key s {| store := st'; pending := s.(pending) |}
| step_swap i old new r s st' :
    s.(pending) !! i = Some (old, new) ->
    version_in_range key s.(store) ->
    compare_and_swap_state key old.(se_version) new s.(store) = (r, st') ->
    step key s {| store := st'; pending := delete i s.(pending) |}.

(** The row of [key] holds entry [e], at the row version [e] says, in state [cur]. *)
Definition holds (key : string) (s : Storage.t) (e : StateEntry) (cur : StateTransition) : Prop :=
  exists r, s.(Storage.rows) !! state_key key = Some r /\
            from_slice r.(Storage.row_value) = Ok e /\
            r.(Storage.row_version) = e.(se_version) /\
            from_str e.(se_current_state) = Some cur.

Definition valid_edge (a b : StateTransition) : Prop := is_valid_transition a b = true.

End Writers.
End Concurrent.

(** ** Basic facts *)

Lemma from_as_str s : from_str (as_str s) = Some s.
Proof. by destruct s. Qed.

Section StorageFacts.
Implicit Types s : Storage.t.

Lemma with_conn_inv {A} (f : gmap string Storage.state_row -> A * gmap string Storage.state_row) s r s' :
  Storage.with_conn f s = (r, s') ->
  (exists e, r = Err e /\ s'.(Storage.rows) = s.(Storage.rows)) \/
  r = Ok (f s.(Storage.rows)).1 /\ s'.(Storage.rows) = (f s.(Storage.rows)).2.
Proof.
  unfold Storage.with_conn. destruct s as [rows [|[e|] fs]]; simpl;
    try destruct (f rows) eqn:E; intros; simplify_eq/=; eauto.
Qed.

Definition payloads (s : Storage.t) : gmap string bytes := Storage.row_value <$> s.(Storage.rows).

Lemma cas_rows_payloads k o v c rows :
  Storage.row_value <$> (Storage.cas_rows k o v c rows).2 =
  if (Storage.cas_rows k o v c rows).1 then <[k := v]> (Storage.row_value <$> rows)
  else Storage.row_value <$> rows.
Proof.
  unfold Storage.cas_rows.
  destruct (Storage.row_version <$> rows !! k), o; simpl; try case_match; simpl;
    by rewrite ?fmap_insert.
Qed.

End StorageFacts.

(** [LocalBackend] keeps the promise of the trait. *)
#[global, refine] Instance LocalBackendLaws `{Codec StateEntry} : StateBackendLaws Storage.t := {
  contents := payloads;
}.
Proof.
  all: unfold payloads; simpl.
  - intros k v b r b' Hs. apply with_conn_inv in Hs as [(e & -> & ->)|(-> & ->)]; simpl; [done|].
    by rewrite fmap_insert.
  - intros k b r b' Hl. unfold Storage.load_state in Hl.
    destruct (Storage.with_conn _ b) as [r0 b0] eqn:E. simplify_eq/=.
    apply with_conn_inv in E as [(e & -> & ->)|(-> & ->)]; simpl; split; try done.
    intros o ?. simplify_eq. rewrite lookup_fmap. by destruct (Storage.rows b !! k).
  - intros k b r b' Hd. apply with_conn_inv in Hd as [(e & -> & ->)|(-> & ->)]; simpl; [done|].
    by rewrite fmap_delete.
  - intros k b r b' He. apply with_conn_inv in He as [(e & -> & ->)|(-> & ->)]; simpl; split; try done.
    intros x ?. simplify_eq. rewrite lookup_fmap.
    apply bool_decide_ext. by rewrite fmap_is_Some.
  - intros k old new b r b' Hc. unfold local_compare_and_swap in Hc.
    destruct old as [d|]; [destruct (from_slice d) as [e|e]; simplify_eq; [|done]|];
      apply with_conn_inv in Hc as [(e' & -> & ->)|(-> & ->)]; try done;
      rewrite cas_rows_payloads; by destruct (Storage.cas_rows _ _ _ _ _).1.
Defined.

(** ** Transitions on a lawful backend *)

Section TransitionFacts.
Context {B : Type} `{StateBackendLaws B} `{Codec StateEntry}.
Implicit Types b : B.

(** The entry a successful round writes. *)
Definition advanced (old new : StateEntry) (to : StateTransition) : Prop :=
  new = {| se_key := old.(se_key); se_current_state := as_str to;
           se_version := u64_add old.(se_version) 1; se_metadata := old.(se_metadata) |}.

Lemma prepare_transition_inv key to b r b' :
  prepare_transition key to b = (r, b') ->
  contents b' = contents b /\
  forall old new, r = Ok (old, new) ->
    exists data cur, contents b !! state_key key = Some data /\ from_slice data = Ok old /\
      from_str old.(se_current_state) = Some cur /\ is_valid_transition cur to = true /\
      advanced old new to.
Proof.
  unfold prepare_transition. destruct (be_load _ b) as [raw b1] eqn:E.
  apply load_spec in E as [Hc Hr]. intros ?; simplify_eq. split; [done|].
  intros old new Hok. destruct raw as [o|e]; [|done]. simpl in Hok.
  specialize (Hr o eq_refl). destruct o as [data|]; [|done].
  destruct (from_slice data) as [entry|] eqn:Ef; [|done]. simpl in Hok.
  destruct (from_str _) as [cur|] eqn:Es; [|done].
  destruct (is_valid_transition cur to) eqn:Ev; [|done]. simplify_eq. by exists data, cur.
Qed.

Lemma cas_state_inv key v new b r b' :
  compare_and_swap_state key v new b = (r, b') ->
  match r with
  | Ok true => exists data, to_vec new = Ok data /\ contents b' = <[state_key key := data]> (contents b)
  | _ => contents b' = contents b
  end.
Proof.
  unfold compare_and_swap_state. destruct (to_vec _) as [old|]; [|by intros; simplify_eq].
  destruct (to_vec new) as [data|] eqn:E; [|by intros; simplify_eq].
  intros Hc%cas_spec. destruct r as [[]|]; eauto.
Qed.

Lemma transition_loop_spec n key to b r b' :
  transition_loop n key to b = (r, b') ->
  match r with
  | Err _ => contents b' = contents b
  | Ok new => exists old data data' cur,
      contents b !! state_key key = Some data /\ from_slice data = Ok old /\
      from_str old.(se_current_state) = Some cur /\ is_valid_transition cur to = true /\
      advanced old new to /\ to_vec new = Ok data' /\
      contents b' = <[state_key key := data']> (contents b)
  end.
Proof.
  revert b. induction n as [|n IH]; intros b; simpl; [by intros; simplify_eq|].
  destruct (prepare_transition key to b) as [rp b1] eqn:Ep.
  apply prepare_transition_inv in Ep as [Hc1 Hp].
  destruct rp as [[old new]|e]; [|by intros; simplify_eq].
  destruct (Hp old new eq_refl) as (data & cur & Hd & Hf & Hs & Hv & Ha).
  destruct (compare_and_swap_state _ _ _ b1) as [rc b2] eqn:Ec. apply cas_state_inv in Ec.
  destruct rc as [[]|]; [|intros Hloop; apply IH in Hloop|].
  - destruct Ec as (data' & Hv' & Hc2). intros; simplify_eq.
    exists old, data, data', cur. rewrite Hc2, Hc1. eauto 10.
  - rewrite <- Hc1, <- Ec. done.
  - intros; simplify_eq. congruence.
Qed.

(** Functional behaviour of [StateMachine::transition] on any backend that
    keeps the trait's promise: a success replaces the stored entry of exactly
    that key by one in the requested state, the edge from the stored state is
    one of [ALLOWED_TRANSITIONS], key and metadata are kept and the version is
    the old one plus one; an error leaves the store as it was. *)
Theorem transition_spec key to b r b' :
  transition key to b = (r, b') ->
  match r with
  | Err _ => contents b' = contents b
  | Ok new => exists old data data' cur,
      contents b !! state_key key = Some data /\ from_slice data = Ok old /\
      from_str old.(se_current_state) = Some cur /\ is_valid_transition cur to = true /\
      advanced old new to /\ to_vec new = Ok data' /\
      contents b' = <[state_key key := data']> (contents b)
  end.
Proof. apply transition_loop_spec. Qed.

End TransitionFacts.

(** ** The table behind [LocalBackend] *)

Section LocalFacts.
Context `{Codec StateEntry} `{!TotalCodec StateEntry}.
Implicit Types s : Storage.t.

Lemma local_cas_eq key v new s :
  exists data, to_vec new = Ok data /\
  compare_and_swap_state key v new s =
    Storage.compare_and_swap_state (state_key key) (Some v) data "application/json" s.
Proof.
  unfold compare_and_swap_state; simpl. destruct (to_vec_total new) as [data Hd].
  destruct (to_vec_total {| se_key := key; se_current_state := ""; se_version := v; se_metadata := JNull |})
    as [old Ho].
  rewrite Ho, Hd. exists data. split; [done|]. unfold local_compare_and_swap.
  by rewrite (from_to_slice _ _ Ho).
Qed.

(** A round that runs without faults. *)
Lemma local_prepare_ok key to s r e cur :
  s.(Storage.faults) = [] -> s.(Storage.rows) !! state_key key = Some r ->
  from_slice r.(Storage.row_value) = Ok e -> from_str e.(se_current_state) = Some cur ->
  is_valid_transition cur to = true ->
  exists new, prepare_transition key to s = (Ok (e, new), s) /\ advanced e new to.
Proof.
  intros Hf Hr He Hs Hv. eexists. split; [|done].
  unfold prepare_transition; simpl. unfold Storage.load_state, Storage.with_conn.
  destruct s as [rows fs]; simpl in *; subst fs. rewrite Hr; simpl. rewrite He; simpl.
  rewrite Hs, Hv. done.
Qed.

Lemma local_cas_mismatch key v new s r :
  s.(Storage.faults) = [] -> s.(Storage.rows) !! state_key key = Some r ->
  r.(Storage.row_version) <> v ->
  compare_and_swap_state key v new s = (Ok false, s).
Proof.
  intros Hf Hr Hne. destruct (local_cas_eq key v new s) as (data & _ & ->).
  destruct s as [rows fs]; simpl in *; subst fs.
  unfold Storage.compare_and_swap_state, Storage.with_conn, Storage.cas_rows; simpl.
  rewrite Hr; simpl. rewrite (proj2 (Z.eqb_neq _ _) Hne). done.
Qed.

(** When the entry's own version is not the row's, every round of [transition]
    loses its swap. *)
Lemma transition_loop_stuck n key to s r e cur :
  s.(Storage.faults) = [] -> s.(Storage.rows) !! state_key key = Some r ->
  from_slice r.(Storage.row_value) = Ok e -> from_str e.(se_current_state) = Some cur ->
  is_valid_transition cur to = true -> r.(Storage.row_version) <> e.(se_version) ->
  transition_loop n key to s =
    (Err ("CAS failed after " +:+ pretty 3%Z +:+ " retries for state key: " +:+ key), s).
Proof.
  intros Hf Hr He Hs Hv Hne. induction n as [|n IH]; [done|]. simpl.
  destruct (local_prepare_ok key to s r e cur) as (new & Hp & _); [done..|].
  rewrite Hp. by rewrite (local_cas_mismatch _ _ _ _ r).
Qed.

Lemma create_state_row key meta s :
  s.(Storage.faults) = [] ->
  exists data e, to_vec e = Ok data /\
    e = {| se_key := key; se_current_state := "created"; se_version := 1; se_metadata := meta |} /\
    create_state key meta s =
      (Ok e, {| Storage.rows := <[state_key key :=
          {| Storage.row_value := data; Storage.row_content_type := "application/octet-stream";
             Storage.row_version := match s.(Storage.rows) !! state_key key with
               Some r => (r.(Storage.row_version) + 1)%Z | None => 1%Z end |}]> s.(Storage.rows);
         Storage.faults := [] |}).
Proof.
  intros Hf. unfold create_state; simpl. set (e := {| se_key := key |}) in *.
  destruct (to_vec_total e) as [data Hd]. exists data, e. rewrite Hd. split_and!; [done..|].
  unfold Storage.save_state, Storage.with_conn. by rewrite Hf.
Qed.

(** A state that is created on a fresh key can make every transition its
    graph allows: on a table with no row for the key and no I/O failure,
    [create_state] followed by [transition] to [Running] or [Cancelled]
    succeeds and stores version 2. *)
Theorem create_then_transition key meta to s :
  s.(Storage.faults) = [] -> s.(Storage.rows) !! state_key key = None ->
  is_valid_transition Created to = true ->
  exists e s1 e' s2 data,
    create_state key meta s = (Ok e, s1) /\ transition key to s1 = (Ok e', s2) /\
    e'.(se_current_state) = as_str to /\ e'.(se_version) = 2%Z /\ to_vec e' = Ok data /\
    s2.(Storage.rows) = <[state_key key := {| Storage.row_value := data;
        Storage.row_content_type := "application/json"; Storage.row_version := 2 |}]> s.(Storage.rows).
Proof.
  intros Hf Hn Hv. destruct (create_state_row key meta s Hf) as (data & e & Hd & He & Hc).
  rewrite Hn in Hc. match type of Hc with _ = (_, ?x) => set (s1 := x) in * end. exists e, s1.
  assert (Hrow : s1.(Storage.rows) !! state_key key = Some {| Storage.row_value := data;
    Storage.row_content_type := "application/octet-stream"; Storage.row_version := 1 |})
    by apply lookup_insert_eq.
  destruct (local_prepare_ok key to s1 _ e Created eq_refl Hrow) as (new & Hp & Ha);
    [by apply from_to_slice|by subst e|done|].
  destruct (local_cas_eq key (se_version e) new s1) as (data' & Hd' & Hcas).
  exists new. eexists _, data'. split; [exact Hc|]. split; [|split; [|split; [|split; [done|]]]].
  - unfold transition, transition_loop. rewrite Hp, Hcas. subst e s1.
    unfold Storage.compare_and_swap_state, Storage.with_conn, Storage.cas_rows; simpl.
    rewrite lookup_insert_eq; simpl. done.
  - by rewrite Ha.
  - by rewrite Ha; subst e.
  - simpl. by rewrite insert_insert_eq.
Qed.

(** Creating a state again on a key that already has a row leaves it in
    state [created] for good: the stored entry restarts at version 1 while the
    row's version goes on counting, so every later [transition] to a state the
    graph allows from [Created] fails after its retries and changes nothing. *)
Theorem recreate_blocks_transitions key meta to s r :
  s.(Storage.faults) = [] -> s.(Storage.rows) !! state_key key = Some r ->
  (1 <= r.(Storage.row_version))%Z -> is_valid_transition Created to = true ->
  exists e s1, create_state key meta s = (Ok e, s1) /\
    transition key to s1 =
      (Err ("CAS failed after " +:+ pretty 3%Z +:+ " retries for state key: " +:+ key), s1).
Proof.
  intros Hf Hr Hv1 Hv. destruct (create_state_row key meta s Hf) as (data & e & Hd & He & Hc).
  rewrite Hr in Hc. eexists e, _. split; [exact Hc|].
  eapply transition_loop_stuck; [done|apply lookup_insert_eq|by apply from_to_slice|by subst e|done|].
  subst e; simpl. lia.
Qed.

End LocalFacts.

(** ** Interleaved writers *)

Section ConcurrentFacts.
Context `{Codec StateEntry} `{!TotalCodec StateEntry}.
Import Concurrent.
Implicit Types s : Storage.t.

Lemma prepare_keeps_rows key to s r s' :
  prepare_transition key to s = (r, s') -> s'.(Storage.rows) = s.(Storage.rows).
Proof.
  unfold prepare_transition; simpl. destruct (Storage.load_state _ s) as [r0 s0] eqn:E.
  intros ?; simplify_eq. by apply with_conn_inv in E as [(? & _ & ?)|[_ ?]].
Qed.

Lemma prepare_reads key to s s' old new e cur :
  holds key s e cur -> prepare_transition key to s = (Ok (old, new), s') ->
  old = e /\ valid_edge cur to /\ advanced e new to.
Proof.
  intros (r & Hr & Hf & _ & Hcur) Hp. apply prepare_transition_inv in Hp as [_ Hp].
  destruct (Hp _ _ eq_refl) as (data & cur' & Hd & Hf' & Hcur' & Hv & Ha). simpl in Hd.
  unfold payloads in Hd. rewrite lookup_fmap, Hr in Hd. simplify_eq/=.
  rewrite Hf in Hf'. simplify_eq. done.
Qed.

Lemma swap_cases key v new s r s' row :
  s.(Storage.rows) !! state_key key = Some row ->
  compare_and_swap_state key v new s = (r, s') ->
  s'.(Storage.rows) = s.(Storage.rows) \/
  row.(Storage.row_version) = v /\ exists data, to_vec new = Ok data /\
    s'.(Storage.rows) !! state_key key =
      Some {| Storage.row_value := data; Storage.row_content_type := "application/json";
              Storage.row_version := v + 1 |}.
Proof.
  intros Hr. destruct (local_cas_eq key v new s) as (data & Hd & ->). intros Hc.
  apply with_conn_inv in Hc as [(? & _ & ?)|[_ ->]]; [by left|].
  unfold Storage.cas_rows. rewrite Hr; simpl.
  destruct (Z.eqb_spec (Storage.row_version row) v) as [->|]; simpl; [right|by left].
  split; [done|]. exists data. by rewrite lookup_insert_eq.
Qed.

(** What a pending swap knows about the stored entry. *)
Definition pending_ok (e : StateEntry) (p : gmap nat (StateEntry * StateEntry)) : Prop :=
  forall i old new, p !! i = Some (old, new) ->
    (old.(se_version) <= e.(se_version))%Z /\ (old.(se_version) = e.(se_version) -> old = e) /\
    exists c t, from_str old.(se_current_state) = Some c /\ valid_edge c t /\ advanced old new t.

Definition writers_inv (key : string) (e0 : StateEntry) (cur0 : StateTransition) (x : sys) : Prop :=
  exists e cur, holds key x.(store) e cur /\ pending_ok e x.(pending) /\
    (e0.(se_version) <= e.(se_version))%Z /\
    nsteps valid_edge (Z.to_nat (e.(se_version) - e0.(se_version))) cur0 cur.

Lemma holds_rows key s s' e cur :
  s'.(Storage.rows) = s.(Storage.rows) -> holds key s e cur -> holds key s' e cur.
Proof. intros Heq (r & Hr & ?). exists r. by rewrite Heq. Qed.

Lemma pending_ok_delete e p i : pending_ok e p -> pending_ok e (delete i p).
Proof. intros Hp j old new [_ Hj]%lookup_delete_Some. eauto. Qed.

Lemma step_swap_success key e0 cur0 s e cur p i old new data r' s' row :
  holds key s e cur -> pending_ok e p -> (e0.(se_version) <= e.(se_version))%Z ->
  nsteps valid_edge (Z.to_nat (e.(se_version) - e0.(se_version))) cur0 cur ->
  p !! i = Some (old, new) -> version_in_range key s ->
  s.(Storage.rows) !! state_key key = Some row -> row.(Storage.row_version) = old.(se_version) ->
  to_vec new = Ok data -> s'.(Storage.rows) !! state_key key = Some r' ->
  r'.(Storage.row_value) = data -> r'.(Storage.row_version) = (old.(se_version) + 1)%Z ->
  writers_inv key e0 cur0 {| store := s'; pending := delete i p |}.
Proof.
  intros (r & Hr & Hf & Hver & Hcur) Hp Hle Hn Hi Hrange Hrow Hrv Hd Hr' Hrv' Hrver'.
  simplify_eq. destruct (Hp _ _ _ Hi) as (_ & Heq & c & t & Hc & Hv & Ha).
  assert (old = e) as -> by (apply Heq; congruence). simplify_eq.
  specialize (Hrange _ Hr). rewrite Hver in Hrange.
  assert (Hnv : new.(se_version) = (e.(se_version) + 1)%Z).
  { rewrite Ha; simpl. unfold u64_add. apply Z.mod_small. lia. }
  exists new, t. split_and!.
  - exists r'. split_and!; [done|by apply from_to_slice|by rewrite Hnv|by rewrite Ha, <- from_as_str].
  - simpl. intros j old' new' [Hne Hj]%lookup_delete_Some. destruct (Hp _ _ _ Hj) as (? & ? & ?).
    rewrite Hnv. split_and!; [lia|intros; lia|done].
  - lia.
  - rewrite Hnv. replace (Z.to_nat _) with (S (Z.to_nat (se_version e - se_version e0))) by lia.
    by apply nsteps_r with cur.
Qed.

Lemma writers_inv_step key e0 cur0 x x' :
  writers_inv key e0 cur0 x -> step key x x' -> writers_inv key e0 cur0 x'.
Proof.
  intros (e & cur & Hh & Hp & Hle & Hn) Hstep.
  destruct Hstep as [i to old new x st' Hprep|to err x st' Hprep|i old new r x st' Hi Hrange Hcas].
  - pose proof (prepare_keeps_rows _ _ _ _ _ Hprep) as Hrows.
    destruct (prepare_reads _ _ _ _ _ _ _ _ Hh Hprep) as (-> & Hv & Ha).
    exists e, cur. split_and!; [by eapply holds_rows|..|done|done].
    simpl. intros j old' new'. destruct (decide (i = j)) as [->|Hne].
    + rewrite lookup_insert_eq. intros; simplify_eq. destruct Hh as (r & _ & _ & _ & Hc).
      split_and!; [lia|done|by exists cur, to].
    + rewrite lookup_insert_ne by done. by apply Hp.
  - exists e, cur. split_and!; try done. eapply holds_rows; [|done]. by eapply prepare_keeps_rows.
  - destruct Hh as (row & Hr & Hrest).
    destruct (swap_cases _ _ _ _ _ _ _ Hr Hcas) as [Hrows|(Hrv & data & Hd & Hr')].
    + exists e, cur. split_and!; [|by apply pending_ok_delete|done..].
      exists row. simpl. by rewrite Hrows.
    + eapply step_swap_success; try done. by exists row.
Qed.

(** C12. Lost-update freedom of the optimistic lock: however many tasks run
    [transition] on a key and however their loads and swaps interleave, the
    stored state only moves along edges of [ALLOWED_TRANSITIONS], and the
    version counts exactly the moves made, so no swap overwrites another. *)
Theorem concurrent_transitions_follow_graph key x0 x e0 cur0 :
  holds key x0.(store) e0 cur0 -> x0.(pending) = ∅ -> rtc (step key) x0 x ->
  exists e cur, holds key x.(store) e cur /\ (e0.(se_version) <= e.(se_version))%Z /\
    nsteps valid_edge (Z.to_nat (e.(se_version) - e0.(se_version))) cur0 cur.
Proof.
  intros Hh Hp Hsteps. enough (writers_inv key e0 cur0 x) as (e & cur & ? & ? & ? & ?) by eauto.
  assert (Hinv : writers_inv key e0 cur0 x0).
  { exists e0, cur0. rewrite Hp, Z.sub_diag. split_and!; [done| |lia|constructor].
    intros i old new Hi. by rewrite lookup_empty in Hi. }
  clear Hh Hp. induction Hsteps; eauto using writers_inv_step.
Qed.

End ConcurrentFacts.

(** ** Evaluation on a concrete table *)

Module StateMachineDemo.

#[local] Instance demo_codec : Codec StateEntry := CountableCodec.codec.
#[local] Instance demo_total : TotalCodec StateEntry := CountableCodec.total.

Definition empty_store : Storage.t := {| Storage.rows := ∅; Storage.faults := [] |}.
Definition created_store : Storage.t := (create_state "job" JNull empty_store).2.

Example demo_run :
  (se_current_state <$> (fun r => match r with Ok e => Some e | _ => None end)
     (transition "job" Completed (transition "job" Running created_store).2).1) = Some "completed".
Proof. vm_compute. reflexivity. Qed.

Lemma transition_spec_witness :
  exists r b', transition "job" Running created_store = (r, b') /\ is_ok r = true /\
  match r with
  | Err _ => contents b' = contents created_store
  | Ok new => exists old data data' cur,
      contents created_store !! state_key "job" = Some data /\ from_slice data = Ok old /\
      from_str old.(se_current_state) = Some cur /\ is_valid_transition cur Running = true /\
      advanced old new Running /\ to_vec new = Ok data' /\
      contents b' = <[state_key "job" := data']> (contents created_store)
  end.
Proof.
  eexists (transition "job" Running created_store).1, (transition "job" Running created_store).2.
  split; [vm_compute; reflexivity|]. split; [vm_compute; reflexivity|].
  apply (transition_spec "job" Running created_store). vm_compute. reflexivity.
Defined.

Lemma create_then_transition_witness :
  exists e s1 e' s2 data,
    create_state "job" JNull empty_store = (Ok e, s1) /\ transition "job" Running s1 = (Ok e', s2) /\
    e'.(se_current_state) = as_str Running /\ e'.(se_version) = 2%Z /\ to_vec e' = Ok data /\
    s2.(Storage.rows) = <[state_key "job" := {| Storage.row_value := data;
        Storage.row_content_type := "application/json"; Storage.row_version := 2 |}]> empty_store.(Storage.rows).
Proof. apply (create_then_transition "job" JNull Running empty_store); reflexivity. Defined.

Lemma recreate_blocks_transitions_witness :
  exists e s1, create_state "job" JNull created_store = (Ok e, s1) /\
    transition "job" Running s1 =
      (Err ("CAS failed after " +:+ pretty 3%Z +:+ " retries for state key: " +:+ "job"), s1).
Proof.
  eapply (recreate_blocks_transitions "job" JNull Running created_store);
    [vm_compute; reflexivity|vm_compute; reflexivity|vm_compute; discriminate|reflexivity].
Defined.

Definition entry1 : StateEntry :=
  {| se_key := "job"; se_current_state := "created"; se_version := 1; se_metadata := JNull |}.
Definition entry2 : StateEntry :=
  {| se_key := "job"; se_current_state := "running"; se_version := 2; se_metadata := JNull |}.
Definition sys0 : Concurrent.sys := {| Concurrent.store := created_store; Concurrent.pending := ∅ |}.
Definition sys1 : Concurrent.sys :=
  {| Concurrent.store := created_store; Concurrent.pending := {[0 := (entry1, entry2)]} |}.
Definition sys2 : Concurrent.sys :=
  {| Concurrent.store := (compare_and_swap_state "job" 1 entry2 created_store).2;
     Concurrent.pending := delete 0 sys1.(Concurrent.pending) |}.

Lemma concurrent_transitions_follow_graph_witness :
  exists x e cur,
    x.(Concurrent.pending) = ∅ /\
    Concurrent.holds "job" x.(Concurrent.store) e cur /\ (1 <= e.(se_version))%Z /\
    nsteps Concurrent.valid_edge (Z.to_nat (e.(se_version) - 1)) Created cur.
Proof.
  destruct (concurrent_transitions_follow_graph "job" sys0 sys2 entry1 Created) as (e & cur & Hh & Hle & Hn).
  - eexists. split; [vm_compute; reflexivity|]. split_and!; vm_compute; reflexivity.
  - reflexivity.
  - apply rtc_l with sys1.
    { apply (Concurrent.step_load "job" 0 Running entry1 entry2 sys0 created_store). vm_compute. reflexivity. }
    apply rtc_once. apply (Concurrent.step_swap "job" 0 entry1 entry2 (Ok true) sys1).
    + vm_compute. reflexivity.
    + intros r Hr. vm_compute in Hr. injection Hr as <-. simpl. lia.
    + vm_compute. reflexivity.
  - exists sys2, e, cur. split; [vm_compute; reflexivity|]. done.
Defined.

End StateMachineDemo.
