(* ===== verification/TwoPhaseCommit.v ===== *)
(** * Two-phase commit

    Models [crates/dbx-core/src/query/two_phase_commit.rs]: the coordinator
    [TwoPhaseCommit] over a [StateBackend] for its log and a list of
    [Participant]s.

    The participants act on a world [W] of their own; the coordinator's state
    is the log backend, that world and a clock.  [trace] records every call to
    a participant and every log record that reached the backend, in order; it
    is not part of the code and nothing reads it, the theorems are stated on
    it. *)

From S2P Require Import Prelude Json StateMachine.

(** ** Statuses *)

Module TransactionStatus.

Inductive t : Type :=
| Preparing
| Prepared
| Committing
| Committed
| RollingBack
| RolledBack
| Mixed
| Unknown.

#[global] Instance t_eq_dec : EqDecision t.
Proof. solve_decision. Defined.

Definition as_str (s : t) : string :=
  match s with
  | Preparing => "preparing"
  | Prepared => "prepared"
  | Committing => "committing"
  | Committed => "committed"
  | RollingBack => "rolling_back"
  | RolledBack => "rolled_back"
  | Mixed => "mixed"
  | Unknown => "unknown"
  end.

Definition from_str (s : string) : t :=
  if String.eqb s "preparing" then Preparing
  else if String.eqb s "prepared" then Prepared
  else if String.eqb s "committing" then Committing
  else if String.eqb s "committed" then Committed
  else if String.eqb s "rolling_back" then RollingBack
  else if String.eqb s "rolled_back" then RolledBack
  else if String.eqb s "mixed" then Mixed
  else Unknown.

Lemma from_as_status s : from_str (as_str s) = s.
Proof. by destruct s. Qed.

End TransactionStatus.

Import TransactionStatus.

(** ** Records *)

Record VoteResult := { vr_participant_id : string; vr_vote : bool; vr_reason : option string }.

Record ParticipantCommitResult := {
  cr_participant_id : string;
  cr_committed : bool;
  cr_error : option string;
}.

Record ParticipantInfo := { pi_id : string; pi_name : string; pi_role : string }.

#[global] Instance ParticipantInfo_eq_dec : EqDecision ParticipantInfo.
Proof. solve_decision. Defined.
#[global] Instance ParticipantInfo_countable : Countable ParticipantInfo.
Proof.
  refine (inj_countable' (fun p => (pi_id p, pi_name p, pi_role p))
            (fun '(i, n, r) => {| pi_id := i; pi_name := n; pi_role := r |}) _).
  by intros [].
Defined.

Record TransactionLog := {
  tl_transaction_id : string;
  tl_status : string;
  tl_participants : list ParticipantInfo;
  tl_created_at : string;
  tl_updated_at : string;
  tl_metadata : json;
}.

#[global] Instance TransactionLog_eq_dec : EqDecision TransactionLog.
Proof. solve_decision. Defined.
#[global] Instance TransactionLog_countable : Countable TransactionLog.
Proof.
  refine (inj_countable' (fun l => (tl_transaction_id l, tl_status l, tl_participants l,
                                    tl_created_at l, tl_updated_at l, tl_metadata l))
            (fun '(i, s, p, c, u, m) => {| tl_transaction_id := i; tl_status := s; tl_participants := p;
                                           tl_created_at := c; tl_updated_at := u; tl_metadata := m |}) _).
  by intros [].
Defined.

(** A [dyn Participant] acting on the world [W]. *)
Record Participant (W : Type) := {
  p_id : string;
  p_name : string;
  p_role : string;
  p_prepare : string -> M W (result unit string);
  p_commit : string -> M W (result unit string);
  p_rollback : string -> M W (result unit string);
}.
Arguments p_id {W} _.
Arguments p_name {W} _.
Arguments p_role {W} _.
Arguments p_prepare {W} _ _.
Arguments p_commit {W} _ _.
Arguments p_rollback {W} _ _.

(** What the ghost trace records. *)
Inductive event : Type :=
| EPrepare (id : string) (ok : bool)
| ECommit (id : string) (ok : bool)
| ERollback (id : string) (ok : bool)
| ELog (status : t).

#[global] Instance event_eq_dec : EqDecision event.
Proof. solve_decision. Defined.

Definition is_commit (e : event) : bool := match e with ECommit _ _ => true | _ => false end.
Definition is_rollback (e : event) : bool := match e with ERollback _ _ => true | _ => false end.

Record world (B W : Type) := {
  backend : B;
  parts : W;
  clock : nat;
  trace : list event;
}.
Arguments backend {B W} _.
Arguments parts {B W} _.
Arguments clock {B W} _.
Arguments trace {B W} _.

Section Coordinator.
Context {B W : Type} `{StateBackend B} `{Codec StateEntry} `{Codec TransactionLog}.

(** [chrono::Utc::now().to_rfc3339()], by the number of readings so far. *)
Variable utc_now : nat -> string.

Local Abbreviation St := (world B W).

Definition emit (e : event) : M St unit := fun w =>
  (tt, {| backend := w.(backend); parts := w.(parts); clock := w.(clock); trace := w.(trace) ++ [e] |}).

Definition now : M St string := fun w =>
  (utc_now w.(clock),
   {| backend := w.(backend); parts := w.(parts); clock := S w.(clock); trace := w.(trace) |}).

Definition on_backend {A} (m : M B A) : M St A := fun w =>
  let '(a, b) := m w.(backend) in
  (a, {| backend := b; parts := w.(parts); clock := w.(clock); trace := w.(trace) |}).

(** A call into a participant, recorded in the trace. *)
Definition call (m : M W (result unit string)) (ev : bool -> event) : M St (result unit string) := fun w =>
  let '(r, ps) := m w.(parts) in
  (r, {| backend := w.(backend); parts := ps; clock := w.(clock); trace := w.(trace) ++ [ev (is_ok r)] |}).

(** ** The log *)

Definition log_key (transaction_id : string) : string := "2pc:tx:" +:+ transaction_id.

Definition new_log (transaction_id : string) (participants : list ParticipantInfo) (metadata : json)
    : M St TransactionLog :=
  let! created := now in
  let! updated := now in
  ret {| tl_transaction_id := transaction_id; tl_status := as_str Preparing; tl_participants := participants;
         tl_created_at := created; tl_updated_at := updated; tl_metadata := metadata |}.

Definition save_log (log : TransactionLog) : M St (result unit string) :=
  match to_vec log with
  | Err e => ret (Err e)
  | Ok data =>
    let!? _ := on_backend (be_save (log_key log.(tl_transaction_id)) data) in
    let! _ := emit (ELog (from_str log.(tl_status))) in
    ret (Ok tt)
  end.

Definition load_log (transaction_id : string) : M St (result (option TransactionLog) string) :=
  let!? raw := on_backend (be_load (log_key transaction_id)) in
  ret (match raw with
       | Some data => let? log := from_slice (A:=TransactionLog) data in Ok (Some log)
       | None => Ok None
       end).

Definition update_status (transaction_id : string) (status : t) : M St (result TransactionLog string) :=
  let!? found := load_log transaction_id in
  match found with
  | None => ret (Err ("Transaction not found: " +:+ transaction_id))
  | Some log =>
    let! updated := now in
    let log := {| tl_transaction_id := log.(tl_transaction_id); tl_status := as_str status;
                  tl_participants := log.(tl_participants); tl_created_at := log.(tl_created_at);
                  tl_updated_at := updated; tl_metadata := log.(tl_metadata) |} in
    let!? _ := save_log log in
    ret (Ok log)
  end.

(** ** Phases *)

(** The voting loop; it stops at the first refusal. *)
Fixpoint prepare_loop (transaction_id : string) (participants : list (Participant W))
    (results : list VoteResult) : M St (list VoteResult * bool) :=
  match participants with
  | [] => ret (results, true)
  | p :: rest =>
    let! r := call (p.(p_prepare) transaction_id) (EPrepare p.(p_id)) in
    match r with
    | Ok _ => prepare_loop transaction_id rest
                (results ++ [{| vr_participant_id := p.(p_id); vr_vote := true; vr_reason := None |}])
    | Err e => ret (results ++ [{| vr_participant_id := p.(p_id); vr_vote := false; vr_reason := Some e |}], false)
    end
  end.

Definition prepare_phase (transaction_id : string) (participants : list (Participant W))
    : M St (result (list VoteResult) string) :=
  let!? _ := update_status transaction_id Preparing in
  let! x := prepare_loop transaction_id participants [] in
  let '(results, completed) := x in
  if completed then
    let!? _ := update_status transaction_id Prepared in
    ret (Ok results)
  else ret (Ok results).

(** One round of commits over the pending participants; [may_retry] is
    [attempt < max_retries]. *)
Fixpoint commit_round (transaction_id : string) (may_retry : bool) (pending : list (Participant W))
    (results : list ParticipantCommitResult) (next_pending : list (Participant W))
    : M St (list ParticipantCommitResult * list (Participant W)) :=
  match pending with
  | [] => ret (results, next_pending)
  | p :: rest =>
    let! r := call (p.(p_commit) transaction_id) (ECommit p.(p_id)) in
    match r with
    | Ok _ => commit_round transaction_id may_retry rest
                (results ++ [{| cr_participant_id := p.(p_id); cr_committed := true; cr_error := None |}]) next_pending
    | Err e =>
      if may_retry
      then commit_round transaction_id may_retry rest results (next_pending ++ [p])
      else commit_round transaction_id may_retry rest
             (results ++ [{| cr_participant_id := p.(p_id); cr_committed := false; cr_error := Some e |}]) next_pending
    end
  end.

(** The attempts [0..=max_retries], counted down. *)
Fixpoint commit_rounds (transaction_id : string) (retries_left : nat) (pending : list (Participant W))
    (results : list ParticipantCommitResult) : M St (list ParticipantCommitResult) :=
  let! x := commit_round transaction_id (0 <? retries_left)%nat pending results [] in
  let '(results, next_pending) := x in
  match next_pending, retries_left with
  | [], _ => ret results
  | _, 0 => ret results
  | _, S retries_left' => commit_rounds transaction_id retries_left' next_pending results
  end.

Definition commit_phase (transaction_id : string) (participants : list (Participant W)) (max_retries : nat)
    : M St (list ParticipantCommitResult) :=
  commit_rounds transaction_id max_retries participants [].

Fixpoint rollback_loop (transaction_id : string) (participants : list (Participant W)) (errors : list string)
    : M St (list string) :=
  match participants with
  | [] => ret errors
  | p :: rest =>
    let! r := call (p.(p_rollback) transaction_id) (ERollback p.(p_id)) in
    rollback_loop transaction_id rest
      (match r with Ok _ => errors | Err e => errors ++ [p.(p_id) +:+ ": " +:+ e] end)
  end.

Definition rollback_phase (transaction_id : string) (participants : list (Participant W))
    : M St (result unit string) :=
  let! errors := rollback_loop transaction_id participants [] in
  ret (match errors with [] => Ok tt | _ => Err (String.concat "; " errors) end).

(** ** [execute] and [recover] *)

Definition participant_infos (participants : list (Participant W)) : list ParticipantInfo :=
  map (fun p => {| pi_id := p.(p_id); pi_name := p.(p_name); pi_role := p.(p_role) |}) participants.

Definition is_nil {A} (l : list A) : bool := match l with [] => true | _ => false end.

Definition all_committed_of (participants : list (Participant W)) (results : list ParticipantCommitResult) : bool :=
  is_nil participants || (negb (is_nil results) && forallb cr_committed results).

Definition commit_failures (results : list ParticipantCommitResult) : list string :=
  map (fun r => r.(cr_participant_id) +:+ ": " +:+ default "unknown" r.(cr_error))
    (List.filter (fun r => negb r.(cr_committed)) results).

Definition vote_rejections (votes : list VoteResult) : list string :=
  map (fun v => v.(vr_participant_id) +:+ ": " +:+ default "no reason" v.(vr_reason))
    (List.filter (fun v => negb v.(vr_vote)) votes).

Definition final_status_of (results : list ParticipantCommitResult) : t :=
  if existsb cr_committed results then Mixed else RolledBack.

(** The branch of [execute] taken when every participant voted yes. *)
Definition execute_commit (transaction_id : string) (participants : list (Participant W))
    : M St (result TransactionLog string) :=
  let!? _ := update_status transaction_id Committing in
  let! commit_results := commit_phase transaction_id participants 2 in
  if all_committed_of participants commit_results then
    let!? log := update_status transaction_id Committed in
    let! _ := on_backend (transition ("2pc_" +:+ transaction_id) Completed) in
    ret (Ok log)
  else
    let!? _ := update_status transaction_id RollingBack in
    let! _ := rollback_phase transaction_id participants in
    let!? log := update_status transaction_id (final_status_of commit_results) in
    let! _ := on_backend (transition ("2pc_" +:+ transaction_id) Failed) in
    ret (Err ("Commit phase failed: " +:+ String.concat "; " (commit_failures commit_results)
              +:+ ". Status: " +:+ log.(tl_status))).

(** The branch taken when a participant refused. *)
Definition execute_abort (transaction_id : string) (participants : list (Participant W)) (votes : list VoteResult)
    : M St (result TransactionLog string) :=
  let!? _ := update_status transaction_id RollingBack in
  let! _ := rollback_phase transaction_id participants in
  let!? log := update_status transaction_id RolledBack in
  let! _ := on_backend (transition ("2pc_" +:+ transaction_id) Failed) in
  ret (Err ("Prepare phase failed: participants did not agree. Rejections: ["
            +:+ String.concat ", " (vote_rejections votes) +:+ "]. Status: " +:+ log.(tl_status))).

Definition execute (transaction_id : string) (participants : list (Participant W)) (metadata : json)
    : M St (result TransactionLog string) :=
  let! log := new_log transaction_id (participant_infos participants) metadata in
  let!? _ := save_log log in
  let!? _ := on_backend (create_state ("2pc_" +:+ transaction_id) (JObject [("phase", JString "begin")])) in
  let!? votes := prepare_phase transaction_id participants in
  if forallb vr_vote votes
  then execute_commit transaction_id participants
  else execute_abort transaction_id participants votes.

Definition recover (transaction_id : string) (participants : list (Participant W))
    : M St (result TransactionLog string) :=
  let!? found := load_log transaction_id in
  match found with
  | None => ret (Err ("No transaction log found for: " +:+ transaction_id))
  | Some log =>
    match from_str log.(tl_status) with
    | Preparing | Prepared | RollingBack =>
      let!? _ := rollback_phase transaction_id participants in
      update_status transaction_id RolledBack
    | Committing =>
      let! commit_results := commit_phase transaction_id participants 2 in
      if all_committed_of participants commit_results then update_status transaction_id Committed
      else
        let!? _ := rollback_phase transaction_id participants in
        let!? _ := update_status transaction_id (final_status_of commit_results) in
        ret (Err ("Recovery failed during commit: " +:+ String.concat "; " (commit_failures commit_results)))
    | Committed | RolledBack | Mixed => ret (Ok log)
    | Unknown =>
      ret (Err ("Unknown transaction status for " +:+ transaction_id +:+ ": cannot recover"))
    end
  end.

End Coordinator.

(** ** Traces of the phases *)

(** The participant of a call event, with its outcome. *)
Definition commit_id (e : event) : option string := match e with ECommit i _ => Some i | _ => None end.
Definition committed_id (e : event) : option string := match e with ECommit i true => Some i | _ => None end.

Section Traces.
Context {B W : Type} `{StateBackend B} `{Codec StateEntry} `{Codec TransactionLog}.
Variable utc_now : nat -> string.
Implicit Types w : world B W.
Implicit Types ps pending : list (Participant W).

(** [w'] extends the trace of [w] by [evs]. *)
Definition extends (w w' : world B W) (evs : list event) : Prop := w'.(trace) = w.(trace) ++ evs.

Lemma extends_nil w w' : w'.(trace) = w.(trace) -> extends w w' [].
Proof. unfold extends. by rewrite app_nil_r. Qed.

Lemma extends_trans w1 w2 w3 evs1 evs2 :
  extends w1 w2 evs1 -> extends w2 w3 evs2 -> extends w1 w3 (evs1 ++ evs2).
Proof. unfold extends. intros H1' ->. by rewrite H1', app_assoc. Qed.

Lemma on_backend_trace {A} (m : M B A) w r w' : on_backend m w = (r, w') -> extends w w' [].
Proof. unfold on_backend. case_match. intros; simplify_eq. by apply extends_nil. Qed.

Lemma save_log_trace log w r w' :
  save_log log w = (r, w') ->
  match r with Ok _ => extends w w' [ELog (from_str log.(tl_status))] | Err _ => extends w w' [] end.
Proof.
  unfold save_log. destruct (to_vec log); [|intros; inv_ret; by apply extends_nil].
  intros [(u & w1 & Hs & Hk)|(e & Hs & ->)]%try_bind_inv; [|by eapply on_backend_trace].
  apply on_backend_trace in Hs. unfold bind, emit, ret in Hk. simplify_eq/=.
  unfold extends in *; simpl. by rewrite Hs, app_nil_r.
Qed.

Lemma load_log_trace tid w r w' : load_log tid w = (r, w') -> extends w w' [].
Proof.
  unfold load_log. intros [(u & w1 & Hs & Hk)|(e & Hs & ->)]%try_bind_inv.
  - apply on_backend_trace in Hs. by inv_ret.
  - by eapply on_backend_trace.
Qed.

Lemma update_status_trace tid st w r w' :
  update_status utc_now tid st w = (r, w') ->
  match r with Ok _ => extends w w' [ELog st] | Err _ => extends w w' [] end.
Proof.
  unfold update_status. intros [(found & w1 & Hl & Hk)|(e & Hl & ->)]%try_bind_inv;
    apply load_log_trace in Hl; [|done].
  destruct found as [log|]; [|by inv_ret].
  apply bind_inv in Hk as (up & w2 & Hn & Hk). unfold now in Hn. simplify_eq.
  apply try_bind_inv in Hk as [(u & w3 & Hs & Hk)|(e & Hs & ->)]; apply save_log_trace in Hs; simpl in Hs.
  - inv_ret. rewrite from_as_status in Hs.
    exact (extends_trans _ _ _ [] _ Hl Hs).
  - exact (extends_trans _ _ _ [] _ Hl Hs).
Qed.

Lemma call_trace m ev w r w' : call m ev w = (r, w') -> extends w w' [ev (is_ok r)].
Proof. unfold call. case_match. intros; by simplify_eq. Qed.

(** The votes are the prepare calls in order; the loop completes exactly when
    every participant said yes. *)
Lemma prepare_loop_trace tid ps acc w rs done w' :
  prepare_loop tid ps acc w = ((rs, done), w') ->
  exists new, rs = acc ++ new /\
    extends w w' (map (fun v => EPrepare v.(vr_participant_id) v.(vr_vote)) new) /\
    forallb vr_vote new = done /\ (done = true -> map vr_participant_id new = map p_id ps).
Proof.
  revert acc w. induction ps as [|p ps IH]; intros acc w; simpl.
  { intros; inv_ret. exists []. split_and!; rewrite ?app_nil_r; try done. by apply extends_nil. }
  intros (r & w1 & Hc & Hk)%bind_inv. apply call_trace in Hc.
  destruct r as [u|e].
  - apply IH in Hk as (new & -> & Hx & Hd & Hids).
    eexists (_ :: new). rewrite <- app_assoc. split_and!; [done|..|done|].
    + by eapply (extends_trans _ _ _ [_]).
    + intros ->. simpl. by rewrite Hids.
  - inv_ret. eexists [_]. split_and!; done.
Qed.

Lemma prepare_phase_trace tid ps w r w' :
  prepare_phase utc_now tid ps w = (r, w') ->
  exists evs, extends w w' evs /\ Forall (fun e => is_commit e = false /\ is_rollback e = false) evs /\
    forall votes, r = Ok votes -> forallb vr_vote votes = true ->
      Forall (fun p => EPrepare (p_id p) true ∈ evs) ps.
Proof.
  unfold prepare_phase. intros [(l & w1 & Hu & Hk)|(e & Hu & ->)]%try_bind_inv;
    apply update_status_trace in Hu.
  2: { exists []. split_and!; [done|constructor|done]. }
  apply bind_inv in Hk as ([rs done] & w2 & Hp & Hk).
  apply prepare_loop_trace in Hp as (new & -> & Hx & Hd & Hids). simpl in Hk.
  pose proof (extends_trans _ _ _ _ _ Hu Hx) as Hx2.
  set (votes_evs := map _ new) in *.
  assert (Hno : Forall (fun e => is_commit e = false /\ is_rollback e = false) ([ELog Preparing] ++ votes_evs)).
  { constructor; [done|]. apply Forall_map, Forall_true. done. }
  assert (Hall : forallb vr_vote new = true ->
    Forall (fun p => EPrepare (p_id p) true ∈ [ELog Preparing] ++ votes_evs) ps).
  { intros Ht. rewrite Hd in Ht. subst done. specialize (Hids Ht).
    apply Forall_forall. intros p Hp. apply list_elem_of_In, in_or_app. right. apply list_elem_of_In.
    assert (Hin : p_id p ∈ map vr_participant_id new).
    { rewrite Hids. apply list_elem_of_fmap. eauto. }
    apply list_elem_of_fmap in Hin as (v & Hv & Hvin).
    apply list_elem_of_fmap. exists v. split; [|done].
    rewrite Hv. f_equal. rewrite forallb_forall in Ht. symmetry. by apply Ht, list_elem_of_In. }
  destruct done.
  - apply try_bind_inv in Hk as [(l' & w3 & Hu2 & Hk)|(e & Hu2 & ->)]; apply update_status_trace in Hu2.
    + inv_ret. eexists. split_and!; [by eapply extends_trans| |].
      * apply Forall_app. split; [done|]. by constructor.
      * intros votes ? Ht. simplify_eq. eapply Forall_impl; [by apply Hall|].
        intros p Hp. apply elem_of_app. by left.
    + eexists. split_and!; [by eapply extends_trans|by rewrite app_nil_r|done].
  - inv_ret. eexists. split_and!; [done..|].
    intros votes ? Ht. simplify_eq. by apply Hall.
Qed.

End Traces.

(** ** The commit phase *)

Section CommitPhase.
Context {B W : Type}.
Implicit Types w : world B W.
Implicit Types ps pending : list (Participant W).

(** The outcome of one round: each pending participant with its reply. *)
Definition round_events (outs : list (Participant W * result unit string)) : list event :=
  map (fun o => ECommit (p_id o.1) (is_ok o.2)) outs.
Definition round_results (may_retry : bool) (outs : list (Participant W * result unit string))
    : list ParticipantCommitResult :=
  omap (fun o => match o.2 with
    | Ok _ => Some {| cr_participant_id := p_id o.1; cr_committed := true; cr_error := None |}
    | Err e => if may_retry then None
               else Some {| cr_participant_id := p_id o.1; cr_committed := false; cr_error := Some e |}
    end) outs.
Definition round_pending (may_retry : bool) (outs : list (Participant W * result unit string))
    : list (Participant W) :=
  omap (fun o => if may_retry && negb (is_ok o.2) then Some o.1 else None) outs.

Lemma commit_round_spec tid may_retry pending rs np w rs' np' w' :
  commit_round tid may_retry pending rs np w = ((rs', np'), w') ->
  exists outs, outs.*1 = pending /\ extends w w' (round_events outs) /\
    rs' = rs ++ round_results may_retry outs /\ np' = np ++ round_pending may_retry outs.
Proof.
  revert rs np w. induction pending as [|p pending IH]; intros rs np w; simpl.
  { intros; inv_ret. exists []. split_and!; rewrite ?app_nil_r; try done. by apply extends_nil. }
  intros (r & w1 & Hc & Hk)%bind_inv. apply call_trace in Hc.
  destruct r as [[]|e]; [|destruct may_retry]; apply IH in Hk as (outs & <- & Hx & -> & ->).
  - exists ((p, Ok tt) :: outs).
    split_and!; [done|by eapply (extends_trans _ _ _ [_])|by rewrite <- app_assoc|].
    simpl. by rewrite andb_false_r.
  - exists ((p, Err e) :: outs). split_and!; [done|by eapply (extends_trans _ _ _ [_])|done|by rewrite <- app_assoc].
  - exists ((p, Err e) :: outs). split_and!; [done|by eapply (extends_trans _ _ _ [_])|by rewrite <- app_assoc|done].
Qed.

Lemma round_committed may_retry outs :
  map cr_participant_id (List.filter cr_committed (round_results may_retry outs)) =
  omap committed_id (round_events outs).
Proof. induction outs as [|[p [[]|e]] outs IH]; simpl; [done|by f_equal|]. by destruct may_retry. Qed.

Lemma round_ids may_retry outs :
  map cr_participant_id (round_results may_retry outs) ++ map p_id (round_pending may_retry outs)
  ≡ₚ map p_id outs.*1.
Proof.
  induction outs as [|[p [[]|e]] outs IH]; simpl; [done|by rewrite andb_false_r; simpl; rewrite IH|].
  destruct may_retry; simpl; [|by rewrite IH]. rewrite <- IH. by rewrite Permutation_middle.
Qed.

Lemma round_pending_false outs : round_pending false outs = [].
Proof. by induction outs. Qed.

Lemma round_pending_length may_retry outs : length (round_pending may_retry outs) <= length outs.
Proof. induction outs as [|o outs IH]; simpl; [done|]. destruct may_retry, (is_ok o.2); simpl; lia. Qed.

Lemma round_events_ids outs : omap commit_id (round_events outs) = map p_id outs.*1.
Proof. induction outs as [|o outs IH]; simpl; by f_equal. Qed.

(** A participant that committed in a round is not pending in the next one. *)
Lemma round_committed_not_pending may_retry outs a i b :
  NoDup (map p_id outs.*1) -> round_events outs = a ++ ECommit i true :: b ->
  (i ∉ omap commit_id b) /\ (i ∉ map p_id (round_pending may_retry outs)).
Proof.
  revert a. induction outs as [|[p r] outs IH]; intros a; simpl; [by destruct a|].
  intros [Hp Hnd]%NoDup_cons Heq.
  assert (Hsub : forall x, x ∈ map p_id (round_pending may_retry outs) -> x ∈ map p_id outs.*1).
  { intros x Hx. rewrite <- (round_ids may_retry outs). apply elem_of_app. by right. }
  destruct a as [|e a]; simplify_eq/=.
  - destruct r; simplify_eq/=. split; [by rewrite round_events_ids|]. rewrite andb_false_r. auto.
  - destruct (IH a Hnd H0) as [Hb Hpend]. split; [done|].
    destruct (may_retry && negb (is_ok r)); simpl; [|done].
    intros [->|?]%elem_of_cons; [|done]. apply Hp. rewrite <- round_events_ids, H0.
    rewrite omap_app. apply elem_of_app. right. simpl. by left.
Qed.

(** The calls of [commit] to one participant. *)
Definition calls_of (i : string) (evs : list event) : nat :=
  length (List.filter (fun e => bool_decide (commit_id e = Some i)) evs).

Lemma calls_of_app i l1 l2 : calls_of i (l1 ++ l2) = calls_of i l1 + calls_of i l2.
Proof. unfold calls_of. by rewrite List.filter_app, length_app. Qed.

Lemma calls_of_absent i evs : i ∉ omap commit_id evs -> calls_of i evs = 0.
Proof.
  unfold calls_of. induction evs as [|e evs IH]; [done|]. csimpl. destruct (commit_id e) as [j|] eqn:E; cbn [List.filter].
  - rewrite not_elem_of_cons. intros [Hj Hn]. rewrite bool_decide_false by congruence. by apply IH.
  - intros Hn. rewrite bool_decide_false by done. by apply IH.
Qed.

Lemma round_calls outs i : NoDup (map p_id outs.*1) -> i ∈ map p_id outs.*1 -> calls_of i (round_events outs) = 1.
Proof.
  induction outs as [|o outs IH]; cbn [fmap list_fmap map]; [by intros _ ?%elem_of_nil|].
  intros [Ho Hn]%NoDup_cons Hi. unfold calls_of in *. cbn [round_events map List.filter commit_id].
  destruct (decide (p_id o.1 = i)) as [<-|Hne].
  - rewrite bool_decide_true by done. simpl. f_equal. apply (calls_of_absent (p_id o.1)). by rewrite round_events_ids.
  - rewrite bool_decide_false by congruence. apply IH; [done|]. by apply elem_of_cons in Hi as [->|].
Qed.

(** A round that may be retried reports no failure. *)
Lemma round_failed_final may_retry outs r :
  r ∈ round_results may_retry outs -> cr_committed r = false -> may_retry = false /\ cr_participant_id r ∈ map p_id outs.*1.
Proof.
  intros ([p rep] & Ho & Hr)%list_elem_of_omap Hf. destruct rep as [u|e]; simpl in Hr; [by simplify_eq|].
  destruct may_retry; simplify_eq/=. split; [done|]. apply list_elem_of_fmap. exists p. split; [done|].
  apply list_elem_of_fmap. by exists (p, Err e).
Qed.

(** What the commit phase did, on the trace. *)
Definition commit_trace (ids : list string) (rounds : nat) (rs : list ParticipantCommitResult)
    (evs : list event) : Prop :=
  Forall (fun e => is_commit e = true) evs /\
  map cr_participant_id (List.filter cr_committed rs) = omap committed_id evs /\
  map cr_participant_id rs ≡ₚ ids /\
  (forall i, i ∈ omap commit_id evs -> i ∈ ids) /\
  length evs <= rounds * length ids /\
  (NoDup ids -> forall a i b, evs = a ++ ECommit i true :: b -> i ∉ omap commit_id b) /\
  (exists again, omap commit_id evs = ids ++ again) /\
  (NoDup ids -> forall r, r ∈ rs -> cr_committed r = false -> calls_of (cr_participant_id r) evs = rounds).

Lemma round_events_commit outs : Forall (fun e => is_commit e = true) (round_events outs).
Proof. apply Forall_map, Forall_true. done. Qed.

Lemma commit_trace_last may_retry outs n :
  round_pending may_retry outs = [] -> (may_retry = false -> n = 0) ->
  commit_trace (map p_id outs.*1) (S n) (round_results may_retry outs) (round_events outs).
Proof.
  intros Hnp Hlast. split_and!.
  - apply round_events_commit.
  - apply round_committed.
  - rewrite <- (round_ids may_retry outs), Hnp. simpl. by rewrite app_nil_r.
  - intros i. by rewrite round_events_ids.
  - unfold round_events. rewrite !length_map. lia.
  - intros Hnd a i b Heq. by apply (round_committed_not_pending may_retry outs a).
  - exists []. by rewrite round_events_ids, app_nil_r.
  - intros Hnd r Hr Hf. destruct (round_failed_final _ _ _ Hr Hf) as [Hm Hi]. rewrite (Hlast Hm). by apply round_calls.
Qed.

Lemma commit_trace_next outs n new evs :
  commit_trace (map p_id (round_pending true outs)) n new evs ->
  commit_trace (map p_id outs.*1) (S n) (round_results true outs ++ new) (round_events outs ++ evs).
Proof.
  intros (Hall & Hcom & Hperm & Hin & Hlen & Hno & _ & Hfail). split_and!.
  - apply Forall_app. split; [apply round_events_commit|done].
  - rewrite List.filter_app, map_app, omap_app. by rewrite round_committed, Hcom.
  - rewrite map_app, Hperm. apply round_ids.
  - intros i. rewrite omap_app, round_events_ids. intros [?|Hi%Hin]%elem_of_app; [done|].
    rewrite <- (round_ids true outs). apply elem_of_app. by right.
  - pose proof (round_pending_length true outs) as Hl. rewrite length_app.
    unfold round_events in *. rewrite !length_map in *. nia.
  - intros Hnd a i b [(c & Hc & ->)|(c & -> & Hc)]%app_cons_split.
    + destruct (round_committed_not_pending true outs a i c Hnd Hc) as [Hb Hp].
      rewrite omap_app. intros [?|Hi%Hin]%elem_of_app; done.
    + eapply Hno; [|exact Hc]. rewrite <- (round_ids true outs) in Hnd. by apply NoDup_app in Hnd as (_ & _ & ?).
  - exists (omap commit_id evs). by rewrite omap_app, round_events_ids.
  - intros Hnd r [Hr|Hr]%elem_of_app Hf; [by destruct (round_failed_final _ _ _ Hr Hf)|].
    assert (Hi : cr_participant_id r ∈ map p_id (round_pending true outs)).
    { rewrite <- Hperm. apply list_elem_of_fmap. eauto. }
    rewrite calls_of_app, round_calls, Hfail; [done|..|done|done|done|].
    + rewrite <- (round_ids true outs) in Hnd. by apply NoDup_app in Hnd as (_ & _ & ?).
    + rewrite <- (round_ids true outs). apply elem_of_app. by right.
Qed.

Lemma commit_rounds_spec tid n pending rs w rs' w' :
  commit_rounds tid n pending rs w = (rs', w') ->
  exists new evs, rs' = rs ++ new /\ extends w w' evs /\ commit_trace (map p_id pending) (S n) new evs.
Proof.
  revert pending rs w. induction n as [|n IH]; intros pending rs w; cbn [commit_rounds];
    intros ([rs1 np] & w1 & Hr & Hk)%bind_inv;
    apply commit_round_spec in Hr as (outs & <- & Hx & -> & ->); simpl in Hk.
  - rewrite round_pending_false in Hk. simpl in Hk. inv_ret.
    eexists _, _. split_and!; [done..|]. by apply commit_trace_last; [apply round_pending_false|].
  - change (0 <? S n)%nat with true in *. destruct (round_pending true outs) as [|p np] eqn:Enp; simpl in Hk.
    + inv_ret. eexists _, _. split_and!; [done..|]. by apply commit_trace_last.
    + apply IH in Hk as (new & evs & -> & Hx2 & Htr). rewrite <- Enp in Htr.
      eexists (_ ++ new), (_ ++ evs). rewrite <- app_assoc.
      split_and!; [done|by eapply extends_trans|]. by apply commit_trace_next.
Qed.

(** C3. [commit_phase] asks every participant, retries those that fail, reports
    each exactly once and does not call a participant again once it has
    acknowledged its commit: the trace it adds holds only commit calls, the first
    ones to all of the given participants in order, at most [max_retries + 1] per
    participant; the results name each participant once; the results marked
    committed are the acknowledged calls in order.  For participants with
    different ids, no call follows an acknowledged commit, and a participant is
    reported as failed only after [max_retries + 1] calls. *)
Theorem commit_phase_exactly_once tid ps max_retries w rs w' :
  commit_phase tid ps max_retries w = (rs, w') ->
  exists evs, extends w w' evs /\
    Forall (fun e => is_commit e = true) evs /\
    map cr_participant_id (List.filter cr_committed rs) = omap committed_id evs /\
    map cr_participant_id rs ≡ₚ map p_id ps /\
    (forall i, i ∈ omap commit_id evs -> i ∈ map p_id ps) /\
    length evs <= S max_retries * length ps /\
    (NoDup (map p_id ps) -> forall a i b, evs = a ++ ECommit i true :: b -> i ∉ omap commit_id b) /\
    (exists again, omap commit_id evs = map p_id ps ++ again) /\
    (NoDup (map p_id ps) -> forall r, r ∈ rs -> cr_committed r = false ->
       calls_of (cr_participant_id r) evs = S max_retries).
Proof.
  intros (new & evs & -> & Hx & Htr)%commit_rounds_spec. exists evs.
  split; [done|]. unfold commit_trace in Htr. by rewrite length_map in Htr.
Qed.

Lemma rollback_loop_trace tid ps errs w errs' w' :
  rollback_loop tid ps errs w = (errs', w') ->
  exists oks, length oks = length ps /\ extends w w' (zip_with (fun p ok => ERollback (p_id p) ok) ps oks).
Proof.
  revert errs w. induction ps as [|p ps IH]; intros errs w; simpl.
  { intros; inv_ret. exists []. split; [done|]. by apply extends_nil. }
  intros (r & w1 & Hc & Hk)%bind_inv. apply call_trace in Hc. apply IH in Hk as (oks & Hl & Hx).
  exists (is_ok r :: oks). split; [simpl; by rewrite Hl|]. by eapply (extends_trans _ _ _ [_]).
Qed.

(** The rollback phase calls every participant, in order, whatever they answer. *)
Lemma rollback_phase_trace tid ps w r w' :
  rollback_phase tid ps w = (r, w') ->
  exists evs, extends w w' evs /\ Forall (fun e => is_rollback e = true) evs /\
    Forall (fun p => exists ok, ERollback (p_id p) ok ∈ evs) ps.
Proof.
  intros (errs & w1 & Hl & Hk)%bind_inv. inv_ret. apply rollback_loop_trace in Hl as (oks & Hlen & Hx).
  eexists. split; [done|]. clear Hx. revert oks Hlen.
  induction ps as [|p ps IH]; intros [|ok oks] Hlen; simplify_eq/=; [by split; constructor|].
  destruct (IH oks Hlen) as [Hall Hps]. split; [by constructor|].
  constructor; [exists ok; by left|]. eapply Forall_impl; [done|]. intros q [ok' ?]. exists ok'. by right.
Qed.

(** A rollback that failed. *)
Definition refused_rollback (e : event) : bool := match e with ERollback _ false => true | _ => false end.

Lemma rollback_loop_errors tid ps errs w errs' w' :
  rollback_loop tid ps errs w = (errs', w') ->
  exists evs, extends w w' evs /\ is_nil errs' = is_nil errs && negb (existsb refused_rollback evs).
Proof.
  revert errs w. induction ps as [|p ps IH]; intros errs w; simpl.
  { intros; inv_ret. exists []. split; [by apply extends_nil|]. by rewrite andb_true_r. }
  intros (r & w1 & Hc & Hk)%bind_inv. apply call_trace in Hc. apply IH in Hk as (evs & Hx & ->).
  eexists. split; [by eapply (extends_trans _ _ _ [_])|]. destruct r; simpl; [done|]. rewrite andb_false_r. by destruct errs.
Qed.

(** The rollback phase succeeds exactly when no participant refused. *)
Lemma rollback_phase_reply tid ps w r w' evs :
  rollback_phase tid ps w = (r, w') -> extends w w' evs -> is_ok r = negb (existsb refused_rollback evs).
Proof.
  intros (errs & w1 & Hl & Hk)%bind_inv Hx. inv_ret. apply rollback_loop_errors in Hl as (evs' & Hx' & Hn).
  unfold extends in *. rewrite Hx in Hx'. apply app_inv_head in Hx' as ->. rewrite andb_true_l in Hn. rewrite <- Hn. by destruct errs.
Qed.

Lemma commits_refuse_nothing evs : Forall (fun e => is_commit e = true) evs -> existsb refused_rollback evs = false.
Proof. induction 1 as [|[] evs He _ IH]; simpl; done. Qed.

End CommitPhase.

(** ** Safety of [execute] *)

Section Safety.
Context {B W : Type} `{StateBackend B} `{Codec StateEntry} `{Codec TransactionLog}.
Variable utc_now : nat -> string.
Implicit Types w : world B W.
Implicit Types ps : list (Participant W).

(** Every commit call of [evs] finds [G] true of what happened before it. *)
Definition guarded (G : list event -> Prop) (pre evs : list event) : Prop :=
  forall a i ok b, evs = a ++ ECommit i ok :: b -> G (pre ++ a).

Lemma guarded_app G pre l1 l2 : guarded G pre l1 -> guarded G (pre ++ l1) l2 -> guarded G pre (l1 ++ l2).
Proof.
  intros H1' H2' a i ok b [(c & Hc & ->)|(c & -> & Hc)]%app_cons_split; [by eapply H1'|].
  rewrite app_assoc. by eapply H2'.
Qed.

Lemma guarded_none G pre l : Forall (fun e => is_commit e = false) l -> guarded G pre l.
Proof. intros Hl a i ok b ->. apply Forall_app in Hl as [_ Hl]. by inv Hl. Qed.

Lemma guarded_by (G : list event -> Prop) pre e l :
  is_commit e = false -> (forall a, G (pre ++ e :: a)) -> guarded G pre (e :: l).
Proof. intros He HG [|e' a] i ok b Heq; simplify_eq/=. apply HG. Qed.

Lemma rollbacks_no_commit evs :
  Forall (fun e => is_rollback e = true) evs -> Forall (fun e => is_commit e = false) evs.
Proof. intros Hf. eapply Forall_impl; [done|]. by intros []. Qed.

(** The trace of the commit branch starts with the decision record. *)
Lemma execute_commit_trace tid ps w r w' :
  execute_commit utc_now tid ps w = (r, w') ->
  exists evs, extends w w' evs /\ (evs = [] \/ exists tl, evs = ELog Committing :: tl).
Proof.
  unfold execute_commit. intros [(l & w1 & Hu & Hk)|(e & Hu & ->)]%try_bind_inv;
    apply update_status_trace in Hu; [|by exists []; auto].
  enough (exists evs, extends w1 w' evs) as [evs Hx].
  { exists (ELog Committing :: evs). split; [by eapply (extends_trans _ _ _ [_])|eauto]. }
  apply bind_inv in Hk as (rs & w2 & Hc & Hk).
  apply commit_rounds_spec in Hc as (new & cevs & -> & Hx & _).
  destruct (all_committed_of _ _).
  - apply try_bind_inv in Hk as [(log & w3 & Hu2 & Hk)|(e & Hu2 & ->)]; apply update_status_trace in Hu2;
      [|eexists; by eapply extends_trans].
    apply bind_inv in Hk as (x & w4 & Hb & Hk). inv_ret. apply on_backend_trace in Hb.
    eexists. eapply extends_trans; [done|]. by eapply extends_trans.
  - apply try_bind_inv in Hk as [(log & w3 & Hu2 & Hk)|(e & Hu2 & ->)]; apply update_status_trace in Hu2;
      [|eexists; by eapply extends_trans].
    apply bind_inv in Hk as (x & w4 & Hb & Hk). apply rollback_phase_trace in Hb as (revs & Hr & _).
    apply try_bind_inv in Hk as [(log' & w5 & Hu3 & Hk)|(e & Hu3 & ->)]; apply update_status_trace in Hu3.
    + apply bind_inv in Hk as (y & w6 & Hb & Hk). inv_ret. apply on_backend_trace in Hb.
      eexists. do 4 (eapply extends_trans; [done|]). done.
    + eexists. do 3 (eapply extends_trans; [done|]). done.
Qed.

Lemma execute_abort_trace tid ps votes w r w' :
  execute_abort utc_now tid ps votes w = (r, w') ->
  exists evs, extends w w' evs /\ Forall (fun e => is_commit e = false) evs /\ is_ok r = false.
Proof.
  unfold execute_abort. intros [(l & w1 & Hu & Hk)|(e & Hu & ->)]%try_bind_inv;
    apply update_status_trace in Hu; [|by exists []].
  apply bind_inv in Hk as (x & w2 & Hb & Hk). apply rollback_phase_trace in Hb as (revs & Hr & Hall & _).
  apply rollbacks_no_commit in Hall.
  apply try_bind_inv in Hk as [(log' & w3 & Hu3 & Hk)|(e & Hu3 & ->)]; apply update_status_trace in Hu3.
  - apply bind_inv in Hk as (y & w4 & Hb & Hk). inv_ret. apply on_backend_trace in Hb.
    eexists. split_and!; [do 3 (eapply extends_trans; [done|]); done| |done].
    constructor; [done|]. apply Forall_app. split; [done|]. by constructor.
  - eexists. split_and!; [do 2 (eapply extends_trans; [done|]); done| |done].
    constructor; [done|]. apply Forall_app. by split.
Qed.

(** C1. The safety rule of two-phase commit: in any run of [execute], with
    participants and a backend that may fail at any point, a participant's
    [commit] is called only after every participant has voted yes and after the
    decision record (status [committing]) has reached the backend. *)
Theorem execute_commits_only_after_unanimous_vote tid ps meta w r w' :
  execute utc_now tid ps meta w = (r, w') ->
  exists evs, extends w w' evs /\
    forall a i ok b, evs = a ++ ECommit i ok :: b ->
      ELog Committing ∈ a /\ Forall (fun p => EPrepare (p_id p) true ∈ a) ps.
Proof.
  set (G := fun a : list event => ELog Committing ∈ a /\ Forall (fun p => EPrepare (p_id p) true ∈ a) ps).
  intros (log & w1 & Hn & Hk)%bind_inv. unfold new_log, bind, now, ret in Hn. simplify_eq.
  enough (exists evs, extends w w' evs /\ guarded G [] evs) as (evs & Hx & HG).
  { exists evs. split; [done|]. exact HG. }
  apply try_bind_inv in Hk as [(u & w2 & Hs & Hk)|(e & Hs & ->)]; apply save_log_trace in Hs; simpl in Hs.
  2: { exists []. split; [done|]. by apply guarded_none. }
  apply try_bind_inv in Hk as [(st & w3 & Hc & Hk)|(e & Hc & ->)]; apply on_backend_trace in Hc.
  2: { eexists. split; [by eapply extends_trans|]. apply guarded_none. by constructor. }
  apply try_bind_inv in Hk as [(votes & w4 & Hp & Hk)|(e & Hp & ->)];
    apply prepare_phase_trace in Hp as (pevs & Hx & Hno & Hyes);
    assert (Hnc : Forall (fun e => is_commit e = false) pevs) by (eapply Forall_impl; [done|by intros ? []]).
  2: { eexists. split; [do 2 (eapply extends_trans; [done|]); done|]. apply guarded_none. by constructor. }
  destruct (forallb vr_vote votes) eqn:Ev.
  - apply execute_commit_trace in Hk as (evs & Hx2 & Hevs).
    eexists. split; [do 3 (eapply extends_trans; [done|]); done|].
    apply guarded_app; [apply guarded_none; by constructor|]. simpl.
    apply guarded_app; [by apply guarded_none|].
    destruct Hevs as [->|[tl ->]]; [by apply guarded_none|].
    apply guarded_by; [done|]. intros a. split; [set_solver|].
    eapply Forall_impl; [by apply (Hyes votes)|]. set_solver.
  - apply execute_abort_trace in Hk as (evs & Hx2 & Hevs & _).
    eexists. split; [do 3 (eapply extends_trans; [done|]); done|].
    apply guarded_none. constructor; [done|]. simpl. apply Forall_app. by split.
Qed.

End Safety.

(** ** Outcomes on a backend that works *)

(** A set of backend states on which saves and loads succeed. *)
Record reliable {B} `{StateBackend B} (P : B -> Prop) : Prop := {
  rel_save k v b : P b -> exists b', be_save k v b = (Ok tt, b') /\ P b';
  rel_load k b : P b -> exists o b', be_load k b = (Ok o, b') /\ P b';
  rel_cas k o v b r b' : P b -> be_compare_and_swap k o v b = (r, b') -> P b';
}.

Section Outcome.
Context {B W : Type} `{StateBackendLaws B}.
Context `{Codec StateEntry} `{!TotalCodec StateEntry} `{Codec TransactionLog} `{!TotalCodec TransactionLog}.
Variable utc_now : nat -> string.
Variable P : B -> Prop.
Hypothesis HP : reliable P.
Implicit Types w : world B W.
Implicit Types ps : list (Participant W).

(** The log record of [tid] is on the backend, with status [st]. *)
Definition has_log (tid : string) (st : t) (log : TransactionLog) (b : B) : Prop :=
  exists data, contents b !! log_key tid = Some data /\ from_slice data = Ok log /\
    log.(tl_transaction_id) = tid /\ log.(tl_status) = as_str st.

(** The phases talk to participants only. *)
Definition keeps_backend {A} (m : M (world B W) A) : Prop :=
  forall w r w', m w = (r, w') -> w'.(backend) = w.(backend).

Lemma keeps_ret {A} (a : A) : keeps_backend (ret a).
Proof. intros w r w' ?. by inv_ret. Qed.

Lemma keeps_bind {A C} (m : M (world B W) A) (k : A -> M (world B W) C) :
  keeps_backend m -> (forall a, keeps_backend (k a)) -> keeps_backend (bind m k).
Proof. intros Hm Hk w r w' (a & w1 & Hma & Hka)%bind_inv. rewrite (Hk _ _ _ _ Hka). eauto. Qed.

Lemma keeps_call m ev : keeps_backend (call m ev).
Proof. intros w r w'. unfold call. case_match. intros; by simplify_eq. Qed.

Lemma keeps_prepare_loop tid ps acc : keeps_backend (prepare_loop tid ps acc).
Proof.
  revert acc. induction ps as [|p ps IH]; intros acc; simpl; [apply keeps_ret|].
  apply keeps_bind; [apply keeps_call|]. intros []; [apply IH|apply keeps_ret].
Qed.

Lemma keeps_commit_round tid b ps rs np : keeps_backend (commit_round tid b ps rs np).
Proof.
  revert rs np. induction ps as [|p ps IH]; intros rs np; simpl; [apply keeps_ret|].
  apply keeps_bind; [apply keeps_call|]. intros []; [apply IH|]. destruct b; apply IH.
Qed.

Lemma keeps_commit_rounds tid n ps rs : keeps_backend (commit_rounds tid n ps rs).
Proof.
  revert ps rs. induction n as [|n IH]; intros ps rs; simpl;
    (apply keeps_bind; [apply keeps_commit_round|]); intros [rs' [|q np]]; try apply keeps_ret. apply IH.
Qed.

Lemma keeps_rollback_phase tid ps : keeps_backend (rollback_phase tid ps).
Proof.
  apply keeps_bind; [|intros; apply keeps_ret]. generalize (@nil string) as errs.
  induction ps as [|p ps IH]; intros errs; simpl; [apply keeps_ret|].
  apply keeps_bind; [apply keeps_call|]. intros; apply IH.
Qed.

Lemma log_state_keys tid key : log_key tid <> state_key key.
Proof. unfold log_key, state_key. by cbv. Qed.

(** A status update on a working backend succeeds and is durable. *)
Lemma update_status_works tid st st0 log0 w :
  P w.(backend) -> has_log tid st0 log0 w.(backend) ->
  exists log w', update_status utc_now tid st w = (Ok log, w') /\ P w'.(backend) /\
    has_log tid st log w'.(backend) /\ extends w w' [ELog st] /\
    (forall k, k <> log_key tid -> contents w'.(backend) !! k = contents w.(backend) !! k).
Proof.
  intros Hb (data & Hd & Hf & Hid & Hst).
  destruct (rel_load _ HP (log_key tid) _ Hb) as (o & b1 & Hl & Hb1).
  pose proof (load_spec _ _ _ _ Hl) as [Hc1 Ho]. specialize (Ho o eq_refl). rewrite Hd in Ho. subst o.
  set (log := {| tl_transaction_id := tl_transaction_id log0; tl_status := as_str st;
                 tl_participants := tl_participants log0; tl_created_at := tl_created_at log0;
                 tl_updated_at := utc_now (clock w); tl_metadata := tl_metadata log0 |}).
  destruct (to_vec_total log) as [v Hv].
  destruct (rel_save _ HP (log_key tid) v _ Hb1) as (b2 & Hs & Hb2).
  pose proof (save_spec _ _ _ _ _ Hs) as Hc2. simpl in Hc2.
  eexists log, {| backend := b2; clock := S (clock w) |}. split_and!.
  - unfold update_status, load_log, try_bind, bind, on_backend, now. rewrite Hl. simpl. rewrite Hf. simpl.
    fold log. unfold save_log, try_bind, bind, on_backend, emit, ret. rewrite Hv. simpl. rewrite Hid, Hs.
    reflexivity.
  - done.
  - exists v. simpl. rewrite Hc2, lookup_insert_eq. split_and!; try done. by apply from_to_slice.
  - unfold extends. simpl. by rewrite from_as_status.
  - intros k Hk. simpl. by rewrite Hc2, lookup_insert_ne, Hc1.
Qed.

Lemma transition_keeps tid st log key to b r b' :
  P b -> has_log tid st log b -> transition key to b = (r, b') -> P b' /\ has_log tid st log b'.
Proof.
  intros Hb Hlog Ht. split.
  - unfold transition in Ht. revert b Hb Hlog Ht. generalize 4 as n. induction n as [|n IH]; intros b Hb Hlog; simpl.
    { intros; by simplify_eq. }
    unfold prepare_transition. destruct (be_load _ b) as [raw b1] eqn:El.
    assert (Hb1 : P b1).
    { destruct (rel_load _ HP (state_key key) b Hb) as (o & b1' & Hl & ?). congruence. }
    case_match; [|intros; by simplify_eq]. destruct a as [old new].
    unfold compare_and_swap_state.
    destruct (to_vec_total new) as [nd ->].
    destruct (to_vec_total {| se_key := key; se_current_state := ""; se_version := se_version old; se_metadata := JNull |}) as [od ->].
    destruct (be_compare_and_swap _ _ _ b1) as [rc b2] eqn:Ec.
    pose proof (rel_cas _ HP _ _ _ _ _ _ Hb1 Ec) as Hb2.
    destruct rc as [[]|]; [intros; by simplify_eq| |intros; by simplify_eq].
    apply IH; [done|]. destruct Hlog as (data & Hd & ?). exists data. split; [|done].
    pose proof (cas_spec _ _ _ _ _ _ Ec) as ->. by pose proof (load_spec _ _ _ _ El) as [-> _].
  - apply transition_loop_spec in Ht. destruct Hlog as (data & Hd & Hrest). exists data. split; [|done].
    destruct r as [new|]; [|by rewrite Ht]. destruct Ht as (? & ? & data' & ? & _ & _ & _ & _ & _ & _ & ->).
    rewrite lookup_insert_ne; [done|]. intros Heq. by apply (log_state_keys tid key).
Qed.

(** What the stored status [st] and the reply [r] say about the calls [evs]. *)
Definition outcome (ps : list (Participant W)) (r : result TransactionLog string) (st : t)
    (log : TransactionLog) (evs : list event) : Prop :=
  match st with
  | Committed => r = Ok log /\ omap committed_id evs ≡ₚ map p_id ps /\
                 Forall (fun e => is_rollback e = false) evs
  | RolledBack => is_ok r = false /\ omap committed_id evs = [] /\
                  Forall (fun p => exists ok, ERollback (p_id p) ok ∈ evs) ps
  | Mixed => is_ok r = false /\ omap committed_id evs <> [] /\ ~ (omap committed_id evs ≡ₚ map p_id ps) /\
             Forall (fun p => exists ok, ERollback (p_id p) ok ∈ evs) ps
  | _ => False
  end.

Lemma no_commit_ids evs : Forall (fun e => is_commit e = false) evs -> omap committed_id evs = [].
Proof. induction 1 as [|e evs He _ IH]; [done|]. csimpl. rewrite IH. by destruct e as [|? []| |]. Qed.

Lemma outcome_prefix ps r st log evs0 evs :
  Forall (fun e => is_commit e = false /\ is_rollback e = false) evs0 ->
  outcome ps r st log evs -> outcome ps r st log (evs0 ++ evs).
Proof.
  intros H0'. unfold outcome.
  rewrite omap_app, (no_commit_ids evs0) by (eapply Forall_impl; [done|by intros ? []]). simpl.
  assert (Hr : Forall (fun p => exists ok, ERollback (p_id p) ok ∈ evs) ps ->
               Forall (fun p => exists ok, ERollback (p_id p) ok ∈ evs0 ++ evs) ps).
  { intros Hf. eapply Forall_impl; [done|]. intros p [ok ?]. exists ok. apply elem_of_app. by right. }
  destruct st; try done; [|intros (? & ? & ?)|intros (? & ? & ? & ?)]; try (split_and!; by auto).
  intros (? & ? & ?). split_and!; [done..|]. apply Forall_app. split; [|done].
  eapply Forall_impl; [done|by intros ? []].
Qed.

Lemma prepare_phase_works tid ps st0 log0 w :
  P w.(backend) -> has_log tid st0 log0 w.(backend) ->
  exists votes st log w', prepare_phase utc_now tid ps w = (Ok votes, w') /\ P w'.(backend) /\
    has_log tid st log w'.(backend) /\
    (forall k, k <> log_key tid -> contents w'.(backend) !! k = contents w.(backend) !! k).
Proof.
  intros Hb Hl. destruct (update_status_works tid Preparing _ _ w Hb Hl) as (l1 & w1 & Hu & Hb1 & Hl1 & _ & Ho1).
  destruct (prepare_loop tid ps [] w1) as [[votes done] w2] eqn:Ep.
  pose proof (keeps_prepare_loop _ _ _ _ _ _ Ep) as Hbk.
  unfold prepare_phase, try_bind, bind. rewrite Hu, Ep. destruct done.
  - rewrite <- Hbk in Hb1, Hl1.
    destruct (update_status_works tid Prepared _ _ w2 Hb1 Hl1) as (l3 & w3 & Hu3 & Hb3 & Hl3 & _ & Ho3).
    exists votes, Prepared, l3, w3. rewrite Hu3. split_and!; try done.
    intros k Hk. by rewrite Ho3, Hbk, Ho1.
  - exists votes, Preparing, l1, w2. rewrite Hbk. split_and!; done.
Qed.

Lemma on_backend_transition tid st log key to w :
  P w.(backend) -> has_log tid st log w.(backend) ->
  exists r w', on_backend (transition key to) w = (r, w') /\ extends w w' [] /\ has_log tid st log w'.(backend).
Proof.
  intros Hb Hl. destruct (on_backend (transition key to) w) as [r w'] eqn:E.
  exists r, w'. split_and!; [done|by eapply on_backend_trace|].
  unfold on_backend in E. destruct (transition key to (backend w)) as [a b] eqn:Et. simplify_eq/=.
  by eapply transition_keeps.
Qed.

(** Rolling back, recording [final] and failing. *)
Lemma rollback_works tid ps final st0 log0 (msg : TransactionLog -> string) w :
  P w.(backend) -> has_log tid st0 log0 w.(backend) ->
  exists e log w' revs,
    (let!? _ := update_status utc_now tid RollingBack in
     let! _ := rollback_phase tid ps in
     let!? log := update_status utc_now tid final in
     let! _ := on_backend (transition ("2pc_" +:+ tid) Failed) in
     ret (Err (msg log))) w = (Err e : result TransactionLog string, w') /\
    extends w w' ([ELog RollingBack] ++ revs ++ [ELog final]) /\ has_log tid final log w'.(backend) /\
    Forall (fun e => is_rollback e = true) revs /\ Forall (fun p => exists ok, ERollback (p_id p) ok ∈ revs) ps.
Proof.
  intros Hb Hl. destruct (update_status_works tid RollingBack _ _ w Hb Hl) as (l1 & w1 & Hu & Hb1 & Hl1 & Hx1 & _).
  destruct (rollback_phase tid ps w1) as [rr w2] eqn:Er.
  pose proof (keeps_rollback_phase _ _ _ _ _ Er) as Hbk. rewrite <- Hbk in Hb1, Hl1.
  apply rollback_phase_trace in Er as Hr. destruct Hr as (revs & Hx2 & Hall & Hps).
  destruct (update_status_works tid final _ _ w2 Hb1 Hl1) as (l3 & w3 & Hu3 & Hb3 & Hl3 & Hx3 & _).
  destruct (on_backend_transition tid _ _ ("2pc_" +:+ tid) Failed w3 Hb3 Hl3) as (r4 & w4 & Ht & Hx4 & Hl4).
  exists (msg l3), l3, w4, revs. split_and!; try done.
  - unfold try_bind, bind. rewrite Hu, Er, Hu3, Ht. done.
  - eapply extends_trans; [done|]. eapply extends_trans; [done|].
    rewrite <- (app_nil_r [ELog final]). by eapply extends_trans.
Qed.

Lemma rollback_outcome ps e final log cevs revs :
  Forall (fun e => is_rollback e = true) revs -> Forall (fun p => exists ok, ERollback (p_id p) ok ∈ revs) ps ->
  (final = RolledBack /\ omap committed_id cevs = [] \/
   final = Mixed /\ omap committed_id cevs <> [] /\ ~ (omap committed_id cevs ≡ₚ map p_id ps)) ->
  outcome ps (Err e) final log (cevs ++ [ELog RollingBack] ++ revs ++ [ELog final]).
Proof.
  intros Hr Hps Hfinal. pose proof (no_commit_ids _ (rollbacks_no_commit _ Hr)) as Hnr.
  assert (Hid : omap committed_id (cevs ++ [ELog RollingBack] ++ revs ++ [ELog final]) = omap committed_id cevs).
  { rewrite !omap_app, Hnr. csimpl. by rewrite app_nil_r. }
  assert (Hps' : Forall (fun p => exists ok, ERollback (p_id p) ok ∈ cevs ++ [ELog RollingBack] ++ revs ++ [ELog final]) ps).
  { eapply Forall_impl; [done|]. intros p [ok Hok]. exists ok. rewrite !elem_of_app. auto. }
  unfold outcome. rewrite Hid. destruct Hfinal as [[Hf ?]|(Hf & ? & ?)]; by rewrite Hf in *.
Qed.

Lemma all_committed_true ps rs :
  map cr_participant_id rs ≡ₚ map p_id ps -> all_committed_of ps rs = true -> List.filter cr_committed rs = rs.
Proof.
  intros Hperm Hall. apply forallb_filter_id. unfold all_committed_of in Hall. destruct ps; simpl in *.
  - apply Permutation_nil_r in Hperm. by destruct rs.
  - by apply andb_true_iff in Hall as [_ ?].
Qed.

Lemma final_status_cases ps rs :
  map cr_participant_id rs ≡ₚ map p_id ps -> all_committed_of ps rs = false ->
  (final_status_of rs = RolledBack /\ map cr_participant_id (List.filter cr_committed rs) = []) \/
  (final_status_of rs = Mixed /\ map cr_participant_id (List.filter cr_committed rs) <> [] /\
   ~ (map cr_participant_id (List.filter cr_committed rs) ≡ₚ map p_id ps)).
Proof.
  intros Hperm Hall. unfold final_status_of, all_committed_of in *.
  destruct (existsb cr_committed rs) eqn:Eex; [right|left].
  - apply existsb_exists in Eex as (r & Hin & Hr).
    assert (Hf : List.In r (List.filter cr_committed rs)) by by apply List.filter_In.
    split_and!; [done|by destruct (List.filter cr_committed rs)|].
    rewrite <- Hperm. intros Hlen%Permutation_length. rewrite !length_map in Hlen.
    apply filter_length_forallb in Hlen. rewrite Hlen in Hall. by destruct ps, rs.
  - split; [done|]. clear Hperm Hall. induction rs as [|r rs IH]; simpl in *; [done|].
    apply orb_false_iff in Eex as [-> ?]. auto.
Qed.

Lemma execute_commit_works tid ps st0 log0 w :
  P w.(backend) -> has_log tid st0 log0 w.(backend) ->
  exists r st log w' evs, execute_commit utc_now tid ps w = (r, w') /\ extends w w' evs /\
    has_log tid st log w'.(backend) /\ outcome ps r st log evs.
Proof.
  intros Hb Hl. destruct (update_status_works tid Committing _ _ w Hb Hl) as (l1 & w1 & Hu & Hb1 & Hl1 & Hx1 & _).
  destruct (commit_phase tid ps 2 w1) as [rs w2] eqn:Ec.
  pose proof (keeps_commit_rounds _ _ _ _ _ _ _ Ec) as Hbk. rewrite <- Hbk in Hb1, Hl1.
  destruct (commit_rounds_spec _ _ _ _ _ _ _ Ec) as (new & cevs & -> & Hx2 & Hall & Hcom & Hperm & _).
  change ([] ++ new) with new in *.
  unfold execute_commit, try_bind at 1, bind at 1 2. rewrite Hu, Ec.
  assert (Hnr : Forall (fun e => is_rollback e = false) cevs).
  { eapply Forall_impl; [done|]. by intros []. }
  destruct (all_committed_of ps new) eqn:Eall.
  - destruct (update_status_works tid Committed _ _ w2 Hb1 Hl1) as (l3 & w3 & Hu3 & Hb3 & Hl3 & Hx3 & _).
    destruct (on_backend_transition tid _ _ ("2pc_" +:+ tid) Completed w3 Hb3 Hl3) as (r4 & w4 & Ht & Hx4 & Hl4).
    unfold try_bind, bind. rewrite Hu3, Ht.
    exists (Ok l3), Committed, l3, w4. eexists. split_and!; [done| |done|].
    { do 3 (eapply extends_trans; [done|]). done. }
    apply (outcome_prefix _ _ _ _ [_]); [by constructor|]. split_and!; [done|..].
    + rewrite !omap_app. csimpl. rewrite app_nil_r, <- Hcom, <- Hperm.
      by rewrite (all_committed_true ps new).
    + apply Forall_app. split; [done|]. by constructor.
  - edestruct (rollback_works tid ps (final_status_of new) _ _ (fun log =>
      "Commit phase failed: " +:+ String.concat "; " (commit_failures new) +:+ ". Status: " +:+ log.(tl_status)) w2 Hb1 Hl1)
      as (e & l3 & w3 & revs & Hrun & Hx3 & Hl3 & Hrall & Hrps).
    exists (Err e), (final_status_of new), l3, w3. eexists. split_and!; [exact Hrun| |done|].
    { eapply extends_trans; [done|]. by eapply extends_trans. }
    apply (outcome_prefix _ _ _ _ [_]); [by constructor|]. apply rollback_outcome; [done..|].
    rewrite <- Hcom. by apply final_status_cases.
Qed.

Lemma execute_abort_works tid ps votes st0 log0 w :
  P w.(backend) -> has_log tid st0 log0 w.(backend) ->
  exists r st log w' evs, execute_abort utc_now tid ps votes w = (r, w') /\ extends w w' evs /\
    has_log tid st log w'.(backend) /\ outcome ps r st log evs.
Proof.
  intros Hb Hl.
  edestruct (rollback_works tid ps RolledBack _ _ (fun log =>
      "Prepare phase failed: participants did not agree. Rejections: ["
      +:+ String.concat ", " (vote_rejections votes) +:+ "]. Status: " +:+ log.(tl_status)) w Hb Hl)
    as (e & l3 & w3 & revs & Hrun & Hx3 & Hl3 & Hrall & Hrps).
  exists (Err e), RolledBack, l3, w3. eexists. split_and!; [exact Hrun|exact Hx3|done|].
  apply (rollback_outcome ps e RolledBack l3 [] revs); [done..|]. by left.
Qed.

(** The entry [execute] creates in the state machine. *)
Definition begin_entry (tid : string) : StateEntry :=
  {| se_key := "2pc_" +:+ tid; se_current_state := "created"; se_version := 1;
     se_metadata := JObject [("phase", JString "begin")] |}.

(** The first steps: the log record and the state entry are stored. *)
Lemma execute_begins tid ps meta w :
  P w.(backend) ->
  exists w3 log data, execute utc_now tid ps meta w =
      (let!? votes := prepare_phase utc_now tid ps in
       if forallb vr_vote votes then execute_commit utc_now tid ps else execute_abort utc_now tid ps votes) w3 /\
    P w3.(backend) /\ has_log tid Preparing log w3.(backend) /\ extends w w3 [ELog Preparing] /\
    to_vec (begin_entry tid) = Ok data /\
    contents w3.(backend) !! state_key ("2pc_" +:+ tid) = Some data.
Proof.
  intros Hb. set (log := {| tl_transaction_id := tid; tl_status := as_str Preparing;
    tl_participants := participant_infos ps; tl_created_at := utc_now (clock w);
    tl_updated_at := utc_now (S (clock w)); tl_metadata := meta |}).
  destruct (to_vec_total log) as [v Hv]. destruct (to_vec_total (begin_entry tid)) as [ve Hve].
  destruct (rel_save _ HP (log_key tid) v _ Hb) as (b1 & Hs1 & Hb1).
  destruct (rel_save _ HP (state_key ("2pc_" +:+ tid)) ve _ Hb1) as (b2 & Hs2 & Hb2).
  pose proof (save_spec _ _ _ _ _ Hs1) as Hc1. pose proof (save_spec _ _ _ _ _ Hs2) as Hc2. simpl in Hc1, Hc2.
  exists {| backend := b2; parts := parts w; clock := S (S (clock w)); trace := trace w ++ [ELog Preparing] |}, log, ve.
  split_and!; try done.
  - unfold execute.
    rewrite (bind_run _ _ w log {| backend := backend w; parts := parts w; clock := S (S (clock w)); trace := trace w |})
      by done.
    rewrite (try_run _ _ _ tt {| backend := b1; parts := parts w; clock := S (S (clock w));
                                 trace := trace w ++ [ELog Preparing] |}).
    2: { unfold save_log. rewrite Hv. unfold try_bind, bind, on_backend; simpl. by rewrite Hs1. }
    erewrite try_run; [reflexivity|].
    unfold on_backend, create_state; simpl. fold (begin_entry tid). by rewrite Hve, Hs2.
  - exists v. simpl. rewrite Hc2, lookup_insert_ne, Hc1, lookup_insert_eq.
    + split_and!; try done. by apply from_to_slice.
    + intros Heq. by apply (log_state_keys tid ("2pc_" +:+ tid)).
  - simpl. by rewrite Hc2, lookup_insert_eq.
Qed.

(** C2. On a backend whose saves and loads succeed, [execute] always finishes
    with one of three durable verdicts, and the verdict tells the truth about
    the calls made: [committed] (reply [Ok]) exactly when every participant
    acknowledged its commit and none was rolled back; [rolled_back] when no
    participant acknowledged a commit and all were asked to roll back; [mixed]
    when some but not all acknowledged and all were asked to roll back. *)
Theorem execute_outcome tid ps meta w :
  P w.(backend) ->
  exists r st log w' evs, execute utc_now tid ps meta w = (r, w') /\ extends w w' evs /\
    has_log tid st log w'.(backend) /\ outcome ps r st log evs.
Proof.
  intros Hb. destruct (execute_begins tid ps meta w Hb) as (w3 & log0 & data & -> & Hb3 & Hl3 & Hx3 & _ & _).
  destruct (prepare_phase_works tid ps _ _ w3 Hb3 Hl3) as (votes & st1 & log1 & w4 & Hp & Hb4 & Hl4 & _).
  destruct (prepare_phase_trace _ _ _ _ _ _ Hp) as (pevs & Hx4 & Hno & _).
  unfold try_bind at 1, bind at 1. rewrite Hp.
  assert (exists r st log w' evs,
    (if forallb vr_vote votes then execute_commit utc_now tid ps else execute_abort utc_now tid ps votes) w4 = (r, w') /\
    extends w4 w' evs /\ has_log tid st log w'.(backend) /\ outcome ps r st log evs)
    as (r & st & log & w' & evs & Hr & Hx & Hl & Ho).
  { destruct (forallb vr_vote votes); [by eapply execute_commit_works|by eapply execute_abort_works]. }
  exists r, st, log, w'. eexists. split_and!; [done|do 2 (eapply extends_trans; [done|]); done|done|].
  do 2 (apply outcome_prefix; [try done; by constructor|]). done.
Qed.

(** ** The state machine entry *)

(** The entry of the transaction is as [execute] created it. *)
Definition still_created (tid : string) (b : B) : Prop :=
  exists data, to_vec (begin_entry tid) = Ok data /\ contents b !! state_key ("2pc_" +:+ tid) = Some data.

Definition keeps_entry {A} (tid : string) (m : M (world B W) A) : Prop :=
  forall w r w', m w = (r, w') -> still_created tid w.(backend) -> still_created tid w'.(backend).

Lemma keeps_entry_backend {A} tid (m : M (world B W) A) : keeps_backend m -> keeps_entry tid m.
Proof. intros Hm w r w' Hr. by rewrite (Hm _ _ _ Hr). Qed.

Lemma keeps_entry_bind {A C} tid (m : M (world B W) A) (k : A -> M (world B W) C) :
  keeps_entry tid m -> (forall a, keeps_entry tid (k a)) -> keeps_entry tid (bind m k).
Proof. intros Hm Hk w r w' (a & w1 & Hma & Hka)%bind_inv Hs. eapply Hk; [done|]. by eapply Hm. Qed.

Lemma keeps_entry_try {A C} tid (m : M (world B W) (result A string)) (k : A -> M (world B W) (result C string)) :
  keeps_entry tid m -> (forall a, keeps_entry tid (k a)) -> keeps_entry tid (try_bind m k).
Proof.
  intros Hm Hk. apply keeps_entry_bind; [done|]. intros []; [done|]. by apply keeps_entry_backend, keeps_ret.
Qed.

Lemma keeps_entry_ret {A} tid (a : A) : keeps_entry tid (ret a).
Proof. apply keeps_entry_backend, keeps_ret. Qed.

Lemma keeps_entry_update tid tid' st : keeps_entry tid (update_status utc_now tid' st).
Proof.
  apply keeps_entry_try.
  - apply keeps_entry_try; [|intros; apply keeps_entry_ret].
    intros w r w'. unfold on_backend. destruct (be_load _ _) as [o b] eqn:El. intros Hr (data & Hd & Hc).
    simplify_eq/=. exists data. by pose proof (load_spec _ _ _ _ El) as [-> _].
  - intros [log|]; [|apply keeps_entry_ret]. apply keeps_entry_bind.
    { apply keeps_entry_backend. intros w r w' Hn. unfold now in Hn. by simplify_eq. }
    intros up. apply keeps_entry_try; [|intros; apply keeps_entry_ret]. unfold save_log.
    destruct (to_vec _); [|apply keeps_entry_ret]. apply keeps_entry_try.
    + intros w r w'. unfold on_backend. destruct (be_save _ _ _) as [o b] eqn:Es. intros Hr (data & Hd & Hc).
      simplify_eq/=. exists data. split; [done|]. rewrite (save_spec _ _ _ _ _ Es).
      destruct r; [|done]. rewrite lookup_insert_ne; [done|]. apply log_state_keys.
    + intros u. apply keeps_entry_bind; [|intros; apply keeps_entry_ret]. apply keeps_entry_backend.
      intros w r w' He. unfold emit in He. by simplify_eq.
Qed.

Lemma keeps_entry_transition tid to :
  is_valid_transition Created to = false -> keeps_entry tid (on_backend (transition ("2pc_" +:+ tid) to)).
Proof.
  intros Hv w r w'. unfold on_backend. destruct (transition _ _ _) as [o b] eqn:Et. intros Hr (data & Hd & Hc).
  simplify_eq/=. exists data. split; [done|]. apply transition_loop_spec in Et. destruct r as [new|]; [|by rewrite Et].
  destruct Et as (old & d & d' & cur & Hd' & Hf & Hs & Hval & _).
  rewrite Hc in Hd'. simplify_eq. rewrite (from_to_slice _ _ Hd) in Hf. simplify_eq.
  simpl in Hs. injection Hs as <-. by rewrite Hv in Hval.
Qed.

Lemma keeps_entry_rollback_tail tid ps final (msg : TransactionLog -> string) :
  keeps_entry tid (let!? _ := update_status utc_now tid RollingBack in
     let! _ := rollback_phase tid ps in
     let!? log := update_status utc_now tid final in
     let! _ := on_backend (transition ("2pc_" +:+ tid) Failed) in
     ret (Err (msg log) : result TransactionLog string)).
Proof.
  apply keeps_entry_try; [apply keeps_entry_update|]. intros _.
  apply keeps_entry_bind; [apply keeps_entry_backend, keeps_rollback_phase|]. intros _.
  apply keeps_entry_try; [apply keeps_entry_update|]. intros log.
  apply keeps_entry_bind; [by apply keeps_entry_transition|]. intros _. apply keeps_entry_ret.
Qed.

(** The record [execute] keeps in the state machine never leaves state
    [created]: on a working backend, whatever the transaction's outcome, the
    entry [2pc_<id>] still is the one written at the start when [execute]
    returns, because [Created -> Completed] and [Created -> Failed] are not
    edges of [ALLOWED_TRANSITIONS] and the refusal is ignored. *)
Theorem execute_state_entry_stays_created tid ps meta w r w' :
  P w.(backend) -> execute utc_now tid ps meta w = (r, w') -> still_created tid w'.(backend).
Proof.
  intros Hb Hr. destruct (execute_begins tid ps meta w Hb) as (w3 & log & data & Heq & _ & _ & _ & Hd & Hc).
  rewrite Heq in Hr. assert (Hs : still_created tid w3.(backend)) by by exists data. revert Hr Hs.
  generalize w3 r w'. clear -HP. apply keeps_entry_try.
  { apply keeps_entry_try; [apply keeps_entry_update|]. intros _.
    apply keeps_entry_bind; [apply keeps_entry_backend, keeps_prepare_loop|]. intros [votes []];
      [|apply keeps_entry_ret]. apply keeps_entry_try; [apply keeps_entry_update|]. intros _. apply keeps_entry_ret. }
  intros votes. destruct (forallb vr_vote votes); [|by apply keeps_entry_rollback_tail].
  apply keeps_entry_try; [apply keeps_entry_update|]. intros _.
  apply keeps_entry_bind; [apply keeps_entry_backend, keeps_commit_rounds|]. intros rs.
  destruct (all_committed_of ps rs); [|apply keeps_entry_rollback_tail].
  apply keeps_entry_try; [apply keeps_entry_update|]. intros log.
  apply keeps_entry_bind; [by apply keeps_entry_transition|]. intros _. apply keeps_entry_ret.
Qed.

(** ** Recovery *)

Lemma load_log_works tid st log w :
  P w.(backend) -> has_log tid st log w.(backend) ->
  exists w', load_log tid w = (Ok (Some log), w') /\ P w'.(backend) /\ has_log tid st log w'.(backend) /\
    extends w w' [].
Proof.
  intros Hb (data & Hd & Hf & Hid & Hst).
  destruct (rel_load _ HP (log_key tid) _ Hb) as (o & b1 & Hl & Hb1).
  pose proof (load_spec _ _ _ _ Hl) as [Hc1 Ho]. specialize (Ho o eq_refl). rewrite Hd in Ho. subst o.
  exists {| backend := b1; parts := parts w; clock := clock w; trace := trace w |}. split_and!.
  - unfold load_log, try_bind, bind, on_backend. rewrite Hl. simpl. by rewrite Hf.
  - done.
  - exists data. simpl. by rewrite Hc1.
  - by apply extends_nil.
Qed.

(** Rolling back and recording [RolledBack], as [recover] does. *)
Lemma recover_rolls_back tid ps st log w :
  P w.(backend) -> has_log tid st log w.(backend) ->
  exists r w' evs,
    (let!? _ := rollback_phase tid ps in update_status utc_now tid RolledBack) w = (r, w') /\
    extends w w' evs /\ Forall (fun e => is_commit e = false) evs /\
    Forall (fun p => exists ok, ERollback (p_id p) ok ∈ evs) ps /\
    match r with
    | Ok log' => existsb refused_rollback evs = false /\ has_log tid RolledBack log' w'.(backend)
    | Err _ => existsb refused_rollback evs = true /\ has_log tid st log w'.(backend)
    end.
Proof.
  intros Hb Hl. destruct (rollback_phase tid ps w) as [rr w1] eqn:Er.
  pose proof (keeps_rollback_phase _ _ _ _ _ Er) as Hbk. rewrite <- Hbk in Hb, Hl.
  pose proof (rollback_phase_trace _ _ _ _ _ Er) as (revs & Hx & Hall & Hps).
  pose proof (rollback_phase_reply _ _ _ _ _ _ Er Hx) as Hrep.
  apply rollbacks_no_commit in Hall. unfold try_bind, bind. rewrite Er. destruct rr as [u|e].
  - destruct (update_status_works tid RolledBack _ _ w1 Hb Hl) as (l2 & w2 & Hu & _ & Hl2 & Hx2 & _).
    exists (Ok l2), w2. eexists. split_and!; [done|by eapply extends_trans|..].
    + apply Forall_app. split; [done|]. by constructor.
    + eapply Forall_impl; [done|]. intros p [ok Hok]. exists ok. apply elem_of_app. by left.
    + rewrite existsb_app. simpl in *. by destruct (existsb refused_rollback revs).
    + done.
  - exists (Err e), w1, revs. split_and!; try done. simpl in Hrep. by destruct (existsb refused_rollback revs).
Qed.

(** Retrying the commits, as [recover] does. *)
Lemma recover_commits tid ps st log w :
  P w.(backend) -> has_log tid st log w.(backend) ->
  exists r w' evs,
    (let! commit_results := commit_phase tid ps 2 in
     if all_committed_of ps commit_results then update_status utc_now tid Committed
     else let!? _ := rollback_phase tid ps in
          let!? _ := update_status utc_now tid (final_status_of commit_results) in
          ret (Err ("Recovery failed during commit: " +:+ String.concat "; " (commit_failures commit_results))))
      w = (r, w') /\ extends w w' evs /\
    match r with
    | Ok log' => has_log tid Committed log' w'.(backend) /\ omap committed_id evs ≡ₚ map p_id ps /\
                 Forall (fun e => is_rollback e = false) evs
    | Err _ => ~ (omap committed_id evs ≡ₚ map p_id ps) /\
               Forall (fun p => exists ok, ERollback (p_id p) ok ∈ evs) ps /\
               (if existsb refused_rollback evs then has_log tid st log w'.(backend)
                else exists log', has_log tid (if bool_decide (omap committed_id evs = []) then RolledBack else Mixed) log' w'.(backend))
    end.
Proof.
  intros Hb Hl. destruct (commit_phase tid ps 2 w) as [rs w1] eqn:Ec.
  pose proof (keeps_commit_rounds _ _ _ _ _ _ _ Ec) as Hbk. rewrite <- Hbk in Hb, Hl.
  destruct (commit_rounds_spec _ _ _ _ _ _ _ Ec) as (new & cevs & -> & Hx & Hall & Hcom & Hperm & _).
  change ([] ++ new) with new in *. rewrite (bind_run _ _ _ _ _ Ec).
  destruct (all_committed_of ps new) eqn:Eall.
  - destruct (update_status_works tid Committed _ _ w1 Hb Hl) as (l2 & w2 & Hu & _ & Hl2 & Hx2 & _).
    exists (Ok l2), w2. eexists. split_and!; [done|by eapply extends_trans|done|..].
    + rewrite omap_app, <- Hcom, <- Hperm. csimpl. by rewrite app_nil_r, (all_committed_true ps new).
    + apply Forall_app. split; [|by constructor]. eapply Forall_impl; [done|]. by intros [].
  - destruct (rollback_phase tid ps w1) as [rr w2] eqn:Er.
    pose proof (keeps_rollback_phase _ _ _ _ _ Er) as Hbk2. rewrite <- Hbk2 in Hb, Hl.
    pose proof (rollback_phase_trace _ _ _ _ _ Er) as (revs & Hx2 & Hr & Hps).
    pose proof (rollback_phase_reply _ _ _ _ _ _ Er Hx2) as Hrep.
    pose proof (no_commit_ids _ (rollbacks_no_commit _ Hr)) as Hnr.
    assert (Hfin : forall tl, Forall (fun e => is_commit e = false) tl ->
      (if bool_decide (omap committed_id (cevs ++ revs ++ tl) = []) then RolledBack else Mixed) = final_status_of new).
    { intros tl Htl. rewrite !omap_app, <- Hcom, Hnr, (no_commit_ids tl) by done. csimpl. rewrite app_nil_r.
      unfold final_status_of. clear. induction new as [|c new IH]; [done|]. simpl.
      destruct (cr_committed c); simpl; [done|exact IH]. }
    assert (Href : forall tl, existsb refused_rollback (cevs ++ revs ++ tl)
      = existsb refused_rollback revs || existsb refused_rollback tl).
    { intros tl. by rewrite !existsb_app, (commits_refuse_nothing cevs). }
    assert (Hids : forall tl, Forall (fun e => is_commit e = false) tl ->
      ~ (omap committed_id (cevs ++ revs ++ tl) ≡ₚ map p_id ps)).
    { intros tl Htl. rewrite !omap_app, <- Hcom, Hnr, (no_commit_ids tl) by done. csimpl. rewrite app_nil_r.
      destruct (final_status_cases ps new Hperm Eall) as [[_ ->]|(_ & _ & ?)]; [|done].
      intros Hn%Permutation_nil_l. destruct ps; [|done]. done. }
    assert (Hps' : forall tl, Forall (fun p => exists ok, ERollback (p_id p) ok ∈ cevs ++ revs ++ tl) ps).
    { intros tl. eapply Forall_impl; [done|]. intros p [ok Hok]. exists ok. rewrite !elem_of_app. auto. }
    destruct rr as [u|e].
    + rewrite (try_run _ _ _ _ _ Er).
      destruct (update_status_works tid (final_status_of new) _ _ w2 Hb Hl) as (l3 & w3 & Hu & _ & Hl3 & Hx3 & _).
      rewrite (try_run _ _ _ _ _ Hu). eexists (Err _), w3, _. split_and!; [done|..].
      * eapply extends_trans; [done|]. by eapply extends_trans.
      * apply Hids. by constructor.
      * apply Hps'.
      * rewrite Href, Hfin by (by constructor). simpl in *. destruct (existsb refused_rollback revs); [done|]. by exists l3.
    + exists (Err e), w2, (cevs ++ revs ++ []). unfold try_bind, bind. rewrite Er. split_and!; [done|..].
      * rewrite app_nil_r. by eapply extends_trans.
      * by apply Hids.
      * apply Hps'.
      * rewrite Href. simpl in *. by destruct (existsb refused_rollback revs).
Qed.

(** C4. [recover] resolves a transaction by its durable record, on a backend whose
    saves and loads succeed.  A finished record is returned as it is and an unknown
    status is refused, in both cases without calling a participant.  For a record
    from before the decision, or of a rollback, every participant is asked to roll
    back and none to commit; the record becomes [rolled_back] if all of them did, and
    otherwise stays and the caller gets an error.  For a record at the decision,
    success means that every participant committed, none was rolled back and the
    record is [committed]; otherwise every participant is asked to roll back, the
    caller gets an error, and the record stays if one of them refused and else says
    [rolled_back] or [mixed] by whether a commit was acknowledged. *)
Theorem recover_decides tid ps st log w :
  P w.(backend) -> has_log tid st log w.(backend) ->
  exists r w' evs, recover utc_now tid ps w = (r, w') /\ extends w w' evs /\
    match st with
    | Committed | RolledBack | Mixed => r = Ok log /\ evs = []
    | Unknown => is_ok r = false /\ evs = []
    | Preparing | Prepared | RollingBack =>
        Forall (fun e => is_commit e = false) evs /\
        Forall (fun p => exists ok, ERollback (p_id p) ok ∈ evs) ps /\
        match r with
        | Ok log' => existsb refused_rollback evs = false /\ has_log tid RolledBack log' w'.(backend)
        | Err _ => existsb refused_rollback evs = true /\ has_log tid st log w'.(backend)
        end
    | Committing =>
        match r with
        | Ok log' => has_log tid Committed log' w'.(backend) /\ omap committed_id evs ≡ₚ map p_id ps /\
                     Forall (fun e => is_rollback e = false) evs
        | Err _ => ~ (omap committed_id evs ≡ₚ map p_id ps) /\
                   Forall (fun p => exists ok, ERollback (p_id p) ok ∈ evs) ps /\
                   (if existsb refused_rollback evs then has_log tid Committing log w'.(backend)
                    else exists log', has_log tid (if bool_decide (omap committed_id evs = []) then RolledBack else Mixed) log' w'.(backend))
        end
    end.
Proof.
  intros Hb Hl. destruct (load_log_works tid st log w Hb Hl) as (w1 & Hload & Hb1 & Hl1 & Hx1).
  unfold recover. rewrite (try_run _ _ _ _ _ Hload).
  destruct Hl as (? & _ & _ & _ & ->). rewrite from_as_status.
  assert (Hpre : forall w' evs, extends w1 w' evs -> extends w w' evs).
  { intros w' evs Hx. exact (extends_trans _ _ _ [] _ Hx1 Hx). }
  destruct st;
    try (destruct (recover_rolls_back tid ps _ _ w1 Hb1 Hl1) as (r & w' & evs & Hr & Hx & Hrest);
         exists r, w', evs; by auto);
    try (eexists _, w1, []; split_and!; [reflexivity|done|done|done]).
  destruct (recover_commits tid ps _ _ w1 Hb1 Hl1) as (r & w' & evs & Hr & Hx & Hrest).
  exists r, w', evs. auto.
Qed.

End Outcome.

(** ** Evaluation on the SQLite backend *)

Module TwoPhaseDemo.

#[local] Instance demo_entry_codec : Codec StateEntry := CountableCodec.codec.
#[local] Instance demo_log_codec : Codec TransactionLog := CountableCodec.codec.
#[local] Instance demo_entry_total : TotalCodec StateEntry := CountableCodec.total.
#[local] Instance demo_log_total : TotalCodec TransactionLog := CountableCodec.total.

Definition fault_free (s : Storage.t) : Prop := s.(Storage.faults) = [].

(** A table without scheduled faults is a reliable backend. *)
Lemma fault_free_reliable : reliable fault_free.
Proof.
  split; unfold fault_free; simpl.
  - intros k v b Hb. unfold Storage.save_state, Storage.with_conn. rewrite Hb. by eexists.
  - intros k b Hb. unfold Storage.load_state, Storage.with_conn. rewrite Hb. by do 2 eexists.
  - intros k o v b r b' Hb. unfold local_compare_and_swap, Storage.compare_and_swap_state, Storage.with_conn.
    rewrite Hb. intros. split_matches; simplify_eq/=; done.
Qed.

Definition utc (n : nat) : string := pretty n.

(** A participant on a list of scripted answers: each call consumes one. *)
Definition answer (w : list bool) : result unit string * list bool :=
  match w with
  | false :: rest => (Err "refused", rest)
  | _ => (Ok tt, drop 1 w)
  end.
Definition node (name : string) : Participant (list bool) := {|
  p_id := name; p_name := name; p_role := "primary";
  p_prepare _ := answer; p_commit _ := answer; p_rollback _ := answer |}.
Definition nodes : list (Participant (list bool)) := [node "a"; node "b"].

Definition start (answers : list bool) : world Storage.t (list bool) :=
  {| backend := StateMachineDemo.empty_store; parts := answers; clock := 0; trace := [] |}.

(** Both vote, [b] fails its commit three times. *)
Definition split_run := execute utc "t1" nodes JNull (start [true; true; true; false; false; false]).

Lemma commit_phase_exactly_once_witness :
  exists evs, extends (start [true; false; true]) (commit_phase "t1" nodes 2 (start [true; false; true])).2 evs /\
    Forall (fun e => is_commit e = true) evs /\
    map cr_participant_id (List.filter cr_committed (commit_phase "t1" nodes 2 (start [true; false; true])).1)
      = omap committed_id evs /\
    map cr_participant_id (commit_phase "t1" nodes 2 (start [true; false; true])).1 ≡ₚ map p_id nodes /\
    (forall i, i ∈ omap commit_id evs -> i ∈ map p_id nodes) /\
    length evs <= 3 * length nodes /\
    (NoDup (map p_id nodes) -> forall a i b, evs = a ++ ECommit i true :: b -> i ∉ omap commit_id b) /\
    (exists again, omap commit_id evs = map p_id nodes ++ again) /\
    (NoDup (map p_id nodes) -> forall r, r ∈ (commit_phase "t1" nodes 2 (start [true; false; true])).1 ->
       cr_committed r = false -> calls_of (cr_participant_id r) evs = 3).
Proof.
  apply (commit_phase_exactly_once "t1" nodes 2 (start [true; false; true])). vm_compute. reflexivity.
Defined.

Lemma execute_commits_only_after_unanimous_vote_witness :
  exists evs, extends (start [true; true; true; false; false; false]) split_run.2 evs /\
    forall a i ok b, evs = a ++ ECommit i ok :: b ->
      ELog Committing ∈ a /\ Forall (fun p => EPrepare (p_id p) true ∈ a) nodes.
Proof.
  apply (execute_commits_only_after_unanimous_vote utc "t1" nodes JNull
    (start [true; true; true; false; false; false]) split_run.1). vm_compute. reflexivity.
Defined.

Lemma execute_outcome_witness :
  exists r st log w' evs, split_run = (r, w') /\
    extends (start [true; true; true; false; false; false]) w' evs /\
    has_log "t1" st log w'.(backend) /\ outcome nodes r st log evs.
Proof.
  apply (execute_outcome utc fault_free fault_free_reliable "t1" nodes JNull). reflexivity.
Defined.

Lemma execute_state_entry_stays_created_witness : still_created "t1" split_run.2.(backend).
Proof.
  apply (execute_state_entry_stays_created utc fault_free fault_free_reliable "t1" nodes JNull
    (start [true; true; true; false; false; false]) split_run.1); [reflexivity|].
  vm_compute. reflexivity.
Defined.

(** The coordinator stopped right after it recorded [committing]. *)
Definition stopped : world Storage.t (list bool) :=
  (update_status utc "t1" Committing split_run.2).2.
Definition stopped_log : TransactionLog :=
  match (load_log "t1" stopped).1 with
  | Ok (Some l) => l
  | _ => (new_log utc "t1" [] JNull stopped).1
  end.

Lemma recover_decides_witness :
  exists r w' evs, recover utc "t1" nodes stopped = (r, w') /\ extends stopped w' evs /\
    match r with
    | Ok log' => has_log "t1" Committed log' w'.(backend) /\ omap committed_id evs ≡ₚ map p_id nodes /\
                 Forall (fun e => is_rollback e = false) evs
    | Err _ => ~ (omap committed_id evs ≡ₚ map p_id nodes) /\
               Forall (fun p => exists ok, ERollback (p_id p) ok ∈ evs) nodes /\
               (if existsb refused_rollback evs then has_log "t1" Committing stopped_log w'.(backend)
                else exists log', has_log "t1" (if bool_decide (omap committed_id evs = []) then RolledBack else Mixed) log' w'.(backend))
    end.
Proof.
  apply (recover_decides utc fault_free fault_free_reliable "t1" nodes Committing stopped_log stopped).
  - vm_compute. reflexivity.
  - eexists. split_and!; vm_compute; reflexivity.
Defined.

Example split_run_is_mixed :
  match (load_log "t1" split_run.2).1 with Ok (Some l) => tl_status l | _ => "" end = "mixed".
Proof. vm_compute. reflexivity. Qed.

End TwoPhaseDemo.
