(* ===== verification/TransactionOwner.v ===== *)
(** * Transaction owners

    Models [crates/dbx-mcp/src/transaction.rs]: the task that owns one MySQL
    connection for a session and runs [START TRANSACTION], queries, [COMMIT]
    and [ROLLBACK] on it, the leases that serialise its callers, and the
    registry that invalidates owners when their connection changes.

    The connection is a type [C] with an instance of [TransactionIo];
    [TransactionIoLaws] is what the trait's documentation promises of it.  A
    [tokio::select!] or [timeout] is a [race]: the environment chooses which
    branch wins, and when the I/O future loses it also chooses what the
    abandoned call left behind on the connection.  The owner's life is a step
    relation over those choices, so the theorems hold for every schedule. *)

From S2P Require Import Prelude.

(** ** States and outcomes *)

Module TransactionState.
Inductive t : Type := Idle | Active | Unknown.
#[global] Instance t_eq_dec : EqDecision t.
Proof. solve_decision. Defined.
Definition as_str (s : t) : string := match s with Idle => "idle" | Active => "active" | Unknown => "unknown" end.
End TransactionState.
Abbreviation Idle := TransactionState.Idle.
Abbreviation Active := TransactionState.Active.
Abbreviation StateUnknown := TransactionState.Unknown.

Module TransactionOutcome.
Inductive t : Type := Committed | RolledBack | Unknown.
#[global] Instance t_eq_dec : EqDecision t.
Proof. solve_decision. Defined.
Definition as_str (o : t) : string :=
  match o with Committed => "committed" | RolledBack => "rolled_back" | Unknown => "unknown" end.
End TransactionOutcome.
Abbreviation Committed := TransactionOutcome.Committed.
Abbreviation RolledBack := TransactionOutcome.RolledBack.
Abbreviation OutcomeUnknown := TransactionOutcome.Unknown.

Record TransactionStatus := {
  ts_state : TransactionState.t;
  ts_outcome : option TransactionOutcome.t;
}.

#[global] Instance TransactionStatus_eq_dec : EqDecision TransactionStatus.
Proof. solve_decision. Defined.

(** [TransactionStatus::default]. *)
Definition default_status : TransactionStatus := {| ts_state := Idle; ts_outcome := None |}.

(** What [set_unknown] writes. *)
Definition unknown_status : TransactionStatus := {| ts_state := StateUnknown; ts_outcome := Some OutcomeUnknown |}.

Record TransactionFailure := {
  tf_code : string;
  tf_message : string;
  tf_mysql_code : option Z;
  tf_state : TransactionState.t;
  tf_outcome : option TransactionOutcome.t;
}.

Definition failure (code message : string) (mysql_code : option Z) (status : TransactionStatus)
    : TransactionFailure :=
  {| tf_code := code; tf_message := message; tf_mysql_code := mysql_code;
     tf_state := status.(ts_state); tf_outcome := status.(ts_outcome) |}.

Inductive Operation : Type :=
| Begin
| Query (sql : string) (max_rows : option nat)
| Commit
| Rollback.

#[global] Instance Operation_eq_dec : EqDecision Operation.
Proof. solve_decision. Defined.

Inductive TransactionIoError : Type :=
| Policy (message : string)
| Server (code : Z) (message : string)
| Transport (message : string).

(** ** The connection *)

Record TransactionIoSuccess (Q : Type) := { ios_result : Q; ios_in_transaction : bool }.
Arguments ios_result {Q} _.
Arguments ios_in_transaction {Q} _.

(** [Q] is [QueryResult], which the owner only passes on. *)
Class TransactionIo (C Q : Type) := {
  io_execute : string -> option nat -> M C (result (TransactionIoSuccess Q) TransactionIoError);
  io_ping_in_transaction : M C (result bool TransactionIoError);
  io_disconnect : C -> C;
}.

(** What the trait documents: the flag of an acknowledged call is the server's
    own ([in_tx]); a [Policy] error was raised before any SQL was sent. *)
Class TransactionIoLaws (C Q : Type) `{TransactionIo C Q} := {
  in_tx : C -> bool;
  execute_flag sql rows c x c' : io_execute sql rows c = (Ok x, c') -> in_tx c' = x.(ios_in_transaction);
  execute_policy sql rows c m c' : io_execute sql rows c = (Err (Policy m), c') -> c' = c;
  ping_flag c b c' : io_ping_in_transaction c = (Ok b, c') -> in_tx c' = b;
}.

(** The outcome of a [select!] between the owner's cancellation, the caller's
    disappearance and a timed call: in all but the last case the call was
    abandoned and left the connection in the given state. *)
Inductive race (C : Type) : Type :=
| RaceCancelled (abandoned : C)
| RaceDropped (abandoned : C)
| RaceElapsed (abandoned : C)
| RaceDone.
Arguments RaceCancelled {C} abandoned.
Arguments RaceDropped {C} abandoned.
Arguments RaceElapsed {C} abandoned.
Arguments RaceDone {C}.

Section Owner.
Context {C Q : Type} `{TransactionIo C Q}.

Record TransactionResult := {
  tr_result : Q;
  tr_state : TransactionState.t;
  tr_outcome : option TransactionOutcome.t;
}.

(** [config.operation_timeout.as_secs()]. *)
Variable operation_timeout_secs : nat.

(** ** One command *)

(** What [handle_command] returns, sends and leaves behind. *)
Record handled := {
  h_terminal : bool;
  h_response : result TransactionResult TransactionFailure;
  h_status : TransactionStatus;
  h_conn : C;
}.

(** [set_unknown], send the failure, return [true]. *)
Definition give_up_unknown (code message : string) (mysql_code : option Z) (c : C) : handled :=
  {| h_terminal := true; h_response := Err (failure code message mysql_code unknown_status);
     h_status := unknown_status; h_conn := c |}.

(** The operations refused before any SQL is sent. *)
Definition invalid_operation (op : Operation) (current : TransactionStatus) : option (string * string) :=
  match op with
  | Begin =>
    if bool_decide (current.(ts_state) = Active)
    then Some ("TRANSACTION_ALREADY_ACTIVE", "A transaction is already active for this session.") else None
  | Commit | Rollback =>
    if bool_decide (current.(ts_state) <> Active)
    then Some ("TRANSACTION_NOT_ACTIVE", "No active transaction exists for this session.") else None
  | Query _ _ => None
  end.

(** The statement, its row limit and the outcome a success stands for. *)
Definition statement_of (op : Operation) : string * option nat * option TransactionOutcome.t :=
  match op with
  | Begin => ("START TRANSACTION", None, None)
  | Query sql max_rows => (sql, max_rows, None)
  | Commit => ("COMMIT", None, Some Committed)
  | Rollback => ("ROLLBACK", None, Some RolledBack)
  end.

Definition state_of_flag (in_transaction : bool) : TransactionState.t := if in_transaction then Active else Idle.

(** The [Ok(Ok(success))] arm. *)
Definition handle_success (op : Operation) (success_outcome : option TransactionOutcome.t)
    (x : TransactionIoSuccess Q) (c : C) : handled :=
  let expected := match success_outcome with
    | Some _ => false
    | None => if bool_decide (op = Begin) then true else x.(ios_in_transaction)
    end in
  if negb (Bool.eqb x.(ios_in_transaction) expected)
  then give_up_unknown "TRANSACTION_STATE_UNKNOWN"
         "MySQL acknowledged the operation with an unexpected transaction state." None c
  else
    let status := {| ts_state := state_of_flag x.(ios_in_transaction); ts_outcome := success_outcome |} in
    {| h_terminal := false;
       h_response := Ok {| tr_result := x.(ios_result); tr_state := status.(ts_state); tr_outcome := status.(ts_outcome) |};
       h_status := status; h_conn := c |}.

(** The [Server] arm: a failed [COMMIT] is not probed, anything else is. *)
Definition handle_server_error (op : Operation) (probe : race C) (current : TransactionStatus)
    (code : Z) (message : string) (c : C) : handled :=
  if bool_decide (op = Commit)
  then give_up_unknown "TRANSACTION_STATE_UNKNOWN" message (Some code) c
  else match probe with
  | RaceCancelled c' => give_up_unknown "TRANSACTION_CANCELLED"
      "Transaction operation was cancelled during status verification." (Some code) c'
  | RaceDropped c' => give_up_unknown "TRANSACTION_CANCELLED"
      "Transaction request was dropped during status verification." (Some code) c'
  | RaceElapsed c' => give_up_unknown "TRANSACTION_STATE_UNKNOWN" message (Some code) c'
  | RaceDone =>
    let '(r, c') := io_ping_in_transaction c in
    match r with
    | Ok in_transaction =>
      let status := {| ts_state := state_of_flag in_transaction;
        ts_outcome := if bool_decide (current.(ts_state) = Active) && negb in_transaction
                      then Some RolledBack else None |} in
      {| h_terminal := false; h_response := Err (failure "MYSQL_SERVER_ERROR" message (Some code) status);
         h_status := status; h_conn := c' |}
    | Err _ => give_up_unknown "TRANSACTION_STATE_UNKNOWN" message (Some code) c'
    end
  end.

Definition handle_command (op : Operation) (execution probe : race C) (current : TransactionStatus) (c : C)
    : handled :=
  match invalid_operation op current with
  | Some (code, message) =>
    {| h_terminal := false; h_response := Err (failure code message None current);
       h_status := current; h_conn := c |}
  | None =>
    let '(sql, max_rows, success_outcome) := statement_of op in
    match execution with
    | RaceCancelled c' => give_up_unknown "TRANSACTION_CANCELLED" "Transaction operation was cancelled." None c'
    | RaceDropped c' => give_up_unknown "TRANSACTION_CANCELLED"
        "Transaction request was dropped before completion." None c'
    | RaceElapsed c' => give_up_unknown "TRANSACTION_TIMEOUT"
        ("Transaction operation timed out after " +:+ pretty operation_timeout_secs +:+ " seconds.") None c'
    | RaceDone =>
      let '(r, c') := io_execute sql max_rows c in
      match r with
      | Ok x => handle_success op success_outcome x c'
      | Err (Policy message) =>
        {| h_terminal := false; h_response := Err (failure "TRANSACTION_SQL_BLOCKED" message None current);
           h_status := current; h_conn := c' |}
      | Err (Server code message) => handle_server_error op probe current code message c'
      | Err (Transport message) => give_up_unknown "TRANSACTION_STATE_UNKNOWN" message None c'
      end
    end
  end.

(** ** The owner *)

(** Where [run_owner] is: in its loop, past the loop, past the rollback, or
    returned. *)
Inductive phase := Looping | Leaving | Disconnecting | Gone.

(** [TransactionOwnerInner] with the worker's connection.  [gate_permits] and
    [gate_open] are the semaphore [operation_gate]. *)
Record owner := {
  o_status : TransactionStatus;
  o_cancelled : bool;
  o_closed : bool;
  gate_permits : nat;
  gate_open : bool;
  closed_token : bool;
  o_phase : phase;
  o_conn : C;
}.

(** [TransactionOwner::spawn]. *)
Definition spawn (c : C) : owner :=
  {| o_status := default_status; o_cancelled := false; o_closed := false; gate_permits := 1; gate_open := true;
     closed_token := false; o_phase := Looping; o_conn := c |}.

Definition with_status (o : owner) (st : TransactionStatus) (ph : phase) (c : C) : owner :=
  {| o_status := st; o_cancelled := o.(o_cancelled); o_closed := o.(o_closed); gate_permits := o.(gate_permits);
     gate_open := o.(gate_open); closed_token := o.(closed_token); o_phase := ph; o_conn := c |}.

Definition with_permits (o : owner) (n : nat) : owner :=
  {| o_status := o.(o_status); o_cancelled := o.(o_cancelled); o_closed := o.(o_closed); gate_permits := n;
     gate_open := o.(gate_open); closed_token := o.(closed_token); o_phase := o.(o_phase); o_conn := o.(o_conn) |}.

(** [invalidate], [close]'s first line and [Drop]. *)
Definition invalidate (o : owner) : owner :=
  {| o_status := o.(o_status); o_cancelled := true; o_closed := o.(o_closed); gate_permits := o.(gate_permits);
     gate_open := o.(gate_open); closed_token := o.(closed_token); o_phase := o.(o_phase); o_conn := o.(o_conn) |}.

(** One turn of the loop that received a command. *)
Definition serve (op : Operation) (execution probe : race C) (o : owner) : handled * owner :=
  let h := handle_command op execution probe o.(o_status) o.(o_conn) in
  (h, with_status o h.(h_status) (if h.(h_terminal) then Leaving else Looping) h.(h_conn)).

(** A turn that saw the cancellation, the idle timer or a closed channel. *)
Definition leave (o : owner) : owner := with_status o o.(o_status) Leaving o.(o_conn).

(** The rollback after the loop; [Some c] is the cleanup timeout winning, [c]
    what the abandoned rollback left behind. *)
Definition cleanup_rollback (timed_out : option C) (o : owner) : owner :=
  if bool_decide (o.(o_status).(ts_state) = Active) then
    match timed_out with
    | Some c => with_status o unknown_status Disconnecting c
    | None =>
      let '(r, c) := io_execute "ROLLBACK" None o.(o_conn) in
      match r with
      | Ok x => if negb x.(ios_in_transaction)
                then with_status o {| ts_state := Idle; ts_outcome := Some RolledBack |} Disconnecting c
                else with_status o unknown_status Disconnecting c
      | Err _ => with_status o unknown_status Disconnecting c
      end
    end
  else with_status o o.(o_status) Disconnecting o.(o_conn).

(** Disconnect, mark the owner closed and close the gate. *)
Definition cleanup_disconnect (timed_out : option C) (o : owner) : owner :=
  {| o_status := o.(o_status); o_cancelled := o.(o_cancelled); o_closed := true; gate_permits := o.(gate_permits);
     gate_open := false; closed_token := true; o_phase := Gone;
     o_conn := match timed_out with Some c => c | None => io_disconnect o.(o_conn) end |}.

(** ** Callers *)

Definition terminal_failure (o : owner) (code message : string) : TransactionFailure :=
  failure code message None o.(o_status).

Definition closed_failure (o : owner) : TransactionFailure :=
  terminal_failure o "TRANSACTION_CLOSED" "Transaction session is closed.".

(** [acquire] once its [select!] is decided: by a permit, by the closed gate,
    or by the cancellation.  On success the lease holds the permit; on a
    failure the permit, if any, is dropped again. *)
Inductive acquired := PermitGranted | GateClosed | SawCancelled.

Definition acquire (branch : acquired) (o : owner) : result unit TransactionFailure * owner :=
  match branch with
  | GateClosed | SawCancelled => (Err (closed_failure o), o)
  | PermitGranted =>
    if o.(o_closed) || o.(o_cancelled) then (Err (closed_failure o), o)
    else if bool_decide (o.(o_status).(ts_state) = StateUnknown) then
      (Err (terminal_failure o "TRANSACTION_OUTCOME_UNKNOWN"
              "Transaction outcome is unknown; this session cannot execute more SQL."), o)
    else (Ok tt, with_permits o (o.(gate_permits) - 1))
  end.

(** The branch the [select!] may take in a given state. *)
Definition branch_enabled (branch : acquired) (o : owner) : bool :=
  match branch with
  | PermitGranted => o.(gate_open) && (0 <? o.(gate_permits))%nat
  | GateClosed => negb o.(gate_open)
  | SawCancelled => o.(o_cancelled)
  end.

(** Dropping a [TransactionLease]. *)
Definition release (o : owner) : owner := with_permits o (S o.(gate_permits)).

(** The value of [close] once its wait is over. *)
Definition close_result (timed_out : bool) (o : owner) : option (result TransactionStatus TransactionStatus) :=
  if o.(o_closed) then Some (Ok o.(o_status))
  else if timed_out then Some (Err o.(o_status))
  else None.

(** What becomes of a command a lease has sent: the worker takes it and races
    it ([d_served]), or leaves its loop first, cleans up and drops the channel
    with the command in it. *)
Record delivery := {
  d_served : option (race C * race C);
  d_rollback : option C;
  d_disconnect : option C;
}.

Definition run_ref (op : Operation) (d : delivery) (o : owner) : result TransactionResult TransactionFailure * owner :=
  match o.(o_phase), d.(d_served) with
  | Gone, _ => (Err (closed_failure o), o)
  | Looping, Some (execution, probe) => let '(h, o') := serve op execution probe o in (h.(h_response), o')
  | ph, _ =>
    let o1 := match ph with Disconnecting => o | _ => cleanup_rollback d.(d_rollback) (leave o) end in
    let o2 := cleanup_disconnect d.(d_disconnect) o1 in
    (Err (terminal_failure o2 "TRANSACTION_CLOSED" "Transaction session closed during the operation."), o2)
  end.

Definition batch_stops (continue_on_error : bool) (r : result TransactionResult TransactionFailure) : bool :=
  match r with
  | Ok _ => false
  | Err error => bool_decide (error.(tf_state) = StateUnknown) || negb continue_on_error
  end.

(** [TransactionLease::batch]; [ds] says what becomes of each command. *)
Fixpoint batch (statements : list string) (max_rows : option nat) (continue_on_error : bool)
    (ds : nat -> delivery) (o : owner) : list (result TransactionResult TransactionFailure) * owner :=
  match statements with
  | [] => ([], o)
  | statement :: rest =>
    let '(r, o) := run_ref (Query statement max_rows) (ds 0) o in
    if batch_stops continue_on_error r then ([r], o)
    else let '(rs, o) := batch rest max_rows continue_on_error (fun i => ds (S i)) o in (r :: rs, o)
  end.

(** ** Every life of an owner *)

(** [leases] counts the leases in callers' hands. *)
Inductive step : owner * nat -> owner * nat -> Prop :=
| step_invalidate o n : step (o, n) (invalidate o, n)
| step_acquire branch o n o' :
    branch_enabled branch o = true -> acquire branch o = (Ok tt, o') -> step (o, n) (o', S n)
| step_release o n : step (o, S n) (release o, n)
| step_command op execution probe o n :
    o.(o_phase) = Looping -> 0 < n -> step (o, n) ((serve op execution probe o).2, n)
| step_leave o n : o.(o_phase) = Looping -> step (o, n) (leave o, n)
| step_rollback timed_out o n : o.(o_phase) = Leaving -> step (o, n) (cleanup_rollback timed_out o, n)
| step_disconnect timed_out o n : o.(o_phase) = Disconnecting -> step (o, n) (cleanup_disconnect timed_out o, n).

End Owner.

Arguments TransactionResult : clear implicits.
Arguments handled : clear implicits.
Arguments owner : clear implicits.
Arguments delivery : clear implicits.

(** ** Facts about one command *)

Section CommandFacts.
Context {C Q : Type} `{TransactionIo C Q}.
Variable secs : nat.
Implicit Types (c : C) (cur : TransactionStatus) (ex pr : race C).

Local Ltac command_cases :=
  unfold handle_command, handle_server_error, handle_success, give_up_unknown in *;
  repeat (case_match; simplify_eq/=); try done.

Lemma handled_terminal op ex pr cur c :
  h_terminal (handle_command secs op ex pr cur c) = true ->
  h_status (handle_command secs op ex pr cur c) = unknown_status.
Proof. command_cases. Qed.

Lemma handled_live op ex pr cur c :
  h_terminal (handle_command secs op ex pr cur c) = false -> cur.(ts_state) <> StateUnknown ->
  ts_state (h_status (handle_command secs op ex pr cur c)) <> StateUnknown.
Proof. command_cases; unfold state_of_flag; by case_match. Qed.

(** A commit is reported only when it happened.  Whatever the operation, a
    reply with outcome [committed] means the operation was [Commit] on an
    active transaction and the server acknowledged [COMMIT] with the
    transaction closed; and a [Commit] sent on an active transaction that was
    not so acknowledged is answered with outcome [unknown] and ends the owner,
    unless the statement was refused locally, which leaves everything as it
    was. *)
Theorem commit_reply_is_truthful op ex pr cur c :
  let h := handle_command secs op ex pr cur c in
  let acknowledged := ex = RaceDone /\ exists q, h.(h_response) =
        Ok {| tr_result := q; tr_state := Idle; tr_outcome := Some Committed |} /\
      io_execute "COMMIT" None c = (Ok {| ios_result := q; ios_in_transaction := false |}, h.(h_conn)) /\
      h.(h_status) = {| ts_state := Idle; ts_outcome := Some Committed |} /\ h.(h_terminal) = false in
  (forall r, h.(h_response) = Ok r -> r.(tr_outcome) = Some Committed ->
     op = Commit /\ cur.(ts_state) = Active /\ acknowledged) /\
  (op = Commit -> cur.(ts_state) = Active ->
     acknowledged \/
     (exists f, h.(h_response) = Err f /\ f.(tf_outcome) = Some OutcomeUnknown /\ h.(h_terminal) = true) \/
     (exists m, io_execute "COMMIT" None c = (Err (Policy m), h.(h_conn)) /\ h.(h_status) = cur)).
Proof.
  intros h acknowledged. subst h acknowledged. split.
  - intros r Hr Ho. destruct op; command_cases; bool_solver; simplify_eq/=;
      (split_and!; [done|by apply dec_stable|done|]; eexists; split_and!; try done;
       match goal with x : TransactionIoSuccess Q |- _ => by destruct x as [? []] end).
  - intros -> Ha. unfold handle_command, invalid_operation. rewrite bool_decide_false by naive_solver. simpl.
    destruct ex as [| | |]; try (right; left; by eexists).
    destruct (io_execute "COMMIT" None c) as [[x|[]] c'] eqn:Ex.
    + destruct x as [q []]; [right; left; by eexists|]. left. split; [done|]. by exists q.
    + right. right. by eexists.
    + right. left. by eexists.
    + right. left. by eexists.
Qed.

End CommandFacts.

(** ** Every life of an owner *)

Section LifeFacts.
Context {C Q : Type} `{TransactionIoLaws C Q}.
Variable secs : nat.
Implicit Types (c : C) (o : owner C) (st : TransactionStatus).

(** The recorded state is the server's. *)
Definition in_sync (st : TransactionStatus) (c : C) : Prop := st.(ts_state) = state_of_flag (in_tx c).

Lemma state_of_flag_known b : state_of_flag b <> StateUnknown.
Proof. by destruct b. Qed.

Lemma handled_in_sync op ex pr st c :
  in_sync st c -> h_terminal (handle_command secs op ex pr st c) = false ->
  in_sync (h_status (handle_command secs op ex pr st c)) (h_conn (handle_command secs op ex pr st c)).
Proof.
  intros Hs. unfold handle_command, handle_success, handle_server_error, give_up_unknown.
  destruct (invalid_operation op st) as [[]|]; [done|].
  destruct (statement_of op) as [[sql rows] oc]. destruct ex; try done.
  destruct (io_execute sql rows c) as [[x|[m|code m|m]] c'] eqn:Ex; try done.
  - unfold in_sync. case_match; [done|]. simpl. by rewrite (execute_flag _ _ _ _ _ Ex).
  - simpl. by rewrite (execute_policy _ _ _ _ _ Ex).
  - case_match; [done|]. destruct pr; try done.
    destruct (io_ping_in_transaction c') as [[b|] c''] eqn:Ep; [|done].
    unfold in_sync. simpl. by rewrite (ping_flag _ _ _ Ep).
Qed.

(** What holds between any two steps. *)
Definition life_inv (x : owner C * nat) : Prop :=
  let o := x.1 in
  match o.(o_phase) with
  | Looping => in_sync o.(o_status) o.(o_conn)
  | Leaving => o.(o_status) = unknown_status \/ in_sync o.(o_status) o.(o_conn)
  | Disconnecting => o.(o_status) = unknown_status \/ (o.(o_status).(ts_state) = Idle /\ in_tx o.(o_conn) = false)
  | Gone => o.(o_status).(ts_state) <> Active
  end /\
  (o.(o_closed) = true <-> o.(o_phase) = Gone) /\ o.(gate_open) = negb o.(o_closed) /\
  o.(closed_token) = o.(o_closed) /\ o.(gate_permits) + x.2 = 1.

Lemma serve_life op ex pr o n :
  o.(o_phase) = Looping -> life_inv (o, n) -> life_inv ((serve secs op ex pr o).2, n).
Proof.
  unfold life_inv, serve; simpl. intros -> (Hs & Hc & Hrest). split; [|split; [|done]].
  - destruct (h_terminal _) eqn:Et; [left; by apply handled_terminal|by apply handled_in_sync].
  - rewrite Hc. by destruct (h_terminal _).
Qed.

Lemma rollback_life timed_out o n :
  o.(o_phase) = Leaving -> life_inv (o, n) -> life_inv (cleanup_rollback timed_out o, n).
Proof.
  unfold life_inv; simpl. intros Hph. rewrite Hph. intros (Hs & Hc & Hrest).
  assert (Hd : o.(o_closed) = true <-> Disconnecting = Gone) by (by rewrite Hc).
  unfold cleanup_rollback. case_bool_decide as Ha.
  - destruct timed_out as [c|]; simpl; [tauto|].
    destruct (io_execute "ROLLBACK" None o.(o_conn)) as [[x|e] c] eqn:Ex; simpl; [|tauto].
    destruct (ios_in_transaction x) eqn:Ei; simpl; [tauto|].
    split; [|tauto]. right. by rewrite (execute_flag _ _ _ _ _ Ex).
  - simpl. split; [|tauto]. destruct Hs as [->|Hs]; [by left|]. right. unfold in_sync in Hs.
    rewrite Hs in *. by destruct (in_tx _).
Qed.

Lemma life_step x y : step secs x y -> life_inv x -> life_inv y.
Proof.
  destruct 1 as [o n|br o n o' Hb Ha|o n|op ex pr o n Hp Hn|o n Hp|tmo o n Hp|tmo o n Hp].
  - done.
  - destruct br; simplify_eq/=. apply andb_true_iff in Hb as [Hop Hpm%Nat.ltb_lt].
    destruct (o_closed o || o_cancelled o); simplify_eq/=. case_bool_decide; simplify_eq/=.
    unfold life_inv; simpl. intros (? & ? & ? & ? & ?). split_and!; try done; lia.
  - unfold life_inv; simpl. intros (? & ? & ? & ? & ?). split_and!; try done; lia.
  - by apply serve_life.
  - unfold life_inv; simpl. rewrite Hp. intros (Hs & Hc & ?). split_and!; try tauto. by rewrite Hc.
  - by apply rollback_life.
  - unfold life_inv; simpl. rewrite Hp. intros (Hs & Hc & ?). split_and!; try tauto.
    destruct Hs as [->|[-> _]]; done.
Qed.

Lemma life_reachable c o n : in_tx c = false -> rtc (step secs) (spawn c, 0) (o, n) -> life_inv (o, n).
Proof.
  intros Hc Hr. enough (forall x y, rtc (step secs) x y -> life_inv x -> life_inv y) as He.
  { eapply He; [exact Hr|]. unfold life_inv, in_sync; simpl. by rewrite Hc. }
  induction 1; eauto using life_step.
Qed.

(** C36. An owner's status tells the truth for its whole life, under every
    schedule of commands, cancellations, dropped requests and timeouts: while
    the worker serves commands the recorded state is the server's and never
    [unknown]; once the worker is past its rollback the status is [unknown] or
    the server has no open transaction; and a closed owner is never reported
    active, neither by its status nor by the reply of [close]. *)
Theorem owner_status_is_truthful c o n :
  in_tx c = false -> rtc (step secs) (spawn c, 0) (o, n) ->
  (o.(o_phase) = Looping -> in_sync o.(o_status) o.(o_conn) /\ o.(o_status).(ts_state) <> StateUnknown) /\
  (o.(o_phase) = Disconnecting ->
     o.(o_status) = unknown_status \/ (o.(o_status).(ts_state) = Idle /\ in_tx o.(o_conn) = false)) /\
  (o.(o_closed) = true -> o.(o_phase) = Gone /\ o.(o_status).(ts_state) <> Active) /\
  (forall timed_out st, close_result timed_out o = Some (Ok st) -> st.(ts_state) <> Active).
Proof.
  intros Hc Hr. destruct (life_reachable _ _ _ Hc Hr) as (Hph & Hcl & _). simpl in *.
  assert (Hgone : o.(o_closed) = true -> o.(o_phase) = Gone /\ o.(o_status).(ts_state) <> Active).
  { intros Ho. apply Hcl in Ho. by rewrite Ho in *. }
  split_and!.
  - intros Hp. rewrite Hp in Hph. split; [done|]. unfold in_sync in Hph. rewrite Hph. apply state_of_flag_known.
  - intros Hp. by rewrite Hp in Hph.
  - done.
  - intros tmo st. unfold close_result. destruct (o_closed o) eqn:Eo; [|by destruct tmo].
    intros; simplify_eq. by apply Hgone.
Qed.

(** Once unknown, the status stays and no more SQL is sent. *)
Lemma unknown_step o n o' n' :
  step secs (o, n) (o', n') -> life_inv (o, n) -> o.(o_status) = unknown_status ->
  o'.(o_status) = unknown_status /\
  (o'.(o_conn) = o.(o_conn) \/ (o.(o_phase) = Disconnecting /\ o'.(o_phase) = Gone)).
Proof.
  intros Hs (Hph & _) Hu. simpl in Hph.
  inversion Hs as [|br ??? Hb Ha| |op ex pr ?? Hp| |tmo ?? Hp|tmo ?? Hp]; subst; simpl; try by auto.
  - unfold acquire in Ha. split_matches; by auto.
  - rewrite Hp, Hu in Hph. unfold in_sync in Hph. simpl in Hph. by destruct (in_tx _).
  - unfold cleanup_rollback. rewrite Hu. simpl. auto.
Qed.

(** Leases are exclusive and an outcome that became unknown is final.  In
    every reachable state at most one lease exists; [acquire] grants one only
    when none is out, the owner is neither closed nor cancelled and its status
    is known; and after the status became unknown no step changes it, grants a
    lease or runs SQL on the connection before the disconnect. *)
Theorem leases_exclusive_and_unknown_final c o n :
  in_tx c = false -> rtc (step secs) (spawn c, 0) (o, n) ->
  n <= 1 /\
  (forall branch o', branch_enabled branch o = true -> acquire branch o = (Ok tt, o') ->
     n = 0 /\ o.(o_phase) <> Gone /\ o.(o_cancelled) = false /\ o.(o_status).(ts_state) <> StateUnknown) /\
  (o.(o_status) = unknown_status -> forall branch, (acquire branch o).1 <> Ok tt) /\
  (o.(o_status) = unknown_status -> forall o' n', step secs (o, n) (o', n') ->
     o'.(o_status) = unknown_status /\
     (o'.(o_conn) = o.(o_conn) \/ (o.(o_phase) = Disconnecting /\ o'.(o_phase) = Gone))).
Proof.
  intros Hc Hr. pose proof (life_reachable _ _ _ Hc Hr) as Hinv.
  destruct Hinv as (Hph & Hcl & Hg & Ht & Hn); simpl in *. split_and!.
  - lia.
  - intros [] o' Hb Ha; simplify_eq/=. destruct (o_closed o) eqn:Eo, (o_cancelled o) eqn:Ec; simplify_eq/=.
    case_bool_decide; simplify_eq/=. apply andb_true_iff in Hb as [Hop Hpm%Nat.ltb_lt]. split_and!; try done; [lia|].
    intros Hp%Hcl. done.
  - intros Hu []; simpl; try done. rewrite Hu. by destruct (_ || _).
  - intros Hu o' n' Hs. by eapply unknown_step.
Qed.

End LifeFacts.

(** ** Batches *)

Section BatchFacts.
Context {C Q : Type} `{TransactionIo C Q}.
Variable secs : nat.
Implicit Types (o : owner C) (ds : nat -> delivery C).

(** Every statement is run, one after the other. *)
Fixpoint run_all (statements : list string) (max_rows : option nat) ds o
    : list (result (TransactionResult Q) TransactionFailure) * owner C :=
  match statements with
  | [] => ([], o)
  | s :: rest =>
    let '(r, o) := run_ref secs (Query s max_rows) (ds 0) o in
    let '(rs, o) := run_all rest max_rows (fun i => ds (S i)) o in (r :: rs, o)
  end.

(** The results up to and including the first that ends the batch. *)
Fixpoint up_to_stop (continue_on_error : bool) (rs : list (result (TransactionResult Q) TransactionFailure)) :=
  match rs with
  | [] => []
  | r :: rest => if batch_stops continue_on_error r then [r] else r :: up_to_stop continue_on_error rest
  end.

(** [batch] runs the statements in order and stops after the first failure
    it may not pass: its results are those of running all statements, cut after
    the first error (or, with [continue_on_error], after the first error that
    leaves the outcome unknown), and the statements behind the cut are never
    sent: the owner ends as if only the statements before it had been given. *)
Theorem batch_is_run_all_until_stop statements max_rows continue_on_error ds o :
  let rs := (batch secs statements max_rows continue_on_error ds o).1 in
  rs = up_to_stop continue_on_error (run_all statements max_rows ds o).1 /\
  (batch secs statements max_rows continue_on_error ds o).2 =
    (run_all (take (length rs) statements) max_rows ds o).2 /\
  length rs <= length statements.
Proof.
  revert ds o. induction statements as [|s rest IH]; intros ds o; simpl; [done|].
  destruct (run_ref secs (Query s max_rows) (ds 0) o) as [r o1] eqn:Er.
  specialize (IH (fun i => ds (S i)) o1). simpl in IH.
  destruct (run_all rest max_rows (fun i => ds (S i)) o1) as [all o2] eqn:Ea.
  destruct (batch_stops continue_on_error r) eqn:Es; simpl; rewrite Es.
  - rewrite Er. simpl. split_and!; [done..|lia].
  - destruct (batch secs rest max_rows continue_on_error (fun i => ds (S i)) o1) as [rs o3] eqn:Eb.
    simpl in *. rewrite Er. destruct IH as (-> & -> & ?).
    destruct (run_all (take _ rest) _ _ _) as [? ?]. simpl. split_and!; [done..|lia].
Qed.

End BatchFacts.

(** ** The registry

    Owners are numbered; a weak pointer is the number, and [strong] tells which
    owners still have a handle.  [cancelled] collects the owners whose token
    was cancelled. *)

Module TransactionOwnerRegistry.

Record t := { owners : gmap string (list nat); cancelled : gset nat }.

Definition register (strong : nat -> bool) (connection_id : string) (owner : nat) (r : t) : t :=
  let entries := default [] (r.(owners) !! connection_id) in
  {| owners := <[connection_id := List.filter strong entries ++ [owner]]> r.(owners);
     cancelled := r.(cancelled) |}.

Definition invalidate_connection (strong : nat -> bool) (connection_id : string) (r : t) : t :=
  {| owners := delete connection_id r.(owners);
     cancelled := list_to_set (List.filter strong (default [] (r.(owners) !! connection_id))) ∪ r.(cancelled) |}.

Definition invalidate_all (strong : nat -> bool) (r : t) : t :=
  {| owners := ∅;
     cancelled := list_to_set (List.filter strong (concat (snd <$> map_to_list r.(owners)))) ∪ r.(cancelled) |}.

(** What may happen to the registry between two looks at it; handles that are
    gone do not come back. *)
Inductive op :=
| Register (connection_id : string) (owner : nat)
| InvalidateConnection (connection_id : string)
| InvalidateAll.

Definition apply_op (strong : nat -> bool) (x : op) (r : t) : t :=
  match x with
  | Register connection_id owner => register strong connection_id owner r
  | InvalidateConnection connection_id => invalidate_connection strong connection_id r
  | InvalidateAll => invalidate_all strong r
  end.

Fixpoint run (ops : list (op * (nat -> bool))) (r : t) : t :=
  match ops with
  | [] => r
  | (x, strong) :: rest => run rest (apply_op strong x r)
  end.

(** The owner is reachable under its connection, or already cancelled. *)
Definition tracked (connection_id : string) (o : nat) (r : t) : Prop :=
  o ∈ default [] (r.(owners) !! connection_id) \/ o ∈ r.(cancelled).

Lemma tracked_step strong x connection_id o r :
  strong o = true -> tracked connection_id o r -> tracked connection_id o (apply_op strong x r).
Proof.
  intros Hs [Ho|Hc]; [|right; destruct x; simpl; set_solver].
  destruct x as [c p|c|]; unfold tracked; simpl.
  - left. destruct (decide (c = connection_id)) as [->|]; [|by rewrite lookup_insert_ne].
    rewrite lookup_insert_eq. simpl. apply elem_of_app. left. by apply elem_of_bool_filter.
  - destruct (decide (c = connection_id)) as [->|]; [|rewrite lookup_delete_ne by done; by left].
    right. apply elem_of_union_l, elem_of_list_to_set, elem_of_bool_filter. done.
  - right. apply elem_of_union_l, elem_of_list_to_set, elem_of_bool_filter. split; [|done].
    destruct (r.(owners) !! connection_id) as [l|] eqn:El; [|by apply not_elem_of_nil in Ho].
    apply list_elem_of_In, in_concat. exists l. split; [|by apply list_elem_of_In].
    apply list_elem_of_In, list_elem_of_fmap. exists (connection_id, l). split; [done|].
    by apply elem_of_map_to_list.
Qed.

(** No live owner escapes an invalidation: an owner registered for a
    connection is cancelled by [invalidate_connection] of that connection (and
    by [invalidate_all]), whatever was registered or invalidated in between,
    as long as a handle to it exists. *)
Theorem registered_owner_is_invalidated connection_id o r strong0 ops strong :
  Forall (fun x => x.2 o = true) ops -> strong o = true ->
  let r' := run ops (register strong0 connection_id o r) in
  o ∈ (invalidate_connection strong connection_id r').(cancelled) /\
  o ∈ (invalidate_all strong r').(cancelled).
Proof.
  intros Hall Hs r'. assert (Ht : tracked connection_id o r').
  { unfold r'. assert (H0 : tracked connection_id o (register strong0 connection_id o r)).
    { left. simpl. rewrite lookup_insert_eq. simpl. apply elem_of_app. right. by left. }
    revert H0. generalize (register strong0 connection_id o r). clear r r'.
    induction Hall as [|[x s] ops Hx _ IH]; intros r Hr; simpl; [done|].
    apply IH. by apply tracked_step. }
  split.
  - destruct (tracked_step strong (InvalidateConnection connection_id) _ _ _ Hs Ht) as [Ho|]; [|done].
    simpl in Ho. rewrite lookup_delete_eq in Ho. by apply not_elem_of_nil in Ho.
  - destruct (tracked_step strong InvalidateAll _ _ _ Hs Ht) as [Ho|]; [|done].
    simpl in Ho. rewrite lookup_empty in Ho. by apply not_elem_of_nil in Ho.
Qed.

End TransactionOwnerRegistry.

(** ** Evaluation against a small server *)

Module OwnerDemo.

(** A server that is inside a transaction or not and refuses "BAD". *)
Definition server_execute (sql : string) (_ : option nat) (c : bool)
    : result (TransactionIoSuccess unit) TransactionIoError * bool :=
  if String.eqb sql "BAD" then (Err (Server 1064 "syntax error"), c)
  else
    let c' := if String.eqb sql "START TRANSACTION" then true
              else if String.eqb sql "COMMIT" || String.eqb sql "ROLLBACK" then false else c in
    (Ok {| ios_result := tt; ios_in_transaction := c' |}, c').

#[local] Instance server : TransactionIo bool unit := {
  io_execute := server_execute;
  io_ping_in_transaction c := (Ok c, c);
  io_disconnect _ := false;
}.

#[local] Instance server_laws : TransactionIoLaws bool unit.
Proof.
  refine {| in_tx := id |}.
  - intros sql rows c x c'. simpl. unfold server_execute. case_match; intros; by simplify_eq/=.
  - intros sql rows c m c'. simpl. unfold server_execute. case_match; intros; by simplify_eq/=.
  - intros c b c'. simpl. intros; by simplify_eq/=.
Defined.

(** A lease is taken and a transaction is begun; then the owner is invalidated
    and cleans up. *)
Definition began : owner bool := (serve 300 Begin RaceDone RaceDone (acquire PermitGranted (spawn false)).2).2.
Definition ended : owner bool := cleanup_disconnect None (cleanup_rollback None (leave (invalidate began))).

Lemma reaches_ended : rtc (step 300) (spawn false, 0) (ended, 1).
Proof.
  eapply rtc_l; [eapply (step_acquire 300 PermitGranted); reflexivity|].
  eapply rtc_l; [eapply (step_command 300 Begin RaceDone RaceDone); [reflexivity|lia]|].
  eapply rtc_l; [apply step_invalidate|].
  eapply rtc_l; [apply step_leave; reflexivity|].
  eapply rtc_l; [apply (step_rollback 300 None); reflexivity|].
  apply rtc_once. apply (step_disconnect 300 None). reflexivity.
Qed.

Lemma owner_status_is_truthful_witness :
  ended.(o_closed) = true /\ ended.(o_status) = {| ts_state := Idle; ts_outcome := Some RolledBack |} /\
  forall timed_out st, close_result timed_out ended = Some (Ok st) -> st.(ts_state) <> Active.
Proof.
  split; [reflexivity|]. split; [reflexivity|].
  apply (owner_status_is_truthful 300 false ended 1); [reflexivity|apply reaches_ended].
Defined.

Definition timed_out_commit : owner bool := (serve 300 Commit (RaceElapsed true) RaceDone began).2.

Lemma reaches_timed_out : rtc (step 300) (spawn false, 0) (timed_out_commit, 1).
Proof.
  eapply rtc_l; [eapply (step_acquire 300 PermitGranted); reflexivity|].
  eapply rtc_l; [eapply (step_command 300 Begin RaceDone RaceDone); [reflexivity|lia]|].
  apply rtc_once. eapply (step_command 300 Commit); [reflexivity|lia].
Qed.

Lemma leases_exclusive_and_unknown_final_witness :
  timed_out_commit.(o_status) = unknown_status /\
  forall branch, (acquire branch timed_out_commit).1 <> Ok tt.
Proof.
  split; [reflexivity|].
  apply (leases_exclusive_and_unknown_final 300 false timed_out_commit 1);
    [reflexivity|apply reaches_timed_out|reflexivity].
Defined.

Lemma registered_owner_is_invalidated_witness :
  let r := TransactionOwnerRegistry.run
    [(TransactionOwnerRegistry.Register "c1" 8, fun _ => true); (TransactionOwnerRegistry.InvalidateConnection "c2", fun _ => true)]
    (TransactionOwnerRegistry.register (fun _ => true) "c1" 7
       {| TransactionOwnerRegistry.owners := ∅; TransactionOwnerRegistry.cancelled := ∅ |}) in
  7 ∈ (TransactionOwnerRegistry.invalidate_connection (fun _ => true) "c1" r).(TransactionOwnerRegistry.cancelled) /\
  7 ∈ (TransactionOwnerRegistry.invalidate_all (fun _ => true) r).(TransactionOwnerRegistry.cancelled).
Proof.
  apply (TransactionOwnerRegistry.registered_owner_is_invalidated "c1" 7).
  - repeat constructor.
  - reflexivity.
Defined.

Example batch_run :
  map is_ok (batch 300 ["A"; "BAD"; "B"] None false
    (fun _ => {| d_served := Some (RaceDone, RaceDone); d_rollback := None; d_disconnect := None |}) began).1
  = [true; false].
Proof. reflexivity. Qed.

End OwnerDemo.
