(* ===== verification/SessionStore.v ===== *)
(** * MCP sessions

    Models [crates/dbx-mcp/src/session.rs]: the store of database sessions an
    MCP client has opened.  A session is being opened, active or being closed;
    the three maps of [McpSessionState] are kept as they are and refined to one
    map from session ids to lifecycle phases.  Instants are nanoseconds on the
    monotonic clock; the operations take the instant they run at, the fresh
    UUID they draw and, for [DBX_SESSION_IDLE_TTL_SECS], whether the platform
    can represent the deadline. *)

From S2P Require Import Prelude.

Definition nanos (secs : Z) : Z := (secs * 1000000000)%Z.
Definition SESSION_IDLE_TTL : Z := nanos (30 * 60).
Definition MAX_SESSIONS : nat := 32.

(** [session_idle_ttl_from_value]; [representable] is
    [Instant::now().checked_add(ttl).is_some()]. *)
Definition session_idle_ttl_from_value (representable : Z -> bool) (value : option text) : Z :=
  match value with
  | None => SESSION_IDLE_TTL
  | Some value =>
    match parse_unsigned u64_max (trim value) with
    | None => SESSION_IDLE_TTL
    | Some seconds =>
      if (0 <? seconds)%Z && representable (nanos seconds) then nanos seconds else SESSION_IDLE_TTL
    end
  end.

(** [transaction_owner] is the number of the owner. *)
Record McpSession := {
  id : string;
  connection_id : string;
  database : string;
  client_session_id : string;
  transaction_owner : option nat;
  last_used : Z;
}.

#[global] Instance McpSession_eq_dec : EqDecision McpSession.
Proof. solve_decision. Defined.

Record McpSessionState := {
  opening : gmap string McpSession;
  active : gmap string McpSession;
  closing : gmap string McpSession;
}.

Definition empty_state : McpSessionState := {| opening := ∅; active := ∅; closing := ∅ |}.

Definition session_count (state : McpSessionState) : nat :=
  size state.(opening) + size state.(active) + size state.(closing).

Definition new_session (uuid connection_id database : string) (now : Z) : McpSession :=
  let id := "mcp-session-" +:+ uuid in
  {| id := id; connection_id := connection_id; database := database; client_session_id := "mcp:" +:+ id;
     transaction_owner := None; last_used := now |}.

(** [now.duration_since(last_used)] saturates at zero. *)
Definition is_expired (idle_ttl now : Z) (s : McpSession) : bool :=
  (idle_ttl <=? Z.max 0 (now - s.(last_used)))%Z.

(** The loop of [sweep_expired] over the ids found expired. *)
Fixpoint sweep_ids (expired_ids : list string) (state : McpSessionState) : McpSessionState * list McpSession :=
  match expired_ids with
  | [] => (state, [])
  | i :: rest =>
    match state.(active) !! i with
    | Some session =>
      let '(state, expired) := sweep_ids rest
        {| opening := state.(opening); active := delete i state.(active);
           closing := <[i := session]> state.(closing) |} in
      (state, session :: expired)
    | None => sweep_ids rest state
    end
  end.

Definition expired_ids (idle_ttl now : Z) (state : McpSessionState) : list string :=
  List.map fst (List.filter (fun kv => is_expired idle_ttl now kv.2) (map_to_list state.(active))).

Definition sweep_expired (idle_ttl now : Z) (state : McpSessionState) : McpSessionState * list McpSession :=
  sweep_ids (expired_ids idle_ttl now state) state.

Definition too_many : string :=
  "Too many open MCP sessions (max 32). Close unused sessions with dbx_close_session.".

(** Each operation returns its value with the sessions its sweep expired. *)
Definition open (idle_ttl now : Z) (uuid connection_id database : string) (state : McpSessionState)
    : result McpSession string * list McpSession * McpSessionState :=
  let '(state, expired) := sweep_expired idle_ttl now state in
  if (MAX_SESSIONS <=? session_count state)%nat then (Err too_many, expired, state)
  else
    let session := new_session uuid connection_id database now in
    (Ok session, expired,
     {| opening := state.(opening); active := <[session.(id) := session]> state.(active); closing := state.(closing) |}).

Definition reserve_opening (idle_ttl now : Z) (uuid connection_id database : string) (state : McpSessionState)
    : result McpSession string * list McpSession * McpSessionState :=
  let '(state, expired) := sweep_expired idle_ttl now state in
  if (MAX_SESSIONS <=? session_count state)%nat then (Err too_many, expired, state)
  else
    let session := new_session uuid connection_id database now in
    (Ok session, expired,
     {| opening := <[session.(id) := session]> state.(opening); active := state.(active); closing := state.(closing) |}).

Definition with_owner (s : McpSession) (owner : nat) : McpSession :=
  {| id := s.(id); connection_id := s.(connection_id); database := s.(database);
     client_session_id := s.(client_session_id); transaction_owner := Some owner; last_used := s.(last_used) |}.

Definition with_last_used (s : McpSession) (now : Z) : McpSession :=
  {| id := s.(id); connection_id := s.(connection_id); database := s.(database);
     client_session_id := s.(client_session_id); transaction_owner := s.(transaction_owner); last_used := now |}.

Definition promote_opening (session_id : string) (owner : nat) (state : McpSessionState)
    : result McpSession string * McpSessionState :=
  match state.(opening) !! session_id with
  | None => (Err "MCP session opening was cancelled", state)
  | Some session =>
    let session := with_owner session owner in
    (Ok session,
     {| opening := delete session_id state.(opening); active := <[session.(id) := session]> state.(active);
        closing := state.(closing) |})
  end.

Definition cancel_opening (session_id : string) (state : McpSessionState) : option McpSession * McpSessionState :=
  (state.(opening) !! session_id,
   {| opening := delete session_id state.(opening); active := state.(active); closing := state.(closing) |}).

Definition attach_transaction_owner (session_id : string) (owner : nat) (state : McpSessionState)
    : result unit string * McpSessionState :=
  match state.(active) !! session_id with
  | None => (Err "MCP session is no longer active", state)
  | Some session =>
    (Ok tt, {| opening := state.(opening); active := <[session_id := with_owner session owner]> state.(active);
               closing := state.(closing) |})
  end.

Definition resolve (idle_ttl now : Z) (session_id : string) (state : McpSessionState)
    : option McpSession * list McpSession * McpSessionState :=
  let '(state, expired) := sweep_expired idle_ttl now state in
  match state.(active) !! session_id with
  | None => (None, expired, state)
  | Some session =>
    let session := with_last_used session now in
    (Some session, expired,
     {| opening := state.(opening); active := <[session_id := session]> state.(active); closing := state.(closing) |})
  end.

Definition begin_close (idle_ttl now : Z) (session_id : string) (state : McpSessionState)
    : option McpSession * list McpSession * McpSessionState :=
  let '(state, expired) := sweep_expired idle_ttl now state in
  match state.(active) !! session_id with
  | None => (None, expired, state)
  | Some session =>
    (Some session, expired,
     {| opening := state.(opening); active := delete session_id state.(active);
        closing := match state.(closing) !! session.(id) with
                   | Some _ => state.(closing)
                   | None => <[session.(id) := session]> state.(closing)
                   end |})
  end.

Definition finish_close (session_id : string) (state : McpSessionState) : McpSessionState :=
  {| opening := state.(opening); active := state.(active); closing := delete session_id state.(closing) |}.

Definition restore_after_failed_close (now : Z) (session : McpSession) (state : McpSessionState) : McpSessionState :=
  match state.(closing) !! session.(id) with
  | None => state
  | Some _ =>
    {| opening := state.(opening); active := <[session.(id) := with_last_used session now]> state.(active);
       closing := delete session.(id) state.(closing) |}
  end.

Definition take_all_active (state : McpSessionState) : list McpSession * McpSessionState :=
  ((snd <$> map_to_list state.(closing)) ++ (snd <$> map_to_list state.(active)),
   {| opening := state.(opening); active := ∅; closing := state.(closing) |}).

(** Any call on the store. *)
Inductive call : Type :=
| Open (now : Z) (uuid connection_id database : string)
| ReserveOpening (now : Z) (uuid connection_id database : string)
| PromoteOpening (session_id : string) (owner : nat)
| CancelOpening (session_id : string)
| AttachTransactionOwner (session_id : string) (owner : nat)
| Resolve (now : Z) (session_id : string)
| BeginClose (now : Z) (session_id : string)
| FinishClose (session_id : string)
| RestoreAfterFailedClose (now : Z) (session : McpSession)
| TakeAllActive.

Definition run (idle_ttl : Z) (c : call) (state : McpSessionState) : McpSessionState :=
  match c with
  | Open now uuid conn db => (open idle_ttl now uuid conn db state).2
  | ReserveOpening now uuid conn db => (reserve_opening idle_ttl now uuid conn db state).2
  | PromoteOpening i owner => (promote_opening i owner state).2
  | CancelOpening i => (cancel_opening i state).2
  | AttachTransactionOwner i owner => (attach_transaction_owner i owner state).2
  | Resolve now i => (resolve idle_ttl now i state).2
  | BeginClose now i => (begin_close idle_ttl now i state).2
  | FinishClose i => finish_close i state
  | RestoreAfterFailedClose now session => restore_after_failed_close now session state
  | TakeAllActive => (take_all_active state).2
  end.

(** A UUID that was just drawn names no session of the store. *)
Definition fresh (c : call) (state : McpSessionState) : Prop :=
  match c with
  | Open _ uuid _ _ | ReserveOpening _ uuid _ _ =>
    let i := "mcp-session-" +:+ uuid in
    state.(opening) !! i = None /\ state.(active) !! i = None /\ state.(closing) !! i = None
  | _ => True
  end.

(** ** The abstract store: one map from ids to lifecycle phases *)

Inductive phase := POpening | PActive | PClosing.

#[global] Instance phase_eq_dec : EqDecision phase.
Proof. solve_decision. Defined.

Module Spec.

Abbreviation t := (gmap string (phase * McpSession)).

Definition sweep (idle_ttl now : Z) (a : t) : t :=
  (fun x => if bool_decide (x.1 = PActive) && is_expired idle_ttl now x.2 then (PClosing, x.2) else x) <$> a.

(** Take the session of [i] to another phase if it is in phase [p]. *)
Definition move (i : string) (p : phase) (f : McpSession -> option (phase * McpSession)) (a : t) : t :=
  match a !! i with
  | Some (q, s) => if bool_decide (q = p) then partial_alter (fun _ => f s) i a else a
  | None => a
  end.

(** Admit a new session unless the store is full. *)
Definition enter (p : phase) (now : Z) (uuid conn db : string) (a : t) : t :=
  if (MAX_SESSIONS <=? size a)%nat then a
  else <[("mcp-session-" +:+ uuid)%string := (p, new_session uuid conn db now)]> a.

Definition run (idle_ttl : Z) (c : call) (a : t) : t :=
  match c with
  | Open now uuid conn db => enter PActive now uuid conn db (sweep idle_ttl now a)
  | ReserveOpening now uuid conn db => enter POpening now uuid conn db (sweep idle_ttl now a)
  | PromoteOpening i owner => move i POpening (fun s => Some (PActive, with_owner s owner)) a
  | CancelOpening i => move i POpening (fun _ => None) a
  | AttachTransactionOwner i owner => move i PActive (fun s => Some (PActive, with_owner s owner)) a
  | Resolve now i => move i PActive (fun s => Some (PActive, with_last_used s now)) (sweep idle_ttl now a)
  | BeginClose now i => move i PActive (fun s => Some (PClosing, s)) (sweep idle_ttl now a)
  | FinishClose i => move i PClosing (fun _ => None) a
  | RestoreAfterFailedClose now s => move s.(id) PClosing (fun _ => Some (PActive, with_last_used s now)) a
  | TakeAllActive => omap (fun x => if bool_decide (x.1 = PActive) then None else Some x) a
  end.

End Spec.

Definition abs (state : McpSessionState) : Spec.t :=
  ((POpening,.) <$> state.(opening)) ∪ ((PActive,.) <$> state.(active)) ∪ ((PClosing,.) <$> state.(closing)).

(** A session is in one map, under its own id. *)
Record wf (state : McpSessionState) : Prop := {
  wf_opening i s : state.(opening) !! i = Some s ->
    s.(id) = i /\ state.(active) !! i = None /\ state.(closing) !! i = None;
  wf_active i s : state.(active) !! i = Some s ->
    s.(id) = i /\ state.(opening) !! i = None /\ state.(closing) !! i = None;
  wf_closing i s : state.(closing) !! i = Some s ->
    s.(id) = i /\ state.(opening) !! i = None /\ state.(active) !! i = None;
}.

Lemma abs_lookup state i :
  abs state !! i =
  match state.(opening) !! i, state.(active) !! i, state.(closing) !! i with
  | Some s, _, _ => Some (POpening, s)
  | None, Some s, _ => Some (PActive, s)
  | None, None, Some s => Some (PClosing, s)
  | None, None, None => None
  end.
Proof.
  unfold abs. rewrite !lookup_union, !lookup_fmap.
  by destruct (opening state !! i), (active state !! i), (closing state !! i).
Qed.

Lemma wf_empty : wf empty_state.
Proof. split; intros i s Hs; simpl in Hs; by rewrite lookup_empty in Hs. Qed.

Lemma abs_size state : wf state -> size (abs state) = session_count state.
Proof.
  intros Hwf. unfold abs, session_count. rewrite !map_size_disj_union, !map_size_fmap; [done|..].
  - apply map_disjoint_spec. intros i x y. rewrite !lookup_fmap. intros Ho Ha.
    destruct (opening state !! i) as [s|] eqn:E; [|done]. apply (wf_opening _ Hwf) in E as (_ & E & _).
    by rewrite E in Ha.
  - apply map_disjoint_spec. intros i x y. rewrite lookup_union, !lookup_fmap. intros Ho Hc.
    destruct (closing state !! i) as [s|] eqn:E; [|done]. apply (wf_closing _ Hwf) in E as (_ & E1 & E2).
    by rewrite E1, E2 in Ho.
Qed.

(** ** The sweep *)

Lemma sweep_ids_spec ids state state' expired :
  NoDup ids -> sweep_ids ids state = (state', expired) ->
  state'.(opening) = state.(opening) /\
  (forall i, state'.(active) !! i = if bool_decide (i ∈ ids) then None else state.(active) !! i) /\
  (forall i, state'.(closing) !! i =
     if bool_decide (i ∈ ids) then match state.(active) !! i with Some s => Some s | None => state.(closing) !! i end
     else state.(closing) !! i) /\
  expired = omap (fun i => state.(active) !! i) ids.
Proof.
  revert state state' expired. induction ids as [|i ids IH]; intros state state' expired Hnd Hs.
  { simplify_eq/=. split_and!; try done; intros i; by rewrite bool_decide_false by set_solver. }
  apply NoDup_cons in Hnd as [Hi Hnd]. simpl in Hs. destruct (active state !! i) as [s|] eqn:Ea.
  - destruct (sweep_ids ids _) as [st ex] eqn:Es. simplify_eq/=.
    destruct (IH _ _ _ Hnd Es) as (-> & Hact & Hclo & ->). simpl in *. split_and!.
    + done.
    + intros j. rewrite Hact. destruct (decide (j = i)) as [->|].
      * rewrite bool_decide_false by done. rewrite bool_decide_true by set_solver. apply lookup_delete_eq.
      * rewrite lookup_delete_ne by done. by rewrite (bool_decide_ext (j ∈ i :: ids) (j ∈ ids)) by set_solver.
    + intros j. rewrite Hclo. destruct (decide (j = i)) as [->|].
      * rewrite bool_decide_false by done. rewrite bool_decide_true by set_solver. by rewrite lookup_insert_eq, Ea.
      * rewrite lookup_delete_ne, lookup_insert_ne by done.
        by rewrite (bool_decide_ext (j ∈ i :: ids) (j ∈ ids)) by set_solver.
    + csimpl. rewrite Ea. f_equal. clear -Hi. induction ids as [|j ids IH]; csimpl; [done|].
      rewrite lookup_delete_ne, IH by set_solver. done.
  - destruct (IH _ _ _ Hnd Hs) as (-> & Hact & Hclo & ->). split_and!; [done|..].
    + intros j. rewrite Hact. destruct (decide (j = i)) as [->|].
      * rewrite bool_decide_false by done. by rewrite bool_decide_true by set_solver.
      * by rewrite (bool_decide_ext (j ∈ i :: ids) (j ∈ ids)) by set_solver.
    + intros j. rewrite Hclo. destruct (decide (j = i)) as [->|].
      * rewrite bool_decide_false by done. rewrite bool_decide_true by set_solver. by rewrite Ea.
      * by rewrite (bool_decide_ext (j ∈ i :: ids) (j ∈ ids)) by set_solver.
    + csimpl. by rewrite Ea.
Qed.

Lemma elem_of_expired_ids idle_ttl now state i :
  i ∈ expired_ids idle_ttl now state <->
  exists s, state.(active) !! i = Some s /\ is_expired idle_ttl now s = true.
Proof.
  unfold expired_ids. rewrite list_elem_of_fmap. split.
  - intros ([j s] & -> & [Hin He]%elem_of_bool_filter). exists s. split; [by apply elem_of_map_to_list|done].
  - intros (s & Hs & He). exists (i, s). split; [done|]. apply elem_of_bool_filter.
    split; [by apply elem_of_map_to_list|done].
Qed.

Lemma expired_ids_NoDup idle_ttl now state : NoDup (expired_ids idle_ttl now state).
Proof. apply NoDup_map_filter. apply (NoDup_fst_map_to_list state.(active)). Qed.

(** The sweep, key by key. *)
Lemma sweep_expired_lookup idle_ttl now state state' expired :
  sweep_expired idle_ttl now state = (state', expired) ->
  state'.(opening) = state.(opening) /\
  (forall i, state'.(active) !! i =
     match state.(active) !! i with Some s => if is_expired idle_ttl now s then None else Some s | None => None end) /\
  (forall i, state'.(closing) !! i =
     match state.(active) !! i with
     | Some s => if is_expired idle_ttl now s then Some s else state.(closing) !! i
     | None => state.(closing) !! i
     end) /\
  expired = omap (fun i => state.(active) !! i) (expired_ids idle_ttl now state).
Proof.
  intros Hs. apply sweep_ids_spec in Hs as (Ho & Ha & Hc & He); [|apply expired_ids_NoDup].
  split_and!; [done|intros i; rewrite Ha|intros i; rewrite Hc|done].
  all: case_bool_decide as Hi; rewrite elem_of_expired_ids in Hi.
  1,3: destruct Hi as (s & -> & ->); done.
  all: destruct (active state !! i) as [s|] eqn:Es; [|done].
  all: destruct (is_expired idle_ttl now s) eqn:Ee; [|done]; destruct Hi; eauto.
Qed.

Lemma sweep_wf idle_ttl now state : wf state -> wf (sweep_expired idle_ttl now state).1.
Proof.
  intros Hwf. destruct (sweep_expired idle_ttl now state) as [state' expired] eqn:Es.
  apply sweep_expired_lookup in Es as (Ho & Ha & Hc & _). simpl.
  split; intros i s; rewrite ?Ho, ?Ha, ?Hc; intros Hs.
  - apply (wf_opening _ Hwf) in Hs as (-> & -> & ->). done.
  - destruct (active state !! i) as [s'|] eqn:E; [|done]. apply (wf_active _ Hwf) in E as (? & -> & ->).
    destruct (is_expired _ _ _); by simplify_eq.
  - destruct (active state !! i) as [s'|] eqn:E.
    + apply (wf_active _ Hwf) in E as (? & -> & Hc').
      destruct (is_expired _ _ _); by simplify_eq.
    + by apply (wf_closing _ Hwf) in Hs as (-> & -> & _).
Qed.

Lemma sweep_refines idle_ttl now state :
  wf state -> abs (sweep_expired idle_ttl now state).1 = Spec.sweep idle_ttl now (abs state).
Proof.
  intros Hwf. destruct (sweep_expired idle_ttl now state) as [state' expired] eqn:Es.
  apply sweep_expired_lookup in Es as (Ho & Ha & Hc & _). simpl.
  apply map_eq. intros i. unfold Spec.sweep. rewrite lookup_fmap, !abs_lookup, Ho, Ha, Hc.
  destruct (opening state !! i) as [s|] eqn:E1; [done|].
  destruct (active state !! i) as [s|] eqn:E2; simpl.
  - apply (wf_active _ Hwf) in E2 as (_ & _ & ->). by destruct (is_expired _ _ _).
  - by destruct (closing state !! i).
Qed.

(** ** Every call refines the abstract store *)

(** Two maps of sessions that agree key by key. *)
Local Ltac by_key j i :=
  apply map_eq; intros j; destruct (decide (j = i)) as [->|];
  [rewrite ?lookup_insert_eq, ?lookup_delete_eq, ?lookup_partial_alter_eq
  |rewrite ?lookup_insert_ne, ?lookup_delete_ne, ?lookup_partial_alter_ne by done];
  rewrite ?abs_lookup; simpl;
  [rewrite ?lookup_insert_eq, ?lookup_delete_eq, ?lookup_partial_alter_eq
  |rewrite ?lookup_insert_ne, ?lookup_delete_ne, ?lookup_partial_alter_ne by done].

Lemma open_refines idle_ttl now uuid conn db state :
  wf state -> fresh (Open now uuid conn db) state ->
  abs (open idle_ttl now uuid conn db state).2 =
  Spec.enter PActive now uuid conn db (Spec.sweep idle_ttl now (abs state)).
Proof.
  intros Hwf (Hfo & _ & _). rewrite <- sweep_refines by done. unfold open.
  pose proof (sweep_wf idle_ttl now _ Hwf) as Hwf'.
  destruct (sweep_expired idle_ttl now state) as [state' expired] eqn:Es. cbn [fst] in *.
  unfold Spec.enter. rewrite abs_size by done. destruct (MAX_SESSIONS <=? session_count state')%nat; [done|].
  apply sweep_expired_lookup in Es as (Ho & _). simpl. rewrite Ho in *.
  by_key j ("mcp-session-" +:+ uuid)%string; rewrite ?Ho, ?Hfo; done.
Qed.

Lemma reserve_refines idle_ttl now uuid conn db state :
  wf state -> fresh (ReserveOpening now uuid conn db) state ->
  abs (reserve_opening idle_ttl now uuid conn db state).2 =
  Spec.enter POpening now uuid conn db (Spec.sweep idle_ttl now (abs state)).
Proof.
  intros Hwf (Hfo & _ & _). rewrite <- sweep_refines by done. unfold reserve_opening.
  pose proof (sweep_wf idle_ttl now _ Hwf) as Hwf'.
  destruct (sweep_expired idle_ttl now state) as [state' expired] eqn:Es. cbn [fst] in *.
  unfold Spec.enter. rewrite abs_size by done. destruct (MAX_SESSIONS <=? session_count state')%nat; [done|].
  apply sweep_expired_lookup in Es as (Ho & _). simpl. by_key j ("mcp-session-" +:+ uuid)%string; done.
Qed.

(** The moves of one session, on a well-formed state. *)
Lemma promote_refines i owner state :
  wf state -> abs (promote_opening i owner state).2 =
  Spec.move i POpening (fun s => Some (PActive, with_owner s owner)) (abs state).
Proof.
  intros Hwf. unfold promote_opening, Spec.move. rewrite abs_lookup.
  destruct (opening state !! i) as [s|] eqn:Eo.
  - pose proof (wf_opening _ Hwf _ _ Eo) as (<- & Ha & Hc). simpl. by_key j (id s); by rewrite ?Hc.
  - by destruct (active state !! i), (closing state !! i).
Qed.

Lemma cancel_refines i state :
  wf state -> abs (cancel_opening i state).2 = Spec.move i POpening (fun _ => None) (abs state).
Proof.
  intros Hwf. unfold cancel_opening, Spec.move. rewrite abs_lookup. destruct (opening state !! i) as [s|] eqn:Eo.
  - pose proof (wf_opening _ Hwf _ _ Eo) as (_ & Ha & Hc). simpl. by_key j i; by rewrite ?Ha, ?Hc.
  - simpl. assert (Hd : delete i (opening state) = opening state) by by apply delete_id.
    transitivity (abs state); [by unfold abs; simpl; rewrite Hd|].
    by destruct (active state !! i), (closing state !! i).
Qed.

Lemma update_active_refines i f state :
  wf state ->
  abs (match state.(active) !! i with
       | None => state
       | Some s => {| opening := state.(opening); active := <[i := f s]> state.(active); closing := state.(closing) |}
       end) = Spec.move i PActive (fun s => Some (PActive, f s)) (abs state).
Proof.
  intros Hwf. unfold Spec.move. rewrite abs_lookup. destruct (active state !! i) as [s|] eqn:Ea.
  - pose proof (wf_active _ Hwf _ _ Ea) as (_ & Ho & Hc). rewrite Ho. simpl. by_key j i; by rewrite ?Ho, ?Hc.
  - destruct (opening state !! i); [done|]. by destruct (closing state !! i).
Qed.

Lemma attach_refines i owner state :
  wf state -> abs (attach_transaction_owner i owner state).2 =
  Spec.move i PActive (fun s => Some (PActive, with_owner s owner)) (abs state).
Proof.
  intros Hwf. rewrite <- (update_active_refines i (fun s => with_owner s owner)) by done.
  unfold attach_transaction_owner. by destruct (active state !! i).
Qed.

Lemma resolve_refines idle_ttl now i state :
  wf state -> abs (resolve idle_ttl now i state).2 =
  Spec.move i PActive (fun s => Some (PActive, with_last_used s now)) (Spec.sweep idle_ttl now (abs state)).
Proof.
  intros Hwf. rewrite <- sweep_refines by done. pose proof (sweep_wf idle_ttl now _ Hwf) as Hwf'.
  rewrite <- (update_active_refines i (fun s => with_last_used s now)) by done.
  unfold resolve. destruct (sweep_expired idle_ttl now state) as [state' ex]. simpl. by destruct (active state' !! i).
Qed.

Lemma begin_close_refines idle_ttl now i state :
  wf state -> abs (begin_close idle_ttl now i state).2 =
  Spec.move i PActive (fun s => Some (PClosing, s)) (Spec.sweep idle_ttl now (abs state)).
Proof.
  intros Hwf. rewrite <- sweep_refines by done. pose proof (sweep_wf idle_ttl now _ Hwf) as Hwf'.
  unfold begin_close. destruct (sweep_expired idle_ttl now state) as [st ex]. cbn [fst] in *.
  unfold Spec.move. rewrite abs_lookup. destruct (active st !! i) as [s|] eqn:Ea.
  - pose proof (wf_active _ Hwf' _ _ Ea) as (<- & Ho & Hc). rewrite Ho, Hc. simpl. by_key j (id s); by rewrite ?Ho.
  - destruct (opening st !! i); [done|]. by destruct (closing st !! i).
Qed.

Lemma finish_close_refines i state :
  wf state -> abs (finish_close i state) = Spec.move i PClosing (fun _ => None) (abs state).
Proof.
  intros Hwf. unfold finish_close, Spec.move. rewrite abs_lookup. destruct (closing state !! i) as [s|] eqn:Ec.
  - pose proof (wf_closing _ Hwf _ _ Ec) as (_ & Ho & Ha). rewrite Ho, Ha. simpl. by_key j i; by rewrite ?Ho, ?Ha.
  - assert (Hd : delete i (closing state) = closing state) by by apply delete_id.
    transitivity (abs state); [by unfold abs; simpl; rewrite Hd|].
    by destruct (opening state !! i), (active state !! i).
Qed.

Lemma restore_refines now s0 state :
  wf state -> abs (restore_after_failed_close now s0 state) =
  Spec.move s0.(id) PClosing (fun _ => Some (PActive, with_last_used s0 now)) (abs state).
Proof.
  intros Hwf. unfold restore_after_failed_close, Spec.move. rewrite abs_lookup.
  destruct (closing state !! id s0) as [s|] eqn:Ec.
  - pose proof (wf_closing _ Hwf _ _ Ec) as (_ & Ho & Ha). rewrite Ho, Ha. simpl. by_key j (id s0); by rewrite ?Ho.
  - by destruct (opening state !! id s0), (active state !! id s0).
Qed.

Lemma take_all_refines state :
  wf state -> abs (take_all_active state).2 =
  omap (fun x => if bool_decide (x.1 = PActive) then None else Some x) (abs state).
Proof.
  intros Hwf. apply map_eq. intros i. rewrite lookup_omap, !abs_lookup. simpl. rewrite lookup_empty.
  destruct (opening state !! i); [done|]. destruct (active state !! i) as [s|] eqn:Ea; simpl.
  - by apply (wf_active _ Hwf) in Ea as (_ & _ & ->).
  - by destruct (closing state !! i).
Qed.

Lemma run_refines idle_ttl c state :
  wf state -> fresh c state -> abs (run idle_ttl c state) = Spec.run idle_ttl c (abs state).
Proof.
  intros Hwf Hf. destruct c; cbn [run Spec.run];
    auto using open_refines, reserve_refines, promote_refines, cancel_refines, attach_refines, resolve_refines,
      begin_close_refines, finish_close_refines, restore_refines, take_all_refines.
Qed.

(** ** Well-formedness *)

(** A state that differs from a well-formed one at the key [i] only. *)
Local Ltac wf_at i Hwf :=
  split; cbn [snd opening active closing with_owner with_last_used id]; intros j s' Hj; (destruct (decide (j = i)) as [->|];
  [rewrite ?lookup_insert_eq, ?lookup_delete_eq in *; simplify_eq; done
  |rewrite ?lookup_insert_ne, ?lookup_delete_ne in * by done;
   first [by apply (wf_opening _ Hwf) in Hj|by apply (wf_active _ Hwf) in Hj|by apply (wf_closing _ Hwf) in Hj]]).

Lemma sweep_fresh idle_ttl now state i :
  state.(opening) !! i = None /\ state.(active) !! i = None /\ state.(closing) !! i = None ->
  let state' := (sweep_expired idle_ttl now state).1 in
  state'.(opening) !! i = None /\ state'.(active) !! i = None /\ state'.(closing) !! i = None.
Proof.
  intros (Ho & Ha & Hc). destruct (sweep_expired idle_ttl now state) as [state' ex] eqn:Es.
  apply sweep_expired_lookup in Es as (Eo & Ea & Ec & _). simpl. by rewrite Eo, Ea, Ec, Ho, Ha.
Qed.

Lemma run_wf idle_ttl c state : wf state -> fresh c state -> wf (run idle_ttl c state).
Proof.
  intros Hwf Hf.
  assert (Hsw : forall now, wf (sweep_expired idle_ttl now state).1) by (intros; by apply sweep_wf).
  destruct c as [now u cn db|now u cn db|i o|i|i o|now i|now i|i|now s0|]; cbn [run]; cbn [fresh] in Hf.
  - specialize (Hsw now). apply (sweep_fresh idle_ttl now) in Hf. unfold open.
    destruct (sweep_expired idle_ttl now state) as [st ex]. cbn [fst] in *. destruct Hf as (? & ? & ?).
    case_match; [done|]. simpl. wf_at ("mcp-session-" +:+ u)%string Hsw.
  - specialize (Hsw now). apply (sweep_fresh idle_ttl now) in Hf. unfold reserve_opening.
    destruct (sweep_expired idle_ttl now state) as [st ex]. cbn [fst] in *. destruct Hf as (? & ? & ?).
    case_match; [done|]. simpl. wf_at ("mcp-session-" +:+ u)%string Hsw.
  - unfold promote_opening. destruct (opening state !! i) as [s|] eqn:E; [|done].
    pose proof (wf_opening _ Hwf _ _ E) as (<- & ? & ?). wf_at (id s) Hwf.
  - unfold cancel_opening. split; simpl; intros j s' Hj.
    + apply lookup_delete_Some in Hj as [? Hj]. by apply (wf_opening _ Hwf) in Hj.
    + apply (wf_active _ Hwf) in Hj as (? & ? & ?). split_and!; try done. apply lookup_delete_None. auto.
    + apply (wf_closing _ Hwf) in Hj as (? & ? & ?). split_and!; try done. apply lookup_delete_None. auto.
  - unfold attach_transaction_owner. destruct (active state !! i) as [s|] eqn:E; [|done].
    pose proof (wf_active _ Hwf _ _ E) as (<- & ? & ?). wf_at (id s) Hwf.
  - specialize (Hsw now). unfold resolve. destruct (sweep_expired idle_ttl now state) as [st ex]. cbn [fst] in *.
    destruct (active st !! i) as [s|] eqn:E; [|done].
    pose proof (wf_active _ Hsw _ _ E) as (<- & ? & ?). wf_at (id s) Hsw.
  - specialize (Hsw now). unfold begin_close. destruct (sweep_expired idle_ttl now state) as [st ex]. cbn [fst] in *.
    destruct (active st !! i) as [s|] eqn:E; [|done].
    pose proof (wf_active _ Hsw _ _ E) as (<- & ? & Hc). simpl. rewrite Hc. wf_at (id s) Hsw.
  - unfold finish_close. split; simpl; intros j s' Hj.
    + apply (wf_opening _ Hwf) in Hj as (? & ? & ?). split_and!; try done. apply lookup_delete_None. auto.
    + apply (wf_active _ Hwf) in Hj as (? & ? & ?). split_and!; try done. apply lookup_delete_None. auto.
    + apply lookup_delete_Some in Hj as [? Hj]. by apply (wf_closing _ Hwf) in Hj.
  - unfold restore_after_failed_close. destruct (closing state !! id s0) as [s|] eqn:E; [|done].
    pose proof (wf_closing _ Hwf _ _ E) as (? & ? & ?). wf_at (id s0) Hwf.
  - split; simpl; intros j s' Hj.
    + by apply (wf_opening _ Hwf) in Hj as (? & _ & ?).
    + by rewrite lookup_empty in Hj.
    + by apply (wf_closing _ Hwf) in Hj as (? & ? & _).
Qed.

(** The states a store can reach: any calls, each UUID fresh when drawn. *)
Inductive reachable (idle_ttl : Z) : McpSessionState -> Prop :=
| reachable_new : reachable idle_ttl empty_state
| reachable_call c state : reachable idle_ttl state -> fresh c state -> reachable idle_ttl (run idle_ttl c state).

Lemma reachable_wf idle_ttl state : reachable idle_ttl state -> wf state.
Proof. induction 1; [apply wf_empty|by apply run_wf]. Qed.

Lemma spec_sweep_size idle_ttl now a : size (Spec.sweep idle_ttl now a) = size a.
Proof. apply map_size_fmap. Qed.

Lemma spec_move_size i p f a : size (Spec.move i p f a) <= size a.
Proof.
  unfold Spec.move. destruct (a !! i) as [[q s]|] eqn:E; [|done]. case_bool_decide; [|done].
  destruct (f s) as [x|] eqn:Ef.
  - assert (Hp : partial_alter (fun _ => Some x) i a = <[i:=x]> a) by done.
    rewrite Hp, map_size_insert. by rewrite E.
  - assert (Hp : partial_alter (fun _ => None) i a = delete i a) by done.
    rewrite Hp, map_size_delete, E. lia.
Qed.

Lemma spec_admit_size p now u c d a : size a <= MAX_SESSIONS -> size (Spec.enter p now u c d a) <= MAX_SESSIONS.
Proof.
  intros Ha. unfold Spec.enter. destruct (Nat.leb_spec MAX_SESSIONS (size a)); [done|].
  rewrite map_size_insert. destruct (a !! _); cbn; lia.
Qed.

Lemma spec_run_size idle_ttl c a : size a <= MAX_SESSIONS -> size (Spec.run idle_ttl c a) <= MAX_SESSIONS.
Proof.
  intros Ha. destruct c; cbn [Spec.run];
    try (apply spec_admit_size; by rewrite spec_sweep_size);
    try (etrans; [apply spec_move_size|]; by rewrite ?spec_sweep_size).
  etrans; [|exact Ha]. apply map_subseteq_size, map_subseteq_spec. intros i x. rewrite lookup_omap.
  destruct (a !! i); simpl; [|done]. by case_bool_decide.
Qed.

(** C37. The store is a bounded map of sessions with a lifecycle: in every
    reachable state each session is in exactly one of the three maps under its
    own id and at most [MAX_SESSIONS] exist, closing ones included; and each
    call acts on the map from ids to phases as the abstract store says: only
    expired active sessions are swept into closing, a session is admitted as
    opening or active while there is room, promoted, handed back, closed or
    dropped, and no other session is touched. *)
Theorem session_store_refines_lifecycle idle_ttl state :
  reachable idle_ttl state ->
  wf state /\ session_count state <= MAX_SESSIONS /\
  forall c, fresh c state -> abs (run idle_ttl c state) = Spec.run idle_ttl c (abs state).
Proof.
  intros Hr. pose proof (reachable_wf _ _ Hr) as Hwf. split_and!; [done| |intros; by apply run_refines].
  rewrite <- abs_size by done. induction Hr as [|c state Hr IH Hf]; [vm_compute; lia|].
  pose proof (reachable_wf _ _ Hr) as Hwf0. rewrite run_refines by done. by apply spec_run_size, IH.
Qed.

(** A session is lost only by being handed to a caller: the sessions a
    sweep reports are exactly the active ones that were idle for the TTL, none
    of them stays active, all of them wait in [closing]; and [resolve] answers
    with a session only if it is active and not idle for the TTL, and then its
    idle timer starts again. *)
Theorem sweep_and_resolve idle_ttl now i state value expired state' :
  wf state -> (0 < idle_ttl)%Z -> resolve idle_ttl now i state = (value, expired, state') ->
  (forall s, s ∈ expired <-> state.(active) !! s.(id) = Some s /\ is_expired idle_ttl now s = true) /\
  (forall s, s ∈ expired -> state'.(active) !! s.(id) = None /\ state'.(closing) !! s.(id) = Some s) /\
  match value with
  | Some s => exists s0, state.(active) !! i = Some s0 /\ is_expired idle_ttl now s0 = false /\
                s = with_last_used s0 now /\ state'.(active) !! i = Some s /\ is_expired idle_ttl now s = false
  | None => state'.(active) !! i = None
  end.
Proof.
  intros Hwf Httl. unfold resolve. destruct (sweep_expired idle_ttl now state) as [st ex] eqn:Es.
  apply sweep_expired_lookup in Es as (Ho & Ha & Hc & He). intros Hr.
  assert (Hex : forall s, s ∈ ex <-> state.(active) !! s.(id) = Some s /\ is_expired idle_ttl now s = true).
  { intros s. rewrite He, list_elem_of_omap. split.
    - intros (j & (s' & Hs' & Hexp)%elem_of_expired_ids & Hs).
      pose proof (wf_active _ Hwf _ _ Hs) as (<- & _ & _). by simplify_eq.
    - intros [Hs Hexp]. exists s.(id). split; [|done]. apply elem_of_expired_ids. eauto. }
  assert (Hmoved : forall s, s ∈ ex -> st.(active) !! s.(id) = None /\ st.(closing) !! s.(id) = Some s).
  { intros s [Hs Hexp]%Hex. by rewrite Ha, Hc, Hs, Hexp. }
  destruct (active st !! i) as [s0|] eqn:E; simplify_eq/=; [|split_and!; done].
  rewrite Ha in E. destruct (active state !! i) as [s1|] eqn:E1; [|done].
  destruct (is_expired idle_ttl now s1) eqn:Eexp; simplify_eq. split_and!; [done|..].
  - intros s Hs. pose proof (Hmoved s Hs) as [? ?]. split; [|done].
    rewrite lookup_insert_ne; [done|]. intros ->. apply Hex in Hs as [Hs ?].
    congruence.
  - exists s0. rewrite lookup_insert_eq. split_and!; try done. unfold is_expired. simpl.
    apply Z.leb_gt. lia.
Qed.

(** [DBX_SESSION_IDLE_TTL_SECS] can only set a positive TTL of whole
    seconds that fits a [u64] and a deadline the platform can represent;
    anything else gives the default of thirty minutes. *)
Theorem session_idle_ttl_valid representable value :
  let ttl := session_idle_ttl_from_value representable value in
  (0 < ttl)%Z /\
  (ttl <> SESSION_IDLE_TTL -> exists v secs, value = Some v /\ parse_unsigned u64_max (trim v) = Some secs /\
     (0 < secs <= u64_max)%Z /\ ttl = nanos secs /\ representable ttl = true).
Proof.
  unfold session_idle_ttl_from_value. destruct value as [v|]; [|done].
  destruct (parse_unsigned u64_max (trim v)) as [secs|] eqn:Ep; [|done].
  assert (Hm : (0 <= u64_max)%Z) by done. pose proof (parse_unsigned_bounds _ _ _ Hm Ep) as Hb.
  destruct ((0 <? secs)%Z && representable (nanos secs)) eqn:Eb; [|done].
  apply andb_true_iff in Eb as [Hpos%Z.ltb_lt Hrep]. split; [unfold nanos; lia|].
  intros _. exists v, secs. split_and!; try done; lia.
Qed.

Module SessionDemo.

Definition one_open : McpSessionState := run SESSION_IDLE_TTL (Open 0 "u1" "c" "db") empty_state.

Lemma session_store_refines_lifecycle_witness :
  session_count one_open = 1 /\ wf one_open /\ session_count one_open <= MAX_SESSIONS /\
  forall c, fresh c one_open -> abs (run SESSION_IDLE_TTL c one_open) = Spec.run SESSION_IDLE_TTL c (abs one_open).
Proof.
  split; [vm_compute; reflexivity|].
  apply (session_store_refines_lifecycle SESSION_IDLE_TTL one_open).
  apply reachable_call; [apply reachable_new|]. vm_compute. auto.
Defined.

(** The session is resolved after the TTL: it is swept. *)
Definition late := resolve SESSION_IDLE_TTL SESSION_IDLE_TTL "mcp-session-u1" one_open.

Lemma sweep_and_resolve_witness :
  late.1.1 = None /\
  (forall s, s ∈ late.1.2 <->
     one_open.(active) !! s.(id) = Some s /\ is_expired SESSION_IDLE_TTL SESSION_IDLE_TTL s = true) /\
  (forall s, s ∈ late.1.2 -> late.2.(active) !! s.(id) = None /\ late.2.(closing) !! s.(id) = Some s).
Proof.
  split; [vm_compute; reflexivity|].
  destruct (sweep_and_resolve SESSION_IDLE_TTL SESSION_IDLE_TTL "mcp-session-u1" one_open late.1.1 late.1.2 late.2)
    as (H1 & H2 & _).
  - apply (run_wf SESSION_IDLE_TTL (Open 0 "u1" "c" "db")); [apply wf_empty|]. vm_compute. auto.
  - reflexivity.
  - vm_compute. reflexivity.
  - split; [exact H1|exact H2].
Defined.

End SessionDemo.
