(* ===== verification/RunningQueries.v ===== *)
(** * Running queries and their cancellation

    Models [crates/dbx-core/src/query/query_cancel.rs]: the registry of running
    executions, the interrupt handles drivers attach to them, and the guards
    that remove an execution when its owner is done.

    A registration is identified by its [registration_id], which also names its
    cancellation token and its completion channel: [cancelled] and [finished]
    hold the ids whose token was cancelled and whose channel carries [true].  A
    child token also follows its parent ([parents_cancelled]).  Interrupt
    closures are numbers and [fired] lists the ones that ran.  Every method
    takes the registry lock once, so methods interleave as whole steps;
    [cancel_and_wait], which does not, takes what others do in between as
    arguments.  Times are seconds. *)

From S2P Require Import Prelude.

Definition DETACHED_REGISTRATION_GRACE_PERIOD : Z := (30 * 60)%Z.

Inductive RunningTaskKind := KQuery | KCount | KExplain | KExport | KUnknown.

#[global] Instance RunningTaskKind_eq_dec : EqDecision RunningTaskKind.
Proof. solve_decision. Defined.

Record RunningTaskMetadata := {
  kind : RunningTaskKind;
  connection_id : option text;
  database : option text;
  client_session_id : option text;
  owner_scope : option text;
}.

Definition default_metadata : RunningTaskMetadata :=
  {| kind := KUnknown; connection_id := None; database := None; client_session_id := None; owner_scope := None |}.

Definition ends_with (s suffix : text) : bool := bool_decide (suffix `suffix_of` s).

Definition task_kind_from_client_session_id (client_session_id : option text) : RunningTaskKind :=
  match client_session_id with
  | None => KQuery
  | Some session_id =>
    let session_id := map to_ascii_lowercase (trim session_id) in
    if ends_with session_id (txt ":count") then KCount
    else if ends_with session_id (txt ":explain") then KExplain
    else if ends_with session_id (txt ":export") then KExport
    else KQuery
  end.

(** [s.split(':').next()]: everything before the first colon. *)
Fixpoint before_colon (s : text) : text :=
  match s with
  | [] => []
  | c :: rest => if (c =? 58)%Z then [] else c :: before_colon rest
  end.

Definition owner_scope_from_client_session_id (client_session_id : text) : option text :=
  match trim (before_colon (trim client_session_id)) with
  | [] => None
  | owner => Some owner
  end.

(** [RunningTaskMetadata::query]. *)
Definition query_metadata (conn db : text) (session : option text) : RunningTaskMetadata :=
  {| kind := task_kind_from_client_session_id session; connection_id := Some conn; database := Some db;
     client_session_id := session; owner_scope := session ≫= owner_scope_from_client_session_id |}.

(** [token_parents] are the ancestors of the task's token. *)
Record RunningTask := {
  registration_id : Z;
  token_parents : list nat;
  remember_completion : bool;
  metadata : RunningTaskMetadata;
  pool_key : option string;
  interrupt : option nat;
}.

Record RunningQueries := {
  inner : gmap string RunningTask;
  completed : gmap string (Z * bool);
  next_registration_id : Z;
  cancelled : gset Z;
  parents_cancelled : gset nat;
  finished : gset Z;
  fired : list nat;
}.

Definition new_queries : RunningQueries :=
  {| inner := ∅; completed := ∅; next_registration_id := 0; cancelled := ∅; parents_cancelled := ∅;
     finished := ∅; fired := [] |}.

Definition is_cancelled (q : RunningQueries) (t : RunningTask) : bool :=
  bool_decide (t.(registration_id) ∈ q.(cancelled)) ||
  existsb (fun p => bool_decide (p ∈ q.(parents_cancelled))) t.(token_parents).

Definition set_inner (q : RunningQueries) (m : gmap string RunningTask) : RunningQueries :=
  {| inner := m; completed := q.(completed); next_registration_id := q.(next_registration_id);
     cancelled := q.(cancelled); parents_cancelled := q.(parents_cancelled); finished := q.(finished);
     fired := q.(fired) |}.

Definition set_completed (q : RunningQueries) (m : gmap string (Z * bool)) : RunningQueries :=
  {| inner := q.(inner); completed := m; next_registration_id := q.(next_registration_id);
     cancelled := q.(cancelled); parents_cancelled := q.(parents_cancelled); finished := q.(finished);
     fired := q.(fired) |}.

(** [token.cancel()]. *)
Definition cancel_token (r : Z) (q : RunningQueries) : RunningQueries :=
  {| inner := q.(inner); completed := q.(completed); next_registration_id := q.(next_registration_id);
     cancelled := {[r]} ∪ q.(cancelled); parents_cancelled := q.(parents_cancelled); finished := q.(finished);
     fired := q.(fired) |}.

(** [completion.send_replace(true)]. *)
Definition send_completion (r : Z) (q : RunningQueries) : RunningQueries :=
  {| inner := q.(inner); completed := q.(completed); next_registration_id := q.(next_registration_id);
     cancelled := q.(cancelled); parents_cancelled := q.(parents_cancelled); finished := {[r]} ∪ q.(finished);
     fired := q.(fired) |}.

(** [if let Some(interrupt) = interrupt { interrupt() }]. *)
Definition fire (i : option nat) (q : RunningQueries) : RunningQueries :=
  {| inner := q.(inner); completed := q.(completed); next_registration_id := q.(next_registration_id);
     cancelled := q.(cancelled); parents_cancelled := q.(parents_cancelled); finished := q.(finished);
     fired := q.(fired) ++ option_list i |}.

Definition take_interrupt (t : RunningTask) : RunningTask :=
  {| registration_id := t.(registration_id); token_parents := t.(token_parents);
     remember_completion := t.(remember_completion); metadata := t.(metadata); pool_key := t.(pool_key);
     interrupt := None |}.

(** [completed.retain(..elapsed() < GRACE..)]. *)
Definition retain_recent (now : Z) (m : gmap string (Z * bool)) : gmap string (Z * bool) :=
  omap (fun x => if (Z.max 0 (now - x.1) <? DETACHED_REGISTRATION_GRACE_PERIOD)%Z then Some x else None) m.

(** ** Registration *)

Record RegisteredQuery := {
  rq_execution_id : string;
  rq_registration_id : Z;
  rq_detached : bool;
  rq_database_terminal : bool;
}.

(** The counter is an [AtomicU64]. *)
Definition u64_succ (n : Z) : Z := ((n + 1) mod 2 ^ 64)%Z.

(** [register_task_with_token]; [parents] are the ancestors of the token it is
    given, none for [CancellationToken::new()]. *)
Definition register_task_with_token (now : Z) (execution_id : string) (meta : RunningTaskMetadata)
    (remember : bool) (parents : list nat) (q : RunningQueries) : RegisteredQuery * RunningQueries :=
  let r := u64_succ q.(next_registration_id) in
  let previous := q.(inner) !! execution_id in
  let q1 := {| inner := <[execution_id := {| registration_id := r; token_parents := parents;
                 remember_completion := remember; metadata := meta; pool_key := None; interrupt := None |}]> q.(inner);
               completed := delete execution_id (retain_recent now q.(completed));
               next_registration_id := r; cancelled := q.(cancelled); parents_cancelled := q.(parents_cancelled);
               finished := q.(finished); fired := q.(fired) |} in
  let q2 := match previous with
            | Some p => fire p.(interrupt) (send_completion p.(registration_id) (cancel_token p.(registration_id) q1))
            | None => q1
            end in
  ({| rq_execution_id := execution_id; rq_registration_id := r; rq_detached := false; rq_database_terminal := false |}, q2).

Record CancellationWaitResult := { requested : bool; terminal : bool; database_terminal : option bool }.

Definition completed_execution_result (now : Z) (execution_id : string) (q : RunningQueries)
    : CancellationWaitResult * RunningQueries :=
  match q.(inner) !! execution_id with
  | Some _ => ({| requested := false; terminal := false; database_terminal := Some false |}, q)
  | None =>
    let m := retain_recent now q.(completed) in
    ({| requested := false; terminal := bool_decide (is_Some (m !! execution_id));
        database_terminal := Some (match m !! execution_id with Some (_, proven) => proven | None => false end) |},
     set_completed q m)
  end.

Definition register_interrupt (execution_id : string) (i : nat) (q : RunningQueries) : RunningQueries :=
  match q.(inner) !! execution_id with
  | Some t =>
    if negb (is_cancelled q t)
    then set_inner q (<[execution_id := {| registration_id := t.(registration_id); token_parents := t.(token_parents);
           remember_completion := t.(remember_completion); metadata := t.(metadata); pool_key := t.(pool_key);
           interrupt := Some i |}]> q.(inner))
    else fire (Some i) q
  | None => fire (Some i) q
  end.

Definition cancel (execution_id : string) (q : RunningQueries) : bool * RunningQueries :=
  match q.(inner) !! execution_id with
  | None => (false, q)
  | Some t =>
    let q1 := cancel_token t.(registration_id) q in
    if t.(remember_completion)
    then (true, fire t.(interrupt) (set_inner q1 (<[execution_id := take_interrupt t]> q1.(inner))))
    else (true, send_completion t.(registration_id)
                  (fire t.(interrupt) (set_inner q1 (delete execution_id q1.(inner)))))
  end.

(** [cancel_and_wait]: [before_cancel] is what others do between the
    subscription and the cancel, [during_wait] what they do until the wait
    ends, by the channel or by the timeout. *)
Definition cancel_and_wait (now : Z) (execution_id : string) (before_cancel during_wait : RunningQueries -> RunningQueries)
    (q : RunningQueries) : CancellationWaitResult * RunningQueries :=
  match q.(inner) !! execution_id with
  | None => completed_execution_result now execution_id q
  | Some subscribed =>
    let '(found, q) := cancel execution_id (before_cancel q) in
    if negb found then completed_execution_result now execution_id q
    else
      let q := during_wait q in
      let is_terminal := bool_decide (subscribed.(registration_id) ∈ q.(finished)) in
      let '(r, q) := completed_execution_result now execution_id q in
      ({| requested := true; terminal := is_terminal; database_terminal := r.(database_terminal) |}, q)
  end.

Fixpoint cancel_ids (ids : list string) (q : RunningQueries) : nat * RunningQueries :=
  match ids with
  | [] => (0, q)
  | i :: rest =>
    let '(b, q) := cancel i q in
    let '(n, q) := cancel_ids rest q in
    ((if b then 1 else 0) + n, q)
  end.

Definition matching_ids (predicate : RunningTask -> bool) (q : RunningQueries) : list string :=
  List.map fst (List.filter (fun kv => predicate kv.2) (map_to_list q.(inner))).

Definition cancel_matching (predicate : RunningTask -> bool) (q : RunningQueries) : nat * RunningQueries :=
  cancel_ids (matching_ids predicate q) q.

Definition cancel_connection (conn : text) : RunningQueries -> nat * RunningQueries :=
  cancel_matching (fun t => bool_decide (t.(metadata).(connection_id) = Some conn)).
Definition cancel_client_session (session : text) : RunningQueries -> nat * RunningQueries :=
  cancel_matching (fun t => bool_decide (t.(metadata).(client_session_id) = Some session)).
Definition cancel_owner_scope (scope : text) : RunningQueries -> nat * RunningQueries :=
  cancel_matching (fun t => bool_decide (t.(metadata).(owner_scope) = Some scope)).
Definition cancel_all : RunningQueries -> nat * RunningQueries := cancel_matching (fun _ => true).

Definition set_pool_key (execution_id key : string) (q : RunningQueries) : RunningQueries :=
  match q.(inner) !! execution_id with
  | None => q
  | Some t =>
    set_inner q (<[execution_id := {| registration_id := t.(registration_id); token_parents := t.(token_parents);
      remember_completion := t.(remember_completion); metadata := t.(metadata); pool_key := Some key;
      interrupt := t.(interrupt) |}]> q.(inner))
  end.

Definition is_pool_active (key : string) (q : RunningQueries) : bool :=
  existsb (fun kv => bool_decide (kv.2.(pool_key) = Some key)) (map_to_list q.(inner)).

Definition remove (now : Z) (execution_id : string) (r : Z) (proven : bool) (q : RunningQueries) : RunningQueries :=
  match q.(inner) !! execution_id with
  | None => q
  | Some t =>
    if negb (t.(registration_id) =? r)%Z then q
    else
      let q1 := if t.(remember_completion)
                then set_completed q (<[execution_id := (now, proven)]> q.(completed)) else q in
      send_completion t.(registration_id) (set_inner q1 (delete execution_id q1.(inner)))
  end.

(** ** Guards *)

Inductive AgentErrorCategory := CatConnection | CatSql | CatResource | CatProtocol | CatTimeout | CatCanceled.
Inductive AgentErrorStage :=
  StRequest | StCheckout | StConnect | StValidate | StExecute | StFetch | StCancel | StClose.
Inductive AgentOperationOutcome := NotStarted | OutcomeUnknown.

#[global] Instance AgentErrorCategory_eq_dec : EqDecision AgentErrorCategory.
Proof. solve_decision. Defined.
#[global] Instance AgentErrorStage_eq_dec : EqDecision AgentErrorStage.
Proof. solve_decision. Defined.
#[global] Instance AgentOperationOutcome_eq_dec : EqDecision AgentOperationOutcome.
Proof. solve_decision. Defined.

(** The error of an agent call: of [AgentErrorContext] the three fields that
    are read here, of the other variants the tag. *)
Inductive AgentCallError :=
| Structured (category : AgentErrorCategory) (stage : AgentErrorStage) (outcome : AgentOperationOutcome)
| AgentLegacy
| ContractViolation
| AgentTransport
| AgentTimeout (stage : AgentErrorStage) (outcome : AgentOperationOutcome)
| AgentCanceled (stage : AgentErrorStage) (outcome : AgentOperationOutcome).

Inductive QueryExecutionError :=
| EAgent (e : AgentCallError)
| EDuckDb (code message : string)
| ECanceled (stage : AgentErrorStage) (outcome : AgentOperationOutcome)
| ETimeout (message : string)
| ESql (message : string)
| ESqlWithPosition (message : string)
| ELegacy (message : string).

(** Whether a result proves that the database request has ended. *)
Definition database_terminal_of {T} (r : result T QueryExecutionError) : bool :=
  match r with
  | Ok _ => true
  | Err (EAgent (Structured category stage outcome)) =>
    bool_decide (outcome = NotStarted) || (bool_decide (category = CatSql) && bool_decide (stage = StExecute))
  | Err (ECanceled _ NotStarted) => true
  | Err _ => false
  end.

(** [Drop for RegisteredQuery]. *)
Definition drop_guard (now : Z) (g : RegisteredQuery) (q : RunningQueries) : RunningQueries :=
  if g.(rq_detached) then q
  else remove now g.(rq_execution_id) g.(rq_registration_id) g.(rq_database_terminal) q.

(** [finish_with_database_result] consumes the guard. *)
Definition finish_with_database_result {T} (now : Z) (g : RegisteredQuery) (r : result T QueryExecutionError)
    (q : RunningQueries) : bool * RunningQueries :=
  let proven := database_terminal_of r in
  (proven, drop_guard now {| rq_execution_id := g.(rq_execution_id); rq_registration_id := g.(rq_registration_id);
                             rq_detached := g.(rq_detached); rq_database_terminal := proven |} q).

(** [finish_with_late_cancel]: a timeout detaches the guard, whose registration
    is then removed by a timer; anything else drops it. *)
Definition finish_with_late_cancel {T} (now : Z) (g : RegisteredQuery) (r : result T QueryExecutionError)
    (keep_timeout_reachable : bool) (q : RunningQueries) : RunningQueries :=
  if keep_timeout_reachable && match r with Err (ETimeout _) => true | _ => false end then q
  else drop_guard now g q.

Record RunningQueryDiagnostics := {
  active_execution_ids : list string;
  active_by_connection : gmap text nat;
  interrupt_registrations : nat;
}.

Definition count_connection (t : RunningTask) (m : gmap text nat) : gmap text nat :=
  match t.(metadata).(connection_id) with
  | Some c => <[c := S (default 0 (m !! c))]> m
  | None => m
  end.

Definition has_interrupt (t : RunningTask) : bool := match t.(interrupt) with Some _ => true | None => false end.

(** [sorted] is the sort of the ids by the string order of the standard library. *)
Definition diagnostics (sorted : list string -> list string) (q : RunningQueries) : RunningQueryDiagnostics :=
  let tasks := (map_to_list q.(inner)).*2 in
  {| active_execution_ids := sorted ((map_to_list q.(inner)).*1);
     active_by_connection := foldl (fun m t => count_connection t m) ∅ tasks;
     interrupt_registrations := length (List.filter has_interrupt tasks) |}.

(** ** Every interleaving *)

Inductive step : RunningQueries -> RunningQueries -> Prop :=
| step_register now i meta remember parents q :
    (q.(next_registration_id) + 1 < 2 ^ 64)%Z ->
    step q (register_task_with_token now i meta remember parents q).2
| step_interrupt i n q : step q (register_interrupt i n q)
| step_cancel i q : step q (cancel i q).2
| step_set_pool_key i k q : step q (set_pool_key i k q)
| step_remove now i r proven q : step q (remove now i r proven q)
| step_observe now i q : step q (completed_execution_result now i q).2
| step_parent p q :
    step q {| inner := q.(inner); completed := q.(completed); next_registration_id := q.(next_registration_id);
              cancelled := q.(cancelled); parents_cancelled := {[p]} ∪ q.(parents_cancelled);
              finished := q.(finished); fired := q.(fired) |}.

Record inv (q : RunningQueries) : Prop := {
  inv_next : (0 <= q.(next_registration_id) < 2 ^ 64)%Z;
  inv_id i t : q.(inner) !! i = Some t -> (t.(registration_id) <= q.(next_registration_id))%Z;
  inv_unique i j t t' : q.(inner) !! i = Some t -> q.(inner) !! j = Some t' ->
    t.(registration_id) = t'.(registration_id) -> i = j;
  inv_quiet i t : q.(inner) !! i = Some t -> t.(registration_id) ∈ q.(cancelled) -> t.(interrupt) = None;
  inv_unfinished i t : q.(inner) !! i = Some t -> t.(registration_id) ∉ q.(finished);
  inv_exclusive i t : q.(inner) !! i = Some t -> q.(completed) !! i = None;
  inv_issued r : r ∈ q.(cancelled) \/ r ∈ q.(finished) -> (r <= q.(next_registration_id))%Z;
}.

Lemma inv_new : inv new_queries.
Proof. split; simpl; set_solver. Qed.

Lemma retain_recent_Some now m i x : retain_recent now m !! i = Some x -> m !! i = Some x.
Proof. unfold retain_recent. rewrite lookup_omap. destruct (m !! i); simpl; [|done]. case_match; congruence. Qed.

Lemma retain_recent_None now m i : m !! i = None -> retain_recent now m !! i = None.
Proof. intros Hm. unfold retain_recent. by rewrite lookup_omap, Hm. Qed.

(** Replacing a task of the registry by one of the same registration. *)
Lemma inv_update i t t' q :
  inv q -> q.(inner) !! i = Some t -> t'.(registration_id) = t.(registration_id) ->
  (t.(registration_id) ∈ q.(cancelled) -> t'.(interrupt) = None) ->
  inv (set_inner q (<[i := t']> q.(inner))).
Proof.
  intros Hinv Hi Hr Hq. split; simpl.
  - apply Hinv.
  - intros j u. rewrite lookup_insert_Some. intros [[<- <-]|[? Hj]]; [rewrite Hr|]; by eapply inv_id.
  - intros j k u u'. rewrite !lookup_insert_Some.
    intros [[<- <-]|[? Hj]] [[<- <-]|[? Hk]]; rewrite ?Hr; try done; by eapply inv_unique.
  - intros j u. rewrite lookup_insert_Some. intros [[<- <-]|[? Hj]]; [by rewrite Hr|by eapply inv_quiet].
  - intros j u. rewrite lookup_insert_Some. intros [[<- <-]|[? Hj]]; [rewrite Hr|]; by eapply inv_unfinished.
  - intros j u. rewrite lookup_insert_Some. intros [[<- <-]|[? Hj]]; by eapply inv_exclusive.
  - apply (inv_issued _ Hinv).
Qed.

(** Cancelling the token of a task that has no interrupt. *)
Lemma inv_cancel_token i t q :
  inv q -> q.(inner) !! i = Some t -> t.(interrupt) = None -> inv (cancel_token t.(registration_id) q).
Proof.
  intros Hinv Hi Hn. split; simpl; try apply Hinv.
  - intros j u Hj [Hu%elem_of_singleton|Hu]%elem_of_union; [|by eapply inv_quiet].
    rewrite (inv_unique _ Hinv _ _ _ _ Hj Hi Hu) in Hj. congruence.
  - intros r [[->%elem_of_singleton|Hr]%elem_of_union|Hr];
      [by eapply inv_id|apply (inv_issued _ Hinv); auto..].
Qed.

(** Removing a task and completing it. *)
Lemma inv_delete i t q :
  inv q -> q.(inner) !! i = Some t ->
  inv (send_completion t.(registration_id) (set_inner q (delete i q.(inner)))).
Proof.
  intros Hinv Hi. split; simpl.
  - apply Hinv.
  - intros j u [_ Hj]%lookup_delete_Some. by eapply inv_id.
  - intros j k u u' [_ Hj]%lookup_delete_Some [_ Hk]%lookup_delete_Some. by eapply inv_unique.
  - intros j u [_ Hj]%lookup_delete_Some. by eapply inv_quiet.
  - intros j u [Hne Hj]%lookup_delete_Some [Hu%elem_of_singleton|Hu]%elem_of_union; [|by eapply inv_unfinished].
    by pose proof (inv_unique _ Hinv _ _ _ _ Hj Hi Hu).
  - intros j u [_ Hj]%lookup_delete_Some. by eapply inv_exclusive.
  - intros r [Hr|[->%elem_of_singleton|Hr]%elem_of_union]; [apply (inv_issued _ Hinv); auto|by eapply inv_id|].
    apply (inv_issued _ Hinv); auto.
Qed.

Lemma inv_fire i q : inv q -> inv (fire i q).
Proof. intros Hinv. split; apply Hinv. Qed.

Lemma inv_completed q m : inv q -> (forall i, q.(completed) !! i = None -> m !! i = None) -> inv (set_completed q m).
Proof. intros Hinv Hm. split; try apply Hinv. simpl. intros i t Hi. by eapply Hm, inv_exclusive. Qed.

(** Any task forgets its handle when it is cancelled. *)
Lemma inv_take_cancel i t q :
  inv q -> q.(inner) !! i = Some t ->
  inv (set_inner (cancel_token t.(registration_id) q) (<[i := take_interrupt t]> q.(inner))).
Proof.
  intros Hinv Hi.
  change (inv (cancel_token (take_interrupt t).(registration_id) (set_inner q (<[i := take_interrupt t]> q.(inner))))).
  eapply (inv_cancel_token i); [by eapply inv_update|simpl; apply lookup_insert_eq|done].
Qed.

Lemma inv_cancel i q : inv q -> inv (cancel i q).2.
Proof.
  intros Hinv. unfold cancel. destruct (inner q !! i) as [t|] eqn:Hi; [|done].
  pose proof (inv_take_cancel _ _ _ Hinv Hi) as Ht. destruct (remember_completion t); simpl.
  - by apply inv_fire.
  - pose proof (inv_delete i (take_interrupt t) _ Ht ltac:(simpl; apply lookup_insert_eq)) as Hd.
    apply (inv_fire (interrupt t)) in Hd. simpl in Hd. rewrite delete_insert_eq in Hd. exact Hd.
Qed.

Lemma u64_succ_small n : (0 <= n)%Z -> (n + 1 < 2 ^ 64)%Z -> u64_succ n = (n + 1)%Z.
Proof. intros. unfold u64_succ. apply Z.mod_small. lia. Qed.

Lemma inv_register now i meta remember parents q :
  inv q -> (q.(next_registration_id) + 1 < 2 ^ 64)%Z ->
  inv (register_task_with_token now i meta remember parents q).2.
Proof.
  intros Hinv Hn. pose proof (inv_next _ Hinv) as Hb. unfold register_task_with_token. cbn [snd].
  rewrite u64_succ_small by lia. set (q1 := Build_RunningQueries _ _ _ _ _ _ _).
  assert (H1 : inv q1).
  { split; simpl; [lia| | | | | |].
    - intros j u. rewrite lookup_insert_Some. intros [[<- <-]|[? Hj]]; simpl; [lia|].
      pose proof (inv_id _ Hinv _ _ Hj). lia.
    - intros j k u u'. rewrite !lookup_insert_Some.
      intros [[<- <-]|[? Hj]] [[<- <-]|[? Hk]]; simpl; intros Hr; try done; [..|by eapply inv_unique].
      + pose proof (inv_id _ Hinv _ _ Hk). lia.
      + pose proof (inv_id _ Hinv _ _ Hj). lia.
    - intros j u. rewrite lookup_insert_Some. intros [[<- <-]|[? Hj]]; [done|by eapply inv_quiet].
    - intros j u. rewrite lookup_insert_Some. intros [[<- <-]|[? Hj]]; simpl; [|by eapply inv_unfinished].
      intros Hf. pose proof (inv_issued _ Hinv _ (or_intror Hf)). lia.
    - intros j u. rewrite lookup_insert_Some. intros [[<- <-]|[? Hj]]; [apply lookup_delete_eq|].
      rewrite lookup_delete_ne by done. apply retain_recent_None. by eapply inv_exclusive.
    - intros r Hr. pose proof (inv_issued _ Hinv _ Hr). lia. }
  destruct (inner q !! i) as [p|] eqn:Hp; [|done]. apply inv_fire.
  assert (Hold : forall j u, q1.(inner) !! j = Some u -> u.(registration_id) <> p.(registration_id)).
  { intros j u. simpl. rewrite lookup_insert_Some. intros [[<- <-]|[Hne Hj]]; simpl.
    - pose proof (inv_id _ Hinv _ _ Hp). lia.
    - intros Hr. by pose proof (inv_unique _ Hinv _ _ _ _ Hj Hp Hr). }
  split; simpl; try apply H1.
  - intros j u Hj [Hu%elem_of_singleton|Hu]%elem_of_union; [by apply Hold in Hj|by eapply (inv_quiet _ H1)].
  - intros j u Hj [Hu%elem_of_singleton|Hu]%elem_of_union; [by apply Hold in Hj|by eapply (inv_unfinished _ H1)].
  - pose proof (inv_id _ Hinv _ _ Hp). intros r Hr.
    assert (r = p.(registration_id) \/ r ∈ q.(cancelled) \/ r ∈ q.(finished)) as [->|Hr'] by set_solver; [lia|].
    pose proof (inv_issued _ Hinv _ Hr'). lia.
Qed.

Lemma inv_step q q' : step q q' -> inv q -> inv q'.
Proof.
  destruct 1 as [now i meta rem ps q Hn|i n q|i q|i k q|now i r pr q|now i q|p q]; intros Hinv.
  - by apply inv_register.
  - unfold register_interrupt. destruct (inner q !! i) as [t|] eqn:Hi; [|by apply inv_fire].
    destruct (is_cancelled q t) eqn:Ec; simpl; [by apply inv_fire|]. eapply inv_update; [done..|].
    unfold is_cancelled in Ec. apply orb_false_iff in Ec as [Ec%bool_decide_eq_false _]. done.
  - by apply inv_cancel.
  - unfold set_pool_key. destruct (inner q !! i) as [t|] eqn:Hi; [|done]. eapply inv_update; [done..|].
    simpl. by eapply inv_quiet.
  - unfold remove. destruct (inner q !! i) as [t|] eqn:Hi; [|done]. case_match; [done|].
    pose proof (inv_delete _ _ _ Hinv Hi) as Hd. destruct (remember_completion t); [|done].
    split; simpl; try apply Hd. intros j u Hj. pose proof Hj as [Hne _]%lookup_delete_Some.
    rewrite lookup_insert_ne by done. eapply (inv_exclusive _ Hd). exact Hj.
  - unfold completed_execution_result. destruct (inner q !! i); [done|]. simpl. apply inv_completed; [done|].
    intros j. apply retain_recent_None.
  - split; apply Hinv.
Qed.

Lemma inv_reachable q : rtc step new_queries q -> inv q.
Proof.
  intros Hr. enough (forall a b, rtc step a b -> inv a -> inv b) as He by (eapply He; [exact Hr|apply inv_new]).
  induction 1; eauto using inv_step.
Qed.

(** What becomes of the handle [m] of the task [t] under [i]: it has run; or the task is
    still there with a handle, this one or a later one; or the task was removed without
    having been cancelled. *)
Definition handle_kept (q' : RunningQueries) (i : string) (t : RunningTask) (m : nat) : Prop :=
  m ∈ q'.(fired) \/
  (exists t', q'.(inner) !! i = Some t' /\ t'.(registration_id) = t.(registration_id) /\ is_Some t'.(interrupt)) \/
  (q'.(inner) !! i = None /\ t.(registration_id) ∈ q'.(finished) /\ t.(registration_id) ∉ q'.(cancelled)).

Lemma handle_step q q' i t m : step q q' -> inv q -> q.(inner) !! i = Some t -> t.(interrupt) = Some m -> handle_kept q' i t m.
Proof.
  intros Hs Hinv Hi Hm. assert (Hsame : q'.(inner) !! i = Some t -> handle_kept q' i t m) by (right; left; eexists; by rewrite Hm).
  destruct Hs as [now j meta rem ps q Hn|j n q|j q|j k q|now j r pr q|now j q|p q]; [..|by apply Hsame].
  - unfold register_task_with_token in *. destruct (decide (i = j)) as [<-|Hne].
    + left. cbn. rewrite Hi. cbn. rewrite Hm. set_solver.
    + apply Hsame. cbn. destruct (inner q !! j); cbn; by rewrite lookup_insert_ne.
  - unfold register_interrupt in *. destruct (inner q !! j) as [u|] eqn:Hj; [|by apply Hsame].
    destruct (is_cancelled q u); cbn in *; [by apply Hsame|]. destruct (decide (i = j)) as [<-|Hne]; [|apply Hsame; by rewrite lookup_insert_ne].
    right; left. simplify_eq. eexists. cbn. by rewrite lookup_insert_eq.
  - unfold cancel in *. destruct (inner q !! j) as [u|] eqn:Hj; [|by apply Hsame]. destruct (decide (i = j)) as [<-|Hne].
    + left. simplify_eq. rewrite Hm. case_match; cbn; set_solver.
    + apply Hsame. case_match; cbn; [by rewrite lookup_insert_ne|by rewrite lookup_delete_ne].
  - unfold set_pool_key in *. destruct (inner q !! j) as [u|] eqn:Hj; [|by apply Hsame].
    destruct (decide (i = j)) as [<-|Hne]; [|apply Hsame; cbn; by rewrite lookup_insert_ne].
    right; left. simplify_eq. eexists. cbn. rewrite lookup_insert_eq. by rewrite Hm.
  - unfold remove in *. destruct (inner q !! j) as [u|] eqn:Hj; [|by apply Hsame]. destruct (Z.eqb_spec u.(registration_id) r) as [Hr|]; cbn [negb] in *; [|by apply Hsame].
    destruct (decide (i = j)) as [<-|Hne]; [|apply Hsame; destruct (remember_completion u); cbn; by rewrite lookup_delete_ne].
    right; right. simplify_eq. assert (t.(registration_id) ∉ q.(cancelled)) by (intros Hc; apply (inv_quiet _ Hinv _ _ Hi) in Hc; congruence).
    destruct (remember_completion t); cbn; (split_and!; [apply lookup_delete_eq|set_solver|done]).
  - unfold completed_execution_result in *. destruct (inner q !! j); by apply Hsame.
Qed.

(** C38. No interrupt handle is orphaned by a cancel through the registry.  In every
    reachable state, under any interleaving of registrations, cancels, removals and
    drivers handing over handles: a task whose own token was cancelled, by [cancel] or
    by a registration that took its id, holds no handle; a handle handed over is stored
    on a running task, from which a later [cancel] runs it, or runs at once; after
    [cancel] no task under that id holds a handle and one that arrives late runs at
    once; and a handle that a task holds leaves it in a further step only by running,
    by being replaced by another of the same task, or with a task that its owner removes
    and that was not cancelled.  Nothing is said of the cancellation of a parent token,
    which the registry does not see: the task keeps its handle until it is cancelled or
    removed ([parent_cancellation_runs_no_handle]). *)
Theorem interrupts_are_never_orphaned q i n :
  rtc step new_queries q ->
  (forall j t, q.(inner) !! j = Some t -> t.(registration_id) ∈ q.(cancelled) -> t.(interrupt) = None) /\
  (n ∈ (register_interrupt i n q).(fired) \/
   (exists t, (register_interrupt i n q).(inner) !! i = Some t /\ t.(interrupt) = Some n /\
      n ∈ (cancel i (register_interrupt i n q)).2.(fired))) /\
  (forall t, (cancel i q).2.(inner) !! i = Some t -> t.(interrupt) = None) /\
  n ∈ (register_interrupt i n (cancel i q).2).(fired) /\
  (forall q' j t m, step q q' -> q.(inner) !! j = Some t -> t.(interrupt) = Some m -> handle_kept q' j t m).
Proof.
  intros Hr. pose proof (inv_reachable _ Hr) as Hinv. split_and!.
  - apply Hinv.
  - unfold register_interrupt. destruct (inner q !! i) as [t|] eqn:Hi; [|left; simpl; set_solver].
    destruct (is_cancelled q t) eqn:Ec; simpl; [left; set_solver|]. right. eexists.
    rewrite lookup_insert_eq. split_and!; [done..|]. unfold cancel. simpl. rewrite lookup_insert_eq.
    case_match; simpl; set_solver.
  - unfold cancel. destruct (inner q !! i) as [t|] eqn:Hi; simpl; [|congruence].
    destruct (remember_completion t); simpl; intros u; [|by rewrite lookup_delete_eq].
    rewrite lookup_insert_eq. intros; by simplify_eq.
  - unfold cancel. destruct (inner q !! i) as [t|] eqn:Hi.
    + destruct (remember_completion t); simpl; unfold register_interrupt; simpl.
      * rewrite lookup_insert_eq. unfold is_cancelled. simpl. rewrite bool_decide_true by set_solver.
        simpl. set_solver.
      * rewrite lookup_delete_eq. simpl. set_solver.
    + unfold register_interrupt. simpl. rewrite Hi. simpl. set_solver.
  - intros q' j t m Hs. by apply (handle_step q).
Qed.

(** The counter never goes back. *)
Lemma next_step q q' : step q q' -> inv q -> (q.(next_registration_id) <= q'.(next_registration_id))%Z.
Proof.
  intros Hs Hinv. pose proof (inv_next _ Hinv). destruct Hs as [now i m rem ps q Hn| | | | | |]; try done.
  - unfold register_task_with_token. cbn [snd]. rewrite u64_succ_small by lia. case_match; simpl; lia.
  - unfold register_interrupt. by repeat case_match.
  - unfold cancel. by repeat case_match.
  - unfold set_pool_key. by repeat case_match.
  - unfold remove. by repeat case_match.
  - unfold completed_execution_result. by repeat case_match.
Qed.

Lemma next_steps q q' :
  rtc step q q' -> inv q -> inv q' /\ (q.(next_registration_id) <= q'.(next_registration_id))%Z.
Proof.
  induction 1 as [q|q q1 q2 Hs _ IH]; intros Hinv; [done|].
  pose proof (next_step _ _ Hs Hinv). destruct (IH (inv_step _ _ Hs Hinv)). split; [done|lia].
Qed.

(** A registration is the next number, under its id. *)
Lemma register_facts now i meta rem ps q g q' :
  inv q -> (q.(next_registration_id) + 1 < 2 ^ 64)%Z ->
  register_task_with_token now i meta rem ps q = (g, q') ->
  g = {| rq_execution_id := i; rq_registration_id := (q.(next_registration_id) + 1)%Z; rq_detached := false;
         rq_database_terminal := false |} /\
  q'.(next_registration_id) = (q.(next_registration_id) + 1)%Z /\
  exists t, q'.(inner) !! i = Some t /\ t.(registration_id) = (q.(next_registration_id) + 1)%Z.
Proof.
  intros Hinv Hn. pose proof (inv_next _ Hinv). unfold register_task_with_token.
  rewrite u64_succ_small by lia. intros; simplify_eq. split; [done|].
  split; [by case_match|]. eexists. case_match; simpl; by rewrite lookup_insert_eq.
Qed.

(** A guard removes its own registration only.  Whatever happens after an
    execution was registered, registering the same id again gives a different
    registration, and dropping the first guard, at any time, leaves the second
    one registered and unfinished. *)
Theorem guard_removes_only_its_own q q0 q1 q2 g1 g2 now1 now2 now3 i m1 m2 rem1 rem2 ps1 ps2 :
  rtc step new_queries q -> (q.(next_registration_id) + 1 < 2 ^ 64)%Z ->
  register_task_with_token now1 i m1 rem1 ps1 q = (g1, q0) -> rtc step q0 q1 ->
  (q1.(next_registration_id) + 1 < 2 ^ 64)%Z ->
  register_task_with_token now2 i m2 rem2 ps2 q1 = (g2, q2) ->
  g2.(rq_registration_id) <> g1.(rq_registration_id) /\
  drop_guard now3 g1 q2 = q2 /\
  exists t, q2.(inner) !! i = Some t /\ t.(registration_id) = g2.(rq_registration_id) /\
    t.(registration_id) ∉ q2.(finished).
Proof.
  intros Hr Hn E1 Hsteps Hn1 E2. pose proof (inv_reachable _ Hr) as Hinv.
  pose proof (inv_register now1 i m1 rem1 ps1 _ Hinv Hn) as Hinv0. rewrite E1 in Hinv0.
  destruct (register_facts _ _ _ _ _ _ _ _ Hinv Hn E1) as (-> & Hnext & _).
  destruct (next_steps _ _ Hsteps Hinv0) as [Hinv1 Hle].
  pose proof (inv_register now2 i m2 rem2 ps2 _ Hinv1 Hn1) as Hinv2. rewrite E2 in Hinv2.
  destruct (register_facts _ _ _ _ _ _ _ _ Hinv1 Hn1 E2) as (-> & _ & t & Ht & Hreg). simpl in *.
  split_and!; [lia| |].
  - unfold drop_guard, remove; simpl. rewrite Ht, Hreg.
    destruct (Z.eqb_spec (q1.(next_registration_id) + 1) (q.(next_registration_id) + 1)); [lia|done].
  - exists t. split_and!; [done..|]. by eapply inv_unfinished.
Qed.

(** Only the owner's guard can prove that an execution ended.  A step that
    makes a proven completion visible for an id is the removal of the live,
    remembered registration of that id with a database result that proves it;
    a registered execution is never reported terminal; and such a proof needs a
    result that is a success, an error of a statement that did not start or an
    SQL error of the execute stage, never a timeout or a lost connection. *)
Theorem completion_is_proved_by_owner q q' i at_ :
  rtc step new_queries q -> step q q' ->
  q.(completed) !! i <> Some (at_, true) -> q'.(completed) !! i = Some (at_, true) ->
  (exists t, q.(inner) !! i = Some t /\ t.(remember_completion) = true /\
     q' = remove at_ i t.(registration_id) true q) /\
  (forall now, (completed_execution_result now i q).1.(terminal) = false) /\
  (forall (m : string) st, database_terminal_of (T:=unit) (Err (ETimeout m)) = false /\
     database_terminal_of (T:=unit) (Err (EAgent AgentTransport)) = false /\
     database_terminal_of (T:=unit) (Err (ECanceled st OutcomeUnknown)) = false).
Proof.
  intros Hr Hs Hno Hyes. pose proof (inv_reachable _ Hr) as Hinv.
  enough (exists t, q.(inner) !! i = Some t /\ t.(remember_completion) = true /\
     q' = remove at_ i t.(registration_id) true q) as (t & Ht & Hrest).
  { split_and!; [by eauto| |done]. intros now. unfold completed_execution_result. by rewrite Ht. }
  destruct Hs as [now j meta rem ps q Hn|j n q|j q|j k q|now j r pr q|now j q|p q].
  - destruct Hno. unfold register_task_with_token in Hyes. cbn [snd] in Hyes.
    apply (retain_recent_Some now). destruct (inner q !! j); simpl in Hyes; by apply lookup_delete_Some in Hyes as [_ ?].
  - unfold register_interrupt in Hyes. by repeat case_match.
  - unfold cancel in Hyes. by repeat case_match.
  - unfold set_pool_key in Hyes. by repeat case_match.
  - unfold remove in Hyes. destruct (inner q !! j) as [t|] eqn:Hj; [|done].
    destruct (Z.eqb_spec (registration_id t) r) as [<-|]; [|done]. simpl in Hyes.
    destruct (remember_completion t) eqn:Er; simpl in Hyes; [|done].
    apply lookup_insert_Some in Hyes as [[-> ?]|[_ ?]]; [|done]. simplify_eq. by exists t.
  - unfold completed_execution_result in Hyes. destruct (inner q !! j); [done|]. simpl in Hyes.
    by apply retain_recent_Some in Hyes.
  - done.
Qed.

(** ** Cancelling many *)

(** What [cancel] leaves of a task. *)
Definition after_cancel (t : RunningTask) : option RunningTask :=
  if t.(remember_completion) then Some (take_interrupt t) else None.

Lemma cancel_found i t q :
  q.(inner) !! i = Some t ->
  (cancel i q).1 = true /\
  (cancel i q).2.(inner) = partial_alter (fun _ => after_cancel t) i q.(inner) /\
  (cancel i q).2.(cancelled) = {[t.(registration_id)]} ∪ q.(cancelled) /\
  (cancel i q).2.(finished) =
    (if t.(remember_completion) then q.(finished) else {[t.(registration_id)]} ∪ q.(finished)) /\
  (cancel i q).2.(fired) = q.(fired) ++ option_list t.(interrupt).
Proof. intros Hi. unfold cancel, after_cancel. rewrite Hi. by destruct (remember_completion t). Qed.

Lemma cancel_ids_spec ids q :
  NoDup ids -> (forall i, i ∈ ids -> is_Some (q.(inner) !! i)) ->
  let '(n, q') := cancel_ids ids q in
  n = length ids /\
  (forall j, j ∉ ids -> q'.(inner) !! j = q.(inner) !! j) /\
  (q.(cancelled) ⊆ q'.(cancelled) /\ q.(finished) ⊆ q'.(finished) /\ (forall k, k ∈ q.(fired) -> k ∈ q'.(fired))) /\
  (forall j t, j ∈ ids -> q.(inner) !! j = Some t ->
     q'.(inner) !! j = after_cancel t /\ t.(registration_id) ∈ q'.(cancelled) /\
     (t.(remember_completion) = false -> t.(registration_id) ∈ q'.(finished)) /\
     (forall k, t.(interrupt) = Some k -> k ∈ q'.(fired))).
Proof.
  revert q. induction ids as [|i ids IH]; intros q Hnd Hsome; simpl.
  { split_and!; try done; intros; set_solver. }
  apply NoDup_cons in Hnd as [Hi Hnd]. destruct (Hsome i) as [t Ht]; [set_solver|].
  destruct (cancel_found i t q Ht) as (Hb & Hin & Hcan & Hfin & Hfired).
  destruct (cancel i q) as [b q1]. simpl in *. subst b.
  assert (Hother : forall j, j <> i -> q1.(inner) !! j = q.(inner) !! j).
  { intros j Hj. rewrite Hin. by apply lookup_partial_alter_ne. }
  specialize (IH q1 Hnd). destruct (cancel_ids ids q1) as [n q'].
  destruct IH as (-> & Hsame & (Hsub1 & Hsub2 & Hsub3) & Hhit).
  { intros j Hj. rewrite Hother; [apply Hsome; set_solver|]. set_solver. }
  split_and!.
  - done.
  - intros j Hj. rewrite Hsame by set_solver. apply Hother. set_solver.
  - set_solver.
  - rewrite Hfin in Hsub2. destruct (remember_completion t); set_solver.
  - intros k Hk. apply Hsub3. rewrite Hfired. apply elem_of_app. by left.
  - intros j u Hj Hu. destruct (decide (j = i)) as [->|Hne].
    + simplify_eq. rewrite Hsame by done. rewrite Hin, lookup_partial_alter_eq. split_and!; [done|set_solver|..].
      * intros Hrem. rewrite Hrem in Hfin. set_solver.
      * intros k Hk. apply Hsub3. rewrite Hfired, Hk. set_solver.
    + apply Hhit; [set_solver|]. by rewrite Hother.
Qed.

Lemma elem_of_matching_ids predicate q i :
  i ∈ matching_ids predicate q <-> exists t, q.(inner) !! i = Some t /\ predicate t = true.
Proof.
  unfold matching_ids. rewrite list_elem_of_fmap. split.
  - intros ([j t] & -> & [Hin Hp]%elem_of_bool_filter). exists t. split; [by apply elem_of_map_to_list|done].
  - intros (t & Ht & Hp). exists (i, t). split; [done|]. apply elem_of_bool_filter.
    split; [by apply elem_of_map_to_list|done].
Qed.

(** [cancel_matching], and with it cancelling a connection, a client session
    or an owner scope, reaches exactly the matching tasks: each of them has its
    token cancelled and its interrupt run, and is gone and reported complete
    unless its completion must be remembered, in which case it stays registered
    without a handle; every other task is as before; and the count returned is
    the number of matches. *)
Theorem cancel_matching_is_exact predicate q n q' :
  cancel_matching predicate q = (n, q') ->
  n = length (List.filter predicate (map_to_list q.(inner)).*2) /\
  forall i, match q.(inner) !! i with
  | None => q'.(inner) !! i = None
  | Some t =>
    if predicate t then
      q'.(inner) !! i = after_cancel t /\ t.(registration_id) ∈ q'.(cancelled) /\
      (t.(remember_completion) = false -> t.(registration_id) ∈ q'.(finished)) /\
      (forall k, t.(interrupt) = Some k -> k ∈ q'.(fired))
    else q'.(inner) !! i = Some t
  end.
Proof.
  intros Hc. unfold cancel_matching in Hc.
  pose proof (cancel_ids_spec (matching_ids predicate q) q) as Hs. rewrite Hc in Hs.
  destruct Hs as (-> & Hsame & _ & Hhit).
  { apply NoDup_map_filter, (NoDup_fst_map_to_list q.(inner)). }
  { intros i (t & Ht & _)%elem_of_matching_ids. by exists t. }
  split.
  - unfold matching_ids. rewrite length_map. generalize (map_to_list q.(inner)). clear.
    induction l as [|[i t] l IH]; simpl; [done|]. destruct (predicate t); simpl; by rewrite IH.
  - intros i. destruct (inner q !! i) as [t|] eqn:Ht.
    + destruct (predicate t) eqn:Ep; [apply Hhit; [apply elem_of_matching_ids; eauto|done]|].
      rewrite Hsame; [done|]. intros (u & Hu & Hp)%elem_of_matching_ids. congruence.
    + rewrite Hsame; [done|]. intros (u & Hu & Hp)%elem_of_matching_ids. congruence.
Qed.

(** [cancel_and_wait] reports a cancelled execution as terminal only when it
    is over: if the registration the caller waits for is still the registered
    one when the cancel runs, a [terminal] reply to a request means that this
    registration has completed and is no longer in the registry, whatever other
    tasks did meanwhile. *)
Theorem cancel_and_wait_terminal_means_over now i before_cancel during_wait q r q' t :
  rtc step new_queries q -> q.(inner) !! i = Some t ->
  rtc step q (before_cancel q) ->
  (exists t1, (before_cancel q).(inner) !! i = Some t1 /\ t1.(registration_id) = t.(registration_id)) ->
  rtc step (cancel i (before_cancel q)).2 (during_wait (cancel i (before_cancel q)).2) ->
  cancel_and_wait now i before_cancel during_wait q = (r, q') ->
  r.(requested) = true /\
  (r.(terminal) = true -> t.(registration_id) ∈ q'.(finished) /\
     forall j u, q'.(inner) !! j = Some u -> u.(registration_id) <> t.(registration_id)).
Proof.
  intros Hr Ht Hsteps (t1 & Ht1 & Hreg) Hwait. unfold cancel_and_wait. rewrite Ht.
  destruct (cancel_found i t1 _ Ht1) as (Hb & _). destruct (cancel i (before_cancel q)) as [b q1] eqn:Ec.
  cbn [fst snd] in *. subst b. simpl.
  assert (Hinv : inv (during_wait q1)).
  { eapply next_steps; [exact Hwait|]. pose proof (inv_cancel i (before_cancel q)) as Hi. rewrite Ec in Hi.
    apply Hi. eapply next_steps; [exact Hsteps|]. by apply inv_reachable. }
  destruct (completed_execution_result now i (during_wait q1)) as [r2 q2] eqn:Er. intros; simplify_eq/=.
  split; [done|]. intros Hf%bool_decide_eq_true.
  assert (q'.(inner) = (during_wait q1).(inner) /\ q'.(finished) = (during_wait q1).(finished)) as [-> ->].
  { unfold completed_execution_result in Er. case_match; by simplify_eq. }
  split; [done|]. intros j u Hj He. rewrite <- He in Hf. by apply (inv_unfinished _ Hinv _ _ Hj) in Hf.
Qed.

Module RunningDemo.

Definition one : RegisteredQuery * RunningQueries :=
  register_task_with_token 0 "e1" (query_metadata (txt "c1") (txt "db") (Some (txt "tab-1:count"))) true [] new_queries.

Lemma reaches_one : rtc step new_queries one.2.
Proof. apply rtc_once. apply step_register. reflexivity. Qed.

Example metadata_of_session :
  let m := query_metadata (txt "c1") (txt "db") (Some (txt " tab-1:COUNT ")) in
  m.(kind) = KCount /\ m.(owner_scope) = Some (txt "tab-1").
Proof. split; vm_compute; reflexivity. Qed.

Lemma interrupts_are_never_orphaned_witness :
  exists t, one.2.(inner) !! "e1" = Some t /\
  (5 ∈ (register_interrupt "e1" 5 one.2).(fired) \/
   (exists t, (register_interrupt "e1" 5 one.2).(inner) !! "e1" = Some t /\ t.(interrupt) = Some 5 /\
      5 ∈ (cancel "e1" (register_interrupt "e1" 5 one.2)).2.(fired))) /\
  5 ∈ (register_interrupt "e1" 5 (cancel "e1" one.2).2).(fired).
Proof.
  eexists. split; [vm_compute; reflexivity|].
  destruct (interrupts_are_never_orphaned one.2 "e1" 5 reaches_one) as (_ & H1 & _ & H2 & _). exact (conj H1 H2).
Defined.

(** The parent token of a controlled write is cancelled after its driver handed over a
    handle: the task is cancelled, and the handle has not run. *)
Definition child : RunningQueries := (register_task_with_token 0 "e1" default_metadata true [7] new_queries).2.
Definition parent_cancelled (q : RunningQueries) (p : nat) : RunningQueries :=
  {| inner := q.(inner); completed := q.(completed); next_registration_id := q.(next_registration_id); cancelled := q.(cancelled);
     parents_cancelled := {[p]} ∪ q.(parents_cancelled); finished := q.(finished); fired := q.(fired) |}.

Example parent_cancellation_runs_no_handle :
  let q := parent_cancelled (register_interrupt "e1" 5 child) 7 in
  rtc step new_queries q /\ q.(fired) = [] /\
  (exists t, q.(inner) !! "e1" = Some t /\ is_cancelled q t = true /\ t.(interrupt) = Some 5).
Proof.
  cbv zeta. split_and!; [|by vm_compute|eexists; split_and!; vm_compute; reflexivity].
  eapply rtc_l; [by apply (step_register 0 "e1" default_metadata true [7])|]. eapply rtc_l; [apply (step_interrupt "e1" 5)|]. apply rtc_once, (step_parent 7).
Qed.

Definition two : RegisteredQuery * RunningQueries :=
  register_task_with_token 1 "e1" default_metadata false [] (cancel "e1" one.2).2.

Lemma guard_removes_only_its_own_witness :
  drop_guard 2 one.1 two.2 = two.2 /\
  exists t, two.2.(inner) !! "e1" = Some t /\ t.(registration_id) = 2%Z.
Proof.
  destruct (guard_removes_only_its_own new_queries one.2 (cancel "e1" one.2).2 two.2 one.1 two.1 0 1 2 "e1"
    (query_metadata (txt "c1") (txt "db") (Some (txt "tab-1:count"))) default_metadata true false [] [])
    as (_ & Hd & t & Ht & Hreg & _).
  - apply rtc_refl.
  - reflexivity.
  - reflexivity.
  - apply rtc_once, step_cancel.
  - reflexivity.
  - reflexivity.
  - split; [exact Hd|]. exists t. split; [exact Ht|]. rewrite Hreg. reflexivity.
Defined.

Lemma completion_is_proved_by_owner_witness :
  (exists t, one.2.(inner) !! "e1" = Some t /\ t.(remember_completion) = true /\
     remove 9 "e1" 1 true one.2 = remove 9 "e1" t.(registration_id) true one.2) /\
  (forall now, (completed_execution_result now "e1" one.2).1.(terminal) = false).
Proof.
  destruct (completion_is_proved_by_owner one.2 (remove 9 "e1" 1 true one.2) "e1" 9) as (H1 & H2 & _).
  - apply reaches_one.
  - apply step_remove.
  - vm_compute. discriminate.
  - vm_compute. reflexivity.
  - exact (conj H1 H2).
Defined.

Lemma cancel_matching_is_exact_witness :
  (cancel_connection (txt "c1") one.2).1 = 1.
Proof.
  transitivity (length (List.filter (fun t => bool_decide (t.(metadata).(connection_id) = Some (txt "c1")))
    (map_to_list one.2.(inner)).*2)); [|vm_compute; reflexivity].
  apply (cancel_matching_is_exact _ one.2 _ (cancel_connection (txt "c1") one.2).2).
  vm_compute. reflexivity.
Defined.

Definition owner_ends (q : RunningQueries) : RunningQueries := remove 3 "e1" 1 true q.
Definition waited := cancel_and_wait 4 "e1" (fun q => q) owner_ends one.2.

Lemma cancel_and_wait_terminal_means_over_witness :
  waited.1.(terminal) = true /\ 1%Z ∈ waited.2.(finished) /\
  forall j u, waited.2.(inner) !! j = Some u -> u.(registration_id) <> 1%Z.
Proof.
  split; [vm_compute; reflexivity|].
  destruct (cancel_and_wait_terminal_means_over 4 "e1" (fun q => q) owner_ends one.2 waited.1 waited.2
    {| registration_id := 1; token_parents := []; remember_completion := true;
       metadata := query_metadata (txt "c1") (txt "db") (Some (txt "tab-1:count")); pool_key := None;
       interrupt := None |}) as [_ H1].
  - apply reaches_one.
  - vm_compute. reflexivity.
  - apply rtc_refl.
  - eexists. split; [vm_compute; reflexivity|reflexivity].
  - apply rtc_once. apply step_remove.
  - vm_compute. reflexivity.
  - apply H1. vm_compute. reflexivity.
Defined.

End RunningDemo.
