(* ===== verification/Supervision.v ===== *)
(** * Background tasks, write windows and progress events

    Three small stateful components of [crates/dbx-core/src]:
    [connection/task_supervisor.rs] ([TaskSupervisor]),
    [safety/write_unlock.rs] ([WriteUnlock]) and
    [query/batch_progress.rs] ([BatchProgress]). *)

From S2P Require Import Prelude.

(** ** Task supervisor

    Tasks are numbers, in the order they are spawned.  [Finishing key] is a
    [spawn_once] task whose body has returned and that is about to remove its
    key; an abort has no effect on it, since it does not await any more. *)

Module TaskSupervisor.

Inductive task_state := Running (once : option string) | Finishing (key : string) | Ended.

#[global] Instance task_state_eq_dec : EqDecision task_state.
Proof. solve_decision. Defined.

Record t := {
  accepting : bool;
  cancellation : bool;
  tasks : gmap string nat;
  states : list task_state;
  aborted : gset nat;
}.

Definition new : t := {| accepting := true; cancellation := false; tasks := ∅; states := []; aborted := ∅ |}.

Definition spawn_replace (key : string) (s : t) : bool * t :=
  if negb s.(accepting) then (false, s)
  else
    let handle := length s.(states) in
    (true, {| accepting := s.(accepting); cancellation := s.(cancellation);
              tasks := <[key := handle]> s.(tasks); states := s.(states) ++ [Running None];
              aborted := match s.(tasks) !! key with Some previous => {[previous]} ∪ s.(aborted) | None => s.(aborted) end |}).

Definition spawn_once (key : string) (s : t) : bool * t :=
  if negb s.(accepting) || bool_decide (is_Some (s.(tasks) !! key)) then (false, s)
  else
    (true, {| accepting := s.(accepting); cancellation := s.(cancellation);
              tasks := <[key := length s.(states)]> s.(tasks); states := s.(states) ++ [Running (Some key)];
              aborted := s.(aborted) |}).

(** [stop], and [stop_and_wait] up to its wait. *)
Definition stop (key : string) (s : t) : t :=
  match s.(tasks) !! key with
  | None => s
  | Some task => {| accepting := s.(accepting); cancellation := s.(cancellation); tasks := delete key s.(tasks);
                    states := s.(states); aborted := {[task]} ∪ s.(aborted) |}
  end.

Definition stop_many (keys : list string) (s : t) : t := foldl (fun s k => stop k s) s keys.

Definition active_count (s : t) : nat := size s.(tasks).

Definition remove_completed (key : string) (s : t) : t :=
  {| accepting := s.(accepting); cancellation := s.(cancellation); tasks := delete key s.(tasks);
     states := s.(states); aborted := s.(aborted) |}.

(** The two halves of [shutdown]: refuse new work and cancel, then take every
    handle; the handles abort their tasks when the wait ends or is dropped. *)
Definition shutdown_begin (s : t) : t :=
  {| accepting := false; cancellation := true; tasks := s.(tasks); states := s.(states); aborted := s.(aborted) |}.

Definition shutdown_drain (s : t) : t :=
  {| accepting := s.(accepting); cancellation := s.(cancellation); tasks := ∅; states := s.(states);
     aborted := list_to_set (map_to_list s.(tasks)).*2 ∪ s.(aborted) |}.

Definition set_state (n : nat) (x : task_state) (s : t) : t :=
  {| accepting := s.(accepting); cancellation := s.(cancellation); tasks := s.(tasks);
     states := <[n := x]> s.(states); aborted := s.(aborted) |}.

Inductive step : t -> t -> Prop :=
| step_spawn_replace key s : step s (spawn_replace key s).2
| step_spawn_once key s : step s (spawn_once key s).2
| step_stop key s : step s (stop key s)
| step_body_done n s : s.(states) !! n = Some (Running None) -> step s (set_state n Ended s)
| step_once_done n key s : s.(states) !! n = Some (Running (Some key)) -> step s (set_state n (Finishing key) s)
| step_remove n key s : s.(states) !! n = Some (Finishing key) -> step s (remove_completed key (set_state n Ended s))
| step_abort n o s : s.(states) !! n = Some (Running o) -> n ∈ s.(aborted) -> step s (set_state n Ended s)
| step_shutdown s : step s (shutdown_begin s)
| step_drain s : s.(accepting) = false -> step s (shutdown_drain s).

(** After the drain of a shutdown. *)
Definition closed (s : t) : Prop := s.(accepting) = false /\ s.(cancellation) = true /\ s.(tasks) = ∅.

Lemma closed_step s s' : step s s' -> closed s -> closed s'.
Proof.
  intros Hs (Ha & Hc & Ht). destruct Hs; unfold closed; simpl; try done.
  - unfold spawn_replace. by rewrite Ha.
  - unfold spawn_once. by rewrite Ha.
  - unfold stop. by rewrite Ht, lookup_empty.
  - by rewrite Ht, delete_empty.
Qed.

Lemma accepting_step s s' : step s s' -> s.(accepting) = false -> s'.(accepting) = false.
Proof.
  destruct 1; intros Ha; simpl; try done.
  - unfold spawn_replace. by rewrite Ha.
  - unfold spawn_once. by rewrite Ha.
  - unfold stop. by case_match.
Qed.

(** Shutdown is final: once its drain has run, under every interleaving with
    spawns and completions that were in flight, the registry is empty and stays
    empty, every handle the drain found is aborted, and no spawn is accepted any
    more. *)
Theorem shutdown_is_final s s1 s2 :
  rtc step (shutdown_begin s) s1 -> rtc step (shutdown_drain s1) s2 ->
  active_count s2 = 0 /\ (forall key, (spawn_replace key s2).1 = false /\ (spawn_once key s2).1 = false) /\
  (forall key n, s1.(tasks) !! key = Some n -> n ∈ (shutdown_drain s1).(aborted)).
Proof.
  intros H1 H2. assert (Hacc : s1.(accepting) = false /\ s1.(cancellation) = true).
  { assert (Hgen : forall a b, rtc step a b -> a.(accepting) = false /\ a.(cancellation) = true ->
      b.(accepting) = false /\ b.(cancellation) = true); [|by eapply Hgen].
    induction 1 as [|a b c Hab _ IH]; [done|]. intros [Ha Hc]. apply IH.
    split; [by eapply accepting_step|]. destruct Hab; simpl; try done.
    - unfold spawn_replace. by rewrite Ha.
    - unfold spawn_once. by rewrite Ha.
    - unfold stop. by case_match. }
  assert (Hcl : closed s2).
  { assert (Hgen : forall a b, rtc step a b -> closed a -> closed b); [|by eapply Hgen; [exact H2|]; destruct Hacc].
    induction 1; eauto using closed_step. }
  destruct Hcl as (Ha & _ & Ht). split_and!.
  - unfold active_count. by rewrite Ht, map_size_empty.
  - intros key. unfold spawn_replace, spawn_once. by rewrite Ha.
  - intros key n Hn. simpl. apply elem_of_union_l, elem_of_list_to_set, list_elem_of_fmap.
    exists (key, n). split; [done|]. by apply elem_of_map_to_list.
Qed.

(** Without a [spawn_once] task that is finishing, the registry is complete:
    every task that runs and was not aborted is reachable in it. *)
Definition supervised (s : t) : Prop :=
  forall n o, s.(states) !! n = Some (Running o) -> n ∉ s.(aborted) -> exists key, s.(tasks) !! key = Some n.

(** A finishing one-shot task can drop its successor: there is a run without
    a shutdown in which a key is stopped and used again between the end of a
    [spawn_once] task and its [remove_completed], and the new task is removed
    from the registry although it runs and was never aborted, so that neither
    [stop] nor [shutdown] reaches it. *)
Theorem spawn_once_may_unregister_successor :
  exists s, rtc step new s /\ s.(accepting) = true /\ s.(tasks) = ∅ /\
    s.(states) = [Ended; Running (Some "k"%string)] /\ (1 ∉ (shutdown_drain (shutdown_begin s)).(aborted)) /\
    ~ supervised s.
Proof.
  set (s1 := (spawn_once "k" new).2). set (s2 := set_state 0 (Finishing "k") s1).
  set (s3 := stop "k" s2). set (s4 := (spawn_once "k" s3).2).
  exists (remove_completed "k" (set_state 0 Ended s4)). split_and!; try by vm_compute.
  - eapply rtc_l; [apply (step_spawn_once "k")|].
    eapply rtc_l; [apply (step_once_done 0 "k"); reflexivity|].
    eapply rtc_l; [apply (step_stop "k")|].
    eapply rtc_l; [apply (step_spawn_once "k")|].
    apply rtc_once. apply step_remove. vm_compute. reflexivity.
  - vm_compute. intros Hs. destruct (Hs 1 (Some "k"%string)) as [key Hk]; [reflexivity| |].
    + intros H1. by vm_compute in H1.
    + revert Hk. change (lookup (M := gmap string nat) key ∅ = Some 1 -> False). by rewrite lookup_empty.
Qed.

End TaskSupervisor.

(** ** Write-unlock windows

    Instants are nanoseconds on the monotonic clock.  [owner] is the credential
    owner of the calling task ([current_credential_owner()]). *)

Module WriteUnlock.

Definition WRITE_UNLOCK_ONE_MINUTE_SECS : Z := 60.
Definition WRITE_UNLOCK_FIVE_MINUTES_SECS : Z := 300.

Abbreviation key := (text * text)%type.

(** [WriteUnlockKey::current]. *)
Definition current (owner : option text) (connection_id : text) : key := (default [] owner, connection_id).

Abbreviation t := (gmap key Z).

Definition parse_duration_secs (secs : Z) : result Z string :=
  if (secs =? WRITE_UNLOCK_ONE_MINUTE_SECS)%Z then Ok WRITE_UNLOCK_ONE_MINUTE_SECS
  else if (secs =? WRITE_UNLOCK_FIVE_MINUTES_SECS)%Z then Ok WRITE_UNLOCK_FIVE_MINUTES_SECS
  else Err "Write unlock duration must be 1 minute or 5 minutes.".

Definition is_empty (s : text) : bool := match s with [] => true | _ => false end.

Definition unlock (now : Z) (owner : option text) (connection_id : text) (duration_secs : Z) (w : t)
    : result Z string * t :=
  if is_empty (trim connection_id) then (Err "Connection id is required.", w)
  else match parse_duration_secs duration_secs with
  | Err e => (Err e, w)
  | Ok duration =>
    (Ok (duration * 1000)%Z, <[current owner connection_id := (now + duration * 1000000000)%Z]> w)
  end.

Definition lock (owner : option text) (connection_id : text) (w : t) : t := delete (current owner connection_id) w.

(** The two lock acquisitions of [remaining_ms]: the expiry is read under the
    read lock; an expired window is removed under the write lock. *)
Definition read_expiry (owner : option text) (connection_id : text) (w : t) : option Z :=
  w !! current owner connection_id.

Definition remaining_ms_from (expires_at now : Z) (k : key) (w : t) : Z * t :=
  if (expires_at <=? now)%Z then (0%Z, delete k w) else (((expires_at - now) / 1000000)%Z, w).

(** [remaining_ms] when nothing comes between the two. *)
Definition remaining_ms (now : Z) (owner : option text) (connection_id : text) (w : t) : Z * t :=
  match read_expiry owner connection_id w with
  | None => (0%Z, w)
  | Some expires_at => remaining_ms_from expires_at now (current owner connection_id) w
  end.

Definition is_active (now : Z) (owner : option text) (connection_id : text) (w : t) : bool * t :=
  let '(ms, w) := remaining_ms now owner connection_id w in ((0 <? ms)%Z, w).

Inductive op := Unlock (owner : option text) (conn : text) (secs : Z) | Lock (owner : option text) (conn : text)
  | Query (owner : option text) (conn : text).

Definition apply_op (now : Z) (x : op) (w : t) : t :=
  match x with
  | Unlock o c secs => (unlock now o c secs w).2
  | Lock o c => lock o c w
  | Query o c => (remaining_ms now o c w).2
  end.

(** Operations with the instants they run at; the clock does not go back. *)
Inductive reaches : Z -> t -> Prop :=
| reaches_new now : reaches now ∅
| reaches_op now now' x w : reaches now w -> (now <= now')%Z -> reaches now' (apply_op now' x w).

(** The last effective [unlock] of the key set its expiry, at most five minutes ahead. *)
Lemma reaches_bound now w k e : reaches now w -> w !! k = Some e -> (e <= now + 300 * 1000000000)%Z.
Proof.
  intros Hr. revert e. induction Hr as [|now now' x w Hr IH Hle]; intros e; [by rewrite lookup_empty|].
  assert (Hold : w !! k = Some e -> (e <= now' + 300 * 1000000000)%Z) by (intros Hk%IH; lia).
  destruct x as [o c secs|o c|o c]; simpl.
  - unfold unlock. destruct (is_empty _); [done|]. unfold parse_duration_secs.
    unfold WRITE_UNLOCK_ONE_MINUTE_SECS, WRITE_UNLOCK_FIVE_MINUTES_SECS.
    repeat case_match; simplify_eq/=; try done; rewrite lookup_insert_Some; intros [[_ <-]|[_ ?]]; auto; lia.
  - unfold lock. rewrite lookup_delete_Some. intros [_ ?]. auto.
  - unfold remaining_ms, remaining_ms_from. repeat case_match; simplify_eq/=; try done.
    rewrite lookup_delete_Some. intros [_ ?]. auto.
Qed.

(** A write window is exactly as long as asked for and belongs to one owner
    and connection: an accepted [unlock] is for one or five minutes and makes
    [is_active] true for that owner and connection precisely until less than a
    millisecond is left; it changes no other window; and whatever was called
    before, no window ever reaches further than five minutes ahead. *)
Theorem write_unlock_window now w owner conn secs ms w' later :
  reaches now w -> (now <= later)%Z -> unlock now owner conn secs w = (Ok ms, w') ->
  (secs = 60 \/ secs = 300)%Z /\ ms = (secs * 1000)%Z /\
  ((is_active later owner conn w').1 = true <-> (later + 1000000 <= now + secs * 1000000000)%Z) /\
  (forall owner' conn', current owner' conn' <> current owner conn ->
     (is_active later owner' conn' w').1 = (is_active later owner' conn' w).1) /\
  (forall owner' conn', (remaining_ms later owner' conn' w').1 <= 300 * 1000)%Z.
Proof.
  intros Hr Hle Hu. pose proof (reaches_op now now (Unlock owner conn secs) w Hr ltac:(lia)) as Hr'.
  simpl in Hr'. rewrite Hu in Hr'. simpl in Hr'. unfold unlock in Hu.
  destruct (is_empty (trim conn)); [done|]. destruct (parse_duration_secs secs) as [d|] eqn:Ed; [|done].
  assert ((secs = 60 \/ secs = 300)%Z /\ d = secs) as [Hsecs ->].
  { unfold parse_duration_secs, WRITE_UNLOCK_ONE_MINUTE_SECS, WRITE_UNLOCK_FIVE_MINUTES_SECS in Ed.
    destruct (Z.eqb_spec secs 60); simplify_eq; [auto|]. destruct (Z.eqb_spec secs 300); simplify_eq. auto. }
  simplify_eq. split_and!; [done|done|..].
  - unfold is_active, remaining_ms, read_expiry, remaining_ms_from. rewrite lookup_insert_eq.
    destruct (Z.leb_spec (now + secs * 1000000000) later); simpl; [split; [done|lia]|].
    rewrite Z.ltb_lt. split; intros Hq.
    + assert (1 <= (now + secs * 1000000000 - later) / 1000000)%Z by lia.
      pose proof (Z.mul_div_le (now + secs * 1000000000 - later) 1000000 ltac:(lia)). lia.
    + apply Z.div_str_pos. lia.
  - intros owner' conn' Hne. unfold is_active, remaining_ms, read_expiry. rewrite lookup_insert_ne by done.
    destruct (w !! current owner' conn'); [|done]. unfold remaining_ms_from. by destruct (_ <=? _)%Z.
  - intros owner' conn'. unfold remaining_ms, read_expiry.
    destruct (_ !! current owner' conn') as [e|] eqn:Ee; simpl; [|lia].
    apply (reaches_bound _ _ _ _ Hr') in Ee. unfold remaining_ms_from.
    case_match; simpl; [lia|]. apply Z.div_le_upper_bound; lia.
Qed.

(** A status check can close a window it never saw: when a window has
    expired and is unlocked again between the two lock acquisitions of a
    [remaining_ms] call, that call removes the new window, so the connection is
    read-only again although its owner was just granted five minutes. *)
Theorem remaining_ms_may_drop_new_window owner conn now expires_at w :
  is_empty (trim conn) = false -> read_expiry owner conn w = Some expires_at -> (expires_at <= now)%Z ->
  let granted := (unlock now owner conn 300 w).2 in
  (is_active now owner conn granted).1 = true /\
  (is_active now owner conn (remaining_ms_from expires_at now (current owner conn) granted).2).1 = false.
Proof.
  intros He Hr Hexp. unfold unlock. rewrite He. simpl. split.
  - unfold is_active, remaining_ms, read_expiry, remaining_ms_from. rewrite lookup_insert_eq.
    unfold WRITE_UNLOCK_FIVE_MINUTES_SECS. destruct (Z.leb_spec (now + 300 * 1000000000) now); [lia|].
    apply Z.ltb_lt. apply Z.div_str_pos. lia.
  - unfold remaining_ms_from. rewrite (proj2 (Z.leb_le _ _) Hexp). simpl.
    unfold is_active, remaining_ms, read_expiry. by rewrite lookup_delete_eq.
Qed.

End WriteUnlock.

(** ** Coalesced progress events *)

Module BatchProgress.
Section BatchProgress.

(** [BackendError], which is only passed on. *)
Context {E : Type}.

Record ExecuteMultiProgress := {
  statement_index : nat;
  p_completed : nat;
  p_total : nat;
  success : bool;
  execution_time_ms : Z;
  affected_rows : Z;
  p_error : option E;
}.

(** [pending] and what was emitted so far. *)
Record ProgressCoalescer := { pending : option ExecuteMultiProgress; emitted : list ExecuteMultiProgress }.

Definition report (p : ExecuteMultiProgress) (c : ProgressCoalescer) : ProgressCoalescer :=
  if success p then {| pending := Some p; emitted := emitted c |}
  else {| pending := None; emitted := emitted c ++ option_list (pending c) ++ [p] |}.

Definition flush (c : ProgressCoalescer) : ProgressCoalescer :=
  {| pending := None; emitted := emitted c ++ option_list (pending c) |}.

(** What happens while the batch runs: a statement is reported, or the interval
    of [EXECUTE_MULTI_PROGRESS_EMIT_INTERVAL] ends. *)
Inductive event := Report (p : ExecuteMultiProgress) | Tick.

Definition handle (c : ProgressCoalescer) (e : event) : ProgressCoalescer :=
  match e with Report p => report p c | Tick => flush c end.

(** [with_coalesced_execute_multi_progress]: the events of the run, then the
    flush of the last turn of the loop. *)
Definition with_coalesced_execute_multi_progress (events : list event) : list ExecuteMultiProgress :=
  emitted (flush (foldl handle {| pending := None; emitted := [] |} events)).

Definition reported (events : list event) : list ExecuteMultiProgress :=
  omap (fun e => match e with Report p => Some p | Tick => None end) events.

(** What the consumer has been told or will be told at the next flush. *)
Definition told (c : ProgressCoalescer) : list ExecuteMultiProgress := emitted c ++ option_list (pending c).

Definition is_failure (p : ExecuteMultiProgress) : bool := negb (success p).

(** The link between the reports so far and the coalescer. *)
Definition coalesced (rs : list ExecuteMultiProgress) (c : ProgressCoalescer) : Prop :=
  told c `sublist_of` rs /\ last (told c) = last rs /\
  List.filter is_failure (told c) = List.filter is_failure rs /\
  (forall p, pending c = Some p -> success p = true).

Lemma no_failure o : (forall p, o = Some p -> success p = true) -> List.filter is_failure (option_list o) = [].
Proof. intros Ho. destruct o as [p|]; [|done]. simpl. unfold is_failure. by rewrite (Ho p eq_refl). Qed.

Lemma coalesced_step rs c e : coalesced rs c -> coalesced (rs ++ reported [e]) (handle c e).
Proof.
  intros (Hsub & Hlast & Hfail & Hpend). destruct e as [p|]; unfold coalesced; csimpl.
  - unfold report. destruct (success p) eqn:Es; unfold told; simpl; rewrite ?app_nil_r, ?last_snoc, ?List.filter_app.
    + split_and!; [|done| |by intros; simplify_eq].
      * apply sublist_app; [|done]. etrans; [|exact Hsub]. unfold told. apply sublist_inserts_r. done.
      * rewrite <- Hfail. unfold told. rewrite List.filter_app, (no_failure (pending c)) by done.
        by rewrite app_nil_r.
    + split_and!; try done.
      * rewrite app_assoc. by apply sublist_app.
      * by rewrite app_assoc, last_snoc.
      * rewrite <- Hfail. unfold told. by rewrite !List.filter_app, app_assoc.
  - unfold flush, told. simpl. rewrite !app_nil_r. by split_and!.
Qed.

(** Coalescing loses nothing the consumer needs: whatever the timing, the
    events forwarded are reported events in their order, every failure is among
    them, and the last one forwarded is the last one reported. *)
Theorem coalesced_progress_is_faithful events :
  let out := with_coalesced_execute_multi_progress events in
  out `sublist_of` reported events /\ last out = last (reported events) /\
  List.filter is_failure out = List.filter is_failure (reported events).
Proof.
  unfold with_coalesced_execute_multi_progress.
  assert (Hgen : forall rs c, coalesced rs c -> coalesced (rs ++ reported events) (foldl handle c events)).
  { induction events as [|e events IH]; intros rs c Hc; [simpl; by rewrite app_nil_r|]. cbn [foldl].
    assert (He : reported (e :: events) = reported [e] ++ reported events) by by destruct e.
    rewrite He, app_assoc. by apply IH, coalesced_step. }
  destruct (Hgen [] {| pending := None; emitted := [] |}) as (Hsub & Hlast & Hfail & _).
  { by split_and!. }
  simpl. by split_and!.
Qed.

End BatchProgress.
End BatchProgress.

(** ** Evaluation *)

Module SupervisionDemo.

Lemma shutdown_is_final_witness :
  TaskSupervisor.active_count (TaskSupervisor.shutdown_drain
    (TaskSupervisor.spawn_once "late" (TaskSupervisor.shutdown_begin (TaskSupervisor.spawn_replace "k" TaskSupervisor.new).2)).2)
  = 0.
Proof.
  eapply (TaskSupervisor.shutdown_is_final (TaskSupervisor.spawn_replace "k" TaskSupervisor.new).2);
    [|apply rtc_refl]. apply rtc_once. apply TaskSupervisor.step_spawn_once.
Defined.

Lemma write_unlock_window_witness :
  (WriteUnlock.is_active 59000000000 None (txt "c1") (WriteUnlock.unlock 0 None (txt "c1") 60 ∅).2).1 = true <->
  (59000000000 + 1000000 <= 0 + 60 * 1000000000)%Z.
Proof.
  apply (WriteUnlock.write_unlock_window 0 ∅ None (txt "c1") 60 60000
    (WriteUnlock.unlock 0 None (txt "c1") 60 ∅).2 59000000000).
  - apply WriteUnlock.reaches_new.
  - lia.
  - vm_compute. reflexivity.
Defined.

Lemma remaining_ms_may_drop_new_window_witness :
  let w := {[ WriteUnlock.current None (txt "c1") := 5%Z ]} in
  let granted := (WriteUnlock.unlock 10 None (txt "c1") 300 w).2 in
  (WriteUnlock.is_active 10 None (txt "c1") granted).1 = true /\
  (WriteUnlock.is_active 10 None (txt "c1")
     (WriteUnlock.remaining_ms_from 5 10 (WriteUnlock.current None (txt "c1")) granted).2).1 = false.
Proof.
  apply WriteUnlock.remaining_ms_may_drop_new_window; [vm_compute; reflexivity|vm_compute; reflexivity|lia].
Defined.

End SupervisionDemo.
