(* ===== verification/D1Sql.v ===== *)
(** * Cloudflare D1: lexing, guarding and sizing SQL

    Models [crates/dbx-drivers/src/db/cloudflare_d1/]: [sql_lexer.rs],
    [sql_guard.rs] and [sql_limits.rs].  SQL is its UTF-8 bytes, as the code
    scans it.  The index loops of the lexer are functions on the bytes that
    remain; [pos] is the index of the first of them. *)

From S2P Require Import Prelude.

(** ** Lexer *)

Inductive SqlLexeme : Type :=
| Word (w : text)
| Number (n : text)
| Symbol (b : Z)
| Semicolon (position : nat).

#[global] Instance SqlLexeme_eq_dec : EqDecision SqlLexeme.
Proof. solve_decision. Defined.

(** To the end of a line comment; the newline is left. *)
Fixpoint skip_line (s : text) : text :=
  match s with
  | [] => []
  | c :: rest => if (c =? 10)%Z then s else skip_line rest
  end.

(** Past the end of a block comment, or to the end of the text. *)
Fixpoint skip_block (s : text) : text :=
  match s with
  | a :: rest =>
    match rest with
    | b :: rest2 => if ((a =? 42) && (b =? 47))%Z then rest2 else skip_block rest
    | [] => []
    end
  | [] => []
  end.

(** Past the closing quote; a doubled quote stands for itself. *)
Fixpoint skip_quoted (quote : Z) (s : text) : text :=
  match s with
  | [] => []
  | c :: rest =>
    if negb (c =? quote)%Z then skip_quoted quote rest
    else match rest with
    | d :: rest2 => if (d =? quote)%Z then skip_quoted quote rest2 else rest
    | [] => []
    end
  end.

Definition is_word_start (c : Z) : bool := is_ascii_alphabetic c || (c =? 95)%Z.
Definition is_word_part (c : Z) : bool := is_ascii_alphanumeric c || (c =? 95)%Z || (c =? 36)%Z.
Definition is_symbol (c : Z) : bool :=
  ((c =? 40) || (c =? 41) || (c =? 61) || (c =? 46) || (c =? 44) || (c =? 45) || (c =? 43))%Z.
Definition is_quote (c : Z) : bool := ((c =? 39) || (c =? 34) || (c =? 96))%Z.

(** One turn of the lexer's loop on a non-empty rest: the lexeme it pushes, if
    any, and what remains. *)
Definition lex_turn (pos : nat) (c : Z) (rest : text) : option SqlLexeme * text :=
  if (c =? 45)%Z && at_is rest 0 45 then (None, skip_line (drop 1 rest))
  else if (c =? 47)%Z && at_is rest 0 42 then (None, skip_block (drop 1 rest))
  else if is_quote c then (None, skip_quoted c rest)
  else if (c =? 91)%Z then (None, skip_quoted 93 rest)
  else if (c =? 59)%Z then (Some (Semicolon pos), rest)
  else if is_ascii_digit c then let '(a, b) := span is_ascii_digit rest in (Some (Number (c :: a)), b)
  else if is_word_start c then let '(a, b) := span is_word_part rest in (Some (Word (c :: a)), b)
  else if is_symbol c then (Some (Symbol c), rest)
  else (None, rest).

(** Every turn consumes a byte, so the length of the text is enough fuel. *)
Fixpoint lex_from (fuel pos : nat) (s : text) : list SqlLexeme :=
  match fuel, s with
  | S fuel', c :: rest =>
    let '(lexeme, rest') := lex_turn pos c rest in
    option_list lexeme ++ lex_from fuel' (pos + (length s - length rest')) rest'
  | _, _ => []
  end.

Definition lex_sql (sql : text) : list SqlLexeme := lex_from (length sql) 0 sql.

(** ** Statements *)

Definition is_kw (w : text) (kw : string) : bool := eq_ignore_ascii_case w (txt kw).

Definition is_create_trigger_prefix (words : list text) : bool :=
  match words with
  | w0 :: w1 :: rest =>
    is_kw w0 "CREATE" &&
    (is_kw w1 "TRIGGER" ||
     ((is_kw w1 "TEMP" || is_kw w1 "TEMPORARY") &&
      match rest with w2 :: _ => is_kw w2 "TRIGGER" | [] => false end))
  | _ => false
  end.

Definition is_empty (s : text) : bool := match s with [] => true | _ => false end.

Definition push_statement (sql : text) (start stop : nat) (statements : list text) : list text :=
  let statement := trim (slice start stop sql) in
  if negb (is_empty statement) then statements ++ [statement] else statements.

(** The locals of [complete_sql_statements]. *)
Record splitter := {
  statements : list text;
  statement_start : nat;
  prefix : list text;
  is_trigger : bool;
  trigger_body_started : bool;
  trigger_depth : nat;
}.

Definition on_word (word : text) (s : splitter) : splitter :=
  let prefix' := if (length s.(prefix) <? 3)%nat then s.(prefix) ++ [word] else s.(prefix) in
  let is_trigger' := if (length s.(prefix) <? 3)%nat then is_create_trigger_prefix prefix' else s.(is_trigger) in
  let '(started, depth) :=
    if negb is_trigger' then (s.(trigger_body_started), s.(trigger_depth))
    else if negb s.(trigger_body_started) && is_kw word "BEGIN" then (true, 1)
    else if s.(trigger_body_started) && (is_kw word "BEGIN" || is_kw word "CASE")
         then (s.(trigger_body_started), S s.(trigger_depth))
    else if s.(trigger_body_started) && is_kw word "END"
         then (s.(trigger_body_started), s.(trigger_depth) - 1)
    else (s.(trigger_body_started), s.(trigger_depth)) in
  {| statements := s.(statements); statement_start := s.(statement_start); prefix := prefix';
     is_trigger := is_trigger'; trigger_body_started := started; trigger_depth := depth |}.

Definition in_trigger_body (s : splitter) : bool :=
  s.(is_trigger) && s.(trigger_body_started) && (0 <? s.(trigger_depth))%nat.

Definition on_semicolon (sql : text) (position : nat) (s : splitter) : splitter :=
  if in_trigger_body s then s
  else {| statements := push_statement sql s.(statement_start) position s.(statements);
          statement_start := S position; prefix := []; is_trigger := false; trigger_body_started := false;
          trigger_depth := 0 |}.

Definition split_step (sql : text) (s : splitter) (lexeme : SqlLexeme) : splitter :=
  match lexeme with
  | Word word => on_word word s
  | Semicolon position => on_semicolon sql position s
  | Number _ | Symbol _ => s
  end.

Definition start_splitter : splitter :=
  {| statements := []; statement_start := 0; prefix := []; is_trigger := false; trigger_body_started := false;
     trigger_depth := 0 |}.

Definition complete_sql_statements (sql : text) : list text :=
  let s := foldl (split_step sql) start_splitter (lex_sql sql) in
  push_statement sql s.(statement_start) (length sql) s.(statements).

(** ** Guard *)

Definition SUPPORTED_PRAGMAS : list string :=
  ["case_sensitive_like"; "defer_foreign_keys"; "foreign_key_check"; "foreign_key_list"; "foreign_keys";
   "ignore_check_constraints"; "index_info"; "index_list"; "index_xinfo"; "legacy_alter_table"; "optimize";
   "quick_check"; "recursive_triggers"; "reverse_unordered_selects"; "table_info"; "table_list"; "table_xinfo"].

Definition words_of (lexemes : list SqlLexeme) : list text :=
  omap (fun l => match l with Word w => Some w | _ => None end) lexemes.

(** The refusals, by their message. *)
Inductive d1_error : Type :=
| TransactionControl
| AttachDetach
| TemporaryObject
| VirtualTableModule
| PragmaNameMissing
| PragmaUnsupported (pragma : text)
| PragmaOptimizeNegative.

Definition TRANSACTION_KEYWORDS : list string :=
  ["BEGIN"; "COMMIT"; "END"; "ROLLBACK"; "SAVEPOINT"; "RELEASE"; "START"].

(** The word after the first [USING]. *)
Fixpoint after_using (words : list text) : option text :=
  match words with
  | [] => None
  | w :: rest => if is_kw w "USING" then head rest else after_using rest
  end.

Definition validate_create_statement (words : list text) : result unit d1_error :=
  if match words !! 1 with Some w => is_kw w "TEMP" || is_kw w "TEMPORARY" | None => false end
  then Err TemporaryObject
  else
    let creates_virtual_table :=
      match words !! 1, words !! 2 with Some a, Some b => is_kw a "VIRTUAL" && is_kw b "TABLE" | _, _ => false end in
    if negb creates_virtual_table then Ok tt
    else if match after_using words with Some m => is_kw m "fts5" || is_kw m "fts5vocab" | None => false end
    then Ok tt
    else Err VirtualTableModule.

Fixpoint contains_negative_one (lexemes : list SqlLexeme) : bool :=
  match lexemes with
  | a :: rest =>
    match rest with
    | b :: _ => (bool_decide (a = Symbol 45) && bool_decide (b = Number (txt "1"))) || contains_negative_one rest
    | [] => false
    end
  | [] => false
  end.

Definition pragma_of (words : list text) : option text :=
  match words !! 1 with
  | Some w => if is_kw w "main" || is_kw w "temp" then words !! 2 else Some w
  | None => None
  end.

Definition validate_pragma (words : list text) (lexemes : list SqlLexeme) : result unit d1_error :=
  match pragma_of words with
  | None => Err PragmaNameMissing
  | Some pragma =>
    if negb (existsb (is_kw pragma) SUPPORTED_PRAGMAS) then Err (PragmaUnsupported pragma)
    else if is_kw pragma "optimize" && contains_negative_one lexemes then Err PragmaOptimizeNegative
    else Ok tt
  end.

Definition validate_statement (statement : text) : result unit d1_error :=
  let lexemes := lex_sql statement in
  let words := words_of lexemes in
  match words with
  | [] => Ok tt
  | first :: _ =>
    if existsb (is_kw first) TRANSACTION_KEYWORDS then Err TransactionControl
    else if is_kw first "ATTACH" || is_kw first "DETACH" then Err AttachDetach
    else
      let? _ := if is_kw first "CREATE" then validate_create_statement words else Ok tt in
      let? _ := if is_kw first "PRAGMA" then validate_pragma words lexemes else Ok tt in
      Ok tt
  end.

Fixpoint validate_all (statements : list text) : result unit d1_error :=
  match statements with
  | [] => Ok tt
  | s :: rest => let? _ := validate_statement s in validate_all rest
  end.

Definition validate_sql (sql : text) : result unit d1_error := validate_all (complete_sql_statements sql).

(** ** Sizes *)

Definition MAX_SQL_STATEMENT_BYTES : Z := 100000.

Record SqlBatch := { sql : text; item_count : nat }.

(** The error: the item, counted from one, and its size. *)
Record oversized := { os_item : nat; os_bytes : nat }.

(** [len > MAX_SQL_STATEMENT_BYTES]. *)
Definition too_long (s : text) : bool := (MAX_SQL_STATEMENT_BYTES <? Z.of_nat (length s))%Z.

(** The inner loop: extend [start..stop] while the next range fits. *)
Fixpoint extend (fuel count max_items start stop : nat) (accepted : text) (render : nat -> nat -> text)
    : nat * text :=
  match fuel with
  | 0 => (stop, accepted)
  | S fuel' =>
    if (stop <? count)%nat && (stop - start <? max_items)%nat then
      let candidate := render start (S stop) in
      if too_long candidate then (stop, accepted)
      else extend fuel' count max_items start (S stop) candidate render
    else (stop, accepted)
  end.

Fixpoint batches_from (fuel count max_items start : nat) (render : nat -> nat -> text)
    : result (list SqlBatch) oversized :=
  match fuel with
  | 0 => Ok []
  | S fuel' =>
    if (start <? count)%nat then
      let accepted := render start (S start) in
      if too_long accepted then Err {| os_item := S start; os_bytes := length accepted |}
      else
        let '(stop, accepted) := extend count count max_items start (S start) accepted render in
        let? rest := batches_from fuel' count max_items stop render in
        Ok (if negb (is_empty (trim accepted)) then {| sql := accepted; item_count := stop - start |} :: rest else rest)
    else Ok []
  end.

(** [build_sql_batches]; each turn of the outer loop takes an item, so the
    number of items is enough fuel for both loops. *)
Definition build_sql_batches (count max_items : nat) (render : nat -> nat -> text)
    : result (list SqlBatch) oversized :=
  batches_from count count (Nat.max max_items 1) 0 render.

Fixpoint check_sizes (index : nat) (statements : list text) : result unit oversized :=
  match statements with
  | [] => Ok tt
  | s :: rest =>
    if too_long s then Err {| os_item := S index; os_bytes := length s |} else check_sizes (S index) rest
  end.

Definition validate_statement_sizes (sql : text) : result unit oversized :=
  check_sizes 0 (complete_sql_statements sql).

(** ** The lexer against a byte machine

    The reference: a mode for each byte, with one byte of lookahead. *)

Inductive mode := Code | LineComment | BlockOpen | Block | BlockClose | Quoted (q : Z) | QuotedEscape (q : Z).

Definition mode_step (m : mode) (c : Z) (next : option Z) : mode :=
  match m with
  | Code =>
    if ((c =? 45)%Z && bool_decide (next = Some 45%Z)) then LineComment
    else if ((c =? 47)%Z && bool_decide (next = Some 42%Z)) then BlockOpen
    else if is_quote c then Quoted c
    else if (c =? 91)%Z then Quoted 93
    else Code
  | LineComment => if (c =? 10)%Z then Code else LineComment
  | BlockOpen => Block
  | Block => if ((c =? 42)%Z && bool_decide (next = Some 47%Z)) then BlockClose else Block
  | BlockClose => Code
  | Quoted q => if (c =? q)%Z then (if bool_decide (next = Some q) then QuotedEscape q else Code) else Quoted q
  | QuotedEscape q => Quoted q
  end.

(** The positions of the semicolons that are code. *)
Fixpoint code_semicolons (m : mode) (pos : nat) (s : text) : list nat :=
  match s with
  | [] => []
  | c :: rest =>
    (match m with Code => if (c =? 59)%Z then [pos] else [] | _ => [] end) ++
    code_semicolons (mode_step m c (head rest)) (S pos) rest
  end.

Definition semicolons (l : list SqlLexeme) : list nat :=
  omap (fun x => match x with Semicolon p => Some p | _ => None end) l.

Lemma skip_line_length s : length (skip_line s) <= length s.
Proof. induction s as [|c s IH]; simpl; [done|]. case_match; simpl; lia. Qed.

Lemma skip_block_cons a b s :
  skip_block (a :: b :: s) = if ((a =? 42) && (b =? 47))%Z then s else skip_block (b :: s).
Proof. done. Qed.

Lemma skip_block_length s : length (skip_block s) <= length s.
Proof.
  induction s as [|a s IH]; [done|]. destruct s as [|b s]; [simpl; lia|]. rewrite skip_block_cons.
  destruct (_ && _); cbn [length] in *; lia.
Qed.

Lemma skip_quoted_length q s : length (skip_quoted q s) <= length s.
Proof.
  enough (forall n s, length s <= n -> length (skip_quoted q s) <= length s) as He by by apply (He (length s)).
  clear s. induction n as [|n IH]; intros s Hn; [by destruct s; simpl in *; [|lia]|].
  destruct s as [|c s]; simpl in *; [done|]. case_match.
  - etrans; [apply IH|]; lia.
  - destruct s as [|d s]; simpl in *; [lia|]. case_match; simpl; [|lia]. etrans; [apply IH|]; lia.
Qed.

(** Re-basing the position counter. *)
Local Ltac reposition := repeat (f_equal; try lia).

Lemma machine_line pos s :
  code_semicolons LineComment pos s =
  code_semicolons Code (pos + (length s - length (skip_line s))) (skip_line s).
Proof.
  revert pos. induction s as [|c s IH]; intros pos; simpl; [done|]. pose proof (skip_line_length s).
  destruct (Z.eqb_spec c 10) as [->|]; [|rewrite IH; simpl; f_equal; lia].
  simpl. replace (pos + (length s - length s)) with pos by lia. reposition.
Qed.

Lemma machine_block pos s :
  code_semicolons Block pos s =
  code_semicolons Code (pos + (length s - length (skip_block s))) (skip_block s).
Proof.
  revert pos. induction s as [|a s IH]; intros pos; [done|]. pose proof (skip_block_length s).
  destruct s as [|b s]; [simpl; by destruct (a =? 42)%Z|].
  rewrite skip_block_cons. destruct ((a =? 42) && (b =? 47))%Z eqn:E.
  - apply andb_true_iff in E as [->%Z.eqb_eq ->%Z.eqb_eq]. simpl. reposition.
  - assert (Hm : mode_step Block a (head (b :: s)) = Block).
    { simpl. destruct (Z.eqb_spec a 42); [|done]. simpl in *. rewrite bool_decide_false; [done|].
      intros [= ->]. by rewrite Z.eqb_refl in E. }
    change (code_semicolons Block pos (a :: b :: s)) with
      (code_semicolons (mode_step Block a (head (b :: s))) (S pos) (b :: s)).
    rewrite Hm, IH. f_equal. simpl length in *. lia.
Qed.

Lemma machine_quoted q pos s :
  code_semicolons (Quoted q) pos s =
  code_semicolons Code (pos + (length s - length (skip_quoted q s))) (skip_quoted q s).
Proof.
  enough (forall n s pos, length s <= n -> code_semicolons (Quoted q) pos s =
    code_semicolons Code (pos + (length s - length (skip_quoted q s))) (skip_quoted q s)) as He by by apply (He (length s)).
  clear s pos. induction n as [|n IH]; intros s pos Hn; [by destruct s; simpl in *; [|lia]|].
  destruct s as [|c s]; [done|]. simpl in Hn. cbn [code_semicolons skip_quoted mode_step app].
  destruct (c =? q)%Z; simpl negb; cbn [negb].
  - destruct s as [|d s]; [done|]. simpl in Hn. pose proof (skip_quoted_length q s). cbn [head].
    destruct (Z.eqb_spec d q) as [->|].
    + rewrite bool_decide_true by done. cbn [code_semicolons mode_step app]. rewrite IH by lia.
      f_equal. simpl length. lia.
    + rewrite bool_decide_false by congruence. f_equal. simpl length. lia.
  - pose proof (skip_quoted_length q s). rewrite IH by lia. f_equal. simpl length. lia.
Qed.

(** Bytes that mean nothing to the machine. *)
Definition is_plain (c : Z) : bool := negb ((c =? 45) || (c =? 47) || is_quote c || (c =? 91) || (c =? 59))%Z.

Lemma machine_plain c pos s : is_plain c = true ->
  code_semicolons Code pos (c :: s) = code_semicolons Code (S pos) s.
Proof.
  unfold is_plain. intros Hp. bool_solver. simpl.
  by repeat match goal with H : _ = false |- _ => rewrite H; clear H; simpl end.
Qed.

Lemma machine_span p pos s : (forall c, p c = true -> is_plain c = true) ->
  code_semicolons Code pos s = code_semicolons Code (pos + length (span p s).1) (span p s).2.
Proof.
  intros Hp. revert pos. induction s as [|c s IH]; intros pos; [done|]. simpl span.
  destruct (p c) eqn:Ec; [|by rewrite Nat.add_0_r]. rewrite machine_plain, IH by auto.
  destruct (span p s). simpl. f_equal. lia.
Qed.

Local Ltac ascii_cases := unfold is_plain, is_quote, is_word_part, is_word_start, is_symbol, is_ascii_alphanumeric,
  is_ascii_alphabetic, is_ascii_uppercase, is_ascii_lowercase, is_ascii_digit in *; lia.

Lemma digit_plain c : is_ascii_digit c = true -> is_plain c = true.
Proof. ascii_cases. Qed.
Lemma word_part_plain c : is_word_part c = true -> is_plain c = true.
Proof. ascii_cases. Qed.
Lemma word_start_plain c : is_word_start c = true -> is_plain c = true.
Proof. ascii_cases. Qed.

Lemma at_is_0 s c : at_is s 0 c = bool_decide (head s = Some c).
Proof.
  unfold at_is. destruct s as [|d s]; simpl; [done|]. destruct (Z.eqb_spec d c) as [->|].
  - by rewrite bool_decide_true.
  - by rewrite bool_decide_false by congruence.
Qed.

(** One turn of the lexer is as many steps of the machine as bytes it consumes. *)
Lemma lex_turn_machine pos c rest lexeme rest' :
  lex_turn pos c rest = (lexeme, rest') ->
  length rest' <= length rest /\
  code_semicolons Code pos (c :: rest) =
    semicolons (option_list lexeme) ++ code_semicolons Code (pos + (S (length rest) - length rest')) rest'.
Proof.
  unfold lex_turn. rewrite !at_is_0.
  destruct ((c =? 45)%Z && bool_decide (head rest = Some 45%Z)) eqn:E1.
  { apply andb_true_iff in E1 as [->%Z.eqb_eq Hh%bool_decide_eq_true]. intros; simplify_eq.
    destruct rest as [|d rest]; simplify_eq/=. rewrite drop_0. pose proof (skip_line_length rest).
    split; [lia|]. rewrite machine_line. f_equal. lia. }
  destruct ((c =? 47)%Z && bool_decide (head rest = Some 42%Z)) eqn:E2.
  { apply andb_true_iff in E2 as [->%Z.eqb_eq Hh%bool_decide_eq_true]. intros; simplify_eq.
    destruct rest as [|d rest]; simplify_eq/=. rewrite drop_0. pose proof (skip_block_length rest).
    split; [lia|]. rewrite machine_block. f_equal. lia. }
  assert (Hstep : code_semicolons Code pos (c :: rest) =
    (if (c =? 59)%Z then [pos] else []) ++
    code_semicolons (if is_quote c then Quoted c else if (c =? 91)%Z then Quoted 93 else Code) (S pos) rest).
  { cbn [code_semicolons mode_step]. by rewrite E1, E2. }
  destruct (is_quote c) eqn:E3.
  { intros; simplify_eq. pose proof (skip_quoted_length c rest). split; [lia|]. rewrite Hstep, machine_quoted.
    assert ((c =? 59)%Z = false) as -> by (unfold is_quote in E3; lia). simpl. f_equal. lia. }
  destruct (Z.eqb_spec c 91) as [->|Hb].
  { intros; simplify_eq. pose proof (skip_quoted_length 93 rest). split; [lia|].
    rewrite Hstep, machine_quoted. simpl. f_equal. lia. }
  destruct (Z.eqb_spec c 59) as [->|Hs].
  { intros; simplify_eq. split; [done|]. rewrite Hstep. csimpl. f_equal. f_equal. lia. }
  rewrite Hstep. clear Hstep. cbn [app].
  destruct (is_ascii_digit c) eqn:E4.
  { rewrite (machine_span is_ascii_digit _ rest digit_plain). pose proof (span_app is_ascii_digit rest) as Ha.
    destruct (span is_ascii_digit rest) as [a b]. simpl in *. intros; simplify_eq. rewrite length_app.
    split; [lia|]. csimpl. f_equal. lia. }
  destruct (is_word_start c) eqn:E5.
  { rewrite (machine_span is_word_part _ rest word_part_plain). pose proof (span_app is_word_part rest) as Ha.
    destruct (span is_word_part rest) as [a b]. simpl in *. intros; simplify_eq. rewrite length_app.
    split; [lia|]. csimpl. f_equal. lia. }
  destruct (is_symbol c); intros; simplify_eq; (split; [done|]; csimpl; f_equal; lia).
Qed.

Lemma semicolons_app a b : semicolons (a ++ b) = semicolons a ++ semicolons b.
Proof. apply omap_app. Qed.

Lemma lex_from_semicolons fuel pos s :
  length s <= fuel -> semicolons (lex_from fuel pos s) = code_semicolons Code pos s.
Proof.
  revert pos s. induction fuel as [|fuel IH]; intros pos s Hf; [by destruct s; simpl in *; [|lia]|].
  destruct s as [|c rest]; [done|]. cbn [lex_from].
  destruct (lex_turn pos c rest) as [lexeme rest'] eqn:E. apply lex_turn_machine in E as [Hl ->].
  rewrite semicolons_app, IH by (simpl in *; lia). done.
Qed.

Lemma lex_sql_semicolons sql : semicolons (lex_sql sql) = code_semicolons Code 0 sql.
Proof. by apply lex_from_semicolons. Qed.

(** ** Statements partition the text *)

(** The pieces of the text from [start] between the given cuts. *)
Fixpoint segments (sql : text) (start : nat) (cuts : list nat) : list text :=
  match cuts with
  | [] => [slice start (length sql) sql]
  | c :: cs => slice start c sql :: segments sql (S c) cs
  end.

Fixpoint join_semicolon (l : list text) : text :=
  match l with
  | [] => []
  | [s] => s
  | s :: rest => s ++ 59%Z :: join_semicolon rest
  end.

Definition nonempty (l : list text) : list text := List.filter (fun s => negb (is_empty s)) l.

Lemma push_statement_app sql i j l :
  push_statement sql i j l = l ++ nonempty [trim (slice i j sql)].
Proof. unfold push_statement, nonempty. simpl. by destruct (is_empty _); simpl; rewrite ?app_nil_r. Qed.

Lemma nonempty_cons s l : nonempty (s :: l) = nonempty [s] ++ nonempty l.
Proof. unfold nonempty. simpl. by destruct (is_empty s). Qed.

Definition no_trigger_word (l : list SqlLexeme) : Prop := Forall (fun w => is_kw w "TRIGGER" = false) (words_of l).

(** Without the word TRIGGER the splitter is never in a trigger body. *)
Definition calm (s : splitter) : Prop :=
  s.(is_trigger) = false /\ Forall (fun w => is_kw w "TRIGGER" = false) s.(prefix).

Lemma calm_prefix words : Forall (fun w => is_kw w "TRIGGER" = false) words -> is_create_trigger_prefix words = false.
Proof.
  intros Hf. destruct Hf as [|w0 l0 H0 Hf]; [done|]. destruct Hf as [|w1 l1 H1 Hf]; [done|]. simpl. rewrite H1. simpl.
  destruct Hf as [|w2 l2 H2 Hf]; [|rewrite H2]; by rewrite !andb_false_r.
Qed.

Lemma calm_word w s : calm s -> is_kw w "TRIGGER" = false -> calm (on_word w s).
Proof.
  intros [Ht Hp] Hw. unfold on_word. destruct (length (prefix s) <? 3)%nat.
  - assert (Hpre : Forall (fun w => is_kw w "TRIGGER" = false) (prefix s ++ [w])) by (apply Forall_app; auto).
    rewrite (calm_prefix _ Hpre). simpl. by split.
  - rewrite Ht. simpl. by split.
Qed.

Lemma split_segments sql l s :
  let s' := foldl (split_step sql) s l in
  exists cuts, cuts `sublist_of` semicolons l /\
    push_statement sql s'.(statement_start) (length sql) s'.(statements) =
      s.(statements) ++ nonempty (map trim (segments sql s.(statement_start) cuts)) /\
    (calm s -> no_trigger_word l -> cuts = semicolons l).
Proof.
  revert s. induction l as [|x l IH]; intros s.
  { exists []. split_and!; [done| |done]. simpl. apply push_statement_app. }
  cbn [foldl]. destruct (IH (split_step sql s x)) as (cuts & Hsub & Heq & Hcalm). cbn [foldl] in *.
  destruct x as [w|n|b|p]; cbn [split_step] in *; csimpl.
  - exists cuts. split_and!; [done| |].
    + rewrite Heq. unfold on_word. by destruct (if negb _ then _ else _).
    + intros Hc Hn. unfold no_trigger_word in Hn. csimpl in Hn. apply Forall_cons in Hn as [Hw Hn].
      apply Hcalm; [by apply calm_word|done].
  - exists cuts. eauto.
  - exists cuts. eauto.
  - unfold on_semicolon in *. destruct (in_trigger_body s) eqn:Et.
    + exists cuts. split_and!; [by apply sublist_cons|done|]. intros [Ht _]. unfold in_trigger_body in Et.
      by rewrite Ht in Et.
    + exists (p :: cuts). split_and!.
      * by apply sublist_skip.
      * rewrite Heq. cbn [statements statement_start segments map].
        rewrite push_statement_app, <- app_assoc. f_equal. symmetry. apply nonempty_cons.
      * intros Hc Hn. f_equal. apply Hcalm; [by split|done].
Qed.

Lemma code_semicolons_in m pos s p :
  p ∈ code_semicolons m pos s -> pos <= p /\ p < pos + length s /\ s !! (p - pos) = Some 59%Z.
Proof.
  revert m pos. induction s as [|c s IH]; intros m pos; simpl; [by intros ?%not_elem_of_nil|].
  intros [Hp|Hp]%elem_of_app.
  - destruct m; try by apply not_elem_of_nil in Hp. destruct (Z.eqb_spec c 59) as [->|]; [|by apply not_elem_of_nil in Hp].
    apply list_elem_of_singleton in Hp as ->. rewrite Nat.sub_diag. split_and!; [lia|lia|done].
  - apply IH in Hp as (? & ? & Hl). split_and!; [lia|lia|]. by replace (p - pos) with (S (p - S pos)) by lia.
Qed.

Lemma code_semicolons_sorted m pos s : StronglySorted lt (code_semicolons m pos s).
Proof.
  revert m pos. induction s as [|c s IH]; intros m pos; simpl; [constructor|].
  assert (Hx : StronglySorted lt (pos :: code_semicolons (mode_step m c (head s)) (S pos) s)).
  { constructor; [done|]. apply Forall_forall. intros p Hp%code_semicolons_in. lia. }
  destruct m; try apply IH. destruct (c =? 59)%Z; [exact Hx|apply IH].
Qed.

Lemma sorted_sublist {A} (R : A -> A -> Prop) l k : l `sublist_of` k -> StronglySorted R k -> StronglySorted R l.
Proof.
  induction 1 as [|x l k Hs IH|x l k Hs IH]; [done|..]; intros [Hk Hx]%StronglySorted_inv; [|by apply IH].
  constructor; [by apply IH|]. rewrite Forall_forall in *. intros y Hy. eapply Hx, elem_of_sublist; eauto.
Qed.

Lemma join_segments sql start cuts :
  start <= length sql -> StronglySorted lt cuts ->
  Forall (fun p => start <= p /\ sql !! p = Some 59%Z) cuts ->
  join_semicolon (segments sql start cuts) = slice start (length sql) sql.
Proof.
  revert start. induction cuts as [|c cuts IH]; intros start Hs Hsort Hall; [done|].
  apply StronglySorted_inv in Hsort as [Hsort Hlt]. apply Forall_cons in Hall as [[Hc Hl] Hall].
  pose proof (lookup_lt_Some _ _ _ Hl) as Hlen.
  assert (Hj : join_semicolon (segments sql start (c :: cuts)) =
    slice start c sql ++ 59%Z :: join_semicolon (segments sql (S c) cuts)) by by destruct cuts.
  rewrite Hj, IH; [|lia|done|].
  - rewrite <- (slice_app start c (length sql)) by lia. f_equal.
    rewrite <- (slice_app c (S c) (length sql)) by lia. unfold slice at 2. replace (S c - c) with 1 by lia.
    by rewrite (drop_S _ _ _ Hl).
  - apply Forall_forall. intros p Hp. rewrite Forall_forall in Hlt, Hall.
    pose proof (Hlt _ Hp). destruct (Hall _ Hp). split; [lia|done].
Qed.

(** The D1 splitter cuts only where SQL ends a statement.  The semicolons
    the lexer reports are exactly those outside comments, quotes and brackets,
    as a byte-by-byte machine finds them; the statements are the non-blank
    pieces, trimmed and in order, of a division of the whole text at some of
    those semicolons; and when the text has no word TRIGGER, at all of them. *)
Theorem statements_partition_sql sql :
  semicolons (lex_sql sql) = code_semicolons Code 0 sql /\
  exists cuts, cuts `sublist_of` code_semicolons Code 0 sql /\
    join_semicolon (segments sql 0 cuts) = sql /\
    complete_sql_statements sql = nonempty (map trim (segments sql 0 cuts)) /\
    (no_trigger_word (lex_sql sql) -> cuts = code_semicolons Code 0 sql).
Proof.
  split; [apply lex_sql_semicolons|].
  destruct (split_segments sql (lex_sql sql) start_splitter) as (cuts & Hsub & Heq & Hcalm).
  rewrite lex_sql_semicolons in *. exists cuts. split_and!; [done| |done|].
  - rewrite join_segments; [apply slice_full|lia|..].
    + eapply sorted_sublist; [exact Hsub|apply code_semicolons_sorted].
    + apply Forall_forall. intros p Hp. eapply elem_of_sublist in Hp; [|exact Hsub].
      apply code_semicolons_in in Hp as (? & ? & Hl). rewrite Nat.sub_0_r in Hl. split; [lia|done].
  - intros Hn. apply Hcalm; [|done]. split; [done|constructor].
Qed.

(** ** The guard *)

Lemma validate_all_ok l : validate_all l = Ok tt <-> Forall (fun s => validate_statement s = Ok tt) l.
Proof.
  induction l as [|s l IH]; simpl; [done|]. rewrite Forall_cons, <- IH.
  destruct (validate_statement s) as [[]|e]; simpl; naive_solver.
Qed.

Lemma validate_all_err l e :
  validate_all l = Err e <->
  exists l1 s l2, l = l1 ++ s :: l2 /\ Forall (fun s => validate_statement s = Ok tt) l1 /\ validate_statement s = Err e.
Proof.
  induction l as [|s l IH]; simpl.
  { split; [done|]. intros ([] & ? & ? & ? & _); done. }
  destruct (validate_statement s) as [[]|e'] eqn:Es; simpl.
  - rewrite IH. split.
    + intros (l1 & s' & l2 & -> & Hok & He). exists (s :: l1), s', l2. split_and!; [done|by constructor|done].
    + intros ([|x l1] & s' & l2 & Heq & Hok & He); simplify_eq/=; [congruence|]. apply Forall_cons in Hok as [_ Hok]. eauto 6.
  - split.
    + intros [= ->]. exists [], s, l. split_and!; [done|constructor|done].
    + intros ([|x l1] & s' & l2 & Heq & Hok & He); simplify_eq/=; [congruence|]. apply Forall_cons in Hok as [Hx _]. congruence.
Qed.

(** What the guard lets through, read off the words of a statement. *)
Definition admissible (words : list text) : Prop :=
  forall first, head words = Some first ->
    Forall (fun kw => is_kw first kw = false) (TRANSACTION_KEYWORDS ++ ["ATTACH"; "DETACH"]) /\
    (is_kw first "CREATE" = true ->
       (forall w, words !! 1 = Some w -> is_kw w "TEMP" = false /\ is_kw w "TEMPORARY" = false) /\
       (forall a b, words !! 1 = Some a -> words !! 2 = Some b -> is_kw a "VIRTUAL" = true -> is_kw b "TABLE" = true ->
          exists m, after_using words = Some m /\ (is_kw m "fts5" = true \/ is_kw m "fts5vocab" = true))) /\
    (is_kw first "PRAGMA" = true -> exists p kw, pragma_of words = Some p /\ kw ∈ SUPPORTED_PRAGMAS /\ is_kw p kw = true).

Lemma validate_create_ok words :
  validate_create_statement words = Ok tt ->
  (forall w, words !! 1 = Some w -> is_kw w "TEMP" = false /\ is_kw w "TEMPORARY" = false) /\
  (forall a b, words !! 1 = Some a -> words !! 2 = Some b -> is_kw a "VIRTUAL" = true -> is_kw b "TABLE" = true ->
     exists m, after_using words = Some m /\ (is_kw m "fts5" = true \/ is_kw m "fts5vocab" = true)).
Proof.
  unfold validate_create_statement. intros Hv. split.
  - intros w Hw. rewrite Hw in Hv. destruct (is_kw w "TEMP"), (is_kw w "TEMPORARY"); simplify_eq/=; done.
  - intros a b Ha Hb HV HT. rewrite Ha, Hb, HV, HT in Hv. destruct (is_kw a "TEMP" || is_kw a "TEMPORARY"); [done|].
    simpl in Hv. destruct (after_using words) as [m|]; [|done]. exists m. split; [done|].
    destruct (is_kw m "fts5"), (is_kw m "fts5vocab"); simplify_eq/=; auto.
Qed.

Lemma validate_pragma_ok words lexemes :
  validate_pragma words lexemes = Ok tt ->
  exists p kw, pragma_of words = Some p /\ kw ∈ SUPPORTED_PRAGMAS /\ is_kw p kw = true.
Proof.
  unfold validate_pragma. destruct (pragma_of words) as [p|]; [|done].
  destruct (existsb (is_kw p) SUPPORTED_PRAGMAS) eqn:E; [|done]. intros _.
  apply existsb_exists in E as (kw & Hin & Hk). exists p, kw. split_and!; [done|by apply list_elem_of_In|done].
Qed.

Lemma validate_statement_admissible s : validate_statement s = Ok tt -> admissible (words_of (lex_sql s)).
Proof.
  unfold validate_statement. intros Hv first Hf. destruct (words_of (lex_sql s)) as [|f words] eqn:Ew; [done|].
  cbn [head] in Hf. injection Hf as ->. destruct (existsb (is_kw first) TRANSACTION_KEYWORDS) eqn:E1; [done|].
  destruct (is_kw first "ATTACH" || is_kw first "DETACH") eqn:E2; [done|]. split_and!.
  - apply Forall_app. split; [|apply orb_false_iff in E2 as []; by repeat constructor].
    apply Forall_forall. intros kw Hkw. apply not_true_iff_false. intros Hk.
    apply not_true_iff_false in E1. apply E1, existsb_exists. exists kw. split; [by apply list_elem_of_In|done].
  - intros Hc. rewrite Hc in Hv. apply validate_create_ok. by destruct (validate_create_statement _) as [[]|].
  - intros Hp. rewrite Hp in Hv. eapply validate_pragma_ok with (lexemes := lex_sql s).
    destruct (if is_kw first "CREATE" then _ else _); [|done]. simpl in Hv.
    by destruct (validate_pragma _ _) as [[]|].
Qed.

(** [validate_sql] accepts a text exactly when it accepts each statement,
    reports the first refusal otherwise, and what it accepts starts no
    transaction, attaches nothing, creates nothing temporary, creates virtual
    tables only with FTS5 modules and uses a listed PRAGMA. *)
Theorem validate_sql_guards sql :
  (validate_sql sql = Ok tt <-> Forall (fun s => validate_statement s = Ok tt) (complete_sql_statements sql)) /\
  (forall e, validate_sql sql = Err e <-> exists l1 s l2, complete_sql_statements sql = l1 ++ s :: l2 /\
     Forall (fun s => validate_statement s = Ok tt) l1 /\ validate_statement s = Err e) /\
  (validate_sql sql = Ok tt -> Forall (fun s => admissible (words_of (lex_sql s))) (complete_sql_statements sql)).
Proof.
  split_and!; [apply validate_all_ok|intros; apply validate_all_err|].
  intros Hv%validate_all_ok. eapply Forall_impl; [exact Hv|]. apply validate_statement_admissible.
Qed.

(** A quoted PRAGMA name is not a word of the statement, so the guard reads the
    next word instead. *)
Example quoted_pragma_name_passes : validate_sql (txt "PRAGMA `journal_mode`(foreign_keys)") = Ok tt.
Proof. vm_compute. reflexivity. Qed.

Example plain_pragma_name_is_refused :
  validate_sql (txt "SELECT 'a;b'; PRAGMA journal_mode=WAL") = Err (PragmaUnsupported (txt "journal_mode")).
Proof. vm_compute. reflexivity. Qed.

(** ** Batches *)

(** Adjacent ranges from [start] to [stop]. *)
Fixpoint chained (start : nat) (ranges : list (nat * nat)) (stop : nat) : Prop :=
  match ranges with
  | [] => start = stop
  | (a, b) :: rest => a = start /\ a < b /\ chained b rest stop
  end.

(** A range within the limits that could not be longer. *)
Definition greedy (count max_items : nat) (render : nat -> nat -> text) (r : nat * nat) : Prop :=
  r.2 - r.1 <= max_items /\ too_long (render r.1 r.2) = false /\
  (r.2 = count \/ r.2 - r.1 = max_items \/ too_long (render r.1 (S r.2)) = true).

Definition batch_of (render : nat -> nat -> text) (r : nat * nat) : option SqlBatch :=
  let s := render r.1 r.2 in
  if is_empty (trim s) then None else Some {| sql := s; item_count := r.2 - r.1 |}.

Lemma extend_spec fuel count max_items start stop render stop' accepted' :
  count - stop <= fuel -> start < stop <= count -> stop - start <= max_items ->
  too_long (render start stop) = false ->
  extend fuel count max_items start stop (render start stop) render = (stop', accepted') ->
  stop <= stop' <= count /\ accepted' = render start stop' /\ greedy count max_items render (start, stop').
Proof.
  revert stop. induction fuel as [|fuel IH]; intros stop Hf Hs Hm Hfit He; simpl in He.
  { simplify_eq. split_and!; try lia; [done|]. split_and!; [done|done|]. left. simpl. lia. }
  destruct (Nat.ltb_spec stop count); simpl in He.
  - destruct (Nat.ltb_spec (stop - start) max_items); simpl in He.
    + destruct (too_long (render start (S stop))) eqn:Et.
      * simplify_eq. split_and!; try lia; [done|]. split_and!; auto.
      * apply IH in He as (? & -> & ?); try lia; [|done]. split_and!; try lia; done.
    + simplify_eq. split_and!; try lia; [done|]. split_and!; [done|done|]. right. left. simpl. lia.
  - simplify_eq. split_and!; try lia; [done|]. split_and!; [done|done|]. left. simpl. lia.
Qed.

Lemma batches_from_spec fuel count max_items start render :
  count - start <= fuel -> start <= count -> 1 <= max_items ->
  match batches_from fuel count max_items start render with
  | Ok bs => exists ranges, chained start ranges count /\ Forall (greedy count max_items render) ranges /\
               bs = omap (batch_of render) ranges
  | Err e => exists i, start <= i < count /\ too_long (render i (S i)) = true /\
               e = {| os_item := S i; os_bytes := length (render i (S i)) |}
  end.
Proof.
  revert start. induction fuel as [|fuel IH]; intros start Hf Hs Hm; simpl.
  { exists []. split_and!; [simpl; lia|constructor|done]. }
  destruct (Nat.ltb_spec start count) as [Hlt|]; [|exists []; split_and!; [simpl; lia|constructor|done]].
  destruct (too_long (render start (S start))) eqn:Et; [exists start; split_and!; [lia|lia|done|done]|].
  destruct (extend count count max_items start (S start) (render start (S start)) render) as [stop acc] eqn:Ee.
  apply extend_spec in Ee as (Hst & -> & Hg); [|lia|lia|lia|done].
  specialize (IH stop ltac:(lia) ltac:(lia) Hm).
  destruct (batches_from fuel count max_items stop render) as [bs|e]; simpl.
  - destruct IH as (ranges & Hch & Hall & ->). exists ((start, stop) :: ranges).
    split_and!; [simpl; split_and!; [done|lia|done]|by constructor|].
    assert (Hb : batch_of render (start, stop) = if is_empty (trim (render start stop)) then None
      else Some {| sql := render start stop; item_count := stop - start |}) by done.
    csimpl. rewrite Hb. by destruct (is_empty (trim (render start stop))).
  - destruct IH as (i & ? & ? & ?). exists i. split_and!; [lia|lia|done|done].
Qed.

(** [build_sql_batches] splits the items into consecutive batches that cover
    them all: each batch renders one range, no statement is longer than
    [MAX_SQL_STATEMENT_BYTES] or has more items than allowed, a batch ends early
    only because one more item would not fit, and only blank statements are left
    out.  It fails only when a single item is too long on its own, and names such
    an item and its size. *)
Theorem sql_batches_cover_items count max_items render :
  match build_sql_batches count max_items render with
  | Ok bs => exists ranges, chained 0 ranges count /\ Forall (greedy count (Nat.max max_items 1) render) ranges /\
               bs = omap (batch_of render) ranges
  | Err e => exists i, i < count /\ too_long (render i (S i)) = true /\
               e = {| os_item := S i; os_bytes := length (render i (S i)) |}
  end.
Proof.
  pose proof (batches_from_spec count count (Nat.max max_items 1) 0 render ltac:(lia) ltac:(lia) ltac:(lia)) as Hs.
  unfold build_sql_batches. destruct (batches_from _ _ _ _ _); [done|].
  destruct Hs as (i & ? & Hi). exists i. split; [lia|done].
Qed.
