(* ===== verification/Cypher.v ===== *)
(** * Read-only Cypher

    Models [crates/dbx-sql-core/src/cypher_read_only.rs]: the scanner that
    proves a Cypher source read-only before it is sent on a read-only
    connection.  The source is its Unicode scalar values, as the code walks
    [chars()].  [char::is_alphanumeric] on the whole of Unicode is a parameter
    that agrees with the ASCII class on ASCII. *)

From S2P Require Import Prelude.

Definition UNSAFE_WORDS : list text :=
  map txt ["CREATE"; "INSERT"; "MERGE"; "SET"; "REMOVE"; "DELETE"; "DETACH"; "DROP"; "ALTER"; "RENAME"; "GRANT";
           "REVOKE"; "DENY"; "CALL"; "FOREACH"; "LOAD"; "START"; "STOP"; "TERMINATE"].

Definition READ_STARTS : list text :=
  map txt ["MATCH"; "OPTIONAL"; "RETURN"; "WITH"; "UNWIND"; "SHOW"; "EXPLAIN"; "PROFILE"].

Section Scanner.
Variable is_alphanumeric : Z -> bool.

Definition is_word_char (c : Z) : bool := is_alphanumeric c || (c =? 95)%Z.

(** To the end of a line comment. *)
Fixpoint skip_line (s : text) : text :=
  match s with
  | [] => []
  | c :: rest => if ((c =? 10) || (c =? 13))%Z then s else skip_line rest
  end.

(** Past a block comment; [None] when it nests or does not end. *)
Fixpoint skip_block (s : text) : option text :=
  match s with
  | [] => None
  | a :: rest =>
    match rest with
    | b :: rest2 =>
      if ((a =? 47) && (b =? 42))%Z then None
      else if ((a =? 42) && (b =? 47))%Z then Some rest2
      else skip_block rest
    | [] => None
    end
  end.

(** Past the closing quote; [None] when there is none. *)
Fixpoint skip_quoted (quote : Z) (s : text) : option text :=
  match s with
  | [] => None
  | c :: rest =>
    if (c =? 92)%Z then match rest with _ :: rest2 => skip_quoted quote rest2 | [] => None end
    else if (c =? quote)%Z then
      match rest with
      | d :: rest2 => if (d =? quote)%Z then skip_quoted quote rest2 else Some rest
      | [] => Some []
      end
    else skip_quoted quote rest
  end.

Fixpoint span_word (s : text) : text * text :=
  match s with
  | c :: rest => if is_word_char c then let '(a, b) := span_word rest in (c :: a, b) else ([], s)
  | [] => ([], [])
  end.

Inductive scanned :=
| Refused
| Separator (rest : text)
| Token (word : option text) (rest : text).

(** One turn of the loop. *)
Definition scan_turn (ch : Z) (rest : text) : scanned :=
  if (ch =? 47)%Z && at_is rest 0 47 then Token None (skip_line (drop 1 rest))
  else if (ch =? 47)%Z && at_is rest 0 42 then
    match skip_block (drop 1 rest) with Some rest' => Token None rest' | None => Refused end
  else if ((ch =? 39) || (ch =? 34) || (ch =? 96))%Z then
    match skip_quoted ch rest with Some rest' => Token (Some (txt "<quoted>")) rest' | None => Refused end
  else if (ch =? 59)%Z then Separator rest
  else if is_ascii_alphabetic ch || (ch =? 95)%Z then
    let '(a, b) := span_word rest in Token (Some (map to_ascii_uppercase (ch :: a))) b
  else if ((ch =? 46) || (ch =? 58) || (ch =? 36))%Z then Token (Some [ch]) rest
  else if negb (is_whitespace ch) then Token (Some (txt "<symbol>")) rest
  else Token None rest.

(** The loop: [done] are the finished statements, [cur] the words of the last
    one; every turn consumes a character. *)
Fixpoint scan (fuel : nat) (s : text) (done : list (list text)) (cur : list text) : option (list (list text)) :=
  match fuel, s with
  | S fuel', ch :: rest =>
    match scan_turn ch rest with
    | Refused => None
    | Separator rest' => scan fuel' rest' (done ++ [cur]) []
    | Token word rest' => scan fuel' rest' done (cur ++ option_list word)
    end
  | _, _ => Some (done ++ [cur])
  end.

Definition is_guard (w : option text) : bool :=
  match w with Some [c] => ((c =? 46) || (c =? 58) || (c =? 36))%Z | _ => false end.

Definition is_colon (w : option text) : bool := match w with Some [c] => (c =? 58)%Z | _ => false end.

(** A word of [UNSAFE_WORDS] that is neither a property, label or parameter name
    nor a map key. *)
Fixpoint has_unsafe (previous : option text) (words : list text) : bool :=
  match words with
  | [] => false
  | w :: rest =>
    (bool_decide (w ∈ UNSAFE_WORDS) && negb (is_guard previous) && negb (is_colon (head rest))) ||
    has_unsafe (Some w) rest
  end.

Definition statement_read_only (words : list text) : bool :=
  match words with
  | [] => false
  | first :: _ =>
    bool_decide (first ∈ READ_STARTS) &&
    (bool_decide (first = txt "SHOW") || bool_decide (txt "RETURN" ∈ words)) &&
    negb (has_unsafe None words)
  end.

Fixpoint contains_unicode_escape (s : text) : bool :=
  match s with
  | a :: rest => ((a =? 92)%Z && at_is rest 0 117) || contains_unicode_escape rest
  | [] => false
  end.

Definition is_nil {A} (l : list A) : bool := match l with [] => true | _ => false end.

Definition is_proven_read_only_cypher (source : text) : bool :=
  if contains_unicode_escape source then false
  else match scan (length source) source [] [] with
  | None => false
  | Some statements =>
    let statements := List.filter (fun words => negb (is_nil words)) statements in
    negb (is_nil statements) && forallb statement_read_only statements
  end.

(** ** An unsafe keyword is refused *)

Hypothesis alphanumeric_ascii : forall c, (0 <= c < 128)%Z -> is_alphanumeric c = is_ascii_alphanumeric c.

(** Characters of ordinary clauses: no quotes, comments, separators or name
    prefixes among them. *)
Definition is_plain (c : Z) : bool :=
  (0 <=? c)%Z && (c <? 128)%Z &&
  negb ((c =? 47) || (c =? 39) || (c =? 34) || (c =? 96) || (c =? 59) || (c =? 46) || (c =? 58) || (c =? 36) || (c =? 92))%Z.

Lemma cypher_skip_line_length s : length (skip_line s) <= length s.
Proof. induction s as [|c s IH]; simpl; [done|]. case_match; simpl; lia. Qed.

Lemma cypher_skip_block_cons a b s :
  skip_block (a :: b :: s) =
  if ((a =? 47) && (b =? 42))%Z then None else if ((a =? 42) && (b =? 47))%Z then Some s else skip_block (b :: s).
Proof. done. Qed.

Lemma cypher_skip_block_length s s' : skip_block s = Some s' -> length s' <= length s.
Proof.
  induction s as [|a s IH]; [done|]. destruct s as [|b s]; [done|]. rewrite cypher_skip_block_cons.
  repeat case_match; intros; simplify_eq; cbn [length]; [lia|]. etrans; [by apply IH|]. simpl. lia.
Qed.

Lemma cypher_skip_quoted_length q s s' : skip_quoted q s = Some s' -> length s' <= length s.
Proof.
  enough (forall n s s', length s <= n -> skip_quoted q s = Some s' -> length s' <= length s) as He
    by by apply (He (length s)).
  clear s s'. induction n as [|n IH]; intros s s' Hn; [by destruct s; simpl in *; [|lia]|].
  destruct s as [|c s]; [done|]. simpl in *. repeat case_match; intros; simplify_eq; simpl in *; try lia.
  - etrans; [eapply IH; [|done]|]; lia.
  - etrans; [eapply IH; [|done]|]; lia.
  - etrans; [eapply IH; [|done]|]; lia.
Qed.

Lemma span_word_length s : length (span_word s).2 <= length s.
Proof. induction s as [|c s IH]; simpl; [done|]. case_match; simpl; [|lia]. destruct (span_word s). simpl in *. lia. Qed.

(** What a turn leaves is shorter than what it saw. *)
Lemma scan_turn_length ch rest :
  match scan_turn ch rest with Refused => True | Separator r | Token _ r => length r <= length rest end.
Proof.
  unfold scan_turn. pose proof (cypher_skip_line_length (drop 1 rest)). pose proof (span_word_length rest).
  rewrite length_drop in *.
  repeat case_match; simplify_eq/=; try done; try lia.
  - match goal with H : skip_block _ = Some _ |- _ => apply cypher_skip_block_length in H; rewrite length_drop in H end. lia.
  - by eapply cypher_skip_quoted_length.
Qed.

(** Enough fuel is enough. *)
Lemma scan_fuel f1 f2 s done cur :
  length s <= f1 -> length s <= f2 -> scan f1 s done cur = scan f2 s done cur.
Proof.
  revert f2 s done cur. induction f1 as [|f1 IH]; intros f2 s done cur H1 H2.
  { destruct s; simpl in *; [|lia]. by destruct f2. }
  destruct s as [|ch rest]; [by destruct f2|]. destruct f2 as [|f2]; simpl in *; [lia|].
  pose proof (scan_turn_length ch rest). destruct (scan_turn ch rest); [done|apply IH; lia..].
Qed.

(** Words only accumulate. *)
Lemma scan_extends fuel s done cur sts :
  scan fuel s done cur = Some sts -> exists more rest, sts = done ++ (cur ++ more) :: rest.
Proof.
  revert s done cur. induction fuel as [|fuel IH]; intros s done cur; simpl.
  { intros [= <-]. exists [], []. by rewrite app_nil_r. }
  destruct s as [|ch rest]; [intros [= <-]; exists [], []; by rewrite app_nil_r|].
  destruct (scan_turn ch rest) as [|r|w r]; [done|..]; intros (more & rs & ->)%IH.
  - exists [], (([] ++ more) :: rs). by rewrite app_nil_r, <- app_assoc.
  - exists (option_list w ++ more), rs. by rewrite app_assoc.
Qed.

(** The scan of a text with the fuel [is_proven_read_only_cypher] gives it. *)
Definition scan_all (s : text) := scan (length s) s.

Lemma scan_all_cons ch rest done cur :
  scan_all (ch :: rest) done cur =
  match scan_turn ch rest with
  | Refused => None
  | Separator r => scan_all r (done ++ [cur]) []
  | Token w r => scan_all r done (cur ++ option_list w)
  end.
Proof.
  unfold scan_all. simpl. pose proof (scan_turn_length ch rest).
  destruct (scan_turn ch rest); [done|apply scan_fuel; lia..].
Qed.

Lemma space_not_word : is_word_char 32 = false.
Proof. unfold is_word_char. by rewrite alphanumeric_ascii by lia. Qed.

(** A word stops at a space at the latest. *)
Lemma span_word_space p rest : exists a b, p = a ++ b /\ span_word (p ++ 32%Z :: rest) = (a, b ++ 32%Z :: rest).
Proof.
  induction p as [|c p IH]; simpl.
  - exists [], []. by rewrite space_not_word.
  - destruct (is_word_char c); [|by exists [], (c :: p)].
    destruct IH as (a & b & -> & ->). by exists (c :: a), b.
Qed.

Lemma letter_turn ch rest :
  is_ascii_alphabetic ch || (ch =? 95)%Z = true ->
  scan_turn ch rest = Token (Some (map to_ascii_uppercase (ch :: (span_word rest).1))) (span_word rest).2.
Proof.
  intros Hl. unfold scan_turn. rewrite Hl. destruct (span_word rest).
  unfold is_ascii_alphabetic, is_ascii_uppercase, is_ascii_lowercase in Hl.
  assert (((ch =? 47) = false /\ (ch =? 39) = false /\ (ch =? 34) = false /\ (ch =? 96) = false /\ (ch =? 59) = false)%Z)
    as (-> & -> & -> & -> & ->) by lia. done.
Qed.

Lemma letter_not_guard ch a : is_ascii_alphabetic ch || (ch =? 95)%Z = true ->
  is_guard (Some (map to_ascii_uppercase (ch :: a))) = false.
Proof.
  intros Hl. simpl. destruct (map to_ascii_uppercase a); [|done].
  unfold to_ascii_uppercase, is_ascii_alphabetic, is_ascii_uppercase, is_ascii_lowercase in *. case_match; lia.
Qed.

(** Scanning plain text pushes words that guard nothing. *)
Lemma scan_plain p rest done cur :
  Forall (fun c => is_plain c = true) p ->
  exists ws, Forall (fun w => is_guard (Some w) = false) ws /\
    scan_all (p ++ 32%Z :: rest) done cur = scan_all (32%Z :: rest) done (cur ++ ws).
Proof.
  enough (forall n p cur, length p <= n -> Forall (fun c => is_plain c = true) p ->
    exists ws, Forall (fun w => is_guard (Some w) = false) ws /\
      scan_all (p ++ 32%Z :: rest) done cur = scan_all (32%Z :: rest) done (cur ++ ws)) as He
    by (intros Hp; by apply (He (length p))).
  clear p cur. induction n as [|n IH]; intros p cur Hn Hp.
  { destruct p; simpl in *; [|lia]. exists []. by rewrite app_nil_r. }
  destruct Hp as [|ch p Hch Hp]; [exists []; by rewrite app_nil_r|]. simpl in Hn.
  cbn [app]. rewrite scan_all_cons. destruct (is_ascii_alphabetic ch || (ch =? 95)%Z) eqn:El.
  - rewrite letter_turn by done. destruct (span_word_space p rest) as (a & b & -> & ->). cbn [fst snd].
    rewrite length_app in Hn. apply Forall_app in Hp as [_ Hb].
    destruct (IH b (cur ++ option_list (Some (map to_ascii_uppercase (ch :: a))))) as (ws & Hws & Heq); [lia|done|].
    exists (map to_ascii_uppercase (ch :: a) :: ws). split; [constructor; [by apply letter_not_guard|done]|].
    rewrite <- app_assoc in Heq. exact Heq.
  - assert (Ht : scan_turn ch (p ++ 32%Z :: rest) =
      Token (if negb (is_whitespace ch) then Some (txt "<symbol>") else None) (p ++ 32%Z :: rest)).
    { unfold scan_turn. rewrite El. unfold is_plain in Hch.
      assert (((ch =? 47) = false /\ (ch =? 39) = false /\ (ch =? 34) = false /\ (ch =? 96) = false /\
        (ch =? 59) = false /\ (ch =? 46) = false /\ (ch =? 58) = false /\ (ch =? 36) = false)%Z)
        as (-> & -> & -> & -> & -> & -> & -> & ->) by lia.
      by destruct (is_whitespace ch). }
    rewrite Ht. destruct (negb (is_whitespace ch)); cbn [option_list].
    + destruct (IH p (cur ++ [txt "<symbol>"])) as (ws & Hws & Heq); [lia|done|].
      exists (txt "<symbol>" :: ws). split; [by constructor|]. rewrite <- app_assoc in Heq. exact Heq.
    + rewrite app_nil_r. apply IH; [lia|done].
Qed.

Lemma space_turn rest done cur : scan_all (32%Z :: rest) done cur = scan_all rest done cur.
Proof. rewrite scan_all_cons. simpl. by rewrite app_nil_r. Qed.

(** A keyword between spaces becomes a word. *)
Lemma scan_keyword kw post done cur :
  kw <> [] -> Forall (fun c => is_ascii_alphabetic c = true) kw ->
  scan_all (32%Z :: kw ++ 32%Z :: post) done cur = scan_all post done (cur ++ [map to_ascii_uppercase kw]).
Proof.
  intros Hne Hall. rewrite space_turn. destruct Hall as [|ch kw Hch Hall]; [done|]. cbn [app].
  rewrite scan_all_cons, letter_turn by (by rewrite Hch).
  assert (Hs : span_word (kw ++ 32%Z :: post) = (kw, 32%Z :: post)).
  { clear -Hall alphanumeric_ascii. induction Hall as [|c kw Hc Hall IH]; simpl; [by rewrite space_not_word|].
    assert (Hw : is_word_char c = true).
    { unfold is_word_char. assert (0 <= c < 128)%Z.
      { unfold is_ascii_alphabetic, is_ascii_uppercase, is_ascii_lowercase in Hc. lia. }
      rewrite alphanumeric_ascii by done. unfold is_ascii_alphanumeric. by rewrite Hc. }
    by rewrite Hw, IH. }
  rewrite Hs. cbn [fst snd option_list]. by rewrite space_turn.
Qed.

(** What may follow the keyword: nothing, or a word. *)
Definition word_or_end (post : text) : Prop :=
  match post with [] => True | c :: _ => is_ascii_alphabetic c = true end.

Lemma scan_after_keyword post done cur sts :
  word_or_end post -> scan_all post done cur = Some sts ->
  exists more rest, sts = done ++ (cur ++ more) :: rest /\ is_colon (head more) = false.
Proof.
  intros Hp Hs. destruct post as [|c post].
  { unfold scan_all in Hs. simpl in Hs. injection Hs as <-. exists [], []. by rewrite app_nil_r. }
  simpl in Hp. rewrite scan_all_cons, letter_turn in Hs by (by rewrite Hp).
  apply scan_extends in Hs as (more & rest & ->). cbn [option_list].
  eexists (map to_ascii_uppercase (c :: (span_word post).1) :: more), rest. rewrite <- app_assoc. split; [done|].
  pose proof (letter_not_guard c (span_word post).1 ltac:(by rewrite Hp)) as Hg. simpl in *.
  destruct (map to_ascii_uppercase (span_word post).1); [|done]. apply orb_false_iff in Hg as [Hg _].
  by apply orb_false_iff in Hg as [_ ?].
Qed.

Lemma has_unsafe_found previous ws kw more :
  kw ∈ UNSAFE_WORDS -> is_guard previous = false -> Forall (fun w => is_guard (Some w) = false) ws ->
  is_colon (head more) = false -> has_unsafe previous (ws ++ kw :: more) = true.
Proof.
  intros Hk Hp Hws Hm. revert previous Hp. induction Hws as [|w ws Hw Hws IH]; intros previous Hp; simpl.
  - by rewrite bool_decide_true, Hp, Hm.
  - rewrite IH by done. apply orb_true_r.
Qed.

(** Nothing that comes after can make a write look read-only: a source whose
    plain beginning (no quotes, comments, separators or name prefixes) is
    followed by an unsafe keyword between spaces, in any letter case, and then
    by a word or the end, is refused, whatever the rest of the source is. *)
Theorem unsafe_keyword_is_refused p kw post :
  Forall (fun c => is_plain c = true) p ->
  kw <> [] -> Forall (fun c => is_ascii_alphabetic c = true) kw -> map to_ascii_uppercase kw ∈ UNSAFE_WORDS ->
  word_or_end post ->
  is_proven_read_only_cypher (p ++ 32%Z :: kw ++ 32%Z :: post) = false.
Proof.
  intros Hp Hne Hkw Hunsafe Hpost. unfold is_proven_read_only_cypher.
  destruct (contains_unicode_escape _); [done|]. fold (scan_all (p ++ 32%Z :: kw ++ 32%Z :: post)).
  destruct (scan_plain p (kw ++ 32%Z :: post) [] [] Hp) as (ws & Hws & ->).
  rewrite scan_keyword by done.
  destruct (scan_all post [] _) as [sts|] eqn:Es; [|done].
  apply scan_after_keyword in Es as (more & rest & -> & Hm); [|done].
  assert (Heq : (([] ++ ws) ++ [map to_ascii_uppercase kw]) ++ more = ws ++ map to_ascii_uppercase kw :: more)
    by by rewrite <- app_assoc.
  rewrite Heq. cbn [app].
  assert (Hro : statement_read_only (ws ++ map to_ascii_uppercase kw :: more) = false).
  { unfold statement_read_only. rewrite has_unsafe_found by done.
    destruct (ws ++ map to_ascii_uppercase kw :: more); [done|]. by rewrite andb_false_r. }
  assert (Hn : negb (is_nil (ws ++ map to_ascii_uppercase kw :: more)) = true) by by destruct ws.
  cbn [List.filter]. rewrite Hn. cbn [forallb]. rewrite Hro. simpl. done.
Qed.

End Scanner.

Module CypherDemo.

Lemma unsafe_keyword_is_refused_witness :
  is_proven_read_only_cypher is_ascii_alphanumeric (txt "MATCH (n) set n.x = 1 RETURN n") = false.
Proof.
  apply (unsafe_keyword_is_refused is_ascii_alphanumeric (fun c _ => eq_refl) (txt "MATCH (n)") (txt "set")
    (txt "n.x = 1 RETURN n")).
  - repeat constructor.
  - discriminate.
  - repeat constructor.
  - apply list_elem_of_In. vm_compute. auto 10.
  - reflexivity.
Defined.

Example reads_pass :
  is_proven_read_only_cypher is_ascii_alphanumeric (txt "MATCH (n)-->(m) WHERE n.set = 'DROP' RETURN n; SHOW DATABASES") = true.
Proof. vm_compute. reflexivity. Qed.

(** A backslash inside backticks is taken for an escape, so the clause between
    the two backticks below counts as quoted. *)
Example backslash_in_backticks_hides_a_clause :
  is_proven_read_only_cypher is_ascii_alphanumeric
    (txt "MATCH (n) WITH n, n.RETURN AS r, n.`a\` AS b SET n.x = 1 RETURN n //`") = true.
Proof. vm_compute. reflexivity. Qed.

End CypherDemo.
