(* ===== verification/SqlErrorPosition.v ===== *)
(** * SQL error positions

    Models [crates/dbx-sql-core/src/sql_error_position.rs]: the suffix that
    carries PostgreSQL's cursor through error strings, and its resolution into
    a line, a column and an offset.  Messages are UTF-8 bytes; a statement is
    its Unicode scalar values, which is what the cursor counts. *)

From S2P Require Import Prelude.

Definition SQL_ERROR_POSITION_MARKER : text := 10%Z :: txt "DBX_SQL_ERROR_POSITION:".

Record SqlErrorPosition := { line : Z; column : Z; offset : Z }.

(** [u32] arithmetic of the release profile. *)
Definition as_u32 (n : Z) : Z := (n mod 2 ^ 32)%Z.

(** The loop of [from_pg_cursor] over [chars().enumerate()]. *)
Fixpoint locate (target index : Z) (line column : Z) (s : text) : option SqlErrorPosition :=
  match s with
  | [] => None
  | ch :: rest =>
    if (as_u32 index =? target)%Z then Some {| line := line; column := column; offset := target |}
    else if (ch =? 10)%Z then locate target (index + 1) (as_u32 (line + 1)) 1 rest
    else locate target (index + 1) line (as_u32 (column + 1)) rest
  end.

Definition from_pg_cursor (statement_sql : text) (cursor : Z) : option SqlErrorPosition :=
  if (cursor =? 0)%Z then None
  else
    let total := as_u32 (Z.of_nat (length statement_sql)) in
    if (total =? 0)%Z then None
    else locate (Z.min (cursor - 1) (total - 1)) 0 1 1 statement_sql.

Definition encode_marker (cursor : Z) : text := SQL_ERROR_POSITION_MARKER ++ decimal cursor.

(** [str::rfind]: the last position at which the pattern starts. *)
Fixpoint rfind (pat s : text) : option nat :=
  match s with
  | [] => None
  | _ :: rest =>
    match rfind pat rest with
    | Some i => Some (S i)
    | None => if bool_decide (pat `prefix_of` s) then Some 0 else None
    end
  end.

Definition take_marker (message : text) : option (Z * text) :=
  match rfind SQL_ERROR_POSITION_MARKER message with
  | None => None
  | Some index =>
    let '(digits, tail) := span is_ascii_digit (drop (index + length SQL_ERROR_POSITION_MARKER) message) in
    match parse_unsigned u32_max digits with
    | None => None
    | Some cursor => Some (cursor, take index message ++ tail)
    end
  end.

(** Every marker taken makes the message shorter, so its length is enough fuel. *)
Fixpoint take_all_markers_fuel (fuel : nat) (message : text) (cursors : list Z) : list Z * text :=
  match fuel with
  | 0 => (cursors, message)
  | S fuel' =>
    match take_marker message with
    | Some (cursor, message') => take_all_markers_fuel fuel' message' (cursors ++ [cursor])
    | None => (cursors, message)
    end
  end.

Definition take_all_markers (message : text) : list Z * text := take_all_markers_fuel (length message) message [].

Definition strip_marker (message : text) : text := (take_all_markers message).2.

Definition take_message_position (message statement_sql : text) : text * option SqlErrorPosition :=
  let '(cursors, cleaned) := take_all_markers message in
  match cursors with
  | [cursor] => (cleaned, from_pg_cursor statement_sql cursor)
  | _ => (cleaned, None)
  end.

(** ** Positions *)

Definition newlines (s : text) : Z := Z.of_nat (length (List.filter (fun c => c =? 10)%Z s)).

(** The characters after the last newline. *)
Fixpoint last_line (s : text) : text :=
  match s with
  | [] => []
  | c :: rest => if existsb (fun c => c =? 10)%Z rest then last_line rest else if (c =? 10)%Z then rest else s
  end.

Lemma last_line_snoc s c : last_line (s ++ [c]) = if (c =? 10)%Z then [] else last_line s ++ [c].
Proof.
  induction s as [|d s IH]; simpl; [by destruct (c =? 10)%Z|]. rewrite existsb_app, IH. simpl.
  destruct (c =? 10)%Z; simpl; [by rewrite orb_true_r|]. rewrite !orb_false_r.
  destruct (existsb _ s); [done|]. by destruct (d =? 10)%Z.
Qed.

Lemma newlines_snoc s c : newlines (s ++ [c]) = (newlines s + if (c =? 10)%Z then 1 else 0)%Z.
Proof. unfold newlines. rewrite List.filter_app, length_app. simpl. destruct (c =? 10)%Z; simpl; lia. Qed.

Lemma newlines_bound s : (0 <= newlines s <= Z.of_nat (length s))%Z.
Proof. unfold newlines. pose proof (filter_length_le (fun c => c =? 10)%Z s). lia. Qed.

Lemma last_line_bound s : length (last_line s) <= length s.
Proof. induction s as [|c s IH]; simpl; [done|]. repeat case_match; simpl; lia. Qed.

Lemma as_u32_small n : (0 <= n < 2 ^ 32)%Z -> as_u32 n = n.
Proof. apply Z.mod_small. Qed.

Lemma locate_spec target pre s :
  (Z.of_nat (length pre) <= target < Z.of_nat (length (pre ++ s)))%Z ->
  (Z.of_nat (length (pre ++ s)) < 2 ^ 32)%Z ->
  locate target (Z.of_nat (length pre)) (1 + newlines pre) (1 + Z.of_nat (length (last_line pre))) s =
  Some {| line := 1 + newlines (take (Z.to_nat target) (pre ++ s));
          column := 1 + Z.of_nat (length (last_line (take (Z.to_nat target) (pre ++ s)))); offset := target |}.
Proof.
  revert pre. induction s as [|c s IH]; intros pre Ht Hlen; rewrite length_app in *; simpl length in *; [lia|].
  pose proof (newlines_bound pre). pose proof (last_line_bound pre). cbn [locate].
  rewrite as_u32_small by lia. destruct (Z.eqb_spec (Z.of_nat (length pre)) target) as [He|Hne].
  - rewrite <- He, Nat2Z.id, take_app_length. done.
  - specialize (IH (pre ++ [c])). rewrite length_app in IH. cbn [length] in IH.
    rewrite newlines_snoc, last_line_snoc, <- app_assoc in IH. cbn [app] in IH. rewrite length_app in IH.
    specialize (IH ltac:(simpl; lia) ltac:(simpl; lia)). rewrite <- IH.
    destruct (c =? 10)%Z; simpl length; rewrite as_u32_small by lia; f_equal; rewrite ?length_app; simpl length; lia.
Qed.

(** A cursor resolves to the place it points at: for a statement of less than
    2^32 characters, [from_pg_cursor] answers exactly when the cursor is positive
    and the statement is not empty, the offset is the cursor counted from zero
    and clamped to the last character, the line is one more than the newlines
    before it and the column one more than the characters since the last of
    them, none of which overflows. *)
Theorem from_pg_cursor_points_at_cursor sql cursor :
  (0 <= cursor)%Z -> (Z.of_nat (length sql) < 2 ^ 32)%Z ->
  from_pg_cursor sql cursor =
  if bool_decide (cursor = 0%Z \/ sql = []) then None
  else
    let target := Z.min (cursor - 1) (Z.of_nat (length sql) - 1) in
    let before := take (Z.to_nat target) sql in
    Some {| line := 1 + newlines before; column := 1 + Z.of_nat (length (last_line before)); offset := target |}.
Proof.
  intros Hc Hl. unfold from_pg_cursor. rewrite as_u32_small by lia.
  destruct (Z.eqb_spec cursor 0); [by rewrite bool_decide_true by auto|].
  destruct (Z.eqb_spec (Z.of_nat (length sql)) 0) as [He|Hn].
  { destruct sql; [|simpl in He; lia]. by rewrite bool_decide_true by auto. }
  rewrite bool_decide_false; [|intros [?| ->]; [done|by simpl in Hn]].
  change 0%Z with (Z.of_nat (length (@nil Z))) at 1.
  apply (locate_spec _ [] sql); simpl app; simpl length; lia.
Qed.

(** ** Markers *)

Lemma marker_head s : SQL_ERROR_POSITION_MARKER `prefix_of` s -> head s = Some 10%Z.
Proof. intros [k ->]. done. Qed.

Lemma rfind_skip x t :
  Forall (fun c => c <> 10%Z) x -> rfind SQL_ERROR_POSITION_MARKER t = None ->
  rfind SQL_ERROR_POSITION_MARKER (x ++ t) = None.
Proof.
  intros Hx Ht. induction Hx as [|c x Hc Hx IH]; [done|]. cbn [app rfind]. rewrite IH, bool_decide_false; [done|].
  intros Hp%marker_head. simpl in Hp. congruence.
Qed.

(** The last marker is found where it was put. *)
Lemma rfind_last a x t :
  Forall (fun c => c <> 10%Z) x -> rfind SQL_ERROR_POSITION_MARKER t = None ->
  rfind SQL_ERROR_POSITION_MARKER (a ++ SQL_ERROR_POSITION_MARKER ++ x ++ t) = Some (length a).
Proof.
  intros Hx Ht. induction a as [|c a IH]; [|cbn [app rfind]; by rewrite IH].
  assert (Hn : rfind SQL_ERROR_POSITION_MARKER (txt "DBX_SQL_ERROR_POSITION:" ++ x ++ t) = None).
  { apply rfind_skip; [repeat constructor; discriminate|]. by apply rfind_skip. }
  change (SQL_ERROR_POSITION_MARKER ++ x ++ t) with (10%Z :: txt "DBX_SQL_ERROR_POSITION:" ++ x ++ t).
  cbn [app rfind]. rewrite Hn, bool_decide_true; [done|]. by exists (x ++ t).
Qed.

Lemma rfind_suffix a b : rfind SQL_ERROR_POSITION_MARKER (a ++ b) = None -> rfind SQL_ERROR_POSITION_MARKER b = None.
Proof. induction a as [|c a IH]; [done|]. cbn [app rfind]. destruct (rfind _ (a ++ b)); [done|]. auto. Qed.

Lemma digits_no_newline s : Forall (fun c => is_ascii_digit c = true) s -> Forall (fun c => c <> 10%Z) s.
Proof. intros Hs. eapply Forall_impl; [exact Hs|]. intros c Hc ->. done. Qed.

Definition starts_with_digit (s : text) : bool := match s with c :: _ => is_ascii_digit c | [] => false end.

(** Taking the last marker of a message, by what its digits parse to. *)
Lemma take_marker_last a digits t :
  Forall (fun c => is_ascii_digit c = true) digits -> starts_with_digit t = false ->
  rfind SQL_ERROR_POSITION_MARKER t = None ->
  take_marker (a ++ SQL_ERROR_POSITION_MARKER ++ digits ++ t) =
  match parse_unsigned u32_max digits with Some c => Some (c, a ++ t) | None => None end.
Proof.
  intros Hd Ht Hr. unfold take_marker. rewrite rfind_last by (done || by apply digits_no_newline).
  rewrite app_assoc, drop_app_length', <- app_assoc by (by rewrite length_app).
  rewrite span_exact; [|done|by destruct t]. rewrite take_app_length. done.
Qed.

Lemma take_marker_none s : rfind SQL_ERROR_POSITION_MARKER s = None -> take_marker s = None.
Proof. unfold take_marker. by intros ->. Qed.

Lemma take_all_step fuel s c s' cursors :
  take_marker s = Some (c, s') ->
  take_all_markers_fuel (S fuel) s cursors = take_all_markers_fuel fuel s' (cursors ++ [c]).
Proof. simpl. by intros ->. Qed.

Lemma take_all_none fuel s cursors : take_marker s = None -> take_all_markers_fuel fuel s cursors = (cursors, s).
Proof. destruct fuel; simpl; [done|]. by intros ->. Qed.

Lemma parse_decimal_u32 n : (0 <= n)%Z ->
  parse_unsigned u32_max (decimal n) = if (n <=? u32_max)%Z then Some n else None.
Proof.
  intros Hn. destruct (Z.leb_spec n u32_max) as [Hle|Hgt]; [by apply parse_decimal|].
  destruct (parse_unsigned u32_max (decimal n)) as [m|] eqn:E; [|done].
  pose proof (parse_unsigned_bounds u32_max _ _ ltac:(done) E) as Hb.
  assert (Hm : parse_unsigned n (decimal n) = Some m).
  { clear -E Hgt. unfold parse_unsigned in *. destruct (strip_plus (decimal n)) as [|c l]; [done|].
    revert E. generalize 0%Z as acc. generalize (c :: l) as s. induction s as [|d s IH]; intros acc; [done|].
    cbn [parse_digits]. destruct (is_ascii_digit d); [|done].
    destruct (Z.leb_spec (acc * 10 + (d - 48)) u32_max); [|done].
    rewrite (proj2 (Z.leb_le (acc * 10 + (d - 48)) n)) by lia. apply IH. }
  rewrite parse_decimal in Hm by lia. simplify_eq. lia.
Qed.

(** A cursor survives the string that carries it: a message to which
    [encode_marker] was appended, even with more text behind, gives the message
    back without the marker and the position of that cursor, as long as the
    message and the text behind carry no marker of their own and the text does
    not start with a digit. *)
Theorem marker_round_trip msg tail cursor sql :
  (0 <= cursor <= u32_max)%Z -> rfind SQL_ERROR_POSITION_MARKER (msg ++ tail) = None ->
  starts_with_digit tail = false ->
  take_message_position (msg ++ encode_marker cursor ++ tail) sql = (msg ++ tail, from_pg_cursor sql cursor) /\
  strip_marker (msg ++ encode_marker cursor ++ tail) = msg ++ tail.
Proof.
  intros Hc Hn Ht. pose proof (rfind_suffix _ _ Hn) as Hr.
  assert (Hm : take_marker (msg ++ encode_marker cursor ++ tail) = Some (cursor, msg ++ tail)).
  { unfold encode_marker. rewrite <- app_assoc. rewrite take_marker_last; [|apply decimal_digits; lia|done|done].
    by rewrite parse_decimal. }
  assert (Ha : take_all_markers (msg ++ encode_marker cursor ++ tail) = ([cursor], msg ++ tail)).
  { unfold take_all_markers. destruct (length (msg ++ encode_marker cursor ++ tail)) as [|fuel] eqn:El.
    { rewrite !length_app in El. unfold encode_marker in El. rewrite length_app in El. simpl in El. lia. }
    rewrite (take_all_step _ _ _ _ _ Hm). by apply take_all_none, take_marker_none. }
  unfold take_message_position, strip_marker. by rewrite Ha.
Qed.

(** A marker whose number does not fit a [u32] is not stripped: the message
    comes back with the marker in it, and so does every marker before it. *)
Theorem oversized_marker_is_not_stripped msg n tail sql :
  (u32_max < n)%Z -> rfind SQL_ERROR_POSITION_MARKER tail = None -> starts_with_digit tail = false ->
  let m := msg ++ SQL_ERROR_POSITION_MARKER ++ decimal n ++ tail in
  strip_marker m = m /\ take_message_position m sql = (m, None) /\
  rfind SQL_ERROR_POSITION_MARKER (strip_marker m) = Some (length msg).
Proof.
  intros Hn Hr Ht m. assert (Hpos : (0 <= n)%Z) by (unfold u32_max in Hn; lia).
  pose proof (decimal_digits n Hpos) as Hd.
  assert (Hm : take_marker m = None).
  { unfold m. rewrite take_marker_last by done. rewrite parse_decimal_u32 by done.
    by rewrite (proj2 (Z.leb_gt n u32_max)) by done. }
  assert (Ha : take_all_markers m = ([], m)) by (unfold take_all_markers; by apply take_all_none).
  unfold strip_marker, take_message_position. rewrite Ha. split_and!; [done..|].
  apply rfind_last; [by apply digits_no_newline|done].
Qed.

Module ErrorPositionDemo.

Lemma from_pg_cursor_points_at_cursor_witness :
  from_pg_cursor (txt "SELECT *" ++ 10%Z :: txt "FROM t") 15 = Some {| line := 2; column := 6; offset := 14 |}.
Proof.
  rewrite (from_pg_cursor_points_at_cursor (txt "SELECT *" ++ 10%Z :: txt "FROM t") 15);
    [vm_compute; reflexivity|lia|vm_compute; reflexivity].
Defined.

Lemma marker_round_trip_witness :
  take_message_position (txt "bad column" ++ encode_marker 15 ++ txt "; rollback failed") (txt "SELECT no_such")
  = (txt "bad column" ++ txt "; rollback failed", from_pg_cursor (txt "SELECT no_such") 15) /\
  strip_marker (txt "bad column" ++ encode_marker 15 ++ txt "; rollback failed")
  = txt "bad column" ++ txt "; rollback failed".
Proof.
  apply (marker_round_trip (txt "bad column") (txt "; rollback failed") 15 (txt "SELECT no_such"));
    [unfold u32_max; lia|vm_compute; reflexivity|vm_compute; reflexivity].
Defined.

Lemma oversized_marker_is_not_stripped_witness :
  let m := txt "e" ++ SQL_ERROR_POSITION_MARKER ++ decimal 4294967296 ++ [] in
  strip_marker m = m /\ take_message_position m (txt "x") = (m, None) /\
  rfind SQL_ERROR_POSITION_MARKER (strip_marker m) = Some 1.
Proof.
  apply (oversized_marker_is_not_stripped (txt "e") 4294967296 [] (txt "x"));
    [reflexivity|reflexivity|reflexivity].
Defined.

End ErrorPositionDemo.
