(* ===== verification/ConfigLayers.v ===== *)
(** * Layered configuration

    Models [crates/dbx-core/src/persistence/config/]: the layers and their
    merge ([layer.rs]), the tag guard ([tag.rs]) and the trace ring buffer
    ([trace.rs]); the expressions in values are in ConfigExpression.v.  A [HashMap]
    is a [gmap]; a loop over one is a fold over [map_to_list], whose order the
    results do not depend on unless a list of messages is built. *)

From S2P Require Import Prelude Json.

(** ** Layers *)

Inductive ConfigLayer := Global | Team | Project | Env | Task.

#[global] Instance ConfigLayer_eq_dec : EqDecision ConfigLayer.
Proof. solve_decision. Defined.

Definition priority (l : ConfigLayer) : Z :=
  match l with Global => 0 | Team => 1 | Project => 2 | Env => 3 | Task => 4 end.

Definition label (l : ConfigLayer) : string :=
  match l with Global => "global" | Team => "team" | Project => "project" | Env => "env" | Task => "task" end.

Record LayerConfig := {
  layer : ConfigLayer;
  name : string;
  description : string;
  values : gmap string json;
  tags : gmap string string;
  enabled : bool;
  priority_override : option Z;
  layer_metadata : gmap string string;
}.

(** [LayerConfig::default]. *)
Definition default_layer : LayerConfig :=
  {| layer := Global; name := ""; description := ""; values := ∅; tags := ∅; enabled := true;
     priority_override := None; layer_metadata := ∅ |}.

Definition effective_priority (l : LayerConfig) : Z := default (priority l.(layer)) l.(priority_override).

Record MergedConfig := {
  m_values : gmap string json;
  m_tags : gmap string string;
  m_provenance : gmap string ConfigLayer;
}.

(** A [ConfigTree] is its layers, in the order they were added. *)
Definition add_layer (config : LayerConfig) (layers : list LayerConfig) : list LayerConfig := layers ++ [config].

(** [slice::sort_by_key] is stable. *)
Fixpoint insert_by_priority (x : LayerConfig) (l : list LayerConfig) : list LayerConfig :=
  match l with
  | [] => [x]
  | y :: rest =>
    if (effective_priority x <=? effective_priority y)%Z then x :: l else y :: insert_by_priority x rest
  end.

Definition sort_by_priority (l : list LayerConfig) : list LayerConfig := foldr insert_by_priority [] l.

Definition insert_all {A} (src : gmap string A) (dst : gmap string A) : gmap string A :=
  foldl (fun m kv => <[kv.1 := kv.2]> m) dst (map_to_list src).

Definition merge_layer (m : MergedConfig) (l : LayerConfig) : MergedConfig :=
  {| m_values := insert_all l.(values) m.(m_values);
     m_tags := insert_all l.(tags) m.(m_tags);
     m_provenance := foldl (fun p kv => <[kv.1 := l.(layer)]> p) m.(m_provenance) (map_to_list l.(values)) |}.

Definition empty_merged : MergedConfig := {| m_values := ∅; m_tags := ∅; m_provenance := ∅ |}.

(** [merge] never fails. *)
Definition merge (layers : list LayerConfig) : MergedConfig :=
  foldl merge_layer empty_merged (sort_by_priority (List.filter enabled layers)).

(** [validate]: the messages, by kind. *)
Inductive layer_error :=
| EmptyName (index : nat)
| NoValuesOrTags (name : string) (l : ConfigLayer)
| DuplicateKey (key : string) (previous index : nat).

Definition map_is_empty {A} (m : gmap string A) : bool := bool_decide (m = ∅).

Fixpoint validate_keys (i : nat) (keys : list string) (seen : gmap string nat) : list layer_error * gmap string nat :=
  match keys with
  | [] => ([], seen)
  | key :: rest =>
    let '(errors, seen') :=
      validate_keys i rest (match seen !! key with Some _ => seen | None => <[key := i]> seen end) in
    ((match seen !! key with Some prev => [DuplicateKey key prev i] | None => [] end) ++ errors, seen')
  end.

Fixpoint validate_layers (i : nat) (layers : list LayerConfig) (seen : gmap string nat) : list layer_error :=
  match layers with
  | [] => []
  | l :: rest =>
    let '(key_errors, seen') := validate_keys i (map_to_list l.(values)).*1 seen in
    (if String.eqb l.(name) "" then [EmptyName i] else []) ++
    (if map_is_empty l.(values) && map_is_empty l.(tags) then [NoValuesOrTags l.(name) l.(layer)] else []) ++
    key_errors ++ validate_layers (S i) rest seen'
  end.

Definition validate (layers : list LayerConfig) : result unit (list layer_error) :=
  match validate_layers 0 layers ∅ with [] => Ok tt | errors => Err errors end.

(** ** Tags *)

Inductive TagPolicy := Allow | Block | Strict.

Record BusinessTag := { tag_key : string; tag_value : string; tag_description : string; immutable : bool }.

Record TagInheritanceWhitelist := { allowed_keys : gset string; default_policy : TagPolicy }.

Definition is_allowed (w : TagInheritanceWhitelist) (key : string) : bool :=
  match w.(default_policy) with
  | Allow => true
  | Block | Strict => bool_decide (key ∈ w.(allowed_keys))
  end.

Record TagValidationResult := { allowed : list BusinessTag; blocked : list BusinessTag; violations : list string }.

Record TagValidator := { whitelist : TagInheritanceWhitelist; strict_mode : bool }.

Definition blocked_message (strict : bool) (t : BusinessTag) : string :=
  if strict
  then "BLOCKED: Tag '" +:+ t.(tag_key) +:+ "'='" +:+ t.(tag_value) +:+ "' is not in whitelist (strict mode)"
  else "BLOCKED: Tag '" +:+ t.(tag_key) +:+ "'='" +:+ t.(tag_value) +:+ "' is not in whitelist".

Definition strict_message (t : BusinessTag) (base_val : string) : string :=
  "STRICT VIOLATION: Tag '" +:+ t.(tag_key) +:+ "'='" +:+ t.(tag_value) +:+ "' differs from base value '"
  +:+ base_val +:+ "'".

Definition validate_tag (v : TagValidator) (base_tags : gmap string string) (r : TagValidationResult) (t : BusinessTag)
    : TagValidationResult :=
  if negb (is_allowed v.(whitelist) t.(tag_key)) then
    {| allowed := r.(allowed); blocked := r.(blocked) ++ [t];
       violations := r.(violations) ++ [blocked_message v.(strict_mode) t] |}
  else
    {| allowed := r.(allowed) ++ [t]; blocked := r.(blocked);
       violations := r.(violations) ++
         match base_tags !! t.(tag_key) with
         | Some base_val =>
           if bool_decide (t.(tag_value) <> base_val) && v.(strict_mode) then [strict_message t base_val] else []
         | None => []
         end |}.

Definition validate_tags (v : TagValidator) (ts : list BusinessTag) (base_tags : gmap string string)
    : TagValidationResult :=
  foldl (validate_tag v base_tags) {| allowed := []; blocked := []; violations := [] |} ts.

Definition is_nil {A} (l : list A) : bool := match l with [] => true | _ => false end.

Definition has_blocking_violations (v : TagValidator) (r : TagValidationResult) : bool :=
  if v.(strict_mode) then negb (is_nil r.(violations)) else negb (is_nil r.(blocked)).

Record BlockStats := {
  total_tags : nat;
  blocked_count : nat;
  violation_count : nat;
  by_key : gmap string nat;
  bs_strict_mode : bool;
}.

Definition from_validation (r : TagValidationResult) (strict : bool) : BlockStats :=
  {| total_tags := length r.(allowed) + length r.(blocked); blocked_count := length r.(blocked);
     violation_count := length r.(violations);
     by_key := foldl (fun m t => <[t.(tag_key) := S (default 0 (m !! t.(tag_key)))]> m) ∅ r.(blocked);
     bs_strict_mode := strict |}.

Record TagGuard := { validator : TagValidator; stats : list BlockStats }.

Definition validate_and_collect (g : TagGuard) (ts : list BusinessTag) (base_tags : gmap string string)
    : TagValidationResult * TagGuard :=
  let r := validate_tags g.(validator) ts base_tags in
  (r, {| validator := g.(validator); stats := g.(stats) ++ [from_validation r g.(validator).(strict_mode)] |}).

Definition blocking_summary (g : TagGuard) : nat * nat * nat :=
  (sum_list (map blocked_count g.(stats)), sum_list (map violation_count g.(stats)), sum_list (map total_tags g.(stats))).

Definition tag_of (kv : string * string) : BusinessTag :=
  {| tag_key := kv.1; tag_value := kv.2; tag_description := ""; immutable := false |}.

Definition merge_with_guard (layers : list LayerConfig) (g : TagGuard) : result MergedConfig string * TagGuard :=
  let merged := merge layers in
  let '(r, g) := validate_and_collect g (map tag_of (map_to_list merged.(m_tags))) ∅ in
  if has_blocking_violations g.(validator) r then
    let '(blocked, violations, _) := blocking_summary g in
    (Err ("Tag guard blocked config merge: " +:+ pretty blocked +:+ " tags blocked, " +:+ pretty violations
          +:+ " violations"), g)
  else (Ok merged, g).

(** ** Trace ring buffer *)

Record TraceEntry := { te_timestamp : Z; te_layer : ConfigLayer; te_key : string; te_action : string; te_detail : string }.

Record TraceRingBuffer := { capacity : nat; entries : list TraceEntry }.

Definition new_trace (capacity : nat) : TraceRingBuffer := {| capacity := capacity; entries := [] |}.

Definition push (e : TraceEntry) (b : TraceRingBuffer) : TraceRingBuffer :=
  {| capacity := b.(capacity);
     entries := (if (b.(capacity) <=? length b.(entries))%nat then drop 1 b.(entries) else b.(entries)) ++ [e] |}.

Definition clear_trace (b : TraceRingBuffer) : TraceRingBuffer := {| capacity := b.(capacity); entries := [] |}.

Definition filter_by_layer (l : ConfigLayer) (b : TraceRingBuffer) : list TraceEntry :=
  List.filter (fun e => bool_decide (e.(te_layer) = l)) b.(entries).

Definition filter_by_action (action : string) (b : TraceRingBuffer) : list TraceEntry :=
  List.filter (fun e => String.eqb e.(te_action) action) b.(entries).

Definition recent (n : nat) (b : TraceRingBuffer) : list TraceEntry :=
  take (Nat.min n (length b.(entries))) (reverse b.(entries)).

Definition bump (k : string) (m : gmap string nat) : gmap string nat := <[k := S (default 0 (m !! k))]> m.

Record TraceStats := {
  total_entries : nat;
  st_capacity : nat;
  action_counts : gmap string nat;
  layer_counts : gmap string nat;
}.

Definition trace_stats (b : TraceRingBuffer) : TraceStats :=
  {| total_entries := length b.(entries); st_capacity := b.(capacity);
     action_counts := foldl (fun m e => bump e.(te_action) m) ∅ b.(entries);
     layer_counts := foldl (fun m e => bump (label e.(te_layer)) m) ∅ b.(entries) |}.

(** ** Who wins a merge *)

Section Winner.
Context {A : Type}.
(** The part of a layer that is merged: its values, or its tags. *)
Variable part : LayerConfig -> gmap string A.

Definition has (k : string) (l : LayerConfig) : bool := bool_decide (is_Some (part l !! k)).

(** The reference: of the enabled layers that define the key the one of the
    highest priority, and of several such the one added last. *)
Fixpoint winner (k : string) (layers : list LayerConfig) : option LayerConfig :=
  match layers with
  | [] => None
  | l :: rest =>
    if enabled l && has k l then
      match winner k rest with
      | None => Some l
      | Some w => if (effective_priority w <? effective_priority l)%Z then Some l else Some w
      end
    else winner k rest
  end.

Definition last_with (k : string) (l : list LayerConfig) : option LayerConfig := last (List.filter (has k) l).

Definition by_priority (a b : LayerConfig) : Prop := (effective_priority a <= effective_priority b)%Z.

Lemma last_with_app k a b :
  last_with k (a ++ b) = match last_with k b with Some w => Some w | None => last_with k a end.
Proof. unfold last_with. rewrite List.filter_app, last_app. by destruct (last (List.filter (has k) b)). Qed.

Lemma last_with_cons k x l :
  last_with k (x :: l) = match last_with k l with Some w => Some w | None => if has k x then Some x else None end.
Proof. change (x :: l) with ([x] ++ l). rewrite last_with_app. unfold last_with at 2. simpl. by destruct (has k x). Qed.

Lemma last_with_in k l w : last_with k l = Some w -> w ∈ l.
Proof. intros Hw%last_Some_elem_of. by apply elem_of_bool_filter in Hw as [? _]. Qed.

(** Inserting splits the sorted list at the first layer that is not smaller. *)
Lemma insert_split x l :
  StronglySorted by_priority l ->
  exists a b, l = a ++ b /\ insert_by_priority x l = a ++ x :: b /\
    Forall (fun y => effective_priority y < effective_priority x)%Z a /\ Forall (by_priority x) b.
Proof.
  induction l as [|y l IH]; intros Hs; [by exists [], []|]. apply StronglySorted_inv in Hs as [Hs Hy]. simpl.
  destruct (Z.leb_spec (effective_priority x) (effective_priority y)) as [Hle|Hlt].
  - exists [], (y :: l). split_and!; [done..|]. constructor; [done|]. eapply Forall_impl; [exact Hy|].
    unfold by_priority. lia.
  - destruct (IH Hs) as (a & b & -> & -> & Ha & Hb). exists (y :: a), b. split_and!; try done. by constructor.
Qed.

Lemma insert_sorted x l : StronglySorted by_priority l -> StronglySorted by_priority (insert_by_priority x l).
Proof.
  induction l as [|y l IH]; intros Hs; simpl; [by repeat constructor|].
  pose proof Hs as [Hs' Hy]%StronglySorted_inv.
  destruct (Z.leb_spec (effective_priority x) (effective_priority y)) as [Hle|Hlt].
  - constructor; [done|]. constructor; [done|]. eapply Forall_impl; [exact Hy|]. unfold by_priority. lia.
  - constructor; [by apply IH|]. destruct (insert_split x l Hs') as (a & b & -> & -> & Ha & Hb).
    apply Forall_app in Hy as [Hya Hyb]. apply Forall_app. split; [done|]. constructor; [unfold by_priority; lia|done].
Qed.

Lemma sort_sorted l : StronglySorted by_priority (sort_by_priority l).
Proof. induction l; simpl; [constructor|]. by apply insert_sorted. Qed.

Lemma last_with_sort k layers : last_with k (sort_by_priority (List.filter enabled layers)) = winner k layers.
Proof.
  induction layers as [|l layers IH]; [done|]. simpl.
  destruct (enabled l); simpl; [|done].
  destruct (insert_split l (sort_by_priority (List.filter enabled layers)) (sort_sorted _)) as (a & b & Hl & -> & Ha & Hb).
  rewrite Hl in IH. rewrite last_with_app in IH. rewrite last_with_app, last_with_cons, <- IH.
  destruct (last_with k b) as [w|] eqn:Eb.
  - destruct (has k l); [|done]. apply last_with_in in Eb. rewrite Forall_forall in Hb.
    specialize (Hb _ Eb). unfold by_priority in Hb. by rewrite (proj2 (Z.ltb_ge _ _) Hb).
  - destruct (has k l); [|done]. destruct (last_with k a) as [w|] eqn:Ea; [|done].
    apply last_with_in in Ea. rewrite Forall_forall in Ha. specialize (Ha _ Ea).
    by rewrite (proj2 (Z.ltb_lt _ _) Ha).
Qed.

Lemma winner_enabled k layers w : winner k layers = Some w -> w ∈ layers /\ enabled w = true /\ has k w = true.
Proof.
  induction layers as [|l layers IH]; [done|]. simpl. destruct (enabled l && has k l) eqn:E.
  - apply andb_true_iff in E as [??]. destruct (winner k layers) as [w'|].
    + case_match; intros; simplify_eq; [by split_and!; [left|..]|]. destruct IH as (? & ? & ?); [done|].
      split_and!; [by right|done..].
    + intros; simplify_eq. by split_and!; [left|..].
  - intros Hw. destruct (IH Hw) as (? & ? & ?). split_and!; [by right|done..].
Qed.

(** Nobody beats the winner. *)
Lemma winner_best k layers w l :
  winner k layers = Some w -> l ∈ layers -> enabled l = true -> has k l = true ->
  (effective_priority l <= effective_priority w)%Z.
Proof.
  revert w. induction layers as [|x layers IH]; intros w Hw Hin He Hh; [by apply not_elem_of_nil in Hin|].
  simpl in Hw. apply elem_of_cons in Hin as [->|Hin].
  - rewrite He, Hh in Hw. simpl in Hw. destruct (winner k layers) as [w'|]; [|simplify_eq; lia].
    destruct (Z.ltb_spec (effective_priority w') (effective_priority x)); simplify_eq; lia.
  - destruct (winner k layers) as [w'|] eqn:Ew.
    + specialize (IH w' eq_refl Hin He Hh). destruct (enabled x && has k x); [|by simplify_eq].
      destruct (Z.ltb_spec (effective_priority w') (effective_priority x)); simplify_eq; lia.
    + exfalso. clear -Ew Hin He Hh. induction layers as [|y ls IHl]; [by apply not_elem_of_nil in Hin|].
      simpl in Ew. apply elem_of_cons in Hin as [<-|Hin].
      * rewrite He, Hh in Ew. simpl in Ew. repeat case_match; done.
      * destruct (enabled y && has k y); [|by apply IHl]. repeat case_match; done.
Qed.

End Winner.

(** Copying the members of a map into another, key by key. *)
Lemma foldl_insert_lookup {A B} (g : A -> B) (l : list (string * A)) (dst : gmap string B) k :
  NoDup l.*1 ->
  foldl (fun m kv => <[kv.1 := g kv.2]> m) dst l !! k =
  match (list_to_map l : gmap string A) !! k with Some v => Some (g v) | None => dst !! k end.
Proof.
  revert dst. induction l as [|[k0 v0] l IH]; intros dst Hnd; [done|]. apply NoDup_cons in Hnd as [Hk0 Hnd].
  simpl. rewrite IH by done. destruct (decide (k0 = k)) as [->|Hne].
  - rewrite not_elem_of_list_to_map_1 by done. by rewrite !lookup_insert_eq.
  - rewrite !lookup_insert_ne by done. done.
Qed.

Lemma copy_lookup {A B} (g : A -> B) (src : gmap string A) (dst : gmap string B) k :
  foldl (fun m kv => <[kv.1 := g kv.2]> m) dst (map_to_list src) !! k =
  match src !! k with Some v => Some (g v) | None => dst !! k end.
Proof. rewrite foldl_insert_lookup by apply NoDup_fst_map_to_list. by rewrite list_to_map_to_list. Qed.

Lemma merge_fold_lookup k ls m :
  let m' := foldl merge_layer m ls in
  m'.(m_values) !! k = match last_with values k ls with Some w => values w !! k | None => m.(m_values) !! k end /\
  m'.(m_provenance) !! k = match last_with values k ls with Some w => Some (layer w) | None => m.(m_provenance) !! k end /\
  m'.(m_tags) !! k = match last_with tags k ls with Some w => tags w !! k | None => m.(m_tags) !! k end.
Proof.
  revert m. induction ls as [|l ls IH]; intros m; [done|]. cbn [foldl]. rewrite !last_with_cons.
  destruct (IH (merge_layer m l)) as (-> & -> & ->). simpl. unfold insert_all, has.
  pose proof (copy_lookup (fun v : json => v) (values l) (m_values m) k) as Hv.
  pose proof (copy_lookup (fun _ : json => layer l) (values l) (m_provenance m) k) as Hp.
  pose proof (copy_lookup (fun v : string => v) (tags l) (m_tags m) k) as Ht. simpl in Hv, Hp, Ht.
  rewrite Hv, Hp, Ht.
  split_and!.
  - destruct (last_with values k ls); [done|]. by destruct (values l !! k) eqn:E.
  - destruct (last_with values k ls); [done|]. by destruct (values l !! k).
  - destruct (last_with tags k ls); [done|]. by destruct (tags l !! k) eqn:E.
Qed.

(** The layer of the highest priority wins a merge: every value, its
    provenance and every tag of the merged configuration come from the enabled
    layer with the highest effective priority among those that define the key,
    and among equals from the one added last; a key no enabled layer defines is
    absent; and the winner is such a layer that no other outranks. *)
Theorem merge_highest_priority_wins layers k :
  (merge layers).(m_values) !! k = (winner values k layers ≫= fun w => values w !! k) /\
  (merge layers).(m_provenance) !! k = layer <$> winner values k layers /\
  (merge layers).(m_tags) !! k = (winner tags k layers ≫= fun w => tags w !! k) /\
  (forall w, winner values k layers = Some w -> w ∈ layers /\ enabled w = true /\ is_Some (values w !! k) /\
     forall l, l ∈ layers -> enabled l = true -> is_Some (values l !! k) ->
       (effective_priority l <= effective_priority w)%Z).
Proof.
  unfold merge. destruct (merge_fold_lookup k (sort_by_priority (List.filter enabled layers)) empty_merged)
    as (Hv & Hp & Ht). rewrite !last_with_sort in Hv, Hp. rewrite last_with_sort in Ht. split_and!.
  - rewrite Hv. by destruct (winner values k layers).
  - rewrite Hp. by destruct (winner values k layers).
  - rewrite Ht. by destruct (winner tags k layers).
  - intros w Hw. destruct (winner_enabled values k layers w Hw) as (? & ? & Hh%bool_decide_eq_true).
    split_and!; try done. intros l Hl He Hs. eapply (winner_best values); [done..|]. by apply bool_decide_eq_true.
Qed.

(** ** The tag guard *)

Definition tag_allowed (v : TagValidator) (t : BusinessTag) : bool := is_allowed v.(whitelist) t.(tag_key).

(** The messages for one tag. *)
Definition tag_violations (v : TagValidator) (base_tags : gmap string string) (t : BusinessTag) : list string :=
  if negb (tag_allowed v t) then [blocked_message v.(strict_mode) t]
  else match base_tags !! t.(tag_key) with
  | Some base_val =>
    if bool_decide (t.(tag_value) <> base_val) && v.(strict_mode) then [strict_message t base_val] else []
  | None => []
  end.

(** [validate_tags] without the loop. *)
Lemma validate_tags_spec v ts base_tags :
  validate_tags v ts base_tags =
  {| allowed := List.filter (tag_allowed v) ts; blocked := List.filter (fun t => negb (tag_allowed v t)) ts;
     violations := concat (map (tag_violations v base_tags) ts) |}.
Proof.
  unfold validate_tags.
  enough (Hgen : forall r, foldl (validate_tag v base_tags) r ts =
    {| allowed := r.(allowed) ++ List.filter (tag_allowed v) ts;
       blocked := r.(blocked) ++ List.filter (fun t => negb (tag_allowed v t)) ts;
       violations := r.(violations) ++ concat (map (tag_violations v base_tags) ts) |}) by apply Hgen.
  induction ts as [|t ts IH]; intros r; simpl; [destruct r; by rewrite !app_nil_r|].
  rewrite IH. unfold validate_tag, tag_violations. fold (tag_allowed v t).
  destruct (tag_allowed v t); simpl; by rewrite <- !app_assoc.
Qed.

(** Against no base values only the blocked tags are violations. *)
Lemma no_base_violations v ts :
  is_nil (violations (validate_tags v ts ∅)) = is_nil (blocked (validate_tags v ts ∅)).
Proof.
  rewrite validate_tags_spec. simpl. induction ts as [|t ts IH]; simpl; [done|]. unfold tag_violations at 1.
  destruct (tag_allowed v t); simpl; [|done]. by rewrite lookup_empty.
Qed.

(** The guard lets a merge through exactly when every merged tag is allowed:
    in either mode [merge_with_guard] returns the merge if the whitelist allows
    the key of every merged tag and an error otherwise, and each call adds one
    record whose totals account for every tag. *)
Theorem merge_with_guard_blocks_unlisted_tags layers g :
  let ts := (merge layers).(m_tags) in
  let '(r, g') := merge_with_guard layers g in
  (r = Ok (merge layers) \/ is_ok r = false) /\
  (is_ok r = true <-> forall k v, ts !! k = Some v -> is_allowed g.(validator).(whitelist) k = true) /\
  exists s, g'.(stats) = g.(stats) ++ [s] /\ s.(total_tags) = size ts /\ s.(blocked_count) <= s.(total_tags).
Proof.
  unfold merge_with_guard, validate_and_collect. cbn [validator].
  set (ts := map tag_of (map_to_list (m_tags (merge layers)))).
  set (v := g.(validator)).
  assert (Hb : has_blocking_violations v (validate_tags v ts ∅) = negb (is_nil (blocked (validate_tags v ts ∅)))).
  { unfold has_blocking_violations. rewrite no_base_violations. by destruct (strict_mode v). }
  rewrite Hb. assert (Hiff : is_nil (blocked (validate_tags v ts ∅)) = true <->
    forall k x, (merge layers).(m_tags) !! k = Some x -> is_allowed v.(whitelist) k = true).
  { rewrite validate_tags_spec. cbn [blocked]. split.
    - intros Hn k x Hk. destruct (is_allowed (whitelist v) k) eqn:Ea; [done|].
      assert (Hin : tag_of (k, x) ∈ List.filter (fun t => negb (tag_allowed v t)) ts).
      { apply elem_of_bool_filter. split; [|unfold tag_allowed; simpl; by rewrite Ea].
        apply list_elem_of_fmap. exists (k, x). split; [done|]. by apply elem_of_map_to_list. }
      destruct (List.filter _ ts); [by apply not_elem_of_nil in Hin|done].
    - intros Hall. destruct (List.filter _ ts) as [|t l] eqn:Ef; [done|].
      assert (Hin : t ∈ List.filter (fun t => negb (tag_allowed v t)) ts) by (rewrite Ef; by left).
      apply elem_of_bool_filter in Hin as [([k x] & -> & Hk%elem_of_map_to_list)%list_elem_of_fmap Hn].
      unfold tag_allowed in Hn. simpl in Hn. by rewrite (Hall _ _ Hk) in Hn. }
  assert (Hstats : exists s, g.(stats) ++ [from_validation (validate_tags v ts ∅) v.(strict_mode)] = g.(stats) ++ [s] /\
    s.(total_tags) = size (merge layers).(m_tags) /\ s.(blocked_count) <= s.(total_tags)).
  { eexists. split; [done|]. simpl. split; [|lia]. rewrite validate_tags_spec. simpl.
    assert (Hlen : forall l, length (List.filter (tag_allowed v) l) +
      length (List.filter (fun t => negb (tag_allowed v t)) l) = length l).
    { induction l as [|t l IH]; simpl; [done|]. destruct (tag_allowed v t); simpl; lia. }
    rewrite Hlen. unfold ts. rewrite length_map. apply length_map_to_list. }
  destruct (is_nil (blocked (validate_tags v ts ∅))); cbn [negb].
  - split_and!; [by left| |done]. split; [|done]. intros _. by apply Hiff.
  - split_and!; [by right| |done]. simpl. split; [done|]. intros Hall. by apply Hiff in Hall.
Qed.

(** The policy [Strict] alone checks no values: whatever the tags and base
    values, validation under [Strict] is validation under [Block]; without the
    separate flag [strict_mode] a value that differs from its base value is
    neither reported nor blocking. *)
Theorem strict_policy_is_block keys mode ts base_tags :
  validate_tags {| whitelist := {| allowed_keys := keys; default_policy := Strict |}; strict_mode := mode |} ts base_tags
  = validate_tags {| whitelist := {| allowed_keys := keys; default_policy := Block |}; strict_mode := mode |} ts base_tags /\
  let v := {| whitelist := {| allowed_keys := keys; default_policy := Strict |}; strict_mode := false |} in
  (Forall (fun t => t.(tag_key) ∈ keys) ts ->
   violations (validate_tags v ts base_tags) = [] /\ has_blocking_violations v (validate_tags v ts base_tags) = false).
Proof.
  split; [by rewrite !validate_tags_spec|]. intros v Hall.
  assert (Hone : forall t, t.(tag_key) ∈ keys -> tag_allowed v t = true /\ tag_violations v base_tags t = []).
  { intros t Ht. assert (Ha : tag_allowed v t = true) by (unfold tag_allowed, v; simpl; by apply bool_decide_eq_true).
    split; [done|]. unfold tag_violations. rewrite Ha. simpl. destruct (base_tags !! tag_key t); [|done].
    by rewrite andb_false_r. }
  unfold has_blocking_violations. rewrite !validate_tags_spec. cbn [violations blocked strict_mode v].
  induction Hall as [|t ts Ht Hall [IH1 IH2]]; [done|]. destruct (Hone t Ht) as [Ha Hv]. cbn [map concat List.filter].
  rewrite Ha, Hv. cbn [negb app]. done.
Qed.

(** ** The ring buffer *)

(** Pushing keeps the newest entries: as many as the capacity, and at least one. *)
Lemma push_all_entries es b :
  length b.(entries) <= Nat.max 1 b.(capacity) ->
  entries (foldl (fun b e => push e b) b es) =
  drop (length (b.(entries) ++ es) - Nat.max 1 b.(capacity)) (b.(entries) ++ es).
Proof.
  revert b. induction es as [|e es IH]; intros b Hb; cbn [foldl].
  { rewrite app_nil_r. by replace (length _ - _) with 0 by lia. }
  rewrite IH; cbn [push capacity entries].
  - destruct (Nat.leb_spec (capacity b) (length (entries b))) as [Hfull|Hroom].
    + destruct (entries b) as [|x xs] eqn:Ex; simpl in *.
      * replace (Nat.max 1 (capacity b)) with 1 by lia. simpl. by rewrite !Nat.sub_0_r.
      * rewrite drop_0, <- app_assoc. simpl. rewrite !length_app. simpl.
        assert (Hm : Nat.max 1 (capacity b) = S (length xs)) by lia. rewrite Hm.
        replace (length xs + S (length es) - S (length xs)) with (length es) by lia.
        replace (S (length xs + S (length es)) - S (length xs)) with (S (length es)) by lia. done.
    + rewrite <- app_assoc. done.
  - destruct (Nat.leb_spec (capacity b) (length (entries b))); rewrite length_app, ?length_drop; simpl; lia.
Qed.

(** The trace keeps the newest entries in order: after any number of pushes
    into a new buffer it holds exactly the last [max 1 capacity] of them, so a
    buffer of capacity zero still holds one, and [recent] lists the newest
    first. *)
Theorem trace_keeps_newest cap es n :
  let b := foldl (fun b e => push e b) (new_trace cap) es in
  entries b = drop (length es - Nat.max 1 cap) es /\
  recent n b = take n (reverse (drop (length es - Nat.max 1 cap) es)).
Proof.
  intros b. assert (He : entries b = drop (length es - Nat.max 1 cap) es).
  { unfold b. rewrite push_all_entries; simpl; [done|lia]. }
  split; [done|]. unfold recent. rewrite He. set (l := drop _ es).
  destruct (Nat.min_spec n (length l)) as [[? ->]|[? ->]]; [done|].
  rewrite <- (length_reverse l), !take_ge; rewrite ?length_reverse; done.
Qed.
