(* ===== verification/ConfigExpression.v ===== *)
(** * Expressions in configuration values

    Models [crates/dbx-core/src/persistence/config/expression.rs]:
    [${env:..}], [${ref:..}] and [${eval:..}] strings and their resolution in
    JSON values.  The environment and the parsing of floating point literals
    into JSON numbers are arguments. *)

From S2P Require Import Prelude Json.

Inductive Expression :=
| EnvVar (name : string)
| Ref (path : string)
| Eval (expr : string)
| Literal (s : string).

#[global] Instance Expression_eq_dec : EqDecision Expression.
Proof. solve_decision. Defined.

Definition starts_with (s pat : text) : bool := bool_decide (pat `prefix_of` s).
Definition ends_with_brace (s : text) : bool := bool_decide (last s = Some 125%Z).

Definition parse_expression (input : string) : Expression :=
  let trimmed := trim (txt input) in
  if starts_with trimmed (txt "${env:") && ends_with_brace trimmed
  then EnvVar (untxt (slice 6 (length trimmed - 1) trimmed))
  else if starts_with trimmed (txt "${ref:") && ends_with_brace trimmed
  then Ref (untxt (slice 6 (length trimmed - 1) trimmed))
  else if starts_with trimmed (txt "${eval:") && ends_with_brace trimmed
  then Eval (untxt (slice 7 (length trimmed - 1) trimmed))
  else Literal input.

Section Resolve.
Variable env : string -> option string.
(** [expr.parse::<f64>()] followed by [Number::from_f64]: the text of the number. *)
Variable parse_f64 : text -> option string.

Definition resolve_env_var (name : string) : result string string :=
  match env name with
  | Some v => Ok v
  | None => Err ("Environment variable '$" +:+ name +:+ "' not set")
  end.

Fixpoint walk (path : string) (parts : list text) (current : json) : result json string :=
  match parts with
  | [] => Ok current
  | part :: rest =>
    match current with
    | JObject m =>
      match obj_get (untxt part) m with
      | Some v => walk path rest v
      | None => Err ("Config reference '$" +:+ path +:+ "': key '" +:+ untxt part +:+ "' not found")
      end
    | _ => Err ("Config reference '$" +:+ path +:+ "': intermediate value is not an object")
    end
  end.

Definition resolve_ref (path : string) (merged : gmap string json) : result json string :=
  match split_on 46 (txt path) with
  | [] => Err "unreachable"
  | key :: parts =>
    match merged !! untxt key with
    | None => Err ("Config reference '$" +:+ path +:+ "' not found in merged config")
    | Some value => walk path parts value
    end
  end.

(** [<i64 as FromStr>::from_str]. *)
Definition parse_i64 (s : text) : option Z :=
  match s with
  | c :: rest =>
    if (c =? 45)%Z then match rest with [] => None | _ => Z.opp <$> parse_digits (2 ^ 63) 0 rest end
    else parse_unsigned (2 ^ 63 - 1) s
  | [] => None
  end.

Definition eval_simple (expr : string) : result json string :=
  let e := trim (txt expr) in
  match parse_i64 e with
  | Some v => Ok (JNumber (pretty v))
  | None =>
    match parse_f64 e with
    | Some n => Ok (JNumber n)
    | None =>
      if bool_decide (e = txt "true") then Ok (JBool true)
      else if bool_decide (e = txt "false") then Ok (JBool false)
      else if bool_decide (e = txt "null") then Ok JNull
      else if bool_decide (head e = Some 34%Z) && bool_decide (last e = Some 34%Z) && (2 <=? length e)%nat
      then Ok (JString (untxt (slice 1 (length e - 1) e)))
      else Err ("Cannot evaluate expression: '" +:+ untxt e +:+ "'")
    end
  end.

Definition resolve_expression (expression : Expression) (merged : gmap string json) : result json string :=
  match expression with
  | EnvVar name => let? v := resolve_env_var name in Ok (JString v)
  | Ref path => resolve_ref path merged
  | Eval expr => eval_simple expr
  | Literal s => Ok (JString s)
  end.

Fixpoint resolve_all_expressions_in_value (merged : gmap string json) (value : json) : result json string :=
  match value with
  | JString s => resolve_expression (parse_expression s) merged
  | JObject m =>
    (fix go (m acc : list (string * json)) : result json string :=
       match m with
       | [] => Ok (JObject acc)
       | (k, v) :: rest =>
         let? v' := resolve_all_expressions_in_value merged v in go rest (obj_insert k v' acc)
       end) m []
  | JArray arr =>
    (fix go (arr acc : list json) : result json string :=
       match arr with
       | [] => Ok (JArray acc)
       | v :: rest => let? v' := resolve_all_expressions_in_value merged v in go rest (acc ++ [v'])
       end) arr []
  | other => Ok other
  end.

Fixpoint resolve_members (merged : gmap string json) (l : list (string * json)) (resolved : gmap string json)
    : result (gmap string json) string :=
  match l with
  | [] => Ok resolved
  | (k, v) :: rest =>
    let? v' := resolve_all_expressions_in_value merged v in resolve_members merged rest (<[k := v']> resolved)
  end.

Definition apply_expression_resolution (config merged : gmap string json) : result (gmap string json) string :=
  let? resolved := resolve_members merged (map_to_list config) ∅ in Ok (resolved ∪ config).

(** ** Resolution is leaf by leaf *)

(** The reference: every string is resolved where it stands, the structure and
    everything else stays. *)
Inductive resolves (merged : gmap string json) : json -> json -> Prop :=
| resolves_string s v : resolve_expression (parse_expression s) merged = Ok v -> resolves merged (JString s) v
| resolves_array l l' : Forall2 (resolves merged) l l' -> resolves merged (JArray l) (JArray l')
| resolves_object m m' :
    Forall2 (fun a b => a.1 = b.1 /\ resolves merged a.2 b.2) m m' -> resolves merged (JObject m) (JObject m')
| resolves_null : resolves merged JNull JNull
| resolves_bool b : resolves merged (JBool b) (JBool b)
| resolves_number r : resolves merged (JNumber r) (JNumber r).

(** The maps of a JSON value have one member per key. *)
Inductive unique_keys : json -> Prop :=
| unique_array l : Forall unique_keys l -> unique_keys (JArray l)
| unique_object m : NoDup m.*1 -> Forall (fun kv => unique_keys kv.2) m -> unique_keys (JObject m)
| unique_null : unique_keys JNull
| unique_bool b : unique_keys (JBool b)
| unique_number r : unique_keys (JNumber r)
| unique_string s : unique_keys (JString s).

Lemma obj_insert_new k v m : k ∉ m.*1 -> obj_insert k v m = m ++ [(k, v)].
Proof.
  induction m as [|[k0 v0] m IH]; intros Hk; simpl; [done|]. simpl in Hk.
  destruct (String.eqb_spec k0 k) as [->|]; [set_solver|]. rewrite IH by set_solver. done.
Qed.

(** The loops over members and elements. *)
Lemma resolve_object_loop merged m v' :
  NoDup m.*1 ->
  Forall (fun kv => forall w, resolve_all_expressions_in_value merged kv.2 = Ok w <-> resolves merged kv.2 w) m ->
  (resolve_all_expressions_in_value merged (JObject m) = Ok v' <-> resolves merged (JObject m) v').
Proof.
  intros Hnd Hall. cbn [resolve_all_expressions_in_value].
  assert (Hgen : forall acc, NoDup (acc.*1 ++ m.*1) ->
    ((fix go (m acc : list (string * json)) : result json string :=
       match m with
       | [] => Ok (JObject acc)
       | (k, v) :: rest =>
         let? v' := resolve_all_expressions_in_value merged v in go rest (obj_insert k v' acc)
       end) m acc = Ok v' <->
     exists m', v' = JObject (acc ++ m') /\ Forall2 (fun a b => a.1 = b.1 /\ resolves merged a.2 b.2) m m')).
  { clear Hnd. induction Hall as [|[k v] m Hv Hall IH]; intros acc Hnd.
    - split; [intros [= <-]; exists []; by rewrite app_nil_r|].
      intros (m' & -> & Hf). apply Forall2_nil_inv_l in Hf as ->. by rewrite app_nil_r.
    - simpl in Hv. destruct (resolve_all_expressions_in_value merged v) as [w|e] eqn:Ew; cbn [result_bind].
      + pose proof (proj1 (Hv w) eq_refl) as Hw.
        assert (Hk : k ∉ acc.*1).
        { simpl in Hnd. apply NoDup_app in Hnd as (_ & Hd & _). intros Hin. apply (Hd _ Hin). by left. }
        rewrite obj_insert_new by done. rewrite IH.
        * split.
          -- intros (m' & -> & Hf). exists ((k, w) :: m'). split; [by rewrite <- app_assoc|by constructor].
          -- intros (m' & -> & Hf). apply Forall2_cons_inv_l in Hf as ([k' w'] & m'' & [Hk' Hw'] & Hf & ->).
             simpl in Hk', Hw'. subst k'. apply Hv in Hw' as [= ->]. exists m''. split; [by rewrite <- app_assoc|done].
        * rewrite fmap_app, <- app_assoc. exact Hnd.
      + split; [done|]. intros (m' & -> & Hf). apply Forall2_cons_inv_l in Hf as (b & m'' & [_ Hb] & _ & _).
        by apply Hv in Hb. }
  rewrite (Hgen [] Hnd). split.
  - intros (m' & -> & Hf). by constructor.
  - intros Hr. inversion Hr; subst. eauto.
Qed.

Lemma resolve_array_loop merged l v' :
  Forall (fun v => forall w, resolve_all_expressions_in_value merged v = Ok w <-> resolves merged v w) l ->
  (resolve_all_expressions_in_value merged (JArray l) = Ok v' <-> resolves merged (JArray l) v').
Proof.
  intros Hall. cbn [resolve_all_expressions_in_value].
  assert (Hgen : forall acc,
    ((fix go (arr acc : list json) : result json string :=
       match arr with
       | [] => Ok (JArray acc)
       | v :: rest => let? v' := resolve_all_expressions_in_value merged v in go rest (acc ++ [v'])
       end) l acc = Ok v' <->
     exists l', v' = JArray (acc ++ l') /\ Forall2 (resolves merged) l l')).
  { induction Hall as [|v l Hv Hall IH]; intros acc.
    - split; [intros [= <-]; exists []; by rewrite app_nil_r|].
      intros (m' & -> & Hf). apply Forall2_nil_inv_l in Hf as ->. by rewrite app_nil_r.
    - destruct (resolve_all_expressions_in_value merged v) as [w|e] eqn:Ew; cbn [result_bind].
      + pose proof (proj1 (Hv w) eq_refl) as Hw. rewrite IH. split.
        * intros (l' & -> & Hf). exists (w :: l'). split; [by rewrite <- app_assoc|by constructor].
        * intros (l' & -> & Hf). apply Forall2_cons_inv_l in Hf as (w' & l'' & Hw' & Hf & ->).
          apply Hv in Hw' as [= ->]. exists l''. split; [by rewrite <- app_assoc|done].
      + split; [done|]. intros (l' & -> & Hf). apply Forall2_cons_inv_l in Hf as (b & l'' & Hb & _ & _).
        by apply Hv in Hb. }
  rewrite (Hgen []). split.
  - intros (m' & -> & Hf). by constructor.
  - intros Hr. inversion Hr; subst. eauto.
Qed.

(** Resolving a value resolves each string in it and nothing else: for a JSON
    value whose objects have unique keys the result is a value [v'] exactly when
    [v'] has the same structure, keys and order, each string replaced by what
    its expression resolves to; so one string that does not resolve makes the
    whole resolution fail. *)
Theorem resolution_is_leafwise merged v :
  unique_keys v -> forall v', resolve_all_expressions_in_value merged v = Ok v' <-> resolves merged v v'.
Proof.
  induction v as [|b|r|s|l IH|m IH] using json_nested_ind; intros Hu v'.
  - simpl. split; [intros [= <-]; constructor|by inversion 1].
  - simpl. split; [intros [= <-]; constructor|by inversion 1].
  - simpl. split; [intros [= <-]; constructor|by inversion 1].
  - simpl. split; [by constructor|by inversion 1].
  - apply resolve_array_loop. inversion Hu as [? Hl| | | | |]; subst. rewrite Forall_forall in *. auto.
  - inversion Hu as [|? Hnd Hm| | | |]; subst. apply resolve_object_loop; [done|]. rewrite Forall_forall in *. auto.
Qed.

End Resolve.

(** ** Writing and parsing expressions *)

Lemma txt_app a b : txt (a +:+ b) = txt a ++ txt b.
Proof. unfold txt. induction a as [|c a IH]; simpl; [done|]. by rewrite IH. Qed.

(** A text that begins and ends with visible ASCII characters is not trimmed. *)
Lemma trim_start_visible c s : whitespace_prefix (c :: s) = 0 -> trim_start (c :: s) = c :: s.
Proof. intros Hw. unfold trim_start. cbn [length trim_start_fuel]. by rewrite Hw. Qed.

Lemma brace_not_second x : whitespace_prefix [x; 125%Z] <> 2.
Proof. unfold whitespace_prefix. repeat case_match; lia. Qed.

Lemma brace_not_third x y : whitespace_prefix [x; y; 125%Z] <> 3.
Proof. unfold whitespace_prefix. repeat case_match; lia. Qed.

Lemma whitespace_suffix_brace s : whitespace_suffix (s ++ [125%Z]) = 0.
Proof.
  unfold whitespace_suffix. rewrite length_app. cbn [length].
  rewrite drop_app_length' by lia. cbn [whitespace_prefix]. simpl (_ =? 1)%nat. cbn iota.
  destruct s as [|y s _] using rev_ind; [done|]. rewrite <- app_assoc, length_app. cbn [app length].
  rewrite drop_app_length' by lia. rewrite (proj2 (Nat.eqb_neq _ _) (brace_not_second y)), andb_false_r.
  destruct s as [|x s _] using rev_ind; [done|]. rewrite <- app_assoc, length_app. cbn [app length].
  rewrite drop_app_length' by lia. by rewrite (proj2 (Nat.eqb_neq _ _) (brace_not_third x y)), andb_false_r.
Qed.

Lemma trim_end_brace s : trim_end (s ++ [125%Z]) = s ++ [125%Z].
Proof.
  unfold trim_end. rewrite length_app. cbn [length]. rewrite Nat.add_1_r. cbn [trim_end_fuel].
  by rewrite whitespace_suffix_brace.
Qed.

(** The source form of an expression. *)
Definition render (e : Expression) : string :=
  match e with
  | EnvVar n => "${env:" +:+ n +:+ "}"
  | Ref p => "${ref:" +:+ p +:+ "}"
  | Eval x => "${eval:" +:+ x +:+ "}"
  | Literal s => s
  end.

(** What is between an opening and the closing brace. *)
Lemma braced_inner (open : text) (inner : string) :
  slice (length open) (length (open ++ txt inner ++ [125%Z]) - 1) (open ++ txt inner ++ [125%Z]) = txt inner.
Proof.
  unfold slice. rewrite drop_app_length, !length_app. cbn [length].
  replace (length open + (length (txt inner) + 1) - 1 - length open) with (length (txt inner)) by lia.
  apply take_app_length.
Qed.

Lemma braced_trim (c : Z) (open inner : text) :
  whitespace_prefix ((c :: open) ++ inner ++ [125%Z]) = 0 ->
  trim ((c :: open) ++ inner ++ [125%Z]) = (c :: open) ++ inner ++ [125%Z].
Proof. intros Hw. unfold trim. cbn [app] in *. rewrite trim_start_visible by done. rewrite !app_comm_cons, app_assoc. apply trim_end_brace. Qed.

Lemma braced_ends open inner : ends_with_brace (open ++ inner ++ [125%Z]) = true.
Proof. unfold ends_with_brace. apply bool_decide_eq_true. by rewrite app_assoc, last_snoc. Qed.

Lemma starts_with_app p t : starts_with (p ++ t) p = true.
Proof. apply bool_decide_eq_true. by exists t. Qed.

Lemma starts_with_clash p q t : length p = length q -> p <> q -> starts_with (p ++ t) q = false.
Proof.
  intros Hl Hne. apply bool_decide_eq_false. intros [k Hk]. apply app_inj_1 in Hk as [? _]; done.
Qed.

(** A braced text that starts with an opening. *)
Lemma braced_inv open t :
  last open <> Some 125%Z -> starts_with t open && ends_with_brace t = true -> exists inner, t = open ++ inner ++ [125%Z].
Proof.
  intros Ho [[k ->]%bool_decide_eq_true He%bool_decide_eq_true]%andb_true_iff. rewrite last_app in He.
  destruct k as [|x k _] using rev_ind; [done|]. rewrite last_snoc in He. simplify_eq. by exists k.
Qed.

(** Parsing an expression inverts writing it: the source form of an
    environment variable, reference or evaluation, with any name or body, parses
    back to that expression; and whatever parses to one of them is, after
    trimming, that source form, while any other text is a literal of itself. *)
Theorem parse_expression_round_trip e s :
  (match e with Literal _ => True | _ => parse_expression (render e) = e end) /\
  match parse_expression s with
  | EnvVar _ => exists inner, trim (txt s) = txt "${env:" ++ inner ++ [125%Z]
  | Ref _ => exists inner, trim (txt s) = txt "${ref:" ++ inner ++ [125%Z]
  | Eval _ => exists inner, trim (txt s) = txt "${eval:" ++ inner ++ [125%Z]
  | Literal t => t = s
  end.
Proof.
  split.
  - destruct e as [n|n|n|n]; [..|done]; unfold parse_expression, render; rewrite !txt_app; change (txt "}") with [125%Z].
    + change (txt "${env:") with (36%Z :: txt "{env:").
      rewrite braced_trim, braced_ends, starts_with_app by done. cbn [andb].
      change 6 with (length (36%Z :: txt "{env:")). by rewrite braced_inner, untxt_txt.
    + change (txt "${ref:") with (36%Z :: txt "{ref:").
      rewrite braced_trim, braced_ends, starts_with_app, starts_with_clash by done. cbn [andb].
      change 6 with (length (36%Z :: txt "{ref:")). by rewrite braced_inner, untxt_txt.
    + change (txt "${eval:") with (36%Z :: txt "{eval:").
      rewrite braced_trim, braced_ends, starts_with_app by done.
      assert (Hc : forall q, length q = 6 -> q <> take 6 (36%Z :: txt "{eval:") ->
        starts_with ((36%Z :: txt "{eval:") ++ txt n ++ [125%Z]) q = false).
      { intros q Hq Hne. change ((36%Z :: txt "{eval:") ++ txt n ++ [125%Z])
          with (take 6 (36%Z :: txt "{eval:") ++ 58%Z :: txt n ++ [125%Z]).
        apply starts_with_clash; [by rewrite Hq|done]. }
      rewrite !Hc by done. cbn [andb].
      change 7 with (length (36%Z :: txt "{eval:")). by rewrite braced_inner, untxt_txt.
  - unfold parse_expression.
    destruct (starts_with (trim (txt s)) (txt "${env:") && ends_with_brace (trim (txt s))) eqn:E1;
      [by apply braced_inv in E1|].
    destruct (starts_with (trim (txt s)) (txt "${ref:") && ends_with_brace (trim (txt s))) eqn:E2;
      [by apply braced_inv in E2|].
    destruct (starts_with (trim (txt s)) (txt "${eval:") && ends_with_brace (trim (txt s))) eqn:E3;
      [by apply braced_inv in E3|done].
Qed.

Module ExpressionDemo.

Definition no_env (_ : string) : option string := None.
Definition no_f64 (_ : text) : option string := None.

Definition host_value : json := JObject [("host", JString "${ref:db.host}"); ("port", JString " ${eval:5432} ")].
Definition demo_merged : gmap string json := {["db" := JObject [("host", JString "db.example.com")]]}.
Definition host_resolved : json := JObject [("host", JString "db.example.com"); ("port", JNumber "5432")].

Lemma resolution_is_leafwise_witness :
  resolve_all_expressions_in_value no_env no_f64 demo_merged host_value = Ok host_resolved <->
  resolves no_env no_f64 demo_merged host_value host_resolved.
Proof.
  apply (resolution_is_leafwise no_env no_f64 demo_merged host_value).
  constructor; [|repeat constructor]. simpl. apply NoDup_cons. split; [set_solver|apply NoDup_singleton].
Defined.

Example host_value_resolves :
  resolve_all_expressions_in_value no_env no_f64 demo_merged host_value = Ok host_resolved.
Proof. vm_compute. reflexivity. Qed.

End ExpressionDemo.
