(* ===== verification/ValueLiterals.v ===== *)
(** * SQL value literals

    Models [crates/dbx-sql-core/src/value_literals.rs]: the literals written
    for strings, arrays and vectors of PostgreSQL and ClickHouse.  Text is UTF-8
    bytes; every character the code singles out is ASCII, and no byte of a
    longer character is.  [serde_json::to_string] of a value is an argument. *)

From S2P Require Import Prelude Json.

(** [s.replace(c, r)] for one character [c]. *)
Fixpoint replace_char (c : Z) (r : text) (s : text) : text :=
  match s with
  | [] => []
  | x :: rest => (if (x =? c)%Z then r else [x]) ++ replace_char c r rest
  end.

Fixpoint join_comma (l : list text) : text :=
  match l with
  | [] => []
  | [x] => x
  | x :: rest => x ++ 44%Z :: join_comma rest
  end.

Definition quote_string_literal (value : text) : text := 39%Z :: replace_char 39 [39%Z; 39%Z] value ++ [39%Z].

(** A digit of [HEX]. *)
Definition hex_digit (n : Z) : Z := if (n <? 10)%Z then (48 + n)%Z else (55 + n)%Z.

(** What [quote_postgres_string_literal] writes for one character. *)
Definition pg_escape (c : Z) : text :=
  if (c =? 92)%Z then [92%Z; 92%Z]
  else if (c =? 10)%Z then [92%Z; 110%Z]
  else if (c =? 13)%Z then [92%Z; 114%Z]
  else if (c =? 9)%Z then [92%Z; 116%Z]
  else if (c =? 8)%Z then [92%Z; 98%Z]
  else if (c =? 12)%Z then [92%Z; 102%Z]
  else if (c =? 39)%Z then [39%Z; 39%Z]
  else if is_ascii_control c
  then [92%Z; 120%Z; hex_digit (Z.shiftr c 4); hex_digit (Z.land c 15)]
  else [c].

Definition needs_escape (c : Z) : bool := (c =? 92)%Z || is_ascii_control c.

Definition quote_postgres_string_literal (value : text) : text :=
  if negb (existsb needs_escape value) then quote_string_literal value
  else 69%Z :: 39%Z :: concat (map pg_escape value) ++ [39%Z].

Definition escape_backslash (s : text) : text := replace_char 92 [92%Z; 92%Z] s.

(** A double-quoted text with backslash escapes. *)
Definition pg_array_string (s : text) : text :=
  34%Z :: replace_char 34 [92%Z; 34%Z] (escape_backslash s) ++ [34%Z].

(** ['...'] with backslashes and quotes doubled. *)
Definition ch_string (s : text) : text := 39%Z :: replace_char 39 [39%Z; 39%Z] (escape_backslash s) ++ [39%Z].

Section Literals.
(** [serde_json::to_string]. *)
Variable to_json : json -> text.

Fixpoint format_pg_array_element (val : json) : text :=
  match val with
  | JNull => txt "NULL"
  | JArray arr => txt "{" ++ join_comma (map format_pg_array_element arr) ++ txt "}"
  | JString s => pg_array_string (txt s)
  | JNumber n => txt n
  | JBool b => if b then txt "true" else txt "false"
  | JObject o => pg_array_string (to_json (JObject o))
  end.

Definition format_pg_array_text (arr : list json) : text :=
  txt "{" ++ join_comma (map format_pg_array_element arr) ++ txt "}".

Definition format_pg_array_sql_literal (arr : list json) : text :=
  match arr with
  | [] => txt "'{}'"
  | _ => quote_postgres_string_literal (format_pg_array_text arr)
  end.

Fixpoint format_ch_array_element (val : json) : text :=
  match val with
  | JNull => txt "NULL"
  | JArray arr => txt "[" ++ join_comma (map format_ch_array_element arr) ++ txt "]"
  | JString s => ch_string (txt s)
  | JNumber n => txt n
  | JBool b => if b then txt "true" else txt "false"
  | JObject o => ch_string (to_json (JObject o))
  end.

Definition format_ch_array_sql_literal (arr : list json) : text :=
  txt "[" ++ join_comma (map format_ch_array_element arr) ++ txt "]".

Definition format_postgres_vector_element (value : json) : text :=
  match value with
  | JString s => trim (txt s)
  | JNumber n => txt n
  | JBool b => if b then txt "true" else txt "false"
  | JNull => txt "NULL"
  | _ => to_json value
  end.

Definition format_postgres_vector_sql_literal (value : json) : text :=
  match value with
  | JNull => txt "NULL"
  | JArray arr =>
    quote_postgres_string_literal (txt "[" ++ join_comma (map format_postgres_vector_element arr) ++ txt "]")
  | JString s => quote_postgres_string_literal (txt s)
  | _ => quote_postgres_string_literal (to_json value)
  end.

End Literals.

(** [trim_matches] of the double quote. *)
Fixpoint trim_quotes_start (s : text) : text :=
  match s with c :: rest => if (c =? 34)%Z then trim_quotes_start rest else s | [] => [] end.
Definition trim_quotes (s : text) : text := reverse (trim_quotes_start (reverse (trim_quotes_start s))).

(** The part before the first of the characters that [split] is given. *)
Fixpoint before_any (stops : list Z) (s : text) : text :=
  match s with c :: rest => if existsb (Z.eqb c) stops then [] else c :: before_any stops rest | [] => [] end.

Definition ends_with (s suffix : text) : bool := bool_decide (suffix `suffix_of` s).

Definition is_postgres_vector_type (column_type : option text) : bool :=
  match column_type with
  | None => false
  | Some column_type =>
    let normalized := map to_ascii_lowercase (trim_quotes (trim column_type)) in
    if ends_with (trim_end normalized) (txt "[]") then false
    else
      let base := trim_quotes (before_any [40%Z; 32%Z; 9%Z; 10%Z] normalized) in
      bool_decide (base = txt "vector") || bool_decide (base = txt "halfvec") ||
      ends_with base (txt ".vector") || ends_with base (txt ".halfvec")
  end.

(** ** How the databases read the literals

    PostgreSQL's string constants: ['...'] with doubled quotes, where backslashes
    stand for themselves ([standard_conforming_strings], on by default), and [E'...']
    with doubled quotes and backslash escapes (octal escapes and Unicode escapes
    are never written).  The character with code zero is in neither. *)

Definition cons_read (c : Z) (r : option (text * text)) : option (text * text) :=
  match r with Some (v, t) => Some (c :: v, t) | None => None end.

(** A character of a PostgreSQL string. *)
Definition pg_char (c : Z) (r : option (text * text)) : option (text * text) := if (c =? 0)%Z then None else cons_read c r.

Fixpoint read_plain (s : text) : option (text * text) :=
  match s with
  | [] => None
  | c :: rest =>
    if (c =? 39)%Z then
      match rest with
      | d :: rest2 => if (d =? 39)%Z then cons_read 39 (read_plain rest2) else Some ([], rest)
      | [] => Some ([], [])
      end
    else pg_char c (read_plain rest)
  end.

Definition hex_value (c : Z) : option Z :=
  if is_ascii_digit c then Some (c - 48)%Z
  else if (65 <=? c)%Z && (c <=? 70)%Z then Some (c - 55)%Z
  else None.

(** The character a simple escape stands for. *)
Definition escape_value (c : Z) : option Z :=
  if (c =? 92)%Z then Some 92%Z
  else if (c =? 110)%Z then Some 10%Z
  else if (c =? 114)%Z then Some 13%Z
  else if (c =? 116)%Z then Some 9%Z
  else if (c =? 98)%Z then Some 8%Z
  else if (c =? 102)%Z then Some 12%Z
  else None.

Fixpoint read_escaped (s : text) : option (text * text) :=
  match s with
  | [] => None
  | c :: rest =>
    if (c =? 39)%Z then
      match rest with
      | d :: rest2 => if (d =? 39)%Z then cons_read 39 (read_escaped rest2) else Some ([], rest)
      | [] => Some ([], [])
      end
    else if (c =? 92)%Z then
      match rest with
      | d :: rest2 =>
        if (d =? 120)%Z then
          match rest2 with
          | h :: l :: rest3 =>
            match hex_value h, hex_value l with
            | Some hv, Some lv => pg_char (hv * 16 + lv) (read_escaped rest3)
            | _, _ => None
            end
          | _ => None
          end
        else match escape_value d with Some v => cons_read v (read_escaped rest2) | None => None end
      | [] => None
      end
    else pg_char c (read_escaped rest)
  end.

(** A string constant at the start of a text: its value and what follows it. *)
Definition read_pg_literal (s : text) : option (text * text) :=
  match s with
  | c :: rest =>
    if (c =? 39)%Z then read_plain rest
    else if (c =? 69)%Z then match rest with d :: rest2 => if (d =? 39)%Z then read_escaped rest2 else None | [] => None end
    else None
  | [] => None
  end.

(** A quoted element of a PostgreSQL array text, after its opening quote. *)
Fixpoint read_array_string (s : text) : option (text * text) :=
  match s with
  | [] => None
  | c :: rest =>
    if (c =? 34)%Z then Some ([], rest)
    else if (c =? 92)%Z then match rest with d :: rest2 => cons_read d (read_array_string rest2) | [] => None end
    else cons_read c (read_array_string rest)
  end.

(** A ClickHouse string, after its opening quote: doubled quotes, and a backslash
    before a backslash or a quote (no other escape is written). *)
Fixpoint read_ch (s : text) : option (text * text) :=
  match s with
  | [] => None
  | c :: rest =>
    if (c =? 39)%Z then
      match rest with
      | d :: rest2 => if (d =? 39)%Z then cons_read 39 (read_ch rest2) else Some ([], rest)
      | [] => Some ([], [])
      end
    else if (c =? 92)%Z then
      match rest with
      | d :: rest2 => if (d =? 92)%Z || (d =? 39)%Z then cons_read d (read_ch rest2) else None
      | [] => None
      end
    else cons_read c (read_ch rest)
  end.

(** *** Arrays

    An array is read as a tree.  A bare word is [NULL] or a token, a number or a truth
    value; it ends at a comma or at the bracket and holds no quote, backslash, bracket
    or space.  That all arrays of one level have the same length, as PostgreSQL wants
    it, is not looked at here. *)

Inductive element := ENull | EToken (t : text) | EText (t : text) | EArray (l : list element).

Definition token_char (c : Z) : bool := is_ascii_alphanumeric c || (c =? 43)%Z || (c =? 45)%Z || (c =? 46)%Z.

Fixpoint read_token (s : text) : text * text :=
  match s with
  | c :: rest => if token_char c then let '(v, t) := read_token rest in (c :: v, t) else ([], s)
  | [] => ([], [])
  end.

Section read_array.
Variables (opening closing quote : Z) (read_string : text -> option (text * text)).

Fixpoint read_element (fuel : nat) (s : text) : option (element * text) :=
  match fuel, s with
  | S fuel, c :: rest =>
    if (c =? quote)%Z then match read_string rest with Some (v, t) => Some (EText v, t) | None => None end
    else if (c =? opening)%Z then match read_elements fuel rest with Some (l, t) => Some (EArray l, t) | None => None end
    else
      match read_token s with
      | ([], _) => None
      | (v, t) => Some (if bool_decide (v = txt "NULL") then ENull else EToken v, t)
      end
  | _, _ => None
  end
(** The elements after the opening bracket. *)
with read_elements (fuel : nat) (s : text) : option (list element * text) :=
  match fuel, s with
  | S fuel, c :: rest => if (c =? closing)%Z then Some ([], rest) else read_sequence fuel s
  | _, _ => None
  end
with read_sequence (fuel : nat) (s : text) : option (list element * text) :=
  match fuel with
  | O => None
  | S fuel =>
    match read_element fuel s with
    | Some (e, c :: rest) =>
      if (c =? 44)%Z then match read_sequence fuel rest with Some (l, t) => Some (e :: l, t) | None => None end
      else if (c =? closing)%Z then Some ([e], rest)
      else None
    | _ => None
    end
  end.

(** An array at the start of a text. *)
Definition read_array (s : text) : option (list element * text) :=
  match s with
  | c :: rest => if (c =? opening)%Z then read_elements (S (S (2 * length s))) rest else None
  | [] => None
  end.
End read_array.

Definition read_pg_array : text -> option (list element * text) := read_array 123 125 34 read_array_string.
Definition read_ch_array : text -> option (list element * text) := read_array 91 93 39 read_ch.

(** What an array of JSON values holds: an object is held as its text. *)
Fixpoint denote (to_json : json -> text) (j : json) : element :=
  match j with
  | JNull => ENull
  | JBool b => EToken (if b then txt "true" else txt "false")
  | JNumber n => EToken (txt n)
  | JString s => EText (txt s)
  | JArray arr => EArray (map (denote to_json) arr)
  | JObject o => EText (to_json (JObject o))
  end.

(** The numbers are written with digits, signs, points and exponents, and neither a
    text nor the text of an object has a character with code zero. *)
Fixpoint writable (to_json : json -> text) (j : json) : Prop :=
  match j with
  | JNumber n => Forall (fun c => is_ascii_digit c = true \/ c ∈ txt "+-.eE") (txt n) /\ txt n <> []
  | JString s => 0%Z ∉ txt s
  | JArray arr => (fix all l := match l with j :: l => writable to_json j /\ all l | [] => True end) arr
  | JObject o => 0%Z ∉ to_json (JObject o)
  | _ => True
  end.

Lemma writable_array to_json arr : writable to_json (JArray arr) <-> Forall (writable to_json) arr.
Proof. induction arr as [|j arr IH]; [by split|]. cbn in *. by rewrite IH, Forall_cons. Qed.

Lemma replace_char_id c r s : Forall (fun x => x <> c) s -> replace_char c r s = s.
Proof. induction 1 as [|x s Hx Hs IH]; simpl; [done|]. by rewrite (proj2 (Z.eqb_neq x c) Hx), IH. Qed.

Definition no_quote (t : text) : Prop := match t with c :: _ => c <> 39%Z | [] => True end.

Lemma pg_char_nonzero c r : c <> 0%Z -> pg_char c r = cons_read c r.
Proof. intros Hc. unfold pg_char. by rewrite (proj2 (Z.eqb_neq c 0) Hc). Qed.

Lemma read_plain_quoted v t : no_quote t -> 0%Z ∉ v ->
  read_plain (replace_char 39 [39%Z; 39%Z] v ++ 39%Z :: t) = Some (v, t).
Proof.
  intros Ht. induction v as [|c v IH]; simpl; [|intros [Hc Hv]%not_elem_of_cons].
  - destruct t as [|d t]; [done|]. simpl in Ht. by rewrite (proj2 (Z.eqb_neq d 39) Ht).
  - destruct (Z.eqb_spec c 39) as [->|Hq]; simpl; [by rewrite IH|].
    by rewrite (proj2 (Z.eqb_neq c 39) Hq), IH, pg_char_nonzero.
Qed.

Lemma hex_round_trip c : is_ascii_control c = true ->
  hex_value (hex_digit (Z.shiftr c 4)) = Some (Z.shiftr c 4) /\ hex_value (hex_digit (Z.land c 15)) = Some (Z.land c 15) /\
  (Z.shiftr c 4 * 16 + Z.land c 15 = c)%Z.
Proof.
  intros Hc. rewrite Z.shiftr_div_pow2 by lia. change 15%Z with (Z.ones 4). rewrite Z.land_ones by lia.
  change (2 ^ 4)%Z with 16%Z. unfold is_ascii_control in Hc.
  pose proof (Z.mod_pos_bound c 16 ltac:(lia)). pose proof (Z.div_mod c 16 ltac:(lia)).
  assert (Hb : forall n, (0 <= n < 16)%Z -> hex_value (hex_digit n) = Some n).
  { intros n Hn. unfold hex_value, hex_digit, is_ascii_digit. repeat case_match; try (f_equal; lia); lia. }
  split_and!; [apply Hb|apply Hb|]; lia.
Qed.

Lemma read_escaped_char c t : c <> 0%Z -> read_escaped (pg_escape c ++ t) = cons_read c (read_escaped t).
Proof.
  intros Hz. unfold pg_escape.
  destruct (Z.eqb_spec c 92) as [->|H92]; [done|]. destruct (Z.eqb_spec c 10) as [->|]; [done|].
  destruct (Z.eqb_spec c 13) as [->|]; [done|]. destruct (Z.eqb_spec c 9) as [->|]; [done|].
  destruct (Z.eqb_spec c 8) as [->|]; [done|]. destruct (Z.eqb_spec c 12) as [->|]; [done|].
  destruct (Z.eqb_spec c 39) as [->|H39]; [done|].
  destruct (is_ascii_control c) eqn:Ec.
  - destruct (hex_round_trip c Ec) as (Hh & Hl & Hs). cbn [app read_escaped].
    simpl (_ =? _)%Z. cbn iota. by rewrite Hh, Hl, Hs, pg_char_nonzero.
  - cbn [app read_escaped]. by rewrite (proj2 (Z.eqb_neq c 39) H39), (proj2 (Z.eqb_neq c 92) H92), pg_char_nonzero.
Qed.

Lemma read_escaped_quoted v t : no_quote t -> 0%Z ∉ v ->
  read_escaped (concat (map pg_escape v) ++ 39%Z :: t) = Some (v, t).
Proof.
  intros Ht. induction v as [|c v IH]; cbn [map concat app]; [|intros [Hc Hv]%not_elem_of_cons].
  - simpl. destruct t as [|d t]; [done|]. simpl in Ht. by rewrite (proj2 (Z.eqb_neq d 39) Ht).
  - by rewrite <- app_assoc, read_escaped_char, IH.
Qed.

Lemma read_quoted_string v t : no_quote t -> 0%Z ∉ v -> read_pg_literal (quote_string_literal v ++ t) = Some (v, t).
Proof.
  intros Ht Hv. unfold quote_string_literal. cbn [app read_pg_literal]. simpl (_ =? _)%Z. cbn iota.
  rewrite <- app_assoc. by apply read_plain_quoted.
Qed.

Lemma read_postgres_string v t : no_quote t -> 0%Z ∉ v -> read_pg_literal (quote_postgres_string_literal v ++ t) = Some (v, t).
Proof.
  intros Ht Hv. unfold quote_postgres_string_literal. destruct (negb (existsb needs_escape v)); [by apply read_quoted_string|].
  cbn [app read_pg_literal]. simpl (_ =? _)%Z. cbn iota. rewrite <- app_assoc. by apply read_escaped_quoted.
Qed.

Lemma read_array_quoted v t :
  read_array_string (replace_char 34 [92%Z; 34%Z] (escape_backslash v) ++ 34%Z :: t) = Some (v, t).
Proof.
  induction v as [|c v IH]; [done|]. unfold escape_backslash in *. cbn [replace_char].
  destruct (Z.eqb_spec c 92) as [->|H92]; [cbn; by rewrite IH|].
  destruct (Z.eqb_spec c 34) as [->|H34]; [cbn; by rewrite IH|].
  cbn [app replace_char]. rewrite (proj2 (Z.eqb_neq c 34) H34). cbn [app read_array_string].
  by rewrite (proj2 (Z.eqb_neq c 34) H34), (proj2 (Z.eqb_neq c 92) H92), IH.
Qed.

Lemma read_ch_quoted v t : no_quote t ->
  read_ch (replace_char 39 [39%Z; 39%Z] (escape_backslash v) ++ 39%Z :: t) = Some (v, t).
Proof.
  intros Ht. induction v as [|c v IH].
  { simpl. destruct t as [|d t]; [done|]. simpl in Ht. by rewrite (proj2 (Z.eqb_neq d 39) Ht). }
  unfold escape_backslash in *. cbn [replace_char].
  destruct (Z.eqb_spec c 92) as [->|H92]; [cbn; by rewrite IH|].
  destruct (Z.eqb_spec c 39) as [->|H39]; [cbn; by rewrite IH|].
  cbn [app replace_char]. rewrite (proj2 (Z.eqb_neq c 39) H39). cbn [app read_ch].
  by rewrite (proj2 (Z.eqb_neq c 39) H39), (proj2 (Z.eqb_neq c 92) H92), IH.
Qed.

(** *** Arrays read back *)

(** A token ends where the text goes on with a comma or a bracket. *)
Definition token_ends (t : text) : Prop := match t with c :: _ => token_char c = false | [] => True end.

Lemma read_token_app v t : Forall (fun c => token_char c = true) v -> token_ends t -> read_token (v ++ t) = (v, t).
Proof.
  intros Hv Ht. induction Hv as [|c v Hc Hv IH]; cbn [app read_token]; [|by rewrite Hc, IH].
  destruct t as [|c t]; [done|]. cbn in *. by rewrite Ht.
Qed.

Section read_back.
Variables (opening closing quote : Z) (read_string : text -> option (text * text)) (to_json : json -> text) (format : json -> text).
Hypothesis brackets : token_char opening = false /\ token_char closing = false /\ token_char quote = false /\
  opening <> quote /\ closing <> quote /\ opening <> closing /\ closing <> 44%Z /\ closing <> 39%Z.
Hypothesis format_null : format JNull = txt "NULL".
Hypothesis format_bool : forall b, format (JBool b) = if b then txt "true" else txt "false".
Hypothesis format_number : forall n, format (JNumber n) = txt n.
Hypothesis format_array : forall arr, format (JArray arr) = opening :: join_comma (map format arr) ++ [closing].
Hypothesis format_text : forall j v, denote to_json j = EText v ->
  exists s, format j = quote :: s /\ forall t, no_quote t -> read_string (s ++ t) = Some (v, t).

Notation read_element := (read_element opening closing quote read_string).
Notation read_sequence := (read_sequence opening closing quote read_string).

(** What may follow an element. *)
Definition followed (t : text) : Prop := match t with c :: _ => c = 44%Z \/ c = closing | [] => False end.

(** An element is read back, and does not start with the closing bracket. *)
Definition reads_back (j : json) : Prop :=
  (exists c s, format j = c :: s /\ c <> closing) /\
  forall fuel t, 2 * length (format j) <= fuel -> followed t -> read_element fuel (format j ++ t) = Some (denote to_json j, t).

Lemma token_reads_back j v : format j = v -> Forall (fun c => token_char c = true) v -> v <> [] ->
  denote to_json j = (if bool_decide (v = txt "NULL") then ENull else EToken v) -> reads_back j.
Proof using brackets.
  destruct brackets as (Ho & Hc & Hq & _ & _ & _ & H44 & _). intros E Hv Hne Hd. destruct v as [|c v]; [done|]. pose proof Hv as [Hh _]%Forall_cons_1.
  split; [exists c, v; split; [done|congruence]|]. intros [|fuel] t Hf Ht; rewrite E in *; [cbn in Hf; lia|].
  assert (He : token_ends t) by (destruct t as [|d t]; [done|]; by destruct Ht as [->| ->]).
  pose proof (read_token_app _ t Hv He) as Er. rewrite Hd. cbn [app ValueLiterals.read_element] in *.
  by rewrite (proj2 (Z.eqb_neq c quote)), (proj2 (Z.eqb_neq c opening)), Er by congruence.
Qed.

Lemma text_reads_back j v : denote to_json j = EText v -> reads_back j.
Proof using brackets format_text.
  destruct brackets as (_ & _ & _ & _ & Hcq & _ & _ & H39). intros Hd. destruct (format_text j v Hd) as (s & E & Hs).
  split; [exists quote, s; split; [done|congruence]|]. intros [|fuel] t Hf Ht; rewrite E in *; [cbn in Hf; lia|].
  cbn [app ValueLiterals.read_element]. rewrite Z.eqb_refl, Hs, Hd; [done|]. destruct t as [|c t]; [done|]. by destruct Ht as [->| ->].
Qed.

Lemma sequence_reads_back arr : Forall reads_back arr -> arr <> [] -> forall fuel t, 2 * length (join_comma (map format arr)) < fuel ->
  read_sequence fuel (join_comma (map format arr) ++ closing :: t) = Some (map (denote to_json) arr, t).
Proof using brackets.
  destruct brackets as (_ & _ & _ & _ & _ & _ & H44 & _).
  induction 1 as [|j arr [_ Hj] Harr IH]; [done|]. intros _ [|fuel] t Hf; [lia|].
  destruct arr as [|j' arr]; cbn [map join_comma ValueLiterals.read_sequence] in *.
  - rewrite Hj by (by (cbn; right) || lia). by rewrite (proj2 (Z.eqb_neq closing 44) H44), Z.eqb_refl.
  - rewrite length_app in Hf. cbn [length] in Hf. rewrite <- app_assoc, Hj by (by (cbn; left) || lia). cbn [app]. rewrite Z.eqb_refl.
    by rewrite (IH ltac:(done) fuel t) by lia.
Qed.

Lemma elements_read_back arr fuel t : Forall reads_back arr -> 2 * length (join_comma (map format arr)) + 1 < fuel ->
  read_elements opening closing quote read_string fuel (join_comma (map format arr) ++ closing :: t) = Some (map (denote to_json) arr, t).
Proof using brackets.
  intros Harr Hf. destruct fuel as [|fuel]; [lia|]. destruct arr as [|j arr].
  { cbn [map join_comma app ValueLiterals.read_elements]. by rewrite Z.eqb_refl. }
  rewrite <- (sequence_reads_back (j :: arr) Harr ltac:(done) fuel t) by lia. pose proof Harr as [[(c & s & E & Hc) _] _]%Forall_cons_1.
  assert (exists s', join_comma (map format (j :: arr)) = c :: s') as [s' Es] by (destruct arr; cbn [map join_comma]; rewrite E; eauto).
  rewrite Es. cbn [app ValueLiterals.read_elements]. by rewrite (proj2 (Z.eqb_neq c closing) Hc).
Qed.

Lemma array_reads_back arr : Forall reads_back arr -> reads_back (JArray arr).
Proof using brackets format_array.
  intros Harr. destruct brackets as (_ & _ & _ & Hoq & _ & Hoc & _). split; [rewrite format_array; eauto|].
  intros [|fuel] t Hf Ht; rewrite format_array in *; cbn [length] in Hf; rewrite length_app in Hf; cbn [length] in Hf; [lia|].
  cbn [app ValueLiterals.read_element denote]. rewrite (proj2 (Z.eqb_neq opening quote) Hoq), Z.eqb_refl, <- app_assoc. cbn [app].
  by rewrite elements_read_back by (done || lia).
Qed.

Lemma number_is_token c : is_ascii_digit c = true \/ c ∈ txt "+-.eE" -> token_char c = true.
Proof using.
  intros [Hd|Hc]; [unfold token_char, is_ascii_alphanumeric; by rewrite Hd, orb_true_r|].
  change (txt "+-.eE") with [43%Z; 45%Z; 46%Z; 101%Z; 69%Z] in Hc. set_unfold in Hc. by repeat destruct Hc as [->|Hc].
Qed.

Lemma json_reads_back j : writable to_json j -> reads_back j.
Proof using brackets format_null format_bool format_number format_array format_text.
  induction j as [|b|n|s|arr IH|o _] using json_nested_ind; intros Hw.
  - apply (token_reads_back _ (txt "NULL")); [done| |done|done]. repeat constructor.
  - apply (token_reads_back _ (if b then txt "true" else txt "false")); [done|..]; destruct b; try done; repeat constructor.
  - destruct Hw as [Hn Hne]. apply (token_reads_back _ (txt n)); [done|by eapply Forall_impl, number_is_token|done|]. cbn.
    rewrite bool_decide_eq_false_2; [done|]. intros E. rewrite E in Hn. apply Forall_cons_1 in Hn as [[?|Hn] _]; [done|].
    change (txt "+-.eE") with [43%Z; 45%Z; 46%Z; 101%Z; 69%Z] in Hn. set_unfold in Hn. naive_solver.
  - by eapply text_reads_back.
  - apply array_reads_back. apply writable_array in Hw. rewrite Forall_forall in *. eauto.
  - by eapply text_reads_back.
Qed.

Lemma array_is_read_back arr t : Forall (writable to_json) arr ->
  read_array opening closing quote read_string (opening :: join_comma (map format arr) ++ closing :: t) = Some (map (denote to_json) arr, t).
Proof using brackets format_null format_bool format_number format_array format_text.
  intros Hw. unfold read_array. rewrite Z.eqb_refl. apply elements_read_back; [by eapply Forall_impl, json_reads_back|].
  cbn [length]. rewrite length_app. lia.
Qed.
End read_back.

Lemma pg_array_text_is_read_back to_json arr : Forall (writable to_json) arr ->
  read_pg_array (format_pg_array_text to_json arr) = Some (map (denote to_json) arr, []).
Proof.
  intros Hw. apply (array_is_read_back 123 125 34 read_array_string to_json (format_pg_array_element to_json)); try done.
  intros j v Hd. destruct j; try done; injection Hd as <-; (eexists; split; [done|]); intros t _; rewrite <- app_assoc; apply read_array_quoted.
Qed.

Lemma ch_array_is_read_back to_json arr t : Forall (writable to_json) arr ->
  read_ch_array (format_ch_array_sql_literal to_json arr ++ t) = Some (map (denote to_json) arr, t).
Proof.
  intros Hw. unfold format_ch_array_sql_literal. rewrite <- !app_assoc.
  apply (array_is_read_back 91 93 39 read_ch to_json (format_ch_array_element to_json)); try done.
  intros j v Hd. destruct j; try done; injection Hd as <-; (eexists; split; [done|]); intros t' Ht; rewrite <- app_assoc; by apply read_ch_quoted.
Qed.

(** No text has a character with code zero if no value has. *)
Lemma replace_char_zero c r s : 0%Z ∉ r -> 0%Z ∉ s -> 0%Z ∉ replace_char c r s.
Proof. intros Hr. induction s as [|x s IH]; [done|]. cbn. rewrite not_elem_of_cons, not_elem_of_app. intros [Hx Hs]. split; [|auto]. case_match; set_solver. Qed.

Lemma join_comma_zero l : Forall (fun t => 0%Z ∉ t) l -> 0%Z ∉ join_comma l.
Proof.
  induction 1 as [|t l Ht Hl IH]; [set_solver|]. cbn. destruct l; [done|]. rewrite not_elem_of_app, not_elem_of_cons. auto.
Qed.

Lemma pg_array_string_zero v : 0%Z ∉ v -> 0%Z ∉ pg_array_string v.
Proof.
  intros Hv. unfold pg_array_string, escape_backslash. rewrite not_elem_of_cons, not_elem_of_app, list_elem_of_singleton. split_and!; [done| |done].
  repeat apply replace_char_zero; set_solver.
Qed.

Lemma pg_element_zero to_json j : writable to_json j -> 0%Z ∉ format_pg_array_element to_json j.
Proof.
  induction j as [|b|n|s|arr IH|o _] using json_nested_ind; cbn [format_pg_array_element]; intros Hw.
  - by vm_compute; set_solver.
  - destruct b; vm_compute; set_solver.
  - destruct Hw as [Hn _]. intros H0. rewrite Forall_forall in Hn. destruct (Hn _ H0) as [|H1]; [done|].
    change (txt "+-.eE") with [43%Z; 45%Z; 46%Z; 101%Z; 69%Z] in H1. set_solver.
  - by apply pg_array_string_zero.
  - apply writable_array in Hw. rewrite !not_elem_of_app. split_and!; [vm_compute; set_solver| |vm_compute; set_solver].
    apply join_comma_zero, Forall_fmap. rewrite Forall_forall in *. intros j Hj. by apply IH, Hw.
  - by apply pg_array_string_zero.
Qed.

Lemma pg_array_literal_is_read_back to_json arr t : no_quote t -> Forall (writable to_json) arr ->
  read_pg_literal (format_pg_array_sql_literal to_json arr ++ t) = Some (format_pg_array_text to_json arr, t).
Proof.
  intros Ht Hw. destruct arr as [|j arr].
  { change (format_pg_array_sql_literal to_json []) with (quote_string_literal (txt "{}")). apply read_quoted_string; [done|vm_compute; set_solver]. }
  apply (read_postgres_string _ t Ht). apply (pg_element_zero to_json (JArray (j :: arr))). by apply writable_array.
Qed.


Module LiteralsDemo.

Definition nasty : text := txt "a'b\c" ++ [10%Z; 1%Z; 200%Z].

Definition nested : list json := [JArray [JString "it's"; JNull]; JArray [JNumber "-1.5e3"; JString "a\b"]; JArray []; JObject []; JBool true].


Example vector_types :
  map is_postgres_vector_type [Some (txt "vector(3)"); Some (txt " public.halfvec "); Some (txt "vector[]"); None]
  = [true; true; false; false].
Proof. vm_compute. reflexivity. Qed.

End LiteralsDemo.
