(* ===== verification/DdlScan.v ===== *)
(** * Structural scanning of CREATE TABLE text

    Models [crates/dbx-driver-support/src/ddl_scan.rs].  The text is UTF-8
    bytes and positions are byte offsets, as in the code.  [char_at] gives the
    first byte of the character at a position: the code compares characters
    only with ASCII ones, whose one byte is the character, and advances by
    [len_utf8], which the first byte determines.  Every loop advances by at
    least one byte per round, so the length of the text is enough fuel.

    The specification is a grammar of the text the scanners are given: plain
    characters, quoted strings and identifiers, dollar-quoted bodies,
    parentheses and semicolons ([piece], [render]); the theorems say that the
    scanners find exactly the boundaries of the grammar. *)

From S2P Require Import Prelude Utf8 ValueLiterals.

(** [s.replace] of two double quotes by one. *)
Fixpoint undouble (s : text) : text :=
  match s with
  | [] => []
  | a :: rest =>
    match rest with
    | b :: rest' => if (a =? 34)%Z && (b =? 34)%Z then 34%Z :: undouble rest' else a :: undouble rest
    | [] => [a]
    end
  end.

Definition char_at (sql : text) (pos : nat) : option Z := get_from sql pos ≫= head.

Fixpoint skip_quoted_loop (fuel : nat) (sql : text) (quote : Z) (i : nat) : nat :=
  match fuel with
  | 0 => length sql
  | S fuel' =>
    if (i <? length sql)%nat then
      match char_at sql i with
      | None => length sql
      | Some ch =>
        let next := char_at sql (i + len_utf8 ch) in
        if (ch =? quote)%Z then
          if bool_decide (next = Some quote) then skip_quoted_loop fuel' sql quote (i + (len_utf8 ch + len_utf8 quote))
          else i + len_utf8 ch
        else if (quote =? 39)%Z && (ch =? 92)%Z then
          let i1 := i + len_utf8 ch in
          match char_at sql i1 with
          | Some escaped => skip_quoted_loop fuel' sql quote (i1 + len_utf8 escaped)
          | None => skip_quoted_loop fuel' sql quote i1
          end
        else skip_quoted_loop fuel' sql quote (i + len_utf8 ch)
      end
    else length sql
  end.

Definition skip_quoted (sql : text) (pos : nat) (quote : Z) : nat :=
  skip_quoted_loop (length sql) sql quote (pos + len_utf8 quote).

Definition is_tag_char (c : Z) : bool := is_ascii_alphanumeric c || (c =? 95)%Z.

Definition valid_tag (tag : text) : bool :=
  match tag with
  | [] => true
  | c :: _ => (is_ascii_alphabetic c || (c =? 95)%Z) && forallb is_tag_char tag
  end.

Definition skip_dollar_quoted (sql : text) (pos : nat) : option nat :=
  s ← get_from sql (pos + 1);
  tag_end_offset ← find_sub [36%Z] s;
  let tag_end := pos + 1 + tag_end_offset in
  let tag := slice (pos + 1) tag_end sql in
  if valid_tag tag then
    let delimiter := slice pos (tag_end + 1) sql in
    let content_start := tag_end + 1 in
    s' ← get_from sql content_start;
    offset ← find_sub delimiter s';
    Some (content_start + offset + length delimiter)
  else None.

Fixpoint paren_close_loop (fuel : nat) (sql : text) (i depth : nat) (opened : bool) : option nat :=
  match fuel with
  | 0 => None
  | S fuel' =>
    if (i <? length sql)%nat then
      match char_at sql i with
      | None => None
      | Some ch =>
        let plain := paren_close_loop fuel' sql (i + len_utf8 ch) depth opened in
        if (ch =? 39)%Z || (ch =? 34)%Z then paren_close_loop fuel' sql (skip_quoted sql i ch) depth opened
        else if (ch =? 36)%Z then
          match skip_dollar_quoted sql i with
          | Some stop => paren_close_loop fuel' sql stop depth opened
          | None => plain
          end
        else if (ch =? 40)%Z then paren_close_loop fuel' sql (i + len_utf8 ch) (depth + 1) true
        else if (ch =? 41)%Z then
          if opened && (depth - 1 =? 0)%nat then Some (i + len_utf8 ch)
          else paren_close_loop fuel' sql (i + len_utf8 ch) (depth - 1) opened
        else plain
      end
    else None
  end.

Definition find_top_level_paren_close (sql : text) (from : nat) : option nat :=
  paren_close_loop (length sql) sql from 0 false.

Fixpoint semicolon_loop (fuel : nat) (sql : text) (i depth : nat) : option nat :=
  match fuel with
  | 0 => None
  | S fuel' =>
    if (i <? length sql)%nat then
      match char_at sql i with
      | None => None
      | Some ch =>
        let plain := semicolon_loop fuel' sql (i + len_utf8 ch) depth in
        if (ch =? 39)%Z || (ch =? 34)%Z then semicolon_loop fuel' sql (skip_quoted sql i ch) depth
        else if (ch =? 36)%Z then
          match skip_dollar_quoted sql i with
          | Some stop => semicolon_loop fuel' sql stop depth
          | None => plain
          end
        else if (ch =? 40)%Z then semicolon_loop fuel' sql (i + len_utf8 ch) (depth + 1)
        else if (ch =? 41)%Z then semicolon_loop fuel' sql (i + len_utf8 ch) (depth - 1)
        else if (ch =? 59)%Z && (depth =? 0)%nat then Some i
        else plain
      end
    else None
  end.

Definition find_top_level_semicolon (sql : text) (from : nat) : option nat :=
  semicolon_loop (length sql) sql from 0.

(** Ranges are pairs of a start and an end offset. *)
Fixpoint statement_ranges_loop (fuel : nat) (sql : text) (start : nat) : list (nat * nat) :=
  match fuel with
  | 0 => []
  | S fuel' =>
    if (start <? length sql)%nat then
      match find_top_level_semicolon sql start with
      | Some semi => (start, semi + 1) :: statement_ranges_loop fuel' sql (semi + 1)
      | None => [(start, length sql)]
      end
    else []
  end.

Definition top_level_statement_ranges (sql : text) : list (nat * nat) :=
  statement_ranges_loop (length sql) sql 0.

(** The outer [option] is [None] when the code panics, the inner one is the
    [Option] the function returns. *)
Definition unquote_ident (s : text) : option (option (text * text)) :=
  if bool_decide (head s = Some 34%Z) then
    let stop := skip_quoted s 0 34 in
    if (stop <? 2)%nat then Some None
    else
      raw ← index_slice 1 (stop - 1) s;
      Some (Some (undouble raw, drop stop s))
  else Some None.

Definition strip_create_table (trimmed : text) : option text :=
  match strip_prefix (txt "CREATE FOREIGN TABLE ") trimmed with
  | Some rest => Some rest
  | None => strip_prefix (txt "CREATE TABLE ") trimmed
  end.

Definition parse_create_table_relation (stmt : text) : option (option (text * text)) :=
  match strip_create_table (trim_start stmt) with
  | None => Some None
  | Some rest0 =>
    r ← unquote_ident (trim_start rest0);
    match r with
    | None => Some None
    | Some (schema, rest) =>
      match strip_prefix [46%Z] rest with
      | None => Some None
      | Some rest1 =>
        r' ← unquote_ident rest1;
        match r' with
        | None => Some None
        | Some (table, _) => Some (Some (schema, table))
        end
      end
    end
  end.

(** ** The grammar of the scanned text *)

(** What a quoted text is made of: a character, a doubled quote, or (between
    single quotes) a backslash with the character it escapes. *)
Inductive qitem : Type :=
| QChar (c : text)
| QDouble
| QEscape (c : text).

Definition render_qitem (q : Z) (it : qitem) : text :=
  match it with
  | QChar c => c
  | QDouble => [q; q]
  | QEscape c => 92%Z :: c
  end.

Definition wf_qitem (q : Z) (it : qitem) : Prop :=
  match it with
  | QChar c => wf_char c /\ head c <> Some q /\ (q = 39%Z -> head c <> Some 92%Z)
  | QDouble => True
  | QEscape c => q = 39%Z /\ wf_char c
  end.

Definition render_body (q : Z) (body : list qitem) : text := concat (map (render_qitem q) body).

Inductive piece : Type :=
| Plain (c : text)
| Quoted (q : Z) (body : list qitem)
| Dollar (tag body : text)
| Open
| Close
| Semi.

Definition delimiter (tag : text) : text := 36%Z :: tag ++ [36%Z].

Definition render (p : piece) : text :=
  match p with
  | Plain c => c
  | Quoted q body => q :: render_body q body ++ [q]
  | Dollar tag body => delimiter tag ++ body ++ delimiter tag
  | Open => [40%Z]
  | Close => [41%Z]
  | Semi => [59%Z]
  end.

Definition render_all (ps : list piece) : text := concat (map render ps).

(** The characters that are not plain: quotes, dollar, parentheses, semicolon. *)
Definition special : list Z := [39; 34; 36; 40; 41; 59]%Z.

(** A piece followed by the text [rest]: a quote closes its text only when no
    second quote follows, and a dollar-quoted body stops at its delimiter. *)
Definition wf_piece (p : piece) (rest : text) : Prop :=
  match p with
  | Plain c => wf_char c /\ forall b, head c = Some b -> b ∉ special
  | Quoted q body => (q = 39%Z \/ q = 34%Z) /\ Forall (wf_qitem q) body /\ head rest <> Some q
  | Dollar tag body =>
      valid_tag tag = true /\ is_char_boundary (body ++ delimiter tag) 0 = true /\
      find_sub (delimiter tag) (body ++ delimiter tag) = Some (length body)
  | Open | Close | Semi => True
  end.

Fixpoint wf_pieces (ps : list piece) (rest : text) : Prop :=
  match ps with
  | [] => True
  | p :: ps' => wf_piece p (render_all ps' ++ rest) /\ wf_pieces ps' rest
  end.

Definition depth_after (d : nat) (p : piece) : nat :=
  match p with Open => d + 1 | Close => d - 1 | _ => d end.

(** The pieces of one statement: no semicolon outside parentheses, and the
    parentheses closed at its end. *)
Fixpoint one_statement (d : nat) (ps : list piece) : Prop :=
  match ps with
  | [] => d = 0
  | p :: ps' => (p = Semi -> d <> 0) /\ one_statement (depth_after d p) ps'
  end.

(** The inside of a parenthesised group, [d] levels below its opening. *)
Fixpoint group_inside (d : nat) (ps : list piece) : Prop :=
  match ps with
  | [] => d = 1
  | p :: ps' => (p = Close -> d <> 1) /\ d <> 0 /\ group_inside (depth_after d p) ps'
  end.

(** ** The scanners on rendered pieces *)

Lemma char_at_first sql i c rest : drop i sql = c :: rest -> is_continuation c = false -> char_at sql i = Some c.
Proof.
  intros Hd Hc. unfold char_at, get_from, is_char_boundary.
  rewrite lookup_of_drop, Hd. simpl. by rewrite Hc.
Qed.

Lemma char_at_head sql i c : char_at sql i = Some c -> head (drop i sql) = Some c.
Proof.
  unfold char_at, get_from. destruct (is_char_boundary sql i); simpl; [|done]. done.
Qed.

Lemma render_qitem_length q it : wf_qitem q it -> 1 <= length (render_qitem q it).
Proof. destruct it as [c| |c]; simpl; [|lia..]. intros [(b & t & -> & _)%wf_char_inv _]. simpl. lia. Qed.

Lemma render_body_length q body : Forall (wf_qitem q) body -> length body <= length (render_body q body).
Proof.
  unfold render_body. induction 1 as [|it body Hit Hb IH]; simpl; [lia|]. rewrite length_app.
  pose proof (render_qitem_length q it Hit). lia.
Qed.

Section QuotedScan.
Variables (sql : text) (q : Z).
Hypothesis Hq : q = 39%Z \/ q = 34%Z.

Lemma skip_item fuel it rest i :
  wf_qitem q it -> drop i sql = render_qitem q it ++ rest ->
  skip_quoted_loop (S fuel) sql q i = skip_quoted_loop fuel sql q (i + length (render_qitem q it)).
Proof using Hq.
  intros Hw Hd. assert (Hqa : (q < 128)%Z) by (destruct Hq; lia). cbn [skip_quoted_loop].
  destruct it as [c| |c]; simpl in Hw, Hd |- *.
  - destruct Hw as [(b & t & -> & Hb & Hl)%wf_char_inv [Hnq Hnb]]. simpl in Hd, Hnq, Hnb.
    rewrite (proj2 (Nat.ltb_lt _ _) (drop_cons_lt _ _ _ _ Hd)), (char_at_first _ _ _ _ Hd Hb).
    rewrite (proj2 (Z.eqb_neq b q)) by congruence. rewrite Hl.
    destruct (Z.eqb_spec q 39) as [->|]; simpl; [|done].
    rewrite (proj2 (Z.eqb_neq b 92)); [done|]. intros ->. by apply Hnb.
  - rewrite (proj2 (Nat.ltb_lt _ _) (drop_cons_lt _ _ _ _ Hd)).
    rewrite (char_at_first _ _ _ _ Hd (ascii_not_continuation _ Hqa)), Z.eqb_refl, (ascii_len q Hqa).
    pose proof (drop_app_step i sql [q] _ Hd) as Hd'. simpl in Hd'.
    rewrite (char_at_first _ _ _ _ Hd' (ascii_not_continuation _ Hqa)). by rewrite bool_decide_true.
  - destruct Hw as [-> (b & t & -> & Hb & Hl)%wf_char_inv]. simpl in Hd.
    rewrite (proj2 (Nat.ltb_lt _ _) (drop_cons_lt _ _ _ _ Hd)), (char_at_first _ _ _ _ Hd eq_refl). simpl.
    pose proof (drop_app_step i sql [92%Z] _ Hd) as Hd'. simpl in Hd'.
    change (len_utf8 92) with 1. rewrite (char_at_first _ _ _ _ Hd' Hb). simpl in Hl. rewrite <- Hl. f_equal. lia.
Qed.

Lemma skip_body fuel body rest i :
  Forall (wf_qitem q) body -> drop i sql = render_body q body ++ rest ->
  skip_quoted_loop (length body + fuel) sql q i = skip_quoted_loop fuel sql q (i + length (render_body q body)).
Proof using Hq.
  intros Hw. revert i. induction Hw as [|it body Hit Hb IH]; intros i Hd; [by rewrite Nat.add_0_r|].
  change (length (it :: body) + fuel) with (S (length body + fuel)). unfold render_body in Hd. simpl in Hd. rewrite <- app_assoc in Hd.
  rewrite (skip_item _ _ _ _ Hit Hd), (IH _ (drop_app_step _ _ _ _ Hd)).
  unfold render_body. simpl. rewrite length_app. f_equal. lia.
Qed.

(** A quoted text is skipped exactly. *)
Lemma skip_quoted_exact body rest i :
  Forall (wf_qitem q) body -> head rest <> Some q -> drop i sql = q :: render_body q body ++ q :: rest ->
  skip_quoted sql i q = i + length (q :: render_body q body ++ [q]).
Proof using Hq.
  intros Hb Hr Hd. assert (Hqa : (q < 128)%Z) by (destruct Hq; lia).
  unfold skip_quoted. rewrite (ascii_len q Hqa).
  pose proof (drop_app_step i sql [q] _ Hd) as Hd1. simpl in Hd1.
  pose proof (drop_app_step _ _ _ _ Hd1) as Hd2.
  pose proof (render_body_length q body Hb) as Hlen.
  assert (Hfuel : S (length body) <= length sql).
  { apply (f_equal length) in Hd. rewrite length_drop in Hd. simpl in Hd. rewrite length_app in Hd. simpl in Hd. lia. }
  replace (length sql) with (length body + S (length sql - S (length body))) by lia.
  rewrite (skip_body _ _ _ _ Hb Hd1). cbn [skip_quoted_loop].
  rewrite (proj2 (Nat.ltb_lt _ _) (drop_cons_lt _ _ _ _ Hd2)).
  rewrite (char_at_first _ _ _ _ Hd2 (ascii_not_continuation _ Hqa)), Z.eqb_refl, (ascii_len q Hqa).
  pose proof (drop_app_step _ _ [q] _ Hd2) as Hd3. simpl in Hd3.
  rewrite bool_decide_false by (intros Hc%char_at_head; rewrite Hd3 in Hc; done).
  simpl. rewrite length_app. simpl. lia.
Qed.
End QuotedScan.

Lemma tag_chars tag : valid_tag tag = true -> Forall (fun c => c <> 36%Z /\ (c < 128)%Z) tag.
Proof.
  intros H. apply Forall_forall. intros c Hc. assert (Ht : is_tag_char c = true).
  { destruct tag as [|c0 tag]; [by apply elem_of_nil in Hc|]. unfold valid_tag in H. bool_solver.
    by apply list_elem_of_In, (proj1 (forallb_forall _ _) H0) in Hc. }
  unfold is_tag_char, is_ascii_alphanumeric, is_ascii_alphabetic, is_ascii_uppercase, is_ascii_lowercase, is_ascii_digit in Ht. lia.
Qed.

(** A dollar-quoted body is skipped exactly. *)
Lemma skip_dollar_quoted_exact sql tag body rest i :
  wf_piece (Dollar tag body) rest -> drop i sql = render (Dollar tag body) ++ rest ->
  skip_dollar_quoted sql i = Some (i + length (render (Dollar tag body))).
Proof.
  intros (Hv & Hb & Hf) Hd0. pose proof (tag_chars tag Hv) as Ht.
  assert (Hd : drop i sql = delimiter tag ++ (body ++ delimiter tag ++ rest)) by (by rewrite Hd0; cbn [render]; rewrite <- !app_assoc).
  assert (Hd1 : drop (i + 1) sql = tag ++ 36%Z :: (body ++ delimiter tag ++ rest)).
  { apply (drop_app_step i sql [36%Z]). rewrite Hd. unfold delimiter at 1. simpl. by rewrite <- app_assoc. }
  pose proof (drop_app_step _ _ _ _ Hd) as Hd2.
  assert (Hdl : length (delimiter tag) = length tag + 2) by (unfold delimiter; simpl; rewrite length_app; simpl; lia).
  assert (Hl : i + length (delimiter tag) <= length sql).
  { apply (f_equal length) in Hd. rewrite length_drop, !length_app in Hd. lia. }
  unfold skip_dollar_quoted.
  rewrite (get_from_first _ _ _ Hd1 ltac:(lia)) by
    (destruct Ht as [|c tag' [_ Hc] _]; [done|]; unfold is_char_boundary; simpl; by rewrite ascii_not_continuation).
  cbn [mbind option_bind]. rewrite find_sub_char by (eapply Forall_impl; [exact Ht|]; by intros ? [? _]).
  cbn [mbind option_bind]. rewrite (slice_of_drop _ _ _ _ Hd1), Hv.
  replace (i + 1 + length tag + 1) with (i + length (delimiter tag)) by lia.
  rewrite (slice_of_drop _ _ _ _ Hd), (get_from_first _ _ _ Hd2 Hl) by
    (rewrite app_assoc; apply boundary_app; [unfold delimiter; by destruct body|exact Hb]).
  cbn [mbind option_bind]. rewrite app_assoc, (find_sub_app _ _ _ _ Hf). cbn [mbind option_bind render]. f_equal. rewrite !length_app. lia.
Qed.

(** The character a piece starts with. *)
Definition first_byte (p : piece) : Z :=
  match p with
  | Plain c => default 0%Z (head c)
  | Quoted q _ => q
  | Dollar _ _ => 36
  | Open => 40
  | Close => 41
  | Semi => 59
  end.

Lemma piece_first sql p rest i :
  wf_piece p rest -> drop i sql = render p ++ rest -> (i <? length sql) = true /\ char_at sql i = Some (first_byte p).
Proof.
  intros Hw Hd. assert (exists t, drop i sql = first_byte p :: t /\ is_continuation (first_byte p) = false) as (t & Ht & Hc).
  { rewrite Hd. destruct p as [c|q b|tag b| | |]; simpl in *; try by eexists.
    - destruct Hw as [(b & t & -> & Hb & _)%wf_char_inv _]. by eexists.
    - destruct Hw as [[-> | ->] _]; by eexists. }
  split; [|by apply (char_at_first _ _ _ t)]. apply Nat.ltb_lt. by eapply drop_cons_lt.
Qed.

Lemma plain_tests c b : wf_piece (Plain c) b -> (first_byte (Plain c) =? 39)%Z = false /\
  (first_byte (Plain c) =? 34)%Z = false /\ (first_byte (Plain c) =? 36)%Z = false /\
  (first_byte (Plain c) =? 40)%Z = false /\ (first_byte (Plain c) =? 41)%Z = false /\
  (first_byte (Plain c) =? 59)%Z = false /\ len_utf8 (first_byte (Plain c)) = length c.
Proof.
  intros [(x & t & -> & _ & Hl)%wf_char_inv Hs]. specialize (Hs x eq_refl). simpl in *.
  unfold special in Hs. rewrite !not_elem_of_cons in Hs. rewrite !Z.eqb_neq, Hl. naive_solver.
Qed.

Lemma quoted_test q body rest : wf_piece (Quoted q body) rest -> (q =? 39)%Z || (q =? 34)%Z = true.
Proof. by intros [[-> | ->] _]. Qed.

Lemma quoted_piece_exact sql q body rest i :
  wf_piece (Quoted q body) rest -> drop i sql = render (Quoted q body) ++ rest ->
  skip_quoted sql i q = i + length (render (Quoted q body)).
Proof.
  intros (Hq & Hb & Hr) Hd. apply (skip_quoted_exact sql q Hq body rest i Hb Hr).
  rewrite Hd. simpl. by rewrite <- app_assoc.
Qed.

Lemma semicolon_step fuel sql p rest i d :
  wf_piece p rest -> (p = Semi -> d <> 0) -> drop i sql = render p ++ rest ->
  semicolon_loop (S fuel) sql i d = semicolon_loop fuel sql (i + length (render p)) (depth_after d p).
Proof.
  intros Hw Hs Hd. destruct (piece_first _ _ _ _ Hw Hd) as [Hi Hc]. cbn [semicolon_loop]. rewrite Hi, Hc.
  destruct p as [c|q b|tag b| | |]; cbn [first_byte depth_after]; try done.
  - pose proof (plain_tests _ _ Hw) as Ht. cbn [first_byte] in Ht. by destruct Ht as (-> & -> & -> & -> & -> & -> & ->).
  - by rewrite (quoted_test _ _ _ Hw), (quoted_piece_exact _ _ _ _ _ Hw Hd).
  - by rewrite (skip_dollar_quoted_exact _ _ _ _ _ Hw Hd).
  - destruct d; [by destruct (Hs eq_refl)|]. done.
Qed.

Definition opens (p : piece) : bool := match p with Open => true | _ => false end.

Lemma paren_step fuel sql p rest i d o :
  wf_piece p rest -> (p = Close -> o = false \/ 2 <= d) -> drop i sql = render p ++ rest ->
  paren_close_loop (S fuel) sql i d o =
  paren_close_loop fuel sql (i + length (render p)) (depth_after d p) (o || opens p).
Proof.
  intros Hw Hs Hd. destruct (piece_first _ _ _ _ Hw Hd) as [Hi Hc]. cbn [paren_close_loop]. rewrite Hi, Hc.
  destruct p as [c|q b|tag b| | |]; cbn [first_byte depth_after opens]; rewrite ?orb_false_r; try done.
  - pose proof (plain_tests _ _ Hw) as Ht. cbn [first_byte] in Ht. by destruct Ht as (-> & -> & -> & -> & -> & _ & ->).
  - by rewrite (quoted_test _ _ _ Hw), (quoted_piece_exact _ _ _ _ _ Hw Hd).
  - by rewrite (skip_dollar_quoted_exact _ _ _ _ _ Hw Hd).
  - by rewrite orb_true_r.
  - destruct (Hs eq_refl) as [-> | Hd2]; [done|]. simpl.
    rewrite (proj2 (Nat.eqb_neq (d - 1) 0)) by lia. by rewrite andb_false_r.
Qed.

Lemma render_length p rest : wf_piece p rest -> 1 <= length (render p).
Proof.
  destruct p as [c|q b|tag b| | |]; simpl; try lia. intros [(x & t & -> & _)%wf_char_inv _]. simpl. lia.
Qed.

Lemma render_all_length ps rest : wf_pieces ps rest -> length ps <= length (render_all ps).
Proof.
  unfold render_all. induction ps as [|p ps IH]; simpl; [lia|]. intros [Hp Hps]. rewrite length_app.
  pose proof (render_length _ _ Hp). specialize (IH Hps). lia.
Qed.

Lemma semicolon_pieces fuel sql ps rest i d :
  wf_pieces ps rest -> one_statement d ps -> drop i sql = render_all ps ++ rest ->
  semicolon_loop (length ps + fuel) sql i d = semicolon_loop fuel sql (i + length (render_all ps)) 0.
Proof.
  revert i d. induction ps as [|p ps IH]; intros i d Hw Ho Hd; [by rewrite Ho, Nat.add_0_r|].
  destruct Hw as [Hp Hps], Ho as [Hs Ho]. change (render_all (p :: ps)) with (render p ++ render_all ps) in *.
  rewrite <- app_assoc in Hd. change (length (p :: ps) + fuel) with (S (length ps + fuel)).
  rewrite (semicolon_step _ _ _ _ _ _ Hp Hs Hd), (IH _ _ Hps Ho (drop_app_step _ _ _ _ Hd)), length_app. f_equal. lia.
Qed.

(** The scan stops at the semicolon that ends the statement. *)
Lemma find_semicolon_exact sql ps rest i :
  wf_pieces ps (59%Z :: rest) -> one_statement 0 ps -> drop i sql = render_all ps ++ 59%Z :: rest ->
  find_top_level_semicolon sql i = Some (i + length (render_all ps)).
Proof.
  intros Hw Ho Hd. unfold find_top_level_semicolon. pose proof (render_all_length _ _ Hw) as Hl.
  assert (S (length ps) <= length sql).
  { apply (f_equal length) in Hd. rewrite length_drop, length_app in Hd. simpl in Hd. lia. }
  replace (length sql) with (length ps + S (length sql - S (length ps))) by lia.
  rewrite (semicolon_pieces _ _ _ _ _ _ Hw Ho Hd). pose proof (drop_app_step _ _ _ _ Hd) as Hd'.
  destruct (piece_first sql Semi rest _ I Hd') as [Hi Hc]. cbn [semicolon_loop]. by rewrite Hi, Hc.
Qed.

(** Without a top-level semicolon the scan reaches the end of the text. *)
Lemma find_semicolon_none sql ps i :
  wf_pieces ps [] -> one_statement 0 ps -> drop i sql = render_all ps -> i <= length sql ->
  find_top_level_semicolon sql i = None.
Proof.
  intros Hw Ho Hd Hi. unfold find_top_level_semicolon. pose proof (render_all_length _ _ Hw) as Hl.
  assert (Hlen : length sql = i + length (render_all ps)).
  { apply (f_equal length) in Hd. rewrite length_drop in Hd. lia. }
  replace (length sql) with (length ps + (length sql - length ps)) by lia.
  rewrite (semicolon_pieces _ sql ps [] i 0 Hw Ho) by (by rewrite app_nil_r).
  destruct (length sql - length ps); [done|]. cbn [semicolon_loop]. by rewrite (proj2 (Nat.ltb_ge _ _)) by lia.
Qed.

(** ** Statement ranges *)

Lemma skip_quoted_loop_ge fuel sql q i : i `min` length sql <= skip_quoted_loop fuel sql q i.
Proof.
  revert i. induction fuel as [|fuel IH]; intros i; cbn [skip_quoted_loop]; [lia|].
  destruct (i <? length sql); [|lia]. destruct (char_at sql i) as [ch|]; [|lia].
  repeat case_match; try lia; (etrans; [|apply IH]); lia.
Qed.

Lemma skip_quoted_ge sql i q : i < length sql -> i <= skip_quoted sql i q.
Proof.
  intros. unfold skip_quoted. pose proof (skip_quoted_loop_ge (length sql) sql q (i + len_utf8 q)).
  pose proof (len_utf8_pos q). lia.
Qed.

Lemma skip_dollar_quoted_ge sql i k : skip_dollar_quoted sql i = Some k -> i <= k.
Proof.
  unfold skip_dollar_quoted. destruct (get_from sql (i + 1)); simpl; [|done].
  destruct (find_sub _ _); simpl; [|done]. destruct (valid_tag _); [|done].
  destruct (get_from _ _); simpl; [|done]. destruct (find_sub _ _); simpl; [|done]. intros. simplify_eq. lia.
Qed.

(** The semicolon found is at or after the start of the scan. *)
Lemma semicolon_loop_found fuel sql i d k :
  semicolon_loop fuel sql i d = Some k -> i <= k /\ sql !! k = Some 59%Z.
Proof.
  revert i d. induction fuel as [|fuel IH]; intros i d; cbn [semicolon_loop]; [done|].
  destruct (Nat.ltb_spec i (length sql)) as [Hi|]; [|done]. destruct (char_at sql i) as [ch|] eqn:Hc; [|done].
  pose proof (skip_quoted_ge sql i ch Hi).
  assert (Hgo : forall i' d', i <= i' -> semicolon_loop fuel sql i' d' = Some k -> i <= k /\ sql !! k = Some 59%Z).
  { intros i' d' Hle [Hk ?]%IH. split; [lia|done]. }
  destruct (_ || _); [by apply Hgo|]. destruct (ch =? 36)%Z.
  { destruct (skip_dollar_quoted sql i) as [j|] eqn:Hj; [apply Hgo; by eapply skip_dollar_quoted_ge|apply Hgo; lia]. }
  destruct (ch =? 40)%Z; [apply Hgo; lia|]. destruct (ch =? 41)%Z; [apply Hgo; lia|].
  destruct (_ && _) eqn:E; [|apply Hgo; lia]. intros. simplify_eq. bool_solver.
  match goal with H : (ch =? 59)%Z = true |- _ => apply Z.eqb_eq in H; subst ch end.
  split; [lia|]. rewrite lookup_of_drop. by apply char_at_head.
Qed.

(** Cuts a text at a list of ranges. *)
Definition pieces_of (sql : text) (ranges : list (nat * nat)) : list text := map (fun r => slice r.1 r.2 sql) ranges.

(** Every range but the last ends just past a semicolon. *)
Definition ends_with_semicolon (s : text) : Prop := last s = Some 59%Z.

Lemma slice_last (sql : text) i k c : i <= k -> sql !! k = Some c -> last (slice i (k + 1) sql) = Some c.
Proof.
  intros Hi Hk. pose proof (lookup_lt_Some _ _ _ Hk). rewrite last_lookup, slice_length by lia. unfold slice.
  replace (pred (k + 1 - i)) with (k - i) by lia. rewrite lookup_take_lt by lia. rewrite lookup_drop.
  by replace (i + (k - i)) with k by lia.
Qed.

Lemma statement_ranges_loop_partition fuel sql start :
  start <= length sql -> length sql - start <= fuel ->
  let parts := pieces_of sql (statement_ranges_loop fuel sql start) in
  concat parts = drop start sql /\ Forall (fun p => p <> []) parts /\
  (forall l p, parts = l ++ [p] -> Forall ends_with_semicolon l).
Proof.
  revert start. induction fuel as [|fuel IH]; intros start Hs Hf; simpl.
  { rewrite drop_ge by lia. split_and!; [done|constructor|]. by intros [] ?. }
  destruct (Nat.ltb_spec start (length sql)) as [Hlt|Hge]; [|rewrite drop_ge by lia; split_and!; [done|constructor|by intros [] ?]].
  destruct (find_top_level_semicolon sql start) as [semi|] eqn:Hf'.
  - apply semicolon_loop_found in Hf' as [Hle Hsemi]. pose proof (lookup_lt_Some _ _ _ Hsemi).
    destruct (IH (semi + 1) ltac:(lia) ltac:(lia)) as (Hc & Hn & Hl). cbn [pieces_of map concat fst snd].
    pose proof (slice_last sql start semi _ Hle Hsemi) as Hlast. split_and!.
    + fold (pieces_of sql (statement_ranges_loop fuel sql (semi + 1))). rewrite Hc.
      rewrite <- (slice_to_end sql (semi + 1)), slice_app by lia. by rewrite slice_to_end by lia.
    + constructor; [|done]. intros E. by rewrite E in Hlast.
    + intros [|x l] p Heq; [constructor|]. simplify_list_eq. constructor; [done|]. by eapply Hl.
  - cbn [pieces_of map concat fst snd]. rewrite app_nil_r. split_and!.
    + apply slice_to_end.
    + constructor; [|constructor]. intros E. apply (f_equal length) in E. rewrite slice_length in E by lia. simpl in E. lia.
    + intros l p Heq. by destruct l as [|? [|]]; simplify_list_eq.
Qed.

(** What follows a piece matters only through its first byte. *)
Lemma wf_pieces_rest ps c rest : wf_pieces ps [c] -> wf_pieces ps (c :: rest).
Proof.
  induction ps as [|p ps IH]; simpl; [done|]. intros [Hp Hps]. split; [|by auto].
  assert (Hh : head (render_all ps ++ c :: rest) = head (render_all ps ++ [c])) by (by destruct (render_all ps)).
  destruct p; simpl in *; rewrite ?Hh; done.
Qed.

(** A script: statements closed by a semicolon and the text after the last one. *)
Definition terminated (ps : list piece) : text := render_all ps ++ [59%Z].

Definition script (statements : list (list piece)) (tail : list piece) : text :=
  concat (map terminated statements) ++ render_all tail.

Definition wf_script (statements : list (list piece)) (tail : list piece) : Prop :=
  Forall (fun ps => wf_pieces ps [59%Z] /\ one_statement 0 ps) statements /\ wf_pieces tail [] /\ one_statement 0 tail.

Definition script_parts (statements : list (list piece)) (tail : list piece) : list text :=
  map terminated statements ++ match tail with [] => [] | _ => [render_all tail] end.

Lemma statement_ranges_loop_exact fuel sql start statements tail :
  wf_script statements tail -> drop start sql = script statements tail -> start <= length sql ->
  length sql - start <= fuel ->
  pieces_of sql (statement_ranges_loop fuel sql start) = script_parts statements tail.
Proof.
  unfold wf_script. intros [Hs [Ht Ho]]. revert fuel start. induction Hs as [|ps l [Hw Hps] Hl IH]; intros fuel start Hd Hle Hf.
  - unfold script in Hd. simpl in Hd. unfold script_parts. simpl.
    assert (Hlen : length sql = start + length (render_all tail)) by (apply (f_equal length) in Hd; rewrite length_drop in Hd; lia).
    pose proof (render_all_length _ _ Ht) as Hr. destruct fuel as [|fuel].
    { destruct tail; [done|]. simpl in Hr. lia. }
    simpl. destruct (Nat.ltb_spec start (length sql)) as [Hlt|Hge].
    + rewrite (find_semicolon_none sql tail start Ht Ho Hd Hle). simpl. rewrite slice_to_end, Hd.
      destruct tail; [|done]. unfold render_all in Hlen. simpl in Hlen. lia.
    + destruct tail; [done|]. simpl in Hr. lia.
  - assert (Hd' : drop start sql = render_all ps ++ 59%Z :: script l tail).
    { rewrite Hd. unfold script. simpl. unfold terminated at 1. by rewrite <- !app_assoc. }
    assert (Hlen : length sql - start = length (render_all ps) + S (length (script l tail)))
      by (apply (f_equal length) in Hd'; rewrite length_drop, length_app in Hd'; simpl in Hd'; lia).
    destruct fuel as [|fuel]; [lia|]. simpl. rewrite (proj2 (Nat.ltb_lt start (length sql))) by lia.
    rewrite (find_semicolon_exact sql ps _ start (wf_pieces_rest _ _ _ Hw) Hps Hd').
    unfold script_parts. simpl. f_equal.
    + replace (start + length (render_all ps) + 1) with (start + length (terminated ps)) by (unfold terminated; rewrite length_app; simpl; lia).
      apply (slice_of_drop _ _ _ (script l tail)). unfold terminated. by rewrite <- app_assoc.
    + apply IH; [|lia|lia]. pose proof (drop_app_step _ _ _ _ Hd') as Hd2.
      pose proof (drop_app_step _ _ [59%Z] _ Hd2) as Hd3. exact Hd3.
Qed.

(** Splitting a script into statements.  For every text the ranges cut it
    into consecutive non-empty parts that glue back to the text, and every part
    but the last ends just past a semicolon.  When the text is made of
    statements (quoted strings and identifiers, dollar-quoted bodies and
    parenthesised groups included, with whatever semicolons they contain), the
    parts are exactly the statements, each with its own semicolon, and the text
    after the last one. *)
Theorem statement_ranges_are_the_statements sql :
  let parts := pieces_of sql (top_level_statement_ranges sql) in
  concat parts = sql /\ Forall (fun p => p <> []) parts /\
  (forall l p, parts = l ++ [p] -> Forall ends_with_semicolon l) /\
  (forall statements tail, wf_script statements tail -> sql = script statements tail -> parts = script_parts statements tail).
Proof.
  destruct (statement_ranges_loop_partition (length sql) sql 0 ltac:(lia) ltac:(lia)) as (Hc & Hn & Hl).
  split_and!; [exact Hc|exact Hn|exact Hl|]. intros statements tail Hw Heq.
  apply (statement_ranges_loop_exact (length sql) sql 0 statements tail Hw); [by rewrite drop_0|lia|lia].
Qed.

(** ** Parenthesised groups *)

Lemma paren_outside fuel sql ps rest i :
  wf_pieces ps rest -> Forall (fun p => p <> Open) ps -> drop i sql = render_all ps ++ rest ->
  paren_close_loop (length ps + fuel) sql i 0 false = paren_close_loop fuel sql (i + length (render_all ps)) 0 false.
Proof.
  revert i. induction ps as [|p ps IH]; intros i Hw Hf Hd; [by rewrite Nat.add_0_r|].
  destruct Hw as [Hp Hps]. apply Forall_cons in Hf as [Hno Hf]. change (render_all (p :: ps)) with (render p ++ render_all ps) in *.
  rewrite <- app_assoc in Hd. change (length (p :: ps) + fuel) with (S (length ps + fuel)).
  rewrite (paren_step _ _ _ _ _ _ _ Hp (fun _ => or_introl eq_refl) Hd).
  assert (Hz : depth_after 0 p = 0 /\ opens p = false) by (by destruct p). destruct Hz as [-> ->]. simpl orb.
  rewrite (IH _ Hps Hf (drop_app_step _ _ _ _ Hd)), length_app. f_equal. lia.
Qed.

Lemma paren_inside fuel sql ps rest i d :
  wf_pieces ps rest -> group_inside d ps -> drop i sql = render_all ps ++ rest ->
  paren_close_loop (length ps + fuel) sql i d true = paren_close_loop fuel sql (i + length (render_all ps)) 1 true.
Proof.
  revert i d. induction ps as [|p ps IH]; intros i d Hw Hg Hd; [by rewrite Hg, Nat.add_0_r|].
  destruct Hw as [Hp Hps], Hg as (Hc & Hz & Hg). change (render_all (p :: ps)) with (render p ++ render_all ps) in *.
  rewrite <- app_assoc in Hd. change (length (p :: ps) + fuel) with (S (length ps + fuel)).
  rewrite (paren_step _ _ p _ i d true Hp ltac:(intros ->; specialize (Hc eq_refl); lia) Hd).
  simpl orb. rewrite (IH _ _ Hps Hg (drop_app_step _ _ _ _ Hd)), length_app. f_equal. lia.
Qed.

(** The end of the first parenthesised group: its own closing parenthesis,
    whatever groups, quoted texts and dollar-quoted bodies it contains. *)
Lemma paren_close_exact before inside rest :
  wf_pieces before [40%Z] -> Forall (fun p => p <> Open) before -> wf_pieces inside [41%Z] -> group_inside 1 inside ->
  find_top_level_paren_close (render_all before ++ 40%Z :: render_all inside ++ 41%Z :: rest) 0 =
  Some (length (render_all before ++ 40%Z :: render_all inside ++ [41%Z])).
Proof.
  intros Hb Ho Hi Hg. set (sql := render_all before ++ _).
  pose proof (wf_pieces_rest _ _ (render_all inside ++ 41%Z :: rest) Hb) as Hb'.
  pose proof (wf_pieces_rest _ _ rest Hi) as Hi'.
  assert (Hd : drop 0 sql = render_all before ++ 40%Z :: render_all inside ++ 41%Z :: rest) by done.
  pose proof (drop_app_step _ _ _ _ Hd) as Hd1. pose proof (drop_app_step _ _ [40%Z] _ Hd1) as Hd2.
  pose proof (drop_app_step _ _ _ _ Hd2) as Hd3. simpl in Hd1, Hd2, Hd3.
  pose proof (render_all_length _ _ Hb) as Hlb. pose proof (render_all_length _ _ Hi) as Hli.
  assert (Hlen : length before + S (length inside + 1) <= length sql).
  { unfold sql. rewrite length_app. simpl. rewrite length_app. simpl. lia. }
  unfold find_top_level_paren_close.
  replace (length sql) with (length before + S (length inside + S (length sql - (length before + S (length inside + 1))))) by lia.
  rewrite (paren_outside _ _ _ _ _ Hb' Ho Hd), (paren_step _ sql Open _ _ 0 false I (fun H => or_introl eq_refl) Hd1).
  simpl depth_after. simpl orb. rewrite (paren_inside _ sql inside _ _ 1 Hi' Hg Hd2).
  destruct (piece_first sql Close rest _ I Hd3) as [Hlt Hc]. simpl render in *. cbn [paren_close_loop]. 
  simpl in Hlt, Hc |- *. rewrite Hlt, Hc. simpl. f_equal.
  change (len_utf8 41) with 1. rewrite !length_app. simpl. rewrite length_app. simpl. lia.
Qed.

(** ** Relation names *)

(** An identifier between double quotes, its own double quotes doubled. *)
Definition quote_ident (s : text) : text := 34%Z :: replace_char 34 [34%Z; 34%Z] s ++ [34%Z].

Definition ident_item (c : text) : qitem := if bool_decide (head c = Some 34%Z) then QDouble else QChar c.

Lemma replace_char_app c r s t : replace_char c r (s ++ t) = replace_char c r s ++ replace_char c r t.
Proof. induction s as [|x s IH]; simpl; [done|]. by rewrite IH, app_assoc. Qed.

(** A quoted identifier is a quoted text of the grammar. *)
Lemma quoted_ident_body s : utf8 s -> exists body,
  Forall (wf_qitem 34) body /\ replace_char 34 [34%Z; 34%Z] s = render_body 34 body.
Proof.
  intros (cs & -> & Hcs). exists (map ident_item cs). split.
  - apply Forall_map. eapply Forall_impl; [exact Hcs|]. intros c [Hc _]. unfold ident_item.
    case_bool_decide; simpl; [done|]. split_and!; [done|done|lia].
  - induction Hcs as [|c cs [Hc Ht] Hcs IH]; [done|]. unfold render_body in *. simpl. rewrite replace_char_app, IH. f_equal.
    destruct (wf_char_inv c Hc) as (b & t & -> & Hb & Hl). simpl in *. unfold ident_item. simpl.
    rewrite (replace_char_id 34 _ t) by (eapply Forall_impl; [exact Ht|]; intros x Hx ->; done).
    destruct (Z.eqb_spec b 34) as [->|Hn].
    + rewrite bool_decide_true by done. change (len_utf8 34) with 1 in Hl. destruct t; [done|simpl in Hl; lia].
    + by rewrite bool_decide_false by congruence.
Qed.

Lemma undouble_double s : undouble (replace_char 34 [34%Z; 34%Z] s) = s.
Proof.
  induction s as [|x s IH]; [done|]. simpl. destruct (Z.eqb_spec x 34) as [->|Hn]; simpl.
  - by rewrite IH.
  - destruct (replace_char 34 _ s) eqn:E; [by rewrite <- IH|].
    by rewrite (proj2 (Z.eqb_neq x 34) Hn), IH.
Qed.

(** Reading a quoted identifier gives the identifier and the text after it. *)
Lemma unquote_quoted_ident s rest :
  utf8 s -> head rest <> Some 34%Z -> unquote_ident (quote_ident s ++ rest) = Some (Some (s, rest)).
Proof.
  intros Hu Hr. destruct (quoted_ident_body s Hu) as (body & Hb & Hbody).
  set (sql := quote_ident s ++ rest). assert (Hd : drop 0 sql = 34%Z :: replace_char 34 [34%Z; 34%Z] s ++ 34%Z :: rest).
  { unfold sql, quote_ident. simpl. by rewrite <- app_assoc. }
  assert (Hh : head sql = Some 34%Z) by done. clearbody sql.
  pose proof (drop_app_step _ _ [34%Z] _ Hd) as Hd1. pose proof (drop_app_step _ _ _ _ Hd1) as Hd2. simpl in Hd1, Hd2.
  pose proof (drop_app_step _ _ [34%Z] _ Hd2) as Hd3. simpl in Hd3.
  pose proof Hd as Hd0. rewrite Hbody in Hd0.
  pose proof (skip_quoted_exact sql 34 (or_intror eq_refl) body rest 0 Hb Hr Hd0) as Hskip. rewrite <- Hbody in Hskip.
  simpl in Hskip. rewrite length_app in Hskip. simpl in Hskip.
  unfold unquote_ident. rewrite bool_decide_true by done. rewrite Hskip.
  rewrite (proj2 (Nat.ltb_ge _ 2)) by lia.
  replace (S (length (replace_char 34 [34%Z; 34%Z] s) + 1) - 1) with (S (length (replace_char 34 [34%Z; 34%Z] s))) by lia.
  assert (Hfirst : is_char_boundary sql 1 = true).
  { destruct (utf8_first s Hu) as [->|(b & t & -> & Hc)]; [by apply (boundary_at _ _ _ _ Hd1)|].
    simpl in Hd1. destruct (b =? 34)%Z; simpl in Hd1; by apply (boundary_at _ _ _ _ Hd1). }
  unfold index_slice. rewrite Hfirst, (boundary_at _ _ _ _ Hd2 eq_refl), (slice_of_drop sql 1 _ _ Hd1 : slice 1 (S _) sql = _).
  simpl. rewrite undouble_double. do 3 f_equal.
  replace (S (length (replace_char 34 [34%Z; 34%Z] s) + 1)) with (S (length (replace_char 34 [34%Z; 34%Z] s) + 1)) by lia.
  exact Hd3.
Qed.

Lemma trim_start_solid c rest : (33 <= c < 128)%Z -> trim_start (c :: rest) = c :: rest.
Proof.
  intros Hc. unfold trim_start. simpl length. cbn [trim_start_fuel].
  assert (Hz : whitespace_prefix (c :: rest) = 0); [|by rewrite Hz].
  unfold whitespace_prefix. replace ((9 <=? c)%Z && (c <=? 13)%Z || (c =? 32)%Z) with false by lia.
  destruct rest as [|c2 [|c3 rest]]; [done| |].
  - by replace (c =? 194)%Z with false by lia.
  - replace (c =? 194)%Z with false by lia. replace (c =? 225)%Z with false by lia.
    replace (c =? 226)%Z with false by lia. by replace (c =? 227)%Z with false by lia.
Qed.

(** Both statement heads the code looks for. *)
Definition create_table_head (foreign : bool) : text := txt (if foreign then "CREATE FOREIGN TABLE " else "CREATE TABLE ").

(** The relation a CREATE TABLE statement defines is read back from its
    text: for all schema and table names (with quotes, semicolons, dots or
    parentheses in them), the names come back exactly, whatever follows the
    quoted table name. *)
Theorem create_table_relation_round_trip foreign schema table rest :
  utf8 schema -> utf8 table -> head rest <> Some 34%Z ->
  parse_create_table_relation
    (create_table_head foreign ++ quote_ident schema ++ [46%Z] ++ quote_ident table ++ rest) =
  Some (Some (schema, table)).
Proof.
  intros Hs Ht Hr. unfold parse_create_table_relation.
  assert (Hhead : trim_start (create_table_head foreign ++ quote_ident schema ++ [46%Z] ++ quote_ident table ++ rest) =
    create_table_head foreign ++ quote_ident schema ++ [46%Z] ++ quote_ident table ++ rest)
    by (destruct foreign; by apply trim_start_solid).
  rewrite Hhead. assert (Hstrip : strip_create_table (create_table_head foreign ++ quote_ident schema ++ [46%Z] ++ quote_ident table ++ rest) =
    Some (quote_ident schema ++ [46%Z] ++ quote_ident table ++ rest)) by (destruct foreign; reflexivity).
  rewrite Hstrip. cbn iota beta.
  assert (Hq : forall t, trim_start (quote_ident schema ++ t) = quote_ident schema ++ t) by (intros; by apply trim_start_solid).
  rewrite Hq.
  rewrite unquote_quoted_ident by done. cbn [mbind option_bind]. rewrite (strip_prefix_app [46%Z]).
  by rewrite unquote_quoted_ident by done.
Qed.

(** An identifier whose closing quote is missing and whose last character is
    not ASCII: the slice up to one byte before the end is not at a character
    boundary, and the function panics instead of returning [None]. *)
Example unterminated_identifier_panics :
  parse_create_table_relation (txt "CREATE TABLE " ++ [34; 195; 169]%Z) = None.
Proof. vm_compute. reflexivity. Qed.

Module DdlDemo.
Definition e_acute : text := [195%Z; 169%Z].

Lemma create_table_relation_round_trip_witness :
  parse_create_table_relation
    (create_table_head true ++ quote_ident [112; 34; 59]%Z ++ [46%Z] ++ quote_ident e_acute ++ txt " (a int)") =
  Some (Some ([112; 34; 59]%Z, e_acute)).
Proof.
  apply create_table_relation_round_trip; [| |done].
  - exists [[112]; [34]; [59]]%Z. split; [done|]. repeat constructor.
  - exists [e_acute]. split; [done|]. repeat constructor.
Defined.

(** A statement with semicolons in a string, in parentheses and in a
    dollar-quoted body, and one after it. *)
Definition demo_statement : list piece :=
  [Plain [97%Z]; Open; Quoted 39 [QChar [59%Z]; QDouble]; Semi; Close; Dollar [] [59%Z]].

Example statement_ranges_demo :
  pieces_of (script [demo_statement] [Plain [98%Z]]) (top_level_statement_ranges (script [demo_statement] [Plain [98%Z]])) =
  [terminated demo_statement; [98%Z]].
Proof. vm_compute. reflexivity. Qed.

Example wf_script_demo : wf_script [demo_statement] [Plain [98%Z]].
Proof.
  unfold wf_script, special. repeat constructor; simpl; try (intros b ?; simplify_eq; unfold special; set_solver); try done.
  all: intros; simplify_eq; try lia; done.
Qed.
End DdlDemo.
