(* ===== verification/SecretPayload.v ===== *)
(** * Encrypted payloads and desensitisation

    Models sections 8.3 and 8.5 of
    [crates/dbx-core/src/persistence/state_persistence.rs].

    [EncryptedPayload]: a payload encrypted under a passphrase and signed with
    a key.  AES-256-GCM, Argon2id, SHA-256 and base64 come from other crates:
    they are the operations of [Crypto], with what the code relies on as the
    class's laws; the random salt and nonce are arguments of [encrypt].  HMAC
    and the comparison of signatures are written out in the source and here.

    [Desensitize]: the rules that mask values before they are shown.  Text is
    UTF-8 bytes, [value.len()] its length and [value.chars()] its [chars]; the
    slice of a prefix panics off a character boundary, so [apply] gives an
    [option], [None] for a panic.  Regular expressions are an argument. *)

From Stdlib Require Import Ascii.
From S2P Require Import Prelude Json Utf8.

(** [s.contains(pat)]. *)
Definition contains (s pat : text) : bool := bool_decide (is_Some (find_sub pat s)).

Module EncryptedPayload.

Class Crypto := {
  b64_encode : text -> string;
  b64_decode : string -> result text string;
  (** [Argon2::hash_password_into] with the code's parameters: the 32 bytes. *)
  argon2id : text -> text -> result text string;
  (** [Aes256Gcm::encrypt] and [decrypt] with a 32-byte key. *)
  aes_encrypt : text -> text -> text -> result text string;
  aes_decrypt : text -> text -> text -> result text string;
  sha256 : text -> text;
  (** Laws. *)
  b64_round_trip bytes : b64_decode (b64_encode bytes) = Ok bytes;
  b64_alphabet s bytes : b64_decode s = Ok bytes -> 46%Z ∉ txt s;
  argon2id_length pass salt key : argon2id pass salt = Ok key -> length key = 32;
  aes_round_trip key nonce plain cipher :
    aes_encrypt key nonce plain = Ok cipher -> aes_decrypt key nonce cipher = Ok plain;
  sha256_length bytes : length (sha256 bytes) = 32;
}.

Record EncryptedPayload := {
  version : Z;
  kdf : string;
  cipher : string;
  salt : string;
  nonce : string;
  ciphertext : string;
  signature : option string;
}.

Section Operations.
Context `{Crypto}.

Definition derive_key (passphrase salt : text) : result text string := argon2id passphrase salt.

(** [Aes256Gcm::new_from_slice]. *)
Definition new_from_slice (key : text) : result text string :=
  if (length key =? 32)%nat then Ok key else Err "Invalid Length".

Definition encrypt (salt_bytes nonce_bytes plaintext passphrase : text) : result EncryptedPayload string :=
  let? key := derive_key passphrase salt_bytes in
  let? cipher := new_from_slice key in
  let? ciphertext := aes_encrypt cipher nonce_bytes plaintext in
  Ok {| version := 1; kdf := "argon2id"; cipher := "aes-256-gcm"; salt := b64_encode salt_bytes;
        nonce := b64_encode nonce_bytes; ciphertext := b64_encode ciphertext; signature := None |}.

Definition decrypt (self : EncryptedPayload) (passphrase : text) : result text string :=
  if negb (self.(version) =? 1)%Z || negb (String.eqb self.(kdf) "argon2id") || negb (String.eqb self.(cipher) "aes-256-gcm")
  then Err "Unsupported encrypted payload format"
  else
    let? salt := b64_decode self.(salt) in
    let? nonce := b64_decode self.(nonce) in
    let? ciphertext := b64_decode self.(ciphertext) in
    if negb (length nonce =? 12)%nat then Err "Invalid nonce length"
    else
      let? key := derive_key passphrase salt in
      let? cipher := new_from_slice key in
      match aes_decrypt cipher nonce ciphertext with
      | Ok plain => Ok plain
      | Err _ => Err "Decryption failed"
      end.

Definition BLOCK_SIZE : nat := 64.

(** The key block: zeros, overwritten by the key or by the hash of a long key. *)
Definition key_block (key : text) : text :=
  if (BLOCK_SIZE <? length key)%nat
  then sha256 key ++ drop 32 (replicate BLOCK_SIZE 0%Z)
  else key ++ drop (length key) (replicate BLOCK_SIZE 0%Z).

Definition hmac_sha256 (key data : text) : text :=
  let k := key_block key in
  let ipad := zip_with Z.lxor (replicate BLOCK_SIZE 54%Z) k in
  let opad := zip_with Z.lxor (replicate BLOCK_SIZE 92%Z) k in
  let inner := sha256 (ipad ++ data) in
  sha256 (opad ++ inner).

Definition constant_time_eq (a b : text) : bool :=
  if negb (length a =? length b)%nat then false
  else (fold_left (fun result xy => Z.lor result (Z.lxor xy.1 xy.2)) (zip a b) 0 =? 0)%Z.

Definition signing_payload (self : EncryptedPayload) : text :=
  decimal self.(version) ++ txt "." ++ txt self.(kdf) ++ txt "." ++ txt self.(cipher) ++ txt "." ++
  txt self.(salt) ++ txt "." ++ txt self.(nonce) ++ txt "." ++ txt self.(ciphertext).

Definition sign (self : EncryptedPayload) (signing_key : text) : EncryptedPayload :=
  {| version := self.(version); kdf := self.(kdf); cipher := self.(cipher); salt := self.(salt);
     nonce := self.(nonce); ciphertext := self.(ciphertext);
     signature := Some (b64_encode (hmac_sha256 signing_key (signing_payload self))) |}.

Definition verify (self : EncryptedPayload) (signing_key : text) : bool :=
  match self.(signature) with
  | None => false
  | Some sig_b64 =>
    match b64_decode sig_b64 with
    | Err _ => false
    | Ok expected_sig => constant_time_eq expected_sig (hmac_sha256 signing_key (signing_payload self))
    end
  end.

(** ** Lemmas *)

Lemma fold_lor_zero l acc :
  fold_left (fun result (xy : Z * Z) => Z.lor result (Z.lxor xy.1 xy.2)) l acc = 0%Z <->
  acc = 0%Z /\ Forall (fun xy => xy.1 = xy.2) l.
Proof.
  revert acc. induction l as [|[x y] l IH]; intros acc; simpl.
  - split; [by intros ->|by intros [? _]].
  - rewrite IH, Z.lor_eq_0_iff, Z.lxor_eq_0_iff, Forall_cons. simpl. tauto.
Qed.

Lemma zip_all_eq (a b : text) : length a = length b -> Forall (fun xy => xy.1 = xy.2) (zip a b) -> a = b.
Proof.
  revert b. induction a as [|x a IH]; intros [|y b] Hl Hf; simplify_eq/=; [done|].
  apply Forall_cons in Hf as [Hxy Hf]. simpl in Hxy. subst y. f_equal. by apply IH.
Qed.

(** The comparison that does not stop early is equality. *)
Lemma constant_time_eq_spec a b : constant_time_eq a b = bool_decide (a = b).
Proof.
  unfold constant_time_eq. destruct (Nat.eqb_spec (length a) (length b)) as [Hl|Hl]; simpl.
  - apply eq_bool_prop_intro. rewrite bool_decide_spec, Is_true_true, Z.eqb_eq, fold_lor_zero. split.
    + intros [_ Hf]. by apply zip_all_eq.
    + intros ->. split; [done|]. clear. induction b; simpl; constructor; done.
  - rewrite bool_decide_false; [done|]. by intros ->.
Qed.

(** Every digest's input starts with a whole block. *)
Lemma key_block_length key : length (key_block key) = BLOCK_SIZE.
Proof.
  unfold key_block. destruct (Nat.ltb_spec BLOCK_SIZE (length key)) as [Hlt|Hge]; rewrite length_app, length_drop, length_replicate.
  - rewrite sha256_length. unfold BLOCK_SIZE. lia.
  - lia.
Qed.

Lemma verify_spec p key :
  verify p key = true <-> exists sig, p.(signature) = Some sig /\ b64_decode sig = Ok (hmac_sha256 key (signing_payload p)).
Proof.
  unfold verify. destruct p.(signature) as [sig|]; [|split; [done|by intros (? & ? & _)]].
  destruct (b64_decode sig) as [bytes|e] eqn:E; [|split; [done|intros (? & ? & ?); congruence]].
  rewrite constant_time_eq_spec, bool_decide_eq_true. split; [intros ->; eauto|]. intros (? & ? & ?). congruence.
Qed.

Lemma decrypt_format p pass plain : decrypt p pass = Ok plain ->
  p.(version) = 1%Z /\ p.(kdf) = "argon2id" /\ p.(cipher) = "aes-256-gcm" /\
  (46%Z ∉ txt p.(salt)) /\ (46%Z ∉ txt p.(nonce)).
Proof.
  unfold decrypt. destruct (Z.eqb_spec p.(version) 1); simpl; [|done].
  destruct (String.eqb_spec p.(kdf) "argon2id"); simpl; [|done].
  destruct (String.eqb_spec p.(cipher) "aes-256-gcm"); simpl; [|done].
  destruct (b64_decode p.(salt)) as [s|] eqn:Es; simpl; [|done].
  destruct (b64_decode p.(nonce)) as [n|] eqn:En; simpl; [|done].
  intros _. split_and!; try done; by eapply b64_alphabet.
Qed.

(** What is encrypted under a passphrase is decrypted under it, before and
    after the payload is signed, and the signed payload verifies under its key. *)
Theorem encrypted_payload_round_trip salt_bytes nonce_bytes plaintext passphrase signing_key p :
  length nonce_bytes = 12 -> encrypt salt_bytes nonce_bytes plaintext passphrase = Ok p ->
  decrypt p passphrase = Ok plaintext /\ verify p signing_key = false /\
  decrypt (sign p signing_key) passphrase = Ok plaintext /\ verify (sign p signing_key) signing_key = true.
Proof.
  intros Hn. unfold encrypt. destruct (derive_key passphrase salt_bytes) as [key|] eqn:Hk; simpl; [|done].
  unfold new_from_slice. rewrite (argon2id_length _ _ _ Hk). simpl.
  destruct (aes_encrypt key nonce_bytes plaintext) as [ct|] eqn:Hc; simpl; [|done]. intros [= <-].
  assert (Hd : forall sig, decrypt {| version := 1; kdf := "argon2id"; cipher := "aes-256-gcm"; salt := b64_encode salt_bytes;
      nonce := b64_encode nonce_bytes; ciphertext := b64_encode ct; signature := sig |} passphrase = Ok plaintext).
  { intros sig. unfold decrypt. simpl. rewrite !b64_round_trip. simpl. rewrite Hn. simpl. rewrite Hk. simpl.
    unfold new_from_slice. rewrite (argon2id_length _ _ _ Hk). simpl. by rewrite (aes_round_trip _ _ _ _ Hc). }
  split_and!; [apply Hd|done|apply Hd|]. apply verify_spec. eexists. split; [done|]. apply b64_round_trip.
Qed.

(** A signature binds every field of a payload that decrypts: if a second
    payload that decrypts carries the same signature and verifies, then either
    the two HMAC inputs collide or all its fields are those of the first.  In
    particular the separators of the signing text hide no field boundary. *)
Theorem signature_binds_fields p q key pass pass' plain plain' :
  decrypt p pass = Ok plain -> decrypt q pass' = Ok plain' ->
  verify p key = true -> verify q key = true -> q.(signature) = p.(signature) ->
  q = p \/ (signing_payload q <> signing_payload p /\
            hmac_sha256 key (signing_payload q) = hmac_sha256 key (signing_payload p)).
Proof.
  intros (Hv1 & Hk1 & Hc1 & Hs1 & Hn1)%decrypt_format (Hv2 & Hk2 & Hc2 & Hs2 & Hn2)%decrypt_format.
  intros (sig & Hsig & Hd)%verify_spec (sig' & Hsig' & Hd')%verify_spec Heq.
  destruct (decide (signing_payload q = signing_payload p)) as [E|E]; [left|right; split; [done|congruence]].
  unfold signing_payload in E. rewrite Hv1, Hv2, Hk1, Hk2, Hc1, Hc2 in E. repeat apply app_inv_head in E.
  simpl in E. apply separator_split in E as [Es E]; [|done|done]. apply separator_split in E as [En Ec]; [|done|done].
  apply txt_inj in Es, En, Ec. destruct p, q; simpl in *. congruence.
Qed.
End Operations.

(** A concrete instance, to evaluate the operations: base64 by the binary
    digits of a number that encodes the bytes, a cipher that reverses. *)
Fixpoint bits_of_pos (p : positive) : string :=
  match p with
  | xH => ""
  | xO p' => String "0"%char (bits_of_pos p')
  | xI p' => String "1"%char (bits_of_pos p')
  end.

Fixpoint pos_of_bits (s : string) : option positive :=
  match s with
  | EmptyString => Some xH
  | String a s' =>
    p ← pos_of_bits s';
    if Ascii.eqb a "0"%char then Some (xO p) else if Ascii.eqb a "1"%char then Some (xI p) else None
  end.

Lemma pos_of_bits_of_pos p : pos_of_bits (bits_of_pos p) = Some p.
Proof. induction p as [p IH|p IH|]; simpl; [by rewrite IH..|done]. Qed.

Lemma pos_of_bits_no_dot s p : pos_of_bits s = Some p -> 46%Z ∉ txt s.
Proof.
  revert p. induction s as [|a s IH]; intros p; simpl; [intros _; apply not_elem_of_nil|].
  destruct (pos_of_bits s) as [p'|] eqn:E; simpl; [|done]. specialize (IH _ eq_refl). unfold txt in *. simpl.
  destruct (Ascii.eqb_spec a "0"%char) as [->|]; [intros _; apply (not_elem_of_cons (A := Z)); by split|].
  destruct (Ascii.eqb_spec a "1"%char) as [->|]; [intros _; apply (not_elem_of_cons (A := Z)); by split|done].
Qed.

Definition first32 (bytes : text) : text := take 32 (bytes ++ replicate 32 0%Z).

Lemma first32_length bytes : length (first32 bytes) = 32.
Proof. unfold first32. rewrite length_take, length_app, length_replicate. lia. Qed.

#[local] Instance demo_crypto : Crypto.
Proof.
  refine {|
    b64_encode bytes := bits_of_pos (encode bytes);
    b64_decode s := match pos_of_bits s ≫= decode with Some bytes => Ok bytes | None => Err "Invalid symbol" end;
    argon2id pass salt := if (length salt <? 8)%nat then Err "salt is too short" else Ok (first32 (pass ++ salt));
    aes_encrypt key nonce plain := Ok (rev plain);
    aes_decrypt key nonce ct := Ok (rev ct);
    sha256 bytes := first32 (rev bytes) |}.
  - intros bytes. rewrite pos_of_bits_of_pos. simpl. by rewrite decode_encode.
  - intros s bytes. destruct (pos_of_bits s) eqn:E; simpl; [|done]. intros _. by eapply pos_of_bits_no_dot.
  - intros pass salt key. case_match; [done|]. intros [= <-]. apply first32_length.
  - intros key nonce plain ct [= <-]. by rewrite rev_involutive.
  - intros bytes. apply first32_length.
Defined.

Definition demo_payload : EncryptedPayload :=
  match encrypt (txt "0123456789abcdef") (txt "nonce-12byte") (txt "hi") (txt "pass") with
  | Ok p => p
  | Err _ => {| version := 0; kdf := ""; cipher := ""; salt := ""; nonce := ""; ciphertext := ""; signature := None |}
  end.

Lemma encrypted_payload_round_trip_witness :
  decrypt demo_payload (txt "pass") = Ok (txt "hi") /\ verify demo_payload (txt "k") = false /\
  decrypt (sign demo_payload (txt "k")) (txt "pass") = Ok (txt "hi") /\ verify (sign demo_payload (txt "k")) (txt "k") = true.
Proof. apply (encrypted_payload_round_trip (txt "0123456789abcdef") (txt "nonce-12byte")); reflexivity. Defined.

Lemma signature_binds_fields_witness :
  let p := sign demo_payload (txt "k") in
  p = p \/ (signing_payload p <> signing_payload p /\
    hmac_sha256 (txt "k") (signing_payload p) = hmac_sha256 (txt "k") (signing_payload p)).
Proof.
  apply (signature_binds_fields (sign demo_payload (txt "k")) (sign demo_payload (txt "k")) (txt "k") (txt "pass") (txt "pass")
    (txt "hi") (txt "hi")); vm_compute; reflexivity.
Defined.

(** A payload changed after it was signed no longer verifies. *)
Example tampered_payload_is_refused :
  let p := sign demo_payload (txt "k") in
  verify {| version := p.(version); kdf := p.(kdf); cipher := p.(cipher); salt := p.(salt); nonce := p.(nonce);
            ciphertext := p.(salt); signature := p.(signature) |} (txt "k") = false.
Proof. vm_compute. reflexivity. Qed.
End EncryptedPayload.

Module Desensitize.

(** [value.replace(pattern, replacement)]: the leftmost occurrences that do not
    overlap; an empty pattern matches at every character boundary. *)
Definition replace (pattern replacement s : text) : text :=
  match pattern with
  | [] => concat (map (fun c => replacement ++ c) (chars s)) ++ replacement
  | _ => replace_fuel (length s) pattern replacement s
  end.

Inductive DesensitizeRule (regex : Type) : Type :=
| Pattern (name pattern replacement : text) (preserve_prefix : nat)
| PrefixKeep (name : text) (keep : nat)
| SuffixKeep (name : text) (keep : nat)
| Regex (name : text) (pattern : regex) (replacement : text).
Arguments Pattern {regex}.
Arguments PrefixKeep {regex}.
Arguments SuffixKeep {regex}.
Arguments Regex {regex}.

Definition name {regex} (rule : DesensitizeRule regex) : text :=
  match rule with
  | Pattern name _ _ _ | PrefixKeep name _ | SuffixKeep name _ | Regex name _ _ => name
  end.

(** [iter.map(|_| '*').collect()]. *)
Definition stars (cs : list text) : text := concat (map (fun _ => [42%Z]) cs).

Section Engine.
Context {regex : Type}.
(** [Regex::replace_all] of the [regex] crate. *)
Variable replace_all : regex -> text -> text -> text.

Definition rule_apply (self : DesensitizeRule regex) (value : text) : option text :=
  match self with
  | Pattern _ pattern replacement preserve_prefix =>
    if (0 <? preserve_prefix)%nat && (preserve_prefix <? length value)%nat then
      prefix ← index_slice 0 preserve_prefix value;
      Some (prefix ++ stars (drop preserve_prefix (chars value)))
    else if bool_decide (value = pattern) then Some replacement
    else if contains value pattern then Some (replace pattern replacement value)
    else Some (stars (chars value))
  | PrefixKeep _ keep =>
    if (length value <=? keep)%nat then Some value
    else
      let visible := concat (take keep (chars value)) in
      let rest := stars (drop keep (chars value)) in
      Some (visible ++ rest)
  | SuffixKeep _ keep =>
    if (length value <=? keep)%nat then Some value
    else
      let visible := concat (rev (take keep (rev (chars value)))) in
      let rest := concat (rev (map (fun _ => [42%Z]) (drop keep (rev (chars value))))) in
      Some (rest ++ visible)
  | Regex _ pattern replacement => Some (replace_all pattern value replacement)
  end.

Definition engine : Type := list (DesensitizeRule regex).

Definition new : engine := [].

Definition add_rule (self : engine) (rule : DesensitizeRule regex) : engine := self ++ [rule].

Definition rule_matches (key : text) (rule : DesensitizeRule regex) : bool :=
  contains key (name rule) || bool_decide (name rule = txt "*").

Fixpoint apply (self : engine) (key value : text) : option text :=
  match self with
  | [] => Some value
  | rule :: rules => if rule_matches key rule then rule_apply rule value else apply rules key value
  end.

(** [apply_to_json]; [None] when a rule panics. *)
Fixpoint apply_to_json (self : engine) (j : json) : option json :=
  match j with
  | JObject members =>
    members' ←
      (fix go (ms : list (string * json)) : option (list (string * json)) :=
         match ms with
         | [] => Some []
         | (key, value) :: rest =>
           value' ← match value with
                    | JString s => d ← apply self (txt key) (txt s); Some (JString (untxt d))
                    | _ => apply_to_json self value
                    end;
           rest' ← go rest;
           Some ((key, value') :: rest')
         end) members;
    Some (JObject members')
  | JArray items =>
    items' ←
      (fix go (l : list json) : option (list json) :=
         match l with
         | [] => Some []
         | item :: rest => item' ← apply_to_json self item; rest' ← go rest; Some (item' :: rest')
         end) items;
    Some (JArray items')
  | _ => Some j
  end.

Definition default_connection_rules : engine :=
  let engine := new in
  let engine := add_rule engine (PrefixKeep (txt "password") 2) in
  let engine := add_rule engine (PrefixKeep (txt "secret") 4) in
  let engine := add_rule engine (PrefixKeep (txt "token") 4) in
  let engine := add_rule engine (PrefixKeep (txt "connection_string") 8) in
  let engine := add_rule engine (PrefixKeep (txt "key") 4) in
  let engine := add_rule engine (PrefixKeep (txt "passphrase") 2) in
  engine.

(** ** Lemmas *)

Lemma stars_length cs : stars cs = replicate (length cs) 42%Z.
Proof. unfold stars. induction cs; simpl; by f_equal. Qed.

Lemma visible_all (value : text) keep : length value <= keep ->
  concat (take keep (chars value)) = value /\ length (chars value) - keep = 0.
Proof.
  intros Hl. pose proof (chars_length value). rewrite take_ge by lia. split; [apply chars_concat|lia].
Qed.

(** The rules that keep a few characters show exactly those and one star
    for each other character: the first [keep] characters of the value, or its
    last [keep] ones.  The test on the value's length in bytes changes nothing,
    since a value of at most [keep] bytes has at most [keep] characters. *)
Theorem keep_rules_show_only_kept_characters n keep value :
  rule_apply (PrefixKeep n keep) value =
    Some (concat (take keep (chars value)) ++ replicate (length (chars value) - keep) 42%Z) /\
  rule_apply (SuffixKeep n keep) value =
    Some (replicate (length (chars value) - keep) 42%Z ++ concat (drop (length (chars value) - keep) (chars value))).
Proof.
  unfold rule_apply. destruct (Nat.leb_spec (length value) keep) as [Hle|Hgt].
  - destruct (visible_all value keep Hle) as [Hv ->]. rewrite Hv, drop_0, chars_concat, app_nil_r. done.
  - rewrite stars_length, length_drop. split; [done|]. do 2 f_equal.
    + fold (stars (drop keep (rev (chars value)))).
      rewrite <- map_rev. fold (stars (rev (drop keep (rev (chars value))))). by rewrite stars_length, length_rev, length_drop, length_rev.
    + by rewrite firstn_rev, rev_involutive.
Qed.

(** ** JSON documents *)

(** What masking a document means: structure, keys and order stay, every string
    that is the value of an object's member becomes what the engine makes of it
    under the member's key, every other scalar stays. *)
Inductive masked (self : engine) : json -> json -> Prop :=
| masked_scalar j : match j with JArray _ | JObject _ => False | _ => True end -> masked self j j
| masked_array l l' : Forall2 (masked self) l l' -> masked self (JArray l) (JArray l')
| masked_object m m' : Forall2 (masked_member self) m m' -> masked self (JObject m) (JObject m')
with masked_member (self : engine) : string * json -> string * json -> Prop :=
| masked_string key s d : apply self (txt key) (txt s) = Some d ->
    masked_member self (key, JString s) (key, JString (untxt d))
| masked_other key v v' : match v with JString _ => False | _ => True end -> masked self v v' ->
    masked_member self (key, v) (key, v').

(** A rule that cannot slice a value inside a character. *)
Definition never_slices (rule : DesensitizeRule regex) : bool :=
  match rule with Pattern _ _ _ preserve_prefix => (preserve_prefix =? 0)%nat | _ => true end.

Lemma never_slices_total rule value : never_slices rule = true -> is_Some (rule_apply rule value).
Proof.
  destruct rule as [n pat r pp|n keep|n keep|n re r]; simpl; intros Hn; [|case_match; by eexists..|by eexists].
  apply Nat.eqb_eq in Hn as ->. simpl. repeat case_match; by eexists.
Qed.

Lemma apply_total self key value : Forall (fun r => never_slices r = true) self -> is_Some (apply self key value).
Proof.
  induction 1 as [|rule rules Hr _ IH]; simpl; [by eexists|]. case_match; [by apply never_slices_total|done].
Qed.

(** Masking a JSON document always ends with a document of the same shape in
    which exactly the string members of its objects, at any depth, were masked
    under their keys.  (The rules are such that no prefix is cut inside a
    character; all rules of [default_connection_rules] are.) *)
Theorem json_is_masked_memberwise self j :
  Forall (fun r => never_slices r = true) self -> exists j', apply_to_json self j = Some j' /\ masked self j j'.
Proof.
  intros Hs. induction j as [|b|r|s|l IH|m IH] using json_nested_ind;
    [eexists; split; [done|by constructor]..| |].
  - cut (exists l', (fix go (l : list json) : option (list json) :=
         match l with
         | [] => Some []
         | item :: rest => item' ← apply_to_json self item; rest' ← go rest; Some (item' :: rest')
         end) l = Some l' /\ Forall2 (masked self) l l').
    { intros (l' & E & Hf). exists (JArray l'). split; [cbn [apply_to_json]; by rewrite E|by constructor]. }
    induction IH as [|x l (x' & Ex & Hx) _ (l' & El & Hl)]; [by eexists|].
    exists (x' :: l'). rewrite Ex. simpl. rewrite El. split; [done|by constructor].
  - cut (exists m', (fix go (ms : list (string * json)) : option (list (string * json)) :=
         match ms with
         | [] => Some []
         | (key, value) :: rest =>
           value' ← match value with
                    | JString s => d ← apply self (txt key) (txt s); Some (JString (untxt d))
                    | _ => apply_to_json self value
                    end;
           rest' ← go rest;
           Some ((key, value') :: rest')
         end) m = Some m' /\ Forall2 (masked_member self) m m').
    { intros (m' & E & Hf). exists (JObject m'). split; [cbn [apply_to_json]; by rewrite E|by constructor]. }
    induction IH as [|[k v] m (v' & Ev & Hv) _ (m' & Em & Hm)]; [by eexists|]. rewrite Em. simpl in Ev, Hv.
    destruct v as [|b|r|s|l|o].
    4: { destruct (apply_total self (txt k) (txt s) Hs) as [d Hd]. rewrite Hd. simpl.
         eexists. split; [done|]. constructor; [by constructor|done]. }
    all: rewrite Ev; simpl; eexists; split; [done|]; constructor; [by constructor|done].
Qed.
End Engine.

(** The default rules never cut inside a character. *)
Lemma default_rules_never_slice regex : Forall (fun r => never_slices r = true) (@default_connection_rules regex).
Proof. repeat constructor. Qed.

(** A prefix of a two-byte character: the slice panics. *)
Example preserve_prefix_panics :
  rule_apply (fun (_ : unit) v _ => v) (Pattern (txt "name") (txt "x") (txt "y") 1) [195; 169]%Z = None.
Proof. reflexivity. Qed.

(** With [preserve_prefix] set, a longer value is masked without a look at the pattern. *)
Example preserve_prefix_ignores_pattern :
  rule_apply (fun (_ : unit) v _ => v) (Pattern (txt "name") (txt "abc") (txt "[hidden]") 1) (txt "abc") = Some (txt "a**").
Proof. reflexivity. Qed.

(** Strings inside an array are kept, also under a sensitive key. *)
Example strings_in_arrays_stay :
  apply_to_json (fun (_ : unit) v _ => v) default_connection_rules (JObject [("passwords", JArray [JString "hunter2"])]) =
  Some (JObject [("passwords", JArray [JString "hunter2"])]).
Proof. vm_compute. reflexivity. Qed.

Definition demo_connection : json :=
  JObject [("host", JString "db1"); ("password", JString "hunter2"); ("ssh", JObject [("key_passphrase", JString "abcdefg")])].

Lemma json_is_masked_memberwise_witness : exists j',
  apply_to_json (fun (_ : unit) v _ => v) default_connection_rules demo_connection = Some j' /\
  masked (fun (_ : unit) v _ => v) default_connection_rules demo_connection j'.
Proof. apply json_is_masked_memberwise. repeat constructor. Defined.

Example demo_connection_masked :
  apply_to_json (fun (_ : unit) v _ => v) default_connection_rules demo_connection =
  Some (JObject [("host", JString "db1"); ("password", JString "hu*****"); ("ssh", JObject [("key_passphrase", JString "abcd***")])]).
Proof. vm_compute. reflexivity. Qed.
End Desensitize.
