(* ===== verification/DataCompare.v ===== *)
(** * Comparison of table data

    Models the row comparison of [crates/dbx-core/src/data/data_compare.rs]:
    rows of a source and of a target table are matched by the text of their key
    columns, and the result lists the rows only one side has and the cells that
    differ.  [serde_json::to_string] is an argument; a key is its text (bytes),
    other names are strings.  [HashMap] is [gmap]; the order of the result comes
    from the order of the rows, never from a map. *)

From S2P Require Import Prelude Json.

Record CompareDataRowsOptions := {
  columns : list string;
  key_columns : list string;
  source_rows : list (list json);
  target_rows : list (list json);
}.

Record DataCompareChangedCell := { column : string; source : json; target : json }.

Record DataCompareRow := { row_key : text; row_key_values : gmap string json; values : gmap string json }.

Record DataCompareModifiedRow := {
  mod_key : text;
  mod_key_values : gmap string json;
  source_values : gmap string json;
  target_values : gmap string json;
  changes : list DataCompareChangedCell;
}.

Record DataCompareResult := {
  added : list DataCompareRow;
  removed : list DataCompareRow;
  modified : list DataCompareModifiedRow;
}.

(** [==] on [serde_json::Value]: objects are equal when they have the same
    members, in any order. *)
Fixpoint json_eqb (a b : json) : bool :=
  match a, b with
  | JNull, JNull => true
  | JBool x, JBool y => Bool.eqb x y
  | JNumber x, JNumber y => String.eqb x y
  | JString x, JString y => String.eqb x y
  | JArray l, JArray l' =>
    (fix go (l l' : list json) : bool :=
       match l, l' with
       | [], [] => true
       | x :: l, y :: l' => json_eqb x y && go l l'
       | _, _ => false
       end) l l'
  | JObject m, JObject m' =>
    (length m =? length m')%nat &&
    forallb (fun kv => match obj_get kv.1 m' with Some v => json_eqb kv.2 v | None => false end) m
  | _, _ => false
  end.

Definition column_index_map (columns : list string) : gmap string nat :=
  foldl (fun indexes ic => <[ic.2 := ic.1]> indexes) ∅ (imap pair columns).

Definition row_value (row : list json) (index : nat) : json := default JNull (row !! index).

Definition normalize_row_len (row : list json) (column_len : nat) : list json :=
  if (length row <? column_len)%nat then row ++ replicate (column_len - length row) JNull else row.

Definition row_object (columns : list string) (row : list json) : gmap string json :=
  foldl (fun m ic => <[ic.2 := default JNull (row !! ic.1)]> m) ∅ (imap pair columns).

(** The columns take the values of the row in turn, then nulls. *)
Fixpoint row_object_loop (columns : list string) (row : list json) (values : gmap string json) : gmap string json :=
  match columns with
  | [] => values
  | c :: rest => row_object_loop rest (tail row) (<[c := default JNull (head row)]> values)
  end.
Definition row_object_owned (columns : list string) (row : list json) : gmap string json := row_object_loop columns row ∅.

Definition value_for (row : gmap string json) (column : string) : json := default JNull (row !! column).

Definition key_values (row : gmap string json) (key_columns : list string) : gmap string json :=
  foldl (fun m c => <[c := value_for row c]> m) ∅ key_columns.

Definition key_values_for_row (row : list json) (key_columns : list string) (column_indexes : gmap string nat) : gmap string json :=
  foldl (fun m c => <[c := match column_indexes !! c with Some i => row_value row i | None => JNull end]> m) ∅ key_columns.

Section Compare.
(** [serde_json::to_string]. *)
Variable to_string : json -> result text string.

Definition json_stringify (value : json) : text := match to_string value with Ok s => s | Err _ => txt "null" end.

Definition unit_separator : text := [31%Z].

Definition key_for (row : gmap string json) (key_columns : list string) : text :=
  join unit_separator (map (fun column => json_stringify (value_for row column)) key_columns).

Definition key_for_row (row : list json) (key_columns : list string) (column_indexes : gmap string nat) : text :=
  join unit_separator (map (fun column =>
    match column_indexes !! column with
    | Some index => json_stringify (row_value row index)
    | None => json_stringify JNull
    end) key_columns).

Definition duplicate_key_error (label : string) (key_columns : list string) (key : text) : text :=
  let columns := join (txt ", ") (map txt key_columns) in
  let key_display :=
    if (1 <? length key_columns)%nat then txt "[" ++ join (txt ", ") (split_on 31 key) ++ txt "]" else key in
  txt "Duplicate " ++ txt label ++ txt " key for column(s) [" ++ columns ++ txt "]: " ++ key_display.

Definition CompareRowMap : Type := gmap (list Z) (list json).

Fixpoint collect_loop (columns key_columns : list string) (column_indexes : gmap string nat) (label : string)
    (rows : list (list json)) (items : CompareRowMap) (order : list text) : result (CompareRowMap * list text) text :=
  match rows with
  | [] => Ok (items, order)
  | row :: rest =>
    let key := key_for_row row key_columns column_indexes in
    if bool_decide (is_Some (items !! key)) then Err (duplicate_key_error label key_columns key)
    else collect_loop columns key_columns column_indexes label rest
           (<[key := normalize_row_len row (length columns)]> items) (order ++ [key])
  end.

Definition collect_compare_rows (columns key_columns : list string) (column_indexes : gmap string nat)
    (rows : list (list json)) (label : string) : result (CompareRowMap * list text) text :=
  collect_loop columns key_columns column_indexes label rows ∅ [].

(** The cells of the other columns that differ. *)
Definition changed_cells (columns key_columns : list string) (column_indexes : gmap string nat)
    (source_row target_row : list json) : list DataCompareChangedCell :=
  omap (fun c =>
    index ← column_indexes !! c;
    let source_value := row_value source_row index in
    let target_value := row_value target_row index in
    if json_eqb source_value target_value then None
    else Some {| column := c; source := source_value; target := target_value |})
  (List.filter (fun c => negb (bool_decide (c ∈ key_columns))) columns).

Definition compare_row (columns key_columns : list string) (column_indexes : gmap string nat) (key : text) (row : list json) :
    DataCompareRow :=
  {| row_key := key; row_key_values := key_values_for_row row key_columns column_indexes; values := row_object columns row |}.

Definition modified_row (columns key_columns : list string) (column_indexes : gmap string nat) (key : text)
    (source_row target_row : list json) (cells : list DataCompareChangedCell) : DataCompareModifiedRow :=
  {| mod_key := key; mod_key_values := key_values_for_row source_row key_columns column_indexes;
     source_values := row_object columns source_row; target_values := row_object columns target_row; changes := cells |}.

(** The loop over the source's keys. *)
Fixpoint source_loop (columns key_columns : list string) (column_indexes : gmap string nat) (source target : CompareRowMap)
    (order : list text) (added : list DataCompareRow) (modified : list DataCompareModifiedRow) :
    option (list DataCompareRow * list DataCompareModifiedRow) :=
  match order with
  | [] => Some (added, modified)
  | key :: rest =>
    source_row ← source !! key;
    match target !! key with
    | None => source_loop columns key_columns column_indexes source target rest
                (added ++ [compare_row columns key_columns column_indexes key source_row]) modified
    | Some target_row =>
      let cells := changed_cells columns key_columns column_indexes source_row target_row in
      match cells with
      | [] => source_loop columns key_columns column_indexes source target rest added modified
      | _ => source_loop columns key_columns column_indexes source target rest added
               (modified ++ [modified_row columns key_columns column_indexes key source_row target_row cells])
      end
    end
  end.

(** The loop over the target's keys. *)
Fixpoint target_loop (columns key_columns : list string) (column_indexes : gmap string nat) (source target : CompareRowMap)
    (order : list text) (removed : list DataCompareRow) : list DataCompareRow :=
  match order with
  | [] => removed
  | key :: rest =>
    match target !! key with
    | Some target_row =>
      if bool_decide (is_Some (source !! key)) then target_loop columns key_columns column_indexes source target rest removed
      else target_loop columns key_columns column_indexes source target rest
             (removed ++ [compare_row columns key_columns column_indexes key target_row])
    | None => target_loop columns key_columns column_indexes source target rest removed
    end
  end.

(** [None] is the panic of [expect]. *)
Definition compare_data_rows (options : CompareDataRowsOptions) : option (result DataCompareResult text) :=
  match options.(key_columns) with
  | [] => Some (Err (txt "At least one key column is required for data comparison"))
  | _ =>
    let column_indexes := column_index_map options.(columns) in
    match collect_compare_rows options.(columns) options.(key_columns) column_indexes options.(source_rows) "source" with
    | Err e => Some (Err e)
    | Ok (source, source_order) =>
      match collect_compare_rows options.(columns) options.(key_columns) column_indexes options.(target_rows) "target" with
      | Err e => Some (Err e)
      | Ok (target, target_order) =>
        lists ← source_loop options.(columns) options.(key_columns) column_indexes source target source_order [] [];
        let removed := target_loop options.(columns) options.(key_columns) column_indexes source target target_order [] in
        Some (Ok {| added := lists.1; removed := removed; modified := lists.2 |})
      end
    end
  end.

(** [index.to_string()] is the decimal text of the row's position. *)
Definition missing_target_diff (columns key_columns : list string) (rows : list (list json)) : DataCompareResult :=
  {| added := imap (fun index row =>
       let values := row_object_owned columns row in
       let key := match key_columns with [] => decimal (Z.of_nat index) | _ => key_for values key_columns end in
       {| row_key := key; row_key_values := key_values values key_columns; values := values |}) rows;
     removed := []; modified := [] |}.

(** ** The comparison as nested loops over the rows *)

Section Spec.
Variables (cols keys : list string).

Definition key_of (row : list json) : text := key_for_row row keys (column_index_map cols).

(** The row with a given key, as the comparison reads it. *)
Definition row_with_key (rows : list (list json)) (key : text) : option (list json) :=
  (fun row => normalize_row_len row (length cols)) <$> List.find (fun row => bool_decide (key_of row = key)) rows.

Definition only_here (here there : list (list json)) : list DataCompareRow :=
  omap (fun row =>
    match row_with_key there (key_of row) with
    | None => Some (compare_row cols keys (column_index_map cols) (key_of row) (normalize_row_len row (length cols)))
    | Some _ => None
    end) here.

Definition differing (source_rows target_rows : list (list json)) : list DataCompareModifiedRow :=
  omap (fun row =>
    target_row ← row_with_key target_rows (key_of row);
    let source_row := normalize_row_len row (length cols) in
    match changed_cells cols keys (column_index_map cols) source_row target_row with
    | [] => None
    | cells => Some (modified_row cols keys (column_index_map cols) (key_of row) source_row target_row cells)
    end) source_rows.

(** What the map of a side's rows holds. *)
Definition holds (rows : list (list json)) (items : CompareRowMap) : Prop :=
  forall key, items !! key = row_with_key rows key.

Lemma row_with_key_cons row rows key :
  row_with_key (row :: rows) key =
  if bool_decide (key_of row = key) then Some (normalize_row_len row (length cols)) else row_with_key rows key.
Proof. unfold row_with_key. cbn [List.find]. by destruct (bool_decide (key_of row = key)). Qed.

Lemma row_with_key_app rows row key :
  row_with_key (rows ++ [row]) key =
  match row_with_key rows key with
  | Some r => Some r
  | None => if bool_decide (key_of row = key) then Some (normalize_row_len row (length cols)) else None
  end.
Proof.
  unfold row_with_key. induction rows as [|r rows IH]; simpl.
  - by case_bool_decide.
  - destruct (bool_decide (key_of r = key)); [done|]. apply IH.
Qed.

Lemma row_with_key_none rows key : row_with_key rows key = None <-> key ∉ map key_of rows.
Proof.
  unfold row_with_key. induction rows as [|r rows IH]; simpl.
  - split; [intros _; apply not_elem_of_nil|done].
  - rewrite not_elem_of_cons. case_bool_decide as Hk; simpl; [split; [done|]; intros [Hn _]; by destruct Hn|].
    rewrite IH. split; [intros; split; [congruence|done]|by intros [_ ?]].
Qed.

Lemma row_with_key_unique rows row :
  NoDup (map key_of rows) -> row ∈ rows -> row_with_key rows (key_of row) = Some (normalize_row_len row (length cols)).
Proof.
  unfold row_with_key. induction rows as [|r rows IH]; simpl; [by intros _ ?%elem_of_nil|].
  intros [Hr Hn]%NoDup_cons [->|Hin]%elem_of_cons; [by rewrite bool_decide_true|].
  rewrite bool_decide_false; [by apply IH|]. intros E. apply Hr. rewrite E. by apply list_elem_of_fmap_2.
Qed.

Lemma collect_loop_spec label done rows items :
  holds done items -> NoDup (map key_of done) ->
  (NoDup (map key_of (done ++ rows)) -> exists items',
     collect_loop cols keys (column_index_map cols) label rows items (map key_of done) = Ok (items', map key_of (done ++ rows)) /\
     holds (done ++ rows) items') /\
  (~ NoDup (map key_of (done ++ rows)) -> exists e,
     collect_loop cols keys (column_index_map cols) label rows items (map key_of done) = Err e).
Proof.
  revert done items. induction rows as [|row rows IH]; intros prev items Hh Hn.
  { rewrite app_nil_r. split; [by eauto|done]. }
  cbn [collect_loop]. fold (key_of row). rewrite (Hh (key_of row)).
  case_bool_decide as Hd.
  - split; [|by eauto]. rewrite map_app. simpl. intros (_ & Hdis & _)%NoDup_app. exfalso.
    destruct (decide (key_of row ∈ map key_of prev)) as [Hin|Hni]; [by apply (Hdis _ Hin); left|].
    apply row_with_key_none in Hni. rewrite Hni in Hd. by destruct Hd.
  - assert (Hni : key_of row ∉ map key_of prev) by (apply row_with_key_none; by apply eq_None_not_Some).
    replace (prev ++ row :: rows) with ((prev ++ [row]) ++ rows) by (by rewrite <- app_assoc).
    replace (map key_of prev ++ [key_of row]) with (map key_of (prev ++ [row])) by (by rewrite map_app).
    apply IH.
    + intros key. rewrite row_with_key_app. destruct (decide (key_of row = key)) as [<-|Hne].
      * etrans; [apply (lookup_insert_eq (M := gmap (list Z)))|]. apply row_with_key_none in Hni. by rewrite Hni, bool_decide_true.
      * etrans; [by apply (lookup_insert_ne (M := gmap (list Z)))|]. etrans; [apply Hh|]. rewrite bool_decide_false by done. by destruct (row_with_key prev key).
    + rewrite map_app. apply NoDup_app. split_and!; [done| |apply NoDup_singleton].
      intros k Hk Hk2. apply list_elem_of_singleton in Hk2. congruence.
Qed.

Lemma collect_spec label rows :
  (NoDup (map key_of rows) -> exists items,
     collect_compare_rows cols keys (column_index_map cols) rows label = Ok (items, map key_of rows) /\ holds rows items) /\
  (~ NoDup (map key_of rows) -> exists e, collect_compare_rows cols keys (column_index_map cols) rows label = Err e).
Proof. apply (collect_loop_spec label [] rows ∅); [done|constructor]. Qed.

Lemma source_loop_spec srows trows source target rows ad md :
  NoDup (map key_of srows) -> holds srows source -> holds trows target -> Forall (fun r => r ∈ srows) rows ->
  source_loop cols keys (column_index_map cols) source target (map key_of rows) ad md =
  Some (ad ++ only_here rows trows, md ++ differing rows trows).
Proof.
  intros Hnd Hs Ht Hsub. revert ad md. induction rows as [|row rows IH]; intros ad md.
  { simpl. by rewrite !app_nil_r. }
  assert (Hin : row_with_key srows (key_of row) = Some (normalize_row_len row (length cols))).
  { apply row_with_key_unique; [done|]. by apply Forall_cons in Hsub as [? _]. }
  apply Forall_cons in Hsub as [_ Hsub].
  cbn [map source_loop only_here differing omap list_omap]. rewrite (Hs (key_of row)), Hin. cbn [mbind option_bind].
  rewrite (Ht (key_of row)). destruct (row_with_key trows (key_of row)) as [trow|] eqn:Et; cbn [mbind option_bind].
  - destruct (changed_cells _ _ _ _ _) eqn:Ec; rewrite IH by done; [done|]. by rewrite <- app_assoc.
  - rewrite IH by done. by rewrite <- app_assoc.
Qed.

Lemma target_loop_spec srows trows source target rows rem :
  NoDup (map key_of trows) -> holds srows source -> holds trows target -> Forall (fun r => r ∈ trows) rows ->
  target_loop cols keys (column_index_map cols) source target (map key_of rows) rem = rem ++ only_here rows srows.
Proof.
  intros Hnd Hs Ht Hsub. revert rem. induction rows as [|row rows IH]; intros rem; [simpl; by rewrite app_nil_r|].
  assert (Hin : row_with_key trows (key_of row) = Some (normalize_row_len row (length cols))).
  { apply row_with_key_unique; [done|]. by apply Forall_cons in Hsub as [? _]. }
  apply Forall_cons in Hsub as [_ Hsub].
  cbn [map target_loop only_here omap list_omap]. rewrite (Ht (key_of row)), Hin, (Hs (key_of row)).
  destruct (row_with_key srows (key_of row)) as [srow|] eqn:Es.
  - rewrite bool_decide_true by (by eexists). by rewrite IH.
  - rewrite bool_decide_false by (by intros [? ?]). rewrite IH by done. by rewrite <- app_assoc.
Qed.
End Spec.

(** Key columns are given and no two rows of a side have the same key. *)
Definition well_keyed (o : CompareDataRowsOptions) : Prop :=
  o.(key_columns) <> [] /\ NoDup (map (key_of o.(columns) o.(key_columns)) o.(source_rows)) /\
  NoDup (map (key_of o.(columns) o.(key_columns)) o.(target_rows)).

Definition nested_loop_diff (o : CompareDataRowsOptions) : DataCompareResult :=
  {| added := only_here o.(columns) o.(key_columns) o.(source_rows) o.(target_rows);
     removed := only_here o.(columns) o.(key_columns) o.(target_rows) o.(source_rows);
     modified := differing o.(columns) o.(key_columns) o.(source_rows) o.(target_rows) |}.

Lemma compare_well_keyed o : well_keyed o -> compare_data_rows o = Some (Ok (nested_loop_diff o)).
Proof.
  intros (Hk & Hs & Ht). unfold compare_data_rows. destruct o.(key_columns) as [|k ks] eqn:Eks; [done|]. rewrite <- Eks in *.
  destruct (proj1 (collect_spec o.(columns) o.(key_columns) "source" o.(source_rows)) Hs) as (source & -> & Hsource).
  destruct (proj1 (collect_spec o.(columns) o.(key_columns) "target" o.(target_rows)) Ht) as (target & -> & Htarget).
  rewrite (source_loop_spec _ _ o.(source_rows) o.(target_rows)) by (try done; by apply Forall_forall).
  rewrite (target_loop_spec _ _ o.(source_rows) o.(target_rows)) by (try done; by apply Forall_forall). done.
Qed.

Lemma compare_refused o : ~ well_keyed o -> exists e, compare_data_rows o = Some (Err e).
Proof.
  intros Hw. unfold compare_data_rows.
  destruct o.(key_columns) as [|k ks] eqn:Eks; [by eauto|]. rewrite <- Eks in *.
  destruct (collect_spec o.(columns) o.(key_columns) "source" o.(source_rows)) as [Hs1 Hs2].
  destruct (collect_spec o.(columns) o.(key_columns) "target" o.(target_rows)) as [Ht1 Ht2].
  destruct (decide (NoDup (map (key_of o.(columns) o.(key_columns)) o.(source_rows)))) as [Hs|Hs];
    [destruct (Hs1 Hs) as (source & -> & _)|destruct (Hs2 Hs) as [e ->]; by eauto].
  destruct (decide (NoDup (map (key_of o.(columns) o.(key_columns)) o.(target_rows)))) as [Ht|Ht];
    [|destruct (Ht2 Ht) as [e ->]; by eauto].
  destruct Hw. unfold well_keyed. rewrite Eks at 1. done.
Qed.

(** Comparing by hash maps of the key texts gives what the definition by
    nested loops over the rows gives: the rows whose key only the source has,
    those whose key only the target has, and for each key both have the cells
    of the other columns that differ, all in row order.  The comparison always
    returns; it is refused exactly when there is no key column or a side has
    two rows with one key. *)
Theorem compare_is_nested_loop o :
  (well_keyed o -> compare_data_rows o = Some (Ok (nested_loop_diff o))) /\
  (~ well_keyed o -> exists e, compare_data_rows o = Some (Err e)).
Proof. split; [apply compare_well_keyed|apply compare_refused]. Qed.

(** ** Applying the difference to the target *)

(** The cells the comparison found changed take the source's values. *)
Definition patch_cells (cells : list DataCompareChangedCell) (row : gmap string json) : gmap string json :=
  foldl (fun m cell => <[cell.(column) := cell.(source)]> m) row cells.

(** The target after its removed rows are deleted, the added rows inserted and
    the changed cells updated, seen as a function from keys to rows. *)
Definition patched (r : DataCompareResult) (target : text -> option (gmap string json)) (key : text) : option (gmap string json) :=
  if existsb (fun d => bool_decide (d.(row_key) = key)) r.(removed) then None
  else match List.find (fun d => bool_decide (d.(row_key) = key)) r.(added) with
  | Some d => Some d.(values)
  | None =>
    match List.find (fun d => bool_decide (d.(mod_key) = key)) r.(modified) with
    | Some d => patch_cells d.(changes) <$> target key
    | None => target key
    end
  end.

(** A side of the comparison as a function from keys to rows. *)
Definition side (cols keys : list string) (rows : list (list json)) (key : text) : option (gmap string json) :=
  row_object cols <$> row_with_key cols keys rows key.

(** Values that [==] does not tell apart. *)
Definition same_value (t s : json) : Prop := t = s \/ json_eqb s t = true.

Definition same_row (t s : gmap string json) : Prop := forall c, option_Forall2 same_value (t !! c) (s !! c).

Lemma foldl_index_fmap {A} (g : nat -> A) l (m0 : gmap string nat) :
  foldl (fun m (ic : nat * string) => <[ic.2 := g ic.1]> m) (g <$> m0) l =
  g <$> foldl (fun m ic => <[ic.2 := ic.1]> m) m0 l.
Proof. revert m0. induction l as [|ic l IH]; intros m0; simpl; [done|]. by rewrite <- IH, fmap_insert. Qed.

Lemma row_object_lookup cols row c : row_object cols row !! c = row_value row <$> column_index_map cols !! c.
Proof.
  unfold row_object, column_index_map. rewrite <- lookup_fmap, <- foldl_index_fmap. by rewrite fmap_empty.
Qed.

Lemma column_index_in cols c i : column_index_map cols !! c = Some i -> c ∈ cols.
Proof.
  unfold column_index_map.
  assert (Hgen : forall l (m0 : gmap string nat), foldl (fun m (ic : nat * string) => <[ic.2 := ic.1]> m) m0 l !! c = Some i ->
    c ∈ map snd l \/ m0 !! c = Some i).
  { induction l as [|ic l IH]; intros m0; simpl; [by right|]. intros [Hl|Hl]%IH; [left; by right|].
    destruct (decide (ic.2 = c)) as [<-|Hne]; [left; by left|right]. by rewrite lookup_insert_ne in Hl. }
  intros [Hm|Hm]%Hgen; [|done]. apply list_elem_of_fmap in Hm as ([j c'] & -> & Hm).
  apply list_elem_of_lookup in Hm as [k Hk]. rewrite list_lookup_imap in Hk.
  destruct (cols !! k) as [c''|] eqn:E; simplify_eq/=. by eapply list_elem_of_lookup_2.
Qed.

Lemma patch_cells_lookup (f : string -> json) cells row c :
  Forall (fun cell => cell.(source) = f cell.(column)) cells ->
  patch_cells cells row !! c = if bool_decide (c ∈ map column cells) then Some (f c) else row !! c.
Proof.
  unfold patch_cells. intros Hf. revert row. induction Hf as [|cell cells Hc _ IH]; intros row; [done|]. cbn [foldl map].
  rewrite IH. destruct (decide (c ∈ map column cells)) as [Hin|Hni].
  - rewrite !bool_decide_true; [done|by right|done].
  - rewrite (bool_decide_false (c ∈ map column cells)) by done. destruct (decide (cell.(column) = c)) as [<-|Hne].
    + rewrite lookup_insert_eq, bool_decide_true by (by left). by rewrite Hc.
    + rewrite lookup_insert_ne by done. rewrite bool_decide_false; [done|].
      rewrite elem_of_cons. naive_solver.
Qed.

Lemma find_only_here cols keys here there key :
  List.find (fun d => bool_decide (d.(row_key) = key)) (only_here cols keys here there) =
  match row_with_key cols keys there key with
  | Some _ => None
  | None => compare_row cols keys (column_index_map cols) key <$> row_with_key cols keys here key
  end.
Proof.
  induction here as [|row here IH]; [simpl; by destruct (row_with_key cols keys there key)|].
  unfold only_here in *. cbn [omap list_omap]. rewrite row_with_key_cons.
  destruct (decide (key_of cols keys row = key)) as [E|E].
  - rewrite (bool_decide_true (key_of cols keys row = key)), E by done. destruct (row_with_key cols keys there key); [done|].
    cbn [List.find compare_row row_key fmap option_map option_fmap]. by rewrite bool_decide_true.
  - rewrite (bool_decide_false (key_of cols keys row = key)) by done.
    destruct (row_with_key cols keys there (key_of cols keys row)); [done|]. cbn [List.find compare_row row_key].
    by rewrite bool_decide_false.
Qed.

Lemma existsb_find {A} (p : A -> bool) l : existsb p l = match List.find p l with Some _ => true | None => false end.
Proof. induction l as [|x l IH]; simpl; [done|]. by destruct (p x). Qed.

(** The entry the comparison makes for a key both sides have. *)
Definition modified_entry (cols keys : list string) (key : text) (srow trow : list json) : option DataCompareModifiedRow :=
  match changed_cells cols keys (column_index_map cols) srow trow with
  | [] => None
  | cells => Some (modified_row cols keys (column_index_map cols) key srow trow cells)
  end.

Lemma find_differing_absent cols keys srows trows key :
  key ∉ map (key_of cols keys) srows ->
  List.find (fun d => bool_decide (d.(mod_key) = key)) (differing cols keys srows trows) = None.
Proof.
  unfold differing. induction srows as [|row srows IH]; [done|]. cbn [map omap list_omap]. rewrite not_elem_of_cons. intros [Hr Hn].
  destruct (row_with_key cols keys trows (key_of cols keys row)); cbn [mbind option_bind]; [|by apply IH].
  destruct (changed_cells _ _ _ _ _); [by apply IH|]. cbn [List.find modified_row mod_key].
  rewrite bool_decide_false by done. by apply IH.
Qed.

Lemma find_differing cols keys srows trows key :
  NoDup (map (key_of cols keys) srows) ->
  List.find (fun d => bool_decide (d.(mod_key) = key)) (differing cols keys srows trows) =
  srow ← row_with_key cols keys srows key; trow ← row_with_key cols keys trows key; modified_entry cols keys key srow trow.
Proof.
  induction srows as [|row srows IH]; [done|]. cbn [map]. intros [Hr Hn]%NoDup_cons.
  rewrite row_with_key_cons. unfold differing. cbn [omap list_omap]. fold (differing cols keys srows trows).
  destruct (decide (key_of cols keys row = key)) as [E|E].
  - rewrite bool_decide_true by done. cbn [mbind option_bind]. rewrite E. destruct (row_with_key cols keys trows key) as [trow|] eqn:Et; cbn [mbind option_bind].
    + unfold modified_entry. destruct (changed_cells _ _ _ _ _) eqn:Ec.
      * apply find_differing_absent. by rewrite <- E.
      * cbn [List.find modified_row mod_key]. by rewrite bool_decide_true.
    + apply find_differing_absent. by rewrite <- E.
  - rewrite bool_decide_false by done. rewrite <- IH by done.
    destruct (row_with_key cols keys trows (key_of cols keys row)); cbn [mbind option_bind]; [|done].
    destruct (changed_cells _ _ _ _ _); [done|]. cbn [List.find modified_row mod_key]. by rewrite bool_decide_false.
Qed.

Lemma normalized_value row n i : row_value (normalize_row_len row n) i = row_value row i.
Proof.
  unfold row_value, normalize_row_len. destruct (Nat.ltb_spec (length row) n); [|done].
  destruct (decide (i < length row)) as [Hlt|Hge]; [by rewrite lookup_app_l|].
  rewrite lookup_app_r, (lookup_ge_None_2 row i) by lia. destruct (_ !! _) eqn:E; [|done].
  by apply lookup_replicate in E as [-> _].
Qed.

Lemma row_with_key_inv cols keys rows key r : row_with_key cols keys rows key = Some r ->
  exists row, r = normalize_row_len row (length cols) /\ key_of cols keys row = key.
Proof.
  unfold row_with_key. destruct (List.find _ _) as [row|] eqn:E; [|done]. intros. simplify_eq/=.
  apply find_some in E as [_ E]. apply bool_decide_eq_true in E. eauto.
Qed.

Section Laws.
(** What the comparison relies on of [serde_json::to_string]: it succeeds on
    every value, different values have different texts, and control characters
    are escaped, so no text contains the separator of key columns. *)
Hypothesis to_string_total : forall v, exists s, to_string v = Ok s.
Hypothesis to_string_inj : forall v w s, to_string v = Ok s -> to_string w = Ok s -> v = w.
Hypothesis to_string_escapes : forall v s, to_string v = Ok s -> 31%Z ∉ (s : list Z).

Lemma stringify_inj v w : json_stringify v = json_stringify w -> v = w.
Proof using to_string_total to_string_inj.
  unfold json_stringify. destruct (to_string_total v) as [s Hs], (to_string_total w) as [t Ht].
  rewrite Hs, Ht. intros ->. by eapply to_string_inj.
Qed.

Lemma stringify_escapes v : 31%Z ∉ (json_stringify v : list Z).
Proof using to_string_total to_string_escapes.
  unfold json_stringify. destruct (to_string_total v) as [s Hs]. rewrite Hs. by eapply to_string_escapes.
Qed.

Lemma join_cons sep x l : l <> [] -> join sep (x :: l) = x ++ sep ++ join sep l.
Proof. by destruct l. Qed.

(** Equal keys come from equal values in every key column. *)
Lemma joined_key_inj {A} (f g : A -> json) l :
  join unit_separator (map (fun c => json_stringify (f c)) l) = join unit_separator (map (fun c => json_stringify (g c)) l) ->
  Forall (fun c => f c = g c) l.
Proof using to_string_total to_string_inj to_string_escapes.
  induction l as [|c [|c' l] IH]; [constructor|simpl; intros; constructor; [by apply stringify_inj|constructor]|].
  cbn [map]. rewrite !(join_cons unit_separator (json_stringify _)) by done. unfold unit_separator at 1 3. simpl app.
  intros [Hc Hrest]%separator_split; [|apply stringify_escapes..]. constructor; [by apply stringify_inj|by apply IH].
Qed.

Definition key_cell (cols : list string) (row : list json) (c : string) : json :=
  match column_index_map cols !! c with Some i => row_value row i | None => JNull end.

Lemma key_of_inj cols keys r1 r2 c : key_of cols keys r1 = key_of cols keys r2 -> c ∈ keys -> key_cell cols r1 c = key_cell cols r2 c.
Proof using to_string_total to_string_inj to_string_escapes.
  intros Hk Hc. assert (Hgen : forall r, key_of cols keys r = join unit_separator (map (fun c => json_stringify (key_cell cols r c)) keys)).
  { intros r. unfold key_of, key_for_row. f_equal. apply map_ext. intros x. unfold key_cell. by destruct (_ !! _). }
  rewrite !Hgen in Hk. apply joined_key_inj in Hk. rewrite Forall_forall in Hk. by apply Hk.
Qed.

Lemma changed_cells_source cols keys srow trow :
  Forall (fun cell => cell.(source) = key_cell cols srow cell.(column)) (changed_cells cols keys (column_index_map cols) srow trow).
Proof.
  apply Forall_forall. intros cell Hc. unfold changed_cells in Hc. apply list_elem_of_omap in Hc as (c & _ & Hc).
  unfold key_cell. destruct (column_index_map cols !! c) as [i|] eqn:E; [|done]. simpl in Hc.
  destruct (json_eqb _ _); simplify_eq/=. by rewrite E.
Qed.

(** A column is among the changed cells exactly when it is not a key column
    and its values differ. *)
Lemma changed_cells_columns cols keys srow trow c i :
  column_index_map cols !! c = Some i ->
  c ∈ map column (changed_cells cols keys (column_index_map cols) srow trow) <->
  (c ∉ keys) /\ json_eqb (row_value srow i) (row_value trow i) = false.
Proof.
  intros Hi. rewrite list_elem_of_fmap. unfold changed_cells. split.
  - intros (cell & -> & Hc). apply list_elem_of_omap in Hc as (c' & Hf & Hc). apply elem_of_bool_filter in Hf as [_ Hk].
    bool_solver. destruct (column_index_map cols !! c') as [i'|] eqn:E; [|done]. simpl in Hc.
    destruct (json_eqb _ _) eqn:Ej; simplify_eq/=. by split.
  - intros [Hk Hj]. exists {| column := c; source := row_value srow i; target := row_value trow i |}. split; [done|].
    apply list_elem_of_omap. exists c. rewrite Hi. simpl. rewrite Hj. split; [|done]. apply elem_of_bool_filter.
    split; [by eapply column_index_in|]. by rewrite bool_decide_false.
Qed.

Lemma option_Forall2_refl_fmap {A} (f : A -> json) (o : option A) : option_Forall2 same_value (f <$> o) (f <$> o).
Proof. destruct o; constructor. by left. Qed.

(** The patched row of a key both sides have. *)
Lemma patched_row_same cols keys srow trow :
  (forall c, c ∈ keys -> key_cell cols srow c = key_cell cols trow c) ->
  same_row (patch_cells (changed_cells cols keys (column_index_map cols) srow trow) (row_object cols trow)) (row_object cols srow).
Proof.
  intros Hk c. rewrite (patch_cells_lookup (key_cell cols srow)) by apply changed_cells_source.
  rewrite !row_object_lookup. destruct (column_index_map cols !! c) as [i|] eqn:Hi; simpl.
  - destruct (decide (c ∈ map column (changed_cells cols keys (column_index_map cols) srow trow))) as [Hc|Hc].
    + rewrite bool_decide_true by done. constructor. left. unfold key_cell. by rewrite Hi.
    + rewrite bool_decide_false by done. constructor. rewrite (changed_cells_columns _ _ _ _ _ _ Hi) in Hc.
      destruct (decide (c ∈ keys)) as [Hin|Hni].
      * left. specialize (Hk c Hin). unfold key_cell in Hk. by rewrite Hi in Hk.
      * right. destruct (json_eqb _ _) eqn:E; [done|]. by destruct Hc.
  - rewrite bool_decide_false; [constructor|]. rewrite list_elem_of_fmap. intros (cell & -> & Hc).
    unfold changed_cells in Hc. apply list_elem_of_omap in Hc as (c' & _ & Hc).
    destruct (column_index_map cols !! c') as [i|] eqn:E; [|done]. simpl in Hc. destruct (json_eqb _ _); simplify_eq/=.
Qed.

(** C39. The difference is complete and correct: deleting the removed rows,
    inserting the added ones and writing the changed cells turns the target
    into the source, for every key and every column, up to the order of the
    members of JSON objects. *)
Theorem diff_turns_target_into_source o r key :
  compare_data_rows o = Some (Ok r) ->
  option_Forall2 same_row (patched r (side o.(columns) o.(key_columns) o.(target_rows)) key)
    (side o.(columns) o.(key_columns) o.(source_rows) key).
Proof using to_string_total to_string_inj to_string_escapes.
  intros Hr. destruct (decide (well_keyed o)) as [Hw|Hw]; [|destruct (compare_refused o Hw); congruence].
  rewrite (compare_well_keyed o Hw) in Hr. simplify_eq. destruct Hw as (_ & Hs & Ht).
  unfold patched, nested_loop_diff, side. cbn [added removed modified].
  rewrite existsb_find, !find_only_here, find_differing by done.
  destruct (row_with_key _ _ o.(source_rows) key) as [srow|] eqn:Es,
    (row_with_key _ _ o.(target_rows) key) as [trow|] eqn:Et; cbn; try by constructor.
  - apply row_with_key_inv in Es as (s & -> & Hks), Et as (t & -> & Hkt).
    assert (Hcells : forall c, c ∈ o.(key_columns) ->
      key_cell o.(columns) (normalize_row_len s (length o.(columns))) c = key_cell o.(columns) (normalize_row_len t (length o.(columns))) c).
    { intros c Hc. assert (Hst : key_of o.(columns) o.(key_columns) s = key_of o.(columns) o.(key_columns) t) by congruence.
      pose proof (key_of_inj _ _ _ _ _ Hst Hc) as Heq. unfold key_cell in *. destruct (_ !! c); [|done]. by rewrite !normalized_value. }
    pose proof (patched_row_same _ _ _ _ Hcells) as Hsame. unfold modified_entry.
    destruct (changed_cells _ _ _ _ _) as [|cell cells] eqn:Ec; cbn; constructor; exact Hsame.
  - constructor. intros c. rewrite row_object_lookup. apply option_Forall2_refl_fmap.
Qed.
End Laws.
End Compare.

Module CompareDemo.
(** Texts of the digits 0 and 1 stand for JSON texts. *)
Definition demo_text (v : json) : result text string := Ok (CountableCodec.pos_bytes (encode v)).

Lemma demo_text_total v : exists s, demo_text v = Ok s.
Proof. by eexists. Qed.

Lemma demo_text_inj v w s : demo_text v = Ok s -> demo_text w = Ok s -> v = w.
Proof.
  unfold demo_text. intros [= <-] [= E]. apply (f_equal CountableCodec.bytes_pos) in E.
  rewrite !CountableCodec.bytes_pos_bytes in E. by apply encode_inj in E.
Qed.

Lemma demo_text_escapes v s : demo_text v = Ok s -> 31%Z ∉ (s : list Z).
Proof.
  intros [= <-]. induction (encode v) as [p IH|p IH|]; simpl; [..|apply not_elem_of_nil]; apply not_elem_of_cons; by split.
Qed.

Definition demo_options : CompareDataRowsOptions :=
  {| columns := ["id"; "name"]; key_columns := ["id"];
     source_rows := [[JNumber "1"; JString "a"]; [JNumber "2"; JString "b"]];
     target_rows := [[JNumber "2"; JString "x"]; [JNumber "3"]] |}.

Lemma diff_turns_target_into_source_witness :
  option_Forall2 same_row
    (patched (nested_loop_diff demo_text demo_options)
       (side demo_text ["id"; "name"] ["id"] [[JNumber "2"; JString "x"]; [JNumber "3"]])
       (key_of demo_text ["id"; "name"] ["id"] [JNumber "2"]))
    (side demo_text ["id"; "name"] ["id"] [[JNumber "1"; JString "a"]; [JNumber "2"; JString "b"]]
       (key_of demo_text ["id"; "name"] ["id"] [JNumber "2"])).
Proof.
  apply (diff_turns_target_into_source demo_text demo_text_total demo_text_inj demo_text_escapes demo_options).
  vm_compute. reflexivity.
Defined.

Example demo_diff :
  match compare_data_rows demo_text demo_options with
  | Some (Ok r) => (length r.(added), length r.(removed), length r.(modified)) = (1, 1, 1)
  | _ => False
  end.
Proof. vm_compute. reflexivity. Qed.
End CompareDemo.
