(* ===== verification/AgentPolicy.v ===== *)
(** * What an agent may do: MCP policy and tool approvals

    [McpPolicy] models [crates/dbx-core/src/ai/mcp_policy.rs] over the policy
    records of [crates/dbx-core/src/persistence/storage.rs]: which connections a policy exposes, the execution
    mode in force for a database, the group paths of the sidebar tree, and the
    database scope of SQL and MongoDB pipelines.  Parsing of JSON into the
    layout and of pipeline texts is serde's, and an argument; so is the SQL
    scanner of [production_safety.rs].

    [ToolApproval] models [crates/dbx-core/src/ai/tool_approval.rs] as a
    transition system: the process-wide registry, one channel per approval, and
    the operations of agent loops and clients in any order. *)

From S2P Require Import Prelude Json.

Module McpPolicy.

Record McpGroupPolicy := { grp_group_id : string; grp_read_only : bool; grp_allow_dangerous_sql : bool }.

Record McpDatabasePolicy := { db_database_name : string; db_read_only : bool; db_allow_dangerous_sql : bool }.

Inductive McpDatabaseScope := ScopeAll | ScopeSelected | ScopeNone.

Record McpConnectionPolicy := {
  conn_connection_id : string;
  conn_read_only : bool;
  conn_allow_dangerous_sql : bool;
  execution_mode_configured : bool;
  execution_mode_policy_version : option Z;
  database_scope : McpDatabaseScope;
  allowed_databases : list string;
  database_policies : list McpDatabasePolicy;
  allow_salesforce_dml : bool;
}.

Inductive McpConfirmPolicy := ConfirmOff | ConfirmFull | ConfirmHighRisk.

Inductive McpPluginToolsMode := PluginAuto | PluginFlat | PluginLazy.

Record McpGlobalPolicy := {
  read_only : bool;
  allow_dangerous_sql : bool;
  prompt_high_risk_sql : bool;
  call_confirmation : option McpConfirmPolicy;
  allowed_connection_ids : option (list string);
  allowed_group_ids : list string;
  allowed_tool_names : option (list string);
  connection_policies : list McpConnectionPolicy;
  group_policies : list McpGroupPolicy;
  query_timeout_secs : option Z;
  plugin_tools_mode : McpPluginToolsMode;
}.

Definition MCP_EXECUTION_POLICY_VERSION : Z := 1.

Record McpConnectionGroupPath := { ids : list string; names : list string }.

(** ** Sidebar groups *)

Inductive SidebarOrderEntry : Type :=
| Group (id : string) (children : option (list SidebarOrderEntry)) (connection_ids : option (list string))
| Connection (id : string).

Record SidebarGroup := { group_id : string; group_name : string }.

Record SidebarLayout := { groups : list SidebarGroup; order : list SidebarOrderEntry }.

Definition Paths : Type := gmap string McpConnectionGroupPath.

Definition push (path : McpConnectionGroupPath) (id name : string) : McpConnectionGroupPath :=
  {| ids := path.(ids) ++ [id]; names := path.(names) ++ [name] |}.

Definition pop {A} (l : list A) : list A := take (length l - 1) l.

Definition pop_path (path : McpConnectionGroupPath) : McpConnectionGroupPath :=
  {| ids := pop path.(ids); names := pop path.(names) |}.

(** The path and the map are mutable references of the code: both are threaded
    through the entries, and the path is pushed before and popped after a group. *)
Fixpoint collect_entry (groups : gmap string string) (entry : SidebarOrderEntry)
    (path : McpConnectionGroupPath) (paths : Paths) : result (McpConnectionGroupPath * Paths) string :=
  match entry with
  | Connection id => Ok (path, <[id := path]> paths)
  | Group id children connection_ids =>
    match groups !! id with
    | None => Err ("INVALID_SIDEBAR_LAYOUT: group '" +:+ id +:+ "' has no metadata")
    | Some name =>
      let path := push path id name in
      let? (path, paths) :=
        match children with
        | Some children =>
          (fix go (entries : list SidebarOrderEntry) (path : McpConnectionGroupPath) (paths : Paths) :=
             match entries with
             | [] => Ok (path, paths)
             | e :: rest => let? (path, paths) := collect_entry groups e path paths in go rest path paths
             end) children path paths
        | None =>
          match connection_ids with
          | Some connection_ids => Ok (path, foldl (fun paths id => <[id := path]> paths) paths connection_ids)
          | None => Ok (path, paths)
          end
        end in
      Ok (pop_path path, paths)
    end
  end.

Definition collect_connection_group_paths (entries : list SidebarOrderEntry) (groups : gmap string string)
    (path : McpConnectionGroupPath) (paths : Paths) : result (McpConnectionGroupPath * Paths) string :=
  (fix go (entries : list SidebarOrderEntry) (path : McpConnectionGroupPath) (paths : Paths) :=
     match entries with
     | [] => Ok (path, paths)
     | e :: rest => let? (path, paths) := collect_entry groups e path paths in go rest path paths
     end) entries path paths.

(** The metadata map: a later group with the same id wins. *)
Definition group_names (groups : list SidebarGroup) : gmap string string :=
  foldl (fun m g => <[g.(group_id) := g.(group_name)]> m) ∅ groups.

Section Layout.
(** [serde_json::from_value::<SidebarLayout>]. *)
Variable from_value : json -> result SidebarLayout string.

Definition connection_group_paths (layout : json) : result Paths string :=
  match from_value layout with
  | Err error => Err ("INVALID_SIDEBAR_LAYOUT: " +:+ error)
  | Ok layout =>
    let? (_, paths) := collect_connection_group_paths layout.(order) (group_names layout.(groups)) {| ids := []; names := [] |} ∅ in
    Ok paths
  end.
End Layout.

(** ** Execution policy *)

Definition policy_uses_connection_groups (policy : McpGlobalPolicy) : bool :=
  negb (bool_decide (policy.(allowed_group_ids) = [])) || negb (length policy.(group_policies) =? 0)%nat.

Definition policy_allows_connection (policy : McpGlobalPolicy) (group_path : option McpConnectionGroupPath)
    (connection_id : string) : bool :=
  match policy.(allowed_connection_ids) with
  | None => true
  | Some allowed =>
    existsb (fun id => String.eqb id connection_id) allowed ||
    match group_path with
    | None => false
    | Some path => existsb (fun id => existsb (fun allowed => String.eqb allowed id) policy.(allowed_group_ids)) path.(ids)
    end
  end.

Definition resolve_database (requested : text) (configured : option text) : text :=
  let requested := trim requested in
  match requested with
  | [] => trim (default [] configured)
  | _ => requested
  end.

Definition apply_ceiling (current ceiling : bool * bool) : bool * bool :=
  let read_only := current.1 || ceiling.1 in
  (read_only, negb read_only && current.2 && ceiling.2).

Definition find_connection_policy (policy : McpGlobalPolicy) (connection_id : string) : option McpConnectionPolicy :=
  List.find (fun rule => String.eqb rule.(conn_connection_id) connection_id) policy.(connection_policies).

Definition find_database_policy (rule : McpConnectionPolicy) (database : string) : option McpDatabasePolicy :=
  List.find (fun rule => String.eqb rule.(db_database_name) database) rule.(database_policies).

Definition find_group_policy (policy : McpGlobalPolicy) (group_id : string) : option McpGroupPolicy :=
  List.find (fun rule => String.eqb rule.(grp_group_id) group_id) policy.(group_policies).

Definition effective_database_execution_policy_with_groups (policy : McpGlobalPolicy) (group_ids : list string)
    (connection_id database : string) : bool * bool :=
  let effective := (policy.(read_only), policy.(allow_dangerous_sql)) in
  let effective := foldl (fun effective group_id =>
    match find_group_policy policy group_id with
    | Some rule => (rule.(grp_read_only), negb rule.(grp_read_only) && rule.(grp_allow_dangerous_sql))
    | None => effective
    end) effective group_ids in
  match find_connection_policy policy connection_id with
  | None => effective
  | Some rule =>
    if bool_decide (rule.(execution_mode_policy_version) = Some MCP_EXECUTION_POLICY_VERSION) then
      let effective :=
        if rule.(execution_mode_configured)
        then (rule.(conn_read_only), negb rule.(conn_read_only) && rule.(conn_allow_dangerous_sql)) else effective in
      match find_database_policy rule database with
      | Some database_policy =>
          (database_policy.(db_read_only), negb database_policy.(db_read_only) && database_policy.(db_allow_dangerous_sql))
      | None => effective
      end
    else
      let effective :=
        if rule.(execution_mode_configured)
        then apply_ceiling effective (rule.(conn_read_only), rule.(conn_allow_dangerous_sql)) else effective in
      match find_database_policy rule database with
      | Some database_policy =>
          apply_ceiling effective (database_policy.(db_read_only), database_policy.(db_allow_dangerous_sql))
      | None => effective
      end
  end.

Definition effective_database_execution_policy (policy : McpGlobalPolicy) (connection_id database : string) : bool * bool :=
  effective_database_execution_policy_with_groups policy [] connection_id database.

Definition connection_allows_salesforce_dml (policy : McpGlobalPolicy) (connection_id : string) : bool :=
  match find_connection_policy policy connection_id with
  | Some rule => rule.(allow_salesforce_dml) && negb rule.(conn_read_only)
  | None => false
  end.

(** ** Database scope *)

Section Scope.
Context {ConnectionConfig : Type}.
Variable connection_id_of : ConnectionConfig -> string.
(** [sql_references_disallowed_database_for_connection] of production_safety.rs. *)
Variable sql_references_disallowed_database : text -> ConnectionConfig -> string -> list string -> bool.
(** [serde_json::from_str]. *)
Variable from_str : text -> option json.

Definition sql_scope_error : string :=
  "DATABASE_EXECUTION_POLICY_OUT_OF_SCOPE: SQL cannot reference another database while database-specific MCP execution permissions are configured.".

Definition ensure_sql_database_execution_scope (policy : McpGlobalPolicy) (connection : ConnectionConfig)
    (active_database : string) (sql : text) : result unit string :=
  match find_connection_policy policy (connection_id_of connection) with
  | None => Ok tt
  | Some rule =>
    if (length rule.(database_policies) =? 0)%nat ||
       negb (sql_references_disallowed_database sql connection active_database [active_database])
    then Ok tt
    else Err sql_scope_error
  end.

Definition as_str (v : json) : option string := match v with JString s => Some s | _ => None end.
Definition as_object (v : json) : option (list (string * json)) := match v with JObject m => Some m | _ => None end.

(** [target.get(db)], or else the one of [into]. *)
Definition target_db (target : list (string * json)) : option json :=
  match obj_get "db" target with
  | Some v => Some v
  | None => into ← obj_get "into" target; m ← as_object into; obj_get "db" m
  end.

(** The database a target of [$out] or [$merge] names. *)
Definition output_database (active_database : string) (target : json) : result string string :=
  match target with
  | JString _ => Ok active_database
  | JObject target =>
    Ok (default active_database (target_db target ≫= as_str))
  | _ => Err "QUERY_ERROR: MongoDB aggregate output target must be a string or object."
  end.

Definition output_keys : list string := ["$out"; "$merge"].

Fixpoint key_loop (active_database : string) (stage : list (string * json)) (keys : list string) (databases : list string) :
    result (list string) string :=
  match keys with
  | [] => Ok databases
  | key :: rest =>
    match obj_get key stage with
    | None => key_loop active_database stage rest databases
    | Some target =>
      let? database := output_database active_database target in
      key_loop active_database stage rest (databases ++ [database])
    end
  end.

Fixpoint stage_loop (active_database : string) (stages : list json) (databases : list string) : result (list string) string :=
  match stages with
  | [] => Ok databases
  | stage :: rest =>
    match as_object stage with
    | None => stage_loop active_database rest databases
    | Some stage =>
      let? databases := key_loop active_database stage output_keys databases in
      stage_loop active_database rest databases
    end
  end.

Definition mongo_pipeline_output_databases (pipeline_json : text) (active_database : string) : result (list string) string :=
  match from_str pipeline_json with
  | Some (JArray stages) => stage_loop active_database stages []
  | _ => Err "QUERY_ERROR: MongoDB aggregate pipeline must be a JSON array."
  end.

Definition mongo_scope_error : string :=
  "DATABASE_EXECUTION_POLICY_OUT_OF_SCOPE: MongoDB aggregation cannot target another database while database-specific MCP execution permissions are configured.".

Definition ensure_mongo_database_execution_scope (policy : McpGlobalPolicy) (connection_id active_database : string)
    (pipeline_json : text) : result unit string :=
  let has_database_policies :=
    match find_connection_policy policy connection_id with
    | Some rule => negb (length rule.(database_policies) =? 0)%nat
    | None => false
    end in
  if negb has_database_policies then Ok tt
  else
    let? databases := mongo_pipeline_output_databases pipeline_json active_database in
    if existsb (fun database => negb (String.eqb database active_database)) databases then Err mongo_scope_error
    else Ok tt.
End Scope.

(** ** Group paths *)

Section EntryInduction.
Variable P : SidebarOrderEntry -> Prop.
Hypothesis Hconn : forall id, P (Connection id).
Hypothesis Hleaf : forall id cids, P (Group id None cids).
Hypothesis Hnode : forall id children cids, Forall P children -> P (Group id (Some children) cids).

Fixpoint entry_nested_ind (e : SidebarOrderEntry) : P e :=
  match e with
  | Connection id => Hconn id
  | Group id None cids => Hleaf id cids
  | Group id (Some children) cids => Hnode id children cids
      ((fix go (l : list SidebarOrderEntry) : Forall P l :=
          match l with
          | [] => Forall_nil_2 P
          | x :: l' => Forall_cons_2 P x l' (entry_nested_ind x) (go l')
          end) children)
  end.
End EntryInduction.

(** The connections of the tree in order, each with the groups above it;
    [None] when a group of the tree has no metadata. *)
Fixpoint placements (groups : gmap string string) (path : McpConnectionGroupPath) (e : SidebarOrderEntry) :
    option (list (string * McpConnectionGroupPath)) :=
  match e with
  | Connection id => Some [(id, path)]
  | Group id children connection_ids =>
    name ← groups !! id;
    let path := push path id name in
    match children with
    | Some children =>
      (fix go (l : list SidebarOrderEntry) :=
         match l with
         | [] => Some []
         | e :: rest => ps ← placements groups path e; qs ← go rest; Some (ps ++ qs)
         end) children
    | None => Some (map (fun id => (id, path)) (default [] connection_ids))
    end
  end.

Definition tree_placements (groups : gmap string string) (path : McpConnectionGroupPath) (l : list SidebarOrderEntry) :
    option (list (string * McpConnectionGroupPath)) :=
  (fix go (l : list SidebarOrderEntry) :=
     match l with
     | [] => Some []
     | e :: rest => ps ← placements groups path e; qs ← go rest; Some (ps ++ qs)
     end) l.

Lemma collect_cons e l groups path paths : collect_connection_group_paths (e :: l) groups path paths =
  let? (path, paths) := collect_entry groups e path paths in collect_connection_group_paths l groups path paths.
Proof. done. Qed.

Lemma tree_placements_cons groups path e l : tree_placements groups path (e :: l) =
  ps ← placements groups path e; qs ← tree_placements groups path l; Some (ps ++ qs).
Proof. done. Qed.

Definition insert_all (paths : Paths) (ps : list (string * McpConnectionGroupPath)) : Paths :=
  foldl (fun m p => <[p.1 := p.2]> m) paths ps.

Lemma pop_push path id name : pop_path (push path id name) = path.
Proof.
  destruct path as [i0 n0]. unfold pop_path, push, pop. simpl. rewrite !length_app. simpl.
  f_equal; rewrite take_app_le, take_ge by lia; done.
Qed.

Lemma insert_all_app paths ps qs : insert_all paths (ps ++ qs) = insert_all (insert_all paths ps) qs.
Proof. apply foldl_app. Qed.

(** What a traversal of entries with path [path] gives. *)
Definition traverses {E} (r : result (McpConnectionGroupPath * Paths) E) (o : option (list (string * McpConnectionGroupPath)))
    (path : McpConnectionGroupPath) (paths : Paths) : Prop :=
  match o with Some ps => r = Ok (path, insert_all paths ps) | None => is_ok r = false end.

Lemma collect_entries_spec groups l :
  Forall (fun e => forall path paths, traverses (collect_entry groups e path paths) (placements groups path e) path paths) l ->
  forall path paths,
  traverses (collect_connection_group_paths l groups path paths) (tree_placements groups path l) path paths.
Proof.
  induction 1 as [|e l He _ IH]; intros path paths; [done|]. rewrite collect_cons, tree_placements_cons.
  specialize (He path paths). destruct (placements groups path e) as [ps|]; simpl in *.
  - rewrite He. simpl. specialize (IH path (insert_all paths ps)). destruct (tree_placements groups path l) as [qs|]; simpl in *; [|done].
    by rewrite IH, insert_all_app.
  - by destruct (collect_entry groups e path paths).
Qed.

Lemma foldl_insert_map path (l : list string) (m : Paths) :
  foldl (fun paths id => <[id := path]> paths) m l = insert_all m (map (fun id => (id, path)) l).
Proof. revert m. induction l as [|x l IH]; intros m; simpl; [done|]. by rewrite IH. Qed.

Lemma collect_entry_spec groups e path paths :
  traverses (collect_entry groups e path paths) (placements groups path e) path paths.
Proof.
  revert path paths. induction e as [id|id cids|id children cids IH] using entry_nested_ind; intros path paths; [done|..].
  - cbn [collect_entry placements]. destruct (groups !! id) as [name|]; [|done].
    destruct cids as [cids|]; cbn [result_bind mbind option_bind traverses]; rewrite pop_push; [|done].
    by rewrite foldl_insert_map.
  - pose proof (collect_entries_spec groups children IH) as Hl. cbn [collect_entry placements].
    destruct (groups !! id) as [name|]; [|done]. cbn [mbind option_bind].
    specialize (Hl (push path id name) paths).
    change (traverses
      (let? (path, paths) := collect_connection_group_paths children groups (push path id name) paths in Ok (pop_path path, paths))
      (tree_placements groups (push path id name) children) path paths).
    destruct (tree_placements groups (push path id name) children); simpl in *.
    + rewrite Hl. simpl. by rewrite pop_push.
    + by destruct (collect_connection_group_paths _ _ _ _).
Qed.

(** The group paths of the sidebar.  The traversal, which pushes and pops one
    shared path, gives every connection the groups above it in the tree (the
    last place of a connection that appears twice); it fails exactly when a
    group it visits has no metadata. *)
Theorem group_paths_follow_the_tree from_value layout l :
  from_value layout = Ok l ->
  match tree_placements (group_names l.(groups)) {| ids := []; names := [] |} l.(order) with
  | Some ps => connection_group_paths from_value layout = Ok (insert_all ∅ ps)
  | None => is_ok (connection_group_paths from_value layout) = false
  end.
Proof.
  intros Hl. unfold connection_group_paths. rewrite Hl.
  assert (Hall : Forall (fun e => forall path paths, traverses (collect_entry (group_names l.(groups)) e path paths)
    (placements (group_names l.(groups)) path e) path paths) l.(order)) by (apply Forall_forall; intros; apply collect_entry_spec).
  pose proof (collect_entries_spec _ _ Hall {| ids := []; names := [] |} ∅) as Ht.
  destruct (tree_placements _ _ _); simpl in Ht; [by rewrite Ht|].
  by destruct (collect_connection_group_paths _ _ _ _).
Qed.

(** ** The execution mode in force *)

(** A mode that permits at most what another permits. *)
Definition narrower (a b : bool * bool) : Prop := (b.1 = true -> a.1 = true) /\ (a.2 = true -> b.2 = true).

#[global] Instance narrower_preorder : PreOrder narrower.
Proof. split; [by intros ?|]. intros a b c [? ?] [? ?]. split; auto. Qed.

(** The mode a rule sets, and the mode the closest group or else the global
    policy sets. *)
Definition mode (read_only allow_dangerous_sql : bool) : bool * bool := (read_only, negb read_only && allow_dangerous_sql).

Definition inherited (policy : McpGlobalPolicy) (group_ids : list string) : bool * bool :=
  match last (omap (find_group_policy policy) group_ids) with
  | Some g => mode g.(grp_read_only) g.(grp_allow_dangerous_sql)
  | None => (policy.(read_only), policy.(allow_dangerous_sql))
  end.

Lemma group_fold policy group_ids :
  foldl (fun effective group_id =>
    match find_group_policy policy group_id with
    | Some rule => (rule.(grp_read_only), negb rule.(grp_read_only) && rule.(grp_allow_dangerous_sql))
    | None => effective
    end) (policy.(read_only), policy.(allow_dangerous_sql)) group_ids = inherited policy group_ids.
Proof.
  unfold inherited. induction group_ids as [|g l IH] using rev_ind; [done|].
  rewrite foldl_app, IH. simpl. rewrite omap_app, last_app. simpl.
  by destruct (find_group_policy policy g).
Qed.

Lemma ceiling_narrower a b : narrower (apply_ceiling a b) a /\ narrower (apply_ceiling a b) b.
Proof. destruct a as [[] []], b as [[] []]; by repeat split. Qed.

Lemma exclusive_mode r d : (mode r d).1 && (mode r d).2 = false.
Proof. by destruct r, d. Qed.

(** A mode that is read-only and dangerous at once can only be the global one. *)
Lemma contradictory_mode policy group_ids connection_id database :
  let eff := effective_database_execution_policy_with_groups policy group_ids connection_id database in
  eff.1 && eff.2 = true -> policy.(read_only) && policy.(allow_dangerous_sql) = true.
Proof.
  unfold effective_database_execution_policy_with_groups. rewrite group_fold.
  assert (Hi : (inherited policy group_ids).1 && (inherited policy group_ids).2 = true -> policy.(read_only) && policy.(allow_dangerous_sql) = true).
  { unfold inherited. destruct (last _); [by rewrite exclusive_mode|done]. }
  assert (Hc : forall a b, (apply_ceiling a b).1 && (apply_ceiling a b).2 = false) by (by intros [[] []] [[] []]).
  assert (Hm : forall r d, (r && (negb r && d)) = false) by (by intros [] []).
  repeat case_match; rewrite ?Hc; try done; simpl; rewrite ?Hm; try done; exact Hi.
Qed.

(** The execution mode in force for a database.  Under a versioned rule of the
    connection the closest setting decides: the database's, else the
    connection's when configured, else the closest group's, else the global
    one.  A legacy rule only narrows: the mode permits at most what is
    inherited and what each of its settings permits, and is the inherited one
    when it has none.  Without a rule the mode is the inherited one.  Read-only
    and dangerous at once is never set by a rule. *)
Theorem execution_mode_precedence policy group_ids connection_id database :
  let eff := effective_database_execution_policy_with_groups policy group_ids connection_id database in
  let base := inherited policy group_ids in
  match find_connection_policy policy connection_id with
  | None => eff = base
  | Some rule =>
    if bool_decide (rule.(execution_mode_policy_version) = Some MCP_EXECUTION_POLICY_VERSION) then
      eff = match find_database_policy rule database with
            | Some d => mode d.(db_read_only) d.(db_allow_dangerous_sql)
            | None => if rule.(execution_mode_configured) then mode rule.(conn_read_only) rule.(conn_allow_dangerous_sql) else base
            end
    else
      narrower eff base /\
      (rule.(execution_mode_configured) = true -> narrower eff (rule.(conn_read_only), rule.(conn_allow_dangerous_sql))) /\
      (forall d, find_database_policy rule database = Some d -> narrower eff (d.(db_read_only), d.(db_allow_dangerous_sql))) /\
      (rule.(execution_mode_configured) = false -> find_database_policy rule database = None -> eff = base)
  end /\
  (eff.1 && eff.2 = true -> policy.(read_only) && policy.(allow_dangerous_sql) = true).
Proof.
  cbv zeta. split; [|apply contradictory_mode]. unfold effective_database_execution_policy_with_groups. rewrite group_fold.
  destruct (find_connection_policy policy connection_id) as [rule|]; [|done]. case_bool_decide; [by destruct (find_database_policy rule database)|].
  set (base := inherited policy group_ids). set (cc := (rule.(conn_read_only), rule.(conn_allow_dangerous_sql))).
  destruct (ceiling_narrower base cc) as [H1 H2].
  destruct rule.(execution_mode_configured), (find_database_policy rule database) as [d|].
  - destruct (ceiling_narrower (apply_ceiling base cc) (d.(db_read_only), d.(db_allow_dangerous_sql))) as [H3 H4].
    split_and!; [by transitivity (apply_ceiling base cc)|intros _; by transitivity (apply_ceiling base cc)|intros d' [= <-]; done|done].
  - split_and!; done.
  - destruct (ceiling_narrower base (d.(db_read_only), d.(db_allow_dangerous_sql))) as [H3 H4].
    split_and!; [done|done|intros d' [= <-]; done|done].
  - split_and!; done.
Qed.

(** ** The targets of a pipeline *)

(** The output targets of a pipeline, in the order of its stages. *)
Definition output_targets (stages : list json) : list json :=
  stages ≫= fun stage => match as_object stage with
                         | Some m => omap (fun key => obj_get key m) output_keys
                         | None => []
                         end.

Fixpoint output_databases (active_database : string) (targets : list json) : result (list string) string :=
  match targets with
  | [] => Ok []
  | t :: rest =>
    let? d := output_database active_database t in
    let? ds := output_databases active_database rest in
    Ok (d :: ds)
  end.

Lemma output_databases_app a l1 l2 : output_databases a (l1 ++ l2) =
  let? x := output_databases a l1 in let? y := output_databases a l2 in Ok (x ++ y).
Proof.
  induction l1 as [|t l1 IH]; simpl; [by destruct (output_databases a l2)|].
  destruct (output_database a t); simpl; [|done]. rewrite IH. destruct (output_databases a l1); simpl; [|done].
  by destruct (output_databases a l2).
Qed.

Lemma key_loop_spec a stage keys acc : key_loop a stage keys acc =
  let? ds := output_databases a (omap (fun key => obj_get key stage) keys) in Ok (acc ++ ds).
Proof.
  revert acc. induction keys as [|k keys IH]; intros acc; simpl; [by rewrite app_nil_r|].
  destruct (obj_get k stage) as [t|]; simpl; [|apply IH]. destruct (output_database a t) as [d|]; simpl; [|done].
  rewrite IH. destruct (output_databases _ _); simpl; [|done]. by rewrite <- app_assoc.
Qed.

Lemma stage_loop_spec a stages acc : stage_loop a stages acc =
  let? ds := output_databases a (output_targets stages) in Ok (acc ++ ds).
Proof.
  revert acc. induction stages as [|st stages IH]; intros acc; [simpl; by rewrite app_nil_r|].
  cbn [stage_loop]. unfold output_targets. cbn [mbind list_bind]. fold (output_targets stages).
  destruct (as_object st) as [m|]; [|apply IH]. rewrite key_loop_spec, output_databases_app.
  destruct (output_databases a (omap _ _)); simpl; [|done]. rewrite IH.
  destruct (output_databases a (output_targets stages)); simpl; [|done]. by rewrite <- app_assoc.
Qed.

Lemma output_databases_all a l :
  (exists ds, output_databases a l = Ok ds /\ existsb (fun d => negb (String.eqb d a)) ds = false) <->
  Forall (fun t => output_database a t = Ok a) l.
Proof.
  induction l as [|t l IH]; simpl; [split; [constructor|by eexists]|]. rewrite Forall_cons, <- IH.
  destruct (output_database a t) as [d|]; simpl; [|split; [by intros (? & ? & _)|by intros [? _]]].
  destruct (output_databases a l) as [ds|]; simpl; [|split; [by intros (? & ? & _)|by intros [_ (? & ? & _)]]].
  split.
  - intros (x & [= <-] & Hx). simpl in Hx. apply orb_false_iff in Hx as [Hd Hx]. apply negb_false_iff, String.eqb_eq in Hd as ->. eauto.
  - intros [[= ->] (x & [= <-] & Hx)]. eexists. split; [done|]. simpl. by rewrite String.eqb_refl.
Qed.

(** A MongoDB pipeline is let through exactly when the connection has no
    database rules, or the text is a JSON array in which every target of an
    [$out] or [$merge] stage names the active database (by name or by leaving
    the database out). *)
Theorem mongo_scope_is_exact from_str policy connection_id active_database pipeline :
  ensure_mongo_database_execution_scope from_str policy connection_id active_database pipeline = Ok tt <->
  (forall rule, find_connection_policy policy connection_id = Some rule -> rule.(database_policies) = []) \/
  exists stages, from_str pipeline = Some (JArray stages) /\
    Forall (fun t => output_database active_database t = Ok active_database) (output_targets stages).
Proof.
  unfold ensure_mongo_database_execution_scope.
  destruct (find_connection_policy policy connection_id) as [rule|]; simpl; [|split; [by left|done]].
  destruct rule.(database_policies) as [|d ds] eqn:Ed; simpl; [split; [left; by intros ? [= <-]|done]|].
  unfold mongo_pipeline_output_databases. split.
  - intros H. right. destruct (from_str pipeline) as [[| | | |stages|]|]; try done. exists stages. split; [done|].
    apply output_databases_all. rewrite stage_loop_spec in H. destruct (output_databases active_database (output_targets stages)); simpl in *; [|done].
    eexists. split; [done|]. by destruct (existsb _ _).
  - intros [H|(stages & -> & Hf)]; [specialize (H _ eq_refl); congruence|].
    apply output_databases_all in Hf as (x & Hx & Hall). rewrite stage_loop_spec, Hx. simpl. by rewrite Hall.
Qed.
End McpPolicy.

Module ToolApproval.

(** The [oneshot] channel of an approval: the answer sent, whether the sender
    is still held by the registry, whether the receiver still waits. *)
Record Channel := { answer : option bool; sender : bool; receiver : bool }.

(** [pending_approvals()]: the session of every pending approval; and the
    channels, one per approval ever registered. *)
Record State := { pending : gmap string string; channels : gmap string Channel }.

Definition init : State := {| pending := ∅; channels := ∅ |}.

Inductive ToolApprovalWait := Approved | Denied | TimedOut | Cancelled.

(** The approval id is a fresh UUID. *)
Definition register_tool_approval (s : State) (session_id approval_id : string) : State :=
  {| pending := <[approval_id := session_id]> s.(pending);
     channels := <[approval_id := {| answer := None; sender := true; receiver := true |}]> s.(channels) |}.

(** [responder.send(approved)]: refused when the receiver is gone. *)
Definition send (s : State) (approval_id : string) (approved : bool) : bool * State :=
  match s.(channels) !! approval_id with
  | Some c =>
    if c.(receiver)
    then (true, {| pending := s.(pending);
                   channels := <[approval_id := {| answer := Some approved; sender := false; receiver := true |}]> s.(channels) |})
    else (false, {| pending := s.(pending);
                    channels := <[approval_id := {| answer := c.(answer); sender := false; receiver := false |}]> s.(channels) |})
  | None => (false, s)
  end.

Definition resolve_tool_approval (s : State) (session_id approval_id : string) (approved : bool) : bool * State :=
  let belongs_to_session := match s.(pending) !! approval_id with Some session => String.eqb session session_id | None => false end in
  if negb belongs_to_session then (false, s)
  else
    match s.(pending) !! approval_id with
    | None => (false, s)
    | Some _ => send {| pending := delete approval_id s.(pending); channels := s.(channels) |} approval_id approved
    end.

(** The biased [select!] of [wait]: cancellation first, then the channel, then
    the deadline; [None] while none of them is ready. *)
Definition wait_outcome (s : State) (approval_id : string) (cancelled elapsed : bool) : option ToolApprovalWait :=
  match s.(channels) !! approval_id with
  | None => Some Denied
  | Some c =>
    if negb c.(receiver) then Some Denied
    else if cancelled then Some Cancelled
    else match c.(answer) with
    | Some true => Some Approved
    | Some false => Some Denied
    | None => if negb c.(sender) then Some Denied else if elapsed then Some TimedOut else None
    end
  end.

(** [Drop]: the entry leaves the registry, and with it the sender. *)
Definition drop_approval (s : State) (approval_id : string) : State :=
  {| pending := delete approval_id s.(pending);
     channels := alter (fun c => {| answer := c.(answer); sender := false; receiver := false |}) approval_id s.(channels) |}.

(** ** Runs: the operations of agent loops and clients, in any order *)

Inductive event : Type :=
| Register (session_id approval_id : string)
| Resolve (session_id approval_id : string) (approved accepted : bool)
| Ended (approval_id : string) (outcome : option ToolApprovalWait).

Inductive step (s : State) : event -> State -> Prop :=
| step_register session id :
    s.(channels) !! id = None -> step s (Register session id) (register_tool_approval s session id)
| step_resolve session id approved :
    step s (Resolve session id approved (resolve_tool_approval s session id approved).1)
         (resolve_tool_approval s session id approved).2
| step_wait id cancelled elapsed outcome c :
    s.(channels) !! id = Some c -> c.(receiver) = true -> wait_outcome s id cancelled elapsed = Some outcome ->
    step s (Ended id (Some outcome)) (drop_approval s id)
| step_abandon id c :
    s.(channels) !! id = Some c -> c.(receiver) = true -> step s (Ended id None) (drop_approval s id).

Inductive run : list event -> State -> Prop :=
| run_init : run [] init
| run_step tr s e s' : run tr s -> step s e s' -> run (tr ++ [e]) s'.

(** The answers accepted for an approval, with the session that gave them. *)
Definition answers (id : string) (tr : list event) : list (string * bool) :=
  omap (fun e => match e with
                 | Resolve session id' approved true => if String.eqb id' id then Some (session, approved) else None
                 | _ => None
                 end) tr.

Definition ended (id : string) (tr : list event) : Prop := exists outcome, Ended id outcome ∈ tr.

(** What is known of one approval after a run. *)
Definition approval_inv (tr : list event) (s : State) (id : string) : Prop :=
  match s.(channels) !! id with
  | None => s.(pending) !! id = None /\ answers id tr = [] /\ ~ ended id tr
  | Some c => exists session,
      Register session id ∈ tr /\
      (c.(receiver) = true <-> ~ ended id tr) /\
      match c.(answer) with
      | None => answers id tr = []
      | Some b => answers id tr = [(session, b)]
      end /\
      (forall session', s.(pending) !! id = Some session' -> session' = session /\ c.(answer) = None /\ c.(receiver) = true)
  end.

Lemma answers_app id tr e : answers id (tr ++ [e]) = answers id tr ++ answers id [e].
Proof. apply omap_app. Qed.

Lemma ended_app id tr e : ended id (tr ++ [e]) <-> ended id tr \/ exists o, e = Ended id o.
Proof.
  unfold ended. split.
  - intros [o [H|H%list_elem_of_singleton]%elem_of_app]; [left|right]; eauto.
  - intros [[o H]|[o ->]]; exists o; apply elem_of_app; [by left|right; by left].
Qed.

(** An event of another approval, or one that changes nothing, keeps the invariant. *)
Lemma approval_inv_frame tr s s' e id :
  approval_inv tr s id -> s'.(channels) !! id = s.(channels) !! id -> s'.(pending) !! id = s.(pending) !! id ->
  answers id [e] = [] -> ~ (exists o, e = Ended id o) -> approval_inv (tr ++ [e]) s' id.
Proof.
  unfold approval_inv. intros H Hc Hp Ha He. rewrite Hc, Hp, answers_app, Ha, app_nil_r.
  destruct (s.(channels) !! id) as [c|].
  - destruct H as (session & Hr & Hl & Hans & Hpend). exists session. rewrite ended_app. split_and!; [apply elem_of_app; by left|tauto|done|done].
  - rewrite ended_app. tauto.
Qed.

Lemma answers_other id session id' b acc : id' <> id -> answers id [Resolve session id' b acc] = [].
Proof. intros Hne. simpl. destruct acc; [|done]. by rewrite (proj2 (String.eqb_neq id' id) Hne). Qed.

Lemma approval_inv_register tr s session id0 id :
  s.(channels) !! id0 = None -> approval_inv tr s id ->
  approval_inv (tr ++ [Register session id0]) (register_tool_approval s session id0) id.
Proof.
  intros Hn H. destruct (decide (id0 = id)) as [->|Hne].
  - unfold approval_inv in H. rewrite Hn in H. destruct H as (_ & Ha & He). unfold approval_inv. simpl.
    rewrite lookup_insert_eq. exists session. rewrite answers_app, Ha, lookup_insert_eq, ended_app. split_and!.
    + apply elem_of_app. right. by left.
    + simpl. split; [|done]. intros _ [?|[? ?]]; done.
    + done.
    + intros ? [= <-]. done.
  - apply (approval_inv_frame tr s); [done|by apply lookup_insert_ne|by apply lookup_insert_ne|done|by intros [? ?]].
Qed.

Lemma inv_drop tr s id0 o c id :
  s.(channels) !! id0 = Some c -> approval_inv tr s id -> approval_inv (tr ++ [Ended id0 o]) (drop_approval s id0) id.
Proof.
  intros Hc H. destruct (decide (id0 = id)) as [->|Hne].
  - unfold approval_inv in *. rewrite Hc in H. destruct H as (session & Hr & Hl & Hans & _). simpl.
    rewrite lookup_alter_eq, Hc. simpl. exists session. rewrite lookup_delete_eq, answers_app, ended_app, app_nil_r. split_and!.
    + apply elem_of_app. by left.
    + split; [done|]. intros Hn. destruct Hn. right. by eexists.
    + done.
    + done.
  - apply (approval_inv_frame tr s); [done|by apply lookup_alter_ne|by apply lookup_delete_ne|done|].
    intros [o' ?]. congruence.
Qed.

(** An answer is accepted only from the session of a pending approval. *)
Lemma resolve_cases s session id approved :
  (resolve_tool_approval s session id approved = (false, s) /\ s.(pending) !! id <> Some session) \/
  (s.(pending) !! id = Some session /\
   resolve_tool_approval s session id approved =
     send {| pending := delete id s.(pending); channels := s.(channels) |} id approved).
Proof.
  unfold resolve_tool_approval. destruct (s.(pending) !! id) as [session'|]; [|by left].
  destruct (String.eqb_spec session' session) as [->|Hne]; simpl; [by right|left; split; [done|congruence]].
Qed.

(** The answer to a pending approval reaches its channel. *)
Lemma resolve_pending tr s session id approved :
  approval_inv tr s id -> s.(pending) !! id = Some session ->
  Register session id ∈ tr /\ answers id tr = [] /\ ~ ended id tr /\
  resolve_tool_approval s session id approved =
    (true, {| pending := delete id s.(pending);
              channels := <[id := {| answer := Some approved; sender := false; receiver := true |}]> s.(channels) |}).
Proof.
  unfold approval_inv. intros H Hp. destruct (s.(channels) !! id) as [c|] eqn:Ec; [|destruct H; congruence].
  destruct H as (session' & Hr & Hl & Hans & Hpend). destruct (Hpend _ Hp) as (<- & Hn & Hrec). rewrite Hn in Hans.
  split_and!; [done|done|tauto|]. destruct (resolve_cases s session id approved) as [[_ ?]|[_ ->]]; [done|].
  unfold send. simpl. by rewrite Ec, Hrec.
Qed.

Lemma inv_resolve tr s session id0 approved id :
  (forall i, approval_inv tr s i) ->
  approval_inv (tr ++ [Resolve session id0 approved (resolve_tool_approval s session id0 approved).1])
    (resolve_tool_approval s session id0 approved).2 id.
Proof.
  intros H. destruct (resolve_cases s session id0 approved) as [[-> _]|[Hp _]].
  - apply (approval_inv_frame tr s); [done|done|done|done|by intros [? ?]].
  - destruct (resolve_pending tr s session id0 approved (H id0) Hp) as (Hr & Ha & He & ->). simpl.
    destruct (decide (id0 = id)) as [->|Hne].
    + unfold approval_inv. simpl. rewrite lookup_insert_eq, lookup_delete_eq. exists session.
      rewrite answers_app, Ha, ended_app. simpl. rewrite String.eqb_refl. split_and!; [apply elem_of_app; by left| |done|done].
      split; [|done]. intros _ [?|[? ?]]; done.
    + apply (approval_inv_frame tr s); [apply H|by apply lookup_insert_ne|by apply lookup_delete_ne|by apply answers_other|by intros [? ?]].
Qed.

Lemma run_inv tr s id : run tr s -> approval_inv tr s id.
Proof.
  intros Hr. revert id. induction Hr as [|tr s e s' Hr IH Hs]; intros id.
  - unfold approval_inv. simpl. rewrite lookup_empty. split_and!; [done|done|]. intros [o ?%elem_of_nil]. done.
  - destruct Hs as [session i Hn|session i b|i cn el o c Hc Hrec Hw|i c Hc Hrec].
    + by apply approval_inv_register.
    + by apply inv_resolve.
    + by eapply inv_drop.
    + by eapply inv_drop.
Qed.

(** An approval is the answer of the session that asked.  In every run a
    wait can end with Approved only if the session that registered the approval
    answered it with yes, and that is the only answer accepted for it; and an
    answer is accepted only from the registering session, for an approval not
    answered before and whose wait has not ended. *)
Theorem approval_is_the_sessions_answer tr s id :
  run tr s ->
  (forall cancelled elapsed, wait_outcome s id cancelled elapsed = Some Approved ->
     exists session, Register session id ∈ tr /\ answers id tr = [(session, true)]) /\
  (forall session approved, (resolve_tool_approval s session id approved).1 = true ->
     Register session id ∈ tr /\ answers id tr = [] /\ ~ ended id tr).
Proof.
  intros Hr. pose proof (run_inv tr s id Hr) as H. split.
  - intros cn el Hw. unfold wait_outcome in Hw. unfold approval_inv in H.
    destruct (s.(channels) !! id) as [c|]; [|done]. destruct H as (session & Hreg & _ & Hans & _).
    destruct (negb c.(receiver)); [done|]. destruct cn; [done|].
    destruct c.(answer) as [[]|]; [by eauto|done|]. by destruct (negb c.(sender)), el.
  - intros session b Hb. destruct (resolve_cases s session id b) as [[Hf _]|[Hp _]]; [by rewrite Hf in Hb|].
    destruct (resolve_pending tr s session id b H Hp) as (? & ? & ? & _). done.
Qed.
End ToolApproval.

Module AgentDemo.
Import McpPolicy ToolApproval.

Definition asked : State := register_tool_approval init "a" "1".
Definition answered : State := (resolve_tool_approval asked "a" "1" true).2.

Lemma approval_run : run ([Register "a" "1"] ++ [Resolve "a" "1" true true]) answered.
Proof.
  apply (run_step [Register "a" "1"] asked); [apply (run_step [] init); [constructor|by apply step_register]|].
  apply (step_resolve asked "a" "1" true).
Qed.

Lemma approval_is_the_sessions_answer_witness :
  exists session, Register session "1" ∈ [Register "a" "1"; Resolve "a" "1" true true] /\
    answers "1" [Register "a" "1"; Resolve "a" "1" true true] = [(session, true)].
Proof.
  apply (proj1 (approval_is_the_sessions_answer _ _ "1" approval_run) false true). vm_compute. reflexivity.
Defined.

Definition demo_layout : SidebarLayout :=
  {| groups := [{| group_id := "g"; group_name := "Group" |}];
     order := [Group "g" (Some [Connection "c"]) None; Connection "d"] |}.

Lemma group_paths_follow_the_tree_witness :
  connection_group_paths (fun _ => Ok demo_layout) JNull =
  Ok (insert_all ∅ [("c", {| ids := ["g"]; names := ["Group"] |}); ("d", {| ids := []; names := [] |})]).
Proof. exact (group_paths_follow_the_tree (fun _ => Ok demo_layout) JNull demo_layout eq_refl). Defined.

(** Another session's answer is refused. *)
Example intruder_is_refused : (resolve_tool_approval asked "b" "1" true).1 = false.
Proof. reflexivity. Qed.
End AgentDemo.
