(* ===== verification/McpAccess.v ===== *)
(** * Access levels of the MCP server

    [crates/dbx-core/src/ai/mcp_access.rs] and what it uses of
    [crates/dbx-core/src/persistence/storage.rs]: the normalisation of the first
    version of the policy (module [V1]), the access policy of the second version
    with its rules, inheritance and the two translations between them (module
    [V2]), and the settings in which both are saved side by side (module
    [Store]).  The records of the first version are those of AgentPolicy.v. *)

From S2P Require Import Prelude Json Utf8 Containers AgentPolicy.
Import McpPolicy.

Module V1.

Definition confirmation_policy (policy : McpGlobalPolicy) : McpConfirmPolicy :=
  default (if policy.(prompt_high_risk_sql) then ConfirmFull else ConfirmOff) policy.(call_confirmation).

Definition normalize_mcp_ids (ids : list string) : list string := trimmed_names ids.

Definition normalize_mcp_database_names (databases : list string) : list string := trimmed_names databases.

Definition by_database_name : relation McpDatabasePolicy :=
  fun a b => String.le a.(db_database_name) b.(db_database_name).
#[global] Instance by_database_name_dec : RelDecision by_database_name := fun a b => decide (String.le _ _).

Definition merge_database_policy (current policy : McpDatabasePolicy) : McpDatabasePolicy :=
  {| db_database_name := current.(db_database_name);
     db_read_only := current.(db_read_only) || policy.(db_read_only);
     db_allow_dangerous_sql := current.(db_allow_dangerous_sql) && policy.(db_allow_dangerous_sql) |}.

Definition insert_database_policy (normalized : gmap string McpDatabasePolicy) (policy : McpDatabasePolicy) :
    gmap string McpDatabasePolicy :=
  let database_name := trim_str policy.(db_database_name) in
  if String.eqb database_name "" then normalized
  else <[database_name :=
    match normalized !! database_name with
    | Some current => merge_database_policy current policy
    | None => {| db_database_name := database_name; db_read_only := policy.(db_read_only);
                 db_allow_dangerous_sql := negb policy.(db_read_only) && policy.(db_allow_dangerous_sql) |}
    end]> normalized.

Definition close_database_policy (policy : McpDatabasePolicy) : McpDatabasePolicy :=
  if policy.(db_read_only)
  then {| db_database_name := policy.(db_database_name); db_read_only := true; db_allow_dangerous_sql := false |}
  else policy.

Definition normalize_mcp_database_policies (policies : list McpDatabasePolicy) : list McpDatabasePolicy :=
  let normalized := foldl insert_database_policy ∅ policies in
  map close_database_policy (merge_sort by_database_name (map snd (map_to_list normalized))).

Definition merge_mcp_database_policies (lhs rhs : list McpDatabasePolicy) : list McpDatabasePolicy :=
  normalize_mcp_database_policies (lhs ++ rhs).

Definition intersect_mcp_database_scopes (left_scope : McpDatabaseScope) (left_databases : list string)
    (right_scope : McpDatabaseScope) (right_databases : list string) : McpDatabaseScope * list string :=
  match left_scope, right_scope with
  | ScopeNone, _ | _, ScopeNone => (ScopeNone, [])
  | ScopeAll, ScopeAll => (ScopeAll, [])
  | ScopeAll, ScopeSelected => (ScopeSelected, normalize_mcp_database_names right_databases)
  | ScopeSelected, ScopeAll => (ScopeSelected, normalize_mcp_database_names left_databases)
  | ScopeSelected, ScopeSelected =>
    let right := normalize_mcp_database_names right_databases in
    (ScopeSelected,
     List.filter (fun database => bool_decide (database ∈ right)) (normalize_mcp_database_names left_databases))
  end.

(** Two rules of one connection are a conjunction. *)
Definition merge_connection_policy (current rule : McpConnectionPolicy) : McpConnectionPolicy :=
  let '(ro, dangerous) :=
    if rule.(execution_mode_configured) then
      if current.(execution_mode_configured)
      then (current.(conn_read_only) || rule.(conn_read_only),
            current.(conn_allow_dangerous_sql) && rule.(conn_allow_dangerous_sql))
      else (rule.(conn_read_only), rule.(conn_allow_dangerous_sql))
    else (current.(conn_read_only), current.(conn_allow_dangerous_sql)) in
  let '(scope, databases) :=
    intersect_mcp_database_scopes current.(database_scope) current.(allowed_databases)
      rule.(database_scope) rule.(allowed_databases) in
  {| conn_connection_id := current.(conn_connection_id);
     conn_read_only := ro;
     conn_allow_dangerous_sql := dangerous;
     execution_mode_configured := current.(execution_mode_configured) || rule.(execution_mode_configured);
     execution_mode_policy_version :=
       match current.(execution_mode_policy_version), rule.(execution_mode_policy_version) with
       | Some l, Some r =>
         if bool_decide (l = MCP_EXECUTION_POLICY_VERSION) && bool_decide (r = l) then Some l else None
       | _, _ => None
       end;
     database_scope := scope;
     allowed_databases := databases;
     database_policies := merge_mcp_database_policies current.(database_policies) rule.(database_policies);
     allow_salesforce_dml := current.(allow_salesforce_dml) && rule.(allow_salesforce_dml) |}.

Definition insert_connection_policy (policies : gmap string McpConnectionPolicy) (rule : McpConnectionPolicy) :
    gmap string McpConnectionPolicy :=
  let connection_id := trim_str rule.(conn_connection_id) in
  if String.eqb connection_id "" then policies
  else <[connection_id :=
    match policies !! connection_id with
    | Some current => merge_connection_policy current rule
    | None =>
      {| conn_connection_id := connection_id;
         conn_read_only := rule.(conn_read_only);
         conn_allow_dangerous_sql := rule.(conn_allow_dangerous_sql);
         execution_mode_configured := rule.(execution_mode_configured);
         execution_mode_policy_version := rule.(execution_mode_policy_version);
         database_scope := rule.(database_scope);
         allowed_databases := normalize_mcp_database_names rule.(allowed_databases);
         database_policies := normalize_mcp_database_policies rule.(database_policies);
         allow_salesforce_dml := rule.(allow_salesforce_dml) |}
    end]> policies.

Definition close_connection_policy (rule : McpConnectionPolicy) : McpConnectionPolicy :=
  let databases := normalize_mcp_database_names rule.(allowed_databases) in
  let '(databases, policies) :=
    match rule.(database_scope) with
    | ScopeSelected =>
      (databases, List.filter (fun policy => bool_decide (policy.(db_database_name) ∈ databases)) rule.(database_policies))
    | _ => ([], [])
    end in
  {| conn_connection_id := rule.(conn_connection_id);
     conn_read_only := rule.(conn_read_only);
     conn_allow_dangerous_sql := if rule.(conn_read_only) then false else rule.(conn_allow_dangerous_sql);
     execution_mode_configured := rule.(execution_mode_configured);
     execution_mode_policy_version := rule.(execution_mode_policy_version);
     database_scope := rule.(database_scope);
     allowed_databases := databases;
     database_policies := policies;
     allow_salesforce_dml := if rule.(conn_read_only) then false else rule.(allow_salesforce_dml) |}.

Definition by_connection_id : relation McpConnectionPolicy :=
  fun a b => String.le a.(conn_connection_id) b.(conn_connection_id).
#[global] Instance by_connection_id_dec : RelDecision by_connection_id := fun a b => decide (String.le _ _).

Definition insert_group_policy (policies : gmap string McpGroupPolicy) (rule : McpGroupPolicy) : gmap string McpGroupPolicy :=
  let group_id := trim_str rule.(grp_group_id) in
  if String.eqb group_id "" then policies
  else <[group_id :=
    match policies !! group_id with
    | Some current =>
      {| grp_group_id := current.(grp_group_id);
         grp_read_only := current.(grp_read_only) || rule.(grp_read_only);
         grp_allow_dangerous_sql := current.(grp_allow_dangerous_sql) && rule.(grp_allow_dangerous_sql) |}
    | None =>
      {| grp_group_id := group_id; grp_read_only := rule.(grp_read_only);
         grp_allow_dangerous_sql := negb rule.(grp_read_only) && rule.(grp_allow_dangerous_sql) |}
    end]> policies.

Definition by_group_id : relation McpGroupPolicy := fun a b => String.le a.(grp_group_id) b.(grp_group_id).
#[global] Instance by_group_id_dec : RelDecision by_group_id := fun a b => decide (String.le _ _).

Definition close_group_policy (rule : McpGroupPolicy) : McpGroupPolicy :=
  if rule.(grp_read_only)
  then {| grp_group_id := rule.(grp_group_id); grp_read_only := true; grp_allow_dangerous_sql := false |}
  else rule.

Definition normalized (policy : McpGlobalPolicy) : McpGlobalPolicy :=
  let allowed_connection_ids := trimmed_names <$> policy.(allowed_connection_ids) in
  {| read_only := policy.(read_only);
     allow_dangerous_sql := negb policy.(read_only) && policy.(allow_dangerous_sql);
     prompt_high_risk_sql := match confirmation_policy policy with ConfirmFull => true | _ => false end;
     call_confirmation := match confirmation_policy policy with ConfirmHighRisk => Some ConfirmHighRisk | _ => None end;
     allowed_connection_ids := allowed_connection_ids;
     allowed_group_ids :=
       match allowed_connection_ids with Some _ => normalize_mcp_ids policy.(allowed_group_ids) | None => [] end;
     allowed_tool_names := trimmed_names <$> policy.(allowed_tool_names);
     connection_policies :=
       map close_connection_policy (merge_sort by_connection_id
         (map snd (map_to_list (foldl insert_connection_policy ∅ policy.(connection_policies)))));
     group_policies :=
       map close_group_policy (merge_sort by_group_id
         (map snd (map_to_list (foldl insert_group_policy ∅ policy.(group_policies)))));
     query_timeout_secs := policy.(query_timeout_secs);
     plugin_tools_mode := policy.(plugin_tools_mode) |}.

(** The databases of a connection an MCP call may name ([DatabaseScope] of the
    MCP server, [database_scope_for_connection] and [ensure_database_in_scope]). *)
Inductive DatabaseScope := DatabasesAll | DatabasesSelected (databases : list string) | DatabasesNone.

Definition database_scope_for_connection (policy : McpGlobalPolicy) (connection_id : string) : DatabaseScope :=
  match find_connection_policy policy connection_id with
  | None => DatabasesAll
  | Some rule =>
    match rule.(database_scope) with
    | ScopeAll => DatabasesAll
    | ScopeSelected => DatabasesSelected rule.(allowed_databases)
    | ScopeNone => DatabasesNone
    end
  end.

Definition database_in_scope (scope : DatabaseScope) (database : string) : bool :=
  match scope with
  | DatabasesAll => true
  | DatabasesSelected allowed => existsb (fun a => String.eqb a database) allowed
  | DatabasesNone => false
  end.

End V1.

Module V2.

Definition MCP_ACCESS_POLICY_VERSION : Z := 2.

Inductive McpAccessLevel := LevelNone | LevelRead | LevelWrite | LevelFull.

#[global] Instance McpAccessLevel_eq_dec : EqDecision McpAccessLevel.
Proof. solve_decision. Defined.

(** The derived order. *)
Definition rank (level : McpAccessLevel) : nat :=
  match level with LevelNone => 0 | LevelRead => 1 | LevelWrite => 2 | LevelFull => 3 end.
Definition level_lt (a b : McpAccessLevel) : bool := rank a <? rank b.
Definition level_le (a b : McpAccessLevel) : bool := rank a <=? rank b.
Definition level_min (a b : McpAccessLevel) : McpAccessLevel := if level_le a b then a else b.
Definition level_max (a b : McpAccessLevel) : McpAccessLevel := if level_le a b then b else a.

Definition from_flags (read_only allow_dangerous_sql : bool) : McpAccessLevel :=
  if read_only then LevelRead else if allow_dangerous_sql then LevelFull else LevelWrite.

Definition from_flags_pair (flags : bool * bool) : McpAccessLevel := from_flags flags.1 flags.2.

Definition to_flags (level : McpAccessLevel) : bool * bool :=
  match level with
  | LevelNone | LevelRead => (true, false)
  | LevelWrite => (false, false)
  | LevelFull => (false, true)
  end.

(** ** Confirmation *)

Inductive McpCallDecision := Deny | Allow | Confirm.

#[global] Instance McpConfirmPolicy_eq_dec : EqDecision McpConfirmPolicy.
Proof. solve_decision. Defined.
#[global] Instance McpCallDecision_eq_dec : EqDecision McpCallDecision.
Proof. solve_decision. Defined.

(** [McpConfirmPolicy::decide]. *)
Definition confirm_decide (confirm : McpConfirmPolicy) (actual required : McpAccessLevel) (high_risk : bool) : McpCallDecision :=
  if level_lt actual required then
    if bool_decide (confirm = ConfirmFull) && high_risk && bool_decide (actual = LevelWrite) && bool_decide (required = LevelFull)
    then Confirm else Deny
  else if bool_decide (confirm = ConfirmHighRisk) && high_risk then Confirm else Allow.

(** ** Rules *)

Inductive McpRuleTarget :=
| Group (id : string)
| Connection (id : string)
| Scope (connection_id scope value : string).

#[global] Instance McpRuleTarget_eq_dec : EqDecision McpRuleTarget.
Proof. solve_decision. Defined.

#[global] Instance McpRuleTarget_countable : Countable McpRuleTarget.
Proof.
  refine (inj_countable'
    (fun t => match t with Group id => inl (inl id) | Connection id => inl (inr id) | Scope c s v => inr (c, s, v) end)
    (fun t => match t with inl (inl id) => Group id | inl (inr id) => Connection id | inr (c, s, v) => Scope c s v end) _).
  by intros [].
Defined.

(** The derived order: by variant, then field by field. *)
Definition target_le (a b : McpRuleTarget) : Prop :=
  match a, b with
  | Group i, Group j | Connection i, Connection j => String.le i j
  | Group _, _ | Connection _, Scope _ _ _ => True
  | Scope c s v, Scope c' s' v' =>
    if decide (c = c') then if decide (s = s') then String.le v v' else String.le s s' else String.le c c'
  | _, _ => False
  end.

#[global] Instance target_le_dec : RelDecision target_le.
Proof. intros [] []; simpl; repeat case_decide; apply _. Defined.

Inductive McpSubScopeMode := SubAll | SubSelected | SubNone.
Inductive McpVisibilityMode := VisibleAll | VisibleSelected.

#[global] Instance McpSubScopeMode_eq_dec : EqDecision McpSubScopeMode.
Proof. solve_decision. Defined.
#[global] Instance McpVisibilityMode_eq_dec : EqDecision McpVisibilityMode.
Proof. solve_decision. Defined.

Record McpAccessRule := {
  access : option McpAccessLevel;
  ceiling : option McpAccessLevel;
  visible : option bool;
  sub_scope : option McpSubScopeMode;
  sub_scope_kind : option string;
  toolset_ceilings : gmap string McpAccessLevel;
}.

#[global] Instance McpAccessRule_eq_dec : EqDecision McpAccessRule.
Proof. solve_decision. Defined.

#[global] Instance set_access : Setter access := fun v r =>
  {| access := v; ceiling := r.(ceiling); visible := r.(visible); sub_scope := r.(sub_scope);
     sub_scope_kind := r.(sub_scope_kind); toolset_ceilings := r.(toolset_ceilings) |}.
#[global] Instance set_ceiling : Setter ceiling := fun v r =>
  {| access := r.(access); ceiling := v; visible := r.(visible); sub_scope := r.(sub_scope);
     sub_scope_kind := r.(sub_scope_kind); toolset_ceilings := r.(toolset_ceilings) |}.
#[global] Instance set_visible : Setter visible := fun v r =>
  {| access := r.(access); ceiling := r.(ceiling); visible := v; sub_scope := r.(sub_scope);
     sub_scope_kind := r.(sub_scope_kind); toolset_ceilings := r.(toolset_ceilings) |}.
#[global] Instance set_sub_scope : Setter sub_scope := fun v r =>
  {| access := r.(access); ceiling := r.(ceiling); visible := r.(visible); sub_scope := v;
     sub_scope_kind := r.(sub_scope_kind); toolset_ceilings := r.(toolset_ceilings) |}.
#[global] Instance set_sub_scope_kind : Setter sub_scope_kind := fun v r =>
  {| access := r.(access); ceiling := r.(ceiling); visible := r.(visible); sub_scope := r.(sub_scope);
     sub_scope_kind := v; toolset_ceilings := r.(toolset_ceilings) |}.
#[global] Instance set_toolset_ceilings : Setter toolset_ceilings := fun v r =>
  {| access := r.(access); ceiling := r.(ceiling); visible := r.(visible); sub_scope := r.(sub_scope);
     sub_scope_kind := r.(sub_scope_kind); toolset_ceilings := v |}.

(** [McpAccessRule::default()]. *)
Definition default_rule : McpAccessRule :=
  {| access := None; ceiling := None; visible := None; sub_scope := None; sub_scope_kind := None; toolset_ceilings := ∅ |}.

Definition SALESFORCE_WRITE_TOOLSET : string := "salesforce.write".

Record McpAccessPolicy := {
  version : Z;
  default_access : McpAccessLevel;
  confirm : McpConfirmPolicy;
  visibility : McpVisibilityMode;
  rules : gmap McpRuleTarget McpAccessRule;
  acc_allowed_tool_names : option (list string);
  acc_query_timeout_secs : option Z;
  acc_plugin_tools_mode : McpPluginToolsMode;
}.

#[global] Instance set_rules : Setter rules := fun v p =>
  {| version := p.(version); default_access := p.(default_access); confirm := p.(confirm); visibility := p.(visibility);
     rules := v; acc_allowed_tool_names := p.(acc_allowed_tool_names);
     acc_query_timeout_secs := p.(acc_query_timeout_secs); acc_plugin_tools_mode := p.(acc_plugin_tools_mode) |}.
#[global] Instance set_visibility : Setter visibility := fun v p =>
  {| version := p.(version); default_access := p.(default_access); confirm := p.(confirm); visibility := v;
     rules := p.(rules); acc_allowed_tool_names := p.(acc_allowed_tool_names);
     acc_query_timeout_secs := p.(acc_query_timeout_secs); acc_plugin_tools_mode := p.(acc_plugin_tools_mode) |}.
#[global] Instance set_default_access : Setter default_access := fun v p =>
  {| version := p.(version); default_access := v; confirm := p.(confirm); visibility := p.(visibility);
     rules := p.(rules); acc_allowed_tool_names := p.(acc_allowed_tool_names);
     acc_query_timeout_secs := p.(acc_query_timeout_secs); acc_plugin_tools_mode := p.(acc_plugin_tools_mode) |}.

(** [McpAccessPolicy::default()]. *)
Definition default_policy : McpAccessPolicy :=
  {| version := MCP_ACCESS_POLICY_VERSION; default_access := LevelRead; confirm := ConfirmOff; visibility := VisibleAll;
     rules := ∅; acc_allowed_tool_names := None; acc_query_timeout_secs := None; acc_plugin_tools_mode := PluginFlat |}.

(** The rules in the order of their targets. *)
Definition entries (rules : gmap McpRuleTarget McpAccessRule) : list (McpRuleTarget * McpAccessRule) :=
  btree_entries target_le rules.

Definition option_merge {A} (f : A -> A -> A) (lhs rhs : option A) : option A :=
  match lhs, rhs with
  | Some l, Some r => Some (f l r)
  | Some l, None => Some l
  | None, r => r
  end.

Definition merge_strictest (self other : McpAccessRule) : McpAccessRule :=
  {| access := option_merge level_min self.(access) other.(access);
     ceiling := option_merge level_min self.(ceiling) other.(ceiling);
     visible := option_merge andb self.(visible) other.(visible);
     sub_scope :=
       match self.(sub_scope), other.(sub_scope) with
       | Some SubNone, _ | _, Some SubNone => Some SubNone
       | Some SubSelected, _ | _, Some SubSelected => Some SubSelected
       | Some l, _ => Some l
       | None, r => r
       end;
     sub_scope_kind := match self.(sub_scope_kind) with Some k => Some k | None => other.(sub_scope_kind) end;
     toolset_ceilings :=
       foldl (fun ceilings tc =>
         <[tc.1 := match ceilings !! tc.1 with Some current => level_min current tc.2 | None => tc.2 end]> ceilings)
         self.(toolset_ceilings) (btree_entries String.le other.(toolset_ceilings)) |}.

(** Module [rule_list]: rules are saved as a list of entries; entries of one
    target are merged when they are read back. *)
Definition serialize_rules (rules : gmap McpRuleTarget McpAccessRule) : list (McpRuleTarget * McpAccessRule) := entries rules.

Definition deserialize_rules (l : list (McpRuleTarget * McpAccessRule)) : gmap McpRuleTarget McpAccessRule :=
  foldl (fun rules e =>
    <[e.1 := match rules !! e.1 with Some current => merge_strictest current e.2 | None => e.2 end]> rules) ∅ l.

(** ** Resolution *)

Inductive McpAccessSource := SourceDefault | SourceGroup (id : string) | SourceConnection | SourceScope.

#[global] Instance McpAccessSource_eq_dec : EqDecision McpAccessSource.
Proof. solve_decision. Defined.

Record McpResolvedAccess := { res_visible : bool; level : McpAccessLevel; source : McpAccessSource }.

Definition rule (self : McpAccessPolicy) (target : McpRuleTarget) : option McpAccessRule := self.(rules) !! target.

Definition connection_rule (self : McpAccessPolicy) (connection_id : string) : option McpAccessRule :=
  rule self (Connection connection_id).

(** [rule.and_then(|rule| rule.visible) == Some(b)]. *)
Definition visible_is (b : bool) (r : option McpAccessRule) : bool := bool_decide (r ≫= visible = Some b).

Definition connection_visible (self : McpAccessPolicy) (group_ids : list string) (connection_id : string) : bool :=
  let connection := connection_rule self connection_id in
  if visible_is false connection then false
  else match self.(visibility) with
  | VisibleAll => true
  | VisibleSelected =>
    visible_is true connection || existsb (fun group_id => visible_is true (rule self (Group group_id))) group_ids
  end.

(** [rule.ceiling.filter(|ceiling| *ceiling < level)]: the lower one, with the
    source it comes from. *)
Definition apply_access_ceiling (r : McpAccessRule) (here : McpAccessSource) (resolved : McpAccessLevel * McpAccessSource) :
    McpAccessLevel * McpAccessSource :=
  match r.(ceiling) with
  | Some c => if level_lt c resolved.1 then (c, here) else resolved
  | None => resolved
  end.

(** The level a rule sets, if it does. *)
Definition apply_access (r : McpAccessRule) (here : McpAccessSource) (resolved : McpAccessLevel * McpAccessSource) :
    McpAccessLevel * McpAccessSource :=
  match r.(access) with Some l => (l, here) | None => resolved end.

Definition connection_access (self : McpAccessPolicy) (group_ids : list string) (connection_id : string) :
    McpAccessLevel * McpAccessSource :=
  let resolved := foldl (fun resolved group_id =>
    match rule self (Group group_id) ≫= access with
    | Some l => (l, SourceGroup group_id)
    | None => resolved
    end) (self.(default_access), SourceDefault) group_ids in
  match connection_rule self connection_id with
  | Some r => apply_access_ceiling r SourceConnection (apply_access r SourceConnection resolved)
  | None => resolved
  end.

Definition sub_scope_mode (self : McpAccessPolicy) (connection_id : string) : McpSubScopeMode :=
  default SubAll (connection_rule self connection_id ≫= sub_scope).

Definition sub_scope_visible (self : McpAccessPolicy) (connection_id scope value : string) : bool :=
  let r := rule self (Scope connection_id scope value) in
  if visible_is false r then false
  else match sub_scope_mode self connection_id with
  | SubAll => true
  | SubSelected => visible_is true r
  | SubNone => false
  end.

Definition resolve (self : McpAccessPolicy) (group_ids : list string) (connection_id : string)
    (sub_scope : option (string * string)) : McpResolvedAccess :=
  let visible := connection_visible self group_ids connection_id &&
    match sub_scope with Some (scope, value) => sub_scope_visible self connection_id scope value | None => true end in
  let resolved := connection_access self group_ids connection_id in
  let '(l, src) :=
    match sub_scope with
    | Some (scope, value) =>
      match rule self (Scope connection_id scope value) with
      | Some r => apply_access_ceiling r SourceScope (apply_access r SourceScope resolved)
      | None => resolved
      end
    | None => resolved
    end in
  {| res_visible := visible; level := if visible then l else LevelNone; source := src |}.

Definition resolve_plugin_connection (self : McpAccessPolicy) (group_ids : list string) (connection_id : string)
    (connection_read_only : bool) : McpResolvedAccess :=
  let resolved := resolve self group_ids connection_id None in
  if bool_decide (resolved.(source) = SourceDefault) && negb connection_read_only && level_lt resolved.(level) LevelWrite
  then {| res_visible := resolved.(res_visible); level := LevelWrite; source := resolved.(source) |}
  else resolved.

(** A rule that hides its target or leaves it no access. *)
Definition denies (r : McpAccessRule) : bool :=
  bool_decide (r.(visible) = Some false) || bool_decide (r.(access) = Some LevelNone) || bool_decide (r.(ceiling) = Some LevelNone).

Definition is_scope_of (connection_id scope : string) (t : McpRuleTarget) : bool :=
  match t with Scope c s _ => String.eqb c connection_id && String.eqb s scope | _ => false end.

Definition sub_scope_allows_all (self : McpAccessPolicy) (connection_id scope : string) : bool :=
  bool_decide (sub_scope_mode self connection_id = SubAll) &&
  negb (existsb (fun e => is_scope_of connection_id scope e.1 && denies e.2) (entries self.(rules))).

Definition toolset_ceiling (self : McpAccessPolicy) (connection_id toolset : string) : option McpAccessLevel :=
  match connection_rule self connection_id ≫= (fun r => r.(toolset_ceilings) !! toolset) with
  | Some c => Some c
  | None => if String.eqb toolset SALESFORCE_WRITE_TOOLSET then Some LevelRead else None
  end.

Definition is_any_scope_of (connection_id : string) (t : McpRuleTarget) : bool :=
  match t with Scope c _ _ => String.eqb c connection_id | _ => false end.

Definition has_scope_rules (self : McpAccessPolicy) (connection_id : string) : bool :=
  existsb (fun e => is_any_scope_of connection_id e.1) (entries self.(rules)).

Definition resolve_level_ignoring_visibility (self : McpAccessPolicy) (group_ids : list string) (connection_id : string)
    (sub_scope' : option (string * string)) : McpAccessLevel :=
  let visible_everywhere := self <| visibility := VisibleAll |>
    <| rules := (fun r => r <| visible := None |> <| sub_scope := None |>) <$> self.(rules) |> in
  (resolve visible_everywhere group_ids connection_id sub_scope').(level).

Record McpDatabaseDecision := { dec_connection_visible : bool; database_visible : bool; flags : bool * bool }.

(** [McpAccessPolicy::decide]. *)
Definition policy_decide (self : McpAccessPolicy) (group_ids : list string) (connection_id database : string) : McpDatabaseDecision :=
  let connection_visible := connection_visible self group_ids connection_id in
  let sub_scope := if String.eqb database "" then None else Some ("database", database) in
  let resolved := resolve self group_ids connection_id sub_scope in
  let database_visible := connection_visible &&
    match sub_scope with Some (scope, value) => sub_scope_visible self connection_id scope value | None => true end in
  let l := if database_visible then resolved.(level)
           else resolve_level_ignoring_visibility self group_ids connection_id sub_scope in
  {| dec_connection_visible := connection_visible; database_visible := database_visible;
     flags := to_flags (level_max l LevelRead) |}.

(** ** From the first version *)

Notation RuleMap := (gmap McpRuleTarget McpAccessRule).

(** [rules.entry(target).or_default()], updated. *)
Definition rule_entry (target : McpRuleTarget) (f : McpAccessRule -> McpAccessRule) (rules : RuleMap) : RuleMap :=
  entry_update default_rule target f rules.

Definition set_visible_true (r : McpAccessRule) : McpAccessRule := r <| visible := Some true |>.

(** A configured level: an override of a versioned rule, a ceiling of a legacy one. *)
Definition set_level (versioned : bool) (l : McpAccessLevel) (r : McpAccessRule) : McpAccessRule :=
  if versioned then r <| access := Some l |> else r <| ceiling := Some l |>.

Definition sub_scope_of (scope : McpDatabaseScope) : McpSubScopeMode :=
  match scope with ScopeAll => SubAll | ScopeSelected => SubSelected | ScopeNone => SubNone end.

Definition is_versioned (connection : McpConnectionPolicy) : bool :=
  bool_decide (connection.(execution_mode_policy_version) = Some MCP_EXECUTION_POLICY_VERSION).

Definition connection_rule_update (connection : McpConnectionPolicy) (r : McpAccessRule) : McpAccessRule :=
  let r := r <| sub_scope := Some (sub_scope_of connection.(database_scope)) |> in
  let r := if connection.(execution_mode_configured)
           then set_level (is_versioned connection)
                  (from_flags connection.(conn_read_only) connection.(conn_allow_dangerous_sql)) r
           else r in
  r <| toolset_ceilings := <[SALESFORCE_WRITE_TOOLSET :=
         if connection.(allow_salesforce_dml) && negb connection.(conn_read_only) then LevelFull else LevelRead]>
         r.(toolset_ceilings) |>.

Definition connection_step (rules : RuleMap) (connection : McpConnectionPolicy) : RuleMap :=
  let scope_target database := Scope connection.(conn_connection_id) "database" database in
  let rules := rule_entry (Connection connection.(conn_connection_id)) (connection_rule_update connection) rules in
  let rules := foldl (fun rules database => rule_entry (scope_target database) set_visible_true rules)
                 rules connection.(allowed_databases) in
  foldl (fun rules policy =>
      rule_entry (scope_target policy.(db_database_name))
        (set_level (is_versioned connection) (from_flags policy.(db_read_only) policy.(db_allow_dangerous_sql))) rules)
    rules connection.(database_policies).

Definition from_v1 (policy : McpGlobalPolicy) : McpAccessPolicy :=
  let policy := V1.normalized policy in
  let rules := foldl (fun rules id => rule_entry (Connection id) set_visible_true rules)
                 ∅ (default [] policy.(allowed_connection_ids)) in
  let rules := foldl (fun rules id => rule_entry (Group id) set_visible_true rules) rules policy.(allowed_group_ids) in
  let rules := foldl (fun rules group =>
      rule_entry (Group group.(grp_group_id))
        (fun r => r <| access := Some (from_flags group.(grp_read_only) group.(grp_allow_dangerous_sql)) |>) rules)
    rules policy.(group_policies) in
  let rules := foldl connection_step rules policy.(connection_policies) in
  {| version := MCP_ACCESS_POLICY_VERSION;
     default_access := from_flags policy.(read_only) policy.(allow_dangerous_sql);
     confirm := V1.confirmation_policy policy;
     visibility := match policy.(allowed_connection_ids) with Some _ => VisibleSelected | None => VisibleAll end;
     rules := rules;
     acc_allowed_tool_names := policy.(allowed_tool_names);
     acc_query_timeout_secs := policy.(query_timeout_secs);
     acc_plugin_tools_mode := policy.(plugin_tools_mode) |}.

(** ** To the first version *)

(** The least of the ceilings other than Salesforce's. *)
Definition projected_toolset_ceiling (self : McpAccessPolicy) (connection_id : string) : option McpAccessLevel :=
  r ← connection_rule self connection_id;
  foldr (fun tc acc => option_merge level_min (Some tc.2) acc) None
    (List.filter (fun tc => negb (String.eqb tc.1 SALESFORCE_WRITE_TOOLSET)) (btree_entries String.le r.(toolset_ceilings))).

Definition is_group (t : McpRuleTarget) : bool := match t with Group _ => true | _ => false end.

Definition strictest_connection_level (self : McpAccessPolicy) (connection_id : string) : McpAccessLevel :=
  let strictest := foldl (fun strictest e =>
    match e.1, e.2.(access) with
    | Group _, Some l => level_min strictest l
    | _, _ => strictest
    end) self.(default_access) (entries self.(rules)) in
  match connection_rule self connection_id with
  | Some r =>
    let strictest := default strictest r.(access) in
    match r.(ceiling) with Some c => level_min strictest c | None => strictest end
  | None => strictest
  end.

Definition restore_legacy_salesforce_opt_ins (self : McpAccessPolicy) (legacy : McpGlobalPolicy) : McpAccessPolicy :=
  self <| rules := foldl (fun rules connection =>
    if connection.(allow_salesforce_dml) && negb connection.(conn_read_only) then
      match rules !! Connection connection.(conn_connection_id) with
      | Some r =>
        match r.(sub_scope) with
        | Some _ =>
          <[Connection connection.(conn_connection_id) :=
            r <| toolset_ceilings :=
              match r.(toolset_ceilings) !! SALESFORCE_WRITE_TOOLSET with
              | Some _ => r.(toolset_ceilings)
              | None => <[SALESFORCE_WRITE_TOOLSET := LevelFull]> r.(toolset_ceilings)
              end |> ]> rules
        | None => rules
        end
      | None => rules
      end
    else rules) self.(rules) legacy.(connection_policies) |>.

(** A connection without settings of its own. *)
Definition blank (id : string) : McpConnectionPolicy :=
  {| conn_connection_id := id; conn_read_only := false; conn_allow_dangerous_sql := false;
     execution_mode_configured := false; execution_mode_policy_version := Some MCP_EXECUTION_POLICY_VERSION;
     database_scope := ScopeAll; allowed_databases := []; database_policies := []; allow_salesforce_dml := false |}.

(** The local variables of [to_v1]. *)
Record projection := {
  pr_connection_ids : option (list string);
  pr_group_ids : list string;
  pr_group_policies : list McpGroupPolicy;
  pr_connections : gmap string McpConnectionPolicy;
  pr_hidden : list string;
}.

(** The level of a rule in the first version: a ceiling is pinned against the
    strictest level the connection could inherit. *)
Definition pinned_level (self : McpAccessPolicy) (connection_id : string) (r : McpAccessRule) : option McpAccessLevel :=
  match r.(access), r.(ceiling) with
  | Some a, Some c => Some (level_min a c)
  | Some a, None => Some a
  | None, Some c => Some (level_min c (strictest_connection_level self connection_id))
  | None, None => None
  end.

Definition project_group (self : McpAccessPolicy) (id : string) (r : McpAccessRule) (s : projection) : projection :=
  {| pr_connection_ids := s.(pr_connection_ids);
     pr_group_ids :=
       if bool_decide (r.(visible) = Some true) && bool_decide (self.(visibility) = VisibleSelected)
       then s.(pr_group_ids) ++ [id] else s.(pr_group_ids);
     pr_group_policies :=
       match r.(access) with
       | Some l =>
         let '(ro, dangerous) := to_flags (level_max l LevelRead) in
         s.(pr_group_policies) ++ [{| grp_group_id := id; grp_read_only := ro; grp_allow_dangerous_sql := dangerous |}]
       | None => s.(pr_group_policies)
       end;
     pr_connections := s.(pr_connections);
     pr_hidden := s.(pr_hidden) |}.

(** The level of a connection with the ceilings of its toolsets. *)
Definition connection_level (self : McpAccessPolicy) (id : string) (r : McpAccessRule) : option McpAccessLevel :=
  let l := pinned_level self id r in
  match projected_toolset_ceiling self id with
  | Some c => Some (level_min (default (strictest_connection_level self id) l) c)
  | None => l
  end.

Definition project_connection (self : McpAccessPolicy) (id : string) (r : McpAccessRule) (policy : McpConnectionPolicy) :
    McpConnectionPolicy :=
  let '(ro, dangerous, configured) :=
    match connection_level self id r with
    | Some l => let '(ro, dangerous) := to_flags (level_max l LevelRead) in (ro, dangerous, true)
    | None => (policy.(conn_read_only), policy.(conn_allow_dangerous_sql), policy.(execution_mode_configured))
    end in
  {| conn_connection_id := policy.(conn_connection_id);
     conn_read_only := ro;
     conn_allow_dangerous_sql := dangerous;
     execution_mode_configured := configured;
     execution_mode_policy_version := policy.(execution_mode_policy_version);
     database_scope :=
       match default SubAll r.(sub_scope) with SubAll => ScopeAll | SubSelected => ScopeSelected | SubNone => ScopeNone end;
     allowed_databases := policy.(allowed_databases);
     database_policies := policy.(database_policies);
     allow_salesforce_dml :=
       match r.(toolset_ceilings) !! SALESFORCE_WRITE_TOOLSET with Some c => level_lt LevelRead c | None => false end && negb ro |}.

Definition project_connection_rule (self : McpAccessPolicy) (id : string) (r : McpAccessRule) (s : projection) : projection :=
  let hidden := if denies r then s.(pr_hidden) ++ [id] else s.(pr_hidden) in
  {| pr_connection_ids :=
       if denies r then s.(pr_connection_ids)
       else if bool_decide (r.(visible) = Some true) then (fun ids => ids ++ [id]) <$> s.(pr_connection_ids)
       else s.(pr_connection_ids);
     pr_group_ids := s.(pr_group_ids);
     pr_group_policies := s.(pr_group_policies);
     pr_connections := <[id := project_connection self id r (default (blank id) (s.(pr_connections) !! id))]> s.(pr_connections);
     pr_hidden :=
       if bool_decide (connection_level self id r = Some LevelNone) && negb (bool_decide (id ∈ hidden))
       then hidden ++ [id] else hidden |}.

(** A rule of a sub-scope: a database, or a kind the first version cannot
    express, which denies the databases of the connection when it restricts. *)
Definition project_scope (self : McpAccessPolicy) (connection_id scope value : string) (r : McpAccessRule)
    (policy : McpConnectionPolicy) : McpConnectionPolicy :=
  if negb (String.eqb scope "database") then
    if bool_decide (r.(visible) = Some false) || bool_decide (is_Some r.(access)) || bool_decide (is_Some r.(ceiling))
    then {| conn_connection_id := policy.(conn_connection_id);
            conn_read_only := policy.(conn_read_only);
            conn_allow_dangerous_sql := policy.(conn_allow_dangerous_sql);
            execution_mode_configured := policy.(execution_mode_configured);
            execution_mode_policy_version := policy.(execution_mode_policy_version);
            database_scope := ScopeNone;
            allowed_databases := policy.(allowed_databases);
            database_policies := policy.(database_policies);
            allow_salesforce_dml := policy.(allow_salesforce_dml) |}
    else policy
  else
    let l := (fun l => match projected_toolset_ceiling self connection_id with
                       | Some c => level_min l c | None => l end) <$> pinned_level self connection_id r in
    {| conn_connection_id := policy.(conn_connection_id);
       conn_read_only := policy.(conn_read_only);
       conn_allow_dangerous_sql := policy.(conn_allow_dangerous_sql);
       execution_mode_configured := policy.(execution_mode_configured);
       execution_mode_policy_version := policy.(execution_mode_policy_version);
       database_scope := policy.(database_scope);
       allowed_databases :=
         if bool_decide (r.(visible) = Some true) && negb (denies r)
         then policy.(allowed_databases) ++ [value] else policy.(allowed_databases);
       database_policies :=
         match l with
         | Some l =>
           if denies r then policy.(database_policies)
           else let '(ro, dangerous) := to_flags (level_max l LevelRead) in
             policy.(database_policies) ++
               [{| db_database_name := value; db_read_only := ro; db_allow_dangerous_sql := dangerous |}]
         | None => policy.(database_policies)
         end;
       allow_salesforce_dml := policy.(allow_salesforce_dml) |}.

Definition project_step (self : McpAccessPolicy) (s : projection) (e : McpRuleTarget * McpAccessRule) : projection :=
  match e.1 with
  | Group id => project_group self id e.2 s
  | Connection id => project_connection_rule self id e.2 s
  | Scope connection_id scope value =>
    {| pr_connection_ids := s.(pr_connection_ids);
       pr_group_ids := s.(pr_group_ids);
       pr_group_policies := s.(pr_group_policies);
       pr_connections :=
         <[connection_id := project_scope self connection_id scope value e.2
             (default (blank connection_id) (s.(pr_connections) !! connection_id))]> s.(pr_connections);
       pr_hidden := s.(pr_hidden) |}
  end.

(** [All] with rules on databases becomes [Selected]. *)
Definition promote_scope (self : McpAccessPolicy) (policy : McpConnectionPolicy) : McpConnectionPolicy :=
  let has_database_rules := existsb (fun e => is_scope_of policy.(conn_connection_id) "database" e.1) (entries self.(rules)) in
  match policy.(database_scope) with
  | ScopeAll =>
    if has_database_rules then
      {| conn_connection_id := policy.(conn_connection_id);
         conn_read_only := policy.(conn_read_only);
         conn_allow_dangerous_sql := policy.(conn_allow_dangerous_sql);
         execution_mode_configured := policy.(execution_mode_configured);
         execution_mode_policy_version := policy.(execution_mode_policy_version);
         database_scope := ScopeSelected;
         allowed_databases := policy.(allowed_databases);
         database_policies :=
           List.filter (fun d => bool_decide (d.(db_database_name) ∈ policy.(allowed_databases))) policy.(database_policies);
         allow_salesforce_dml := policy.(allow_salesforce_dml) |}
    else policy
  | _ => policy
  end.

Definition lock_down (policy : McpConnectionPolicy) : McpConnectionPolicy :=
  {| conn_connection_id := policy.(conn_connection_id);
     conn_read_only := true;
     conn_allow_dangerous_sql := false;
     execution_mode_configured := true;
     execution_mode_policy_version := policy.(execution_mode_policy_version);
     database_scope := ScopeNone;
     allowed_databases := [];
     database_policies := [];
     allow_salesforce_dml := false |}.

Definition restricted_ancestors (self : McpAccessPolicy) : bool :=
  bool_decide (self.(default_access) = LevelNone) || existsb (fun e => is_group e.1 && denies e.2) (entries self.(rules)).

(** The connections the strict allowlist keeps. *)
Definition explicitly_visible (self : McpAccessPolicy) (hidden : list string) : list string :=
  omap (fun e =>
    match e.1 with
    | Connection id =>
      if bool_decide (e.2.(visible) = Some true) && negb (bool_decide (id ∈ hidden)) &&
         (negb (restricted_ancestors self) || match e.2.(access) with Some l => level_lt LevelNone l | None => false end)
      then Some id else None
    | _ => None
    end) (entries self.(rules)).

Definition project_rules (self : McpAccessPolicy) : projection :=
  foldl (project_step self)
    {| pr_connection_ids := if bool_decide (self.(visibility) = VisibleSelected) then Some [] else None;
       pr_group_ids := []; pr_group_policies := []; pr_connections := ∅; pr_hidden := [] |}
    (entries self.(rules)).

Definition lock_hidden (hidden : list string) (connections : gmap string McpConnectionPolicy) : gmap string McpConnectionPolicy :=
  foldl (fun connections id => entry_update (blank id) id lock_down connections) connections hidden.

Definition project (self : McpAccessPolicy) : McpGlobalPolicy :=
  let s := project_rules self in
  let connections := lock_hidden s.(pr_hidden) (promote_scope self <$> s.(pr_connections)) in
  let strict := negb (bool_decide (s.(pr_hidden) = [])) || restricted_ancestors self in
  let '(ro, dangerous) := to_flags (level_max self.(default_access) LevelRead) in
  {| read_only := ro || bool_decide (self.(default_access) = LevelNone);
     allow_dangerous_sql := dangerous;
     prompt_high_risk_sql := bool_decide (self.(confirm) = ConfirmFull);
     call_confirmation := if bool_decide (self.(confirm) = ConfirmHighRisk) then Some self.(confirm) else None;
     allowed_connection_ids :=
       if strict then Some (explicitly_visible self s.(pr_hidden))
       else List.filter (fun id => negb (bool_decide (id ∈ s.(pr_hidden)))) <$> s.(pr_connection_ids);
     allowed_group_ids := if strict then [] else s.(pr_group_ids);
     allowed_tool_names := self.(acc_allowed_tool_names);
     connection_policies := map snd (btree_entries String.le connections);
     group_policies := s.(pr_group_policies);
     query_timeout_secs := self.(acc_query_timeout_secs);
     plugin_tools_mode := self.(acc_plugin_tools_mode) |}.

Definition to_v1 (self : McpAccessPolicy) : McpGlobalPolicy := V1.normalized (project self).

(** ** Rules only the second version can express *)

Definition keep_scope_modes (previous : RuleMap) (rules : RuleMap) : RuleMap :=
  foldl (fun rules e =>
    match e.1, e.2.(sub_scope) with
    | Connection id, Some mode =>
      let non_database_scope :=
        match e.2.(sub_scope_kind) with Some kind => negb (String.eqb kind "database") | None => false end ||
        existsb (fun e' => match e'.1 with Scope c s _ => String.eqb c id && negb (String.eqb s "database") | _ => false end)
          (entries previous) in
      if non_database_scope
      then rule_entry e.1 (fun r => r <| sub_scope := Some mode |> <| sub_scope_kind := e.2.(sub_scope_kind) |>) rules
      else rules
    | _, _ => rules
    end) rules (entries previous).

Definition keep_ceilings (other : gmap string McpAccessLevel) (ceilings : gmap string McpAccessLevel) : gmap string McpAccessLevel :=
  foldl (fun ceilings tc =>
    if String.eqb tc.1 SALESFORCE_WRITE_TOOLSET then ceilings
    else <[tc.1 := match ceilings !! tc.1 with Some current => level_min current tc.2 | None => tc.2 end]> ceilings)
    ceilings (btree_entries String.le other).

Definition keep_toolset_ceilings (previous : RuleMap) (rules : RuleMap) : RuleMap :=
  foldl (fun rules e =>
    match e.1 with
    | Connection _ =>
      if forallb (fun tc => String.eqb tc.1 SALESFORCE_WRITE_TOOLSET) (btree_entries String.le e.2.(toolset_ceilings)) then rules
      else rule_entry e.1 (fun r => r <| toolset_ceilings := keep_ceilings e.2.(toolset_ceilings) r.(toolset_ceilings) |>) rules
    | _ => rules
    end) rules (entries previous).

Definition keep_scope_rules (previous : RuleMap) (rules : RuleMap) : RuleMap :=
  foldl (fun rules e =>
    match e.1 with
    | Scope _ scope _ => if String.eqb scope "database" then rules else <[e.1 := e.2]> rules
    | _ => rules
    end) rules (entries previous).

Definition with_v2_only_rules_from (self previous : McpAccessPolicy) : McpAccessPolicy :=
  self <| rules := keep_scope_rules previous.(rules)
    (keep_toolset_ceilings previous.(rules) (keep_scope_modes previous.(rules) self.(rules))) |>.

End V2.

(** ** The saved policies

    The row of [app_settings] is a JSON text, [None] while it does not exist.
    Every operation runs under the storage lock and gives its result with the
    row it leaves; [written] is the outcome of the SQL statement that writes. *)
Module Store.
Import V1 V2.

Notation Settings := (list (string * json)).
Definition Row : Type := option string.

Definition MCP_GLOBAL_POLICY_KEY : string := "mcp_global_policy".
Definition MCP_ACCESS_POLICY_KEY : string := "mcp_access_policy".

(** The access policy as it is serialised: the rules are a list ([rule_list]). *)
Record WirePolicy := {
  w_version : Z;
  w_default_access : McpAccessLevel;
  w_confirm : McpConfirmPolicy;
  w_visibility : McpVisibilityMode;
  w_rules : list (McpRuleTarget * McpAccessRule);
  w_allowed_tool_names : option (list string);
  w_query_timeout_secs : option Z;
  w_plugin_tools_mode : McpPluginToolsMode;
}.

(** What [serde_json] derives for the records, and its texts. *)
Class PolicySerde := {
  v1_to_value : McpGlobalPolicy -> result json string;
  v1_from_value : json -> result McpGlobalPolicy string;
  wire_to_value : WirePolicy -> result json string;
  wire_from_value : json -> result WirePolicy string;
  settings_to_string : Settings -> result string string;
  settings_from_str : string -> result Settings string;
  value_from_str : string -> result json string;
}.

(** What is written is read back, and a text is an object for both readers. *)
Class PolicySerdeLaws `{PolicySerde} := {
  v1_round_trip p v : v1_to_value p = Ok v -> v1_from_value v = Ok p;
  wire_round_trip p v : wire_to_value p = Ok v -> wire_from_value v = Ok p;
  settings_round_trip m s : settings_to_string m = Ok s -> settings_from_str s = Ok m;
  settings_value s m : value_from_str s = Ok (JObject m) <-> settings_from_str s = Ok m;
}.

Section store.
Context `{PolicySerde}.

Definition map_err {A} (f : string -> string) (r : result A string) : result A string :=
  match r with Ok a => Ok a | Err e => Err (f e) end.

Definition v2_to_value (p : McpAccessPolicy) : result json string :=
  wire_to_value {| w_version := p.(version); w_default_access := p.(default_access); w_confirm := p.(confirm);
    w_visibility := p.(visibility); w_rules := serialize_rules p.(rules); w_allowed_tool_names := p.(acc_allowed_tool_names);
    w_query_timeout_secs := p.(acc_query_timeout_secs); w_plugin_tools_mode := p.(acc_plugin_tools_mode) |}.

Definition v2_from_value (v : json) : result McpAccessPolicy string :=
  let? w := wire_from_value v in
  Ok {| version := w.(w_version); default_access := w.(w_default_access); confirm := w.(w_confirm);
    visibility := w.(w_visibility); rules := deserialize_rules w.(w_rules); acc_allowed_tool_names := w.(w_allowed_tool_names);
    acc_query_timeout_secs := w.(w_query_timeout_secs); acc_plugin_tools_mode := w.(w_plugin_tools_mode) |}.

Definition saved_mcp_access_policy (settings : Settings) : result (option McpAccessPolicy) string :=
  match obj_get MCP_ACCESS_POLICY_KEY settings with
  | None => Ok None
  | Some value =>
    let? access := map_err (fun e => "invalid MCP access policy: " +:+ e) (v2_from_value value) in
    if negb (access.(version) =? MCP_ACCESS_POLICY_VERSION)%Z
    then Err ("invalid MCP access policy version: " +:+ untxt (decimal access.(version)))
    else
      let legacy := obj_get MCP_GLOBAL_POLICY_KEY settings ≫= (fun value =>
        match v1_from_value value with Ok p => Some p | Err _ => None end) in
      Ok (Some (match legacy with
                | Some legacy => restore_legacy_salesforce_opt_ins access (normalized legacy)
                | None => access
                end))
  end.

Definition app_settings_map_from_conn (row : Row) : result Settings string :=
  match row with
  | Some json => map_err (fun e => "invalid app settings JSON: " +:+ e) (settings_from_str json)
  | None => Ok []
  end.

Definition write_app_settings_map (written : result unit string) (settings : Settings) (row : Row) : result unit string * Row :=
  match settings_to_string settings with
  | Err e => (Err e, row)
  | Ok json => match written with Ok _ => (Ok tt, Some json) | Err e => (Err e, row) end
  end.

Definition load_app_settings_json (row : Row) : result Settings string :=
  match row with
  | None => Ok []
  | Some json =>
    let? value := value_from_str json in
    match value with JObject map => Ok map | _ => Err "app settings JSON must be an object" end
  end.

Record McpGlobalPolicyState := { configured : bool; policy : McpGlobalPolicy }.

(** [McpGlobalPolicy::default()]. *)
Definition default_global_policy : McpGlobalPolicy :=
  {| read_only := false; allow_dangerous_sql := false; prompt_high_risk_sql := false; call_confirmation := None;
     allowed_connection_ids := None; allowed_group_ids := []; allowed_tool_names := None; connection_policies := [];
     group_policies := []; query_timeout_secs := None; plugin_tools_mode := PluginFlat |}.

Definition unavailable {A} (r : result A string) : result A string := map_err (fun e => "MCP_POLICY_UNAVAILABLE: " +:+ e) r.

Definition load_mcp_global_policy (row : Row) : result McpGlobalPolicyState string :=
  unavailable
    match row with
    | None => Ok {| configured := false; policy := default_global_policy |}
    | Some json =>
      let? settings := map_err (fun e => "invalid app settings JSON: " +:+ e) (settings_from_str json) in
      match obj_get MCP_GLOBAL_POLICY_KEY settings with
      | None => Ok {| configured := false; policy := default_global_policy |}
      | Some value =>
        let? policy := map_err (fun e => "invalid MCP policy: " +:+ e) (v1_from_value value) in
        Ok {| configured := true; policy := normalized policy |}
      end
    end.

Definition contains_key (key : string) (settings : Settings) : bool := bool_decide (is_Some (obj_get key settings)).

Definition load_enforced_mcp_policy (row : Row) : result McpGlobalPolicyState string :=
  let? settings := unavailable (load_app_settings_json row) in
  let? saved := unavailable (saved_mcp_access_policy settings) in
  match saved with
  | None => load_mcp_global_policy row
  | Some access =>
    let p := to_v1 access in
    Ok {| configured := contains_key MCP_GLOBAL_POLICY_KEY settings;
          policy :=
            {| read_only := p.(read_only); allow_dangerous_sql := p.(allow_dangerous_sql);
               prompt_high_risk_sql := p.(prompt_high_risk_sql); call_confirmation := p.(call_confirmation);
               allowed_connection_ids := p.(allowed_connection_ids); allowed_group_ids := p.(allowed_group_ids);
               allowed_tool_names := p.(allowed_tool_names); connection_policies := p.(connection_policies);
               group_policies := p.(group_policies); query_timeout_secs := p.(query_timeout_secs);
               plugin_tools_mode := access.(acc_plugin_tools_mode) |} |}
  end.

Definition load_mcp_access_policy (row : Row) : result McpAccessPolicy string :=
  let? settings := unavailable (load_app_settings_json row) in
  let? saved := unavailable (saved_mcp_access_policy settings) in
  match saved with
  | Some access => Ok access
  | None => let? state := load_mcp_global_policy row in Ok (from_v1 state.(policy))
  end.

(** The policies of one save are written together. *)
Definition write_policies (written : result unit string) (settings : Settings) (access : json) (projected : json) (row : Row) :
    result unit string * Row :=
  write_app_settings_map written
    (obj_insert MCP_ACCESS_POLICY_KEY access (obj_insert MCP_GLOBAL_POLICY_KEY projected settings)) row.

(** Deny everything: no connection is visible and no tool is allowed. *)
Definition recovery_policy : McpAccessPolicy :=
  {| version := MCP_ACCESS_POLICY_VERSION; default_access := LevelRead; confirm := ConfirmOff; visibility := VisibleSelected;
     rules := ∅; acc_allowed_tool_names := Some []; acc_query_timeout_secs := None; acc_plugin_tools_mode := PluginFlat |}.

Definition get_or_null (key : string) (settings : Settings) : json := default JNull (obj_get key settings).

Definition reset_invalid_mcp_access_policy (uuid : string) (written : result unit string) (row : Row) : result unit string * Row :=
  let '(r, row) :=
    match app_settings_map_from_conn row with
    | Err e => (Err e, row)
    | Ok settings =>
      if is_ok (saved_mcp_access_policy settings) then (Err "MCP policy is valid; recovery is not required", row)
      else
        let backup := JObject [("v1", get_or_null MCP_GLOBAL_POLICY_KEY settings); ("v2", get_or_null MCP_ACCESS_POLICY_KEY settings)] in
        let settings := obj_insert ("mcp_policy_recovery_backup_" +:+ uuid) backup settings in
        match v1_to_value (to_v1 recovery_policy), v2_to_value recovery_policy with
        | Ok projected, Ok access => write_policies written settings access projected row
        | Err e, _ | _, Err e => (Err e, row)
        end
    end in
  (unavailable r, row).

Definition save_mcp_access_policy (policy : McpAccessPolicy) (written : result unit string) (row : Row) : result unit string * Row :=
  match v2_to_value policy, v1_to_value (to_v1 policy) with
  | Ok access, Ok projected =>
    let '(r, row) :=
      match app_settings_map_from_conn row with
      | Err e => (Err e, row)
      | Ok settings =>
        write_app_settings_map written
          (obj_insert MCP_GLOBAL_POLICY_KEY projected (obj_insert MCP_ACCESS_POLICY_KEY access settings)) row
      end in
    (unavailable r, row)
  | Err e, _ | _, Err e => (Err ("MCP_POLICY_UNAVAILABLE: " +:+ e), row)
  end.

Definition normalized_setting_id (value label : string) : result string string :=
  let trimmed := trim_str value in
  if String.eqb trimmed "" || (256 <? length (chars (txt trimmed))) then Err ("A valid " +:+ label +:+ " is required")
  else Ok trimmed.

(** The saved access policy, or the translation of the saved first version. *)
Definition current_access (settings : Settings) : result McpAccessPolicy string :=
  let? saved := saved_mcp_access_policy settings in
  match saved with
  | Some access => Ok access
  | None =>
    match obj_get MCP_GLOBAL_POLICY_KEY settings with
    | Some value => let? p := v1_from_value value in Ok (from_v1 p)
    | None => Ok (from_v1 default_global_policy)
    end
  end.

Definition set_scope_rule (access : McpAccessPolicy) (connection_id kind : string) (value : option string) (rule : option McpAccessRule)
    (mode : option McpSubScopeMode) : McpAccessPolicy :=
  let rs := match value with
            | Some value =>
              let target := Scope connection_id kind value in
              match rule with Some r => <[target := r]> access.(rules) | None => delete target access.(rules) end
            | None => access.(rules)
            end in
  access <| rules := rule_entry (Connection connection_id) (fun r =>
      let r := r <| sub_scope_kind := Some kind |> in
      match mode with Some m => r <| sub_scope := Some m |> | None => r end) rs |>.

Definition set_mcp_plugin_scope_rule (connection_id kind : string) (value : option string) (rule : option McpAccessRule)
    (mode : option McpSubScopeMode) (written : result unit string) (row : Row) : result McpAccessPolicy string * Row :=
  if String.eqb (trim_str kind) "" || String.eqb (trim_str kind) "database"
  then (Err "A plugin scope kind other than `database` is required", row)
  else match normalized_setting_id connection_id "connection id" with
  | Err e => (Err e, row)
  | Ok connection_id =>
    let kind := trim_str kind in
    let value := value ≫= (fun v => if String.eqb (trim_str v) "" then None else Some (trim_str v)) in
    let '(r, row) :=
      match (let? settings := app_settings_map_from_conn row in
             let? access := current_access settings in
             let access := set_scope_rule access connection_id kind value rule mode in
             let? a := v2_to_value access in
             let? p := v1_to_value (to_v1 access) in
             Ok (access, obj_insert MCP_GLOBAL_POLICY_KEY p (obj_insert MCP_ACCESS_POLICY_KEY a settings))) with
      | Err e => (Err e, row)
      | Ok (access, settings) =>
        let '(r, row) := write_app_settings_map written settings row in
        (match r with Ok _ => Ok access | Err e => Err e end, row)
      end in
    (unavailable r, row)
  end.

#[global] Instance McpPluginToolsMode_eq_dec : EqDecision McpPluginToolsMode.
Proof. solve_decision. Defined.
#[global] Instance McpAccessPolicy_eq_dec : EqDecision McpAccessPolicy.
Proof. solve_decision. Defined.

Definition save_mcp_global_policy (policy : McpGlobalPolicy) (written : result unit string) (row : Row) : result unit string * Row :=
  let rebuilt := from_v1 policy in
  let draft := normalized policy in
  let '(r, row) :=
    match (let? settings := app_settings_map_from_conn row in
           let? previous := saved_mcp_access_policy settings in
           let access := match previous with Some previous => with_v2_only_rules_from rebuilt previous | None => rebuilt end in
           let policy := if bool_decide (access = rebuilt) then draft else to_v1 access in
           let? p := v1_to_value policy in
           let? a := v2_to_value access in
           Ok (obj_insert MCP_ACCESS_POLICY_KEY a (obj_insert MCP_GLOBAL_POLICY_KEY p settings))) with
    | Err e => (Err e, row)
    | Ok settings => write_app_settings_map written settings row
    end in
  (unavailable r, row).

(** [Map::remove]: the last member takes the place of the removed one. *)
Definition obj_remove (key : string) (m : Settings) : Settings :=
  match list_find (fun kv => kv.1 = key) m with
  | Some (i, _) => match last m with Some l => take (length m - 1) (<[i := l]> m) | None => m end
  | None => m
  end.

Definition dedicated_keys : list string :=
  ["app_appearance"; MCP_GLOBAL_POLICY_KEY; MCP_ACCESS_POLICY_KEY; "web_mcp_settings"; "max_retries"; "sql_file_upload_max_mb";
   "history_retention_limit"; "ai_plugin_tool_plugins"; "plugin_data_grants"; "plugin_mcp_grants"; "mcp_history_retention_limit"].

(** Other settings are saved from a copy that may be out of date: the keys with
    writers of their own keep their latest values. *)
Definition save_app_settings_json (settings : Settings) (written : result unit string) (row : Row) : result unit string * Row :=
  let settings := foldl (fun settings key => obj_remove key settings) settings dedicated_keys in
  match (match row with
         | Some json =>
           let? current := map_err (fun e => "invalid app settings JSON: " +:+ e) (settings_from_str json) in
           Ok (foldl (fun settings key =>
             match obj_get key current with Some value => obj_insert key value settings | None => settings end) settings dedicated_keys)
         | None => Ok settings
         end) with
  | Err e => (Err e, row)
  | Ok settings => write_app_settings_map written settings row
  end.
End store.
End Store.
