(* ===== verification/McpAccessSpec.v ===== *)
(** * The access levels agree with the policies they replace

    Theorems about McpAccess.v.  The second version of the policy reproduces
    every decision of the first ([v2_reproduces_every_v1_decision]); projected
    back it is never wider for rules with trimmed names ([projection_is_never_wider]) and, for rules of the
    current version, exact; the settings keep the two in step
    ([saved_policies_agree]). *)

From S2P Require Import Prelude Json Containers AgentPolicy McpAccess.
Import McpPolicy V1 V2.

(** ** Lists indexed by a name *)

Section named.
Context {A : Type} (name : A -> string).

Definition find_named (c : string) (l : list A) : option A := List.find (fun a => String.eqb (name a) c) l.

Lemma find_named_Some c l a : NoDup (map name l) -> find_named c l = Some a <-> a ∈ l /\ name a = c.
Proof.
  intros Hl. unfold find_named. split.
  - intros [Ha E%String.eqb_eq]%List.find_some. by rewrite list_elem_of_In.
  - intros [Ha <-]. induction l as [|b l IH]; [by apply not_elem_of_nil in Ha|]. simpl in *.
    apply NoDup_cons in Hl as [Hb Hl]. destruct (String.eqb_spec (name b) (name a)) as [E|Hn].
    + apply elem_of_cons in Ha as [->|Ha]; [done|]. destruct Hb. rewrite E. by apply list_elem_of_In, in_map, list_elem_of_In.
    + apply elem_of_cons in Ha as [->|Ha]; [done|]. by apply IH.
Qed.

Lemma find_named_None c l : find_named c l = None <-> forall a, a ∈ l -> name a <> c.
Proof.
  unfold find_named. split.
  - intros H a Ha%list_elem_of_In. by apply String.eqb_neq, (List.find_none _ _ H).
  - intros H. induction l as [|b l IH]; [done|]. simpl.
    destruct (String.eqb_spec (name b) c) as [E|Hn]; [by destruct (H b (list_elem_of_here _ _))|].
    apply IH. intros a Ha. apply H. by right.
Qed.

Lemma find_named_filter (q : string -> bool) c l :
  find_named c (List.filter (fun a => q (name a)) l) = if q c then find_named c l else None.
Proof.
  unfold find_named. induction l as [|a l IH]; simpl; [by destruct (q c)|]. destruct (q (name a)) eqn:Eq; simpl; rewrite IH.
  - destruct (String.eqb_spec (name a) c) as [<-|]; [by rewrite Eq|done].
  - destruct (String.eqb_spec (name a) c) as [<-|]; [by rewrite Eq|done].
Qed.

(** The values of a map under their own names, in any order and with a change
    that keeps the name. *)
Lemma find_values (R : relation A) `{!forall x y, Decision (R x y)} (close : A -> A) (m : gmap string A) c :
  (forall a, name (close a) = name a) -> map_Forall (fun k a => name a = k) m ->
  find_named c (map close (merge_sort R (map snd (map_to_list m)))) = close <$> m !! c.
Proof.
  intros Hclose Hm. unfold find_named.
  replace (List.find _ _) with (close <$> List.find (fun a => String.eqb (name a) c) (merge_sort R (map snd (map_to_list m)))).
  2: { induction (merge_sort R _) as [|b l IH]; [done|]. simpl. rewrite Hclose. by destruct (String.eqb (name b) c). }
  f_equal. apply option_eq. intros a. change (List.find _ ?l) with (find_named c l). rewrite find_named_Some.
  - rewrite merge_sort_Permutation, list_elem_of_In, in_map_iff. split.
    + intros [([k v] & <- & Hi%list_elem_of_In%elem_of_map_to_list) <-]. simpl. by rewrite (Hm _ _ Hi).
    + intros Ha. split; [|by apply Hm]. exists (c, a). split; [done|]. by apply list_elem_of_In, elem_of_map_to_list.
  - rewrite (Permutation_map _ (merge_sort_Permutation R _)), map_map.
    replace (map _ (map_to_list m)) with (map_to_list m).*1; [apply NoDup_fst_map_to_list|].
    apply map_ext_in. intros [k v] Hi%list_elem_of_In%elem_of_map_to_list. simpl. symmetry. by apply Hm.
Qed.

Lemma values_named_NoDup (R : relation A) `{!forall x y, Decision (R x y)} (close : A -> A) (m : gmap string A) :
  (forall a, name (close a) = name a) -> map_Forall (fun k a => name a = k) m ->
  NoDup (map name (map close (merge_sort R (map snd (map_to_list m))))).
Proof.
  intros Hclose Hm. rewrite map_map, (map_ext _ _ Hclose), (Permutation_map _ (merge_sort_Permutation R _)), map_map.
  replace (map _ (map_to_list m)) with (map_to_list m).*1; [apply NoDup_fst_map_to_list|].
  apply map_ext_in. intros [k v] Hi%list_elem_of_In%elem_of_map_to_list. simpl. symmetry. by apply Hm.
Qed.
End named.

(** ** Canonical policies of the first version *)

(** Database policies as normalisation leaves them. *)
Definition closed_databases (l : list McpDatabasePolicy) : Prop :=
  NoDup (map db_database_name l) /\
  Forall (fun d => d.(db_read_only) = true -> d.(db_allow_dangerous_sql) = false) l.

Record canonical_connection (r : McpConnectionPolicy) : Prop := {
  cc_name : wf_name r.(conn_connection_id);
  cc_flags : r.(conn_read_only) = true -> r.(conn_allow_dangerous_sql) = false /\ r.(allow_salesforce_dml) = false;
  cc_databases : Forall wf_name r.(allowed_databases);
  cc_policies : closed_databases r.(database_policies);
  cc_listed : Forall (fun d => d.(db_database_name) ∈ r.(allowed_databases)) r.(database_policies);
  cc_scope : r.(database_scope) <> ScopeSelected -> r.(allowed_databases) = [] /\ r.(database_policies) = [];
}.

Record canonical (p : McpGlobalPolicy) : Prop := {
  can_connections : NoDup (map conn_connection_id p.(connection_policies));
  can_connection : Forall canonical_connection p.(connection_policies);
  can_groups : NoDup (map grp_group_id p.(group_policies));
  can_group : Forall (fun g => wf_name g.(grp_group_id) /\ (g.(grp_read_only) = true -> g.(grp_allow_dangerous_sql) = false))
                p.(group_policies);
  can_flags : p.(read_only) = true -> p.(allow_dangerous_sql) = false;
  can_ids : Forall wf_name (default [] p.(allowed_connection_ids));
  can_group_ids : Forall wf_name p.(allowed_group_ids);
  can_no_ids : p.(allowed_connection_ids) = None -> p.(allowed_group_ids) = [];
}.

Lemma foldl_map_Forall {A V} (P : string -> V -> Prop) (f : gmap string V -> A -> gmap string V) l m :
  (forall m a, map_Forall P m -> map_Forall P (f m a)) -> map_Forall P m -> map_Forall P (foldl f m l).
Proof. intros Hf. revert m. induction l as [|a l IH]; intros m Hm; simpl; [done|]. apply IH, Hf, Hm. Qed.

Lemma database_names_kept a : db_database_name (close_database_policy a) = db_database_name a.
Proof. unfold close_database_policy. by case_match. Qed.

Lemma insert_database_named m a :
  map_Forall (fun k d => db_database_name d = k) m -> map_Forall (fun k d => db_database_name d = k) (insert_database_policy m a).
Proof.
  intros Hm. unfold insert_database_policy. case_match; [done|]. apply map_Forall_insert_2; [|done].
  destruct (m !! _) as [current|] eqn:E; simpl; [by apply Hm|done].
Qed.

Lemma normalize_databases_closed l : closed_databases (normalize_mcp_database_policies l).
Proof.
  unfold normalize_mcp_database_policies. split.
  - apply values_named_NoDup; [apply database_names_kept|].
    apply foldl_map_Forall; [apply insert_database_named|]. apply map_Forall_empty.
  - apply Forall_map, Forall_forall. intros d _. simpl. unfold close_database_policy. by destruct (db_read_only d) eqn:E; [|rewrite E].
Qed.

Lemma connection_names_kept a : conn_connection_id (close_connection_policy a) = conn_connection_id a.
Proof. unfold close_connection_policy. by case_match. Qed.

Definition kept_connection (k : string) (r : McpConnectionPolicy) : Prop :=
  conn_connection_id r = k /\ wf_name k /\ closed_databases r.(database_policies).

Lemma insert_connection_kept m a : map_Forall kept_connection m -> map_Forall kept_connection (insert_connection_policy m a).
Proof.
  intros Hm. unfold insert_connection_policy. destruct (String.eqb_spec (trim_str (conn_connection_id a)) "") as [|Hn]; [done|].
  apply map_Forall_insert_2; [|done]. pose proof (wf_trim _ Hn) as Hwf. destruct (m !! _) as [current|] eqn:E.
  - destruct (Hm _ _ E) as (Hid & _ & _). unfold merge_connection_policy. repeat case_match; simpl; (split_and!; [done..|]);
      apply normalize_databases_closed.
  - split_and!; [done..|]. apply normalize_databases_closed.
Qed.

Lemma connections_kept l : map_Forall kept_connection (foldl insert_connection_policy ∅ l).
Proof. apply foldl_map_Forall; [apply insert_connection_kept|apply map_Forall_empty]. Qed.

Lemma closed_filter p l : closed_databases l -> closed_databases (List.filter p l).
Proof.
  intros [Hn Hf]. split; [by apply NoDup_map_filter|]. rewrite Forall_forall in *. intros d [Hd _]%elem_of_bool_filter. by apply Hf.
Qed.

Lemma close_connection_canonical k r : kept_connection k r -> canonical_connection (close_connection_policy r).
Proof.
  intros (<- & Hwf & Hdb). unfold close_connection_policy. destruct (database_scope r) eqn:E; split; simpl; try done;
    try (intros ->; done); try apply trimmed_names_wf; try (by split; [apply NoDup_nil_2|]); try (by apply closed_filter).
  apply Forall_forall. intros d [_ Hd%bool_decide_eq_true]%elem_of_bool_filter. done.
Qed.

Lemma group_names_kept a : grp_group_id (close_group_policy a) = grp_group_id a.
Proof. unfold close_group_policy. by case_match. Qed.

Definition kept_group (k : string) (g : McpGroupPolicy) : Prop := grp_group_id g = k /\ wf_name k.

Lemma groups_kept l : map_Forall kept_group (foldl insert_group_policy ∅ l).
Proof.
  apply foldl_map_Forall; [|apply map_Forall_empty]. intros m a Hm. unfold insert_group_policy.
  destruct (String.eqb_spec (trim_str (grp_group_id a)) "") as [|Hn]; [done|].
  apply map_Forall_insert_2; [|done]. pose proof (wf_trim _ Hn) as Hwf.
  destruct (m !! _) as [current|] eqn:E; [|done]. by destruct (Hm _ _ E).
Qed.

Lemma elem_of_values {V W} (R : relation V) `{!forall x y, Decision (R x y)} (f : V -> W) (m : gmap string V) w :
  w ∈ map f (merge_sort R (map snd (map_to_list m))) -> exists k v, m !! k = Some v /\ w = f v.
Proof.
  intros (v & <- & Hv%list_elem_of_In)%list_elem_of_In%in_map_iff. rewrite merge_sort_Permutation in Hv.
  apply list_elem_of_In, in_map_iff in Hv as ([k u] & <- & Hk%list_elem_of_In%elem_of_map_to_list). eauto.
Qed.

(** Normalisation gives a canonical policy, whatever it is given. *)
Lemma normalized_canonical p : canonical (normalized p).
Proof.
  unfold normalized. split; simpl.
  - apply values_named_NoDup; [apply connection_names_kept|]. eapply map_Forall_impl; [apply connections_kept|]. by intros k r [? _].
  - apply Forall_forall. intros r (k & v & Hk & ->)%elem_of_values. eapply close_connection_canonical, connections_kept, Hk.
  - apply values_named_NoDup; [apply group_names_kept|]. eapply map_Forall_impl; [apply groups_kept|]. by intros k r [? _].
  - apply Forall_forall. intros r (k & v & Hk & ->)%elem_of_values. destruct (groups_kept _ _ _ Hk) as [E Hwf].
    rewrite group_names_kept, E. split; [done|]. unfold close_group_policy. by destruct (grp_read_only v) eqn:Er; [|rewrite Er].
  - by intros ->.
  - destruct (allowed_connection_ids p); [apply trimmed_names_wf|constructor].
  - destruct (allowed_connection_ids p); [apply trimmed_names_wf|constructor].
  - by destruct (allowed_connection_ids p).
Qed.

(** ** The rules of a translated policy *)

(** Loops of updates at [target a]. *)
Lemma foldl_rule_other {A} (target : A -> McpRuleTarget) (f : A -> McpAccessRule -> McpAccessRule) l (m : RuleMap) t :
  (forall a, a ∈ l -> target a <> t) -> foldl (fun m a => rule_entry (target a) (f a) m) m l !! t = m !! t.
Proof.
  revert m. induction l as [|a l IH]; intros m Hl; simpl; [done|]. rewrite IH by (intros b Hb; apply Hl; by right).
  unfold rule_entry. rewrite lookup_entry_update, decide_False; [done|]. apply Hl. by left.
Qed.

Lemma foldl_rule_visible {A} (target : A -> McpRuleTarget) l (m : RuleMap) t :
  foldl (fun m a => rule_entry (target a) set_visible_true m) m l !! t =
  if bool_decide (t ∈ map target l) then Some (set_visible_true (default default_rule (m !! t))) else m !! t.
Proof.
  revert m. induction l as [|a l IH]; intros m; cbn [foldl map]; [by rewrite bool_decide_eq_false_2 by apply not_elem_of_nil|].
  rewrite IH. unfold rule_entry. rewrite !lookup_entry_update. destruct (decide (target a = t)) as [E|E].
  - subst. rewrite (bool_decide_eq_true_2 (_ ∈ target a :: _)) by (by left). by case_bool_decide.
  - rewrite (bool_decide_ext (t ∈ target a :: map target l) (t ∈ map target l)); [done|]. rewrite elem_of_cons. naive_solver.
Qed.

Lemma NoDup_map_inj {A B C} (f : A -> B) (g : A -> C) l :
  NoDup (map f l) -> (forall a b, g a = g b -> f a = f b) -> NoDup (map g l).
Proof.
  intros Hl Hfg. induction l as [|a l IH]; simpl in *; [constructor|]. apply NoDup_cons in Hl as [Ha Hl]. constructor; [|auto].
  intros (b & E%Hfg & Hb)%list_elem_of_In%in_map_iff. apply Ha. rewrite <- E. by apply list_elem_of_In, in_map.
Qed.

Lemma foldl_rule_found {A} (target : A -> McpRuleTarget) (f : A -> McpAccessRule -> McpAccessRule) (name : A -> string) l (m : RuleMap) c t :
  NoDup (map name l) -> (forall a b, target a = target b -> name a = name b) -> (forall a, target a = t <-> name a = c) ->
  foldl (fun m a => rule_entry (target a) (f a) m) m l !! t =
  match find_named name c l with Some a => Some (f a (default default_rule (m !! t))) | None => m !! t end.
Proof.
  intros Hl Hinj Ht. unfold rule_entry. rewrite (foldl_entry_update default_rule target f).
  - unfold find_named. replace (List.find (fun a => bool_decide (target a = t)) l) with (List.find (fun a => String.eqb (name a) c) l); [done|].
    clear Hl. induction l as [|a l IH]; [done|]. simpl. rewrite IH.
    rewrite (bool_decide_ext _ _ (Ht a)). destruct (String.eqb_spec (name a) c); by case_bool_decide.
  - by eapply NoDup_map_inj.
Qed.

Lemma bool_decide_in_map {A} `{EqDecision A} (f : A -> McpRuleTarget) x l :
  (forall a b, f a = f b -> a = b) -> bool_decide (f x ∈ map f l) = bool_decide (x ∈ l).
Proof.
  intros Hf. apply bool_decide_ext. rewrite list_elem_of_In, in_map_iff. setoid_rewrite <- list_elem_of_In. naive_solver.
Qed.

(** What the settings of one connection leave at a target. *)
Definition step_at (r : McpConnectionPolicy) (t : McpRuleTarget) (o : option McpAccessRule) : option McpAccessRule :=
  match t with
  | Group _ => o
  | Connection c =>
    if String.eqb c r.(conn_connection_id) then Some (connection_rule_update r (default default_rule o)) else o
  | Scope c s d =>
    if String.eqb c r.(conn_connection_id) && String.eqb s "database" then
      let o := if bool_decide (d ∈ r.(allowed_databases)) then Some (set_visible_true (default default_rule o)) else o in
      match find_database_policy r d with
      | Some p => Some (set_level (is_versioned r) (from_flags p.(db_read_only) p.(db_allow_dangerous_sql)) (default default_rule o))
      | None => o
      end
    else o
  end.

Lemma connection_step_at r m t : NoDup (map db_database_name r.(database_policies)) -> connection_step m r !! t = step_at r t (m !! t).
Proof.
  intros Hdb. unfold connection_step. set (m1 := rule_entry (Connection _) _ m).
  assert (H1 : m1 !! t = if decide (Connection (conn_connection_id r) = t)
    then Some (connection_rule_update r (default default_rule (m !! t))) else m !! t).
  { unfold m1, rule_entry. rewrite lookup_entry_update. by case_decide; subst. }
  destruct t as [g|c|c s d]; simpl.
  - rewrite !foldl_rule_other by done. by rewrite H1.
  - rewrite !foldl_rule_other by done. rewrite H1. destruct (String.eqb_spec c (conn_connection_id r)); case_decide; congruence.
  - destruct (String.eqb_spec c (conn_connection_id r)) as [->|Hc]; simpl;
      [destruct (String.eqb_spec s "database") as [->|Hs]; simpl|].
    + rewrite (foldl_rule_found _ _ db_database_name _ _ d) by (done || congruence || naive_solver).
      rewrite foldl_rule_visible, H1, decide_False by done.
      replace (bool_decide (_ ∈ map _ _)) with (bool_decide (d ∈ allowed_databases r)); [done|].
      symmetry. apply (bool_decide_in_map (fun d => Scope (conn_connection_id r) "database" d)). congruence.
    + rewrite !foldl_rule_other by congruence. by rewrite H1, decide_False.
    + rewrite !foldl_rule_other by congruence. by rewrite H1, decide_False.
Qed.

(** The connection a target belongs to. *)
Definition target_connection (t : McpRuleTarget) : option string :=
  match t with Group _ => None | Connection c | Scope c _ _ => Some c end.

Lemma step_at_other r t o : target_connection t <> Some r.(conn_connection_id) -> step_at r t o = o.
Proof.
  destruct t as [g|c|c s d]; simpl; intros Ht; [done|..]; (destruct (String.eqb_spec c (conn_connection_id r)); [congruence|done]).
Qed.

Lemma connection_steps_at l m t c :
  NoDup (map conn_connection_id l) -> Forall canonical_connection l -> target_connection t = Some c ->
  foldl connection_step m l !! t =
  match find_named conn_connection_id c l with Some r => step_at r t (m !! t) | None => m !! t end.
Proof.
  intros Hn Hl Ht. revert m Hn. induction Hl as [|r l Hr Hl IH]; intros m Hn; [done|]. cbn [foldl map] in *.
  apply NoDup_cons in Hn as [Hr' Hn]. rewrite IH by done. unfold find_named. simpl.
  rewrite connection_step_at by apply (cc_policies _ Hr).
  destruct (String.eqb_spec (conn_connection_id r) c) as [<-|Hc]; [|by rewrite step_at_other by (rewrite Ht; congruence)].
  change (List.find _ l) with (find_named conn_connection_id (conn_connection_id r) l).
  destruct (find_named _ _ l) as [r2|] eqn:E; [|done]. apply find_named_Some in E as [Hr2 E]; [|done].
  destruct Hr'. rewrite <- E. by apply list_elem_of_In, in_map, list_elem_of_In.
Qed.

Lemma connection_steps_group l m g :
  Forall canonical_connection l -> foldl connection_step m l !! Group g = m !! Group g.
Proof.
  intros Hl. revert m. induction Hl as [|r l Hr Hl IH]; intros m; [done|]. cbn [foldl]. rewrite IH.
  by rewrite connection_step_at by apply (cc_policies _ Hr).
Qed.

Section translated.
Context (p : McpGlobalPolicy) (Hp : canonical p).

(** The rules [from_v1] builds from a canonical policy. *)
Definition translated_rules : RuleMap :=
  let rules := foldl (fun rules id => rule_entry (Connection id) set_visible_true rules)
                 ∅ (default [] p.(allowed_connection_ids)) in
  let rules := foldl (fun rules id => rule_entry (Group id) set_visible_true rules) rules p.(allowed_group_ids) in
  let rules := foldl (fun rules group =>
      rule_entry (Group group.(grp_group_id))
        (fun r => r <| access := Some (from_flags group.(grp_read_only) group.(grp_allow_dangerous_sql)) |>) rules)
    rules p.(group_policies) in
  foldl connection_step rules p.(connection_policies).

(** A rule that is there only to make its target visible. *)
Definition visible_rule (b : bool) : option McpAccessRule := if b then Some (set_visible_true default_rule) else None.

Lemma translated_group g :
  translated_rules !! Group g =
  match find_group_policy p g with
  | Some group => Some (default default_rule (visible_rule (bool_decide (g ∈ p.(allowed_group_ids))))
      <| access := Some (from_flags group.(grp_read_only) group.(grp_allow_dangerous_sql)) |>)
  | None => visible_rule (bool_decide (g ∈ p.(allowed_group_ids)))
  end.
Proof.
  unfold translated_rules. rewrite connection_steps_group by apply (can_connection _ Hp).
  rewrite (foldl_rule_found (fun group => Group group.(grp_group_id)) _ grp_group_id _ _ g)
    by (apply (can_groups _ Hp) || naive_solver).
  rewrite foldl_rule_visible, bool_decide_in_map by congruence. rewrite foldl_rule_other by done. done.
Qed.

Lemma translated_connection c :
  translated_rules !! Connection c =
  let o := visible_rule (bool_decide (c ∈ default [] p.(allowed_connection_ids))) in
  match find_connection_policy p c with
  | Some r => Some (connection_rule_update r (default default_rule o))
  | None => o
  end.
Proof.
  unfold translated_rules.
  rewrite (connection_steps_at _ _ _ c) by (done || apply (can_connections _ Hp) || apply (can_connection _ Hp)).
  rewrite !foldl_rule_other by done. rewrite foldl_rule_visible, bool_decide_in_map by congruence.
  change (find_named conn_connection_id c _) with (find_connection_policy p c).
  destruct (find_connection_policy p c) as [r|] eqn:E; [|done]. apply List.find_some in E as [_ E%String.eqb_eq].
  cbn [step_at]. by rewrite E, String.eqb_refl.
Qed.

Lemma translated_scope c d :
  translated_rules !! Scope c "database" d =
  r ← find_connection_policy p c; step_at r (Scope c "database" d) None.
Proof.
  unfold translated_rules.
  rewrite (connection_steps_at _ _ _ c) by (done || apply (can_connections _ Hp) || apply (can_connection _ Hp)).
  rewrite !foldl_rule_other by done.
  change (find_named conn_connection_id c _) with (find_connection_policy p c). rewrite lookup_empty. by destruct (find_connection_policy p c).
Qed.
End translated.

Lemma from_v1_rules q : (from_v1 q).(rules) = translated_rules (normalized q).
Proof. done. Qed.

(** ** Levels and flags *)

Definition closed_flags (f : bool * bool) : Prop := f.1 = true -> f.2 = false.

Lemma to_from_flags f : closed_flags f -> to_flags (from_flags_pair f) = f.
Proof. destruct f as [[] []]; unfold closed_flags; simpl; naive_solver. Qed.

Lemma from_flags_readable f : level_max (from_flags_pair f) LevelRead = from_flags_pair f.
Proof. by destruct f as [[] []]. Qed.

Lemma apply_ceiling_level a b : closed_flags a -> closed_flags b ->
  from_flags_pair (apply_ceiling a b) = level_min (from_flags_pair a) (from_flags_pair b) /\ closed_flags (apply_ceiling a b).
Proof. unfold closed_flags. destruct a as [[] []], b as [[] []]; simpl; naive_solver. Qed.

Lemma level_min_comm a b : level_min a b = level_min b a.
Proof. by destruct a, b. Qed.

Lemma existsb_eqb (x : string) l : existsb (fun a => String.eqb a x) l = bool_decide (x ∈ l).
Proof.
  apply eq_true_iff_eq. rewrite bool_decide_eq_true, existsb_exists. setoid_rewrite String.eqb_eq. setoid_rewrite <- list_elem_of_In. naive_solver.
Qed.

Lemma existsb_ext_bool {A} (f g : A -> bool) l : (forall a, f a = g a) -> existsb f l = existsb g l.
Proof. intros Hfg. induction l as [|a l IH]; simpl; [done|]. by rewrite Hfg, IH. Qed.

(** The level a policy resolves to when visibility is left aside. *)
Definition raw_level (self : McpAccessPolicy) (group_ids : list string) (connection_id : string)
    (sub_scope : option (string * string)) : McpAccessLevel :=
  let resolved := connection_access self group_ids connection_id in
  (match sub_scope with
   | Some (scope, value) =>
     match rule self (Scope connection_id scope value) with
     | Some r => apply_access_ceiling r SourceScope (apply_access r SourceScope resolved)
     | None => resolved
     end
   | None => resolved
   end).1.

Lemma resolve_level self groups c sub :
  (resolve self groups c sub).(level) = if (resolve self groups c sub).(res_visible) then raw_level self groups c sub else LevelNone.
Proof. unfold resolve, raw_level. destruct sub as [[]|]; simpl; repeat case_match; simplify_eq/=; done. Qed.

Lemma foldl_ext_in {A B} (f g : A -> B -> A) l a : (forall a b, f a b = g a b) -> foldl f a l = foldl g a l.
Proof. intros Hfg. revert a. induction l as [|b l IH]; intros a; simpl; [done|]. by rewrite Hfg, IH. Qed.

Lemma level_ignoring_visibility self groups c sub :
  resolve_level_ignoring_visibility self groups c sub = raw_level self groups c sub.
Proof.
  unfold resolve_level_ignoring_visibility. set (s := _ <| rules := _ |>).
  assert (Hr : forall t, rule s t = (fun r => r <| visible := None |> <| sub_scope := None |>) <$> rule self t)
    by (intros t; unfold rule, s; apply lookup_fmap).
  assert (Hc : connection_access s groups c = connection_access self groups c).
  { unfold connection_access, connection_rule. rewrite Hr.
    rewrite (foldl_ext_in _ (fun resolved group_id =>
      match rule self (Group group_id) ≫= access with Some l => (l, SourceGroup group_id) | None => resolved end)).
    - by destruct (rule self (Connection c)).
    - intros a b. rewrite Hr. by destruct (rule self (Group b)). }
  assert (Hv : forall t, visible_is false (rule s t) = false) by (intros t; rewrite Hr; by destruct (rule self t)).
  assert (Hs : forall scope value, sub_scope_visible s c scope value = true).
  { intros scope value. unfold sub_scope_visible, sub_scope_mode, connection_rule. rewrite Hv, Hr. by destruct (rule self (Connection c)). }
  rewrite resolve_level. replace (res_visible _) with true.
  - unfold raw_level. rewrite Hc. destruct sub as [[scope value]|]; [|done]. rewrite Hr. by destruct (rule self (Scope c scope value)).
  - unfold resolve. destruct sub as [[scope value]|].
    + rewrite Hs. unfold connection_visible, connection_rule. rewrite Hv. simpl. by repeat case_match.
    + unfold connection_visible, connection_rule. rewrite Hv. simpl. by repeat case_match.
Qed.

(** The sub-scope of a database name; no name is the connection itself. *)
Definition database_scope_of (d : string) : option (string * string) := if String.eqb d "" then None else Some ("database", d).

Lemma policy_decide_flags self groups c d :
  (policy_decide self groups c d).(flags) = to_flags (level_max (raw_level self groups c (database_scope_of d)) LevelRead).
Proof.
  unfold policy_decide, database_scope_of. simpl. rewrite level_ignoring_visibility.
  case_match eqn:E; [|done]. rewrite resolve_level. unfold resolve. cbn [res_visible].
  destruct (String.eqb d ""); simpl in *; repeat case_match; simplify_eq/=; congruence.
Qed.

Lemma apply_access_ceiling_level r here resolved :
  (apply_access_ceiling r here resolved).1 = match r.(ceiling) with Some c => level_min c resolved.1 | None => resolved.1 end.
Proof.
  unfold apply_access_ceiling. destruct (ceiling r) as [[]|]; [..|done]; destruct resolved as [[] ?]; done.
Qed.

Lemma apply_access_level r here resolved : (apply_access r here resolved).1 = default resolved.1 r.(access).
Proof. unfold apply_access. by destruct (access r). Qed.

(** ** The second version reproduces the first *)

Section reproduces.
Context (q : McpGlobalPolicy).
Let p := normalized q.
Let v2 := from_v1 q.
Let Hp : canonical p := normalized_canonical q.

Lemma group_access_agrees g :
  rule v2 (Group g) ≫= access = (fun r => from_flags r.(grp_read_only) r.(grp_allow_dangerous_sql)) <$> find_group_policy p g.
Proof.
  unfold rule, v2. rewrite from_v1_rules, translated_group by apply Hp. fold p.
  destruct (find_group_policy p g) as [r|]; [done|]. by destruct (bool_decide _).
Qed.

(** The v1 mode of the groups of a connection. *)
Definition group_flags (policy : McpGlobalPolicy) (group_ids : list string) : bool * bool :=
  foldl (fun effective group_id =>
    match find_group_policy policy group_id with
    | Some r => (r.(grp_read_only), negb r.(grp_read_only) && r.(grp_allow_dangerous_sql))
    | None => effective
    end) (policy.(read_only), policy.(allow_dangerous_sql)) group_ids.

Lemma groups_agree groups :
  (foldl (fun resolved group_id =>
     match rule v2 (Group group_id) ≫= access with Some l => (l, SourceGroup group_id) | None => resolved end)
    (v2.(default_access), SourceDefault) groups).1 = from_flags_pair (group_flags p groups) /\ closed_flags (group_flags p groups).
Proof.
  assert (Hd : v2.(default_access) = from_flags_pair (p.(read_only), p.(allow_dangerous_sql))) by done.
  assert (Hc : closed_flags (p.(read_only), p.(allow_dangerous_sql))) by exact (can_flags _ Hp).
  unfold group_flags. revert Hd Hc. generalize (p.(read_only), p.(allow_dangerous_sql)). generalize SourceDefault.
  generalize (default_access v2). induction groups as [|g groups IH]; intros l src e Hd Hc; [done|]. cbn [foldl].
  rewrite group_access_agrees. destruct (find_group_policy p g) as [r|] eqn:E; cbn [fmap option_fmap option_map]; [|by apply IH].
  apply IH; unfold closed_flags, from_flags_pair; simpl; by destruct (grp_read_only r), (grp_allow_dangerous_sql r).
Qed.

Lemma versioned_flags r : is_versioned r = bool_decide (r.(execution_mode_policy_version) = Some MCP_EXECUTION_POLICY_VERSION).
Proof. done. Qed.

(** The mode of a connection and of a database below it, in the first version. *)
Definition connection_flags (r : McpConnectionPolicy) (e : bool * bool) : bool * bool :=
  if r.(execution_mode_configured) then
    if is_versioned r then (r.(conn_read_only), negb r.(conn_read_only) && r.(conn_allow_dangerous_sql))
    else apply_ceiling e (r.(conn_read_only), r.(conn_allow_dangerous_sql))
  else e.

Definition database_flags (versioned : bool) (d : McpDatabasePolicy) (e : bool * bool) : bool * bool :=
  if versioned then (d.(db_read_only), negb d.(db_read_only) && d.(db_allow_dangerous_sql))
  else apply_ceiling e (d.(db_read_only), d.(db_allow_dangerous_sql)).

Lemma effective_flags policy groups c d :
  effective_database_execution_policy_with_groups policy groups c d =
  match find_connection_policy policy c with
  | None => group_flags policy groups
  | Some r =>
    let e := connection_flags r (group_flags policy groups) in
    match find_database_policy r d with Some dp => database_flags (is_versioned r) dp e | None => e end
  end.
Proof.
  unfold effective_database_execution_policy_with_groups, connection_flags, database_flags. fold (group_flags policy groups).
  destruct (find_connection_policy policy c) as [r|]; [|done]. rewrite versioned_flags.
  case_bool_decide; destruct (execution_mode_configured r), (find_database_policy r d); done.
Qed.

Lemma connection_agrees r e l :
  canonical_connection r -> closed_flags e -> l = from_flags_pair e ->
  let u := connection_rule_update r (default default_rule (visible_rule (bool_decide (conn_connection_id r ∈ default [] p.(allowed_connection_ids))))) in
  match u.(ceiling) with Some c => level_min c (default l u.(access)) | None => default l u.(access) end =
    from_flags_pair (connection_flags r e) /\ closed_flags (connection_flags r e).
Proof.
  intros Hr He ->. unfold connection_flags, connection_rule_update.
  destruct (bool_decide (conn_connection_id r ∈ _)); simpl; (destruct (execution_mode_configured r); [|done]);
    unfold set_level; destruct (is_versioned r); simpl.
  1,3: split; [by unfold from_flags_pair; destruct (conn_read_only r), (conn_allow_dangerous_sql r)|
               by unfold closed_flags; simpl; intros ->].
  all: destruct (apply_ceiling_level e (conn_read_only r, conn_allow_dangerous_sql r)) as [-> Hc];
    [done|intros E; by apply (cc_flags _ Hr)|split; [apply level_min_comm|done]].
Qed.

Lemma found_canonical c r : find_connection_policy p c = Some r -> canonical_connection r /\ conn_connection_id r = c.
Proof.
  intros [Hr E%String.eqb_eq]%List.find_some. split; [|done].
  pose proof (can_connection _ Hp) as H. rewrite Forall_forall in H. by apply H, list_elem_of_In.
Qed.

Lemma found_database_closed r d dp :
  canonical_connection r -> find_database_policy r d = Some dp -> closed_flags (dp.(db_read_only), dp.(db_allow_dangerous_sql)).
Proof.
  intros Hr [Hd _]%List.find_some. pose proof (cc_policies _ Hr) as [_ H]. rewrite Forall_forall in H.
  exact (H dp (proj2 (list_elem_of_In _ _) Hd)).
Qed.

Lemma database_agrees r d e l :
  canonical_connection r -> closed_flags e -> l = from_flags_pair e ->
  let e' := match find_database_policy r d with Some dp => database_flags (is_versioned r) dp e | None => e end in
  match step_at r (Scope r.(conn_connection_id) "database" d) None with
  | Some u => match u.(ceiling) with Some c => level_min c (default l u.(access)) | None => default l u.(access) end
  | None => l
  end = from_flags_pair e' /\ closed_flags e'.
Proof.
  intros Hr He ->. cbn [step_at]. rewrite String.eqb_refl. cbn [andb String.eqb]. simpl.
  destruct (find_database_policy r d) as [dp|] eqn:E; [|by case_bool_decide].
  pose proof (found_database_closed _ _ _ Hr E) as Hd. unfold database_flags, set_level.
  destruct (is_versioned r); [|destruct (apply_ceiling_level e _ He Hd) as [-> Hc]].
  - split; [|by unfold closed_flags; simpl; intros ->].
    case_bool_decide; simpl; unfold from_flags_pair; simpl; by destruct (db_read_only dp), (db_allow_dangerous_sql dp).
  - split; [|done]. case_bool_decide; simpl; apply level_min_comm.
Qed.

Lemma levels_agree groups c d :
  let f := effective_database_execution_policy_with_groups p groups c d in
  raw_level v2 groups c (database_scope_of d) = from_flags_pair f /\ closed_flags f.
Proof.
  rewrite effective_flags. destruct (groups_agree groups) as [Hg Hc]. fold p in Hg, Hc.
  unfold raw_level, connection_access, connection_rule, rule, v2. rewrite from_v1_rules, translated_connection by apply Hp.
  fold p v2. cbn zeta. destruct (find_connection_policy p c) as [r|] eqn:Ef.
  - destruct (found_canonical _ _ Ef) as [Hr <-].
    destruct (connection_agrees r _ _ Hr Hc eq_refl) as [Hl Hc']. cbn zeta in Hl.
    set (u := connection_rule_update r _) in *. rewrite <- Hg in Hl. rewrite <- (apply_access_level u SourceConnection), <- (apply_access_ceiling_level u SourceConnection) in Hl.
    unfold database_scope_of. destruct (String.eqb_spec d "") as [->|Hd].
    + destruct (find_database_policy r "") as [dp|] eqn:E; [|done]. apply List.find_some in E as [Hdp E%String.eqb_eq].
      pose proof (cc_listed _ Hr) as Hlist. rewrite Forall_forall in Hlist. specialize (Hlist dp (proj2 (list_elem_of_In _ _) Hdp)).
      pose proof (cc_databases _ Hr) as Hwf. rewrite Forall_forall in Hwf. by destruct (Hwf _ Hlist).
    + rewrite translated_scope by apply Hp. fold p. rewrite Ef. cbn [mbind option_bind].
      destruct (database_agrees r d _ _ Hr Hc' Hl) as [Hd1 Hd2]. split; [|done]. rewrite <- Hd1.
      destruct (step_at r _ None) as [w|]; [|done]. rewrite apply_access_ceiling_level, apply_access_level. done.
  - split; [|done]. unfold visible_rule. rewrite <- Hg. unfold database_scope_of.
    destruct (String.eqb d ""); [by destruct (bool_decide (c ∈ _))|].
    rewrite translated_scope by apply Hp. fold p. rewrite Ef. simpl. by destruct (bool_decide (c ∈ _)).
Qed.

Lemma connection_rule_shown c :
  connection_rule v2 c ≫= visible = if bool_decide (c ∈ default [] p.(allowed_connection_ids)) then Some true else None.
Proof.
  unfold connection_rule, rule, v2. rewrite from_v1_rules, translated_connection by apply Hp. fold p. cbn zeta.
  destruct (find_connection_policy p c) as [r|]; [|by destruct (bool_decide _)].
  unfold connection_rule_update, set_level. by destruct (bool_decide _), (execution_mode_configured r), (is_versioned r).
Qed.

Lemma group_rule_shown g : visible_is true (rule v2 (Group g)) = bool_decide (g ∈ p.(allowed_group_ids)).
Proof.
  unfold visible_is, rule, v2. rewrite from_v1_rules, translated_group by apply Hp. fold p.
  destruct (find_group_policy p g) as [r|]; by destruct (bool_decide (g ∈ _)).
Qed.

Lemma connection_visible_agrees path c :
  connection_visible v2 (default [] (McpPolicy.ids <$> path)) c = policy_allows_connection p path c.
Proof.
  unfold connection_visible, policy_allows_connection. unfold visible_is. rewrite connection_rule_shown.
  replace (visibility v2) with (match allowed_connection_ids p with Some _ => VisibleSelected | None => VisibleAll end) by done.
  destruct (allowed_connection_ids p) as [l|]; [|by destruct (bool_decide (c ∈ _))]. change (default [] (Some l)) with l. rewrite existsb_eqb.
  destruct (bool_decide (c ∈ l)); [done|]. simpl. destruct path as [path|]; [|done]. simpl.
  apply existsb_ext_bool. intros g. rewrite existsb_eqb. apply group_rule_shown.
Qed.

Lemma database_visible_agrees c d :
  sub_scope_visible v2 c "database" d = database_in_scope (database_scope_for_connection p c) d.
Proof.
  unfold sub_scope_visible, sub_scope_mode, database_scope_for_connection, connection_rule, rule, v2.
  rewrite from_v1_rules, translated_connection, translated_scope by apply Hp. fold p. cbn zeta.
  destruct (find_connection_policy p c) as [r|] eqn:E; [|by destruct (bool_decide _)].
  destruct (found_canonical _ _ E) as [Hr <-]. cbn [mbind option_bind].
  assert (Hv : step_at r (Scope (conn_connection_id r) "database" d) None ≫= visible =
    if bool_decide (d ∈ r.(allowed_databases)) then Some true else None).
  { cbn [step_at]. rewrite String.eqb_refl. simpl. unfold set_level. destruct (find_database_policy r d), (bool_decide _), (is_versioned r); done. }
  replace (connection_rule_update r _).(sub_scope) with (Some (sub_scope_of r.(database_scope)))
    by (unfold connection_rule_update, set_level; by destruct (execution_mode_configured r), (is_versioned r)).
  unfold visible_is. rewrite Hv. unfold database_in_scope. destruct (database_scope r); simpl; rewrite ?existsb_eqb;
    by destruct (bool_decide (d ∈ _)).
Qed.

Lemma salesforce_agrees c :
  level_lt LevelRead (default LevelFull (toolset_ceiling v2 c SALESFORCE_WRITE_TOOLSET)) = connection_allows_salesforce_dml p c.
Proof.
  unfold toolset_ceiling, connection_allows_salesforce_dml, connection_rule, rule, v2.
  rewrite from_v1_rules, translated_connection by apply Hp. fold p. cbn zeta.
  destruct (find_connection_policy p c) as [r|]; [|by destruct (bool_decide _)].
  cbn [mbind option_bind]. unfold connection_rule_update. cbn [toolset_ceilings set_field set_toolset_ceilings].
  rewrite lookup_insert_eq. by destruct (allow_salesforce_dml r), (conn_read_only r).
Qed.
End reproduces.

Lemma confirmation_normalized q : confirmation_policy (normalized q) = confirmation_policy q.
Proof. unfold normalized at 1, confirmation_policy at 1. simpl. by destruct (confirmation_policy q). Qed.

(** C10. The access policy of the second version that is computed from a saved
    policy of the first reproduces its decisions: for every policy, group path,
    connection and database, the connection is visible exactly when the first
    version exposes it, the database is admitted exactly when its scope does,
    and the execution flags are the effective ones, also of a database that is
    not admitted; Salesforce writes are opted into, and calls are confirmed,
    alike. *)
Theorem v2_reproduces_every_v1_decision q path c d :
  let p := normalized q in
  let groups := default [] (McpPolicy.ids <$> path) in
  policy_decide (from_v1 q) groups c d =
    {| dec_connection_visible := policy_allows_connection p path c;
       database_visible := policy_allows_connection p path c &&
         (String.eqb d "" || database_in_scope (database_scope_for_connection p c) d);
       flags := effective_database_execution_policy_with_groups p groups c d |} /\
  level_lt LevelRead (default LevelFull (toolset_ceiling (from_v1 q) c SALESFORCE_WRITE_TOOLSET)) =
    connection_allows_salesforce_dml p c /\
  (from_v1 q).(confirm) = confirmation_policy q.
Proof.
  cbn zeta. split_and!; [|apply salesforce_agrees|apply confirmation_normalized].
  pose proof (policy_decide_flags (from_v1 q) (default [] (McpPolicy.ids <$> path)) c d) as Hf.
  destruct (levels_agree q (default [] (McpPolicy.ids <$> path)) c d) as [Hl Hc].
  rewrite Hl, from_flags_readable, to_from_flags in Hf by done. rewrite <- Hf.
  unfold policy_decide. simpl. rewrite connection_visible_agrees. f_equal.
  destruct (String.eqb d ""); [done|]. simpl. by rewrite database_visible_agrees.
Qed.

(** ** The projection onto the first version *)

Lemma rank_min a b : rank (level_min a b) = Nat.min (rank a) (rank b).
Proof. by destruct a, b. Qed.

Lemma rank_projected l : rank (from_flags_pair (to_flags (level_max l LevelRead))) = Nat.max (rank l) 1.
Proof. by destruct l. Qed.

Lemma projected_closed l : closed_flags (to_flags (level_max l LevelRead)).
Proof. by destruct l. Qed.

Lemma rank_none l : rank l = 0 <-> l = LevelNone.
Proof. by destruct l. Qed.

Definition wf_target (t : McpRuleTarget) : Prop :=
  match t with Group id | Connection id => wf_name id | Scope c _ v => wf_name c /\ wf_name v end.

(** The names in the targets of the rules are trimmed and not empty. *)
Definition wf_policy (self : McpAccessPolicy) : Prop := map_Forall (fun t _ => wf_target t) self.(rules).

#[global] Instance target_le_total : Total target_le.
Proof. intros [] []; simpl; repeat case_decide; simplify_eq; try tauto; apply (total String.le). Qed.

Lemma elem_of_entries rs t r : (t, r) ∈ entries rs <-> rs !! t = Some r.
Proof. apply elem_of_btree_entries. Qed.

Lemma existsb_entries rs f : existsb f (entries rs) = true <-> exists t r, rs !! t = Some r /\ f (t, r) = true.
Proof.
  rewrite existsb_exists. split.
  - intros ([t r] & He%list_elem_of_In%elem_of_entries & Hf). eauto.
  - intros (t & r & He%elem_of_entries%list_elem_of_In & Hf). eauto.
Qed.

Lemma existsb_entries_false rs f t r : existsb f (entries rs) = false -> rs !! t = Some r -> f (t, r) = false.
Proof. intros Hf Hr. apply not_true_iff_false. intros Ht. apply not_true_iff_false in Hf. apply Hf, existsb_entries. eauto. Qed.

Section projected.
Context (self : McpAccessPolicy).

Definition shown_id (e : McpRuleTarget * McpAccessRule) : option string :=
  match e.1 with
  | Connection id => if denies e.2 then None else if bool_decide (e.2.(visible) = Some true) then Some id else None
  | _ => None
  end.

Definition shown_group (e : McpRuleTarget * McpAccessRule) : option string :=
  match e.1 with
  | Group id => if bool_decide (e.2.(visible) = Some true) && bool_decide (self.(visibility) = VisibleSelected) then Some id else None
  | _ => None
  end.

Definition group_policy_of (id : string) (l : McpAccessLevel) : McpGroupPolicy :=
  let '(ro, dangerous) := to_flags (level_max l LevelRead) in
  {| grp_group_id := id; grp_read_only := ro; grp_allow_dangerous_sql := dangerous |}.

Definition shown_group_policy (e : McpRuleTarget * McpAccessRule) : option McpGroupPolicy :=
  match e.1 with Group id => group_policy_of id <$> e.2.(access) | _ => None end.

Lemma project_ids l s : (foldl (project_step self) s l).(pr_connection_ids) = (fun ids => ids ++ omap shown_id l) <$> s.(pr_connection_ids).
Proof.
  revert s. induction l as [|[t r] l IH]; intros s; simpl; [destruct (pr_connection_ids s); simpl; by rewrite ?app_nil_r|].
  rewrite IH. unfold project_step, shown_id. destruct t as [g|c|c sc v]; simpl; [done| |done].
  destruct (denies r); [done|]. case_bool_decide; [|done]. destruct (pr_connection_ids s); simpl; [|done]. by rewrite <- app_assoc.
Qed.

Lemma project_group_ids l s : (foldl (project_step self) s l).(pr_group_ids) = s.(pr_group_ids) ++ omap shown_group l.
Proof.
  revert s. induction l as [|[t r] l IH]; intros s; simpl; [by rewrite app_nil_r|].
  rewrite IH. unfold project_step, shown_group. destruct t as [g|c|c sc v]; simpl; [|done..].
  destruct (bool_decide (visible r = Some true) && _); [|done]. by rewrite <- app_assoc.
Qed.

Lemma project_group_policies l s :
  (foldl (project_step self) s l).(pr_group_policies) = s.(pr_group_policies) ++ omap shown_group_policy l.
Proof.
  revert s. induction l as [|[t r] l IH]; intros s; simpl; [by rewrite app_nil_r|].
  rewrite IH. unfold project_step, shown_group_policy. destruct t as [g|c|c sc v]; simpl; [|done..].
  destruct (access r) as [x|]; [|done]. simpl. unfold group_policy_of. destruct (to_flags _). by rewrite <- app_assoc.
Qed.

(** A connection the projection hides. *)
Definition hides (id : string) (r : McpAccessRule) : Prop := denies r = true \/ connection_level self id r = Some LevelNone.

Lemma project_hidden l s id :
  id ∈ (foldl (project_step self) s l).(pr_hidden) <-> id ∈ s.(pr_hidden) \/ exists r, (Connection id, r) ∈ l /\ hides id r.
Proof.
  revert s. induction l as [|[t r] l IH]; intros s; simpl; [split; [tauto|]; intros [?|(? & ?%not_elem_of_nil & _)]; done|].
  rewrite IH. setoid_rewrite elem_of_cons. unfold project_step. destruct t as [g|c|c sc v]; simpl; [naive_solver| |naive_solver].
  assert (Hc : id ∈ (let hidden := if denies r then pr_hidden s ++ [c] else pr_hidden s in
      if bool_decide (connection_level self c r = Some LevelNone) && negb (bool_decide (c ∈ hidden)) then hidden ++ [c] else hidden)
    <-> id ∈ s.(pr_hidden) \/ id = c /\ hides c r); [|rewrite Hc; naive_solver].
  unfold hides. cbn zeta. destruct (denies r).
  - rewrite (bool_decide_eq_true_2 (c ∈ _)) by set_solver. rewrite andb_false_r. set_solver.
  - case_bool_decide as Hl; simpl; [|set_solver]. case_bool_decide; simpl; set_solver.
Qed.

(** What the entries leave of the settings of one connection. *)
Definition connection_entry (c : string) (o : option McpConnectionPolicy) (e : McpRuleTarget * McpAccessRule) :
    option McpConnectionPolicy :=
  match e.1 with
  | Group _ => o
  | Connection id => if String.eqb id c then Some (project_connection self c e.2 (default (blank c) o)) else o
  | Scope id scope value => if String.eqb id c then Some (project_scope self c scope value e.2 (default (blank c) o)) else o
  end.

Lemma project_connections l s c :
  (foldl (project_step self) s l).(pr_connections) !! c = foldl (connection_entry c) (s.(pr_connections) !! c) l.
Proof.
  revert s. induction l as [|[t r] l IH]; intros s; simpl; [done|]. rewrite IH. f_equal.
  unfold project_step, connection_entry. destruct t as [g|id|id sc v]; simpl; [done|..];
    (destruct (String.eqb_spec id c); [subst; by simplify_map_eq|by rewrite lookup_insert_ne]).
Qed.

Definition shown_database (c : string) (e : McpRuleTarget * McpAccessRule) : option string :=
  match e.1 with
  | Scope id scope value =>
    if String.eqb id c && String.eqb scope "database" && (bool_decide (e.2.(visible) = Some true) && negb (denies e.2))
    then Some value else None
  | _ => None
  end.

(** The level of a database rule with the ceilings of the toolsets. *)
Definition database_level (c : string) (r : McpAccessRule) : option McpAccessLevel :=
  (fun l => match projected_toolset_ceiling self c with Some t => level_min l t | None => l end) <$> pinned_level self c r.

Definition database_policy_of (value : string) (l : McpAccessLevel) : McpDatabasePolicy :=
  let '(ro, dangerous) := to_flags (level_max l LevelRead) in
  {| db_database_name := value; db_read_only := ro; db_allow_dangerous_sql := dangerous |}.

Definition shown_database_policy (c : string) (e : McpRuleTarget * McpAccessRule) : option McpDatabasePolicy :=
  match e.1 with
  | Scope id scope value =>
    if String.eqb id c && String.eqb scope "database" && negb (denies e.2) then database_policy_of value <$> database_level c e.2 else None
  | _ => None
  end.

(** A rule of another kind of sub-scope that restricts something. *)
Definition restricting (c : string) (e : McpRuleTarget * McpAccessRule) : bool :=
  match e.1 with
  | Scope id scope _ =>
    String.eqb id c && negb (String.eqb scope "database") &&
    (bool_decide (e.2.(visible) = Some false) || bool_decide (is_Some e.2.(access)) || bool_decide (is_Some e.2.(ceiling)))
  | _ => false
  end.

(** The settings of a connection with the rules of its sub-scopes. *)
Definition with_databases (c : string) (P : McpConnectionPolicy) (l : list (McpRuleTarget * McpAccessRule)) : McpConnectionPolicy :=
  {| conn_connection_id := P.(conn_connection_id);
     conn_read_only := P.(conn_read_only);
     conn_allow_dangerous_sql := P.(conn_allow_dangerous_sql);
     execution_mode_configured := P.(execution_mode_configured);
     execution_mode_policy_version := P.(execution_mode_policy_version);
     database_scope := if existsb (restricting c) l then ScopeNone else P.(database_scope);
     allowed_databases := P.(allowed_databases) ++ omap (shown_database c) l;
     database_policies := P.(database_policies) ++ omap (shown_database_policy c) l;
     allow_salesforce_dml := P.(allow_salesforce_dml) |}.

Lemma with_databases_nil c P : with_databases c P [] = P.
Proof. unfold with_databases. simpl. rewrite !app_nil_r. by destruct P. Qed.

Lemma with_databases_app c P l k : with_databases c (with_databases c P l) k = with_databases c P (l ++ k).
Proof.
  unfold with_databases. simpl. rewrite existsb_app, !omap_app, !app_assoc.
  by destruct (existsb (restricting c) l), (existsb (restricting c) k).
Qed.

Lemma with_databases_other c P l : (forall e, e ∈ l -> is_any_scope_of c e.1 = false) -> with_databases c P l = P.
Proof.
  induction l as [|[t r] l IH] using rev_ind; intros Hl; [apply with_databases_nil|].
  rewrite <- with_databases_app, IH by (intros e He; apply Hl; set_solver).
  specialize (Hl (t, r) ltac:(set_solver)). unfold with_databases, restricting, shown_database, shown_database_policy. simpl.
  destruct t as [g|id|id sc v]; simpl in *; [..|rewrite Hl]; rewrite ?app_nil_r; by destruct P.
Qed.

Lemma scope_entry c scope value r P :
  project_scope self c scope value r P = with_databases c P [(Scope c scope value, r)].
Proof.
  unfold project_scope, with_databases, restricting, shown_database, shown_database_policy, database_policy_of. simpl.
  rewrite String.eqb_refl. cbn [andb]. destruct (String.eqb scope "database"); cbn [andb negb].
  - fold (database_level c r). destruct (denies r); rewrite ?andb_false_r, ?andb_true_r; cbn [negb].
    + rewrite !app_nil_r. by destruct (database_level c r).
    + destruct (database_level c r) as [l|]; simpl; [destruct (to_flags _)|rewrite app_nil_r];
        (case_bool_decide; [done|by rewrite app_nil_r]).
  - rewrite orb_false_r, !app_nil_r. destruct (_ || _ || _); [done|]. by destruct P.
Qed.

Definition is_scope (t : McpRuleTarget) : bool := match t with Scope _ _ _ => true | _ => false end.

Lemma scope_entries c l P :
  Forall (fun e => is_scope e.1 = true) l -> foldl (connection_entry c) (Some P) l = Some (with_databases c P l).
Proof.
  intros Hl. revert P. induction Hl as [|[t r] l Ht Hl IH]; intros P; [by rewrite with_databases_nil|].
  change ((t, r) :: l) with ([(t, r)] ++ l). rewrite <- with_databases_app, foldl_app, <- IH. f_equal.
  destruct t as [?|?|id scope value]; [done..|]. unfold connection_entry. simpl. destruct (String.eqb_spec id c) as [->|Hn].
  - simpl. by rewrite scope_entry.
  - rewrite with_databases_other; [done|]. intros e ->%list_elem_of_singleton. simpl. by apply String.eqb_neq.
Qed.

Lemma scope_entries_none c l :
  Forall (fun e => is_scope e.1 = true) l ->
  foldl (connection_entry c) None l = if existsb (fun e => is_any_scope_of c e.1) l then Some (with_databases c (blank c) l) else None.
Proof.
  induction 1 as [|[t r] l Ht Hl IH]; [done|]. destruct t as [?|?|id scope value]; [done..|]. simpl. unfold connection_entry at 2. simpl.
  destruct (String.eqb_spec id c) as [->|Hn]; simpl.
  - rewrite scope_entry, scope_entries, with_databases_app by done. done.
  - rewrite IH. destruct (existsb _ l); [|done]. change (?x :: l) with ([x] ++ l). rewrite <- with_databases_app.
    rewrite (with_databases_other c _ [_]); [done|]. intros e ->%list_elem_of_singleton. simpl. by apply String.eqb_neq.
Qed.

Lemma rule_entries c l o :
  NoDup l.*1 -> Forall (fun e => is_scope e.1 = false) l ->
  (forall r, (Connection c, r) ∈ l -> foldl (connection_entry c) o l = Some (project_connection self c r (default (blank c) o))) /\
  (Connection c ∉ l.*1 -> foldl (connection_entry c) o l = o).
Proof.
  intros Hn Hl. revert o Hn. induction Hl as [|[t r] l Ht Hl IH]; intros o Hn; simpl in *; [set_solver|].
  apply NoDup_cons in Hn as [Hni Hn]. unfold connection_entry at 2 4. simpl. destruct t as [g|id|]; [| |done].
  - destruct (IH o Hn) as [IH1 IH2]. split; [intros r' [?|Hr']%elem_of_cons; [done|by apply IH1]|intros Hc; apply IH2; set_solver].
  - destruct (String.eqb_spec id c) as [->|Hne].
    + destruct (IH (Some (project_connection self c r (default (blank c) o))) Hn) as [_ IH2]. split.
      * intros r' [E|Hr']%elem_of_cons; [injection E as <-; by apply IH2|]. destruct Hni. apply list_elem_of_fmap. by exists (Connection c, r').
      * intros Hc. destruct Hc. by left.
    + destruct (IH o Hn) as [IH1 IH2]. split; [intros r' [?|Hr']%elem_of_cons; [congruence|by apply IH1]|intros Hc; apply IH2; set_solver].
Qed.

Lemma entries_split (rs : RuleMap) : exists l k, entries rs = l ++ k /\
  Forall (fun e => is_scope e.1 = false) l /\ Forall (fun e => is_scope e.1 = true) k.
Proof.
  pose proof (btree_entries_sorted target_le rs) as Hs. fold (entries rs) in Hs. revert Hs. generalize (entries rs).
  intros l0 Hs. assert (Hs' : Sorted (fun a b => is_scope a.1 = true -> is_scope b.1 = true) l0).
  { eapply Sorted_weaken, Hs. intros [[] ?] [[] ?]; done. }
  apply Sorted_StronglySorted in Hs'; [|intros a b c Hab Hbc; auto]. clear Hs.
  induction Hs' as [|e l0 Hl IH He]; [by exists [], []|]. destruct IH as (l & k & -> & H1 & H2).
  destruct (is_scope e.1) eqn:Ee.
  - exists [], (e :: l ++ k). split_and!; [done..|]. constructor; [done|]. eapply Forall_impl; [exact He|]. simpl. auto.
  - exists (e :: l), k. split_and!; [done|by constructor|done].
Qed.

Lemma entries_NoDup (rs : RuleMap) : NoDup (entries rs).*1.
Proof. apply btree_entries_keys_NoDup. Qed.

(** The settings the rules give a connection. *)
Lemma project_connections_at c :
  (project_rules self).(pr_connections) !! c =
  match self.(rules) !! Connection c with
  | Some r => Some (with_databases c (project_connection self c r (blank c)) (entries self.(rules)))
  | None =>
    if existsb (fun e => is_any_scope_of c e.1) (entries self.(rules))
    then Some (with_databases c (blank c) (entries self.(rules))) else None
  end.
Proof.
  unfold project_rules. rewrite project_connections. simpl. rewrite lookup_empty.
  pose proof (entries_NoDup self.(rules)) as Hn. pose proof (elem_of_entries self.(rules)) as He.
  destruct (entries_split self.(rules)) as (l & k & E & Hl & Hk). rewrite E in *.
  rewrite fmap_app, NoDup_app in Hn. destruct Hn as (Hn & _ & _). destruct (rule_entries c l None Hn Hl) as [H1 H2].
  assert (Hother : forall P, with_databases c P (l ++ k) = with_databases c P k).
  { intros P. rewrite <- with_databases_app, (with_databases_other c P l); [done|]. intros [t r] Ht.
    rewrite Forall_forall in Hl. specialize (Hl _ Ht). by destruct t. }
  assert (Hnone : existsb (fun e => is_any_scope_of c e.1) l = false).
  { apply not_true_iff_false. intros ([t r] & Ht%list_elem_of_In & Hc)%existsb_exists. rewrite Forall_forall in Hl.
    specialize (Hl _ Ht). by destruct t. }
  rewrite foldl_app, existsb_app, Hnone, !Hother. destruct (rules self !! Connection c) as [r|] eqn:Er.
  - apply He, elem_of_app in Er as [Er|Er]; [|rewrite Forall_forall in Hk; by specialize (Hk _ Er)].
    rewrite (H1 r Er). by rewrite scope_entries, Hother.
  - rewrite H2; [by rewrite scope_entries_none, ?Hother|]. intros ([t r] & Et & Ht)%list_elem_of_fmap. simpl in Et. subst t.
    rewrite (proj1 (He (Connection c) r)) in Er; [done|]. set_solver.
Qed.
End projected.

(** Lists read off the rules: each element belongs to the target of its name. *)
Section read_off.
Context {A : Type} (name : A -> string) (target : string -> McpRuleTarget) (f : McpRuleTarget * McpAccessRule -> option A).
Hypothesis target_inj : forall x y, target x = target y -> x = y.
Hypothesis f_named : forall e a, f e = Some a -> e.1 = target (name a).

Lemma omap_named_NoDup l : NoDup l.*1 -> NoDup (map name (omap f l)).
Proof.
  induction l as [|e l IH]; simpl; intros Hl; [constructor|]. apply NoDup_cons in Hl as [He Hl].
  destruct (f e) as [a|] eqn:E; [|by apply IH]. simpl. constructor; [|by apply IH].
  intros (b & Hb & Hi)%list_elem_of_In%in_map_iff. apply list_elem_of_In, list_elem_of_omap in Hi as (e' & He' & Hf).
  apply He, list_elem_of_fmap. exists e'. split; [|done]. by rewrite (f_named _ _ Hf), (f_named _ _ E), Hb.
Qed.

Lemma find_read_off (rs : RuleMap) x : find_named name x (omap f (entries rs)) = rs !! target x ≫= (fun r => f (target x, r)).
Proof.
  apply option_eq. intros a. rewrite find_named_Some by apply omap_named_NoDup, entries_NoDup.
  rewrite list_elem_of_omap. split.
  - intros [([t r] & He%elem_of_entries & Hf) <-]. pose proof (f_named _ _ Hf) as Ht. simpl in Ht. subst t. by rewrite He.
  - destruct (rs !! target x) as [r|] eqn:E; simpl; [|done]. intros Hf. split.
    + exists (target x, r). by rewrite elem_of_entries.
    + pose proof (f_named _ _ Hf) as Ht. simpl in Ht. symmetry. by apply target_inj.
Qed.
End read_off.

(** A connection policy as the first rule of its name is entered. *)
Definition entered (rule : McpConnectionPolicy) : McpConnectionPolicy :=
  {| conn_connection_id := rule.(conn_connection_id);
     conn_read_only := rule.(conn_read_only);
     conn_allow_dangerous_sql := rule.(conn_allow_dangerous_sql);
     execution_mode_configured := rule.(execution_mode_configured);
     execution_mode_policy_version := rule.(execution_mode_policy_version);
     database_scope := rule.(database_scope);
     allowed_databases := normalize_mcp_database_names rule.(allowed_databases);
     database_policies := normalize_mcp_database_policies rule.(database_policies);
     allow_salesforce_dml := rule.(allow_salesforce_dml) |}.

(** Entering policies of distinct, trimmed names into a map of them. *)
Section entering.
Context {A : Type} (name : A -> string) (enter : A -> A) (insert_named : gmap string A -> A -> gmap string A).
Hypothesis insert_fresh : forall m a, wf_name (name a) -> m !! name a = None -> insert_named m a = <[name a := enter a]> m.

Lemma enter_all l m c :
  NoDup (map name l) -> Forall (fun a => wf_name (name a)) l -> Forall (fun a => m !! name a = None) l ->
  foldl insert_named m l !! c = match find_named name c l with Some a => Some (enter a) | None => m !! c end.
Proof.
  intros Hn Hl. revert m Hn. induction Hl as [|a l Ha Hl IH]; intros m Hn Hm; [done|]. cbn [foldl map] in *.
  apply NoDup_cons in Hn as [Hni Hn]. apply Forall_cons in Hm as [Hma Hm]. rewrite insert_fresh by done. rewrite IH; [|done|].
  - unfold find_named. simpl. change (List.find _ l) with (find_named name c l). destruct (String.eqb_spec (name a) c) as [<-|Hne].
    + rewrite (proj2 (find_named_None name _ l)); [by rewrite lookup_insert_eq|].
      intros b Hb E. apply Hni. rewrite <- E. by apply list_elem_of_In, in_map, list_elem_of_In.
    + destruct (find_named name c l); [done|]. by rewrite lookup_insert_ne.
  - rewrite Forall_forall in *. intros b Hb. rewrite lookup_insert_ne; [by apply Hm|].
    intros E. apply Hni. rewrite E. by apply list_elem_of_In, in_map, list_elem_of_In.
Qed.
End entering.

Lemma insert_connection_fresh m a :
  wf_name a.(conn_connection_id) -> m !! a.(conn_connection_id) = None -> insert_connection_policy m a = <[a.(conn_connection_id) := entered a]> m.
Proof.
  intros [Ht Hn] Hm. unfold insert_connection_policy. rewrite Ht. destruct (String.eqb_spec (conn_connection_id a) ""); [done|].
  by rewrite Hm.
Qed.

Definition entered_group (g : McpGroupPolicy) : McpGroupPolicy :=
  {| grp_group_id := g.(grp_group_id); grp_read_only := g.(grp_read_only);
     grp_allow_dangerous_sql := negb g.(grp_read_only) && g.(grp_allow_dangerous_sql) |}.

Lemma insert_group_fresh m a :
  wf_name a.(grp_group_id) -> m !! a.(grp_group_id) = None -> insert_group_policy m a = <[a.(grp_group_id) := entered_group a]> m.
Proof.
  intros [Ht Hn] Hm. unfold insert_group_policy. rewrite Ht. destruct (String.eqb_spec (grp_group_id a) ""); [done|]. by rewrite Hm.
Qed.

Definition entered_database (d : McpDatabasePolicy) : McpDatabasePolicy :=
  {| db_database_name := d.(db_database_name); db_read_only := d.(db_read_only);
     db_allow_dangerous_sql := negb d.(db_read_only) && d.(db_allow_dangerous_sql) |}.

Lemma insert_database_fresh m a :
  wf_name a.(db_database_name) -> m !! a.(db_database_name) = None ->
  insert_database_policy m a = <[a.(db_database_name) := entered_database a]> m.
Proof.
  intros [Ht Hn] Hm. unfold insert_database_policy. rewrite Ht. destruct (String.eqb_spec (db_database_name a) ""); [done|]. by rewrite Hm.
Qed.

(** Looking up the normalised policies when the names are distinct and trimmed. *)
Lemma normalized_connection P c :
  NoDup (map conn_connection_id P.(connection_policies)) -> Forall (fun r => wf_name r.(conn_connection_id)) P.(connection_policies) ->
  find_connection_policy (normalized P) c = (fun r => close_connection_policy (entered r)) <$> find_connection_policy P c.
Proof.
  intros Hn Hl. change (find_connection_policy (normalized P) c) with (find_named conn_connection_id c (connection_policies (normalized P))).
  unfold normalized. cbn [connection_policies]. rewrite find_values;
    [|apply connection_names_kept|eapply map_Forall_impl; [apply connections_kept|by intros k r [? _]]].
  rewrite (enter_all conn_connection_id entered) by (done || apply insert_connection_fresh || by apply Forall_true).
  change (find_connection_policy P c) with (find_named conn_connection_id c (connection_policies P)). by destruct (find_named _ c _).
Qed.

Lemma normalized_group P g :
  NoDup (map grp_group_id P.(group_policies)) -> Forall (fun r => wf_name r.(grp_group_id)) P.(group_policies) ->
  find_group_policy (normalized P) g = (fun r => close_group_policy (entered_group r)) <$> find_group_policy P g.
Proof.
  intros Hn Hl. change (find_group_policy (normalized P) g) with (find_named grp_group_id g (group_policies (normalized P))).
  unfold normalized. cbn [group_policies]. rewrite find_values;
    [|apply group_names_kept|eapply map_Forall_impl; [apply groups_kept|by intros k r [? _]]].
  rewrite (enter_all grp_group_id entered_group) by (done || apply insert_group_fresh || by apply Forall_true).
  change (find_group_policy P g) with (find_named grp_group_id g (group_policies P)). by destruct (find_named _ g _).
Qed.

Lemma normalized_database l d :
  NoDup (map db_database_name l) -> Forall (fun r => wf_name r.(db_database_name)) l ->
  find_named db_database_name d (normalize_mcp_database_policies l) =
  (fun r => close_database_policy (entered_database r)) <$> find_named db_database_name d l.
Proof.
  intros Hn Hl. unfold normalize_mcp_database_policies. rewrite find_values;
    [|apply database_names_kept|apply foldl_map_Forall; [apply insert_database_named|apply map_Forall_empty]].
  rewrite (enter_all db_database_name entered_database) by (done || apply insert_database_fresh || by apply Forall_true).
  by destruct (find_named _ d _).
Qed.

Section btree_values.
Context {A : Type} (name : A -> string) (m : gmap string A).
Hypothesis Hm : map_Forall (fun k a => name a = k) m.

Lemma btree_values_names : map name (map snd (btree_entries String.le m)) = (btree_entries String.le m).*1.
Proof. rewrite map_map. apply map_ext_in. intros [k a] Hk%list_elem_of_In%elem_of_btree_entries. by apply Hm. Qed.

Lemma find_btree_values c : find_named name c (map snd (btree_entries String.le m)) = m !! c.
Proof.
  apply option_eq. intros a. rewrite find_named_Some by (rewrite btree_values_names; apply btree_entries_keys_NoDup). split.
  - intros [([k b] & Eb & Hk%list_elem_of_In%elem_of_btree_entries)%list_elem_of_In%in_map_iff <-]. simpl in Eb. subst b.
    by rewrite (Hm _ _ Hk).
  - intros Ha. split; [|by apply Hm]. apply list_elem_of_In, in_map_iff. exists (c, a). split; [done|].
    by apply list_elem_of_In, elem_of_btree_entries.
Qed.
End btree_values.

(** ** The projected policy *)

Section never_wider.
Context (self : McpAccessPolicy) (Hwf : wf_policy self).
Let v1 := to_v1 self.
Let hidden := (project_rules self).(pr_hidden).
Let connections := lock_hidden hidden (promote_scope self <$> (project_rules self).(pr_connections)).

Lemma hidden_iff id : id ∈ hidden <-> exists r, self.(rules) !! Connection id = Some r /\ hides self id r.
Proof.
  unfold hidden, project_rules. rewrite project_hidden. simpl. setoid_rewrite elem_of_entries. set_solver.
Qed.

Definition named_connection (k : string) (P : McpConnectionPolicy) : Prop := P.(conn_connection_id) = k /\ wf_name k.

Lemma promote_name P : (promote_scope self P).(conn_connection_id) = P.(conn_connection_id).
Proof. unfold promote_scope. destruct (database_scope P); [|done..]. by case_match. Qed.

Lemma project_connection_name id r P : (project_connection self id r P).(conn_connection_id) = P.(conn_connection_id).
Proof. unfold project_connection. destruct (connection_level self id r) as [l|]; [|done]. by destruct (to_flags _). Qed.

Lemma connections_named : map_Forall named_connection connections.
Proof.
  unfold connections, lock_hidden. assert (Hh : forall id, id ∈ hidden -> wf_name id).
  { intros id (r & Hr & _)%hidden_iff. exact (Hwf _ _ Hr). }
  assert (Hpr : map_Forall named_connection (promote_scope self <$> (project_rules self).(pr_connections))).
  { intros k P. rewrite lookup_fmap, fmap_Some. intros (P' & HP & ->). unfold named_connection. rewrite promote_name.
    rewrite project_connections_at in HP. destruct (rules self !! Connection k) as [r|] eqn:Er.
    - injection HP as <-. cbn [with_databases conn_connection_id]. rewrite project_connection_name. split; [done|]. exact (Hwf _ _ Er).
    - destruct (existsb _ _) eqn:Ee; [|done]. injection HP as <-. split; [done|].
      apply existsb_entries in Ee as (t & r & Ht & Hs). specialize (Hwf _ _ Ht). destruct t as [|?|c s v]; [done..|].
      simpl in Hs. apply String.eqb_eq in Hs. subst. by apply Hwf. }
  revert Hpr Hh. generalize (promote_scope self <$> (project_rules self).(pr_connections)). generalize hidden.
  intros l. induction l as [|id l IH]; intros m Hm Hl; [done|]. cbn [foldl]. apply IH; [|intros x Hx; apply Hl; by right].
  apply map_Forall_insert_2; [|done]. split; [|apply Hl; by left]. simpl. destruct (m !! id) as [P|] eqn:E; [|done]. by apply Hm.
Qed.

Lemma connections_at c : c ∉ hidden -> connections !! c = promote_scope self <$> (project_rules self).(pr_connections) !! c.
Proof.
  unfold connections, lock_hidden. rewrite <- lookup_fmap. generalize (promote_scope self <$> (project_rules self).(pr_connections)).
  generalize hidden. intros l. induction l as [|id l IH]; intros m Hc; [done|]. cbn [foldl]. apply not_elem_of_cons in Hc as [Hne Hc].
  rewrite IH by done. by rewrite lookup_entry_update, decide_False.
Qed.

Lemma projected_policies : (project self).(connection_policies) = map snd (btree_entries String.le connections).
Proof. unfold project. by destruct (to_flags _). Qed.

Lemma connections_keyed : map_Forall (fun k P => conn_connection_id P = k) connections.
Proof. eapply map_Forall_impl; [apply connections_named|]. by intros k P [? _]. Qed.

(** The settings of a connection that is not hidden, as the first version reads them. *)
Lemma v1_connection c :
  c ∉ hidden -> find_connection_policy v1 c =
    (fun P => close_connection_policy (entered (promote_scope self P))) <$> (project_rules self).(pr_connections) !! c.
Proof.
  intros Hc. unfold v1, to_v1. rewrite normalized_connection.
  - change (find_connection_policy (project self) c) with (find_named conn_connection_id c (connection_policies (project self))).
    rewrite projected_policies, find_btree_values by apply connections_keyed. rewrite connections_at by done.
    by destruct (pr_connections _ !! c).
  - rewrite projected_policies, btree_values_names by apply connections_keyed. apply btree_entries_keys_NoDup.
  - rewrite projected_policies. apply Forall_map, Forall_forall. intros [k P] Hk%elem_of_btree_entries. simpl.
    destruct (connections_named _ _ Hk) as [-> H]. done.
Qed.

Lemma v1_group g : find_group_policy v1 g = group_policy_of g <$> (rule self (Group g) ≫= access).
Proof.
  assert (E : (project self).(group_policies) = omap shown_group_policy (entries self.(rules))).
  { unfold project. destruct (to_flags _). cbn [group_policies]. unfold project_rules. by rewrite project_group_policies. }
  assert (Hnamed : forall e a, shown_group_policy e = Some a -> e.1 = Group (grp_group_id a)).
  { intros [[id| |] r] a; simpl; try done. unfold shown_group_policy, group_policy_of. simpl.
    destruct (access r) as [l|]; simpl; [|done]. destruct (to_flags _). by intros [= <-]. }
  unfold v1, to_v1. rewrite normalized_group.
  - change (find_group_policy (project self) g) with (find_named grp_group_id g (group_policies (project self))).
    rewrite E, (find_read_off _ Group) by (congruence || done). unfold rule. destruct (rules self !! Group g) as [r|]; [|done]. simpl.
    unfold shown_group_policy. simpl. destruct (access r) as [[]|]; done.
  - rewrite E. by apply (omap_named_NoDup _ Group), entries_NoDup.
  - rewrite E. apply Forall_forall. intros a ([t r] & He%elem_of_entries & Ha)%list_elem_of_omap.
    pose proof (Hnamed _ _ Ha) as Ht. simpl in Ht. subst t. exact (Hwf _ _ He).
Qed.

Definition group_level (groups : list string) : McpAccessLevel :=
  (foldl (fun resolved group_id =>
     match rule self (Group group_id) ≫= access with Some l => (l, SourceGroup group_id) | None => resolved end)
    (self.(default_access), SourceDefault) groups).1.

Lemma v1_group_flags groups : group_flags v1 groups = to_flags (level_max (group_level groups) LevelRead).
Proof.
  assert (Hd : (v1.(read_only), v1.(allow_dangerous_sql)) = to_flags (level_max self.(default_access) LevelRead)).
  { unfold v1, to_v1, normalized, project. by destruct (default_access self). }
  unfold group_flags, group_level. revert Hd. generalize (v1.(read_only), v1.(allow_dangerous_sql)). generalize SourceDefault.
  generalize (default_access self). induction groups as [|g groups IH]; intros l src e Hd; [done|]. cbn [foldl].
  rewrite v1_group. destruct (rule self (Group g) ≫= access) as [x|]; cbn [fmap option_fmap option_map]; [|by apply IH].
  apply IH. unfold group_policy_of. by destruct x.
Qed.

(** The least level the default and the groups give. *)
Definition base_strictest : McpAccessLevel :=
  foldl (fun strictest e => match e.1, e.2.(access) with Group _, Some l => level_min strictest l | _, _ => strictest end)
    self.(default_access) (entries self.(rules)).

Lemma base_strictest_least :
  rank base_strictest <= rank self.(default_access) /\
  forall g r l, self.(rules) !! Group g = Some r -> r.(access) = Some l -> rank base_strictest <= rank l.
Proof.
  unfold base_strictest. setoid_rewrite <- elem_of_entries. generalize (default_access self). generalize (entries self.(rules)).
  intros E. induction E as [|[t r] E IH]; intros d; cbn [foldl]; [split; [done|]; intros g r l []%not_elem_of_nil|].
  destruct (IH (match t, access r with Group _, Some l => level_min d l | _, _ => d end)) as [H1 H2]. split.
  - etrans; [exact H1|]. destruct t, (access r); rewrite ?rank_min; lia.
  - intros g r' l [Eq|Hi]%elem_of_cons Hl; [|by eapply H2]. injection Eq as <- <-. etrans; [exact H1|]. rewrite Hl, rank_min. lia.
Qed.

Lemma base_strictest_positive :
  1 <= rank self.(default_access) -> (forall g r l, self.(rules) !! Group g = Some r -> r.(access) = Some l -> 1 <= rank l) ->
  1 <= rank base_strictest.
Proof.
  unfold base_strictest. setoid_rewrite <- elem_of_entries. generalize (default_access self). generalize (entries self.(rules)).
  intros E. induction E as [|[t r] E IH]; intros d Hd Hl; cbn [foldl]; [done|]. apply IH.
  - cbn [fst snd]. destruct t as [g| |], (access r) as [l|] eqn:El; try done. rewrite rank_min. specialize (Hl g r l ltac:(by left) El). simpl. lia.
  - intros g r' l Hi. apply (Hl g). by right.
Qed.

Lemma base_below_groups groups : rank base_strictest <= rank (group_level groups).
Proof.
  destruct base_strictest_least as [H1 H2]. unfold group_level. revert H1. generalize SourceDefault. generalize (default_access self).
  induction groups as [|g groups IH]; intros d src Hd; [done|]. cbn [foldl]. unfold rule.
  destruct (rules self !! Group g) as [r|] eqn:Er; [|by apply IH]. simpl. destruct (access r) as [l|] eqn:El; [|by apply IH].
  apply IH. by eapply H2.
Qed.

(** The level of a rule applied to what it inherits. *)
Definition applied (r : McpAccessRule) (l : McpAccessLevel) : McpAccessLevel :=
  match r.(ceiling) with Some k => level_min k (default l r.(access)) | None => default l r.(access) end.

Lemma connection_access_level groups c :
  (connection_access self groups c).1 =
  match self.(rules) !! Connection c with Some r => applied r (group_level groups) | None => group_level groups end.
Proof.
  unfold connection_access, connection_rule, rule, group_level. destruct (rules self !! Connection c) as [r|]; [|done].
  by rewrite apply_access_ceiling_level, apply_access_level.
Qed.

Lemma strictest_level c :
  strictest_connection_level self c =
  match self.(rules) !! Connection c with Some r => applied r base_strictest | None => base_strictest end.
Proof.
  unfold strictest_connection_level, connection_rule, rule, applied. fold base_strictest. destruct (rules self !! Connection c) as [r|]; [|done].
  destruct (ceiling r); [apply level_min_comm|done].
Qed.

Lemma applied_mono r a b : rank a <= rank b -> rank (applied r a) <= rank (applied r b).
Proof. unfold applied. destruct (ceiling r), (access r); simpl; rewrite ?rank_min; lia. Qed.

Lemma strictest_below groups c : rank (strictest_connection_level self c) <= rank (connection_access self groups c).1.
Proof.
  rewrite connection_access_level, strictest_level. pose proof (base_below_groups groups).
  destruct (rules self !! Connection c); [by apply applied_mono|done].
Qed.

(** A pinned level is at most what the rule gives on anything above the strictest level. *)
Lemma pinned_below c r l x :
  pinned_level self c r = Some l -> (r.(access) = None -> rank (strictest_connection_level self c) <= rank x) ->
  rank l <= rank (applied r x).
Proof.
  unfold pinned_level, applied. intros Hl Hx. destruct (access r) as [a|], (ceiling r) as [k|]; simplify_eq/=; rewrite ?rank_min;
    try specialize (Hx eq_refl); lia.
Qed.

Lemma pinned_none c r x : pinned_level self c r = None -> applied r x = x.
Proof. unfold pinned_level, applied. by destruct (access r), (ceiling r). Qed.

Lemma projected_ceiling_below c r t k :
  self.(rules) !! Connection c = Some r -> r.(toolset_ceilings) !! t = Some k -> t <> SALESFORCE_WRITE_TOOLSET ->
  exists k', projected_toolset_ceiling self c = Some k' /\ rank k' <= rank k.
Proof.
  intros Hr Hk Ht. unfold projected_toolset_ceiling, connection_rule, rule. rewrite Hr. cbn [mbind option_bind].
  assert (Hi : (t, k) ∈ List.filter (fun tc => negb (String.eqb tc.1 SALESFORCE_WRITE_TOOLSET)) (btree_entries String.le r.(toolset_ceilings))).
  { apply elem_of_bool_filter. rewrite elem_of_btree_entries. split; [done|]. by apply negb_true_iff, String.eqb_neq. }
  revert Hi. generalize (List.filter (fun tc : string * McpAccessLevel => negb (String.eqb tc.1 SALESFORCE_WRITE_TOOLSET))
    (btree_entries String.le r.(toolset_ceilings))). intros l. induction l as [|[t' k''] l IH]; [by intros ?%not_elem_of_nil|].
  intros [Eq|Hi]%elem_of_cons; cbn [foldr].
  - injection Eq as <- <-. destruct (foldr _ None l) as [k'|]; simpl; eexists; (split; [done|]); rewrite ?rank_min; lia.
  - destruct (IH Hi) as (k' & E & Hle). rewrite E. simpl. eexists. split; [done|]. rewrite rank_min. lia.
Qed.

Definition strict : bool := negb (bool_decide (hidden = [])) || restricted_ancestors self.

Lemma v1_ids :
  v1.(allowed_connection_ids) = trimmed_names <$>
    (if strict then Some (explicitly_visible self hidden)
     else List.filter (fun id => negb (bool_decide (id ∈ hidden))) <$>
       (if bool_decide (self.(visibility) = VisibleSelected) then Some (omap shown_id (entries self.(rules))) else None)).
Proof.
  unfold v1, to_v1, normalized, project, strict. fold hidden. destruct (to_flags _). cbn [allowed_connection_ids].
  destruct (negb _ || _); [done|]. unfold project_rules. rewrite project_ids. simpl. by destruct (bool_decide _).
Qed.

Lemma v1_group_ids g :
  g ∈ v1.(allowed_group_ids) -> strict = false /\ visible_is true (rule self (Group g)) = true.
Proof.
  unfold v1, to_v1, normalized, project, strict. fold hidden. destruct (to_flags _). cbn [allowed_connection_ids allowed_group_ids].
  destruct (negb _ || _); [by intros (_ & s & []%not_elem_of_nil & _)%elem_of_trimmed_names|].
  destruct (trimmed_names <$> _); [|by intros []%not_elem_of_nil].
  unfold normalize_mcp_ids, project_rules. rewrite project_group_ids. cbn [pr_group_ids app].
  rewrite elem_of_trimmed_names. intros (_ & g' & ([t r] & Ht & Hg)%list_elem_of_omap & <-). split; [done|].
  unfold shown_group in Hg. destruct t as [id| |]; simpl in Hg; try done.
  destruct (bool_decide_reflect (visible r = Some true)) as [Hv|]; [|done]. simpl in Hg. case_bool_decide; [|done]. injection Hg as <-.
  apply elem_of_entries in Ht. destruct (Hwf _ _ Ht) as [-> _]. unfold visible_is, rule. rewrite Ht. simpl. rewrite Hv. done.
Qed.

(** A connection with rule [r] is in the strict allowlist. *)
Lemma explicitly_visible_iff c :
  c ∈ explicitly_visible self hidden <-> (c ∉ hidden) /\ exists r, self.(rules) !! Connection c = Some r /\ r.(visible) = Some true /\
    (restricted_ancestors self = true -> exists a, r.(access) = Some a /\ a <> LevelNone).
Proof.
  unfold explicitly_visible. rewrite list_elem_of_omap. split.
  - intros ([t r] & Ht%elem_of_entries & Hc). destruct t as [|id|]; simpl in Hc; try done.
    destruct (bool_decide_reflect (visible r = Some true)) as [Hv|]; [|done]. destruct (bool_decide_reflect (id ∈ hidden)); [done|].
    simpl in Hc. destruct (negb (restricted_ancestors self) || _) eqn:E; [|done]. injection Hc as <-. split; [done|]. exists r. split_and!; [done..|].
    intros Hr. rewrite Hr in E. simpl in E. destruct (access r) as [a|]; [|done]. exists a. split; [done|]. by intros ->.
  - intros [Hc (r & Hr & Hv & Ha)]. exists (Connection c, r). rewrite elem_of_entries. split; [done|]. simpl. rewrite Hv.
    rewrite (bool_decide_eq_true_2 (Some true = Some true)) by done. rewrite (bool_decide_eq_false_2 (c ∈ hidden)) by done. simpl.
    destruct (restricted_ancestors self); [|done]. destruct (Ha eq_refl) as (a & -> & Hn). by destruct a.
Qed.

Lemma wf_explicitly_visible : Forall wf_name (explicitly_visible self hidden).
Proof. apply Forall_forall. intros c (_ & r & Hr & _)%explicitly_visible_iff. exact (Hwf _ _ Hr). Qed.

Lemma shown_ids_iff c :
  c ∈ omap shown_id (entries self.(rules)) <->
  exists r, self.(rules) !! Connection c = Some r /\ denies r = false /\ r.(visible) = Some true.
Proof.
  rewrite list_elem_of_omap. unfold shown_id. split.
  - intros ([t r] & Ht%elem_of_entries & Hc). destruct t as [|id|]; simpl in Hc; try done. destruct (denies r) eqn:Ed; [done|].
    case_bool_decide as Hv; [|done]. injection Hc as <-. eauto.
  - intros (r & Hr & Hd & Hv). exists (Connection c, r). rewrite elem_of_entries. split; [done|]. simpl. rewrite Hd, Hv. done.
Qed.

Lemma not_hidden_shown c : c ∉ hidden -> visible_is false (connection_rule self c) = false.
Proof.
  intros Hc. unfold visible_is, connection_rule, rule. destruct (rules self !! Connection c) as [r|] eqn:Er; [|done]. simpl.
  apply bool_decide_eq_false_2. intros Hv. apply Hc, hidden_iff. exists r. split; [done|]. left. unfold denies. by rewrite Hv.
Qed.

(** What is known of a connection the projected policy exposes. *)
Lemma v1_exposes path c :
  policy_allows_connection v1 path c = true ->
  (c ∉ hidden) /\ connection_visible self (default [] (McpPolicy.ids <$> path)) c = true /\
  (restricted_ancestors self = true -> exists r a, self.(rules) !! Connection c = Some r /\ r.(access) = Some a /\ a <> LevelNone).
Proof.
  unfold policy_allows_connection. rewrite v1_ids. destruct strict eqn:Es.
  - cbn [fmap option_fmap option_map]. rewrite existsb_eqb. intros Ha. assert (Hc : c ∈ explicitly_visible self hidden).
    { apply orb_true_iff in Ha as [Ha%bool_decide_eq_true|Ha]; [by rewrite elem_of_trimmed_wf in Ha by apply wf_explicitly_visible|].
      destruct path as [path|]; [|done]. apply existsb_exists in Ha as (g & _ & Hg). rewrite existsb_eqb in Hg.
      apply bool_decide_eq_true, v1_group_ids in Hg as [Hg _]. congruence. }
    apply explicitly_visible_iff in Hc as [Hh (r & Hr & Hv & Ha')]. split_and!; [done| |naive_solver].
    unfold connection_visible. rewrite not_hidden_shown by done. destruct (visibility self); [done|].
    unfold visible_is at 1, connection_rule, rule. rewrite Hr. simpl. by rewrite Hv.
  - intros Ha. assert (Hh : hidden = [] /\ restricted_ancestors self = false).
    { unfold strict in Es. apply orb_false_iff in Es as [Hh Hr]. split; [|done]. by apply negb_false_iff, bool_decide_eq_true in Hh. }
    destruct Hh as [Hh Hr]. assert (Hc : c ∉ hidden) by (rewrite Hh; apply not_elem_of_nil). split_and!; [done| |congruence].
    unfold connection_visible. rewrite not_hidden_shown by done. destruct (visibility self) eqn:Ev; [done|]. simpl in Ha.
    apply orb_true_iff in Ha as [Ha|Ha]; apply orb_true_iff; [left|right].
    + rewrite existsb_eqb in Ha. apply bool_decide_eq_true in Ha. rewrite elem_of_trimmed_wf in Ha.
      * apply elem_of_bool_filter in Ha as [(r & Hr' & _ & Hv)%shown_ids_iff _].
        unfold visible_is, connection_rule, rule. rewrite Hr'. simpl. by rewrite Hv.
      * apply Forall_forall. intros x [(r & Hr' & _)%shown_ids_iff _]%elem_of_bool_filter. exact (Hwf _ _ Hr').
    + destruct path as [path|]; [|done]. simpl. apply existsb_exists in Ha as (g & Hg & Ha). apply existsb_exists. exists g. split; [done|].
      rewrite existsb_eqb in Ha. by apply bool_decide_eq_true, v1_group_ids in Ha as [_ Ha].
Qed.

(** The mode of a connection: its own level if the rules give one. *)
Definition projected_flags (c : string) (e : bool * bool) : bool * bool :=
  match self.(rules) !! Connection c ≫= connection_level self c with Some l => to_flags (level_max l LevelRead) | None => e end.

(** The settings of a connection before normalisation. *)
Definition settings (c : string) : option McpConnectionPolicy := promote_scope self <$> (project_rules self).(pr_connections) !! c.

Lemma promote_exec P :
  connection_flags (promote_scope self P) = connection_flags P /\ conn_connection_id (promote_scope self P) = conn_connection_id P /\
  execution_mode_policy_version (promote_scope self P) = execution_mode_policy_version P /\
  allow_salesforce_dml (promote_scope self P) = allow_salesforce_dml P.
Proof.
  unfold promote_scope. destruct (database_scope P); [|done..].
  by destruct (existsb (fun e => is_scope_of (conn_connection_id P) "database" e.1) (entries self.(rules))).
Qed.

Lemma settings_exec c P :
  settings c = Some P ->
  P.(conn_connection_id) = c /\ P.(execution_mode_policy_version) = Some MCP_EXECUTION_POLICY_VERSION /\
  (forall e, closed_flags e -> connection_flags P e = projected_flags c e) /\
  (P.(allow_salesforce_dml) = true ->
     exists r k, self.(rules) !! Connection c = Some r /\ r.(toolset_ceilings) !! SALESFORCE_WRITE_TOOLSET = Some k /\ level_lt LevelRead k = true).
Proof.
  unfold settings. rewrite fmap_Some. intros (P' & HP & ->). rewrite project_connections_at in HP.
  unfold projected_flags. destruct (rules self !! Connection c) as [r|] eqn:Er.
  - injection HP as <-. destruct (promote_exec (with_databases self c (project_connection self c r (blank c)) (entries self.(rules)))) as (-> & -> & -> & ->).
    change (connection_flags (with_databases self c ?P _)) with (connection_flags P). cbn [with_databases conn_connection_id execution_mode_policy_version allow_salesforce_dml].
    unfold project_connection, connection_flags, is_versioned. cbn [mbind option_bind].
    destruct (connection_level self c r) as [l|]; [destruct (to_flags (level_max l LevelRead)) as [ro dang] eqn:Ef|]; simpl; split_and!; try done.
    + intros e He. pose proof (projected_closed l) as Hcl. rewrite Ef in Hcl. f_equal. unfold closed_flags in Hcl. simpl in Hcl. by destruct ro, dang; naive_solver.
    + destruct (toolset_ceilings r !! _) as [k|] eqn:Ek; [|done]. intros [Hk _]%andb_true_iff. eauto.
    + destruct (toolset_ceilings r !! _) as [k|] eqn:Ek; [|done]. intros [Hk _]%andb_true_iff. eauto.
  - destruct (existsb _ _); [|done]. injection HP as <-. destruct (promote_exec (with_databases self c (blank c) (entries self.(rules)))) as (-> & -> & -> & ->). done.
Qed.

Lemma closed_exec P e : closed_flags e ->
  connection_flags (close_connection_policy (entered P)) e = connection_flags P e.
Proof.
  intros He. unfold close_connection_policy, connection_flags, is_versioned. destruct (database_scope (entered P)) eqn:E; simpl;
    (destruct (execution_mode_configured P); [|done]); case_bool_decide; destruct (conn_read_only P); simpl; try done;
    unfold apply_ceiling; simpl; by rewrite orb_true_r.
Qed.

Lemma no_empty_database r : canonical_connection r -> find_database_policy r "" = None.
Proof.
  intros Hr. destruct (find_database_policy r "") as [dp|] eqn:E; [|done]. apply List.find_some in E as [Hdp E%String.eqb_eq].
  pose proof (cc_listed _ Hr) as Hlist. rewrite Forall_forall in Hlist. specialize (Hlist dp (proj2 (list_elem_of_In _ _) Hdp)).
  pose proof (cc_databases _ Hr) as Hwf'. rewrite Forall_forall in Hwf'. by destruct (Hwf' _ Hlist).
Qed.

Lemma v1_settings c : (c ∉ hidden) -> find_connection_policy v1 c = (fun P => close_connection_policy (entered P)) <$> settings c.
Proof. intros Hc. rewrite v1_connection by done. unfold settings. by destruct (pr_connections _ !! c). Qed.

Lemma v1_closed groups : closed_flags (group_flags v1 groups).
Proof. rewrite v1_group_flags. apply projected_closed. Qed.

(** The mode of the connection itself. *)
Lemma v1_effective_connection groups c :
  c ∉ hidden -> effective_database_execution_policy_with_groups v1 groups c "" = projected_flags c (group_flags v1 groups).
Proof.
  intros Hc. rewrite effective_flags. rewrite v1_settings by done. destruct (settings c) as [P|] eqn:EP; cbn [fmap option_fmap option_map].
  - rewrite no_empty_database.
    + rewrite closed_exec by apply v1_closed. by apply settings_exec, v1_closed.
    + destruct (found_canonical (project self) c (close_connection_policy (entered P))) as [H _]; [|done].
      fold (to_v1 self). fold v1. by rewrite v1_settings, EP.
  - unfold projected_flags. unfold settings in EP. rewrite project_connections_at in EP. by destruct (rules self !! Connection c).
Qed.

Lemma shown_database_iff c d :
  d ∈ omap (shown_database c) (entries self.(rules)) <->
  exists u, self.(rules) !! Scope c "database" d = Some u /\ u.(visible) = Some true /\ denies u = false.
Proof.
  rewrite list_elem_of_omap. unfold shown_database. split.
  - intros ([t u] & Ht%elem_of_entries & Hd). destruct t as [| |id sc v]; simpl in Hd; try done.
    destruct (String.eqb_spec id c) as [->|]; [|done]. destruct (String.eqb_spec sc "database") as [->|]; [|done]. simpl in Hd.
    destruct (bool_decide_reflect (visible u = Some true)) as [Hv|]; [|done]. destruct (denies u) eqn:E; [done|]. injection Hd as <-. eauto.
  - intros (u & Hu & Hv & Hd). exists (Scope c "database" d, u). rewrite elem_of_entries. split; [done|]. simpl.
    by rewrite String.eqb_refl, Hv, Hd.
Qed.

(** The policy of a database from its rule. *)
Definition projected_database (c d : string) : option McpDatabasePolicy :=
  u ← self.(rules) !! Scope c "database" d; if denies u then None else database_policy_of d <$> database_level self c u.

Lemma shown_policy_named c e a : shown_database_policy self c e = Some a -> e.1 = Scope c "database" (db_database_name a).
Proof.
  destruct e as [[| |id sc v] r]; unfold shown_database_policy; simpl; try done.
  destruct (String.eqb_spec id c) as [->|]; [|done]. destruct (String.eqb_spec sc "database") as [->|]; [|done]. simpl.
  destruct (denies r); [done|]. simpl. destruct (database_level self c r) as [l|]; [|done]. simpl. unfold database_policy_of.
  destruct (to_flags _). by intros [= <-].
Qed.

Lemma find_shown_policy c d : find_named db_database_name d (omap (shown_database_policy self c) (entries self.(rules))) = projected_database c d.
Proof.
  rewrite (find_read_off db_database_name (Scope c "database")); [|congruence|apply shown_policy_named].
  unfold projected_database. destruct (rules self !! Scope c "database" d) as [u|]; [|done]. simpl. unfold shown_database_policy. simpl.
  rewrite String.eqb_refl. simpl. by destruct (denies u).
Qed.

(** The settings of a connection before sub-scopes are promoted. *)
Lemma settings_inv c P :
  settings c = Some P -> exists P0, P = promote_scope self (with_databases self c P0 (entries self.(rules))) /\
    P0.(conn_connection_id) = c /\ P0.(allowed_databases) = [] /\ P0.(database_policies) = [] /\
    sub_scope_of P0.(database_scope) = sub_scope_mode self c.
Proof.
  unfold settings, sub_scope_mode, connection_rule, rule. rewrite fmap_Some. intros (P' & HP & ->). rewrite project_connections_at in HP.
  destruct (rules self !! Connection c) as [r|] eqn:Er.
  - injection HP as <-. eexists. split; [done|]. rewrite project_connection_name. unfold project_connection.
    destruct (connection_level self c r) as [l|]; [destruct (to_flags _)|]; simpl; (split_and!; [done..|]); by destruct (sub_scope r) as [[]|].
  - destruct (existsb _ _); [|done]. injection HP as <-. by exists (blank c).
Qed.

Lemma settings_databases c P :
  settings c = Some P ->
  P.(allowed_databases) = omap (shown_database c) (entries self.(rules)) /\
  P.(database_policies) = (match P.(database_scope) with
    | ScopeSelected => P.(database_policies)
    | _ => omap (shown_database_policy self c) (entries self.(rules)) end) /\
  (P.(database_scope) = ScopeAll -> sub_scope_mode self c = SubAll /\ forall d, self.(rules) !! Scope c "database" d = None) /\
  (P.(database_scope) = ScopeSelected -> sub_scope_mode self c <> SubNone /\
    closed_databases P.(database_policies) /\ Forall (fun dp => wf_name dp.(db_database_name)) P.(database_policies) /\
    forall d, d ∈ P.(allowed_databases) -> find_named db_database_name d P.(database_policies) = projected_database c d).
Proof.
  intros (P0 & -> & Hid & Ha & Hd & Hmode)%settings_inv. rewrite <- Hmode. clear Hmode.
  set (E := entries self.(rules)) in *. set (W := with_databases self c P0 E).
  assert (HWa : allowed_databases W = omap (shown_database c) E) by (unfold W, with_databases; simpl; by rewrite Ha).
  assert (HWd : database_policies W = omap (shown_database_policy self c) E) by (unfold W, with_databases; simpl; by rewrite Hd).
  assert (HWi : conn_connection_id W = c) by done.
  assert (HWs : database_scope W <> ScopeNone -> database_scope W = database_scope P0)
    by (unfold W, with_databases; simpl; by destruct (existsb (restricting c) E)).
  assert (Hclosed : closed_databases (database_policies W)).
  { rewrite HWd. split; [apply (omap_named_NoDup _ (Scope c "database")); [apply shown_policy_named|apply entries_NoDup]|].
    apply Forall_forall. intros dp ([t u] & _ & Hdp)%list_elem_of_omap. unfold shown_database_policy in Hdp. destruct t; simpl in Hdp; try done.
    destruct (_ && _ && _); [|done]. destruct (database_level self c u) as [[]|]; simplify_eq/=; done. }
  assert (Hnames : Forall (fun dp => wf_name dp.(db_database_name)) (database_policies W)).
  { rewrite HWd. apply Forall_forall. intros dp ([t u] & Ht%elem_of_entries & Hdp)%list_elem_of_omap.
    pose proof (shown_policy_named _ _ _ Hdp) as Et. simpl in Et. subst t. destruct (Hwf _ _ Ht) as [_ H]. done. }
  assert (Hfind : forall d, find_named db_database_name d (database_policies W) = projected_database c d) by (intros d; rewrite HWd; apply find_shown_policy).
  clearbody W. unfold promote_scope. rewrite HWi. destruct (database_scope W) eqn:Es; [destruct (existsb _ (entries self.(rules))) eqn:Edb|..].
  - simpl. split_and!; [done..|]. intros _. split_and!; [by rewrite <- HWs| by apply closed_filter| |].
    + rewrite Forall_forall in *. intros dp [Hdp _]%elem_of_bool_filter. by apply Hnames.
    + intros d Hd'. pose proof (find_named_filter db_database_name (fun n : string => bool_decide (n ∈ allowed_databases W)) d (database_policies W)) as H.
      etrans; [exact H|]. cbn beta. by rewrite bool_decide_eq_true_2.
  - rewrite Es. split_and!; [done..| |done]. intros _. split; [by rewrite <- HWs|]. intros d.
    destruct (rules self !! Scope c "database" d) as [u|] eqn:Eu; [|done].
    pose proof (existsb_entries_false _ _ _ _ Edb Eu) as H. simpl in H. by rewrite !String.eqb_refl in H.
  - rewrite Es. split_and!; [done..|]. intros _. split_and!; [by rewrite <- HWs|done..].
  - rewrite Es. split_and!; done.
Qed.

(** A connection the projected policy exposes. *)
Definition exposed (c : string) : Prop :=
  (c ∉ hidden) /\
  (restricted_ancestors self = true -> exists r a, self.(rules) !! Connection c = Some r /\ r.(access) = Some a /\ a <> LevelNone).

Lemma exposed_level c r l :
  exposed c -> self.(rules) !! Connection c = Some r -> connection_level self c r = Some l -> 1 <= rank l.
Proof.
  intros [Hc _] Hr Hl. destruct l; simpl; try lia. destruct Hc. apply hidden_iff. exists r. split; [done|]. by right.
Qed.

Lemma exposed_rule c r : exposed c -> self.(rules) !! Connection c = Some r -> denies r = false.
Proof.
  intros [Hc _] Hr. apply not_true_iff_false. intros Hd. destruct Hc. apply hidden_iff. exists r. split; [done|]. by left.
Qed.

Lemma denies_false r : denies r = false -> r.(visible) <> Some false /\ r.(access) <> Some LevelNone /\ r.(ceiling) <> Some LevelNone.
Proof.
  unfold denies. intros [[H1 H2]%orb_false_iff H3]%orb_false_iff. by apply bool_decide_eq_false in H1, H2, H3.
Qed.

Lemma base_positive : restricted_ancestors self = false -> 1 <= rank base_strictest.
Proof.
  unfold restricted_ancestors. intros [Hd Hg]%orb_false_iff. apply bool_decide_eq_false in Hd. apply base_strictest_positive.
  - destruct (default_access self); simpl; [done|lia..].
  - intros g r l Hr Hl. pose proof (existsb_entries_false _ _ _ _ Hg Hr) as H. simpl in H. apply denies_false in H as (_ & H & _).
    destruct l; simpl; [congruence|lia..].
Qed.

Lemma strictest_positive c : exposed c -> 1 <= rank (strictest_connection_level self c).
Proof.
  intros Hc. rewrite strictest_level. destruct (rules self !! Connection c) as [r|] eqn:Er.
  - destruct (denies_false _ (exposed_rule _ _ Hc Er)) as (_ & Ha & Hk). unfold applied.
    assert (1 <= rank (default base_strictest (access r))) as H.
    { destruct (access r) as [[]|] eqn:Ea; simpl; try lia; [congruence|]. destruct Hc as [_ Hc].
      destruct (restricted_ancestors self) eqn:Er'; [|by apply base_positive]. destruct (Hc eq_refl) as (r' & a & ? & ? & _). congruence. }
    destruct (ceiling r) as [[]|]; rewrite ?rank_min; cbn [rank]; try lia; congruence.
  - destruct Hc as [_ Hc]. destruct (restricted_ancestors self) eqn:Er'; [|by apply base_positive].
    destruct (Hc eq_refl) as (r' & a & ? & ? & _). congruence.
Qed.

(** The mode of an exposed connection is at most its level, and at most the
    ceiling of each of its toolsets. *)
Lemma connection_bound c groups :
  exposed c ->
  let e := projected_flags c (group_flags v1 groups) in
  closed_flags e /\ rank (from_flags_pair e) <= rank (connection_access self groups c).1 /\
  (forall k, projected_toolset_ceiling self c = Some k -> rank (from_flags_pair e) <= rank k /\ 1 <= rank k).
Proof.
  intros Hc. cbn zeta. rewrite connection_access_level. unfold projected_flags.
  assert (Hg : 1 <= rank (group_level groups) \/ exists r a, self.(rules) !! Connection c = Some r /\ r.(access) = Some a).
  { destruct (restricted_ancestors self) eqn:Er; [destruct Hc as [_ Hc]; destruct (Hc Er) as (r & a & ? & ? & _); eauto|].
    left. pose proof (base_below_groups groups). pose proof (base_positive Er). lia. }
  destruct (rules self !! Connection c) as [r|] eqn:Er; cbn [mbind option_bind].
  - destruct (connection_level self c r) as [l|] eqn:El.
    + pose proof (exposed_level _ _ _ Hc Er El) as Hl. rewrite rank_projected. split; [apply projected_closed|].
      assert (Hb : forall p, pinned_level self c r = Some p -> rank p <= rank (applied r (group_level groups))).
      { intros p Hp. eapply pinned_below; [exact Hp|]. intros Ha. rewrite strictest_level, Er. unfold applied. rewrite Ha. simpl.
        pose proof (base_below_groups groups). destruct (ceiling r); rewrite ?rank_min; lia. }
      unfold connection_level in El. destruct (projected_toolset_ceiling self c) as [t|].
      * injection El as <-. rewrite rank_min in Hl |- *. split; [|intros k [= <-]; lia].
        destruct (pinned_level self c r) as [p|]; simpl in *; [specialize (Hb p eq_refl); lia|].
        pose proof (strictest_below groups c) as Hs. rewrite connection_access_level, Er in Hs. simpl in *. lia.
      * split; [specialize (Hb l El); lia|done].
    + unfold connection_level in El. destruct (projected_toolset_ceiling self c) as [t|] eqn:Et; [done|].
      rewrite v1_group_flags, rank_projected, (pinned_none _ _ _ El). split; [apply projected_closed|]. split; [|done].
      destruct Hg as [Hg|(r' & a & Hr' & Ha)]; [lia|]. simplify_eq. unfold pinned_level in El. rewrite Ha in El. by destruct (ceiling r').
  - rewrite v1_group_flags, rank_projected. split; [apply projected_closed|]. split.
    + destruct Hg as [Hg|(r' & a & Hr' & Ha)]; [lia|done].
    + unfold projected_toolset_ceiling, connection_rule, rule. by rewrite Er.
Qed.

Lemma entered_closed_database dp :
  (dp.(db_read_only) = true -> dp.(db_allow_dangerous_sql) = false) -> close_database_policy (entered_database dp) = dp.
Proof. destruct dp as [n [] []]; unfold close_database_policy; simpl; naive_solver. Qed.

Lemma closed_find_database P d :
  P.(database_scope) = ScopeSelected -> closed_databases P.(database_policies) ->
  Forall (fun dp => wf_name dp.(db_database_name)) P.(database_policies) -> Forall wf_name P.(allowed_databases) ->
  d ∈ P.(allowed_databases) ->
  find_database_policy (close_connection_policy (entered P)) d = find_named db_database_name d P.(database_policies).
Proof.
  intros Hs [Hn Hcl] Hw Ha Hd. change (find_database_policy ?r d) with (find_named db_database_name d (database_policies r)).
  unfold close_connection_policy. change (database_scope (entered P)) with (database_scope P). rewrite Hs. cbn [database_policies entered allowed_databases].
  pose proof (find_named_filter db_database_name
    (fun n : string => bool_decide (n ∈ normalize_mcp_database_names (normalize_mcp_database_names P.(allowed_databases))))
    d (normalize_mcp_database_policies P.(database_policies))) as H.
  etrans; [exact H|]. cbn beta. rewrite bool_decide_eq_true_2.
  - rewrite normalized_database by done. destruct (find_named db_database_name d (database_policies P)) as [dp|] eqn:E; [|done]. simpl.
    f_equal. apply entered_closed_database. apply List.find_some in E as [Hi _]. rewrite Forall_forall in Hcl. by apply Hcl, list_elem_of_In.
  - apply elem_of_trimmed_wf; [apply trimmed_names_wf|]. by apply elem_of_trimmed_wf.
Qed.

Lemma shown_databases_wf c : Forall wf_name (omap (shown_database c) (entries self.(rules))).
Proof. apply Forall_forall. intros d (u & Hu & _)%shown_database_iff. by destruct (Hwf _ _ Hu). Qed.

Lemma closed_scope P d :
  database_in_scope (match database_scope (close_connection_policy (entered P)) with
    | ScopeAll => DatabasesAll
    | ScopeSelected => DatabasesSelected (allowed_databases (close_connection_policy (entered P)))
    | ScopeNone => DatabasesNone end) d = true ->
  Forall wf_name P.(allowed_databases) ->
  P.(database_scope) = ScopeAll \/ P.(database_scope) = ScopeSelected /\ d ∈ P.(allowed_databases).
Proof.
  unfold close_connection_policy. change (database_scope (entered P)) with (database_scope P).
  destruct (database_scope P) eqn:E; simpl; [by left| |done]. rewrite existsb_eqb. intros Hd%bool_decide_eq_true Hw. right. split; [done|].
  rewrite elem_of_trimmed_wf in Hd by apply trimmed_names_wf. by rewrite elem_of_trimmed_wf in Hd.
Qed.

(** A database the projected policy admits: it has no rule of its own below a
    connection that admits all of them, or a rule that shows it. *)
Lemma v1_admits groups c d :
  (c ∉ hidden) -> d <> "" -> database_in_scope (database_scope_for_connection v1 c) d = true ->
  let e := projected_flags c (group_flags v1 groups) in
  (sub_scope_mode self c = SubAll /\ self.(rules) !! Scope c "database" d = None /\
     effective_database_execution_policy_with_groups v1 groups c d = e) \/
  (exists u, self.(rules) !! Scope c "database" d = Some u /\ u.(visible) = Some true /\ denies u = false /\
     sub_scope_mode self c <> SubNone /\
     effective_database_execution_policy_with_groups v1 groups c d =
       match database_level self c u with Some l => to_flags (level_max l LevelRead) | None => e end).
Proof.
  intros Hc Hd. unfold database_scope_for_connection. rewrite effective_flags, v1_settings by done.
  destruct (settings c) as [P|] eqn:EP; cbn [fmap option_fmap option_map]; cbn zeta.
  - destruct (settings_exec _ _ EP) as (_ & Hver & He & _). destruct (settings_databases _ _ EP) as (Ha & _ & Hall & Hsel).
    rewrite closed_exec, He by apply v1_closed. intros Hin%closed_scope; [|rewrite Ha; apply shown_databases_wf].
    assert (Hcan : canonical_connection (close_connection_policy (entered P))).
    { apply (found_canonical (project self) c). fold (to_v1 self). fold v1. by rewrite v1_settings, EP. }
    destruct Hin as [Hs|[Hs Hd']].
    + left. destruct (Hall Hs) as [Hm Hnone]. split_and!; [done|done|].
      destruct (cc_scope _ Hcan) as [_ Hnil]; [unfold close_connection_policy; simpl; by rewrite Hs|].
      unfold find_database_policy. by rewrite Hnil.
    + right. destruct (Hsel Hs) as (Hm & Hcl & Hw & Hfind). rewrite closed_find_database by (done || rewrite Ha; apply shown_databases_wf).
      rewrite Hfind by done. rewrite Ha in Hd'. apply shown_database_iff in Hd' as (u & Hu & Hv & Hden). exists u. split_and!; [done..|].
      unfold projected_database. rewrite Hu. simpl. rewrite Hden. destruct (database_level self c u) as [l|]; [|done]. simpl.
      unfold database_flags. replace (is_versioned _) with true; [by destruct l|].
      unfold is_versioned, close_connection_policy. destruct (database_scope (entered P)); simpl; by rewrite Hver.
  - intros _. left. unfold settings in EP. apply fmap_None in EP. rewrite project_connections_at in EP.
    unfold sub_scope_mode, connection_rule, rule, projected_flags.
    destruct (rules self !! Connection c) as [r|]; [done|]. split_and!; [done| |done]. destruct (existsb _ _) eqn:Ee; [done|].
    destruct (rules self !! Scope c "database" d) as [u|] eqn:Eu; [|done].
    pose proof (existsb_entries_false _ _ _ _ Ee Eu) as H. simpl in H. by rewrite String.eqb_refl in H.
Qed.

Lemma v1_salesforce c :
  (c ∉ hidden) -> connection_allows_salesforce_dml v1 c = true ->
  exists k, toolset_ceiling self c SALESFORCE_WRITE_TOOLSET = Some k /\ level_lt LevelRead k = true.
Proof.
  intros Hc. unfold connection_allows_salesforce_dml. rewrite v1_settings by done. destruct (settings c) as [P|] eqn:EP; [|done].
  simpl. intros [Hs _]%andb_true_iff. destruct (settings_exec _ _ EP) as (_ & _ & _ & Hsf).
  assert (HsP : P.(allow_salesforce_dml) = true).
  { unfold close_connection_policy in Hs. destruct (database_scope (entered P)); simpl in Hs; by destruct (conn_read_only P). }
  destruct (Hsf HsP) as (r & k & Hr & Hk & Hlt). exists k. unfold toolset_ceiling, connection_rule, rule. rewrite Hr. simpl. by rewrite Hk.
Qed.
Lemma pinned_positive c u l : exposed c -> denies u = false -> pinned_level self c u = Some l -> 1 <= rank l.
Proof.
  intros Hc (_ & Ha & Hk)%denies_false Hl. pose proof (strictest_positive c Hc). unfold pinned_level in Hl.
  destruct (access u) as [[]|], (ceiling u) as [[]|]; try congruence; simplify_eq/=; rewrite ?rank_min; cbn [rank]; lia.
Qed.

(** The mode of a database with a rule that shows it. *)
Lemma database_bound c groups u :
  exposed c -> denies u = false ->
  let e := projected_flags c (group_flags v1 groups) in
  let mode := from_flags_pair (match database_level self c u with Some l => to_flags (level_max l LevelRead) | None => e end) in
  rank mode <= rank (applied u (connection_access self groups c).1) /\
  (forall k, projected_toolset_ceiling self c = Some k -> rank mode <= rank k).
Proof.
  intros Hc Hu. destruct (connection_bound c groups Hc) as (_ & Hb & Ht). cbn zeta. unfold database_level.
  destruct (pinned_level self c u) as [p|] eqn:Ep; cbn [fmap option_fmap option_map].
  - pose proof (pinned_positive _ _ _ Hc Hu Ep) as Hp.
    assert (Hle : rank p <= rank (applied u (connection_access self groups c).1)) by (eapply pinned_below; [exact Ep|]; intros _; apply strictest_below).
    rewrite rank_projected. destruct (projected_toolset_ceiling self c) as [t|]; [|split; [lia|done]].
    destruct (Ht t eq_refl) as [_ Hpos]. rewrite rank_min. split; [lia|]. intros k [= <-]. lia.
  - rewrite (pinned_none _ _ _ Ep). split; [done|]. intros k Hk. by apply Ht.
Qed.

Lemma toolset_bound c toolset k :
  toolset <> SALESFORCE_WRITE_TOOLSET -> toolset_ceiling self c toolset = Some k ->
  exists k', projected_toolset_ceiling self c = Some k' /\ rank k' <= rank k.
Proof.
  intros Hne. unfold toolset_ceiling, connection_rule, rule. destruct (rules self !! Connection c) as [r|] eqn:Er; simpl.
  - destruct (toolset_ceilings r !! toolset) as [k0|] eqn:Ek.
    + intros [= <-]. by eapply projected_ceiling_below.
    + by destruct (String.eqb_spec toolset SALESFORCE_WRITE_TOOLSET).
  - by destruct (String.eqb_spec toolset SALESFORCE_WRITE_TOOLSET).
Qed.
End never_wider.

(** What the projected policy allows is within the access policy. *)
Lemma projected_bounds self path c d :
  wf_policy self ->
  let v1 := to_v1 self in
  let groups := default [] (McpPolicy.ids <$> path) in
  let mode := from_flags_pair (effective_database_execution_policy_with_groups v1 groups c d) in
  let resolved := resolve self groups c (database_scope_of d) in
  policy_allows_connection v1 path c = true ->
  d = "" \/ database_in_scope (database_scope_for_connection v1 c) d = true ->
  resolved.(res_visible) = true /\ level_le mode resolved.(level) = true /\
  (forall toolset k, toolset <> SALESFORCE_WRITE_TOOLSET -> toolset_ceiling self c toolset = Some k -> level_le mode k = true) /\
  (connection_allows_salesforce_dml v1 c = true ->
     exists k, toolset_ceiling self c SALESFORCE_WRITE_TOOLSET = Some k /\ level_lt LevelRead k = true).
Proof.
  intros Hwf v1 groups mode resolved Hallow Hd. subst v1. destruct (v1_exposes self Hwf _ _ Hallow) as (Hh & Hvis & Hres).
  assert (Hexp : exposed self c) by done. destruct (connection_bound self Hwf c groups Hexp) as (_ & Hb & Ht).
  assert (H : resolved.(res_visible) = true /\ rank mode <= rank (raw_level self groups c (database_scope_of d)) /\
    (forall k, projected_toolset_ceiling self c = Some k -> rank mode <= rank k)).
  { unfold resolved, mode, resolve, database_scope_of. destruct (String.eqb_spec d "") as [->|Hne].
    - rewrite v1_effective_connection by done. fold groups in Hvis. rewrite Hvis. destruct (connection_access self groups c) eqn:Ec.
      unfold raw_level. rewrite Ec. split_and!; [done..|]. intros k Hk. by apply Ht.
    - destruct Hd as [|Hd]; [done|]. unfold raw_level, sub_scope_visible, rule.
      destruct (v1_admits self Hwf groups c d Hh Hne Hd) as [(Hm & Hu & ->)|(u & Hu & Hv & Hden & Hm & ->)]; rewrite Hu; fold groups in Hvis; rewrite Hvis.
      + rewrite Hm. destruct (connection_access self groups c) eqn:Ec. split_and!; [done..|]. intros k Hk. by apply Ht.
      + destruct (database_bound self Hwf c groups u Hexp Hden) as [H1 H2]. rewrite apply_access_ceiling_level, apply_access_level.
        destruct (apply_access_ceiling _ _ _). split_and!; [|done|done]. simpl. unfold visible_is. simpl. rewrite Hv. simpl.
        by destruct (sub_scope_mode self c). }
  destruct H as (Hr & Hl & Hk). split_and!; [done| | |by apply v1_salesforce].
  - apply Nat.leb_le. unfold resolved in *. by rewrite resolve_level, Hr.
  - intros toolset k Hne Hc. destruct (toolset_bound self c toolset k Hne Hc) as (k' & Hk' & Hle). apply Nat.leb_le. specialize (Hk k' Hk'). lia.
Qed.

(** C9. For an access policy whose rules are for trimmed names that are not empty
    ([wf_policy]; [untrimmed_rule_widens] shows why), the policy of the first version
    that older hosts read is never wider than the access policy it is projected
    from.  Whenever it exposes a
    connection through some group path and admits a database (or the connection
    itself), the access policy has both visible, and the execution mode it
    gives is at most the access level there and at most the ceiling of every
    other toolset; it opts into Salesforce writes only where the access policy
    does. *)
Theorem projection_is_never_wider self path c d :
  wf_policy self ->
  let v1 := to_v1 self in
  let groups := default [] (McpPolicy.ids <$> path) in
  let mode := from_flags_pair (effective_database_execution_policy_with_groups v1 groups c d) in
  let resolved := resolve self groups c (database_scope_of d) in
  policy_allows_connection v1 path c = true ->
  d = "" \/ database_in_scope (database_scope_for_connection v1 c) d = true ->
  resolved.(res_visible) = true /\ level_le mode resolved.(level) = true /\
  (forall toolset k, toolset <> SALESFORCE_WRITE_TOOLSET -> toolset_ceiling self c toolset = Some k -> level_le mode k = true) /\
  (connection_allows_salesforce_dml v1 c = true ->
     exists k, toolset_ceiling self c SALESFORCE_WRITE_TOOLSET = Some k /\ level_lt LevelRead k = true).
Proof. exact (projected_bounds self path c d). Qed.

Module ProjectionRuns.
(** Everything may be written, except what is selected less of. *)
Definition demo_policy : McpAccessPolicy :=
  {| version := MCP_ACCESS_POLICY_VERSION; default_access := LevelWrite; confirm := ConfirmOff; visibility := VisibleSelected;
     rules := list_to_map
       [(Connection "crm", default_rule <| visible := Some true |> <| sub_scope := Some SubSelected |>);
        (Scope "crm" "database" "sales", default_rule <| visible := Some true |> <| ceiling := Some LevelRead |>);
        (Connection "hidden", default_rule <| visible := Some false |>);
        (Scope "kube" "namespace" "prod", default_rule <| access := Some LevelRead |>)];
     acc_allowed_tool_names := None; acc_query_timeout_secs := None; acc_plugin_tools_mode := PluginFlat |}.

(** A rule for a name with spaces around it is projected to the trimmed name: the
    first version then exposes a connection that the access policy hides. *)
Definition spaced_policy : McpAccessPolicy :=
  {| version := MCP_ACCESS_POLICY_VERSION; default_access := LevelWrite; confirm := ConfirmOff; visibility := VisibleSelected;
     rules := list_to_map [(Connection " crm ", default_rule <| visible := Some true |>)];
     acc_allowed_tool_names := None; acc_query_timeout_secs := None; acc_plugin_tools_mode := PluginFlat |}.

Example untrimmed_rule_widens :
  policy_allows_connection (to_v1 spaced_policy) None "crm" = true /\ (resolve spaced_policy [] "crm" None).(res_visible) = false.
Proof. vm_compute. done. Qed.

Lemma demo_policy_wf : wf_policy demo_policy.
Proof.
  unfold wf_policy. cbn [rules demo_policy list_to_map foldr fst snd].
  repeat (apply map_Forall_insert_2; [repeat split; (done || vm_compute; done)|]). apply map_Forall_empty.
Qed.

Lemma projection_is_never_wider_witness :
  let v1 := to_v1 demo_policy in
  policy_allows_connection v1 None "crm" = true /\ policy_allows_connection v1 None "hidden" = false /\
  database_in_scope (database_scope_for_connection v1 "kube") "prod" = false /\
  level_le (from_flags_pair (effective_database_execution_policy_with_groups v1 [] "crm" "sales"))
    (resolve demo_policy [] "crm" (database_scope_of "sales")).(level) = true.
Proof.
  split_and!; [vm_compute; done..|].
  refine (proj1 (proj2 (projection_is_never_wider demo_policy None "crm" "sales" demo_policy_wf _ (or_intror _)))); vm_compute; done.
Defined.
End ProjectionRuns.
