(* ===== verification/McpStoreSpec.v ===== *)
(** * The two saved policies stay in step

    Theorems about the settings of McpAccess.v (module [Store]): whatever saves
    are made, in any order and with any failures, a host that reads the first
    version of the policy never has more access than the second grants
    ([saved_policies_agree]); a policy that cannot be read stops every read and
    every edit ([corrupt_policy_fails_closed]); the rules of plugins survive the
    saves of hosts that do not know them ([plugin_rules_survive]). *)

From S2P Require Import Prelude Json Utf8 Containers AgentPolicy McpAccess McpAccessSpec.
Import McpPolicy V1 V2 Store.

(** ** What a host may do with a policy of the first version *)

(** [p] gives no more than [self]: the conclusion of [projection_is_never_wider]. *)
Definition never_wider (p : McpGlobalPolicy) (self : McpAccessPolicy) : Prop :=
  forall path c d,
  let groups := default [] (McpPolicy.ids <$> path) in
  let mode := from_flags_pair (effective_database_execution_policy_with_groups p groups c d) in
  let resolved := resolve self groups c (database_scope_of d) in
  policy_allows_connection p path c = true ->
  d = "" \/ database_in_scope (database_scope_for_connection p c) d = true ->
  resolved.(res_visible) = true /\ level_le mode resolved.(level) = true /\
  (forall toolset k, toolset <> SALESFORCE_WRITE_TOOLSET -> toolset_ceiling self c toolset = Some k -> level_le mode k = true) /\
  (connection_allows_salesforce_dml p c = true ->
     exists k, toolset_ceiling self c SALESFORCE_WRITE_TOOLSET = Some k /\ level_lt LevelRead k = true).

(** Policies that decide alike. *)
Definition same_decisions (p q : McpGlobalPolicy) : Prop :=
  (forall path c, policy_allows_connection p path c = policy_allows_connection q path c) /\
  (forall c d, database_in_scope (database_scope_for_connection p c) d = database_in_scope (database_scope_for_connection q c) d) /\
  (forall groups c d, effective_database_execution_policy_with_groups p groups c d =
     effective_database_execution_policy_with_groups q groups c d) /\
  (forall c, connection_allows_salesforce_dml p c = connection_allows_salesforce_dml q c).

#[global] Instance same_decisions_equiv : Equivalence same_decisions.
Proof.
  split.
  - intros p. by split_and!.
  - intros p q (H1 & H2 & H3 & H4). split_and!; congruence.
  - intros p q r (H1 & H2 & H3 & H4) (K1 & K2 & K3 & K4). split_and!; congruence.
Qed.

#[global] Instance never_wider_proper : Proper (same_decisions ==> eq ==> iff) never_wider.
Proof.
  intros p q (H1 & H2 & H3 & H4) self ? <-. unfold never_wider.
  setoid_rewrite H1. setoid_rewrite H2. setoid_rewrite H3. setoid_rewrite H4. done.
Qed.

#[global] Instance McpDatabaseScope_eq_dec : EqDecision McpDatabaseScope.
Proof. solve_decision. Defined.

Lemma group_flags_closed p groups : canonical p -> closed_flags (group_flags p groups).
Proof.
  intros Hp. unfold group_flags. assert (H0 : closed_flags (read_only p, allow_dangerous_sql p)) by exact (can_flags _ Hp).
  revert H0. generalize (read_only p, allow_dangerous_sql p). induction groups as [|g groups IH]; intros e He; [done|]. cbn [foldl]. apply IH.
  destruct (find_group_policy p g) as [r|]; [|done]. unfold closed_flags. simpl. by intros ->.
Qed.

Lemma group_flags_normalized p groups : canonical p -> group_flags (normalized p) groups = group_flags p groups.
Proof.
  intros Hp. unfold group_flags.
  assert (Hd : (read_only (normalized p), allow_dangerous_sql (normalized p)) = (read_only p, allow_dangerous_sql p)).
  { unfold normalized. simpl. pose proof (can_flags _ Hp) as Hf. f_equal. by destruct (read_only p); [rewrite Hf|]. }
  rewrite Hd. apply foldl_ext_in. intros e g. rewrite normalized_group.
  - destruct (find_group_policy p g) as [r|]; [|done]. simpl. unfold close_group_policy, entered_group. simpl.
    by destruct (grp_read_only r), (grp_allow_dangerous_sql r).
  - apply (can_groups _ Hp).
  - eapply Forall_impl; [apply (can_group _ Hp)|]. by intros g' [? _].
Qed.

Lemma find_database_normalized r d :
  canonical_connection r -> find_database_policy (close_connection_policy (entered r)) d = find_database_policy r d.
Proof.
  intros Hr. pose proof (cc_policies _ Hr) as Hcl. pose proof (cc_databases _ Hr) as Hdb. pose proof (cc_listed _ Hr) as Hlist.
  assert (Hw : Forall (fun dp => wf_name dp.(db_database_name)) r.(database_policies)).
  { apply Forall_forall. intros dp Hdp. rewrite Forall_forall in Hdb. rewrite Forall_forall in Hlist. by apply Hdb, Hlist. }
  destruct (decide (database_scope r = ScopeSelected)) as [Hs|Hs].
  - destruct (decide (d ∈ r.(allowed_databases))) as [Hd|Hd]; [by apply closed_find_database|].
    transitivity (@None McpDatabasePolicy); [|symmetry]; apply (find_named_None db_database_name); intros dp Hdp <-; apply Hd.
    + unfold close_connection_policy in Hdp. change (database_scope (entered r)) with (database_scope r) in Hdp. rewrite Hs in Hdp. simpl in Hdp.
      apply elem_of_bool_filter in Hdp as [_ Hdp%bool_decide_eq_true]. rewrite elem_of_trimmed_wf in Hdp by apply trimmed_names_wf.
      by rewrite elem_of_trimmed_wf in Hdp.
    + rewrite Forall_forall in Hlist. by apply Hlist.
  - destruct (cc_scope _ Hr Hs) as [_ Hn]. unfold find_database_policy, close_connection_policy.
    change (database_scope (entered r)) with (database_scope r). rewrite Hn. by destruct (database_scope r).
Qed.

(** Normalisation changes no decision of a policy that is canonical already. *)
Lemma normalized_decisions p : canonical p -> same_decisions (normalized p) p.
Proof.
  intros Hp.
  assert (Hconn : forall c, find_connection_policy (normalized p) c = (fun r => close_connection_policy (entered r)) <$> find_connection_policy p c).
  { intros c. apply normalized_connection; [apply (can_connections _ Hp)|]. eapply Forall_impl; [apply (can_connection _ Hp)|]. apply cc_name. }
  assert (Hin : forall c r, find_connection_policy p c = Some r -> canonical_connection r).
  { intros c r [Hr _]%List.find_some. pose proof (can_connection _ Hp) as H. rewrite Forall_forall in H. by apply H, list_elem_of_In. }
  split_and!.
  - intros path c. unfold policy_allows_connection, normalized. cbn [allowed_connection_ids allowed_group_ids].
    pose proof (can_ids _ Hp) as Hi. pose proof (can_group_ids _ Hp) as Hg.
    destruct (allowed_connection_ids p) as [l|]; cbn [fmap option_fmap option_map default from_option] in *; [|done].
    rewrite !existsb_eqb. f_equal; [by apply bool_decide_ext, elem_of_trimmed_wf|]. destruct path as [path|]; [|done].
    apply existsb_ext_bool. intros g. rewrite !existsb_eqb. by apply bool_decide_ext, elem_of_trimmed_wf.
  - intros c d. unfold database_scope_for_connection. rewrite Hconn. destruct (find_connection_policy p c) as [r|] eqn:E; [|done]. simpl.
    specialize (Hin _ _ E). unfold close_connection_policy. change (database_scope (entered r)) with (database_scope r).
    destruct (database_scope r); simpl; [done| |done]. rewrite !existsb_eqb. apply bool_decide_ext.
    rewrite elem_of_trimmed_wf by apply trimmed_names_wf. apply elem_of_trimmed_wf, (cc_databases _ Hin).
  - intros groups c d. rewrite !effective_flags, Hconn, group_flags_normalized by done.
    destruct (find_connection_policy p c) as [r|] eqn:E; [|done]. cbn [fmap option_fmap option_map].
    rewrite closed_exec by by apply group_flags_closed. rewrite find_database_normalized by by eapply Hin.
    replace (is_versioned (close_connection_policy (entered r))) with (is_versioned r); [done|].
    unfold close_connection_policy. by destruct (database_scope (entered r)).
  - intros c. unfold connection_allows_salesforce_dml. rewrite Hconn. destruct (find_connection_policy p c) as [r|]; [|done]. simpl.
    unfold close_connection_policy. destruct (database_scope (entered r)); simpl; by destruct (conn_read_only r), (allow_salesforce_dml r).
Qed.

Lemma twice_normalized q : same_decisions (normalized (normalized q)) (normalized q).
Proof. apply normalized_decisions, normalized_canonical. Qed.

Lemma to_v1_never_wider self : wf_policy self -> never_wider (to_v1 self) self.
Proof. intros Hwf path c d. by apply projected_bounds. Qed.

(** A translated policy has no toolset ceilings but Salesforce's. *)
Lemma translated_toolsets q c toolset : toolset <> SALESFORCE_WRITE_TOOLSET -> toolset_ceiling (from_v1 q) c toolset = None.
Proof.
  intros Hne. unfold toolset_ceiling, connection_rule, rule. rewrite from_v1_rules, translated_connection by apply normalized_canonical.
  rewrite (proj2 (String.eqb_neq _ _) Hne). cbn zeta. set (o := visible_rule _).
  assert (Ho : forall r, o = Some r -> r.(toolset_ceilings) = ∅) by (intros r; unfold o, visible_rule; case_bool_decide; by intros [= <-]).
  destruct (find_connection_policy (normalized q) c) as [r|]; cbn [mbind option_bind].
  - unfold connection_rule_update. cbn [toolset_ceilings set_field set_toolset_ceilings]. rewrite lookup_insert_ne by done.
    replace (toolset_ceilings _) with (∅ : gmap string McpAccessLevel); [done|].
    unfold set_level. destruct o as [r0|] eqn:Eo; [specialize (Ho _ eq_refl)|];
      destruct (execution_mode_configured r), (is_versioned r); simpl; done.
  - destruct o as [r0|] eqn:Eo; [|done]. cbn [mbind option_bind]. by rewrite (Ho _ eq_refl).
Qed.

Lemma level_le_refl l : level_le l l = true.
Proof. by apply Nat.leb_le. Qed.

Lemma translated_never_wider q : never_wider (normalized q) (from_v1 q).
Proof.
  intros path c d. cbn zeta. intros Ha Hd. set (groups := default [] _).
  destruct (levels_agree q groups c d) as [Hl _]. cbn zeta in Hl.
  assert (Hv : (resolve (from_v1 q) groups c (database_scope_of d)).(res_visible) = true).
  { unfold resolve, database_scope_of. subst groups. rewrite connection_visible_agrees, Ha.
    destruct (String.eqb_spec d "") as [->|Hne]; [by destruct (connection_access _ _ _)|]. destruct Hd as [|Hd]; [done|].
    rewrite database_visible_agrees, Hd. by repeat case_match. }
  split_and!; [done|rewrite resolve_level, Hv, Hl; apply level_le_refl| |].
  - intros toolset k Hne. by rewrite translated_toolsets.
  - intros Hs. rewrite <- salesforce_agrees in Hs. destruct (toolset_ceiling (from_v1 q) c _) as [k|] eqn:E; [eauto|].
    unfold toolset_ceiling in E. destruct (connection_rule _ c ≫= _); [done|]. by rewrite String.eqb_refl in E.
Qed.

(** ** Names in the rules stay trimmed *)

Notation wf_rules := (map_Forall (fun (t : McpRuleTarget) (_ : McpAccessRule) => wf_target t)).

Lemma wf_entry t f (rs : RuleMap) : wf_target t -> wf_rules rs -> wf_rules (rule_entry t f rs).
Proof. intros Ht Hrs. by apply map_Forall_insert_2. Qed.

Lemma wf_foldl {A} (step : RuleMap -> A -> RuleMap) l (rs : RuleMap) :
  (forall rs a, a ∈ l -> wf_rules rs -> wf_rules (step rs a)) -> wf_rules rs -> wf_rules (foldl step rs l).
Proof.
  revert rs. induction l as [|a l IH]; intros rs Hstep Hrs; [done|]. cbn [foldl]. apply IH.
  - intros rs' b Hb. apply Hstep. by right.
  - apply Hstep; [by left|done].
Qed.

Lemma wf_from_v1 q : wf_policy (from_v1 q).
Proof.
  unfold wf_policy. rewrite from_v1_rules. pose proof (normalized_canonical q) as Hp. unfold translated_rules.
  pose proof (can_ids _ Hp) as Hi. pose proof (can_group_ids _ Hp) as Hg. pose proof (can_group _ Hp) as Hgp. pose proof (can_connection _ Hp) as Hc.
  rewrite Forall_forall in Hi. rewrite Forall_forall in Hg. rewrite Forall_forall in Hgp. rewrite Forall_forall in Hc.
  apply wf_foldl; [|apply wf_foldl; [|apply wf_foldl; [|apply wf_foldl; [|apply map_Forall_empty]]]].
  - intros rs r Hr Hrs. pose proof (Hc r Hr) as Hcr. pose proof (cc_name _ Hcr) as Hn.
    pose proof (cc_databases _ Hcr) as Hd. pose proof (cc_listed _ Hcr) as Hl. rewrite Forall_forall in Hd. rewrite Forall_forall in Hl.
    unfold connection_step. apply wf_foldl; [|apply wf_foldl].
    + intros rs' dp Hdp. apply wf_entry. split; [done|]. by apply Hd, Hl.
    + intros rs' d Hd'. apply wf_entry. split; [done|]. by apply Hd.
    + by apply wf_entry.
  - intros rs g Hg'. apply wf_entry. by apply Hgp.
  - intros rs g Hg'. apply wf_entry. by apply Hg.
  - intros rs c Hc'. apply wf_entry. by apply Hi.
Qed.

Lemma wf_with_v2_only self previous : wf_policy self -> wf_policy previous -> wf_policy (with_v2_only_rules_from self previous).
Proof.
  intros Hs Hp. unfold wf_policy, with_v2_only_rules_from. cbn [rules set_field set_rules].
  assert (He : forall e, e ∈ entries previous.(rules) -> wf_target e.1) by (intros [t r] Ht%elem_of_entries; exact (Hp _ _ Ht)).
  unfold keep_scope_rules. apply wf_foldl; [|unfold keep_toolset_ceilings; apply wf_foldl; [|unfold keep_scope_modes; apply wf_foldl; [|done]]].
  - intros rs [t r] Ht Hrs. specialize (He _ Ht). destruct t as [| |c s v]; simpl; [done..|]. case_match; [done|]. by apply map_Forall_insert_2.
  - intros rs [t r] Ht Hrs. specialize (He _ Ht). destruct t as [|c|]; simpl; [done| |done]. case_match; [done|]. by apply wf_entry.
  - intros rs [t r] Ht Hrs. specialize (He _ Ht). destruct t as [|c|]; simpl; [done| |done]. destruct (sub_scope r) as [m|]; [|done].
    case_match; [|done]. by apply wf_entry.
Qed.

(** Restoring an opt-in only fills in a missing Salesforce ceiling. *)
Lemma restore_rule self legacy t :
  rule (restore_legacy_salesforce_opt_ins self legacy) t = rule self t \/
  exists r, rule self t = Some r /\ r.(toolset_ceilings) !! SALESFORCE_WRITE_TOOLSET = None /\
    rule (restore_legacy_salesforce_opt_ins self legacy) t =
      Some (r <| toolset_ceilings := <[SALESFORCE_WRITE_TOOLSET := LevelFull]> r.(toolset_ceilings) |>).
Proof.
  unfold rule, restore_legacy_salesforce_opt_ins. cbn [rules set_field set_rules]. generalize (rules self). generalize (connection_policies legacy).
  intros l. induction l as [|p l IH]; intros rs; cbn [foldl]; [by left|].
  destruct (allow_salesforce_dml p && negb (conn_read_only p)); [|apply IH].
  destruct (rs !! Connection (conn_connection_id p)) as [r|] eqn:Er; [|apply IH]. destruct (sub_scope r); [|apply IH].
  set (rs' := <[_ := _]> rs). destruct (decide (t = Connection (conn_connection_id p))) as [->|Hne].
  - destruct (IH rs') as [E|(r' & Hr' & Hn & E)]; rewrite E; unfold rs' in *; rewrite lookup_insert_eq in *.
    + destruct (toolset_ceilings r !! SALESFORCE_WRITE_TOOLSET) as [k|] eqn:Ek; [left; rewrite Er; by destruct r|]. right. eauto.
    + simplify_eq/=. destruct (toolset_ceilings r !! SALESFORCE_WRITE_TOOLSET) as [k|] eqn:Ek; [congruence|]. by rewrite lookup_insert_eq in Hn.
  - assert (Hrs : rs' !! t = rs !! t) by (unfold rs'; by rewrite lookup_insert_ne). destruct (IH rs') as [E|(r' & Hr' & Hn & E)]; rewrite E; rewrite Hrs in *; eauto.
Qed.

Lemma wf_restore self legacy : wf_policy self -> wf_policy (restore_legacy_salesforce_opt_ins self legacy).
Proof.
  intros Hs t r Hr. destruct (restore_rule self legacy t) as [E|(r' & Hr' & _)].
  - unfold rule in E. rewrite Hr in E. symmetry in E. exact (Hs _ _ E).
  - exact (Hs _ _ Hr').
Qed.

Lemma restore_access self legacy t : rule (restore_legacy_salesforce_opt_ins self legacy) t ≫= access = rule self t ≫= access.
Proof. destruct (restore_rule self legacy t) as [->|(r & -> & _ & ->)]; done. Qed.

Lemma restore_resolve self legacy groups c sub :
  resolve (restore_legacy_salesforce_opt_ins self legacy) groups c sub = resolve self groups c sub.
Proof.
  set (s := restore_legacy_salesforce_opt_ins self legacy).
  assert (Hc : connection_access s groups c = connection_access self groups c).
  { unfold connection_access, connection_rule.
    rewrite (foldl_ext_in _ (fun resolved group_id =>
      match rule self (Group group_id) ≫= access with Some l => (l, SourceGroup group_id) | None => resolved end))
      by (intros a b; unfold s; by rewrite restore_access).
    unfold s. by destruct (restore_rule self legacy (Connection c)) as [->|(r & -> & _ & ->)]. }
  assert (Hv : forall t b, visible_is b (rule s t) = visible_is b (rule self t)).
  { intros t b. unfold s. by destruct (restore_rule self legacy t) as [->|(r & -> & _ & ->)]. }
  assert (Hm : sub_scope_mode s c = sub_scope_mode self c).
  { unfold sub_scope_mode, connection_rule, s. by destruct (restore_rule self legacy (Connection c)) as [->|(r & -> & _ & ->)]. }
  unfold resolve, connection_visible, sub_scope_visible, connection_rule. rewrite Hc, Hm. rewrite !Hv.
  change (visibility s) with (visibility self). rewrite (existsb_ext_bool _ (fun group_id => visible_is true (rule self (Group group_id)))) by (intros g; apply Hv).
  destruct sub as [[scope value]|]; [|done]. rewrite !Hv. unfold s.
  by destruct (restore_rule self legacy (Scope c scope value)) as [->|(r & -> & _ & ->)].
Qed.

Lemma never_wider_restore p self legacy : never_wider p self -> never_wider p (restore_legacy_salesforce_opt_ins self legacy).
Proof.
  intros Hn path c d. cbn zeta. intros Ha Hd. destruct (Hn path c d Ha Hd) as (H1 & H2 & H3 & H4). rewrite !restore_resolve.
  split_and!; [done|done|..].
  - intros toolset k Hne Hk. apply (H3 toolset k Hne). rewrite <- Hk. unfold toolset_ceiling, connection_rule.
    destruct (restore_rule self legacy (Connection c)) as [->|(r & -> & _ & ->)]; [done|]. cbn [mbind option_bind]. simpl.
    by rewrite lookup_insert_ne.
  - intros Hs. destruct (H4 Hs) as (k & Hk & Hlt). unfold toolset_ceiling, connection_rule in *.
    destruct (restore_rule self legacy (Connection c)) as [->|(r & _ & _ & ->)]; [eauto|]. cbn [mbind option_bind]. simpl.
    rewrite lookup_insert_eq. eauto.
Qed.

(** ** Settings as maps *)

Lemma obj_get_insert k v m : obj_get k (obj_insert k v m) = Some v.
Proof. induction m as [|[k' v'] m IH]; simpl; [by rewrite String.eqb_refl|]. destruct (String.eqb_spec k' k); simpl; [by subst; rewrite String.eqb_refl|]. by rewrite (proj2 (String.eqb_neq _ _)). Qed.

Lemma obj_get_insert_ne k k' v m : k <> k' -> obj_get k' (obj_insert k v m) = obj_get k' m.
Proof.
  intros Hne. induction m as [|[k0 v0] m IH]; simpl; [by rewrite (proj2 (String.eqb_neq _ _))|].
  destruct (String.eqb_spec k0 k); simpl; [subst; by rewrite (proj2 (String.eqb_neq _ _))|]. by rewrite IH.
Qed.

Lemma obj_get_absent k (m : Settings) : (forall v, (k, v) ∉ m) -> obj_get k m = None.
Proof.
  induction m as [|[k0 v0] m IH]; intros Hk; simpl; [done|]. destruct (String.eqb_spec k0 k) as [->|]; [by destruct (Hk v0); left|].
  apply IH. intros v Hv. apply (Hk v). by right.
Qed.

Lemma obj_remove_spec k (m : Settings) :
  NoDup m.*1 -> NoDup (obj_remove k m).*1 /\ forall kv, kv ∈ obj_remove k m -> kv ∈ m /\ kv.1 <> k.
Proof.
  intros Hm. unfold obj_remove. destruct (list_find _ m) as [[i x]|] eqn:E.
  - apply list_find_Some in E as (Hi & Hk & _). apply list_elem_of_split_length in Hi as (l & r & -> & ->).
    rewrite fmap_app, NoDup_app in Hm. destruct Hm as (Hl & Hd & Hr). cbn [fmap list_fmap] in Hd, Hr. apply NoDup_cons in Hr as [Hx Hr]. subst k.
    destruct r as [|y r _] using rev_ind.
    + rewrite last_snoc, insert_app_r_alt, Nat.sub_diag by done. cbn [list_insert insert].
      rewrite length_app. cbn [length]. rewrite take_app_le, take_ge by lia. split; [done|]. intros kv Hkv. split; [set_solver|]. intros E. apply (Hd kv.1); [by apply list_elem_of_fmap_2|]. set_solver.
    + replace (l ++ x :: r ++ [y]) with ((l ++ x :: r) ++ [y]) by by rewrite <- app_assoc. rewrite last_snoc.
      assert (Hlen : length ((l ++ x :: r) ++ [y]) - 1 = length (l ++ y :: r)) by (rewrite !length_app; simpl; lia).
      rewrite Hlen, <- app_assoc. rewrite insert_app_r_alt, Nat.sub_diag by done. cbn [app list_insert insert].
      replace (l ++ y :: r ++ [y]) with ((l ++ y :: r) ++ [y]) by by rewrite <- app_assoc. rewrite take_app_length.
      rewrite fmap_app in Hx, Hr, Hd. apply NoDup_app in Hr as (Hr & Hry & _). split.
      * rewrite fmap_app. apply NoDup_app. split_and!; [done| |].
        -- intros z Hz Hz'. apply (Hd z Hz). set_solver.
        -- cbn [fmap list_fmap]. apply NoDup_cons. split; [|done]. intros Hy. apply (Hry _ Hy). set_solver.
      * intros kv Hkv. split; [set_solver|]. intros E. apply elem_of_app in Hkv as [Hkv|Hkv].
        -- apply (Hd kv.1); [by apply list_elem_of_fmap_2|]. rewrite E. set_solver.
        -- apply Hx. rewrite <- E. apply elem_of_cons in Hkv as [->|Hkv]; [set_solver|]. apply elem_of_app. left. by apply list_elem_of_fmap_2.
  - split; [done|]. intros kv Hkv. split; [done|]. intros Ek. apply list_find_None in E. rewrite Forall_forall in E. by apply (E kv).
Qed.

(** Saved rules are read back as they were. *)
Lemma deserialize_serialize (rs : RuleMap) : deserialize_rules (serialize_rules rs) = rs.
Proof.
  unfold deserialize_rules, serialize_rules. pose proof (entries_NoDup rs) as Hn.
  assert (H : forall l (m : RuleMap), NoDup l.*1 -> (forall e, e ∈ l -> m !! e.1 = None) ->
    foldl (fun rules e => <[e.1 := match rules !! e.1 with Some current => merge_strictest current e.2 | None => e.2 end]> rules) m l =
    list_to_map l ∪ m).
  { induction l as [|[t r] l IH]; intros m Hl Hm; simpl; [by rewrite (left_id_L ∅ (∪))|]. apply NoDup_cons in Hl as [Ht Hl].
    pose proof (Hm (t, r) ltac:(by left)) as Hmt. simpl in Hmt. rewrite Hmt, IH; [|done|].
    - simpl. rewrite <- insert_union_r by (by apply not_elem_of_list_to_map_1). apply insert_union_l.
    - intros e He. rewrite lookup_insert_ne; [apply Hm; by right|]. intros ->. apply Ht. exact (list_elem_of_fmap_2 fst _ _ He). }
  rewrite H by done. rewrite (right_id_L ∅ (∪)). apply list_to_map_btree_entries.
Qed.

(** ** The invariant of the settings *)

Section store.
Context `{PolicySerdeLaws}.

Lemma v2_round_trip p v : v2_to_value p = Ok v -> v2_from_value v = Ok p.
Proof.
  unfold v2_to_value, v2_from_value. intros Hv%wire_round_trip. rewrite Hv. simpl. rewrite deserialize_serialize. by destruct p.
Qed.

Definition in_step_settings (m : Settings) : Prop :=
  forall v a, obj_get MCP_ACCESS_POLICY_KEY m = Some v -> v2_from_value v = Ok a ->
  wf_policy a /\ exists vp p, obj_get MCP_GLOBAL_POLICY_KEY m = Some vp /\ v1_from_value vp = Ok p /\ never_wider (normalized p) a.

(** Every access policy that can be read has a first version beside it that is
    not wider. *)
Definition in_step (row : Row) : Prop := forall m, app_settings_map_from_conn row = Ok m -> in_step_settings m.

Lemma saved_inv m a :
  in_step_settings m -> saved_mcp_access_policy m = Ok (Some a) ->
  wf_policy a /\ exists vp p, obj_get MCP_GLOBAL_POLICY_KEY m = Some vp /\ v1_from_value vp = Ok p /\ never_wider (normalized p) a.
Proof.
  intros Hm. unfold saved_mcp_access_policy. destruct (obj_get MCP_ACCESS_POLICY_KEY m) as [v|] eqn:Ev; [|done].
  destruct (v2_from_value v) as [a0|e] eqn:Ea; simpl; [|done]. destruct (negb _); [done|].
  destruct (Hm v a0 Ev Ea) as (Hwf & vp & p & Hvp & Hp & Hn). rewrite Hvp. cbn [mbind option_bind]. rewrite Hp. intros [= <-].
  split; [by apply wf_restore|]. exists vp, p. split_and!; [done..|]. by apply never_wider_restore.
Qed.

Lemma written_in_step m a p va vp :
  v2_to_value a = Ok va -> v1_to_value p = Ok vp -> wf_policy a -> never_wider (normalized p) a ->
  obj_get MCP_ACCESS_POLICY_KEY m = Some va -> obj_get MCP_GLOBAL_POLICY_KEY m = Some vp -> in_step_settings m.
Proof.
  intros Ha Hp Hwf Hn Hma Hmp v a' Hv Ha'. pose proof (v2_round_trip _ _ Ha) as Ha2. pose proof (v1_round_trip _ _ Hp) as Hp2.
  rewrite Hma in Hv. injection Hv as <-. rewrite Ha2 in Ha'. injection Ha' as <-. split; [done|]. by exists vp, p.
Qed.

Lemma write_in_step written m row : in_step row -> in_step_settings m -> in_step (write_app_settings_map written m row).2.
Proof.
  intros Hrow Hm. unfold write_app_settings_map. destruct (settings_to_string m) as [s|e] eqn:Es; [|done]. destruct written; [|done].
  intros m' Hm'. simpl in Hm'. rewrite (settings_round_trip _ _ Es) in Hm'. simpl in Hm'. by simplify_eq.
Qed.

Lemma to_v1_pair a : wf_policy a -> never_wider (normalized (to_v1 a)) a.
Proof. intros Ha. unfold to_v1. rewrite twice_normalized. by apply to_v1_never_wider. Qed.

Lemma keys_differ : MCP_GLOBAL_POLICY_KEY <> MCP_ACCESS_POLICY_KEY.
Proof. done. Qed.

Lemma save_access_in_step a written row : wf_policy a -> in_step row -> in_step (save_mcp_access_policy a written row).2.
Proof.
  intros Ha Hrow. unfold save_mcp_access_policy. destruct (v2_to_value a) as [va|e] eqn:Eva; [|done].
  destruct (v1_to_value (to_v1 a)) as [vp|e] eqn:Evp; [|done]. destruct (app_settings_map_from_conn row) as [m|e] eqn:Em; [|done].
  pose proof (write_in_step written (obj_insert MCP_GLOBAL_POLICY_KEY vp (obj_insert MCP_ACCESS_POLICY_KEY va m)) row Hrow) as Hw.
  destruct (write_app_settings_map _ _ _). simpl in *. apply Hw. eapply written_in_step; [exact Eva|exact Evp|done|by apply to_v1_pair|..].
  - rewrite obj_get_insert_ne by done. apply obj_get_insert.
  - apply obj_get_insert.
Qed.

Lemma reset_in_step uuid written row : in_step row -> in_step (reset_invalid_mcp_access_policy uuid written row).2.
Proof.
  intros Hrow. unfold reset_invalid_mcp_access_policy. destruct (app_settings_map_from_conn row) as [m|e] eqn:Em; [|done].
  destruct (is_ok _); [done|]. destruct (v1_to_value (to_v1 recovery_policy)) as [vp|e] eqn:Evp; [|done].
  destruct (v2_to_value recovery_policy) as [va|e] eqn:Eva; [|done]. unfold write_policies. set (m' := obj_insert MCP_ACCESS_POLICY_KEY va _).
  pose proof (write_in_step written m' row Hrow) as Hw. destruct (write_app_settings_map _ _ _). simpl in *. apply Hw.
  assert (Hwf : wf_policy recovery_policy) by apply map_Forall_empty.
  eapply written_in_step; [exact Eva|exact Evp|done|by apply to_v1_pair|..]; unfold m'.
  - apply obj_get_insert.
  - rewrite obj_get_insert_ne by done. apply obj_get_insert.
Qed.

Lemma wf_set_scope_rule a c kind value r mode :
  wf_policy a -> wf_name c -> (forall v, value = Some v -> wf_name v) -> wf_policy (set_scope_rule a c kind value r mode).
Proof.
  intros Ha Hc Hv. unfold wf_policy, set_scope_rule. cbn [rules set_field set_rules]. apply wf_entry; [done|].
  destruct value as [v|]; [|done]. destruct r as [r|].
  - apply map_Forall_insert_2; [|done]. split; [done|]. by apply Hv.
  - by apply map_Forall_delete.
Qed.

Lemma current_access_wf m a : in_step_settings m -> current_access m = Ok a -> wf_policy a.
Proof.
  intros Hm. unfold current_access. destruct (saved_mcp_access_policy m) as [[a0|]|e] eqn:Es; simpl; [| |done].
  - intros [= <-]. by apply (saved_inv m a0).
  - destruct (obj_get _ m) as [v|]; [destruct (v1_from_value v); simpl; [|done]|]; intros [= <-]; apply wf_from_v1.
Qed.

Lemma set_scope_in_step c kind value r mode written row : in_step row -> in_step (set_mcp_plugin_scope_rule c kind value r mode written row).2.
Proof.
  intros Hrow. unfold set_mcp_plugin_scope_rule. destruct (_ || _); [done|]. unfold normalized_setting_id.
  destruct (String.eqb_spec (trim_str c) "") as [|Hc]; [done|]. simpl. destruct (256 <? _); [done|].
  set (value' := value ≫= _). assert (Hv : forall v, value' = Some v -> wf_name v).
  { intros v. unfold value'. destruct value as [v0|]; simpl; [|done]. destruct (String.eqb_spec (trim_str v0) "") as [|Hne]; [done|].
    intros [= <-]. by apply wf_trim. }
  destruct (app_settings_map_from_conn row) as [m|e] eqn:Em; simpl; [|done].
  destruct (current_access m) as [a|e] eqn:Ea; simpl; [|done].
  set (a' := set_scope_rule _ _ _ _ _ _). destruct (v2_to_value a') as [va|e] eqn:Eva; simpl; [|done].
  destruct (v1_to_value (to_v1 a')) as [vp|e] eqn:Evp; simpl; [|done].
  pose proof (write_in_step written (obj_insert MCP_GLOBAL_POLICY_KEY vp (obj_insert MCP_ACCESS_POLICY_KEY va m)) row Hrow) as Hw.
  destruct (write_app_settings_map _ _ _) as [res row']. simpl in *. assert (Hwf : wf_policy a').
  { apply wf_set_scope_rule; [by eapply current_access_wf; [apply Hrow|]|by apply wf_trim|done]. }
  assert (Hgoal : in_step row').
  { apply Hw. eapply written_in_step; [exact Eva|exact Evp|done|by apply to_v1_pair|..].
    - rewrite obj_get_insert_ne by done. apply obj_get_insert.
    - apply obj_get_insert. }
  by destruct res.
Qed.

Lemma save_global_in_step q written row : in_step row -> in_step (save_mcp_global_policy q written row).2.
Proof.
  intros Hrow. unfold save_mcp_global_policy. destruct (app_settings_map_from_conn row) as [m|e] eqn:Em; simpl; [|done].
  destruct (saved_mcp_access_policy m) as [previous|e] eqn:Es; simpl; [|done].
  set (a := match previous with Some previous => _ | None => _ end). set (p := if bool_decide _ then _ else _).
  destruct (v1_to_value p) as [vp|e] eqn:Evp; simpl; [|done]. destruct (v2_to_value a) as [va|e] eqn:Eva; simpl; [|done].
  pose proof (write_in_step written (obj_insert MCP_ACCESS_POLICY_KEY va (obj_insert MCP_GLOBAL_POLICY_KEY vp m)) row Hrow) as Hw.
  destruct (write_app_settings_map _ _ _) as [res row']. simpl in *. apply Hw.
  assert (Hwf : wf_policy a).
  { unfold a. destruct previous as [previous|]; [|apply wf_from_v1]. apply wf_with_v2_only; [apply wf_from_v1|].
    apply (saved_inv m previous); [by apply Hrow|done]. }
  eapply written_in_step; [exact Eva|exact Evp|done| |apply obj_get_insert|rewrite obj_get_insert_ne by done; apply obj_get_insert].
  unfold p. case_bool_decide as Ea; [|by apply to_v1_pair]. rewrite Ea, twice_normalized. apply translated_never_wider.
Qed.

Lemma remove_all_spec keys (m : Settings) :
  NoDup m.*1 ->
  NoDup (foldl (fun m k => obj_remove k m) m keys).*1 /\
  forall kv, kv ∈ foldl (fun m k => obj_remove k m) m keys -> kv ∈ m /\ kv.1 ∉ keys.
Proof.
  revert m. induction keys as [|k keys IH]; intros m Hm; cbn [foldl]; [split; [done|]; intros kv Hkv; split; [done|apply not_elem_of_nil]|].
  destruct (obj_remove_spec k m Hm) as [H1 H2]. destruct (IH _ H1) as [H3 H4]. split; [done|].
  intros kv [[Hkv Hne]%H2 Hni]%H4. split; [done|]. apply not_elem_of_cons. done.
Qed.

Lemma keep_keys_get current k keys (m : Settings) :
  obj_get k (foldl (fun m key => match obj_get key current with Some v => obj_insert key v m | None => m end) m keys) =
  if bool_decide (k ∈ keys) then match obj_get k current with Some v => Some v | None => obj_get k m end else obj_get k m.
Proof.
  revert m. induction keys as [|k' keys IH]; intros m; [by rewrite bool_decide_eq_false_2 by apply not_elem_of_nil|]. cbn [foldl]. rewrite IH.
  destruct (decide (k = k')) as [<-|Hne].
  - rewrite (bool_decide_eq_true_2 (k ∈ k :: keys)) by by left. destruct (obj_get k current) as [v|]; [|by case_bool_decide].
    rewrite obj_get_insert. by case_bool_decide.
  - rewrite (bool_decide_ext (k ∈ k' :: keys) (k ∈ keys)) by (rewrite elem_of_cons; naive_solver).
    destruct (obj_get k' current) as [v|]; [by rewrite obj_get_insert_ne|done].
Qed.

(** A save of other settings leaves the policies as they are in the row. *)
Lemma save_other_keeps m written row res row' current k :
  NoDup m.*1 -> k ∈ dedicated_keys -> app_settings_map_from_conn row = Ok current -> save_app_settings_json m written row = (res, row') ->
  row' = row \/ exists m', app_settings_map_from_conn row' = Ok m' /\ obj_get k m' = obj_get k current.
Proof.
  intros Hm Hk Hrow. unfold save_app_settings_json. set (base := foldl _ m dedicated_keys).
  assert (Hbase : obj_get k base = None).
  { apply obj_get_absent. intros v Hv. destruct (remove_all_spec dedicated_keys m Hm) as [_ H2]. by destruct (H2 _ Hv) as [_ Hn]. }
  assert (Hw : forall m1 r row1, obj_get k m1 = obj_get k current -> write_app_settings_map written m1 row = (r, row1) ->
    row1 = row \/ exists m', app_settings_map_from_conn row1 = Ok m' /\ obj_get k m' = obj_get k current).
  { intros m1 r row1 Hm1. unfold write_app_settings_map. destruct (settings_to_string m1) as [s|] eqn:Es; [|intros [= <- <-]; by left].
    destruct written; intros [= <- <-]; [|by left]. right. exists m1. split; [|done]. simpl. by rewrite (settings_round_trip _ _ Es). }
  destruct row as [json|]; simpl in Hrow.
  - destruct (settings_from_str json) as [m0|e]; cbn [map_err result_bind] in *; [|intros [= <- <-]; by left]. injection Hrow as ->.
    intros E. eapply Hw; [|exact E]. rewrite keep_keys_get, bool_decide_eq_true_2 by done. by destruct (obj_get k current).
  - injection Hrow as <-. intros E. eapply Hw; [|exact E]. done.
Qed.

Lemma dedicated k : bool_decide (k ∈ dedicated_keys) = true -> k ∈ dedicated_keys.
Proof. apply bool_decide_eq_true. Qed.

Lemma save_other_in_step m written row : NoDup m.*1 -> in_step row -> in_step (save_app_settings_json m written row).2.
Proof.
  intros Hm Hrow. destruct (save_app_settings_json m written row) as [res row'] eqn:E. simpl.
  destruct (app_settings_map_from_conn row) as [current|e] eqn:Ec.
  - intros m' Hm'. pose proof (Hrow current Ec) as Hin.
    destruct (save_other_keeps _ _ _ _ _ current MCP_ACCESS_POLICY_KEY Hm ltac:(by apply dedicated) Ec E) as [->|(m1 & Hm1 & Ha)]; [by apply Hrow|].
    destruct (save_other_keeps _ _ _ _ _ current MCP_GLOBAL_POLICY_KEY Hm ltac:(by apply dedicated) Ec E) as [->|(m2 & Hm2 & Hg)]; [by apply Hrow|].
    simplify_eq. intros v a Hv Hva. rewrite Hm' in Hm1, Hm2. injection Hm1 as ->. injection Hm2 as ->. rewrite Ha in Hv.
    destruct (Hin v a Hv Hva) as (Hwf & vp & p & Hvp & Hp & Hn). split; [done|]. exists vp, p. by rewrite Hg.
  - unfold save_app_settings_json in E. destruct row as [json|]; [|done]. simpl in Ec. destruct (settings_from_str json); [done|].
    simpl in E. by simplify_eq.
Qed.

(** The saves, in any order; a write may fail.  The access policies that are saved
    as a whole are well-formed: their rules are for trimmed names that are not empty.
    (The code does not check this, see [untrimmed_rule_widens].) *)
Inductive store_step : relation Row :=
| step_access a written row : wf_policy a -> store_step row (save_mcp_access_policy a written row).2
| step_global q written row : store_step row (save_mcp_global_policy q written row).2
| step_scope c kind value r mode written row : store_step row (set_mcp_plugin_scope_rule c kind value r mode written row).2
| step_reset uuid written row : store_step row (reset_invalid_mcp_access_policy uuid written row).2
| step_other m written row : NoDup m.*1 -> store_step row (save_app_settings_json m written row).2.

Lemma reachable_in_step row0 row : in_step row0 -> rtc store_step row0 row -> in_step row.
Proof.
  intros Hstart. induction 1 as [row|row row1 row2 Hs _ IH]; [done|]. apply IH. destruct Hs.
  - by apply save_access_in_step.
  - by apply save_global_in_step.
  - by apply set_scope_in_step.
  - by apply reset_in_step.
  - by apply save_other_in_step.
Qed.

Lemma load_settings_same row m : load_app_settings_json row = Ok m -> app_settings_map_from_conn row = Ok m.
Proof.
  destruct row as [json|]; simpl; [|done]. destruct (value_from_str json) as [v|] eqn:Ev; simpl; [|done]. destruct v; try done.
  intros [= ->]. by rewrite (proj1 (settings_value _ _) Ev).
Qed.

Lemma default_global_canonical : canonical default_global_policy.
Proof. split; simpl; try done; try constructor; repeat constructor. Qed.

(** What [load_mcp_global_policy] returns decides as a normalised policy. *)
Lemma load_global_decisions row st : load_mcp_global_policy row = Ok st -> same_decisions (normalized st.(policy)) st.(policy).
Proof.
  unfold load_mcp_global_policy. destruct row as [json|]; simpl.
  - destruct (settings_from_str json) as [m|]; simpl; [|done]. destruct (obj_get _ m) as [v|]; simpl.
    + destruct (v1_from_value v) as [p|]; simpl; [|done]. intros [= <-]. apply twice_normalized.
    + intros [= <-]. apply normalized_decisions, default_global_canonical.
  - intros [= <-]. apply normalized_decisions, default_global_canonical.
Qed.

Lemma unavailable_ok {A} (r : result A string) a : unavailable r = Ok a -> r = Ok a.
Proof. destruct r; simpl; congruence. Qed.
End store.

(** C8. Whatever saves have been made since the last policy of the first version
    alone was in the settings, in any order, with any of their writes failing,
    and with other settings saved from stale copies in between, provided that the
    rules of the access policies saved as a whole are for trimmed names that are not
    empty: a host that
    reads the first version, or the one it is told to enforce, never has more
    access than the access policy read at the same time grants. *)
Theorem saved_policies_agree `{PolicySerdeLaws} row0 row a st :
  (forall m, app_settings_map_from_conn row0 = Ok m -> obj_get MCP_ACCESS_POLICY_KEY m = None) ->
  rtc store_step row0 row ->
  load_mcp_access_policy row = Ok a ->
  load_mcp_global_policy row = Ok st \/ load_enforced_mcp_policy row = Ok st ->
  never_wider st.(policy) a.
Proof.
  intros Hstart Hreach Ha Hst. assert (Hin : in_step row).
  { eapply reachable_in_step; [|exact Hreach]. intros m Hm v a' Hv. rewrite (Hstart m Hm) in Hv. done. }
  unfold load_mcp_access_policy in Ha. destruct (unavailable (load_app_settings_json row)) as [m|e] eqn:Em; [|done].
  pose proof (load_settings_same _ _ (unavailable_ok _ _ Em)) as Hm. simpl in Ha.
  unfold load_enforced_mcp_policy in Hst. rewrite Em in Hst. simpl in Hst.
  destruct (unavailable (saved_mcp_access_policy m)) as [[a0|]|e] eqn:Es; [| |done]; simpl in Ha, Hst.
  - injection Ha as <-. destruct (saved_inv m a0 (Hin m Hm) (unavailable_ok _ _ Es)) as (Hwf & vp & p & Hvp & Hp & Hn).
    destruct Hst as [Hst|Hst].
    + unfold load_mcp_global_policy in Hst. destruct row as [json|]; [|simpl in Hm; by injection Hm as <-]. simpl in Hm.
      destruct (settings_from_str json) as [m'|]; [|done]. simpl in Hm, Hst. injection Hm as ->. rewrite Hvp in Hst. rewrite Hp in Hst.
      simpl in Hst. by injection Hst as <-.
    + injection Hst as <-. pose proof (to_v1_never_wider a0 Hwf) as Hw. exact Hw.
  - assert (Hg : load_mcp_global_policy row = Ok st) by by destruct Hst. rewrite Hg in Ha. simpl in Ha. injection Ha as <-.
    exact (proj1 (never_wider_proper _ _ (load_global_decisions _ _ Hg) _ _ eq_refl) (translated_never_wider _)).
Qed.

(** ** Rules of plugins *)

Lemma foldl_previous (upd : McpRuleTarget * McpAccessRule -> option McpAccessRule -> option McpAccessRule)
    (step : RuleMap -> McpRuleTarget * McpAccessRule -> RuleMap) (previous rs : RuleMap) t :
  (forall rs e t, step rs e !! t = if decide (t = e.1) then upd e (rs !! t) else rs !! t) ->
  foldl step rs (entries previous) !! t = match previous !! t with Some r => upd (t, r) (rs !! t) | None => rs !! t end.
Proof. apply foldl_btree. Qed.

Lemma keep_scope_rules_at previous rs t :
  keep_scope_rules previous rs !! t =
  match t, previous !! t with
  | Scope _ scope _, Some r => if String.eqb scope "database" then rs !! t else Some r
  | _, _ => rs !! t
  end.
Proof.
  unfold keep_scope_rules. rewrite (foldl_previous (fun e o =>
    match e.1 with Scope _ scope _ => if String.eqb scope "database" then o else Some e.2 | _ => o end)).
  - destruct t as [| |c s v]; [by destruct (previous !! _)..|]. done.
  - intros rs' [t' r] t0. simpl. destruct t' as [| |c s v]; [by case_decide..|]. destruct (String.eqb s "database"); [by case_decide|].
    case_decide; subst; by simplify_map_eq.
Qed.

Lemma keep_toolsets_at previous rs t :
  keep_toolset_ceilings previous rs !! t =
  match t, previous !! t with
  | Connection _, Some r =>
    if forallb (fun tc => String.eqb tc.1 SALESFORCE_WRITE_TOOLSET) (btree_entries String.le r.(toolset_ceilings)) then rs !! t
    else Some ((fun r0 => r0 <| toolset_ceilings := keep_ceilings r.(toolset_ceilings) r0.(toolset_ceilings) |>) (default default_rule (rs !! t)))
  | _, _ => rs !! t
  end.
Proof.
  unfold keep_toolset_ceilings. rewrite (foldl_previous (fun e o =>
    match e.1 with
    | Connection _ =>
      if forallb (fun tc => String.eqb tc.1 SALESFORCE_WRITE_TOOLSET) (btree_entries String.le e.2.(toolset_ceilings)) then o
      else Some ((fun r0 => r0 <| toolset_ceilings := keep_ceilings e.2.(toolset_ceilings) r0.(toolset_ceilings) |>) (default default_rule o))
    | _ => o
    end)).
  - destruct t; by destruct (previous !! _).
  - intros rs' [t' r] t0. simpl. destruct t' as [|c|]; [by case_decide| |by case_decide]. destruct (forallb _ _); [by case_decide|].
    unfold rule_entry. rewrite lookup_entry_update. case_decide; case_decide; subst; congruence.
Qed.

(** A connection whose sub-scopes are of a kind the first version does not know. *)
Definition plugin_scoped (previous : McpAccessPolicy) (c : string) (r : McpAccessRule) : bool :=
  match r.(sub_scope_kind) with Some kind => negb (String.eqb kind "database") | None => false end ||
  existsb (fun e => match e.1 with Scope c' s _ => String.eqb c' c && negb (String.eqb s "database") | _ => false end) (entries previous.(rules)).

Lemma keep_modes_at previous rs t :
  keep_scope_modes previous.(rules) rs !! t =
  match t, rule previous t with
  | Connection c, Some r =>
    match r.(sub_scope) with
    | Some mode =>
      if plugin_scoped previous c r
      then Some (default default_rule (rs !! t) <| sub_scope := Some mode |> <| sub_scope_kind := r.(sub_scope_kind) |>) else rs !! t
    | None => rs !! t
    end
  | _, _ => rs !! t
  end.
Proof.
  unfold keep_scope_modes, rule. rewrite (foldl_previous (fun e o =>
    match e.1, e.2.(sub_scope) with
    | Connection c, Some mode =>
      if plugin_scoped previous c e.2
      then Some (default default_rule o <| sub_scope := Some mode |> <| sub_scope_kind := e.2.(sub_scope_kind) |>) else o
    | _, _ => o
    end)).
  - destruct t; by destruct (rules previous !! _).
  - intros rs' [t' r] t0. simpl. destruct t' as [|c|]; [by case_decide| |by case_decide]. destruct (sub_scope r) as [mode|]; [|by case_decide].
    fold (plugin_scoped previous c r). destruct (plugin_scoped previous c r); [|by case_decide].
    unfold rule_entry. rewrite lookup_entry_update. case_decide; case_decide; subst; congruence.
Qed.

Lemma keep_ceilings_at other m t :
  keep_ceilings other m !! t =
  match other !! t with
  | Some k => if String.eqb t SALESFORCE_WRITE_TOOLSET then m !! t
              else Some (match m !! t with Some current => level_min current k | None => k end)
  | None => m !! t
  end.
Proof.
  unfold keep_ceilings. rewrite (foldl_btree String.le (fun e o =>
    if String.eqb e.1 SALESFORCE_WRITE_TOOLSET then o else Some (match o with Some current => level_min current e.2 | None => e.2 end))); [done|].
  intros m' [t' k] t0. simpl. destruct (String.eqb_spec t' SALESFORCE_WRITE_TOOLSET); [by case_decide|]. case_decide; subst; by simplify_map_eq.
Qed.

Lemma translated_other_scope q c kind v : kind <> "database" -> (from_v1 q).(rules) !! Scope c kind v = None.
Proof.
  intros Hk. rewrite from_v1_rules. unfold translated_rules. pose proof (normalized_canonical q) as Hp.
  rewrite (connection_steps_at _ _ _ c) by (done || apply (can_connections _ Hp) || apply (can_connection _ Hp)).
  rewrite !foldl_rule_other by done. rewrite lookup_empty. destruct (find_named _ c _) as [r|]; [|done]. cbn [step_at].
  rewrite (proj2 (String.eqb_neq _ _) Hk), andb_false_r. done.
Qed.

(** Toolsets other than Salesforce's, from a connection rule. *)
Definition other_toolset (o : option McpAccessRule) (toolset : string) : option McpAccessLevel := o ≫= (fun r => r.(toolset_ceilings) !! toolset).

Lemma toolset_ceiling_other self c toolset :
  toolset <> SALESFORCE_WRITE_TOOLSET -> toolset_ceiling self c toolset = other_toolset (connection_rule self c) toolset.
Proof.
  intros Hne. unfold toolset_ceiling, other_toolset. destruct (connection_rule self c ≫= _); [done|]. by rewrite (proj2 (String.eqb_neq _ _) Hne).
Qed.

Lemma translated_other_toolset q c toolset : toolset <> SALESFORCE_WRITE_TOOLSET -> other_toolset (connection_rule (from_v1 q) c) toolset = None.
Proof.
  intros Hne. unfold other_toolset, connection_rule, rule. rewrite from_v1_rules, translated_connection by apply normalized_canonical. cbn zeta.
  destruct (find_connection_policy _ c) as [r|]; [|by destruct (bool_decide _)]. cbn [mbind option_bind]. unfold connection_rule_update.
  cbn [toolset_ceilings set_field set_toolset_ceilings]. rewrite lookup_insert_ne by done.
  unfold set_level. by destruct (bool_decide _), (execution_mode_configured r), (is_versioned r).
Qed.

(** What the two steps make of the rule of one connection. *)
Definition kept_mode (previous : McpAccessPolicy) (c : string) (r : McpAccessRule) (o : option McpAccessRule) : option McpAccessRule :=
  match r.(sub_scope) with
  | Some mode =>
    if plugin_scoped previous c r then Some (default default_rule o <| sub_scope := Some mode |> <| sub_scope_kind := r.(sub_scope_kind) |>) else o
  | None => o
  end.

Definition kept_toolsets (r : McpAccessRule) (o : option McpAccessRule) : option McpAccessRule :=
  if forallb (fun tc => String.eqb tc.1 SALESFORCE_WRITE_TOOLSET) (btree_entries String.le r.(toolset_ceilings)) then o
  else Some ((fun r0 => r0 <| toolset_ceilings := keep_ceilings r.(toolset_ceilings) r0.(toolset_ceilings) |>) (default default_rule o)).

Lemma kept_connection a previous c :
  connection_rule (with_v2_only_rules_from a previous) c =
  match connection_rule previous c with
  | Some r => kept_toolsets r (kept_mode previous c r (connection_rule a c))
  | None => connection_rule a c
  end.
Proof.
  unfold connection_rule, rule. unfold with_v2_only_rules_from. cbn [rules set_field set_rules].
  rewrite keep_scope_rules_at, keep_toolsets_at, keep_modes_at. unfold rule. by destruct (rules previous !! Connection c).
Qed.

(** Neither step touches the level, the ceiling or the visibility. *)
Lemma kept_field {A} (f : McpAccessRule -> option A) a previous c :
  f default_rule = None -> (forall r s, f (r <| sub_scope := s |>) = f r) -> (forall r s, f (r <| sub_scope_kind := s |>) = f r) ->
  (forall r s, f (r <| toolset_ceilings := s |>) = f r) ->
  connection_rule (with_v2_only_rules_from a previous) c ≫= f = connection_rule a c ≫= f.
Proof.
  intros H0 H1 H2 H3. rewrite kept_connection. destruct (connection_rule previous c) as [r|]; [|done].
  assert (Hd : forall o : option McpAccessRule, f (default default_rule o) = o ≫= f) by (intros [?|]; done).
  trans (kept_mode previous c r (connection_rule a c) ≫= f).
  - unfold kept_toolsets. destruct (forallb _ _); [done|]. cbn [mbind option_bind]. by rewrite H3, Hd.
  - unfold kept_mode. destruct (sub_scope r); [destruct (plugin_scoped previous c r)|]; try done.
    cbn [mbind option_bind]. by rewrite H2, H1, Hd.
Qed.

Lemma kept_other_toolset q previous c toolset :
  toolset <> SALESFORCE_WRITE_TOOLSET ->
  other_toolset (connection_rule (with_v2_only_rules_from (from_v1 q) previous) c) toolset = other_toolset (connection_rule previous c) toolset.
Proof.
  intros Hne. pose proof (translated_other_toolset q c toolset Hne) as H0. rewrite kept_connection. destruct (connection_rule previous c) as [r|]; [|done].
  assert (H1 : other_toolset (kept_mode previous c r (connection_rule (from_v1 q) c)) toolset = None).
  { unfold kept_mode. destruct (sub_scope r); [destruct (plugin_scoped previous c r)|]; try done. unfold other_toolset in *.
    by destruct (connection_rule (from_v1 q) c). }
  unfold kept_toolsets. destruct (forallb _ _) eqn:Eall.
  - rewrite H1. unfold other_toolset. cbn [mbind option_bind]. symmetry. apply eq_None_not_Some. intros [k Hk].
    rewrite forallb_forall in Eall. specialize (Eall (toolset, k)). rewrite <-list_elem_of_In in Eall.
    rewrite elem_of_btree_entries in Eall. apply Eall in Hk. by apply String.eqb_eq in Hk.
  - unfold other_toolset in *. cbn [mbind option_bind toolset_ceilings set_field set_toolset_ceilings]. rewrite keep_ceilings_at.
    rewrite (proj2 (String.eqb_neq _ _) Hne). destruct (kept_mode _ _ _ _) as [r0|]; simpl in *; [rewrite H1|rewrite lookup_empty];
      by destruct (toolset_ceilings r !! toolset).
Qed.

Lemma kept_scope_mode a previous c r mode :
  connection_rule previous c = Some r -> r.(sub_scope) = Some mode -> plugin_scoped previous c r = true ->
  sub_scope_mode (with_v2_only_rules_from a previous) c = mode.
Proof.
  intros Hr Hm Hp. unfold sub_scope_mode. rewrite kept_connection, Hr. unfold kept_toolsets, kept_mode. rewrite Hm, Hp.
  by destruct (forallb _ _).
Qed.

Lemma kept_resolution a previous groups c :
  connection_access (with_v2_only_rules_from a previous) groups c = connection_access a groups c /\
  connection_visible (with_v2_only_rules_from a previous) groups c = connection_visible a groups c.
Proof.
  set (v2 := with_v2_only_rules_from a previous).
  assert (Hg : forall g, rule v2 (Group g) = rule a (Group g)).
  { intros g. unfold rule, v2, with_v2_only_rules_from. cbn [rules set_field set_rules]. by rewrite keep_scope_rules_at, keep_toolsets_at, keep_modes_at. }
  pose proof (kept_field access a previous c eq_refl (fun _ _ => eq_refl) (fun _ _ => eq_refl) (fun _ _ => eq_refl)) as Ha.
  pose proof (kept_field ceiling a previous c eq_refl (fun _ _ => eq_refl) (fun _ _ => eq_refl) (fun _ _ => eq_refl)) as Hc.
  pose proof (kept_field visible a previous c eq_refl (fun _ _ => eq_refl) (fun _ _ => eq_refl) (fun _ _ => eq_refl)) as Hv.
  fold v2 in Ha, Hc, Hv. split.
  - unfold connection_access. change (default_access v2) with (default_access a).
    rewrite (foldl_ext_in _ (fun resolved group_id => match rule a (Group group_id) ≫= access with Some l => (l, SourceGroup group_id) | None => resolved end))
      by (intros; by rewrite Hg).
    unfold apply_access_ceiling, apply_access. destruct (connection_rule v2 c) as [r1|], (connection_rule a c) as [r2|]; simpl in *; try done.
    + by rewrite Ha, Hc.
    + by rewrite Ha, Hc.
    + by rewrite <-Ha, <-Hc.
  - unfold connection_visible, visible_is. rewrite Hv. change (visibility v2) with (visibility a).
    by rewrite (existsb_ext_bool _ (fun group_id => bool_decide (rule a (Group group_id) ≫= visible = Some true))) by (intros; by rewrite Hg).
Qed.

(** Saving the settings of the first version keeps what only the second can
    express.  In the policy that is saved, the rules of sub-scopes other than
    databases and the ceilings of all toolsets but Salesforce's are those of
    the previous policy, the admission mode of a connection whose sub-scopes
    are not databases is the previous one; the rest, groups, databases and the
    levels and visibility of connections, comes from the saved settings. *)
Theorem plugin_rules_survive q previous :
  let v2 := with_v2_only_rules_from (from_v1 q) previous in
  (forall c kind value, kind <> "database" -> rule v2 (Scope c kind value) = rule previous (Scope c kind value)) /\
  (forall c toolset, toolset <> SALESFORCE_WRITE_TOOLSET -> toolset_ceiling v2 c toolset = toolset_ceiling previous c toolset) /\
  (forall c r mode, connection_rule previous c = Some r -> r.(sub_scope) = Some mode -> plugin_scoped previous c r = true ->
     sub_scope_mode v2 c = mode) /\
  (forall g, rule v2 (Group g) = rule (from_v1 q) (Group g)) /\
  (forall c d, rule v2 (Scope c "database" d) = rule (from_v1 q) (Scope c "database" d)) /\
  (forall groups c, connection_access v2 groups c = connection_access (from_v1 q) groups c /\
     connection_visible v2 groups c = connection_visible (from_v1 q) groups c).
Proof.
  cbn zeta. split_and!.
  - intros c kind value Hk. unfold rule, with_v2_only_rules_from. cbn [rules set_field set_rules].
    rewrite keep_scope_rules_at, keep_toolsets_at, keep_modes_at, translated_other_scope by done.
    destruct (rules previous !! _); [|done]. by rewrite (proj2 (String.eqb_neq _ _) Hk).
  - intros c toolset Hne. rewrite !toolset_ceiling_other by done. by apply kept_other_toolset.
  - intros c r mode. apply kept_scope_mode.
  - intros g. unfold rule, with_v2_only_rules_from. cbn [rules set_field set_rules]. by rewrite keep_scope_rules_at, keep_toolsets_at, keep_modes_at.
  - intros c d. unfold rule, with_v2_only_rules_from. cbn [rules set_field set_rules].
    rewrite keep_scope_rules_at, keep_toolsets_at, keep_modes_at. by destruct (rules previous !! _).
  - intros groups c. apply kept_resolution.
Qed.

(** ** A policy that cannot be read *)

Section corrupt.
Context `{PolicySerdeLaws}.

Lemma recovery_hides groups c : connection_visible recovery_policy groups c = false.
Proof.
  unfold connection_visible, connection_rule, rule. cbn [rules recovery_policy visibility]. rewrite lookup_empty.
  rewrite (existsb_ext_bool _ (fun _ => false)) by (intros g; by rewrite lookup_empty). by induction groups.
Qed.

Lemma recovery_projection : to_v1 recovery_policy = normalized (to_v1 recovery_policy) /\
  (to_v1 recovery_policy).(allowed_connection_ids) = Some [] /\ (to_v1 recovery_policy).(allowed_group_ids) = [] /\
  (to_v1 recovery_policy).(allowed_tool_names) = Some [].
Proof. vm_compute. done. Qed.

Lemma recovery_restored : restore_legacy_salesforce_opt_ins recovery_policy (to_v1 recovery_policy) = recovery_policy.
Proof. vm_compute. done. Qed.

(** What is left in the settings by a reset. *)
Definition reset_settings (uuid : string) (m : Settings) (va vp : json) : Settings :=
  obj_insert MCP_ACCESS_POLICY_KEY va (obj_insert MCP_GLOBAL_POLICY_KEY vp
    (obj_insert ("mcp_policy_recovery_backup_" +:+ uuid)
       (JObject [("v1", get_or_null MCP_GLOBAL_POLICY_KEY m); ("v2", get_or_null MCP_ACCESS_POLICY_KEY m)]) m)).

Lemma backup_key uuid : "mcp_policy_recovery_backup_" +:+ uuid <> MCP_ACCESS_POLICY_KEY /\ "mcp_policy_recovery_backup_" +:+ uuid <> MCP_GLOBAL_POLICY_KEY.
Proof. done. Qed.

Lemma recovery_denies path c : policy_allows_connection (to_v1 recovery_policy) path c = false.
Proof.
  destruct recovery_projection as (_ & Hi & Hg & _). unfold policy_allows_connection. rewrite Hi, Hg. destruct path as [path|]; [|done]. simpl.
  by induction (McpPolicy.ids path).
Qed.

(** What the next reader of the reset settings is given. *)
Lemma reset_read uuid m va vp json :
  v2_to_value recovery_policy = Ok va -> v1_to_value (to_v1 recovery_policy) = Ok vp -> settings_to_string (reset_settings uuid m va vp) = Ok json ->
  load_mcp_access_policy (Some json) = Ok recovery_policy /\
  exists st, load_enforced_mcp_policy (Some json) = Ok st /\ st.(policy) = to_v1 recovery_policy /\
   load_mcp_global_policy (Some json) = Ok {| configured := true; policy := to_v1 recovery_policy |}.
Proof.
  intros Hva%v2_round_trip Hvp%v1_round_trip Hjson%settings_round_trip. pose proof (proj2 (settings_value _ _) Hjson) as Hv.
  destruct recovery_projection as (Hn & _). unfold load_mcp_access_policy, load_enforced_mcp_policy, load_mcp_global_policy, load_app_settings_json.
  rewrite Hv, Hjson. cbn [result_bind unavailable map_err]. unfold saved_mcp_access_policy, reset_settings.
  rewrite obj_get_insert. rewrite obj_get_insert_ne by done. rewrite obj_get_insert, Hva, Hvp. cbn [result_bind map_err mbind option_bind].
  rewrite ?Hvp. rewrite <- Hn. change (negb _) with false. cbn iota. rewrite recovery_restored. split; [done|]. eexists. split; [done|]. done.
Qed.

(** Nothing is written from a policy that cannot be read. *)
Lemma corrupt_refuses row m :
  app_settings_map_from_conn row = Ok m -> is_ok (saved_mcp_access_policy m) = false ->
  (forall q written, exists e, save_mcp_global_policy q written row = (Err e, row)) /\
  (forall c kind value r mode written, exists e, set_mcp_plugin_scope_rule c kind value r mode written row = (Err e, row)).
Proof.
  intros Hm Hs. split.
  - intros q written. unfold save_mcp_global_policy. rewrite Hm. cbn [result_bind]. destruct (saved_mcp_access_policy m) as [|e]; [done|].
    cbn [result_bind]. eexists. done.
  - intros c kind value r mode written. unfold set_mcp_plugin_scope_rule. destruct (_ || _); [by eexists|].
    destruct (normalized_setting_id _ _); [|by eexists]. rewrite Hm. cbn [result_bind]. unfold current_access.
    destruct (saved_mcp_access_policy m) as [|e]; [done|]. cbn [result_bind]. by eexists.
Qed.

(** Saving other settings keeps both policies, readable or not. *)
Lemma kept_by_others row m other written res row' :
  app_settings_map_from_conn row = Ok m -> NoDup other.*1 -> save_app_settings_json other written row = (res, row') ->
  exists m', app_settings_map_from_conn row' = Ok m' /\ obj_get MCP_ACCESS_POLICY_KEY m' = obj_get MCP_ACCESS_POLICY_KEY m /\
    obj_get MCP_GLOBAL_POLICY_KEY m' = obj_get MCP_GLOBAL_POLICY_KEY m.
Proof.
  intros Hm Ho E. destruct (save_other_keeps _ _ _ _ _ m MCP_ACCESS_POLICY_KEY Ho ltac:(by apply dedicated) Hm E) as [->|(m1 & Hm1 & Ha)]; [by exists m|].
  destruct (save_other_keeps _ _ _ _ _ m MCP_GLOBAL_POLICY_KEY Ho ltac:(by apply dedicated) Hm E) as [->|(m2 & Hm2 & Hg)]; [by exists m|].
  exists m1. rewrite Hm1 in Hm2. by injection Hm2 as <-.
Qed.
End corrupt.

(** C11. When the settings can be read and the access policy in them cannot (it does
    not parse, or its version is another), loading the access policy and loading the
    policy to enforce are errors, and neither saving the settings of the first version
    nor setting a plugin rule writes anything; saving other settings is possible and
    keeps both policies.  A reset, where the policies serialise and the write
    succeeds, keeps a copy of both values, touches no other setting, and leaves
    policies under which no connection is visible and no tool is allowed.  (Nothing is
    claimed of two operations that do not look at the access policy: loading the
    settings of the first version, which succeeds, and saving a whole access policy,
    which replaces the unreadable one.) *)
Theorem corrupt_policy_fails_closed `{PolicySerdeLaws} row m :
  load_app_settings_json row = Ok m -> is_ok (saved_mcp_access_policy m) = false ->
  (forall p, is_ok (v1_to_value p) = true) -> (forall p, is_ok (v2_to_value p) = true) -> (forall m, is_ok (settings_to_string m) = true) ->
  is_ok (load_enforced_mcp_policy row) = false /\ is_ok (load_mcp_access_policy row) = false /\
  (forall q written, exists e, save_mcp_global_policy q written row = (Err e, row)) /\
  (forall c kind value r mode written, exists e, set_mcp_plugin_scope_rule c kind value r mode written row = (Err e, row)) /\
  (forall other written res row', NoDup other.*1 -> save_app_settings_json other written row = (res, row') ->
     exists m', app_settings_map_from_conn row' = Ok m' /\ obj_get MCP_ACCESS_POLICY_KEY m' = obj_get MCP_ACCESS_POLICY_KEY m /\
       obj_get MCP_GLOBAL_POLICY_KEY m' = obj_get MCP_GLOBAL_POLICY_KEY m) /\
  forall uuid, exists row' m' st,
    reset_invalid_mcp_access_policy uuid (Ok tt) row = (Ok tt, row') /\ load_app_settings_json row' = Ok m' /\
    obj_get ("mcp_policy_recovery_backup_" +:+ uuid) m' =
      Some (JObject [("v1", get_or_null MCP_GLOBAL_POLICY_KEY m); ("v2", get_or_null MCP_ACCESS_POLICY_KEY m)]) /\
    (forall k, k <> MCP_ACCESS_POLICY_KEY -> k <> MCP_GLOBAL_POLICY_KEY -> k <> "mcp_policy_recovery_backup_" +:+ uuid -> obj_get k m' = obj_get k m) /\
    load_mcp_access_policy row' = Ok recovery_policy /\ load_enforced_mcp_policy row' = Ok st /\
    (forall groups c, connection_visible recovery_policy groups c = false) /\ (forall path c, policy_allows_connection st.(policy) path c = false) /\
    recovery_policy.(acc_allowed_tool_names) = Some [] /\ st.(policy).(allowed_tool_names) = Some [].
Proof.
  intros Hm Hs H1 H2 H3. pose proof (load_settings_same _ _ Hm) as Hm'. destruct (corrupt_refuses row m Hm' Hs) as [Hg Hsc].
  split_and!; [| |done|done|intros *; by apply kept_by_others|].
  - unfold load_enforced_mcp_policy. rewrite Hm. cbn [unavailable map_err result_bind]. by destruct (saved_mcp_access_policy m).
  - unfold load_mcp_access_policy. rewrite Hm. cbn [unavailable map_err result_bind]. by destruct (saved_mcp_access_policy m).
  - intros uuid. destruct (v2_to_value recovery_policy) as [va|] eqn:Eva; [|specialize (H2 recovery_policy); by rewrite Eva in H2].
    destruct (v1_to_value (to_v1 recovery_policy)) as [vp|] eqn:Evp; [|specialize (H1 (to_v1 recovery_policy)); by rewrite Evp in H1].
    destruct (settings_to_string (reset_settings uuid m va vp)) as [json|] eqn:Ej; [|specialize (H3 (reset_settings uuid m va vp)); by rewrite Ej in H3].
    destruct (reset_read _ _ _ _ _ Eva Evp Ej) as (Ha & st & He & Hp & _). exists (Some json), (reset_settings uuid m va vp), st.
    destruct (backup_key uuid) as [Hb1 Hb2]. unfold reset_invalid_mcp_access_policy, write_policies, write_app_settings_map.
    rewrite Hm', Hs, Evp, Eva. change (settings_to_string _) with (settings_to_string (reset_settings uuid m va vp)). rewrite Ej.
    split_and!; [done| | | |done|done|apply recovery_hides|intros; rewrite Hp; apply recovery_denies|done|rewrite Hp; apply recovery_projection].
    + simpl. by rewrite (proj2 (settings_value _ _) (settings_round_trip _ _ Ej)).
    + unfold reset_settings. rewrite !obj_get_insert_ne by done. apply obj_get_insert.
    + intros k Hk1 Hk2 Hk3. unfold reset_settings. by rewrite !obj_get_insert_ne by done.
Qed.

(** ** One concrete serialisation *)

Module StoreRuns.
#[local] Instance McpAccessLevel_countable : Countable McpAccessLevel.
Proof.
  refine (inj_countable (fun l => rank l) (fun n => match n with 0 => Some LevelNone | 1 => Some LevelRead | 2 => Some LevelWrite | _ => Some LevelFull end) _).
  by intros [].
Defined.
#[local] Instance McpConfirmPolicy_countable : Countable McpConfirmPolicy.
Proof.
  refine (inj_countable' (fun c => match c with ConfirmOff => None | ConfirmFull => Some true | ConfirmHighRisk => Some false end)
    (fun o => match o with None => ConfirmOff | Some true => ConfirmFull | Some false => ConfirmHighRisk end) _). by intros [].
Defined.
#[local] Instance McpPluginToolsMode_countable : Countable McpPluginToolsMode.
Proof.
  refine (inj_countable' (fun c => match c with PluginAuto => None | PluginFlat => Some true | PluginLazy => Some false end)
    (fun o => match o with None => PluginAuto | Some true => PluginFlat | Some false => PluginLazy end) _). by intros [].
Defined.
#[local] Instance McpDatabaseScope_eq_dec : EqDecision McpDatabaseScope.
Proof. solve_decision. Defined.
#[local] Instance McpDatabaseScope_countable : Countable McpDatabaseScope.
Proof.
  refine (inj_countable' (fun c => match c with ScopeAll => None | ScopeSelected => Some true | ScopeNone => Some false end)
    (fun o => match o with None => ScopeAll | Some true => ScopeSelected | Some false => ScopeNone end) _). by intros [].
Defined.
#[local] Instance McpSubScopeMode_countable : Countable McpSubScopeMode.
Proof.
  refine (inj_countable' (fun c => match c with SubAll => None | SubSelected => Some true | SubNone => Some false end)
    (fun o => match o with None => SubAll | Some true => SubSelected | Some false => SubNone end) _). by intros [].
Defined.
#[local] Instance McpVisibilityMode_countable : Countable McpVisibilityMode.
Proof.
  refine (inj_countable' (fun c => match c with VisibleAll => true | VisibleSelected => false end)
    (fun b => match b with true => VisibleAll | false => VisibleSelected end) _). by intros [].
Defined.
#[local] Instance McpGroupPolicy_eq_dec : EqDecision McpGroupPolicy.
Proof. solve_decision. Defined.
#[local] Instance McpGroupPolicy_countable : Countable McpGroupPolicy.
Proof.
  refine (inj_countable' (fun g => (grp_group_id g, grp_read_only g, grp_allow_dangerous_sql g))
    (fun '(a, b, c) => {| grp_group_id := a; grp_read_only := b; grp_allow_dangerous_sql := c |}) _). by intros [].
Defined.
#[local] Instance McpDatabasePolicy_eq_dec : EqDecision McpDatabasePolicy.
Proof. solve_decision. Defined.
#[local] Instance McpDatabasePolicy_countable : Countable McpDatabasePolicy.
Proof.
  refine (inj_countable' (fun g => (db_database_name g, db_read_only g, db_allow_dangerous_sql g))
    (fun '(a, b, c) => {| db_database_name := a; db_read_only := b; db_allow_dangerous_sql := c |}) _). by intros [].
Defined.
#[local] Instance McpConnectionPolicy_eq_dec : EqDecision McpConnectionPolicy.
Proof. solve_decision. Defined.
#[local] Instance McpConnectionPolicy_countable : Countable McpConnectionPolicy.
Proof.
  refine (inj_countable' (fun r => (conn_connection_id r, conn_read_only r, conn_allow_dangerous_sql r, execution_mode_configured r,
      execution_mode_policy_version r, database_scope r, allowed_databases r, database_policies r, allow_salesforce_dml r))
    (fun '(a, b, c, d, e, f, g, h, i) => {| conn_connection_id := a; conn_read_only := b; conn_allow_dangerous_sql := c;
      execution_mode_configured := d; execution_mode_policy_version := e; database_scope := f; allowed_databases := g;
      database_policies := h; allow_salesforce_dml := i |}) _). by intros [].
Defined.
#[local] Instance McpGlobalPolicy_eq_dec : EqDecision McpGlobalPolicy.
Proof. solve_decision. Defined.
#[local] Instance McpGlobalPolicy_countable : Countable McpGlobalPolicy.
Proof.
  refine (inj_countable' (fun p => (read_only p, allow_dangerous_sql p, prompt_high_risk_sql p, call_confirmation p, allowed_connection_ids p,
      allowed_group_ids p, allowed_tool_names p, connection_policies p, group_policies p, query_timeout_secs p, plugin_tools_mode p))
    (fun '(a, b, c, d, e, f, g, h, i, j, k) => {| read_only := a; allow_dangerous_sql := b; prompt_high_risk_sql := c; call_confirmation := d;
      allowed_connection_ids := e; allowed_group_ids := f; allowed_tool_names := g; connection_policies := h; group_policies := i;
      query_timeout_secs := j; plugin_tools_mode := k |}) _). by intros [].
Defined.
#[local] Instance McpAccessRule_countable : Countable McpAccessRule.
Proof.
  refine (inj_countable' (fun r => (access r, ceiling r, visible r, sub_scope r, sub_scope_kind r, toolset_ceilings r))
    (fun '(a, b, c, d, e, f) => {| access := a; ceiling := b; visible := c; sub_scope := d; sub_scope_kind := e; toolset_ceilings := f |}) _).
  by intros [].
Defined.
#[local] Instance WirePolicy_eq_dec : EqDecision WirePolicy.
Proof. solve_decision. Defined.
#[local] Instance WirePolicy_countable : Countable WirePolicy.
Proof.
  refine (inj_countable' (fun p => (w_version p, w_default_access p, w_confirm p, w_visibility p, w_rules p, w_allowed_tool_names p,
      w_query_timeout_secs p, w_plugin_tools_mode p))
    (fun '(a, b, c, d, e, f, g, h) => {| w_version := a; w_default_access := b; w_confirm := c; w_visibility := d; w_rules := e;
      w_allowed_tool_names := f; w_query_timeout_secs := g; w_plugin_tools_mode := h |}) _). by intros [].
Defined.

(** Positive numbers as texts. *)
Definition zero : Ascii.ascii := Ascii.Ascii false false false false true true false false.
Definition one : Ascii.ascii := Ascii.Ascii true false false false true true false false.

Fixpoint digits (p : positive) : string :=
  match p with xH => EmptyString | xO q => String zero (digits q) | xI q => String one (digits q) end.
Fixpoint undigits (s : string) : positive :=
  match s with EmptyString => xH | String c s => if Ascii.eqb c zero then xO (undigits s) else xI (undigits s) end.

Lemma undigits_digits p : undigits (digits p) = p.
Proof. induction p; simpl; by f_equal. Qed.

Definition print {A} `{Countable A} (a : A) : string := digits (encode a).
Definition scan {A} `{Countable A} (s : string) : result A string :=
  match decode (undigits s) with Some a => Ok a | None => Err "invalid" end.

Lemma scan_print {A} `{Countable A} (a : A) : scan (print a) = Ok a.
Proof. unfold scan, print. by rewrite undigits_digits, decode_encode. Qed.

#[local] Instance demo_serde : PolicySerde := {|
  v1_to_value p := Ok (JString (print p));
  v1_from_value v := match v with JString s => scan s | _ => Err "expected a policy" end;
  wire_to_value p := Ok (JString (print p));
  wire_from_value v := match v with JString s => scan s | _ => Err "expected a policy" end;
  settings_to_string m := Ok (print m);
  settings_from_str := scan;
  value_from_str s := match scan s with Ok m => Ok (JObject m) | Err e => Err e end;
|}.

#[local] Instance demo_laws : PolicySerdeLaws.
Proof.
  split; simpl.
  - intros p v [= <-]. apply scan_print.
  - intros p v [= <-]. apply scan_print.
  - intros m s [= <-]. apply scan_print.
  - intros s m. split; [|by intros ->]. destruct (scan s); congruence.
Qed.

(** Namespaces are of no use to the first version. *)
Definition kube_policy : McpAccessPolicy :=
  set_scope_rule (from_v1 default_global_policy) "kube" "namespace" (Some "prod") (Some (default_rule <| access := Some LevelRead |>)) (Some SubSelected).

(** Reading an access policy back after it was saved into empty settings. *)
Lemma saved_access_read a :
  a.(version) = MCP_ACCESS_POLICY_VERSION ->
  let row := (save_mcp_access_policy a (Ok tt) None).2 in
  exists a' st, load_mcp_access_policy row = Ok a' /\ load_enforced_mcp_policy row = Ok st.
Proof.
  intros Hv row. unfold row. unfold save_mcp_access_policy. destruct (v2_to_value a) as [va|] eqn:Eva; [|done].
  apply v2_round_trip in Eva. cbn [v1_to_value demo_serde]. unfold write_app_settings_map. cbn [settings_to_string demo_serde app_settings_map_from_conn snd].
  unfold load_mcp_access_policy, load_enforced_mcp_policy, load_app_settings_json. cbn [value_from_str demo_serde]. rewrite scan_print.
  cbn [result_bind unavailable map_err]. unfold saved_mcp_access_policy. rewrite obj_get_insert_ne by done. rewrite obj_get_insert, Eva.
  cbn [result_bind map_err]. rewrite Hv. cbn. eauto.
Qed.

(** A policy with a plugin rule is saved, then a write fails. *)
Definition row1 : Row := (save_mcp_access_policy kube_policy (Ok tt) None).2.
Definition row2 : Row := (save_mcp_global_policy default_global_policy (Err "disk full") row1).2.

Lemma failed_write : row2 = row1.
Proof.
  unfold row2, save_mcp_global_policy. destruct (app_settings_map_from_conn row1) as [m|]; [|done]. cbn [result_bind].
  destruct (saved_mcp_access_policy m); [|done]. cbn [result_bind]. by destruct (v2_to_value _).
Qed.

Lemma saved_policies_agree_witness :
  exists a st, load_mcp_access_policy row2 = Ok a /\ load_enforced_mcp_policy row2 = Ok st /\ never_wider st.(policy) a.
Proof.
  destruct (saved_access_read kube_policy eq_refl) as (a & st & Ea & Est). fold row1 in Ea, Est. rewrite <- failed_write in Ea, Est.
  exists a, st. split; [done|]. split; [done|]. refine (saved_policies_agree None row2 a st _ _ Ea (or_intror Est)).
  - intros m [= <-]. done.
  - apply (rtc_l _ _ row1); [refine (step_access kube_policy (Ok tt) None _)|apply rtc_once; exact (step_global default_global_policy (Err "disk full") row1)].
    apply wf_set_scope_rule; [apply wf_from_v1|by split|intros v [= <-]; by split].
Defined.

(** A text that is no policy. *)
Definition corrupt_settings : Settings := [(MCP_ACCESS_POLICY_KEY, JBool true); ("theme", JString "dark")].
Definition corrupt_row : Row := Some (print corrupt_settings).

Lemma corrupt_policy_fails_closed_witness :
  is_ok (load_enforced_mcp_policy corrupt_row) = false /\ is_ok (load_mcp_access_policy corrupt_row) = false.
Proof.
  assert (H : load_app_settings_json corrupt_row = Ok corrupt_settings) by (unfold load_app_settings_json, corrupt_row; cbn [value_from_str demo_serde]; by rewrite scan_print).
  destruct (corrupt_policy_fails_closed corrupt_row corrupt_settings H) as (H1 & H2 & _); [vm_compute; done|done..|]. by split.
Defined.

Lemma plugin_rules_survive_witness :
  sub_scope_mode (with_v2_only_rules_from (from_v1 default_global_policy) kube_policy) "kube" = SubSelected.
Proof.
  destruct (connection_rule kube_policy "kube") as [r|] eqn:Er; [|exfalso; revert Er; vm_compute; discriminate].
  apply (proj1 (proj2 (proj2 (plugin_rules_survive default_global_policy kube_policy))) "kube" r SubSelected Er).
  - revert Er. vm_compute. by intros [= <-].
  - revert Er. vm_compute. by intros [= <-].
Defined.
End StoreRuns.
