(* ===== verification/SchemaCache.v ===== *)
(** * The schema cache

    Models the cache of object metadata: the table [schema_cache] of
    [crates/dbx-core/src/persistence/storage.rs] with its owners, budgets and
    pruning, and the keys and invalidation of
    [crates/dbx-core/src/query/object_cache.rs].

    The table is the list of its rows, one per key; a query is a function on the
    list, and what an ORDER BY leaves open does not arise, since keys are
    unique.  The column [updated_at] is only written and is left out.  Keys and
    owners are UTF-8 bytes, which SQLite compares as such.  A call that meets an
    I/O error rolls its transaction back: the error is an argument, and with one
    the table stays as it was.  Every round of the pruning loops deletes a row,
    so the number of rows is enough fuel. *)

From S2P Require Import Prelude Utf8 ValueLiterals.

Record CacheRow := {
  cache_key : text;
  payload_json : text;
  updated_at_ms : Z;
  last_accessed_at_ms : Z;
  byte_size : Z;
  owner_id : text;
}.

Definition Table : Type := list CacheRow.

Record SchemaCachePolicy := {
  max_total_bytes : Z;
  max_connection_bytes : Z;
  max_entries : Z;
  max_age_millis : Z;
}.

Definition SCHEMA_CACHE_MAX_TOTAL_BYTES : Z := 256 * 1024 * 1024.
Definition SCHEMA_CACHE_MAX_CONNECTION_BYTES : Z := 64 * 1024 * 1024.
Definition SCHEMA_CACHE_MAX_ENTRIES : Z := 50000.
Definition SCHEMA_CACHE_MAX_AGE_MILLIS : Z := 24 * 60 * 60 * 1000.

Definition default_policy : SchemaCachePolicy :=
  {| max_total_bytes := SCHEMA_CACHE_MAX_TOTAL_BYTES; max_connection_bytes := SCHEMA_CACHE_MAX_CONNECTION_BYTES;
     max_entries := SCHEMA_CACHE_MAX_ENTRIES; max_age_millis := SCHEMA_CACHE_MAX_AGE_MILLIS |}.

(** [i64::saturating_sub] of non-negative [b], and [usize as i64]. *)
Definition i64_min : Z := (- 2 ^ 63)%Z.
Definition saturating_sub (a b : Z) : Z := Z.max i64_min (a - b).
Definition as_i64 (n : Z) : Z := ((n + 2 ^ 63) mod 2 ^ 64 - 2 ^ 63)%Z.

Definition schema_cache_owner (key : text) : text :=
  match split_on 58 key with
  | p0 :: p1 :: owner :: _ =>
    if (bool_decide (p0 = txt "object-ddl") || bool_decide (p0 = txt "object-meta")) && bool_decide (p1 = txt "v1")
    then owner else []
  | _ => []
  end.

(** The order of bytes, and [last_accessed_at_ms, updated_at_ms, cache_key]. *)
Fixpoint text_leb (a b : text) : bool :=
  match a, b with
  | [], _ => true
  | _ :: _, [] => false
  | x :: a', y :: b' => (x <? y)%Z || ((x =? y)%Z && text_leb a' b')
  end.

Definition row_leb (a b : CacheRow) : bool :=
  (a.(last_accessed_at_ms) <? b.(last_accessed_at_ms))%Z ||
  ((a.(last_accessed_at_ms) =? b.(last_accessed_at_ms))%Z &&
   ((a.(updated_at_ms) <? b.(updated_at_ms))%Z ||
    ((a.(updated_at_ms) =? b.(updated_at_ms))%Z && text_leb a.(cache_key) b.(cache_key)))).

Fixpoint first_row (rows : list CacheRow) : option CacheRow :=
  match rows with
  | [] => None
  | r :: rest =>
    match first_row rest with
    | Some m => if row_leb r m then Some r else Some m
    | None => Some r
    end
  end.

Definition delete_key (key : text) (t : Table) : Table := List.filter (fun r => negb (bool_decide (r.(cache_key) = key))) t.

Definition owned_by (owner : text) (t : Table) : Table := List.filter (fun r => bool_decide (r.(owner_id) = owner)) t.

(** The rows a deletion chooses from. *)
Definition candidates (owner : option text) (t : Table) : Table :=
  match owner with Some owner => owned_by owner t | None => t end.

Definition delete_oldest_schema_cache_entry (owner : option text) (t : Table) : bool * Table :=
  match first_row (candidates owner t) with
  | Some r => (true, delete_key r.(cache_key) t)
  | None => (false, t)
  end.

Fixpoint total_size (t : Table) : Z := match t with [] => 0 | r :: rest => r.(byte_size) + total_size rest end.

(** The owner with the largest sum above the budget, the smallest name first. *)
Fixpoint largest_owner (t : Table) (owners : list text) : option text :=
  match owners with
  | [] => None
  | o :: rest =>
    match largest_owner t rest with
    | Some m =>
      let so := total_size (owned_by o t) in
      let sm := total_size (owned_by m t) in
      if (sm <? so)%Z || ((so =? sm)%Z && text_leb o m) then Some o else Some m
    | None => Some o
    end
  end.

Definition over_budget_owner (budget : Z) (t : Table) : option text :=
  largest_owner t (List.filter (fun o => (budget <? total_size (owned_by o t))%Z) (map owner_id t)).

Fixpoint owner_loop (fuel : nat) (policy : SchemaCachePolicy) (t : Table) : Table :=
  match fuel with
  | 0 => t
  | S fuel' =>
    match over_budget_owner (Z.max 0 policy.(max_connection_bytes)) t with
    | None => t
    | Some owner =>
      let '(deleted, t) := delete_oldest_schema_cache_entry (Some owner) t in
      if negb deleted then t else owner_loop fuel' policy t
    end
  end.

Fixpoint total_loop (fuel : nat) (policy : SchemaCachePolicy) (t : Table) : Table :=
  match fuel with
  | 0 => t
  | S fuel' =>
    if (Z.of_nat (length t) <=? as_i64 policy.(max_entries))%Z && (total_size t <=? Z.max 0 policy.(max_total_bytes))%Z then t
    else
      let '(deleted, t) := delete_oldest_schema_cache_entry None t in
      if negb deleted then t else total_loop fuel' policy t
  end.

Definition prune_schema_cache (policy : SchemaCachePolicy) (now_ms : Z) (t : Table) : Table :=
  let expires_before := saturating_sub now_ms (Z.max 0 policy.(max_age_millis)) in
  let t := List.filter (fun r => negb ((r.(updated_at_ms) =? 0)%Z || (r.(updated_at_ms) <=? expires_before)%Z)) t in
  let t := owner_loop (length t) policy t in
  total_loop (length t) policy t.

(** The upsert: a row with the key is replaced in place. *)
Fixpoint upsert (row : CacheRow) (t : Table) : Table :=
  match t with
  | [] => [row]
  | r :: rest => if bool_decide (r.(cache_key) = row.(cache_key)) then row :: rest else r :: upsert row rest
  end.

Definition new_row (key json : text) (now_ms : Z) : CacheRow :=
  {| cache_key := key; payload_json := json; updated_at_ms := now_ms; last_accessed_at_ms := now_ms;
     byte_size := Z.min (Z.of_nat (length json)) (2 ^ 63 - 1); owner_id := schema_cache_owner key |}.

(** [json] is the payload as [serde_json::to_string] wrote it. *)
Definition save_schema_cache_with_policy (io_error : option string) (key json : text) (policy : SchemaCachePolicy) (now_ms : Z)
    (t : Table) : result unit string * Table :=
  match io_error with
  | Some e => (Err e, t)
  | None => (Ok tt, prune_schema_cache policy now_ms (upsert (new_row key json now_ms) t))
  end.

Definition save_schema_cache (io_error : option string) (key json : text) (now_ms : Z) (t : Table) : result unit string * Table :=
  save_schema_cache_with_policy io_error key json default_policy now_ms t.

Definition touch (key : text) (now_ms : Z) (t : Table) : Table :=
  map (fun r => if bool_decide (r.(cache_key) = key)
                then {| cache_key := r.(cache_key); payload_json := r.(payload_json); updated_at_ms := r.(updated_at_ms);
                        last_accessed_at_ms := now_ms; byte_size := r.(byte_size); owner_id := r.(owner_id) |}
                else r) t.

(** The payload is given as text; parsing it is serde's. *)
Definition load_schema_cache (io_error : option string) (key : text) (now_ms : Z) (t : Table) : result (option text) string * Table :=
  match io_error with
  | Some e => (Err e, t)
  | None =>
    let since := saturating_sub now_ms (Z.max 0 SCHEMA_CACHE_MAX_AGE_MILLIS) in
    match List.find (fun r => bool_decide (r.(cache_key) = key) && (since <? r.(updated_at_ms))%Z) t with
    | Some r => (Ok (Some r.(payload_json)), touch key now_ms t)
    | None => (Ok None, t)
    end
  end.

(** SQLite's [substr(s, 1, n)] counts characters. *)
Definition substr1 (n : nat) (s : text) : text := concat (take n (chars s)).

Definition delete_schema_cache_prefix (io_error : option string) (prefix : text) (t : Table) : result unit string * Table :=
  match io_error with
  | Some e => (Err e, t)
  | None =>
    let prefix_len := length prefix in
    (Ok tt, List.filter (fun r => negb (bool_decide (r.(cache_key) = prefix) ||
                                        bool_decide (substr1 prefix_len r.(cache_key) = prefix))) t)
  end.

(** ** Keys and invalidation *)

Definition OBJECT_METADATA_CACHE_PREFIX : text := txt "object-meta:v1".
Definition OBJECT_DDL_CACHE_PREFIX : text := txt "object-ddl:v1".

(** The bytes [encodeURIComponent] keeps: letters, digits and [-_.!~*'()]. *)
Definition is_unreserved (b : Z) : bool :=
  is_ascii_alphanumeric b || existsb (Z.eqb b) [45; 95; 46; 33; 126; 42; 39; 40; 41]%Z.

Definition encode_byte (b : Z) : text :=
  if is_unreserved b then [b] else [37%Z; hex_digit (Z.shiftr b 4); hex_digit (Z.land b 15)].

Definition metadata_cache_segment (value : text) : text := concat (map encode_byte value).

Definition object_metadata_cache_prefix (connection_id database : text) : text :=
  OBJECT_METADATA_CACHE_PREFIX ++ txt ":" ++ metadata_cache_segment connection_id ++ txt ":" ++
  metadata_cache_segment database ++ txt ":".

Definition connection_prefix (namespace connection_id : text) : text :=
  namespace ++ txt ":" ++ metadata_cache_segment connection_id ++ txt ":".

(** Both namespaces in turn; an error is logged and the next one still runs. *)
Definition invalidate_connection_object_cache (io1 io2 : option string) (connection_id : text) (t : Table) : Table :=
  let t := (delete_schema_cache_prefix io1 (connection_prefix OBJECT_METADATA_CACHE_PREFIX connection_id) t).2 in
  (delete_schema_cache_prefix io2 (connection_prefix OBJECT_DDL_CACHE_PREFIX connection_id) t).2.

(** ** Pruning *)

Lemma filter_sublist {A} (p : A -> bool) l : List.filter p l `sublist_of` l.
Proof. induction l as [|x l IH]; simpl; [done|]. destruct (p x); by constructor. Qed.

Lemma filter_sublist_mono {A} (p : A -> bool) l k : l `sublist_of` k -> List.filter p l `sublist_of` List.filter p k.
Proof. induction 1 as [|x l k _ IH|x l k _ IH]; simpl; [done|..]; destruct (p x); try done; by constructor. Qed.

Lemma filter_length_lt {A} (p : A -> bool) l x : x ∈ l -> p x = false -> length (List.filter p l) < length l.
Proof.
  intros Hx Hp. induction l as [|y l IH]; [by apply elem_of_nil in Hx|]. simpl.
  pose proof (sublist_length _ _ (filter_sublist p l)). apply elem_of_cons in Hx as [->|Hx].
  - rewrite Hp. lia.
  - specialize (IH Hx). destruct (p y); simpl; lia.
Qed.

Definition sizes_ok (t : Table) : Prop := Forall (fun r => (0 <= r.(byte_size))%Z) t.

Lemma total_size_nonneg t : sizes_ok t -> (0 <= total_size t)%Z.
Proof. induction 1; simpl; lia. Qed.

Lemma total_size_sublist t t' : sizes_ok t -> t' `sublist_of` t -> (total_size t' <= total_size t)%Z.
Proof.
  intros Hs Hsub. induction Hsub as [|r l k _ IH|r l k _ IH]; simpl; [lia|..];
    apply Forall_cons in Hs as [Hr Hs]; specialize (IH Hs); lia.
Qed.

Lemma Forall_of_sublist {A} (P : A -> Prop) l k : l `sublist_of` k -> Forall P k -> Forall P l.
Proof.
  induction 1 as [|x l k _ IH|x l k _ IH]; [done|..]; intros [Hx Hk]%Forall_cons; [constructor|]; auto.
Qed.

Lemma NoDup_of_sublist {A} (l k : list A) : l `sublist_of` k -> NoDup k -> NoDup l.
Proof.
  induction 1 as [|x l k Hs IH|x l k _ IH]; [done|..]; intros [Hx Hk]%NoDup_cons; [|by auto].
  apply NoDup_cons. split; [|by auto]. intros Hin. apply Hx. revert Hin.
  assert (Hall : Forall (fun y => y ∈ k) l) by (eapply Forall_of_sublist; [exact Hs|by apply Forall_forall]).
  rewrite Forall_forall in Hall. apply Hall.
Qed.

Lemma first_row_spec rows : match first_row rows with
  | Some m => m ∈ rows /\ Forall (fun r => (m.(last_accessed_at_ms) <= r.(last_accessed_at_ms))%Z) rows
  | None => rows = []
  end.
Proof.
  induction rows as [|r rows IH]; simpl; [done|]. destruct (first_row rows) as [m|]; [|subst; split; [by left|by constructor]].
  destruct IH as [Hin Hall]. assert (Hcmp : if row_leb r m then (r.(last_accessed_at_ms) <= m.(last_accessed_at_ms))%Z
    else (m.(last_accessed_at_ms) <= r.(last_accessed_at_ms))%Z).
  { unfold row_leb. destruct (Z.ltb_spec r.(last_accessed_at_ms) m.(last_accessed_at_ms)); simpl; [lia|].
    destruct (Z.eqb_spec r.(last_accessed_at_ms) m.(last_accessed_at_ms)); simpl; [|lia]. destruct (_ || _); lia. }
  destruct (row_leb r m); split; [by left| |by right|].
  - constructor; [lia|]. eapply Forall_impl; [exact Hall|]. simpl. lia.
  - by constructor.
Qed.

(** A deletion removes the row with the smallest access time, and a row when there is one. *)
Lemma delete_oldest_spec owner t :
  match delete_oldest_schema_cache_entry owner t with
  | (true, t') => exists m, m ∈ candidates owner t /\
                  Forall (fun r => (m.(last_accessed_at_ms) <= r.(last_accessed_at_ms))%Z) (candidates owner t) /\
                  t' = delete_key m.(cache_key) t /\ length t' < length t
  | (false, t') => candidates owner t = [] /\ t' = t
  end.
Proof.
  unfold delete_oldest_schema_cache_entry. pose proof (first_row_spec (candidates owner t)) as Hf.
  destruct (first_row (candidates owner t)) as [m|]; [|done]. destruct Hf as [Hin Hall]. exists m. split_and!; [done|done|done|].
  apply (filter_length_lt _ t m); [|by rewrite bool_decide_true].
  destruct owner; [|done]. by apply elem_of_bool_filter in Hin as [? _].
Qed.

Lemma largest_owner_spec t owners : match largest_owner t owners with Some o => o ∈ owners | None => owners = [] end.
Proof.
  induction owners as [|o owners IH]; simpl; [done|]. destruct (largest_owner t owners); [|by left].
  destruct (_ || _); [by left|by right].
Qed.

Lemma over_budget_spec budget t : (0 <= budget)%Z ->
  match over_budget_owner budget t with
  | Some o => (budget < total_size (owned_by o t))%Z
  | None => forall o, (total_size (owned_by o t) <= budget)%Z
  end.
Proof.
  intros Hb. unfold over_budget_owner. set (p := fun o => (budget <? total_size (owned_by o t))%Z).
  pose proof (largest_owner_spec t (List.filter p (map owner_id t))) as Hl.
  destruct (largest_owner t _) as [o|].
  - apply elem_of_bool_filter in Hl as [_ Hl]. by apply Z.ltb_lt.
  - intros o. destruct (decide (o ∈ map owner_id t)) as [Hin|Hni].
    + destruct (p o) eqn:E; [|by apply Z.ltb_ge in E]. exfalso. assert (Hm : o ∈ List.filter p (map owner_id t)) by (by apply elem_of_bool_filter).
      rewrite Hl in Hm. by apply elem_of_nil in Hm.
    + assert (owned_by o t = []) as ->; [|simpl; lia]. destruct (owned_by o t) as [|r l] eqn:E; [done|]. exfalso. apply Hni.
      assert (Hr : r ∈ owned_by o t) by (rewrite E; by left). apply elem_of_bool_filter in Hr as [Hr Ho].
      apply bool_decide_eq_true in Ho as <-. by apply list_elem_of_fmap_2.
Qed.

Lemma owner_loop_spec fuel policy t : length t <= fuel ->
  owner_loop fuel policy t `sublist_of` t /\
  forall o, (total_size (owned_by o (owner_loop fuel policy t)) <= Z.max 0 policy.(max_connection_bytes))%Z.
Proof.
  revert t. induction fuel as [|fuel IH]; intros t Hf; simpl.
  { split; [done|]. destruct t; [|simpl in Hf; lia]. intros o. simpl. lia. }
  pose proof (over_budget_spec (Z.max 0 policy.(max_connection_bytes)) t ltac:(lia)) as Hb.
  destruct (over_budget_owner _ t) as [o|]; [|done]. pose proof (delete_oldest_spec (Some o) t) as Hd.
  destruct (delete_oldest_schema_cache_entry (Some o) t) as [[] t'].
  - destruct Hd as (m & _ & _ & -> & Hlt). simpl. destruct (IH (delete_key m.(cache_key) t) ltac:(lia)) as [Hs Ho].
    split; [|done]. etrans; [exact Hs|apply filter_sublist].
  - destruct Hd as [Hnil _]. simpl in Hnil. rewrite Hnil in Hb. simpl in Hb. lia.
Qed.

Lemma total_loop_spec fuel policy t : length t <= fuel ->
  let t' := total_loop fuel policy t in
  t' `sublist_of` t /\
  ((Z.of_nat (length t') <= as_i64 policy.(max_entries))%Z \/ t' = []) /\ (total_size t' <= Z.max 0 policy.(max_total_bytes))%Z.
Proof.
  revert t. induction fuel as [|fuel IH]; intros t Hf; simpl.
  { destruct t; [|simpl in Hf; lia]. split_and!; [done|by right|simpl; lia]. }
  destruct (_ && _) eqn:E; [apply andb_true_iff in E as [?%Z.leb_le ?%Z.leb_le]; by eauto|].
  pose proof (delete_oldest_spec None t) as Hd. destruct (delete_oldest_schema_cache_entry None t) as [[] t'].
  - destruct Hd as (m & _ & _ & -> & Hlt). simpl. destruct (IH (delete_key m.(cache_key) t) ltac:(lia)) as (Hs & Hc & Ht).
    split_and!; [|done|done]. etrans; [exact Hs|apply filter_sublist].
  - destruct Hd as [Hnil ->]. simpl in Hnil. subst t. simpl. split_and!; [done|by right|lia].
Qed.

(** Pruning always ends and leaves the cache within its budgets: of the rows
    it was given, none of those left is expired, no owner has more than its
    share of bytes, and the number of rows and of bytes is within the limits. *)
Theorem pruned_cache_is_within_budget policy now_ms t :
  sizes_ok t ->
  let t' := prune_schema_cache policy now_ms t in
  t' `sublist_of` t /\
  Forall (fun r => r.(updated_at_ms) <> 0%Z /\ (saturating_sub now_ms (Z.max 0 policy.(max_age_millis)) < r.(updated_at_ms))%Z) t' /\
  (forall o, (total_size (owned_by o t') <= Z.max 0 policy.(max_connection_bytes))%Z) /\
  ((Z.of_nat (length t') <= as_i64 policy.(max_entries))%Z \/ t' = []) /\
  (total_size t' <= Z.max 0 policy.(max_total_bytes))%Z.
Proof.
  intros Hs t'. unfold prune_schema_cache in t'. set (fresh := fun r => negb _) in t'. set (t1 := List.filter fresh t) in t'.
  destruct (owner_loop_spec (length t1) policy t1 ltac:(lia)) as [Hs1 Ho]. set (t2 := owner_loop (length t1) policy t1) in *.
  destruct (total_loop_spec (length t2) policy t2 ltac:(lia)) as (Hs2 & Hc & Ht). fold t' in Hs2, Hc, Ht.
  assert (Hsub : t1 `sublist_of` t) by apply filter_sublist. split_and!; [| | |done|done].
  - etrans; [exact Hs2|]. by etrans.
  - eapply Forall_of_sublist; [etrans; [exact Hs2|exact Hs1]|]. apply Forall_forall. intros r Hr.
    apply elem_of_bool_filter in Hr as [_ Hr]. unfold fresh in Hr. bool_solver. lia.
  - intros o. etrans; [|apply Ho]. apply total_size_sublist; [|by apply filter_sublist_mono].
    eapply Forall_of_sublist; [apply filter_sublist|]. eapply Forall_of_sublist; [|exact Hs]. by etrans.
Qed.

(** ** What is saved is found *)

(** The row [r] was accessed after every other row. *)
Definition newest (r : CacheRow) (t : Table) : Prop :=
  r ∈ t /\ Forall (fun x => x = r \/ (x.(last_accessed_at_ms) < r.(last_accessed_at_ms))%Z) t.

Lemma NoDup_key_eq t x y : NoDup (map cache_key t) -> x ∈ t -> y ∈ t -> x.(cache_key) = y.(cache_key) -> y = x.
Proof.
  induction t as [|r t IH]; intros Hn Hx Hy Hk; [by apply elem_of_nil in Hx|]. simpl in Hn. apply NoDup_cons in Hn as [Hr Hn].
  apply elem_of_cons in Hx as [->|Hx], Hy as [->|Hy]; [done|..|by apply IH]; destruct Hr;
    [rewrite Hk|rewrite <- Hk]; by apply list_elem_of_fmap_2.
Qed.

Lemma newest_delete r m t :
  NoDup (map cache_key t) -> newest r t -> m ∈ t -> m <> r ->
  NoDup (map cache_key (delete_key m.(cache_key) t)) /\ newest r (delete_key m.(cache_key) t).
Proof.
  intros Hn [Hr Hall] Hm Hne. split; [by apply NoDup_map_filter|]. split.
  - apply elem_of_bool_filter. split; [done|]. rewrite bool_decide_false; [done|]. intros Hk. apply Hne.
    by apply (NoDup_key_eq t).
  - eapply Forall_of_sublist; [apply filter_sublist|done].
Qed.

(** A set of rows in which the newest row has the smallest access time is that row. *)
Lemma newest_is_oldest r rows :
  NoDup (map cache_key rows) -> newest r rows -> Forall (fun x => (r.(last_accessed_at_ms) <= x.(last_accessed_at_ms))%Z) rows ->
  rows = [r].
Proof.
  intros Hn [Hr Hall] Hmin. assert (Hsame : Forall (fun x => x = r) rows).
  { apply Forall_forall. intros x Hx. rewrite Forall_forall in Hall, Hmin. destruct (Hall x Hx) as [?|Hlt]; [done|].
    specialize (Hmin x Hx). lia. }
  destruct rows as [|x [|y rows]]; [by apply elem_of_nil in Hr|by apply Forall_cons in Hsame as [-> _]|].
  apply Forall_cons in Hsame as [-> [-> _]%Forall_cons]. simpl in Hn. apply NoDup_cons in Hn as [Hx _]. destruct Hx. by left.
Qed.

Lemma newest_owned r o t : newest r t -> r.(owner_id) = o -> newest r (owned_by o t).
Proof.
  intros [Hr Hall] Ho. split; [apply elem_of_bool_filter; by rewrite bool_decide_true|].
  eapply Forall_of_sublist; [apply filter_sublist|done].
Qed.

Lemma owner_loop_keeps fuel policy r t :
  NoDup (map cache_key t) -> newest r t -> (r.(byte_size) <= Z.max 0 policy.(max_connection_bytes))%Z ->
  NoDup (map cache_key (owner_loop fuel policy t)) /\ newest r (owner_loop fuel policy t).
Proof.
  revert t. induction fuel as [|fuel IH]; intros t Hn Hr Hsz; simpl; [done|].
  pose proof (over_budget_spec (Z.max 0 policy.(max_connection_bytes)) t ltac:(lia)) as Hb.
  destruct (over_budget_owner _ t) as [o|]; [|done]. pose proof (delete_oldest_spec (Some o) t) as Hd.
  destruct (delete_oldest_schema_cache_entry (Some o) t) as [[] t']; simpl; [|by destruct Hd as [_ ->]].
  destruct Hd as (m & Hm & Hmin & -> & _). pose proof (proj1 (elem_of_bool_filter _ _ _) Hm) as [Hmt Hmo].
  assert (m <> r). { intros ->. apply bool_decide_eq_true in Hmo.
    pose proof (newest_is_oldest r (owned_by o t) (NoDup_map_filter _ _ _ Hn) (newest_owned _ _ _ Hr Hmo) Hmin) as Hone.
    rewrite Hone in Hb. simpl in Hb. lia. }
  destruct (newest_delete r m t Hn Hr Hmt) as [Hn' Hr']; [done|]. by apply IH.
Qed.

Lemma total_loop_keeps fuel policy r t :
  NoDup (map cache_key t) -> newest r t -> (r.(byte_size) <= Z.max 0 policy.(max_total_bytes))%Z ->
  (1 <= as_i64 policy.(max_entries))%Z ->
  NoDup (map cache_key (total_loop fuel policy t)) /\ newest r (total_loop fuel policy t).
Proof.
  revert t. induction fuel as [|fuel IH]; intros t Hn Hr Hsz He; simpl; [done|]. destruct (_ && _) eqn:E; [done|].
  pose proof (delete_oldest_spec None t) as Hd.
  destruct (delete_oldest_schema_cache_entry None t) as [[] t']; simpl; [|by destruct Hd as [_ ->]].
  destruct Hd as (m & Hm & Hmin & -> & _).
  assert (m <> r). { intros ->. pose proof (newest_is_oldest r t Hn Hr Hmin) as ->. simpl in E.
    apply andb_false_iff in E as [?%Z.leb_gt|?%Z.leb_gt]; lia. }
  destruct (newest_delete r m t Hn Hr Hm) as [Hn' Hr']; [done|]. by apply IH.
Qed.

Lemma upsert_keys row t : map cache_key (upsert row t) =
  if bool_decide (row.(cache_key) ∈ map cache_key t) then map cache_key t else map cache_key t ++ [row.(cache_key)].
Proof.
  induction t as [|r t IH]; [done|]. cbn [upsert map]. destruct (decide (r.(cache_key) = row.(cache_key))) as [E|E].
  - rewrite bool_decide_true by done. rewrite bool_decide_true by (rewrite E; by left). simpl. by rewrite E.
  - rewrite bool_decide_false by done. simpl. rewrite IH. destruct (decide (row.(cache_key) ∈ map cache_key t)) as [Hin|Hni].
    + rewrite !bool_decide_true; [done|by right|done].
    + rewrite !bool_decide_false; [done| |done]. intros [?|?]%elem_of_cons; [congruence|done].
Qed.

Lemma upsert_newest row t :
  NoDup (map cache_key t) -> Forall (fun x => x.(cache_key) = row.(cache_key) \/ (x.(last_accessed_at_ms) < row.(last_accessed_at_ms))%Z) t ->
  NoDup (map cache_key (upsert row t)) /\ newest row (upsert row t).
Proof.
  intros Hn Hall. split.
  { rewrite upsert_keys. case_bool_decide as Hin; [done|]. apply NoDup_app. split_and!; [done| |apply NoDup_singleton].
    intros k Hk ->%list_elem_of_singleton. done. }
  induction t as [|r t IH]; [split; [by left|constructor; [by left|constructor]]|].
  simpl in Hn. apply NoDup_cons in Hn as [Hr Hn]. apply Forall_cons in Hall as [Hlt Hall]. cbn [upsert].
  case_bool_decide as Hk.
  - split; [by left|]. constructor; [by left|]. apply Forall_forall. intros x Hx. right. rewrite Forall_forall in Hall.
    destruct (Hall x Hx) as [E|]; [|done]. destruct Hr. rewrite Hk, <- E. by apply list_elem_of_fmap_2.
  - destruct (IH Hn Hall) as [Hin Hf]. split; [by right|]. constructor; [|done]. right. by destruct Hlt.
Qed.

Lemma find_unique t r (p : CacheRow -> bool) :
  NoDup (map cache_key t) -> r ∈ t -> p r = true ->
  List.find (fun x => bool_decide (x.(cache_key) = r.(cache_key)) && p x) t = Some r.
Proof.
  intros Hn Hr Hp. induction t as [|x t IH]; [by apply elem_of_nil in Hr|]. simpl.
  destruct (decide (x.(cache_key) = r.(cache_key))) as [E|E].
  - assert (x = r) as -> by (apply (NoDup_key_eq (x :: t) r x); [done|done|by left|done]). by rewrite bool_decide_true, Hp.
  - rewrite bool_decide_false by done. simpl. simpl in Hn. apply NoDup_cons in Hn as [_ Hn].
    apply elem_of_cons in Hr as [->|Hr]; [done|]. by apply IH.
Qed.

(** What was just saved is found: when the payload fits the budgets of its
    owner and of the cache and no other entry was accessed at the same
    millisecond or later, saving it evicts only other entries, and loading the
    key within its lifetime gives the payload. *)
Theorem saved_entry_is_loaded policy key json now_ms later t :
  NoDup (map cache_key t) ->
  Forall (fun r => r.(cache_key) = key \/ (r.(last_accessed_at_ms) < now_ms)%Z) t ->
  (0 < now_ms)%Z -> (0 < policy.(max_age_millis))%Z -> (1 <= as_i64 policy.(max_entries))%Z ->
  (Z.of_nat (length json) <= Z.max 0 policy.(max_connection_bytes))%Z ->
  (Z.of_nat (length json) <= Z.max 0 policy.(max_total_bytes))%Z ->
  (later < now_ms + SCHEMA_CACHE_MAX_AGE_MILLIS)%Z ->
  let '(r, t') := save_schema_cache_with_policy None key json policy now_ms t in
  r = Ok tt /\ (load_schema_cache None key later t').1 = Ok (Some json).
Proof.
  intros Hn Hall Hnow Hage He Hc Ht Hl. simpl. split; [done|]. set (row := new_row key json now_ms).
  destruct (upsert_newest row t Hn Hall) as [Hn0 Hr0]. unfold prune_schema_cache. set (fresh := fun r : CacheRow => negb _).
  set (t1 := List.filter fresh (upsert row t)).
  assert (Hn1 : NoDup (map cache_key t1)) by (by apply NoDup_map_filter).
  assert (Hr1 : newest row t1).
  { destruct Hr0 as [Hin Hf]. split; [|eapply Forall_of_sublist; [apply filter_sublist|done]].
    apply elem_of_bool_filter. split; [done|]. unfold fresh. cbn [row new_row updated_at_ms].
    unfold saturating_sub, i64_min. lia. }
  assert (Hsz : (row.(byte_size) <= Z.of_nat (length json))%Z) by (cbn; lia).
  destruct (owner_loop_keeps (length t1) policy row t1 Hn1 Hr1 ltac:(lia)) as [Hn2 Hr2].
  set (t2 := owner_loop (length t1) policy t1) in *.
  destruct (total_loop_keeps (length t2) policy row t2 Hn2 Hr2 ltac:(lia) He) as [Hn3 [Hr3 _]].
  rewrite (find_unique _ row (fun r => (_ <? r.(updated_at_ms))%Z) Hn3 Hr3); [done|].
  apply Z.ltb_lt. cbn [row new_row updated_at_ms]. unfold saturating_sub, i64_min, SCHEMA_CACHE_MAX_AGE_MILLIS in *. lia.
Qed.

(** ** Keys and invalidation *)

Definition is_byte (b : Z) : Prop := (0 <= b < 256)%Z.

Lemma chars_ascii p s : Forall (fun c => (c < 128)%Z) p -> chars (p ++ s) = map (fun c => [c]) p ++ chars s.
Proof.
  induction 1 as [|c p Hc _ IH]; [done|]. cbn [app map]. rewrite <- IH. unfold chars. cbn [length chars_fuel].
  by rewrite (ascii_len c Hc).
Qed.

Lemma substr1_prefix p key : Forall (fun c => (c < 128)%Z) p -> substr1 (length p) key = p <-> p `prefix_of` key.
Proof.
  intros Ha. unfold substr1. split.
  - intros <-. exists (concat (drop (length p) (chars key))). rewrite <- concat_app, take_drop. symmetry. apply chars_concat.
  - intros [s ->]. rewrite (chars_ascii p s Ha). rewrite take_app_le, take_ge by (rewrite length_map; lia).
    clear. induction p as [|c p IH]; simpl; [done|]. by rewrite IH.
Qed.

Lemma hex_digit_range n : (0 <= n < 16)%Z -> (48 <= hex_digit n < 58 \/ 65 <= hex_digit n < 71)%Z.
Proof. intros. unfold hex_digit. destruct (Z.ltb_spec n 10); lia. Qed.

Lemma hex_digit_inj n m : (0 <= n < 16)%Z -> (0 <= m < 16)%Z -> hex_digit n = hex_digit m -> n = m.
Proof. intros. unfold hex_digit in *. destruct (Z.ltb_spec n 10), (Z.ltb_spec m 10); lia. Qed.

Lemma nibbles b : is_byte b -> (0 <= Z.shiftr b 4 < 16 /\ 0 <= Z.land b 15 < 16 /\ b = 16 * Z.shiftr b 4 + Z.land b 15)%Z.
Proof.
  unfold is_byte. intros Hb. rewrite Z.shiftr_div_pow2 by lia. change 15%Z with (Z.ones 4). rewrite Z.land_ones by lia.
  change (2 ^ 4)%Z with 16%Z. pose proof (Z.mod_pos_bound b 16 ltac:(lia)). pose proof (Z.div_mod b 16 ltac:(lia)).
  assert (b / 16 < 16)%Z by (apply Z.div_lt_upper_bound; lia). assert (0 <= b / 16)%Z by (apply Z.div_pos; lia). lia.
Qed.

Lemma unreserved_range b : is_unreserved b = true -> (b < 128 /\ b <> 37 /\ b <> 58)%Z.
Proof.
  unfold is_unreserved, is_ascii_alphanumeric, is_ascii_alphabetic, is_ascii_uppercase, is_ascii_lowercase, is_ascii_digit.
  simpl. lia.
Qed.

Lemma encode_byte_chars b : is_byte b -> Forall (fun c => (c < 128)%Z /\ c <> 58%Z) (encode_byte b).
Proof.
  intros Hb. unfold encode_byte. destruct (is_unreserved b) eqn:E.
  - apply unreserved_range in E. constructor; [lia|constructor].
  - destruct (nibbles b Hb) as (H1 & H2 & _). pose proof (hex_digit_range _ H1). pose proof (hex_digit_range _ H2).
    repeat constructor; lia.
Qed.

Lemma segment_chars v : Forall is_byte v -> Forall (fun c => (c < 128)%Z /\ c <> 58%Z) (metadata_cache_segment v).
Proof.
  unfold metadata_cache_segment. induction 1 as [|b v Hb _ IH]; simpl; [constructor|].
  apply Forall_app. split; [by apply encode_byte_chars|done].
Qed.

(** Encodings of bytes can be told apart. *)
Lemma encode_byte_inj a b x y : is_byte a -> is_byte b -> encode_byte a ++ x = encode_byte b ++ y -> a = b /\ x = y.
Proof.
  intros Ha Hb. unfold encode_byte. destruct (is_unreserved a) eqn:Ea, (is_unreserved b) eqn:Eb; intros E; simplify_eq/=; [done|].
  destruct (nibbles a Ha) as (Ha1 & Ha2 & Ha3), (nibbles b Hb) as (Hb1 & Hb2 & Hb3).
  match goal with E1 : hex_digit (Z.shiftr a 4) = _, E2 : hex_digit (Z.land a 15) = _ |- _ =>
    apply hex_digit_inj in E1; [|done|done]; apply hex_digit_inj in E2; [|done|done] end.
  split; [lia|done].
Qed.

Lemma segment_inj a b x y : Forall is_byte a -> Forall is_byte b ->
  metadata_cache_segment a ++ 58%Z :: x = metadata_cache_segment b ++ 58%Z :: y -> a = b.
Proof.
  unfold metadata_cache_segment. intros Ha. revert b. induction Ha as [|c a Hc Ha IH]; intros b Hb E.
  - destruct Hb as [|d b Hd _]; [done|]. simpl in E. pose proof (encode_byte_chars d Hd) as Hf.
    destruct (encode_byte d) as [|z l] eqn:Ez; [unfold encode_byte in Ez; by destruct (is_unreserved d)|].
    simplify_eq/=. apply Forall_cons in Hf as [[_ ?] _]. done.
  - destruct Hb as [|d b Hd Hb]; simpl in E.
    + pose proof (encode_byte_chars c Hc) as Hf.
      destruct (encode_byte c) as [|z l] eqn:Ez; [unfold encode_byte in Ez; by destruct (is_unreserved c)|].
      simplify_eq/=. apply Forall_cons in Hf as [[_ ?] _]. done.
    + rewrite <- !app_assoc in E. apply encode_byte_inj in E as [-> E]; [|done|done]. f_equal. by apply (IH b Hb).
Qed.

Definition namespaces : list text := [OBJECT_METADATA_CACHE_PREFIX; OBJECT_DDL_CACHE_PREFIX].

(** The key of an object of a connection: any text after the connection's prefix. *)
Definition belongs_to (connection_id key : text) : Prop :=
  exists ns rest, ns ∈ namespaces /\ key = connection_prefix ns connection_id ++ rest.

Lemma connection_prefix_ascii ns conn : ns ∈ namespaces -> Forall is_byte conn ->
  Forall (fun c => (c < 128)%Z) (connection_prefix ns conn).
Proof.
  intros Hns Hc. unfold connection_prefix. rewrite !Forall_app. split_and!.
  - unfold namespaces in Hns. rewrite !elem_of_cons in Hns. destruct Hns as [->|[->|?%elem_of_nil]]; [repeat constructor..|done].
  - repeat constructor.
  - eapply Forall_impl; [by apply segment_chars|]. by intros ? [? _].
  - repeat constructor.
Qed.

Lemma delete_prefix_spec ns conn t r : ns ∈ namespaces -> Forall is_byte conn ->
  r ∈ (delete_schema_cache_prefix None (connection_prefix ns conn) t).2 <->
  r ∈ t /\ ~ connection_prefix ns conn `prefix_of` r.(cache_key).
Proof.
  intros Hns Hc. simpl. rewrite elem_of_bool_filter, negb_true_iff, orb_false_iff, !bool_decide_eq_false.
  rewrite (substr1_prefix _ _ (connection_prefix_ascii ns conn Hns Hc)). split; [tauto|]. intros [Hr Hp].
  split_and!; [done| |done]. intros E. apply Hp. by rewrite E.
Qed.

Lemma prefix_conn ns ns' conn conn' rest :
  ns ∈ namespaces -> ns' ∈ namespaces -> Forall is_byte conn -> Forall is_byte conn' ->
  connection_prefix ns conn `prefix_of` connection_prefix ns' conn' ++ rest -> conn = conn'.
Proof.
  intros Hns Hns' Hc Hc' [s Hs]. unfold connection_prefix in Hs. rewrite <- !app_assoc in Hs.
  unfold namespaces in Hns, Hns'. rewrite !elem_of_cons in Hns, Hns'.
  destruct Hns as [->|[->|?%elem_of_nil]], Hns' as [->|[->|?%elem_of_nil]]; try done; simplify_eq/=;
    symmetry; eapply (segment_inj conn' conn); [done|done|exact Hs| done|done|exact Hs].
Qed.

(** Invalidating the object cache of a connection removes exactly its
    entries: an entry stays if and only if its key is not one of the
    connection's, and an entry of another connection is never removed,
    whatever characters the ids contain. *)
Theorem invalidation_is_exact connection_id t r :
  Forall is_byte connection_id ->
  (r ∈ invalidate_connection_object_cache None None connection_id t <-> r ∈ t /\ ~ belongs_to connection_id r.(cache_key)) /\
  (forall other, Forall is_byte other -> belongs_to other r.(cache_key) -> r ∈ t -> other <> connection_id ->
     r ∈ invalidate_connection_object_cache None None connection_id t).
Proof.
  intros Hc. assert (Hiff : r ∈ invalidate_connection_object_cache None None connection_id t <->
    r ∈ t /\ ~ belongs_to connection_id r.(cache_key)).
  { unfold invalidate_connection_object_cache. rewrite !delete_prefix_spec by (try done; unfold namespaces; set_solver).
    split.
    - intros [[Hr Hm] Hd]. split; [done|]. intros (ns & rest & Hns & E). unfold namespaces in Hns. rewrite !elem_of_cons in Hns.
      destruct Hns as [->|[->|?%elem_of_nil]]; [apply Hm|apply Hd|done]; rewrite E; by eexists.
    - intros [Hr Hb]. split_and!; [done|..]; intros [rest E]; apply Hb; eexists _, rest; (split; [|exact E]); unfold namespaces; set_solver. }
  split; [exact Hiff|]. intros other Ho (ns & rest & Hns & E) Hr Hne. apply Hiff. split; [done|].
  intros (ns' & rest' & Hns' & E'). apply Hne. symmetry. apply (prefix_conn ns' ns connection_id other rest); try done.
  rewrite <- E, E'. by eexists.
Qed.

Module CacheDemo.
Definition k1 : text := connection_prefix OBJECT_METADATA_CACHE_PREFIX (txt "c:1") ++ txt "db".
Definition k2 : text := connection_prefix OBJECT_DDL_CACHE_PREFIX (txt "c") ++ txt "db".
Definition small : SchemaCachePolicy :=
  {| max_total_bytes := 10; max_connection_bytes := 8; max_entries := 2; max_age_millis := 1000 |}.
Definition demo_table : Table := [new_row k1 (txt "12345678") 10; new_row k2 (txt "1234567") 20].

Lemma pruned_cache_is_within_budget_witness :
  sizes_ok demo_table /\ (total_size (prune_schema_cache small 30 demo_table) <= Z.max 0 10)%Z.
Proof.
  assert (Hs : sizes_ok demo_table) by (repeat constructor; simpl; lia).
  split; [exact Hs|]. apply (pruned_cache_is_within_budget small 30 demo_table Hs).
Defined.

Lemma saved_entry_is_loaded_witness :
  let '(r, t') := save_schema_cache_with_policy None k2 (txt "1234567") small 30 demo_table in
  r = Ok tt /\ (load_schema_cache None k2 40 t').1 = Ok (Some (txt "1234567")).
Proof.
  apply (saved_entry_is_loaded small k2 (txt "1234567") 30 40 demo_table).
  - vm_compute. repeat constructor; set_solver.
  - repeat constructor; simpl; lia.
  - lia.
  - simpl. lia.
  - vm_compute. discriminate.
  - vm_compute. discriminate.
  - vm_compute. discriminate.
  - unfold SCHEMA_CACHE_MAX_AGE_MILLIS. lia.
Defined.

Lemma invalidation_is_exact_witness :
  new_row k2 [] 20 ∈ invalidate_connection_object_cache None None (txt "c:1") [new_row k1 [] 10; new_row k2 [] 20].
Proof.
  refine (proj2 (invalidation_is_exact (txt "c:1") [new_row k1 [] 10; new_row k2 [] 20] (new_row k2 [] 20) _) (txt "c") _ _ _ _).
  - repeat constructor; vm_compute; congruence.
  - repeat constructor; vm_compute; congruence.
  - exists OBJECT_DDL_CACHE_PREFIX, (txt "db"). split; [right; left|reflexivity].
  - right; left.
  - vm_compute. discriminate.
Defined.

(** A prefix with a character of two bytes: [substr] takes two characters where
    the prefix has one, and the entry below the prefix is kept. *)
Example non_ascii_prefix_deletes_nothing :
  let row := new_row [195; 169; 58; 120]%Z [] 5 in
  delete_schema_cache_prefix None [195; 169; 58]%Z [row] = (Ok tt, [row]).
Proof. vm_compute. reflexivity. Qed.
End CacheDemo.
