(* ===== verification/SqlDialect.v ===== *)
(** * SQL dialect profiles

    [crates/dbx-sql-core/src/sql.rs], [SqlDialectProfile] and
    [SqlParsingOptions]: which lexical features and script commands the splitter
    and the scanners of SQL text assume for a database type.  The enumeration
    [DatabaseType] is generated by the build from the descriptors of
    [plugins/connection-types/]; its constructors are those descriptors'
    [rustVariant]s in their order. *)

From S2P Require Import Prelude.

Module DatabaseType.

Inductive t : Type :=
| Mysql | Postgres | Sqlite | Rqlite | Turso | CloudflareD1 | Redis | DuckDb | ClickHouse |
SqlServer | MongoDb | DynamoDb | Oracle | Elasticsearch | Easysearch | Meilisearch | Solr | CouchDb
| Hbase | Qdrant | ChromaDb | Milvus | Weaviate | Doris | StarRocks | ManticoreSearch | Redshift |
Dameng | Kingbase | Highgo | Uxdb | Vastbase | Goldendb | Databend | Gaussdb | Kwdb | Yashandb |
Databricks | SapHana | Teradata | Vertica | Firebird | Exasol | OpenGauss | Questdb |
OceanbaseOracle | Gbase | Gbase8s | Gbase8c | Access | H2 | Snowflake | Trino | PrestoSql | Hive |
Argo | Transwarp | Kyuubi | Impala | Db2 | Informix | Neo4j | Nebula | Cassandra | Bigquery |
Spanner | Kylin | Ignite | Ignite3 | Sundb | Oscar | Tdengine | Xugu | Etcd | ZooKeeper | Nacos |
Consul | MessageQueue | Mqtt | Iotdb | Iris | InfluxDb | InfluxDb3 | VictoriaMetrics | Jdbc | Spark
| Plugin | Salesforce | Odbc.

(** The position of a type in [DatabaseType::ALL]. *)
Definition order (d : t) : nat :=
  match d with
  | Mysql => 0 | Postgres => 1 | Sqlite => 2 | Rqlite => 3 | Turso => 4 | CloudflareD1 => 5
  | Redis => 6 | DuckDb => 7 | ClickHouse => 8 | SqlServer => 9 | MongoDb => 10 | DynamoDb => 11
  | Oracle => 12 | Elasticsearch => 13 | Easysearch => 14 | Meilisearch => 15 | Solr => 16 | CouchDb => 17
  | Hbase => 18 | Qdrant => 19 | ChromaDb => 20 | Milvus => 21 | Weaviate => 22 | Doris => 23
  | StarRocks => 24 | ManticoreSearch => 25 | Redshift => 26 | Dameng => 27 | Kingbase => 28 | Highgo => 29
  | Uxdb => 30 | Vastbase => 31 | Goldendb => 32 | Databend => 33 | Gaussdb => 34 | Kwdb => 35
  | Yashandb => 36 | Databricks => 37 | SapHana => 38 | Teradata => 39 | Vertica => 40 | Firebird => 41
  | Exasol => 42 | OpenGauss => 43 | Questdb => 44 | OceanbaseOracle => 45 | Gbase => 46 | Gbase8s => 47
  | Gbase8c => 48 | Access => 49 | H2 => 50 | Snowflake => 51 | Trino => 52 | PrestoSql => 53
  | Hive => 54 | Argo => 55 | Transwarp => 56 | Kyuubi => 57 | Impala => 58 | Db2 => 59
  | Informix => 60 | Neo4j => 61 | Nebula => 62 | Cassandra => 63 | Bigquery => 64 | Spanner => 65
  | Kylin => 66 | Ignite => 67 | Ignite3 => 68 | Sundb => 69 | Oscar => 70 | Tdengine => 71
  | Xugu => 72 | Etcd => 73 | ZooKeeper => 74 | Nacos => 75 | Consul => 76 | MessageQueue => 77
  | Mqtt => 78 | Iotdb => 79 | Iris => 80 | InfluxDb => 81 | InfluxDb3 => 82 | VictoriaMetrics => 83
  | Jdbc => 84 | Spark => 85 | Plugin => 86 | Salesforce => 87 | Odbc => 88
  end.

Definition ALL : list t :=
  [Mysql; Postgres; Sqlite; Rqlite; Turso; CloudflareD1; Redis; DuckDb; ClickHouse; SqlServer;
  MongoDb; DynamoDb; Oracle; Elasticsearch; Easysearch; Meilisearch; Solr; CouchDb; Hbase; Qdrant;
  ChromaDb; Milvus; Weaviate; Doris; StarRocks; ManticoreSearch; Redshift; Dameng; Kingbase; Highgo;
  Uxdb; Vastbase; Goldendb; Databend; Gaussdb; Kwdb; Yashandb; Databricks; SapHana; Teradata;
  Vertica; Firebird; Exasol; OpenGauss; Questdb; OceanbaseOracle; Gbase; Gbase8s; Gbase8c; Access;
  H2; Snowflake; Trino; PrestoSql; Hive; Argo; Transwarp; Kyuubi; Impala; Db2; Informix; Neo4j;
  Nebula; Cassandra; Bigquery; Spanner; Kylin; Ignite; Ignite3; Sundb; Oscar; Tdengine; Xugu; Etcd;
  ZooKeeper; Nacos; Consul; MessageQueue; Mqtt; Iotdb; Iris; InfluxDb; InfluxDb3; VictoriaMetrics;
  Jdbc; Spark; Plugin; Salesforce; Odbc].

Lemma order_ALL d : ALL !! order d = Some d.
Proof. by destruct d. Qed.

#[global] Instance order_inj : Inj (=) (=) order.
Proof. intros a b H. pose proof (order_ALL a) as Ha. rewrite H, order_ALL in Ha. by simplify_eq. Qed.

#[global] Instance eq_dec : EqDecision t.
Proof. refine (fun a b => cast_if (decide (order a = order b))); [by apply order_inj|by intros ->]. Defined.

End DatabaseType.

Import DatabaseType (t).

(** The lexical features and script commands of one dialect. *)
Record SqlDialectProfile : Type := mkProfile {
  supports_hash_line_comments : bool;
  supports_backtick_identifiers : bool;
  supports_nested_block_comments : bool;
  supports_backslash_escaped_quotes : bool;
  supports_postgres_escape_strings : bool;
  supports_oracle_q_quotes : bool;
  supports_oracle_plsql_blocks : bool;
  supports_oracle_style_routine_bodies : bool;
  supports_slash_line_block_delimiter : bool;
  supports_custom_delimiter_commands : bool;
  supports_mysql_routine_blocks : bool;
  supports_dollar_quoted_strings : bool;
  supports_postgres_dollar_quoted_routines : bool;
  supports_hana_script_blocks : bool;
  supports_firebird_routine_blocks : bool;
  supports_go_batch_separator : bool;
  keeps_sqlserver_module_batch_at_cursor : bool;
  keeps_sqlserver_control_flow_batches : bool;
  preserves_tdsql_leading_directives : bool;
  requires_whitespace_after_line_comment_dashes : bool;
  supports_psql_control_commands : bool
}.

#[export] Instance set_supports_hash_line_comments : Setter supports_hash_line_comments := fun v p =>
  mkProfile v p.(supports_backtick_identifiers) p.(supports_nested_block_comments)
  p.(supports_backslash_escaped_quotes) p.(supports_postgres_escape_strings)
  p.(supports_oracle_q_quotes) p.(supports_oracle_plsql_blocks)
  p.(supports_oracle_style_routine_bodies) p.(supports_slash_line_block_delimiter)
  p.(supports_custom_delimiter_commands) p.(supports_mysql_routine_blocks)
  p.(supports_dollar_quoted_strings) p.(supports_postgres_dollar_quoted_routines)
  p.(supports_hana_script_blocks) p.(supports_firebird_routine_blocks)
  p.(supports_go_batch_separator) p.(keeps_sqlserver_module_batch_at_cursor)
  p.(keeps_sqlserver_control_flow_batches) p.(preserves_tdsql_leading_directives)
  p.(requires_whitespace_after_line_comment_dashes) p.(supports_psql_control_commands).
#[export] Instance set_supports_backtick_identifiers : Setter supports_backtick_identifiers := fun v p =>
  mkProfile p.(supports_hash_line_comments) v p.(supports_nested_block_comments)
  p.(supports_backslash_escaped_quotes) p.(supports_postgres_escape_strings)
  p.(supports_oracle_q_quotes) p.(supports_oracle_plsql_blocks)
  p.(supports_oracle_style_routine_bodies) p.(supports_slash_line_block_delimiter)
  p.(supports_custom_delimiter_commands) p.(supports_mysql_routine_blocks)
  p.(supports_dollar_quoted_strings) p.(supports_postgres_dollar_quoted_routines)
  p.(supports_hana_script_blocks) p.(supports_firebird_routine_blocks)
  p.(supports_go_batch_separator) p.(keeps_sqlserver_module_batch_at_cursor)
  p.(keeps_sqlserver_control_flow_batches) p.(preserves_tdsql_leading_directives)
  p.(requires_whitespace_after_line_comment_dashes) p.(supports_psql_control_commands).
#[export] Instance set_supports_nested_block_comments : Setter supports_nested_block_comments := fun v p =>
  mkProfile p.(supports_hash_line_comments) p.(supports_backtick_identifiers) v
  p.(supports_backslash_escaped_quotes) p.(supports_postgres_escape_strings)
  p.(supports_oracle_q_quotes) p.(supports_oracle_plsql_blocks)
  p.(supports_oracle_style_routine_bodies) p.(supports_slash_line_block_delimiter)
  p.(supports_custom_delimiter_commands) p.(supports_mysql_routine_blocks)
  p.(supports_dollar_quoted_strings) p.(supports_postgres_dollar_quoted_routines)
  p.(supports_hana_script_blocks) p.(supports_firebird_routine_blocks)
  p.(supports_go_batch_separator) p.(keeps_sqlserver_module_batch_at_cursor)
  p.(keeps_sqlserver_control_flow_batches) p.(preserves_tdsql_leading_directives)
  p.(requires_whitespace_after_line_comment_dashes) p.(supports_psql_control_commands).
#[export] Instance set_supports_backslash_escaped_quotes : Setter supports_backslash_escaped_quotes := fun v p =>
  mkProfile p.(supports_hash_line_comments) p.(supports_backtick_identifiers)
  p.(supports_nested_block_comments) v p.(supports_postgres_escape_strings)
  p.(supports_oracle_q_quotes) p.(supports_oracle_plsql_blocks)
  p.(supports_oracle_style_routine_bodies) p.(supports_slash_line_block_delimiter)
  p.(supports_custom_delimiter_commands) p.(supports_mysql_routine_blocks)
  p.(supports_dollar_quoted_strings) p.(supports_postgres_dollar_quoted_routines)
  p.(supports_hana_script_blocks) p.(supports_firebird_routine_blocks)
  p.(supports_go_batch_separator) p.(keeps_sqlserver_module_batch_at_cursor)
  p.(keeps_sqlserver_control_flow_batches) p.(preserves_tdsql_leading_directives)
  p.(requires_whitespace_after_line_comment_dashes) p.(supports_psql_control_commands).
#[export] Instance set_supports_postgres_escape_strings : Setter supports_postgres_escape_strings := fun v p =>
  mkProfile p.(supports_hash_line_comments) p.(supports_backtick_identifiers)
  p.(supports_nested_block_comments) p.(supports_backslash_escaped_quotes) v
  p.(supports_oracle_q_quotes) p.(supports_oracle_plsql_blocks)
  p.(supports_oracle_style_routine_bodies) p.(supports_slash_line_block_delimiter)
  p.(supports_custom_delimiter_commands) p.(supports_mysql_routine_blocks)
  p.(supports_dollar_quoted_strings) p.(supports_postgres_dollar_quoted_routines)
  p.(supports_hana_script_blocks) p.(supports_firebird_routine_blocks)
  p.(supports_go_batch_separator) p.(keeps_sqlserver_module_batch_at_cursor)
  p.(keeps_sqlserver_control_flow_batches) p.(preserves_tdsql_leading_directives)
  p.(requires_whitespace_after_line_comment_dashes) p.(supports_psql_control_commands).
#[export] Instance set_supports_oracle_q_quotes : Setter supports_oracle_q_quotes := fun v p =>
  mkProfile p.(supports_hash_line_comments) p.(supports_backtick_identifiers)
  p.(supports_nested_block_comments) p.(supports_backslash_escaped_quotes)
  p.(supports_postgres_escape_strings) v p.(supports_oracle_plsql_blocks)
  p.(supports_oracle_style_routine_bodies) p.(supports_slash_line_block_delimiter)
  p.(supports_custom_delimiter_commands) p.(supports_mysql_routine_blocks)
  p.(supports_dollar_quoted_strings) p.(supports_postgres_dollar_quoted_routines)
  p.(supports_hana_script_blocks) p.(supports_firebird_routine_blocks)
  p.(supports_go_batch_separator) p.(keeps_sqlserver_module_batch_at_cursor)
  p.(keeps_sqlserver_control_flow_batches) p.(preserves_tdsql_leading_directives)
  p.(requires_whitespace_after_line_comment_dashes) p.(supports_psql_control_commands).
#[export] Instance set_supports_oracle_plsql_blocks : Setter supports_oracle_plsql_blocks := fun v p =>
  mkProfile p.(supports_hash_line_comments) p.(supports_backtick_identifiers)
  p.(supports_nested_block_comments) p.(supports_backslash_escaped_quotes)
  p.(supports_postgres_escape_strings) p.(supports_oracle_q_quotes) v
  p.(supports_oracle_style_routine_bodies) p.(supports_slash_line_block_delimiter)
  p.(supports_custom_delimiter_commands) p.(supports_mysql_routine_blocks)
  p.(supports_dollar_quoted_strings) p.(supports_postgres_dollar_quoted_routines)
  p.(supports_hana_script_blocks) p.(supports_firebird_routine_blocks)
  p.(supports_go_batch_separator) p.(keeps_sqlserver_module_batch_at_cursor)
  p.(keeps_sqlserver_control_flow_batches) p.(preserves_tdsql_leading_directives)
  p.(requires_whitespace_after_line_comment_dashes) p.(supports_psql_control_commands).
#[export] Instance set_supports_oracle_style_routine_bodies : Setter supports_oracle_style_routine_bodies := fun v p =>
  mkProfile p.(supports_hash_line_comments) p.(supports_backtick_identifiers)
  p.(supports_nested_block_comments) p.(supports_backslash_escaped_quotes)
  p.(supports_postgres_escape_strings) p.(supports_oracle_q_quotes) p.(supports_oracle_plsql_blocks)
  v p.(supports_slash_line_block_delimiter) p.(supports_custom_delimiter_commands)
  p.(supports_mysql_routine_blocks) p.(supports_dollar_quoted_strings)
  p.(supports_postgres_dollar_quoted_routines) p.(supports_hana_script_blocks)
  p.(supports_firebird_routine_blocks) p.(supports_go_batch_separator)
  p.(keeps_sqlserver_module_batch_at_cursor) p.(keeps_sqlserver_control_flow_batches)
  p.(preserves_tdsql_leading_directives) p.(requires_whitespace_after_line_comment_dashes)
  p.(supports_psql_control_commands).
#[export] Instance set_supports_slash_line_block_delimiter : Setter supports_slash_line_block_delimiter := fun v p =>
  mkProfile p.(supports_hash_line_comments) p.(supports_backtick_identifiers)
  p.(supports_nested_block_comments) p.(supports_backslash_escaped_quotes)
  p.(supports_postgres_escape_strings) p.(supports_oracle_q_quotes) p.(supports_oracle_plsql_blocks)
  p.(supports_oracle_style_routine_bodies) v p.(supports_custom_delimiter_commands)
  p.(supports_mysql_routine_blocks) p.(supports_dollar_quoted_strings)
  p.(supports_postgres_dollar_quoted_routines) p.(supports_hana_script_blocks)
  p.(supports_firebird_routine_blocks) p.(supports_go_batch_separator)
  p.(keeps_sqlserver_module_batch_at_cursor) p.(keeps_sqlserver_control_flow_batches)
  p.(preserves_tdsql_leading_directives) p.(requires_whitespace_after_line_comment_dashes)
  p.(supports_psql_control_commands).
#[export] Instance set_supports_custom_delimiter_commands : Setter supports_custom_delimiter_commands := fun v p =>
  mkProfile p.(supports_hash_line_comments) p.(supports_backtick_identifiers)
  p.(supports_nested_block_comments) p.(supports_backslash_escaped_quotes)
  p.(supports_postgres_escape_strings) p.(supports_oracle_q_quotes) p.(supports_oracle_plsql_blocks)
  p.(supports_oracle_style_routine_bodies) p.(supports_slash_line_block_delimiter) v
  p.(supports_mysql_routine_blocks) p.(supports_dollar_quoted_strings)
  p.(supports_postgres_dollar_quoted_routines) p.(supports_hana_script_blocks)
  p.(supports_firebird_routine_blocks) p.(supports_go_batch_separator)
  p.(keeps_sqlserver_module_batch_at_cursor) p.(keeps_sqlserver_control_flow_batches)
  p.(preserves_tdsql_leading_directives) p.(requires_whitespace_after_line_comment_dashes)
  p.(supports_psql_control_commands).
#[export] Instance set_supports_mysql_routine_blocks : Setter supports_mysql_routine_blocks := fun v p =>
  mkProfile p.(supports_hash_line_comments) p.(supports_backtick_identifiers)
  p.(supports_nested_block_comments) p.(supports_backslash_escaped_quotes)
  p.(supports_postgres_escape_strings) p.(supports_oracle_q_quotes) p.(supports_oracle_plsql_blocks)
  p.(supports_oracle_style_routine_bodies) p.(supports_slash_line_block_delimiter)
  p.(supports_custom_delimiter_commands) v p.(supports_dollar_quoted_strings)
  p.(supports_postgres_dollar_quoted_routines) p.(supports_hana_script_blocks)
  p.(supports_firebird_routine_blocks) p.(supports_go_batch_separator)
  p.(keeps_sqlserver_module_batch_at_cursor) p.(keeps_sqlserver_control_flow_batches)
  p.(preserves_tdsql_leading_directives) p.(requires_whitespace_after_line_comment_dashes)
  p.(supports_psql_control_commands).
#[export] Instance set_supports_dollar_quoted_strings : Setter supports_dollar_quoted_strings := fun v p =>
  mkProfile p.(supports_hash_line_comments) p.(supports_backtick_identifiers)
  p.(supports_nested_block_comments) p.(supports_backslash_escaped_quotes)
  p.(supports_postgres_escape_strings) p.(supports_oracle_q_quotes) p.(supports_oracle_plsql_blocks)
  p.(supports_oracle_style_routine_bodies) p.(supports_slash_line_block_delimiter)
  p.(supports_custom_delimiter_commands) p.(supports_mysql_routine_blocks) v
  p.(supports_postgres_dollar_quoted_routines) p.(supports_hana_script_blocks)
  p.(supports_firebird_routine_blocks) p.(supports_go_batch_separator)
  p.(keeps_sqlserver_module_batch_at_cursor) p.(keeps_sqlserver_control_flow_batches)
  p.(preserves_tdsql_leading_directives) p.(requires_whitespace_after_line_comment_dashes)
  p.(supports_psql_control_commands).
#[export] Instance set_supports_postgres_dollar_quoted_routines : Setter supports_postgres_dollar_quoted_routines := fun v p =>
  mkProfile p.(supports_hash_line_comments) p.(supports_backtick_identifiers)
  p.(supports_nested_block_comments) p.(supports_backslash_escaped_quotes)
  p.(supports_postgres_escape_strings) p.(supports_oracle_q_quotes) p.(supports_oracle_plsql_blocks)
  p.(supports_oracle_style_routine_bodies) p.(supports_slash_line_block_delimiter)
  p.(supports_custom_delimiter_commands) p.(supports_mysql_routine_blocks)
  p.(supports_dollar_quoted_strings) v p.(supports_hana_script_blocks)
  p.(supports_firebird_routine_blocks) p.(supports_go_batch_separator)
  p.(keeps_sqlserver_module_batch_at_cursor) p.(keeps_sqlserver_control_flow_batches)
  p.(preserves_tdsql_leading_directives) p.(requires_whitespace_after_line_comment_dashes)
  p.(supports_psql_control_commands).
#[export] Instance set_supports_hana_script_blocks : Setter supports_hana_script_blocks := fun v p =>
  mkProfile p.(supports_hash_line_comments) p.(supports_backtick_identifiers)
  p.(supports_nested_block_comments) p.(supports_backslash_escaped_quotes)
  p.(supports_postgres_escape_strings) p.(supports_oracle_q_quotes) p.(supports_oracle_plsql_blocks)
  p.(supports_oracle_style_routine_bodies) p.(supports_slash_line_block_delimiter)
  p.(supports_custom_delimiter_commands) p.(supports_mysql_routine_blocks)
  p.(supports_dollar_quoted_strings) p.(supports_postgres_dollar_quoted_routines) v
  p.(supports_firebird_routine_blocks) p.(supports_go_batch_separator)
  p.(keeps_sqlserver_module_batch_at_cursor) p.(keeps_sqlserver_control_flow_batches)
  p.(preserves_tdsql_leading_directives) p.(requires_whitespace_after_line_comment_dashes)
  p.(supports_psql_control_commands).
#[export] Instance set_supports_firebird_routine_blocks : Setter supports_firebird_routine_blocks := fun v p =>
  mkProfile p.(supports_hash_line_comments) p.(supports_backtick_identifiers)
  p.(supports_nested_block_comments) p.(supports_backslash_escaped_quotes)
  p.(supports_postgres_escape_strings) p.(supports_oracle_q_quotes) p.(supports_oracle_plsql_blocks)
  p.(supports_oracle_style_routine_bodies) p.(supports_slash_line_block_delimiter)
  p.(supports_custom_delimiter_commands) p.(supports_mysql_routine_blocks)
  p.(supports_dollar_quoted_strings) p.(supports_postgres_dollar_quoted_routines)
  p.(supports_hana_script_blocks) v p.(supports_go_batch_separator)
  p.(keeps_sqlserver_module_batch_at_cursor) p.(keeps_sqlserver_control_flow_batches)
  p.(preserves_tdsql_leading_directives) p.(requires_whitespace_after_line_comment_dashes)
  p.(supports_psql_control_commands).
#[export] Instance set_supports_go_batch_separator : Setter supports_go_batch_separator := fun v p =>
  mkProfile p.(supports_hash_line_comments) p.(supports_backtick_identifiers)
  p.(supports_nested_block_comments) p.(supports_backslash_escaped_quotes)
  p.(supports_postgres_escape_strings) p.(supports_oracle_q_quotes) p.(supports_oracle_plsql_blocks)
  p.(supports_oracle_style_routine_bodies) p.(supports_slash_line_block_delimiter)
  p.(supports_custom_delimiter_commands) p.(supports_mysql_routine_blocks)
  p.(supports_dollar_quoted_strings) p.(supports_postgres_dollar_quoted_routines)
  p.(supports_hana_script_blocks) p.(supports_firebird_routine_blocks) v
  p.(keeps_sqlserver_module_batch_at_cursor) p.(keeps_sqlserver_control_flow_batches)
  p.(preserves_tdsql_leading_directives) p.(requires_whitespace_after_line_comment_dashes)
  p.(supports_psql_control_commands).
#[export] Instance set_keeps_sqlserver_module_batch_at_cursor : Setter keeps_sqlserver_module_batch_at_cursor := fun v p =>
  mkProfile p.(supports_hash_line_comments) p.(supports_backtick_identifiers)
  p.(supports_nested_block_comments) p.(supports_backslash_escaped_quotes)
  p.(supports_postgres_escape_strings) p.(supports_oracle_q_quotes) p.(supports_oracle_plsql_blocks)
  p.(supports_oracle_style_routine_bodies) p.(supports_slash_line_block_delimiter)
  p.(supports_custom_delimiter_commands) p.(supports_mysql_routine_blocks)
  p.(supports_dollar_quoted_strings) p.(supports_postgres_dollar_quoted_routines)
  p.(supports_hana_script_blocks) p.(supports_firebird_routine_blocks)
  p.(supports_go_batch_separator) v p.(keeps_sqlserver_control_flow_batches)
  p.(preserves_tdsql_leading_directives) p.(requires_whitespace_after_line_comment_dashes)
  p.(supports_psql_control_commands).
#[export] Instance set_keeps_sqlserver_control_flow_batches : Setter keeps_sqlserver_control_flow_batches := fun v p =>
  mkProfile p.(supports_hash_line_comments) p.(supports_backtick_identifiers)
  p.(supports_nested_block_comments) p.(supports_backslash_escaped_quotes)
  p.(supports_postgres_escape_strings) p.(supports_oracle_q_quotes) p.(supports_oracle_plsql_blocks)
  p.(supports_oracle_style_routine_bodies) p.(supports_slash_line_block_delimiter)
  p.(supports_custom_delimiter_commands) p.(supports_mysql_routine_blocks)
  p.(supports_dollar_quoted_strings) p.(supports_postgres_dollar_quoted_routines)
  p.(supports_hana_script_blocks) p.(supports_firebird_routine_blocks)
  p.(supports_go_batch_separator) p.(keeps_sqlserver_module_batch_at_cursor) v
  p.(preserves_tdsql_leading_directives) p.(requires_whitespace_after_line_comment_dashes)
  p.(supports_psql_control_commands).
#[export] Instance set_preserves_tdsql_leading_directives : Setter preserves_tdsql_leading_directives := fun v p =>
  mkProfile p.(supports_hash_line_comments) p.(supports_backtick_identifiers)
  p.(supports_nested_block_comments) p.(supports_backslash_escaped_quotes)
  p.(supports_postgres_escape_strings) p.(supports_oracle_q_quotes) p.(supports_oracle_plsql_blocks)
  p.(supports_oracle_style_routine_bodies) p.(supports_slash_line_block_delimiter)
  p.(supports_custom_delimiter_commands) p.(supports_mysql_routine_blocks)
  p.(supports_dollar_quoted_strings) p.(supports_postgres_dollar_quoted_routines)
  p.(supports_hana_script_blocks) p.(supports_firebird_routine_blocks)
  p.(supports_go_batch_separator) p.(keeps_sqlserver_module_batch_at_cursor)
  p.(keeps_sqlserver_control_flow_batches) v p.(requires_whitespace_after_line_comment_dashes)
  p.(supports_psql_control_commands).
#[export] Instance set_requires_whitespace_after_line_comment_dashes : Setter requires_whitespace_after_line_comment_dashes := fun v p =>
  mkProfile p.(supports_hash_line_comments) p.(supports_backtick_identifiers)
  p.(supports_nested_block_comments) p.(supports_backslash_escaped_quotes)
  p.(supports_postgres_escape_strings) p.(supports_oracle_q_quotes) p.(supports_oracle_plsql_blocks)
  p.(supports_oracle_style_routine_bodies) p.(supports_slash_line_block_delimiter)
  p.(supports_custom_delimiter_commands) p.(supports_mysql_routine_blocks)
  p.(supports_dollar_quoted_strings) p.(supports_postgres_dollar_quoted_routines)
  p.(supports_hana_script_blocks) p.(supports_firebird_routine_blocks)
  p.(supports_go_batch_separator) p.(keeps_sqlserver_module_batch_at_cursor)
  p.(keeps_sqlserver_control_flow_batches) p.(preserves_tdsql_leading_directives) v
  p.(supports_psql_control_commands).
#[export] Instance set_supports_psql_control_commands : Setter supports_psql_control_commands := fun v p =>
  mkProfile p.(supports_hash_line_comments) p.(supports_backtick_identifiers)
  p.(supports_nested_block_comments) p.(supports_backslash_escaped_quotes)
  p.(supports_postgres_escape_strings) p.(supports_oracle_q_quotes) p.(supports_oracle_plsql_blocks)
  p.(supports_oracle_style_routine_bodies) p.(supports_slash_line_block_delimiter)
  p.(supports_custom_delimiter_commands) p.(supports_mysql_routine_blocks)
  p.(supports_dollar_quoted_strings) p.(supports_postgres_dollar_quoted_routines)
  p.(supports_hana_script_blocks) p.(supports_firebird_routine_blocks)
  p.(supports_go_batch_separator) p.(keeps_sqlserver_module_batch_at_cursor)
  p.(keeps_sqlserver_control_flow_batches) p.(preserves_tdsql_leading_directives)
  p.(requires_whitespace_after_line_comment_dashes) v.

#[export] Instance SqlDialectProfile_eq_dec : EqDecision SqlDialectProfile.
Proof. solve_decision. Defined.

(** The constructors of [impl SqlDialectProfile]. *)
Module Profile.

Definition default : SqlDialectProfile := {|
  supports_hash_line_comments := false;
  supports_backtick_identifiers := true;
  supports_nested_block_comments := false;
  supports_backslash_escaped_quotes := true;
  supports_postgres_escape_strings := false;
  supports_oracle_q_quotes := false;
  supports_oracle_plsql_blocks := false;
  supports_oracle_style_routine_bodies := false;
  supports_slash_line_block_delimiter := false;
  supports_custom_delimiter_commands := true;
  supports_mysql_routine_blocks := false;
  supports_dollar_quoted_strings := true;
  supports_postgres_dollar_quoted_routines := false;
  supports_hana_script_blocks := false;
  supports_firebird_routine_blocks := false;
  supports_go_batch_separator := false;
  keeps_sqlserver_module_batch_at_cursor := false;
  keeps_sqlserver_control_flow_batches := false;
  preserves_tdsql_leading_directives := false;
  requires_whitespace_after_line_comment_dashes := false;
  supports_psql_control_commands := false
|}.

Definition mysql_compatible : SqlDialectProfile :=
  default <| supports_hash_line_comments := true |> <| supports_backslash_escaped_quotes := true |>
    <| supports_mysql_routine_blocks := true |> <| requires_whitespace_after_line_comment_dashes := true |>.

Definition oracle_like : SqlDialectProfile :=
  default <| supports_backslash_escaped_quotes := false |> <| supports_oracle_plsql_blocks := true |>
    <| supports_oracle_q_quotes := true |> <| supports_slash_line_block_delimiter := true |>.

Definition postgres_family : SqlDialectProfile :=
  default <| supports_backslash_escaped_quotes := false |> <| supports_nested_block_comments := true |>
    <| supports_oracle_style_routine_bodies := true |> <| supports_postgres_escape_strings := true |>
    <| supports_slash_line_block_delimiter := true |> <| supports_psql_control_commands := true |>.

Definition gaussdb : SqlDialectProfile :=
  oracle_like <| supports_backslash_escaped_quotes := false |> <| supports_nested_block_comments := true |>
    <| supports_postgres_dollar_quoted_routines := true |> <| supports_postgres_escape_strings := true |>
    <| supports_psql_control_commands := true |>.

Definition sql_server : SqlDialectProfile :=
  default <| supports_go_batch_separator := true |> <| keeps_sqlserver_module_batch_at_cursor := true |>
    <| keeps_sqlserver_control_flow_batches := true |> <| supports_nested_block_comments := true |>.

Definition sap_hana : SqlDialectProfile := default <| supports_hana_script_blocks := true |>.

Definition firebird : SqlDialectProfile :=
  default <| supports_backslash_escaped_quotes := false |> <| supports_firebird_routine_blocks := true |>.

Definition is_mysql_compatible_database (d : t) : bool :=
  match d with
  | DatabaseType.Mysql | DatabaseType.Doris | DatabaseType.StarRocks
  | DatabaseType.ManticoreSearch | DatabaseType.Goldendb => true
  | _ => false
  end.

Definition is_oracle_like_database (d : t) : bool :=
  match d with
  | DatabaseType.Oracle | DatabaseType.Dameng | DatabaseType.Gaussdb | DatabaseType.Yashandb
  | DatabaseType.Oscar | DatabaseType.OceanbaseOracle | DatabaseType.Xugu | DatabaseType.Argo
  | DatabaseType.Transwarp => true
  | _ => false
  end.

Definition is_postgres_string_lexer_database (d : t) : bool :=
  match d with
  | DatabaseType.Vastbase | DatabaseType.Kingbase | DatabaseType.Highgo
  | DatabaseType.Uxdb | DatabaseType.Gbase8c | DatabaseType.Kwdb => true
  | _ => false
  end.

(** [tdsql_mysql::preserves_leading_directives_for_database_type]. *)
Definition preserves_leading_directives_for_database_type (d : t) : bool := bool_decide (d = DatabaseType.Mysql).

Definition for_database_type (d : t) : SqlDialectProfile :=
  if bool_decide (d = DatabaseType.Mysql) then
    mysql_compatible
      <| preserves_tdsql_leading_directives := preserves_leading_directives_for_database_type d |>
  else if bool_decide (d = DatabaseType.Gaussdb) then gaussdb
  else if bool_decide (d = DatabaseType.Postgres) || bool_decide (d = DatabaseType.OpenGauss) then postgres_family
  else if bool_decide (d = DatabaseType.OceanbaseOracle) then
    oracle_like <| supports_backtick_identifiers := false |> <| supports_dollar_quoted_strings := false |>
      <| supports_custom_delimiter_commands := false |>
  else if is_oracle_like_database d then oracle_like
  else if bool_decide (d = DatabaseType.SqlServer) then sql_server
  else if bool_decide (d = DatabaseType.Db2) then default <| supports_nested_block_comments := true |>
  else if bool_decide (d = DatabaseType.ClickHouse) then default <| supports_nested_block_comments := true |>
  else if is_mysql_compatible_database d then mysql_compatible
  else if bool_decide (d = DatabaseType.SapHana) then sap_hana
  else if bool_decide (d = DatabaseType.Firebird) then firebird
  else if bool_decide (d = DatabaseType.DuckDb) then
    default <| supports_backslash_escaped_quotes := false |> <| supports_postgres_escape_strings := true |>
  else if is_postgres_string_lexer_database d then
    default <| supports_backslash_escaped_quotes := false |> <| supports_nested_block_comments := true |>
      <| supports_postgres_escape_strings := true |>
  else if bool_decide (d = DatabaseType.Jdbc) || bool_decide (d = DatabaseType.Hive) then
    default <| supports_oracle_style_routine_bodies := true |>
  else default.

End Profile.

(** [SqlParsingOptions] wraps a profile. *)
Record SqlParsingOptions : Type := mkOptions { profile : SqlDialectProfile }.

#[export] Instance set_profile : Setter profile := fun v _ => mkOptions v.

Module Options.

Definition default : SqlParsingOptions := mkOptions Profile.default.

Definition for_database_type (d : t) : SqlParsingOptions := mkOptions (Profile.for_database_type d).

Definition mysql_compatible : SqlParsingOptions := mkOptions Profile.mysql_compatible.

(** The modes are ASCII texts; [mode] is the compatibility mode as scalar values. *)
Definition for_database_type_and_compatibility (d : t) (mode : option text) : SqlParsingOptions :=
  if bool_decide (d = DatabaseType.Kingbase) then
    let mode := map to_ascii_lowercase (trim_chars (default_text mode)) in
    mkOptions
      (if bool_decide (mode = txt "mysql") then Profile.mysql_compatible
       else if bool_decide (mode = txt "sqlserver") then Profile.sql_server
       else if bool_decide (mode = txt "pg") || bool_decide (mode = txt "postgres")
            || bool_decide (mode = txt "postgresql") then Profile.postgres_family
       else Profile.gaussdb)
  else if bool_decide (d = DatabaseType.OpenGauss) then
    match trim_chars <$> mode with
    | Some mode => if eq_ignore_ascii_case mode (txt "A") then mkOptions Profile.gaussdb else for_database_type d
    | None => mkOptions Profile.gaussdb
    end
  else for_database_type d.

End Options.
