(* ===== verification/SqlLex.v ===== *)
(** * Lexical helpers of the SQL scanners

    [crates/dbx-sql-core/src/sql.rs]: the functions the statement splitter and
    the range scanner share.  Text is a list of Unicode scalar values: where the
    source walks bytes it only tests ASCII bytes and slices at them, so an
    offset is a number of characters here.  [char::is_alphanumeric] on the whole
    of Unicode is a parameter. *)

From S2P Require Import Prelude Utf8 SqlDialect.

(** The characters the scanners look for. *)
Notation c_newline := 10%Z (only parsing).
Notation c_dquote := 34%Z (only parsing).
Notation c_hash := 35%Z (only parsing).
Notation c_dollar := 36%Z (only parsing).
Notation c_amp := 38%Z (only parsing).
Notation c_quote := 39%Z (only parsing).
Notation c_star := 42%Z (only parsing).
Notation c_dash := 45%Z (only parsing).
Notation c_slash := 47%Z (only parsing).
Notation c_semicolon := 59%Z (only parsing).
Notation c_backslash := 92%Z (only parsing).
Notation c_underscore := 95%Z (only parsing).
Notation c_backtick := 96%Z (only parsing).

(** [o == Some(c)]. *)
Definition opt_is (o : option Z) (c : Z) : bool := match o with Some d => (d =? c)%Z | None => false end.

(** [u8::is_ascii_whitespace]. *)
Definition is_ascii_whitespace (c : Z) : bool :=
  (c =? 32)%Z || (c =? 9)%Z || (c =? 10)%Z || (c =? 12)%Z || (c =? 13)%Z.

Definition is_ascii_hexdigit (c : Z) : bool :=
  is_ascii_digit c || ((65 <=? c) && (c <=? 70))%Z || ((97 <=? c) && (c <=? 102))%Z.

(** [char::len_utf16]. *)
Definition len_utf16 (c : Z) : nat := if (c <? 65536)%Z then 1 else 2.

(** [str::split_whitespace]: the maximal runs of characters that are no
    whitespace. *)
Fixpoint split_whitespace_from (word s : text) : list text :=
  match s with
  | [] => if bool_decide (word = []) then [] else [word]
  | c :: rest =>
    if is_whitespace c then
      (if bool_decide (word = []) then [] else [word]) ++ split_whitespace_from [] rest
    else split_whitespace_from (word ++ [c]) rest
  end.
Definition split_whitespace (s : text) : list text := split_whitespace_from [] s.

(** What [s.rfind('\n')] splits a text into: the lines before the last one, with
    their line ends, and the last line. *)
Definition before_last_line (s : text) : text := reverse (span (fun c => negb (c =? c_newline)%Z) (reverse s)).2.
Definition last_line (s : text) : text := reverse (span (fun c => negb (c =? c_newline)%Z) (reverse s)).1.

(** ** Comments and entity references *)

Definition dash_dash_starts_line_comment (p : SqlDialectProfile) (char_after_dashes : option Z) : bool :=
  if negb p.(requires_whitespace_after_line_comment_dashes) then true
  else match char_after_dashes with Some c => is_whitespace c || is_control c | None => true end.

Definition ends_with_xml_entity_reference (buffer : text) : bool :=
  let '(word, before) := span is_ascii_alphanumeric (reverse buffer) in
  let '(name, before) :=
    if opt_is (head before) c_hash then (c_hash :: reverse word, tail before) else (reverse word, before) in
  if negb (opt_is (head before) c_amp) then false
  else match (match strip_prefix (txt "#x") name with Some h => Some h | None => strip_prefix (txt "#X") name end) with
  | Some hex => negb (bool_decide (hex = [])) && forallb is_ascii_hexdigit hex
  | None =>
    match strip_prefix (txt "#") name with
    | Some digits => negb (bool_decide (digits = [])) && forallb is_ascii_digit digits
    | None => existsb (fun n => bool_decide (name = txt n)) ["lt"; "gt"; "amp"; "quot"; "apos"]%string
    end
  end.

(** [/*!] and [/*M!] start a comment that MySQL executes. *)
Definition is_mysql_executable_comment_start (s : text) : bool :=
  bool_decide (txt "/*!" `prefix_of` s) || bool_decide (txt "/*M!" `prefix_of` s).

(** The offset of the [*/] that closes a comment of the given depth. *)
Fixpoint find_block_comment_close (nested : bool) (depth : nat) (s : text) : option nat :=
  match s with
  | a :: ((b :: rest) as tl) =>
    if ((a =? c_star) && (b =? c_slash))%Z then
      match depth with
      | S (S d) => (fun k => S (S k)) <$> find_block_comment_close nested (S d) rest
      | _ => Some 0
      end
    else if nested && ((a =? c_slash) && (b =? c_star))%Z then
      (fun k => S (S k)) <$> find_block_comment_close nested (S depth) rest
    else S <$> find_block_comment_close nested depth tl
  | _ => None
  end.

Definition skip_line (s : text) : text := (span (fun c => negb (c =? c_newline)%Z) s).2.

(** The text from its first character that is neither whitespace nor in a
    comment.  Every round drops at least two characters. *)
Fixpoint leading_executable_fuel (fuel : nat) (p : SqlDialectProfile) (s : text) : text :=
  match fuel with
  | 0 => s
  | S fuel' =>
    match (span is_ascii_whitespace s).2 with
    | [] => []
    | (a :: tl) as s' =>
      if (a =? c_dash)%Z && opt_is (head tl) c_dash then leading_executable_fuel fuel' p (skip_line (tail tl))
      else if p.(supports_hash_line_comments) && (a =? c_hash)%Z then leading_executable_fuel fuel' p (skip_line tl)
      else if (a =? c_slash)%Z && opt_is (head tl) c_star then
        if is_mysql_executable_comment_start s' then s'
        else match find_block_comment_close p.(supports_nested_block_comments) 1 (tail tl) with
        | Some close => leading_executable_fuel fuel' p (drop (close + 2) (tail tl))
        | None => []
        end
      else s'
    end
  end.
Definition leading_executable_sql_with_options (s : text) (o : SqlParsingOptions) : text :=
  leading_executable_fuel (S (length s)) o.(profile) s.
Definition leading_executable_sql (s : text) : text := leading_executable_sql_with_options s Options.default.

(** The end of a comment that does not nest, for the token scanner. *)
Fixpoint skip_flat_comment (s : text) : text :=
  match s with
  | a :: ((b :: rest) as tl) => if ((a =? c_star) && (b =? c_slash))%Z then rest else skip_flat_comment tl
  | _ => []
  end.

Definition is_token_char (c : Z) : bool := is_ascii_alphabetic c || (c =? c_underscore)%Z.

(** The next word and the text after it. *)
Fixpoint next_executable_token_fuel (fuel : nat) (p : SqlDialectProfile) (s : text) : option (text * text) :=
  let word s := let '(token, rest) := span is_token_char s in
                if bool_decide (token = []) then None else Some (token, rest) in
  match fuel with
  | 0 => None
  | S fuel' =>
    match (span (fun c => is_ascii_whitespace c || (c =? 40)%Z) s).2 with
    | [] => None
    | (a :: tl) as s' =>
      if (a =? c_dash)%Z && opt_is (head tl) c_dash then next_executable_token_fuel fuel' p (skip_line (tail tl))
      else if p.(supports_hash_line_comments) && (a =? c_hash)%Z then next_executable_token_fuel fuel' p (skip_line tl)
      else if (a =? c_slash)%Z && opt_is (head tl) c_star then
        if is_mysql_executable_comment_start s' then
          let rest := if opt_is (head (tail tl)) 33 then drop 3 s' else drop 4 s' in
          word (span (fun c => is_ascii_digit c || is_ascii_whitespace c) rest).2
        else next_executable_token_fuel fuel' p (skip_flat_comment (tail tl))
      else word s'
    end
  end.
Definition next_executable_sql_token_with_options (s : text) (o : SqlParsingOptions) : option (text * text) :=
  next_executable_token_fuel (S (length s)) o.(profile) s.
Definition first_executable_sql_token_with_options (s : text) (o : SqlParsingOptions) : option text :=
  fst <$> next_executable_sql_token_with_options s o.

(** The loop of [has_executable_sql_with_options], one character per round. *)
Fixpoint executable_loop (p : SqlDialectProfile) (in_line_comment : bool) (block_comment_depth : nat)
    (previous : option Z) (s : text) : bool :=
  match s with
  | [] => false
  | c :: rest =>
    let next := head rest in
    if in_line_comment then executable_loop p (negb (c =? c_newline)%Z) block_comment_depth (Some c) rest
    else match block_comment_depth with
    | S d =>
      if p.(supports_nested_block_comments) && opt_is previous c_slash && (c =? c_star)%Z
      then executable_loop p false (S (S d)) None rest
      else if opt_is previous c_star && (c =? c_slash)%Z then executable_loop p false d (Some c) rest
      else executable_loop p false (S d) (Some c) rest
    | 0 =>
      if (c =? c_dash)%Z && opt_is next c_dash && dash_dash_starts_line_comment p (head (tail rest))
      then executable_loop p true 0 (Some c) rest
      else if p.(supports_hash_line_comments) && (c =? c_hash)%Z then executable_loop p true 0 (Some c) rest
      else if (c =? c_slash)%Z && opt_is next c_star then
        if is_mysql_executable_comment_start s then true else executable_loop p false 1 None rest
      else if negb (is_whitespace c) then true
      else executable_loop p false 0 (Some c) rest
    end
  end.
Definition has_executable_sql_with_options (s : text) (o : SqlParsingOptions) : bool :=
  executable_loop o.(profile) false 0 None s.
Definition has_executable_sql (s : text) : bool := has_executable_sql_with_options s Options.default.
Definition has_executable_sql_for_database (s : text) (d : DatabaseType.t) : bool :=
  has_executable_sql_with_options s (Options.for_database_type d).

(** ** Quotes *)

Definition has_odd_trailing_backslashes (sql : text) : bool :=
  Nat.odd (length (span (fun c => (c =? c_backslash)%Z) (reverse sql)).1).

(** Opening tag of a dollar-quoted string at the head of the text. *)
Definition dollar_quote_tag_at (s : text) : option text :=
  match s with
  | a :: b :: rest =>
    if negb (a =? c_dollar)%Z then None
    else if (b =? c_dollar)%Z then Some [c_dollar; c_dollar]
    else if is_token_char b then
      let '(word, after) := span (fun c => is_ascii_alphanumeric c || (c =? c_underscore)%Z) rest in
      if opt_is (head after) c_dollar then Some (c_dollar :: b :: word ++ [c_dollar]) else None
    else None
  | _ => None
  end.

Definition starts_with_chars (s needle : text) : bool := bool_decide (needle `prefix_of` s).

(** An Oracle [q'...'] literal in progress. *)
Record OracleQQuoteState : Type := mkQQuote { awaiting_delimiter : bool; closer : option Z }.
Definition no_q_quote : OracleQQuoteState := mkQQuote false None.

#[export] Instance OracleQQuoteState_eq_dec : EqDecision OracleQQuoteState.
Proof. solve_decision. Defined.

Definition q_is_open (q : OracleQQuoteState) : bool :=
  q.(awaiting_delimiter) || match q.(closer) with Some _ => true | None => false end.

Definition oracle_q_quote_closer (opening : Z) : option Z :=
  if (opening =? 91)%Z then Some 93%Z
  else if (opening =? 123)%Z then Some 125%Z
  else if (opening =? 40)%Z then Some 41%Z
  else if (opening =? 60)%Z then Some 62%Z
  else if ((opening =? c_quote) || (opening =? 32) || (opening =? 9) || (opening =? 10) || (opening =? 13))%Z then None
  else Some opening.

Definition q_consume (q : OracleQQuoteState) (c : Z) (previous : option Z) : OracleQQuoteState :=
  if q.(awaiting_delimiter) then mkQQuote false (oracle_q_quote_closer c)
  else match q.(closer) with
  | Some closer => if opt_is previous closer && (c =? c_quote)%Z then mkQQuote false None else q
  | None => q
  end.

Class UnicodeTables : Type := { is_alphanumeric : Z -> bool }.

Section Introducers.
Context `{UnicodeTables}.

Definition is_identifier_continue_char (c : Z) : bool :=
  is_alphanumeric c || (c =? c_underscore)%Z || (c =? c_dollar)%Z.

Definition ends_with_escape_string_prefix (s : text) : bool :=
  match reverse s with
  | c :: before =>
    ((c =? 69) || (c =? 101))%Z
    && negb (match before with d :: _ => is_identifier_continue_char d | [] => false end)
  | [] => false
  end.

Definition ends_with_oracle_q_quote_prefix (s : text) : bool :=
  match reverse s with
  | c :: before =>
    ((c =? 113) || (c =? 81))%Z
    && (let before := if opt_is (head before) 110 || opt_is (head before) 78 then tail before else before in
        negb (match before with d :: _ => is_identifier_continue_char d | [] => false end))
  | [] => false
  end.

End Introducers.

(** ** Script commands *)

(** [DELIMITER x] on a line of its own: the new delimiter. *)
Definition parse_delimiter_command (line : text) : option text :=
  let line := trim_chars line in
  if eq_ignore_ascii_case line (txt "delimiter;") then Some [c_semicolon]
  else if (10 <? length line)%nat
       && (eq_ignore_ascii_case (take 10 line) (txt "delimiter ")
           || eq_ignore_ascii_case (take 10 line) (txt "delimiter" ++ [9%Z])) then
    let rest := trim_chars (drop 10 line) in
    if bool_decide (rest = []) then None else Some rest
  else None.

Inductive PsqlControlCommand : Type := OnErrorStop | ClientDisplay.

#[export] Instance PsqlControlCommand_eq_dec : EqDecision PsqlControlCommand.
Proof. solve_decision. Defined.

Definition one_of (s : text) (l : list string) : bool := existsb (fun n => bool_decide (s = txt n)) l.

Definition parse_ignorable_psql_control_command (line : text) : option PsqlControlCommand :=
  match split_whitespace line with
  | [] => None
  | command :: parts =>
    if eq_ignore_ascii_case command (txt "\echo") then
      at_command ← find_sub command line;
      let arguments := drop (at_command + length command) line in
      if existsb (fun c => (c =? c_backslash)%Z || (c =? c_backtick)%Z) arguments then None else Some ClientDisplay
    else if eq_ignore_ascii_case command (txt "\timing") then
      match parts with
      | [] => Some ClientDisplay
      | [value] =>
        if eq_ignore_ascii_case value (txt "on") || eq_ignore_ascii_case value (txt "off")
        then Some ClientDisplay else None
      | _ => None
      end
    else if negb (eq_ignore_ascii_case command (txt "\set")) then None
    else match parts with
    | [variable; value] =>
      let variable := map to_ascii_uppercase variable in
      let value := map to_ascii_lowercase value in
      if bool_decide (variable = txt "ON_ERROR_STOP") && one_of value ["on"; "true"; "1"]%string then Some OnErrorStop
      else if bool_decide (variable = txt "VERBOSITY")
              && one_of value ["default"; "verbose"; "terse"; "sqlstate"]%string then Some ClientDisplay
      else None
    | _ => None
    end
  end.

Definition statement_summary (statement : text) : text :=
  let collapsed := join [32%Z] (split_whitespace statement) in
  if (length collapsed <=? 120)%nat then collapsed else take 120 collapsed.

(** ** Words at the head of a statement *)

Definition is_word_byte (c : Z) : bool := is_ascii_alphanumeric c || (c =? c_underscore)%Z.

(** The rest of a comment of [first_sql_tokens], after its opener. *)
Fixpoint skip_comment_from (previous : option Z) (s : text) : text :=
  match s with
  | c :: rest => if opt_is previous c_star && (c =? c_slash)%Z then rest else skip_comment_from (Some c) rest
  | [] => []
  end.

Definition flush (token : text) : list text := if bool_decide (token = []) then [] else [token].

(** [first_sql_tokens]: [tokens] and [token] are the words so far and the word
    in progress. *)
Fixpoint first_tokens_fuel (fuel limit : nat) (tokens : list text) (token : text) (s : text) : list text :=
  match fuel, s with
  | S fuel', c :: rest =>
    let '(tokens, token, s') :=
      if (c =? c_dash)%Z && opt_is (head rest) c_dash
      then (tokens ++ flush token, [], tail (skip_line (tail rest)))
      else if (c =? c_slash)%Z && opt_is (head rest) c_star
      then (tokens ++ flush token, [], skip_comment_from None (tail rest))
      else if is_word_byte c then (tokens, token ++ [c], rest)
      else (tokens ++ flush token, [], rest) in
    if (limit <=? length tokens)%nat then tokens
    else first_tokens_fuel fuel' limit tokens token s'
  | _, _ => if (length tokens <? limit)%nat then tokens ++ flush token else tokens
  end.
Definition first_sql_tokens (s : text) (limit : nat) : list text := first_tokens_fuel (length s) limit [] [] s.

Definition is_sql_ident_char (c : Z) : bool := (c =? c_underscore)%Z || (c =? c_dollar)%Z || is_ascii_alphanumeric c.

Definition keyword_in (token : text) (keywords : list string) : bool :=
  existsb (fun k => eq_ignore_ascii_case token (txt k)) keywords.
