(* ===== verification/SqlBlocks.v ===== *)
(** * Blocks that keep their semicolons

    [crates/dbx-sql-core/src/sql.rs]: routine bodies and control-flow batches of
    the dialects, which the splitter must not cut at the semicolons inside.
    Modules [MysqlRoutine], [SqlServer], [PlSql] (Oracle, and the incremental
    tracker the splitter uses), [Hana] and [Firebird].  The tokenizer of the
    [sqlparser] crate is a parameter: its words, semicolons, whitespace and
    placeholders are told apart, everything else is one token; where it fails
    the code falls back on a tokenizer of its own. *)

From S2P Require Import Prelude Utf8 SqlDialect SqlLex.

Module MysqlRoutine.

Definition is_mysql_routine_ddl_start (sql : text) : bool :=
  let tokens := first_sql_tokens (leading_executable_sql_with_options sql Options.mysql_compatible) 16 in
  match tokens with
  | first :: rest =>
    eq_ignore_ascii_case first (txt "CREATE")
    && (fix scan (l : list text) : bool :=
          match l with
          | [] => false
          | token :: l' =>
            if keyword_in token ["PROCEDURE"; "FUNCTION"; "TRIGGER"; "EVENT"]%string then true
            else if keyword_in token ["DATABASE"; "INDEX"; "LOGFILE"; "ROLE"; "SCHEMA"; "SERVER"; "SPATIAL";
                                      "TABLE"; "TEMPORARY"; "UNIQUE"; "USER"; "VIEW"]%string then false
            else scan l'
          end) rest
  | [] => false
  end.

(** Where the token scanner is: the flags of the source, of which at most one
    is set. *)
Inductive mode : Type := Code | LineComment | BlockComment | Quoted (quote : Z).

(** Every round consumes one or two characters. *)
Fixpoint tokens_fuel (fuel : nat) (m : mode) (s : text) : list text :=
  match fuel, s with
  | S fuel', c :: rest =>
    let next := head rest in
    match m with
    | LineComment => tokens_fuel fuel' (if (c =? c_newline)%Z then Code else LineComment) rest
    | BlockComment =>
      if (c =? c_star)%Z && opt_is next c_slash then tokens_fuel fuel' Code (tail rest)
      else tokens_fuel fuel' BlockComment rest
    | Quoted q =>
      if negb (q =? c_backtick)%Z && (c =? c_backslash)%Z && bool_decide (is_Some next)
      then tokens_fuel fuel' m (tail rest)
      else if (c =? q)%Z then
        if opt_is next q then tokens_fuel fuel' m (tail rest) else tokens_fuel fuel' Code rest
      else tokens_fuel fuel' m rest
    | Code =>
      if (c =? c_dash)%Z && opt_is next c_dash then tokens_fuel fuel' LineComment (tail rest)
      else if (c =? c_hash)%Z then tokens_fuel fuel' LineComment rest
      else if (c =? c_slash)%Z && opt_is next c_star then tokens_fuel fuel' BlockComment (tail rest)
      else if ((c =? c_quote) || (c =? c_dquote) || (c =? c_backtick))%Z then tokens_fuel fuel' (Quoted c) rest
      else if (c =? c_semicolon)%Z then [c_semicolon] :: tokens_fuel fuel' Code rest
      else if is_token_char c then
        let '(word, rest') := span is_sql_ident_char rest in
        map to_ascii_uppercase (c :: word) :: tokens_fuel fuel' Code rest'
      else tokens_fuel fuel' Code rest
    end
  | _, _ => []
  end.
Definition mysql_routine_tokens (sql : text) : list text := tokens_fuel (length sql) Code sql.

Definition starts_with_mysql_routine_block (sql : text) : bool :=
  is_mysql_routine_ddl_start sql
  && existsb (fun t => eq_ignore_ascii_case t (txt "BEGIN")) (mysql_routine_tokens sql).

Inductive MysqlRoutineBlockType : Type := Begin | Case.

Definition is_mysql_control_block_suffix (token : text) : bool :=
  keyword_in token ["IF"; "LOOP"; "CASE"; "REPEAT"; "WHILE"]%string.

Definition is_separator (t : text) : bool := bool_decide (t = [c_semicolon]).

Definition next_mysql_routine_word (rest : list text) : option text :=
  head (List.filter (fun t => negb (is_separator t)) rest).

(** The walk over the tokens; [previous] is the last word before the token. *)
Fixpoint block_walk (previous : option text) (stack : list MysqlRoutineBlockType) (saw_begin : bool)
    (tokens : list text) : list MysqlRoutineBlockType * bool :=
  match tokens with
  | [] => (stack, saw_begin)
  | token :: rest =>
    let after_end := match previous with Some w => eq_ignore_ascii_case w (txt "END") | None => false end in
    if is_separator token then block_walk previous stack saw_begin rest
    else if eq_ignore_ascii_case token (txt "BEGIN") then
      if after_end then block_walk (Some token) stack saw_begin rest
      else block_walk (Some token) (Begin :: stack) true rest
    else if eq_ignore_ascii_case token (txt "CASE") then
      if after_end then block_walk (Some token) stack saw_begin rest
      else block_walk (Some token) (Case :: stack) saw_begin rest
    else if eq_ignore_ascii_case token (txt "END") && saw_begin then
      match next_mysql_routine_word rest with
      | Some next =>
        if eq_ignore_ascii_case next (txt "CASE") then
          block_walk (Some token) (match stack with Case :: stack' => stack' | _ => stack end) saw_begin rest
        else if is_mysql_control_block_suffix next then block_walk (Some token) stack saw_begin rest
        else block_walk (Some token) (tail stack) saw_begin rest
      | None => block_walk (Some token) (tail stack) saw_begin rest
      end
    else block_walk (Some token) stack saw_begin rest
  end.

Definition mysql_routine_block_is_complete (sql : text) : bool :=
  starts_with_mysql_routine_block sql
  && (let tokens := mysql_routine_tokens sql in
      let '(stack, saw_begin) := block_walk None [] false tokens in
      saw_begin && bool_decide (length stack = 0)
      && match last tokens with Some t => is_separator t | None => false end).

End MysqlRoutine.

Module SqlServer.

(** A top-level word or [;] with its offsets. *)
Record Token : Type := mkToken { word : text; start : nat; stop : nat }.

Definition is_word (t : Token) (keyword : string) : bool := eq_ignore_ascii_case t.(word) (txt keyword).

(** The number of characters of a quoted text up to and with its closing quote. *)
Fixpoint quoted_length (quote : Z) (s : text) : nat :=
  match s with
  | [] => 0
  | c :: rest =>
    if (c =? quote)%Z then
      match rest with
      | d :: rest' => if (d =? quote)%Z then S (S (quoted_length quote rest')) else 1
      | [] => 1
      end
    else S (quoted_length quote rest)
  end.

(** Up to and with the closing [*/], or to the end. *)
Fixpoint comment_length (s : text) : nat :=
  match s with
  | a :: ((b :: _) as tl) => if ((a =? c_star) && (b =? c_slash))%Z then 2 else S (comment_length tl)
  | _ => length s
  end.

Definition line_length (s : text) : nat := length (span (fun c => negb (c =? c_newline)%Z) s).1.

Fixpoint top_level_fuel (fuel : nat) (paren_depth index : nat) (s : text) : list Token :=
  match fuel, s with
  | S fuel', c :: rest =>
    let skip n := top_level_fuel fuel' paren_depth (index + n) (drop n s) in
    if ((c =? c_quote) || (c =? c_dquote))%Z then skip (S (quoted_length c rest))
    else if (c =? 91)%Z then skip (S (quoted_length 93 rest))
    else if (c =? c_dash)%Z && opt_is (head rest) c_dash then skip (2 + line_length (tail rest))
    else if (c =? c_slash)%Z && opt_is (head rest) c_star then skip (2 + comment_length (tail rest))
    else if (c =? 40)%Z then top_level_fuel fuel' (S paren_depth) (S index) rest
    else if (c =? 41)%Z then top_level_fuel fuel' (paren_depth - 1) (S index) rest
    else if (c =? c_semicolon)%Z && (paren_depth =? 0)%nat then
      mkToken [c_semicolon] index (S index) :: top_level_fuel fuel' paren_depth (S index) rest
    else if (paren_depth =? 0)%nat && is_token_char c then
      let w := c :: (span is_sql_ident_char rest).1 in
      mkToken w index (index + length w) :: skip (length w)
    else skip 1
  | _, _ => []
  end.
Definition sqlserver_top_level_tokens (sql : text) : list Token := top_level_fuel (length sql) 0 0 sql.

(** [rest] are the tokens after the [BEGIN]. *)
Definition sqlserver_begins_block (rest : list Token) : bool :=
  match rest with
  | next :: _ =>
    negb (bool_decide (next.(word) = [c_semicolon]))
    && negb (keyword_in next.(word) ["TRANSACTION"; "TRAN"; "DISTRIBUTED"; "DIALOG"; "CONVERSATION"]%string)
  | [] => false
  end.

Definition word_at (rest : list Token) (n : nat) (keyword : string) : bool :=
  match rest !! n with Some t => is_word t keyword | None => false end.

Definition ends_conversation (rest : list Token) : bool :=
  word_at rest 0 "CONVERSATION" || word_at rest 0 "DIALOG".

(** [END TRY] directly followed by [BEGIN CATCH]. *)
Definition continues_with_catch (rest : list Token) : bool :=
  word_at rest 0 "TRY" && word_at rest 1 "BEGIN" && word_at rest 2 "CATCH".

Definition keeps_sqlserver_control_flow_batch (o : SqlParsingOptions) (statement_head : text) : bool :=
  if negb o.(profile).(keeps_sqlserver_control_flow_batches) then false
  else match sqlserver_top_level_tokens statement_head with
  | first :: rest =>
    is_word first "IF" || is_word first "WHILE" || (is_word first "BEGIN" && sqlserver_begins_block rest)
  | [] => false
  end.

Fixpoint open_blocks (depth : nat) (carried_try : bool) (tokens : list Token) : nat :=
  match tokens with
  | [] => depth
  | token :: rest =>
    if is_word token "BEGIN" then
      if negb (sqlserver_begins_block rest) then open_blocks depth carried_try rest
      else if carried_try then open_blocks depth false rest
      else open_blocks (S depth) carried_try rest
    else if is_word token "CASE" then open_blocks (S depth) carried_try rest
    else if negb (is_word token "END") then open_blocks depth carried_try rest
    else if ends_conversation rest then open_blocks depth carried_try rest
    else if continues_with_catch rest then open_blocks depth true rest
    else open_blocks (depth - 1) false rest
  end.
Definition sqlserver_control_flow_open_blocks (sql : text) : nat :=
  open_blocks 0 false (sqlserver_top_level_tokens sql).

Definition sqlserver_control_flow_batch_is_complete (sql : text) : bool :=
  (sqlserver_control_flow_open_blocks sql =? 0)%nat.

Definition is_else (w : text) : bool := eq_ignore_ascii_case w (txt "ELSE").

(** The two nested loops as one walk: a [;] ends a fragment, whose boundary is
    then final or not. *)
Fixpoint boundary_walk (fragment_start_depth depth : nat) (carried_try : bool) (boundary : option (nat * text))
    (tokens : list Token) : option nat :=
  let final := match boundary with Some (offset, w) => if is_else w then None else Some offset | None => None end in
  match tokens with
  | [] => final
  | token :: rest =>
    if is_word token ";" then
      match final with
      | Some offset => Some offset
      | None => boundary_walk depth depth false None rest
      end
    else if is_word token "BEGIN" then
      if sqlserver_begins_block rest then
        if carried_try then boundary_walk fragment_start_depth depth false boundary rest
        else boundary_walk fragment_start_depth (S depth) carried_try boundary rest
      else boundary_walk fragment_start_depth depth carried_try boundary rest
    else if is_word token "CASE" then boundary_walk fragment_start_depth (S depth) carried_try boundary rest
    else if negb (is_word token "END") then boundary_walk fragment_start_depth depth carried_try boundary rest
    else if ends_conversation rest then boundary_walk fragment_start_depth depth carried_try boundary rest
    else if continues_with_catch rest then boundary_walk fragment_start_depth depth true boundary rest
    else
      let depth := depth - 1 in
      let boundary :=
        if (0 <? fragment_start_depth)%nat && (depth =? 0)%nat then
          let paired := word_at rest 0 "TRY" || word_at rest 0 "CATCH" in
          let text_at n := match rest !! n with Some t => t.(word) | None => [] end in
          let candidate :=
            match rest with
            | next :: _ => if paired then (next.(stop), text_at 1) else (token.(stop), text_at 0)
            | [] => (token.(stop), [])
            end in
          match boundary with
          | Some (_, w) => if is_else w then Some candidate else boundary
          | None => Some candidate
          end
        else boundary in
      boundary_walk fragment_start_depth depth false boundary rest
  end.
Definition sqlserver_control_flow_batch_boundary (sql : text) : option nat :=
  boundary_walk 0 0 false None (sqlserver_top_level_tokens sql).

(** The offsets at which a complete control-flow batch is cut further. *)
Fixpoint sqlserver_boundaries (fuel cursor : nat) (body : text) : list nat :=
  match fuel with
  | 0 => []
  | S fuel' =>
    match sqlserver_control_flow_batch_boundary (drop cursor body) with
    | Some relative =>
      if (length body <=? cursor + relative)%nat then []
      else (cursor + relative) :: sqlserver_boundaries fuel' (cursor + relative) body
    | None => []
    end
  end.

Definition is_sqlserver_module_keyword (token : text) : bool :=
  keyword_in token ["FUNCTION"; "PROC"; "PROCEDURE"; "TRIGGER"; "VIEW"]%string.

Definition starts_with_sqlserver_module_ddl (sql : text) : bool :=
  match first_sql_tokens sql 4 with
  | t0 :: t1 :: more =>
    match more with
    | t2 :: t3 :: _ =>
      if eq_ignore_ascii_case t0 (txt "CREATE") && eq_ignore_ascii_case t1 (txt "OR")
         && eq_ignore_ascii_case t2 (txt "ALTER")
      then is_sqlserver_module_keyword t3
      else (eq_ignore_ascii_case t0 (txt "CREATE") || eq_ignore_ascii_case t0 (txt "ALTER"))
           && is_sqlserver_module_keyword t1
    | _ => (eq_ignore_ascii_case t0 (txt "CREATE") || eq_ignore_ascii_case t0 (txt "ALTER"))
           && is_sqlserver_module_keyword t1
    end
  | _ => false
  end.

(** True when the batch starts with a whole control-flow statement. *)
Definition starts_with_sqlserver_control_flow_batch (sql : text) : bool :=
  let tokens := sqlserver_top_level_tokens sql in
  let has keyword := existsb (fun t => is_word t keyword) tokens in
  match tokens with
  | first :: rest =>
    if is_word first "IF" then has "ELSE"%string && has "BEGIN"%string && has "END"%string
    else is_word first "BEGIN" && sqlserver_begins_block rest && has "END"%string
  | [] => false
  end.

Inductive BlockKind : Type := Begin | Case.
Record BlockFrame : Type := mkFrame { kind : BlockKind; frame_start : nat; frame_control : bool }.
Record ControlFlowBlock : Type := mkBlock { block_start : nat; block_stop : nat; control_statement : bool }.

Definition is_begin (k : BlockKind) : bool := match k with Begin => true | Case => false end.

(** The walk of [sqlserver_top_level_blocks]; [size] is the length of the batch. *)
Fixpoint blocks_walk (size : nat) (stack : list BlockFrame) (pending_try : option BlockFrame)
    (in_control_statement : bool) (tokens : list Token) : list ControlFlowBlock :=
  match tokens with
  | [] =>
    match pending_try with
    | Some f => [mkBlock f.(frame_start) size f.(frame_control)]
    | None =>
      match last stack with
      | Some f => if is_begin f.(kind) then [mkBlock f.(frame_start) size f.(frame_control)] else []
      | None => []
      end
    end
  | token :: rest =>
    if bool_decide (token.(word) = [c_semicolon]) then blocks_walk size stack pending_try false rest
    else if is_word token "IF" || is_word token "WHILE" || is_word token "ELSE"
    then blocks_walk size stack pending_try true rest
    else if is_word token "BEGIN" then
      if negb (sqlserver_begins_block rest) then blocks_walk size stack pending_try in_control_statement rest
      else
        let fresh := mkFrame Begin token.(start) in_control_statement in
        let frame := match pending_try, stack with Some f, [] => f | _, _ => fresh end in
        blocks_walk size (frame :: stack) None in_control_statement rest
    else if is_word token "CASE" then
      blocks_walk size (mkFrame Case token.(start) in_control_statement :: stack) pending_try in_control_statement rest
    else if negb (is_word token "END") then blocks_walk size stack pending_try in_control_statement rest
    else if ends_conversation rest then blocks_walk size stack pending_try in_control_statement rest
    else match stack with
    | [] => blocks_walk size stack pending_try in_control_statement rest
    | frame :: stack' =>
      if negb (is_begin frame.(kind)) || negb (bool_decide (length stack' = 0))
      then blocks_walk size stack' pending_try in_control_statement rest
      else if continues_with_catch rest then blocks_walk size stack' (Some frame) in_control_statement rest
      else
        let stop := match rest with
                    | next :: _ => if is_word next "TRY" || is_word next "CATCH" then next.(stop) else token.(stop)
                    | [] => token.(stop)
                    end in
        mkBlock frame.(frame_start) stop frame.(frame_control)
          :: blocks_walk size stack' pending_try in_control_statement rest
    end
  end.
Definition sqlserver_top_level_blocks (sql : text) : list ControlFlowBlock :=
  blocks_walk (length sql) [] None false (sqlserver_top_level_tokens sql).

Definition sqlserver_control_flow_statement_at (sql : text) (cursor : option nat) : option text :=
  if starts_with_sqlserver_control_flow_batch sql then Some sql
  else
    let blocks := sqlserver_top_level_blocks sql in
    block ← match cursor with
            | Some cursor =>
              head (List.filter (fun b => (b.(block_start) <=? cursor)%nat && (cursor <=? b.(block_stop))%nat) blocks)
            | None => last blocks
            end;
    if block.(control_statement) || bool_decide (cursor = None) then Some sql
    else Some (slice block.(block_start) block.(block_stop) sql).

End SqlServer.

(** ** Oracle PL/SQL *)

(** The tokens of the [sqlparser] crate that the code tells apart. *)
Inductive SqlparserToken : Type :=
| TWord (value : text) (quoted : bool)
| TSemiColon
| TWhitespace
| TPlaceholder
| TOther.

(** [Tokenizer::new(&OracleDialect {}, sql).tokenize()]; [None] is an error. *)
Class SqlTokenizer : Type := { tokenize : text -> option (list SqlparserToken) }.

Inductive OraclePlSqlToken : Type :=
| Word (value : text)
| QuotedIdentifier
| Semicolon
| Other.

#[export] Instance OraclePlSqlToken_eq_dec : EqDecision OraclePlSqlToken.
Proof. solve_decision. Defined.

Module PlSql.

Definition from_sqlparser_token (t : SqlparserToken) : option OraclePlSqlToken :=
  match t with
  | TWord value false => Some (Word (map to_ascii_uppercase value))
  | TWord _ true => Some QuotedIdentifier
  | TSemiColon => Some Semicolon
  | TWhitespace | TPlaceholder => None
  | TOther => Some Other
  end.

Definition is_word (t : OraclePlSqlToken) (expected : string) : bool :=
  match t with Word value => bool_decide (value = txt expected) | _ => false end.
Definition is_any_word (t : OraclePlSqlToken) (expected : list string) : bool := existsb (is_word t) expected.
Definition as_word (t : OraclePlSqlToken) : option text := match t with Word value => Some value | _ => None end.
Definition is_semicolon (t : OraclePlSqlToken) : bool := match t with Semicolon => true | _ => false end.

Definition word_is (o : option text) (expected : string) : bool := bool_decide (o = Some (txt expected)).

Definition previous_adjacent_word (tokens : list OraclePlSqlToken) (index : nat) : option text :=
  match index with 0 => None | S previous => tokens !! previous ≫= as_word end.
Definition next_adjacent_word (tokens : list OraclePlSqlToken) (index : nat) : option text :=
  tokens !! (S index) ≫= as_word.

Definition push_other_token (tokens : list OraclePlSqlToken) : list OraclePlSqlToken :=
  if bool_decide (last tokens = Some Other) then tokens else tokens ++ [Other].

(** The rest of a string literal after its opening quote. *)
Fixpoint skip_string (s : text) : text :=
  match s with
  | [] => []
  | c :: rest =>
    if (c =? c_quote)%Z then
      match rest with
      | d :: rest' => if (d =? c_quote)%Z then skip_string rest' else rest
      | [] => []
      end
    else skip_string rest
  end.

Definition is_plsql_word_char (c : Z) : bool :=
  is_ascii_alphanumeric c || (c =? c_underscore)%Z || (c =? c_dollar)%Z || (c =? c_hash)%Z.

Fixpoint fallback_fuel (fuel : nat) (tokens : list OraclePlSqlToken) (s : text) : list OraclePlSqlToken :=
  match fuel, s with
  | S fuel', c :: rest =>
    if is_whitespace c then fallback_fuel fuel' tokens rest
    else if (c =? c_dash)%Z && opt_is (head rest) c_dash then
      fallback_fuel fuel' tokens (tail (skip_line (tail rest)))
    else if (c =? c_slash)%Z && opt_is (head rest) c_star then
      fallback_fuel fuel' tokens (skip_comment_from None (tail rest))
    else if (c =? c_quote)%Z then fallback_fuel fuel' (push_other_token tokens) (skip_string rest)
    else if (c =? c_dquote)%Z then
      fallback_fuel fuel' (tokens ++ [QuotedIdentifier]) (tail (span (fun d => negb (d =? c_dquote)%Z) rest).2)
    else if (c =? c_semicolon)%Z then fallback_fuel fuel' (tokens ++ [Semicolon]) rest
    else if is_token_char c then
      let '(w, rest') := span is_plsql_word_char rest in
      fallback_fuel fuel' (tokens ++ [Word (map to_ascii_uppercase (c :: w))]) rest'
    else fallback_fuel fuel' (push_other_token tokens) rest
  | _, _ => tokens
  end.
Definition oracle_plsql_tokens_fallback (sql : text) : list OraclePlSqlToken := fallback_fuel (length sql) [] sql.

Definition push_mapped (out : list OraclePlSqlToken) (t : SqlparserToken) : list OraclePlSqlToken :=
  match from_sqlparser_token t with
  | Some Other => push_other_token out
  | Some mapped => out ++ [mapped]
  | None => out
  end.

Definition oracle_plsql_tokens `{SqlTokenizer} (sql : text) : list OraclePlSqlToken :=
  match tokenize sql with
  | Some tokens => foldl push_mapped [] tokens
  | None => oracle_plsql_tokens_fallback sql
  end.

(** *** [OraclePlSqlBlock], a list of tokens *)

Fixpoint skip_create_modifiers (tokens : list OraclePlSqlToken) : list OraclePlSqlToken :=
  match tokens with
  | [] => []
  | t1 :: rest =>
    match rest with
    | t2 :: tl => if is_word t1 "OR" && is_word t2 "REPLACE" then skip_create_modifiers tl
                  else if is_any_word t1 ["FORCE"; "NOFORCE"; "EDITIONABLE"; "NONEDITIONABLE"]%string
                  then skip_create_modifiers rest else tokens
    | [] => if is_any_word t1 ["FORCE"; "NOFORCE"; "EDITIONABLE"; "NONEDITIONABLE"]%string
            then skip_create_modifiers rest else tokens
    end
  end.

Definition is_transaction_begin_tail (t : OraclePlSqlToken) : bool :=
  is_semicolon t || is_any_word t ["TRANSACTION"; "WORK"]%string.

(** [PACKAGE BODY] or [TYPE BODY]. *)
Definition is_object_body (tokens : list OraclePlSqlToken) : bool :=
  match tokens with
  | object :: body :: _ => is_any_word object ["PACKAGE"; "TYPE"]%string && is_word body "BODY"
  | _ => false
  end.

Definition head_is_any (tokens : list OraclePlSqlToken) (expected : list string) : bool :=
  match tokens with t :: _ => is_any_word t expected | [] => false end.

Definition starts_create_plsql_object (tokens : list OraclePlSqlToken) : bool :=
  let tokens := skip_create_modifiers tokens in
  if is_object_body tokens then true
  else if head_is_any tokens ["TYPE"]%string then false
  else head_is_any tokens ["FUNCTION"; "PROCEDURE"; "TRIGGER"; "PACKAGE"]%string.

Definition starts_with_function_declaration (tokens : list OraclePlSqlToken) : bool :=
  match tokens with
  | first :: second :: _ => is_word first "WITH" && is_any_word second ["FUNCTION"; "PROCEDURE"]%string
  | _ => false
  end.

Definition starts_block (tokens : list OraclePlSqlToken) : bool :=
  match tokens with
  | [] => false
  | first :: rest =>
    if is_word first "DECLARE" then true
    else if is_word first "BEGIN" && match rest with s :: _ => negb (is_transaction_begin_tail s) | [] => false end
    then true
    else if starts_with_function_declaration tokens then true
    else if is_word first "CREATE" then starts_create_plsql_object rest
    else false
  end.

Fixpoint routine_body_starts_with_plsql_keyword (tokens : list OraclePlSqlToken) : bool :=
  match tokens with
  | [] => false
  | t :: rest =>
    if is_any_word t ["AS"; "IS"]%string then head_is_any rest ["DECLARE"; "BEGIN"]%string
    else routine_body_starts_with_plsql_keyword rest
  end.

Definition starts_oracle_style_routine_body (tokens : list OraclePlSqlToken) : bool :=
  match tokens with
  | first :: rest =>
    is_word first "CREATE"
    && (let rest := skip_create_modifiers rest in
        if is_object_body rest then true
        else if head_is_any rest ["FUNCTION"; "PROCEDURE"]%string then routine_body_starts_with_plsql_keyword rest
        else false)
  | [] => false
  end.

Inductive CreateObjectKind : Type := Spec | Body.

Inductive Scope : Type := Object | Declaration | RoutineHeader | Routine | Block | Case.

#[export] Instance Scope_eq_dec : EqDecision Scope.
Proof. solve_decision. Defined.

Definition top_is (scopes : list Scope) (expected : list Scope) : bool :=
  match scopes with s :: _ => bool_decide (s ∈ expected) | [] => false end.

(** The tokens of a trigger header: up to a [;] or the start of the body. *)
Fixpoint trigger_header (tokens : list OraclePlSqlToken) : list OraclePlSqlToken :=
  match tokens with
  | [] => []
  | t :: rest =>
    if is_semicolon t || is_any_word t ["BEGIN"; "DECLARE"; "CALL"]%string then [] else t :: trigger_header rest
  end.

Fixpoint has_pair (a b : string) (tokens : list OraclePlSqlToken) : bool :=
  match tokens with
  | t1 :: ((t2 :: _) as rest) => (is_word t1 a && is_word t2 b) || has_pair a b rest
  | _ => false
  end.

Definition is_compound_trigger_header (tokens : list OraclePlSqlToken) : bool :=
  has_pair "COMPOUND" "TRIGGER" (trigger_header tokens).

Definition create_object_kind (block : list OraclePlSqlToken) : option CreateObjectKind :=
  match block with
  | first :: rest =>
    if negb (is_word first "CREATE") then None
    else
      let tokens := skip_create_modifiers rest in
      if is_object_body tokens then Some Body
      else match tokens with
      | object :: header =>
        if is_word object "TRIGGER" && is_compound_trigger_header header then Some Body
        else if is_word object "PACKAGE" then Some Spec else None
      | [] => None
      end
  | [] => None
  end.

Definition is_create_routine (block : list OraclePlSqlToken) : bool :=
  match block with
  | first :: rest =>
    is_word first "CREATE" && head_is_any (skip_create_modifiers rest) ["PROCEDURE"; "FUNCTION"]%string
  | [] => false
  end.

(** The loop of [with_function_is_complete] from token [index] on. *)
Fixpoint with_function_walk (all : list OraclePlSqlToken) (index : nat) (scopes : list Scope) (in_main_query : bool)
    (tokens : list OraclePlSqlToken) : bool :=
  match tokens with
  | [] => false
  | token :: rest =>
    let continue scopes in_main_query := with_function_walk all (S index) scopes in_main_query rest in
    if is_semicolon token then
      if in_main_query && bool_decide (scopes = []) then true else continue scopes in_main_query
    else match as_word token with
    | None => continue scopes in_main_query
    | Some word =>
      if (0 <? index)%nat && bool_decide (scopes = [])
         && one_of word ["SELECT"; "INSERT"; "UPDATE"; "DELETE"; "MERGE"; "WITH"]%string
      then continue scopes true
      else if bool_decide (word = txt "BEGIN") then continue (Block :: scopes) in_main_query
      else if bool_decide (word = txt "CASE") && negb (word_is (previous_adjacent_word all index) "END")
      then continue (Case :: scopes) in_main_query
      else if bool_decide (word = txt "END") then
        let next := next_adjacent_word all index in
        if word_is next "IF" || word_is next "LOOP" then continue scopes in_main_query
        else if word_is next "CASE" && negb (top_is scopes [Case]) then continue scopes in_main_query
        else continue (tail scopes) in_main_query
      else continue scopes in_main_query
    end
  end.
Definition with_function_is_complete (tokens : list OraclePlSqlToken) : bool :=
  match last tokens with Some t => is_semicolon t | None => false end && with_function_walk tokens 0 [] false tokens.

Definition completion_without_block_walk (tokens : list OraclePlSqlToken) : option bool :=
  if negb (starts_block tokens) then Some false
  else if starts_with_function_declaration tokens then Some (with_function_is_complete tokens)
  else match tokens with
  | first :: rest =>
    let object := skip_create_modifiers rest in
    if is_word first "CREATE" && head_is_any object ["TRIGGER"]%string
       && match head (List.filter (fun t => is_any_word t ["BEGIN"; "DECLARE"; "COMPOUND"; "CALL"]%string) object) with
          | Some t => is_word t "CALL"
          | None => false
          end
    then Some (match last tokens with Some t => is_semicolon t | None => false end)
    else None
  | [] => None
  end.

(** *** [OraclePlSqlBlockWalk] *)

(** The top of the stack [scopes] is its head. *)
Record Walk : Type := mkWalk {
  object_kind : option CreateObjectKind;
  scopes : list Scope;
  awaiting_routine_declarations : bool;
  saw_begin : bool;
  complete : bool;
  next_index : nat;
}.

Definition walk_new (block : list OraclePlSqlToken) : Walk :=
  let kind := create_object_kind block in
  {| object_kind := kind;
     scopes := match kind with Some _ => [Object] | None => [] end;
     awaiting_routine_declarations := is_create_routine block;
     saw_begin := false;
     complete := false;
     next_index := 0 |}.

Definition with_scopes (w : Walk) (s : list Scope) : Walk :=
  mkWalk w.(object_kind) s w.(awaiting_routine_declarations) w.(saw_begin) w.(complete) w.(next_index).

Definition walk_step (tokens : list OraclePlSqlToken) (index : nat) (w : Walk) : Walk :=
  match tokens !! index with
  | None => w
  | Some token =>
    if is_semicolon token then
      if top_is w.(scopes) [RoutineHeader] then with_scopes w (tail w.(scopes)) else w
    else if w.(awaiting_routine_declarations) && is_any_word token ["IS"; "AS"]%string then
      mkWalk w.(object_kind) (Declaration :: w.(scopes)) false w.(saw_begin) w.(complete) w.(next_index)
    else if is_word token "DECLARE" then
      if top_is w.(scopes) [Declaration] then w else with_scopes w (Declaration :: w.(scopes))
    else if is_any_word token ["PROCEDURE"; "FUNCTION"]%string && top_is w.(scopes) [Declaration; Routine] then
      with_scopes w (RoutineHeader :: w.(scopes))
    else if is_any_word token ["IS"; "AS"]%string && top_is w.(scopes) [RoutineHeader] then
      with_scopes w (Routine :: tail w.(scopes))
    else if is_word token "BEGIN" then
      mkWalk w.(object_kind)
        (Block :: if top_is w.(scopes) [Declaration; Routine] then tail w.(scopes) else w.(scopes))
        w.(awaiting_routine_declarations) true false w.(next_index)
    else if is_word token "CASE" then
      if word_is (previous_adjacent_word tokens index) "END" then w else with_scopes w (Case :: w.(scopes))
    else if is_word token "END" then
      let next := next_adjacent_word tokens index in
      if word_is next "IF" || word_is next "LOOP" then w
      else if word_is next "CASE" && negb (top_is w.(scopes) [Case]) then w
      else match w.(scopes) with
      | _ :: scopes' =>
        mkWalk w.(object_kind) scopes' w.(awaiting_routine_declarations) w.(saw_begin)
          (bool_decide (scopes' = [])) w.(next_index)
      | [] => w
      end
    else w
  end.

(** The tokens from [next_index] on. *)
Definition walk_advance (tokens : list OraclePlSqlToken) (w : Walk) : Walk :=
  let w' := foldl (fun w i => walk_step tokens i w) w (seq w.(next_index) (length tokens - w.(next_index))) in
  mkWalk w'.(object_kind) w'.(scopes) w'.(awaiting_routine_declarations) w'.(saw_begin) w'.(complete)
    (Nat.max w.(next_index) (length tokens)).

Definition walk_is_complete (w : Walk) : bool :=
  match w.(object_kind) with Some _ => w.(complete) | None => w.(saw_begin) && w.(complete) end.

Definition is_complete (tokens : list OraclePlSqlToken) : bool :=
  match completion_without_block_walk tokens with
  | Some complete => complete
  | None => walk_is_complete (walk_advance tokens (walk_new tokens))
  end.

Section Tokenized.
Context `{SqlTokenizer}.

Definition starts_with_oracle_plsql_block (sql : text) : bool := starts_block (oracle_plsql_tokens sql).
Definition starts_with_oracle_style_routine_body (sql : text) : bool :=
  starts_oracle_style_routine_body (oracle_plsql_tokens sql).
Definition oracle_plsql_block_is_complete (sql : text) : bool := is_complete (oracle_plsql_tokens sql).

Definition keeps_oracle_style_block_together (o : SqlParsingOptions) (statement_head : text) : bool :=
  if o.(profile).(supports_oracle_plsql_blocks) then starts_with_oracle_plsql_block statement_head
  else o.(profile).(supports_oracle_style_routine_bodies) && starts_with_oracle_style_routine_body statement_head.

Definition starts_with_postgres_dollar_quoted_routine_prefix (sql : text) : bool :=
  let tokens := oracle_plsql_tokens sql in
  match tokens with
  | first :: rest =>
    is_word first "CREATE" && head_is_any (skip_create_modifiers rest) ["FUNCTION"; "PROCEDURE"]%string
    && word_is (last (omap as_word tokens)) "AS"
  | [] => false
  end.

(** *** [OraclePlSqlBlockTracker] *)

Record Tracker : Type := mkTracker { block : list OraclePlSqlToken; scanned_len : nat; walk : option Walk }.
Definition tracker_new : Tracker := mkTracker [] 0 None.

Definition tracker_scan (t : Tracker) (statement : text) : Tracker :=
  let t := if (length statement <? t.(scanned_len))%nat then tracker_new else t in
  mkTracker (t.(block) ++ oracle_plsql_tokens (drop t.(scanned_len) statement)) (length statement) t.(walk).

Definition tracker_keeps_block_together (o : SqlParsingOptions) (t : Tracker) (statement_head : text) : bool * Tracker :=
  if negb o.(profile).(supports_oracle_plsql_blocks) && negb o.(profile).(supports_oracle_style_routine_bodies)
  then (false, t)
  else
    let t := tracker_scan t statement_head in
    (if o.(profile).(supports_oracle_plsql_blocks) then starts_block t.(block)
     else starts_oracle_style_routine_body t.(block), t).

Definition tracker_is_complete (t : Tracker) (statement : text) : bool * Tracker :=
  let t := tracker_scan t statement in
  match completion_without_block_walk t.(block) with
  | Some complete => (complete, t)
  | None =>
    let w := walk_advance t.(block) (default (walk_new t.(block)) t.(walk)) in
    (walk_is_complete w, mkTracker t.(block) t.(scanned_len) (Some w))
  end.

End Tokenized.

End PlSql.

Import PlSql (oracle_plsql_tokens).

(** ** SAP HANA and Firebird *)

Section HanaFirebird.
Import PlSql.

(** The walk both share; [keeps next] tells the [END]s that close no block. *)
Fixpoint depth_walk (keeps : option text -> bool) (all : list OraclePlSqlToken) (index block_depth case_depth : nat)
    (saw_begin : bool) (tokens : list OraclePlSqlToken) : nat * nat * bool :=
  match tokens with
  | [] => (block_depth, case_depth, saw_begin)
  | token :: rest =>
    if is_word token "BEGIN" then
      if word_is (previous_adjacent_word all index) "END"
      then depth_walk keeps all (S index) block_depth case_depth saw_begin rest
      else depth_walk keeps all (S index) (S block_depth) case_depth true rest
    else if is_word token "CASE" then
      depth_walk keeps all (S index) block_depth
        (if word_is (previous_adjacent_word all index) "END" then case_depth else S case_depth) saw_begin rest
    else if is_word token "END" then
      if keeps (next_adjacent_word all index) then depth_walk keeps all (S index) block_depth case_depth saw_begin rest
      else match case_depth with
      | S d => depth_walk keeps all (S index) block_depth d saw_begin rest
      | 0 => depth_walk keeps all (S index) (block_depth - 1) 0 saw_begin rest
      end
    else depth_walk keeps all (S index) block_depth case_depth saw_begin rest
  end.

Definition depths_closed (keeps : option text -> bool) (tokens : list OraclePlSqlToken) : bool :=
  let '(block_depth, case_depth, saw_begin) := depth_walk keeps tokens 0 0 0 false tokens in
  saw_begin && (block_depth =? 0)%nat && (case_depth =? 0)%nat
  && match last tokens with Some t => is_semicolon t | None => false end.

Definition hana_starts_block (tokens : list OraclePlSqlToken) : bool :=
  match tokens with
  | Word first :: rest =>
    if bool_decide (first = txt "DO") then true
    else
      let rest :=
        match rest with
        | t1 :: t2 :: rest' =>
          if bool_decide (first = txt "CREATE") && is_word t1 "OR" && is_word t2 "REPLACE" then rest' else rest
        | _ => rest
        end in
      match rest with
      | Word object_type :: _ =>
        (bool_decide (first = txt "CREATE") || bool_decide (first = txt "ALTER"))
        && one_of object_type ["PROCEDURE"; "FUNCTION"; "TRIGGER"]%string
        && existsb (fun t => is_word t "BEGIN") tokens
      | _ => false
      end
  | _ => false
  end.

Definition hana_keeps (next : option text) : bool := word_is next "IF" || word_is next "FOR" || word_is next "WHILE".

Definition hana_is_complete (tokens : list OraclePlSqlToken) : bool :=
  hana_starts_block tokens && depths_closed hana_keeps tokens.

Definition firebird_starts_block (tokens : list OraclePlSqlToken) : bool :=
  match tokens with
  | Word first :: rest =>
    if bool_decide (first = txt "EXECUTE") then head_is_any rest ["BLOCK"]%string
    else if negb (one_of first ["CREATE"; "RECREATE"; "ALTER"]%string) then false
    else
      let rest :=
        match rest with
        | t1 :: t2 :: rest' => if is_word t1 "OR" && is_any_word t2 ["ALTER"; "REPLACE"]%string then rest' else rest
        | _ => rest
        end in
      match rest with
      | Word object_type :: after =>
        (if bool_decide (object_type = txt "PACKAGE") then head_is_any after ["BODY"]%string
         else one_of object_type ["PROCEDURE"; "FUNCTION"; "TRIGGER"]%string)
        && (if bool_decide (first = txt "ALTER")
            then existsb (fun t => is_any_word t ["AS"; "BEGIN"]%string) tokens else true)
      | _ => false
      end
  | _ => false
  end.

Definition firebird_is_complete (tokens : list OraclePlSqlToken) : bool :=
  firebird_starts_block tokens && depths_closed (fun _ => false) tokens.

Context `{SqlTokenizer}.

Definition starts_with_hana_script_block (sql : text) : bool := hana_starts_block (oracle_plsql_tokens sql).

Definition hana_script_block_is_complete (sql : text) : bool :=
  if bool_decide (c_newline ∈ sql)
     && negb (bool_decide (txt "END;" `prefix_of` map to_ascii_uppercase (trim_chars_start (last_line sql))))
  then false
  else hana_is_complete (oracle_plsql_tokens sql).

Definition starts_with_firebird_routine_block (sql : text) : bool := firebird_starts_block (oracle_plsql_tokens sql).
Definition firebird_routine_block_is_complete (sql : text) : bool := firebird_is_complete (oracle_plsql_tokens sql).

End HanaFirebird.
