(* ===== verification/SqlBlocksSpec.v ===== *)
(** * The incremental PL/SQL tracker

    The splitter asks at every top-level semicolon whether the statement so far
    is a PL/SQL block and whether it is complete.  [OraclePlSqlBlockTracker]
    answers without reading the statement again from its start; here it is shown
    to give the answers of the functions that do. *)

From S2P Require Import Prelude Utf8 SqlDialect SqlLex SqlBlocks.
Import PlSql.

(** ** A prefix that ends with a semicolon decides the header *)

Definition ends_semicolon (l : list OraclePlSqlToken) : Prop := last l = Some Semicolon.

Lemma ends_semicolon_cons t l : ends_semicolon (t :: l) -> (t = Semicolon /\ l = []) \/ ends_semicolon l.
Proof. unfold ends_semicolon. destruct l as [|u l]; [intros [= ->]; auto|]. by right. Qed.

Lemma skip_modifiers_eq t1 t2 tl : skip_create_modifiers (t1 :: t2 :: tl) =
  if is_word t1 "OR" && is_word t2 "REPLACE" then skip_create_modifiers tl
  else if is_any_word t1 ["FORCE"; "NOFORCE"; "EDITIONABLE"; "NONEDITIONABLE"]%string
  then skip_create_modifiers (t2 :: tl) else t1 :: t2 :: tl.
Proof. done. Qed.

Lemma skip_modifiers_app l k : ends_semicolon l ->
  skip_create_modifiers (l ++ k) = skip_create_modifiers l ++ k /\ ends_semicolon (skip_create_modifiers l).
Proof.
  assert (Hn : forall n l, length l <= n -> ends_semicolon l ->
    skip_create_modifiers (l ++ k) = skip_create_modifiers l ++ k /\ ends_semicolon (skip_create_modifiers l));
    [|by apply (Hn (length l))].
  induction n as [|n IH]; intros [|t1 [|t2 tl]] Hlen Hl; try done; simpl in Hlen; try lia.
  - destruct (ends_semicolon_cons _ _ Hl) as [[-> _]|?]; [|done]. simpl. by destruct k.
  - change ((t1 :: t2 :: tl) ++ k) with (t1 :: t2 :: tl ++ k). rewrite !skip_modifiers_eq. destruct (is_word t1 "OR" && is_word t2 "REPLACE") eqn:E1.
    + apply IH; [lia|]. destruct (ends_semicolon_cons _ _ Hl) as [[_ ?]|Hl2]; [done|].
      destruct (ends_semicolon_cons _ _ Hl2) as [[-> _]|?]; [|done]. by rewrite andb_false_r in E1.
    + destruct (is_any_word t1 _); [|done]. change (t2 :: tl ++ k) with ((t2 :: tl) ++ k). apply IH; [simpl; lia|].
      by destruct (ends_semicolon_cons _ _ Hl) as [[_ ?]|?].
Qed.

Lemma head_is_any_app l k expected : l <> [] -> head_is_any (l ++ k) expected = head_is_any l expected.
Proof. by destruct l. Qed.

Lemma ends_semicolon_nonempty l : ends_semicolon l -> l <> [].
Proof. by intros Hl ->. Qed.

Lemma is_object_body_app l k : ends_semicolon l -> is_object_body (l ++ k) = is_object_body l.
Proof.
  destruct l as [|t1 [|t2 l]]; [done| |done]. intros Hl. destruct (ends_semicolon_cons _ _ Hl) as [[-> _]|?]; [|done].
  by destruct k.
Qed.

Lemma trigger_header_app l k : Semicolon ∈ l -> trigger_header (l ++ k) = trigger_header l.
Proof.
  induction l as [|t l IH]; [by intros ?%elem_of_nil|]. intros [<-|Hl]%elem_of_cons; [done|].
  simpl. case_match; [done|]. by rewrite IH.
Qed.

Lemma walk_new_app l k : ends_semicolon l -> walk_new (l ++ k) = walk_new l.
Proof.
  intros Hl. destruct l as [|first rest]; [done|]. unfold walk_new.
  assert (create_object_kind ((first :: rest) ++ k) = create_object_kind (first :: rest) /\
          is_create_routine ((first :: rest) ++ k) = is_create_routine (first :: rest)) as [-> ->]; [|done].
  simpl. destruct (is_word first "CREATE") eqn:Ec; [|done]. simpl.
  destruct (ends_semicolon_cons _ _ Hl) as [[-> _]|Hr]; [done|].
  destruct (skip_modifiers_app rest k Hr) as [-> Hs]. pose proof (ends_semicolon_nonempty _ Hs) as Hne.
  rewrite is_object_body_app, head_is_any_app by done. split; [|done]. destruct (is_object_body _); [done|].
  destruct (skip_create_modifiers rest) as [|object header] eqn:Eh; [done|]. cbn [app].
  destruct (ends_semicolon_cons _ _ Hs) as [[-> _]|Hh]; [done|]. unfold is_compound_trigger_header.
  rewrite trigger_header_app; [done|]. by apply last_Some_elem_of in Hh.
Qed.

(** ** The walk may be resumed *)

Lemma walk_step_app l k i w : ends_semicolon l -> i < length l -> walk_step (l ++ k) i w = walk_step l i w.
Proof.
  intros Hl Hi. unfold walk_step, previous_adjacent_word, next_adjacent_word.
  rewrite lookup_app_l by done. destruct (l !! i) as [t|] eqn:Et; [|done].
  destruct (decide (S i < length l)) as [Hs|Hs].
  { rewrite (lookup_app_l l k (S i)) by done. destruct i; [done|]. by rewrite (lookup_app_l l k i) by lia. }
  assert (t = Semicolon) as ->; [|done]. unfold ends_semicolon in Hl. rewrite last_lookup in Hl.
  replace (pred (length l)) with i in Hl by lia. congruence.
Qed.

Definition steps (tokens : list OraclePlSqlToken) (from n : nat) (w : Walk) : Walk :=
  foldl (fun w i => walk_step tokens i w) w (seq from n).

Lemma steps_app l k from n w : ends_semicolon l -> from + n <= length l -> steps (l ++ k) from n w = steps l from n w.
Proof.
  intros Hl. revert from w. induction n as [|n IH]; intros from w Hn; [done|]. unfold steps in *. simpl.
  rewrite walk_step_app by (done || lia). apply IH. lia.
Qed.

Lemma steps_split tokens from n m w : steps tokens from (n + m) w = steps tokens (from + n) m (steps tokens from n w).
Proof. unfold steps. by rewrite seq_app, foldl_app. Qed.

(** [next_index] is written after the loop only. *)
Definition at_index (n : nat) (w : Walk) : Walk :=
  mkWalk w.(object_kind) w.(scopes) w.(awaiting_routine_declarations) w.(saw_begin) w.(complete) n.

Lemma walk_step_index tokens i w n : walk_step tokens i (at_index n w) = at_index n (walk_step tokens i w).
Proof. destruct w. unfold walk_step, with_scopes, at_index. simpl. repeat (case_match; simpl; try done). Qed.

Lemma steps_index tokens from m w n : steps tokens from m (at_index n w) = at_index n (steps tokens from m w).
Proof.
  unfold steps. revert from w. induction m as [|m IH]; intros from w; simpl; [done|]. by rewrite walk_step_index, IH.
Qed.

Lemma walk_advance_eq tokens w : walk_advance tokens w =
  at_index (Nat.max w.(next_index) (length tokens)) (steps tokens w.(next_index) (length tokens - w.(next_index)) w).
Proof. done. Qed.

Lemma walk_advance_new tokens block :
  walk_advance tokens (walk_new block) = at_index (length tokens) (steps tokens 0 (length tokens) (walk_new block)).
Proof. rewrite walk_advance_eq. simpl. by rewrite Nat.sub_0_r. Qed.

Lemma next_index_at n w : next_index (at_index n w) = n.
Proof. done. Qed.

(** Reading the tokens in two parts, the first of which ends with a semicolon,
    is reading them at once. *)
Lemma walk_advance_resume l k : ends_semicolon l ->
  walk_advance (l ++ k) (walk_advance l (walk_new l)) = walk_advance (l ++ k) (walk_new (l ++ k)).
Proof.
  intros Hl. rewrite walk_new_app, !walk_advance_new by done. rewrite walk_advance_eq, next_index_at, steps_index.
  rewrite length_app. replace (length l + length k - length l) with (length k) by lia.
  rewrite Nat.max_r by lia. rewrite steps_split, (steps_app l k 0 (length l)) by (done || lia). done.
Qed.

(** ** The tracker against the functions on the whole statement *)

Section Tracker.
Context `{SqlTokenizer} (o : SqlParsingOptions).

(** The answers of the tracker at each semicolon: whether the statement before it
    is a block, and whether the statement with it is complete. *)
Fixpoint tracker_answers (t : Tracker) (statement : text) (pieces : list text) : list (bool * bool) :=
  match pieces with
  | [] => []
  | x :: pieces' =>
    let '(keeps, t1) := tracker_keeps_block_together o t (statement ++ x) in
    let '(complete, t2) := tracker_is_complete t1 ((statement ++ x) ++ [c_semicolon]) in
    (keeps, complete) :: tracker_answers t2 ((statement ++ x) ++ [c_semicolon]) pieces'
  end.

(** The answers of the functions that read the whole statement. *)
Fixpoint reference_answers (statement : text) (pieces : list text) : list (bool * bool) :=
  match pieces with
  | [] => []
  | x :: pieces' =>
    (keeps_oracle_style_block_together o (statement ++ x), oracle_plsql_block_is_complete ((statement ++ x) ++ [c_semicolon]))
      :: reference_answers ((statement ++ x) ++ [c_semicolon]) pieces'
  end.

(** The tokens of the pieces and of the semicolons between them are the tokens of
    the statement: what the tracker relies on the tokenizer for. *)
Fixpoint tokens_at_semicolons (statement : text) (pieces : list text) : Prop :=
  match pieces with
  | [] => True
  | x :: pieces' =>
    oracle_plsql_tokens (statement ++ x) = oracle_plsql_tokens statement ++ oracle_plsql_tokens x /\
    oracle_plsql_tokens ((statement ++ x) ++ [c_semicolon]) = oracle_plsql_tokens (statement ++ x) ++ [Semicolon] /\
    tokens_at_semicolons ((statement ++ x) ++ [c_semicolon]) pieces'
  end.

(** The tracker has read the statement; its walk, if any, one of its prefixes. *)
Definition tracks (t : Tracker) (statement : text) : Prop :=
  t.(block) = oracle_plsql_tokens statement /\ t.(scanned_len) = length statement /\
  forall w, t.(walk) = Some w -> exists l k, t.(block) = l ++ k /\ ends_semicolon l /\ w = walk_advance l (walk_new l).

Lemma tracker_scan_tracks t statement x : tracks t statement ->
  oracle_plsql_tokens (statement ++ x) = oracle_plsql_tokens statement ++ oracle_plsql_tokens x ->
  tracks (tracker_scan t (statement ++ x)) (statement ++ x).
Proof.
  intros (Hb & Hl & Hw) Hx. unfold tracker_scan. rewrite Hl.
  rewrite (proj2 (Nat.ltb_ge _ _)) by (rewrite length_app; lia). rewrite Hl, drop_app_length, Hb, <- Hx.
  split_and!; simpl; [done|done|]. intros w Hw'. destruct (Hw w Hw') as (l & k & Hlk & Hend & ->).
  exists l, (k ++ oracle_plsql_tokens x). by rewrite Hx, app_assoc, <- Hlk, <- Hb.
Qed.

Context (Hsemicolon : oracle_plsql_tokens [c_semicolon] = [Semicolon]).

Lemma tracker_complete_tracks t head : tracks t head ->
  oracle_plsql_tokens (head ++ [c_semicolon]) = oracle_plsql_tokens head ++ [Semicolon] ->
  (tracker_is_complete t (head ++ [c_semicolon])).1 = oracle_plsql_block_is_complete (head ++ [c_semicolon]) /\
  tracks (tracker_is_complete t (head ++ [c_semicolon])).2 (head ++ [c_semicolon]).
Proof.
  intros Ht Hx. unfold tracker_is_complete, oracle_plsql_block_is_complete, is_complete.
  pose proof (tracker_scan_tracks t head [c_semicolon] Ht ltac:(by rewrite Hsemicolon)) as Ht1.
  destruct (tracker_scan t (head ++ [c_semicolon])) as [b n w] eqn:Es. pose proof Ht1 as (Hb & Hl & Hw). simpl in Hb, Hl, Hw. subst b n.
  cbn [block scanned_len walk]. assert (ends_semicolon (oracle_plsql_tokens (head ++ [c_semicolon]))) as Hend.
  { unfold ends_semicolon. by rewrite Hx, last_snoc. }
  destruct (completion_without_block_walk _) as [b|]; [done|].
  assert (Hwalk : walk_advance (oracle_plsql_tokens (head ++ [c_semicolon])) (default (walk_new (oracle_plsql_tokens (head ++ [c_semicolon]))) w) =
    walk_advance (oracle_plsql_tokens (head ++ [c_semicolon])) (walk_new (oracle_plsql_tokens (head ++ [c_semicolon])))).
  { destruct w as [w|]; [|done]. destruct (Hw w eq_refl) as (l & k & -> & Hlend & ->). by apply walk_advance_resume. }
  rewrite Hwalk. split; [done|]. split_and!; simpl; [done|done|]. intros w' [= <-].
  exists (oracle_plsql_tokens (head ++ [c_semicolon])), []. by rewrite app_nil_r.
Qed.

Lemma tracker_keeps_tracks t statement x : tracks t statement ->
  oracle_plsql_tokens (statement ++ x) = oracle_plsql_tokens statement ++ oracle_plsql_tokens x ->
  o.(profile).(supports_oracle_plsql_blocks) || o.(profile).(supports_oracle_style_routine_bodies) = true ->
  (tracker_keeps_block_together o t (statement ++ x)).1 = keeps_oracle_style_block_together o (statement ++ x) /\
  tracks (tracker_keeps_block_together o t (statement ++ x)).2 (statement ++ x).
Proof.
  intros Ht Hx Hp. unfold tracker_keeps_block_together, keeps_oracle_style_block_together,
    starts_with_oracle_plsql_block, starts_with_oracle_style_routine_body.
  pose proof (tracker_scan_tracks t statement x Ht Hx) as Ht1. pose proof Ht1 as (<- & _ & _).
  destruct (supports_oracle_plsql_blocks _); simpl; [done|]. simpl in Hp. by rewrite Hp.
Qed.

Lemma tracker_answers_reference t statement pieces : tracks t statement ->
  o.(profile).(supports_oracle_plsql_blocks) || o.(profile).(supports_oracle_style_routine_bodies) = true ->
  tokens_at_semicolons statement pieces -> tracker_answers t statement pieces = reference_answers statement pieces.
Proof.
  intros Ht Hp. revert t statement Ht. induction pieces as [|x pieces IH]; intros t statement Ht; simpl; [done|].
  intros (Hx & Hs & Hrest). destruct (tracker_keeps_tracks t statement x Ht Hx Hp) as [Hk Ht1].
  destruct (tracker_keeps_block_together o t (statement ++ x)) as [keeps t1]. simpl in Hk, Ht1. subst keeps.
  destruct (tracker_complete_tracks t1 (statement ++ x) Ht1 Hs) as [Hd Ht2].
  destruct (tracker_is_complete t1 ((statement ++ x) ++ [c_semicolon])) as [fin t2]. simpl in Hd, Ht2. subst fin.
  f_equal. by apply IH.
Qed.

End Tracker.

(** The incremental tracker is equivalent to reading the statement again at
    every semicolon: whenever the tokenizer yields the same tokens for a
    statement cut at its top-level semicolons as for the statement, the answers
    of [OraclePlSqlBlockTracker] at each of them are those of
    [keeps_oracle_style_block_together] and [oracle_plsql_block_is_complete] on
    the whole statement so far, for blocks, packages, types, compound triggers
    and routines alike. *)
Theorem tracker_matches_reference `{SqlTokenizer} o pieces :
  o.(profile).(supports_oracle_plsql_blocks) || o.(profile).(supports_oracle_style_routine_bodies) = true ->
  oracle_plsql_tokens [c_semicolon] = [Semicolon] -> oracle_plsql_tokens [] = [] -> tokens_at_semicolons [] pieces ->
  tracker_answers o tracker_new [] pieces = reference_answers o [] pieces.
Proof.
  intros Hp Hs Hn Ht. apply tracker_answers_reference; [done| |done|done]. split_and!; [by rewrite Hn|done|done].
Qed.

(** A package body with two routines, read with the tokenizer of the source. *)
Lemma tracker_matches_reference_witness :
  let tokenizer := {| tokenize := fun _ => None |} in
  let o := Options.for_database_type DatabaseType.Oracle in
  let pieces := [txt "CREATE PACKAGE BODY b AS PROCEDURE p IS BEGIN NULL"; txt " END"; txt " FUNCTION f RETURN t IS x t";
                 txt " BEGIN RETURN CASE WHEN a THEN 1 END"; txt " END f"; txt " END b"] in
  tracker_answers o tracker_new [] pieces = reference_answers o [] pieces /\
  map snd (tracker_answers o tracker_new [] pieces) = [false; false; false; false; false; true].
Proof.
  split; [|vm_compute; reflexivity].
  apply (tracker_matches_reference (Options.for_database_type DatabaseType.Oracle)); repeat split; vm_compute; reflexivity.
Defined.
