(* ===== verification/SqlScanner.v ===== *)
(** * The line scanner of SQL text

    [crates/dbx-sql-core/src/sql.rs], [SqlScanner]: follows quotes and comments
    through a text one character at a time, for the parts of the code that only
    ask whether a position is inside one ([is_masked]): psql control commands in
    a script, [GO] batches, blank lines.  A step sees the whole text: [before]
    and [after] are the texts on both sides of the character. *)

From S2P Require Import Prelude Utf8 SqlDialect SqlLex.

(** Opening tag of a dollar-quoted string, as the scanner and the range scanner
    read it: any characters up to the next [$], if they can be a name. *)
Definition dollar_quote_tag_at_str (s : text) : option text :=
  match s with
  | a :: rest =>
    if negb (a =? c_dollar)%Z then None
    else
      let '(name, after) := span (fun c => negb (c =? c_dollar)%Z) rest in
      match after with
      | [] => None
      | _ =>
        if bool_decide (name = []) || forallb (fun c => (c =? c_underscore)%Z || is_ascii_alphanumeric c) name
        then Some (c_dollar :: name ++ [c_dollar]) else None
      end
  | [] => None
  end.

Module Scanner.

Record SqlScanner : Type := mkScanner {
  sc_profile : SqlDialectProfile;
  in_single_quote : bool;
  single_quote_escape_string : bool;
  in_double_quote : bool;
  in_backtick : bool;
  in_line_comment : bool;
  block_comment_depth : nat;
  oracle_q_quote : OracleQQuoteState;
  dollar_quote_tag : option text;
  previous : option Z
}.

#[export] Instance set_in_single_quote : Setter in_single_quote := fun v s =>
  mkScanner s.(sc_profile) v s.(single_quote_escape_string) s.(in_double_quote) s.(in_backtick)
  s.(in_line_comment) s.(block_comment_depth) s.(oracle_q_quote) s.(dollar_quote_tag) s.(previous).
#[export] Instance set_single_quote_escape_string : Setter single_quote_escape_string := fun v s =>
  mkScanner s.(sc_profile) s.(in_single_quote) v s.(in_double_quote) s.(in_backtick)
  s.(in_line_comment) s.(block_comment_depth) s.(oracle_q_quote) s.(dollar_quote_tag) s.(previous).
#[export] Instance set_in_double_quote : Setter in_double_quote := fun v s =>
  mkScanner s.(sc_profile) s.(in_single_quote) s.(single_quote_escape_string) v s.(in_backtick)
  s.(in_line_comment) s.(block_comment_depth) s.(oracle_q_quote) s.(dollar_quote_tag) s.(previous).
#[export] Instance set_in_backtick : Setter in_backtick := fun v s =>
  mkScanner s.(sc_profile) s.(in_single_quote) s.(single_quote_escape_string) s.(in_double_quote) v
  s.(in_line_comment) s.(block_comment_depth) s.(oracle_q_quote) s.(dollar_quote_tag) s.(previous).
#[export] Instance set_in_line_comment : Setter in_line_comment := fun v s =>
  mkScanner s.(sc_profile) s.(in_single_quote) s.(single_quote_escape_string) s.(in_double_quote)
  s.(in_backtick) v s.(block_comment_depth) s.(oracle_q_quote) s.(dollar_quote_tag) s.(previous).
#[export] Instance set_block_comment_depth : Setter block_comment_depth := fun v s =>
  mkScanner s.(sc_profile) s.(in_single_quote) s.(single_quote_escape_string) s.(in_double_quote)
  s.(in_backtick) s.(in_line_comment) v s.(oracle_q_quote) s.(dollar_quote_tag) s.(previous).
#[export] Instance set_oracle_q_quote : Setter oracle_q_quote := fun v s =>
  mkScanner s.(sc_profile) s.(in_single_quote) s.(single_quote_escape_string) s.(in_double_quote)
  s.(in_backtick) s.(in_line_comment) s.(block_comment_depth) v s.(dollar_quote_tag) s.(previous).
#[export] Instance set_dollar_quote_tag : Setter dollar_quote_tag := fun v s =>
  mkScanner s.(sc_profile) s.(in_single_quote) s.(single_quote_escape_string) s.(in_double_quote)
  s.(in_backtick) s.(in_line_comment) s.(block_comment_depth) s.(oracle_q_quote) v s.(previous).
#[export] Instance set_previous : Setter previous := fun v s =>
  mkScanner s.(sc_profile) s.(in_single_quote) s.(single_quote_escape_string) s.(in_double_quote)
  s.(in_backtick) s.(in_line_comment) s.(block_comment_depth) s.(oracle_q_quote)
  s.(dollar_quote_tag) v.

Definition with_profile (p : SqlDialectProfile) : SqlScanner :=
  mkScanner p false false false false false 0 no_q_quote None None.

Definition is_masked (s : SqlScanner) : bool :=
  s.(in_single_quote) || s.(in_double_quote) || s.(in_backtick) || s.(in_line_comment)
  || (0 <? s.(block_comment_depth))%nat || q_is_open s.(oracle_q_quote) || bool_decide (is_Some s.(dollar_quote_tag)).

Section Step.
Context `{UnicodeTables}.

(** The last part of a step: quotes. *)
Definition step_quotes (s : SqlScanner) (before : text) (c : Z) : SqlScanner :=
  let p := s.(sc_profile) in
  let escapes := if s.(in_single_quote) then s.(single_quote_escape_string)
                 else p.(supports_backslash_escaped_quotes) in
  let s' :=
    if (c =? c_quote)%Z
       && negb (s.(in_double_quote) || s.(in_backtick) || (escapes && opt_is s.(previous) c_backslash)) then
      let opens := negb s.(in_single_quote) in
      s <| in_single_quote := opens |>
        <| single_quote_escape_string :=
             opens && (p.(supports_backslash_escaped_quotes)
                       || (p.(supports_postgres_escape_strings) && ends_with_escape_string_prefix before)) |>
    else if (c =? c_dquote)%Z
       && negb (s.(in_single_quote) || s.(in_backtick)
                || (p.(supports_backslash_escaped_quotes) && opt_is s.(previous) c_backslash)) then
      s <| in_double_quote := negb s.(in_double_quote) |>
    else if (c =? c_backtick)%Z && p.(supports_backtick_identifiers)
            && negb s.(in_single_quote) && negb s.(in_double_quote) then
      s <| in_backtick := negb s.(in_backtick) |>
    else s in
  s' <| previous := Some c |>.

Definition step (s : SqlScanner) (before : text) (c : Z) (after : text) : SqlScanner :=
  let p := s.(sc_profile) in
  let next := head after in
  match s.(dollar_quote_tag) with
  | Some tag =>
    (if bool_decide (tag `prefix_of` c :: after) then s <| dollar_quote_tag := None |> else s) <| previous := Some c |>
  | None =>
    if s.(in_line_comment) then s <| in_line_comment := negb (c =? c_newline)%Z |> <| previous := Some c |>
    else if (0 <? s.(block_comment_depth))%nat then
      if p.(supports_nested_block_comments) && opt_is s.(previous) c_slash && (c =? c_star)%Z
      then s <| block_comment_depth := S s.(block_comment_depth) |> <| previous := None |>
      else if opt_is s.(previous) c_star && (c =? c_slash)%Z
      then s <| block_comment_depth := s.(block_comment_depth) - 1 |> <| previous := Some c |>
      else s <| previous := Some c |>
    else if q_is_open s.(oracle_q_quote) then
      s <| oracle_q_quote := q_consume s.(oracle_q_quote) c s.(previous) |> <| previous := Some c |>
    else if s.(in_single_quote) || s.(in_double_quote) || s.(in_backtick) then step_quotes s before c
    else if p.(supports_oracle_q_quotes) && (c =? c_quote)%Z && ends_with_oracle_q_quote_prefix before then
      s <| oracle_q_quote := mkQQuote true s.(oracle_q_quote).(closer) |> <| previous := Some c |>
    else if ((c =? c_dash)%Z && opt_is next c_dash) || (p.(supports_hash_line_comments) && (c =? c_hash)%Z)
    then step_quotes (s <| in_line_comment := true |>) before c
    else if (c =? c_slash)%Z && opt_is next c_star then s <| block_comment_depth := 1 |> <| previous := None |>
    else match (if p.(supports_dollar_quoted_strings) then dollar_quote_tag_at_str (c :: after) else None) with
    | Some tag => step_quotes (s <| dollar_quote_tag := Some tag |>) before c
    | None => step_quotes s before c
    end
  end.

(** The steps over a piece of text, with the text before and after it. *)
Fixpoint steps (s : SqlScanner) (before piece after : text) : SqlScanner :=
  match piece with
  | [] => s
  | c :: piece' => steps (step s before c (piece' ++ after)) (before ++ [c]) piece' after
  end.

End Step.

End Scanner.

(** ** psql control commands in a script *)

(** [str::split_inclusive('\n')]: lines with their line ends. *)
Fixpoint split_inclusive_from (line s : text) : list text :=
  match s with
  | [] => if bool_decide (line = []) then [] else [line]
  | c :: rest =>
    if (c =? c_newline)%Z then (line ++ [c]) :: split_inclusive_from [] rest
    else split_inclusive_from (line ++ [c]) rest
  end.
Definition split_inclusive (s : text) : list text := split_inclusive_from [] s.

(** A command's line is replaced by blanks of the same length in UTF-16. *)
Definition blank_char (c : Z) : text := if is_whitespace c then [c] else repeat 32%Z (len_utf16 c).
Definition blank_line (line : text) : text := flat_map blank_char line.

Definition strip_newline (segment : text) : text :=
  if opt_is (last segment) c_newline then removelast segment else segment.

Section Preprocess.
Context `{UnicodeTables}.

Fixpoint preprocess_segments (scanner : Scanner.SqlScanner) (before : text) (stop_on_error : bool)
    (segments : list text) : text * bool :=
  match segments with
  | [] => ([], stop_on_error)
  | segment :: segments' =>
    let after := concat segments' in
    let line := strip_newline segment in
    let command := if Scanner.is_masked scanner then None
                   else parse_ignorable_psql_control_command (trim_chars line) in
    match command with
    | Some command =>
      let newline := if opt_is (last segment) c_newline then [c_newline] else [] in
      let scanner' := match newline with
                      | [] => scanner
                      | _ => Scanner.step scanner (before ++ line) c_newline after
                      end in
      let '(output, stop) :=
        preprocess_segments scanner' (before ++ segment)
          (stop_on_error || bool_decide (command = OnErrorStop)) segments' in
      (blank_line line ++ newline ++ output, stop)
    | None =>
      let '(output, stop) :=
        preprocess_segments (Scanner.steps scanner before segment after) (before ++ segment) stop_on_error segments' in
      (segment ++ output, stop)
    end
  end.

Definition preprocess_psql_control_commands (sql : text) (p : SqlDialectProfile) : text * bool :=
  preprocess_segments (Scanner.with_profile p) [] false (split_inclusive sql).

End Preprocess.

(** ** What the preprocessing keeps *)

(** The length of a text in UTF-16 units, in which editors count positions. *)
Definition utf16_len (s : text) : nat := sum_list_with len_utf16 s.

Lemma utf16_len_app s t : utf16_len (s ++ t) = utf16_len s + utf16_len t.
Proof. unfold utf16_len. apply sum_list_with_app. Qed.

Lemma utf16_len_blank line : utf16_len (blank_line line) = utf16_len line.
Proof.
  induction line as [|c line IH]; [done|]. unfold blank_line in *. simpl. rewrite utf16_len_app, IH. f_equal.
  unfold blank_char. destruct (is_whitespace c); [unfold utf16_len; simpl; lia|].
  unfold utf16_len, len_utf16. by destruct (c <? 65536)%Z.
Qed.

Lemma split_inclusive_from_concat line s : concat (split_inclusive_from line s) = line ++ s.
Proof.
  revert line. induction s as [|c s IH]; intros line; simpl.
  - case_bool_decide as E; [by rewrite E|]. simpl. by rewrite !app_nil_r.
  - case_match; simpl; rewrite IH; by rewrite <- ?app_assoc.
Qed.

Lemma split_inclusive_concat s : concat (split_inclusive s) = s.
Proof. apply split_inclusive_from_concat. Qed.

Lemma strip_newline_split segment :
  segment = strip_newline segment ++ (if opt_is (last segment) c_newline then [c_newline] else []).
Proof.
  unfold strip_newline. destruct segment as [|c segment _] using rev_ind; [done|]. rewrite last_snoc. simpl.
  destruct (Z.eqb_spec c c_newline) as [->|]; [by rewrite removelast_last|by rewrite app_nil_r].
Qed.

(** A line and the line that replaces it. *)
Inductive replaced : text -> text -> Prop :=
| replaced_same segment : replaced segment segment
| replaced_command segment command :
    parse_ignorable_psql_control_command (trim_chars (strip_newline segment)) = Some command ->
    replaced segment (blank_line (strip_newline segment) ++ if opt_is (last segment) c_newline then [c_newline] else []).

Lemma replaced_utf16 a b : replaced a b -> utf16_len b = utf16_len a.
Proof.
  intros [segment|segment command _]; [done|]. rewrite utf16_len_app, utf16_len_blank, <- utf16_len_app.
  by rewrite <- strip_newline_split.
Qed.

(** The commands that raise the flag. *)
Definition stops (segment : text) : bool :=
  bool_decide (parse_ignorable_psql_control_command (trim_chars (strip_newline segment)) = Some OnErrorStop).

Section PreprocessSpec.
Context `{UnicodeTables}.

Lemma preprocess_segments_replaced scanner before stop segments output stop' :
  preprocess_segments scanner before stop segments = (output, stop') ->
  exists lines, output = concat lines /\ Forall2 replaced segments lines /\
    (stop' = true -> stop = true \/ exists segment, segment ∈ segments /\ stops segment = true).
Proof.
  revert scanner before stop output stop'. induction segments as [|segment segments IH]; intros scanner before stop output stop'; simpl.
  { intros [= <- <-]. exists []. split_and!; [done|constructor|auto]. }
  destruct (if Scanner.is_masked scanner then None else _) as [command|] eqn:Ec.
  - destruct (preprocess_segments _ _ _ segments) as [rest stop2] eqn:Er. intros [= <- <-].
    destruct (IH _ _ _ _ _ Er) as (lines & -> & Hl & Hs). destruct (Scanner.is_masked scanner); [done|].
    eexists (_ :: lines). split_and!; [by rewrite app_assoc|by constructor; [by apply (replaced_command _ command)|]|].
    intros Hstop. destruct (Hs Hstop) as [[?|Hc%bool_decide_eq_true]%orb_true_iff|(x & ? & ?)]; [by left| |].
    + right. exists segment. split; [by left|]. apply bool_decide_eq_true. congruence.
    + right. exists x. split; [by right|done].
  - destruct (preprocess_segments _ _ _ segments) as [rest stop2] eqn:Er. intros [= <- <-].
    destruct (IH _ _ _ _ _ Er) as (lines & -> & Hl & Hs). exists (segment :: lines).
    split_and!; [done|by constructor; [constructor|]|]. intros Hstop. destruct (Hs Hstop) as [?|(x & ? & ?)]; [by left|].
    right. exists x. split; [by right|done].
Qed.

(** Blanking the psql control commands of a script keeps every position the
    editor knows: the script is replaced line by line, each line either kept or,
    if it is a command that may be ignored, overwritten with blanks; a line has
    the same length in UTF-16 units as the line it replaces, so the whole text
    has, too.  The script stops on errors only if one of its lines says so. *)
Theorem preprocess_keeps_positions sql p output stop :
  preprocess_psql_control_commands sql p = (output, stop) ->
  exists lines, output = concat lines /\ Forall2 replaced (split_inclusive sql) lines /\
    Forall2 (fun a b => utf16_len b = utf16_len a) (split_inclusive sql) lines /\ utf16_len output = utf16_len sql /\
    (stop = true -> exists line, line ∈ split_inclusive sql /\ stops line = true).
Proof.
  intros Hp. destruct (preprocess_segments_replaced _ _ _ _ _ _ Hp) as (lines & -> & Hl & Hs). exists lines.
  assert (Hu : Forall2 (fun a b => utf16_len b = utf16_len a) (split_inclusive sql) lines)
    by (eapply Forall2_impl; [exact Hl|]; apply replaced_utf16).
  split_and!; [done|done|done| |].
  - rewrite <- (split_inclusive_concat sql). clear -Hu. induction Hu as [|a b l k Hab Hlk IH]; [done|].
    simpl. by rewrite !utf16_len_app, Hab, IH.
  - intros Hstop. by destruct (Hs Hstop).
Qed.

End PreprocessSpec.

(** An emoji in a command's text takes two UTF-16 units, and two blanks. *)
Lemma preprocess_keeps_positions_witness :
  let tables := {| is_alphanumeric := is_ascii_alphanumeric |} in
  let script := txt "\echo " ++ [128512%Z; c_newline] ++ txt "\set ON_ERROR_STOP on" ++ [c_newline] ++ txt "SELECT 1" in
  let r := preprocess_psql_control_commands script Profile.postgres_family in
  r.2 = true /\ utf16_len r.1 = utf16_len script.
Proof.
  split; [vm_compute; reflexivity|].
  by destruct (preprocess_keeps_positions (H := {| is_alphanumeric := is_ascii_alphanumeric |})
    (txt "\echo " ++ [128512%Z; c_newline] ++ txt "\set ON_ERROR_STOP on" ++ [c_newline] ++ txt "SELECT 1")
    Profile.postgres_family _ _ (surjective_pairing _)) as (lines & _ & _ & _ & Hu & _).
Defined.
