(* ===== verification/SqlRanges.v ===== *)
(** * Statement ranges

    [crates/dbx-sql-core/src/sql.rs]: the scanner that finds the statements of a
    text with their positions, the [GO] batches of SQL Server, and the statement
    at the cursor.  Positions are numbers of characters (the source's are bytes
    of the same text).  A slice whose start lies after its end panics in the
    source: [None]. *)

From S2P Require Import Prelude Utf8 SqlDialect SqlLex SqlBlocks SqlScanner.

Record SqlStatementRange : Type := mkRange { range_text : text; range_start : nat; range_end : nat }.

#[export] Instance SqlStatementRange_eq_dec : EqDecision SqlStatementRange.
Proof. solve_decision. Defined.

(** [&sql[start..stop]]. *)
Definition checked_slice (start stop : nat) (sql : text) : option text :=
  if (start <=? stop)%nat then Some (slice start stop sql) else None.

(** ** Bounds of a statement in its piece of text *)

(** [tdsql_mysql::leading_directive_start]. *)
Definition leading_directive_start (statement : text) (executable_start : nat) : option nat :=
  let prefix := take executable_start statement in
  let line_prefix := reverse (span (fun c => negb ((c =? 13) || (c =? 10))%Z) (reverse prefix)).1 in
  let line_start := length prefix - length line_prefix in
  let trimmed_line_start := trim_chars_start line_prefix in
  if bool_decide (txt "/*" `prefix_of` trimmed_line_start) && bool_decide (txt "*/" `suffix_of` trim_chars_end trimmed_line_start)
  then Some (line_start + length line_prefix - length trimmed_line_start)
  else
    let trimmed_prefix := trim_chars_end prefix in
    if bool_decide (txt "/*proxy*/" `suffix_of` trimmed_prefix)
    then Some (length trimmed_prefix - length (txt "/*proxy*/")) else None.

Definition executable_sql_bounds (statement : text) (o : SqlParsingOptions) : option (nat * nat) :=
  let trimmed := trim_chars_end statement in
  let executable := leading_executable_sql_with_options trimmed o in
  if bool_decide (executable = []) then None
  else
    let executable_start := length trimmed - length executable in
    let start := if o.(profile).(preserves_tdsql_leading_directives)
                 then default executable_start (leading_directive_start trimmed executable_start)
                 else executable_start in
    Some (start, length trimmed).

(** The range of the piece [start..stop], appended if it has a statement. *)
Definition push_statement_range (ranges : list SqlStatementRange) (sql : text) (start stop : nat) (o : SqlParsingOptions)
    : option (list SqlStatementRange) :=
  piece ← checked_slice start stop sql;
  match executable_sql_bounds piece o with
  | None => Some ranges
  | Some (relative_start, relative_end) =>
    let statement_start := start + relative_start in
    let statement_end := start + relative_end in
    let t := slice statement_start statement_end sql in
    Some (if bool_decide (t = []) then ranges else ranges ++ [mkRange t statement_start statement_end])
  end.

(** The line in progress starts with [DELIMITER] and nothing is pending. *)
Definition is_on_delimiter_line (sql : text) (range_start index : nat) (o : SqlParsingOptions) : bool :=
  let piece := slice range_start index sql in
  let line := trim_chars_start (last_line piece) in
  (9 <=? length line)%nat && eq_ignore_ascii_case (take 9 line) (txt "delimiter")
  && negb (has_executable_sql_with_options (trim_chars (before_last_line piece)) o).

(** Just past the closing quote of the [q'...'] literal whose opening quote is at
    [quote_index]. *)
Definition oracle_q_quote_end (sql : text) (quote_index : nat) : option nat :=
  opening ← sql !! S quote_index;
  closer ← oracle_q_quote_closer opening;
  let content_start := quote_index + 2 in
  offset ← find_sub [closer; c_quote] (drop content_start sql);
  Some (content_start + offset + 2).

(** ** The range scanner *)

Module Ranges.

Record State : Type := mkState {
  ranges : list SqlStatementRange;
  start : nat;
  index : nat;
  in_single_quote : bool;
  in_double_quote : bool;
  in_backtick : bool;
  in_line_comment : bool;
  block_comment_depth : nat;
  dollar_quote_tag : option text;
  custom_delimiter : option text;
  single_quote_escape_string : bool;
  postgres_dollar_quoted_routine : bool;
  oracle_block : PlSql.Tracker;
  oracle_block_start : nat
}.

#[export] Instance set_ranges : Setter ranges := fun v s =>
  mkState v s.(start) s.(index) s.(in_single_quote) s.(in_double_quote) s.(in_backtick)
  s.(in_line_comment) s.(block_comment_depth) s.(dollar_quote_tag) s.(custom_delimiter)
  s.(single_quote_escape_string) s.(postgres_dollar_quoted_routine) s.(oracle_block)
  s.(oracle_block_start).
#[export] Instance set_start : Setter start := fun v s =>
  mkState s.(ranges) v s.(index) s.(in_single_quote) s.(in_double_quote) s.(in_backtick)
  s.(in_line_comment) s.(block_comment_depth) s.(dollar_quote_tag) s.(custom_delimiter)
  s.(single_quote_escape_string) s.(postgres_dollar_quoted_routine) s.(oracle_block)
  s.(oracle_block_start).
#[export] Instance set_index : Setter index := fun v s =>
  mkState s.(ranges) s.(start) v s.(in_single_quote) s.(in_double_quote) s.(in_backtick)
  s.(in_line_comment) s.(block_comment_depth) s.(dollar_quote_tag) s.(custom_delimiter)
  s.(single_quote_escape_string) s.(postgres_dollar_quoted_routine) s.(oracle_block)
  s.(oracle_block_start).
#[export] Instance set_in_single_quote : Setter in_single_quote := fun v s =>
  mkState s.(ranges) s.(start) s.(index) v s.(in_double_quote) s.(in_backtick) s.(in_line_comment)
  s.(block_comment_depth) s.(dollar_quote_tag) s.(custom_delimiter) s.(single_quote_escape_string)
  s.(postgres_dollar_quoted_routine) s.(oracle_block) s.(oracle_block_start).
#[export] Instance set_in_double_quote : Setter in_double_quote := fun v s =>
  mkState s.(ranges) s.(start) s.(index) s.(in_single_quote) v s.(in_backtick) s.(in_line_comment)
  s.(block_comment_depth) s.(dollar_quote_tag) s.(custom_delimiter) s.(single_quote_escape_string)
  s.(postgres_dollar_quoted_routine) s.(oracle_block) s.(oracle_block_start).
#[export] Instance set_in_backtick : Setter in_backtick := fun v s =>
  mkState s.(ranges) s.(start) s.(index) s.(in_single_quote) s.(in_double_quote) v
  s.(in_line_comment) s.(block_comment_depth) s.(dollar_quote_tag) s.(custom_delimiter)
  s.(single_quote_escape_string) s.(postgres_dollar_quoted_routine) s.(oracle_block)
  s.(oracle_block_start).
#[export] Instance set_in_line_comment : Setter in_line_comment := fun v s =>
  mkState s.(ranges) s.(start) s.(index) s.(in_single_quote) s.(in_double_quote) s.(in_backtick) v
  s.(block_comment_depth) s.(dollar_quote_tag) s.(custom_delimiter) s.(single_quote_escape_string)
  s.(postgres_dollar_quoted_routine) s.(oracle_block) s.(oracle_block_start).
#[export] Instance set_block_comment_depth : Setter block_comment_depth := fun v s =>
  mkState s.(ranges) s.(start) s.(index) s.(in_single_quote) s.(in_double_quote) s.(in_backtick)
  s.(in_line_comment) v s.(dollar_quote_tag) s.(custom_delimiter) s.(single_quote_escape_string)
  s.(postgres_dollar_quoted_routine) s.(oracle_block) s.(oracle_block_start).
#[export] Instance set_dollar_quote_tag : Setter dollar_quote_tag := fun v s =>
  mkState s.(ranges) s.(start) s.(index) s.(in_single_quote) s.(in_double_quote) s.(in_backtick)
  s.(in_line_comment) s.(block_comment_depth) v s.(custom_delimiter) s.(single_quote_escape_string)
  s.(postgres_dollar_quoted_routine) s.(oracle_block) s.(oracle_block_start).
#[export] Instance set_custom_delimiter : Setter custom_delimiter := fun v s =>
  mkState s.(ranges) s.(start) s.(index) s.(in_single_quote) s.(in_double_quote) s.(in_backtick)
  s.(in_line_comment) s.(block_comment_depth) s.(dollar_quote_tag) v s.(single_quote_escape_string)
  s.(postgres_dollar_quoted_routine) s.(oracle_block) s.(oracle_block_start).
#[export] Instance set_single_quote_escape_string : Setter single_quote_escape_string := fun v s =>
  mkState s.(ranges) s.(start) s.(index) s.(in_single_quote) s.(in_double_quote) s.(in_backtick)
  s.(in_line_comment) s.(block_comment_depth) s.(dollar_quote_tag) s.(custom_delimiter) v
  s.(postgres_dollar_quoted_routine) s.(oracle_block) s.(oracle_block_start).
#[export] Instance set_postgres_dollar_quoted_routine : Setter postgres_dollar_quoted_routine := fun v s =>
  mkState s.(ranges) s.(start) s.(index) s.(in_single_quote) s.(in_double_quote) s.(in_backtick)
  s.(in_line_comment) s.(block_comment_depth) s.(dollar_quote_tag) s.(custom_delimiter)
  s.(single_quote_escape_string) v s.(oracle_block) s.(oracle_block_start).
#[export] Instance set_oracle_block : Setter oracle_block := fun v s =>
  mkState s.(ranges) s.(start) s.(index) s.(in_single_quote) s.(in_double_quote) s.(in_backtick)
  s.(in_line_comment) s.(block_comment_depth) s.(dollar_quote_tag) s.(custom_delimiter)
  s.(single_quote_escape_string) s.(postgres_dollar_quoted_routine) v s.(oracle_block_start).
#[export] Instance set_oracle_block_start : Setter oracle_block_start := fun v s =>
  mkState s.(ranges) s.(start) s.(index) s.(in_single_quote) s.(in_double_quote) s.(in_backtick)
  s.(in_line_comment) s.(block_comment_depth) s.(dollar_quote_tag) s.(custom_delimiter)
  s.(single_quote_escape_string) s.(postgres_dollar_quoted_routine) s.(oracle_block) v.

Definition initial : State :=
  mkState [] 0 0 false false false false 0 None None false false PlSql.tracker_new 0.

Section Scan.
Context `{UnicodeTables, SqlTokenizer} (sql : text) (o : SqlParsingOptions).

Definition p : SqlDialectProfile := o.(profile).

Definition skip (s : State) (n : nat) : State := s <| index := s.(index) + n |>.

Definition in_quotes (s : State) : bool := s.(in_single_quote) || s.(in_double_quote) || s.(in_backtick).

(** [push_statement_range] on the state. *)
Definition push_range (s : State) (from to : nat) : option State :=
  rs ← push_statement_range s.(ranges) sql from to o;
  Some (s <| ranges := rs |>).

(** A new statement starts at the index. *)
Definition restart (s : State) : State := s <| start := s.(index) |> <| postgres_dollar_quoted_routine := false |>.

(** Inside comments and dollar-quoted strings: the whole round. *)
Definition round_hidden (s : State) (c : Z) (rest : text) : option State :=
  match s.(dollar_quote_tag) with
  | Some tag =>
    Some (if bool_decide (tag `prefix_of` c :: rest) then skip s (length tag) <| dollar_quote_tag := None |> else skip s 1)
  | None =>
    if s.(in_line_comment) then Some (skip s 1 <| in_line_comment := negb (c =? c_newline)%Z |>)
    else if (0 <? s.(block_comment_depth))%nat then
      Some (if (c =? c_star)%Z && opt_is (head rest) c_slash then skip s 2 <| block_comment_depth := s.(block_comment_depth) - 1 |>
            else if p.(supports_nested_block_comments) && (c =? c_slash)%Z && opt_is (head rest) c_star
            then skip s 2 <| block_comment_depth := S s.(block_comment_depth) |>
            else skip s 1)
    else None
  end.

(** A line that has just ended outside quotes: [/] or [DELIMITER x].  The outer
    option is a panic, the inner one whether the line was a command. *)
Definition line_command (s : State) : option (option State) :=
  let before := take s.(index) sql in
  let line_start := length (before_last_line before) in
  let line := trim_chars (last_line before) in
  if p.(supports_slash_line_block_delimiter) && bool_decide (line = [c_slash]) then
    s' ← push_range s s.(start) line_start;
    Some (Some (restart (skip s' 1)))
  else if p.(supports_custom_delimiter_commands) then
    match parse_delimiter_command line with
    | Some new_delimiter =>
      pending ← checked_slice s.(start) line_start sql;
      if has_executable_sql_with_options pending o then Some None
      else
        s' ← (if has_executable_sql_with_options (trim_chars pending) o then push_range s s.(start) line_start else Some s);
        let delimiter := if bool_decide (new_delimiter = [c_semicolon]) then None else Some new_delimiter in
        Some (Some (restart (skip s' 1 <| custom_delimiter := delimiter |>)))
    | None => Some None
    end
  else Some None.

(** What opens or ends a context outside quotes; the inner option is whether
    something did. *)
Definition round_opener (s : State) (c : Z) (rest : text) : option (option State) :=
  let next := head rest in
  match (if p.(supports_oracle_q_quotes) && (c =? c_quote)%Z && ends_with_oracle_q_quote_prefix (take s.(index) sql)
         then oracle_q_quote_end sql s.(index) else None) with
  | Some literal_end => Some (Some (s <| index := literal_end |>))
  | None =>
    if (c =? c_dash)%Z && opt_is next c_dash && dash_dash_starts_line_comment p (head (tail rest))
    then Some (Some (skip s 2 <| in_line_comment := true |>))
    else if p.(supports_hash_line_comments) && (c =? c_hash)%Z then Some (Some (skip s 1 <| in_line_comment := true |>))
    else if (c =? c_slash)%Z && opt_is next c_star then Some (Some (skip s 2 <| block_comment_depth := 1 |>))
    else match (if p.(supports_dollar_quoted_strings) then dollar_quote_tag_at_str (c :: rest) else None) with
    | Some tag =>
      if bool_decide (s.(custom_delimiter) = None) && negb (is_on_delimiter_line sql s.(start) s.(index) o) then
        let routine := p.(supports_postgres_dollar_quoted_routines)
                       && PlSql.starts_with_postgres_dollar_quoted_routine_prefix (slice s.(start) s.(index) sql) in
        Some (Some (skip s (length tag) <| dollar_quote_tag := Some tag |>
                      <| postgres_dollar_quoted_routine := s.(postgres_dollar_quoted_routine) || routine |>))
      else if (c =? c_newline)%Z then line_command s else Some None
    | None => if (c =? c_newline)%Z then line_command s else Some None
    end
  end.

(** The pieces of a control-flow batch between its boundaries. *)
Fixpoint push_pieces (s : State) (piece_from : nat) (boundaries : list nat) : option (State * nat) :=
  match boundaries with
  | [] => Some (s, piece_from)
  | boundary_end :: boundaries' =>
    s' ← push_range s (s.(start) + piece_from) (s.(start) + boundary_end);
    push_pieces s' boundary_end boundaries'
  end.

(** The [;] that completes a control-flow batch: the state, and whether the
    statement ends here. *)
Definition sqlserver_semicolon (s : State) : option (State * bool) :=
  let body := slice s.(start) s.(index) sql in
  match SqlServer.sqlserver_boundaries (S (length body)) 0 body with
  | [] => s' ← push_range s s.(start) (S s.(index)); Some (s', true)
  | boundaries =>
    '(s', piece_from) ← push_pieces s 0 boundaries;
    let trailing := drop piece_from body in
    if bool_decide (trim_chars trailing = []) then Some (s', true)
    else if SqlServer.keeps_sqlserver_control_flow_batch o trailing then
      if SqlServer.sqlserver_control_flow_batch_is_complete trailing
      then s2 ← push_range s' (s.(start) + piece_from) (S s.(index)); Some (s2, true)
      else Some (s' <| start := s.(start) + piece_from |>, false)
    else s2 ← push_range s' (s.(start) + piece_from) s.(index); Some (s2, true)
  end.

(** The [;] of a statement: [s] is at the semicolon. *)
Definition semicolon (s : State) : option (State * bool) :=
  let head := slice s.(start) s.(index) sql in
  let whole := slice s.(start) (S s.(index)) sql in
  let ends (complete : bool) (s : State) :=
    if complete then s' ← push_range s s.(start) (S s.(index)); Some (s', true) else Some (s, false) in
  if p.(supports_mysql_routine_blocks) && MysqlRoutine.starts_with_mysql_routine_block head then
    if MysqlRoutine.mysql_routine_block_is_complete whole then s' ← push_range s s.(start) s.(index); Some (s', true)
    else Some (s, false)
  else
    let s := if (s.(oracle_block_start) =? s.(start))%nat then s
             else s <| oracle_block := PlSql.tracker_new |> <| oracle_block_start := s.(start) |> in
    let '(keeps, tracker) :=
      if s.(postgres_dollar_quoted_routine) then (false, s.(oracle_block))
      else PlSql.tracker_keeps_block_together o s.(oracle_block) head in
    let s := s <| oracle_block := tracker |> in
    if keeps then
      let '(complete, tracker) := PlSql.tracker_is_complete s.(oracle_block) whole in
      ends complete (s <| oracle_block := tracker |>)
    else if p.(supports_hana_script_blocks) && starts_with_hana_script_block head
    then ends (hana_script_block_is_complete whole) s
    else if p.(supports_firebird_routine_blocks) && starts_with_firebird_routine_block head
    then ends (firebird_routine_block_is_complete whole) s
    else if SqlServer.keeps_sqlserver_control_flow_batch o head then
      if SqlServer.sqlserver_control_flow_batch_is_complete whole then sqlserver_semicolon s else Some (s, false)
    else s' ← push_range s s.(start) s.(index); Some (s', true).

(** The [match ch] of the loop. *)
Definition round_main (s : State) (c : Z) : option State :=
  let before := slice s.(start) s.(index) sql in
  let escapes := if s.(in_single_quote) then s.(single_quote_escape_string) else p.(supports_backslash_escaped_quotes) in
  if (c =? c_quote)%Z
     && negb (s.(in_double_quote) || s.(in_backtick) || (escapes && has_odd_trailing_backslashes before)) then
    let opens := negb s.(in_single_quote) in
    Some (skip s 1 <| in_single_quote := opens |>
            <| single_quote_escape_string :=
                 opens && (p.(supports_backslash_escaped_quotes)
                           || (p.(supports_postgres_escape_strings) && ends_with_escape_string_prefix before)) |>)
  else if (c =? c_dquote)%Z
     && negb (s.(in_single_quote) || s.(in_backtick)
              || (p.(supports_backslash_escaped_quotes) && has_odd_trailing_backslashes before)) then
    Some (skip s 1 <| in_double_quote := negb s.(in_double_quote) |>)
  else if (c =? c_backtick)%Z && p.(supports_backtick_identifiers)
          && negb s.(in_single_quote) && negb s.(in_double_quote) then
    Some (skip s 1 <| in_backtick := negb s.(in_backtick) |>)
  else if (c =? c_semicolon)%Z
     && negb (in_quotes s || bool_decide (is_Some s.(custom_delimiter))
              || (p.(supports_custom_delimiter_commands) && is_on_delimiter_line sql s.(start) s.(index) o)) then
    '(s', ended) ← semicolon s;
    Some (if (ended : bool) then restart (skip s' 1) else skip s' 1)
  else
    let s := skip s 1 in
    match s.(custom_delimiter) with
    | Some delimiter =>
      if negb (in_quotes s) && bool_decide (delimiter `suffix_of` slice s.(start) s.(index) sql)
         && negb (is_on_delimiter_line sql s.(start) s.(index) o) then
        s' ← push_range s s.(start) (s.(index) - length delimiter);
        Some (restart s')
      else Some s
    | None => Some s
    end.

(** One round at the index. *)
Definition round (s : State) : option State :=
  match drop s.(index) sql with
  | [] => Some s
  | c :: rest =>
    match round_hidden s c rest with
    | Some s' => Some s'
    | None =>
      opened ← (if in_quotes s then Some None else round_opener s c rest);
      match opened with
      | Some s' => Some s'
      | None => round_main s c
      end
    end
  end.

(** Every round moves the index forward, so the length of the text is enough fuel. *)
Fixpoint scan (fuel : nat) (s : State) : option State :=
  match fuel with
  | 0 => Some s
  | S fuel' => if (length sql <=? s.(index))%nat then Some s else s' ← round s; scan fuel' s'
  end.

(** What follows the last statement. *)
Definition finish (s : State) : option (list SqlStatementRange) :=
  let rest := drop s.(start) sql in
  let trimmed := trim_chars rest in
  let line := trim_chars (last_line trimmed) in
  let before := trim_chars (removelast (before_last_line trimmed)) in
  let is_delimiter_line :=
    p.(supports_custom_delimiter_commands) && bool_decide (is_Some (parse_delimiter_command line))
    && negb (has_executable_sql_with_options before o) in
  if is_delimiter_line || (p.(supports_slash_line_block_delimiter) && bool_decide (line = [c_slash])) then
    if bool_decide (c_newline ∈ rest)
    then push_statement_range s.(ranges) sql s.(start) (s.(start) + length (before_last_line rest)) o
    else Some s.(ranges)
  else push_statement_range s.(ranges) sql s.(start) (length sql) o.

Definition split_sql_statement_ranges_with_options : option (list SqlStatementRange) :=
  s ← scan (length sql) initial; finish s.

End Scan.

End Ranges.

Import Ranges (split_sql_statement_ranges_with_options).

(** ** Batches of SQL Server *)

(** The [GO] line that separates two batches. *)
Definition is_batch_separator (p : SqlDialectProfile) (scanner : Scanner.SqlScanner) (line : text) : bool :=
  let trimmed := trim_chars line in
  p.(supports_go_batch_separator) && negb (Scanner.is_masked scanner)
  && (eq_ignore_ascii_case trimmed (txt "go")
      || (bool_decide (txt "go " `prefix_of` map to_ascii_lowercase trimmed)
          && bool_decide (trim_chars (drop 2 trimmed) = []))).

(** [push_batch_range]: as [push_statement_range], with the default options. *)
Definition push_batch_range (ranges : list SqlStatementRange) (sql : text) (start stop : nat)
    : option (list SqlStatementRange) := push_statement_range ranges sql start stop Options.default.

Section Batches.
Context `{UnicodeTables, SqlTokenizer}.

(** The loop over the lines; [offset] is where the line starts. *)
Fixpoint batch_lines (sql : text) (p : SqlDialectProfile) (scanner : Scanner.SqlScanner) (current_start offset : nat)
    (batches : list SqlStatementRange) (lines : list text) : option (list SqlStatementRange) :=
  match lines with
  | [] => push_batch_range batches sql current_start (length sql)
  | line :: lines' =>
    let line_end := offset + length line in
    let '(batches', current_start', scanner') :=
      if is_batch_separator p scanner line then
        (push_batch_range batches sql current_start offset,
         (let start := Nat.min line_end (length sql) in
          if (start <? length sql)%nat && at_is sql start c_newline then S start else start),
         scanner)
      else (Some batches, current_start, Scanner.steps scanner (take offset sql) line (drop line_end sql)) in
    let scanner'' :=
      if (line_end <? length sql)%nat
      then Scanner.step scanner' (take line_end sql) c_newline (drop (S line_end) sql) else scanner' in
    batches' ← batches';
    batch_lines sql p scanner'' current_start' (S line_end) batches' lines'
  end.

Definition split_sql_batch_ranges (sql : text) (p : SqlDialectProfile) : option (list SqlStatementRange) :=
  batch_lines sql p (Scanner.with_profile p) 0 0 [] (split_on c_newline sql).

Definition split_sql_batches (sql : text) : option (list text) :=
  ranges ← split_sql_batch_ranges sql Profile.sql_server;
  Some (match ranges with
        | [] => let trimmed := trim_chars sql in if bool_decide (trimmed = []) then [] else [trimmed]
        | _ => map range_text ranges
        end).

(** ** The statement at the cursor *)

(** Cursor positions come as UTF-16 offsets: the index of the character there. *)
Fixpoint utf16_offset_from (utf16_seen index offset : nat) (s : text) : nat :=
  match s with
  | [] => index
  | c :: rest =>
    if (offset <=? utf16_seen)%nat then index
    else
      let seen := utf16_seen + len_utf16 c in
      if (offset <? seen)%nat then S index else utf16_offset_from seen (S index) offset rest
  end.
Definition utf16_offset_to_byte_index (sql : text) (offset : nat) : nat := utf16_offset_from 0 0 offset sql.

Definition cursor_has_sql_after_cursor_on_line (sql : text) (cursor : nat) : bool :=
  existsb (fun c => negb (is_whitespace c)) (span (fun c => negb (c =? c_newline)%Z) (drop cursor sql)).1.

(** The range for the cursor: the one it is in, or the one before it when only
    blanks follow on its line.  [previous] is the range before [ranges]. *)
Fixpoint range_at_cursor (sql : text) (cursor : nat) (previous : option SqlStatementRange)
    (ranges : list SqlStatementRange) : option SqlStatementRange :=
  match ranges with
  | [] => previous
  | r :: ranges' =>
    if (r.(range_start) <? cursor)%nat && (cursor <? r.(range_end))%nat then Some r
    else if (cursor =? r.(range_start))%nat then
      if cursor_has_sql_after_cursor_on_line sql cursor then Some r else Some (default r previous)
    else if (cursor <? r.(range_start))%nat then Some (default r previous)
    else range_at_cursor sql cursor (Some r) ranges'
  end.

Definition find_statement_text_in_ranges (sql : text) (ranges : list SqlStatementRange) (cursor : nat) : option text :=
  range_text <$> range_at_cursor sql cursor None ranges.

Definition executable_sql_keyword_matches (token : text) (keyword : string) : bool :=
  eq_ignore_ascii_case token (txt keyword)
  || (eq_ignore_ascii_case (txt keyword) (txt "DESCRIBE") && eq_ignore_ascii_case token (txt "DESC")).

Definition starts_with_executable_sql_keyword_with_options (sql : text) (keywords : list string) (o : SqlParsingOptions) : bool :=
  match first_executable_sql_token_with_options sql o with
  | Some token => existsb (executable_sql_keyword_matches token) keywords
  | None => false
  end.

Definition starts_with_executable_sql_keyword (sql : text) (keywords : list string) : bool :=
  starts_with_executable_sql_keyword_with_options sql keywords Options.default.

Definition starts_with_executable_sql_keyword_for_database (sql : text) (keywords : list string) (d : DatabaseType.t) : bool :=
  starts_with_executable_sql_keyword_with_options sql keywords (Options.for_database_type d).

(** The words the text starts with, one by one; [sql] is the text from the offset
    on. *)
Fixpoint keyword_sequence (sql : text) (keywords : list string) : bool :=
  match keywords with
  | [] => true
  | keyword :: keywords' =>
    match next_executable_sql_token_with_options sql Options.default with
    | Some (token, next) => executable_sql_keyword_matches token keyword && keyword_sequence next keywords'
    | None => false
    end
  end.
Definition starts_with_executable_sql_keyword_sequence (sql : text) (keywords : list string) : bool :=
  match keywords with [] => false | _ => keyword_sequence sql keywords end.

Definition starts_with_duckdb_result_sql_keyword (sql : text) : bool :=
  starts_with_executable_sql_keyword sql
    ["SELECT"; "SHOW"; "DESCRIBE"; "EXPLAIN"; "WITH"; "PRAGMA"; "FROM"; "SUMMARIZE"; "SUMMARISE"; "PIVOT"; "UNPIVOT"]%string.

Definition starts_with_soft_statement_keyword (sql : text) (o : SqlParsingOptions) : bool :=
  (o.(profile).(supports_hana_script_blocks) && starts_with_executable_sql_keyword_with_options sql ["DO"]%string o)
  || (o.(profile).(supports_firebird_routine_blocks) && starts_with_executable_sql_keyword_with_options sql ["RECREATE"]%string o)
  || starts_with_executable_sql_keyword_with_options sql
       ["CREATE"; "ALTER"; "DROP"; "INSERT"; "UPDATE"; "DELETE"; "MERGE"; "REPLACE"; "TRUNCATE"; "GRANT"; "REVOKE";
        "COMMENT"; "EXPLAIN"; "SHOW"; "DESCRIBE"; "USE"; "SET"; "CALL"; "EXEC"; "EXECUTE"; "BEGIN"; "COMMIT";
        "ROLLBACK"; "DECLARE"; "ANALYZE"; "VACUUM"; "PRAGMA"; "REFRESH"; "COPY"]%string o.

(** The loop of [split_statement_range_at_blank_lines] from position [idx] on;
    [n] characters of the statement are left. *)
Fixpoint blank_line_loop (sql : text) (statement_end : nat) (o : SqlParsingOptions) (n : nat) (idx : nat)
    (scanner : Scanner.SqlScanner) (current_start line_start : nat) (line_has_non_whitespace : bool) (blank_line_run : nat)
    (ranges : list SqlStatementRange) : option (list SqlStatementRange * nat) :=
  match n with
  | 0 => Some (ranges, current_start)
  | S n' =>
    match sql !! idx with
    | None => Some (ranges, current_start)
    | Some c =>
      let scanner' := Scanner.step scanner (take idx sql) c (drop (S idx) sql) in
      if (c =? c_newline)%Z then
        let run := if negb line_has_non_whitespace && negb (Scanner.is_masked scanner) then S blank_line_run else 0 in
        blank_line_loop sql statement_end o n' (S idx) scanner' current_start (S idx) false run ranges
      else if negb line_has_non_whitespace && negb (is_whitespace c) then
        if (2 <=? blank_line_run)%nat && negb (Scanner.is_masked scanner)
           && has_executable_sql_with_options (slice current_start line_start sql) o
           && starts_with_soft_statement_keyword (slice line_start statement_end sql) o then
          ranges' ← push_statement_range ranges sql current_start line_start o;
          blank_line_loop sql statement_end o n' (S idx) scanner' line_start line_start true 0 ranges'
        else blank_line_loop sql statement_end o n' (S idx) scanner' current_start line_start true 0 ranges
      else blank_line_loop sql statement_end o n' (S idx) scanner' current_start line_start line_has_non_whitespace blank_line_run ranges
    end
  end.

Definition split_statement_range_at_blank_lines (sql : text) (statement : SqlStatementRange) (o : SqlParsingOptions)
    : option (list SqlStatementRange) :=
  if PlSql.keeps_oracle_style_block_together o statement.(range_text) then Some [statement]
  else if o.(profile).(supports_hana_script_blocks) && starts_with_hana_script_block statement.(range_text)
  then Some [statement]
  else if o.(profile).(supports_firebird_routine_blocks) && starts_with_firebird_routine_block statement.(range_text)
  then Some [statement]
  else
    '(ranges, current_start) ←
      blank_line_loop sql statement.(range_end) o (statement.(range_end) - statement.(range_start)) statement.(range_start)
        (Scanner.with_profile o.(profile)) statement.(range_start) statement.(range_start) false 0 [];
    ranges ← push_statement_range ranges sql current_start statement.(range_end) o;
    Some (match ranges with [] => [statement] | _ => ranges end).

Definition statement_ranges_for_database (sql : text) (d : DatabaseType.t) : option (list SqlStatementRange) :=
  split_sql_statement_ranges_with_options sql (Options.for_database_type d).

Definition statement_text_at_cursor (sql : text) (statement : SqlStatementRange) (cursor : nat) (o : SqlParsingOptions)
    : option text :=
  soft_ranges ← split_statement_range_at_blank_lines sql statement o;
  Some (default statement.(range_text) (find_statement_text_in_ranges sql soft_ranges cursor)).

Definition find_statement_at_cursor_with_options (sql : text) (cursor_pos : nat) (o : SqlParsingOptions) : option text :=
  statements ← split_sql_statement_ranges_with_options sql o;
  let cursor := utf16_offset_to_byte_index sql cursor_pos in
  match range_at_cursor sql cursor None statements with
  | Some statement => statement_text_at_cursor sql statement cursor o
  | None => Some (trim_chars sql)
  end.

Definition find_statement_at_cursor (sql : text) (cursor_pos : nat) : option text :=
  find_statement_at_cursor_with_options sql cursor_pos Options.default.

(** The batch for the cursor, and whether the cursor lies after it ([None] as the
    cursor of [sqlserver_control_flow_statement_at]). *)
Definition statement_in_batch (batch : SqlStatementRange) (control_cursor : option nat) (relative_cursor : nat) : option text :=
  if Profile.sql_server.(keeps_sqlserver_module_batch_at_cursor)
     && SqlServer.starts_with_sqlserver_module_ddl batch.(range_text) then Some batch.(range_text)
  else match SqlServer.sqlserver_control_flow_statement_at batch.(range_text) control_cursor with
  | Some statement => Some statement
  | None => find_statement_at_cursor_with_options batch.(range_text) relative_cursor Options.default
  end.

Fixpoint statement_in_batches (sql : text) (cursor : nat) (previous : option SqlStatementRange)
    (batches : list SqlStatementRange) : option text :=
  match batches with
  | [] => Some (match previous with Some batch => batch.(range_text) | None => trim_chars sql end)
  | batch :: batches' =>
    if (batch.(range_start) <=? cursor)%nat && (cursor <=? batch.(range_end))%nat then
      statement_in_batch batch (Some (cursor - batch.(range_start)))
        (utf16_len (take cursor sql) - utf16_len (take batch.(range_start) sql))
    else if (cursor <? batch.(range_start))%nat then
      match previous with
      | Some prev => statement_in_batch prev None (utf16_len prev.(range_text))
      | None => Some batch.(range_text)
      end
    else statement_in_batches sql cursor (Some batch) batches'
  end.

Definition find_sqlserver_statement_at_cursor (sql : text) (cursor_pos : nat) : option text :=
  batches ← split_sql_batch_ranges sql Profile.sql_server;
  statement_in_batches sql (utf16_offset_to_byte_index sql cursor_pos) None batches.

Definition find_statement_at_cursor_for_database (sql : text) (cursor_pos : nat) (d : DatabaseType.t) : option text :=
  if bool_decide (d = DatabaseType.SqlServer) then find_sqlserver_statement_at_cursor sql cursor_pos
  else
    let o := Options.for_database_type d in
    if o.(profile).(supports_psql_control_commands) then
      find_statement_at_cursor_with_options (preprocess_psql_control_commands sql o.(profile)).1 cursor_pos
        (mkOptions (o.(profile) <| supports_psql_control_commands := false |>))
    else find_statement_at_cursor_with_options sql cursor_pos o.

End Batches.
