(* ===== verification/SqlRangesSpec.v ===== *)
(** * Properties of the statement ranges

    Theorems about the range scanner of SqlRanges.v for every dialect and every
    text: the ranges it returns are increasing, disjoint, nonempty slices of the
    text; the statement it finds for a cursor is the one the cursor is in. *)

From S2P Require Import Prelude Utf8 SqlDialect SqlLex SqlBlocks SqlScanner SqlRanges.

(** ** Increasing ranges *)

(** The ranges are nonempty slices of the text, one after the other, between two
    positions. *)
Fixpoint chain (sql : text) (lo : nat) (rs : list SqlStatementRange) (hi : nat) : Prop :=
  match rs with
  | [] => lo <= hi
  | r :: rs' =>
    lo <= r.(range_start) /\ r.(range_start) < r.(range_end) /\
    r.(range_text) = slice r.(range_start) r.(range_end) sql /\ chain sql r.(range_end) rs' hi
  end.

Lemma chain_le sql lo rs hi : chain sql lo rs hi -> lo <= hi.
Proof. revert lo. induction rs as [|r rs IH]; intros lo; simpl; [done|]. intros (? & ? & _ & ?%IH). lia. Qed.

Lemma chain_weaken sql lo rs hi hi' : chain sql lo rs hi -> hi <= hi' -> chain sql lo rs hi'.
Proof. revert lo. induction rs as [|r rs IH]; intros lo; simpl; [lia|]. intros (? & ? & ? & ?) ?. eauto. Qed.

Lemma chain_snoc sql lo rs mid r hi :
  chain sql lo rs mid -> mid <= r.(range_start) -> r.(range_start) < r.(range_end) -> r.(range_end) <= hi ->
  r.(range_text) = slice r.(range_start) r.(range_end) sql -> chain sql lo (rs ++ [r]) hi.
Proof.
  revert lo. induction rs as [|r' rs IH]; intros lo; simpl; [intros; split_and!; try done; lia|].
  intros (? & ? & ? & ?) ????. split_and!; eauto.
Qed.

Lemma chain_elem sql lo rs hi r : chain sql lo rs hi -> r ∈ rs ->
  lo <= r.(range_start) /\ r.(range_start) < r.(range_end) /\ r.(range_end) <= hi /\
  r.(range_text) = slice r.(range_start) r.(range_end) sql.
Proof.
  revert lo. induction rs as [|r' rs IH]; intros lo; [by intros _ ?%elem_of_nil|]. simpl.
  intros (? & ? & ? & Hc) [->|Hr]%elem_of_cons; [apply chain_le in Hc; split_and!; done|].
  destruct (IH _ Hc Hr) as (? & ? & ? & ?). split_and!; try done; lia.
Qed.

(** ** The bounds of a statement in its piece *)

Lemma leading_executable_length fuel p s : length (leading_executable_fuel fuel p s) <= length s.
Proof.
  revert s. induction fuel as [|fuel IH]; intros s; simpl; [done|].
  pose proof (span_length is_ascii_whitespace s) as Hs. destruct (span is_ascii_whitespace s).2 as [|a tl]; simpl in *; [lia|].
  assert (Ht : length (tail tl) <= length tl) by (destruct tl; simpl; lia).
  assert (Hl : forall t, length (skip_line t) <= length t) by (intros t; apply span_length).
  repeat case_match; simpl; try lia; (etrans; [apply IH|]); rewrite ?length_drop; pose proof (Hl (tail tl)); pose proof (Hl tl); lia.
Qed.

Lemma leading_executable_suffix s o : length (leading_executable_sql_with_options s o) <= length s.
Proof. apply leading_executable_length. Qed.

Lemma trim_chars_start_length s : length (trim_chars_start s) <= length s.
Proof. destruct (trim_chars_start_suffix s) as (ws & E & _). rewrite E at 2. rewrite length_app. lia. Qed.

Lemma trim_chars_end_length s : length (trim_chars_end s) <= length s.
Proof. destruct (trim_chars_end_prefix s) as (ws & E & _). rewrite E at 2. rewrite length_app. lia. Qed.

Lemma directive_start_bound statement n k : leading_directive_start statement n = Some k -> k <= n.
Proof.
  unfold leading_directive_start. set (prefix := take n statement). assert (Hp : length prefix <= n) by (unfold prefix; rewrite length_take; lia).
  set (line := reverse _). assert (Hl : length line <= length prefix).
  { unfold line. rewrite length_reverse, <- (length_reverse prefix).
    rewrite <- (span_app (fun c => negb ((c =? 13) || (c =? 10))%Z) (reverse prefix)) at 2. rewrite length_app. lia. }
  pose proof (trim_chars_end_length prefix). repeat case_match; intros [= <-]; lia.
Qed.

Lemma executable_bounds statement o a b : executable_sql_bounds statement o = Some (a, b) -> a <= b /\ b <= length statement.
Proof.
  unfold executable_sql_bounds. pose proof (leading_executable_suffix (trim_chars_end statement) o) as Hs.
  pose proof (trim_chars_end_length statement). case_bool_decide as E; [done|]. intros [= <- <-]. split; [|done].
  assert (0 < length (leading_executable_sql_with_options (trim_chars_end statement) o)) by (destruct (leading_executable_sql_with_options _ _); simpl; [done|lia]).
  case_match; [|lia]. destruct (leading_directive_start _ _) as [k|] eqn:Ek; simpl; [|lia].
  apply directive_start_bound in Ek. lia.
Qed.

Lemma push_statement_range_ok rs sql from to o rs' lo :
  push_statement_range rs sql from to o = Some rs' -> chain sql lo rs from -> to <= length sql -> chain sql lo rs' to.
Proof.
  unfold push_statement_range, checked_slice. intros Hp Hc Hto. destruct (Nat.leb_spec from to); [|done]. simpl in Hp.
  destruct (executable_sql_bounds _ o) as [[a b]|] eqn:Eb; simplify_eq/=; [|by eapply chain_weaken].
  apply executable_bounds in Eb as [Hab Hb]. rewrite slice_length in Hb by lia.
  case_bool_decide as E; simplify_eq/=; [eapply chain_weaken; [done|lia]|].
  eapply chain_snoc; simpl; [done|lia| |lia|done].
  destruct (decide (a = b)) as [->|]; [|lia]. destruct E. unfold slice. by rewrite Nat.sub_diag.
Qed.

Lemma before_last_line_length s : length (before_last_line s) <= length s.
Proof. unfold before_last_line. rewrite length_reverse. rewrite <- (length_reverse s). apply span_length. Qed.

Lemma boundaries_bounded fuel cursor body : Forall (fun b => b < length body) (SqlServer.sqlserver_boundaries fuel cursor body).
Proof.
  revert cursor. induction fuel as [|fuel IH]; intros cursor; simpl; [constructor|]. case_match; [|constructor].
  destruct (Nat.leb_spec (length body) (cursor + n)); constructor; [lia|apply IH].
Qed.

(** ** The scanner *)

Module RangesSpec.
Import Ranges.

Section Spec.
Context `{UnicodeTables, SqlTokenizer} (sql : text) (o : SqlParsingOptions).

Definition done_to (s : State) (k : nat) : Prop := chain sql 0 s.(ranges) k.

Definition tag_ok (tag : option text) : Prop := from_option (fun tag => tag <> []) True tag.

Definition ok (s : State) : Prop :=
  done_to s s.(start) /\ s.(start) <= s.(index) /\ s.(index) <= length sql /\ tag_ok s.(dollar_quote_tag).

(** What a round may do: go forward, with the invariant. *)
Definition advances (s s' : State) : Prop := ok s' /\ s.(index) < s'.(index).

Lemma push_range_ok s from to s' : push_range sql o s from to = Some s' -> done_to s from -> to <= length sql ->
  exists rs, s' = s <| ranges := rs |> /\ chain sql 0 rs to.
Proof.
  unfold push_range. intros Hp Hd Hto. destruct (push_statement_range _ _ _ _ _) as [rs|] eqn:E; simplify_eq/=.
  exists rs. split; [done|]. eapply push_statement_range_ok; eauto.
Qed.

(** A state that only goes forward. *)
Lemma advances_intro n s s' :
  ok s -> s'.(ranges) = s.(ranges) -> s'.(start) = s.(start) -> tag_ok s'.(dollar_quote_tag) ->
  s'.(index) = s.(index) + n -> 0 < n -> s.(index) + n <= length sql -> advances s s'.
Proof. unfold advances, ok, done_to. intros (Hd & ? & ? & ?) -> -> ? -> ??. split_and!; try done; lia. Qed.

Lemma restart_advances s0 s k : done_to s k -> k <= s.(index) -> s0.(index) < s.(index) -> s.(index) <= length sql ->
  tag_ok s.(dollar_quote_tag) -> advances s0 (restart s).
Proof. intros Hd ????. split; [|done]. split_and!; try done. simpl. eapply chain_weaken; [exact Hd|done]. Qed.

Lemma drop_room s c rest : drop s.(index) sql = c :: rest -> s.(index) + S (length rest) = length sql.
Proof. intros E. pose proof (length_drop sql s.(index)) as Hl. rewrite E in Hl. simpl in Hl. lia. Qed.

Lemma opt_head_room c (rest : text) : opt_is (head rest) c = true -> 1 <= length rest.
Proof. destruct rest; simpl; [done|lia]. Qed.

Lemma prefix_room (tag : text) c rest : tag `prefix_of` c :: rest -> length tag <= S (length rest).
Proof. intros [k Hk]. apply (f_equal length) in Hk. rewrite length_app in Hk. simpl in Hk. lia. Qed.

Lemma tag_length tag : tag_ok (Some tag) -> 0 < length tag.
Proof. destruct tag; simpl; [done|lia]. Qed.

Lemma round_hidden_ok s c rest s' :
  ok s -> drop s.(index) sql = c :: rest -> round_hidden o s c rest = Some s' -> advances s s'.
Proof.
  intros Hok Hdrop Hr. pose proof (drop_room _ _ _ Hdrop) as Hroom. pose proof Hok as (_ & _ & _ & Htag).
  unfold round_hidden in Hr. destruct (dollar_quote_tag s) as [tag|] eqn:Et; simplify_eq/=.
  - case_bool_decide as Hp; [|by apply (advances_intro 1); simpl; rewrite ?Et; try lia].
    apply prefix_room in Hp. apply tag_length in Htag. by apply (advances_intro (length tag)); simpl; try lia.
  - destruct (in_line_comment s); simplify_eq/=; [by apply (advances_intro 1); simpl; rewrite ?Et; try lia|].
    destruct (0 <? block_comment_depth s)%nat; simplify_eq/=.
    case_match eqn:E1; [apply andb_true_iff in E1 as [_ ?%opt_head_room]; by apply (advances_intro 2); simpl; rewrite ?Et; try lia|].
    case_match eqn:E2; [apply andb_true_iff in E2 as [_ ?%opt_head_room]; by apply (advances_intro 2); simpl; rewrite ?Et; try lia|].
    by apply (advances_intro 1); simpl; rewrite ?Et; try lia.
Qed.

Lemma line_command_ok s r : ok s -> s.(index) < length sql -> line_command sql o s = Some (Some r) -> advances s r.
Proof.
  intros (Hd & Hs & Hi & Ht) Hlt. unfold line_command. set (line_start := length (before_last_line _)).
  assert (Hl : line_start <= s.(index)).
  { unfold line_start. etrans; [apply before_last_line_length|]. rewrite length_take. lia. }
  assert (Hpush : forall s' f, push_range sql o s s.(start) line_start = Some s' ->
    (forall x, (f x).(ranges) = x.(ranges) /\ (f x).(index) = S x.(index) /\ (f x).(dollar_quote_tag) = x.(dollar_quote_tag)) ->
    advances s (restart (f s'))).
  { intros s' f Hp Hf. apply push_range_ok in Hp as (rs & -> & Hc); [|done|lia].
    destruct (Hf (s <| ranges := rs |>)) as (Er & Ei & Et). simpl in Ei.
    apply (restart_advances _ _ line_start); rewrite ?Ei, ?Et; simpl; try lia; try done. unfold done_to. by rewrite Er. }
  destruct (_ && bool_decide _).
  { destruct (push_range _ _ _ _ _) as [s'|] eqn:Ep; [|done]. simpl. intros [= <-].
    apply (Hpush s' (fun x => skip x 1)); [done|]. intros x. simpl. split_and!; try done; lia. }
  destruct (supports_custom_delimiter_commands _); [|done]. destruct (parse_delimiter_command _) as [delimiter|]; [|done].
  destruct (checked_slice _ _ _) as [pending|]; [|done]. simpl. destruct (has_executable_sql_with_options pending o); [done|].
  set (setting := fun x : State => skip x 1 <| custom_delimiter := if bool_decide (delimiter = [c_semicolon]) then None else Some delimiter |>).
  assert (Hset : forall x, (setting x).(ranges) = x.(ranges) /\ (setting x).(index) = S x.(index) /\
    (setting x).(dollar_quote_tag) = x.(dollar_quote_tag)) by (intros x; simpl; split_and!; try done; lia).
  destruct (has_executable_sql_with_options (trim_chars pending) o).
  - destruct (push_range _ _ _ _ _) as [s'|] eqn:Ep; [|done]. simpl. intros [= <-]. by apply (Hpush s' setting).
  - simpl. intros [= <-]. apply (restart_advances _ _ s.(start)); simpl; try done; lia.
Qed.

Lemma q_quote_end_ok quote_index k : oracle_q_quote_end sql quote_index = Some k -> quote_index < k <= length sql.
Proof.
  unfold oracle_q_quote_end. destruct (sql !! S quote_index); [|done]. simpl. destruct (oracle_q_quote_closer _); [|done]. simpl.
  destruct (find_sub _ _) as [n|] eqn:E; [|done]. simpl. intros [= <-]. apply find_sub_bound in E. rewrite length_drop in E. simpl in E. lia.
Qed.

Lemma dollar_tag_str_ok c rest tag : dollar_quote_tag_at_str (c :: rest) = Some tag -> tag_ok (Some tag) /\ length tag <= S (length rest).
Proof.
  unfold dollar_quote_tag_at_str. case_match; [done|]. destruct (span _ rest) as [name after] eqn:E.
  pose proof (span_app (fun c => negb (c =? c_dollar)%Z) rest) as Ha. rewrite E in Ha. simpl in Ha. subst rest.
  destruct after; [done|]. case_match; [|done]. intros [= <-]. split; [done|]. simpl. rewrite !length_app. simpl. lia.
Qed.

Lemma round_opener_ok s c rest r :
  ok s -> drop s.(index) sql = c :: rest -> round_opener sql o s c rest = Some (Some r) -> advances s r.
Proof.
  intros Hok Hdrop. pose proof (drop_room _ _ _ Hdrop) as Hroom. pose proof Hok as (_ & _ & _ & Htag). unfold round_opener.
  destruct (if _ && _ && _ then oracle_q_quote_end sql s.(index) else None) as [k|] eqn:Eq.
  { intros [= <-]. case_match; [|done]. apply q_quote_end_ok in Eq. apply (advances_intro (k - s.(index))); simpl; try done; lia. }
  destruct (_ && opt_is (head rest) c_dash && _) eqn:E1.
  { intros [= <-]. apply andb_true_iff in E1 as [[_ ?%opt_head_room]%andb_true_iff _]. by apply (advances_intro 2); simpl; try lia. }
  destruct (_ && (c =? c_hash)%Z); [intros [= <-]; by apply (advances_intro 1); simpl; try lia|].
  destruct (_ && opt_is (head rest) c_star) eqn:E2.
  { intros [= <-]. apply andb_true_iff in E2 as [_ ?%opt_head_room]. by apply (advances_intro 2); simpl; try lia. }
  assert (Hline : (if (c =? c_newline)%Z then line_command sql o s else Some None) = Some (Some r) -> advances s r)
    by (destruct (c =? c_newline)%Z; [apply line_command_ok; [done|lia]|done]).
  destruct (if supports_dollar_quoted_strings _ then _ else _) as [tag|] eqn:Et; [|done].
  destruct (bool_decide _ && negb _); [|done]. intros [= <-]. destruct (supports_dollar_quoted_strings _); [|done].
  apply dollar_tag_str_ok in Et as [Hne Hlen]. pose proof (tag_length _ Hne).
  by apply (advances_intro (length tag)); simpl; try lia.
Qed.

(** What a [;] leaves: at the same index, a statement that ended there or one that
    goes on. *)
Definition semicolon_post (s s' : State) (ended : bool) : Prop :=
  s'.(index) = s.(index) /\ tag_ok s'.(dollar_quote_tag) /\
  if ended then done_to s' (S s.(index)) else done_to s' s'.(start) /\ s'.(start) <= s.(index).

Lemma push_ended s0 s from to s' : push_range sql o s from to = Some s' -> done_to s from -> to <= S s.(index) ->
  s.(index) < length sql -> s.(index) = s0.(index) -> tag_ok s.(dollar_quote_tag) -> semicolon_post s0 s' true.
Proof.
  intros Hp Hd Hto Hi E Ht. apply push_range_ok in Hp as (rs & -> & Hc); [|done|lia].
  split_and!; [done|done|]. rewrite <- E. eapply chain_weaken; [exact Hc|done].
Qed.

Lemma push_pieces_ok boundaries s from s' from' len :
  push_pieces sql o s from boundaries = Some (s', from') -> Forall (fun b => b < len) boundaries -> from <= len ->
  s.(start) + len <= length sql -> done_to s (s.(start) + from) ->
  from' <= len /\ exists rs, s' = s <| ranges := rs |> /\ chain sql 0 rs (s.(start) + from').
Proof.
  revert s from. induction boundaries as [|b boundaries IH]; intros s from; simpl.
  { intros [= <- <-] _ ? ? Hd. split; [done|]. exists s.(ranges). split; [by destruct s|done]. }
  destruct (push_range _ _ _ _ _) as [s1|] eqn:Ep; [|done]. simpl. intros Hrest [Hb Hbs]%Forall_cons ? ? Hd.
  apply push_range_ok in Ep as (rs & -> & Hc); [|done|lia].
  destruct (IH _ _ Hrest) as (? & rs' & -> & ?); [done|lia|done|done|]. split; [done|]. by exists rs'.
Qed.

Lemma body_length s : ok s -> length (slice s.(start) s.(index) sql) = s.(index) - s.(start).
Proof. intros (_ & ? & ? & _). by rewrite slice_length. Qed.

Lemma sqlserver_semicolon_ok s s' ended :
  ok s -> s.(index) < length sql -> sqlserver_semicolon sql o s = Some (s', ended) -> semicolon_post s s' ended.
Proof.
  intros Hok Hlt. pose proof Hok as (Hd & Hs & Hi & Ht). unfold sqlserver_semicolon. set (body := slice _ _ sql).
  pose proof (body_length s Hok) as Hlen. fold body in Hlen.
  pose proof (boundaries_bounded (S (length body)) 0 body) as Hb.
  destruct (SqlServer.sqlserver_boundaries _ 0 body) as [|b boundaries] eqn:Eb.
  { destruct (push_range _ _ _ _ _) as [s1|] eqn:Ep; simpl; [|done]. intros [= <- <-]. by eapply push_ended. }
  destruct (push_pieces _ _ _ _ _) as [[s1 from]|] eqn:Ep; [|done]. cbn [mbind option_bind].
  eapply push_pieces_ok in Ep as (Hfrom & rs & -> & Hc); [|exact Hb|lia|lia|by rewrite Nat.add_0_r].
  case_bool_decide.
  { intros [= <- <-]. split_and!; [done|done|]. eapply chain_weaken; [exact Hc|lia]. }
  case_match; [case_match|].
  - destruct (push_range _ _ _ _ _) as [s2|] eqn:Ep; simpl; [|done]. intros [= <- <-]. by eapply push_ended.
  - intros [= <- <-]. split_and!; [done|done|exact Hc|simpl; lia].
  - destruct (push_range _ _ _ _ _) as [s2|] eqn:Ep; simpl; [|done]. intros [= <- <-]. eapply push_ended; [done|done|simpl; lia|done..].
Qed.

Lemma ends_ok s0 complete s s' ended :
  (if (complete : bool) then s1 ← push_range sql o s s.(start) (S s.(index)); Some (s1, true) else Some (s, false)) = Some (s', ended) ->
  ok s -> s.(index) < length sql -> s.(index) = s0.(index) -> semicolon_post s0 s' ended.
Proof.
  intros Hr (Hd & Hs & Hi & Ht) Hlt E. destruct complete; simpl in Hr; [|by simplify_eq; split_and!; try done; lia].
  destruct (push_range _ _ _ _ _) eqn:Ep; simplify_eq/=. by eapply push_ended.
Qed.

Lemma semicolon_ok s s' ended : ok s -> s.(index) < length sql -> semicolon sql o s = Some (s', ended) -> semicolon_post s s' ended.
Proof.
  intros Hok Hlt. pose proof Hok as (Hd & Hs & Hi & Ht). unfold semicolon.
  assert (Hend : forall s1 to, push_range sql o s1 s1.(start) to = Some s' -> ok s1 -> to <= S s1.(index) -> s1.(index) = s.(index) ->
    semicolon_post s s' true).
  { intros s1 to Hp (? & ? & ? & ?) ? Ei. eapply push_ended; eauto. lia. }
  destruct (_ && MysqlRoutine.starts_with_mysql_routine_block _).
  { branch; [|by intros [= <- <-]; split_and!]. destruct (push_range _ _ _ _ _) as [s1|] eqn:Ep; [|done]. simpl.
    intros [= <- <-]. eapply Hend; eauto. }
  set (s1 := if (oracle_block_start s =? start s)%nat then s else _).
  assert (H1 : ok s1 /\ s1.(index) = s.(index)) by (unfold s1; by case_match). clearbody s1.
  destruct (if postgres_dollar_quoted_routine s1 then _ else _) as [keeps tracker].
  set (s2 := s1 <| oracle_block := tracker |>). assert (H2 : ok s2 /\ s2.(index) = s.(index)) by done. clearbody s2.
  destruct H2 as [Hok2 Ei]. destruct keeps.
  { destruct (PlSql.tracker_is_complete _ _) as [complete tracker']. intros Hr. eapply ends_ok; [exact Hr|done|simpl; lia|done]. }
  branch; [intros Hr; eapply ends_ok; [exact Hr|done|lia|done]|].
  branch; [intros Hr; eapply ends_ok; [exact Hr|done|lia|done]|].
  branch.
  - branch; [|intros [= <- <-]; destruct Hok2 as (? & ? & ? & ?); split_and!; try done; lia].
    intros Hr. apply sqlserver_semicolon_ok in Hr; [|done|lia]. destruct Hr as (E & ? & Hr). split_and!; [lia|done|].
    rewrite <- Ei. done.
  - destruct (push_range _ _ _ _ _) as [s3|] eqn:Ep; [|done]. simpl. intros [= <- <-]. eapply Hend; eauto.
Qed.

Lemma round_main_ok s c s' : ok s -> s.(index) < length sql -> round_main sql o s c = Some s' -> advances s s'.
Proof.
  intros Hok Hlt. pose proof Hok as (Hd & Hs & Hi & Ht). unfold round_main.
  branch; [intros [= <-]; by apply (advances_intro 1); simpl; try lia|].
  branch; [intros [= <-]; by apply (advances_intro 1); simpl; try lia|].
  branch; [intros [= <-]; by apply (advances_intro 1); simpl; try lia|].
  branch.
  { destruct (semicolon _ _ _) as [[s1 ended]|] eqn:E; [|done]. apply semicolon_ok in E as (Ei & Ht1 & E); [|done|done]. simpl.
    destruct ended; intros [= <-]; [apply (restart_advances _ _ (S s.(index))); simpl; try done; lia|].
    destruct E as [? ?]. split; [|simpl; lia]. split_and!; simpl; try done; lia. }
  assert (Hskip : advances s (skip s 1)) by (apply (advances_intro 1); simpl; try done; lia).
  branch; [|by intros [= <-]]. branch; [|by intros [= <-]].
  destruct (push_range _ _ _ _ _) as [s1|] eqn:Ep; [|done]. simpl. intros [= <-].
  apply push_range_ok in Ep as (rs & -> & Hc); [|done|simpl; lia]. eapply restart_advances; [exact Hc|simpl; lia..|done].
Qed.

Lemma round_ok s s' : ok s -> s.(index) < length sql -> round sql o s = Some s' -> advances s s'.
Proof.
  intros Hok Hlt. unfold round. destruct (drop s.(index) sql) as [|c rest] eqn:Ed.
  { apply (f_equal length) in Ed. rewrite length_drop in Ed. simpl in Ed. lia. }
  destruct (round_hidden o s c rest) as [s1|] eqn:Eh; [intros [= <-]; by eapply round_hidden_ok|].
  destruct (in_quotes s); [by apply round_main_ok|].
  destruct (round_opener sql o s c rest) as [[s1|]|] eqn:Eo; simpl; [|by apply round_main_ok|done].
  intros [= <-]. by eapply round_opener_ok.
Qed.

Lemma scan_ok fuel s s' : ok s -> scan sql o fuel s = Some s' ->
  ok s' /\ (length sql <= s.(index) + fuel -> s'.(index) = length sql).
Proof.
  revert s. induction fuel as [|fuel IH]; intros s Hok; simpl.
  { intros [= <-]. split; [done|]. destruct Hok as (_ & _ & ? & _). lia. }
  destruct (Nat.leb_spec (length sql) s.(index)).
  { intros [= <-]. split; [done|]. destruct Hok as (_ & _ & ? & _). lia. }
  destruct (round sql o s) as [s1|] eqn:Er; [|done]. simpl. apply round_ok in Er as [Hok1 ?]; [|done|done].
  intros Hs. destruct (IH _ Hok1 Hs) as [? Hi]. split; [done|]. intros. apply Hi. lia.
Qed.

Lemma finish_ok s rs : ok s -> finish sql o s = Some rs -> chain sql 0 rs (length sql).
Proof.
  intros (Hd & Hs & Hi & _). unfold finish.
  assert (Hweak : chain sql 0 s.(ranges) (length sql)) by (eapply chain_weaken; [exact Hd|lia]).
  branch; [branch|].
  - intros Hp. pose proof (before_last_line_length (drop s.(start) sql)) as Hb. rewrite length_drop in Hb.
    eapply push_statement_range_ok in Hp; [|exact Hd|lia]. eapply chain_weaken; [exact Hp|lia].
  - by intros [= <-].
  - intros Hp. by eapply push_statement_range_ok.
Qed.

Lemma split_ranges_chain rs : split_sql_statement_ranges_with_options sql o = Some rs -> chain sql 0 rs (length sql).
Proof.
  unfold split_sql_statement_ranges_with_options. destruct (scan _ _ _ _) as [s|] eqn:E; [|done]. simpl.
  apply scan_ok in E as [Hok _]; [by apply finish_ok|]. split_and!; [apply Nat.le_refl|simpl; lia..|done].
Qed.

End Spec.
End RangesSpec.

(** ** The statement at the cursor *)

Lemma range_at_cursor_elem sql cursor previous rs r :
  range_at_cursor sql cursor previous rs = Some r -> r ∈ rs \/ previous = Some r.
Proof.
  revert previous. induction rs as [|r' rs IH]; intros previous; simpl; [by right|].
  assert (Hd : Some (default r' previous) = Some r -> r ∈ r' :: rs \/ previous = Some r)
    by (intros [= <-]; destruct previous; simpl; [by right|by left; left]).
  branch; [intros [= <-]; by left; left|]. branch; [branch; [intros [= <-]; by left; left|done]|]. branch; [done|].
  intros [?|[= <-]]%IH; [by left; right|by left; left].
Qed.

Lemma range_at_cursor_some sql cursor rs previous : rs <> [] \/ is_Some previous -> is_Some (range_at_cursor sql cursor previous rs).
Proof.
  revert previous. induction rs as [|r rs IH]; intros previous Hne; simpl; [by destruct Hne|].
  repeat case_match; try done. apply IH. by right.
Qed.

(** A cursor inside a range selects that range. *)
Lemma range_at_cursor_inside sql lo rs hi cursor previous r :
  chain sql lo rs hi -> r ∈ rs -> r.(range_start) < cursor < r.(range_end) -> range_at_cursor sql cursor previous rs = Some r.
Proof.
  revert lo previous. induction rs as [|r' rs IH]; intros lo previous; [by intros _ ?%elem_of_nil|]. simpl.
  intros (? & ? & ? & Hc) Hr Hin. destruct (Nat.ltb_spec r'.(range_start) cursor); simpl; cycle 1.
  { exfalso. apply elem_of_cons in Hr as [->|Hr]; [lia|]. destruct (chain_elem _ _ _ _ _ Hc Hr) as (? & ? & _). lia. }
  destruct (Nat.ltb_spec cursor r'.(range_end)).
  { apply elem_of_cons in Hr as [->|Hr]; [done|]. destruct (chain_elem _ _ _ _ _ Hc Hr) as (? & ? & _). lia. }
  destruct (Nat.eqb_spec cursor r'.(range_start)); [lia|]. destruct (Nat.ltb_spec cursor r'.(range_start)); [lia|].
  apply elem_of_cons in Hr as [->|Hr]; [lia|]. by eapply IH.
Qed.

Section Cursor.
Context `{UnicodeTables, SqlTokenizer} (sql : text) (o : SqlParsingOptions).

Lemma blank_line_loop_chain stop n idx scanner current line solid run rs lo rs' current' :
  blank_line_loop sql stop o n idx scanner current line solid run rs = Some (rs', current') ->
  chain sql lo rs current -> current <= line -> line <= idx -> idx + n <= stop -> stop <= length sql ->
  chain sql lo rs' current' /\ current' <= stop.
Proof.
  revert idx scanner current line solid run rs. induction n as [|n IH]; intros idx scanner current line solid run rs; simpl.
  { intros [= <- <-] ? ? ? ?. split; [done|lia]. }
  destruct (sql !! idx) as [c|]; [|intros [= <- <-] ? ? ? ?; split; [done|lia]].
  branch; [intros Hl ? ? ? ? ?; eapply IH; [exact Hl|done|lia..]|].
  branch; [branch|]; try (intros Hl ? ? ? ? ?; eapply IH; [exact Hl|done|lia..]).
  destruct (push_statement_range _ _ _ _ _) as [rs1|] eqn:Ep; [|done]. simpl. intros Hl ? ? ? ? ?.
  eapply push_statement_range_ok in Ep; [|done|lia]. eapply IH; [exact Hl|done|lia..].
Qed.

Lemma blank_lines_chain r rs : r.(range_text) = slice r.(range_start) r.(range_end) sql -> r.(range_start) < r.(range_end) ->
  r.(range_end) <= length sql -> split_statement_range_at_blank_lines sql r o = Some rs ->
  chain sql r.(range_start) rs r.(range_end) /\ rs <> [].
Proof.
  intros Ht Hlt Hlen. unfold split_statement_range_at_blank_lines.
  assert (Hself : chain sql r.(range_start) [r] r.(range_end)) by (simpl; split_and!; try done; lia).
  do 3 (branch; [by intros [= <-]|]).
  destruct (blank_line_loop _ _ _ _ _ _ _ _ _ _ _) as [[rs1 current]|] eqn:El; [|done]. simpl.
  apply blank_line_loop_chain with (lo := r.(range_start)) in El as [Hc ?]; [|simpl; lia..].
  destruct (push_statement_range _ _ _ _ _) as [rs2|] eqn:Ep; [|done]. simpl. intros [= <-].
  eapply push_statement_range_ok in Ep; [|done|lia]. by destruct rs2.
Qed.

(** C32. When the range scanner returns, it returns increasing ranges, for every text and
    dialect: every range is a nonempty slice of the text that starts where or after the
    one before it ends and its text is exactly the slice; the scanner has then read the
    whole text, so its fuel never cuts it short.  It does not return on every text: with
    the delimiter [/] in a dialect where a line [/] ends a block it panics
    ([slash_delimiter_panics]). *)
Theorem ranges_are_increasing_slices rs :
  Ranges.split_sql_statement_ranges_with_options sql o = Some rs ->
  chain sql 0 rs (length sql) /\
  exists s, Ranges.scan sql o (length sql) Ranges.initial = Some s /\ Ranges.index s = length sql.
Proof.
  intros Hr. split; [by eapply RangesSpec.split_ranges_chain|].
  unfold Ranges.split_sql_statement_ranges_with_options in Hr. destruct (Ranges.scan _ _ _ _) as [s|] eqn:E; [|done].
  exists s. split; [done|]. eapply RangesSpec.scan_ok in E as [_ Hi]; [by apply Hi|].
  split_and!; [apply Nat.le_refl|simpl; lia..|done].
Qed.

(** The statement at the cursor is one of the statements of the text: it is a
    nonempty slice of a range of the scanner (the whole trimmed text only if
    there is no range), and when the cursor is inside a range it is a slice of
    that range, the part between blank lines that the cursor is in if it is in
    one. *)
Theorem statement_at_cursor_is_in_range cursor_pos t rs :
  Ranges.split_sql_statement_ranges_with_options sql o = Some rs ->
  find_statement_at_cursor_with_options sql cursor_pos o = Some t ->
  (rs = [] /\ t = trim_chars sql) \/
  exists r soft part,
    r ∈ rs /\ split_statement_range_at_blank_lines sql r o = Some soft /\ part ∈ soft /\ t = part.(range_text) /\
    chain sql r.(range_start) soft r.(range_end) /\
    let cursor := utf16_offset_to_byte_index sql cursor_pos in
    (forall r', r' ∈ rs -> r'.(range_start) < cursor < r'.(range_end) -> r' = r) /\
    (forall part', part' ∈ soft -> part'.(range_start) < cursor < part'.(range_end) -> part' = part).
Proof.
  intros Hr Hf. pose proof (RangesSpec.split_ranges_chain _ _ _ Hr) as Hc.
  unfold find_statement_at_cursor_with_options in Hf. rewrite Hr in Hf. cbn [mbind option_bind] in Hf.
  set (cursor := utf16_offset_to_byte_index sql cursor_pos) in *.
  destruct (range_at_cursor sql cursor None rs) as [r|] eqn:Ec; cycle 1.
  { left. simplify_eq. split; [|done]. destruct rs as [|r0 rs]; [done|].
    by destruct (range_at_cursor_some sql cursor (r0 :: rs) None) as [? ?]; [left|congruence]. }
  right. pose proof (range_at_cursor_elem _ _ _ _ _ Ec) as [Hin|?]; [|done].
  destruct (chain_elem _ _ _ _ _ Hc Hin) as (_ & Hlt & Hhi & Htext).
  unfold statement_text_at_cursor in Hf. destruct (split_statement_range_at_blank_lines sql r o) as [soft|] eqn:Es; [|done].
  apply blank_lines_chain in Es as Hs; [|done..]. destruct Hs as [Hchain Hne].
  unfold find_statement_text_in_ranges in Hf. cbn [mbind option_bind] in Hf.
  destruct (range_at_cursor_some sql cursor soft None) as [part Ep]; [by left|]. rewrite Ep in Hf. simplify_eq/=.
  destruct (range_at_cursor_elem _ _ _ _ _ Ep) as [Hpart|?]; [|done].
  exists r, soft, part. split_and!; try done.
  - intros r' Hr' Hcur. rewrite (range_at_cursor_inside _ _ _ _ _ _ _ Hc Hr' Hcur) in Ec. congruence.
  - intros part' Hp' Hcur. rewrite (range_at_cursor_inside _ _ _ _ _ _ _ Hchain Hp' Hcur) in Ep. congruence.
Qed.

End Cursor.

(** ** Concrete texts *)

Section RangesExamples.
#[local] Instance ascii_tables : UnicodeTables := {| is_alphanumeric := is_ascii_alphanumeric |}.
#[local] Instance no_tokenizer : SqlTokenizer := {| tokenize := fun _ => None |}.

Definition two_statements : text := txt "SELECT 'a;b'; -- c;" ++ [c_newline] ++ txt "DELETE FROM t".

Lemma ranges_are_increasing_slices_witness :
  let rs := [mkRange (txt "SELECT 'a;b'") 0 12; mkRange (txt "DELETE FROM t") 20 33] in
  Ranges.split_sql_statement_ranges_with_options two_statements Options.default = Some rs /\
  chain two_statements 0 rs (length two_statements).
Proof.
  split; [vm_compute; reflexivity|]. apply (ranges_are_increasing_slices two_statements Options.default).
  vm_compute. reflexivity.
Defined.

Lemma statement_at_cursor_is_in_range_witness :
  find_statement_at_cursor_with_options two_statements 25 Options.default = Some (txt "DELETE FROM t") /\
  exists r soft part,
    r ∈ [mkRange (txt "SELECT 'a;b'") 0 12; mkRange (txt "DELETE FROM t") 20 33] /\
    split_statement_range_at_blank_lines two_statements r Options.default = Some soft /\
    part ∈ soft /\ txt "DELETE FROM t" = part.(range_text).
Proof.
  split; [vm_compute; reflexivity|].
  destruct (statement_at_cursor_is_in_range two_statements Options.default 25 (txt "DELETE FROM t")
    [mkRange (txt "SELECT 'a;b'") 0 12; mkRange (txt "DELETE FROM t") 20 33]) as [[Hrs _]|(r & soft & part & ? & ? & ? & ? & _)];
    [vm_compute; reflexivity|vm_compute; reflexivity|discriminate Hrs|]. exists r, soft, part. auto.
Defined.

(** The splitter keeps the [;] of an XML entity, the range scanner cuts there. *)
Example entity_is_cut :
  map range_text <$> Ranges.split_sql_statement_ranges_with_options (txt "SELECT 1 &lt; 2") Options.default
  = Some [txt "SELECT 1 &lt"; txt "2"].
Proof. vm_compute. reflexivity. Qed.

(** With [DELIMITER /] in a dialect where a line [/] ends a block, the [/] ends the
    statement twice: the second time the slice starts after its end. *)
Example slash_delimiter_panics :
  Ranges.split_sql_statement_ranges_with_options
    (txt "DELIMITER /" ++ [c_newline] ++ txt "SELECT 1" ++ [c_newline] ++ txt "/" ++ [c_newline] ++ txt "SELECT 2")
    (Options.for_database_type DatabaseType.Oracle) = None.
Proof. vm_compute. reflexivity. Qed.

End RangesExamples.
