(* ===== verification/SqlFileImport.v ===== *)
(** * Importing SQL files

    [crates/dbx-sql-core/src/sql.rs], from [prepare_sql_file_statement] to
    [leading_mysql_executable_comment_start]: what the import of a dump does with
    each statement before it is sent (skip it, rewrite it, send it), and how
    adjacent single-table [INSERT]s are merged into batches.  Text is scalar
    values; the sizes that bound a batch are in UTF-8 bytes ([byte_len]). *)

From S2P Require Import Prelude Utf8 SqlDialect SqlLex SqlScanner.

(** [s.trim_end_matches(c)]. *)
Definition trim_end_matches (c : Z) (s : text) : text := reverse (span (Z.eqb c) (reverse s)).2.

(** [s.trim_start_matches(pat)] for a pattern of several characters. *)
Fixpoint trim_start_matches_fuel (fuel : nat) (pat s : text) : text :=
  match fuel with
  | 0 => s
  | S fuel' => match strip_prefix pat s with Some rest => trim_start_matches_fuel fuel' pat rest | None => s end
  end.
Definition trim_start_matches (pat s : text) : text := trim_start_matches_fuel (length s) pat s.

Definition contains (pat s : text) : bool := bool_decide (is_Some (find_sub pat s)).

(** [statement.split_whitespace().collect::<Vec<_>>().join(" ").to_ascii_uppercase()]. *)
Definition upper_words (s : text) : text := map to_ascii_uppercase (join [32%Z] (split_whitespace s)).

(** ** What is done with one statement *)

Inductive SqlFileStatementAction : Type := ActExecute (sql : text) | ActSkip.

#[export] Instance SqlFileStatementAction_eq_dec : EqDecision SqlFileStatementAction.
Proof. solve_decision. Defined.

Definition is_mysql_compatible_import_profile (profile : text) : bool :=
  one_of profile ["mariadb"; "tidb"; "oceanbase"; "custom_mysql"; "doris"; "starrocks"; "manticoresearch"; "selectdb";
                  "goldendb"]%string.

Definition supports_connection_level_database_bootstrap_target (d : DatabaseType.t) (driver_profile : option text) : bool :=
  bool_decide (d ∈ [DatabaseType.Mysql; DatabaseType.Doris; DatabaseType.StarRocks; DatabaseType.Goldendb])
  || match map to_ascii_lowercase <$> driver_profile with
     | Some profile => is_mysql_compatible_import_profile profile && negb (bool_decide (profile = txt "manticoresearch"))
     | None => false
     end.

Definition is_mysql_compatible_import_target (d : DatabaseType.t) (driver_profile : option text) : bool :=
  bool_decide (d ∈ [DatabaseType.Mysql; DatabaseType.Doris; DatabaseType.StarRocks; DatabaseType.ManticoreSearch;
                    DatabaseType.Goldendb])
  || match map to_ascii_lowercase <$> driver_profile with
     | Some profile => is_mysql_compatible_import_profile profile
     | None => false
     end.

(** [SET NAMES utf8] becomes [SET NAMES utf8mb4]; everything else is kept. *)
Definition normalize_mysql_sql_file_charset (statement : text) : text :=
  let executable := leading_executable_sql_with_options statement Options.mysql_compatible in
  let prefix_len := length statement - length executable in
  if negb (eq_ignore_ascii_case (take 3 executable) (txt "SET")) then statement
  else
    let '(space1, after_set) := span is_ascii_whitespace (drop 3 executable) in
    if bool_decide (space1 = []) then statement
    else if negb (eq_ignore_ascii_case (take 5 after_set) (txt "NAMES")) then statement
    else
      let '(space2, after_names) := span is_ascii_whitespace (drop 5 after_set) in
      if bool_decide (space2 = []) then statement
      else
        let charset_start := 3 + length space1 + 5 + length space2 in
        let '(name, after_name) :=
          span (fun c => negb (is_ascii_whitespace c) && negb (c =? c_semicolon)%Z) after_names in
        if negb (eq_ignore_ascii_case name (txt "utf8")) && negb (eq_ignore_ascii_case name (txt "utf8mb3")) then statement
        else if eq_ignore_ascii_case (take 7 (span is_ascii_whitespace after_name).2) (txt "COLLATE") then statement
        else take (prefix_len + charset_start) statement ++ txt "utf8mb4"
             ++ drop (prefix_len + (charset_start + length name)) statement.

(** A line [\restrict key] or [\unrestrict key], which pg_dump writes. *)
Definition is_postgres_pg_dump_guard_command (line : text) : bool :=
  match split_whitespace line with
  | [command; key] =>
    (bool_decide (command = txt "\restrict") || bool_decide (command = txt "\unrestrict"))
    && forallb is_ascii_alphanumeric key
  | _ => false
  end.

(** The statement without the guard command it starts with. *)
Definition strip_postgres_pg_dump_guard_command (statement : text) : option text :=
  let executable := leading_executable_sql_with_options statement (Options.for_database_type DatabaseType.Postgres) in
  let '(line, after) := span (fun c => negb (c =? c_newline)%Z) executable in
  if is_postgres_pg_dump_guard_command line
  then Some (take (length statement - length executable) statement ++ drop 1 after) else None.

(** The text from the leading [/*!] or [/*M!] comment on.  The source indexes the
    bytes after skipping blanks without checking that one is left: the outer
    [None] is that panic.  Every round drops at least one character. *)
Fixpoint leading_mysql_executable_comment_fuel (fuel : nat) (s : text) : option (option text) :=
  match fuel with
  | 0 => Some None
  | S fuel' =>
    match s with
    | [] => Some None
    | _ =>
      match (span is_ascii_whitespace s).2 with
      | [] => None
      | (a :: tl) as s' =>
        if (a =? c_dash)%Z && opt_is (head tl) c_dash then leading_mysql_executable_comment_fuel fuel' (skip_line (tail tl))
        else if (a =? c_hash)%Z then leading_mysql_executable_comment_fuel fuel' (skip_line tl)
        else if (a =? c_slash)%Z && opt_is (head tl) c_star then
          if is_mysql_executable_comment_start s' then Some (Some s')
          else match find_block_comment_close false 1 (tail tl) with
          | Some close => leading_mysql_executable_comment_fuel fuel' (drop (close + 2) (tail tl))
          | None => Some None
          end
        else Some None
      end
    end
  end.
Definition leading_mysql_executable_comment_start (statement : text) : option (option text) :=
  leading_mysql_executable_comment_fuel (S (length statement)) statement.

(** The SQL in the leading executable comment, if nothing follows the comment. *)
Definition mysql_executable_comment_body (statement : text) : option (option text) :=
  found ← leading_mysql_executable_comment_start statement;
  Some (s ← found;
        let body := drop (if at_is s 2 33 then 3 else 4) s in
        let body := (span (fun c => is_ascii_digit c || is_ascii_whitespace c) body).2 in
        close ← find_block_comment_close false 1 body;
        if has_executable_sql (drop (close + 2) body) then None else Some (take close body)).

Definition is_mysql_key_toggle_statement (statement : text) : bool :=
  let upper := upper_words statement in
  bool_decide (txt "ALTER TABLE " `prefix_of` upper)
  && (bool_decide (txt " ENABLE KEYS" `suffix_of` upper) || bool_decide (txt " DISABLE KEYS" `suffix_of` upper)).

Definition is_mysql_lock_table_statement (statement : text) : bool :=
  let upper := upper_words (leading_executable_sql statement) in
  bool_decide (upper = txt "UNLOCK TABLES")
  || (bool_decide (txt "LOCK TABLES " `prefix_of` upper) && bool_decide (txt " WRITE" `suffix_of` upper)).

(** [SET x = @OLD_x] restores a session variable. *)
Definition is_mysql_session_restore_statement (statement : text) : bool :=
  let upper := upper_words (leading_executable_sql_with_options statement Options.mysql_compatible) in
  if negb (bool_decide (txt "SET " `prefix_of` upper)) then false
  else
    let assignment := trim_chars (trim_start_matches (txt "SET ") upper) in
    if bool_decide (txt "@" `prefix_of` assignment) then false
    else contains (txt "= @OLD_") assignment || contains (txt "=@OLD_") assignment
         || contains (txt "= @SAVED_") assignment || contains (txt "=@SAVED_") assignment.

Definition prepare_sql_file_statement (statement : text) (d : DatabaseType.t) (driver_profile : option text)
    : option SqlFileStatementAction :=
  let is_postgres := bool_decide (d = DatabaseType.Postgres) in
  let statement := trim_chars statement in
  let postgres_statement := if is_postgres then strip_postgres_pg_dump_guard_command statement else None in
  let statement := trim_chars (default statement postgres_statement) in
  if bool_decide (statement = [])
     || (is_postgres && bool_decide (is_Some postgres_statement)
         && negb (has_executable_sql_with_options statement (Options.for_database_type DatabaseType.Postgres)))
  then Some ActSkip
  else
    let is_mysql := is_mysql_compatible_import_target d driver_profile in
    if is_mysql && is_mysql_lock_table_statement statement then Some ActSkip
    else
      body ← mysql_executable_comment_body statement;
      Some (match body with
            | None =>
              if is_mysql && is_mysql_session_restore_statement statement then ActSkip
              else ActExecute (if is_mysql then normalize_mysql_sql_file_charset statement else statement)
            | Some body =>
              if negb is_mysql then ActSkip
              else
                let body := trim_chars body in
                if bool_decide (body = []) || is_mysql_key_toggle_statement body || is_mysql_session_restore_statement body
                then ActSkip else ActExecute (normalize_mysql_sql_file_charset body)
            end).

(** ** Merging inserts *)

Definition SQL_FILE_INSERT_BATCH_MAX_STATEMENTS : nat := 500.
Definition SQL_FILE_INSERT_BATCH_MAX_BYTES : Z := (4 * 1024 * 1024)%Z.

Inductive InsertBatchSyntax : Type := MultiRowValues | OracleInsertAll.

#[export] Instance InsertBatchSyntax_eq_dec : EqDecision InsertBatchSyntax.
Proof. solve_decision. Defined.

Definition insert_batch_syntax (d : option DatabaseType.t) : InsertBatchSyntax :=
  match d with
  | Some (DatabaseType.Oracle | DatabaseType.OceanbaseOracle) => OracleInsertAll
  | _ => MultiRowValues
  end.

(** [keyword_at(sql, idx, keyword)]: [before] and [rest] are the texts before and
    from the position on. *)
Definition keyword_at (before rest : text) (keyword : string) : bool :=
  let k := txt keyword in
  eq_ignore_ascii_case (take (length k) rest) k
  && negb (match last before with Some c => is_sql_ident_char c | None => false end)
  && negb (match head (drop (length k) rest) with Some c => is_sql_ident_char c | None => false end).

Definition starts_with_keyword (s : text) (keyword : string) : bool := keyword_at [] s keyword.

Record MergeableInsert : Type := mkInsert {
  insert_prefix : text;
  insert_prefix_key : text;
  insert_values : text;
  insert_sql : text
}.

Section Inserts.
Context `{UnicodeTables}.

(** The loops below step the scanner over the text; [before] is the part that has
    been read, and the test on a character sees the scanner after its step. *)

Fixpoint insert_all_target_loop (scanner : Scanner.SqlScanner) (seen_insert : bool) (before rest : text) : option text :=
  match rest with
  | [] => None
  | c :: rest' =>
    let scanner' := Scanner.step scanner before c rest' in
    let before' := before ++ [c] in
    if Scanner.is_masked scanner' then insert_all_target_loop scanner' seen_insert before' rest'
    else if negb seen_insert then insert_all_target_loop scanner' (keyword_at before rest "insert") before' rest'
    else if keyword_at before rest "into" then
      let target := trim_chars (drop 4 rest) in
      if bool_decide (target = []) then None else Some target
    else insert_all_target_loop scanner' seen_insert before' rest'
  end.
Definition oracle_insert_all_target (prefix : text) : option text :=
  insert_all_target_loop (Scanner.with_profile Profile.default) false [] prefix.

(** The [VALUES] outside parentheses: where it starts, and where it ends. *)
Fixpoint values_keyword_loop (scanner : Scanner.SqlScanner) (depth : nat) (before rest : text) : option (nat * nat) :=
  match rest with
  | [] => None
  | c :: rest' =>
    let scanner' := Scanner.step scanner before c rest' in
    let continue_ depth' := values_keyword_loop scanner' depth' (before ++ [c]) rest' in
    if Scanner.is_masked scanner' then continue_ depth
    else if (c =? 40)%Z then continue_ (S depth)
    else if (c =? 41)%Z then continue_ (depth - 1)
    else if (depth =? 0)%nat && keyword_at before rest "values" then Some (length before, length before + 6)
    else if (depth =? 0)%nat && keyword_at before rest "value" then Some (length before, length before + 5)
    else continue_ depth
  end.
Definition find_top_level_values_keyword (sql : text) : option (nat * nat) :=
  values_keyword_loop (Scanner.with_profile Profile.default) 0 [] sql.

(** Whether the text is a list of tuples. *)
Fixpoint values_tail_loop (scanner : Scanner.SqlScanner) (depth : nat) (saw_tuple expecting_tuple : bool)
    (before rest : text) : bool :=
  match rest with
  | [] => saw_tuple && (depth =? 0)%nat
  | c :: rest' =>
    let scanner' := Scanner.step scanner before c rest' in
    let continue_ depth' saw' expecting' := values_tail_loop scanner' depth' saw' expecting' (before ++ [c]) rest' in
    if Scanner.is_masked scanner' then continue_ depth saw_tuple expecting_tuple
    else if expecting_tuple then
      if is_whitespace c || (saw_tuple && (c =? 44)%Z) then continue_ depth saw_tuple expecting_tuple
      else if negb (c =? 40)%Z then false
      else continue_ 1 true false
    else if (c =? 40)%Z then continue_ (S depth) saw_tuple expecting_tuple
    else if (c =? 41)%Z then
      match depth with
      | 0 => false
      | S depth' => continue_ depth' saw_tuple (if (depth' =? 0)%nat then true else expecting_tuple)
      end
    else if (c =? 44)%Z && (depth =? 0)%nat then continue_ depth saw_tuple expecting_tuple
    else if (depth =? 0)%nat && negb (is_whitespace c) then false
    else continue_ depth saw_tuple expecting_tuple
  end.
Definition parse_insert_values_tail (tail : text) : option text :=
  let tail := trim_chars (trim_end_matches c_semicolon (trim_chars tail)) in
  if bool_decide (tail = []) then None
  else if values_tail_loop (Scanner.with_profile Profile.default) 0 false true [] tail then Some tail else None.

(** Lower case outside quotes, runs of blanks as one. *)
Fixpoint prefix_key_loop (scanner : Scanner.SqlScanner) (previous_space : bool) (before rest : text) : text :=
  match rest with
  | [] => []
  | c :: rest' =>
    let s := Scanner.step scanner before c rest' in
    let before' := before ++ [c] in
    if s.(Scanner.in_single_quote) || s.(Scanner.in_double_quote) || s.(Scanner.in_backtick)
       || bool_decide (is_Some s.(Scanner.dollar_quote_tag)) then c :: prefix_key_loop s false before' rest'
    else if is_whitespace c then
      if previous_space then prefix_key_loop s true before' rest' else 32%Z :: prefix_key_loop s true before' rest'
    else to_ascii_lowercase c :: prefix_key_loop s false before' rest'
  end.
Definition normalize_insert_prefix_key (prefix : text) : text :=
  trim_chars (prefix_key_loop (Scanner.with_profile Profile.default) false [] prefix).

Definition parse_mergeable_insert (sql : text) (o : SqlParsingOptions) : option MergeableInsert :=
  let executable :=
    trim_chars (trim_end_matches c_semicolon (trim_chars (leading_executable_sql_with_options sql o))) in
  if negb (starts_with_keyword executable "insert") then None
  else
    '(values_start, values_end) ← find_top_level_values_keyword executable;
    let prefix := trim_chars_end (take values_start executable) in
    values ← parse_insert_values_tail (trim_chars (drop values_end executable));
    Some (mkInsert prefix (normalize_insert_prefix_key prefix) values executable).

Record PendingInsertBatch : Type := mkBatch {
  prefix : text;
  prefix_key : text;
  values : list text;
  batch_source_sqls : list text;
  batch_count : nat;
  batch_byte_len : nat;
  syntax : InsertBatchSyntax
}.

Definition batch_new (insert : MergeableInsert) (syntax : InsertBatchSyntax) : PendingInsertBatch :=
  mkBatch insert.(insert_prefix) insert.(insert_prefix_key) [insert.(insert_values)] [insert.(insert_sql)] 1
    (byte_len insert.(insert_prefix) + byte_len insert.(insert_values) + 16) syntax.

Definition can_accept (batch : PendingInsertBatch) (insert : MergeableInsert) (max_insert_batch_statements : nat) : bool :=
  bool_decide (batch.(prefix_key) = insert.(insert_prefix_key))
  && (batch.(batch_count) <? max_insert_batch_statements)%nat
  && (Z.of_nat (batch.(batch_byte_len) + byte_len insert.(insert_values) + 3) <=? SQL_FILE_INSERT_BATCH_MAX_BYTES)%Z.

Definition batch_push (batch : PendingInsertBatch) (insert : MergeableInsert) : PendingInsertBatch :=
  mkBatch batch.(prefix) batch.(prefix_key) (batch.(values) ++ [insert.(insert_values)])
    (batch.(batch_source_sqls) ++ [insert.(insert_sql)]) (S batch.(batch_count))
    (batch.(batch_byte_len) + (byte_len insert.(insert_values) + 3)) batch.(syntax).

(** [INSERT ALL INTO t VALUES ... SELECT 1 FROM dual]. *)
Definition insert_all_sql (target : text) (values : list text) : text :=
  txt "INSERT ALL" ++ [c_newline]
  ++ flat_map (fun v => txt "INTO " ++ target ++ txt " VALUES " ++ v ++ [c_newline]) values ++ txt "SELECT 1 FROM dual".

Definition multi_row_sql (prefix : text) (values : list text) : text :=
  prefix ++ txt " VALUES" ++ [c_newline] ++ join [44%Z; c_newline] values.

Definition to_sql (batch : PendingInsertBatch) : text :=
  if (batch.(batch_count) =? 1)%nat then default [] (head batch.(batch_source_sqls))
  else match batch.(syntax) with
  | OracleInsertAll =>
    match oracle_insert_all_target batch.(prefix) with
    | Some target => insert_all_sql target batch.(values)
    | None => multi_row_sql batch.(prefix) batch.(values)
    end
  | MultiRowValues => multi_row_sql batch.(prefix) batch.(values)
  end.

Inductive SqlFileImportStatementKind : Type := KindExecute | KindSkip.

Record SqlFileImportStatement : Type := mkImport {
  kind : SqlFileImportStatementKind;
  import_sql : text;
  source_sqls : list text;
  source_statement_count : nat
}.

(** [flush_pending_insert]: the batch as a statement, behind those before it. *)
Definition flush_pending_insert (optimized : list SqlFileImportStatement) (pending : option PendingInsertBatch)
    : list SqlFileImportStatement :=
  match pending with
  | Some batch => optimized ++ [mkImport KindExecute (to_sql batch) batch.(batch_source_sqls) batch.(batch_count)]
  | None => optimized
  end.

(** One round of the loop over the statements. *)
Definition optimize_statement (d : option DatabaseType.t) (driver_profile : option text) (max : nat)
    (optimized : list SqlFileImportStatement) (pending : option PendingInsertBatch) (statement : text)
    : option (list SqlFileImportStatement * option PendingInsertBatch) :=
  let merge_adjacent_inserts :=
    match d with Some d => negb (is_mysql_compatible_import_target d driver_profile) | None => true end in
  action ← match d with
           | Some d => prepare_sql_file_statement statement d driver_profile
           | None => Some (ActExecute (trim_chars statement))
           end;
  Some (match action with
        | ActSkip =>
          (flush_pending_insert optimized pending
             ++ [mkImport KindSkip (trim_chars statement) [trim_chars statement] 1], None)
        | ActExecute sql =>
          let mergeable :=
            if merge_adjacent_inserts
            then parse_mergeable_insert sql (match d with Some d => Options.for_database_type d | None => Options.default end)
            else None in
          match mergeable with
          | Some insert =>
            match pending with
            | Some batch =>
              if can_accept batch insert max then (optimized, Some (batch_push batch insert))
              else (flush_pending_insert optimized pending, Some (batch_new insert (insert_batch_syntax d)))
            | None => (optimized, Some (batch_new insert (insert_batch_syntax d)))
            end
          | None => (flush_pending_insert optimized pending ++ [mkImport KindExecute sql [sql] 1], None)
          end
        end).

Fixpoint optimize_loop (d : option DatabaseType.t) (driver_profile : option text) (max : nat)
    (optimized : list SqlFileImportStatement) (pending : option PendingInsertBatch) (statements : list text)
    : option (list SqlFileImportStatement) :=
  match statements with
  | [] => Some (flush_pending_insert optimized pending)
  | statement :: statements' =>
    '(optimized', pending') ← optimize_statement d driver_profile max optimized pending statement;
    optimize_loop d driver_profile max optimized' pending' statements'
  end.

Definition optimize_sql_file_import_statements_with_max_insert_batch_statements (statements : list text)
    (d : option DatabaseType.t) (driver_profile : option text) (max_insert_batch_statements : nat)
    : option (list SqlFileImportStatement) :=
  optimize_loop d driver_profile max_insert_batch_statements [] None statements.

Definition optimize_sql_file_import_statements (statements : list text) (d : option DatabaseType.t)
    (driver_profile : option text) : option (list SqlFileImportStatement) :=
  optimize_sql_file_import_statements_with_max_insert_batch_statements statements d driver_profile
    SQL_FILE_INSERT_BATCH_MAX_STATEMENTS.

End Inserts.

(** ** Preparing a statement never panics *)

Definition solid_end (s : text) : Prop := match last s with Some c => is_whitespace c = false | None => True end.

Lemma ascii_whitespace_is_whitespace c : is_ascii_whitespace c = true -> is_whitespace c = true.
Proof. unfold is_ascii_whitespace, is_whitespace. intros. lia. Qed.

Lemma solid_end_trim s : solid_end (trim_chars s).
Proof.
  unfold solid_end, trim_chars, trim_chars_end. rewrite last_reverse.
  pose proof (trim_chars_start_solid (reverse (trim_chars_start s))) as Hs.
  by destruct (trim_chars_start (reverse _)).
Qed.

Lemma solid_end_suffix t s : t `suffix_of` s -> solid_end s -> solid_end t.
Proof.
  intros [k ->]. unfold solid_end. rewrite last_app. destruct (last t); done.
Qed.

Lemma span_suffix p s : (span p s).2 `suffix_of` s.
Proof. exists (span p s).1. by rewrite span_app. Qed.

Lemma solid_end_blank s : s <> [] -> solid_end s -> (span is_ascii_whitespace s).2 <> [].
Proof.
  intros Hne Hs E. pose proof (span_app is_ascii_whitespace s) as Ha. pose proof (span_all is_ascii_whitespace s) as Hall.
  rewrite E, app_nil_r in Ha. rewrite Ha in Hall. unfold solid_end in Hs.
  destruct s as [|c s _] using rev_ind; [done|]. rewrite last_snoc in Hs.
  apply Forall_app in Hall as [_ Hc]. apply Forall_cons in Hc as [Hc%ascii_whitespace_is_whitespace _]. congruence.
Qed.

Lemma leading_comment_total fuel s : solid_end s -> is_Some (leading_mysql_executable_comment_fuel fuel s).
Proof.
  revert s. induction fuel as [|fuel IH]; intros s Hs; simpl; [done|]. destruct s as [|c0 s0] eqn:Es; [done|]. rewrite <- Es in *.
  destruct (span is_ascii_whitespace s).2 as [|a tl] eqn:E; [by destruct (solid_end_blank s); [rewrite Es| |]|].
  assert (Htl : solid_end tl).
  { eapply solid_end_suffix, Hs. etrans; [|apply (span_suffix is_ascii_whitespace)]. rewrite E. by exists [a]. }
  assert (Htl2 : solid_end (tail tl)) by (eapply solid_end_suffix, Htl; destruct tl as [|b]; [done|by exists [b]]).
  repeat (case_match; try done); apply IH; try (by eapply solid_end_suffix; [apply span_suffix|]).
  eapply solid_end_suffix, Htl2. eexists. symmetry. apply take_drop.
Qed.

Lemma comment_body_total s : solid_end s -> is_Some (mysql_executable_comment_body s).
Proof.
  intros Hs. unfold mysql_executable_comment_body, leading_mysql_executable_comment_start.
  by destruct (leading_comment_total (S (length s)) s Hs) as [found ->].
Qed.

(** Indexing past the end of the statement cannot happen, since it is trimmed. *)
Lemma prepare_total statement d driver_profile : is_Some (prepare_sql_file_statement statement d driver_profile).
Proof.
  unfold prepare_sql_file_statement. set (s := trim_chars (default _ _)).
  destruct (bool_decide (s = []) || _); [done|]. destruct (_ && is_mysql_lock_table_statement s); [done|].
  by destruct (comment_body_total s (solid_end_trim _)) as [body ->].
Qed.

(** ** The merged statements account for every statement of the file *)

Section OptimizeSpec.
Context `{UnicodeTables} (d : option DatabaseType.t) (driver_profile : option text) (max : nat).

(** Whether inserts are merged at all for the target: never for MySQL, where it
    would change [LAST_INSERT_ID()]. *)
Definition merges : bool :=
  match d with Some d => negb (is_mysql_compatible_import_target d driver_profile) | None => true end.
Definition options_of : SqlParsingOptions := match d with Some d => Options.for_database_type d | None => Options.default end.

(** What one statement of the file contributes, looked at on its own. *)
Definition contribution (statement : text) : text :=
  match (match d with
         | Some d => prepare_sql_file_statement statement d driver_profile
         | None => Some (ActExecute (trim_chars statement))
         end) with
  | Some (ActExecute sql) =>
    match (if merges then parse_mergeable_insert sql options_of else None) with
    | Some insert => insert.(insert_sql)
    | None => sql
    end
  | _ => trim_chars statement
  end.

(** The statement that stands for several inserts into the same target. *)
Definition merged_sql (prefix : text) (values : list text) : text :=
  match insert_batch_syntax d, oracle_insert_all_target prefix with
  | OracleInsertAll, Some target => insert_all_sql target values
  | _, _ => multi_row_sql prefix values
  end.

Definition mergeable (key : text) (insert : MergeableInsert) : Prop :=
  insert.(insert_prefix_key) = key /\ exists sql, parse_mergeable_insert sql options_of = Some insert.

(** A statement of the result stands for one statement of the file, unchanged, or
    for at least two inserts into the same target. *)
Definition import_ok (item : SqlFileImportStatement) : Prop :=
  item.(source_statement_count) = length item.(source_sqls) /\
  ((exists sql, item.(source_sqls) = [sql] /\ item.(import_sql) = sql) \/
   (exists first inserts key,
      item.(kind) = KindExecute /\ merges = true /\ 2 <= length (first :: inserts) <= max /\
      Forall (mergeable key) (first :: inserts) /\
      item.(source_sqls) = map insert_sql (first :: inserts) /\
      item.(import_sql) = merged_sql first.(insert_prefix) (map insert_values (first :: inserts)) /\
      (insert_batch_syntax d = MultiRowValues -> (Z.of_nat (byte_len item.(import_sql)) <= SQL_FILE_INSERT_BATCH_MAX_BYTES)%Z))).

(** The invariant of the batch in progress. *)
Definition batch_ok (batch : PendingInsertBatch) : Prop :=
  exists first inserts,
    merges = true /\ batch.(prefix) = first.(insert_prefix) /\
    Forall (mergeable batch.(prefix_key)) (first :: inserts) /\
    batch.(values) = map insert_values (first :: inserts) /\
    batch.(batch_source_sqls) = map insert_sql (first :: inserts) /\
    batch.(batch_count) = length (first :: inserts) /\
    batch.(batch_byte_len) = byte_len batch.(prefix) + 13 + sum_list_with (fun v => byte_len v + 3) batch.(values) /\
    batch.(syntax) = insert_batch_syntax d /\
    (2 <= batch.(batch_count) -> batch.(batch_count) <= max /\ (Z.of_nat batch.(batch_byte_len) <= SQL_FILE_INSERT_BATCH_MAX_BYTES)%Z).

Lemma join_len values :
  byte_len (join [44%Z; c_newline] values) + length values <= sum_list_with (fun v => byte_len v + 3) values.
Proof.
  induction values as [|v [|w values] IH]; [done|simpl; lia|]. cbn [join] in *. rewrite !byte_len_app.
  change (byte_len [44%Z; c_newline]) with 2. cbn [sum_list_with length] in *. lia.
Qed.

Lemma multi_row_len prefix values :
  byte_len (multi_row_sql prefix values) <= byte_len prefix + 13 + sum_list_with (fun v => byte_len v + 3) values.
Proof.
  unfold multi_row_sql. rewrite !byte_len_app. pose proof (join_len values).
  change (byte_len (txt " VALUES")) with 7. change (byte_len [c_newline]) with 1. lia.
Qed.

Lemma batch_new_ok sql insert :
  merges = true -> parse_mergeable_insert sql options_of = Some insert -> batch_ok (batch_new insert (insert_batch_syntax d)).
Proof.
  intros Hm Hp. exists insert, []. simpl. split_and!; try done; try lia.
  constructor; [|done]. split; [done|by exists sql].
Qed.

Lemma batch_push_ok batch sql insert :
  batch_ok batch -> parse_mergeable_insert sql options_of = Some insert -> can_accept batch insert max = true ->
  batch_ok (batch_push batch insert).
Proof.
  intros (first & inserts & Hm & Hp & Hall & Hv & Hs & Hc & Hb & Hx & Hmax) Hparse Ha.
  unfold can_accept in Ha. apply andb_true_iff in Ha as [[Hk%bool_decide_eq_true Hlt%Nat.ltb_lt]%andb_true_iff Hbytes%Z.leb_le].
  exists first, (inserts ++ [insert]). simpl in *. rewrite Hv, Hs, Hc, !map_app, length_app. simpl.
  split_and!; try done; try lia.
  - apply Forall_cons in Hall as [? ?]. constructor; [done|]. apply Forall_app. split; [done|]. constructor; [|done].
    split; [done|by exists sql].
  - rewrite Hb, Hv. simpl. rewrite sum_list_with_app. simpl. lia.
Qed.

Lemma flush_batch_ok batch :
  batch_ok batch -> import_ok (mkImport KindExecute (to_sql batch) batch.(batch_source_sqls) batch.(batch_count)).
Proof.
  intros (first & inserts & Hm & Hp & Hall & Hv & Hs & Hc & Hb & Hx & Hmax). split; simpl; [by rewrite Hs, length_map|].
  destruct inserts as [|second inserts]; [left|right].
  - exists first.(insert_sql). split; [done|]. unfold to_sql. rewrite Hc, Hs. done.
  - exists first, (second :: inserts), batch.(prefix_key).
    assert (Hsql : to_sql batch = merged_sql first.(insert_prefix) (map insert_values (first :: second :: inserts))).
    { unfold to_sql, merged_sql. rewrite Hc, Hx, Hp, Hv. simpl. by repeat case_match. }
    simpl in *. split_and!; try done; try lia. intros Hmulti. rewrite Hsql. unfold merged_sql. rewrite Hmulti.
    pose proof (multi_row_len first.(insert_prefix) (map insert_values (first :: second :: inserts))) as Hlen.
    rewrite Hb, Hp, Hv in Hmax. simpl in *. destruct Hmax as [_ Hmax]; lia.
Qed.

Lemma flush_ok optimized pending :
  Forall import_ok optimized -> from_option batch_ok True pending ->
  Forall import_ok (flush_pending_insert optimized pending) /\
  concat (map source_sqls (flush_pending_insert optimized pending)) =
    concat (map source_sqls optimized) ++ from_option batch_source_sqls [] pending.
Proof.
  intros Ho Hp. destruct pending as [batch|]; simpl; [|by rewrite app_nil_r].
  rewrite map_app, concat_app. simpl. rewrite app_nil_r. split; [|done].
  apply Forall_app. split; [done|]. constructor; [by apply flush_batch_ok|done].
Qed.

(** One statement: what it contributes ends up last in the output or in the batch. *)
Lemma optimize_statement_ok optimized pending statement :
  Forall import_ok optimized -> from_option batch_ok True pending ->
  exists optimized' pending', optimize_statement d driver_profile max optimized pending statement = Some (optimized', pending') /\
    Forall import_ok optimized' /\ from_option batch_ok True pending' /\
    concat (map source_sqls optimized') ++ from_option batch_source_sqls [] pending' =
      (concat (map source_sqls optimized) ++ from_option batch_source_sqls [] pending) ++ [contribution statement].
Proof.
  intros Ho Hp. destruct (flush_ok optimized pending Ho Hp) as [Hf Hcat].
  assert (Hone : forall k sql, let out := flush_pending_insert optimized pending ++ [mkImport k sql [sql] 1] in
    Forall import_ok out /\ concat (map source_sqls out) ++ [] =
      (concat (map source_sqls optimized) ++ from_option batch_source_sqls [] pending) ++ [sql]).
  { intros k sql. simpl. rewrite map_app, concat_app, Hcat. simpl. rewrite app_nil_r. split; [|done].
    apply Forall_app. split; [done|]. constructor; [|done]. split; [done|]. left. by exists sql. }
  unfold optimize_statement, contribution.
  destruct (match d with Some d => prepare_sql_file_statement statement d driver_profile | None => _ end) as [action|] eqn:Ea; cycle 1.
  { destruct d as [d0|]; [|done]. by destruct (prepare_total statement d0 driver_profile) as [? ?]; simplify_eq. }
  cbn [mbind option_bind]. destruct action as [sql|]; [|by eexists _, _; split; [done|]; destruct (Hone KindSkip (trim_chars statement))].
  fold merges. fold options_of. destruct (if merges then _ else _) as [insert|] eqn:Em;
    [|by eexists _, _; split; [done|]; destruct (Hone KindExecute sql)].
  destruct merges eqn:Hm; [|done].
  assert (Hnew := batch_new_ok _ _ Hm Em).
  destruct pending as [batch|]; [destruct (can_accept batch insert max) eqn:Hacc|]; eexists _, _; (split; [done|]).
  - split; [done|]. split; [by eapply batch_push_ok|]. simpl. by rewrite app_assoc.
  - split; [done|]. split; [done|]. by rewrite Hcat.
  - split; [done|]. split; [done|]. simpl. by rewrite app_nil_r.
Qed.

Lemma optimize_loop_ok statements optimized pending :
  Forall import_ok optimized -> from_option batch_ok True pending ->
  exists out, optimize_loop d driver_profile max optimized pending statements = Some out /\ Forall import_ok out /\
    concat (map source_sqls out) =
      (concat (map source_sqls optimized) ++ from_option batch_source_sqls [] pending) ++ map contribution statements.
Proof.
  revert optimized pending. induction statements as [|statement statements IH]; intros optimized pending Ho Hp.
  { destruct (flush_ok optimized pending Ho Hp) as [Hf Hcat]. eexists. split; [done|]. by rewrite Hcat, app_nil_r. }
  cbn [optimize_loop map].
  destruct (optimize_statement_ok optimized pending statement Ho Hp) as (o' & p' & -> & Ho' & Hp' & Hcat).
  cbn [mbind option_bind]. destruct (IH o' p' Ho' Hp') as (out & -> & Hout & Hsrc). exists out. split; [done|].
  split; [done|]. by rewrite Hsrc, Hcat, <- app_assoc.
Qed.

(** The optimisation of an import loses nothing, invents nothing and keeps
    the order: it always returns (no index of the text is out of range), the
    source statements its results list are, one after the other, exactly the
    statements of the file, each as it is prepared on its own; and every result
    is one of them unchanged, or stands for two or more adjacent inserts, at most
    the allowed number, that all have the same target, spelled as one statement
    of the target's dialect with the values of each in order.  Inserts are never
    merged for MySQL, and a multi-row statement is at most 4 MiB long. *)
Theorem optimize_accounts_for_statements statements :
  exists out,
    optimize_sql_file_import_statements_with_max_insert_batch_statements statements d driver_profile max = Some out /\
    concat (map source_sqls out) = map contribution statements /\ Forall import_ok out.
Proof.
  destruct (optimize_loop_ok statements [] None) as (out & Hout & Hok & Hsrc); [done|done|].
  exists out. done.
Qed.

End OptimizeSpec.

(** ** Concrete files *)

Section ImportExamples.
#[local] Instance ascii_tables : UnicodeTables := {| is_alphanumeric := is_ascii_alphanumeric |}.

Definition import_postgres (statements : list text) : option (list (text * nat)) :=
  map (fun i => (i.(import_sql), i.(source_statement_count)))
    <$> optimize_sql_file_import_statements statements (Some DatabaseType.Postgres) None.

(** A comment at the end of the values hides the comma that joins them: the merged
    statement has two rows with no separator. *)
Example comment_hides_the_comma :
  import_postgres [txt "INSERT INTO t VALUES (1) -- one"; txt "INSERT INTO t VALUES (2)"]
  = Some [(txt "INSERT INTO t VALUES" ++ [c_newline] ++ txt "(1) -- one," ++ [c_newline] ++ txt "(2)", 2)].
Proof. vm_compute. reflexivity. Qed.

(** A comment before [VALUES] hides the keyword of the merged statement. *)
Example comment_hides_the_keyword :
  import_postgres [txt "INSERT INTO t -- one" ++ [c_newline] ++ txt "VALUES (1)"; txt "INSERT INTO t -- one" ++ [c_newline] ++ txt "VALUES (2)"]
  = Some [(txt "INSERT INTO t -- one VALUES" ++ [c_newline] ++ txt "(1)," ++ [c_newline] ++ txt "(2)", 2)].
Proof. vm_compute. reflexivity. Qed.

End ImportExamples.
