(* ===== verification/SqlSplitter.v ===== *)
(** * The statement splitter

    [crates/dbx-sql-core/src/sql.rs], [SqlStatementSplitter]: splits a script
    that arrives in chunks into the statements to execute, for every dialect
    profile.  One round of the source's loop is [round]; each of its sections
    that ends in [continue] is a definition of its own.  A round gives the next
    state, the statements it emits and the number of characters it consumes. *)

From S2P Require Import Prelude Utf8 SqlDialect SqlLex SqlBlocks SqlScanner.

(** A statement and whether an error in it stops the script. *)
Record SqlStatementWithControl : Type := mkStatement { sql : text; stmt_stop_on_error : bool }.

#[export] Instance SqlStatementWithControl_eq_dec : EqDecision SqlStatementWithControl.
Proof. solve_decision. Defined.

Record SqlStatementSplitter : Type := mkSplitter {
  buffer : text;
  in_single_quote : bool;
  single_quote_escape_string : bool;
  in_double_quote : bool;
  in_backtick : bool;
  in_line_comment : bool;
  block_comment_depth : nat;
  dollar_quote_tag : option text;
  postgres_dollar_quoted_routine : bool;
  previous : option Z;
  pending_mysql_line_comment_dashes : bool;
  oracle_q_quote : OracleQQuoteState;
  oracle_block : PlSql.Tracker;
  custom_delimiter : option text;
  stop_on_error : bool;
  pending_psql_command : option text;
  options : SqlParsingOptions
}.

#[export] Instance set_buffer : Setter buffer := fun v s =>
  mkSplitter v s.(in_single_quote) s.(single_quote_escape_string) s.(in_double_quote)
  s.(in_backtick) s.(in_line_comment) s.(block_comment_depth) s.(dollar_quote_tag)
  s.(postgres_dollar_quoted_routine) s.(previous) s.(pending_mysql_line_comment_dashes)
  s.(oracle_q_quote) s.(oracle_block) s.(custom_delimiter) s.(stop_on_error)
  s.(pending_psql_command) s.(options).
#[export] Instance set_in_single_quote : Setter in_single_quote := fun v s =>
  mkSplitter s.(buffer) v s.(single_quote_escape_string) s.(in_double_quote) s.(in_backtick)
  s.(in_line_comment) s.(block_comment_depth) s.(dollar_quote_tag)
  s.(postgres_dollar_quoted_routine) s.(previous) s.(pending_mysql_line_comment_dashes)
  s.(oracle_q_quote) s.(oracle_block) s.(custom_delimiter) s.(stop_on_error)
  s.(pending_psql_command) s.(options).
#[export] Instance set_single_quote_escape_string : Setter single_quote_escape_string := fun v s =>
  mkSplitter s.(buffer) s.(in_single_quote) v s.(in_double_quote) s.(in_backtick)
  s.(in_line_comment) s.(block_comment_depth) s.(dollar_quote_tag)
  s.(postgres_dollar_quoted_routine) s.(previous) s.(pending_mysql_line_comment_dashes)
  s.(oracle_q_quote) s.(oracle_block) s.(custom_delimiter) s.(stop_on_error)
  s.(pending_psql_command) s.(options).
#[export] Instance set_in_double_quote : Setter in_double_quote := fun v s =>
  mkSplitter s.(buffer) s.(in_single_quote) s.(single_quote_escape_string) v s.(in_backtick)
  s.(in_line_comment) s.(block_comment_depth) s.(dollar_quote_tag)
  s.(postgres_dollar_quoted_routine) s.(previous) s.(pending_mysql_line_comment_dashes)
  s.(oracle_q_quote) s.(oracle_block) s.(custom_delimiter) s.(stop_on_error)
  s.(pending_psql_command) s.(options).
#[export] Instance set_in_backtick : Setter in_backtick := fun v s =>
  mkSplitter s.(buffer) s.(in_single_quote) s.(single_quote_escape_string) s.(in_double_quote) v
  s.(in_line_comment) s.(block_comment_depth) s.(dollar_quote_tag)
  s.(postgres_dollar_quoted_routine) s.(previous) s.(pending_mysql_line_comment_dashes)
  s.(oracle_q_quote) s.(oracle_block) s.(custom_delimiter) s.(stop_on_error)
  s.(pending_psql_command) s.(options).
#[export] Instance set_in_line_comment : Setter in_line_comment := fun v s =>
  mkSplitter s.(buffer) s.(in_single_quote) s.(single_quote_escape_string) s.(in_double_quote)
  s.(in_backtick) v s.(block_comment_depth) s.(dollar_quote_tag) s.(postgres_dollar_quoted_routine)
  s.(previous) s.(pending_mysql_line_comment_dashes) s.(oracle_q_quote) s.(oracle_block)
  s.(custom_delimiter) s.(stop_on_error) s.(pending_psql_command) s.(options).
#[export] Instance set_block_comment_depth : Setter block_comment_depth := fun v s =>
  mkSplitter s.(buffer) s.(in_single_quote) s.(single_quote_escape_string) s.(in_double_quote)
  s.(in_backtick) s.(in_line_comment) v s.(dollar_quote_tag) s.(postgres_dollar_quoted_routine)
  s.(previous) s.(pending_mysql_line_comment_dashes) s.(oracle_q_quote) s.(oracle_block)
  s.(custom_delimiter) s.(stop_on_error) s.(pending_psql_command) s.(options).
#[export] Instance set_dollar_quote_tag : Setter dollar_quote_tag := fun v s =>
  mkSplitter s.(buffer) s.(in_single_quote) s.(single_quote_escape_string) s.(in_double_quote)
  s.(in_backtick) s.(in_line_comment) s.(block_comment_depth) v s.(postgres_dollar_quoted_routine)
  s.(previous) s.(pending_mysql_line_comment_dashes) s.(oracle_q_quote) s.(oracle_block)
  s.(custom_delimiter) s.(stop_on_error) s.(pending_psql_command) s.(options).
#[export] Instance set_postgres_dollar_quoted_routine : Setter postgres_dollar_quoted_routine := fun v s =>
  mkSplitter s.(buffer) s.(in_single_quote) s.(single_quote_escape_string) s.(in_double_quote)
  s.(in_backtick) s.(in_line_comment) s.(block_comment_depth) s.(dollar_quote_tag) v s.(previous)
  s.(pending_mysql_line_comment_dashes) s.(oracle_q_quote) s.(oracle_block) s.(custom_delimiter)
  s.(stop_on_error) s.(pending_psql_command) s.(options).
#[export] Instance set_previous : Setter previous := fun v s =>
  mkSplitter s.(buffer) s.(in_single_quote) s.(single_quote_escape_string) s.(in_double_quote)
  s.(in_backtick) s.(in_line_comment) s.(block_comment_depth) s.(dollar_quote_tag)
  s.(postgres_dollar_quoted_routine) v s.(pending_mysql_line_comment_dashes) s.(oracle_q_quote)
  s.(oracle_block) s.(custom_delimiter) s.(stop_on_error) s.(pending_psql_command) s.(options).
#[export] Instance set_pending_mysql_line_comment_dashes : Setter pending_mysql_line_comment_dashes := fun v s =>
  mkSplitter s.(buffer) s.(in_single_quote) s.(single_quote_escape_string) s.(in_double_quote)
  s.(in_backtick) s.(in_line_comment) s.(block_comment_depth) s.(dollar_quote_tag)
  s.(postgres_dollar_quoted_routine) s.(previous) v s.(oracle_q_quote) s.(oracle_block)
  s.(custom_delimiter) s.(stop_on_error) s.(pending_psql_command) s.(options).
#[export] Instance set_oracle_q_quote : Setter oracle_q_quote := fun v s =>
  mkSplitter s.(buffer) s.(in_single_quote) s.(single_quote_escape_string) s.(in_double_quote)
  s.(in_backtick) s.(in_line_comment) s.(block_comment_depth) s.(dollar_quote_tag)
  s.(postgres_dollar_quoted_routine) s.(previous) s.(pending_mysql_line_comment_dashes) v
  s.(oracle_block) s.(custom_delimiter) s.(stop_on_error) s.(pending_psql_command) s.(options).
#[export] Instance set_oracle_block : Setter oracle_block := fun v s =>
  mkSplitter s.(buffer) s.(in_single_quote) s.(single_quote_escape_string) s.(in_double_quote)
  s.(in_backtick) s.(in_line_comment) s.(block_comment_depth) s.(dollar_quote_tag)
  s.(postgres_dollar_quoted_routine) s.(previous) s.(pending_mysql_line_comment_dashes)
  s.(oracle_q_quote) v s.(custom_delimiter) s.(stop_on_error) s.(pending_psql_command) s.(options).
#[export] Instance set_custom_delimiter : Setter custom_delimiter := fun v s =>
  mkSplitter s.(buffer) s.(in_single_quote) s.(single_quote_escape_string) s.(in_double_quote)
  s.(in_backtick) s.(in_line_comment) s.(block_comment_depth) s.(dollar_quote_tag)
  s.(postgres_dollar_quoted_routine) s.(previous) s.(pending_mysql_line_comment_dashes)
  s.(oracle_q_quote) s.(oracle_block) v s.(stop_on_error) s.(pending_psql_command) s.(options).
#[export] Instance set_stop_on_error : Setter stop_on_error := fun v s =>
  mkSplitter s.(buffer) s.(in_single_quote) s.(single_quote_escape_string) s.(in_double_quote)
  s.(in_backtick) s.(in_line_comment) s.(block_comment_depth) s.(dollar_quote_tag)
  s.(postgres_dollar_quoted_routine) s.(previous) s.(pending_mysql_line_comment_dashes)
  s.(oracle_q_quote) s.(oracle_block) s.(custom_delimiter) v s.(pending_psql_command) s.(options).
#[export] Instance set_pending_psql_command : Setter pending_psql_command := fun v s =>
  mkSplitter s.(buffer) s.(in_single_quote) s.(single_quote_escape_string) s.(in_double_quote)
  s.(in_backtick) s.(in_line_comment) s.(block_comment_depth) s.(dollar_quote_tag)
  s.(postgres_dollar_quoted_routine) s.(previous) s.(pending_mysql_line_comment_dashes)
  s.(oracle_q_quote) s.(oracle_block) s.(custom_delimiter) s.(stop_on_error) v s.(options).
#[export] Instance set_options : Setter options := fun v s =>
  mkSplitter s.(buffer) s.(in_single_quote) s.(single_quote_escape_string) s.(in_double_quote)
  s.(in_backtick) s.(in_line_comment) s.(block_comment_depth) s.(dollar_quote_tag)
  s.(postgres_dollar_quoted_routine) s.(previous) s.(pending_mysql_line_comment_dashes)
  s.(oracle_q_quote) s.(oracle_block) s.(custom_delimiter) s.(stop_on_error)
  s.(pending_psql_command) v.

(** [SqlStatementSplitter::with_options]. *)
Definition with_options (o : SqlParsingOptions) : SqlStatementSplitter := {|
  buffer := []; in_single_quote := false; single_quote_escape_string := false; in_double_quote := false;
  in_backtick := false; in_line_comment := false; block_comment_depth := 0; dollar_quote_tag := None;
  postgres_dollar_quoted_routine := false; previous := None; pending_mysql_line_comment_dashes := false;
  oracle_q_quote := no_q_quote; oracle_block := PlSql.tracker_new; custom_delimiter := None;
  stop_on_error := false; pending_psql_command := None; options := o |}.

(** The profile in force. *)
Definition prof (s : SqlStatementSplitter) : SqlDialectProfile := s.(options).(profile).

(** [self.buffer.push(ch)], alone and with [self.previous = Some(ch)]. *)
Definition push (s : SqlStatementSplitter) (c : Z) : SqlStatementSplitter := s <| buffer := s.(buffer) ++ [c] |>.
Definition advance (s : SqlStatementSplitter) (c : Z) : SqlStatementSplitter := push s c <| previous := Some c |>.

(** The pushes of a whole tag. *)
Definition advance_all (s : SqlStatementSplitter) (tag : text) : SqlStatementSplitter := foldl advance s tag.

Definition in_quotes (s : SqlStatementSplitter) : bool := s.(in_single_quote) || s.(in_double_quote) || s.(in_backtick).

Definition can_start_file_directive (s : SqlStatementSplitter) : bool :=
  negb s.(in_single_quote) && negb s.(in_double_quote) && negb s.(in_backtick) && negb s.(in_line_comment)
  && (s.(block_comment_depth) =? 0)%nat && bool_decide (s.(dollar_quote_tag) = None)
  && negb (q_is_open s.(oracle_q_quote)) && bool_decide (s.(pending_psql_command) = None).

Definition is_at_file_directive_boundary (s : SqlStatementSplitter) : bool :=
  can_start_file_directive s && negb (has_executable_sql_with_options s.(buffer) s.(options)).

(** The statement to emit for a piece of text, if it has something to execute. *)
Definition emit (s : SqlStatementSplitter) (piece : text) : list SqlStatementWithControl :=
  if has_executable_sql_with_options piece s.(options) then [mkStatement piece s.(stop_on_error)] else [].

(** The buffer and what belongs to the statement in it start over. *)
Definition clear_statement (s : SqlStatementSplitter) : SqlStatementSplitter :=
  s <| buffer := [] |> <| oracle_block := PlSql.tracker_new |> <| postgres_dollar_quoted_routine := false |>
    <| previous := None |>.

Definition push_current_statement (s : SqlStatementSplitter) : SqlStatementSplitter * list SqlStatementWithControl :=
  (clear_statement s <| pending_mysql_line_comment_dashes := false |>, emit s (trim_chars s.(buffer))).

Definition single_quote_backslash_escapes (s : SqlStatementSplitter) : bool :=
  if s.(in_single_quote) then s.(single_quote_escape_string) else (prof s).(supports_backslash_escaped_quotes).

Definition on_delimiter_line (s : SqlStatementSplitter) : bool :=
  let line := trim_chars_start (last_line s.(buffer)) in
  (9 <=? length line)%nat && eq_ignore_ascii_case (take 9 line) (txt "delimiter")
  && negb (has_executable_sql_with_options (trim_chars (before_last_line s.(buffer))) s.(options)).

Definition round_result : Type := SqlStatementSplitter * list SqlStatementWithControl * nat.

(** A round that pushes the character and emits nothing. *)
Definition keep (s : SqlStatementSplitter) : round_result := (s, [], 1).

(** ** Sections of the loop *)

Section Loop.
Context `{UnicodeTables, SqlTokenizer}.

(** [finish_psql_command] for the command taken from the state; [rec] is the
    recursive call of [push_chunk_with_control]. *)
Definition finish_psql_command (rec : SqlStatementSplitter -> text -> SqlStatementSplitter * list SqlStatementWithControl)
    (s : SqlStatementSplitter) (command : text) : SqlStatementSplitter * list SqlStatementWithControl :=
  let s := s <| pending_psql_command := None |> in
  let set_psql (b : bool) (s : SqlStatementSplitter) :=
    s <| options := mkOptions (prof s <| supports_psql_control_commands := b |>) |> in
  match parse_ignorable_psql_control_command (trim_chars command) with
  | Some control => (s <| stop_on_error := s.(stop_on_error) || bool_decide (control = OnErrorStop) |>, [])
  | None => let '(s', out) := rec (set_psql false s) command in (set_psql true s', out)
  end.

(** A psql command that this character may start. *)
Definition starts_psql_command (s : SqlStatementSplitter) (c : Z) : bool :=
  (prof s).(supports_psql_control_commands) && (c =? c_backslash)%Z && negb (in_quotes s)
  && negb s.(in_line_comment) && (s.(block_comment_depth) =? 0)%nat && bool_decide (s.(dollar_quote_tag) = None)
  && bool_decide (trim_chars (last_line s.(buffer)) = []).

(** Inside a dollar-quoted string. *)
Definition round_dollar (s : SqlStatementSplitter) (tag : text) (c : Z) (rest : text) : round_result :=
  if starts_with_chars (c :: rest) tag
  then (advance_all s tag <| dollar_quote_tag := None |>, [], length tag)
  else keep (advance s c).

Definition round_line_comment (s : SqlStatementSplitter) (c : Z) : round_result :=
  keep (advance s c <| in_line_comment := negb (c =? c_newline)%Z |>).

Definition round_block_comment (s : SqlStatementSplitter) (c : Z) : round_result :=
  if (prof s).(supports_nested_block_comments) && opt_is s.(previous) c_slash && (c =? c_star)%Z
  then keep (push s c <| block_comment_depth := S s.(block_comment_depth) |> <| previous := None |>)
  else if opt_is s.(previous) c_star && (c =? c_slash)%Z
  then keep (advance s c <| block_comment_depth := s.(block_comment_depth) - 1 |>)
  else keep (advance s c).

Definition round_q_quote (s : SqlStatementSplitter) (c : Z) : round_result :=
  keep (advance s c <| oracle_q_quote := q_consume s.(oracle_q_quote) c s.(previous) |>).

(** The opener of a comment, a dollar-quoted string or a [q'...'] literal, outside quotes. *)
Definition round_opener (s : SqlStatementSplitter) (c : Z) (rest : text) : option round_result :=
  let p := prof s in
  let next := head rest in
  let open_comment := keep (push s c <| block_comment_depth := 1 |> <| previous := None |>) in
  if p.(supports_oracle_q_quotes) && (c =? c_quote)%Z && ends_with_oracle_q_quote_prefix s.(buffer)
  then Some (keep (advance s c <| oracle_q_quote := mkQQuote true s.(oracle_q_quote).(closer) |>))
  else if opt_is s.(previous) c_dash && (c =? c_dash)%Z
          && p.(requires_whitespace_after_line_comment_dashes) && bool_decide (next = None)
  then Some (keep (advance s c <| pending_mysql_line_comment_dashes := true |>))
  else if opt_is s.(previous) c_dash && (c =? c_dash)%Z && dash_dash_starts_line_comment p next
  then Some (keep (advance s c <| in_line_comment := true |>))
  else if opt_is s.(previous) c_slash && (c =? c_star)%Z then Some open_comment
  else if p.(supports_hash_line_comments) && (c =? c_hash)%Z
  then Some (keep (advance s c <| in_line_comment := true |>))
  else if (c =? c_slash)%Z && opt_is next c_star then Some open_comment
  else match (if p.(supports_dollar_quoted_strings) then dollar_quote_tag_at (c :: rest) else None) with
  | Some tag =>
    if bool_decide (s.(custom_delimiter) = None) && negb (on_delimiter_line s) then
      let routine := p.(supports_postgres_dollar_quoted_routines)
                     && PlSql.starts_with_postgres_dollar_quoted_routine_prefix s.(buffer) in
      Some (advance_all s tag <| postgres_dollar_quoted_routine := s.(postgres_dollar_quoted_routine) || routine |>
              <| dollar_quote_tag := Some tag |>, [], length tag)
    else None
  | None => None
  end.

(** The pieces of the body between the boundaries, each pushed as a statement. *)
Fixpoint push_pieces (s : SqlStatementSplitter) (body : text) (piece_from : nat) (boundaries : list nat)
    : SqlStatementSplitter * list SqlStatementWithControl * nat :=
  match boundaries with
  | [] => (s, [], piece_from)
  | boundary_end :: boundaries' =>
    let '(s', out) := push_current_statement (s <| buffer := slice piece_from boundary_end body |>) in
    let '(s'', out', last) := push_pieces s' body boundary_end boundaries' in
    (s'', out ++ out', last)
  end.

(** The [;] of a control-flow batch, already in the buffer after [body]. *)
Definition sqlserver_semicolon (s : SqlStatementSplitter) (body : text) (c : Z)
    : SqlStatementSplitter * list SqlStatementWithControl :=
  match SqlServer.sqlserver_boundaries (S (length body)) 0 body with
  | [] => push_current_statement s
  | boundaries =>
    let '(s', out, piece_from) := push_pieces s body 0 boundaries in
    let trailing := drop piece_from body in
    if bool_decide (trim_chars trailing = []) then (s' <| buffer := [] |>, out)
    else
      let s' := s' <| buffer := trailing |> in
      if SqlServer.keeps_sqlserver_control_flow_batch s'.(options) trailing then
        let s' := push s' c in
        if SqlServer.sqlserver_control_flow_batch_is_complete trailing
        then let '(s'', out') := push_current_statement s' in (s'', out ++ out')
        else (s', out)
      else let '(s'', out') := push_current_statement s' in (s'', out ++ out')
  end.

(** A [;] outside quotes. *)
Definition semicolon (s : SqlStatementSplitter) (c : Z) : SqlStatementSplitter * list SqlStatementWithControl :=
  let p := prof s in
  let flush_if (complete : bool) (s : SqlStatementSplitter) := if complete then push_current_statement s else (s, []) in
  if ends_with_xml_entity_reference s.(buffer) then (push s c, [])
  else if (p.(supports_custom_delimiter_commands) && on_delimiter_line s)
          || bool_decide (is_Some s.(custom_delimiter)) then (push s c, [])
  else if p.(supports_mysql_routine_blocks) && MysqlRoutine.starts_with_mysql_routine_block s.(buffer) then
    if MysqlRoutine.mysql_routine_block_is_complete (s.(buffer) ++ [c]) then push_current_statement s
    else (push s c, [])
  else
    let '(keeps, tracker) :=
      if s.(postgres_dollar_quoted_routine) then (false, s.(oracle_block))
      else PlSql.tracker_keeps_block_together s.(options) s.(oracle_block) s.(buffer) in
    let s := s <| oracle_block := tracker |> in
    if keeps then
      let s := push s c in
      let '(complete, tracker) := PlSql.tracker_is_complete s.(oracle_block) s.(buffer) in
      flush_if complete (s <| oracle_block := tracker |>)
    else if p.(supports_hana_script_blocks) && starts_with_hana_script_block s.(buffer) then
      let s := push s c in flush_if (hana_script_block_is_complete s.(buffer)) s
    else if p.(supports_firebird_routine_blocks) && starts_with_firebird_routine_block s.(buffer) then
      let s := push s c in flush_if (firebird_routine_block_is_complete s.(buffer)) s
    else if SqlServer.keeps_sqlserver_control_flow_batch s.(options) s.(buffer) then
      let body := s.(buffer) in
      let s := push s c in
      if SqlServer.sqlserver_control_flow_batch_is_complete s.(buffer) then sqlserver_semicolon s body c else (s, [])
    else push_current_statement s.

(** The [match ch] of the loop. *)
Definition character (s : SqlStatementSplitter) (c : Z) : SqlStatementSplitter * list SqlStatementWithControl :=
  let p := prof s in
  if (c =? c_quote)%Z
     && negb (s.(in_double_quote) || s.(in_backtick)
              || (single_quote_backslash_escapes s && has_odd_trailing_backslashes s.(buffer))) then
    let opens := negb s.(in_single_quote) in
    (push (s <| in_single_quote := opens |>
             <| single_quote_escape_string :=
                  opens && (p.(supports_backslash_escaped_quotes)
                            || (p.(supports_postgres_escape_strings) && ends_with_escape_string_prefix s.(buffer))) |>) c,
     [])
  else if (c =? c_dquote)%Z
     && negb (s.(in_single_quote) || s.(in_backtick)
              || (p.(supports_backslash_escaped_quotes) && has_odd_trailing_backslashes s.(buffer))) then
    (push (s <| in_double_quote := negb s.(in_double_quote) |>) c, [])
  else if (c =? c_backtick)%Z && p.(supports_backtick_identifiers)
          && negb s.(in_single_quote) && negb s.(in_double_quote) then
    (push (s <| in_backtick := negb s.(in_backtick) |>) c, [])
  else if (c =? c_semicolon)%Z && negb (in_quotes s) then semicolon s c
  else (push s c, []).

(** A line [/] or [DELIMITER x] that has just ended outside quotes: the
    statements and the state after it.  [line_start] is the buffer before it. *)
Definition line_command (s : SqlStatementSplitter)
    : option (SqlStatementSplitter * list SqlStatementWithControl) :=
  let p := prof s in
  let buffer := removelast s.(buffer) in
  let line_start := before_last_line buffer in
  let line := trim_chars (last_line buffer) in
  if p.(supports_slash_line_block_delimiter) && bool_decide (line = [c_slash])
  then Some (clear_statement s, emit s (trim_chars line_start))
  else if p.(supports_custom_delimiter_commands) then
    match parse_delimiter_command line with
    | Some new_delim =>
      if has_executable_sql_with_options line_start s.(options) then None
      else
        let delimiter := if bool_decide (new_delim = [c_semicolon]) then None else Some new_delim in
        Some (clear_statement (s <| custom_delimiter := delimiter |>),
              if bool_decide (line_start = []) then [] else emit s (trim_chars line_start))
    | None => None
    end
  else None.

(** The custom delimiter, when the buffer has just come to end with it. *)
Definition delimiter_check (s : SqlStatementSplitter) : SqlStatementSplitter * list SqlStatementWithControl :=
  match s.(custom_delimiter) with
  | Some delim =>
    if bool_decide (delim `suffix_of` s.(buffer)) && negb (on_delimiter_line s)
    then push_current_statement (s <| buffer := take (length s.(buffer) - length delim) s.(buffer) |>)
    else (s, [])
  | None => (s, [])
  end.

(** The rest of a round, from the [match ch] on. *)
Definition round_main (s : SqlStatementSplitter) (c : Z) : round_result :=
  let '(s1, out1) := character s c in
  if in_quotes s1 || bool_decide (is_Some s1.(dollar_quote_tag)) then (s1 <| previous := Some c |>, out1, 1)
  else match (if (c =? c_newline)%Z then line_command s1 else None) with
  | Some (s2, out2) => (s2, out1 ++ out2, 1)
  | None =>
    let '(s2, out2) := delimiter_check s1 in
    (s2 <| previous := Some c |>, out1 ++ out2, 1)
  end.

(** One round of the loop at the character [c] with [rest] after it. *)
Definition round (rec : SqlStatementSplitter -> text -> SqlStatementSplitter * list SqlStatementWithControl)
    (s : SqlStatementSplitter) (c : Z) (rest : text) : round_result :=
  match s.(pending_psql_command) with
  | Some command =>
    if (c =? c_newline)%Z then let '(s', out) := finish_psql_command rec s (command ++ [c]) in (s', out, 1)
    else keep (s <| pending_psql_command := Some (command ++ [c]) |>)
  | None =>
    if starts_psql_command s c then keep (s <| pending_psql_command := Some [c_backslash] |>)
    else match s.(dollar_quote_tag) with
    | Some tag => round_dollar s tag c rest
    | None =>
      if s.(in_line_comment) then round_line_comment s c
      else if (0 <? s.(block_comment_depth))%nat then round_block_comment s c
      else if q_is_open s.(oracle_q_quote) then round_q_quote s c
      else match (if in_quotes s then None else round_opener s c rest) with
      | Some r => r
      | None => round_main s c
      end
    end
  end.

(** The loop; [skip] characters were consumed with a tag. *)
Fixpoint push_loop (rec : SqlStatementSplitter -> text -> SqlStatementSplitter * list SqlStatementWithControl)
    (skip : nat) (s : SqlStatementSplitter) (chunk : text) : SqlStatementSplitter * list SqlStatementWithControl :=
  match chunk with
  | [] => (s, [])
  | c :: rest =>
    match skip with
    | S skip' => push_loop rec skip' s rest
    | 0 =>
      let '(s', out, consumed) := round rec s c rest in
      let '(s'', out') := push_loop rec (consumed - 1) s' rest in
      (s'', out ++ out')
    end
  end.

(** What a chunk's first character decides about dashes that ended the last one. *)
Definition begin_chunk (s : SqlStatementSplitter) (chunk : text) : SqlStatementSplitter :=
  match chunk with
  | first :: _ =>
    if s.(pending_mysql_line_comment_dashes) then
      s <| in_line_comment := dash_dash_starts_line_comment (prof s) (Some first) |>
        <| pending_mysql_line_comment_dashes := false |>
    else s
  | [] => s
  end.

(** [push_chunk_with_control] to the given depth of recursion. *)
Fixpoint push_chunk_fuel (fuel : nat) (s : SqlStatementSplitter) (chunk : text)
    : SqlStatementSplitter * list SqlStatementWithControl :=
  match fuel with
  | 0 => (s, [])
  | S fuel' => push_loop (push_chunk_fuel fuel') 0 (begin_chunk s chunk) chunk
  end.

(** A psql command is scanned with the commands switched off, so the recursion
    is two deep ([push_chunk_fuel_enough]). *)
Definition push_chunk_with_control : SqlStatementSplitter -> text -> SqlStatementSplitter * list SqlStatementWithControl :=
  push_chunk_fuel 2.

Definition push_chunk (s : SqlStatementSplitter) (chunk : text) : SqlStatementSplitter * list text :=
  let '(s', out) := push_chunk_with_control s chunk in (s', map sql out).

Definition finish_with_control (s : SqlStatementSplitter) : list SqlStatementWithControl :=
  let '(s, out) :=
    match s.(pending_psql_command) with
    | Some command => finish_psql_command push_chunk_with_control s command
    | None => (s, [])
    end in
  let s := if s.(pending_mysql_line_comment_dashes)
           then s <| in_line_comment := true |> <| pending_mysql_line_comment_dashes := false |> else s in
  let p := prof s in
  let trimmed := trim_chars s.(buffer) in
  let line := trim_chars (last_line trimmed) in
  let before := trim_chars (removelast (before_last_line trimmed)) in
  let is_delimiter_line :=
    p.(supports_custom_delimiter_commands) && bool_decide (is_Some (parse_delimiter_command line))
    && negb (has_executable_sql_with_options before s.(options)) in
  if is_delimiter_line || (p.(supports_slash_line_block_delimiter) && bool_decide (line = [c_slash])) then
    out ++ emit s before ++ (push_current_statement (s <| buffer := [] |>)).2
  else
    let s := match s.(custom_delimiter) with
             | Some delim =>
               if bool_decide (delim `suffix_of` s.(buffer))
               then s <| buffer := take (length s.(buffer) - length delim) s.(buffer) |> else s
             | None => s
             end in
    out ++ (push_current_statement s).2.

Definition finish (s : SqlStatementSplitter) : list text := map sql (finish_with_control s).

Definition split_sql_statements_with_options (script : text) (o : SqlParsingOptions) : list text :=
  let '(s, out) := push_chunk (with_options o) script in out ++ finish s.

Definition split_sql_statements (script : text) : list text := split_sql_statements_with_options script Options.default.

(** The statements to execute, and whether an error stops the script. *)
Record SqlExecutionPlan : Type := mkPlan { statements : list text; plan_stop_on_error : bool }.

Definition sql_execution_plan_with_options (script : text) (o : SqlParsingOptions) : SqlExecutionPlan :=
  if negb o.(profile).(supports_psql_control_commands)
  then mkPlan (split_sql_statements_with_options script o) false
  else
    let '(script, stop) := preprocess_psql_control_commands script o.(profile) in
    mkPlan
      (split_sql_statements_with_options script (mkOptions (o.(profile) <| supports_psql_control_commands := false |>)))
      stop.

Definition sql_execution_plan_for_database (script : text) (d : DatabaseType.t) : SqlExecutionPlan :=
  sql_execution_plan_with_options script (Options.for_database_type d).

Definition split_sql_statements_for_database (script : text) (d : DatabaseType.t) : list text :=
  (sql_execution_plan_for_database script d).(statements).

Definition sql_execution_plan_for_database_with_compatibility (script : text) (d : DatabaseType.t) (mode : option text)
    : SqlExecutionPlan :=
  sql_execution_plan_with_options script (Options.for_database_type_and_compatibility d mode).

Definition split_sql_statements_for_database_with_compatibility (script : text) (d : DatabaseType.t)
    (mode : option text) : list text :=
  (sql_execution_plan_for_database_with_compatibility script d mode).(statements).

End Loop.
