(* ===== verification/SqlSplitterSpec.v ===== *)
(** * What the statement splitter guarantees

    Theorems about [SqlStatementSplitter] (SqlSplitter.v) for every dialect: the
    lexical state stays well formed, the recursion for psql commands ends, a
    script is cut into pieces and terminators of which nothing else is lost,
    every emitted statement has something to execute, and a script may be fed
    line by line. *)

From S2P Require Import Prelude Utf8 SqlDialect SqlLex SqlBlocks SqlScanner SqlSplitter.

(** ** Well-formed states *)

(** The lexical contexts of a state. *)
Definition lexical (s : SqlStatementSplitter) :=
  (s.(in_single_quote), s.(in_double_quote), s.(in_backtick), s.(in_line_comment), s.(block_comment_depth),
   s.(dollar_quote_tag), s.(oracle_q_quote)).

(** What governs the rest of the script. *)
Definition control (s : SqlStatementSplitter) :=
  (s.(options), s.(stop_on_error), s.(pending_psql_command), s.(custom_delimiter)).

(** The number of quotes, comments and literals the state is in. *)
Definition contexts (s : SqlStatementSplitter) : nat :=
  let '(single, double, backtick, line, depth, tag, q) := lexical s in
  Nat.b2n single + Nat.b2n double + Nat.b2n backtick + Nat.b2n line + Nat.b2n (0 <? depth)%nat
  + Nat.b2n (match tag with Some _ => true | None => false end) + Nat.b2n (q_is_open q).

Record wf (s : SqlStatementSplitter) : Prop := {
  wf_contexts : contexts s <= 1;
  wf_dashes : s.(pending_mysql_line_comment_dashes) = true -> contexts s = 0;
  wf_tag tag : s.(dollar_quote_tag) = Some tag -> tag <> [] /\ c_newline ∉ tag;
}.

Lemma contexts_lexical s s' : lexical s = lexical s' -> contexts s = contexts s'.
Proof. unfold contexts. by intros ->. Qed.

Lemma wf_lexical s s' :
  lexical s = lexical s' -> s'.(pending_mysql_line_comment_dashes) = false \/
    s'.(pending_mysql_line_comment_dashes) = s.(pending_mysql_line_comment_dashes) -> wf s -> wf s'.
Proof.
  intros Hl Hp [Hc Hd Ht]. pose proof (contexts_lexical _ _ Hl) as Hcc.
  assert (dollar_quote_tag s' = dollar_quote_tag s) as Hq by (unfold lexical in Hl; by simplify_eq).
  split; rewrite <- ?Hcc, ?Hq; [done| |done]. destruct Hp as [-> | ->]; auto; done.
Qed.

(** The state emits and clears without changing its contexts. *)
Lemma push_current_lexical s : lexical (push_current_statement s).1 = lexical s.
Proof. done. Qed.

Lemma push_current_control s : control (push_current_statement s).1 = control s.
Proof. done. Qed.

Lemma push_current_pending s : (push_current_statement s).1.(pending_mysql_line_comment_dashes) = false.
Proof. done. Qed.

(** A state reached by emitting and clearing. *)
Definition same_lexis (s s' : SqlStatementSplitter) : Prop :=
  lexical s' = lexical s /\ control s' = control s /\
  (s'.(pending_mysql_line_comment_dashes) = false \/
   s'.(pending_mysql_line_comment_dashes) = s.(pending_mysql_line_comment_dashes)).

#[export] Instance same_lexis_preorder : PreOrder same_lexis.
Proof.
  split; [unfold same_lexis; by intuition|]. intros s1 s2 s3 (?&?&H1) (?&?&H2).
  split_and!; [congruence|congruence|]. destruct H2 as [-> | ->]; [by left|done].
Qed.

(** Emitting, pushing and clearing keep the contexts. *)
Ltac lexis := unfold same_lexis; by auto.

Lemma push_current_same s : same_lexis s (push_current_statement s).1.
Proof. lexis. Qed.

Lemma set_buffer_same s b : same_lexis s (s <| buffer := b |>).
Proof. lexis. Qed.

Lemma push_same s c : same_lexis s (push s c).
Proof. lexis. Qed.

Lemma set_tracker_same s t : same_lexis s (s <| oracle_block := t |>).
Proof. lexis. Qed.

(** A tag starts the text it was read from, and has no line end. *)
Lemma dollar_tag_prefix s tag : dollar_quote_tag_at s = Some tag -> tag `prefix_of` s.
Proof.
  unfold dollar_quote_tag_at. destruct s as [|a [|b rest]]; [done|done|].
  destruct (Z.eqb_spec a c_dollar) as [->|]; simpl; [|done].
  destruct (Z.eqb_spec b c_dollar) as [->|]; [intros; simplify_eq; by eexists|].
  case_match; [|done]. pose proof (span_app (fun c => is_ascii_alphanumeric c || (c =? c_underscore)%Z) rest) as Hs.
  destruct (span _ rest) as [w after]. simpl in Hs. unfold opt_is. destruct after as [|d after]; simpl; [done|].
  destruct (Z.eqb_spec d c_dollar) as [->|]; [|done]. intros; simplify_eq. exists after. simpl. by rewrite <- app_assoc.
Qed.

Lemma dollar_tag_clean s tag : dollar_quote_tag_at s = Some tag -> tag <> [] /\ c_newline ∉ tag.
Proof.
  unfold dollar_quote_tag_at. destruct s as [|a [|b rest]]; [done|done|].
  destruct (negb (a =? c_dollar)%Z); [done|].
  destruct (Z.eqb_spec b c_dollar) as [->|]; [intros; simplify_eq; split; [done|set_solver]|].
  destruct (is_token_char b) eqn:Eb; [|done].
  pose proof (span_all (fun c => is_ascii_alphanumeric c || (c =? c_underscore)%Z) rest) as Hs.
  destruct (span _ rest) as [w after]. case_match; [|done]. intros; simplify_eq. split; [done|].
  simpl in Hs. rewrite Forall_forall in Hs. rewrite !elem_of_cons, elem_of_app, list_elem_of_singleton.
  intros [?|[<-|[Hw%Hs|?]]]; done.
Qed.

(** ** Cutting a text *)

(** What the splitter may drop after a piece of text. *)
Inductive terminator : text -> Prop :=
| terminator_none : terminator []
| terminator_semicolon : terminator [c_semicolon]
| terminator_delimiter line d : parse_delimiter_command line = Some d -> terminator d
| terminator_slash_line t : trim_chars t = [c_slash] -> terminator t
| terminator_command t d : parse_delimiter_command t = Some d -> terminator t.

(** A text as pieces with their terminators, and the statements among them. *)
Definition joined (l : list (text * text)) : text := concat (map (fun '(piece, t) => piece ++ t) l).
Definition statements_of (o : SqlParsingOptions) (l : list (text * text)) : list text :=
  List.filter (fun p => has_executable_sql_with_options p o) (map (fun '(piece, _) => trim_chars piece) l).

(** Reading [consumed] with [b] in the buffer emits [out] and leaves [b']. *)
Definition cut (o : SqlParsingOptions) (b consumed b' : text) (out : list SqlStatementWithControl) : Prop :=
  exists l, b ++ consumed = joined l ++ b' /\ map sql out = statements_of o l /\ Forall (fun p => terminator p.2) l.

Lemma joined_app l l' : joined (l ++ l') = joined l ++ joined l'.
Proof. unfold joined. by rewrite map_app, concat_app. Qed.

Lemma statements_of_app o l l' : statements_of o (l ++ l') = statements_of o l ++ statements_of o l'.
Proof. unfold statements_of. by rewrite map_app, List.filter_app. Qed.

Lemma cut_app o b1 t1 b2 out1 t2 b3 out2 :
  cut o b1 t1 b2 out1 -> cut o b2 t2 b3 out2 -> cut o b1 (t1 ++ t2) b3 (out1 ++ out2).
Proof.
  intros (l1 & H1 & Ho1 & Ht1) (l2 & H2 & Ho2 & Ht2). exists (l1 ++ l2). split_and!.
  - rewrite app_assoc, H1, joined_app, <- !app_assoc. by f_equal.
  - by rewrite map_app, statements_of_app, Ho1, Ho2.
  - by apply Forall_app.
Qed.

Lemma cut_none o b t b' : b' = b ++ t -> cut o b t b' [].
Proof. intros ->. exists []. by rewrite Forall_nil. Qed.

Lemma statements_of_nil o piece t : trim_chars piece = [] -> statements_of o [(piece, t)] = [].
Proof. unfold statements_of. simpl. by intros ->. Qed.

Lemma map_sql_emit s piece t : map sql (emit s (trim_chars piece)) = statements_of s.(options) [(piece, t)].
Proof. unfold emit, statements_of. simpl. by case_match. Qed.

(** The piece [piece] with terminator [t] is emitted, if there is something to
    execute in it. *)
Lemma cut_emit s o b consumed piece t b' : s.(options) = o -> terminator t -> b ++ consumed = piece ++ t ++ b' ->
  cut o b consumed b' (emit s (trim_chars piece)).
Proof.
  intros <- Ht Hb. exists [(piece, t)]. split_and!.
  - unfold joined. simpl. by rewrite app_nil_r, <- app_assoc.
  - apply map_sql_emit.
  - by constructor.
Qed.

Lemma last_line_split s : before_last_line s ++ last_line s = s.
Proof.
  unfold before_last_line, last_line. rewrite <- reverse_app, span_app. apply reverse_involutive.
Qed.

Lemma parse_delimiter_trim line : parse_delimiter_command (trim_chars line) = parse_delimiter_command line.
Proof. unfold parse_delimiter_command. by rewrite trim_chars_idemp. Qed.

Lemma trim_snoc_newline t : trim_chars (t ++ [c_newline]) = trim_chars t.
Proof. by apply trim_chars_ws_r; constructor. Qed.

Lemma before_last_line_snoc s : before_last_line s = [] \/ exists y, before_last_line s = y ++ [c_newline].
Proof.
  unfold before_last_line. pose proof (span_stop (fun c => negb (c =? c_newline)%Z) (reverse s)) as Hs.
  destruct (span _ _).2 as [|c l]; [by left|]. right. exists (reverse l). rewrite reverse_cons.
  apply negb_false_iff, Z.eqb_eq in Hs. by rewrite Hs.
Qed.

Lemma trim_before_last_line s : trim_chars (removelast (before_last_line s)) = trim_chars (before_last_line s).
Proof.
  destruct (before_last_line_snoc s) as [->|[y ->]]; [done|]. by rewrite removelast_last, trim_snoc_newline.
Qed.

Section Splitter.
Context `{Unicode : UnicodeTables, Tokens : SqlTokenizer}.

Lemma push_pieces_same s body from boundaries : same_lexis s (push_pieces s body from boundaries).1.1.
Proof.
  revert s from. induction boundaries as [|b boundaries IH]; intros s from; simpl; [done|].
  specialize (IH (push_current_statement (s <| buffer := slice from b body |>)).1 b). simpl in *.
  destruct (push_pieces _ body b boundaries) as [[s2 out] l]. etrans; [|exact IH]. lexis.
Qed.

Lemma sqlserver_semicolon_same s body c : same_lexis s (sqlserver_semicolon s body c).1.
Proof.
  unfold sqlserver_semicolon. destruct (SqlServer.sqlserver_boundaries _ _ _) as [|b bs] eqn:E; [lexis|].
  rewrite <- E. pose proof (push_pieces_same s body 0 (SqlServer.sqlserver_boundaries (S (length body)) 0 body)) as Hp.
  destruct (push_pieces _ _ _ _) as [[s' out] from]. simpl in Hp.
  repeat (case_match; simplify_eq/=); (etrans; [exact Hp|]); lexis.
Qed.

Lemma semicolon_same s c : same_lexis s (semicolon s c).1.
Proof.
  unfold semicolon. cbv zeta.
  destruct (ends_with_xml_entity_reference _); [apply push_same|].
  destruct (_ || _); [apply push_same|]. destruct (_ && _); [case_match; lexis|].
  destruct (if postgres_dollar_quoted_routine s then _ else _) as [keeps tracker].
  set (s1 := s <| oracle_block := tracker |>). assert (same_lexis s s1) as Hs1 by apply set_tracker_same.
  etrans; [exact Hs1|]. clearbody s1. destruct keeps.
  { destruct (PlSql.tracker_is_complete _ _) as [complete tracker']. case_match; lexis. }
  destruct (_ && _); [case_match; lexis|].
  destruct (_ && _); [case_match; lexis|].
  case_match; [|lexis]. case_match; [|lexis].
  etrans; [apply (push_same s1 c)|apply sqlserver_semicolon_same].
Qed.

Lemma delimiter_check_same s : same_lexis s (delimiter_check s).1.
Proof. unfold delimiter_check. repeat case_match; lexis. Qed.

Lemma line_command_same s s' out : line_command s = Some (s', out) ->
  lexical s' = lexical s /\ s'.(pending_mysql_line_comment_dashes) = s.(pending_mysql_line_comment_dashes).
Proof. unfold line_command. cbv zeta. intros. by repeat (case_match; simplify_eq/=). Qed.

(** What an opener does: it enters a comment or a literal, or remembers dashes. *)
Inductive entered (s : SqlStatementSplitter) (c : Z) (rest : text) : SqlStatementSplitter -> Prop :=
| entered_q :
    entered s c rest (advance s c <| oracle_q_quote := mkQQuote true s.(oracle_q_quote).(closer) |>)
| entered_dashes : c = c_dash -> rest = [] ->
    entered s c rest (advance s c <| pending_mysql_line_comment_dashes := true |>)
| entered_line :
    entered s c rest (advance s c <| in_line_comment := true |>)
| entered_block :
    entered s c rest (push s c <| block_comment_depth := 1 |> <| previous := None |>).

Lemma round_opener_cases s c rest r : round_opener s c rest = Some r ->
  (exists s', entered s c rest s' /\ r = keep s') \/
  (exists tag routine, dollar_quote_tag_at (c :: rest) = Some tag /\ (prof s).(supports_dollar_quoted_strings) = true /\
     r = (advance_all s tag <| postgres_dollar_quoted_routine := routine |> <| dollar_quote_tag := Some tag |>, [], length tag)).
Proof.
  unfold round_opener. cbv zeta.
  case_match; [intros; simplify_eq; left; eexists; split; [constructor|done]|].
  case_match; [intros; simplify_eq; left; eexists; split; [|done]; bool_solver; constructor; [lia|by destruct rest]|].
  do 4 (case_match; [intros; simplify_eq; left; eexists; split; [constructor|done]|]).
  destruct (supports_dollar_quoted_strings _) eqn:Ed; [|done].
  destruct (dollar_quote_tag_at _) as [tag|]; [|done]. case_match; [|done]. intros; simplify_eq. right. eauto.
Qed.

(** A round consumes at least one character and no more than there are. *)
Lemma round_consumed rec s c rest s' out n :
  wf s -> round rec s c rest = (s', out, n) -> 1 <= n <= S (length rest).
Proof.
  intros Hwf. unfold round, keep.
  destruct (pending_psql_command s) as [command|].
  { case_match; [destruct (finish_psql_command _ _ _)|]; intros; simplify_eq; lia. }
  case_match; [intros; simplify_eq; lia|].
  assert (Htag : forall tag, tag <> [] -> tag `prefix_of` c :: rest -> 1 <= length tag <= S (length rest)).
  { intros [|d tag] ? Hp; [done|]. apply prefix_length in Hp. simpl in *. lia. }
  destruct (dollar_quote_tag s) as [tag|] eqn:Et.
  { unfold round_dollar, keep, starts_with_chars. case_bool_decide; intros; simplify_eq; [|lia].
    apply Htag; [|done]. by apply (wf_tag _ Hwf). }
  case_match; [intros; unfold round_line_comment, keep in *; simplify_eq; lia|].
  case_match; [unfold round_block_comment, keep; intros; repeat case_match; simplify_eq; lia|].
  case_match; [intros; unfold round_q_quote, keep in *; simplify_eq; lia|].
  destruct (if in_quotes s then None else round_opener s c rest) as [r|] eqn:Er.
  - intros ->. case_match; [done|]. destruct (round_opener_cases _ _ _ _ Er) as [(s1 & _ & Hr)|(tag & routine & Hq & _ & Hr)].
    + unfold keep in Hr. simplify_eq. lia.
    + simplify_eq. apply Htag; [by destruct (dollar_tag_clean _ _ Hq)|by apply dollar_tag_prefix].
  - intros Hm. unfold round_main in Hm. destruct (character s c). repeat (case_match; simplify_eq; try lia).
Qed.

(** ** Well-formed states are kept *)

Lemma advance_all_eq s tag : exists pv, advance_all s tag = s <| buffer := s.(buffer) ++ tag |> <| previous := pv |>.
Proof.
  unfold advance_all. revert s. induction tag as [|c tag IH]; intros s; simpl.
  - exists s.(previous). rewrite app_nil_r. by destruct s.
  - destruct (IH (advance s c)) as [pv ->]. exists pv. unfold advance, push, set_field. simpl. by rewrite <- app_assoc.
Qed.

(** A well-formed state inside a chunk, where no dashes wait for the next one. *)
Definition inner (s : SqlStatementSplitter) : Prop := wf s /\ s.(pending_mysql_line_comment_dashes) = false.

Lemma inner_same s s' : inner s -> same_lexis s s' -> inner s'.
Proof.
  intros [Hwf Hp] (Hl & _ & Hp'). assert (pending_mysql_line_comment_dashes s' = false) by (destruct Hp' as [-> | ->]; done).
  split; [|done]. by apply (wf_lexical s); [|left|].
Qed.

Lemma inner_intro s :
  contexts s <= 1 -> s.(pending_mysql_line_comment_dashes) = false ->
  (forall tag, s.(dollar_quote_tag) = Some tag -> tag <> [] /\ c_newline ∉ tag) -> inner s.
Proof. intros Hc Hp Ht. split; [|done]. split; [done| |done]. by rewrite Hp. Qed.

(** Outside every comment and literal, quotes at most. *)
Definition at_code (s : SqlStatementSplitter) : Prop :=
  s.(dollar_quote_tag) = None /\ s.(in_line_comment) = false /\ s.(block_comment_depth) = 0 /\
  q_is_open s.(oracle_q_quote) = false.

Lemma at_code_lexical s s' : lexical s' = lexical s -> at_code s -> at_code s'.
Proof. unfold lexical, at_code. intros H. injection H as H1 H2 H3 -> -> -> ->. done. Qed.

Lemma contexts_at_code s : at_code s ->
  contexts s = Nat.b2n s.(in_single_quote) + Nat.b2n s.(in_double_quote) + Nat.b2n s.(in_backtick).
Proof. intros (Ht & Hl & Hb & Hq). unfold contexts, lexical. rewrite Ht, Hl, Hb, Hq. simpl. lia. Qed.

Lemma character_inner s c : inner s -> at_code s -> inner (character s c).1 /\ at_code (character s c).1.
Proof.
  intros Hi Hcode. pose proof Hi as [[Hc _ _] Hp]. rewrite contexts_at_code in Hc by done.
  assert (Hquote : forall s', lexical (s' <| in_single_quote := false |> <| in_double_quote := false |> <| in_backtick := false |>) =
      lexical (s <| in_single_quote := false |> <| in_double_quote := false |> <| in_backtick := false |>) ->
    s'.(pending_mysql_line_comment_dashes) = false ->
    Nat.b2n s'.(in_single_quote) + Nat.b2n s'.(in_double_quote) + Nat.b2n s'.(in_backtick) <= 1 -> inner s' /\ at_code s').
  { intros s' Hs Hs' Hn. assert (at_code s') as Hc' by (unfold lexical, at_code in *; simpl in *; injection Hs as -> -> -> ->; done).
    split; [|done]. apply inner_intro; [by rewrite contexts_at_code|done|]. destruct Hc' as [-> _]. done. }
  unfold character. cbv zeta.
  case_match; [|case_match; [|case_match; [|case_match]]]; bool_solver.
  1-3: apply Hquote; [done|done|]; simpl; destruct (in_single_quote s), (in_double_quote s), (in_backtick s); simpl in *; done || lia.
  - pose proof (semicolon_same s c) as Hs. split; [by apply (inner_same s)|]. by apply (at_code_lexical s); [apply Hs|].
  - split; [by apply (inner_same s), push_same|done].
Qed.

Lemma round_main_inner s c s' out n : inner s -> at_code s -> round_main s c = (s', out, n) -> inner s'.
Proof.
  intros Hi Hcode. unfold round_main. destruct (character_inner s c Hi Hcode) as [Hi1 Hc1].
  destruct (character s c) as [s1 out1]. simpl in *.
  case_match; [intros; simplify_eq; apply (inner_same s1); [done|lexis]|].
  destruct (if (c =? c_newline)%Z then line_command s1 else None) as [[s2 out2]|] eqn:El.
  - intros; simplify_eq. case_match; [|done]. destruct (line_command_same _ _ _ El) as [Hl Hp].
    destruct Hi1 as [Hw1 Hp1]. split; [|by rewrite Hp]. apply (wf_lexical s1); [done|by right|done].
  - pose proof (delimiter_check_same s1) as Hd. destruct (delimiter_check s1) as [s2 out2]. intros; simplify_eq.
    apply (inner_same s1); [done|]. etrans; [exact Hd|lexis].
Qed.

(** The recursive call keeps states well formed over a text that ends a line. *)
Definition rec_inner (rec : SqlStatementSplitter -> text -> SqlStatementSplitter * list SqlStatementWithControl) : Prop :=
  forall s t, inner s -> last t = Some c_newline -> inner (rec s t).1.

(** Leaving a context, or staying in the same ones. *)
Lemma inner_le s s' : inner s -> contexts s' <= contexts s ->
  s'.(pending_mysql_line_comment_dashes) = s.(pending_mysql_line_comment_dashes) ->
  s'.(dollar_quote_tag) = None \/ s'.(dollar_quote_tag) = s.(dollar_quote_tag) -> inner s'.
Proof.
  intros [[Hc Hd Ht] Hp] Hle Hp' Ht'. apply inner_intro; [lia|congruence|]. destruct Ht' as [-> | ->]; done.
Qed.

Lemma finish_psql_inner rec s command : rec_inner rec -> inner s -> last command = Some c_newline ->
  inner (finish_psql_command rec s command).1.
Proof.
  intros Hrec Hi Hc. unfold finish_psql_command. cbv zeta. case_match; [by apply (inner_le s); auto|].
  match goal with |- context [rec ?s1 command] => specialize (Hrec s1 command); set (s2 := s1) in * end.
  assert (inner s2) as Hi2 by (by apply (inner_le s); auto). specialize (Hrec Hi2 Hc).
  destruct (rec s2 command) as [s' out]. by apply (inner_le s'); auto.
Qed.

Lemma contexts_zero s : at_code s -> in_quotes s = false -> contexts s = 0.
Proof.
  intros Hc Hq. rewrite contexts_at_code by done. unfold in_quotes in Hq. bool_solver.
  by repeat match goal with E : _ = false |- _ => rewrite E; clear E end.
Qed.

Lemma entered_wf s c rest s' : inner s -> at_code s -> in_quotes s = false -> entered s c rest s' ->
  wf s' /\ (s'.(pending_mysql_line_comment_dashes) = true -> c = c_dash /\ rest = []).
Proof.
  intros [_ Hp] Hcode Hin He. pose proof (contexts_zero s Hcode Hin) as Hc.
  destruct Hcode as (Ht & Hl & Hb & Hq). unfold contexts, lexical in Hc. rewrite Ht, Hl, Hb, Hq in Hc. simpl in Hc.
  destruct He; (split; [split|]); unfold contexts, lexical; simpl; rewrite ?Ht, ?Hl, ?Hb, ?Hq, ?Hp; simpl; try done; try lia.
Qed.

Lemma round_wf rec s c rest s' out n : rec_inner rec -> inner s -> round rec s c rest = (s', out, n) ->
  wf s' /\ (s'.(pending_mysql_line_comment_dashes) = true -> c = c_dash /\ rest = []).
Proof.
  intros Hrec Hi. assert (Hfin : forall x, inner x -> wf x /\ (x.(pending_mysql_line_comment_dashes) = true -> c = c_dash /\ rest = [])).
  { intros x [Hx Hpx]. by rewrite Hpx. }
  unfold round, keep. destruct (pending_psql_command s) as [command|].
  { destruct (Z.eqb_spec c c_newline) as [->|].
    - pose proof (finish_psql_inner rec s (command ++ [c_newline]) Hrec Hi) as Hf. rewrite last_snoc in Hf. specialize (Hf eq_refl).
      destruct (finish_psql_command _ _ _). intros; simplify_eq. by apply Hfin.
    - intros; simplify_eq. by apply Hfin, (inner_le s); auto. }
  case_match; [intros; simplify_eq; by apply Hfin, (inner_le s); auto|].
  destruct (dollar_quote_tag s) as [tag|] eqn:Et.
  { unfold round_dollar, keep. destruct (advance_all_eq s tag) as [pv ->].
    case_match; intros; simplify_eq; apply Hfin, (inner_le s); auto; unfold contexts, lexical; simpl; rewrite ?Et; simpl; lia. }
  destruct (in_line_comment s) eqn:El.
  { unfold round_line_comment, keep. intros; simplify_eq. apply Hfin, (inner_le s); auto.
    unfold contexts, lexical. simpl. rewrite El. destruct (negb _); simpl; lia. }
  destruct (0 <? block_comment_depth s)%nat eqn:Eb.
  { unfold round_block_comment, keep. intros. apply Nat.ltb_lt in Eb.
    repeat (case_match; simplify_eq); apply Hfin, (inner_le s); auto; unfold contexts, lexical; simpl;
      repeat match goal with |- context [(0 <? ?n)%nat] => destruct (Nat.ltb_spec 0 n) end; simpl; lia. }
  destruct (q_is_open (oracle_q_quote s)) eqn:Eq.
  { unfold round_q_quote, keep. intros; simplify_eq. apply Hfin, (inner_le s); auto.
    unfold contexts, lexical. simpl. rewrite Eq. destruct (q_is_open (q_consume _ _ _)); simpl; lia. }
  assert (at_code s) as Hcode by (apply Nat.ltb_ge in Eb; unfold at_code; split_and!; auto; lia).
  destruct (in_quotes s) eqn:Ein; [intros; eapply Hfin, round_main_inner; eauto|].
  destruct (round_opener s c rest) as [r|] eqn:Er; [|intros; eapply Hfin, round_main_inner; eauto].
  intros ->. destruct (round_opener_cases _ _ _ _ Er) as [(s1 & He & Hr)|(tag & routine & Hq & _ & Hr)].
  - unfold keep in Hr. simplify_eq. by apply (entered_wf s).
  - simplify_eq. destruct (advance_all_eq s tag) as [pv ->]. apply Hfin. pose proof (contexts_zero s Hcode Ein) as Hz.
    apply inner_intro; simpl; [|apply Hi|intros; simplify_eq; by apply (dollar_tag_clean _ _ Hq)].
    unfold contexts, lexical in *. simpl. rewrite Et in Hz. simpl in *. lia.
Qed.

Lemma push_loop_wf rec skip s chunk : rec_inner rec -> inner s ->
  wf (push_loop rec skip s chunk).1 /\
  ((push_loop rec skip s chunk).1.(pending_mysql_line_comment_dashes) = true -> last chunk = Some c_dash).
Proof.
  intros Hrec. revert skip s. induction chunk as [|c rest IH]; intros skip s Hi; simpl.
  { destruct Hi as [Hw Hp]. by rewrite Hp. }
  assert (Hlast : last rest = Some c_dash -> last (c :: rest) = Some c_dash) by (by destruct rest).
  destruct skip as [|skip]; [|destruct (IH skip s Hi); naive_solver].
  destruct (round rec s c rest) as [[s' out] n] eqn:Er. destruct (round_wf _ _ _ _ _ _ _ Hrec Hi Er) as [Hw Hp].
  destruct (pending_mysql_line_comment_dashes s') eqn:Ep.
  - destruct (Hp eq_refl) as [-> ->]. simpl. by rewrite Ep.
  - specialize (IH (n - 1) s' ltac:(by split)). destruct (push_loop rec (n - 1) s' rest). simpl in *. naive_solver.
Qed.

Lemma begin_chunk_inner s c rest : wf s -> inner (begin_chunk s (c :: rest)).
Proof.
  intros Hw. unfold begin_chunk. case_match; [|by split]. destruct Hw as [Hc Hd Ht]. specialize (Hd ltac:(done)).
  apply inner_intro; simpl; [|done|done]. unfold contexts, lexical in *. simpl. destruct (dash_dash_starts_line_comment _ _); simpl; lia.
Qed.

(** The state after a chunk, for a given bound on the recursion. *)
Definition chunk_wf (fuel : nat) : Prop := forall s chunk, wf s ->
  wf (push_chunk_fuel fuel s chunk).1 /\
  (s.(pending_mysql_line_comment_dashes) = false \/ chunk <> [] ->
   (push_chunk_fuel fuel s chunk).1.(pending_mysql_line_comment_dashes) = true -> fuel = 0 \/ last chunk = Some c_dash).

Lemma fuel_rec_inner fuel : chunk_wf fuel -> rec_inner (push_chunk_fuel fuel).
Proof.
  intros IH s1 t [Hw1 Hp1] Ht. destruct (IH s1 t Hw1) as [Hw2 Hp2]. split; [done|].
  destruct (pending_mysql_line_comment_dashes (push_chunk_fuel fuel s1 t).1) eqn:E; [|done].
  destruct (Hp2 (or_introl Hp1) eq_refl) as [->|Hl]; [simpl in E; congruence|congruence].
Qed.

Lemma push_chunk_fuel_wf fuel : chunk_wf fuel.
Proof.
  unfold chunk_wf. induction fuel as [|fuel IH]; intros s chunk Hw; simpl; [by auto|].
  destruct chunk as [|c rest].
  { simpl. split; [done|]. intros [Hp|?]; [by rewrite Hp|done]. }
  assert (rec_inner (push_chunk_fuel fuel)) as Hrec by (by apply fuel_rec_inner).
  destruct (push_loop_wf _ 0 _ (c :: rest) Hrec (begin_chunk_inner s c rest Hw)) as [Hw' Hp']. split; [done|]. auto.
Qed.

(** ** Control *)

(** What only psql commands change. *)
Definition settings (s : SqlStatementSplitter) := (s.(options), s.(stop_on_error), s.(pending_psql_command)).

Lemma same_lexis_settings s s' : same_lexis s s' -> settings s' = settings s.
Proof. intros (_ & Hc & _). unfold control, settings in *. by injection Hc as -> -> -> _. Qed.

Lemma character_settings s c : settings (character s c).1 = settings s.
Proof.
  unfold character. cbv zeta. repeat (case_match; [done|]).
  case_match; [apply same_lexis_settings, semicolon_same|done].
Qed.

Lemma line_command_settings s s' out : line_command s = Some (s', out) -> settings s' = settings s.
Proof. unfold line_command. cbv zeta. intros. by repeat (case_match; simplify_eq/=). Qed.

Lemma round_main_settings s c s' out n : round_main s c = (s', out, n) -> settings s' = settings s.
Proof.
  unfold round_main. pose proof (character_settings s c) as Hc. destruct (character s c) as [s1 out1]. simpl in Hc.
  case_match; [by intros [= <- _ _]|].
  destruct (if (c =? c_newline)%Z then line_command s1 else None) as [[s2 out2]|] eqn:El.
  - intros [= <- _ _]. case_match; [|done]. by rewrite (line_command_settings _ _ _ El).
  - pose proof (same_lexis_settings _ _ (delimiter_check_same s1)) as Hd. destruct (delimiter_check s1) as [s2 out2].
    intros [= <- _ _]. change (settings s2 = settings s). by rewrite <- Hc.
Qed.

(** Without psql commands a round does not change the settings, nor uses the
    recursive call. *)
Lemma round_settings rec rec' s c rest : s.(pending_psql_command) = None -> starts_psql_command s c = false ->
  round rec s c rest = round rec' s c rest /\ settings (round rec s c rest).1.1 = settings s.
Proof.
  intros Hp Hs. unfold round. rewrite Hp, Hs. split; [done|].
  destruct (dollar_quote_tag s) as [tag|].
  { unfold round_dollar, keep. destruct (advance_all_eq s tag) as [pv ->]. by case_match. }
  do 3 (case_match; [unfold round_line_comment, round_block_comment, round_q_quote, keep; by repeat case_match|]).
  destruct (if in_quotes s then None else round_opener s c rest) as [r|] eqn:Er.
  - case_match; [done|]. destruct (round_opener_cases _ _ _ _ Er) as [(s1 & He & ->)|(tag & routine & _ & _ & ->)].
    + by destruct He.
    + by destruct (advance_all_eq s tag) as [pv ->].
  - destruct (round_main s c) as [[s' out] n] eqn:Em. by apply (round_main_settings s c _ out n).
Qed.

Definition no_psql (s : SqlStatementSplitter) : Prop :=
  s.(pending_psql_command) = None /\ (prof s).(supports_psql_control_commands) = false.

Lemma no_psql_settings s s' : settings s' = settings s -> no_psql s -> no_psql s'.
Proof. unfold settings, no_psql, prof. intros Hs. by injection Hs as -> _ ->. Qed.

Lemma no_psql_starts s c : no_psql s -> starts_psql_command s c = false.
Proof. intros [_ Hp]. unfold starts_psql_command. by rewrite Hp. Qed.

Lemma push_loop_no_psql rec rec' skip s chunk : no_psql s ->
  push_loop rec skip s chunk = push_loop rec' skip s chunk /\ settings (push_loop rec skip s chunk).1 = settings s.
Proof.
  revert skip s. induction chunk as [|c rest IH]; intros skip s Hn; simpl; [done|].
  destruct skip as [|skip]; [|by apply IH].
  destruct (round_settings rec rec' s c rest (proj1 Hn) (no_psql_starts s c Hn)) as [<- Hs].
  destruct (round rec s c rest) as [[s' out] n]. simpl in Hs.
  destruct (IH (n - 1) s' (no_psql_settings _ _ Hs Hn)) as [<- Hs']. split; [done|].
  destruct (push_loop rec (n - 1) s' rest). simpl in *. by rewrite Hs'.
Qed.

Lemma begin_chunk_settings s chunk : settings (begin_chunk s chunk) = settings s.
Proof. unfold begin_chunk. by repeat case_match. Qed.

Lemma push_chunk_no_psql fuel s chunk : no_psql s ->
  push_chunk_fuel (S fuel) s chunk = push_chunk_fuel 1 s chunk /\ settings (push_chunk_fuel (S fuel) s chunk).1 = settings s.
Proof.
  intros Hn. simpl. assert (no_psql (begin_chunk s chunk)) as Hb by (by eapply no_psql_settings, Hn; apply begin_chunk_settings).
  destruct (push_loop_no_psql (push_chunk_fuel fuel) (push_chunk_fuel 0) 0 _ chunk Hb) as [He Hs].
  split; [exact He|]. by rewrite Hs, begin_chunk_settings.
Qed.

(** Two recursive calls that agree on states without psql commands. *)
Definition rec_agree (rec rec' : SqlStatementSplitter -> text -> SqlStatementSplitter * list SqlStatementWithControl) : Prop :=
  forall s t, no_psql s -> rec s t = rec' s t.

Lemma round_agree rec rec' s c rest : rec_agree rec rec' -> round rec s c rest = round rec' s c rest.
Proof.
  intros Hr. unfold round. destruct (pending_psql_command s); [|done]. case_match; [|done].
  unfold finish_psql_command. cbv zeta.
  destruct (parse_ignorable_psql_control_command _); [done|]. by rewrite Hr.
Qed.

Lemma push_loop_agree rec rec' skip s chunk : rec_agree rec rec' -> push_loop rec skip s chunk = push_loop rec' skip s chunk.
Proof.
  intros Hr. revert skip s. induction chunk as [|c rest IH]; intros skip s; simpl; [done|].
  destruct skip as [|skip]; [|done]. rewrite (round_agree rec rec') by done.
  destruct (round rec' s c rest) as [[s' out] n]. by rewrite IH.
Qed.

Lemma executable_psql p b in_line depth previous s :
  executable_loop (p <| supports_psql_control_commands := b |>) in_line depth previous s = executable_loop p in_line depth previous s.
Proof.
  revert in_line depth previous. induction s as [|c s IH]; intros in_line depth previous; simpl; [done|].
  destruct in_line; [done|]. destruct depth; rewrite ?IH; [|done].
  by unfold dash_dash_starts_line_comment.
Qed.

Lemma statements_of_psql o b l :
  statements_of (mkOptions (o.(profile) <| supports_psql_control_commands := b |>)) l = statements_of o l.
Proof. unfold statements_of. apply List.filter_ext. intros st. apply executable_psql. Qed.

(** C31. The recursion of [push_chunk_with_control] through [finish_psql_command]
    ends: a psql command is scanned with the commands switched off, so for every
    state and every chunk no more than two calls are ever nested, and the result
    is the same for every greater bound on the depth. *)
Theorem push_chunk_fuel_enough fuel s chunk : push_chunk_fuel (S (S fuel)) s chunk = push_chunk_with_control s chunk.
Proof.
  unfold push_chunk_with_control. cbn [push_chunk_fuel]. apply push_loop_agree. intros s' t Hn.
  apply (push_chunk_no_psql fuel), Hn.
Qed.

(** ** The splitter partitions the script *)

Lemma boundaries_increasing fuel cursor body : Sorted le (cursor :: SqlServer.sqlserver_boundaries fuel cursor body).
Proof.
  revert cursor. induction fuel as [|fuel IH]; intros cursor; simpl; [by repeat constructor|].
  case_match; [|by repeat constructor]. case_match; [by repeat constructor|]. constructor; [apply IH|constructor; lia].
Qed.

Lemma slice_drop {A} i j (l : list A) : i <= j -> slice i j l ++ drop j l = drop i l.
Proof. intros. unfold slice. replace (drop j l) with (drop (j - i) (drop i l)) by (rewrite drop_drop; f_equal; lia). apply take_drop. Qed.

Lemma push_pieces_cut s body from boundaries s' out stop :
  Sorted le (from :: boundaries) -> push_pieces s body from boundaries = (s', out, stop) ->
  exists l, drop from body = joined l ++ drop stop body /\ map sql out = statements_of s.(options) l /\
    Forall (fun p => terminator p.2) l.
Proof.
  revert s from s' out stop. induction boundaries as [|b boundaries IH]; intros s from s' out stop Hs; simpl.
  { intros [= <- <- <-]. by exists []. }
  inversion_clear Hs as [|? ? Hs' Hb]. inversion_clear Hb.
  set (s1 := clear_statement (s <| buffer := slice from b body |>) <| pending_mysql_line_comment_dashes := false |>).
  destruct (push_pieces s1 body b boundaries) as [[s2 out2] stop2] eqn:Ep. intros [= <- <- <-].
  destruct (IH s1 b _ _ _ Hs' Ep) as (l & Hl & Ho & Ht). exists ((slice from b body, []) :: l). split_and!.
  - change (joined ((slice from b body, []) :: l)) with ((slice from b body ++ []) ++ joined l).
    rewrite app_nil_r, <- app_assoc, <- Hl. symmetry. by apply slice_drop.
  - rewrite map_app, Ho. change ((slice from b body, []) :: l) with ([(slice from b body, [])] ++ l).
    rewrite statements_of_app. f_equal. exact (map_sql_emit (s <| buffer := slice from b body |>) (slice from b body) []).
  - by constructor; [constructor|].
Qed.

Lemma sqlserver_semicolon_cut s body s' out :
  s.(buffer) = body ++ [c_semicolon] -> sqlserver_semicolon s body c_semicolon = (s', out) ->
  cut s.(options) body [c_semicolon] s'.(buffer) out.
Proof.
  intros Hb. unfold sqlserver_semicolon. destruct (SqlServer.sqlserver_boundaries _ _ _) as [|b bs] eqn:E.
  { intros [= <- <-]. apply (cut_emit s _ body _ _ []); [done|constructor|]. by rewrite Hb, !app_nil_r. }
  rewrite <- E. pose proof (boundaries_increasing (S (length body)) 0 body) as Hs.
  destruct (push_pieces _ _ _ _) as [[s1 out1] from] eqn:Ep. pose proof (push_pieces_same s body 0 (SqlServer.sqlserver_boundaries (S (length body)) 0 body)) as Hsame.
  rewrite Ep in Hsame. apply same_lexis_settings in Hsame. injection Hsame as Ho _ _.
  destruct (push_pieces_cut _ _ _ _ _ _ _ Hs Ep) as (l & Hl & Hout & Ht). rewrite drop_0 in Hl.
  assert (Hpre : forall b' out', cut s.(options) (drop from body) [c_semicolon] b' out' ->
    cut s.(options) body [c_semicolon] b' (out1 ++ out')).
  { intros b' out' Hc. change [c_semicolon] with ([] ++ [c_semicolon]). eapply cut_app; [|exact Hc].
    exists l. by rewrite app_nil_r. }
  case_bool_decide as Etrim.
  { intros [= <- <-]. rewrite <- (app_nil_r out1). apply Hpre. exists [(drop from body, [c_semicolon])].
    split_and!; [unfold joined; simpl; by rewrite !app_nil_r|by rewrite statements_of_nil|].
    constructor; [constructor|constructor]. }
  case_match; [case_match|].
  - intros [= <- <-]. apply Hpre. apply (cut_emit (push (s1 <| buffer := drop from body |>) c_semicolon) _ _ _ (drop from body ++ [c_semicolon]) []); [done|constructor|].
    by rewrite !app_nil_r.
  - intros [= <- <-]. rewrite <- (app_nil_r out1). apply Hpre. by apply cut_none.
  - intros [= <- <-]. apply Hpre. by apply (cut_emit (s1 <| buffer := drop from body |>) _ _ _ (drop from body) [c_semicolon]); [|constructor|].
Qed.

Lemma semicolon_cut s s' out : semicolon s c_semicolon = (s', out) -> cut s.(options) s.(buffer) [c_semicolon] s'.(buffer) out.
Proof.
  assert (Hpush : forall x, cut x.(options) x.(buffer) [c_semicolon] (push x c_semicolon).(buffer) []) by (intros; by apply cut_none).
  assert (Hflush : forall x, cut x.(options) x.(buffer) [c_semicolon] [] (push_current_statement x).2).
  { intros x. apply (cut_emit x _ _ _ x.(buffer) [c_semicolon]); [done|constructor|]. by rewrite app_nil_r. }
  assert (Hafter : forall x b, x.(buffer) = b ++ [c_semicolon] -> cut x.(options) b [c_semicolon] [] (push_current_statement x).2).
  { intros x b Hb. apply (cut_emit x _ _ _ x.(buffer) []); [done|constructor|]. by rewrite !app_nil_r. }
  unfold semicolon. cbv zeta. destruct (ends_with_xml_entity_reference _); [by intros [= <- <-]|].
  destruct (_ || _); [by intros [= <- <-]|].
  destruct (_ && _); [case_match; intros [= <- <-]; [apply (Hflush s)|apply (Hpush s)]|].
  destruct (if postgres_dollar_quoted_routine s then _ else _) as [keeps tracker].
  set (s1 := s <| oracle_block := tracker |>).
  change (options s) with (options s1). change (buffer s) with (buffer s1). clearbody s1. destruct keeps.
  { destruct (PlSql.tracker_is_complete _ _) as [complete tracker']. case_match; intros [= <- <-]; [|apply (Hpush s1)].
    exact (Hafter (push s1 c_semicolon <| oracle_block := tracker' |>) (buffer s1) eq_refl). }
  destruct (_ && _); [case_match; intros [= <- <-]; [exact (Hafter (push s1 c_semicolon) (buffer s1) eq_refl)|apply (Hpush s1)]|].
  destruct (_ && _); [case_match; intros [= <- <-]; [exact (Hafter (push s1 c_semicolon) (buffer s1) eq_refl)|apply (Hpush s1)]|].
  case_match; [|intros [= <- <-]; apply (Hflush s1)]. case_match; [|intros [= <- <-]; apply (Hpush s1)].
  intros Hc. exact (sqlserver_semicolon_cut (push s1 c_semicolon) (buffer s1) _ _ eq_refl Hc).
Qed.

Lemma character_cut s c s' out : character s c = (s', out) -> cut s.(options) s.(buffer) [c] s'.(buffer) out.
Proof.
  unfold character. cbv zeta. do 3 (case_match; [by intros [= <- <-]; apply cut_none|]).
  destruct (Z.eqb_spec c c_semicolon) as [->|]; [|by intros [= <- <-]; apply cut_none].
  simpl. case_match; [apply semicolon_cut|by intros [= <- <-]; apply cut_none].
Qed.

(** The delimiter in force was named by a [DELIMITER] command. *)
Definition delimiter_ok (s : SqlStatementSplitter) : Prop :=
  forall d, s.(custom_delimiter) = Some d -> exists line, parse_delimiter_command line = Some d.

Lemma delimiter_check_cut s s' out : delimiter_ok s -> delimiter_check s = (s', out) ->
  cut s.(options) s.(buffer) [] s'.(buffer) out.
Proof.
  intros Hok. unfold delimiter_check. destruct (custom_delimiter s) as [d|] eqn:Ed; [|intros [= <- <-]; by apply cut_none; rewrite app_nil_r].
  case_bool_decide as Hsuf; [|intros [= <- <-]; by apply cut_none; rewrite app_nil_r].
  simpl. case_match; [|intros [= <- <-]; by apply cut_none; rewrite app_nil_r].
  intros [= <- <-]. destruct Hsuf as [k Hk]. destruct (Hok d Ed) as [line Hline].
  apply (cut_emit (s <| buffer := take (length (buffer s) - length d) (buffer s) |>) _ _ _ (take (length (buffer s) - length d) (buffer s)) d); [done|by eapply terminator_delimiter|].
  simpl. rewrite Hk, length_app. replace (length k + length d - length d) with (length k) by lia.
  by rewrite take_app_length, !app_nil_r.
Qed.

Lemma line_command_cut s b s' out : s.(buffer) = b ++ [c_newline] -> delimiter_ok s -> line_command s = Some (s', out) ->
  cut s.(options) s.(buffer) [] s'.(buffer) out /\ delimiter_ok s'.
Proof.
  intros Hb Hok. unfold line_command. rewrite Hb, removelast_last. cbv zeta.
  assert (Hcut : forall t, t = last_line b ++ [c_newline] -> terminator t ->
    cut s.(options) (b ++ [c_newline]) [] [] (emit s (trim_chars (before_last_line b)))).
  { intros t -> Ht. apply (cut_emit s _ _ _ _ (last_line b ++ [c_newline])); [done|done|].
    by rewrite !app_nil_r, app_assoc, last_line_split. }
  case_match.
  { intros [= <- <-]. bool_solver. split; [|done]. apply (Hcut _ eq_refl). apply terminator_slash_line. by rewrite trim_snoc_newline. }
  case_match; [|done]. rewrite parse_delimiter_trim. destruct (parse_delimiter_command (last_line b)) as [d|] eqn:Ed; [|done].
  case_match; [done|]. intros [= <- <-]. split.
  - replace (if bool_decide (before_last_line b = []) then [] else emit s (trim_chars (before_last_line b)))
      with (emit s (trim_chars (before_last_line b))) by (by destruct (before_last_line b)).
    apply (Hcut _ eq_refl). apply (terminator_command _ d). by rewrite <- parse_delimiter_trim, trim_snoc_newline, parse_delimiter_trim.
  - intros d'. simpl. destruct (bool_decide (d = [c_semicolon])); intros; simplify_eq. eauto.
Qed.

Lemma character_newline s : character s c_newline = (push s c_newline, []).
Proof. done. Qed.

Lemma character_delimiter s c : (character s c).1.(custom_delimiter) = s.(custom_delimiter).
Proof.
  unfold character. cbv zeta. do 3 (case_match; [done|]). case_match; [|done].
  destruct (semicolon_same s c) as (_ & Hc & _). unfold control in Hc. by injection Hc as _ _ _ ->.
Qed.

Lemma round_main_cut s c s' out n : delimiter_ok s -> round_main s c = (s', out, n) ->
  cut s.(options) s.(buffer) [c] s'.(buffer) out /\ delimiter_ok s'.
Proof.
  intros Hok. unfold round_main. pose proof (character_delimiter s c) as Hd. pose proof (character_settings s c) as Hset.
  destruct (character s c) as [s1 out1] eqn:Ec. pose proof (character_cut _ _ _ _ Ec) as Hcut. simpl in Hd, Hset.
  injection Hset as Ho _ _. assert (delimiter_ok s1) as Hok1 by (unfold delimiter_ok; by rewrite Hd).
  case_match; [by intros [= <- <- _]|].
  destruct (if (c =? c_newline)%Z then line_command s1 else None) as [[s2 out2]|] eqn:El.
  - intros [= <- <- _]. destruct (Z.eqb_spec c c_newline) as [->|]; [|done].
    rewrite character_newline in Ec. injection Ec as <- <-.
    destruct (line_command_cut (push s c_newline) (buffer s) _ _ eq_refl Hok1 El) as [Hl Hok2]. split; [|done].
    exact (cut_app _ _ _ _ _ _ _ _ Hcut Hl).
  - destruct (delimiter_check s1) as [s2 out2] eqn:Edc. intros [= <- <- _]. split.
    + change [c] with ([c] ++ []). eapply cut_app; [exact Hcut|]. rewrite <- Ho. by apply delimiter_check_cut in Edc.
    + pose proof (delimiter_check_same s1) as (_ & Hc & _). rewrite Edc in Hc. unfold control in Hc. simpl in Hc.
      injection Hc as _ _ _ Hc. unfold delimiter_ok. simpl. by rewrite Hc.
Qed.

Lemma round_cut rec s c rest s' out n : wf s -> no_psql s -> delimiter_ok s -> round rec s c rest = (s', out, n) ->
  cut s.(options) s.(buffer) (take n (c :: rest)) s'.(buffer) out /\ delimiter_ok s'.
Proof.
  intros Hw Hn Hok. unfold round. rewrite (proj1 Hn), (no_psql_starts s c Hn).
  assert (Htag : forall tag, tag `prefix_of` c :: rest -> take (length tag) (c :: rest) = tag).
  { intros tag [k ->]. apply take_app_length. }
  destruct (dollar_quote_tag s) as [tag|] eqn:Et.
  { unfold round_dollar, keep, starts_with_chars. destruct (advance_all_eq s tag) as [pv ->].
    case_bool_decide; intros [= <- <- <-]; (split; [|done]); [|by apply cut_none]. rewrite Htag by done. by apply cut_none. }
  case_match; [by unfold round_line_comment, keep; intros [= <- <- <-]; split; [apply cut_none|]|].
  case_match; [unfold round_block_comment, keep; repeat case_match; intros [= <- <- <-]; by split; [apply cut_none|]|].
  case_match; [by unfold round_q_quote, keep; intros [= <- <- <-]; split; [apply cut_none|]|].
  assert (Hmain : round_main s c = (s', out, n) -> cut s.(options) s.(buffer) (take n (c :: rest)) s'.(buffer) out /\ delimiter_ok s').
  { intros Hm. assert (n = 1) as -> by (unfold round_main in Hm; destruct (character s c); repeat (case_match; simplify_eq; try done)).
    by apply (round_main_cut s c s' out 1). }
  destruct (in_quotes s); [done|]. destruct (round_opener s c rest) as [r|] eqn:Er; [|done]. intros ->.
  destruct (round_opener_cases _ _ _ _ Er) as [(s1 & He & Hr)|(tag & routine & Hq & _ & Hr)].
  - unfold keep in Hr. injection Hr as -> -> ->. destruct He; (split; [by apply cut_none|done]).
  - injection Hr as -> -> ->. destruct (advance_all_eq s tag) as [pv ->]. split; [|done].
    rewrite Htag by (by apply dollar_tag_prefix). by apply cut_none.
Qed.

Lemma push_loop_cut rec skip s chunk s' out : rec_inner rec -> skip <= length chunk -> inner s -> no_psql s -> delimiter_ok s ->
  push_loop rec skip s chunk = (s', out) ->
  cut s.(options) s.(buffer) (drop skip chunk) s'.(buffer) out /\ delimiter_ok s'.
Proof.
  intros Hrec. revert skip s s' out. induction chunk as [|c rest IH]; intros skip s s' out Hskip Hi Hn Hok; simpl.
  { intros [= <- <-]. destruct skip; (split; [apply cut_none; by rewrite app_nil_r|done]). }
  destruct skip as [|skip]; [|apply IH; [simpl in Hskip; lia|done..]].
  destruct (round rec s c rest) as [[s1 out1] n] eqn:Er.
  destruct (round_cut _ _ _ _ _ _ _ (proj1 Hi) Hn Hok Er) as [Hc1 Hok1].
  destruct (round_consumed _ _ _ _ _ _ _ (proj1 Hi) Er) as [Hn1 Hn2].
  destruct (round_wf _ _ _ _ _ _ _ Hrec Hi Er) as [Hw1 Hp1].
  destruct (round_settings rec rec s c rest (proj1 Hn) (no_psql_starts s c Hn)) as [_ Hs]. rewrite Er in Hs. simpl in Hs.
  destruct (push_loop rec (n - 1) s1 rest) as [s2 out2] eqn:El. intros [= <- <-].
  assert (cut s1.(options) s1.(buffer) (drop (n - 1) rest) s2.(buffer) out2 /\ delimiter_ok s2) as [Hc2 Hok2].
  { destruct (pending_mysql_line_comment_dashes s1) eqn:Ep.
    - destruct (Hp1 eq_refl) as [-> ->]. injection El as <- <-. rewrite drop_nil. split; [|done].
      apply cut_none. by rewrite app_nil_r.
    - apply IH; [lia|by split|by apply (no_psql_settings s)|done|done]. }
  split; [|done]. rewrite drop_0, <- (take_drop n (c :: rest)). injection Hs as Ho _ _. rewrite Ho in Hc2.
  eapply cut_app; [exact Hc1|]. destruct n as [|n]; [lia|]. simpl in *. by rewrite Nat.sub_0_r in Hc2.
Qed.

Lemma push_chunk_cut s chunk s' out : wf s -> no_psql s -> delimiter_ok s -> push_chunk_with_control s chunk = (s', out) ->
  cut s.(options) s.(buffer) chunk s'.(buffer) out /\ delimiter_ok s' /\ settings s' = settings s.
Proof.
  intros Hw Hn Hok Hp. assert (settings s' = settings s) as Hset.
  { pose proof (push_chunk_no_psql 1 s chunk Hn) as [_ Hs]. fold push_chunk_with_control in Hs. by rewrite Hp in Hs. }
  unfold push_chunk_with_control in Hp. cbn [push_chunk_fuel] in Hp. destruct chunk as [|c rest].
  { injection Hp as <- <-. split_and!; [apply cut_none; by rewrite app_nil_r|done|done]. }
  assert (Hb : settings (begin_chunk s (c :: rest)) = settings s) by apply begin_chunk_settings.
  destruct (push_loop_cut (push_chunk_fuel 1) 0 (begin_chunk s (c :: rest)) (c :: rest) s' out) as [Hc Hok'].
  - apply fuel_rec_inner, push_chunk_fuel_wf.
  - simpl. lia.
  - by apply begin_chunk_inner.
  - by apply (no_psql_settings s).
  - unfold delimiter_ok, begin_chunk. by case_match.
  - exact Hp.
  - split_and!; [|done|done]. unfold begin_chunk in Hc. by destruct (pending_mysql_line_comment_dashes s).
Qed.

Lemma finish_cut s : no_psql s -> delimiter_ok s -> cut s.(options) s.(buffer) [] [] (finish_with_control s).
Proof.
  intros [Hp _] Hok. unfold finish_with_control. rewrite Hp. cbv zeta.
  set (s1 := if pending_mysql_line_comment_dashes s then _ else s).
  assert (s1.(buffer) = s.(buffer) /\ s1.(options) = s.(options) /\ s1.(custom_delimiter) = s.(custom_delimiter)) as (<- & <- & Hd)
    by (unfold s1; by case_match).
  clearbody s1. unfold prof. destruct (trim_chars_split (buffer s1)) as (a & b & Hb & Ha & Hb').
  set (trimmed := trim_chars (buffer s1)) in *. clearbody trimmed.
  assert (Hdir : terminator (last_line trimmed ++ b) ->
    cut s1.(options) s1.(buffer) [] [] (emit s1 (trim_chars (removelast (before_last_line trimmed))) ++
      (push_current_statement (s1 <| buffer := [] |>)).2)).
  { intros Ht. change (push_current_statement (s1 <| buffer := [] |>)).2 with (@nil SqlStatementWithControl). rewrite app_nil_r.
    rewrite trim_before_last_line, <- (trim_chars_ws_l a) by done. eapply (cut_emit s1); [done|exact Ht|].
    by rewrite !app_nil_r, Hb, <- (last_line_split trimmed) at 1; rewrite <- !app_assoc. }
  destruct (supports_custom_delimiter_commands _ && _ && _) eqn:E1.
  { simpl. apply Hdir. bool_solver. match goal with Hs : is_Some _ |- _ => destruct Hs as [d Hd'] end.
    apply (terminator_command _ d). rewrite parse_delimiter_trim in Hd'.
    by rewrite <- parse_delimiter_trim, trim_chars_ws_r, parse_delimiter_trim. }
  destruct (supports_slash_line_block_delimiter _ && _) eqn:E2.
  { simpl. apply Hdir. bool_solver. apply terminator_slash_line. by rewrite trim_chars_ws_r. }
  simpl. destruct (custom_delimiter s1) as [d|] eqn:Ed.
  - destruct (bool_decide (d `suffix_of` buffer s1)) eqn:Es.
    + apply bool_decide_eq_true in Es as [k Hk]. destruct (Hok d ltac:(congruence)) as [line Hline].
      apply (cut_emit (s1 <| buffer := take (length (buffer s1) - length d) (buffer s1) |>) _ _ _
        (take (length (buffer s1) - length d) (buffer s1)) d); [done|by eapply terminator_delimiter|].
      rewrite Hk, length_app. replace (length k + length d - length d) with (length k) by lia.
      by rewrite take_app_length, !app_nil_r.
    + apply (cut_emit s1 _ _ _ s1.(buffer) []); [done|constructor|done].
  - apply (cut_emit s1 _ _ _ s1.(buffer) []); [done|constructor|done].
Qed.

Lemma with_options_wf o : wf (with_options o).
Proof. split; simpl; [unfold contexts; simpl; lia|done|done]. Qed.

Lemma split_cut script o : o.(profile).(supports_psql_control_commands) = false ->
  exists l, script = joined l /\ split_sql_statements_with_options script o = statements_of o l /\
    Forall (fun p => terminator p.2) l.
Proof.
  intros Ho. unfold split_sql_statements_with_options, push_chunk, finish.
  destruct (push_chunk_with_control (with_options o) script) as [s out] eqn:Ep.
  assert (no_psql (with_options o)) as Hn by done.
  destruct (push_chunk_cut _ _ _ _ (with_options_wf o) Hn ltac:(done) Ep) as (Hc & Hok & Hs).
  pose proof (finish_cut s (no_psql_settings _ _ Hs Hn) Hok) as Hf. injection Hs as Hso _ _. rewrite Hso in Hf.
  destruct (cut_app _ _ _ _ _ _ _ _ Hc Hf) as (l & Hl & Hout & Ht). exists l. rewrite <- map_app.
  by rewrite !app_nil_r in Hl.
Qed.

(** ** Scripts in chunks *)

(** A text without line ends is read before the end of the line. *)
Lemma prefix_of_line (tag l y : text) : c_newline ∉ tag -> last l = Some c_newline ->
  bool_decide (tag `prefix_of` l ++ y) = bool_decide (tag `prefix_of` l).
Proof.
  intros Htag Hl. apply bool_decide_ext. split; [|by apply prefix_app_r].
  intros [k Hk]. apply app_eq_inv in Hk as [(m & -> & _)|(m & -> & _)]; [by exists m|].
  exfalso. apply Htag, elem_of_app. left. by apply last_Some_elem_of in Hl.
Qed.

Lemma span_line p (l y : text) : p c_newline = false -> last l = Some c_newline ->
  span p (l ++ y) = ((span p l).1, (span p l).2 ++ y) /\ (span p l).2 <> [].
Proof.
  intros Hp. induction l as [|c l IH]; intros Hl; simpl; [done|]. destruct (p c) eqn:Ec; [|done].
  destruct l as [|d l]; [simpl in Hl; congruence|]. destruct (IH Hl) as [-> Hn]. by destruct (span p (d :: l)).
Qed.

Lemma dollar_tag_line c (l y : text) : last (c :: l) = Some c_newline -> dollar_quote_tag_at (c :: l ++ y) = dollar_quote_tag_at (c :: l).
Proof.
  intros Hl. unfold dollar_quote_tag_at. destruct l as [|b l]; simpl in *.
  { simplify_eq. destruct y; done. }
  case_match; [done|]. case_match; [done|]. destruct (is_token_char b) eqn:Eb; [|done].
  destruct l as [|d l]; [simpl in Hl; simplify_eq; done|].
  destruct (span_line (fun c => is_ascii_alphanumeric c || (c =? c_underscore)%Z) (d :: l) y eq_refl Hl) as [-> Hn].
  destruct (span _ (d :: l)) as [w after]. simpl in *. by destruct after.
Qed.

Lemma round_opener_newline s rest : round_opener s c_newline rest = None.
Proof.
  unfold round_opener. cbv zeta. change (c_newline =? _)%Z with false. rewrite ?andb_false_r, ?andb_false_l. simpl.
  repeat (rewrite ?andb_false_r; simpl). destruct (supports_dollar_quoted_strings _); [|done]. by destruct rest.
Qed.

(** A round does not look past the end of the line. *)
Lemma round_line rec s c l y : wf s -> last (c :: l) = Some c_newline -> round rec s c (l ++ y) = round rec s c l.
Proof.
  intros Hw Hl. unfold round. destruct (pending_psql_command s); [done|]. case_match; [done|].
  destruct (dollar_quote_tag s) as [tag|] eqn:Et.
  { unfold round_dollar, starts_with_chars. change (c :: l ++ y) with ((c :: l) ++ y).
    by rewrite prefix_of_line by (done || by destruct (wf_tag _ Hw tag Et)). }
  do 3 (case_match; [done|]). destruct (in_quotes s); [done|].
  enough (round_opener s c (l ++ y) = round_opener s c l) as -> by done.
  destruct l as [|d l]; [injection Hl as ->; by rewrite !round_opener_newline|].
  unfold round_opener. cbv zeta. change ((d :: l) ++ y) with (d :: l ++ y). cbn [head].
  pose proof (dollar_tag_line c (d :: l) y Hl) as Ht. simpl app in Ht. by rewrite Ht.
Qed.

Lemma push_loop_line rec skip s a b : rec_inner rec -> inner s -> skip <= length a -> a = [] \/ last a = Some c_newline ->
  push_loop rec skip s (a ++ b) =
  let '(s1, out1) := push_loop rec skip s a in let '(s2, out2) := push_loop rec 0 s1 b in (s2, out1 ++ out2).
Proof.
  intros Hrec. revert skip s. induction a as [|c a IH]; intros skip s Hi Hskip Hl; simpl.
  { replace skip with 0 by (simpl in Hskip; lia). by destruct (push_loop rec 0 s b). }
  destruct Hl as [?|Hl]; [done|]. assert (a = [] \/ last a = Some c_newline) as Ha by (destruct a; auto).
  destruct skip as [|skip]; [|apply IH; [done|simpl in *; lia|done]].
  rewrite (round_line rec s c a b (proj1 Hi) Hl). destruct (round rec s c a) as [[s1 out1] n] eqn:Er.
  pose proof (round_consumed _ _ _ _ _ _ _ (proj1 Hi) Er) as Hn. destruct (round_wf _ _ _ _ _ _ _ Hrec Hi Er) as [Hw1 Hp1].
  rewrite IH; [|split; [done|]|lia|done].
  - destruct (push_loop rec (n - 1) s1 a) as [s2 out2]. destruct (push_loop rec 0 s2 b) as [s3 out3]. by rewrite app_assoc.
  - destruct (pending_mysql_line_comment_dashes s1); [|done]. destruct (Hp1 eq_refl) as [-> ->]. done.
Qed.

Lemma push_chunk_unfold s chunk :
  push_chunk_with_control s chunk = push_loop (push_chunk_fuel 1) 0 (begin_chunk s chunk) chunk.
Proof. done. Qed.

Lemma push_chunk_wf s chunk : wf s -> wf (push_chunk_with_control s chunk).1.
Proof. intros Hw. exact (proj1 (push_chunk_fuel_wf 2 s chunk Hw)). Qed.

Lemma push_chunk_inner s chunk : wf s -> last chunk = Some c_newline -> inner (push_chunk_with_control s chunk).1.
Proof.
  intros Hw Hl. split; [by apply push_chunk_wf|]. destruct (push_chunk_fuel_wf 2 s chunk Hw) as [_ Hp].
  apply not_true_is_false. intros E. assert (chunk <> []) by (by intros ->). destruct (Hp ltac:(by right) E); [done|congruence].
Qed.

Lemma push_chunk_line s a b : wf s -> last a = Some c_newline ->
  push_chunk_with_control s (a ++ b) =
  let '(s1, out1) := push_chunk_with_control s a in let '(s2, out2) := push_chunk_with_control s1 b in (s2, out1 ++ out2).
Proof.
  intros Hw Hl. destruct (push_chunk_inner s a Hw Hl) as [_ Hp]. rewrite (push_chunk_unfold s a) in Hp |- *.
  destruct a as [|c a]; [done|]. rewrite push_chunk_unfold. change (begin_chunk s ((c :: a) ++ b)) with (begin_chunk s (c :: a)).
  rewrite push_loop_line; [|apply fuel_rec_inner, push_chunk_fuel_wf|by apply begin_chunk_inner|simpl; lia|by right].
  destruct (push_loop (push_chunk_fuel 1) 0 (begin_chunk s (c :: a)) (c :: a)) as [s1 out1]. simpl in Hp.
  rewrite push_chunk_unfold. enough (begin_chunk s1 b = s1) as -> by done. unfold begin_chunk. rewrite Hp. by destruct b.
Qed.

(** The statements of a script that arrives in chunks, as the import of a file
    collects them. *)
Fixpoint push_chunks (s : SqlStatementSplitter) (chunks : list text) : SqlStatementSplitter * list SqlStatementWithControl :=
  match chunks with
  | [] => (s, [])
  | chunk :: chunks' =>
    let '(s1, out1) := push_chunk_with_control s chunk in
    let '(s2, out2) := push_chunks s1 chunks' in (s2, out1 ++ out2)
  end.

Definition split_chunks (o : SqlParsingOptions) (chunks : list text) : list SqlStatementWithControl :=
  let '(s, out) := push_chunks (with_options o) chunks in out ++ finish_with_control s.

Lemma push_chunks_wf s chunks : wf s -> wf (push_chunks s chunks).1.
Proof.
  revert s. induction chunks as [|chunk chunks IH]; intros s Hw; simpl; [done|].
  pose proof (push_chunk_wf s chunk Hw) as Hw1.
  destruct (push_chunk_with_control s chunk) as [s1 out1]. specialize (IH s1 Hw1).
  by destruct (push_chunks s1 chunks).
Qed.

Lemma push_chunks_lines s lines tail : wf s -> Forall (fun l => last l = Some c_newline) lines ->
  push_chunks s (lines ++ [tail]) = push_chunk_with_control s (concat lines ++ tail).
Proof.
  intros Hw Hl. revert s Hw. induction Hl as [|l lines Hl Hls IH]; intros s Hw; simpl.
  { destruct (push_chunk_with_control s tail). by rewrite app_nil_r. }
  rewrite <- app_assoc, push_chunk_line by done.
  pose proof (push_chunk_wf s l Hw) as Hw1.
  destruct (push_chunk_with_control s l) as [s1 out1]. by rewrite IH.
Qed.

(** The statements of a division are trimmed and have something to execute. *)
Lemma statements_of_executable o l :
  Forall (fun st => has_executable_sql_with_options st o = true /\ trim_chars st = st) (statements_of o l).
Proof.
  unfold statements_of. apply Forall_forall. intros st [Hin Hex]%elem_of_bool_filter. split; [done|].
  apply list_elem_of_fmap in Hin as ([piece t] & -> & _). apply trim_chars_idemp.
Qed.

(** ** Theorems *)

(** C30. However a script is cut into chunks, the splitter is at every moment in at
    most one of: a single- or double-quoted string, a backtick identifier, a line
    comment, a block comment, a dollar-quoted string, a [q'...'] literal; dashes
    wait for the next chunk only outside all of them; and the tag of an open
    dollar-quoted string is not empty and has no line end. *)
Theorem splitter_contexts_exclusive o chunks : wf (push_chunks (with_options o) chunks).1.
Proof. apply push_chunks_wf, with_options_wf. Qed.

(** A script may be fed in chunks that end at line ends: the statements, with
    their error control, are those of the script in one chunk, for every dialect
    (psql commands, dashes, tags, quotes and comments included). *)
Theorem line_chunks_transparent o lines tail :
  Forall (fun l => last l = Some c_newline) lines ->
  split_chunks o (lines ++ [tail]) = split_chunks o [concat lines ++ tail].
Proof.
  intros Hl. unfold split_chunks. rewrite push_chunks_lines by (done || apply with_options_wf).
  simpl. destruct (push_chunk_with_control _ _). by rewrite app_nil_r.
Qed.

End Splitter.

(** ** On concrete scripts *)

Section Samples.

#[local] Instance ascii_tables : UnicodeTables := {| is_alphanumeric := is_ascii_alphanumeric |}.
#[local] Instance fallback_tokenizer : SqlTokenizer := {| tokenize := fun _ => None |}.

Definition line (s : string) : text := txt s ++ [c_newline].

(** The theorem on lines, on a dollar-quoted body and a psql command. *)
Lemma line_chunks_transparent_witness :
  let o := Options.for_database_type DatabaseType.Postgres in
  let lines := [line "\set ON_ERROR_STOP on"; line "DO $f$"; line "  a; b;"] in
  split_chunks o (lines ++ [txt "$f$; SELECT 1"]) = split_chunks o [concat lines ++ txt "$f$; SELECT 1"] /\
  map stmt_stop_on_error (split_chunks o [concat lines ++ txt "$f$; SELECT 1"]) = [true; true].
Proof.
  split; [apply (line_chunks_transparent (Options.for_database_type DatabaseType.Postgres)); repeat constructor|].
  vm_compute. reflexivity.
Defined.

(** A chunk boundary inside a tag hides the string: its semicolon splits it. *)
Example tag_across_chunks :
  map sql (split_chunks Options.default [txt "DO $b"; txt "$ a; b $b$"]) = [txt "DO $b$ a"; txt "b $b$"] /\
  map sql (split_chunks Options.default [txt "DO $b$ a; b $b$"]) = [txt "DO $b$ a; b $b$"].
Proof. split; vm_compute; reflexivity. Qed.

(** The comment opener [/*/] is taken for a whole comment, so the text it
    comments out is executed. *)
Example commented_statement_is_executed :
  split_sql_statements (txt "SELECT 1 /*/ ; DROP TABLE t; */") = [txt "SELECT 1 /*/"; txt "DROP TABLE t"; txt "*/"].
Proof. vm_compute. reflexivity. Qed.

(** A [*] right after a comment opens another one, which swallows the rest. *)
Example star_after_comment_opens_comment :
  split_sql_statements (txt "SELECT 5 /* x */* 2; SELECT 3") = [txt "SELECT 5 /* x */* 2; SELECT 3"].
Proof. vm_compute. reflexivity. Qed.

(** A line of a [q'...'] literal that looks like a psql command is dropped. *)
Example psql_command_inside_literal :
  map sql (split_chunks (Options.for_database_type DatabaseType.Gaussdb)
    [line "SELECT q'[a" ++ line "\echo x" ++ txt "]' FROM t"]) = [line "SELECT q'[a" ++ txt "]' FROM t"].
Proof. vm_compute. reflexivity. Qed.

End Samples.
