(* ===== verification/SqlSplitterGrammar.v ===== *)
(** * Where the statement splitter cuts

    A grammar of scripts for the dialects whose statements end at a semicolon
    only (no routine blocks, no [/] lines, no psql commands): plain characters,
    quoted strings and identifiers, line and block comments.  The splitter
    (SqlSplitter.v) cuts a script of this grammar exactly at the semicolons
    between its statements, never at one inside an item. *)

From S2P Require Import Prelude Utf8 SqlDialect SqlLex SqlBlocks SqlScanner SqlSplitter SqlSplitterSpec.

Inductive item : Type :=
| Plain (c : Z)
| Quoted (quote : Z) (body : text)
| LineComment (body : text)
| BlockComment (body : text).

Definition render_item (i : item) : text :=
  match i with
  | Plain c => [c]
  | Quoted quote body => quote :: body ++ [quote]
  | LineComment body => c_dash :: c_dash :: body ++ [c_newline]
  | BlockComment body => c_slash :: c_star :: body ++ [c_star; c_slash]
  end.
Definition render (l : list item) : text := flat_map render_item l.

(** Dialects without blocks and script commands other than [DELIMITER]. *)
Definition plain_profile (p : SqlDialectProfile) : bool :=
  negb p.(supports_oracle_q_quotes) && negb p.(supports_oracle_plsql_blocks)
  && negb p.(supports_oracle_style_routine_bodies) && negb p.(supports_slash_line_block_delimiter)
  && negb p.(supports_mysql_routine_blocks) && negb p.(supports_hana_script_blocks)
  && negb p.(supports_firebird_routine_blocks) && negb p.(keeps_sqlserver_control_flow_batches)
  && negb p.(supports_psql_control_commands).

Definition is_quote_char (p : SqlDialectProfile) (c : Z) : bool :=
  (c =? c_quote)%Z || (c =? c_dquote)%Z || ((c =? c_backtick)%Z && p.(supports_backtick_identifiers)).

Definition lacks (c : Z) (body : text) : bool := negb (existsb (Z.eqb c) body).

(** An item in its place, after the text [buf] of the same statement. *)
Definition valid_item (p : SqlDialectProfile) (buf : text) (i : item) : bool :=
  match i with
  | Plain c =>
    negb (is_quote_char p c) && negb (c =? c_semicolon)%Z && negb (c =? c_dollar)%Z
    && negb (p.(supports_hash_line_comments) && (c =? c_hash)%Z)
    && negb ((c =? c_dash)%Z && opt_is (last buf) c_dash)
    && negb ((c =? c_star)%Z && opt_is (last buf) c_slash)
    && negb ((c =? c_newline)%Z && p.(supports_custom_delimiter_commands)
             && bool_decide (is_Some (parse_delimiter_command (last_line buf))))
  | Quoted quote body =>
    is_quote_char p quote && lacks quote body && lacks c_backslash body
    && negb (p.(supports_backslash_escaped_quotes) && has_odd_trailing_backslashes buf)
  | LineComment body =>
    lacks c_newline body && negb (opt_is (last buf) c_dash)
    && dash_dash_starts_line_comment p (head (body ++ [c_newline]))
  | BlockComment body => lacks c_slash body
  end.

Fixpoint valid_items (p : SqlDialectProfile) (buf : text) (l : list item) : bool :=
  match l with
  | [] => true
  | i :: l' => valid_item p buf i && valid_items p (buf ++ render_item i) l'
  end.

(** The line in progress starts with the word [DELIMITER], as [on_delimiter_line]. *)
Definition delimiter_line (o : SqlParsingOptions) (buf : text) : bool :=
  let line := trim_chars_start (last_line buf) in
  (9 <=? length line)%nat && eq_ignore_ascii_case (take 9 line) (txt "delimiter")
  && negb (has_executable_sql_with_options (trim_chars (before_last_line buf)) o).

(** A statement that a semicolon may end: it is no [DELIMITER] line and does not
    end in an XML entity, whose semicolon would be part of it. *)
Definition valid_statement (o : SqlParsingOptions) (l : list item) : bool :=
  valid_items o.(profile) [] l && negb (ends_with_xml_entity_reference (render l))
  && negb (o.(profile).(supports_custom_delimiter_commands) && delimiter_line o (render l)).

(** What may follow the last semicolon. *)
Definition valid_tail (o : SqlParsingOptions) (l : list item) : bool :=
  valid_items o.(profile) [] l
  && negb (o.(profile).(supports_custom_delimiter_commands)
           && bool_decide (is_Some (parse_delimiter_command (last_line (trim_chars (render l)))))).

Section Grammar.
Context `{Unicode : UnicodeTables, Tokens : SqlTokenizer}.
Context (o : SqlParsingOptions) (Hplain : plain_profile o.(profile) = true).

Notation p := (o.(profile)).

(** Between two items of a statement, with [buf] in the buffer. *)
Record Ready (buf : text) (s : SqlStatementSplitter) : Prop := {
  ready_buffer : s.(buffer) = buf;
  ready_code : at_code s;
  ready_quotes : in_quotes s = false;
  ready_options : s.(options) = o;
  ready_psql : s.(pending_psql_command) = None;
  ready_dashes : s.(pending_mysql_line_comment_dashes) = false;
  ready_delimiter : s.(custom_delimiter) = None;
  ready_previous : s.(previous) = last buf \/ (buf = [] /\ s.(previous) = Some c_semicolon);
}.

Lemma lacks_forall c body : lacks c body = true -> Forall (fun d => d <> c) body.
Proof.
  unfold lacks. intros Hl. apply negb_true_iff in Hl. apply Forall_forall. intros d Hd ->.
  rewrite existsb_exists in Hl || idtac. apply not_true_iff_false in Hl. apply Hl, existsb_exists. exists c.
  split; [by apply list_elem_of_In|apply Z.eqb_refl].
Qed.

Lemma silent rec s s' c rest : round rec s c rest = (s', [], 1) -> push_loop rec 0 s (c :: rest) = push_loop rec 0 s' rest.
Proof. intros Hr. simpl. rewrite Hr. simpl. by destruct (push_loop rec 0 s' rest). Qed.

Lemma ready_opt_is s buf c : Ready buf s -> (c =? c_semicolon)%Z = false -> opt_is s.(previous) c = opt_is (last buf) c.
Proof. intros Hr Hc. destruct (ready_previous _ _ Hr) as [->|[-> ->]]; [done|]. unfold opt_is. cbn [last]. by rewrite Z.eqb_sym, Hc. Qed.

(** A character that neither opens anything nor ends the statement. *)
Lemma ready_round rec s buf c rest : Ready buf s -> round_opener s c rest = None -> character s c = (push s c, []) ->
  (c = c_newline -> line_command (push s c) = None) -> round rec s c rest = (advance s c, [], 1).
Proof.
  intros Hr Ho Hc Hl. destruct (ready_code _ _ Hr) as (Ht & Hline & Hb & Hq). pose proof (ready_quotes _ _ Hr) as Hin.
  assert (starts_psql_command s c = false) as Hp.
  { apply no_psql_starts. split; [by apply (ready_psql _ _ Hr)|]. unfold prof. rewrite (ready_options _ _ Hr).
    unfold plain_profile in Hplain. by bool_solver. }
  unfold round. rewrite (ready_psql _ _ Hr), Hp, Ht, Hline, Hb, Hq, Hin, Ho. simpl.
  unfold round_main. rewrite Hc. unfold in_quotes in *. simpl. rewrite Hin, Ht. simpl.
  replace (if (c =? c_newline)%Z then line_command (push s c) else None)
    with (@None (SqlStatementSplitter * list SqlStatementWithControl))
    by (destruct (Z.eqb_spec c c_newline); [by rewrite Hl|done]).
  unfold delimiter_check. simpl. by rewrite (ready_delimiter _ _ Hr).
Qed.

Lemma ready_advance buf s c : Ready buf s -> Ready (buf ++ [c]) (advance s c).
Proof.
  intros [Hb Hc Hq Ho Hp Hd Hdel _]. split; simpl; [by rewrite Hb|done..|]. left. by rewrite last_snoc.
Qed.

Lemma ready_prof buf s : Ready buf s -> prof s = p.
Proof. intros Hr. unfold prof. by rewrite (ready_options _ _ Hr). Qed.

Lemma plain_opener buf s c rest : Ready buf s -> valid_item p buf (Plain c) = true ->
  (c = c_slash -> opt_is (head rest) c_star = false) -> round_opener s c rest = None.
Proof.
  intros Hr Hv Hs. unfold round_opener. cbv zeta. rewrite (ready_prof _ _ Hr).
  rewrite !(ready_opt_is _ _ _ Hr) by done. simpl in Hv. unfold plain_profile in Hplain. bool_solver.
  repeat match goal with E : supports_oracle_q_quotes _ = false |- _ => rewrite E; clear E end. simpl.
  assert (forall q, (c =? c_dash)%Z && opt_is (last buf) c_dash = false -> opt_is (last buf) c_dash && (c =? c_dash)%Z && q = false) as Hd.
  { intros q Hq. by rewrite (andb_comm (opt_is _ _)), Hq. }
  rewrite <- andb_assoc, !Hd by done. rewrite (andb_comm (opt_is (last buf) c_slash)).
  repeat match goal with E : _ && _ = false |- _ => rewrite E; clear E end.
  destruct (Z.eqb_spec c c_slash) as [->|]; [rewrite Hs by done|]; simpl;
    (destruct (supports_dollar_quoted_strings _); [|done]); unfold dollar_quote_tag_at; destruct rest; try done.
  match goal with E : (c =? c_dollar)%Z = false |- _ => by rewrite E end.
Qed.

Lemma plain_character buf s c : Ready buf s -> valid_item p buf (Plain c) = true -> character s c = (push s c, []).
Proof.
  intros Hr Hv. unfold character. cbv zeta. rewrite (ready_prof _ _ Hr). simpl in Hv. unfold is_quote_char in Hv. bool_solver.
  repeat match goal with E : (c =? _)%Z = false |- _ => rewrite E; clear E end. simpl.
  match goal with E : _ && _ = false |- _ => rewrite E end. done.
Qed.

Lemma plain_line_command buf s c : Ready buf s -> valid_item p buf (Plain c) = true -> c = c_newline -> line_command (push s c) = None.
Proof.
  intros Hr Hv ->. simpl in Hv. unfold plain_profile in Hplain. bool_solver. unfold line_command. cbv zeta. simpl buffer.
  rewrite removelast_last, (ready_buffer _ _ Hr), parse_delimiter_trim. unfold prof. simpl options. rewrite (ready_options _ _ Hr).
  match goal with E : supports_slash_line_block_delimiter _ = false |- _ => rewrite E end. simpl.
  destruct (supports_custom_delimiter_commands _); [|done]. simpl in *. bool_solver.
  destruct (parse_delimiter_command (last_line buf)); [|done]. naive_solver.
Qed.

Lemma plain_step rec buf s c rest : Ready buf s -> valid_item p buf (Plain c) = true ->
  (c = c_slash -> opt_is (head rest) c_star = false) ->
  push_loop rec 0 s (c :: rest) = push_loop rec 0 (advance s c) rest /\ Ready (buf ++ [c]) (advance s c).
Proof.
  intros Hr Hv Hs. split; [|by apply ready_advance]. apply silent, (ready_round _ _ buf); [done| | |].
  - by apply (plain_opener buf).
  - by apply (plain_character buf).
  - by apply (plain_line_command buf).
Qed.

(** ** Quoted items *)

Lemma no_odd_backslashes l : last l <> Some c_backslash -> has_odd_trailing_backslashes l = false.
Proof.
  intros Hl. unfold has_odd_trailing_backslashes. destruct l as [|c l _] using rev_ind; [done|].
  rewrite last_snoc in Hl. rewrite reverse_app. simpl. by destruct (Z.eqb_spec c c_backslash) as [->|].
Qed.

Lemma last_body (buf body : text) q : q <> c_backslash -> lacks c_backslash body = true -> last (buf ++ q :: body) <> Some c_backslash.
Proof.
  intros Hq Hb%lacks_forall. rewrite last_app, last_cons. destruct (last body) as [c|] eqn:E; [|congruence].
  apply last_Some_elem_of in E. rewrite Forall_forall in Hb. intros [= ->]. by apply (Hb c_backslash).
Qed.

(** Inside the item that [quote] opened. *)
Record Inside (quote : Z) (buf : text) (s : SqlStatementSplitter) : Prop := {
  inside_buffer : s.(buffer) = buf;
  inside_code : at_code s;
  inside_single : s.(in_single_quote) = (quote =? c_quote)%Z;
  inside_double : s.(in_double_quote) = (quote =? c_dquote)%Z;
  inside_backtick : s.(in_backtick) = (quote =? c_backtick)%Z;
  inside_options : s.(options) = o;
  inside_psql : s.(pending_psql_command) = None;
  inside_dashes : s.(pending_mysql_line_comment_dashes) = false;
  inside_delimiter : s.(custom_delimiter) = None;
}.

Lemma quote_cases quote : is_quote_char p quote = true ->
  quote = c_quote \/ quote = c_dquote \/ (quote = c_backtick /\ p.(supports_backtick_identifiers) = true).
Proof. unfold is_quote_char. intros [[?%Z.eqb_eq|?%Z.eqb_eq]%orb_true_iff|[?%Z.eqb_eq ?]%andb_true_iff]%orb_true_iff; auto. Qed.

Lemma inside_round rec quote buf s c rest s' : is_quote_char p quote = true -> Inside quote buf s ->
  character s c = (s', []) -> s'.(dollar_quote_tag) = None -> s'.(custom_delimiter) = None -> c <> c_newline \/ in_quotes s' = true ->
  round rec s c rest = (s' <| previous := Some c |>, [], 1).
Proof.
  intros Hq Hi Hc Ht' Hd' Hn. destruct (inside_code _ _ _ Hi) as (Ht & Hline & Hb & Hqq).
  assert (in_quotes s = true) as Hin.
  { unfold in_quotes. rewrite (inside_single _ _ _ Hi), (inside_double _ _ _ Hi), (inside_backtick _ _ _ Hi).
    by destruct (quote_cases _ Hq) as [->|[->|[-> _]]]. }
  assert (starts_psql_command s c = false) as Hp.
  { unfold starts_psql_command. rewrite Hin. simpl. by rewrite !andb_false_r. }
  unfold round. rewrite (inside_psql _ _ _ Hi), Hp, Ht, Hline, Hb, Hqq, Hin. simpl.
  unfold round_main. rewrite Hc, Ht'. simpl. rewrite orb_false_r. destruct (in_quotes s') eqn:Es; [done|].
  destruct Hn as [Hn|?]; [|done]. destruct (Z.eqb_spec c c_newline); [done|]. unfold delimiter_check. by rewrite Hd'.
Qed.

Lemma inside_character quote buf s c : is_quote_char p quote = true -> Inside quote buf s -> c <> quote -> character s c = (push s c, []).
Proof.
  intros Hq Hi Hc. unfold character, in_quotes. cbv zeta.
  rewrite (inside_single _ _ _ Hi), (inside_double _ _ _ Hi), (inside_backtick _ _ _ Hi).
  destruct (quote_cases _ Hq) as [->|[->|[-> _]]]; simpl;
    destruct (c =? c_quote)%Z eqn:E1, (c =? c_dquote)%Z eqn:E2, (c =? c_backtick)%Z eqn:E3;
    rewrite ?andb_false_r, ?orb_true_r; simpl; rewrite ?andb_false_r; try done; lia.
Qed.

Lemma inside_step rec quote buf s c rest : is_quote_char p quote = true -> Inside quote buf s -> c <> quote ->
  push_loop rec 0 s (c :: rest) = push_loop rec 0 (advance s c) rest /\ Inside quote (buf ++ [c]) (advance s c).
Proof.
  intros Hq Hi Hc. pose proof (inside_character quote buf s c Hq Hi Hc) as Hch. split.
  - apply silent, (inside_round _ quote buf); [done|done|done| | |right].
    + by apply (inside_code _ _ _ Hi).
    + by apply (inside_delimiter _ _ _ Hi).
    + unfold in_quotes. simpl. rewrite (inside_single _ _ _ Hi), (inside_double _ _ _ Hi), (inside_backtick _ _ _ Hi).
      by destruct (quote_cases _ Hq) as [->|[->|[-> _]]].
  - destruct Hi as [Hb Hcode H1 H2 H3 Ho Hp Hd Hdel]. split; simpl; [by rewrite Hb|done..].
Qed.

Lemma inside_steps rec quote buf s body rest : is_quote_char p quote = true -> Inside quote buf s -> lacks quote body = true ->
  exists s', push_loop rec 0 s (body ++ rest) = push_loop rec 0 s' rest /\ Inside quote (buf ++ body) s'.
Proof.
  intros Hq Hi Hb%lacks_forall. revert buf s Hi. induction Hb as [|c body Hc Hb IH]; intros buf s Hi; cbn [app].
  { exists s. by rewrite app_nil_r. }
  destruct (inside_step rec quote buf s c (body ++ rest) Hq Hi Hc) as [He Hi']. rewrite He.
  destruct (IH _ _ Hi') as (s' & Hs & Hr). exists s'. by rewrite <- app_assoc in Hr.
Qed.

(** The characters that open and close a quoted item. *)
Lemma quote_opens buf s quote : Ready buf s -> is_quote_char p quote = true ->
  p.(supports_backslash_escaped_quotes) && has_odd_trailing_backslashes buf = false ->
  exists s', character s quote = (s', []) /\ Inside quote (buf ++ [quote]) s' /\ in_quotes s' = true.
Proof.
  intros Hr Hq Hodd. pose proof (ready_quotes _ _ Hr) as Hin. unfold in_quotes in Hin. bool_solver.
  unfold character, single_quote_backslash_escapes, in_quotes. cbv zeta. rewrite (ready_prof _ _ Hr), (ready_buffer _ _ Hr).
  repeat match goal with E : in_single_quote s = _ |- _ => rewrite E end.
  repeat match goal with E : in_double_quote s = _ |- _ => rewrite E end.
  repeat match goal with E : in_backtick s = _ |- _ => rewrite E end. rewrite Hodd.
  destruct (quote_cases _ Hq) as [->|[->|[-> Hb]]]; simpl; rewrite ?Hb; simpl;
    eexists; (split; [done|]); (split; [|simpl; by rewrite ?orb_true_r]);
    destruct Hr as [Hbuf Hc _ Ho Hp Hd Hdel _]; split; simpl; try done; by rewrite Hbuf.
Qed.

Lemma quote_closes buf s quote : Inside quote buf s -> is_quote_char p quote = true -> last buf <> Some c_backslash ->
  exists s', character s quote = (s', []) /\ Ready (buf ++ [quote]) (s' <| previous := Some quote |>).
Proof.
  intros Hi Hq Hl%no_odd_backslashes. pose proof Hi as [Hbuf Hc H1 H2 H3 Ho Hp Hd Hdel].
  assert (prof s = p) as Hprof by (unfold prof; by rewrite Ho).
  unfold character. cbv zeta. rewrite Hprof, Hbuf, Hl, H1, H2, H3.
  destruct (quote_cases _ Hq) as [->|[->|[-> Hb]]]; simpl; rewrite ?andb_false_r, ?Hb; simpl;
    eexists; (split; [done|]); split; unfold in_quotes; simpl; rewrite ?Hbuf, ?H1, ?H2, ?H3; try done; left; by rewrite last_snoc.
Qed.

Lemma opener_quote buf s quote rest : Ready buf s -> is_quote_char p quote = true -> round_opener s quote rest = None.
Proof.
  intros Hr Hq. unfold round_opener. cbv zeta. rewrite (ready_prof _ _ Hr). unfold plain_profile in Hplain. bool_solver.
  match goal with E : supports_oracle_q_quotes _ = false |- _ => rewrite E end.
  destruct (quote_cases _ Hq) as [->|[->|[-> _]]]; simpl; rewrite ?andb_false_r; simpl; rewrite ?andb_false_r; simpl;
    destruct (supports_dollar_quoted_strings _); try done; by destruct rest.
Qed.

Lemma quoted_step rec buf s quote body rest : Ready buf s -> valid_item p buf (Quoted quote body) = true ->
  exists s', push_loop rec 0 s (render_item (Quoted quote body) ++ rest) = push_loop rec 0 s' rest /\
    Ready (buf ++ render_item (Quoted quote body)) s'.
Proof.
  intros Hr Hv. simpl in Hv. bool_solver.
  match goal with E : is_quote_char _ _ = true |- _ => rename E into Hq end.
  destruct (quote_opens buf s quote Hr Hq ltac:(done)) as (s1 & Hc1 & Hi1 & Hin1).
  assert (Hopen : round rec s quote (body ++ [quote] ++ rest) = (s1 <| previous := Some quote |>, [], 1)).
  { destruct (ready_code _ _ Hr) as (Ht & Hline & Hb & Hqq). unfold round.
    rewrite (ready_psql _ _ Hr), (no_psql_starts s quote), Ht, Hline, Hb, Hqq, (ready_quotes _ _ Hr), (opener_quote buf) by
      (done || (split; [apply (ready_psql _ _ Hr)|rewrite (ready_prof _ _ Hr); unfold plain_profile in Hplain; by bool_solver])).
    simpl. unfold round_main. rewrite Hc1, Hin1. done. }
  assert (Inside quote (buf ++ [quote]) (s1 <| previous := Some quote |>)) as Hi2 by (by destruct Hi1; split).
  destruct (inside_steps rec quote _ _ body ([quote] ++ rest) Hq Hi2 ltac:(done)) as (s2 & Hs2 & Hi3).
  rewrite <- app_assoc in Hi3. assert (last (buf ++ [quote] ++ body) <> Some c_backslash) as Hlast.
  { apply last_body; [|done]. by destruct (quote_cases _ Hq) as [->|[->|[-> _]]]. }
  destruct (quote_closes _ _ quote Hi3 Hq Hlast) as (s3 & Hc3 & Hr3).
  exists (s3 <| previous := Some quote |>). split.
  - cbn [render_item]. cbn [app]. rewrite <- app_assoc, (silent rec _ _ _ _ Hopen), Hs2. cbn [app].
    apply silent, (inside_round _ quote (buf ++ [quote] ++ body)); [done|done|done| | |left].
    + apply (ready_code _ _ Hr3).
    + apply (ready_delimiter _ _ Hr3).
    + by destruct (quote_cases _ Hq) as [->|[->|[-> _]]].
  - cbn [render_item]. by rewrite <- !app_assoc in Hr3.
Qed.

(** ** Comments *)

(** The parts of a state that comments leave alone. *)
Definition frame (s : SqlStatementSplitter) :=
  (s.(in_single_quote), s.(in_double_quote), s.(in_backtick), s.(dollar_quote_tag), s.(oracle_q_quote),
   s.(options), s.(pending_psql_command), s.(pending_mysql_line_comment_dashes), s.(custom_delimiter)).

Lemma ready_frame buf buf' s s' : Ready buf s -> frame s' = frame s -> s'.(buffer) = buf' -> s'.(in_line_comment) = false ->
  s'.(block_comment_depth) = 0 -> s'.(previous) = last buf' -> Ready buf' s'.
Proof.
  intros [Hb (Ht & Hl & Hbl & Hq) Hin Ho Hp Hd Hdel _] Hf Hb' Hl' Hbl' Hpv. unfold frame in Hf.
  injection Hf as F1 F2 F3 F4 F5 F6 F7 F8 F9. unfold in_quotes in Hin.
  split; unfold at_code, in_quotes; rewrite ?F1, ?F2, ?F3, ?F4, ?F5, ?F6, ?F7, ?F8, ?F9; auto.
Qed.

(** A round inside a comment, whichever characters follow. *)
Lemma comment_round rec buf s s' c rest : Ready buf s -> frame s' = frame s -> s'.(in_line_comment) = true \/ 0 < s'.(block_comment_depth) ->
  round rec s' c rest = if s'.(in_line_comment) then round_line_comment s' c else round_block_comment s' c.
Proof.
  intros Hr Hf Hc. unfold frame in Hf. injection Hf as F1 F2 F3 F4 F5 F6 F7 F8 F9.
  assert (starts_psql_command s' c = false) as Hp.
  { apply no_psql_starts. split; [rewrite F7; apply (ready_psql _ _ Hr)|]. unfold prof. rewrite F6, (ready_options _ _ Hr).
    unfold plain_profile in Hplain. by bool_solver. }
  destruct (ready_code _ _ Hr) as (Ht & _). unfold round. rewrite F7, (ready_psql _ _ Hr), Hp, F4, Ht.
  destruct (in_line_comment s'); [done|]. destruct Hc as [?|Hd]; [done|]. by rewrite (proj2 (Nat.ltb_lt _ _) Hd).
Qed.

Lemma line_comment_steps rec buf s s' body rest : Ready buf s -> frame s' = frame s -> s'.(in_line_comment) = true ->
  s'.(block_comment_depth) = 0 -> lacks c_newline body = true ->
  exists s2, push_loop rec 0 s' (body ++ c_newline :: rest) = push_loop rec 0 s2 rest /\ Ready (s'.(buffer) ++ body ++ [c_newline]) s2.
Proof.
  intros Hr Hf Hl Hd Hb%lacks_forall. revert s' Hf Hl Hd. induction Hb as [|c body Hc Hb IH]; intros s' Hf Hl Hd; cbn [app].
  - eexists. split.
    + apply silent. rewrite (comment_round rec buf s) by auto. rewrite Hl. done.
    + apply (ready_frame buf _ s); [done|done|done|done|done|]. by rewrite last_snoc.
  - destruct (IH (advance s' c)) as (s2 & He & Hr2); [done|done|done|]. exists s2. split.
    + rewrite <- He. apply silent. rewrite (comment_round rec buf s) by auto. rewrite Hl. unfold round_line_comment.
      rewrite (proj2 (Z.eqb_neq c c_newline)) by done. clear -Hl. destruct s'. simpl in Hl. by subst.
    + simpl in Hr2. by rewrite <- app_assoc in Hr2.
Qed.

Lemma line_comment_step rec buf s body rest : Ready buf s -> valid_item p buf (LineComment body) = true ->
  exists s', push_loop rec 0 s (render_item (LineComment body) ++ rest) = push_loop rec 0 s' rest /\
    Ready (buf ++ render_item (LineComment body)) s'.
Proof.
  intros Hr Hv. simpl in Hv. bool_solver. cbn [render_item app].
  destruct (plain_step rec buf s c_dash (c_dash :: body ++ [c_newline] ++ rest) Hr) as [He1 Hr1]; [|done|].
  { simpl. match goal with E : opt_is _ _ = false |- _ => rewrite E end. by rewrite ?andb_false_r. }
  rewrite <- app_assoc. rewrite He1. set (s1 := advance s c_dash) in *.
  assert (Hd : round_opener s1 c_dash (body ++ [c_newline] ++ rest) = Some (keep (advance s1 c_dash <| in_line_comment := true |>))).
  { unfold round_opener. cbv zeta. rewrite (ready_prof _ _ Hr1), andb_false_r, andb_false_l. simpl.
    assert (head (body ++ c_newline :: rest) = head (body ++ [c_newline])) as -> by (by destruct body).
    destruct (head (body ++ [c_newline])) as [d|] eqn:Eh; [|by destruct body]. rewrite bool_decide_false by done.
    rewrite andb_false_r. match goal with E : dash_dash_starts_line_comment _ _ = true |- _ => rewrite E end. done. }
  assert (Hround : round rec s1 c_dash (body ++ [c_newline] ++ rest) = keep (advance s1 c_dash <| in_line_comment := true |>)).
  { destruct (ready_code _ _ Hr1) as (Ht & Hline & Hb & Hqq). unfold round.
    rewrite (ready_psql _ _ Hr1), (no_psql_starts s1 c_dash), Ht, Hline, Hb, Hqq, (ready_quotes _ _ Hr1), Hd by
      (split; [apply (ready_psql _ _ Hr1)|rewrite (ready_prof _ _ Hr1); unfold plain_profile in Hplain; by bool_solver]).
    done. }
  rewrite (silent rec _ _ _ _ Hround).
  destruct (line_comment_steps rec _ s1 (advance s1 c_dash <| in_line_comment := true |>) body rest Hr1) as (s2 & He2 & Hr2);
    [done|done|by apply (ready_code _ _ Hr1)|done|].
  exists s2. split; [exact He2|]. simpl in Hr2. rewrite (ready_buffer _ _ Hr) in Hr2. by rewrite <- !app_assoc in Hr2.
Qed.

Lemma block_comment_steps rec buf s s' body rest : Ready buf s -> frame s' = frame s -> s'.(in_line_comment) = false ->
  s'.(block_comment_depth) = 1 -> opt_is s'.(previous) c_slash = false -> lacks c_slash body = true ->
  exists s2, push_loop rec 0 s' (body ++ rest) = push_loop rec 0 s2 rest /\ frame s2 = frame s /\ s2.(in_line_comment) = false /\
    s2.(block_comment_depth) = 1 /\ s2.(buffer) = s'.(buffer) ++ body /\
    s2.(previous) = match last body with Some c => Some c | None => s'.(previous) end.
Proof.
  intros Hr Hf Hl Hd Hp Hb%lacks_forall. revert s' Hf Hl Hd Hp. induction Hb as [|c body Hc Hb IH]; intros s' Hf Hl Hd Hp; cbn [app].
  { exists s'. by rewrite app_nil_r. }
  apply Z.eqb_neq in Hc.
  destruct (IH (advance s' c)) as (s2 & He & Hf2 & Hl2 & Hd2 & Hb2 & Hp2); [done|done|done|simpl; by rewrite Hc|].
  exists s2. split_and!; [|done|done|done| |].
  - rewrite <- He. apply silent. rewrite (comment_round rec buf s) by (auto with lia). rewrite Hl. unfold round_block_comment.
    by rewrite Hp, Hc, !andb_false_r.
  - rewrite Hb2. simpl. by rewrite <- app_assoc.
  - rewrite Hp2, last_cons. simpl. by destruct (last body).
Qed.

Lemma block_comment_step rec buf s body rest : Ready buf s -> valid_item p buf (BlockComment body) = true ->
  exists s', push_loop rec 0 s (render_item (BlockComment body) ++ rest) = push_loop rec 0 s' rest /\
    Ready (buf ++ render_item (BlockComment body)) s'.
Proof.
  intros Hr Hv. simpl in Hv. cbn [render_item app].
  set (s1 := push s c_slash <| block_comment_depth := 1 |> <| previous := None |>).
  assert (Hopen : forall k, round rec s c_slash (c_star :: k) = keep s1).
  { intros k. destruct (ready_code _ _ Hr) as (Ht & Hline & Hb & Hqq). unfold round.
    rewrite (ready_psql _ _ Hr), (no_psql_starts s c_slash), Ht, Hline, Hb, Hqq, (ready_quotes _ _ Hr) by
      (split; [apply (ready_psql _ _ Hr)|rewrite (ready_prof _ _ Hr); unfold plain_profile in Hplain; by bool_solver]).
    simpl. unfold round_opener. cbv zeta. simpl. rewrite !andb_false_r. simpl. by rewrite ?andb_false_r. }
  rewrite (silent rec _ _ _ _ (Hopen _)).
  assert (Hslash : lacks c_slash (c_star :: body ++ [c_star]) = true).
  { unfold lacks in *. simpl. rewrite existsb_app. simpl. rewrite !orb_false_r. exact Hv. }
  destruct (block_comment_steps rec buf s s1 (c_star :: body ++ [c_star]) (c_slash :: rest) Hr) as (s2 & He & Hf & Hl & Hd & Hb2 & Hp2);
    [done|by apply (ready_code _ _ Hr)|done|done|done|].
  exists (advance s2 c_slash <| block_comment_depth := 0 |>). split.
  - replace ((body ++ [c_star; c_slash]) ++ rest) with ((body ++ [c_star]) ++ c_slash :: rest) by (by rewrite <- !app_assoc).
    cbn [app] in He. rewrite He. apply silent. rewrite (comment_round rec buf s) by (auto with lia). rewrite Hl. unfold round_block_comment.
    rewrite Hp2, Hd, last_cons, last_snoc. simpl. by rewrite andb_false_r.
  - apply (ready_frame buf _ s); [done|done| |done|done|].
    + simpl. rewrite Hb2. unfold s1. simpl. rewrite (ready_buffer _ _ Hr). by rewrite <- !app_assoc; simpl; rewrite <- !app_assoc.
    + change [c_star; c_slash] with ([c_star] ++ [c_slash]). rewrite !app_comm_cons, !app_assoc. by rewrite last_snoc.
Qed.

(** ** Items, statements, scripts *)

(** Only a plain slash looks at the text after it, which is no star. *)
Definition slash_ok (buf : text) (rest : text) : bool := negb (opt_is (last buf) c_slash && opt_is (head rest) c_star).

Lemma item_step rec buf s i rest : Ready buf s -> valid_item p buf i = true -> slash_ok (buf ++ render_item i) rest = true ->
  exists s', push_loop rec 0 s (render_item i ++ rest) = push_loop rec 0 s' rest /\ Ready (buf ++ render_item i) s'.
Proof.
  intros Hr Hv Hs. destruct i as [c|quote body|body|body].
  - destruct (plain_step rec buf s c rest Hr Hv) as [He Hr']; [|by exists (advance s c)].
    intros ->. unfold slash_ok in Hs. cbn [render_item] in Hs. rewrite last_snoc in Hs. by apply negb_true_iff in Hs.
  - by apply quoted_step.
  - by apply line_comment_step.
  - by apply block_comment_step.
Qed.

(** The text of valid items does not start with a star after a slash. *)
Lemma items_slash_ok buf l rest : valid_items p buf l = true -> opt_is (head rest) c_star = false -> slash_ok buf (render l ++ rest) = true.
Proof.
  intros Hv Hr. unfold slash_ok. destruct l as [|i l]; simpl.
  { by rewrite Hr, andb_false_r. }
  simpl in Hv. apply andb_true_iff in Hv as [Hv _]. destruct i as [c|quote body|body|body]; simpl.
  - simpl in Hv. bool_solver. rewrite andb_comm. apply negb_true_iff. done.
  - simpl in Hv. bool_solver. destruct (quote_cases quote) as [->|[->|[-> _]]]; [done|by rewrite andb_false_r..].
  - by rewrite andb_false_r.
  - by rewrite andb_false_r.
Qed.

Lemma items_step rec buf s l rest : Ready buf s -> valid_items p buf l = true -> opt_is (head rest) c_star = false ->
  exists s', push_loop rec 0 s (render l ++ rest) = push_loop rec 0 s' rest /\ Ready (buf ++ render l) s'.
Proof.
  revert buf s. induction l as [|i l IH]; intros buf s Hr Hv Hs; simpl.
  { exists s. by rewrite app_nil_r. }
  simpl in Hv. apply andb_true_iff in Hv as [Hv Hvs]. rewrite <- app_assoc.
  destruct (item_step rec buf s i (render l ++ rest) Hr Hv) as (s1 & He1 & Hr1); [by apply items_slash_ok|].
  destruct (IH _ s1 Hr1 Hvs Hs) as (s2 & He2 & Hr2). exists s2. rewrite He1, He2. split; [done|].
  by rewrite <- app_assoc in Hr2.
Qed.

Lemma script_semicolon_step rec buf s rest : Ready buf s -> ends_with_xml_entity_reference buf = false ->
  p.(supports_custom_delimiter_commands) && delimiter_line o buf = false ->
  exists s' out, push_loop rec 0 s (c_semicolon :: rest) = (let '(s2, out2) := push_loop rec 0 s' rest in (s2, out ++ out2)) /\
    map sql out = statements_of o [(buf, [c_semicolon])] /\ Ready [] s'.
Proof.
  intros Hr Hx Hd. destruct (ready_code _ _ Hr) as (Ht & Hline & Hb & Hqq).
  pose proof (ready_quotes _ _ Hr) as Hin. pose proof (ready_buffer _ _ Hr) as Hbuf.
  assert (Hopener : round_opener s c_semicolon rest = None).
  { unfold round_opener. cbv zeta. simpl. rewrite ?andb_false_r. simpl. rewrite ?andb_false_r. simpl. rewrite ?andb_false_r.
    destruct (supports_dollar_quoted_strings _); [|done]. by destruct rest. }
  assert (Hsemi : exists tracker, semicolon s c_semicolon = push_current_statement (s <| oracle_block := tracker |>)).
  { unfold semicolon. cbv zeta. rewrite Hbuf, Hx, (ready_prof _ _ Hr), (ready_delimiter _ _ Hr).
    assert (on_delimiter_line s = delimiter_line o buf) as -> by (unfold on_delimiter_line; by rewrite Hbuf, (ready_options _ _ Hr)).
    rewrite Hd. simpl. unfold plain_profile in Hplain. bool_solver.
    match goal with E : supports_mysql_routine_blocks _ = false |- _ => rewrite E end. simpl.
    assert ((if postgres_dollar_quoted_routine s then (false, oracle_block s)
      else PlSql.tracker_keeps_block_together (options s) (oracle_block s) buf) = (false, oracle_block s)) as ->.
    { case_match; [done|]. unfold PlSql.tracker_keeps_block_together. rewrite (ready_options _ _ Hr).
      match goal with E : supports_oracle_plsql_blocks _ = false |- _ => rewrite E end.
      match goal with E : supports_oracle_style_routine_bodies _ = false |- _ => rewrite E end. done. }
    match goal with E : supports_hana_script_blocks _ = false |- _ => rewrite E end.
    match goal with E : supports_firebird_routine_blocks _ = false |- _ => rewrite E end. simpl.
    unfold SqlServer.keeps_sqlserver_control_flow_batch. simpl options. rewrite (ready_options _ _ Hr).
    match goal with E : keeps_sqlserver_control_flow_batches _ = false |- _ => rewrite E end. simpl. eauto. }
  destruct Hsemi as [tracker Hsemi].
  assert (Hround : round rec s c_semicolon rest =
    ((push_current_statement (s <| oracle_block := tracker |>)).1 <| previous := Some c_semicolon |>,
     (push_current_statement (s <| oracle_block := tracker |>)).2, 1)).
  { unfold round. rewrite (ready_psql _ _ Hr), (no_psql_starts s c_semicolon), Ht, Hline, Hb, Hqq, Hin, Hopener by
      (split; [apply (ready_psql _ _ Hr)|rewrite (ready_prof _ _ Hr); unfold plain_profile in Hplain; by bool_solver]).
    simpl. unfold round_main, character. cbv zeta. simpl. rewrite Hin. simpl. rewrite Hsemi. simpl.
    unfold in_quotes in *. simpl. rewrite Hin, Ht. simpl. unfold delimiter_check. simpl. rewrite (ready_delimiter _ _ Hr).
    simpl. by rewrite app_nil_r. }
  eexists _, _. split; [|split].
  - cbn [push_loop]. rewrite Hround. reflexivity.
  - simpl. rewrite Hbuf. rewrite (map_sql_emit _ buf [c_semicolon]). simpl. by rewrite (ready_options _ _ Hr).
  - destruct Hr as [? ? ? ? ? ? ? ?]. split; simpl; auto.
Qed.

Definition render_script (stmts : list (list item)) (tail : list item) : text :=
  flat_map (fun l => render l ++ [c_semicolon]) stmts ++ render tail.

Lemma statements_step rec s stmts rest : Ready [] s -> forallb (valid_statement o) stmts = true ->
  exists s' out, push_loop rec 0 s (flat_map (fun l => render l ++ [c_semicolon]) stmts ++ rest) =
      (let '(s2, out2) := push_loop rec 0 s' rest in (s2, out ++ out2)) /\
    map sql out = statements_of o (map (fun l => (render l, [c_semicolon])) stmts) /\ Ready [] s'.
Proof.
  revert s. induction stmts as [|l stmts IH]; intros s Hr Hv; simpl.
  { exists s, []. split; [|done]. by destruct (push_loop rec 0 s rest). }
  simpl in Hv. apply andb_true_iff in Hv as [Hv Hvs]. unfold valid_statement in Hv. bool_solver. rewrite <- !app_assoc.
  destruct (items_step rec [] s l (c_semicolon :: flat_map (fun l => render l ++ [c_semicolon]) stmts ++ rest) Hr) as (s1 & He1 & Hr1); [done|done|].
  destruct (script_semicolon_step rec _ s1 (flat_map (fun l => render l ++ [c_semicolon]) stmts ++ rest) Hr1) as (s2 & out1 & He2 & Ho1 & Hr2); [done|done|].
  destruct (IH s2 Hr2 Hvs) as (s3 & out2 & He3 & Ho2 & Hr3). exists s3, (out1 ++ out2). split_and!; [|by rewrite map_app, Ho1, Ho2, <- statements_of_app|done].
  simpl app. rewrite He1, He2, He3. destruct (push_loop rec 0 s3 rest). by rewrite app_assoc.
Qed.

Lemma finish_ready buf s : Ready buf s ->
  p.(supports_custom_delimiter_commands) && bool_decide (is_Some (parse_delimiter_command (last_line (trim_chars buf)))) = false ->
  map sql (finish_with_control s) = statements_of o [(buf, [])].
Proof.
  intros Hr Hv. unfold finish_with_control. rewrite (ready_psql _ _ Hr), (ready_dashes _ _ Hr). cbv zeta.
  rewrite (ready_prof _ _ Hr), (ready_buffer _ _ Hr), parse_delimiter_trim, Hv, (ready_delimiter _ _ Hr). simpl.
  assert (supports_slash_line_block_delimiter p = false) as -> by (unfold plain_profile in Hplain; by bool_solver). simpl.
  rewrite (ready_buffer _ _ Hr), (map_sql_emit _ buf []). by rewrite (ready_options _ _ Hr).
Qed.

Lemma with_options_ready : Ready [] (with_options o).
Proof. by split; auto. Qed.

Lemma split_script stmts tail : forallb (valid_statement o) stmts = true -> valid_tail o tail = true ->
  split_sql_statements_with_options (render_script stmts tail) o =
  statements_of o (map (fun l => (render l, [c_semicolon])) stmts ++ [(render tail, [])]).
Proof.
  intros Hv Ht. unfold valid_tail in Ht. bool_solver. unfold split_sql_statements_with_options, push_chunk, finish.
  rewrite push_chunk_unfold.
  assert (begin_chunk (with_options o) (render_script stmts tail) = with_options o) as -> by (unfold begin_chunk; by case_match).
  destruct (statements_step (push_chunk_fuel 1) (with_options o) stmts (render tail) with_options_ready Hv) as (s1 & out1 & He1 & Ho1 & Hr1).
  destruct (items_step (push_chunk_fuel 1) [] s1 tail [] Hr1) as (s2 & He2 & Hr2); [done|done|]. rewrite app_nil_r in He2.
  unfold render_script. rewrite He1, He2. cbn [push_loop]. rewrite app_nil_r, Ho1, statements_of_app. f_equal.
  by apply finish_ready.
Qed.

End Grammar.


