(* ===== verification/SqlScannerSpec.v ===== *)
(** * psql commands and the division of a script

    What the statements of an execution plan are in terms of the script
    ([sql_execution_plan_for_database_with_compatibility]): the pieces of a division
    of the scanned text, which is the script itself or, where the dialect has psql
    commands, the script with some command lines blanked.  No line that starts inside
    a literal or a comment is blanked: this is shown with the grammar of
    SqlSplitterGrammar.v, for scripts with a backslash in literals and comments only. *)

From S2P Require Import Prelude Utf8 SqlDialect SqlLex SqlBlocks SqlScanner SqlSplitter SqlSplitterSpec SqlSplitterGrammar.

(** An item of a script without commands, after the text [buf] and before [next]:
    quoted texts and comments may hold backslashes and line ends. *)
Definition quiet_item `{UnicodeTables} (p : SqlDialectProfile) (buf : text) (next : option Z) (i : item) : bool :=
  match i with
  | Plain c =>
    negb (is_quote_char p c) && negb (c =? c_backslash)%Z && negb (p.(supports_dollar_quoted_strings) && (c =? c_dollar)%Z)
    && negb (p.(supports_hash_line_comments) && (c =? c_hash)%Z)
    && negb ((c =? c_dash)%Z && opt_is next c_dash) && negb ((c =? c_slash)%Z && opt_is next c_star)
  | Quoted quote body =>
    is_quote_char p quote && lacks quote body && negb (opt_is (last body) c_backslash)
    && negb (p.(supports_oracle_q_quotes) && (quote =? c_quote)%Z && ends_with_oracle_q_quote_prefix buf)
  | LineComment body => lacks c_newline body
  | BlockComment body => lacks c_slash body
  end.

Fixpoint quiet_items `{UnicodeTables} (p : SqlDialectProfile) (buf : text) (l : list item) : bool :=
  match l with
  | [] => true
  | i :: l' => quiet_item p buf (head (render l')) i && quiet_items p (buf ++ render_item i) l'
  end.

Section Masks.
Context `{UnicodeTables} (p : SqlDialectProfile).
Import Scanner.

Lemma scanner_steps_app s before x y after : steps s before (x ++ y) after = steps (steps s before x (y ++ after)) (before ++ x) y after.
Proof using.
  revert s before. induction x as [|c x IH]; intros s before; cbn [steps app]; [by rewrite app_nil_r|].
  rewrite IH, <- !app_assoc. done.
Qed.

(** Where the scanner is: in the code, or in one literal or comment. *)
Inductive mode : Type := Code | InQuotes (quote : Z) | InLineComment | InBlockComment.

Definition quotes_of (m : mode) (quote : Z) : bool := match m with InQuotes q => (q =? quote)%Z | _ => false end.

Record at_mode (m : mode) (s : SqlScanner) : Prop := {
  mode_profile : s.(sc_profile) = p;
  mode_single : s.(in_single_quote) = quotes_of m c_quote;
  mode_double : s.(in_double_quote) = quotes_of m c_dquote;
  mode_backtick : s.(in_backtick) = quotes_of m c_backtick;
  mode_line : s.(in_line_comment) = match m with InLineComment => true | _ => false end;
  mode_block : s.(block_comment_depth) = match m with InBlockComment => 1 | _ => 0 end;
  mode_q : q_is_open s.(oracle_q_quote) = false;
  mode_dollar : s.(dollar_quote_tag) = None;
}.

Definition is_mask (m : mode) : Prop := match m with Code => False | InQuotes quote => is_quote_char p quote = true | _ => True end.

Lemma mode_masked m s : is_mask m -> at_mode m s -> is_masked s = true.
Proof using.
  intros Hm [_ H1 H2 H3 H4 H5 _ _]. unfold is_masked. rewrite H1, H2, H3, H4, H5. destruct m as [|quote| |]; cbn in *; [done| |done|done].
  unfold is_quote_char in Hm. destruct (quote =? c_quote)%Z; [done|]. destruct (quote =? c_dquote)%Z; [done|]. by destruct (quote =? c_backtick)%Z.
Qed.

Lemma with_profile_mode : at_mode Code (with_profile p).
Proof using. by split. Qed.

Lemma quote_char_cases quote : is_quote_char p quote = true ->
  quote = c_quote \/ quote = c_dquote \/ (quote = c_backtick /\ supports_backtick_identifiers p = true).
Proof using.
  unfold is_quote_char. rewrite !orb_true_iff, andb_true_iff, !Z.eqb_eq. naive_solver.
Qed.

(** *** Steps inside *)

Ltac open_state s Hs :=
  let Eq := fresh "Eq" in
  destruct s as [pr q1 e q2 q3 lc bd oq dt pv]; destruct Hs as [? ? ? ? ? ? Eq ?]; cbn in *; subst; unfold step, step_quotes; cbn; rewrite ?Eq; cbn.

Lemma step_in_quotes quote s before c after : is_quote_char p quote = true -> c <> quote -> at_mode (InQuotes quote) s ->
  at_mode (InQuotes quote) (step s before c after) /\ (step s before c after).(previous) = Some c.
Proof using.
  intros Hcases%quote_char_cases Hc Hs. open_state s Hs.
  destruct Hcases as [->|[->|[-> Hk]]]; cbn;
    destruct (Z.eqb_spec c c_quote), (Z.eqb_spec c c_dquote), (Z.eqb_spec c c_backtick); try congruence; cbn; rewrite ?andb_false_r; cbn; by repeat split.
Qed.

Lemma step_closes_quotes quote s before after : is_quote_char p quote = true -> at_mode (InQuotes quote) s -> opt_is s.(previous) c_backslash = false ->
  at_mode Code (step s before quote after) /\ (step s before quote after).(previous) = Some quote.
Proof using.
  intros Hcases%quote_char_cases Hs Hb. open_state s Hs.
  destruct Hcases as [->|[->|[-> Hk]]]; cbn; rewrite ?Hb, ?Hk, ?andb_false_r; cbn; by repeat split.
Qed.

Lemma step_opens_quotes quote s before after : is_quote_char p quote = true -> at_mode Code s -> opt_is s.(previous) c_backslash = false ->
  p.(supports_oracle_q_quotes) && (quote =? c_quote)%Z && ends_with_oracle_q_quote_prefix before = false ->
  at_mode (InQuotes quote) (step s before quote after) /\ (step s before quote after).(previous) = Some quote.
Proof using.
  intros Hcases%quote_char_cases Hs Hb Ho. open_state s Hs.
  rewrite Ho. destruct Hcases as [->|[->|[-> Hk]]]; cbn; rewrite ?andb_false_r; destruct (supports_dollar_quoted_strings p); cbn; rewrite ?Hb, ?Hk, ?andb_false_r; cbn; by repeat split.
Qed.

Lemma step_in_line s before c after : c <> c_newline -> at_mode InLineComment s -> at_mode InLineComment (step s before c after).
Proof using. intros Hc Hs. open_state s Hs. destruct (Z.eqb_spec c c_newline); [done|]. by repeat split. Qed.

Lemma step_closes_line s before after : at_mode InLineComment s ->
  at_mode Code (step s before c_newline after) /\ (step s before c_newline after).(previous) = Some c_newline.
Proof using. intros Hs. open_state s Hs. by repeat split. Qed.

Lemma step_opens_line s before after : at_mode Code s -> at_mode InLineComment (step s before c_dash (c_dash :: after)).
Proof using. intros Hs. open_state s Hs. rewrite !andb_false_r. cbn. by repeat split. Qed.

Lemma step_in_block s before c after : c <> c_slash -> at_mode InBlockComment s -> opt_is s.(previous) c_slash = false ->
  at_mode InBlockComment (step s before c after) /\ (step s before c after).(previous) = Some c.
Proof using.
  intros Hc Hs Hp. open_state s Hs. rewrite Hp, andb_false_r. destruct (Z.eqb_spec c c_slash); [done|]. rewrite andb_false_r. by repeat split.
Qed.

Lemma step_closes_block s before after : at_mode InBlockComment s -> s.(previous) = Some c_star ->
  at_mode Code (step s before c_slash after) /\ (step s before c_slash after).(previous) = Some c_slash.
Proof using. intros Hs Hp. open_state s Hs. rewrite andb_false_r. by repeat split. Qed.

Lemma step_opens_block s before after : at_mode Code s ->
  at_mode InBlockComment (step s before c_slash (c_star :: after)) /\ (step s before c_slash (c_star :: after)).(previous) = None.
Proof using. intros Hs. open_state s Hs. rewrite !andb_false_r. cbn. by repeat split. Qed.

Lemma step_plain s before c after : quiet_item p before (head after) (Plain c) = true -> at_mode Code s ->
  at_mode Code (step s before c after) /\ (step s before c after).(previous) = Some c.
Proof using.
  intros Hc Hs. cbn [quiet_item] in Hc. rewrite !andb_true_iff, !negb_true_iff in Hc. destruct Hc as [[[[[Hq Hb] Hd] Hh] Hl] Hk].
  unfold is_quote_char in Hq. rewrite !orb_false_iff in Hq. destruct Hq as [[H1 H2] H3]. open_state s Hs.
  rewrite H1, H2, H3, Hl, Hh, Hk, !andb_false_r. cbn.
  destruct (supports_dollar_quoted_strings p); cbn in Hd; rewrite ?Hd; cbn; by repeat split.
Qed.

(** *** Runs inside an item *)

Lemma no_backslash o c : o = Some c -> (c =? c_backslash)%Z = false -> opt_is o c_backslash = false.
Proof using. by intros ->. Qed.

(** A text every part of which, up to its end, stays in the mode [m]. *)
Lemma stays m (Q : SqlScanner -> Prop) body s before after :
  (forall s before c after, c ∈ body -> at_mode m s -> Q s -> at_mode m (step s before c after) /\ Q (step s before c after)) ->
  at_mode m s -> Q s -> at_mode m (steps s before body after) /\ Q (steps s before body after).
Proof using.
  revert s before. induction body as [|c body IH]; intros s before Hstep Hs HQ; [done|]. cbn [steps].
  destruct (Hstep s before c (body ++ after)) as [Hs' HQ']; [by left|done|done|]. apply IH; [|done|done]. intros; apply Hstep; [by right|done..].
Qed.

(** The scan of an item from its start: inside the item it is in a mask, and after it
    in the code again. *)
Definition masks (s : SqlScanner) (before piece after : text) : Prop :=
  (forall x y, piece = x ++ y -> x <> [] -> y <> [] -> is_masked (steps s before x (y ++ after)) = true) /\
  at_mode Code (steps s before piece after) /\ opt_is (steps s before piece after).(previous) c_backslash = false.

(** Opening text, a body in the mode, and one closing character. *)
Lemma masks_item m (Q : SqlScanner -> Prop) s before opening body closing after : is_mask m ->
  at_mode m (step s before opening (body ++ [closing] ++ after)) -> Q (step s before opening (body ++ [closing] ++ after)) ->
  (forall s before c after, c ∈ body -> at_mode m s -> Q s -> at_mode m (step s before c after) /\ Q (step s before c after)) ->
  (at_mode m (steps s before (opening :: body) ([closing] ++ after)) -> Q (steps s before (opening :: body) ([closing] ++ after)) ->
    at_mode Code (steps s before (opening :: body ++ [closing]) after) /\
    opt_is (steps s before (opening :: body ++ [closing]) after).(previous) c_backslash = false) ->
  masks s before (opening :: body ++ [closing]) after.
Proof using.
  intros Hm Ho HQ Hstep Hclose. split.
  - intros x y E Hx Hy. destruct x as [|c x]; [done|]. injection E as <- E. destruct y as [|d y _] using rev_ind; [done|].
    rewrite app_assoc in E. apply app_inj_tail in E as [-> ->]. cbn [steps]. rewrite <- !app_assoc in Ho, HQ. cbn [app] in *.
    eapply mode_masked; [exact Hm|]. rewrite <- !app_assoc. apply (stays m Q x); [|done|done].
    intros; apply Hstep; [apply elem_of_app; by left|done..].
  - apply Hclose; cbn [steps]; by apply (stays m Q body).
Qed.

Lemma quoted_masks s before quote body after : quiet_item p before (head after) (Quoted quote body) = true ->
  at_mode Code s -> opt_is s.(previous) c_backslash = false -> masks s before (quote :: body ++ [quote]) after.
Proof using.
  cbn [quiet_item]. rewrite !andb_true_iff, !negb_true_iff. intros [[[Hq Hl] Hb] Ho] Hs Hp. apply lacks_forall in Hl. rewrite Forall_forall in Hl.
  destruct (step_opens_quotes quote s before (body ++ [quote] ++ after) Hq Hs Hp Ho) as [Hopen Hprev].
  apply (masks_item (InQuotes quote) (fun _ => True)); [done|done|done| |].
  - intros s' b c a Hc Hs' _. split; [|done]. apply step_in_quotes; auto.
  - intros Hin _. change (quote :: body ++ [quote]) with ((quote :: body) ++ [quote]). rewrite scanner_steps_app. cbn [steps app].
    assert (Hbs : opt_is (steps s before (quote :: body) ([quote] ++ after)).(previous) c_backslash = false).
    { destruct body as [|c body _] using rev_ind; cbn [steps].
      - rewrite Hprev. destruct (quote_char_cases _ Hq) as [->|[->|[-> _]]]; done.
      - rewrite last_snoc in Hb. rewrite scanner_steps_app. cbn [steps].
        assert (Hbody : at_mode (InQuotes quote) (steps (step s before quote ((body ++ [c]) ++ [quote] ++ after)) (before ++ [quote]) body ([c] ++ [quote] ++ after))).
        { apply (stays (InQuotes quote) (fun _ => True)); [|done|done]. intros s' b c' a Hc' Hs' _. split; [|done]. apply step_in_quotes; [done| |done].
          apply Hl, elem_of_app. by left. }
        destruct (step_in_quotes quote _ ((before ++ [quote]) ++ body) c ([] ++ [quote] ++ after) Hq (Hl c ltac:(set_solver)) Hbody) as [_ Hpc].
        by rewrite Hpc. }
    destruct (step_closes_quotes quote _ (before ++ quote :: body) after Hq Hin Hbs) as [Hc Hpc]. split; [exact Hc|]. eapply no_backslash; [exact Hpc|].
    destruct (quote_char_cases _ Hq) as [->|[->|[-> _]]]; done.
Qed.

Lemma line_comment_masks s before body after : lacks c_newline body = true -> at_mode Code s ->
  masks s before (c_dash :: c_dash :: body ++ [c_newline]) after.
Proof using.
  intros Hl Hs. apply lacks_forall in Hl. rewrite Forall_forall in Hl. change (c_dash :: body ++ [c_newline]) with ((c_dash :: body) ++ [c_newline]).
  apply (masks_item InLineComment (fun _ => True)); [done|by apply step_opens_line|done| |].
  - intros s' b c a Hc Hs' _. split; [|done]. apply step_in_line; [|done]. apply elem_of_cons in Hc as [->|Hc]; [done|auto].
  - intros Hin _. change (c_dash :: (c_dash :: body) ++ [c_newline]) with ((c_dash :: c_dash :: body) ++ [c_newline]). rewrite scanner_steps_app. cbn [steps app].
    destruct (step_closes_line _ (before ++ c_dash :: c_dash :: body) after Hin) as [Hc Hp]. split; [exact Hc|]. by eapply no_backslash; [exact Hp|].
Qed.

Lemma block_comment_masks s before body after : lacks c_slash body = true -> at_mode Code s ->
  masks s before (c_slash :: c_star :: body ++ [c_star; c_slash]) after.
Proof using.
  intros Hl Hs. apply lacks_forall in Hl. rewrite Forall_forall in Hl.
  replace (c_star :: body ++ [c_star; c_slash]) with ((c_star :: body ++ [c_star]) ++ [c_slash]) by (cbn; by rewrite <- app_assoc).
  destruct (step_opens_block s before ((body ++ [c_star]) ++ [c_slash] ++ after) Hs) as [Hopen Hprev].
  assert (Hin' : forall s before c after, c ∈ c_star :: body ++ [c_star] -> at_mode InBlockComment s -> opt_is s.(previous) c_slash = false ->
    at_mode InBlockComment (step s before c after) /\ opt_is (step s before c after).(previous) c_slash = false).
  { intros s' b c a Hc Hs' Hp'. assert (Hne : c <> c_slash) by (intros ->; set_unfold; destruct Hc as [?|[Hc|[?|[]]]]; [done|by apply Hl in Hc|done]).
    destruct (step_in_block s' b c a Hne Hs' Hp') as [Hm Hpc]. split; [done|]. rewrite Hpc. cbn. by apply Z.eqb_neq. }
  apply (masks_item InBlockComment (fun s => opt_is s.(previous) c_slash = false)); [done|exact Hopen|exact (f_equal (fun o => opt_is o c_slash) Hprev)|done|].
  intros _ _. change (c_slash :: (c_star :: body ++ [c_star]) ++ [c_slash]) with ((c_slash :: c_star :: body ++ [c_star]) ++ [c_slash]).
  replace (c_slash :: c_star :: body ++ [c_star]) with ((c_slash :: c_star :: body) ++ [c_star]) by done. rewrite !scanner_steps_app. cbn [steps].
  set (s1 := steps _ _ body _).
  assert (Hs1 : at_mode InBlockComment s1 /\ opt_is s1.(previous) c_slash = false).
  { assert (Hstar : forall b a, at_mode InBlockComment (step (step s before c_slash (c_star :: (body ++ [c_star]) ++ [c_slash] ++ after)) b c_star a) /\
      opt_is (step (step s before c_slash (c_star :: (body ++ [c_star]) ++ [c_slash] ++ after)) b c_star a).(previous) c_slash = false).
    { intros b a. apply Hin'; [by left|exact Hopen|exact (f_equal (fun o => opt_is o c_slash) Hprev)]. }
    subst s1. apply (stays InBlockComment (fun s => opt_is s.(previous) c_slash = false)); [intros; apply Hin'; [set_solver|done..]|..];
      cbn [app] in *; rewrite <- ?app_assoc in *; cbn [app] in *; apply Hstar. }
  destruct Hs1 as [Hs1 Hp1]. destruct (step_in_block s1 (before ++ c_slash :: c_star :: body) c_star ([] ++ [c_slash] ++ after) ltac:(done) Hs1 Hp1) as [Hs2 Hp2].
  destruct (step_closes_block _ (before ++ (c_slash :: c_star :: body) ++ [c_star]) ([] ++ after) Hs2 Hp2) as [Hc Hp]. split; [exact Hc|]. by eapply no_backslash; [exact Hp|].
Qed.

Lemma item_masks s before i after : quiet_item p before (head after) i = true -> at_mode Code s -> opt_is s.(previous) c_backslash = false ->
  masks s before (render_item i) after.
Proof using.
  intros Hi Hs Hp. destruct i as [c|quote body|body|body]; cbn [render_item].
  - destruct (step_plain s before c after Hi Hs) as [Hc Hpc]. split; [|split; [exact Hc|eapply no_backslash; [exact Hpc|]]].
    + intros x y E Hx Hy. destruct x as [|a [|b x]], y; try done.
    + cbn [quiet_item] in Hi. rewrite !andb_true_iff, !negb_true_iff in Hi. cbn. tauto.
  - by apply quoted_masks.
  - by apply line_comment_masks.
  - by apply block_comment_masks.
Qed.

(** Wherever a script of quiet items is cut, the scan is in a mask or between items. *)
Lemma cut_is_masked l s before x y : quiet_items p before l = true -> at_mode Code s -> opt_is s.(previous) c_backslash = false ->
  render l = x ++ y -> is_masked (steps s before x y) = true \/ exists l1 l2, l = l1 ++ l2 /\ x = render l1 /\ y = render l2.
Proof using.
  revert s before x. induction l as [|i l IH]; intros s before x Hl Hs Hp E.
  { right. exists [], []. symmetry in E. by apply app_eq_nil in E as [-> ->]. }
  cbn [quiet_items] in Hl. apply andb_true_iff in Hl as [Hi Hl]. destruct (item_masks s before i (render l) Hi Hs Hp) as (Hin & Hend & Hback).
  cbn [render flat_map] in E. fold (render l) in E.
  destruct (decide (x = [])) as [->|Hx]; [right; by exists [], (i :: l)|].
  apply app_eq_app in E as (z & [[E ->]|[-> E]]).
  - destruct (decide (z = [])) as [->|Hz]; [|left; by apply Hin].
    right. exists [i], l. rewrite app_nil_r in E. cbn. by rewrite app_nil_r.
  - rewrite E in Hend, Hback.
    destruct (IH (steps s before (render_item i) (z ++ y)) (before ++ render_item i) z) as [Hm|(l1 & l2 & -> & -> & ->)]; try done.
    + left. by rewrite scanner_steps_app.
    + right. by exists (i :: l1), l2.
Qed.
End Masks.

(** ** Scripts without commands *)

Lemma echo_head command name : eq_ignore_ascii_case command (c_backslash :: txt name) = true -> exists rest, command = c_backslash :: rest.
Proof.
  unfold eq_ignore_ascii_case. intros E%bool_decide_eq_true. destruct command as [|c rest]; [done|]. exists rest. f_equal.
  cbn [map] in E. apply (f_equal head) in E. cbn in E. injection E as E. revert E. unfold to_ascii_lowercase, is_ascii_uppercase. destruct (_ && _) eqn:Ec; intros; lia.
Qed.

(** The word in progress starts the first word. *)
Lemma word_prefix word s command parts : split_whitespace_from word s = command :: parts -> word <> [] -> word `prefix_of` command.
Proof.
  revert word. induction s as [|c s IH]; intros word; cbn [split_whitespace_from]; intros E Hw; rewrite ?(bool_decide_eq_false_2 _ Hw) in E.
  { by injection E as <- <-. }
  destruct (is_whitespace c); [cbn in E; by injection E as <- <-|]. etrans; [|by apply (IH (word ++ [c])); [|destruct word]]. by exists [c].
Qed.

(** A command that may be ignored starts with a backslash. *)
Lemma command_starts_with_backslash line command : parse_ignorable_psql_control_command (trim_chars line) = Some command ->
  exists ws rest, line = ws ++ c_backslash :: rest /\ Forall (fun c => is_whitespace c = true) ws.
Proof.
  intros Hc. destruct (trim_chars_split line) as (ws & b & E & Hws & _). pose proof (trim_chars_head line) as Hh.
  unfold parse_ignorable_psql_control_command in Hc. destruct (split_whitespace (trim_chars line)) as [|w parts] eqn:Ew; [done|].
  assert (Hw : exists rest, w = c_backslash :: rest).
  { destruct (eq_ignore_ascii_case w (txt "\echo")) eqn:E1; [by eapply (echo_head _ "echo")|].
    destruct (eq_ignore_ascii_case w (txt "\timing")) eqn:E2; [by eapply (echo_head _ "timing")|].
    destruct (eq_ignore_ascii_case w (txt "\set")) eqn:E3; [by eapply (echo_head _ "set")|done]. }
  destruct (trim_chars line) as [|c rest] eqn:Et; [done|]. unfold split_whitespace in Ew. cbn [split_whitespace_from app] in Ew. rewrite Hh in Ew.
  apply word_prefix in Ew; [|done]. destruct Hw as [wr ->]. apply prefix_cons_inv_1 in Ew as ->. exists ws, (rest ++ b). by rewrite E.
Qed.

(** A text of quiet items has no backslash behind blanks at its start. *)
Lemma quiet_head `{UnicodeTables} p buf l ws rest : quiet_items p buf l = true -> Forall (fun c => is_whitespace c = true) ws ->
  render l <> ws ++ c_backslash :: rest.
Proof.
  intros Hl Hws. revert buf l Hl. induction Hws as [|c ws Hc Hws IH]; intros buf [|i l] Hl E; try done.
  - cbn [quiet_items] in Hl. apply andb_true_iff in Hl as [Hi _]. destruct i as [c|quote body|body|body]; cbn in E; simplify_eq.
  - cbn [quiet_items] in Hl. apply andb_true_iff in Hl as [Hi Hl]. destruct i as [c'|quote body|body|body]; cbn in E; simplify_eq; try done.
    + by apply (IH _ _ Hl).
    + cbn [quiet_item] in Hi. rewrite !andb_true_iff in Hi. destruct Hi as [[[Hq _] _] _]. apply quote_char_cases in Hq as [->|[->|[-> _]]]; done.
Qed.

Lemma quiet_suffix `{UnicodeTables} p buf l1 l2 : quiet_items p buf (l1 ++ l2) = true -> quiet_items p (buf ++ render l1) l2 = true.
Proof.
  revert buf. induction l1 as [|i l1 IH]; intros buf Hl; cbn [app quiet_items render flat_map] in *; [by rewrite app_nil_r|].
  apply andb_true_iff in Hl as [_ Hl]. rewrite app_assoc. by apply IH.
Qed.

Lemma strip_newline_prefix segment : strip_newline segment `prefix_of` segment.
Proof. eexists. apply strip_newline_split. Qed.

(** What is kept line by line is kept. *)
Lemma preprocess_keeps `{UnicodeTables} scanner before stop segments :
  (forall x segment y, segments = x ++ segment :: y ->
    Scanner.is_masked (Scanner.steps scanner before (concat x) (concat (segment :: y))) = true \/
    parse_ignorable_psql_control_command (trim_chars (strip_newline segment)) = None) ->
  preprocess_segments scanner before stop segments = (concat segments, stop).
Proof.
  revert scanner before. induction segments as [|segment segments IH]; intros scanner before Hk; [done|]. cbn [preprocess_segments concat].
  assert ((if Scanner.is_masked scanner then None else parse_ignorable_psql_control_command (trim_chars (strip_newline segment))) = None) as ->.
  { destruct (Hk [] segment segments eq_refl) as [Hm|Hn]; cbn [concat Scanner.steps] in *; [by rewrite Hm|]. by destruct (Scanner.is_masked scanner). }
  rewrite IH; [done|]. intros x seg y ->. destruct (Hk (segment :: x) seg y eq_refl) as [Hm|Hn]; [left|by right].
  cbn [concat] in Hm. rewrite scanner_steps_app in Hm. rewrite concat_app. exact Hm.
Qed.

(** A script whose backslashes are all in literals and comments is scanned as it is. *)
Lemma quiet_script_is_kept `{UnicodeTables} p l : quiet_items p [] l = true ->
  preprocess_psql_control_commands (render l) p = (render l, false).
Proof.
  intros Hl. unfold preprocess_psql_control_commands. rewrite preprocess_keeps; [by rewrite split_inclusive_concat|].
  intros x segment y E. assert (Er : render l = concat x ++ concat (segment :: y)) by (by rewrite <- concat_app, <- E, split_inclusive_concat).
  destruct (cut_is_masked p l (Scanner.with_profile p) [] (concat x) (concat (segment :: y)) Hl (with_profile_mode p) eq_refl Er)
    as [Hm|(l1 & l2 & -> & Hx & Hy)]; [by left|right].
  destruct (parse_ignorable_psql_control_command _) as [command|] eqn:Ec; [|done]. exfalso.
  apply command_starts_with_backslash in Ec as (ws & rest & Es & Hws). destruct (strip_newline_prefix segment) as [k Ek].
  apply quiet_suffix in Hl. apply (quiet_head p _ l2 ws (rest ++ k ++ concat y) Hl Hws). rewrite <- Hy. cbn [concat]. rewrite Ek, Es. by rewrite <- !app_assoc.
Qed.

(** ** The division of a script *)


(** A literal with a line that would be a command, and a command before it. *)
Module ScannerRuns.

#[local] Instance ascii_tables : UnicodeTables := {| is_alphanumeric := is_ascii_alphanumeric |}.
#[local] Instance no_tokens : SqlTokenizer := {| tokenize := fun _ => None |}.

Definition inserted : list item :=
  map Plain (txt "INSERT INTO t VALUES (") ++ [Quoted c_quote ([c_newline] ++ txt "\echo a" ++ [c_newline])] ++ map Plain (txt ")").

Example literal_line_is_kept :
  quiet_items (Options.for_database_type_and_compatibility DatabaseType.Postgres None).(profile) [] inserted = true /\
  (sql_execution_plan_for_database_with_compatibility (render inserted) DatabaseType.Postgres None).(statements) = [render inserted].
Proof. by vm_compute. Qed.

(** A command between the lines of a statement is blanked. *)
Example command_line_is_blanked :
  (sql_execution_plan_for_database_with_compatibility (txt "SELECT" ++ [c_newline] ++ txt "\echo a" ++ [c_newline] ++ txt "1")
    DatabaseType.Postgres None).(statements) = [txt "SELECT" ++ [c_newline] ++ repeat 32%Z 7 ++ [c_newline] ++ txt "1"].
Proof. by vm_compute. Qed.

End ScannerRuns.
