(* ===== verification/QueryExecutionSql.v ===== *)
(** * Read-only and plan guards on SQL text

    [crates/dbx-sql-core/src/query_execution_sql.rs]: the check that lets a
    statement run on a read-only connection ([check_read_only]), the text scans
    it is made of, the classification of requests to search engines and of
    Salesforce and DynamoDB commands, and the builder of [EXPLAIN] statements.
    Text is scalar values.  Unicode case conversion, the tokenizers of the
    sqlparser crate and [serde_json::from_str] are arguments. *)

From S2P Require Import Prelude Json Utf8 Cypher SqlDialect SqlLex SqlBlocks SqlScanner SqlRanges SqlFileImport SqlSplitter.

(** [str::to_lowercase] and [str::to_uppercase]. *)
Class UnicodeCase : Type := { to_lowercase : text -> text; to_uppercase : text -> text }.

(** A run of ASCII characters is converted in its place, character by character
    (the conversion of [a], [b] and [x] below never joins or moves text). *)
Class UnicodeCaseLaws `{UnicodeCase} : Prop := {
  lowercase_ascii x a b : Forall (fun c => (0 <= c < 128)%Z) a -> exists x' b',
    to_lowercase (x ++ a ++ b) = x' ++ map to_ascii_lowercase a ++ b' /\ (x = [] -> x' = []) /\ (b = [] -> b' = []);
  uppercase_ascii x a b : Forall (fun c => (0 <= c < 128)%Z) a -> exists x' b',
    to_uppercase (x ++ a ++ b) = x' ++ map to_ascii_uppercase a ++ b' /\ (x = [] -> x' = []) /\ (b = [] -> b' = [])
}.

(** The dialects of the sqlparser crate that the code names. *)
Inductive Dialect : Type :=
| PostgreSqlDialect | MySqlDialect | SQLiteDialect | MsSqlDialect | ClickHouseDialect | DuckDbDialect | OracleDialect
| GenericDialect.

(** [Tokenizer::new(dialect, sql).tokenize()], and for the generic dialect
    [with_unescape(false)] with each token's text. *)
Class SqlparserLexers : Type := {
  tokenize_for : Dialect -> text -> option (list SqlparserToken);
  tokenize_generic_verbatim : text -> option (list (SqlparserToken * text))
}.

(** [serde_json::from_str::<Value>]. *)
Class JsonParser : Type := { json_from_str : text -> option json }.

(** ** Text functions of the standard library *)

Definition strip_cr (line : text) : text := if opt_is (last line) 13 then removelast line else line.

(** [str::lines]. *)
Definition lines (s : text) : list text :=
  let pieces := split_on c_newline s in
  map strip_cr (if bool_decide (last pieces = Some []) then removelast pieces else pieces).

Definition nonempty_pieces (l : list text) : list text := List.filter (fun w => negb (bool_decide (w = []))) l.

(** The text after the first occurrence of [pat]; empty without one. *)
Definition after_first (pat s : text) : text :=
  match find_sub pat s with Some i => drop (i + length pat) s | None => [] end.

Definition split_once (c : Z) (s : text) : option (text * text) :=
  let '(a, b) := span (fun d => negb (d =? c)%Z) s in match b with [] => None | _ :: b' => Some (a, b') end.

Definition ascii_upper (s : text) : text := map to_ascii_uppercase s.
Definition ascii_lower (s : text) : text := map to_ascii_lowercase s.

(** ** Words in stripped text *)

(** [is_identifier_byte(before)] and so on, for the neighbours of a match. *)
Definition is_identifier_byte (c : option Z) : bool := match c with Some c => is_word_byte c | None => false end.

(** A test at every position of the text; [before] is the character before it. *)
Fixpoint any_position (test : option Z -> text -> bool) (before : option Z) (s : text) : bool :=
  test before s || match s with [] => false | c :: rest => any_position test (Some c) rest end.

(** [contains_word]. *)
Definition contains_word (source word : text) : bool :=
  negb (bool_decide (word = []))
  && any_position (fun before s =>
       bool_decide (word `prefix_of` s) && negb (is_identifier_byte before)
       && negb (is_identifier_byte (head (drop (length word) s)))) None source.

Definition DANGEROUS_SQL_KEYWORDS : list text :=
  map txt ["drop"; "delete"; "truncate"; "alter"; "update"; "merge"; "replace"; "insert"; "create"].

Definition WRITE_VERBS_WITH_SCALAR_FUNCTION_FORMS : list text := map txt ["replace"; "insert"].

Definition starts_with_parenthesis (rest : text) : bool := opt_is (head (span is_ascii_whitespace rest).2) 40.

(** A write verb at a position of the lower-case text. *)
Definition verb_at (keyword : text) (before : option Z) (s : text) : bool :=
  let allows_function_form := bool_decide (keyword ∈ WRITE_VERBS_WITH_SCALAR_FUNCTION_FORMS) in
  if negb (bool_decide (keyword `prefix_of` s)) then false
  else if is_identifier_byte before then false
  else
    let rest := drop (length keyword) s in
    match rest with
    | [] => true
    | c :: _ =>
      if (c =? 40)%Z && allows_function_form then false
      else if is_word_byte c then false
      else negb (allows_function_form && is_ascii_whitespace c && starts_with_parenthesis rest)
    end.

Definition contains_dangerous_sql_verb (source keyword : text) : bool :=
  negb (bool_decide (keyword = [])) && any_position (verb_at keyword) None source.

(** ** Stripping comments *)

(** The text of an executable comment and what follows it; the marker's [M] is
    read even if no [!] follows. *)
Fixpoint executable_body (skipping_version : bool) (body s : text) : text * text :=
  match s with
  | [] => (body, [])
  | c :: rest =>
    if (c =? c_star)%Z && opt_is (head rest) c_slash then (body, tail rest)
    else if skipping_version && (is_ascii_digit c || is_whitespace c) then executable_body true body rest
    else executable_body false (body ++ [c]) rest
  end.

(** [read_mysql_executable_comment_body]: the body if there is one, and the text
    left to read. *)
Definition read_mysql_executable_comment_body (s : text) : option text * text :=
  match s with
  | c :: rest =>
    if (c =? 33)%Z then let '(body, after) := executable_body true [] rest in (Some body, after)
    else if (c =? 77)%Z then
      match rest with
      | d :: rest' => if (d =? 33)%Z then let '(body, after) := executable_body true [] rest' in (Some body, after) else (None, rest)
      | [] => (None, rest)
      end
    else (None, s)
  | [] => (None, [])
  end.

Inductive comment_mode : Type := NoComment | LineComment | BlockComment.

(** The loop of [strip_sql_comments]; the body of an executable comment is
    stripped in turn.  Every round reads at least one character. *)
Fixpoint strip_comments_fuel (fuel : nat) (mode : comment_mode) (s : text) : text :=
  match fuel with
  | 0 => []
  | S fuel' =>
    match s with
    | [] => []
    | c :: rest =>
      match mode with
      | LineComment =>
        if (c =? c_newline)%Z then 32%Z :: strip_comments_fuel fuel' NoComment rest else strip_comments_fuel fuel' LineComment rest
      | BlockComment =>
        if (c =? c_star)%Z && opt_is (head rest) c_slash then 32%Z :: strip_comments_fuel fuel' NoComment (tail rest)
        else strip_comments_fuel fuel' BlockComment rest
      | NoComment =>
        if (c =? c_dash)%Z && opt_is (head rest) c_dash then strip_comments_fuel fuel' LineComment (tail rest)
        else if (c =? c_hash)%Z then strip_comments_fuel fuel' LineComment rest
        else if (c =? c_slash)%Z && opt_is (head rest) c_star then
          match read_mysql_executable_comment_body (tail rest) with
          | (Some body, after) =>
            32%Z :: strip_comments_fuel fuel' NoComment body ++ 32%Z :: strip_comments_fuel fuel' NoComment after
          | (None, after) => strip_comments_fuel fuel' BlockComment after
          end
        else c :: strip_comments_fuel fuel' NoComment rest
      end
    end
  end.
Definition strip_sql_comments (sql : text) : text := strip_comments_fuel (S (length sql)) NoComment sql.

(** ** Stripping comments and literals *)

Definition is_identifier_char (c : Z) : bool := is_ascii_alphanumeric c || (c =? c_underscore)%Z || (c =? c_dollar)%Z.

(** The marker of an executable comment, after its opener. *)
Definition is_mysql_executable_comment_marker (s : text) : bool :=
  match s with
  | c :: rest => (c =? 33)%Z || ((c =? 77)%Z && opt_is (head rest) 33)
  | [] => false
  end.

(** The delimiter of the text occurs in it again. *)
Definition dollar_quote_is_closed (s delimiter : text) : bool := contains delimiter s.

(** [dollar_quote_delimiter]: the delimiter whose [$] has just been read from
    before [s].  The tag is skipped twice before the closing delimiter is looked
    for. *)
Definition dollar_quote_delimiter (s : text) : option text :=
  match s with
  | c :: rest =>
    if (c =? c_dollar)%Z then
      let delimiter := [c_dollar; c_dollar] in
      if dollar_quote_is_closed rest delimiter then Some delimiter else None
    else
      let '(tag, after) := span (fun c => is_ascii_alphanumeric c || (c =? c_underscore)%Z) s in
      if bool_decide (tag = []) || (match tag with d :: _ => is_ascii_digit d | [] => false end) || negb (opt_is (head after) c_dollar)
      then None
      else
        let delimiter := c_dollar :: tag ++ [c_dollar] in
        if dollar_quote_is_closed (drop (S (length tag)) after) delimiter then Some delimiter else None
  | [] => None
  end.

(** The rest of an alternative-quoted literal from its content on: how many
    characters up to and with the closing quote. *)
Fixpoint alternative_quote_rest (closer : Z) (s : text) : option nat :=
  match s with
  | c :: rest =>
    if (c =? closer)%Z && opt_is (head rest) c_quote then Some 2 else S <$> alternative_quote_rest closer rest
  | [] => None
  end.

(** [oracle_alternative_quote_len]: the length of the literal, with the introducer
    [c] that has been read from before [s]. *)
Definition oracle_alternative_quote_len (c : Z) (s : text) : option nat :=
  let national := ((c =? 110) || (c =? 78))%Z in
  let is_q (o : option Z) := opt_is o 113 || opt_is o 81 in
  if national && negb (is_q (head s)) then None
  else
    let s := if national then tail s else s in
    match s with
    | q :: opener :: content =>
      if negb (q =? c_quote)%Z || is_whitespace opener then None
      else
        let closer := if (opener =? 91)%Z then 93%Z else if (opener =? 123)%Z then 125%Z
                      else if (opener =? 40)%Z then 41%Z else if (opener =? 60)%Z then 62%Z else opener in
        n ← alternative_quote_rest closer content;
        Some ((if national then 2 else 1) + 2 + n)
    | _ => None
    end.

Inductive strip_mode : Type :=
| Code | InLineComment | InBlockComment | InSingleQuote | InDoubleQuote | InBacktick | InDollarQuote (delimiter : text).

Section Strip.
Context `{UnicodeTables}.

(** Oracle identifiers may contain [#]. *)
Definition is_oracle_identifier_char (c : Z) : bool :=
  is_alphanumeric c || (c =? c_underscore)%Z || (c =? c_dollar)%Z || (c =? c_hash)%Z.

Definition opt_test (p : Z -> bool) (o : option Z) : bool := match o with Some c => p c | None => false end.

Definition push_char (c : Z) (r : text * bool) : text * bool := (c :: r.1, r.2).
Definition push_blanks (n : nat) (r : text * bool) : text * bool := (repeat 32%Z n ++ r.1, r.2).

(** Inside a quote: a doubled quote is a quote character of the content. *)
Definition strip_quote (strip : strip_mode -> option Z -> text -> text * bool) (mode : strip_mode) (quote : Z)
    (previous : option Z) (c : Z) (rest : text) : text * bool :=
  push_char 32%Z
    (if (c =? quote)%Z then
       if opt_is (head rest) quote then strip mode previous (tail rest) else strip Code previous rest
     else strip mode previous rest).

(** One character outside comments and literals. *)
Definition strip_code (strip : strip_mode -> option Z -> text -> text * bool) (detect hash : bool) (previous : option Z)
    (c : Z) (rest : text) : text * bool :=
  if (c =? c_dash)%Z && opt_is (head rest) c_dash then strip InLineComment previous (tail rest)
  else if hash && (c =? c_hash)%Z then strip InLineComment previous rest
  else if (c =? c_slash)%Z && opt_is (head rest) c_star then
    let '(out, executable) := strip InBlockComment previous (tail rest) in
    (out, executable || (detect && is_mysql_executable_comment_marker (tail rest)))
  else
    match (if ((c =? 113) || (c =? 81) || (c =? 110) || (c =? 78))%Z && negb (opt_test is_oracle_identifier_char previous)
           then oracle_alternative_quote_len c rest else None) with
    | Some length => push_blanks length (strip Code (Some 32%Z) (drop length rest))
    | None =>
      if (c =? c_quote)%Z then push_char 32%Z (strip InSingleQuote (Some 32%Z) rest)
      else if (c =? c_dquote)%Z then push_char 32%Z (strip InDoubleQuote (Some 32%Z) rest)
      else if (c =? c_backtick)%Z then push_char 32%Z (strip InBacktick (Some 32%Z) rest)
      else match (if (c =? c_dollar)%Z && negb (opt_test is_identifier_char previous) then dollar_quote_delimiter rest else None) with
      | Some delimiter => push_char 32%Z (strip (InDollarQuote delimiter) (Some 32%Z) (drop (length delimiter - 1) rest))
      | None => push_char c (strip Code (Some c) rest)
      end
    end.

(** The loop of [strip_sql_comments_and_literals_with_metadata]; every round reads
    at least one character.  [previous] is the last character of code. *)
Fixpoint strip_fuel (fuel : nat) (detect hash : bool) (mode : strip_mode) (previous : option Z) (s : text) : text * bool :=
  match fuel with
  | 0 => ([], false)
  | S fuel' =>
    let strip := strip_fuel fuel' detect hash in
    match s with
    | [] => ([], false)
    | c :: rest =>
      match mode with
      | InLineComment => if (c =? c_newline)%Z then push_char 32%Z (strip Code previous rest) else strip InLineComment previous rest
      | InBlockComment =>
        if (c =? c_star)%Z && opt_is (head rest) c_slash then push_char 32%Z (strip Code previous (tail rest))
        else strip InBlockComment previous rest
      | InSingleQuote => strip_quote strip mode c_quote previous c rest
      | InDoubleQuote => strip_quote strip mode c_dquote previous c rest
      | InBacktick => strip_quote strip mode c_backtick previous c rest
      | InDollarQuote delimiter =>
        push_char 32%Z
          (if (c =? c_dollar)%Z && bool_decide (drop 1 delimiter `prefix_of` rest)
           then strip Code previous (drop (length delimiter - 1) rest) else strip mode previous rest)
      | Code => strip_code strip detect hash previous c rest
      end
    end
  end.

Definition strip_sql_comments_and_literals_with_metadata (sql : text) (detect_mysql_executable_comments hash_line_comments : bool)
    : text * bool :=
  strip_fuel (S (length sql)) detect_mysql_executable_comments hash_line_comments Code None sql.

Definition strip_sql_comments_and_literals (sql : text) : text :=
  (strip_sql_comments_and_literals_with_metadata sql false true).1.

Definition strip_sql_comments_and_literals_keeping_hash (sql : text) : text :=
  (strip_sql_comments_and_literals_with_metadata sql false false).1.

Definition has_extra_statement_after_semicolon (sql : text) : bool :=
  existsb (fun part => negb (bool_decide (trim_chars part = []))) (tail (split_on c_semicolon (strip_sql_comments_and_literals sql))).

Definition contains_dangerous_sql_keyword `{UnicodeCase} (sql : text) : bool :=
  let source := to_lowercase (strip_sql_comments_and_literals sql) in
  existsb (contains_dangerous_sql_verb source) DANGEROUS_SQL_KEYWORDS.

End Strip.

(** ** Statements that only read *)

Definition starts_with_keyword_at (upper : text) (keyword : string) : bool :=
  let k := txt keyword in
  bool_decide (k `prefix_of` upper) && negb (opt_test is_ascii_alphanumeric (head (drop (length k) upper))).

Definition READ_SQL_KEYWORDS : list string := ["SELECT"; "WITH"; "SHOW"; "DESCRIBE"; "DESC"; "EXPLAIN"; "FROM"]%string.

Definition SAFE_READ_PRAGMA_NAMES : list string :=
  ["TABLE_INFO"; "TABLE_XINFO"; "INDEX_LIST"; "INDEX_INFO"; "FOREIGN_KEY_LIST"; "DATABASE_LIST"; "COMPILE_OPTIONS";
   "DATA_VERSION"]%string.

Definition is_safe_read_pragma (upper_stripped : text) : bool :=
  let rest := trim_chars_start (default [] (strip_prefix (txt "PRAGMA") upper_stripped)) in
  let '(pragma_name, after) := span (fun c => is_ascii_alphanumeric c || (c =? c_underscore)%Z) rest in
  if bool_decide (rest = []) then false
  else if negb (one_of pragma_name SAFE_READ_PRAGMA_NAMES) then false
  else
    let after_name := trim_chars_start after in
    bool_decide (after_name = []) || opt_is (head after_name) 40.

Definition starts_with_show_create (upper : text) : bool :=
  match strip_prefix (txt "SHOW") upper with
  | None => false
  | Some after_show =>
    if opt_test is_ascii_alphanumeric (head after_show) then false
    else starts_with_keyword_at (trim_chars_start after_show) "CREATE"
  end.

(** The tokens of [SELECT ... INTO] outside parentheses. *)
Fixpoint into_loop (token : text) (depth : nat) (saw_select : bool) (s : text) : bool :=
  match s with
  | [] => false
  | c :: rest =>
    if is_word_byte c then into_loop (token ++ [c]) depth saw_select rest
    else
      let at_top := negb (bool_decide (token = [])) && (depth =? 0)%nat in
      let is_select := at_top && bool_decide (token = txt "SELECT") in
      if at_top && negb is_select && saw_select && bool_decide (token = txt "INTO") then true
      else
        let depth' := if (c =? 40)%Z then S depth else if (c =? 41)%Z then depth - 1 else depth in
        into_loop [] depth' (saw_select || is_select) rest
  end.
Definition select_contains_top_level_into (upper : text) : bool := into_loop [] 0 false (upper ++ [32%Z]).

(** [tokenize_set_statement]; every round reads at least one character. *)
Definition is_set_word_start (c : Z) : bool :=
  is_ascii_alphanumeric c || (c =? c_underscore)%Z || (c =? 64)%Z || (c =? c_dollar)%Z || (c =? c_hash)%Z.

Fixpoint set_tokens_fuel (fuel : nat) (s : text) : list text :=
  match fuel with
  | 0 => []
  | S fuel' =>
    match s with
    | [] => []
    | c :: rest =>
      if is_ascii_whitespace c then set_tokens_fuel fuel' rest
      else if (c =? 58)%Z then
        if opt_is (head rest) 61 then txt ":=" :: set_tokens_fuel fuel' (tail rest) else txt ":" :: set_tokens_fuel fuel' rest
      else if (c =? 61)%Z || (c =? 40)%Z || (c =? 41)%Z || (c =? 44)%Z || (c =? c_semicolon)%Z then [c] :: set_tokens_fuel fuel' rest
      else if is_set_word_start c then
        let '(word, after) := span (fun d => is_set_word_start d || (d =? 46)%Z) s in word :: set_tokens_fuel fuel' after
      else set_tokens_fuel fuel' rest
    end
  end.
Definition tokenize_set_statement (cleaned : text) : list text := set_tokens_fuel (length cleaned) cleaned.

Definition FORBIDDEN_SET_WORDS : list string :=
  ["GLOBAL"; "PERSIST"; "PERSIST_ONLY"; "PASSWORD"; "OUTFILE"; "DUMPFILE"; "CALL"; "EXEC"; "EXECUTE"; "DROP"; "DELETE";
   "TRUNCATE"; "ALTER"; "UPDATE"; "MERGE"; "CREATE"]%string.

Definition set_token_forbidden (token : text) : bool :=
  let norm := ascii_upper token in
  one_of norm FORBIDDEN_SET_WORDS
  || bool_decide (txt "@@GLOBAL" `prefix_of` norm) || bool_decide (txt "@@PERSIST" `prefix_of` norm).

Definition is_safe_read_only_set (upper cleaned : text) : bool :=
  if negb (starts_with_keyword_at upper "SET") then false
  else match tokenize_set_statement cleaned with
  | [] => false
  | first :: after_set =>
    if negb (eq_ignore_ascii_case first (txt "SET")) then false
    else if existsb set_token_forbidden after_set then false
    else if existsb (fun t => one_of (ascii_upper t) ["="; ":="; "TO"]%string) after_set then true
    else
      let word i := match after_set !! i with Some t => ascii_upper t | None => [] end in
      one_of (word 0) ["NAMES"; "CHARSET"]%string
      || (bool_decide (word 0 = txt "CHARACTER") && bool_decide (word 1 = txt "SET"))
      || (bool_decide (word 0 = txt "TIME") && bool_decide (word 1 = txt "ZONE"))
  end.

Section Writes.
Context `{UnicodeTables, UnicodeCase}.

Definition starts_with_read_keyword (upper : text) : bool := existsb (starts_with_keyword_at upper) READ_SQL_KEYWORDS.

Definition is_write_sql_statement (sql : text) (detect_mysql_executable_comments detect_select_into allow_mysql_checksum : bool)
    : bool :=
  let '(cleaned, has_mysql_executable_comment) :=
    strip_sql_comments_and_literals_with_metadata sql detect_mysql_executable_comments true in
  if has_mysql_executable_comment then true
  else
    let trimmed := trim_chars_start cleaned in
    if bool_decide (trimmed = []) then false
    else
      let upper := to_uppercase trimmed in
      let starts_with_read := starts_with_read_keyword upper || (allow_mysql_checksum && starts_with_keyword_at upper "CHECKSUM TABLE") in
      if negb starts_with_read && starts_with_keyword_at upper "PRAGMA" then negb (is_safe_read_pragma upper)
      else if negb starts_with_read && starts_with_keyword_at upper "SET"
      then negb (is_safe_read_only_set upper cleaned) || contains_dangerous_sql_keyword sql
      else if starts_with_show_create upper then false
      else if detect_select_into && starts_with_keyword_at upper "SELECT" && select_contains_top_level_into upper then true
      else negb starts_with_read || contains_dangerous_sql_keyword sql.

(** Two adjacent words, each delimited by other characters. *)
Fixpoint keyword_pair (first second : text) (previous_matches : bool) (words : list text) : bool :=
  match words with
  | [] => false
  | word :: words' =>
    (previous_matches && eq_ignore_ascii_case word second)
    || keyword_pair first second (eq_ignore_ascii_case word first) words'
  end.
Definition contains_keyword_sequence (sql : text) (first second : string) : bool :=
  keyword_pair (txt first) (txt second) false (nonempty_pieces (split_pred (fun c => negb (is_word_byte c)) sql)).

Definition contains_unquoted_keyword `{SqlparserLexers} (sql : text) (dialect : Dialect) (keyword : string) : bool :=
  match tokenize_for dialect sql with
  | Some tokens =>
    existsb (fun t => match t with TWord value quoted => negb quoted && eq_ignore_ascii_case value (txt keyword) | _ => false end) tokens
  | None => false
  end.

Definition is_mysql_compatible_database (d : DatabaseType.t) : bool :=
  bool_decide (d ∈ [DatabaseType.Mysql; DatabaseType.Doris; DatabaseType.StarRocks; DatabaseType.ManticoreSearch;
                    DatabaseType.Goldendb]).

Definition is_postgresql_family_database (d : DatabaseType.t) : bool :=
  bool_decide (d ∈ [DatabaseType.Postgres; DatabaseType.Redshift; DatabaseType.Gaussdb; DatabaseType.OpenGauss;
                    DatabaseType.Kingbase; DatabaseType.Highgo; DatabaseType.Uxdb; DatabaseType.Vastbase;
                    DatabaseType.Gbase8c; DatabaseType.Kwdb]).

Context `{SqlTokenizer, SqlparserLexers}.

Definition has_dialect_specific_write_statement (sql : text) (d : DatabaseType.t) : bool :=
  if is_mysql_compatible_database d then
    let '(cleaned, has_executable_comment) := strip_sql_comments_and_literals_with_metadata sql true true in
    has_executable_comment || contains_keyword_sequence cleaned "INTO" "OUTFILE"
    || contains_keyword_sequence cleaned "INTO" "DUMPFILE"
  else if is_postgresql_family_database d then contains_unquoted_keyword sql PostgreSqlDialect "INTO"
  else if bool_decide (d = DatabaseType.SqlServer) then contains_unquoted_keyword sql MsSqlDialect "INTO"
  else false.

Definition has_dialect_specific_write (sql : text) (d : DatabaseType.t) : bool :=
  existsb (fun statement => has_dialect_specific_write_statement statement d) (split_sql_statements_for_database sql d).

Definition is_sqlserver_plan_capture_set (sql : text) : bool :=
  let tokens := map (fun part => ascii_upper (trim_end_matches c_semicolon part)) (split_whitespace (strip_sql_comments sql)) in
  let switch t := one_of t ["ON"; "OFF"]%string in
  match tokens with
  | [a; b; c] => bool_decide (a = txt "SET") && bool_decide (b = txt "SHOWPLAN_XML") && switch c
  | [a; b; c; e] => bool_decide (a = txt "SET") && bool_decide (b = txt "STATISTICS") && bool_decide (c = txt "XML") && switch e
  | _ => false
  end.

Definition is_write_sql_with_database_type (sql : text) (d : option DatabaseType.t) : bool :=
  if bool_decide (d = Some DatabaseType.SqlServer) && is_sqlserver_plan_capture_set sql then false
  else if match d with Some d => has_dialect_specific_write sql d | None => false end then true
  else
    let untyped := bool_decide (d = None) in
    let statements := match d with
                      | Some d => split_sql_statements_for_database sql d
                      | None => split_sql_statements sql
                      end in
    existsb (fun statement => is_write_sql_statement statement untyped untyped (bool_decide (d = Some DatabaseType.Mysql))) statements.

Definition is_write_sql (sql : text) : bool := is_write_sql_with_database_type sql None.

(** ** Statements that are not SQL *)

(** The first line that is not blank. *)
Definition header_line (source : text) : option text :=
  match List.filter (fun line => negb (bool_decide (trim_chars line = []))) (lines source) with
  | line :: _ => Some (trim_chars line)
  | [] => None
  end.

Definition classify_dynamodb_statement_write (source : text) : option bool :=
  header ← header_line source;
  let header := ascii_upper header in
  if one_of header ["DBX DYNAMODB SCAN"; "DBX DYNAMODB QUERY / SCAN"]%string then Some false
  else if one_of header ["DBX DYNAMODB INSERT ITEM"; "DBX DYNAMODB PUT ITEM"; "DBX DYNAMODB DELETE ITEM"]%string then Some true
  else if bool_decide (txt "DBX DYNAMODB" `prefix_of` header) then Some true
  else None.

Inductive SalesforceStatementRisk : Type := SfRead | SfScopedWrite | SfOpaqueWrite.

#[export] Instance SalesforceStatementRisk_eq_dec : EqDecision SalesforceStatementRisk.
Proof. solve_decision. Defined.

(** [body.get(key).and_then(as_str)]. *)
Definition member_str (key : string) (body : json) : option string :=
  match body with
  | JObject members => match obj_get key members with Some (JString s) => Some s | _ => None end
  | _ => None
  end.

Definition names_something (o : option string) : bool :=
  match o with Some s => negb (bool_decide (trim (txt s) = [])) | None => false end.

Definition salesforce_dml_is_scoped `{JsonParser} (source : text) : bool :=
  let body := (span (fun c => negb (c =? 123)%Z) source).2 in
  match body with
  | [] => false
  | _ =>
    match json_from_str body with
    | None => false
    | Some body =>
      if negb (names_something (member_str "object" body)) then false
      else match member_str "op" body with
      | Some op =>
        let op := ascii_lower (txt op) in
        bool_decide (op = txt "insert")
        || (one_of op ["update"; "delete"]%string && names_something (member_str "id" body))
      | None => false
      end
    end
  end.

Definition classify_salesforce_statement_risk `{JsonParser} (source : text) : SalesforceStatementRisk :=
  let header := default_text (header_line source) in
  if bool_decide (txt "DBX SALESFORCE" `prefix_of` ascii_upper header)
  then if salesforce_dml_is_scoped source then SfScopedWrite else SfOpaqueWrite
  else
    let words := nonempty_pieces (split_pred (fun c => negb (is_alphanumeric c) && negb (c =? c_underscore)%Z) (strip_sql_comments source)) in
    if bool_decide (ascii_upper (default_text (head words)) = txt "SELECT") then SfRead else SfOpaqueWrite.

(** ** Requests to search engines *)

Inductive SearchEngineQueryRisk : Type := SeReadOnly | SeWrite | SeDangerous.

#[export] Instance SearchEngineQueryRisk_eq_dec : EqDecision SearchEngineQueryRisk.
Proof. solve_decision. Defined.

Fixpoint strip_leading_comments_fuel (fuel : nat) (input : text) : text :=
  match fuel with
  | 0 => trim_chars input
  | S fuel' =>
    let rest := trim_chars_start input in
    match rest with
    | c :: tl =>
      if (c =? c_hash)%Z then strip_leading_comments_fuel fuel' (after_first [c_newline] tl)
      else if (c =? c_slash)%Z && opt_is (head tl) c_slash then strip_leading_comments_fuel fuel' (after_first [c_newline] (tail tl))
      else if (c =? c_slash)%Z && opt_is (head tl) c_star then strip_leading_comments_fuel fuel' (after_first (txt "*/") (tail tl))
      else trim_chars rest
    | [] => trim_chars rest
    end
  end.
Definition strip_leading_search_engine_comments (input : text) : text := strip_leading_comments_fuel (S (length input)) input.

(** The method in upper case and the path of the request. *)
Definition request_line (source : text) : option (text * text) :=
  line ← head (lines (strip_leading_search_engine_comments source));
  match split_whitespace (trim_chars line) with
  | method :: path :: _ => Some (ascii_upper method, path)
  | _ => None
  end.

(** The segments of a path without its query. *)
Definition path_segments (raw_path : text) : list text :=
  nonempty_pieces (split_on c_slash (trim_end_matches c_slash (default_text (head (split_on 63 raw_path))))).

Definition is_segment (segment : text) (l : list string) : bool := existsb (fun s => eq_ignore_ascii_case segment (txt s)) l.

Definition classify_couchdb_query_risk (source : text) : option SearchEngineQueryRisk :=
  '(method, raw_path) ← request_line source;
  let segments := path_segments raw_path in
  let method_is m := bool_decide (method = txt m) in
  let view (i : nat) :=
    match segments !! i, segments !! (i + 2) with
    | Some a, Some c => eq_ignore_ascii_case a (txt "_design") && eq_ignore_ascii_case c (txt "_view")
    | _, _ => false
    end in
  if one_of method ["GET"; "HEAD"; "OPTIONS"]%string then Some SeReadOnly
  else if method_is "POST"%string
          && match last segments with Some s => is_segment s ["_find"; "_explain"; "_all_docs"; "_bulk_get"]%string | None => false end
  then Some SeReadOnly
  else if method_is "POST"%string && existsb view (seq 0 (length segments)) then Some SeReadOnly
  else if method_is "DELETE"%string then Some (if (length segments <=? 1)%nat then SeDangerous else SeWrite)
  else if method_is "PUT"%string then Some (if (length segments <=? 1)%nat then SeDangerous else SeWrite)
  else if method_is "POST"%string then Some SeWrite
  else None.

(** The value of the first parameter of the query with the key. *)
Definition query_parameter (raw_path : text) (key : string) : option text :=
  query ← split_on 63 raw_path !! 1;
  let values := flat_map (fun param => match split_once 61 param with
                                       | Some (k, v) => if eq_ignore_ascii_case k (txt key) then [v] else []
                                       | None => []
                                       end) (split_on c_amp query) in
  head values.

Definition solr_admin_request_is_mutation (raw_path : text) (segments : list text) : bool :=
  let is_admin_target :=
    existsb (fun i => match segments !! i, segments !! S i with
                      | Some a, Some b => eq_ignore_ascii_case a (txt "admin") && one_of (ascii_lower b) ["cores"; "collections"]%string
                      | _, _ => false
                      end) (seq 0 (length segments)) in
  if negb is_admin_target then false
  else match query_parameter raw_path "action" with
  | None => false
  | Some action => negb (one_of (ascii_upper action) ["STATUS"; "REQUESTSTATUS"; "LIST"]%string)
  end.

Definition solr_replication_request_is_mutation (raw_path : text) (segments : list text) : bool :=
  if negb (match last segments with Some s => is_segment s ["replication"]%string | None => false end) then false
  else match query_parameter raw_path "command" with
  | None => false
  | Some command =>
    negb (is_segment command ["details"; "restorestatus"; "filelist"; "filecontent"; "filedownload"; "filemtime";
                              "indexversion"; "showversion"]%string)
  end.

Definition READ_ONLY_POST_ENDPOINTS : list string :=
  ["select"; "query"; "get"; "export"; "terms"; "suggest"; "spell"; "mlt"; "sql"; "graph"; "clustering"; "tvrh"; "luke";
   "elevate"; "browse"; "debug"]%string.

Definition classify_solr_query_risk (source : text) : option SearchEngineQueryRisk :=
  '(method, raw_path) ← request_line source;
  let segments := path_segments raw_path in
  let segments := match segments with
                  | s :: rest => if eq_ignore_ascii_case s (txt "solr") then rest else segments
                  | [] => []
                  end in
  let endpoint := default_text (last segments) in
  let is_update_path := existsb (fun s => bool_decide (txt "update" `prefix_of` s) || bool_decide (s = txt "commit")) segments in
  if is_update_path then Some SeWrite
  else if one_of method ["GET"; "HEAD"; "OPTIONS"]%string then
    Some (if solr_admin_request_is_mutation raw_path segments || solr_replication_request_is_mutation raw_path segments
          then SeDangerous else SeReadOnly)
  else if bool_decide (method = txt "POST") && one_of endpoint READ_ONLY_POST_ENDPOINTS then Some SeReadOnly
  else if one_of method ["POST"; "PUT"; "PATCH"; "DELETE"]%string then Some SeDangerous
  else None.

Definition classify_elasticsearch_query_risk (source : text) : option SearchEngineQueryRisk :=
  '(method, raw_path) ← request_line source;
  let segments := path_segments raw_path in
  let has_segment (l : list string) := existsb (fun s => is_segment s l) segments in
  let has_document_id (name : string) :=
    match list_find (fun s => eq_ignore_ascii_case s (txt name) = true) segments with
    | Some (i, _) => bool_decide (is_Some (segments !! S i))
    | None => false
    end in
  let method_is m := bool_decide (method = txt m) in
  if one_of method ["GET"; "HEAD"; "OPTIONS"]%string then Some SeReadOnly
  else if method_is "POST"%string
          && has_segment ["_search"; "_count"; "_sql"; "_msearch"; "_field_caps"; "_terms_enum"; "_validate"; "_explain";
                          "_rank_eval"; "_search_shards"]%string then Some SeReadOnly
  else if method_is "POST"%string && has_segment ["_doc"; "_create"; "_update"; "_bulk"]%string then Some SeWrite
  else if method_is "PUT"%string && (has_document_id "_doc"%string || has_document_id "_create"%string) then Some SeWrite
  else if method_is "DELETE"%string && has_document_id "_doc"%string then Some SeWrite
  else if one_of method ["POST"; "PUT"; "PATCH"; "DELETE"]%string then Some SeDangerous
  else None.

Definition classify_search_engine_query_risk (source : text) (d : DatabaseType.t) : option SearchEngineQueryRisk :=
  if bool_decide (d = DatabaseType.CouchDb) then classify_couchdb_query_risk source
  else if bool_decide (d = DatabaseType.Solr) then classify_solr_query_risk source
  else if negb (bool_decide (d ∈ [DatabaseType.Elasticsearch; DatabaseType.Easysearch])) then None
  else classify_elasticsearch_query_risk source.

(** ** The read-only check *)

Context `{JsonParser}.

Definition is_write_sql_for_database (sql : text) (d : DatabaseType.t) : bool :=
  if bool_decide (d = DatabaseType.Neo4j) then negb (is_proven_read_only_cypher is_alphanumeric sql)
  else if bool_decide (d = DatabaseType.VictoriaMetrics) then false
  else match (if bool_decide (d = DatabaseType.DynamoDb) then classify_dynamodb_statement_write sql else None) with
  | Some is_write => is_write
  | None =>
    if bool_decide (d = DatabaseType.Salesforce) then negb (bool_decide (classify_salesforce_statement_risk sql = SfRead))
    else match classify_search_engine_query_risk sql d with
    | Some risk => negb (bool_decide (risk = SeReadOnly))
    | None => is_write_sql_with_database_type sql (Some d)
    end
  end.

Definition check_read_only (sql connection_name : text) (d : DatabaseType.t) : result unit text :=
  if is_write_sql_for_database sql d
  then Err (txt "Read-only mode: connection '" ++ connection_name
            ++ txt "' has read-only protection enabled. Write operation (including stored procedure calls) blocked.")
  else Ok tt.

(** A bare [BEGIN [WORK]] or [START TRANSACTION]. *)
Definition mysql_statement_opens_explicit_transaction (sql : text) : bool :=
  match split_on c_semicolon (strip_sql_comments sql) with
  | [] => false
  | first :: parts =>
    let statement := trim_chars first in
    if bool_decide (statement = []) || existsb (fun part => negb (bool_decide (trim_chars part = []))) parts then false
    else match split_whitespace (ascii_upper statement) with
    | word :: rest =>
      if bool_decide (word = txt "BEGIN") then match rest with [] => true | next :: _ => bool_decide (next = txt "WORK") end
      else bool_decide (word = txt "START") && match rest with next :: _ => bool_decide (next = txt "TRANSACTION") | [] => false end
    | [] => false
    end
  end.

End Writes.

(** ** [EXPLAIN] statements *)

Inductive ExplainFormat : Type := FormatJson | FormatStandard.
Inductive EstimatedPlanFormat : Type := PlanJson | PlanXml | PlanText.
Inductive EstimatedPlanAcquisition : Type := GeneratedSql | DriverNative | SqlServerShowPlanSession.
Inductive EstimatedPlanSqlGeneration : Type :=
| GenPostgres | GenMysql | GenPlain | GenXugu | GenOracle | GenDb2 | GenSqlServer | GenJson.

#[export] Instance ExplainFormat_eq_dec : EqDecision ExplainFormat.
Proof. solve_decision. Defined.

Record EstimatedPlanStrategy : Type := mkStrategy {
  sql_generation : EstimatedPlanSqlGeneration;
  acquisition : EstimatedPlanAcquisition;
  plan_format : EstimatedPlanFormat
}.

Record ExplainSqlOptions : Type := mkExplain {
  database_type : option DatabaseType.t;
  explain_format : option ExplainFormat;
  analyze : option bool;
  explain_sql : text
}.

Record ExplainSqlBuildResult : Type := mkBuild { ok : bool; built_sql : option text; reason : option text }.

Definition explain_err (reason : string) : ExplainSqlBuildResult := mkBuild false None (Some (txt reason)).

Definition estimated_plan_format_as_str (f : EstimatedPlanFormat) : text :=
  match f with PlanJson => txt "json" | PlanXml => txt "xml" | PlanText => txt "text" end.

Definition estimated_plan_strategy (d : option DatabaseType.t) : option EstimatedPlanStrategy :=
  match d with
  | Some DatabaseType.Db2 => Some (mkStrategy GenDb2 DriverNative PlanJson)
  | Some DatabaseType.Mysql => Some (mkStrategy GenMysql GeneratedSql PlanJson)
  | Some DatabaseType.Doris => Some (mkStrategy GenPlain GeneratedSql PlanText)
  | Some DatabaseType.Xugu => Some (mkStrategy GenXugu GeneratedSql PlanText)
  | Some DatabaseType.Postgres => Some (mkStrategy GenPostgres GeneratedSql PlanJson)
  | Some DatabaseType.OpenGauss => Some (mkStrategy GenPlain GeneratedSql PlanText)
  | Some DatabaseType.Questdb => Some (mkStrategy GenPlain GeneratedSql PlanText)
  | Some DatabaseType.Dameng => Some (mkStrategy GenPlain DriverNative PlanText)
  | Some DatabaseType.Oracle => Some (mkStrategy GenOracle DriverNative PlanText)
  | Some DatabaseType.OceanbaseOracle => Some (mkStrategy GenJson GeneratedSql PlanJson)
  | Some DatabaseType.SqlServer => Some (mkStrategy GenSqlServer SqlServerShowPlanSession PlanXml)
  | _ => None
  end.

Definition gaussdb_dws_estimated_plan_strategy : EstimatedPlanStrategy := mkStrategy GenPostgres GeneratedSql PlanJson.

Definition estimated_plan_format (d : option DatabaseType.t) : EstimatedPlanFormat :=
  match estimated_plan_strategy d with Some s => s.(plan_format) | None => PlanJson end.

Definition supports_explain_plan (d : option DatabaseType.t) : bool := bool_decide (is_Some (estimated_plan_strategy d)).

Definition supports_sql_query (d : DatabaseType.t) : bool :=
  negb (bool_decide (d ∈ [DatabaseType.Redis; DatabaseType.MongoDb; DatabaseType.Elasticsearch; DatabaseType.Easysearch;
                          DatabaseType.Solr; DatabaseType.CouchDb; DatabaseType.Qdrant; DatabaseType.Milvus;
                          DatabaseType.Weaviate; DatabaseType.ChromaDb; DatabaseType.InfluxDb; DatabaseType.InfluxDb3;
                          DatabaseType.VictoriaMetrics; DatabaseType.Neo4j; DatabaseType.Nebula; DatabaseType.Etcd])).

Definition strip_trailing_semicolons (sql : text) : text :=
  trim_chars_end (trim_end_matches c_semicolon (trim_chars_end sql)).

(** The keyword starts the text and no identifier character follows. *)
Definition starts_with_explain_keyword_boundary (source : text) (keyword : string) : bool :=
  match strip_prefix (txt keyword) source with
  | None => false
  | Some [] => true
  | Some (c :: _) => negb (is_ascii_alphanumeric c || (c =? c_underscore)%Z || (c =? c_dollar)%Z) && (c <? 128)%Z
  end.

Section Explain.
Context `{UnicodeTables, UnicodeCase, SqlTokenizer, SqlparserLexers, JsonParser}.

Definition is_safe_explain_source (sql : text) : bool :=
  let source := to_lowercase (trim_chars_start (strip_sql_comments sql)) in
  existsb (starts_with_explain_keyword_boundary source) ["select"; "with"; "table"; "values"]%string.

Definition is_safe_oracle_explain_dml_source (sql : text) : bool :=
  let source := ascii_upper (trim_chars_start (strip_sql_comments_and_literals sql)) in
  existsb (starts_with_keyword_at source) ["INSERT"; "UPDATE"; "DELETE"; "MERGE"]%string.

Definition is_semicolon_token (t : SqlparserToken) : bool := match t with TSemiColon => true | _ => false end.

Definition is_safe_db2_explain_sql (sql : text) : bool :=
  match tokenize_generic_verbatim sql with
  | None => false
  | Some tokens =>
    let tokens := List.filter (fun t => match t.1 with TWhitespace => false | _ => true end) tokens in
    let tokens := if match last tokens with Some t => is_semicolon_token t.1 | None => false end then removelast tokens else tokens in
    if existsb (fun t => is_semicolon_token t.1) tokens then false
    else match tokens with
    | (TWord value quoted, _) :: _ =>
      if quoted || negb (one_of (ascii_upper value) ["SELECT"; "WITH"; "VALUES"]%string) then false
      else negb (contains_dangerous_sql_keyword (join [32%Z] (map snd tokens)))
    | _ => false
    end
  end.

Definition is_safe_explain_sql_for_database (sql : text) (d : option DatabaseType.t) : bool :=
  if bool_decide (d = Some DatabaseType.Db2) then is_safe_db2_explain_sql sql
  else
    let source := strip_trailing_semicolons (trim_chars sql) in
    if bool_decide (source = []) || has_extra_statement_after_semicolon source then false
    else if bool_decide (d = Some DatabaseType.Oracle) && is_safe_oracle_explain_dml_source source then true
    else is_safe_explain_source source && negb (contains_dangerous_sql_keyword source).

Definition is_safe_explain_sql (sql : text) : bool := is_safe_explain_sql_for_database sql None.

Definition is_safe_dameng_autotrace_sql (sql : text) : bool :=
  let source := strip_trailing_semicolons (trim_chars sql) in
  if bool_decide (source = []) || has_extra_statement_after_semicolon source then false
  else is_safe_explain_source source && negb (contains_dangerous_sql_keyword source).

(** The statement that asks for the plan. *)
Definition explain_statement (g : EstimatedPlanSqlGeneration) (o : ExplainSqlOptions) (source : text) : text :=
  let analyzed := bool_decide (o.(analyze) = Some true) in
  let nl := [c_newline] in
  match g with
  | GenPostgres => (if analyzed then txt "EXPLAIN (ANALYZE, FORMAT JSON) " else txt "EXPLAIN (FORMAT JSON) ") ++ source
  | GenPlain => txt "EXPLAIN " ++ source
  | GenXugu => txt "EXPLAIN VERBOSE " ++ source
  | GenOracle | GenDb2 => txt "EXPLAIN PLAN FOR " ++ source
  | GenSqlServer =>
    if analyzed
    then txt "SET STATISTICS XML ON;" ++ nl ++ txt "GO" ++ nl ++ source ++ nl ++ txt "GO" ++ nl ++ txt "SET STATISTICS XML OFF;"
    else txt "SET SHOWPLAN_XML ON;" ++ nl ++ txt "GO" ++ nl ++ source ++ nl ++ txt "GO" ++ nl ++ txt "SET SHOWPLAN_XML OFF;"
  | GenMysql =>
    (if bool_decide (o.(explain_format) = Some FormatStandard) then txt "EXPLAIN FORMAT=TRADITIONAL " else txt "EXPLAIN FORMAT=JSON ") ++ source
  | GenJson => txt "EXPLAIN FORMAT=JSON " ++ source
  end.

(** [None] is a panic of the batch splitter. *)
Definition build_explain_sql_with_strategy (o : ExplainSqlOptions) (strategy : EstimatedPlanStrategy)
    : option ExplainSqlBuildResult :=
  let d := o.(database_type) in
  let source := strip_trailing_semicolons (trim_chars o.(explain_sql)) in
  if bool_decide (source = []) then Some (explain_err "empty")
  else if negb (is_safe_explain_sql_for_database (if bool_decide (d = Some DatabaseType.Db2) then o.(explain_sql) else source) d)
  then Some (explain_err "unsafe")
  else if bool_decide (d = Some DatabaseType.Xugu)
          && negb (existsb (starts_with_explain_keyword_boundary (to_lowercase (trim_chars_start (strip_sql_comments source))))
                     ["select"; "with"]%string)
  then Some (explain_err "unsafe")
  else if bool_decide (o.(analyze) = Some true)
          && match d with
             | Some d => bool_decide (d ∈ [DatabaseType.Postgres; DatabaseType.SqlServer]) && is_write_sql_for_database source d
             | None => false
             end
  then Some (explain_err "unsafe")
  else
    one_batch ← (if bool_decide (d = Some DatabaseType.SqlServer)
                 then batches ← split_sql_batches source; Some (length batches =? 1)%nat else Some true);
    Some (if (one_batch : bool) then mkBuild true (Some (explain_statement strategy.(sql_generation) o source)) None
          else explain_err "unsafe").

Definition build_explain_sql (o : ExplainSqlOptions) : option ExplainSqlBuildResult :=
  match estimated_plan_strategy o.(database_type) with
  | None => Some (explain_err "unsupported")
  | Some strategy => build_explain_sql_with_strategy o strategy
  end.

Definition build_gaussdb_dws_explain_sql (o : ExplainSqlOptions) : option ExplainSqlBuildResult :=
  if negb (bool_decide (o.(database_type) = Some DatabaseType.Gaussdb)) then Some (explain_err "unsupported")
  else if bool_decide (o.(analyze) = Some true) then Some (explain_err "unsafe")
  else build_explain_sql_with_strategy o gaussdb_dws_estimated_plan_strategy.

(** The preview of a dropped file. *)
Definition double_quotes (s : text) : text := flat_map (fun c => if (c =? c_quote)%Z then [c; c] else [c]) s.

Definition build_dropped_file_preview_sql (path : text) (limit : option Z) : option text :=
  let lower := to_lowercase path in
  let n := decimal (Z.max (default 1000%Z limit) 1) in
  let preview (function options : string) :=
    Some (txt "SELECT * FROM " ++ txt function ++ txt "('" ++ double_quotes path ++ txt "'" ++ txt options ++ txt ") LIMIT " ++ n) in
  if bool_decide (txt ".parquet" `suffix_of` lower) then preview "read_parquet"%string ""%string
  else if bool_decide (txt ".csv" `suffix_of` lower) then preview "read_csv"%string ""%string
  else if bool_decide (txt ".tsv" `suffix_of` lower) then preview "read_csv"%string ", delim='\t'"%string
  else if bool_decide (txt ".json" `suffix_of` lower) then preview "read_json"%string ""%string
  else None.

End Explain.
