(* ===== verification/QueryExecutionSqlSpec.v ===== *)
(** * What the read-only check refuses

    The scan of query_execution_sql.rs (QueryExecutionSql.v) against the grammar
    of SqlSplitterGrammar.v: on text made of plain characters, quoted items and
    comments it leaves the plain characters and a blank for everything else, so a
    write verb is found wherever it stands in the code and nowhere else. *)

From S2P Require Import Prelude Json Utf8 Cypher SqlDialect SqlLex SqlBlocks SqlScanner SqlRanges SqlFileImport SqlSplitter.
From S2P Require Import QueryExecutionSql SqlSplitterSpec SqlSplitterGrammar.

(** ** The erasure of literals and comments *)

Definition is_any_quote (c : Z) : bool := (c =? c_quote)%Z || (c =? c_dquote)%Z || (c =? c_backtick)%Z.

Definition is_q (o : option Z) : bool := opt_is o 113 || opt_is o 81.

(** An item the scan reads as what it is, after the text [buf]: [--], [/*], [#] and
    [$] start nothing else, and no [q] turns the quote into another one. *)
Definition scan_item (buf : text) (i : item) : bool :=
  match i with
  | Plain c =>
    negb (is_any_quote c) && negb (c =? c_dollar)%Z && negb (c =? c_hash)%Z
    && negb ((c =? c_dash)%Z && opt_is (last buf) c_dash) && negb ((c =? c_star)%Z && opt_is (last buf) c_slash)
  | Quoted quote body => is_any_quote quote && lacks quote body && negb ((quote =? c_quote)%Z && is_q (last buf))
  | LineComment body => lacks c_newline body && negb (opt_is (last buf) c_dash)
  | BlockComment body => lacks c_slash body
  end.

Fixpoint scan_items (buf : text) (l : list item) : bool :=
  match l with
  | [] => true
  | i :: l' => scan_item buf i && scan_items (buf ++ render_item i) l'
  end.

(** What is left of the items; [open] is the quote that the item before closed.  A
    quote that follows it at once is one character of the literal with it. *)
Fixpoint erase (open : option Z) (l : list item) : text :=
  match l with
  | [] => []
  | Plain c :: l' => c :: erase None l'
  | Quoted quote body :: l' =>
    repeat 32%Z (length body + if opt_is open quote then 1 else 2) ++ erase (Some quote) l'
  | (LineComment _ | BlockComment _) :: l' => 32%Z :: erase None l'
  end.

Definition executable_comment (i : item) : bool :=
  match i with BlockComment body => is_mysql_executable_comment_marker body | _ => false end.

(** ** The fuel of the scan *)

Section Scan.
Context `{Unicode : UnicodeTables}.
Context (detect hash : bool).

Lemma tail_shorter (s : text) : length (tail s) <= length s.
Proof. destruct s; simpl; lia. Qed.

Lemma strip_code_ext (f g : strip_mode -> option Z -> text -> text * bool) previous c rest :
  (forall mode p t, length t <= length rest -> f mode p t = g mode p t) ->
  strip_code f detect hash previous c rest = strip_code g detect hash previous c rest.
Proof.
  intros Hfg. pose proof (tail_shorter rest).
  unfold strip_code. rewrite !(Hfg _ _ (tail rest)), !(Hfg _ _ rest) by lia.
  repeat (case_match; try done); by rewrite Hfg by (rewrite length_drop; lia).
Qed.

Lemma strip_enough n m mode previous s : length s < n -> length s < m ->
  strip_fuel n detect hash mode previous s = strip_fuel m detect hash mode previous s.
Proof.
  revert m mode previous s. induction n as [|n IH]; intros m mode previous s Hn Hm; [lia|].
  destruct m as [|m]; [lia|]. destruct s as [|c rest]; [done|]. simpl in Hn, Hm.
  assert (Hfg : forall mode p t, length t <= length rest ->
    strip_fuel n detect hash mode p t = strip_fuel m detect hash mode p t) by (intros; apply IH; lia).
  pose proof (tail_shorter rest) as Ht.
  cbn [strip_fuel]. unfold strip_quote.
  destruct mode; [by apply strip_code_ext|..]; rewrite ?(Hfg _ _ (tail rest)), ?(Hfg _ _ rest) by lia; try done.
  by rewrite (Hfg _ _ (drop _ rest)) by (rewrite length_drop; lia).
Qed.

Definition scan (mode : strip_mode) (previous : option Z) (s : text) : text * bool :=
  strip_fuel (S (length s)) detect hash mode previous s.

Ltac refuel := intros; apply strip_enough; simpl in *; rewrite ?length_drop; try lia.

Lemma scan_code previous c rest : scan Code previous (c :: rest) = strip_code scan detect hash previous c rest.
Proof. apply strip_code_ext. refuel. Qed.

Lemma scan_line previous c rest : scan InLineComment previous (c :: rest) =
  if (c =? c_newline)%Z then push_char 32%Z (scan Code previous rest) else scan InLineComment previous rest.
Proof. done. Qed.

Lemma scan_block previous c rest : scan InBlockComment previous (c :: rest) =
  if (c =? c_star)%Z && opt_is (head rest) c_slash then push_char 32%Z (scan Code previous (tail rest))
  else scan InBlockComment previous rest.
Proof.
  unfold scan at 1. cbn [strip_fuel]. case_match; [|done]. f_equal. pose proof (tail_shorter rest). refuel.
Qed.

(** The mode inside a quote. *)
Definition quote_mode (quote : Z) : strip_mode :=
  if (quote =? c_quote)%Z then InSingleQuote else if (quote =? c_dquote)%Z then InDoubleQuote else InBacktick.

Lemma quote_values quote : is_any_quote quote = true -> quote = c_quote \/ quote = c_dquote \/ quote = c_backtick.
Proof. unfold is_any_quote. intros Hq. apply orb_true_iff in Hq as [Hq|Hq]; [apply orb_true_iff in Hq as [Hq|Hq]|]; lia. Qed.

Lemma scan_quote quote previous c rest : is_any_quote quote = true ->
  scan (quote_mode quote) previous (c :: rest) =
  push_char 32%Z
    (if (c =? quote)%Z then
       if opt_is (head rest) quote then scan (quote_mode quote) previous (tail rest) else scan Code previous rest
     else scan (quote_mode quote) previous rest).
Proof.
  intros Hq. pose proof (tail_shorter rest).
  transitivity (strip_quote (strip_fuel (S (length rest)) detect hash) (quote_mode quote) quote previous c rest).
  { by destruct (quote_values _ Hq) as [-> | [-> | ->]]. }
  unfold strip_quote. destruct (c =? quote)%Z; [|done]. destruct (opt_is _ _); [|done]. f_equal. refuel.
Qed.

(** ** Items *)

Lemma scan_line_comment previous body rest : lacks c_newline body = true ->
  scan InLineComment previous (body ++ c_newline :: rest) = push_char 32%Z (scan Code previous rest).
Proof.
  intros Hl%lacks_forall. induction Hl as [|c body Hc _ IH]; simpl app; rewrite scan_line; [done|].
  by destruct (Z.eqb_spec c c_newline).
Qed.

Lemma scan_block_comment previous body rest : lacks c_slash body = true ->
  scan InBlockComment previous (body ++ c_star :: c_slash :: rest) = push_char 32%Z (scan Code previous rest).
Proof.
  intros Hl%lacks_forall. induction Hl as [|c body Hc Hl IH]; simpl app; rewrite scan_block; [done|].
  replace (opt_is (head (body ++ c_star :: c_slash :: rest)) c_slash) with false; [by rewrite andb_false_r|].
  destruct Hl as [|d ? Hd]; simpl; [done|]. by destruct (Z.eqb_spec d c_slash).
Qed.

Lemma push_blanks_add n r : push_char 32%Z (push_blanks n r) = push_blanks (S n) r.
Proof. done. Qed.

Lemma scan_quoted_body quote previous body rest : is_any_quote quote = true -> lacks quote body = true ->
  scan (quote_mode quote) previous (body ++ rest) = push_blanks (length body) (scan (quote_mode quote) previous rest).
Proof.
  intros Hq Hl%lacks_forall. induction Hl as [|c body Hc _ IH]; simpl; [by destruct (scan _ _ rest)|].
  rewrite scan_quote by done. destruct (Z.eqb_spec c quote); [done|]. by rewrite IH.
Qed.

(** Text that continues no item before it. *)
Definition fresh (rest : text) : bool :=
  negb (opt_test (fun c => is_any_quote c || (c =? c_dash)%Z || (c =? c_star)%Z) (head rest)) && negb (is_q (head rest)).

Lemma head_render buf l rest d : scan_items buf l = true -> opt_is (head (render l ++ rest)) d = true ->
  (l = [] /\ opt_is (head rest) d = true) \/
  exists i l', l = i :: l' /\ scan_item buf i = true /\ scan_items (buf ++ render_item i) l' = true /\ opt_is (head (render_item i)) d = true.
Proof.
  destruct l as [|i l]; simpl; [by left|]. intros Hv Hd. apply andb_true_iff in Hv as [Hi Hl]. right. exists i, l.
  split_and!; [done..|]. by destruct i.
Qed.

Lemma fresh_not rest d : fresh rest = true -> is_any_quote d || (d =? c_dash)%Z || (d =? c_star)%Z || is_q (Some d) = true ->
  opt_is (head rest) d = false.
Proof.
  unfold fresh. intros Hf Hd. destruct rest as [|c rest]; [done|]. simpl in *. destruct (Z.eqb_spec c d) as [->|]; [|done].
  bool_solver. unfold is_q, opt_is in *. bool_solver. repeat match goal with E : _ = false |- _ => rewrite E in Hd; clear E end. done.
Qed.

(** No quote follows a [q]. *)
Lemma no_quote_after_q buf l rest c : (c =? 113)%Z || (c =? 81)%Z = true -> scan_items (buf ++ [c]) l = true -> fresh rest = true ->
  opt_is (head (render l ++ rest)) c_quote = false.
Proof.
  intros Hc Hv Hf. apply not_true_iff_false. intros Hh. apply (head_render (buf ++ [c])) in Hh; [|done].
  destruct Hh as [[-> Hh]|(i & l' & -> & Hi & _ & Hh)]; [by rewrite fresh_not in Hh|].
  destruct i as [d|quote body|body|body]; simpl in Hi, Hh; try done; rewrite last_snoc in Hi; simpl in Hi; unfold is_q in Hi; simpl in Hi.
  - unfold is_any_quote in Hi. by rewrite Hh in Hi.
  - rewrite Hh, Hc in Hi. by rewrite andb_false_r in Hi.
Qed.

Lemma no_alternative_quote buf l rest c : scan_items (buf ++ [c]) l = true -> fresh rest = true ->
  ((c =? 113) || (c =? 81) || (c =? 110) || (c =? 78))%Z = true -> oracle_alternative_quote_len c (render l ++ rest) = None.
Proof.
  intros Hv Hf Hc. unfold oracle_alternative_quote_len. fold (is_q (head (render l ++ rest))).
  destruct ((c =? 110) || (c =? 78))%Z eqn:Hn; simpl.
  - destruct (is_q (head (render l ++ rest))) eqn:Hq; [|done]. simpl.
    assert (exists d, ((d =? 113)%Z || (d =? 81)%Z = true) /\ opt_is (head (render l ++ rest)) d = true) as (d & Hd & Hh).
    { unfold is_q in Hq. apply orb_true_iff in Hq as [Hq|Hq]; [by exists 113%Z|by exists 81%Z]. }
    apply (head_render (buf ++ [c])) in Hh; [|done]. destruct Hh as [[-> Hh]|(i & l' & -> & Hi & Hv' & Hh)].
    { rewrite fresh_not in Hh; [done|done|]. unfold is_q. simpl. rewrite Hd. by rewrite orb_true_r. }
    destruct i as [e|quote body|body|body]; simpl in Hi, Hv'; cbn [render_item head opt_is] in Hh.
    + apply Z.eqb_eq in Hh as ->. simpl. pose proof (no_quote_after_q _ _ _ _ Hd Hv' Hf) as Hno.
      destruct (render l' ++ rest) as [|f [|g t]]; [done..|]. simpl in Hno. by rewrite Hno.
    + apply Z.eqb_eq in Hh as ->. unfold is_any_quote in Hi. lia.
    + by apply Z.eqb_eq in Hh as <-.
    + by apply Z.eqb_eq in Hh as <-.
  - assert ((c =? 113)%Z || (c =? 81)%Z = true) as Hc' by lia. pose proof (no_quote_after_q _ _ _ _ Hc' Hv Hf) as Hno.
    destruct (render l ++ rest) as [|f [|g t]]; [done..|]. simpl in Hno. by rewrite Hno.
Qed.

Lemma no_pair buf l rest c d : (c = c_dash /\ d = c_dash) \/ (c = c_slash /\ d = c_star) ->
  scan_items (buf ++ [c]) l = true -> fresh rest = true -> opt_is (head (render l ++ rest)) d = false.
Proof.
  intros Hcd Hv Hf. apply not_true_iff_false. intros Hh. apply (head_render (buf ++ [c])) in Hh; [|done].
  destruct Hh as [[-> Hh]|(i & l' & -> & Hi & _ & Hh)].
  { rewrite fresh_not in Hh; [done|done|]. by destruct Hcd as [[_ ->]|[_ ->]]. }
  destruct i as [e|quote body|body|body]; simpl in Hi; cbn [render_item head opt_is] in Hh; apply Z.eqb_eq in Hh as <-; rewrite ?last_snoc in Hi.
  - destruct Hcd as [[-> ->]|[-> ->]]; done.
  - destruct Hcd as [[-> ->]|[-> ->]]; done.
  - destruct Hcd as [[-> _]|[_ ?]]; [|done]. simpl in Hi. by rewrite andb_false_r in Hi.
  - by destruct Hcd as [[_ ?]|[_ ?]].
Qed.

Lemma scan_plain_item buf l rest c previous : hash = true -> scan_item buf (Plain c) = true -> scan_items (buf ++ [c]) l = true ->
  fresh rest = true ->
  scan Code previous (c :: render l ++ rest) = push_char c (scan Code (Some c) (render l ++ rest)).
Proof.
  intros Hhash Hc Hv Hf. rewrite scan_code. simpl in Hc. bool_solver. unfold strip_code.
  assert (((c =? c_dash)%Z && opt_is (head (render l ++ rest)) c_dash) = false) as ->.
  { destruct (Z.eqb_spec c c_dash); [|done]. simpl. eapply no_pair; eauto. }
  assert (((c =? c_slash)%Z && opt_is (head (render l ++ rest)) c_star) = false) as ->.
  { destruct (Z.eqb_spec c c_slash); [|done]. simpl. eapply no_pair; eauto. }
  unfold is_any_quote in *. bool_solver.
  repeat match goal with E : (c =? _)%Z = false |- _ => rewrite E; clear E end. rewrite andb_false_r. simpl.
  destruct (_ && negb _) eqn:E; [|done]. apply andb_true_iff in E as [E _]. by rewrite (no_alternative_quote buf).
Qed.

Lemma scan_opens_quote previous quote t : is_any_quote quote = true ->
  scan Code previous (quote :: t) = push_char 32%Z (scan (quote_mode quote) (Some 32%Z) t).
Proof.
  intros Hq. rewrite scan_code. unfold strip_code.
  destruct (quote_values _ Hq) as [-> | [-> | ->]]; simpl; rewrite ?andb_false_r; done.
Qed.

Lemma repeat_cons_app n (t : text) : repeat 32%Z n ++ 32%Z :: t = 32%Z :: repeat 32%Z n ++ t.
Proof. induction n as [|n IH]; simpl; [done|]. by rewrite IH. Qed.

(** The erased text and the flag of the items, before those of what follows. *)
Definition after_items (l : list item) (out : text) (r : text * bool) : text * bool :=
  (out ++ r.1, r.2 || (detect && existsb executable_comment l)).

Lemma marker_in_body body rest : is_mysql_executable_comment_marker (body ++ c_star :: c_slash :: rest) =
  is_mysql_executable_comment_marker body.
Proof. destruct body as [|c [|d body]]; simpl; [done| |done]. by rewrite andb_false_r. Qed.

(** One item, given the rest of them. *)
Lemma scan_item_erase buf i l rest previous : hash = true -> fresh rest = true -> scan_item buf i = true ->
  scan_items (buf ++ render_item i) l = true ->
  (forall buf previous, scan_items buf l = true ->
    (exists previous', scan Code previous (render l ++ rest) = after_items l (erase None l) (scan Code previous' rest)) /\
    (forall quote, is_any_quote quote = true -> exists previous',
      scan (quote_mode quote) previous (quote :: render l ++ rest) =
      push_char 32%Z (after_items l (erase (Some quote) l) (scan Code previous' rest)))) ->
  exists previous', scan Code previous (render_item i ++ render l ++ rest) =
    after_items (i :: l) (erase None (i :: l)) (scan Code previous' rest).
Proof.
  intros Hhash Hf Hi Hv IH. destruct i as [c|quote body|body|body]; cbn [render_item] in *; simpl app.
  - rewrite (scan_plain_item buf) by done. destruct (IH _ (Some c) Hv) as [[previous' ->] _]. by exists previous'.
  - simpl in Hi. bool_solver. rewrite scan_opens_quote, <- app_assoc by done. simpl app. rewrite scan_quoted_body by done.
    destruct (IH _ (Some 32%Z) Hv) as [_ IHq]. destruct (IHq quote) as [previous' ->]; [done|]. exists previous'.
    unfold after_items, push_blanks, push_char. simpl. rewrite (Nat.add_comm (length body)). simpl.
    by rewrite <- app_assoc, repeat_cons_app.
  - simpl in Hi. bool_solver. rewrite scan_code. unfold strip_code. simpl. rewrite <- app_assoc. simpl app. rewrite scan_line_comment by done.
    destruct (IH _ previous Hv) as [[previous' ->] _]. by exists previous'.
  - simpl in Hi. rewrite scan_code. unfold strip_code. simpl. rewrite <- app_assoc. simpl app. rewrite scan_block_comment by done.
    destruct (IH _ previous Hv) as [[previous' ->] _]. exists previous'. rewrite marker_in_body. unfold after_items, push_char. simpl.
    rewrite andb_false_r.
    f_equal. destruct (scan Code previous' rest).2, detect, (is_mysql_executable_comment_marker body), (existsb _ l); done.
Qed.

Lemma scan_items_erase l rest : hash = true -> fresh rest = true -> forall buf previous, scan_items buf l = true ->
  (exists previous', scan Code previous (render l ++ rest) = after_items l (erase None l) (scan Code previous' rest)) /\
  (forall quote, is_any_quote quote = true -> exists previous',
    scan (quote_mode quote) previous (quote :: render l ++ rest) =
    push_char 32%Z (after_items l (erase (Some quote) l) (scan Code previous' rest))).
Proof.
  intros Hhash Hf. induction l as [|i l IH]; intros buf previous Hv.
  { split; [|intros quote Hq; rewrite scan_quote, Z.eqb_refl, fresh_not by (done || by rewrite Hq)]; exists previous;
      unfold after_items; simpl; rewrite andb_false_r, orb_false_r; by destruct (scan _ _ _). }
  simpl in Hv. apply andb_true_iff in Hv as [Hi Hv].
  assert (Hcode : exists previous', scan Code previous (render (i :: l) ++ rest) =
    after_items (i :: l) (erase None (i :: l)) (scan Code previous' rest)).
  { cbn [render flat_map]. fold (render l). rewrite <- app_assoc. by eapply scan_item_erase. }
  split; [done|]. intros quote Hq. rewrite scan_quote, Z.eqb_refl by done.
  destruct (opt_is (head (render (i :: l) ++ rest)) quote) eqn:Hh.
  - apply (head_render buf) in Hh; [|simpl; by rewrite Hi].
    destruct Hh as [[? _]|(i' & l' & [= <- <-] & _ & _ & Hh)]; [done|].
    destruct i as [c|q body|body|body]; cbn [render_item head opt_is] in Hh; apply Z.eqb_eq in Hh as <-.
    + simpl in Hi. rewrite Hq in Hi. done.
    + simpl in Hi. bool_solver. destruct (IH _ previous Hv) as [_ IHq]. destruct (IHq q Hq) as [previous' He].
      exists previous'. cbn [render flat_map render_item tail app]. fold (render l). rewrite <- !app_assoc. simpl app.
      rewrite scan_quoted_body, He by done. unfold after_items, push_blanks, push_char. simpl.
      rewrite Z.eqb_refl, (Nat.add_comm (length body)). simpl. by rewrite <- app_assoc, repeat_cons_app.
    + done.
    + done.
  - destruct Hcode as [previous' ->]. exists previous'.
    assert (erase (Some quote) (i :: l) = erase None (i :: l)) as ->; [|done].
    destruct i as [c|q body|body|body]; simpl; [done| |done..]. cbn [render flat_map render_item app head opt_is] in Hh.
    by rewrite Z.eqb_sym in Hh; rewrite Hh.
Qed.

End Scan.

(** The text that is left does not depend on whether executable comments are
    looked for. *)
Lemma strip_same_text `{UnicodeTables} n detect hash mode previous s :
  (strip_fuel n detect hash mode previous s).1 = (strip_fuel n false hash mode previous s).1.
Proof.
  revert mode previous s. induction n as [|n IH]; intros mode previous s; [done|]. destruct s as [|c rest]; [done|].
  cbn [strip_fuel]. unfold strip_quote, strip_code.
  destruct mode; repeat (match goal with |- context [if ?b then _ else _] => destruct b end); simpl; rewrite ?IH; try done;
    try (destruct (oracle_alternative_quote_len _ _)); try (destruct (dollar_quote_delimiter _)); simpl; rewrite ?IH; try done;
    (match goal with |- context [strip_fuel n detect hash ?m ?p ?t] =>
       pose proof (IH m p t); destruct (strip_fuel n detect hash m p t), (strip_fuel n false hash m p t) end; done).
Qed.

(** The first word of the code in upper case, if an ASCII character or nothing
    ends it. *)
Definition opening_word (code : text) : option text :=
  let '(word, after) := span is_ascii_alphanumeric (trim_chars_start code) in
  match after with
  | c :: _ => if (0 <=? c)%Z && (c <? 128)%Z then Some (ascii_upper word) else None
  | [] => Some (ascii_upper word)
  end.

(** Databases whose statements are SQL text for the check. *)
Definition sql_database (d : DatabaseType.t) : bool :=
  negb (bool_decide (d ∈ [DatabaseType.Neo4j; DatabaseType.VictoriaMetrics; DatabaseType.DynamoDb; DatabaseType.Salesforce;
                          DatabaseType.CouchDb; DatabaseType.Solr; DatabaseType.Elasticsearch; DatabaseType.Easysearch])).

(** ** A verb in the code is found *)

(** The write verbs, as they are met in statements. *)
Definition write_phrases : list text :=
  map txt ["drop"; "delete"; "truncate"; "alter"; "update"; "merge"; "create"; "insert into"; "replace into"].

(** The keyword of [DANGEROUS_SQL_KEYWORDS] a phrase starts with. *)
Definition phrase_verb (phrase : text) : text := (span is_ascii_alphabetic phrase).1.

(** The end of the text or an ASCII character that is no part of a word. *)
Definition boundary (o : option Z) : bool :=
  match o with Some c => (0 <=? c)%Z && (c <? 128)%Z && negb (is_word_byte c) | None => true end.

(** A character of a phrase, and a phrase that no quote can swallow. *)
Definition phrase_char (c : Z) : bool := (is_ascii_alphabetic c || (c =? 32)%Z) && negb (is_q (Some c)).
Definition phrase_text (v : text) : bool :=
  forallb phrase_char v && negb (opt_is (last v) 110) && negb (opt_is (last v) 78).

Ltac ascii := unfold to_ascii_lowercase, to_ascii_uppercase, phrase_char, is_q, opt_is, is_word_byte, is_ascii_alphanumeric,
  is_ascii_alphabetic, is_ascii_uppercase, is_ascii_lowercase, is_ascii_digit in *.

Lemma phrase_char_lower c : phrase_char (to_ascii_lowercase c) = phrase_char c.
Proof. ascii. destruct ((65 <=? c) && (c <=? 90))%Z eqn:E; lia. Qed.

Lemma lower_n c : (to_ascii_lowercase c =? 110)%Z = ((c =? 110) || (c =? 78))%Z.
Proof. ascii. destruct ((65 <=? c) && (c <=? 90))%Z eqn:E; lia. Qed.

Lemma phrase_is_text v : ascii_lower v ∈ write_phrases -> phrase_text v = true.
Proof.
  intros Hv. assert (Hl : forallb phrase_char (ascii_lower v) && negb (opt_is (last (ascii_lower v)) 110) = true).
  { revert Hv. generalize (ascii_lower v). apply Forall_forall. by repeat constructor. }
  unfold phrase_text, ascii_lower in *.
  assert (forallb phrase_char (map to_ascii_lowercase v) = forallb phrase_char v) as Hf.
  { clear. induction v as [|c v IH]; [done|]. cbn [forallb map]. by rewrite IH, phrase_char_lower. }
  change (map to_ascii_lowercase v) with (to_ascii_lowercase <$> v) in Hl at 2. rewrite Hf, fmap_last in Hl. destruct (last v) as [c|]; cbn [fmap option_fmap option_map opt_is] in *; [|by rewrite ?andb_true_r in *].
  rewrite lower_n in Hl. bool_solver. match goal with E : forallb _ _ = true |- _ => rewrite E end. simpl.
  by repeat match goal with E : (c =? _)%Z = false |- _ => rewrite E end.
Qed.

Section Verb.
Context `{Unicode : UnicodeTables}.

Lemma scan_phrase_char detect hash previous c rest : phrase_char c = true ->
  ((c =? 110) || (c =? 78))%Z = false \/ is_q (head rest) = false ->
  scan detect hash Code previous (c :: rest) = push_char c (scan detect hash Code (Some c) rest).
Proof.
  intros Hc Hn. rewrite scan_code. unfold strip_code.
  assert ((c =? c_dash)%Z = false /\ (c =? c_hash)%Z = false /\ (c =? c_slash)%Z = false /\ (c =? c_quote)%Z = false /\
    (c =? c_dquote)%Z = false /\ (c =? c_backtick)%Z = false /\ (c =? c_dollar)%Z = false) as (-> & -> & -> & -> & -> & -> & ->).
  { ascii. lia. }
  rewrite andb_false_r. simpl. destruct (_ && negb _) eqn:E; [|done]. apply andb_true_iff in E as [E _].
  replace (oracle_alternative_quote_len c rest) with (@None nat); [done|]. unfold oracle_alternative_quote_len.
  fold (is_q (head rest)). assert (((c =? 110) || (c =? 78))%Z = true) as Hn' by (ascii; lia). rewrite Hn'.
  destruct Hn as [Hn|Hn]; [by rewrite Hn in Hn'|]. by rewrite Hn.
Qed.

Lemma scan_phrase detect hash previous v rest : phrase_text v = true -> exists previous',
  scan detect hash Code previous (v ++ rest) =
  (v ++ (scan detect hash Code previous' rest).1, (scan detect hash Code previous' rest).2).
Proof.
  revert previous. induction v as [|c v IH]; intros previous Hv; simpl.
  { exists previous. by destruct (scan _ _ _ _ rest). }
  unfold phrase_text in Hv. simpl in Hv. bool_solver.
  assert (Hn : ((c =? 110) || (c =? 78))%Z = false \/ is_q (head (v ++ rest)) = false).
  { destruct v as [|d v]; [left; cbn [last opt_is] in *; by repeat match goal with E : (c =? _)%Z = false |- _ => rewrite E end|].
    right. simpl in *. bool_solver. unfold phrase_char in *. by bool_solver. }
  rewrite scan_phrase_char by done. destruct v as [|d v].
  { exists (Some c). done. }
  destruct (IH (Some c)) as [previous' He].
  { unfold phrase_text. rewrite !last_cons_cons in *. by repeat match goal with E : _ = _ |- _ => rewrite E; clear E end. }
  exists previous'. by rewrite He.
Qed.

Lemma scan_line_boundary detect hash previous s : boundary (head (scan detect hash InLineComment previous s).1) = true.
Proof. induction s as [|c s IH]; [done|]. rewrite scan_line. by case_match. Qed.

Lemma scan_block_boundary detect hash previous s : boundary (head (scan detect hash InBlockComment previous s).1) = true.
Proof. induction s as [|c s IH]; [done|]. rewrite scan_block. by case_match. Qed.

(** What follows the verb is still no part of its word. *)
Lemma scan_boundary detect hash previous s : boundary (head s) = true ->
  boundary (head (scan detect hash Code previous s).1) = true.
Proof.
  destruct s as [|c s]; [done|]. intros Hb. rewrite scan_code. unfold strip_code.
  destruct (_ && _); [apply scan_line_boundary|]. destruct (_ && _); [apply scan_line_boundary|].
  destruct (_ && _).
  { pose proof (scan_block_boundary detect hash previous (tail s)). by destruct (scan _ _ InBlockComment _ _). }
  assert ((c =? 113) || (c =? 81) || (c =? 110) || (c =? 78) = false)%Z as ->.
  { cbn [head boundary] in Hb. bool_solver. ascii. lia. }
  simpl. repeat (case_match; try done).
Qed.

End Verb.

Definition last_or (o : option Z) (x : text) : option Z := match last x with Some c => Some c | None => o end.

Lemma any_position_at test before x s : test (last_or before x) s = true -> any_position test before (x ++ s) = true.
Proof.
  revert before. induction x as [|c x IH]; intros before Ht.
  - unfold last_or in Ht. simpl in Ht. destruct s; simpl; by rewrite Ht.
  - simpl. apply orb_true_iff. right. apply IH. unfold last_or in *. rewrite last_cons in Ht.
    by destruct (last x).
Qed.

Lemma boundary_lower c : boundary (Some c) = true -> to_ascii_lowercase c = c.
Proof. unfold boundary. intros Hb. bool_solver. ascii. destruct ((65 <=? c) && (c <=? 90))%Z eqn:E; lia. Qed.

Lemma boundary_not_word o : boundary o = true -> is_identifier_byte o = false.
Proof. destruct o; [|done]. simpl. intros. by bool_solver. Qed.

(** A phrase between boundaries contains its verb as a word. *)
Lemma phrase_verb_at phrase before tail : phrase ∈ write_phrases -> boundary before = true -> boundary (head tail) = true ->
  verb_at (phrase_verb phrase) before (phrase ++ tail) = true.
Proof.
  intros Hp Hb Ht. apply boundary_not_word in Hb, Ht. revert Hp. generalize phrase. apply Forall_forall.
  repeat constructor; unfold verb_at; rewrite Hb; cbn -[is_ascii_whitespace]; try done;
    destruct tail as [|c tail]; simpl in *; rewrite ?Ht, ?andb_false_r; done.
Qed.

Lemma phrase_verb_dangerous phrase : phrase ∈ write_phrases ->
  phrase_verb phrase ∈ DANGEROUS_SQL_KEYWORDS /\ phrase_verb phrase <> [].
Proof. generalize phrase. apply Forall_forall. repeat constructor; vm_compute; set_solver. Qed.

(** The text but for its last or first character. *)
Lemma end_piece (x : text) : exists x0 o, x = x0 ++ option_list o /\ o = last x /\ (o = None -> x0 = []).
Proof.
  destruct (last x) as [c|] eqn:E.
  - apply last_Some in E as [x0 ->]. by exists x0, (Some c).
  - apply last_None in E as ->. by exists [], None.
Qed.

Lemma start_piece (r : text) : exists r0 q, r = option_list q ++ r0 /\ q = head r /\ (q = None -> r0 = []).
Proof. destruct r as [|c r]; [by exists [], None|by exists r, (Some c)]. Qed.

Local Notation ascii_text := (Forall (fun c => (0 <= c < 128)%Z)) (only parsing).

Lemma boundary_ascii o : boundary o = true -> ascii_text (option_list o).
Proof. destruct o as [c|]; simpl; [|constructor]. intros Hb. bool_solver. constructor; [lia|constructor]. Qed.

Lemma phrase_ascii v : ascii_lower v ∈ write_phrases -> ascii_text v.
Proof.
  intros Hv%phrase_is_text. unfold phrase_text in Hv. bool_solver. rewrite forallb_forall in *. apply Forall_forall.
  intros c Hc%list_elem_of_In. match goal with E : forall _, _ |- _ => specialize (E c Hc) end. ascii. lia.
Qed.

Lemma phrase_not_nil v : ascii_lower v ∈ write_phrases -> v <> [].
Proof. intros Hv ->. by assert (Hno : bool_decide (ascii_lower [] ∈ write_phrases) = false) by done; apply bool_decide_eq_false in Hno. Qed.

Section Found.
Context `{Unicode : UnicodeTables, Laws : UnicodeCaseLaws}.

(** The code of a statement: the items before the phrase, the phrase, the rest. *)
Lemma stripped_phrase detect l v rest : scan_items [] l = true -> ascii_lower v ∈ write_phrases -> exists r,
  (strip_sql_comments_and_literals_with_metadata (render l ++ v ++ rest) detect true).1 = erase None l ++ v ++ r /\
  (boundary (head rest) = true -> boundary (head r) = true).
Proof.
  intros Hl Hv. pose proof (phrase_is_text v Hv) as Ht.
  assert (Hf : fresh (v ++ rest) = true).
  { destruct v as [|c v].
    { by apply phrase_not_nil in Hv. }
    unfold phrase_text in Ht. simpl in Ht. bool_solver. unfold fresh. simpl.
    unfold is_any_quote. unfold phrase_char in *. bool_solver.
    match goal with E : is_q (Some c) = false |- _ => rewrite E end. ascii. lia. }
  destruct (proj1 (scan_items_erase detect true l (v ++ rest) eq_refl Hf [] None Hl)) as [previous He].
  destruct (scan_phrase detect true previous v rest Ht) as [previous' He'].
  unfold strip_sql_comments_and_literals_with_metadata. fold (scan detect true Code None (render l ++ v ++ rest)).
  rewrite He, He'. eexists. split; [done|]. apply scan_boundary.
Qed.

Lemma phrase_is_found x v r : ascii_lower v ∈ write_phrases -> boundary (last x) = true -> boundary (head r) = true ->
  existsb (contains_dangerous_sql_verb (to_lowercase (x ++ v ++ r))) DANGEROUS_SQL_KEYWORDS = true.
Proof.
  intros Hv Hx Hr. destruct (phrase_verb_dangerous _ Hv) as [Hin Hne]. apply existsb_exists.
  exists (phrase_verb (ascii_lower v)). split; [by apply list_elem_of_In|].
  unfold contains_dangerous_sql_verb. rewrite bool_decide_eq_false_2 by done. simpl.
  destruct (end_piece x) as (x0 & o & -> & Ho & Hx0), (start_piece r) as (r0 & q & -> & Hq & Hr0).
  rewrite <- Ho in Hx. rewrite <- Hq in Hr. clear Ho Hq.
  destruct (lowercase_ascii x0 (option_list o ++ v ++ option_list q) r0) as (x' & r' & He & Hx' & Hr').
  { rewrite !Forall_app. split_and!; [by apply boundary_ascii|by apply phrase_ascii|by apply boundary_ascii]. }
  rewrite <- !app_assoc in *. rewrite He, !map_app, <- !app_assoc, app_assoc. apply any_position_at.
  apply phrase_verb_at; [done|..].
  - unfold last_or. destruct o as [c|]; simpl.
    + rewrite last_snoc, boundary_lower; done.
    + by rewrite Hx', app_nil_r by auto.
  - destruct q as [c|]; simpl; [by rewrite boundary_lower|by rewrite Hr' by auto].
Qed.

End Found.

(** ** The first word of the statement *)

Lemma alphanumeric_ascii c : is_ascii_alphanumeric c = true -> (0 <= c < 128)%Z.
Proof. ascii. lia. Qed.

Lemma alphanumeric_upper c : is_ascii_alphanumeric (to_ascii_uppercase c) = is_ascii_alphanumeric c.
Proof. ascii. destruct ((97 <=? c) && (c <=? 122))%Z eqn:E; lia. Qed.

Lemma span_spec (p : Z -> bool) s a b : span p s = (a, b) -> s = a ++ b /\ Forall (fun c => p c = true) a /\ opt_test p (head b) = false.
Proof.
  revert a b. induction s as [|c s IH]; intros a b; simpl; [by intros [= <- <-]|].
  destruct (p c) eqn:Hc; [|intros [= <- <-]; simpl; by rewrite Hc].
  destruct (span p s) as [a' b'] eqn:E. intros [= <- <-]. destruct (IH a' b') as (-> & Ha & Hb); [done|]. eauto.
Qed.

(** A keyword at the start of a text is its first word. *)
Lemma keyword_is_word (k w b : text) : Forall (fun c => is_ascii_alphanumeric c = true) k ->
  Forall (fun c => is_ascii_alphanumeric c = true) w -> opt_test is_ascii_alphanumeric (head b) = false ->
  k `prefix_of` w ++ b -> opt_test is_ascii_alphanumeric (head (drop (length k) (w ++ b))) = false -> k = w.
Proof.
  intros Hk. revert w. induction Hk as [|c k Hc _ IH]; intros w Hw Hb Hp Hd.
  - destruct Hw as [|d w Hw]; [done|]. simpl in Hd. by rewrite Hw in Hd.
  - destruct Hw as [|d w Hd' Hw]; simpl in *.
    + destruct b as [|e b]; [by apply prefix_nil_not in Hp|]. apply prefix_cons_inv_1 in Hp as ->. simpl in Hb. by rewrite Hc in Hb.
    + pose proof (prefix_cons_inv_1 _ _ _ _ Hp) as ->. apply prefix_cons_inv_2 in Hp. f_equal. by apply IH.
Qed.

Section Opening.
Context `{Case : UnicodeCase, Laws : !UnicodeCaseLaws}.

Lemma upper_opening code w : opening_word code = Some w -> exists b,
  to_uppercase (trim_chars_start code) = w ++ b /\ Forall (fun c => is_ascii_alphanumeric c = true) w /\
  opt_test is_ascii_alphanumeric (head b) = false.
Proof.
  unfold opening_word. destruct (span _ _) as [word after] eqn:Es. apply span_spec in Es as (-> & Hw & Ha).
  assert (Hw' : Forall (fun c => is_ascii_alphanumeric c = true) (ascii_upper word)).
  { apply Forall_map. eapply Forall_impl; [done|]. intros c Hc. simpl. by rewrite alphanumeric_upper. }
  assert (Hascii : ascii_text word) by (eapply Forall_impl; [done|]; apply alphanumeric_ascii).
  destruct after as [|c after].
  - intros [= <-]. destruct (uppercase_ascii [] word []) as (x & b & He & Hx & Hb); [done|].
    exists []. simpl in He. rewrite He, Hx, Hb by done. done.
  - destruct (_ && _) eqn:Hc; [|done]. intros [= <-]. bool_solver.
    destruct (uppercase_ascii [] (word ++ [c]) after) as (x & b & He & Hx & _).
    { apply Forall_app. split; [done|]. constructor; [lia|constructor]. }
    exists (to_ascii_uppercase c :: b). rewrite <- app_assoc in He. simpl in He. rewrite He, Hx, map_app, <- app_assoc by done.
    split_and!; [done..|]. simpl. by rewrite alphanumeric_upper.
Qed.

Lemma opening_keyword code w (k : string) : opening_word code = Some w -> forallb is_ascii_alphanumeric (txt k) = true ->
  starts_with_keyword_at (to_uppercase (trim_chars_start code)) k = true -> txt k = w.
Proof.
  intros Ho Hk. destruct (upper_opening _ _ Ho) as (b & -> & Hw & Hb). unfold starts_with_keyword_at. intros Hs. bool_solver.
  apply (keyword_is_word _ w b); [|done..].
  rewrite forallb_forall in Hk. apply Forall_forall. intros c Hc%list_elem_of_In. by apply Hk.
Qed.

Lemma strip_prefix_Some p s t : strip_prefix p s = Some t -> s = p ++ t.
Proof.
  revert s. induction p as [|c p IH]; intros [|d s]; simpl; try congruence.
  destruct (Z.eqb_spec c d) as [->|]; [|done]. intros ->%IH. done.
Qed.

Lemma show_create_is_show upper : starts_with_show_create upper = true -> starts_with_keyword_at upper "SHOW" = true.
Proof.
  unfold starts_with_show_create, starts_with_keyword_at. destruct (strip_prefix _ _) as [after|] eqn:Ep; [|done].
  apply strip_prefix_Some in Ep as ->. rewrite (bool_decide_eq_true_2 (txt "SHOW" `prefix_of` _)) by (by apply prefix_app_r). rewrite drop_app_length.
  by destruct (opt_test _ _).
Qed.

End Opening.

(** ** The theorems *)

Section Refused.
Context `{Unicode : UnicodeTables, Case : UnicodeCase, Laws : !UnicodeCaseLaws}.

(** Of the statements that start with a word, only [PRAGMA] and [SHOW CREATE] are
    let through whatever they contain. *)
Lemma dangerous_statement_is_write st w detect into checksum :
  opening_word (strip_sql_comments_and_literals st) = Some w -> w ∉ [txt "PRAGMA"; txt "SHOW"] ->
  trim_chars_start (strip_sql_comments_and_literals st) <> [] ->
  contains_dangerous_sql_keyword st = true -> is_write_sql_statement st detect into checksum = true.
Proof.
  intros Ho Hw Hne Hd. unfold is_write_sql_statement.
  destruct (strip_sql_comments_and_literals_with_metadata st detect true) as [cleaned executable] eqn:Es.
  assert (cleaned = strip_sql_comments_and_literals st) as ->.
  { pose proof (strip_same_text (S (length st)) detect true Code None st) as Hs.
    unfold strip_sql_comments_and_literals_with_metadata in Es. rewrite Es in Hs. done. }
  destruct executable; [done|]. rewrite bool_decide_eq_false_2 by done. rewrite Hd, !orb_true_r.
  destruct (starts_with_keyword_at _ "PRAGMA") eqn:Hp.
  { apply (opening_keyword _ w) in Hp; [|done|done]. subst w. set_solver. }
  destruct (starts_with_show_create _) eqn:Hsc.
  { apply show_create_is_show, (opening_keyword _ w) in Hsc; [|done|done]. subst w. set_solver. }
  rewrite andb_false_r. by repeat case_match.
Qed.

Lemma phrase_not_blank x v r : ascii_lower v ∈ write_phrases -> trim_chars_start (x ++ v ++ r) <> [].
Proof.
  intros Hv. assert (Hh : opt_test is_ascii_alphabetic (head (ascii_lower v)) = true).
  { revert Hv. generalize (ascii_lower v). apply Forall_forall. by repeat constructor. }
  destruct v as [|c v]; [done|]. simpl in Hh. rewrite trim_chars_start_app. case_bool_decide as Hx.
  - rewrite trim_chars_start_id; [done|]. simpl. unfold is_whitespace. ascii.
    destruct ((65 <=? c) && (c <=? 90))%Z eqn:E; lia.
  - by destruct (trim_chars_start x).
Qed.

Lemma phrase_is_dangerous l v rest : scan_items [] l = true -> ascii_lower v ∈ write_phrases ->
  boundary (last (erase None l)) = true -> boundary (head rest) = true -> contains_dangerous_sql_keyword (render l ++ v ++ rest) = true.
Proof.
  intros Hl Hv Hb Hr. destruct (stripped_phrase false l v rest Hl Hv) as (r & He & Hr').
  unfold contains_dangerous_sql_keyword, strip_sql_comments_and_literals. rewrite He. apply phrase_is_found; auto.
Qed.

Lemma phrase_is_write l v rest w detect into checksum :
  scan_items [] l = true -> ascii_lower v ∈ write_phrases -> boundary (last (erase None l)) = true -> boundary (head rest) = true ->
  opening_word (strip_sql_comments_and_literals (render l ++ v ++ rest)) = Some w -> w ∉ [txt "PRAGMA"; txt "SHOW"] ->
  is_write_sql_statement (render l ++ v ++ rest) detect into checksum = true.
Proof.
  intros Hl Hv Hb Hr Ho Hw. destruct (stripped_phrase false l v rest Hl Hv) as (r & He & Hr').
  fold (strip_sql_comments_and_literals (render l ++ v ++ rest)) in He.
  eapply dangerous_statement_is_write; [done|done|by rewrite He; apply phrase_not_blank|by apply phrase_is_dangerous].
Qed.

End Refused.

Lemma scan_is_erase `{UnicodeTables} l detect : scan_items [] l = true ->
  strip_sql_comments_and_literals_with_metadata (render l) detect true =
  (erase None l, detect && existsb executable_comment l).
Proof.
  intros Hl. destruct (proj1 (scan_items_erase detect true l [] eq_refl eq_refl [] None Hl)) as [previous He].
  rewrite app_nil_r in He. unfold strip_sql_comments_and_literals_with_metadata. fold (scan detect true Code None (render l)).
  rewrite He. unfold after_items. simpl. by rewrite app_nil_r.
Qed.

(** The scan that removes comments and literals from a statement before the
    read-only check looks at it leaves exactly the erasure of the text: for every
    text of plain characters, quoted strings and identifiers and comments, each
    plain character stays, each quoted item becomes blanks (a doubled quote is one
    character of it) and each comment one blank.  The flag that an executable
    MySQL comment was met is set exactly if one was and it is looked for. *)
Theorem strip_is_erasure `{UnicodeTables} l detect : scan_items [] l = true ->
  strip_sql_comments_and_literals_with_metadata (render l) detect true =
  (erase None l, detect && existsb executable_comment l).
Proof. apply scan_is_erase. Qed.


(** ** [EXPLAIN] *)

Lemma split_on_not_nil sep s : split_on sep s <> [].
Proof. destruct s as [|c s]; simpl; [done|]. repeat case_match; done. Qed.

(** A character that is no separator is in one of the pieces. *)
Lemma split_on_elem sep s c : c ∈ s -> c <> sep -> exists piece, piece ∈ split_on sep s /\ c ∈ piece.
Proof.
  intros Hc Hne. induction s as [|d s IH]; [by apply not_elem_of_nil in Hc|]. simpl. apply elem_of_cons in Hc as [<-|Hc].
  - destruct (Z.eqb_spec c sep); [done|]. destruct (split_on sep s); eexists; (split; [left|left]).
  - destruct (IH Hc) as (piece & Hp & Hin). destruct (d =? sep)%Z; [exists piece; split; [by right|done]|].
    destruct (split_on sep s) as [|first others]; [by apply not_elem_of_nil in Hp|].
    apply elem_of_cons in Hp as [->|Hp]; [exists (d :: first); split; [left|by right]|exists piece; split; [by right|done]].
Qed.

Lemma solid_not_blank c (s : text) : c ∈ s -> is_whitespace c = false -> trim_chars s <> [].
Proof.
  intros Hc Hs Ht. destruct (trim_chars_start_suffix s) as (ws & Hw & Hws).
  assert (c ∈ trim_chars_start s) as Hc'.
  { rewrite Hw in Hc. apply elem_of_app in Hc as [Hc|Hc]; [|done]. rewrite Forall_forall in Hws. by rewrite Hws in Hs. }
  destruct (trim_chars_end_prefix (trim_chars_start s)) as (ws' & Hw' & Hws'). fold (trim_chars s) in Hw'.
  rewrite Ht in Hw'. simpl in Hw'. rewrite Hw' in Hc'. rewrite Forall_forall in Hws'. by rewrite Hws' in Hs.
Qed.

Lemma erase_app_plain o l c l' : erase o (l ++ Plain c :: l') = erase o l ++ c :: erase None l'.
Proof. revert o. induction l as [|[] l IH]; intros o; simpl; rewrite ?IH, ?app_assoc; done. Qed.

Lemma second_statement_is_found `{UnicodeTables} l l' c : scan_items [] (l ++ Plain c_semicolon :: l') = true ->
  c ∈ erase None l' -> c <> c_semicolon -> is_whitespace c = false ->
  has_extra_statement_after_semicolon (render (l ++ Plain c_semicolon :: l')) = true.
Proof.
  intros Hl Hc Hne Hs. unfold has_extra_statement_after_semicolon.
  assert (strip_sql_comments_and_literals (render (l ++ Plain c_semicolon :: l')) = erase None l ++ c_semicolon :: erase None l') as ->.
  { unfold strip_sql_comments_and_literals. by rewrite scan_is_erase, erase_app_plain. }
  rewrite split_on_app. destruct (split_on_elem c_semicolon (erase None l') c Hc Hne) as (piece & Hp & Hin).
  apply existsb_exists. exists piece. split.
  - apply list_elem_of_In. pose proof (split_on_not_nil c_semicolon (erase None l)). destruct (split_on _ (erase None l)); [done|].
    simpl. apply elem_of_app. by right.
  - rewrite bool_decide_eq_false_2; [done|]. by eapply solid_not_blank.
Qed.

(** [EXPLAIN] is never built for a text with a write verb in its code, nor for
    one with code after a semicolon, once the blanks and semicolons at its end are
    gone: the result is the error [unsafe], for every
    database that has a plan strategy but Oracle, whose plans of single DML
    statements are not run, and Db2, whose text is read by the tokenizer. *)
Theorem explain_refuses_writes `{UnicodeTables, UnicodeCase, !UnicodeCaseLaws, SqlTokenizer, SqlparserLexers, JsonParser} o source :
  o.(database_type) <> Some DatabaseType.Oracle -> o.(database_type) <> Some DatabaseType.Db2 ->
  supports_explain_plan o.(database_type) = true ->
  strip_trailing_semicolons (trim_chars o.(explain_sql)) = source -> strip_trailing_semicolons (trim_chars source) = source ->
  (exists l v rest, source = render l ++ v ++ rest /\ scan_items [] l = true /\ ascii_lower v ∈ write_phrases /\
     boundary (last (erase None l)) = true /\ boundary (head rest) = true) \/
  (exists l l' c, source = render (l ++ Plain c_semicolon :: l') /\ scan_items [] (l ++ Plain c_semicolon :: l') = true /\
     c ∈ erase None l' /\ c <> c_semicolon /\ is_whitespace c = false) ->
  build_explain_sql o = Some (mkBuild false None (Some (txt "unsafe"))).
Proof.
  intros Hora Hdb2 Hsup Hsource Hagain Hcase.
  assert (Hne : source <> []).
  { destruct Hcase as [(l & v & rest & -> & _ & Hv & _)|(l & l' & c & -> & _)].
    - apply phrase_not_nil in Hv. destruct v; [done|]. by destruct (render l).
    - unfold render. rewrite flat_map_app. simpl. by destruct (flat_map _ l). }
  assert (Hsafe : is_safe_explain_sql_for_database source o.(database_type) = false).
  { unfold is_safe_explain_sql_for_database. rewrite bool_decide_eq_false_2, Hagain, bool_decide_eq_false_2 by done.
    destruct Hcase as [(l & v & rest & -> & Hl & Hv & Hb & Hr)|(l & l' & c & -> & Hl & Hc & Hn & Hs)].
    - rewrite (bool_decide_eq_false_2 (o.(database_type) = Some DatabaseType.Oracle)), phrase_is_dangerous by done.
      rewrite andb_false_r. by case_match.
    - by rewrite (second_statement_is_found l l' c) by done. }
  unfold build_explain_sql. unfold supports_explain_plan in Hsup. apply bool_decide_eq_true in Hsup as [strategy ->].
  unfold build_explain_sql_with_strategy. rewrite Hsource, bool_decide_eq_false_2, bool_decide_eq_false_2, Hsafe by done. done.
Qed.

(** ** Concrete runs *)

(** ASCII tables, and a tokenizer whose tokens are the words of the text without
    its literals. *)
Module Runs.

#[local] Instance ascii_tables : UnicodeTables := {| is_alphanumeric := is_ascii_alphanumeric |}.
#[local] Instance ascii_case : UnicodeCase := {| to_lowercase := map to_ascii_lowercase; to_uppercase := map to_ascii_uppercase |}.
#[local] Instance no_tokens : SqlTokenizer := {| tokenize := fun _ => None |}.
#[local] Instance no_json : JsonParser := {| json_from_str := fun _ => None |}.

Definition words (s : text) : list SqlparserToken :=
  map (fun w => TWord w false) (nonempty_pieces (split_pred (fun c => negb (is_word_byte c)) (strip_sql_comments_and_literals_keeping_hash s))).

#[local] Instance word_lexer : SqlparserLexers :=
  {| tokenize_for := fun _ s => Some (words s); tokenize_generic_verbatim := fun _ => None |}.

Lemma ascii_case_laws : UnicodeCaseLaws.
Proof.
  split; intros x a b _.
  - exists (map to_ascii_lowercase x), (map to_ascii_lowercase b). split_and!; [by rewrite <- !map_app|by intros ->|by intros ->].
  - exists (map to_ascii_uppercase x), (map to_ascii_uppercase b). split_and!; [by rewrite <- !map_app|by intros ->|by intros ->].
Qed.

Definition plain (s : string) : list item := map Plain (txt s).

(** Quotes, doubled quotes and comments with verbs in them. *)
Definition sample : list item :=
  plain "SELECT " ++ [Quoted c_quote (txt "it"); Quoted c_quote (txt "s; DROP t")] ++ plain " FROM a " ++
  [BlockComment (txt "! DELETE * "); LineComment (txt " 'x")] ++ plain "WHERE b".

Lemma strip_is_erasure_witness : scan_items [] sample = true /\
  strip_sql_comments_and_literals_with_metadata (txt "SELECT 'it''s; DROP t' FROM a /*! DELETE * */-- 'x" ++ [10%Z] ++ txt "WHERE b") true true =
  (txt "SELECT                FROM a   WHERE b", true).
Proof. split; [vm_compute; reflexivity|]. exact (strip_is_erasure sample true eq_refl). Defined.


Lemma explain_refuses_writes_witness :
  build_explain_sql (mkExplain (Some DatabaseType.Mysql) None None (txt " SELECT 1; CALL p(); ")) =
  Some (mkBuild false None (Some (txt "unsafe"))).
Proof.
  pose proof ascii_case_laws as Hlaws.
  apply (explain_refuses_writes (mkExplain (Some DatabaseType.Mysql) None None (txt " SELECT 1; CALL p(); ")) (txt "SELECT 1; CALL p()"));
    try done; try (vm_compute; reflexivity).
  right. exists (plain "SELECT 1"), (plain " CALL p()"), 67%Z. split_and!; try (vm_compute; reflexivity); try done.
  compute_done.
Defined.

(** What the scan takes for a comment or a literal is not always one for the
    database.  [#] starts a comment for every dialect: on SQL Server, [#t] is a
    temporary table, and the [DELETE] after it is not seen. *)
Example hash_hides_a_write : check_read_only (txt "WITH a AS (SELECT * FROM #t) DELETE FROM a") [] DatabaseType.SqlServer = Ok tt.
Proof. vm_compute. reflexivity. Qed.

(** On PostgreSQL, [#] is the operator of bitwise exclusive or. *)
Example hash_operator_hides_a_write :
  check_read_only (txt "WITH a AS (SELECT 1 # 2), b AS (DELETE FROM t RETURNING *) SELECT * FROM b") [] DatabaseType.Postgres = Ok tt.
Proof. vm_compute. reflexivity. Qed.

(** MySQL reads [5--1] as a subtraction, and writes the file. *)
Example dashes_hide_a_write : check_read_only (txt "SELECT 5--1 INTO OUTFILE '/tmp/x'") [] DatabaseType.Mysql = Ok tt.
Proof. vm_compute. reflexivity. Qed.

(** A backslash does not escape a quote for the scan, as it does for MySQL. *)
Example backslash_hides_a_write : check_read_only (txt "SELECT 'a\'', 'b' INTO OUTFILE '/tmp/x'") [] DatabaseType.Mysql = Ok tt.
Proof. vm_compute. reflexivity. Qed.

(** The character after an alternative-quoted literal is dropped with it: with the
    semicolon, the second statement is not seen. *)
Example quote_swallows_a_semicolon : is_safe_explain_sql (txt "SELECT q'[a]';CALL p()") = true.
Proof. vm_compute. reflexivity. Qed.

End Runs.
