(* ===== verification/SqlRisk.v ===== *)
(** * Risk of SQL statements

    [crates/dbx-sql-core/src/sql_risk.rs]: which statements read, write, define or
    control transactions, which of them an agent needs the permission for dangerous
    operations for, and the proof that a statement only reads.  The statements are
    syntax trees of the sqlparser crate; of a tree, the model has the nodes and
    fields the code looks at, and opaque data for the rest.  The parser, the visitor
    over trees and the derived order of expressions are arguments. *)

From S2P Require Import Prelude Json Utf8 Float64 Cypher SqlDialect SqlLex SqlBlocks SqlScanner SqlRanges SqlFileImport SqlSplitter.
From S2P Require Import QueryExecutionSql.
From Stdlib Require Import SpecFloat.

(** ** Syntax trees *)

(** What the code does not look at. *)
Notation opaque := text (only parsing).

Record Ident : Type := mkIdent { ident_value : text; quote_style : option Z }.

Inductive Value : Type :=
| Number (digits : text) (long : bool)
| SingleQuotedString (s : text)
| Boolean (b : bool)
| Null
| OtherValue (o : opaque).

Inductive UnaryOperator : Type := Not | OtherUnary (o : opaque).

Inductive BinaryOperator : Type :=
| And | Or | Eq | NotEq | Gt | Lt | GtEq | LtEq | Spaceship
| OtherBinary (o : opaque).

(** A call: the parts of its name that are identifiers, whether it has a window,
    its arguments and the rest. *)
Record FunctionCall : Type := mkFunction { function_name : list (option Ident); over : bool; function_rest : opaque }.

Inductive Expr : Type :=
| Identifier (i : Ident)
| CompoundIdentifier (parts : list Ident)
| Nested (e : Expr)
| EValue (v : Value)
| UnaryOp (op : UnaryOperator) (e : Expr)
| BinaryOp (lhs : Expr) (op : BinaryOperator) (rhs : Expr)
| IsNotDistinctFrom (lhs rhs : Expr)
| IsDistinctFrom (lhs rhs : Expr)
| IsTrue (e : Expr)
| IsNotTrue (e : Expr)
| IsFalse (e : Expr)
| IsNotFalse (e : Expr)
| IsNull (e : Expr)
| IsNotNull (e : Expr)
| Like (negated any : bool) (e pattern : Expr) (escape_char : option opaque)
| ILike (negated any : bool) (e pattern : Expr) (escape_char : option opaque)
| InList (e : Expr) (l : list Expr) (negated : bool)
| Between (e : Expr) (negated : bool) (low high : Expr)
| InSubquery (o : opaque)
| Exists (o : opaque)
| Subquery (o : opaque)
| Function (f : FunctionCall)
| OtherExpr (o : opaque).

#[export] Instance Ident_eq_dec : EqDecision Ident.
Proof. solve_decision. Defined.
#[export] Instance Value_eq_dec : EqDecision Value.
Proof. solve_decision. Defined.
#[export] Instance UnaryOperator_eq_dec : EqDecision UnaryOperator.
Proof. solve_decision. Defined.
#[export] Instance BinaryOperator_eq_dec : EqDecision BinaryOperator.
Proof. solve_decision. Defined.
#[export] Instance FunctionCall_eq_dec : EqDecision FunctionCall.
Proof. solve_decision. Defined.

(** The derived [PartialEq]. *)
Fixpoint expr_eq_dec (a b : Expr) {struct a} : {a = b} + {a <> b}.
Proof. decide equality; try apply (List.list_eq_dec expr_eq_dec); try (by apply decide; apply _). Defined.
#[export] Instance Expr_eq_dec : EqDecision Expr := expr_eq_dec.

Inductive SqliteOnConflict : Type := ConflictReplace | ConflictOther (o : opaque).
Inductive OnConflictAction : Type := DoNothing | DoUpdate (o : opaque).
Inductive OnInsert : Type := DuplicateKeyUpdate (o : opaque) | OnConflict (action : OnConflictAction) | OtherOnInsert (o : opaque).

(** The statements of which the code asks only which they are. *)
Inductive ShowStatement : Type :=
| ShowTables | ShowColumns | ShowCatalogs | ShowDatabases | ShowSchemas | ShowViews | ShowFunctions | ShowCreate
| ShowVariable | ShowVariables | ShowStatus | ShowProcessList | ShowCharset | ShowObjects | ShowCollation.

Inductive DdlStatement : Type :=
| CreateTable | CreateView | CreateIndex | CreateSchema | CreateSequence | CreateRole | CreateType | AlterTable
| AlterIndex | AlterView | Drop | Truncate | Grant | Revoke.

Inductive TransactionStatement : Type := StartTransaction | Commit | Rollback.

(** Tables with joins: whether there are joins. *)
Record TableWithJoins : Type := mkTable { joins : bool; table_rest : opaque }.

(** Queries, their bodies and statements.  A query has its common table
    expressions, its body and whether it locks rows; [Select] has whether it has an
    [INTO]. *)
Inductive Query : Type :=
| mkQuery (cte_tables : list Query) (body : SetExpr) (locks : bool) (query_rest : opaque)
with SetExpr : Type :=
| Select (into : bool) (o : opaque)
| SQuery (q : Query)
| SetOperation (lhs rhs : SetExpr)
| SInsert (s : Statement) | SUpdate (s : Statement) | SDelete (s : Statement) | SMerge (s : Statement)
| Values (o : opaque) | STable (o : opaque)
with Statement : Type :=
| StQuery (q : Query)
| Explain (analyze : bool) (s : Statement)
| ExplainTable
| Show (s : ShowStatement)
| Insert (replace_into overwrite : bool) (or : option SqliteOnConflict) (on : option OnInsert) (source : option Query)
| Update (table : TableWithJoins) (from : bool) (or : option SqliteOnConflict) (selection : option Expr)
| Delete (tables : bool) (from : list TableWithJoins) (has_using : bool) (selection : option Expr)
| Merge
| Ddl (s : DdlStatement)
| TransactionControl (s : TransactionStatement)
| Copy | Pragma
| Use
| OtherStatement (o : opaque).

Definition query_body (q : Query) : SetExpr := let 'mkQuery _ body _ _ := q in body.

(** A node a [Visitor] is shown: an expression, or a table and whether it has
    arguments. *)
Inductive visited_node : Type := VisitExpr (e : Expr) | VisitTable (args : bool).

(** [visit_expressions] on an expression and on a query, the full walk of a query,
    and the derived [Ord]: the nodes in the order in which they are shown. *)
Class AstVisitor : Type := {
  expr_expressions : Expr -> list Expr;
  query_expressions : Query -> list Expr;
  query_nodes : Query -> list visited_node;
  expr_leb : Expr -> Expr -> bool
}.

(** [Parser::parse_sql]. *)
Class SqlparserParser : Type := { parse_sql : Dialect -> text -> option (list Statement) }.

(** ** Risk levels *)

Inductive SqlRisk : Type := ReadOnly | Write | DdlRisk | Transaction.

#[export] Instance SqlRisk_eq_dec : EqDecision SqlRisk.
Proof. solve_decision. Defined.

(** [risk as u8]. *)
Definition risk_rank (r : SqlRisk) : nat := match r with ReadOnly => 0 | Write => 1 | DdlRisk => 2 | Transaction => 3 end.

(** [Display]. *)
Definition risk_name (r : SqlRisk) : text :=
  txt (match r with ReadOnly => "read-only" | Write => "write" | DdlRisk => "DDL" | Transaction => "transaction" end).

(** [normalize_dialect] and [resolve_dialect]. *)
Definition normalize_dialect (dialect : text) : Dialect :=
  let d := ascii_lower dialect in
  if one_of d ["postgres"; "postgresql"; "redshift"; "opengauss"; "gaussdb"; "kingbase"; "highgo"; "uxdb"; "vastbase"; "kwdb"]%string
  then PostgreSqlDialect
  else if one_of d ["mysql"; "mariadb"; "doris"; "starrocks"; "manticoresearch"; "oceanbase"]%string then MySqlDialect
  else if one_of d ["sqlite"]%string then SQLiteDialect
  else if one_of d ["sqlserver"; "mssql"]%string then MsSqlDialect
  else if one_of d ["clickhouse"]%string then ClickHouseDialect
  else if one_of d ["duckdb"]%string then DuckDbDialect
  else GenericDialect.

(** The derived [Debug]. *)
Definition debug_name (d : DatabaseType.t) : text :=
  txt match d with
  | DatabaseType.Mysql => "Mysql" | DatabaseType.Postgres => "Postgres" | DatabaseType.Sqlite => "Sqlite"
  | DatabaseType.Rqlite => "Rqlite" | DatabaseType.Turso => "Turso" | DatabaseType.CloudflareD1 => "CloudflareD1"
  | DatabaseType.Redis => "Redis" | DatabaseType.DuckDb => "DuckDb" | DatabaseType.ClickHouse => "ClickHouse"
  | DatabaseType.SqlServer => "SqlServer" | DatabaseType.MongoDb => "MongoDb" | DatabaseType.DynamoDb => "DynamoDb"
  | DatabaseType.Oracle => "Oracle" | DatabaseType.Elasticsearch => "Elasticsearch"
  | DatabaseType.Easysearch => "Easysearch" | DatabaseType.Meilisearch => "Meilisearch" | DatabaseType.Solr => "Solr"
  | DatabaseType.CouchDb => "CouchDb" | DatabaseType.Hbase => "Hbase" | DatabaseType.Qdrant => "Qdrant"
  | DatabaseType.ChromaDb => "ChromaDb" | DatabaseType.Milvus => "Milvus" | DatabaseType.Weaviate => "Weaviate"
  | DatabaseType.Doris => "Doris" | DatabaseType.StarRocks => "StarRocks"
  | DatabaseType.ManticoreSearch => "ManticoreSearch" | DatabaseType.Redshift => "Redshift"
  | DatabaseType.Dameng => "Dameng" | DatabaseType.Kingbase => "Kingbase" | DatabaseType.Highgo => "Highgo"
  | DatabaseType.Uxdb => "Uxdb" | DatabaseType.Vastbase => "Vastbase" | DatabaseType.Goldendb => "Goldendb"
  | DatabaseType.Databend => "Databend" | DatabaseType.Gaussdb => "Gaussdb" | DatabaseType.Kwdb => "Kwdb"
  | DatabaseType.Yashandb => "Yashandb" | DatabaseType.Databricks => "Databricks" | DatabaseType.SapHana => "SapHana"
  | DatabaseType.Teradata => "Teradata" | DatabaseType.Vertica => "Vertica" | DatabaseType.Firebird => "Firebird"
  | DatabaseType.Exasol => "Exasol" | DatabaseType.OpenGauss => "OpenGauss" | DatabaseType.Questdb => "Questdb"
  | DatabaseType.OceanbaseOracle => "OceanbaseOracle" | DatabaseType.Gbase => "Gbase"
  | DatabaseType.Gbase8s => "Gbase8s" | DatabaseType.Gbase8c => "Gbase8c" | DatabaseType.Access => "Access"
  | DatabaseType.H2 => "H2" | DatabaseType.Snowflake => "Snowflake" | DatabaseType.Trino => "Trino"
  | DatabaseType.PrestoSql => "PrestoSql" | DatabaseType.Hive => "Hive" | DatabaseType.Argo => "Argo"
  | DatabaseType.Transwarp => "Transwarp" | DatabaseType.Kyuubi => "Kyuubi" | DatabaseType.Impala => "Impala"
  | DatabaseType.Db2 => "Db2" | DatabaseType.Informix => "Informix" | DatabaseType.Neo4j => "Neo4j"
  | DatabaseType.Nebula => "Nebula" | DatabaseType.Cassandra => "Cassandra" | DatabaseType.Bigquery => "Bigquery"
  | DatabaseType.Spanner => "Spanner" | DatabaseType.Kylin => "Kylin" | DatabaseType.Ignite => "Ignite"
  | DatabaseType.Ignite3 => "Ignite3" | DatabaseType.Sundb => "Sundb" | DatabaseType.Oscar => "Oscar"
  | DatabaseType.Tdengine => "Tdengine" | DatabaseType.Xugu => "Xugu" | DatabaseType.Etcd => "Etcd"
  | DatabaseType.ZooKeeper => "ZooKeeper" | DatabaseType.Nacos => "Nacos" | DatabaseType.Consul => "Consul"
  | DatabaseType.MessageQueue => "MessageQueue" | DatabaseType.Mqtt => "Mqtt" | DatabaseType.Iotdb => "Iotdb"
  | DatabaseType.Iris => "Iris" | DatabaseType.InfluxDb => "InfluxDb" | DatabaseType.InfluxDb3 => "InfluxDb3"
  | DatabaseType.VictoriaMetrics => "VictoriaMetrics" | DatabaseType.Jdbc => "Jdbc" | DatabaseType.Spark => "Spark"
  | DatabaseType.Plugin => "Plugin" | DatabaseType.Salesforce => "Salesforce" | DatabaseType.Odbc => "Odbc"
  end.

(** ** Predicates *)

Fixpoint strip_nested_expr (e : Expr) : Expr := match e with Nested e => strip_nested_expr e | _ => e end.

Definition SQL_VALUE_KEYWORDS : list string :=
  ["current_catalog"; "current_date"; "current_role"; "current_schema"; "current_time"; "current_timestamp"; "current_user";
   "localtime"; "localtimestamp"; "session_user"; "system_user"; "user"]%string.

Definition is_sql_value_keyword (value : text) : bool := one_of (ascii_lower value) SQL_VALUE_KEYWORDS.

Definition value_is_truthy (v : Value) : bool :=
  match v with
  | Boolean b => b
  | Number s _ => match parse_f64 s with Some x => negb (is_zero x) | None => false end
  | _ => false
  end.

Definition value_is_falsy (v : Value) : bool :=
  match v with
  | Boolean b => negb b
  | Number s _ => match parse_f64 s with Some x => is_zero x | None => false end
  | Null => true
  | _ => false
  end.

Definition is_comparison_operator (op : BinaryOperator) : bool :=
  match op with Eq | NotEq | Gt | Lt | GtEq | LtEq | Spaceship => true | _ => false end.

Definition constant_comparison_truth (lhs : Expr) (op : BinaryOperator) (rhs : Expr) : option bool :=
  match lhs, rhs with
  | EValue a, EValue b =>
    let numbers (test : f64 -> f64 -> bool) :=
      match a, b with
      | Number x _, Number y _ => x ← parse_f64 x; y ← parse_f64 y; Some (test x y)
      | _, _ => None
      end in
    match op with
    | Eq | Spaceship => Some (bool_decide (a = b))
    | NotEq => Some (negb (bool_decide (a = b)))
    | Gt => numbers (fun x y => SFltb y x)
    | Lt => numbers SFltb
    | GtEq => numbers (fun x y => SFleb y x)
    | LtEq => numbers SFleb
    | _ => None
    end
  | _, _ => None
  end.

Definition like_pattern_matches_all (e : Expr) : bool :=
  match strip_nested_expr e with
  | EValue (SingleQuotedString pattern) => negb (bool_decide (pattern = [])) && forallb (fun c => c =? 37)%Z pattern
  | _ => false
  end.

(** Two checks of a list, the first before the second. *)
Fixpoint any_pair {A} (test : A -> A -> bool) (l : list A) : bool :=
  match l with [] => false | a :: l' => existsb (test a) l' || any_pair test l' end.

(** The checks of the branches of a disjunction; the four [collect_or_...] are this
    function on their checks. *)
Fixpoint collect_or {A} (check : Expr -> option A) (e : Expr) : list A :=
  match e with
  | Nested e => collect_or check e
  | BinaryOp lhs Or rhs => collect_or check lhs ++ collect_or check rhs
  | _ => option_list (check e)
  end.

(** [x IS NULL] is [(x, false)]. *)
Fixpoint null_check_with_negation (outer_negated : bool) (e : Expr) : option (Expr * bool) :=
  match e with
  | Nested e => null_check_with_negation outer_negated e
  | UnaryOp Not e => null_check_with_negation (negb outer_negated) e
  | IsNull e => Some (strip_nested_expr e, outer_negated)
  | IsNotNull e => Some (strip_nested_expr e, negb outer_negated)
  | _ => None
  end.
Definition null_check (e : Expr) : option (Expr * bool) := null_check_with_negation false e.

Definition collect_or_null_checks : Expr -> list (Expr * bool) := collect_or null_check.

Definition or_contains_complementary_null_checks (e : Expr) : bool :=
  any_pair (fun a b => bool_decide (a.1 = b.1) && negb (Bool.eqb a.2 b.2)) (collect_or_null_checks e).

Inductive PredicateComparisonOperator : Type := PEq | PNotEq | PGt | PGtEq | PLt | PLtEq.

#[export] Instance PredicateComparisonOperator_eq_dec : EqDecision PredicateComparisonOperator.
Proof. solve_decision. Defined.

Definition predicate_comparison_operator (op : BinaryOperator) : option PredicateComparisonOperator :=
  match op with
  | Eq | Spaceship => Some PEq
  | NotEq => Some PNotEq
  | Gt => Some PGt
  | GtEq => Some PGtEq
  | Lt => Some PLt
  | LtEq => Some PLtEq
  | _ => None
  end.

Definition complementary_comparison_operator (op : PredicateComparisonOperator) : PredicateComparisonOperator :=
  match op with PEq => PNotEq | PNotEq => PEq | PGt => PLtEq | PGtEq => PLt | PLt => PGtEq | PLtEq => PGt end.

Definition reverse_comparison_operator (op : PredicateComparisonOperator) : PredicateComparisonOperator :=
  match op with PEq | PNotEq => op | PGt => PLt | PGtEq => PLtEq | PLt => PGt | PLtEq => PGtEq end.

Definition comparison_operators_are_complementary (a b : PredicateComparisonOperator) : bool :=
  bool_decide (complementary_comparison_operator a = b).

Record PredicateComparisonCheck : Type := mkComparison {
  cmp_left : Expr; cmp_right : Expr; cmp_operator : PredicateComparisonOperator }.
Record PredicateInListCheck : Type := mkInList { in_expr : Expr; in_list : list Expr; in_negated : bool }.
Record PredicateBetweenCheck : Type := mkBetween { btw_expr : Expr; btw_low : Expr; btw_high : Expr; btw_negated : bool }.

(** [sort_unstable] and [dedup]. *)
Fixpoint insert_sorted (le : Expr -> Expr -> bool) (e : Expr) (l : list Expr) : list Expr :=
  match l with [] => [e] | d :: l' => if le e d then e :: l else d :: insert_sorted le e l' end.
Definition sort_exprs (le : Expr -> Expr -> bool) (l : list Expr) : list Expr := foldr (insert_sorted le) [] l.

Fixpoint dedup (l : list Expr) : list Expr :=
  match l with
  | a :: l' =>
    match dedup l' with
    | b :: l'' => if decide (a = b) then b :: l'' else a :: b :: l''
    | [] => [a]
    end
  | [] => []
  end.

Section Predicates.
Context `{AstVisitor}.

Definition expr_contains_column_reference (e : Expr) : bool :=
  existsb (fun e => match e with
                    | Identifier i => negb (is_sql_value_keyword i.(ident_value))
                    | CompoundIdentifier _ => true
                    | _ => false
                    end) (expr_expressions e).

Definition expr_contains_subquery (e : Expr) : bool :=
  existsb (fun e => match e with InSubquery _ | Exists _ | Subquery _ => true | _ => false end) (expr_expressions e).

(** [e] is the comparison itself, under negations and parentheses. *)
Fixpoint comparison_check (outer_negated : bool) (e : Expr) : option PredicateComparisonCheck :=
  match e with
  | Nested e => comparison_check outer_negated e
  | UnaryOp Not e => comparison_check (negb outer_negated) e
  | BinaryOp lhs op rhs =>
    if negb (expr_contains_column_reference e) then None
    else
      operator ← predicate_comparison_operator op;
      let operator := if outer_negated then complementary_comparison_operator operator else operator in
      let lhs := strip_nested_expr lhs in
      let rhs := strip_nested_expr rhs in
      Some (if expr_leb lhs rhs then mkComparison lhs rhs operator
            else mkComparison rhs lhs (reverse_comparison_operator operator))
  | _ => None
  end.

Definition collect_or_comparison_checks : Expr -> list PredicateComparisonCheck := collect_or (comparison_check false).

Definition or_contains_complementary_comparisons (e : Expr) : bool :=
  any_pair (fun a b => bool_decide (a.(cmp_left) = b.(cmp_left)) && bool_decide (a.(cmp_right) = b.(cmp_right))
                       && comparison_operators_are_complementary a.(cmp_operator) b.(cmp_operator))
    (collect_or_comparison_checks e).

Definition is_value (e : Expr) : bool := match e with EValue _ => true | _ => false end.

Fixpoint in_list_check (outer_negated : bool) (e : Expr) : option PredicateInListCheck :=
  match e with
  | Nested e => in_list_check outer_negated e
  | UnaryOp Not e => in_list_check (negb outer_negated) e
  | InList e l negated =>
    if expr_contains_column_reference e && negb (bool_decide (l = [])) then
      let normalized_list := map strip_nested_expr l in
      let normalized_list := if forallb (fun item => is_value (strip_nested_expr item)) normalized_list
                             then dedup (sort_exprs expr_leb normalized_list) else normalized_list in
      Some (mkInList (strip_nested_expr e) normalized_list (negb (Bool.eqb negated outer_negated)))
    else None
  | _ => None
  end.

Definition collect_or_in_list_checks : Expr -> list PredicateInListCheck := collect_or (in_list_check false).

Definition or_contains_complementary_in_lists (e : Expr) : bool :=
  any_pair (fun a b => bool_decide (a.(in_expr) = b.(in_expr)) && bool_decide (a.(in_list) = b.(in_list))
                       && negb (Bool.eqb a.(in_negated) b.(in_negated)))
    (collect_or_in_list_checks e).

Fixpoint between_check (outer_negated : bool) (e : Expr) : option PredicateBetweenCheck :=
  match e with
  | Nested e => between_check outer_negated e
  | UnaryOp Not e => between_check (negb outer_negated) e
  | Between e negated low high =>
    if expr_contains_column_reference e
    then Some (mkBetween (strip_nested_expr e) (strip_nested_expr low) (strip_nested_expr high) (negb (Bool.eqb negated outer_negated)))
    else None
  | _ => None
  end.

Definition collect_or_between_checks : Expr -> list PredicateBetweenCheck := collect_or (between_check false).

Definition or_contains_complementary_between_checks (e : Expr) : bool :=
  any_pair (fun a b => bool_decide (a.(btw_expr) = b.(btw_expr)) && bool_decide (a.(btw_low) = b.(btw_low))
                       && bool_decide (a.(btw_high) = b.(btw_high)) && negb (Bool.eqb a.(btw_negated) b.(btw_negated)))
    (collect_or_between_checks e).

Fixpoint or_contains_conjunctive_branch (e : Expr) : bool :=
  match e with
  | Nested e => or_contains_conjunctive_branch e
  | BinaryOp lhs Or rhs => or_contains_conjunctive_branch lhs || or_contains_conjunctive_branch rhs
  | BinaryOp _ And _ => true
  | _ => false
  end.

Fixpoint predicate_is_obviously_unbounded (e : Expr) : bool :=
  if expr_contains_subquery e then true
  else if negb (expr_contains_column_reference e) then true
  else match e with
  | Nested e => predicate_is_obviously_unbounded e
  | EValue v => value_is_truthy v
  | UnaryOp Not e => predicate_is_obviously_false e
  | BinaryOp lhs And rhs => predicate_is_obviously_unbounded lhs && predicate_is_obviously_unbounded rhs
  | BinaryOp lhs Or rhs =>
    or_contains_conjunctive_branch e || or_contains_complementary_null_checks e || or_contains_complementary_comparisons e
    || or_contains_complementary_in_lists e || or_contains_complementary_between_checks e
    || predicate_is_obviously_unbounded lhs || predicate_is_obviously_unbounded rhs
  | BinaryOp lhs op rhs =>
    if is_comparison_operator op
    then match constant_comparison_truth lhs op rhs with
         | Some truth => truth
         | None => bool_decide (lhs = rhs) && bool_decide (op ∈ [Eq; GtEq; LtEq; Spaceship])
         end
    else false
  | IsNotDistinctFrom lhs rhs => bool_decide (strip_nested_expr lhs = strip_nested_expr rhs)
  | IsTrue e | IsNotFalse e => predicate_is_obviously_unbounded e
  | Like false false e pattern None | ILike false false e pattern None =>
    expr_contains_column_reference e && like_pattern_matches_all pattern
  | _ => false
  end
with predicate_is_obviously_false (e : Expr) : bool :=
  match e with
  | Nested e => predicate_is_obviously_false e
  | EValue v => value_is_falsy v
  | UnaryOp Not e => predicate_is_obviously_unbounded e
  | BinaryOp lhs And rhs => predicate_is_obviously_false lhs || predicate_is_obviously_false rhs
  | BinaryOp lhs Or rhs => predicate_is_obviously_false lhs && predicate_is_obviously_false rhs
  | BinaryOp lhs op rhs =>
    if is_comparison_operator op
    then match constant_comparison_truth lhs op rhs with Some truth => negb truth | None => false end
         || (bool_decide (lhs = rhs) && bool_decide (op ∈ [NotEq; Gt; Lt]))
    else false
  | IsDistinctFrom lhs rhs => bool_decide (strip_nested_expr lhs = strip_nested_expr rhs)
  | IsFalse e | IsNotTrue e => predicate_is_obviously_unbounded e
  | _ => false
  end.

(** ** Statements *)

Definition SIDE_EFFECT_SELECT_FUNCTIONS : list string :=
  ["lo_create"; "lo_import"; "lo_unlink"; "nextval"; "pg_advisory_lock"; "pg_advisory_unlock";
   "pg_advisory_unlock_all"; "pg_advisory_xact_lock"; "pg_cancel_backend"; "pg_reload_conf"; "pg_terminate_backend";
   "pg_try_advisory_lock"; "pg_try_advisory_xact_lock"; "setval"; "sys_cancel_backend"]%string.

(** The last part of the name is the identifier. *)
Definition last_identifier (name : list (option Ident)) : option Ident := mjoin (last name).

Definition named (i : Ident) (l : list string) : bool := existsb (fun c => eq_ignore_ascii_case i.(ident_value) (txt c)) l.

Definition query_calls_known_side_effect_function (q : Query) : bool :=
  existsb (fun e => match e with
                    | Function f => match last_identifier f.(function_name) with
                                    | Some name => named name SIDE_EFFECT_SELECT_FUNCTIONS
                                    | None => false
                                    end
                    | _ => false
                    end) (query_expressions q).

Fixpoint query_is_write_capable (detect_select_into : bool) (q : Query) : bool :=
  match q with
  | mkQuery cte_tables body locks _ =>
    existsb (query_is_write_capable detect_select_into) cte_tables || set_expr_is_write_capable detect_select_into body
    || locks || query_calls_known_side_effect_function q
  end
with set_expr_is_write_capable (detect_select_into : bool) (e : SetExpr) : bool :=
  match e with
  | Select into _ => detect_select_into && into
  | SQuery q => query_is_write_capable detect_select_into q
  | SetOperation lhs rhs => set_expr_is_write_capable detect_select_into lhs || set_expr_is_write_capable detect_select_into rhs
  | SInsert _ | SUpdate _ | SDelete _ | SMerge _ => true
  | Values _ | STable _ => false
  end.

Definition is_show_read_only_statement (s : Statement) : bool := match s with Show _ => true | _ => false end.

Fixpoint classify_statement (detect_select_into : bool) (s : Statement) : SqlRisk :=
  match s with
  | StQuery q => if query_is_write_capable detect_select_into q then Write else ReadOnly
  | Explain analyze s => if analyze then classify_statement detect_select_into s else ReadOnly
  | ExplainTable => ReadOnly
  | Show _ => ReadOnly
  | Insert _ _ _ _ _ | Update _ _ _ _ | Delete _ _ _ _ | Merge => Write
  | Ddl _ => DdlRisk
  | TransactionControl _ => Transaction
  | Copy | Pragma => Write
  | Use | OtherStatement _ => Write
  end.

Definition unbounded_selection (selection : option Expr) : bool :=
  match selection with Some e => predicate_is_obviously_unbounded e | None => true end.

Definition is_conflict_replace (or : option SqliteOnConflict) : bool :=
  match or with Some ConflictReplace => true | _ => false end.

Fixpoint query_is_dangerous (detect_select_into : bool) (q : Query) : bool :=
  match q with
  | mkQuery cte_tables body locks _ =>
    existsb (query_is_dangerous detect_select_into) cte_tables || set_expr_is_dangerous detect_select_into body
    || locks || query_calls_known_side_effect_function q
  end
with set_expr_is_dangerous (detect_select_into : bool) (e : SetExpr) : bool :=
  match e with
  | Select into _ => detect_select_into && into
  | SQuery q => query_is_dangerous detect_select_into q
  | SetOperation lhs rhs => set_expr_is_dangerous detect_select_into lhs || set_expr_is_dangerous detect_select_into rhs
  | SInsert s | SUpdate s | SDelete s | SMerge s => statement_is_dangerous detect_select_into s
  | Values _ | STable _ => false
  end
with statement_is_dangerous (detect_select_into : bool) (s : Statement) : bool :=
  match s with
  | Use => false
  | StQuery q => query_is_dangerous detect_select_into q
  | Insert replace_into overwrite or on source =>
    replace_into || overwrite || is_conflict_replace or
    || match on with
       | Some (DuplicateKeyUpdate _) => true
       | Some (OnConflict (DoUpdate _)) => true
       | Some (OnConflict DoNothing) => false
       | Some (OtherOnInsert _) => true
       | None => false
       end
    || match source with Some q => match query_body q with Values _ => false | _ => true end | None => false end
  | Update table from or selection => table.(joins) || from || is_conflict_replace or || unbounded_selection selection
  | Delete tables from has_using selection =>
    tables || has_using || negb (length from =? 1)%nat
    || match from with table :: _ => table.(joins) | [] => true end || unbounded_selection selection
  | Merge => true
  | Explain true s => statement_is_dangerous detect_select_into s
  | _ => negb (bool_decide (classify_statement detect_select_into s = ReadOnly))
  end.

End Predicates.

(** ** SQL text *)

(** The words of a locking clause at the start of [words]. *)
Definition locking_words (words : list text) : bool :=
  let w i (name : string) := bool_decide (words !! i = Some (txt name)) in
  (w 0 "FOR"%string && (w 1 "UPDATE"%string || w 1 "SHARE"%string))
  || (w 0 "FOR"%string && w 1 "KEY"%string && w 2 "SHARE"%string)
  || (w 0 "FOR"%string && w 1 "NO"%string && w 2 "KEY"%string && w 3 "UPDATE"%string)
  || (w 0 "LOCK"%string && w 1 "IN"%string && w 2 "SHARE"%string && w 3 "MODE"%string).

(** In one of the windows of the last four words. *)
Definition locking_window (words : list text) : bool :=
  existsb (fun i => locking_words (drop i words)) (seq 0 (length words)).

Fixpoint locking_loop (words : list text) (tokens : list SqlparserToken) : bool :=
  match tokens with
  | [] => false
  | TWord value quoted :: tokens' =>
    if quoted then locking_loop [] tokens'
    else
      let words := words ++ [ascii_upper value] in
      let words := if (4 <? length words)%nat then tail words else words in
      locking_window words || locking_loop words tokens'
  | TWhitespace :: tokens' => locking_loop words tokens'
  | _ :: tokens' => locking_loop [] tokens'
  end.

(** Whether a statement starts with [USE]; the token list of the tokenizer has no
    end marker. *)
Fixpoint use_loop (statement_start : bool) (tokens : list SqlparserToken) : bool :=
  match tokens with
  | [] => false
  | TWhitespace :: tokens' => use_loop statement_start tokens'
  | TSemiColon :: tokens' => use_loop true tokens'
  | TWord value _ :: tokens' => if statement_start then eq_ignore_ascii_case value (txt "use") || use_loop false tokens' else use_loop false tokens'
  | _ :: tokens' => use_loop false tokens'
  end.

Definition supports_select_into_table_creation (d : DatabaseType.t) : bool :=
  bool_decide (d ∈ [DatabaseType.Postgres; DatabaseType.Redshift; DatabaseType.Gaussdb; DatabaseType.OpenGauss;
                    DatabaseType.Kingbase; DatabaseType.Highgo; DatabaseType.Uxdb; DatabaseType.Vastbase;
                    DatabaseType.Gbase8c; DatabaseType.Kwdb; DatabaseType.SqlServer]).

Definition salesforce_risk_to_sql_risk (r : SalesforceStatementRisk) : SqlRisk :=
  match r with SfRead => ReadOnly | SfScopedWrite => Write | SfOpaqueWrite => DdlRisk end.

Definition search_engine_risk_to_sql_risk (r : SearchEngineQueryRisk) : SqlRisk :=
  match r with SeReadOnly => ReadOnly | SeWrite => Write | SeDangerous => DdlRisk end.

Definition max_risk (a b : SqlRisk) : SqlRisk := if (risk_rank a <? risk_rank b)%nat then b else a.

Section Text.
Context `{UnicodeTables, UnicodeCase, SqlTokenizer, SqlparserLexers, JsonParser, AstVisitor, SqlparserParser}.

Definition sql_contains_locking_clause (sql : text) (dialect : Dialect) : bool :=
  match tokenize_for dialect sql with Some tokens => locking_loop [] tokens | None => false end.

Definition sql_has_use_statement (sql : text) (dialect : Dialect) : bool :=
  match parse_sql dialect sql with
  | Some statements => existsb (fun s => match s with Use => true | _ => false end) statements
  | None => match tokenize_for dialect sql with Some tokens => use_loop true tokens | None => false end
  end.

Definition classify_sql_risk_with_database (sql : text) (dialect : Dialect) (d : option DatabaseType.t) : result SqlRisk text :=
  let detect_select_into := bool_decide (d = None) in
  let has_locking_clause := sql_contains_locking_clause sql dialect in
  let has_dialect_specific_write :=
    match d with
    | Some d => has_dialect_specific_write sql d
    | None => match dialect with MySqlDialect => has_dialect_specific_write sql DatabaseType.Mysql | _ => false end
    end in
  match parse_sql dialect sql with
  | Some (s :: statements) =>
    let risk := fold_left (fun r s => max_risk r (classify_statement detect_select_into s)) (s :: statements) ReadOnly in
    if bool_decide (risk = ReadOnly) && (has_dialect_specific_write || has_locking_clause) then Ok Write else Ok risk
  | _ =>
    let is_write := match d with Some d => is_write_sql_for_database sql d | None => is_write_sql sql end in
    if is_write || has_locking_clause then Ok Write else Ok ReadOnly
  end.

Definition classify_sql_risk (sql dialect : text) : result SqlRisk text :=
  classify_sql_risk_with_database sql (normalize_dialect dialect) None.

Definition classify_sql_risk_for_database (sql : text) (d : DatabaseType.t) : result SqlRisk text :=
  if bool_decide (d = DatabaseType.Salesforce)
  then Ok (salesforce_risk_to_sql_risk (classify_salesforce_statement_risk sql))
  else match classify_search_engine_query_risk sql d with
  | Some risk => Ok (search_engine_risk_to_sql_risk risk)
  | None => classify_sql_risk_with_database sql (normalize_dialect (debug_name d)) (Some d)
  end.

Definition is_dangerous_sql_for_database (sql : text) (d : DatabaseType.t) : bool :=
  if bool_decide (d = DatabaseType.Salesforce) then bool_decide (classify_salesforce_statement_risk sql = SfOpaqueWrite)
  else match classify_search_engine_query_risk sql d with
  | Some risk => bool_decide (risk = SeDangerous)
  | None =>
    let dialect := normalize_dialect (debug_name d) in
    let detect_select_into := supports_select_into_table_creation d in
    let has_locking_clause := sql_contains_locking_clause sql dialect in
    let has_unparsed_dialect_specific_write := negb detect_select_into && has_dialect_specific_write sql d in
    match parse_sql dialect sql with
    | Some (s :: statements) =>
      has_locking_clause || has_unparsed_dialect_specific_write
      || existsb (statement_is_dangerous detect_select_into) (s :: statements)
    | _ => has_locking_clause || is_write_sql_for_database sql d
    end
  end.

Definition mcp_sql_has_forbidden_database_switch (sql : text) (d : DatabaseType.t) : bool :=
  match classify_search_engine_query_risk sql d with
  | Some _ => false
  | None =>
    if bool_decide (d = DatabaseType.Salesforce) then false
    else
      let dialect := normalize_dialect (debug_name d) in
      if sql_has_use_statement sql dialect then true
      else if bool_decide (d ∈ [DatabaseType.Mysql; DatabaseType.Doris; DatabaseType.StarRocks; DatabaseType.ManticoreSearch;
                                DatabaseType.Goldendb])
      then sql_has_use_statement (strip_sql_comments sql) dialect
      else false
  end.

(** ** The proof that a statement only reads *)

Inductive ReadProof : Type := ProvenReadOnly | Unproven.

#[export] Instance ReadProof_eq_dec : EqDecision ReadProof.
Proof. solve_decision. Defined.

Definition MYSQL_PROOF_SAFE_FUNCTIONS : list string :=
  ["abs"; "ascii"; "avg"; "bin"; "ceiling"; "char_length"; "character_length"; "coalesce"; "concat"; "concat_ws";
   "conv"; "count"; "crc32"; "curdate"; "curtime"; "current_date"; "current_time"; "current_timestamp";
   "date_format"; "datediff"; "dayname"; "dayofmonth"; "dayofweek"; "dayofyear"; "exp"; "floor"; "format";
   "greatest"; "hex"; "hour"; "if"; "ifnull"; "inet_aton"; "inet_ntoa"; "instr"; "isnull"; "json_extract";
   "json_length"; "json_unquote"; "json_valid"; "last_day"; "lcase"; "least"; "left"; "length"; "ln"; "locate";
   "log"; "log10"; "log2"; "lower"; "lpad"; "ltrim"; "max"; "md5"; "microsecond"; "min"; "minute"; "mod"; "month";
   "monthname"; "now"; "nullif"; "oct"; "ord"; "position"; "pow"; "power"; "quarter"; "rand"; "repeat"; "replace";
   "reverse"; "right"; "round"; "rpad"; "rtrim"; "second"; "sha"; "sha1"; "sha2"; "sign"; "space"; "sqrt";
   "str_to_date"; "substring"; "substr"; "time_format"; "timediff"; "timestampadd"; "timestampdiff"; "truncate";
   "unhex"; "unix_timestamp"; "upper"; "ucase"; "utc_date"; "utc_time"; "utc_timestamp"; "uuid"; "week"; "weekday";
   "year"]%string.

Definition POSTGRES_PROOF_SAFE_FUNCTIONS : list string :=
  ["abs"; "age"; "array_agg"; "array_length"; "ascii"; "avg"; "btrim"; "cardinality"; "ceil"; "ceiling";
   "char_length"; "character_length"; "chr"; "coalesce"; "concat"; "concat_ws"; "count"; "current_catalog";
   "current_date"; "current_schema"; "current_setting"; "current_time"; "current_timestamp"; "current_user";
   "date_part"; "date_trunc"; "decode"; "div"; "encode"; "every"; "exp"; "floor"; "format"; "gen_random_uuid";
   "greatest"; "left"; "length"; "localtime"; "localtimestamp"; "log"; "lower"; "lpad"; "ltrim"; "max"; "md5"; "min";
   "mod"; "now"; "nullif"; "position"; "power"; "repeat"; "replace"; "reverse"; "right"; "round"; "rpad"; "rtrim";
   "sha224"; "sha256"; "sha384"; "sha512"; "sign"; "split_part"; "sqrt"; "starts_with"; "strpos"; "string_agg";
   "substr"; "substring"; "to_char"; "to_date"; "to_hex"; "to_number"; "to_timestamp"; "trunc"; "unnest"; "upper";
   "version"]%string.

Definition ORACLE_PROOF_SAFE_FUNCTIONS : list string :=
  ["abs"; "add_months"; "ascii"; "avg"; "bitand"; "ceil"; "chr"; "coalesce"; "concat"; "count"; "current_date";
   "current_time"; "current_timestamp"; "decode"; "exp"; "floor"; "greatest"; "initcap"; "instr"; "last_day";
   "least"; "length"; "lengthb"; "ln"; "localtime"; "localtimestamp"; "log"; "lower"; "lpad"; "ltrim"; "max"; "min";
   "mod"; "months_between"; "next_day"; "nullif"; "nvl"; "nvl2"; "power"; "remainder"; "replace"; "round"; "rpad";
   "rtrim"; "sign"; "sqrt"; "stddev"; "substr"; "substrb"; "sum"; "to_char"; "to_date"; "to_number"; "to_timestamp";
   "translate"; "trim"; "trunc"; "upper"; "variance"]%string.

Definition ORACLE_PROOF_FORBIDDEN_WORDS : list string :=
  ["for"; "update"; "lock"; "begin"; "commit"; "rollback"; "savepoint"; "create"; "alter"; "drop"; "truncate";
   "rename"; "grant"; "revoke"; "comment"; "purge"; "audit"; "noaudit"; "analyze"; "flashback"; "merge"; "insert";
   "delete"; "union"; "minus"; "intersect"; "call"; "exec"; "execute"; "declare"; "nextval"; "currval"; "into"]%string.

(** A node on which [ProofFunctionVisitor] stops. *)
Definition proof_rejects (allowed_functions : list string) (node : visited_node) : bool :=
  match node with
  | VisitExpr (Function f) =>
    f.(over)
    || negb ((length f.(function_name) =? 1)%nat
             && match last_identifier f.(function_name) with Some name => named name allowed_functions | None => false end)
  | VisitExpr _ => false
  | VisitTable args => args
  end.

Fixpoint prove_statement (allowed_functions : list string) (s : Statement) : ReadProof :=
  match s with
  | StQuery q =>
    if query_is_write_capable true q then Unproven
    else if existsb (proof_rejects allowed_functions) (query_nodes q) then Unproven else ProvenReadOnly
  | Explain false s => prove_statement allowed_functions s
  | Explain true _ => Unproven
  | ExplainTable => ProvenReadOnly
  | Show _ => ProvenReadOnly
  | _ => Unproven
  end.

Definition prove_read_only_statement (sql : text) (mysql : bool) (allowed_functions : list string) : ReadProof :=
  let d := if mysql then DatabaseType.Mysql else DatabaseType.Postgres in
  let dialect := if mysql then MySqlDialect else PostgreSqlDialect in
  let cleaned := strip_sql_comments_and_literals sql in
  if bool_decide (trim_chars cleaned = []) || has_dialect_specific_write sql d then Unproven
  else if mysql && (contains (txt ":=") cleaned || contains_unquoted_keyword cleaned dialect "INTO") then Unproven
  else match parse_sql dialect sql with
  | Some [s] => prove_statement allowed_functions s
  | _ => Unproven
  end.

Definition prove_oracle_read_only_statement (sql : text) : ReadProof :=
  let cleaned := strip_sql_comments_and_literals_keeping_hash sql in
  let trimmed := trim_chars_start cleaned in
  if bool_decide (trimmed = []) then Unproven
  else if negb (starts_with_keyword_at (to_uppercase trimmed) "SELECT") then Unproven
  else if negb (length (split_sql_statements_for_database sql DatabaseType.Oracle) =? 1)%nat then Unproven
  else
    let lower := to_lowercase cleaned in
    if contains [64%Z] lower then Unproven
    else if existsb (fun word => contains_word lower (txt word)) ORACLE_PROOF_FORBIDDEN_WORDS then Unproven
    else match parse_sql OracleDialect sql with
    | None => if contains [40%Z] lower then Unproven else ProvenReadOnly
    | Some [s] => prove_statement ORACLE_PROOF_SAFE_FUNCTIONS s
    | Some _ => Unproven
    end.

Definition prove_read_only_for_database (sql : text) (d : DatabaseType.t) : ReadProof :=
  match d with
  | DatabaseType.Mysql => prove_read_only_statement sql true MYSQL_PROOF_SAFE_FUNCTIONS
  | DatabaseType.Postgres | DatabaseType.Gaussdb | DatabaseType.OpenGauss | DatabaseType.Kingbase =>
    prove_read_only_statement sql false POSTGRES_PROOF_SAFE_FUNCTIONS
  | DatabaseType.Oracle | DatabaseType.OceanbaseOracle => prove_oracle_read_only_statement sql
  | _ => Unproven
  end.

(** [query_execution_sql::is_oracle_proven_read_only_statement]. *)
Definition is_oracle_proven_read_only_statement (sql : text) : bool :=
  bool_decide (prove_read_only_for_database sql DatabaseType.Oracle = ProvenReadOnly).

End Text.
