(* ===== verification/SqlRiskSpec.v ===== *)
(** * What the risk levels mean

    Theorems on the classification of SqlRisk.v: a query counts as a write exactly
    if a part of it writes, a statement that only reads is never dangerous, what
    is proven to read is classified as a read, the writes that pass without the
    permission for dangerous operations have a bounded predicate wherever they
    stand, and the disjunctions found to be complementary hold on every row. *)

From S2P Require Import Prelude Json Utf8 Float64 Cypher SqlDialect SqlLex SqlBlocks SqlScanner SqlRanges SqlFileImport SqlSplitter.
From S2P Require Import QueryExecutionSql SqlRisk.

(** ** Parts of queries *)

(** The branches of the set operations of a body. *)
Fixpoint set_branches (e : SetExpr) : list SetExpr :=
  match e with SetOperation lhs rhs => set_branches lhs ++ set_branches rhs | _ => [e] end.

(** [query_part p q]: [p] is [q], or a part of one of its common table expressions
    or of a query that is a branch of its body. *)
Inductive query_part : Query -> Query -> Prop :=
| part_whole q : query_part q q
| part_cte p c ctes body locks rest : c ∈ ctes -> query_part p c -> query_part p (mkQuery ctes body locks rest)
| part_branch p q ctes body locks rest : SQuery q ∈ set_branches body -> query_part p q -> query_part p (mkQuery ctes body locks rest).

Definition query_locks (q : Query) : bool := let 'mkQuery _ _ locks _ := q in locks.

(** A branch that writes, for a check that looks at [INTO] or does not. *)
Definition branch_writes (detect : bool) (e : SetExpr) : bool :=
  match e with
  | Select into _ => detect && into
  | SInsert _ | SUpdate _ | SDelete _ | SMerge _ => true
  | _ => false
  end.

(** The statement of a branch that is one. *)
Definition branch_statement (e : SetExpr) : option Statement :=
  match e with SInsert s | SUpdate s | SDelete s | SMerge s => Some s | _ => None end.

(** [statement_part p s]: running [s] runs [p]. *)
Inductive statement_part : Statement -> Statement -> Prop :=
| statement_whole s : statement_part s s
| part_explained p s : statement_part p s -> statement_part p (Explain true s)
| part_of_query p s q part e : query_part part q -> e ∈ set_branches (query_body part) -> branch_statement e = Some s ->
    statement_part p s -> statement_part p (StQuery q).

(** Induction over the parts of a query. *)
Fixpoint query_induction (P : Query -> Prop)
    (H : forall ctes body locks rest, Forall P ctes -> (forall q, SQuery q ∈ set_branches body -> P q) -> P (mkQuery ctes body locks rest))
    (q : Query) {struct q} : P q
with set_induction (P : Query -> Prop)
    (H : forall ctes body locks rest, Forall P ctes -> (forall q, SQuery q ∈ set_branches body -> P q) -> P (mkQuery ctes body locks rest))
    (e : SetExpr) {struct e} : forall q, SQuery q ∈ set_branches e -> P q.
Proof.
  - destruct q as [ctes body locks rest]. apply H.
    + induction ctes as [|c ctes IH]; constructor; [exact (query_induction P H c)|exact IH].
    + exact (set_induction P H body).
  - destruct e as [into o|q'|lhs rhs|s|s|s|s|o|o]; intros q Hq; simpl in Hq;
      try (apply list_elem_of_singleton in Hq; discriminate Hq).
    + apply list_elem_of_singleton in Hq. injection Hq as ->. exact (query_induction P H q').
    + apply elem_of_app in Hq as [Hq|Hq]; [exact (set_induction P H lhs q Hq)|exact (set_induction P H rhs q Hq)].
Qed.

Section Parts.
Context `{AstVisitor}.

(** What a part does by itself. *)
Definition part_writes (detect : bool) (q : Query) : bool :=
  existsb (branch_writes detect) (set_branches (query_body q)) || query_locks q || query_calls_known_side_effect_function q.

Lemma set_expr_capable_branches detect e :
  set_expr_is_write_capable detect e =
  existsb (fun b => branch_writes detect b || match b with SQuery q => query_is_write_capable detect q | _ => false end) (set_branches e).
Proof.
  induction e as [into o|q|lhs IHl rhs IHr|s|s|s|s|o|o]; simpl; rewrite ?orb_false_r; try done.
  by rewrite existsb_app, IHl, IHr.
Qed.

Lemma existsb_elem {A} (f : A -> bool) l : existsb f l = true <-> exists x, x ∈ l /\ f x = true.
Proof. rewrite existsb_exists. setoid_rewrite <- list_elem_of_In. done. Qed.

(** A query counts as a write exactly if one of its parts writes. *)
Lemma write_capable_parts detect q :
  query_is_write_capable detect q = true <-> exists part, query_part part q /\ part_writes detect part = true.
Proof.
  induction q as [ctes body locks rest Hctes Hbody] using query_induction. rewrite Forall_forall in Hctes.
  set (q := mkQuery ctes body locks rest). split.
  - intros Hw. simpl in Hw. rewrite !orb_true_iff, set_expr_capable_branches, !existsb_elem in Hw.
    destruct Hw as [[[(c & Hc & Hw)|(e & He & Hw)]|Hw]|Hw].
    + apply Hctes in Hw as (part & Hp & Hw); [|done]. exists part. split; [by eapply part_cte|done].
    + apply orb_true_iff in Hw as [Hw|Hw].
      * exists q. split; [constructor|]. unfold part_writes. rewrite !orb_true_iff, existsb_elem. eauto.
      * destruct e as [| | | | | | | |]; try done. apply Hbody in Hw as (part & Hp & Hw); [|done].
        exists part. split; [by eapply part_branch|done].
    + exists q. split; [constructor|]. unfold part_writes. simpl. rewrite Hw, !orb_true_r. done.
    + exists q. split; [constructor|]. unfold part_writes. rewrite !orb_true_iff. by right.
  - intros (part & Hp & Hw). simpl. rewrite !orb_true_iff, set_expr_capable_branches, !existsb_elem.
    inversion Hp as [|? c ? ? ? ? Hc Hpart|? q' ? ? ? ? Hq Hpart]; subst.
    + unfold part_writes in Hw. rewrite !orb_true_iff, existsb_elem in Hw. destruct Hw as [[(e & He & Hw)|Hw]|Hw]; [|by auto..].
      left; left; right. exists e. by rewrite Hw.
    + left; left; left. exists c. split; [done|]. apply Hctes; eauto.
    + left; left; right. exists (SQuery q'). split; [done|]. simpl. apply Hbody; eauto.
Qed.

(** Looking at [INTO] finds more writes, never fewer. *)
Lemma write_capable_into q : query_is_write_capable false q = true -> query_is_write_capable true q = true.
Proof.
  rewrite !write_capable_parts. intros (part & Hp & Hw). exists part. split; [done|]. unfold part_writes in *.
  rewrite !orb_true_iff, !existsb_elem in *. destruct Hw as [[(e & He & Hw)|Hw]|Hw]; [|by auto..].
  left; left. exists e. split; [done|]. by destruct e.
Qed.

(** ** Dangerous statements *)

Lemma set_expr_dangerous_branches detect e :
  set_expr_is_dangerous detect e =
  existsb (fun b => match b with
                    | Select into _ => detect && into
                    | SQuery q => query_is_dangerous detect q
                    | SInsert s | SUpdate s | SDelete s | SMerge s => statement_is_dangerous detect s
                    | _ => false
                    end) (set_branches e).
Proof.
  induction e as [into o|q|lhs IHl rhs IHr|s|s|s|s|o|o]; simpl; rewrite ?orb_false_r; try done.
  by rewrite existsb_app, IHl, IHr.
Qed.

Lemma dangerous_query_writes detect q : query_is_dangerous detect q = true -> query_is_write_capable detect q = true.
Proof.
  induction q as [ctes body locks rest Hctes Hbody] using query_induction. rewrite Forall_forall in Hctes. simpl.
  rewrite !orb_true_iff, set_expr_capable_branches, set_expr_dangerous_branches, !existsb_elem.
  intros [[[(c & Hc & Hd)|(e & He & Hd)]|Hd]|Hd]; [| |by auto..].
  { left; left; left. exists c. split; [done|]. by apply Hctes. }
  left; left; right. exists e. split; [done|]. destruct e; try done; simpl in *; [by rewrite Hd|by apply Hbody].
Qed.

Lemma dangerous_statement_writes detect s : statement_is_dangerous detect s = true -> classify_statement detect s <> ReadOnly.
Proof.
  induction s as [q|analyze s IH| | | | | | | | | | | |]; simpl; try done.
  - intros Hd%dangerous_query_writes. by rewrite Hd.
  - destruct analyze; [done|]. intros Hd. by vm_compute in Hd.
Qed.

End Parts.

(** ** The levels *)

Lemma max_risk_read_only a b : max_risk a b = ReadOnly <-> a = ReadOnly /\ b = ReadOnly.
Proof. destruct a, b; vm_compute; split; intros; try done; naive_solver. Qed.

Lemma fold_risk_read_only `{AstVisitor} detect statements r :
  fold_left (fun r s => max_risk r (classify_statement detect s)) statements r = ReadOnly <->
  r = ReadOnly /\ Forall (fun s => classify_statement detect s = ReadOnly) statements.
Proof.
  revert r. induction statements as [|s statements IH]; intros r; simpl; [by rewrite Forall_nil; naive_solver|].
  rewrite IH, max_risk_read_only, Forall_cons. naive_solver.
Qed.

Section Levels.
Context `{UnicodeTables, UnicodeCase, SqlTokenizer, SqlparserLexers, JsonParser, AstVisitor, SqlparserParser}.

(** When a script is classified as a read. *)
Lemma classified_read_only sql dialect d :
  classify_sql_risk_with_database sql dialect (Some d) = Ok ReadOnly <->
  sql_contains_locking_clause sql dialect = false /\
  match parse_sql dialect sql with
  | Some (s :: statements) =>
    Forall (fun s => classify_statement false s = ReadOnly) (s :: statements) /\ has_dialect_specific_write sql d = false
  | _ => is_write_sql_for_database sql d = false
  end.
Proof.
  unfold classify_sql_risk_with_database. rewrite bool_decide_eq_false_2 by done.
  destruct (parse_sql dialect sql) as [[|s statements]|].
  - destruct (is_write_sql_for_database sql d), (sql_contains_locking_clause sql dialect); simpl; naive_solver.
  - pose proof (fold_risk_read_only false (s :: statements) ReadOnly) as Hf. cbv zeta.
    destruct (fold_left _ (s :: statements) ReadOnly);
      destruct (has_dialect_specific_write sql d), (sql_contains_locking_clause sql dialect); simpl; naive_solver.
  - destruct (is_write_sql_for_database sql d), (sql_contains_locking_clause sql dialect); simpl; naive_solver.
Qed.

End Levels.

(** ** What passes without the permission *)

Section Bounded.
Context `{AstVisitor}.

Definition bounded_selection (selection : option Expr) : Prop :=
  exists e, selection = Some e /\ expr_contains_subquery e = false /\ expr_contains_column_reference e = true /\
    predicate_is_obviously_unbounded e = false.

(** A write of a single table that its predicate or its values bound, or no write
    at all; nothing that defines objects, controls transactions or is unknown. *)
Definition bounded_write (s : Statement) : Prop :=
  match s with
  | Insert replace_into overwrite or on source =>
    replace_into = false /\ overwrite = false /\ or <> Some ConflictReplace /\ (on = None \/ on = Some (OnConflict DoNothing)) /\
    (source = None \/ exists q o, source = Some q /\ query_body q = Values o)
  | Update table from or selection => table.(joins) = false /\ from = false /\ or <> Some ConflictReplace /\ bounded_selection selection
  | Delete tables from has_using selection =>
    tables = false /\ has_using = false /\ (exists table, from = [table] /\ table.(joins) = false) /\ bounded_selection selection
  | Merge | Ddl _ | TransactionControl _ | Copy | Pragma | OtherStatement _ => False
  | _ => True
  end.

Lemma unbounded_selection_false selection : unbounded_selection selection = false -> bounded_selection selection.
Proof.
  destruct selection as [e|]; [|done]. simpl. intros Hu. exists e. split_and!; [done|..|done].
  - destruct e; cbn [predicate_is_obviously_unbounded] in Hu; by destruct (expr_contains_subquery _).
  - destruct e; cbn [predicate_is_obviously_unbounded] in Hu; destruct (expr_contains_subquery _); try done;
      by destruct (expr_contains_column_reference _).
Qed.

Lemma harmless_is_bounded detect s : statement_is_dangerous detect s = false -> bounded_write s.
Proof.
  destruct s as [q|analyze s| |show|replace overwrite or on source|table from or selection|tables from has_using selection| |ddl|ctl| | | |o];
    simpl; try done.
  - intros Hd. bool_solver. subst. split_and!; [done..|by intros ->| |].
    + destruct on as [[]|]; try done; [|by left]. destruct action; [by right|done].
    + destruct source as [q|]; [|by left]. right. destruct (query_body q) eqn:Hq; try done. eauto.
  - intros Hd. bool_solver. split_and!; [done..|by intros ->|]. by apply unbounded_selection_false.
  - intros Hd. bool_solver. split_and!; [done..| |by apply unbounded_selection_false].
    destruct from as [|table [|? ?]]; try done. eauto.
Qed.

Lemma harmless_query_part detect part q : query_part part q -> query_is_dangerous detect q = false -> query_is_dangerous detect part = false.
Proof.
  induction 1 as [q|part c ctes body locks rest Hc Hp IH|part q ctes body locks rest Hq Hp IH]; [done|..]; intros Hd; apply IH;
    apply not_true_iff_false; intros Ht; apply not_true_iff_false in Hd; apply Hd; simpl;
    rewrite !orb_true_iff, set_expr_dangerous_branches, !existsb_elem.
  - left; left; left. eauto.
  - left; left; right. by exists (SQuery q).
Qed.

Lemma harmless_statement_part detect p s : statement_part p s -> statement_is_dangerous detect s = false ->
  statement_is_dangerous detect p = false.
Proof.
  induction 1 as [s|p s Hp IH|p s q part e Hq He Hs Hp IH]; [done|by auto|]. simpl. intros Hd. apply IH.
  apply not_true_iff_false. intros Ht. apply (harmless_query_part _ part) in Hd; [|done].
  destruct part as [ctes body locks rest]. apply not_true_iff_false in Hd. apply Hd. simpl in *.
  rewrite !orb_true_iff, set_expr_dangerous_branches, !existsb_elem. left; left; right. exists e. split; [done|].
  destruct e; simpl in Hs; simplify_eq; done.
Qed.

End Bounded.

(** A script that the risk classifier of a database calls a read never needs
    the permission for dangerous operations, for every database type for which the
    check does not look for [SELECT INTO] in the syntax tree: parsed or not, with
    any number of statements, and also for the requests of search engines and
    Salesforce. *)
Theorem read_only_is_never_dangerous
    `{UnicodeTables, UnicodeCase, SqlTokenizer, SqlparserLexers, JsonParser, AstVisitor, SqlparserParser} sql d :
  supports_select_into_table_creation d = false -> classify_sql_risk_for_database sql d = Ok ReadOnly ->
  is_dangerous_sql_for_database sql d = false.
Proof.
  intros Hinto. unfold classify_sql_risk_for_database, is_dangerous_sql_for_database. case_bool_decide.
  { intros Hr. destruct (classify_salesforce_statement_risk sql); done. }
  destruct (classify_search_engine_query_risk sql d) as [risk|]; [by destruct risk|].
  rewrite classified_read_only, Hinto. intros [-> Hr]. simpl. destruct (parse_sql _ sql) as [[|s statements]|]; [done| |done].
  destruct Hr as [Hr Hw]. rewrite Hw. simpl. change (existsb (statement_is_dangerous false) (s :: statements) = false).
  apply not_true_iff_false. rewrite existsb_elem. intros (s' & Hs & Hd). apply dangerous_statement_writes in Hd. apply Hd.
  rewrite Forall_forall in Hr. by apply Hr.
Qed.

(** A statement that the transaction toolbar proves to be a read on MySQL or
    PostgreSQL is also a read for the risk classifier, unless its tokens contain a
    locking clause. *)
Theorem proven_read_is_classified_as_read
    `{UnicodeTables, UnicodeCase, SqlTokenizer, SqlparserLexers, JsonParser, AstVisitor, SqlparserParser} sql d :
  d ∈ [DatabaseType.Mysql; DatabaseType.Postgres] -> prove_read_only_for_database sql d = ProvenReadOnly ->
  sql_contains_locking_clause sql (normalize_dialect (debug_name d)) = false ->
  classify_sql_risk_for_database sql d = Ok ReadOnly.
Proof.
  intros Hd Hp Hl.
  assert (Hc : forall allowed s, prove_statement allowed s = ProvenReadOnly -> classify_statement false s = ReadOnly).
  { intros allowed s. destruct s as [q|[|] s| | | | | | | | | | | |]; simpl; try done.
    destruct (query_is_write_capable true q) eqn:Hw; [done|]. intros _.
    destruct (query_is_write_capable false q) eqn:Hw'; [|done]. apply write_capable_into in Hw'. by rewrite Hw in Hw'. }
  assert (exists mysql allowed, prove_read_only_statement sql mysql allowed = ProvenReadOnly /\
    d = (if mysql then DatabaseType.Mysql else DatabaseType.Postgres)) as (mysql & allowed & Hs & ->).
  { apply elem_of_cons in Hd as [->|Hd]; [by exists true; eauto|]. apply list_elem_of_singleton in Hd as ->. by exists false; eauto. }
  unfold prove_read_only_statement in Hs.
  assert (classify_sql_risk_for_database sql (if mysql then DatabaseType.Mysql else DatabaseType.Postgres) =
    classify_sql_risk_with_database sql (if mysql then MySqlDialect else PostgreSqlDialect)
      (Some (if mysql then DatabaseType.Mysql else DatabaseType.Postgres))) as -> by (by destruct mysql).
  apply classified_read_only. split; [by destruct mysql|].
  destruct (bool_decide _ || _) eqn:Hw; [done|]. apply orb_false_iff in Hw as [_ Hw]. destruct (mysql && _); [done|].
  destruct (parse_sql _ sql) as [[|s [|? ?]]|]; try done. split; [|done]. constructor; [by eapply Hc|constructor].
Qed.


(** ** Disjunctions that hold on every row *)

(** Three-valued disjunction; [None] is unknown. *)
Definition or3 (a b : option bool) : option bool :=
  match a, b with
  | Some true, _ | _, Some true => Some true
  | Some false, Some false => Some false
  | _, _ => None
  end.

Definition and3 (a b : option bool) : option bool := negb <$> or3 (negb <$> a) (negb <$> b).

(** Whether a comparison operator holds of the order of two values. *)
Definition holds (op : PredicateComparisonOperator) (c : comparison) : bool :=
  match op, c with
  | PEq, Datatypes.Eq | PGtEq, Datatypes.Eq | PLtEq, Datatypes.Eq => true
  | PNotEq, (Datatypes.Lt | Datatypes.Gt) => true
  | (PGt | PGtEq), Datatypes.Gt => true
  | (PLt | PLtEq), Datatypes.Lt => true
  | _, _ => false
  end.

(** What SQL evaluates expressions and predicates to on a row; [None] is [NULL]. *)
Class Evaluation : Type := {
  row : Type;
  datum : Type;
  evaluate : row -> Expr -> option datum;
  truth : row -> Expr -> option bool;
  compare : datum -> datum -> comparison
}.

Section Meaning.
Context `{Evaluation}.

Definition compare3 (op : PredicateComparisonOperator) (x y : option datum) : option bool :=
  match x, y with Some x, Some y => Some (holds op (compare x y)) | _, _ => None end.

(** Equality in which [NULL] is a value. *)
Definition null_safe_equal (x y : option datum) : bool :=
  match x, y with
  | Some x, Some y => holds PEq (compare x y)
  | None, None => true
  | _, _ => false
  end.

(** [x IN l]: true if an item is equal, unknown if one is not known to differ. *)
Definition in3 (x : option datum) (l : list (option datum)) : option bool :=
  if existsb (fun y => bool_decide (compare3 PEq x y = Some true)) l then Some true
  else if existsb (fun y => bool_decide (compare3 PEq x y = None)) l then None else Some false.

End Meaning.

(** The meaning of the predicates the check looks into, as the SQL standard has it
    ([Spaceship] is MySQL's). *)
Class EvaluationLaws `{Evaluation} : Prop := {
  compare_antisymmetric x y : compare y x = CompOpp (compare x y);
  evaluate_nested r e : evaluate r (Nested e) = evaluate r e;
  truth_nested r e : truth r (Nested e) = truth r e;
  truth_not r e : truth r (UnaryOp Not e) = negb <$> truth r e;
  truth_or r a b : truth r (BinaryOp a Or b) = or3 (truth r a) (truth r b);
  truth_is_null r e : truth r (IsNull e) = Some (match evaluate r e with None => true | Some _ => false end);
  truth_is_not_null r e : truth r (IsNotNull e) = Some (match evaluate r e with None => false | Some _ => true end);
  truth_comparison r a op b p : op <> Spaceship -> predicate_comparison_operator op = Some p ->
    truth r (BinaryOp a op b) = compare3 p (evaluate r a) (evaluate r b);
  truth_spaceship r a b : truth r (BinaryOp a Spaceship b) = Some (null_safe_equal (evaluate r a) (evaluate r b));
  truth_in_list r e l negated : truth r (InList e l negated) = xorb negated <$> in3 (evaluate r e) (map (evaluate r) l);
  truth_between r e negated low high : truth r (Between e negated low high) =
    xorb negated <$> and3 (compare3 PGtEq (evaluate r e) (evaluate r low)) (compare3 PLtEq (evaluate r e) (evaluate r high))
}.

Section Sound.
Context `{Visitor : AstVisitor, Eval : Evaluation, Laws : !EvaluationLaws}.
Context (r : row).

Lemma evaluate_strip e : evaluate r (strip_nested_expr e) = evaluate r e.
Proof. induction e; simpl; try done. by rewrite evaluate_nested. Qed.

Lemma or3_false a b : or3 a b = Some false -> a = Some false /\ b = Some false.
Proof. destruct a as [[|]|], b as [[|]|]; done. Qed.

(** If the disjunction is false, so is the branch of every check. *)
Lemma collected_check_is_false {A} (check : Expr -> option A) e c :
  truth r e = Some false -> c ∈ collect_or check e -> exists b, check b = Some c /\ truth r b = Some false.
Proof.
  induction e as [| |e IH| | |lhs IHl op rhs IHr| | | | | | | | | | | | | | | | |]; intros Ht Hc;
    try (cbn [collect_or] in Hc; destruct (check _) eqn:Hk; simpl in Hc; [apply list_elem_of_singleton in Hc as ->; eauto|
      by apply not_elem_of_nil in Hc]).
  - cbn [collect_or] in Hc. apply IH; [|done]. by rewrite <- truth_nested.
  - destruct op; try (cbn [collect_or] in Hc; destruct (check _) eqn:Hk; simpl in Hc; [apply list_elem_of_singleton in Hc as ->; eauto|
      by apply not_elem_of_nil in Hc]).
    cbn [collect_or] in Hc. rewrite truth_or in Ht. apply or3_false in Ht as [Hl Hr]. apply elem_of_app in Hc as [Hc|Hc]; auto.
Qed.

Lemma any_pair_elem {A} (test : A -> A -> bool) l : any_pair test l = true -> exists a b, a ∈ l /\ b ∈ l /\ test a b = true.
Proof.
  induction l as [|a l IH]; simpl; [done|]. rewrite orb_true_iff, existsb_elem. intros [(b & Hb & Ht)|Hp].
  - exists a, b. split_and!; [by left|by right|done].
  - destruct (IH Hp) as (a' & b & Ha & Hb & Ht). exists a', b. split_and!; [by right..|done].
Qed.

(** Two checks that are complementary and whose branches are false at once. *)
Lemma complementary_checks_hold {A} (check : Expr -> option A) (test : A -> A -> bool) e :
  (forall a b c d, check a = Some c -> check b = Some d -> test c d = true -> truth r a = Some false -> truth r b = Some false -> False) ->
  any_pair test (collect_or check e) = true -> truth r e <> Some false.
Proof.
  intros Hno Hp Ht. apply any_pair_elem in Hp as (c & d & Hc & Hd & Htest).
  destruct (collected_check_is_false _ _ _ Ht Hc) as (a & Ha & Hfa), (collected_check_is_false _ _ _ Ht Hd) as (b & Hb & Hfb).
  exact (Hno a b c d Ha Hb Htest Hfa Hfb).
Qed.

(** ** Checks for [NULL] *)

Definition null_truth (x : Expr) (negated : bool) : option bool :=
  Some (xorb negated (match evaluate r x with None => true | Some _ => false end)).

Lemma negated_option (o : option bool) : negb <$> (negb <$> o) = o.
Proof. by destruct o as [[]|]. Qed.

Lemma null_check_truth e outer x negated : null_check_with_negation outer e = Some (x, negated) ->
  (if outer then negb <$> truth r e else truth r e) = null_truth x negated.
Proof.
  revert outer. induction e as [| |e IH| |op e IH| | | | | | | |e _|e _| | | | | | | | |]; intros outer Hc; simpl in Hc; try done.
  - rewrite truth_nested. by apply IH.
  - destruct op; [|done]. apply IH in Hc. rewrite truth_not. destruct outer; simpl in Hc; [by rewrite negated_option|done].
  - simplify_eq. unfold null_truth. rewrite truth_is_null, evaluate_strip. destruct negated; simpl; by destruct (evaluate r e).
  - simplify_eq. unfold null_truth. rewrite truth_is_not_null, evaluate_strip. destruct outer; simpl; by destruct (evaluate r e).
Qed.

Lemma null_checks_hold e : or_contains_complementary_null_checks e = true -> truth r e <> Some false.
Proof.
  apply complementary_checks_hold. intros a b [x n] [y m] Ha Hb Ht Hfa Hfb. simpl in Ht. bool_solver. subst y.
  apply null_check_truth in Ha, Hb. unfold null_truth in *. simpl in *. rewrite Hfa in Ha. rewrite Hfb in Hb.
  destruct n, m, (evaluate r x); done.
Qed.

(** ** Comparisons *)

(** The truth of a comparison, with and without [NULL] as a value. *)
Definition comparison_truth (c : PredicateComparisonCheck) (t : option bool) : Prop :=
  let x := evaluate r c.(cmp_left) in
  let y := evaluate r c.(cmp_right) in
  t = compare3 c.(cmp_operator) x y \/
  (c.(cmp_operator) = PEq /\ t = Some (null_safe_equal x y)) \/
  (c.(cmp_operator) = PNotEq /\ t = Some (negb (null_safe_equal x y))).

Lemma holds_complement op c : holds (complementary_comparison_operator op) c = negb (holds op c).
Proof. by destruct op, c. Qed.

Lemma holds_reverse op c : holds (reverse_comparison_operator op) (CompOpp c) = holds op c.
Proof. by destruct op, c. Qed.

Lemma compare3_complement op x y : compare3 (complementary_comparison_operator op) x y = negb <$> compare3 op x y.
Proof. destruct x, y; simpl; try done. by rewrite holds_complement. Qed.

Lemma compare3_reverse op x y : compare3 (reverse_comparison_operator op) y x = compare3 op x y.
Proof. destruct x, y; simpl; try done. by rewrite compare_antisymmetric, holds_reverse. Qed.

Lemma null_safe_equal_comm x y : null_safe_equal y x = null_safe_equal x y.
Proof. destruct x, y; simpl; try done. rewrite compare_antisymmetric. by destruct (compare _ _). Qed.

(** The comparison that is stored has the truth of the one in the text. *)
Lemma stored_comparison lhs rhs op (t : option bool) le : comparison_truth (mkComparison lhs rhs op) t ->
  comparison_truth (if le : bool then mkComparison lhs rhs op else mkComparison rhs lhs (reverse_comparison_operator op)) t.
Proof.
  destruct le; [done|]. unfold comparison_truth. simpl. rewrite compare3_reverse, null_safe_equal_comm.
  intros [Ht|[[-> Ht]|[-> Ht]]]; auto.
Qed.

Lemma comparison_check_truth e outer c : comparison_check outer e = Some c ->
  comparison_truth c (if outer then negb <$> truth r e else truth r e).
Proof.
  revert outer. induction e as [| |e IH| |op e IH|lhs _ op rhs _| | | | | | | | | | | | | | | | |]; intros outer Hc;
    cbn [comparison_check] in Hc; try done.
  - rewrite truth_nested. by apply IH.
  - destruct op; [|done]. apply IH in Hc. rewrite truth_not. destruct outer; simpl in Hc; [by rewrite negated_option|done].
  - destruct (negb _); [done|]. apply bind_Some in Hc as (p & Hp & Hc). injection Hc as <-. apply stored_comparison.
    unfold comparison_truth. simpl. rewrite !evaluate_strip.
    destruct (decide (op = Spaceship)) as [->|Hop].
    + rewrite truth_spaceship. simpl in Hp. injection Hp as <-. destruct outer; simpl; auto.
    + rewrite (truth_comparison _ _ _ _ p) by done. left. destruct outer; [by rewrite compare3_complement|done].
Qed.

Lemma comparisons_hold e : or_contains_complementary_comparisons e = true -> truth r e <> Some false.
Proof.
  apply complementary_checks_hold. intros a b c d Ha Hb Ht Hfa Hfb.
  apply comparison_check_truth in Ha, Hb. rewrite Hfa in Ha. rewrite Hfb in Hb.
  unfold comparison_operators_are_complementary in Ht. bool_solver. destruct c as [l1 r1 op], d as [l2 r2 op2]. simpl in *. subst.
  unfold comparison_truth in *. simpl in *.
  destruct Ha as [Ha|[[-> Ha]|[-> Ha]]], Hb as [Hb|[[Hop Hb]|[Hop Hb]]]; try (by destruct op; simplify_eq);
    rewrite ?compare3_complement in *; destruct (evaluate r l2), (evaluate r r2); simpl in *;
    try destruct op; simplify_eq/=; repeat destruct (compare _ _); done.
Qed.

(** ** Lists and ranges *)

Lemma elem_of_insert_sorted le e l x : x ∈ insert_sorted le e l <-> x = e \/ x ∈ l.
Proof.
  induction l as [|d l IH]; simpl; [by rewrite list_elem_of_singleton, elem_of_nil; naive_solver|].
  destruct (le e d); rewrite !elem_of_cons, ?IH, ?elem_of_cons; naive_solver.
Qed.

Lemma elem_of_sort_exprs le l x : x ∈ sort_exprs le l <-> x ∈ l.
Proof. induction l as [|d l IH]; simpl; [done|]. rewrite elem_of_insert_sorted, IH, elem_of_cons. done. Qed.

Lemma elem_of_dedup l x : x ∈ dedup l <-> x ∈ l.
Proof.
  induction l as [|a l IH]; simpl; [done|]. rewrite elem_of_cons, <- IH. destruct (dedup l) as [|b l']; [by rewrite list_elem_of_singleton, elem_of_nil; naive_solver|].
  destruct (decide (a = b)) as [->|]; rewrite !elem_of_cons; naive_solver.
Qed.

(** Membership depends on the values of the items only. *)
Lemma in3_ext x (l l' : list (option datum)) : (forall y, y ∈ l <-> y ∈ l') -> in3 x l = in3 x l'.
Proof.
  intros Hl. assert (forall f, existsb f l = existsb f l') as Hf.
  { intros f. apply eq_true_iff_eq. rewrite !existsb_elem. setoid_rewrite Hl. done. }
  unfold in3. by rewrite !Hf.
Qed.

Lemma evaluate_items (l l' : list Expr) : (forall e, e ∈ l' <-> e ∈ map strip_nested_expr l) ->
  forall y, y ∈ map (evaluate r) l' <-> y ∈ map (evaluate r) l.
Proof.
  intros Hl y. change (map (evaluate r)) with (fmap (M := list) (evaluate r)) in *. change (map strip_nested_expr) with (fmap (M := list) strip_nested_expr) in *.
  rewrite !list_elem_of_fmap. setoid_rewrite Hl. setoid_rewrite list_elem_of_fmap. split.
  - intros (e & -> & e' & -> & He). exists e'. by rewrite evaluate_strip.
  - intros (e & -> & He). exists (strip_nested_expr e). rewrite evaluate_strip. eauto.
Qed.

Definition signed (negated : bool) (t : option bool) : option bool := xorb negated <$> t.

Lemma signed_negated n m (t : option bool) : (if n : bool then negb <$> signed m t else signed m t) = signed (negb (Bool.eqb m n)) t.
Proof. by destruct n, m, t as [[]|]. Qed.

Lemma opposite_signs n m (t : option bool) : negb (Bool.eqb n m) = true -> signed n t = Some false -> signed m t = Some false -> False.
Proof. by destruct n, m, t as [[]|]. Qed.

Lemma in_list_check_truth e outer c : in_list_check outer e = Some c ->
  (if outer then negb <$> truth r e else truth r e) =
  signed c.(in_negated) (in3 (evaluate r c.(in_expr)) (map (evaluate r) c.(in_list))).
Proof.
  revert outer. induction e as [| |e IH| |op e IH| | | | | | | | | | | |e _ l negated| | | | | |]; intros outer Hc;
    cbn [in_list_check] in Hc; try done.
  - rewrite truth_nested. by apply IH.
  - destruct op; [|done]. apply IH in Hc. rewrite truth_not. destruct outer; simpl in Hc; [by rewrite negated_option|done].
  - destruct (_ && _); [|done]. injection Hc as <-. simpl. rewrite truth_in_list. fold (signed negated (in3 (evaluate r e) (map (evaluate r) l))).
    rewrite signed_negated, evaluate_strip. f_equal. apply in3_ext. intros y. symmetry. apply evaluate_items. intros x.
    case_match; [|done]. by rewrite elem_of_dedup, elem_of_sort_exprs.
Qed.

Lemma in_lists_hold e : or_contains_complementary_in_lists e = true -> truth r e <> Some false.
Proof.
  apply complementary_checks_hold. intros a b c d Ha Hb Ht Hfa Hfb. apply in_list_check_truth in Ha, Hb.
  rewrite Hfa in Ha. rewrite Hfb in Hb. apply andb_true_iff in Ht as [Ht Hn]. revert Hn. bool_solver. intros Hn.
  destruct c, d. simpl in *. subst. by eapply (opposite_signs _ _ _ Hn).
Qed.

Definition between_truth (c : PredicateBetweenCheck) : option bool :=
  let x := evaluate r c.(btw_expr) in
  and3 (compare3 PGtEq x (evaluate r c.(btw_low))) (compare3 PLtEq x (evaluate r c.(btw_high))).

Lemma between_check_truth e outer c : between_check outer e = Some c ->
  (if outer then negb <$> truth r e else truth r e) = signed c.(btw_negated) (between_truth c).
Proof.
  revert outer. induction e as [| |e IH| |op e IH| | | | | | | | | | | | |e _ negated low _ high _| | | | |]; intros outer Hc;
    cbn [between_check] in Hc; try done.
  - rewrite truth_nested. by apply IH.
  - destruct op; [|done]. apply IH in Hc. rewrite truth_not. destruct outer; simpl in Hc; [by rewrite negated_option|done].
  - destruct (expr_contains_column_reference e); [|done]. injection Hc as <-. unfold between_truth. simpl. rewrite !evaluate_strip.
    rewrite truth_between. apply signed_negated.
Qed.

Lemma between_checks_hold e : or_contains_complementary_between_checks e = true -> truth r e <> Some false.
Proof.
  apply complementary_checks_hold. intros a b c d Ha Hb Ht Hfa Hfb. apply between_check_truth in Ha, Hb.
  rewrite Hfa in Ha. rewrite Hfb in Hb. apply andb_true_iff in Ht as [Ht Hn]. revert Hn. bool_solver. intros Hn.
  destruct c, d. simpl in *. subst. by eapply (opposite_signs _ _ _ Hn).
Qed.

End Sound.

(** A disjunction that the check takes to be unbounded because two of its branches
    are complementary ([x IS NULL] and [x IS NOT NULL], [x < y] and [y <= x], [x IN l]
    and [x NOT IN l'] with the same values, [BETWEEN] and its negation, under any
    parentheses and negations) is false on no row, whatever the values are and in
    the three-valued logic of SQL. *)
Theorem complementary_disjunction_is_never_false `{AstVisitor, Evaluation, !EvaluationLaws} e (r : row) :
  or_contains_complementary_null_checks e = true \/ or_contains_complementary_comparisons e = true \/
  or_contains_complementary_in_lists e = true \/ or_contains_complementary_between_checks e = true ->
  truth r e <> Some false.
Proof.
  intros [Hc|[Hc|[Hc|Hc]]]; [by apply null_checks_hold|by apply comparisons_hold|by apply in_lists_hold|by apply between_checks_hold].
Qed.

(** ** Concrete runs *)

(** ASCII tables, a tokenizer without tokens, and trees of one column and numbers
    over rows of one value. *)
Module RiskRuns.

#[local] Instance ascii_tables : UnicodeTables := {| is_alphanumeric := is_ascii_alphanumeric |}.
#[local] Instance ascii_case : UnicodeCase := {| to_lowercase := map to_ascii_lowercase; to_uppercase := map to_ascii_uppercase |}.
#[local] Instance no_tokens : SqlTokenizer := {| tokenize := fun _ => None |}.
#[local] Instance no_json : JsonParser := {| json_from_str := fun _ => None |}.
#[local] Instance no_words : SqlparserLexers := {| tokenize_for := fun _ _ => Some []; tokenize_generic_verbatim := fun _ => None |}.

(** An expression and what is in it. *)
Fixpoint subexpressions (e : Expr) : list Expr :=
  e :: match e with
       | Nested a | UnaryOp _ a | IsTrue a | IsNotTrue a | IsFalse a | IsNotFalse a | IsNull a | IsNotNull a => subexpressions a
       | BinaryOp a _ b | IsNotDistinctFrom a b | IsDistinctFrom a b | Like _ _ a b _ | ILike _ _ a b _ => subexpressions a ++ subexpressions b
       | InList a l _ => subexpressions a ++ flat_map subexpressions l
       | Between a _ b c => subexpressions a ++ subexpressions b ++ subexpressions c
       | _ => []
       end.

#[local] Instance visitor : AstVisitor := {|
  expr_expressions := subexpressions;
  query_expressions := fun _ => [];
  query_nodes := fun _ => [];
  expr_leb := fun a b => match a, b with Identifier _, _ => true | _, Identifier _ => false | _, _ => true end
|}.

Definition x : Expr := Identifier (mkIdent (txt "x") None).
Definition number (s : string) : Expr := EValue (Number (txt s) false).

(** A row is the value of the column. *)
Fixpoint value_of (r : option Z) (e : Expr) : option Z :=
  match e with
  | Identifier _ => r
  | EValue (Number s _) => parse_unsigned 1000 s
  | Nested e => value_of r e
  | _ => None
  end.

Definition values : Evaluation := {|
  row := option Z; datum := Z; evaluate := value_of; truth := fun _ _ => None; compare := Z.compare |}.

Fixpoint truth_of (r : option Z) (e : Expr) : option bool :=
  match e with
  | Nested e => truth_of r e
  | UnaryOp Not e => negb <$> truth_of r e
  | BinaryOp a Or b => or3 (truth_of r a) (truth_of r b)
  | BinaryOp a Spaceship b => Some (@null_safe_equal values (value_of r a) (value_of r b))
  | BinaryOp a op b => p ← predicate_comparison_operator op; @compare3 values p (value_of r a) (value_of r b)
  | IsNull e => Some (match value_of r e with None => true | Some _ => false end)
  | IsNotNull e => Some (match value_of r e with None => false | Some _ => true end)
  | InList e l negated => xorb negated <$> @in3 values (value_of r e) (map (value_of r) l)
  | Between e negated low high =>
    xorb negated <$> and3 (@compare3 values PGtEq (value_of r e) (value_of r low)) (@compare3 values PLtEq (value_of r e) (value_of r high))
  | _ => None
  end.

#[local] Instance evaluation : Evaluation := {|
  row := option Z; datum := Z; evaluate := value_of; truth := truth_of; compare := Z.compare |}.

Lemma evaluation_laws : EvaluationLaws.
Proof.
  split; try done.
  - intros y z. apply Z.compare_antisym.
  - intros r a op b p Hop Hp. destruct op; try done; simpl in Hp; simplify_eq; done.
Qed.

(** [x > 1 OR NOT (NOT (1 >= (x)))], on a row and for an unknown value. *)
Lemma complementary_disjunction_is_never_false_witness :
  let e := BinaryOp (BinaryOp x Gt (number "1")) Or (UnaryOp Not (Nested (UnaryOp Not (BinaryOp (number "1") GtEq (Nested x))))) in
  truth_of (Some 1%Z) e <> Some false /\ truth_of None e <> Some false.
Proof.
  intros e. pose proof evaluation_laws as Hlaws.
  split; [apply (@complementary_disjunction_is_never_false _ evaluation Hlaws e (Some 1%Z))|
    apply (@complementary_disjunction_is_never_false _ evaluation Hlaws e None)];
    right; left; vm_compute; reflexivity.
Defined.

(** [WITH gone AS (DELETE FROM t WHERE x = 1) SELECT ...]. *)
Definition bounded_delete : Statement := Delete false [mkTable false []] false (Some (BinaryOp x Eq (number "1"))).
Definition writing_query : Query := mkQuery [mkQuery [] (SDelete bounded_delete) false []] (Select false []) false [].

#[local] Instance parses_write : SqlparserParser := {| parse_sql := fun _ _ => Some [StQuery writing_query] |}.


Definition plain_query : Statement := StQuery (mkQuery [] (Select false []) false []).
Definition parses_read : SqlparserParser := {| parse_sql := fun _ _ => Some [plain_query] |}.

Lemma read_only_is_never_dangerous_witness :
  @is_dangerous_sql_for_database _ _ _ _ _ _ parses_read (txt "SELECT 'DELETE'") DatabaseType.Mysql = false.
Proof.
  apply (@read_only_is_never_dangerous _ _ _ _ _ _ parses_read (txt "SELECT 'DELETE'") DatabaseType.Mysql); vm_compute; reflexivity.
Defined.

Lemma proven_read_is_classified_as_read_witness :
  @classify_sql_risk_for_database _ _ _ _ _ _ parses_read (txt "SELECT 'DELETE'") DatabaseType.Mysql = Ok ReadOnly.
Proof.
  apply (@proven_read_is_classified_as_read _ _ _ _ _ _ parses_read (txt "SELECT 'DELETE'") DatabaseType.Mysql);
    [left|vm_compute; reflexivity..].
Defined.

(** [x = x] is unbounded; with one operand in parentheses it is not found to be. *)
Example parentheses_hide_a_tautology :
  predicate_is_obviously_unbounded (BinaryOp x Eq x) = true /\
  predicate_is_obviously_unbounded (BinaryOp x Eq (Nested x)) = false /\
  predicate_is_obviously_unbounded (IsNotDistinctFrom x (Nested x)) = true.
Proof. vm_compute. done. Qed.

End RiskRuns.
