(* ===== verification/ProductionSafety.v ===== *)
(** * Production scope

    [crates/dbx-core/src/safety/production_safety.rs]: whether a statement, a script
    or a MongoDB pipeline writes to a database that is marked as production, and
    whether it names a database outside the list an agent is restricted to.  The
    text is scanned for literals, comments and quoted names; the targets are found
    in what is left by regular expressions, whose matching is an argument, as are
    the tokenizer, the parser and the visitor of PostgreSQL queries. *)

From S2P Require Import Prelude Json Utf8 Float64 Cypher SqlDialect SqlLex SqlBlocks SqlScanner SqlRanges SqlFileImport SqlSplitter.
From S2P Require Import QueryExecutionSql SqlRisk.

(** The regular expressions of the file, by name. *)
Inductive Pattern : Type :=
| DML_TARGET_RE | APPLY_TARGET_RE | APPLY_RE | FROM_CLAUSE_RE | LEADING_TARGET_RE | DDL_OBJECT_TARGET_RE | INDEX_ON_TARGET_RE
| DATABASE_TARGET_RE | USE_RE | COPY_TARGET_RE | TRUNCATE_TARGET_RE | RENAME_TABLE_TARGET_RE | MAINTENANCE_TABLE_TARGET_RE
| COMMENT_TARGET_RE | ROUTINE_CALL_TARGET_RE | PRIVILEGE_TARGET_RE | PRIVILEGE_DATABASE_TARGET_RE | GLOBAL_PRIVILEGE_TARGET_RE
| GLOBAL_DDL_TARGET_RE | MULTI_TARGET_MUTATION_RE | FIRST_KEYWORD_RE.

(** The matches of an expression in a text, in order, with their groups; group 0 is
    the match. *)
Class Regexes : Type := { captures_iter : Pattern -> text -> list (list (option text)) }.

(** A token of PostgreSQL as far as it is looked at. *)
Inductive ScopeToken : Type := ScopeWhitespace | ScopeString (value : text) | ScopeOther (o : text).

(** A factor of a [FROM] clause. *)
Inductive ScopeTable : Type := PlainTable | TableFunction | DerivedTable | NestedJoin | OtherTable.

(** What the visitor of a query is shown. *)
Inductive ScopeNode : Type :=
| ScopeStatement (is_query : bool) | ScopeSelect (into : bool) | ScopeExpr (e : Expr) | ScopeFactor (t : ScopeTable).

(** The tokenizer without unescaping, and the parser on its tokens with the nodes of
    each statement in the order in which they are visited. *)
Class PostgresScope : Type := {
  scope_tokens : text -> option (list ScopeToken);
  scope_statements : list ScopeToken -> option (list (list ScopeNode))
}.

Record ConnectionConfig : Type := mkConnection {
  is_production : bool;
  production_databases : list text;
  db_type : DatabaseType.t;
  driver_profile : option text
}.

Definition MAX_SCOPE_QUERY_TOKENS : nat := 2048.

Definition POSTGRES_SCOPE_QUERY_FUNCTIONS : list string :=
  ["abs"; "age"; "array_agg"; "array_length"; "ascii"; "avg"; "btrim"; "cardinality"; "ceil"; "ceiling";
   "char_length"; "character_length"; "chr"; "coalesce"; "concat"; "concat_ws"; "count"; "current_catalog";
   "current_date"; "current_schema"; "current_setting"; "current_time"; "current_timestamp"; "current_user";
   "date_part"; "date_trunc"; "decode"; "div"; "encode"; "every"; "exp"; "floor"; "format"; "gen_random_uuid";
   "greatest"; "left"; "length"; "localtime"; "localtimestamp"; "log"; "lower"; "lpad"; "ltrim"; "max"; "md5"; "min";
   "mod"; "now"; "nullif"; "position"; "power"; "repeat"; "replace"; "reverse"; "right"; "round"; "rpad"; "rtrim";
   "sha224"; "sha256"; "sha384"; "sha512"; "sign"; "split_part"; "sqrt"; "starts_with"; "strpos"; "string_agg";
   "substr"; "substring"; "sum"; "to_char"; "to_date"; "to_hex"; "to_number"; "to_timestamp"; "trunc"; "unnest";
   "upper"; "version"]%string.

(** [s.trim_matches(p)]. *)
Definition trim_matches (p : Z -> bool) (s : text) : text :=
  let start := (span p s).2 in reverse (span p (reverse start)).2.

Definition is_quote_mark (c : Z) : bool := (c =? c_backtick)%Z || (c =? c_dquote)%Z || (c =? 91)%Z || (c =? 93)%Z.

Definition normalize_database_name (value : text) : text := ascii_lower (trim_matches is_quote_mark (trim_chars value)).

Definition is_production_database (config : ConnectionConfig) (database : text) : bool :=
  config.(is_production)
  || (negb (bool_decide (trim_chars database = []))
      && existsb (fun name => bool_decide (normalize_database_name name = normalize_database_name database)) config.(production_databases)).

(** ** MongoDB pipelines *)

(** The scalar values of a string of JSON, whose model is its UTF-8 bytes. *)
Definition scalar_value (c : text) : Z :=
  let payload b := Z.land b 63 in
  match c with
  | [b] => b
  | [a; b] => (Z.land a 31 * 64 + payload b)%Z
  | [a; b; c] => ((Z.land a 15 * 64 + payload b) * 64 + payload c)%Z
  | [a; b; c; d] => (((Z.land a 7 * 64 + payload b) * 64 + payload c) * 64 + payload d)%Z
  | _ => 0%Z
  end.
Definition scalars (s : string) : text := map scalar_value (chars (txt s)).

(** The write stages met, whether a target is not known, and the targets. *)
Record MongoTargets : Type := mkTargets { has_write_stage : bool; mongo_uncertain : bool; targets : list text }.

Definition add_mongo_current_database (active_database : text) (t : MongoTargets) : MongoTargets :=
  if bool_decide (trim_chars active_database = []) then mkTargets t.(has_write_stage) true t.(targets)
  else mkTargets t.(has_write_stage) t.(mongo_uncertain) (active_database :: t.(targets)).

(** The database that an object names under [db]. *)
Definition add_named_database (members : list (string * json)) (t : MongoTargets) : MongoTargets :=
  match obj_get "db" members with
  | Some (JString database) =>
    if bool_decide (trim_chars (scalars database) = []) then mkTargets t.(has_write_stage) true t.(targets)
    else mkTargets t.(has_write_stage) t.(mongo_uncertain) (scalars database :: t.(targets))
  | _ => mkTargets t.(has_write_stage) true t.(targets)
  end.

Definition mark_uncertain (t : MongoTargets) : MongoTargets := mkTargets t.(has_write_stage) true t.(targets).
Definition mark_write (t : MongoTargets) : MongoTargets := mkTargets true t.(mongo_uncertain) t.(targets).

Definition out_stage (active_database : text) (document : list (string * json)) (t : MongoTargets) : MongoTargets :=
  match obj_get "$out" document with
  | None => t
  | Some target =>
    let t := mark_write t in
    match target with
    | JString _ => add_mongo_current_database active_database t
    | JObject members => add_named_database members t
    | _ => mark_uncertain t
    end
  end.

Definition merge_stage (active_database : text) (document : list (string * json)) (t : MongoTargets) : MongoTargets :=
  match obj_get "$merge" document with
  | None => t
  | Some target =>
    let t := mark_write t in
    match target with
    | JString _ => add_mongo_current_database active_database t
    | JObject members =>
      match obj_get "into" members with
      | Some (JString _) => add_mongo_current_database active_database t
      | Some (JObject into) => add_named_database into t
      | _ => mark_uncertain t
      end
    | _ => mark_uncertain t
    end
  end.

Definition mongo_stage (active_database : text) (t : MongoTargets) (stage : json) : MongoTargets :=
  match stage with
  | JObject document => merge_stage active_database document (out_stage active_database document t)
  | _ => t
  end.

Definition mongo_pipeline_targets_production_database `{JsonParser} (config : ConnectionConfig) (active_database pipeline_json : text)
    : bool :=
  if is_production_database config active_database then true
  else match json_from_str pipeline_json with
  | Some (JArray stages) =>
    let t := fold_left (mongo_stage active_database) stages (mkTargets false false []) in
    t.(has_write_stage) && (t.(mongo_uncertain) || existsb (is_production_database config) t.(targets))
  | _ => true
  end.

(** ** The text without literals and comments *)

Record SqlScanLexerRules : Type := mkRules {
  hash_line_comments : bool;
  backslash_escaped_quotes : bool;
  postgres_escape_strings : bool;
  oracle_alternative_quotes : bool
}.

Definition rules_for_database_type (d : DatabaseType.t) : SqlScanLexerRules :=
  let mysql_family := bool_decide (d ∈ [DatabaseType.Mysql; DatabaseType.Doris; DatabaseType.StarRocks;
                                        DatabaseType.ManticoreSearch; DatabaseType.Goldendb]) in
  let postgres_family := bool_decide (d ∈ [DatabaseType.Postgres; DatabaseType.OpenGauss; DatabaseType.Gaussdb;
                                           DatabaseType.Vastbase; DatabaseType.Kingbase; DatabaseType.Highgo; DatabaseType.Uxdb;
                                           DatabaseType.Gbase8c; DatabaseType.Kwdb]) in
  let oracle_family := bool_decide (d ∈ [DatabaseType.Oracle; DatabaseType.OceanbaseOracle]) in
  mkRules mysql_family mysql_family postgres_family oracle_family.

Record SqlTargetSafetyText : Type := mkSafetyText { safety_text : text; quoted_identifiers : list (text * text) }.

Definition push_text (s : text) (r : SqlTargetSafetyText) : SqlTargetSafetyText :=
  mkSafetyText (r.(safety_text) ++ s) r.(quoted_identifiers).

(** [__dbxq{n}__]. *)
Definition identifier_token (n : nat) : text := txt "__dbxq" ++ decimal (Z.of_nat n) ++ txt "__".

Definition push_identifier (identifier : text) (r : SqlTargetSafetyText) : SqlTargetSafetyText :=
  let token := identifier_token (length r.(quoted_identifiers)) in
  mkSafetyText (r.(safety_text) ++ 32%Z :: token ++ [32%Z]) ((ascii_lower token, identifier) :: r.(quoted_identifiers)).

(** [mysql_executable_comment_body], on the text after the opener of the comment:
    the body, and what follows the comment. *)
Definition mysql_executable_comment_body (s : text) : option (text * text) :=
  let body rest :=
    let start := (span (fun c => is_ascii_digit c || is_whitespace c) rest).2 in
    match find_sub [c_star; c_slash] start with
    | Some i => Some (take i start, drop (i + 2) start)
    | None => Some (start, [])
    end in
  match s with
  | c :: rest =>
    if (c =? 33)%Z then body rest
    else if (c =? 77)%Z && opt_is (head rest) 33 then body (tail rest)
    else None
  | [] => None
  end.

(** [dollar_quote_tag_at]: the tag at the start of the text. *)
Definition dollar_quote_tag_at (s : text) : option text :=
  match s with
  | c :: rest =>
    if negb (c =? c_dollar)%Z then None
    else match rest with
    | d :: _ =>
      if (d =? c_dollar)%Z then Some [c_dollar; c_dollar]
      else if negb (is_ascii_alphabetic d || (d =? c_underscore)%Z) then None
      else
        let '(tag, after) := span (fun c => is_ascii_alphanumeric c || (c =? c_underscore)%Z) rest in
        if opt_is (head after) c_dollar then Some (c_dollar :: tag ++ [c_dollar]) else None
    | [] => None
    end
  | [] => None
  end.

(** The text after a literal, from its content on. *)
Fixpoint skip_string_content (backslash_escapes : bool) (close : Z) (s : text) : text :=
  match s with
  | [] => []
  | c :: rest =>
    if backslash_escapes && (c =? c_backslash)%Z then match rest with _ :: rest' => skip_string_content backslash_escapes close rest' | [] => [] end
    else if (c =? close)%Z then
      match rest with
      | d :: rest' => if (d =? close)%Z then skip_string_content backslash_escapes close rest' else rest
      | [] => []
      end
    else skip_string_content backslash_escapes close rest
  end.

(** The name in quotes and the text after it, from its content on. *)
Fixpoint quoted_identifier_content (close : Z) (identifier s : text) : text * text :=
  match s with
  | [] => (identifier, [])
  | c :: rest =>
    if (c =? close)%Z then
      match rest with
      | d :: rest' => if (d =? close)%Z then quoted_identifier_content close (identifier ++ [close]) rest' else (identifier, rest)
      | [] => (identifier, [])
      end
    else quoted_identifier_content close (identifier ++ [if (c =? c_semicolon)%Z then 32%Z else c]) rest
  end.

Section Safety.
Context `{UnicodeTables, UnicodeCase, SqlTokenizer, SqlparserLexers, JsonParser, Regexes, PostgresScope}.

(** [prefix] is the text before the quote. *)
Definition ends_with_escape_string_prefix (prefix : text) : bool :=
  match reverse prefix with
  | c :: before =>
    ((c =? 69) || (c =? 101))%Z
    && negb (opt_test (fun ch => is_alphanumeric ch || (ch =? c_underscore)%Z || (ch =? c_dollar)%Z) (head before))
  | [] => false
  end.

Definition skip_string_literal (rules : SqlScanLexerRules) (prefix content : text) : text :=
  skip_string_content
    (rules.(backslash_escaped_quotes) || (rules.(postgres_escape_strings) && ends_with_escape_string_prefix prefix)) c_quote content.

(** [read_oracle_alternative_quote_end]: the text after the literal at the start of
    [s], if there is one. *)
Definition read_oracle_alternative_quote_end (prefix s : text) : option text :=
  quote ← match s with
          | c :: rest =>
            if ((c =? 110) || (c =? 78))%Z then if opt_is (head rest) 113 || opt_is (head rest) 81 then Some (tail rest) else None
            else if ((c =? 113) || (c =? 81))%Z then Some rest else None
          | [] => None
          end;
  match quote with
  | q :: rest =>
    if negb (q =? c_quote)%Z then None
    else if opt_test (fun ch => is_alphanumeric ch || (ch =? c_underscore)%Z || (ch =? c_dollar)%Z || (ch =? c_hash)%Z) (last prefix) then None
    else match rest with
    | opener :: content =>
      if is_whitespace opener then None
      else
        let closer := if (opener =? 91)%Z then 93%Z else if (opener =? 123)%Z then 125%Z
                      else if (opener =? 40)%Z then 41%Z else if (opener =? 60)%Z then 62%Z else opener in
        Some (match find_sub [closer; c_quote] content with Some i => drop (i + 2) content | None => [] end)
    | [] => None
    end
  | [] => None
  end.

(** The loop of [append_sql_target_safety_text]: every round reads at least one
    character, and the body of an executable comment is shorter than the text. *)
Fixpoint safety_loop (fuel : nat) (rules : SqlScanLexerRules) (prefix s : text) (r : SqlTargetSafetyText) : SqlTargetSafetyText :=
  match fuel with
  | 0 => r
  | S fuel' =>
    (* Go on with what is left, after pushing a text. *)
    let continue pushed after :=
      safety_loop fuel' rules (prefix ++ take (length s - length after) s) after (push_text pushed r) in
    let line_comment rest := continue [32%Z] (span (fun c => negb ((c =? c_newline) || (c =? 13))%Z) rest).2 in
    match s with
    | [] => r
    | c :: rest =>
      if (c =? c_dash)%Z && opt_is (head rest) c_dash then line_comment (tail rest)
      else if (c =? c_hash)%Z && rules.(hash_line_comments) then line_comment rest
      else if (c =? c_slash)%Z && opt_is (head rest) c_star then
        match mysql_executable_comment_body (tail rest) with
        | Some (body, after) =>
          let r := push_text [32%Z] (safety_loop fuel' rules [] body (push_text [32%Z] r)) in
          safety_loop fuel' rules (prefix ++ take (length s - length after) s) after r
        | None => continue [32%Z] (after_first [c_star; c_slash] (tail rest))
        end
      else match dollar_quote_tag_at s with
      | Some tag => continue [32%Z] (after_first tag (drop (length tag) s))
      | None =>
        match (if rules.(oracle_alternative_quotes) && ((c =? 113) || (c =? 81) || (c =? 110) || (c =? 78))%Z
               then read_oracle_alternative_quote_end prefix s else None) with
        | Some after => continue [32%Z] after
        | None =>
          if (c =? c_quote)%Z then continue [32%Z] (skip_string_literal rules prefix rest)
          else if (c =? c_dquote)%Z || (c =? c_backtick)%Z || (c =? 91)%Z then
            let '(identifier, after) := quoted_identifier_content (if (c =? 91)%Z then 93%Z else c) [] rest in
            safety_loop fuel' rules (prefix ++ take (length s - length after) s) after (push_identifier identifier r)
          else safety_loop fuel' rules (prefix ++ [c]) rest (push_text [c] r)
        end
      end
    end
  end.

Definition sql_target_safety_text (sql : text) (d : DatabaseType.t) : SqlTargetSafetyText :=
  safety_loop (S (length sql)) (rules_for_database_type d) [] sql (mkSafetyText [] []).

(** ** The databases a statement names *)

Record ReferencedDatabaseAssessment : Type := mkAssessment { databases : list text; uncertain : bool }.

Fixpoint lookup_identifier (identifiers : list (text * text)) (token : text) : option text :=
  match identifiers with
  | [] => None
  | (k, v) :: rest => if bool_decide (k = token) then Some v else lookup_identifier rest token
  end.

Definition normalize_target_database_name (value : text) (identifiers : list (text * text)) : text :=
  let normalized := normalize_database_name value in
  match lookup_identifier identifiers normalized with Some quoted => normalize_database_name quoted | None => normalized end.

Definition schema_first_qualifier_type (d : DatabaseType.t) : bool :=
  bool_decide (d ∈ [DatabaseType.Postgres; DatabaseType.Redshift; DatabaseType.Gaussdb; DatabaseType.Kwdb; DatabaseType.OpenGauss;
    DatabaseType.Kingbase; DatabaseType.Highgo; DatabaseType.Uxdb; DatabaseType.Vastbase; DatabaseType.Gbase8c;
    DatabaseType.Yashandb; DatabaseType.Oracle; DatabaseType.OceanbaseOracle; DatabaseType.Dameng; DatabaseType.Firebird;
    DatabaseType.Exasol; DatabaseType.Teradata; DatabaseType.Vertica; DatabaseType.Db2; DatabaseType.Informix; DatabaseType.H2;
    DatabaseType.Iris; DatabaseType.Xugu; DatabaseType.Oscar; DatabaseType.Gbase; DatabaseType.Gbase8s; DatabaseType.SapHana;
    DatabaseType.SqlServer; DatabaseType.Snowflake; DatabaseType.Trino; DatabaseType.PrestoSql; DatabaseType.Databricks;
    DatabaseType.Bigquery; DatabaseType.Spanner]).

Definition qualified_first_part_is_database (d : DatabaseType.t) (part_count : nat) : bool :=
  if (3 <=? part_count)%nat
     && bool_decide (d ∈ [DatabaseType.SqlServer; DatabaseType.Snowflake; DatabaseType.Trino; DatabaseType.PrestoSql;
                          DatabaseType.Databricks; DatabaseType.Bigquery])
  then true
  else if schema_first_qualifier_type d then false
  else (2 <=? part_count)%nat.

Definition database_target_kind_means_database (kind : text) (d : DatabaseType.t) : bool :=
  if eq_ignore_ascii_case kind (txt "database") || eq_ignore_ascii_case kind (txt "catalog") then true
  else eq_ignore_ascii_case kind (txt "schema") && negb (schema_first_qualifier_type d).

Definition non_empty (s : text) : option text := if bool_decide (s = []) then None else Some s.

Definition database_from_qualified_name (qualified_name : text) (d : DatabaseType.t) (identifiers : list (text * text))
    (current_database : text) : option text :=
  let parts := nonempty_pieces (map (fun part => normalize_target_database_name part identifiers) (split_on 46 qualified_name)) in
  if (length parts <? 2)%nat then non_empty current_database
  else if bool_decide (d = DatabaseType.SqlServer) && (4 <=? length parts)%nat then parts !! 1
  else if qualified_first_part_is_database d (length parts) then head parts
  else non_empty current_database.

(** The text of a group of a match. *)
Definition group (i : nat) (captures : list (option text)) : option text := mjoin (captures !! i).

Definition is_match (p : Pattern) (s : text) : bool := match captures_iter p s with [] => false | _ => true end.
Definition captures (p : Pattern) (s : text) : option (list (option text)) := head (captures_iter p s).

Definition collect_qualified_target_database_groups (statement : text) (d : DatabaseType.t) (identifiers : list (text * text))
    (current_database : text) (pattern : Pattern) (capture_indexes : list nat) : list text :=
  flat_map (fun capture =>
    flat_map (fun i =>
      option_list (target ← group i capture;
                   database ← database_from_qualified_name target d identifiers current_database;
                   non_empty database)) capture_indexes)
    (captures_iter pattern statement).

Definition collect_qualified_target_databases (statement : text) (d : DatabaseType.t) (identifiers : list (text * text))
    (current_database : text) (patterns : list Pattern) : list text :=
  flat_map (fun pattern => collect_qualified_target_database_groups statement d identifiers current_database pattern [1]) patterns.

(** The parts of a list between commas outside parentheses. *)
Fixpoint split_targets (depth : nat) (part s : text) : list text :=
  match s with
  | [] => [trim_chars part]
  | c :: rest =>
    if (c =? 40)%Z then split_targets (S depth) (part ++ [c]) rest
    else if (c =? 41)%Z then split_targets (depth - 1) (part ++ [c]) rest
    else if (c =? 44)%Z && (depth =? 0)%nat then trim_chars part :: split_targets depth [] rest
    else split_targets depth (part ++ [c]) rest
  end.
Definition split_top_level_comma_separated_targets (value : text) : list text := split_targets 0 [] value.

(** The databases of the factors, and whether one of them is not resolved. *)
Definition collect_comma_separated_from_databases (statement : text) (d : DatabaseType.t) (identifiers : list (text * text))
    (current_database : text) : list text * bool :=
  let resolved :=
    flat_map (fun capture =>
      match group 1 capture with
      | None => []
      | Some from_body =>
        let factors := split_top_level_comma_separated_targets from_body in
        if (length factors <? 2)%nat then []
        else map (fun factor => capture ← captures LEADING_TARGET_RE factor; target ← group 1 capture;
                                database_from_qualified_name target d identifiers current_database) factors
      end) (captures_iter FROM_CLAUSE_RE statement) in
  (flat_map option_list resolved, existsb (fun o => match o with None => true | Some _ => false end) resolved).

Definition first_keyword (statement : text) : option text :=
  capture ← captures FIRST_KEYWORD_RE statement; ascii_lower <$> group 0 capture.

Definition is_transaction_keyword (keyword : text) : bool :=
  one_of keyword ["begin"; "start"; "commit"; "rollback"; "abort"; "savepoint"; "release"; "end"; "declare"]%string.

Definition is_ambiguous_production_target_statement (statement : text) (has_resolved_target : bool) : bool :=
  if negb (is_write_sql statement) then false
  else match first_keyword statement with
  | None => true
  | Some keyword => if is_transaction_keyword keyword then false else is_match GLOBAL_DDL_TARGET_RE statement || negb has_resolved_target
  end.

Definition TARGET_PATTERNS : list Pattern :=
  [DML_TARGET_RE; APPLY_TARGET_RE; DDL_OBJECT_TARGET_RE; INDEX_ON_TARGET_RE; TRUNCATE_TARGET_RE; MAINTENANCE_TABLE_TARGET_RE;
   COMMENT_TARGET_RE; ROUTINE_CALL_TARGET_RE; PRIVILEGE_TARGET_RE].

(** The database of a [USE] statement. *)
Definition used_database (identifiers : list (text * text)) (statement : text) : option text :=
  capture ← captures USE_RE statement; target ← group 1 capture; non_empty (normalize_target_database_name target identifiers).

(** The databases a statement names, and whether it may name others: one round of
    [referenced_databases] for a statement that is looked into. *)
Definition assess_statement (d : DatabaseType.t) (identifiers : list (text * text)) (include_read_references static_postgres_query : bool)
    (current_database statement : text) : list text * bool :=
  let qualified := collect_qualified_target_databases statement d identifiers current_database TARGET_PATTERNS in
  let '(listed, unresolved) :=
    if include_read_references && negb static_postgres_query
    then collect_comma_separated_from_databases statement d identifiers current_database else ([], false) in
  let apply := include_read_references
    && negb (length (captures_iter APPLY_RE statement) =? length (captures_iter APPLY_TARGET_RE statement))%nat in
  let renamed := collect_qualified_target_database_groups statement d identifiers current_database RENAME_TABLE_TARGET_RE [1; 2] in
  let defined :=
    flat_map (fun capture =>
      option_list (kind ← group 1 capture;
                   if database_target_kind_means_database kind d
                   then target ← group 2 capture; non_empty (normalize_target_database_name target identifiers) else None))
      (captures_iter DATABASE_TARGET_RE statement) in
  let privileged :=
    flat_map (fun capture => option_list (target ← group 1 capture; non_empty (normalize_target_database_name target identifiers)))
      (captures_iter PRIVILEGE_DATABASE_TARGET_RE statement) in
  let copied :=
    option_list (capture ← captures COPY_TARGET_RE statement; target ← group 1 capture;
                 database ← database_from_qualified_name target d identifiers current_database; non_empty database) in
  let statement_databases := qualified ++ listed ++ renamed ++ defined ++ privileged ++ copied in
  let has_resolved_target := negb (bool_decide (statement_databases = [])) in
  (statement_databases,
   unresolved || apply || is_match GLOBAL_PRIVILEGE_TARGET_RE statement || is_match MULTI_TARGET_MUTATION_RE statement
   || is_ambiguous_production_target_statement statement has_resolved_target).

(** The statements of the scanned text. *)
Definition target_statements (cleaned : text) : list text := nonempty_pieces (map trim_chars (split_on c_semicolon cleaned)).

(** The loop of [referenced_databases]; [use_database] is empty before the first
    [USE]. *)
Fixpoint assess_statements (d : DatabaseType.t) (identifiers : list (text * text)) (active : text)
    (include_read_references static_postgres_query : bool) (use_database : text) (statements : list text) : ReferencedDatabaseAssessment :=
  match statements with
  | [] => mkAssessment [] false
  | statement :: statements' =>
    let continue := assess_statements d identifiers active include_read_references static_postgres_query in
    match used_database identifiers statement with
    | Some database =>
      let a := continue database statements' in mkAssessment (database :: a.(databases)) a.(uncertain)
    | None =>
      if negb (is_write_sql statement) && negb include_read_references then continue use_database statements'
      else
        let current_database := if bool_decide (use_database = []) then active else use_database in
        let '(found, unclear) := assess_statement d identifiers include_read_references static_postgres_query current_database statement in
        let a := continue use_database statements' in mkAssessment (found ++ a.(databases)) (unclear || a.(uncertain))
    end
  end.

Definition referenced_databases (sql : text) (d : DatabaseType.t) (active_database : text)
    (include_read_references static_postgres_query : bool) : ReferencedDatabaseAssessment :=
  let cleaned := sql_target_safety_text sql d in
  assess_statements d cleaned.(quoted_identifiers) (normalize_database_name active_database) include_read_references
    static_postgres_query [] (target_statements cleaned.(safety_text)).

Definition targets_production_database (config : ConnectionConfig) (active_database sql : text) : bool :=
  if is_production_database config active_database then true
  else
    let marked := map normalize_database_name config.(production_databases) in
    if bool_decide (marked = []) then false
    else
      let assessment := referenced_databases sql config.(db_type) active_database false false in
      existsb (fun database => bool_decide (database ∈ marked)) assessment.(databases) || assessment.(uncertain).

(** ** Restriction to a list of databases *)

Definition sql_database_scope_is_disallowed (sql : text) (d : DatabaseType.t) (active_database : text) (allowed_databases : list text)
    (static_postgres_query : bool) : bool :=
  let allowed := nonempty_pieces (map normalize_database_name allowed_databases) in
  let assessment := referenced_databases sql d active_database true static_postgres_query in
  assessment.(uncertain) || existsb (fun database => negb (bool_decide (database ∈ allowed))) assessment.(databases).

Definition sql_references_disallowed_database (sql : text) (d : DatabaseType.t) (active_database : text) (allowed_databases : list text)
    : bool :=
  sql_database_scope_is_disallowed sql d active_database allowed_databases false.

Definition is_supported_postgres_scope_call (f : FunctionCall) : bool :=
  if f.(over) then false
  else match f.(function_name) with
  | [Some ident] =>
    existsb (fun name => match ident.(quote_style) with
                         | Some _ => bool_decide (ident.(ident_value) = txt name)
                         | None => eq_ignore_ascii_case ident.(ident_value) (txt name)
                         end) POSTGRES_SCOPE_QUERY_FUNCTIONS
  | _ => false
  end.

(** The visitor [StaticPostgresQuery] goes on after the node. *)
Definition static_postgres_node (node : ScopeNode) : bool :=
  match node with
  | ScopeStatement is_query => is_query
  | ScopeSelect into => negb into
  | ScopeExpr (Function f) => is_supported_postgres_scope_call f
  | ScopeExpr _ => true
  | ScopeFactor (PlainTable | DerivedTable | NestedJoin) => true
  | ScopeFactor _ => false
  end.

Definition has_static_postgres_query_structure (sql : text) : bool :=
  match scope_tokens sql with
  | None => false
  | Some tokens =>
    if (MAX_SCOPE_QUERY_TOKENS <? length (List.filter (fun t => match t with ScopeWhitespace => false | _ => true end) tokens))%nat then false
    else if existsb (fun t => match t with ScopeString value => contains [c_backslash] value | _ => false end) tokens then false
    else match scope_statements tokens with
    | None => false
    | Some statements => negb (bool_decide (length statements = 0)) && forallb (forallb static_postgres_node) statements
    end
  end.

Definition sql_references_disallowed_database_for_connection (sql : text) (connection : ConnectionConfig) (active_database : text)
    (allowed_databases : list text) : bool :=
  let static_postgres_query :=
    bool_decide (connection.(db_type) = DatabaseType.Postgres)
    && match connection.(driver_profile) with
       | None => true
       | Some profile => bool_decide (profile = []) || eq_ignore_ascii_case profile (txt "postgres")
       end
    && has_static_postgres_query_structure sql in
  sql_database_scope_is_disallowed sql connection.(db_type) active_database allowed_databases static_postgres_query.

End Safety.
