(* ===== verification/ProductionSafetySpec.v ===== *)
(** * What the production gate lets through

    Theorems on ProductionSafety.v: which databases a statement names is defined
    over the matches of the target expressions ([names], [hides_names]), and on
    scripts of a grammar the gate asks exactly if a statement switches to or names a
    marked database or is a write that may name more, in the database that is in
    force where it stands; the scan before it keeps the code of the text; the targets
    of a pipeline are those of its stages. *)

From S2P Require Import Prelude Json Utf8 Float64 Cypher SqlDialect SqlLex SqlBlocks SqlScanner SqlRanges SqlFileImport SqlSplitter.
From S2P Require Import QueryExecutionSql SqlRisk ProductionSafety SqlSplitterSpec SqlSplitterGrammar QueryExecutionSqlSpec.

(** ** The gate *)

Section Gate.
Context `{UnicodeTables, UnicodeCase, SqlTokenizer, SqlparserLexers, JsonParser, Regexes, PostgresScope}.
Context (d : DatabaseType.t) (identifiers : list (text * text)) (active : text) (reads static : bool).

(** The parts of a dotted name, and the database it belongs to where [current] is in
    force: the second of the four parts of a name with a linked server, the first part
    where it is a catalog or where the qualifier is the database, and otherwise the
    database in force. *)
Definition name_parts (target : text) : list text :=
  List.filter (fun part => negb (bool_decide (part = []))) (map (fun part => normalize_target_database_name part identifiers) (split_on 46 target)).

Definition catalog_first : list DatabaseType.t :=
  [DatabaseType.SqlServer; DatabaseType.Snowflake; DatabaseType.Trino; DatabaseType.PrestoSql; DatabaseType.Databricks; DatabaseType.Bigquery].

Inductive database_of (current : text) : list text -> text -> Prop :=
| unqualified parts : length parts < 2 -> current <> [] -> database_of current parts current
| linked_server server database schema table rest :
    d = DatabaseType.SqlServer -> database_of current (server :: database :: schema :: table :: rest) database
| in_catalog catalog schema table rest :
    d ∈ catalog_first -> (d = DatabaseType.SqlServer -> rest = []) -> database_of current (catalog :: schema :: table :: rest) catalog
| in_schema schema table rest :
    schema_first_qualifier_type d = true -> (d ∈ catalog_first -> rest = []) -> current <> [] ->
    database_of current (schema :: table :: rest) current
| in_database database table rest :
    schema_first_qualifier_type d = false -> (d ∈ catalog_first -> rest = []) ->
    database_of current (database :: table :: rest) database.

(** The kinds of a definition that are databases. *)
Definition defines_database (kind : text) : Prop :=
  eq_ignore_ascii_case kind (txt "database") = true \/ eq_ignore_ascii_case kind (txt "catalog") = true \/
  (eq_ignore_ascii_case kind (txt "schema") = true /\ schema_first_qualifier_type d = false).

(** The factors of a list of tables, and the name that a factor starts with. *)
Definition factor_of (statement factor : text) : Prop :=
  exists capture body, capture ∈ captures_iter FROM_CLAUSE_RE statement /\ group 1 capture = Some body /\
    2 <= length (split_top_level_comma_separated_targets body) /\ factor ∈ split_top_level_comma_separated_targets body.
Definition factor_database (current factor database : text) : Prop :=
  exists capture rest target, captures_iter LEADING_TARGET_RE factor = capture :: rest /\ group 1 capture = Some target /\
    database_of current (name_parts target) database.

(** The databases that the matches of the expressions in a statement name. *)
Inductive names (current statement : text) : text -> Prop :=
| names_target pattern capture target database :
    pattern ∈ [DML_TARGET_RE; APPLY_TARGET_RE; DDL_OBJECT_TARGET_RE; INDEX_ON_TARGET_RE; TRUNCATE_TARGET_RE; MAINTENANCE_TABLE_TARGET_RE;
               COMMENT_TARGET_RE; ROUTINE_CALL_TARGET_RE; PRIVILEGE_TARGET_RE] ->
    capture ∈ captures_iter pattern statement -> group 1 capture = Some target ->
    database_of current (name_parts target) database -> names current statement database
| names_renamed capture i target database :
    capture ∈ captures_iter RENAME_TABLE_TARGET_RE statement -> i = 1 \/ i = 2 -> group i capture = Some target ->
    database_of current (name_parts target) database -> names current statement database
| names_defined capture kind target :
    capture ∈ captures_iter DATABASE_TARGET_RE statement -> group 1 capture = Some kind -> group 2 capture = Some target ->
    defines_database kind -> normalize_target_database_name target identifiers <> [] ->
    names current statement (normalize_target_database_name target identifiers)
| names_privileged capture target :
    capture ∈ captures_iter PRIVILEGE_DATABASE_TARGET_RE statement -> group 1 capture = Some target ->
    normalize_target_database_name target identifiers <> [] ->
    names current statement (normalize_target_database_name target identifiers)
| names_copied capture rest target database :
    captures_iter COPY_TARGET_RE statement = capture :: rest -> group 1 capture = Some target ->
    database_of current (name_parts target) database -> names current statement database
| names_listed factor database :
    reads = true -> static = false -> factor_of statement factor -> factor_database current factor database ->
    names current statement database.

(** A statement may name databases that no match gives: a grant on everything, a
    write of several tables, a write that defines objects of the server or names no
    database and does not control a transaction, and among reads a factor without a
    name or an [APPLY] that is not of a name. *)
Definition hides_names (current statement : text) : Prop :=
  captures_iter GLOBAL_PRIVILEGE_TARGET_RE statement <> [] \/
  captures_iter MULTI_TARGET_MUTATION_RE statement <> [] \/
  (is_write_sql statement = true /\
   match first_keyword statement with
   | None => True
   | Some keyword => is_transaction_keyword keyword = false /\
       (captures_iter GLOBAL_DDL_TARGET_RE statement <> [] \/ forall database, ~ names current statement database)
   end) \/
  (reads = true /\ length (captures_iter APPLY_RE statement) <> length (captures_iter APPLY_TARGET_RE statement)) \/
  (reads = true /\ static = false /\ exists factor, factor_of statement factor /\ forall database, ~ factor_database current factor database).

(** The database that a statement switches to. *)
Definition switches_to (statement : text) : option text :=
  match captures_iter USE_RE statement with
  | capture :: _ =>
    match group 1 capture with
    | Some target =>
      let database := normalize_target_database_name target identifiers in if bool_decide (database = []) then None else Some database
    | None => None
    end
  | [] => None
  end.

Lemma used_database_switches statement : used_database identifiers statement = switches_to statement.
Proof using. unfold used_database, switches_to, captures. by destruct (captures_iter USE_RE statement) as [|c rest]; cbn; [|destruct (group 1 c)]. Qed.

Lemma non_empty_Some s x : non_empty s = Some x <-> s = x /\ x <> [].
Proof using. unfold non_empty. case_bool_decide; naive_solver. Qed.

Lemma name_parts_nonempty target part : part ∈ name_parts target -> part <> [].
Proof using. unfold name_parts. rewrite list_elem_of_In, filter_In. intros [_ Hp]. by case_bool_decide. Qed.

Lemma catalog_schema_first : d ∈ catalog_first -> schema_first_qualifier_type d = true.
Proof using. unfold catalog_first. set_unfold. intros [->|[->|[->|[->|[->|[->|[]]]]]]]; by vm_compute. Qed.

(** The code finds the database of a name. *)
Lemma database_of_name current target database :
  database_from_qualified_name target d identifiers current = Some database <-> database_of current (name_parts target) database.
Proof using.
  unfold database_from_qualified_name. change (nonempty_pieces _) with (name_parts target).
  pose proof catalog_schema_first as Hcat. destruct (name_parts target) as [|x [|y rest]]; cbn [length Nat.ltb Nat.leb].
  1, 2: rewrite non_empty_Some; split; [intros [<- ?]; constructor; [cbn; lia|done]|intros Hd; by inversion Hd].
  destruct (decide (d = DatabaseType.SqlServer)) as [Hs|Hs].
  - assert (Hc : d ∈ catalog_first) by (rewrite Hs; left). rewrite (bool_decide_eq_true_2 (d = _)) by done.
    destruct rest as [|z [|w rest]]; cbn [length Nat.leb andb].
    + unfold qualified_first_part_is_database. cbn [Nat.leb andb]. rewrite (Hcat Hc), non_empty_Some.
      split; [intros [<- ?]; by apply in_schema; auto|]. intros Hd; inversion Hd; subst; try (cbn in *; lia); try done; by (pose proof (Hcat Hc); congruence) || congruence.
    + unfold qualified_first_part_is_database. cbn [Nat.leb andb]. rewrite bool_decide_eq_true_2 by done. cbn [head].
      split; [intros [= <-]; by apply in_catalog|]. intros Hdb; inversion Hdb as [? Hl|? ? ? ? ? ?|? ? ? ? Hd Hr|? ? ? ? Hr|? ? ? Hf Hr]; subst; try (cbn in Hl; lia); try done; by specialize (Hr Hc).
    + cbn [lookup]. split; [intros [= <-]; by apply linked_server|].
      intros Hdb; inversion Hdb as [? Hl|? ? ? ? ? ?|? ? ? ? Hd Hr|? ? ? ? Hr|? ? ? Hf Hr]; subst; try (cbn in Hl; lia); try done; first [by specialize (Hr Hs)|by specialize (Hr Hc)].
  - rewrite (bool_decide_eq_false_2 (d = _)) by done. cbn [andb]. unfold qualified_first_part_is_database. fold catalog_first.
    destruct (decide (d ∈ catalog_first)) as [Hc|Hc].
    + rewrite bool_decide_eq_true_2, (Hcat Hc), andb_true_r by done. destruct rest as [|z rest]; cbn [length Nat.leb].
      * rewrite non_empty_Some. split; [intros [<- ?]; by apply in_schema; auto|]. intros Hd; inversion Hd; subst; try (cbn in *; lia); try done; by (pose proof (Hcat Hc); congruence) || congruence.
      * cbn [head]. split; [intros [= <-]; by apply in_catalog|].
        intros Hdb; inversion Hdb as [? Hl|? ? ? ? ? ?|? ? ? ? Hd Hr|? ? ? ? Hr|? ? ? Hf Hr]; subst; try (cbn in Hl; lia); try done; by specialize (Hr Hc).
    + rewrite bool_decide_eq_false_2, andb_false_r by done. destruct (schema_first_qualifier_type d) eqn:Hf.
      * rewrite non_empty_Some. split; [intros [<- ?]; apply in_schema; done|]. intros Hd; inversion Hd; subst; try (cbn in *; lia); try done; by (pose proof (Hcat Hc); congruence) || congruence.
      * cbn [Nat.leb head length]. split; [intros [= <-]; by constructor|]. intros Hd; inversion Hd; subst; try (cbn in *; lia); try done; by (pose proof (Hcat Hc); congruence) || congruence.
Qed.

Lemma database_of_nonempty current target database : database_of current (name_parts target) database -> database <> [].
Proof using.
  intros Hd. pose proof (name_parts_nonempty target) as Hp. destruct Hd; try done; apply Hp; set_solver.
Qed.

Lemma elem_option_list {A} (o : option A) x : x ∈ option_list o <-> o = Some x.
Proof using. destruct o; cbn; [rewrite list_elem_of_singleton; naive_solver|]. rewrite elem_of_nil. naive_solver. Qed.

Lemma elem_flat_map {A B} (f : A -> list B) l y : y ∈ flat_map f l <-> exists x, x ∈ l /\ y ∈ f x.
Proof using. rewrite list_elem_of_In, in_flat_map. by setoid_rewrite <- list_elem_of_In. Qed.

Lemma group_database current o database :
  (target ← o; database ← database_from_qualified_name target d identifiers current; non_empty database) = Some database <->
  exists target, o = Some target /\ database_of current (name_parts target) database.
Proof using.
  rewrite bind_Some. split; intros (target & -> & Hd); exists target; (split; [done|]).
  - apply bind_Some in Hd as (x & Hx%database_of_name & [<- _]%non_empty_Some). done.
  - apply bind_Some. exists database. rewrite database_of_name, non_empty_Some. split_and!; [done..|]. by eapply database_of_nonempty.
Qed.

Lemma collected_groups current statement pattern indexes database :
  database ∈ collect_qualified_target_database_groups statement d identifiers current pattern indexes <->
  exists capture i target, capture ∈ captures_iter pattern statement /\ i ∈ indexes /\ group i capture = Some target /\
    database_of current (name_parts target) database.
Proof using.
  unfold collect_qualified_target_database_groups. rewrite elem_flat_map. setoid_rewrite elem_flat_map. setoid_rewrite elem_option_list.
  setoid_rewrite group_database. naive_solver.
Qed.

(** The factors of a list of tables, with the databases found for them. *)
Lemma collected_factors current statement :
  let '(found, unresolved) := collect_comma_separated_from_databases statement d identifiers current in
  (forall database, database ∈ found <-> exists factor, factor_of statement factor /\ factor_database current factor database) /\
  (unresolved = true <-> exists factor, factor_of statement factor /\ forall database, ~ factor_database current factor database).
Proof using.
  unfold collect_comma_separated_from_databases.
  set (find := fun factor => capture ← captures LEADING_TARGET_RE factor; target ← group 1 capture; database_from_qualified_name target d identifiers current).
  assert (Hfind : forall factor database, find factor = Some database <-> factor_database current factor database).
  { intros factor database. unfold find, factor_database, captures.
    destruct (captures_iter LEADING_TARGET_RE factor) as [|c cs]; cbn; [naive_solver|]. rewrite bind_Some. setoid_rewrite database_of_name. naive_solver. }
  set (resolved := flat_map _ (captures_iter FROM_CLAUSE_RE statement)).
  assert (Hin : forall o, o ∈ resolved <-> exists factor, factor_of statement factor /\ find factor = o).
  { intros o. unfold resolved, factor_of. rewrite elem_flat_map. split.
    - intros (capture & Hc & Ho). destruct (group 1 capture) as [body|] eqn:Hg; [|by apply elem_of_nil in Ho].
      destruct (Nat.ltb_spec (length (split_top_level_comma_separated_targets body)) 2); [by apply elem_of_nil in Ho|].
      apply list_elem_of_fmap in Ho as (factor & -> & Hf). exists factor. split; [by exists capture, body|done].
    - intros (factor & (capture & body & Hc & Hg & Hl & Hf) & <-). exists capture. split; [done|]. rewrite Hg.
      destruct (Nat.ltb_spec (length (split_top_level_comma_separated_targets body)) 2); [lia|]. by apply list_elem_of_fmap_2. }
  split.
  - intros database. rewrite elem_flat_map. setoid_rewrite elem_option_list. setoid_rewrite Hin. setoid_rewrite <- Hfind. naive_solver.
  - rewrite existsb_exists. setoid_rewrite <- list_elem_of_In. setoid_rewrite Hin. split.
    + intros (o & (factor & Hf & <-) & Ho). exists factor. split; [done|]. intros database. rewrite <- Hfind. by destruct (find factor).
    + intros (factor & Hf & Hn). exists (find factor). split; [by exists factor|]. destruct (find factor) as [database|] eqn:E; [|done].
      by apply Hfind, Hn in E.
Qed.

Lemma kind_defines kind : database_target_kind_means_database kind d = true <-> defines_database kind.
Proof using.
  unfold database_target_kind_means_database, defines_database.
  destruct (eq_ignore_ascii_case kind (txt "database")), (eq_ignore_ascii_case kind (txt "catalog")), (eq_ignore_ascii_case kind (txt "schema")),
    (schema_first_qualifier_type d); cbn; naive_solver.
Qed.

Lemma is_match_true pattern statement : is_match pattern statement = true <-> captures_iter pattern statement <> [].
Proof using. unfold is_match. by destruct (captures_iter pattern statement). Qed.

(** The code finds what the matches name. *)
Lemma assessed_names current statement database :
  database ∈ (assess_statement d identifiers reads static current statement).1 <-> names current statement database.
Proof using.
  unfold assess_statement. pose proof (collected_factors current statement) as Hfactors.
  destruct (collect_comma_separated_from_databases statement d identifiers current) as [found unresolved]. destruct Hfactors as [Hfound _].
  assert (Hl : database ∈ (if reads && negb static then (found, unresolved) else ([], false)).1 <->
    reads = true /\ static = false /\ exists factor, factor_of statement factor /\ factor_database current factor database).
  { rewrite <- Hfound. destruct reads, static; cbn; rewrite ?elem_of_nil; naive_solver. }
  destruct (if reads && negb static then (found, unresolved) else ([], false)) as [listed u]. cbn [fst] in *.
  rewrite !elem_of_app, Hl, collected_groups. unfold collect_qualified_target_databases. rewrite !elem_flat_map, elem_option_list.
  setoid_rewrite elem_option_list. setoid_rewrite collected_groups. split.
  - intros [(p & Hp & c & i & t & Hc & ->%list_elem_of_singleton & Ht & Hd)|[(Hr & Hs & f & Hf & Hd)|[(c & i & t & Hc & Hi & Ht & Hd)|[(c & Hc & Hd)|[(c & Hc & Hd)|Hd]]]]].
    + by eapply names_target.
    + by eapply names_listed.
    + eapply names_renamed; [done| |done..]. set_solver.
    + apply bind_Some in Hd as (k & Hk & Hd). destruct (database_target_kind_means_database k d) eqn:Ek; [|done]. apply kind_defines in Ek.
      apply bind_Some in Hd as (t & Ht & [<- Hn]%non_empty_Some). by eapply names_defined.
    + apply bind_Some in Hd as (t & Ht & [<- Hn]%non_empty_Some). by eapply names_privileged.
    + apply bind_Some in Hd as (c & Hc & Hd). apply group_database in Hd as (t & Ht & Hd).
      unfold captures in Hc. destruct (captures_iter COPY_TARGET_RE statement) as [|c' cs] eqn:E; simplify_eq/=. by eapply names_copied.
  - intros [p c t db Hp Hc Ht Hd|c i t db Hc Hi Ht Hd|c k t Hc Hk Ht Hd Hn|c t Hc Ht Hn|c cs t db Hc Ht Hd|f db Hr Hs Hf Hd].
    + left. exists p. split; [done|]. exists c, 1, t. set_solver.
    + do 2 right; left. exists c, i, t. set_solver.
    + do 3 right; left. exists c. split; [done|]. rewrite Hk. cbn. apply kind_defines in Hd. rewrite Hd, Ht. cbn. by apply non_empty_Some.
    + do 4 right; left. exists c. split; [done|]. rewrite Ht. cbn. by apply non_empty_Some.
    + do 5 right. unfold captures. rewrite Hc. cbn. apply group_database. eauto.
    + right; left. eauto.
Qed.

Lemma assessed_hides current statement :
  (assess_statement d identifiers reads static current statement).2 = true <-> hides_names current statement.
Proof using.
  pose proof (assessed_names current statement) as Hnames. unfold assess_statement in *. pose proof (collected_factors current statement) as Hfactors.
  destruct (collect_comma_separated_from_databases statement d identifiers current) as [found unresolved]. destruct Hfactors as [_ Hun].
  assert (Hu : (if reads && negb static then (found, unresolved) else ([], false)).2 = true <->
    reads = true /\ static = false /\ exists factor, factor_of statement factor /\ forall database, ~ factor_database current factor database).
  { rewrite <- Hun. destruct reads, static; cbn; naive_solver. }
  destruct (if reads && negb static then (found, unresolved) else ([], false)) as [listed u]. cbn [fst snd] in *.
  set (all := _ ++ listed ++ _) in *. rewrite !orb_true_iff, andb_true_iff, negb_true_iff, Nat.eqb_neq, !is_match_true, Hu.
  assert (Hnone : negb (bool_decide (all = [])) = false <-> forall database, ~ names current statement database).
  { setoid_rewrite <- Hnames. rewrite negb_false_iff, bool_decide_eq_true. split; [intros ->; set_solver|]. destruct all as [|x all']; [done|]. intros Hx. destruct (Hx x). left. }
  unfold hides_names, is_ambiguous_production_target_statement.
  assert (Ha : (if negb (is_write_sql statement) then false else match first_keyword statement with None => true | Some keyword =>
      if is_transaction_keyword keyword then false else is_match GLOBAL_DDL_TARGET_RE statement || negb (negb (bool_decide (all = []))) end) = true <->
    is_write_sql statement = true /\ match first_keyword statement with None => True | Some keyword => is_transaction_keyword keyword = false /\
       (captures_iter GLOBAL_DDL_TARGET_RE statement <> [] \/ forall database, ~ names current statement database) end).
  { destruct (is_write_sql statement); cbn [negb]; [|naive_solver]. destruct (first_keyword statement) as [k|]; [|naive_solver].
    destruct (is_transaction_keyword k); [naive_solver|]. rewrite orb_true_iff, negb_true_iff, is_match_true, Hnone. naive_solver. }
  rewrite Ha. clear. tauto.
Qed.

(** The database of the last [USE] of the statements, [use] without one. *)
Definition last_used (use : text) (statements : list text) : text :=
  fold_left (fun use statement => default use (switches_to statement)) statements use.

(** The database in force after the statements. *)
Definition database_in_force (use : text) (before : list text) : text :=
  let use := last_used use before in if bool_decide (use = []) then active else use.

(** What a statement names in its place, and whether it may name more. *)
Definition names_database (current statement database : text) : Prop :=
  match switches_to statement with
  | Some used => database = used
  | None => (is_write_sql statement = true \/ reads = true) /\ names current statement database
  end.

Definition is_unclear (current statement : text) : Prop :=
  switches_to statement = None /\ (is_write_sql statement = true \/ reads = true) /\ hides_names current statement.

(** A statement of a list in its place. *)
Definition at_place (use : text) (statements : list text) (P : text -> text -> Prop) : Prop :=
  exists before statement after, statements = before ++ statement :: after /\ P (database_in_force use before) statement.

Lemma at_place_nil use P : at_place use [] P <-> False.
Proof. split; [|done]. intros (before & st & after & He & _). by destruct before. Qed.

Lemma at_place_cons use st statements P :
  at_place use (st :: statements) P <->
  P (if bool_decide (use = []) then active else use) st \/ at_place (default use (switches_to st)) statements P.
Proof.
  split.
  - intros (before & st' & after & He & Hp). destruct before as [|b before]; simplify_eq/=; [by left|].
    right. by exists before, st', after.
  - intros [Hp|(before & st' & after & -> & Hp)]; [by exists [], st, statements|by exists (st :: before), st', after].
Qed.

(** The assessment of a script is that of its statements in their places. *)
Lemma assessed_script use statements :
  let a := assess_statements d identifiers active reads static use statements in
  (forall database, database ∈ a.(databases) <-> at_place use statements (fun current st => names_database current st database)) /\
  (a.(uncertain) = true <-> at_place use statements is_unclear).
Proof using.
  revert use. induction statements as [|st statements IH]; intros use; cbn [assess_statements databases uncertain].
  { split; [intros database; by rewrite at_place_nil, elem_of_nil|by rewrite at_place_nil]. }
  destruct (IH use) as [IH1 IH2]. setoid_rewrite at_place_cons. unfold names_database at 1, is_unclear at 1.
  rewrite used_database_switches. destruct (switches_to st) as [used|]; cbn [databases uncertain default].
  { destruct (IH used) as [IHu1 IHu2]. setoid_rewrite elem_of_cons. setoid_rewrite IHu1. rewrite IHu2. naive_solver. }
  set (current := if bool_decide (use = []) then active else use).
  pose proof (assessed_names current st) as Hn. pose proof (assessed_hides current st) as Hh.
  destruct (assess_statement d identifiers reads static current st) as [found unclear]. cbn [fst snd] in *.
  destruct (is_write_sql st) eqn:Hw, reads eqn:Hr; cbn [negb andb databases uncertain];
    try (setoid_rewrite elem_of_app; setoid_rewrite IH1; setoid_rewrite Hn; rewrite orb_true_iff, IH2, Hh; naive_solver).
  setoid_rewrite IH1. rewrite IH2. naive_solver.
Qed.

End Gate.

(** The restriction to a list of databases passes a script exactly if every
    statement, reads included, names only allowed databases in its place and none
    is unclear. *)
Theorem scope_restriction_is_exact `{UnicodeTables, UnicodeCase, SqlTokenizer, SqlparserLexers, JsonParser, Regexes, PostgresScope}
    sql d active allowed :
  let cleaned := sql_target_safety_text sql d in
  sql_references_disallowed_database sql d active allowed = false <->
  forall before statement after, target_statements cleaned.(safety_text) = before ++ statement :: after ->
    let current := database_in_force cleaned.(quoted_identifiers) (normalize_database_name active) [] before in
    ~ is_unclear d cleaned.(quoted_identifiers) true false current statement /\
    forall database, names_database d cleaned.(quoted_identifiers) true false current statement database ->
      database <> [] /\ database ∈ map normalize_database_name allowed.
Proof.
  intros cleaned. unfold sql_references_disallowed_database, sql_database_scope_is_disallowed, referenced_databases. fold cleaned.
  destruct (assessed_script d cleaned.(quoted_identifiers) (normalize_database_name active) true false [] (target_statements cleaned.(safety_text)))
    as [Hnames Hunclear].
  rewrite orb_false_iff, <- !not_true_iff_false, existsb_exists, Hunclear. setoid_rewrite <- list_elem_of_In.
  setoid_rewrite Hnames. setoid_rewrite negb_true_iff. setoid_rewrite bool_decide_eq_false.
  assert (Hin : forall x, x ∈ nonempty_pieces (map normalize_database_name allowed) <-> x <> [] /\ x ∈ map normalize_database_name allowed).
  { intros x. unfold nonempty_pieces. rewrite list_elem_of_In, filter_In, <- list_elem_of_In, negb_true_iff, bool_decide_eq_false. naive_solver. }
  setoid_rewrite Hin. unfold at_place. split.
  - intros [Hu Hd] before st after He. split; [intros Hun; apply Hu; by exists before, st, after|].
    intros database Hn. apply dec_stable. intros Hno. apply Hd. exists database. split; [by exists before, st, after|done].
  - intros Hall. split.
    + intros (before & st & after & He & Hun). by destruct (Hall before st after He).
    + intros (database & (before & st & after & He & Hn) & Hno). destruct (Hall before st after He) as [_ Hd]. auto.
Qed.

(** ** The scan keeps the code *)

(** An item that the scan reads as what it is, after the text [buf]. *)
Definition code_item (rules : SqlScanLexerRules) (buf : text) (i : item) : bool :=
  match i with
  | Plain c =>
    negb (is_any_quote c) && negb (c =? 91)%Z && negb (c =? c_dollar)%Z && negb (rules.(hash_line_comments) && (c =? c_hash)%Z)
    && negb ((c =? c_dash)%Z && opt_is (last buf) c_dash) && negb ((c =? c_star)%Z && opt_is (last buf) c_slash)
  | Quoted quote body =>
    is_any_quote quote && lacks quote body && lacks c_backslash body && negb (opt_is (last buf) quote)
    && negb (rules.(oracle_alternative_quotes) && (quote =? c_quote)%Z && is_q (last buf))
  | LineComment body => lacks c_newline body && lacks 13 body && negb (opt_is (last buf) c_dash)
  | BlockComment body => lacks c_slash body && negb (is_mysql_executable_comment_marker body)
  end.

Fixpoint code_items (rules : SqlScanLexerRules) (buf : text) (l : list item) : bool :=
  match l with
  | [] => true
  | i :: l' => code_item rules buf i && code_items rules (buf ++ render_item i) l'
  end.

(** What an item leaves: its character, the token of a quoted name, or a blank. *)
Definition safety_item (r : SqlTargetSafetyText) (i : item) : SqlTargetSafetyText :=
  match i with
  | Plain c => push_text [c] r
  | Quoted quote body =>
    if (quote =? c_quote)%Z then push_text [32%Z] r
    else push_identifier (map (fun c => if (c =? c_semicolon)%Z then 32%Z else c) body) r
  | LineComment _ => push_text [c_newline] (push_text [32%Z] r)
  | BlockComment _ => push_text [32%Z] r
  end.

Definition safety_of (l : list item) : SqlTargetSafetyText := fold_left safety_item l (mkSafetyText [] []).

Lemma span_rest_length p (s : text) : length (span p s).2 <= length s.
Proof. induction s as [|c s IH]; simpl; [done|]. destruct (p c); [|simpl; lia]. destruct (span p s); simpl in *; lia. Qed.

Lemma after_first_length pat (s : text) : length (after_first pat s) <= length s.
Proof. unfold after_first. destruct (find_sub pat s); simpl; [rewrite length_drop; lia|lia]. Qed.

(** Induction on the length of a text, for loops that read one or two characters. *)
Lemma skip_string_length escapes close s : length (skip_string_content escapes close s) <= length s.
Proof.
  induction s as [s IH] using (induction_ltof1 _ (@length Z)). unfold ltof in IH. destruct s as [|c s]; simpl; [lia|].
  destruct (_ && _); [destruct s as [|d s]; simpl; [lia|]; specialize (IH s ltac:(simpl; lia)); lia|].
  destruct (c =? close)%Z; [|specialize (IH s ltac:(simpl; lia)); lia].
  destruct s as [|d s]; simpl; [lia|]. destruct (d =? close)%Z; simpl; [|lia]. specialize (IH s ltac:(simpl; lia)). lia.
Qed.

Lemma quoted_identifier_length close identifier s : length (quoted_identifier_content close identifier s).2 <= length s.
Proof.
  revert identifier. induction s as [s IH] using (induction_ltof1 _ (@length Z)). unfold ltof in IH. intros identifier.
  destruct s as [|c s]; simpl; [lia|].
  destruct (c =? close)%Z; [|specialize (IH s ltac:(simpl; lia) (identifier ++ [if (c =? c_semicolon)%Z then 32%Z else c])); simpl in IH; lia].
  destruct s as [|d s]; simpl; [lia|]. destruct (d =? close)%Z; simpl; [|lia].
  specialize (IH s ltac:(simpl; lia) (identifier ++ [close])). simpl in IH. lia.
Qed.

Lemma executable_comment_length s body after : mysql_executable_comment_body s = Some (body, after) ->
  length body <= length s /\ length after <= length s.
Proof.
  assert (Hb : forall rest body after, match find_sub [c_star; c_slash] (span (fun c => is_ascii_digit c || is_whitespace c) rest).2 with
      | Some i => Some (take i (span (fun c => is_ascii_digit c || is_whitespace c) rest).2, drop (i + 2) (span (fun c => is_ascii_digit c || is_whitespace c) rest).2)
      | None => Some ((span (fun c => is_ascii_digit c || is_whitespace c) rest).2, [])
      end = Some (body, after) -> length body <= length rest /\ length after <= length rest).
  { intros rest b a. pose proof (span_rest_length (fun c => is_ascii_digit c || is_whitespace c) rest) as Hs.
    destruct (find_sub _ _); intros [= <- <-]; rewrite ?length_take, ?length_drop; simpl; lia. }
  unfold mysql_executable_comment_body. destruct s as [|c rest]; [done|]. destruct (c =? 33)%Z.
  - intros [??]%Hb. simpl. lia.
  - destruct (_ && _); [|done]. intros [??]%Hb. destruct rest; simpl in *; lia.
Qed.

Section Scan.
Context `{Unicode : UnicodeTables}.
Context (rules : SqlScanLexerRules).

Lemma oracle_quote_length prefix s after : read_oracle_alternative_quote_end prefix s = Some after -> length after <= length (tail s).
Proof.
  unfold read_oracle_alternative_quote_end. intros He. apply bind_Some in He as (quote & Hq & He).
  assert (length quote <= length (tail s)).
  { clear He. destruct s as [|c rest]; [done|]. destruct (_ || _); [destruct (_ || _)|destruct (_ || _)]; simplify_eq/=; [|lia].
    destruct rest; simpl; lia. }
  destruct quote as [|q rest]; [done|]. destruct (negb _); [done|]. destruct (opt_test _ _); [done|].
  destruct rest as [|opener content]; [done|]. destruct (is_whitespace opener); [done|]. injection He as <-.
  destruct (find_sub _ content); simpl in *; rewrite ?length_drop; lia.
Qed.

Lemma safety_enough n m prefix s r : length s < n -> length s < m ->
  safety_loop n rules prefix s r = safety_loop m rules prefix s r.
Proof.
  revert m prefix s r. induction n as [|n IH]; intros m prefix s r Hn Hm; [lia|]. destruct m as [|m]; [lia|].
  destruct s as [|c rest]; [done|]. simpl in Hn, Hm.
  assert (Hfg : forall prefix t r, length t <= length rest -> safety_loop n rules prefix t r = safety_loop m rules prefix t r)
    by (intros; apply IH; lia).
  assert (Htail : length (tail rest) <= length rest) by (destruct rest; simpl; lia).
  cbn [safety_loop].
  destruct (_ && _). { apply Hfg. etrans; [apply span_rest_length|done]. }
  destruct (_ && _). { apply Hfg, span_rest_length. }
  destruct (_ && _).
  { destruct (mysql_executable_comment_body (tail rest)) as [[body after]|] eqn:Hb.
    - apply executable_comment_length in Hb as [Hb Ha]. rewrite (Hfg _ body) by lia. apply Hfg. lia.
    - apply Hfg. etrans; [apply after_first_length|done]. }
  destruct (dollar_quote_tag_at (c :: rest)) as [tag|] eqn:Ht.
  { apply Hfg. etrans; [apply after_first_length|]. rewrite length_drop. simpl.
    unfold dollar_quote_tag_at in Ht. repeat case_match; simplify_eq/=; lia. }
  match goal with |- context [if ?b then read_oracle_alternative_quote_end ?p ?s else None] =>
    destruct (if b then read_oracle_alternative_quote_end p s else None) as [after|] eqn:Ho end.
  { apply Hfg. destruct (_ && _); [|done]. by apply oracle_quote_length in Ho. }
  destruct (c =? c_quote)%Z. { apply Hfg, skip_string_length. }
  destruct ((c =? c_dquote)%Z || (c =? c_backtick)%Z || (c =? 91)%Z); [|by apply Hfg].
  pose proof (quoted_identifier_length (if (c =? 91)%Z then 93%Z else c) [] rest) as Hq.
  destruct (quoted_identifier_content _ [] rest) as [identifier after]. by apply Hfg.
Qed.

Definition scan_text (prefix s : text) (r : SqlTargetSafetyText) : SqlTargetSafetyText := safety_loop (S (length s)) rules prefix s r.

Lemma scan_text_enough n prefix s r : length s < n -> safety_loop n rules prefix s r = scan_text prefix s r.
Proof. intros Hn. apply safety_enough; lia. Qed.

Lemma take_consumed (x a : text) : take (length (x ++ a) - length a) (x ++ a) = x.
Proof. rewrite length_app, Nat.add_sub. apply take_app_length. Qed.

(** The character after an item is not one that would continue it. *)
Lemma code_head buf l d : code_items rules buf l = true -> opt_is (head (render l)) d = true ->
  exists i l', l = i :: l' /\ code_item rules buf i = true /\ opt_is (head (render_item i)) d = true.
Proof.
  destruct l as [|i l]; [done|]. simpl. intros Hv Hd. apply andb_true_iff in Hv as [Hi _]. exists i, l.
  split_and!; [done..|]. by destruct i.
Qed.

Lemma no_code_pair buf l c d : (c = c_dash /\ d = c_dash) \/ (c = c_slash /\ d = c_star) ->
  code_items rules (buf ++ [c]) l = true -> opt_is (head (render l)) d = false.
Proof.
  intros Hcd Hv. apply not_true_iff_false. intros Hh. apply (code_head (buf ++ [c])) in Hh as (i & l' & -> & Hi & Hh); [|done].
  destruct i as [e|quote body|body|body]; simpl in Hi; cbn [render_item head opt_is] in Hh; apply Z.eqb_eq in Hh as <-; rewrite ?last_snoc in Hi.
  - destruct Hcd as [[-> ->]|[-> ->]]; simpl in Hi; by rewrite ?andb_false_r in Hi.
  - destruct Hcd as [[-> ->]|[-> ->]]; done.
  - destruct Hcd as [[-> _]|[_ ?]]; [|done]. simpl in Hi. by rewrite andb_false_r in Hi.
  - by destruct Hcd as [[_ ?]|[_ ?]].
Qed.

Lemma no_quote_after buf l quote : is_any_quote quote = true -> code_items rules (buf ++ [quote]) l = true ->
  opt_is (head (render l)) quote = false.
Proof.
  intros Hq Hv. apply not_true_iff_false. intros Hh. apply (code_head (buf ++ [quote])) in Hh as (i & l' & -> & Hi & Hh); [|done].
  destruct i as [e|quote' body|body|body]; simpl in Hi; cbn [render_item head opt_is] in Hh; apply Z.eqb_eq in Hh; subst; rewrite ?last_snoc in Hi.
  - by rewrite Hq in Hi.
  - simpl in Hi. rewrite Z.eqb_refl in Hi. simpl in Hi. by rewrite ?andb_false_r in Hi.
  - done.
  - done.
Qed.

(** ** Steps *)

Lemma scan_plain_char prefix l r c : code_item rules prefix (Plain c) = true -> code_items rules (prefix ++ [c]) l = true ->
  read_oracle_alternative_quote_end prefix (c :: render l) = None \/ rules.(oracle_alternative_quotes) = false ->
  scan_text prefix (c :: render l) r = scan_text (prefix ++ [c]) (render l) (push_text [c] r).
Proof.
  intros Hc Hv Ho. unfold scan_text at 1. cbn [safety_loop]. simpl in Hc. bool_solver.
  assert (((c =? c_dash)%Z && opt_is (head (render l)) c_dash) = false) as ->.
  { destruct (Z.eqb_spec c c_dash); [|done]. simpl. eapply no_code_pair; eauto. }
  assert (((c =? c_slash)%Z && opt_is (head (render l)) c_star) = false) as ->.
  { destruct (Z.eqb_spec c c_slash); [|done]. simpl. eapply no_code_pair; eauto. }
  unfold dollar_quote_tag_at, is_any_quote in *. bool_solver. rewrite (andb_comm (c =? c_hash)%Z).
  repeat match goal with E : _ = false |- _ => rewrite E; clear E end. simpl.
  match goal with |- context [if ?b then read_oracle_alternative_quote_end ?p ?s else None] =>
    replace (if b then read_oracle_alternative_quote_end p s else None) with (@None text); [done|] end.
  match goal with |- None = (if ?b then _ else None) => destruct b eqn:Eb; [|done] end.
  destruct Ho as [Ho|Ho]; [by rewrite Ho|by rewrite Ho in Eb].
Qed.

Lemma no_string_after_q buf l c : rules.(oracle_alternative_quotes) = true -> (c =? 113)%Z || (c =? 81)%Z = true ->
  code_items rules (buf ++ [c]) l = true -> opt_is (head (render l)) c_quote = false.
Proof.
  intros Ho Hc Hv. apply not_true_iff_false. intros Hh. apply (code_head (buf ++ [c])) in Hh as (i & l' & -> & Hi & Hh); [|done].
  destruct i as [e|quote body|body|body]; simpl in Hi; cbn [render_item head opt_is] in Hh; try done; rewrite last_snoc in Hi.
  - unfold is_any_quote in Hi. by rewrite Hh in Hi.
  - unfold is_q in Hi. cbn [opt_is] in Hi. rewrite Ho, Hh, Hc in Hi. by rewrite andb_false_r in Hi.
Qed.

Lemma no_oracle_literal buf l c : code_items rules (buf ++ [c]) l = true ->
  read_oracle_alternative_quote_end buf (c :: render l) = None \/ rules.(oracle_alternative_quotes) = false.
Proof.
  intros Hv. destruct (oracle_alternative_quotes rules) eqn:Ho; [left|by right]. unfold read_oracle_alternative_quote_end.
  destruct ((c =? 110) || (c =? 78))%Z.
  - destruct (opt_is (head (render l)) 113 || opt_is (head (render l)) 81) eqn:Hq; [|done]. simpl.
    assert (exists q, ((q =? 113)%Z || (q =? 81)%Z = true) /\ opt_is (head (render l)) q = true) as (q & Hq' & Hh).
    { apply orb_true_iff in Hq as [Hq|Hq]; [by exists 113%Z|by exists 81%Z]. }
    pose proof (code_head _ _ _ Hv Hh) as (i & l' & -> & Hi & Hi'). simpl in Hv. apply andb_true_iff in Hv as [_ Hv].
    destruct i as [e|quote body|body|body]; cbn [render_item head opt_is] in Hi'; apply Z.eqb_eq in Hi'; subst.
    + pose proof (no_string_after_q _ _ _ Ho Hq' Hv) as Hno. simpl. destruct (render l') as [|f t]; [done|]. simpl in Hno. by rewrite Hno.
    + simpl in Hi. unfold is_any_quote in Hi. lia.
    + done.
    + done.
  - destruct ((c =? 113) || (c =? 81))%Z eqn:Hc; [|done]. simpl. pose proof (no_string_after_q _ _ _ Ho Hc Hv) as Hno.
    destruct (render l) as [|f t]; [done|]. simpl in Hno. by rewrite Hno.
Qed.

Lemma skip_string_body escapes body t : lacks c_quote body = true -> lacks c_backslash body = true -> opt_is (head t) c_quote = false ->
  skip_string_content escapes c_quote (body ++ c_quote :: t) = t.
Proof.
  intros Hq%lacks_forall Hb%lacks_forall Ht. induction body as [|c body IH]; simpl.
  - rewrite andb_false_r. destruct t as [|d t]; [done|]. simpl in Ht. by rewrite Ht.
  - inversion Hq; inversion Hb; subst. destruct (Z.eqb_spec c c_backslash); [done|]. rewrite andb_false_r.
    destruct (Z.eqb_spec c c_quote); [done|]. auto.
Qed.

Lemma quoted_identifier_body quote identifier body t : lacks quote body = true -> opt_is (head t) quote = false ->
  quoted_identifier_content quote identifier (body ++ quote :: t) =
  (identifier ++ map (fun c => if (c =? c_semicolon)%Z then 32%Z else c) body, t).
Proof.
  intros Hq%lacks_forall Ht. revert identifier. induction Hq as [|c body Hc _ IH]; intros identifier; simpl.
  - rewrite Z.eqb_refl, app_nil_r. destruct t as [|d t]; [done|]. simpl in Ht. by rewrite Ht.
  - destruct (Z.eqb_spec c quote); [done|]. rewrite IH. by rewrite <- app_assoc.
Qed.

Lemma comment_end body t : lacks c_slash body = true -> after_first [c_star; c_slash] (body ++ c_star :: c_slash :: t) = t.
Proof.
  intros Hl. unfold after_first. assert (find_sub [c_star; c_slash] (body ++ c_star :: c_slash :: t) = Some (length body)) as ->.
  { apply lacks_forall in Hl. induction Hl as [|c body Hc Hl IH]; cbn [find_sub app length]; [by rewrite bool_decide_eq_true_2 by (by exists t)|].
    rewrite bool_decide_eq_false_2; [by rewrite IH|]. intros Hp. pose proof (prefix_cons_inv_2 _ _ _ _ Hp) as Hp2.
    destruct Hl as [|d ? Hd]; simpl in Hp2; apply prefix_cons_inv_1 in Hp2; done. }
  replace (length body + length [c_star; c_slash]) with (length (body ++ [c_star; c_slash])) by (rewrite length_app; done).
  rewrite (app_assoc body [c_star; c_slash] t : body ++ c_star :: c_slash :: t = _). apply drop_app_length.
Qed.

(** The scan goes on after the consumed text. *)
Lemma goes_on n prefix x a r : length a < n -> 
  safety_loop n rules (prefix ++ take (length (x ++ a) - length a) (x ++ a)) a r = scan_text (prefix ++ x) a r.
Proof. intros Hn. rewrite take_consumed. by apply scan_text_enough. Qed.

Lemma scan_string prefix body t r : lacks c_quote body = true -> lacks c_backslash body = true -> opt_is (head t) c_quote = false ->
  scan_text prefix (c_quote :: body ++ c_quote :: t) r = scan_text (prefix ++ c_quote :: body ++ [c_quote]) t (push_text [32%Z] r).
Proof.
  intros Hq Hb Ht. unfold scan_text at 1. cbn [safety_loop]. simpl andb. simpl orb. rewrite andb_false_r. cbv iota.
  unfold skip_string_literal. rewrite skip_string_body by done.
  replace (c_quote :: body ++ c_quote :: t) with ((c_quote :: body ++ [c_quote]) ++ t) by (simpl; by rewrite <- app_assoc).
  apply goes_on. rewrite !length_app. simpl. rewrite length_app. simpl. lia.
Qed.

Lemma scan_identifier prefix quote body t r : (quote = c_dquote \/ quote = c_backtick) -> lacks quote body = true -> opt_is (head t) quote = false ->
  scan_text prefix (quote :: body ++ quote :: t) r =
  scan_text (prefix ++ quote :: body ++ [quote]) t (push_identifier (map (fun c => if (c =? c_semicolon)%Z then 32%Z else c) body) r).
Proof.
  intros Hq Hl Ht. unfold scan_text at 1. cbn [safety_loop].
  destruct Hq as [-> | ->]; simpl andb; simpl orb; rewrite ?andb_false_r; cbv iota;
    match goal with |- context [dollar_quote_tag_at ?x] => change (dollar_quote_tag_at x) with (@None text) end; cbv iota;
    cbn [Z.eqb Pos.eqb]; rewrite quoted_identifier_body by done; cbn [app].
  - replace (c_dquote :: body ++ c_dquote :: t) with ((c_dquote :: body ++ [c_dquote]) ++ t) by (simpl; by rewrite <- app_assoc).
    apply goes_on. rewrite !length_app. simpl. rewrite length_app. simpl. lia.
  - replace (c_backtick :: body ++ c_backtick :: t) with ((c_backtick :: body ++ [c_backtick]) ++ t) by (simpl; by rewrite <- app_assoc).
    apply goes_on. rewrite !length_app. simpl. rewrite length_app. simpl. lia.
Qed.

Lemma span_safety_line body t : lacks c_newline body = true -> lacks 13 body = true ->
  (span (fun c => negb ((c =? c_newline) || (c =? 13))%Z) (body ++ c_newline :: t)).2 = c_newline :: t.
Proof.
  intros Hn%lacks_forall Hr%lacks_forall. induction body as [|c body IH]; [done|]. inversion Hn; inversion Hr; subst. simpl.
  destruct (Z.eqb_spec c c_newline); [done|]. destruct (Z.eqb_spec c 13); [done|]. simpl.
  specialize (IH ltac:(done) ltac:(done)). by destruct (span _ (body ++ _)).
Qed.

Lemma scan_line_item prefix body t r : lacks c_newline body = true -> lacks 13 body = true ->
  scan_text prefix (c_dash :: c_dash :: body ++ c_newline :: t) r =
  scan_text (prefix ++ c_dash :: c_dash :: body) (c_newline :: t) (push_text [32%Z] r).
Proof.
  intros Hn Hr. unfold scan_text at 1. cbn [safety_loop]. simpl andb. cbv iota. cbn [tail]. rewrite span_safety_line by done.
  change (c_dash :: c_dash :: body ++ c_newline :: t) with ((c_dash :: c_dash :: body) ++ c_newline :: t).
  apply goes_on. simpl. rewrite length_app. simpl. lia.
Qed.

Lemma scan_newline prefix t r : scan_text prefix (c_newline :: t) r = scan_text (prefix ++ [c_newline]) t (push_text [c_newline] r).
Proof. unfold scan_text at 1. cbn [safety_loop]. simpl andb. simpl orb. by rewrite andb_false_r. Qed.

Lemma scan_block_item prefix body t r : lacks c_slash body = true -> is_mysql_executable_comment_marker body = false ->
  scan_text prefix (c_slash :: c_star :: body ++ c_star :: c_slash :: t) r =
  scan_text (prefix ++ c_slash :: c_star :: body ++ [c_star; c_slash]) t (push_text [32%Z] r).
Proof.
  intros Hl Hm. unfold scan_text at 1. cbn [safety_loop]. simpl andb. cbv iota. cbn [tail].
  assert (mysql_executable_comment_body (body ++ c_star :: c_slash :: t) = None) as ->.
  { unfold mysql_executable_comment_body. destruct body as [|c [|e body]]; simpl in *; [done|..].
    - by rewrite orb_false_iff in Hm; destruct Hm as [-> _]; rewrite andb_false_r.
    - apply orb_false_iff in Hm as [-> ->]. done. }
  rewrite comment_end by done.
  replace (c_slash :: c_star :: body ++ c_star :: c_slash :: t) with ((c_slash :: c_star :: body ++ [c_star; c_slash]) ++ t)
    by (simpl; by rewrite <- app_assoc).
  apply goes_on. simpl. rewrite !length_app. simpl. lia.
Qed.

Lemma scan_code_item prefix i l r : code_item rules prefix i = true -> code_items rules (prefix ++ render_item i) l = true ->
  scan_text prefix (render_item i ++ render l) r = scan_text (prefix ++ render_item i) (render l) (safety_item r i).
Proof.
  intros Hi Hv. destruct i as [c|quote body|body|body]; cbn [render_item safety_item] in *.
  - apply scan_plain_char; [done|done|by apply no_oracle_literal].
  - simpl in Hi. bool_solver. simpl app. rewrite <- app_assoc. simpl app.
    assert (Hh : opt_is (head (render l)) quote = false).
    { apply (no_quote_after (prefix ++ quote :: body)); [done|]. by rewrite <- app_assoc. }
    destruct (Z.eqb_spec quote c_quote) as [->|Hne]; [by rewrite scan_string|].
    apply scan_identifier; [|done|done]. destruct (quote_values quote) as [?|[?|?]]; auto. done.
  - simpl in Hi. bool_solver. simpl app. rewrite <- app_assoc. simpl app. rewrite scan_line_item, scan_newline by done.
    f_equal. by rewrite <- app_assoc.
  - simpl in Hi. bool_solver. simpl app. rewrite <- app_assoc. simpl app. by rewrite scan_block_item.
Qed.

Lemma scan_code_items prefix l r : code_items rules prefix l = true -> scan_text prefix (render l) r = fold_left safety_item l r.
Proof.
  revert prefix r. induction l as [|i l IH]; intros prefix r Hv; [done|]. cbn [code_items render flat_map fold_left] in *.
  apply andb_true_iff in Hv as [Hi Hv]. fold (render l). rewrite scan_code_item by done. by apply IH.
Qed.

End Scan.

(** ** Tokens of quoted names *)

(** The names in quotes, in order. *)
Definition quoted_names (l : list item) : list text :=
  flat_map (fun i => match i with
                     | Quoted quote body =>
                       if (quote =? c_quote)%Z then [] else [map (fun c => if (c =? c_semicolon)%Z then 32%Z else c) body]
                     | _ => []
                     end) l.

Lemma identifier_token_inj n m : identifier_token n = identifier_token m -> n = m.
Proof.
  unfold identifier_token. intros He%app_inv_head. apply app_inv_tail in He. apply decimal_inj in He; lia.
Qed.

Lemma token_chars n : Forall (fun c => is_ascii_digit c = true \/ c = 95%Z \/ c ∈ txt "dbxq") (identifier_token n).
Proof.
  unfold identifier_token. rewrite !Forall_app. split_and!.
  - apply Forall_forall. intros c Hc%list_elem_of_In. simpl in Hc. right. rewrite list_elem_of_In. simpl. naive_solver.
  - eapply Forall_impl; [apply decimal_digits; lia|]. auto.
  - apply Forall_forall. intros c Hc%list_elem_of_In. simpl in Hc. naive_solver.
Qed.

Lemma token_lower n : ascii_lower (identifier_token n) = identifier_token n.
Proof.
  unfold ascii_lower. rewrite <- (map_id (identifier_token n)) at 2. apply map_ext_Forall.
  eapply Forall_impl; [apply token_chars|]. simpl. intros c [Hc|[->|Hc]]; [|done|].
  - ascii. destruct ((65 <=? c) && (c <=? 90))%Z eqn:E; lia.
  - apply list_elem_of_In in Hc. simpl in Hc. destruct Hc as [<-|[<-|[<-|[<-|[]]]]]; done.
Qed.

Lemma token_ends n : exists s, identifier_token n = 95%Z :: s ++ [95%Z].
Proof. exists (txt "_dbxq" ++ decimal (Z.of_nat n) ++ [95%Z]). unfold identifier_token. simpl. by rewrite <- app_assoc. Qed.

Lemma token_normalized n : normalize_database_name (identifier_token n) = identifier_token n.
Proof.
  unfold normalize_database_name. destruct (token_ends n) as [s Hs].
  assert (trim_chars (identifier_token n) = identifier_token n) as ->.
  { rewrite Hs. unfold trim_chars, trim_chars_end. simpl. by rewrite reverse_cons, reverse_app, reverse_singleton; simpl; rewrite reverse_cons, reverse_app, reverse_involutive. }
  assert (trim_matches is_quote_mark (identifier_token n) = identifier_token n) as ->.
  { rewrite Hs. unfold trim_matches. simpl. by rewrite reverse_cons, reverse_app, reverse_singleton; simpl; rewrite reverse_cons, reverse_app, reverse_involutive. }
  apply token_lower.
Qed.

(** After the items, the tokens of the names stand for them. *)
Lemma token_lookup l r n : (forall k, n <= k -> lookup_identifier r.(quoted_identifiers) (identifier_token k) = None) ->
  length r.(quoted_identifiers) = n ->
  (forall k, n + length (quoted_names l) <= k -> lookup_identifier (fold_left safety_item l r).(quoted_identifiers) (identifier_token k) = None) /\
  (forall k, k < n -> lookup_identifier (fold_left safety_item l r).(quoted_identifiers) (identifier_token k) =
                      lookup_identifier r.(quoted_identifiers) (identifier_token k)) /\
  (forall k name, quoted_names l !! k = Some name ->
    lookup_identifier (fold_left safety_item l r).(quoted_identifiers) (identifier_token (n + k)) = Some name).
Proof.
  revert r n. induction l as [|i l IH]; intros r n Hnone Hlen; simpl.
  { rewrite Nat.add_0_r. split_and!; [done..|]. intros k name Hk. by rewrite lookup_nil in Hk. }
  destruct i as [c|quote body|body|body]; simpl;
    [exact (IH (push_text [c] r) n Hnone Hlen)| |
     exact (IH (push_text [c_newline] (push_text [32%Z] r)) n Hnone Hlen)|exact (IH (push_text [32%Z] r) n Hnone Hlen)].
  destruct (quote =? c_quote)%Z; simpl; [exact (IH (push_text [32%Z] r) n Hnone Hlen)|].
  set (name := map _ body). set (r' := push_identifier name r).
    assert (Hk' : forall k, lookup_identifier r'.(quoted_identifiers) (identifier_token k) =
      if decide (k = n) then Some name else lookup_identifier r.(quoted_identifiers) (identifier_token k)).
    { intros k. subst r'. cbn [push_identifier quoted_identifiers lookup_identifier]. rewrite token_lower, Hlen. destruct (decide (k = n)) as [->|Hne].
      - by rewrite bool_decide_eq_true_2.
      - rewrite bool_decide_eq_false_2; [done|]. intros He%identifier_token_inj. lia. }
    destruct (IH r' (S n)) as (H1 & H2 & H3).
    { intros k Hk. rewrite Hk'. destruct (decide (k = n)); [lia|]. apply Hnone. lia. }
    { subst r'. unfold push_identifier. simpl. by rewrite Hlen. }
    split_and!.
    + intros k Hk. apply H1. lia.
    + intros k Hk. rewrite H2, Hk' by lia. destruct (decide (k = n)); [lia|done].
    + intros [|k] nm Hk; simpl in Hk.
      * injection Hk as <-. rewrite Nat.add_0_r, H2, Hk' by lia. by destruct (decide (n = n)).
      * rewrite <- (H3 k nm Hk). f_equal. f_equal. lia.
Qed.

(** The text in which the gate looks for targets is the code of the script: for
    every text of plain characters, strings, quoted names and comments, each
    plain character stays in its place, each quoted name becomes a token, and each
    string and comment a blank; and a token where a database is expected is
    resolved to the name it stands for. *)
Theorem safety_text_keeps_code `{UnicodeTables} l d : code_items (rules_for_database_type d) [] l = true ->
  sql_target_safety_text (render l) d = safety_of l /\
  forall k name, quoted_names l !! k = Some name ->
    normalize_target_database_name (identifier_token k) (safety_of l).(quoted_identifiers) = normalize_database_name name.
Proof.
  intros Hl. split; [by apply (scan_code_items (rules_for_database_type d) [])|]. intros k name Hk.
  destruct (token_lookup l (mkSafetyText [] []) 0) as (_ & _ & Hr); [done|done|].
  unfold normalize_target_database_name. rewrite token_normalized. unfold safety_of.
  specialize (Hr k name Hk). rewrite Nat.add_0_l in Hr. by rewrite Hr.
Qed.

(** ** The gate on a script *)


(** ** Pipelines *)

(** The databases a stage writes to; [None] is one that is not known. *)
Definition named_target (members : list (string * json)) : option text :=
  match obj_get "db" members with
  | Some (JString database) => if bool_decide (trim_chars (scalars database) = []) then None else Some (scalars database)
  | _ => None
  end.

Definition current_target (active : text) : option text := if bool_decide (trim_chars active = []) then None else Some active.

Definition stage_targets (active : text) (stage : json) : list (option text) :=
  match stage with
  | JObject document =>
    match obj_get "$out" document with
    | None => []
    | Some (JString _) => [current_target active]
    | Some (JObject members) => [named_target members]
    | Some _ => [None]
    end ++
    match obj_get "$merge" document with
    | None => []
    | Some (JString _) => [current_target active]
    | Some (JObject members) =>
      match obj_get "into" members with
      | Some (JString _) => [current_target active]
      | Some (JObject into) => [named_target into]
      | _ => [None]
      end
    | Some _ => [None]
    end
  | _ => []
  end.

Definition add_target (t : MongoTargets) (o : option text) : MongoTargets :=
  match o with
  | None => mkTargets true true t.(targets)
  | Some x => mkTargets true t.(mongo_uncertain) (x :: t.(targets))
  end.

Lemma add_current active t : add_mongo_current_database active (mark_write t) = add_target t (current_target active).
Proof. unfold add_mongo_current_database, current_target. by case_bool_decide. Qed.

Lemma add_named members t : add_named_database members (mark_write t) = add_target t (named_target members).
Proof. unfold add_named_database, named_target. destruct (obj_get "db" members) as [[]|]; try done. by case_bool_decide. Qed.

Lemma mongo_stage_targets active t stage : mongo_stage active t stage = fold_left add_target (stage_targets active stage) t.
Proof.
  destruct stage as [| | | | |document]; try done. simpl. rewrite fold_left_app.
  assert (out_stage active document t = fold_left add_target
    match obj_get "$out" document with None => [] | Some (JString _) => [current_target active] | Some (JObject members) => [named_target members]
    | Some _ => [None] end t) as <-.
  { unfold out_stage. destruct (obj_get "$out" document) as [[]|]; try done; [apply add_current|apply add_named]. }
  generalize (out_stage active document t) as t'. intros t'. unfold merge_stage.
  destruct (obj_get "$merge" document) as [[]|]; try done; [apply add_current|].
  destruct (obj_get "into" members) as [[]|]; try done; [apply add_current|apply add_named].
Qed.

Lemma mongo_loop_targets active t stages :
  fold_left (mongo_stage active) stages t = fold_left add_target (flat_map (stage_targets active) stages) t.
Proof.
  revert t. induction stages as [|stage stages IH]; intros t; simpl; [done|]. by rewrite IH, mongo_stage_targets, fold_left_app.
Qed.

Lemma added_targets found t :
  let t' := fold_left add_target found t in
  (t'.(has_write_stage) = true <-> t.(has_write_stage) = true \/ found <> []) /\
  (t'.(mongo_uncertain) = true <-> t.(mongo_uncertain) = true \/ None ∈ found) /\
  (forall x, x ∈ t'.(targets) <-> x ∈ t.(targets) \/ Some x ∈ found).
Proof.
  revert t. induction found as [|o found IH]; intros t; cbn [fold_left].
  { split_and!; [naive_solver|..]; setoid_rewrite elem_of_nil; naive_solver. }
  destruct (IH (add_target t o)) as (H1 & H2 & H3). split_and!.
  - rewrite H1. split; [by right|]. intros _. left. by destruct o.
  - rewrite H2, elem_of_cons. destruct o; simpl; naive_solver.
  - intros x. rewrite H3, elem_of_cons. destruct o; simpl; rewrite ?elem_of_cons; naive_solver.
Qed.

(** An aggregation on a database that is not production asks exactly if one of its
    stages writes to a database that is production or not known; a pipeline that
    is no array of stages always does. *)
Theorem pipeline_gate_is_exact `{JsonParser} config active pipeline :
  is_production_database config active = false ->
  mongo_pipeline_targets_production_database config active pipeline = true <->
  match json_from_str pipeline with
  | Some (JArray stages) =>
    exists stage o, stage ∈ stages /\ o ∈ stage_targets active stage /\
      match o with Some database => is_production_database config database = true | None => True end
  | _ => True
  end.
Proof.
  intros Hactive. unfold mongo_pipeline_targets_production_database. rewrite Hactive.
  destruct (json_from_str pipeline) as [[| | | |stages|]|]; try done. rewrite mongo_loop_targets.
  destruct (added_targets (flat_map (stage_targets active) stages) (mkTargets false false [])) as (H1 & H2 & H3).
  rewrite andb_true_iff, orb_true_iff, existsb_exists, H1, H2. setoid_rewrite <- list_elem_of_In. setoid_rewrite H3. simpl.
  assert (Hin : forall o, o ∈ flat_map (stage_targets active) stages <-> exists stage, stage ∈ stages /\ o ∈ stage_targets active stage).
  { intros o. rewrite list_elem_of_In, in_flat_map. by setoid_rewrite <- list_elem_of_In. }
  split.
  - intros [_ [[?|Hn]|(x & [Hx|Hx] & Hp)]]; [done| |by apply elem_of_nil in Hx|].
    + apply Hin in Hn as (stage & Hs & Ho). by exists stage, None.
    + apply Hin in Hx as (stage & Hs & Ho). by exists stage, (Some x).
  - intros (stage & o & Hs & Ho & Hp). assert (Hf : o ∈ flat_map (stage_targets active) stages) by (apply Hin; eauto).
    split; [right; intros He; rewrite He in Hf; by apply elem_of_nil in Hf|]. destruct o as [x|]; [right|left]; eauto.
Qed.

(** ** Concrete runs *)

(** ASCII tables; the expressions find nothing but a name after [FROM] and the first
    word. *)
Module SafetyRuns.

#[local] Instance ascii_tables : UnicodeTables := {| is_alphanumeric := is_ascii_alphanumeric |}.
#[local] Instance ascii_case : UnicodeCase := {| to_lowercase := map to_ascii_lowercase; to_uppercase := map to_ascii_uppercase |}.
#[local] Instance no_tokens : SqlTokenizer := {| tokenize := fun _ => None |}.
#[local] Instance no_words : SqlparserLexers := {| tokenize_for := fun _ _ => None; tokenize_generic_verbatim := fun _ => None |}.
#[local] Instance no_scope : PostgresScope := {| scope_tokens := fun _ => None; scope_statements := fun _ => None |}.

Definition name_after_from (s : text) : list (list (option text)) :=
  match after_first (txt "FROM ") s with [] => [] | name => [[Some name; Some name]] end.

#[local] Instance toy_patterns : Regexes := {| captures_iter := fun p s =>
  match p with
  | DML_TARGET_RE => name_after_from s
  | FIRST_KEYWORD_RE => match split_whitespace s with w :: _ => [[Some w]] | [] => [] end
  | _ => []
  end |}.

Definition mysql : ConnectionConfig := mkConnection false [txt "prod_app"] DatabaseType.Mysql None.

(** A pipeline that merges into another database. *)
#[local] Instance merge_pipeline : JsonParser := {| json_from_str := fun _ =>
  Some (JArray [JObject [("$merge"%string, JObject [("into"%string, JObject [("db"%string, JString "PROD_APP")])])]]) |}.

Lemma pipeline_gate_is_exact_witness :
  mongo_pipeline_targets_production_database mysql (txt "staging") [] = true.
Proof.
  apply (pipeline_gate_is_exact mysql (txt "staging") []); [vm_compute; reflexivity|].
  eexists _, _. split; [left|]. split; [left|]. vm_compute. reflexivity.
Defined.

Definition code (s : string) : list item := map Plain (txt s).

(** The second statement deletes from a marked database. *)
Definition deleting_script : list item := code "SELECT 1; DELETE FROM " ++ [Quoted c_backtick (txt "Prod_App")] ++ code ".users".


Lemma safety_text_keeps_code_witness :
  let l := code "SELECT * FROM #t WHERE a = " ++ [Quoted c_quote (txt "; DROP")] ++ code "; DELETE FROM " ++ [Quoted c_dquote (txt "Prod;App")] ++ code ".u" in
  sql_target_safety_text (render l) DatabaseType.SqlServer = safety_of l /\
  normalize_target_database_name (identifier_token 0) (safety_of l).(quoted_identifiers) = txt "prod app".
Proof.
  intros l. destruct (safety_text_keeps_code l DatabaseType.SqlServer) as [Ht Hn]; [vm_compute; reflexivity|].
  split; [exact Ht|]. etrans; [apply (Hn 0 (txt "Prod App")); vm_compute; reflexivity|]. vm_compute. reflexivity.
Defined.

(** [$$] opens a literal for every database, but only PostgreSQL has such literals:
    on SQL Server and MySQL, where names may contain [$], a write between two such
    names is not looked at. *)
Example dollars_hide_a_write :
  target_statements (sql_target_safety_text (txt "SELECT 1 AS a$$; DELETE FROM prod_db.dbo.users; SELECT 1 AS b$$") DatabaseType.SqlServer).(safety_text)
  = [txt "SELECT 1 AS a"].
Proof. vm_compute. reflexivity. Qed.

(** Nor one behind two dashes that MySQL reads as a subtraction. *)
Example double_minus_hides_a_write :
  target_statements (sql_target_safety_text (txt "SELECT 5--1; DELETE FROM prod_app.users") DatabaseType.Mysql).(safety_text) = [txt "SELECT 5"].
Proof. vm_compute. reflexivity. Qed.

End SafetyRuns.
