(* ===== verification/McpGate.v ===== *)
(** * The gates of the MCP server

    [crates/dbx-mcp/src/server.rs] and [backend.rs]: what stands between a call of
    a client and the backend that carries it out.  [Calls] is the language the
    handlers are written in: a handler asks its backend for policies, connections
    and confirmations, one question at a time, and anything may change between
    two answers; a run is the list of the questions asked and the answers given.
    [Gate] models the handlers: the resolution of a connection, the shared gate of
    the product tools, the checks of plugin tools, and the checks of SQL before
    and after a confirmation.

    Left out: the history entries and log lines a call writes, and the texts of
    successful answers beyond what the backend returned. *)

From S2P Require Import Prelude Json Utf8 Float64 Containers Cypher AgentPolicy McpAccess SqlDialect SqlLex SqlBlocks SqlScanner SqlRanges.
From S2P Require Import SqlFileImport SqlSplitter QueryExecutionSql SqlRisk ProductionSafety.
Import McpPolicy V1 V2 Store.

(** ** Handlers as trees of questions *)

Module Calls.

Section calls.
Context {Call : Type -> Type}.

Inductive prog (A : Type) : Type :=
| Ret (a : A)
| Ask {X : Type} (call : Call X) (k : X -> prog A).

#[global] Arguments Ret {A} a.
#[global] Arguments Ask {A X} call k.

Fixpoint bind {A B} (p : prog A) (f : A -> prog B) : prog B :=
  match p with
  | Ret a => f a
  | Ask call k => Ask call (fun x => bind (k x) f)
  end.

Definition ask {X} (call : Call X) : prog X := Ask call Ret.

(** A question with its answer; histories list them from the latest on. *)
Inductive seen : Type :=
| Seen {X : Type} (call : Call X) (x : X).

(** [run p h p' h']: after more answers [p] is left with [p']. *)
Inductive run {A} : prog A -> list seen -> prog A -> list seen -> Prop :=
| run_here p h : run p h p h
| run_more {X} (call : Call X) k x h p' h' : run (k x) (Seen call x :: h) p' h' -> run (Ask call k) h p' h'.

(** Every question asked is allowed by what was seen before it, and the result
    fits what was seen in all. *)
Fixpoint wp {A} (allowed : forall X, list seen -> Call X -> Prop) (p : prog A) (h : list seen) (Q : list seen -> A -> Prop) : Prop :=
  match p with
  | Ret a => Q h a
  | Ask call k => allowed _ h call /\ forall x, wp allowed (k x) (Seen call x :: h) Q
  end.

Lemma wp_bind {A B} allowed (p : prog A) (f : A -> prog B) h Q :
  wp allowed p h (fun h a => wp allowed (f a) h Q) -> wp allowed (bind p f) h Q.
Proof. revert h. induction p as [a|X call k IH]; intros h; simpl; [done|]. intros [Ha Hk]. split; [done|]. intros x. by apply IH. Qed.

Lemma wp_mono {A} (allowed allowed' : forall X, list seen -> Call X -> Prop) (p : prog A) h (Q Q' : list seen -> A -> Prop) :
  (forall X h (c : Call X), allowed X h c -> allowed' X h c) -> (forall h a, Q h a -> Q' h a) -> wp allowed p h Q -> wp allowed' p h Q'.
Proof.
  intros Ha HQ. revert h. induction p as [a|X call k IH]; intros h; simpl; [apply HQ|]. intros [Hc Hk]. split; [by apply Ha|].
  intros x. by apply IH.
Qed.

(** A run asks nothing that is not allowed, and ends as it should. *)
Lemma wp_run {A} allowed (p : prog A) h Q p' h' :
  wp allowed p h Q -> run p h p' h' -> match p' with Ret a => Q h' a | Ask call k => allowed _ h' call end.
Proof.
  intros Hp Hr. induction Hr as [p h|X call k x h p' h' Hr IH]; [by destruct p as [a|X call k]; [|destruct Hp]|].
  apply IH. by destruct Hp as [_ Hk].
Qed.
End calls.

#[global] Arguments prog : clear implicits.
#[global] Arguments seen : clear implicits.
End Calls.

Module Gate.
Export Calls.

(** ** Data *)

(** The fields of a saved connection that the gates read; the others are only
    compared. *)
Record Connection := {
  c_id : string;
  c_name : string;
  c_host : string;
  c_port : Z;
  c_database : option string;
  c_read_only : bool;
  c_plugin_id : option string;
  c_safety : ConnectionConfig;
  c_rest : json;
}.

#[global] Instance ConnectionConfig_eq_dec : EqDecision ConnectionConfig.
Proof. solve_decision. Defined.
#[global] Instance Connection_eq_dec : EqDecision Connection.
Proof. solve_decision. Defined.

Definition c_db_type (c : Connection) : DatabaseType.t := c.(c_safety).(db_type).

Record ConnectionSelector := { sel_connection_id : option string; sel_connection_name : option string }.

Record McpScope := {
  scope_connection_ids : list string;
  scope_connection_name : option string;
  scope_database : option string;
  scope_schema : option string;
}.

Inductive Product := Nacos | Consul.

#[global] Instance Product_eq_dec : EqDecision Product.
Proof. solve_decision. Defined.

Definition product_str (p : Product) : string := match p with Nacos => "nacos" | Consul => "consul" end.
Definition scope_kind (p : Product) : option string := match p with Nacos => Some "namespace" | Consul => None end.

Record ProductCall := { call_product : Product; call_operation : string; call_args : json }.

Inductive ToolApprovalKind := PluginTool | RedisCommand | MongoCommand | ProductTool | ConnectionManagement.

Record ToolApprovalRequest := {
  req_kind : ToolApprovalKind;
  req_tool : string;
  req_plugin : option string;
  req_connection_id : option string;
  req_database : option string;
  req_detail : string;
}.

Record RawPluginTool := { tool_name : string; tool_read_only : bool; tool_annotations : json }.

Record PluginToolEntry := {
  e_plugin_id : string;
  e_plugin_name : string;
  e_exposed_name : string;
  e_tool : RawPluginTool;
  e_scope : option (string * string);
  e_toolset : string;
  e_injects_connection_id : bool;
}.

(** What the gates use of the table of built-in tools. *)
Record McpToolDescriptor := { d_name : string; d_toolset : string; d_database_types : list DatabaseType.t }.

Record AgentSqlPermissions := { allow_writes : bool; allow_dangerous : bool; confirmed_write_sql : option text }.

(** What the handlers read of a session. *)
Record McpSession := {
  s_id : string;
  s_connection_id : string;
  s_database : string;
  s_client_session_id : string;
  s_transaction : bool;
}.

(** What a handler asks of its backend. *)
Inductive Call : Type -> Type :=
| LoadGlobalPolicy : Call (result McpGlobalPolicy string)
| LoadAccessPolicy : Call (result McpAccessPolicy string)
| LoadGroupDetails : Call (result (gmap string McpConnectionGroupPath) string)
| LoadConnections : Call (result (list Connection) string)
| PolicyConfigured : Call bool
| ListPluginTools : Call (result (list PluginToolEntry) string)
| ApproveTool (request : ToolApprovalRequest) : Call (result unit string)
| ApproveSql (connection_id database : string) (sql : text) : Call (result string string)
| ConsumeApproval (token connection_id database : string) (sql : text) : Call (result unit string)
| CallProduct (connection : Connection) (call : ProductCall) : Call (result json string)
| AcquireLease (session_id : string) : Call (result unit string)
| LeaseQuery (session_id : string) (connection : Connection) (sql : text) (max_rows : Z) : Call (result string string)
| ExecuteAgentTool (connection : Connection) (database : string) (sql : text) (arguments : json) (permissions : AgentSqlPermissions) :
    Call (bool * string).

Notation handler A := (prog Call (result A string)).

(** ** Errors *)

Definition tool_error (code message : string) : string := "Error [" +:+ code +:+ "]: " +:+ message.

Definition backend_codes : list string :=
  ["MCP_POLICY_UNAVAILABLE"; "MCP_READ_ONLY"; "CONNECTION_OUT_OF_SCOPE"; "DATABASE_OUT_OF_SCOPE";
   "DATABASE_EXECUTION_POLICY_OUT_OF_SCOPE"; "INVALID_DATABASE_SCOPE"; "CONNECTION_READ_ONLY"; "PRODUCTION_DATABASE_READ_ONLY";
   "PRODUCTION_WRITE_BLOCKED"; "SQL_BLOCKED"; "TRANSACTION_UNSUPPORTED"].

Definition backend_tool_error (default_code error : string) : string :=
  (fix codes (l : list string) : string :=
     match l with
     | [] => tool_error default_code error
     | code :: l =>
       let marker := txt (code +:+ ":") in
       match find_sub marker (txt error) with
       | Some index => tool_error code (trim_str (untxt (drop (index + length marker) (txt error))))
       | None => codes l
       end
     end) backend_codes.

(** The [?] operator on the answer of a handler or of the backend. *)
Definition and_then {A B} (p : handler A) (f : A -> handler B) : handler B :=
  bind p (fun r => match r with Ok a => f a | Err e => Ret (Err e) end).

Definition asking {A B} (wrap : string -> string) (call : Call (result A string)) (f : A -> handler B) : handler B :=
  Ask call (fun r => match r with Ok a => f a | Err e => Ret (Err (wrap e)) end).

Definition lift {A B} (r : result A string) (f : A -> handler B) : handler B :=
  match r with Ok a => f a | Err e => Ret (Err e) end.

Definition fail {A} (code message : string) : handler A := Ret (Err (tool_error code message)).

Notation "'let*' x ':=' p 'in' k" := (and_then p (fun x => k)) (at level 10, x pattern, p at level 100, k at level 200).
Notation "'let+' x ':=' p 'in' k" := (lift p (fun x => k)) (at level 10, x pattern, p at level 100, k at level 200).

(** A name between quotation marks. *)
Definition quoted (s : string) : string := untxt [34%Z] +:+ s +:+ untxt [34%Z].

(** [value.as_deref().map(str::trim).filter(|value| !value.is_empty())]. *)
Definition non_blank (o : option string) : option string :=
  o ≫= (fun s => if String.eqb (trim_str s) "" then None else Some (trim_str s)).

(** The scalar value of an encoded character. *)
Definition scalar (c : text) : Z :=
  match c with
  | [a] => a
  | [a; b] => Z.land a 31 * 64 + Z.land b 63
  | [a; b; d] => (Z.land a 15 * 64 + Z.land b 63) * 64 + Z.land d 63
  | [a; b; d; e] => ((Z.land a 7 * 64 + Z.land b 63) * 64 + Z.land d 63) * 64 + Z.land e 63
  | _ => 65533
  end%Z.

(** The encoding of a scalar value. *)
Definition encode_char (c : Z) : text := (
  if c <? 128 then [c]
  else if c <? 2048 then [192 + c / 64; 128 + c mod 64]
  else if c <? 65536 then [224 + c / 4096; 128 + (c / 64) mod 64; 128 + c mod 64]
  else [240 + c / 262144; 128 + (c / 4096) mod 64; 128 + (c / 64) mod 64; 128 + c mod 64])%Z.

(** A text of scalar values as a string. *)
Definition message (t : text) : string := untxt (concat (map encode_char t)).

(** The characters of a name, for the scanners of SQL. *)
Definition name_text (s : string) : text := map scalar (chars (txt s)).

(** ** The restriction of a run ([backend.rs]) *)

Definition parse_legacy_mcp_allow_writes (value : string) : option bool :=
  Some (match ascii_lower (trim (txt value)) with
        | v => if bool_decide (v = txt "1") || bool_decide (v = txt "true") then true else false
        end).

Definition effective_mcp_access_policy (legacy_allow_writes : option bool) (access : McpAccessPolicy) : McpAccessPolicy :=
  if bool_decide (legacy_allow_writes = Some false) then
    {| version := access.(version); default_access := level_min access.(default_access) LevelRead; confirm := access.(confirm);
       visibility := access.(visibility);
       rules := (fun r => r <| V2.access := (fun l => level_min l LevelRead) <$> r.(V2.access) |>) <$> access.(rules);
       acc_allowed_tool_names := access.(acc_allowed_tool_names); acc_query_timeout_secs := access.(acc_query_timeout_secs);
       acc_plugin_tools_mode := access.(acc_plugin_tools_mode) |}
  else access.

Definition effective_mcp_policy_with_legacy_allow_writes (policy : McpGlobalPolicy) (legacy_allow_writes : option bool) : McpGlobalPolicy :=
  if bool_decide (legacy_allow_writes = Some false) then
    {| read_only := true; allow_dangerous_sql := false; prompt_high_risk_sql := policy.(prompt_high_risk_sql);
       call_confirmation := policy.(call_confirmation); allowed_connection_ids := policy.(allowed_connection_ids);
       allowed_group_ids := policy.(allowed_group_ids); allowed_tool_names := policy.(allowed_tool_names);
       connection_policies := map (fun r =>
         {| conn_connection_id := r.(conn_connection_id); conn_read_only := true; conn_allow_dangerous_sql := false;
            execution_mode_configured := true; execution_mode_policy_version := Some MCP_EXECUTION_POLICY_VERSION;
            database_scope := r.(database_scope); allowed_databases := r.(allowed_databases);
            database_policies := map (fun d =>
              {| db_database_name := d.(db_database_name); db_read_only := true; db_allow_dangerous_sql := false |}) r.(database_policies);
            allow_salesforce_dml := false |}) policy.(connection_policies);
       group_policies := map (fun g =>
         {| grp_group_id := g.(grp_group_id); grp_read_only := true; grp_allow_dangerous_sql := false |}) policy.(group_policies);
       query_timeout_secs := policy.(query_timeout_secs); plugin_tools_mode := policy.(plugin_tools_mode) |}
  else policy.

(** ** Scopes *)

Definition connection_scope_enabled (s : McpScope) : bool :=
  negb (bool_decide (s.(scope_connection_ids) = [])) || bool_decide (is_Some s.(scope_connection_name)).

Definition scope_enabled (s : McpScope) : bool :=
  connection_scope_enabled s || bool_decide (is_Some s.(scope_database)) || bool_decide (is_Some s.(scope_schema)).

Definition scope_matches (s : McpScope) (c : Connection) : bool :=
  if negb (bool_decide (s.(scope_connection_ids) = [])) then existsb (fun id => String.eqb id c.(c_id)) s.(scope_connection_ids)
  else bool_decide (s.(scope_connection_name) = Some c.(c_name)).

(** [tool_name.strip_prefix(DBX_)], [rest.split_once(__)]: the prefix. *)
Definition plugin_prefix (tool_name : string) : option text :=
  rest ← strip_prefix (txt "dbx_") (txt tool_name);
  i ← find_sub (txt "__") rest;
  Some (take i rest).

Definition policy_allows_tool (policy : McpGlobalPolicy) (tool_name : string) : bool :=
  match policy.(allowed_tool_names) with
  | None => true
  | Some allowed =>
    if existsb (fun name => String.eqb name tool_name) allowed then true
    else match plugin_prefix tool_name with
    | None => false
    | Some prefix => existsb (fun name => String.eqb name "dbx_*__*" || String.eqb name ("dbx_" +:+ untxt prefix +:+ "__*")) allowed
    end
  end.

Definition ensure_database_in_scope (scope : DatabaseScope) (database : string) : result unit string :=
  match scope with
  | DatabasesAll => Ok tt
  | DatabasesSelected allowed =>
    if existsb (fun a => String.eqb a database) allowed then Ok tt
    else Err (tool_error "DATABASE_OUT_OF_SCOPE" ("Database " +:+ quoted database +:+ " is not allowed by DBX MCP settings for this connection."))
  | DatabasesNone =>
    Err (tool_error "DATABASE_OUT_OF_SCOPE" ("Database " +:+ quoted database +:+ " is not allowed by DBX MCP settings for this connection."))
  end.

Record ResolvedConnection := {
  rc_connection : Connection;
  rc_policy : McpGlobalPolicy;
  rc_database_scope : DatabaseScope;
  rc_group_ids : list string;
}.

Definition path_ids (path : option McpConnectionGroupPath) : list string := default [] (McpPolicy.ids <$> path).

Definition resolved_connection (policy : McpGlobalPolicy) (connection : Connection) (group_path : option McpConnectionGroupPath) :
    ResolvedConnection :=
  {| rc_connection := connection; rc_policy := policy;
     rc_database_scope := database_scope_for_connection policy connection.(c_id); rc_group_ids := path_ids group_path |}.

(** ** Resolution of a connection *)

Section server.
Context (scope : McpScope).

Definition load_policy : handler McpGlobalPolicy := asking (backend_tool_error "MCP_POLICY_UNAVAILABLE") LoadGlobalPolicy (fun p => Ret (Ok p)).

Definition ensure_tool_allowed (tool_name : string) : handler unit :=
  let* policy := load_policy in
  if policy_allows_tool policy tool_name then Ret (Ok tt)
  else fail "TOOL_OUT_OF_SCOPE" ("Tool " +:+ quoted tool_name +:+ " is not allowed by DBX MCP settings.").

(** The error is the backend's own; the callers wrap it. *)
Definition load_group_paths_for_policy (policy : McpGlobalPolicy) : handler (gmap string McpConnectionGroupPath) :=
  Ask LoadGroupDetails (fun r =>
    match r with
    | Ok paths => Ret (Ok paths)
    | Err error => if policy_uses_connection_groups policy then Ret (Err ("MCP_POLICY_UNAVAILABLE: " +:+ error)) else Ret (Ok ∅)
    end).

Definition wrap_err {A} (wrap : string -> string) (p : handler A) : handler A :=
  bind p (fun r => Ret (map_err wrap r)).

Definition ambiguous_connections (name : string) (connections : list Connection) : string :=
  let lines := map (fun c => "- " +:+ c.(c_id) +:+ ": " +:+ untxt (debug_name (c_db_type c)) +:+ " @ " +:+ c.(c_host) +:+ ":"
                             +:+ untxt (decimal c.(c_port))) connections in
  "Multiple connections found with name " +:+ quoted name +:+ ". Please specify connection_id:" +:+ untxt [10%Z]
  +:+ String.concat (untxt [10%Z]) lines.

Definition ensure_access (access : McpAccessPolicy) (group_paths : gmap string McpConnectionGroupPath) (c : Connection) : result unit string :=
  let resolved := resolve access (path_ids (group_paths !! c.(c_id))) c.(c_id) None in
  if negb resolved.(res_visible)
  then Err (tool_error "CONNECTION_OUT_OF_SCOPE" ("Connection " +:+ quoted c.(c_id) +:+ " is not allowed by DBX MCP settings."))
  else if level_lt resolved.(level) LevelRead
  then Err (tool_error "MCP_READ_ONLY" ("Connection " +:+ quoted c.(c_name) +:+ " is above the effective DBX MCP access level."))
  else Ok tt.

(** The choice of [resolve_connection] among what was loaded. *)
Definition choose_connection (selector : ConnectionSelector) (policy : McpGlobalPolicy) (access : McpAccessPolicy)
    (group_paths : gmap string McpConnectionGroupPath) (connections : list Connection) : result ResolvedConnection string :=
  let allows c := policy_allows_connection policy (group_paths !! c.(c_id)) c.(c_id) in
  let found c path := let? _ := ensure_access access group_paths c in Ok (resolved_connection policy c path) in
  match non_blank selector.(sel_connection_id) with
  | Some id =>
    match List.find (fun c => String.eqb c.(c_id) id) connections with
    | None => Err (tool_error "CONNECTION_NOT_FOUND" ("Connection with id " +:+ quoted id +:+ " not found."))
    | Some c =>
      if connection_scope_enabled scope && negb (scope_matches scope c)
      then Err (tool_error "CONNECTION_OUT_OF_SCOPE" ("Connection " +:+ quoted id +:+ " is outside this DBX AI session scope."))
      else if negb (allows c)
      then Err (tool_error "CONNECTION_OUT_OF_SCOPE" ("Connection " +:+ quoted id +:+ " is not allowed by DBX MCP settings."))
      else found c (group_paths !! id)
    end
  | None =>
    if connection_scope_enabled scope then
      match List.find (scope_matches scope) connections with
      | None => Err (tool_error "CONNECTION_NOT_FOUND" "Scoped DBX connection was not found.")
      | Some c =>
        let outside := match non_blank selector.(sel_connection_name) with
                       | Some name => if negb (String.eqb name c.(c_name)) && negb (String.eqb name c.(c_id)) then Some name else None
                       | None => None
                       end in
        match outside with
        | Some name => Err (tool_error "CONNECTION_OUT_OF_SCOPE" ("Connection " +:+ quoted name +:+ " is outside this DBX AI session scope."))
        | None =>
          if negb (allows c)
          then Err (tool_error "CONNECTION_OUT_OF_SCOPE" "The DBX AI session scope is outside the global MCP connection allowlist.")
          else found c (group_paths !! c.(c_id))
        end
      end
    else match non_blank selector.(sel_connection_name) with
    | None => Err (tool_error "CONNECTION_NOT_FOUND" "Either connection_id or connection_name is required.")
    | Some name =>
      let matching := List.filter (fun c => eq_ignore_ascii_case (txt c.(c_name)) (txt name)) connections in
      match List.filter allows matching with
      | [] => if bool_decide (matching = [])
              then Err (tool_error "CONNECTION_NOT_FOUND" ("Connection " +:+ quoted name +:+ " not found."))
              else Err (tool_error "CONNECTION_OUT_OF_SCOPE" ("Connection " +:+ quoted name +:+ " is not allowed by DBX MCP settings."))
      | [c] => found c (group_paths !! c.(c_id))
      | allowed => Err (tool_error "AMBIGUOUS_CONNECTION" (ambiguous_connections name allowed))
      end
    end
  end.

Definition resolve_connection (selector : ConnectionSelector) : handler ResolvedConnection :=
  let* policy := load_policy in
  asking (backend_tool_error "MCP_POLICY_UNAVAILABLE") LoadAccessPolicy (fun access =>
  let* group_paths := wrap_err (backend_tool_error "MCP_POLICY_UNAVAILABLE") (load_group_paths_for_policy policy) in
  asking (tool_error "CONNECTION_LOAD_ERROR") LoadConnections (fun connections =>
  Ret (choose_connection selector policy access group_paths connections))).

Definition resolve_database (requested : option string) (resolved : ResolvedConnection) : result string string :=
  let requested := non_blank requested in
  let? database :=
    match scope.(scope_database) with
    | Some scoped =>
      match requested with
      | Some requested =>
        if negb (String.eqb requested scoped)
        then Err (tool_error "DATABASE_OUT_OF_SCOPE"
                    ("Database " +:+ quoted requested +:+ " is outside the scoped database " +:+ quoted scoped +:+ "."))
        else Ok scoped
      | None => Ok scoped
      end
    | None => Ok (default "" (match requested with Some d => Some d | None => resolved.(rc_connection).(c_database) end))
    end in
  let? _ := ensure_database_in_scope resolved.(rc_database_scope) database in
  Ok database.

Definition effective_policy_for_database_with_groups (policy : McpGlobalPolicy) (group_ids : list string) (connection : Connection)
    (database : string) : McpGlobalPolicy :=
  let e := effective_database_execution_policy_with_groups policy group_ids connection.(c_id) database in
  {| read_only := e.1; allow_dangerous_sql := e.2; prompt_high_risk_sql := policy.(prompt_high_risk_sql);
     call_confirmation := policy.(call_confirmation); allowed_connection_ids := policy.(allowed_connection_ids);
     allowed_group_ids := policy.(allowed_group_ids); allowed_tool_names := policy.(allowed_tool_names);
     connection_policies := []; group_policies := policy.(group_policies); query_timeout_secs := policy.(query_timeout_secs);
     plugin_tools_mode := policy.(plugin_tools_mode) |}.

(** ** Product tools *)

Context (TOOLS : list McpToolDescriptor).
(** [DatabaseType::as_str], which the build generates. *)
Context (database_type_str : DatabaseType.t -> string).
(** [serde_json::to_string_pretty] and [Value::to_string]. *)
Context (to_string_pretty : json -> option string) (value_to_string : json -> string).

Definition descriptor (name : string) : option McpToolDescriptor := List.find (fun tool => String.eqb tool.(d_name) name) TOOLS.

(** [value.get(key)] of a JSON value. *)
Definition value_get (key : string) (v : json) : option json := match v with JObject m => obj_get key m | _ => None end.
Definition str_member (key : string) (v : json) : option string := value_get key v ≫= as_str.

Definition MAX_ARGUMENT_PREVIEW_CHARS : nat := 4000.

Definition preview (s : string) : string :=
  let cs := chars (txt s) in
  if length cs <=? MAX_ARGUMENT_PREVIEW_CHARS then s
  else untxt (concat (take MAX_ARGUMENT_PREVIEW_CHARS cs) ++ [10; 226; 128; 166]%Z).

Definition arguments_preview (arguments : json) : string :=
  preview (match to_string_pretty arguments with Some s => s | None => value_to_string arguments end).

Definition approval_request (kind : ToolApprovalKind) (tool detail : string) : ToolApprovalRequest :=
  {| req_kind := kind; req_tool := tool; req_plugin := None; req_connection_id := None; req_database := None; req_detail := preview detail |}.
Definition with_plugin (plugin : string) (r : ToolApprovalRequest) : ToolApprovalRequest :=
  {| req_kind := r.(req_kind); req_tool := r.(req_tool); req_plugin := Some plugin; req_connection_id := r.(req_connection_id);
     req_database := r.(req_database); req_detail := r.(req_detail) |}.
Definition with_target (connection_id database : option string) (r : ToolApprovalRequest) : ToolApprovalRequest :=
  {| req_kind := r.(req_kind); req_tool := r.(req_tool); req_plugin := r.(req_plugin); req_connection_id := connection_id;
     req_database := database; req_detail := r.(req_detail) |}.

Definition product_type (product : Product) : DatabaseType.t :=
  match product with Nacos => DatabaseType.Nacos | Consul => DatabaseType.Consul end.

(** The member of the arguments that carries the namespace. *)
Definition set_namespace (operation namespace : string) (args : json) : json :=
  if String.eqb operation "update_instance" then
    match args with
    | JObject m => match obj_get "target" m with
                   | Some (JObject t) => JObject (obj_insert "target" (JObject (obj_insert "namespace" (JString namespace) t)) m)
                   | _ => args
                   end
    | _ => args
    end
  else match args with JObject m => JObject (obj_insert "namespace" (JString namespace) m) | _ => args end.

Definition all_namespaces_search (product : Product) (operation : string) (args : json) : bool :=
  bool_decide (product = Nacos) && String.eqb operation "search_configs" && bool_decide (str_member "scope" args = Some "allNamespaces").

(** The identity of the sub-scope: the empty namespace is [public]. *)
Definition product_scope (product : Product) (operation : string) (scope_value : option string) (args : json) (c : Connection) : option string :=
  if bool_decide (product = Nacos) && negb (String.eqb operation "list_namespaces") && negb (all_namespaces_search product operation args) then
    let namespace := trim_str (match scope_value with Some v => v | None => default "" c.(c_database) end) in
    Some (if String.eqb namespace "" then "public" else namespace)
  else non_blank scope_value.

(** [scope_kind.zip(scope_value)]. *)
Definition zip_scope (kind value : option string) : option (string * string) :=
  match kind, value with Some k, Some v => Some (k, v) | _, _ => None end.

(** The level with the ceiling of the toolset of a tool. *)
Definition tool_level (access : McpAccessPolicy) (tool connection_id : string) (l : McpAccessLevel) : McpAccessLevel :=
  match descriptor tool ≫= (fun d => toolset_ceiling access connection_id d.(d_toolset)) with
  | Some ceiling => level_min l ceiling
  | None => l
  end.

Definition is_production (c : Connection) (database : string) : bool := is_production_database c.(c_safety) (name_text database).

Definition visible_namespaces (access : McpAccessPolicy) (connection_id : string) (value : json) : list json :=
  match value with
  | JArray items =>
    List.filter (fun item =>
      match str_member "namespace" item with
      | Some namespace =>
        sub_scope_visible access connection_id "namespace" (if String.eqb (trim_str namespace) "" then "public" else trim_str namespace)
      | None => false
      end) items
  | _ => []
  end.

(** The checks again, after a confirmation: what is left of them. *)
Definition recheck_product (tool : string) (selector : ConnectionSelector) (product : Product) (level : McpAccessLevel)
    (scope_value : option string) (policy : McpGlobalPolicy) (connection : Connection) : handler Connection :=
  let* refreshed := resolve_connection selector in
  if negb (bool_decide (c_db_type refreshed.(rc_connection) = product_type product))
  then fail "WRONG_CONNECTION_TYPE" "The connection type changed while approval was pending."
  else
  let* refreshed_policy := load_policy in
  if negb (bool_decide (refreshed.(rc_connection) = connection)) || negb (policy_allows_tool refreshed_policy tool)
  then fail "TOOL_BLOCKED" "Product-tool approval was revoked while the dialog was open."
  else
  asking (backend_tool_error "MCP_POLICY_UNAVAILABLE") LoadAccessPolicy (fun refreshed_access =>
  let refreshed_scope := resolve refreshed_access refreshed.(rc_group_ids) refreshed.(rc_connection).(c_id) (zip_scope (scope_kind product) scope_value) in
  let refreshed_level := tool_level refreshed_access tool refreshed.(rc_connection).(c_id) refreshed_scope.(V2.level) in
  if negb refreshed_scope.(res_visible)
     || negb (bool_decide (confirmation_policy refreshed_policy = confirmation_policy policy))
     || negb (bool_decide (confirm_decide (confirmation_policy refreshed_policy) refreshed_level level true = Confirm))
  then fail "SCOPE_OUT_OF_POLICY" "Product-tool approval was revoked while the dialog was open."
  else if refreshed.(rc_connection).(c_read_only)
  then fail "CONNECTION_READ_ONLY" "The connection became read-only while approval was pending."
  else if is_production refreshed.(rc_connection) (default "" scope_value)
  then fail "PRODUCTION_WRITE_BLOCKED" "The connection became production while approval was pending."
  else Ret (Ok refreshed.(rc_connection))).

Definition run_product_tool (tool : string) (selector : ConnectionSelector) (product : Product) (operation : string) (level : McpAccessLevel)
    (scope_value : option string) (args : json) : handler string :=
  let* _ := ensure_tool_allowed tool in
  let* resolved := resolve_connection selector in
  let connection := resolved.(rc_connection) in
  if negb (bool_decide (c_db_type connection = product_type product)) then
    let available := map d_name (List.filter (fun d => existsb (fun t => bool_decide (t = c_db_type connection)) d.(d_database_types)) TOOLS) in
    fail "WRONG_CONNECTION_TYPE"
      (quoted connection.(c_name) +:+ " is not a " +:+ product_str product +:+ " connection. Available MCP tools for "
       +:+ database_type_str (c_db_type connection) +:+ " connections: "
       +:+ (if bool_decide (available = []) then "none" else String.concat ", " available) +:+ ".")
  else
  let scope_kind := scope_kind product in
  asking (backend_tool_error "MCP_POLICY_UNAVAILABLE") LoadAccessPolicy (fun access =>
  let all_namespaces := all_namespaces_search product operation args in
  let scope_value := product_scope product operation scope_value args connection in
  let args := match scope_value with
              | Some namespace => if bool_decide (product = Nacos) then set_namespace operation namespace args else args
              | None => args
              end in
  let resolved_access := resolve access resolved.(rc_group_ids) connection.(c_id) (zip_scope scope_kind scope_value) in
  let effective_level := tool_level access tool connection.(c_id) resolved_access.(V2.level) in
  if negb resolved_access.(res_visible) then
    fail "SCOPE_OUT_OF_POLICY"
      (default "connection" scope_kind +:+ " " +:+ quoted (default "" scope_value) +:+ " is not allowed by DBX MCP settings for this connection.")
  else if all_namespaces && negb (sub_scope_allows_all access connection.(c_id) "namespace") then
    fail "SCOPE_OUT_OF_POLICY" "Searching all Nacos namespaces requires unrestricted namespace scope access."
  else
  let required_level := if bool_decide (level = LevelRead) then LevelRead else LevelWrite in
  if level_lt effective_level required_level then
    fail "MCP_READ_ONLY"
      ("The effective MCP permission for this " +:+ default "connection" scope_kind +:+ " is insufficient for this operation.")
  else
  let* connection :=
    (if level_lt LevelRead level then
       if connection.(c_read_only)
       then fail "CONNECTION_READ_ONLY" ("Connection " +:+ quoted connection.(c_name) +:+ " has read-only protection enabled.")
       else if is_production connection (default "" scope_value)
       then fail "PRODUCTION_WRITE_BLOCKED" "MCP cannot change a production connection."
       else
       let* policy := load_policy in
       match confirm_decide (confirmation_policy policy) effective_level level (bool_decide (level = LevelFull)) with
       | Deny => fail "TOOL_BLOCKED" (tool +:+ " exceeds the effective MCP permission.")
       | Confirm =>
         let request := with_target (Some connection.(c_id)) scope_value (approval_request ProductTool tool (arguments_preview args)) in
         asking (tool_error "TOOL_BLOCKED") (ApproveTool request) (fun _ =>
         recheck_product tool selector product level scope_value policy connection)
       | Allow => Ret (Ok connection)
       end
     else Ret (Ok connection)) in
  let call := {| call_product := product; call_operation := operation; call_args := args |} in
  asking (backend_tool_error "DBX_TOOL_ERROR") (CallProduct connection call) (fun value =>
  if bool_decide (product = Nacos) && String.eqb operation "list_namespaces" then
    Ret (Ok (default "[]" (to_string_pretty (JArray (visible_namespaces access connection.(c_id) value)))))
  else Ret (Ok (match to_string_pretty value with Some s => s | None => value_to_string value end)))).

(** ** Plugin tools *)

Definition plugin_tool_required_access (entry : PluginToolEntry) : McpAccessLevel :=
  if entry.(e_tool).(tool_read_only) then LevelRead else LevelWrite.

Definition access_level_name (l : McpAccessLevel) : string :=
  match l with LevelNone => "none" | LevelRead => "read" | LevelWrite => "write" | LevelFull => "full" end.

Definition plugin_tool_is_destructive (tool : RawPluginTool) : bool :=
  match value_get "destructiveHint" tool.(tool_annotations) with Some (JBool b) => b | _ => false end.

Definition capped (ceiling : option McpAccessLevel) (l : McpAccessLevel) : McpAccessLevel :=
  match ceiling with Some c => level_min l c | None => l end.

Definition has_level_rules (access : McpAccessPolicy) (connection_id kind : string) : bool :=
  existsb (fun e => is_scope_of connection_id kind e.1 && (bool_decide (is_Some e.2.(V2.access)) || bool_decide (is_Some e.2.(ceiling))))
    (entries access.(rules)).

(** The access to a plugin's connection, before the ceiling of the toolset. *)
Definition plugin_access (access : McpAccessPolicy) (entry : PluginToolEntry) (group_ids : list string) (connection_id : string)
    (connection_read_only : option bool) (arguments : json) : result McpResolvedAccess string :=
  match entry.(e_scope) with
  | Some (kind, argument) =>
    match str_member argument arguments ≫= (fun v => if String.eqb (trim_str v) "" then None else Some v) with
    | Some value => Ok (resolve access group_ids connection_id (Some (kind, value)))
    | None =>
      if negb (sub_scope_allows_all access connection_id kind) || has_level_rules access connection_id kind
      then Err (tool_error "SCOPE_REQUIRED"
                  ("Plugin tool " +:+ quoted entry.(e_exposed_name) +:+ " requires the scope argument " +:+ argument +:+ "."))
      else Ok (resolve access group_ids connection_id None)
    end
  | None =>
    Ok (match connection_read_only with
        | Some read_only => resolve_plugin_connection access group_ids connection_id read_only
        | None => resolve access group_ids connection_id None
        end)
  end.

Definition ensure_plugin_scope (access : McpAccessPolicy) (entry : PluginToolEntry) (group_ids : list string) (connection_id : option string)
    (connection_read_only : option bool) (arguments : json) : result McpAccessLevel string :=
  let needed := plugin_tool_required_access entry in
  match connection_id with
  | None =>
    match entry.(e_scope) with
    | Some _ =>
      Err (tool_error "SCOPE_OUT_OF_POLICY" ("Plugin tool " +:+ quoted entry.(e_exposed_name) +:+ " requires a policy-bound connection."))
    | None =>
      if level_lt access.(default_access) needed
      then Err (tool_error "MCP_READ_ONLY"
        ("Plugin tool " +:+ quoted entry.(e_exposed_name) +:+ " needs " +:+ access_level_name needed +:+ " access but the global default is "
         +:+ access_level_name access.(default_access) +:+ ". Raise the connection's access level in DBX Settings "
         +:+ untxt [226; 134; 146]%Z +:+ " MCP, or call it with an authorized connectionId."))
      else Ok access.(default_access)
    end
  | Some connection_id =>
    let ceiling := toolset_ceiling access connection_id entry.(e_toolset) in
    let? resolved := plugin_access access entry group_ids connection_id connection_read_only arguments in
    if negb resolved.(res_visible)
    then Err (tool_error "SCOPE_OUT_OF_POLICY" ("Connection " +:+ quoted connection_id +:+ " is not allowed by DBX MCP settings."))
    else if level_lt (capped ceiling resolved.(V2.level)) needed
    then Err (tool_error "MCP_READ_ONLY"
      ("Plugin tool " +:+ quoted entry.(e_exposed_name) +:+ " needs " +:+ access_level_name needed +:+ " access; connection "
       +:+ quoted connection_id +:+ " resolves to " +:+ access_level_name resolved.(V2.level)
       +:+ " in the DBX MCP settings. Raise that connection's access level in DBX Settings " +:+ untxt [226; 134; 146]%Z +:+ " MCP."))
    else Ok (capped ceiling resolved.(V2.level))
  end.

(** Saved connections of a plugin: the blank ids of plugins are none. *)
Definition owning_plugin (c : Connection) : option string := non_blank c.(c_plugin_id).

Definition plugin_connection_read_only : handler (gmap string bool) :=
  asking (tool_error "CONNECTION_LOAD_ERROR") LoadConnections (fun connections =>
  Ret (Ok (foldl (fun m c => <[c.(c_id) := c.(c_read_only)]> m) ∅
             (List.filter (fun c => bool_decide (is_Some (owning_plugin c))) connections)))).

Definition plugin_connection_read_only_if_unconfigured : prog Call (gmap string bool) :=
  Ask PolicyConfigured (fun configured : bool =>
    if configured then Ret ∅
    else bind plugin_connection_read_only (fun r => Ret (match r with Ok m => m | Err _ => ∅ end))).

Definition check_plugin_scope (entry : PluginToolEntry) (connection_id : option string) (arguments : json) : handler McpAccessLevel :=
  asking (backend_tool_error "MCP_POLICY_UNAVAILABLE") LoadAccessPolicy (fun access =>
  if bool_decide (entry.(e_scope) = None) && bool_decide (connection_id = None)
  then Ret (ensure_plugin_scope access entry [] None None arguments)
  else
  let* policy := load_policy in
  let* group_paths := wrap_err (backend_tool_error "MCP_POLICY_UNAVAILABLE") (load_group_paths_for_policy policy) in
  let group_ids := path_ids (connection_id ≫= (fun id => group_paths !! id)) in
  match connection_id with
  | Some id =>
    bind plugin_connection_read_only_if_unconfigured (fun read_only_by_connection =>
    Ret (ensure_plugin_scope access entry group_ids connection_id (read_only_by_connection !! id) arguments))
  | None => Ret (ensure_plugin_scope access entry group_ids connection_id None arguments)
  end).

Definition pair_le (a b : string * string) : Prop := if String.eqb a.1 b.1 then String.le a.2 b.2 else String.le a.1 b.1.
#[global] Instance pair_le_dec : RelDecision pair_le.
Proof. intros a b. unfold pair_le. destruct (String.eqb a.1 b.1); apply _. Defined.

Definition allowed_plugin_connections : handler (gmap string (list (string * string))) :=
  let* policy := load_policy in
  let* group_paths := wrap_err (backend_tool_error "MCP_POLICY_UNAVAILABLE") (load_group_paths_for_policy policy) in
  asking (tool_error "CONNECTION_LOAD_ERROR") LoadConnections (fun connections =>
  let allowed := foldl (fun m c =>
    match owning_plugin c with
    | None => m
    | Some plugin_id =>
      if connection_scope_enabled scope && negb (scope_matches scope c) then m
      else if negb (policy_allows_connection policy (group_paths !! c.(c_id)) c.(c_id)) then m
      else entry_update [] plugin_id (fun l => l ++ [(c.(c_id), c.(c_name))]) m
    end) ∅ connections in
  Ret (Ok (merge_sort pair_le <$> allowed))).

Definition allows_plugin_connection (allowed : gmap string (list (string * string))) (plugin_id connection_id : string) : bool :=
  match allowed !! plugin_id with Some l => existsb (fun e => String.eqb e.1 connection_id) l | None => false end.

(** [*value = value.trim()] in the argument that is the scope. *)
Definition trim_scope_argument (entry : PluginToolEntry) (arguments : json) : json :=
  match entry.(e_scope), arguments with
  | Some (_, argument), JObject m =>
    match obj_get argument m with Some (JString v) => JObject (obj_insert argument (JString (trim_str v)) m) | _ => arguments end
  | _, _ => arguments
  end.

Definition same_tool (entry candidate : PluginToolEntry) : bool :=
  String.eqb candidate.(e_exposed_name) entry.(e_exposed_name) && String.eqb candidate.(e_plugin_id) entry.(e_plugin_id)
  && String.eqb candidate.(e_tool).(tool_name) entry.(e_tool).(tool_name)
  && bool_decide (candidate.(e_tool).(tool_read_only) = entry.(e_tool).(tool_read_only))
  && bool_decide (candidate.(e_tool).(tool_annotations) = entry.(e_tool).(tool_annotations))
  && bool_decide (candidate.(e_scope) = entry.(e_scope)) && String.eqb candidate.(e_toolset) entry.(e_toolset).

(** The connection of a call, and its own protection. *)
Definition plugin_connection (entry : PluginToolEntry) (connection_id : option string) : handler (option Connection) :=
  match connection_id with
  | Some id =>
    let* allowed := allowed_plugin_connections in
    if negb (allows_plugin_connection allowed entry.(e_plugin_id) id)
    then fail "PLUGIN_OUT_OF_SCOPE" "Plugin connection is no longer allowed."
    else
    asking (backend_tool_error "CONNECTION_LOAD_ERROR") LoadConnections (fun connections =>
    match List.find (fun c => String.eqb c.(c_id) id && bool_decide (c.(c_plugin_id) = Some entry.(e_plugin_id))) connections with
    | None => fail "CONNECTION_NOT_FOUND" "Plugin connection changed."
    | Some connection =>
      if negb entry.(e_tool).(tool_read_only) && connection.(c_read_only)
      then fail "CONNECTION_READ_ONLY" "Plugin connection has read-only protection enabled."
      else if negb entry.(e_tool).(tool_read_only) && is_production connection (default "" connection.(c_database))
      then fail "PRODUCTION_WRITE_BLOCKED" "Plugin connection has production protection enabled."
      else Ret (Ok (Some connection))
    end)
  | None =>
    if scope_enabled scope then
      let* allowed := allowed_plugin_connections in
      if bool_decide (allowed !! entry.(e_plugin_id) = None)
      then fail "PLUGIN_OUT_OF_SCOPE" "Plugin has no connection inside the current MCP scope."
      else Ret (Ok None)
    else Ret (Ok None)
  end.

(** The checks again, after a confirmation. *)
Definition recheck_plugin (entry : PluginToolEntry) (connection_id : option string) (arguments : json) (policy : McpGlobalPolicy)
    (connection : option Connection) : handler unit :=
  let* _ := ensure_tool_allowed entry.(e_exposed_name) in
  let* current := load_policy in
  let* level := check_plugin_scope entry connection_id arguments in
  if negb (bool_decide (confirmation_policy current = confirmation_policy policy))
     || negb (bool_decide (confirm_decide (confirmation_policy current) level LevelFull true = Confirm))
  then fail "TOOL_BLOCKED" "High-risk tool approval was revoked."
  else
  let* _ :=
    match connection with
    | Some connection =>
      let* allowed := allowed_plugin_connections in
      let* refreshed := resolve_connection {| sel_connection_id := Some connection.(c_id); sel_connection_name := None |} in
      if negb (bool_decide (refreshed.(rc_connection) = connection))
         || negb (allows_plugin_connection allowed entry.(e_plugin_id) connection.(c_id))
      then fail "TOOL_BLOCKED" "Plugin connection changed while the dialog was open."
      else Ret (Ok tt)
    | None => Ret (Ok tt)
    end in
  asking (backend_tool_error "MCP_POLICY_UNAVAILABLE") ListPluginTools (fun catalog =>
  if negb (existsb (same_tool entry) catalog)
  then fail "TOOL_BLOCKED" "Plugin-tool authorization changed while the dialog was open."
  else Ret (Ok tt)).

(** The arguments to forward, once the call is authorised. *)
Definition ensure_plugin_tool_policy (entry : PluginToolEntry) (connection_id : option string) (arguments : json) : handler json :=
  let arguments := trim_scope_argument entry arguments in
  let* level := check_plugin_scope entry connection_id arguments in
  let* policy := load_policy in
  let* connection := plugin_connection entry connection_id in
  let high_risk := plugin_tool_is_destructive entry.(e_tool) in
  match confirm_decide (confirmation_policy policy) level (if high_risk then LevelFull else plugin_tool_required_access entry) high_risk with
  | Deny => fail "TOOL_BLOCKED" "The effective MCP permission does not allow this high-risk plugin tool."
  | Confirm =>
    let target := match entry.(e_scope) with Some (_, argument) => str_member argument arguments | None => None end in
    let request := with_target connection_id target
      (with_plugin entry.(e_plugin_name) (approval_request PluginTool entry.(e_exposed_name) (arguments_preview arguments))) in
    asking (tool_error "TOOL_BLOCKED") (ApproveTool request) (fun _ =>
    let* _ := recheck_plugin entry connection_id arguments policy connection in
    Ret (Ok arguments))
  | Allow => Ret (Ok arguments)
  end.

(** ** SQL *)

Context `{UnicodeTables, UnicodeCase, SqlTokenizer, SqlparserLexers, JsonParser, AstVisitor, SqlparserParser, Regexes, PostgresScope}.
(** Whether a connection interprets text in a declared character set
    ([mysql::data_charset_for_config]), the environment variable
    [DBX_MCP_CONFIRMED_WRITE_SQL], and the shape of the statements of a transaction
    ([validate_transaction_sql_shape], on the syntax trees of sqlparser). *)
Context (data_charset_enabled : Connection -> result bool string).
Context (confirmed_env : option text).
Context (validate_transaction_sql_shape : text -> result unit string).

(** [mysql_data_charset_policy::check_sql]. *)
Definition first_word (stripped : text) : text :=
  (span (fun c => is_ascii_alphanumeric c || (c =? c_underscore)%Z) (trim_chars_start stripped)).1.

Definition charset_check_sql (sql name : text) : result unit text :=
  let read_only sql := match check_read_only sql name DatabaseType.Mysql with
                       | Ok _ => Ok tt
                       | Err error => Err (txt "MYSQL_DATA_CHARSET_READ_ONLY: " ++ error)
                       end in
  let? _ := (fix statements (l : list text) : result unit text :=
     match l with
     | [] => Ok tt
     | statement :: l =>
       if eq_ignore_ascii_case (first_word (strip_sql_comments_and_literals statement)) (txt "set")
       then Err (txt "MYSQL_DATA_CHARSET_SESSION_CHANGE_UNSUPPORTED: session changes are unavailable with MySQL dataCharset.")
       else let? _ := read_only statement in statements l
     end) (split_sql_statements_for_database sql DatabaseType.Mysql) in
  read_only sql.

Definition normalize_confirmed_write_sql (value : option text) : option text :=
  value ≫= (fun v => if bool_decide (trim_chars v = []) then None else Some (trim_chars v)).

Definition mcp_permissions (connection : Connection) (policy : McpGlobalPolicy) : AgentSqlPermissions :=
  let compatibility_read_only := match data_charset_enabled connection with Ok b => b | Err _ => true end in
  let writes := negb policy.(read_only) && negb connection.(c_read_only) && negb compatibility_read_only in
  {| allow_writes := writes; allow_dangerous := writes && policy.(allow_dangerous_sql);
     confirmed_write_sql := normalize_confirmed_write_sql confirmed_env |}.

Definition normalize_sql_for_confirmation (sql : text) : text := trim_chars sql.

Definition confirmed_batch_sql_block_reason (sql : text) (d : DatabaseType.t) (confirmed : option text) : option text :=
  match confirmed with
  | None => None
  | Some confirmed =>
    if bool_decide (normalize_sql_for_confirmation sql = normalize_sql_for_confirmation confirmed) then None
    else
      let is_write := match classify_sql_risk_for_database sql d with Ok risk => negb (bool_decide (risk = ReadOnly)) | Err _ => true end in
      if negb is_write then None
      else Some (txt "Blocked: the executed SQL does not match the user-confirmed SQL." ++ [c_newline] ++ txt "Confirmed: " ++ confirmed
                 ++ [c_newline] ++ txt "Attempted: " ++ sql)
  end.

Definition ensure_sql_database_scope (scope : DatabaseScope) (connection : Connection) (active_database : string) (sql : text) : result unit string :=
  match scope with
  | DatabasesSelected allowed =>
    if sql_references_disallowed_database_for_connection sql connection.(c_safety) (name_text active_database) (map name_text allowed)
    then Err (tool_error "DATABASE_OUT_OF_SCOPE" "SQL references a database that is not allowed by DBX MCP settings for this connection.")
    else Ok tt
  | _ => Ok tt
  end.

Definition ensure_execution_scope (policy : McpGlobalPolicy) (connection : Connection) (active_database : string) (sql : text) : result unit string :=
  map_err (tool_error "DATABASE_EXECUTION_POLICY_OUT_OF_SCOPE")
    (ensure_sql_database_execution_scope c_id
       (fun sql c active allowed => sql_references_disallowed_database_for_connection sql c.(c_safety) (name_text active) (map name_text allowed))
       policy connection active_database sql).

Definition validate_sql_policy (connection : Connection) (policy : McpGlobalPolicy) (database : string) (sql : text)
    (allow_database_switch : bool) : result AgentSqlPermissions string :=
  let? charset := map_err (tool_error "MYSQL_DATA_CHARSET_CONFIG_INVALID") (data_charset_enabled connection) in
  let? _ := (if charset then
    match charset_check_sql sql (name_text connection.(c_name)) with
    | Ok _ => Ok tt
    | Err error => Err (tool_error "MYSQL_DATA_CHARSET_SQL_BLOCKED" (message error))
    end else Ok tt) in
  if negb allow_database_switch && mcp_sql_has_forbidden_database_switch sql (c_db_type connection) then
    Err (tool_error "SQL_BLOCKED"
      "MCP does not allow USE or persistent database switching outside a session. Open one with dbx_open_session to run stateful queries.")
  else
  match classify_sql_risk_for_database sql (c_db_type connection) with
  | Err error => Err (tool_error "SQL_BLOCKED" (message error))
  | Ok risk =>
    if bool_decide (risk = Transaction) then Err (tool_error "SQL_BLOCKED" "Transaction statements are not supported by MCP.")
    else
    let is_write := negb (bool_decide (risk = ReadOnly)) || is_write_sql_for_database sql (c_db_type connection) in
    if policy.(read_only) && is_write then
      Err (tool_error "MCP_READ_ONLY" ("MCP execution permission for database " +:+ quoted database +:+ " is read-only. SQL write blocked."))
    else if connection.(c_read_only) && is_write then
      Err (tool_error "CONNECTION_READ_ONLY"
        ("Connection " +:+ quoted connection.(c_name) +:+ " has read-only protection enabled. SQL write blocked."))
    else
    let high_risk := bool_decide (risk = DdlRisk) || is_dangerous_sql_for_database sql (c_db_type connection) in
    if high_risk && negb policy.(allow_dangerous_sql) then Err (tool_error "SQL_BLOCKED" "High-risk SQL is disabled in DBX MCP settings.")
    else if is_write && targets_production_database connection.(c_safety) (name_text database) sql then
      Err (tool_error "PRODUCTION_WRITE_BLOCKED" "MCP cannot execute writes against a production database.")
    else Ok (mcp_permissions connection policy)
  end.

(** High-risk SQL: definitions of objects and what is dangerous for the database. *)
Definition is_high_risk (connection : Connection) (sql : text) : bool :=
  match classify_sql_risk_for_database sql (c_db_type connection) with Ok risk => bool_decide (risk = DdlRisk) | Err _ => false end
  || is_dangerous_sql_for_database sql (c_db_type connection).

Definition policy_level (policy : McpGlobalPolicy) : McpAccessLevel := from_flags policy.(read_only) policy.(allow_dangerous_sql).

Definition with_dangerous_sql (p : McpGlobalPolicy) : McpGlobalPolicy :=
  {| read_only := p.(read_only); allow_dangerous_sql := true; prompt_high_risk_sql := p.(prompt_high_risk_sql);
     call_confirmation := p.(call_confirmation); allowed_connection_ids := p.(allowed_connection_ids);
     allowed_group_ids := p.(allowed_group_ids); allowed_tool_names := p.(allowed_tool_names); connection_policies := p.(connection_policies);
     group_policies := p.(group_policies); query_timeout_secs := p.(query_timeout_secs); plugin_tools_mode := p.(plugin_tools_mode) |}.

(** Only the legacy policy lifts a level. *)
Definition lifted (policy : McpGlobalPolicy) : McpGlobalPolicy :=
  if bool_decide (confirmation_policy policy = ConfirmFull) then with_dangerous_sql policy else policy.

Definition consume (token : string) (connection : Connection) (database : string) (sql : text) : handler unit :=
  asking (tool_error "SQL_BLOCKED") (ConsumeApproval token connection.(c_id) database sql) (fun _ => Ret (Ok tt)).

Definition approved_sql_policy (connection : Connection) (policy : McpGlobalPolicy) (database : string) (sql : text)
    (allow_database_switch defer_token_consumption : bool) : handler (McpGlobalPolicy * option string) :=
  if negb (is_high_risk connection sql) then Ret (Ok (policy, None))
  else match confirm_decide (confirmation_policy policy) (policy_level policy) LevelFull true with
  | Deny =>
    let+ _ := validate_sql_policy connection policy database sql allow_database_switch in
    fail "SQL_BLOCKED" "High-risk SQL exceeds the effective MCP permission."
  | Allow => Ret (Ok (policy, None))
  | Confirm =>
    let+ _ := validate_sql_policy connection (lifted policy) database sql allow_database_switch in
    asking (tool_error "SQL_BLOCKED") (ApproveSql connection.(c_id) database sql) (fun token =>
    let* refreshed := resolve_connection {| sel_connection_id := Some connection.(c_id); sel_connection_name := None |} in
    if negb (bool_decide (refreshed.(rc_connection) = connection)) then fail "SQL_BLOCKED" "Connection changed while awaiting approval."
    else
    let+ _ := resolve_database (Some database) refreshed in
    let+ _ := ensure_sql_database_scope refreshed.(rc_database_scope) connection database sql in
    let+ _ := ensure_execution_scope refreshed.(rc_policy) connection database sql in
    let current := effective_policy_for_database_with_groups refreshed.(rc_policy) refreshed.(rc_group_ids) connection database in
    if negb (bool_decide (confirmation_policy current = confirmation_policy policy))
       || negb (bool_decide (confirm_decide (confirmation_policy current) (policy_level current) LevelFull true = Confirm))
    then fail "SQL_BLOCKED" "High-risk SQL approval was revoked."
    else
    let current := lifted current in
    let+ _ := validate_sql_policy connection current database sql allow_database_switch in
    let* _ := (if defer_token_consumption then Ret (Ok tt) else consume token connection database sql) in
    Ret (Ok (current, Some token)))
  end.

Definition queued_sql_permissions (connection : Connection) (admitted_policy current : McpGlobalPolicy) (database : string) (sql : text)
    (token : option string) : handler AgentSqlPermissions :=
  let+ current :=
    (if is_high_risk connection sql then
       if negb (bool_decide (confirmation_policy current = confirmation_policy admitted_policy))
       then Err (tool_error "SQL_BLOCKED" "SQL confirmation policy changed while queued. Retry the call.")
       else if bool_decide (confirm_decide (confirmation_policy current) (policy_level current) LevelFull true = Confirm) then
         if bool_decide (token = None) then Err (tool_error "SQL_BLOCKED" "Queued high-risk SQL requires confirmation. Retry the call.")
         else Ok (lifted current)
       else Ok current
     else Ok current) in
  let+ permissions := validate_sql_policy connection current database sql false in
  let* _ := match token with Some token => consume token connection database sql | None => Ret (Ok tt) end in
  Ret (Ok permissions).

(** ** The SQL of [execute_query] *)

Record ExecuteQueryRequest := {
  q_sql : text;
  q_max_rows : option Z;
  q_cell_char_offset : option Z;
  q_cell_char_limit : option Z;
}.

Definition MAX_EXECUTE_QUERY_ROWS : Z := 1000.

Definition clamp_rows (o : option Z) : Z :=
  match o with Some v => Z.min (Z.max v 1) MAX_EXECUTE_QUERY_ROWS | None => 100%Z end.

Definition transaction_connection_supported (c : Connection) : bool :=
  bool_decide (c_db_type c = DatabaseType.Mysql) &&
  match c.(c_safety).(driver_profile) with
  | None => true
  | Some profile => bool_decide (trim_chars profile = []) || eq_ignore_ascii_case (trim_chars profile) (txt "mysql")
  end.

Definition by_id (id : string) : ConnectionSelector := {| sel_connection_id := Some id; sel_connection_name := None |}.

(** The statement of a transaction: everything that may have changed is read
    again once the lease is held. *)
Definition run_in_transaction (session : McpSession) (connection : Connection) (policy : McpGlobalPolicy) (permissions : AgentSqlPermissions)
    (sql : text) (max_rows : Z) (approval_token : option string) : handler string :=
  let+ _ := map_err (tool_error "TRANSACTION_SQL_BLOCKED") (validate_transaction_sql_shape sql) in
  match confirmed_batch_sql_block_reason sql (c_db_type connection) permissions.(confirmed_write_sql) with
  | Some reason => fail "SQL_BLOCKED" (message reason)
  | None =>
    asking (fun e => e) (AcquireLease session.(s_id)) (fun _ =>
    let* _ := ensure_tool_allowed "dbx_execute_query" in
    let* refreshed := resolve_connection (by_id session.(s_connection_id)) in
    let current := refreshed.(rc_connection) in
    if negb (transaction_connection_supported current) || negb (String.eqb current.(c_id) session.(s_connection_id))
    then fail "TRANSACTION_UNSUPPORTED" "The bound native MySQL connection changed."
    else
    let+ _ := ensure_sql_database_scope refreshed.(rc_database_scope) current session.(s_database) sql in
    let+ _ := ensure_execution_scope refreshed.(rc_policy) current session.(s_database) sql in
    let refreshed_policy := effective_policy_for_database_with_groups refreshed.(rc_policy) refreshed.(rc_group_ids) current session.(s_database) in
    let* refreshed_permissions := queued_sql_permissions current policy refreshed_policy session.(s_database) sql approval_token in
    let+ _ := map_err (tool_error "TRANSACTION_SQL_BLOCKED") (validate_transaction_sql_shape sql) in
    match confirmed_batch_sql_block_reason sql (c_db_type current) refreshed_permissions.(confirmed_write_sql) with
    | Some reason => fail "SQL_BLOCKED" (message reason)
    | None => asking (fun e => e) (LeaseQuery session.(s_id) current sql max_rows) (fun result => Ret (Ok result))
    end)
  end.

Definition number (z : Z) : json := JNumber (untxt (decimal z)).

(** [arguments[key] = value], for a value that is there. *)
Definition set_member (key : string) (value : option json) (m : list (string * json)) : list (string * json) :=
  match value with Some v => obj_insert key v m | None => m end.

Definition query_arguments (request : ExecuteQueryRequest) (max_rows : Z) (session : option McpSession) (policy : McpGlobalPolicy) : json :=
  JObject (set_member "timeout_secs" (number <$> policy.(query_timeout_secs))
    (set_member "cell_char_limit" (number <$> request.(q_cell_char_limit))
    (set_member "cell_char_offset" (number <$> request.(q_cell_char_offset))
    (set_member "client_session_id" ((fun s => JString s.(s_client_session_id)) <$> session)
    (set_member "schema" (JString <$> scope.(scope_schema))
      [("sql", JString (message request.(q_sql))); ("limit", number max_rows)]))))).

(** [content.trim_start_matches(Error: )]: the prefix as often as it is there. *)
Fixpoint trim_error (fuel : nat) (content : text) : text :=
  match fuel with
  | O => content
  | S fuel => match strip_prefix (txt "Error: ") content with Some rest => trim_error fuel rest | None => content end
  end.

(** The answer of an agent tool: whether it is an error, and its content. *)
Definition agent_result (r : bool * string) : result string string :=
  if r.1 then Err (backend_tool_error "DBX_TOOL_ERROR" (untxt (trim_error (length (txt r.2)) (txt r.2)))) else Ok r.2.

(** From the checks of the databases a statement names on; what comes before is
    the resolution of the connection, of the session and of the database. *)
Definition execute_sql (resolved : ResolvedConnection) (session : option McpSession) (database : string) (request : ExecuteQueryRequest) :
    handler string :=
  let connection := resolved.(rc_connection) in
  let policy := effective_policy_for_database_with_groups resolved.(rc_policy) resolved.(rc_group_ids) connection database in
  let allow_database_switch := bool_decide (is_Some session) && bool_decide (scope.(scope_database) = None) in
  let+ _ := ensure_sql_database_scope resolved.(rc_database_scope) connection database request.(q_sql) in
  let+ _ := ensure_execution_scope resolved.(rc_policy) connection database request.(q_sql) in
  let in_transaction := match session with Some s => s.(s_transaction) | None => false end in
  let* (policy, approval_token) := approved_sql_policy connection policy database request.(q_sql) allow_database_switch in_transaction in
  let* _ := (if bool_decide (is_Some approval_token) then ensure_tool_allowed "dbx_execute_query" else Ret (Ok tt)) in
  let+ permissions := validate_sql_policy connection policy database request.(q_sql) allow_database_switch in
  let max_rows := clamp_rows request.(q_max_rows) in
  let call_database :=
    Ask (ExecuteAgentTool connection database request.(q_sql) (query_arguments request max_rows session resolved.(rc_policy)) permissions)
      (fun r : bool * string => Ret (agent_result r)) in
  match session with
  | Some s =>
    if s.(s_transaction) then run_in_transaction s connection policy permissions request.(q_sql) max_rows approval_token
    else call_database
  | None => call_database
  end.
End server.
End Gate.
