(* ===== verification/McpGateSpec.v ===== *)
(** * What passes the gates

    Theorems on the handlers of McpGate.v, over every history of answers: a
    product call and an SQL statement reach the backend only as the policies
    read last allow it, and a confirmation counts only for what was shown and
    only if everything was read again after it. *)

From S2P Require Import Prelude Json Utf8 Float64 Containers Cypher AgentPolicy McpAccess McpAccessSpec SqlDialect SqlLex SqlBlocks SqlScanner.
From S2P Require Import SqlRanges SqlFileImport SqlSplitter QueryExecutionSql SqlRisk ProductionSafety McpGate.
Import McpPolicy V1 V2 Store Gate.

(** ** What was read last *)

(** An answer of the given kind. *)
Definition saw_global (s : seen Call) : option McpGlobalPolicy :=
  match s with Seen call x =>
    match call in Call X return X -> option McpGlobalPolicy with
    | LoadGlobalPolicy => fun r => match r with Ok p => Some p | Err _ => None end
    | _ => fun _ => None
    end x
  end.

Definition saw_access (s : seen Call) : option McpAccessPolicy :=
  match s with Seen call x =>
    match call in Call X return X -> option McpAccessPolicy with
    | LoadAccessPolicy => fun r => match r with Ok p => Some p | Err _ => None end
    | _ => fun _ => None
    end x
  end.

(** Groups that cannot be read count as none; a policy that uses them refuses
    the call then. *)
Definition saw_groups (s : seen Call) : option (gmap string McpConnectionGroupPath) :=
  match s with Seen call x =>
    match call in Call X return X -> option (gmap string McpConnectionGroupPath) with
    | LoadGroupDetails => fun r => Some (match r with Ok paths => paths | Err _ => ∅ end)
    | _ => fun _ => None
    end x
  end.

Definition saw_connections (s : seen Call) : option (list Connection) :=
  match s with Seen call x =>
    match call in Call X return X -> option (list Connection) with
    | LoadConnections => fun r => match r with Ok l => Some l | Err _ => None end
    | _ => fun _ => None
    end x
  end.

(** A person's consent. *)
Definition saw_consent (s : seen Call) : option ToolApprovalRequest :=
  match s with Seen call x =>
    match call in Call X return X -> option ToolApprovalRequest with
    | ApproveTool request => fun r => match r with Ok _ => Some request | Err _ => None end
    | _ => fun _ => None
    end x
  end.

(** The latest answer of a kind. *)
Definition last_read {A} (f : seen Call -> option A) (h : list (seen Call)) : option A := head (omap f h).

(** What the handlers go by: the policies, the groups and the connections read last. *)
Record read_last (h : list (seen Call)) (policy : McpGlobalPolicy) (access : McpAccessPolicy)
    (paths : gmap string McpConnectionGroupPath) (connections : list Connection) : Prop := {
  rl_policy : last_read saw_global h = Some policy;
  rl_access : last_read saw_access h = Some access;
  rl_paths : last_read saw_groups h = Some paths;
  rl_connections : last_read saw_connections h = Some connections;
}.

Lemma last_read_app {A} (f : seen Call -> option A) h1 h2 a : last_read f h1 = Some a -> last_read f (h1 ++ h2) = Some a.
Proof. unfold last_read. rewrite omap_app. by destruct (omap f h1). Qed.

Lemma last_read_elem {A} (f : seen Call -> option A) h a : last_read f h = Some a -> a ∈ omap f h.
Proof. unfold last_read. destruct (omap f h) as [|b l]; [done|]. intros [= ->]. by left. Qed.

(** ** Reasoning about handlers *)

(** What may be asked after what was seen. *)
Notation allowance := (forall X, list (seen Call) -> Call X -> Prop).

(** A postcondition of the answers that are no errors. *)
Definition on_ok {A} (Q : list (seen Call) -> A -> Prop) (h : list (seen Call)) (r : result A string) : Prop :=
  match r with Ok a => Q h a | Err _ => True end.

Lemma wp_and_then {A B} (allowed : allowance) (p : handler A) (f : A -> handler B) h Q :
  wp allowed p h (on_ok (fun h a => wp allowed (f a) h (on_ok Q))) -> wp allowed (and_then p f) h (on_ok Q).
Proof.
  intros Hp. apply wp_bind. eapply wp_mono; [done| |exact Hp]. intros h' [a|e]; done.
Qed.

Lemma wp_asking {A B} (allowed : allowance) wrap (call : Call (result A string)) (f : A -> handler B) h Q :
  allowed _ h call -> (forall a, wp allowed (f a) (Seen call (Ok a) :: h) (on_ok Q)) -> wp allowed (asking wrap call f) h (on_ok Q).
Proof. intros Ha Hf. split; [done|]. intros [a|e]; [apply Hf|done]. Qed.

Lemma wp_lift {A B} (allowed : allowance) (r : result A string) (f : A -> handler B) h Q :
  (forall a, r = Ok a -> wp allowed (f a) h (on_ok Q)) -> wp allowed (lift r f) h (on_ok Q).
Proof. destruct r as [a|e]; [|done]. intros Hf. by apply Hf. Qed.

Lemma wp_ok_mono {A} (allowed : allowance) (p : handler A) h (Q Q' : list (seen Call) -> A -> Prop) :
  (forall h a, Q h a -> Q' h a) -> wp allowed p h (on_ok Q) -> wp allowed p h (on_ok Q').
Proof. intros HQ. apply wp_mono; [done|]. intros h' [a|e]; [apply HQ|done]. Qed.

(** The policies and the connections may always be read. *)
Definition may_read (allowed : allowance) : Prop :=
  forall h, allowed _ h LoadGlobalPolicy /\ allowed _ h LoadAccessPolicy /\ allowed _ h LoadGroupDetails /\ allowed _ h LoadConnections.

Section resolution.
Context (allowed : allowance) (Hread : may_read allowed).

Lemma load_policy_wp h :
  wp allowed load_policy h (on_ok (fun h' policy => h' = Seen LoadGlobalPolicy (Ok policy) :: h)).
Proof. apply wp_asking; [apply Hread|done]. Qed.

Lemma ensure_tool_wp tool h :
  wp allowed (ensure_tool_allowed tool) h (on_ok (fun h' _ =>
    exists policy, h' = Seen LoadGlobalPolicy (Ok policy) :: h /\ policy_allows_tool policy tool = true)).
Proof.
  apply wp_and_then. eapply wp_ok_mono; [|apply load_policy_wp]. intros h' policy ->. simpl.
  destruct (policy_allows_tool policy tool) eqn:E; simpl; eauto.
Qed.

(** A connection that was chosen is one of those loaded, in the scope of the
    session, exposed by the first version of the policy and visible and readable
    in the second. *)
Lemma choose_connection_spec scope selector policy access paths connections rc :
  choose_connection scope selector policy access paths connections = Ok rc ->
  let c := rc.(rc_connection) in
  rc = resolved_connection policy c (paths !! c.(c_id)) /\ c ∈ connections /\
  policy_allows_connection policy (paths !! c.(c_id)) c.(c_id) = true /\
  ensure_access access paths c = Ok tt /\ (connection_scope_enabled scope = true -> scope_matches scope c = true).
Proof.
  unfold choose_connection. cbv zeta. set (allows := fun c : Connection => policy_allows_connection policy (paths !! c.(c_id)) c.(c_id)).
  assert (Hfound : forall c, allows c = true -> c ∈ connections -> (connection_scope_enabled scope = true -> scope_matches scope c = true) ->
    (let? _ := ensure_access access paths c in Ok (resolved_connection policy c (paths !! c.(c_id)))) = Ok rc ->
    let c := rc.(rc_connection) in
    rc = resolved_connection policy c (paths !! c.(c_id)) /\ c ∈ connections /\
    policy_allows_connection policy (paths !! c.(c_id)) c.(c_id) = true /\
    ensure_access access paths c = Ok tt /\ (connection_scope_enabled scope = true -> scope_matches scope c = true)).
  { intros c Hc Hin Hs. destruct (ensure_access access paths c) as [[]|] eqn:Ea; [|done]. intros [= <-]. simpl. done. }
  destruct (non_blank (sel_connection_id selector)) as [id|].
  - destruct (List.find _ connections) as [c|] eqn:Ef; [|done]. apply List.find_some in Ef as [Hin%list_elem_of_In Hid%String.eqb_eq]. subst id.
    destruct (connection_scope_enabled scope) eqn:Es; destruct (scope_matches scope c) eqn:Em; simpl; try done;
      (destruct (policy_allows_connection policy (paths !! c.(c_id)) c.(c_id)) eqn:Ec; [|done]); by apply Hfound.
  - destruct (connection_scope_enabled scope) eqn:Es.
    + destruct (List.find _ connections) as [c|] eqn:Ef; [|done]. apply List.find_some in Ef as [Hin%list_elem_of_In Hm].
      destruct (match non_blank _ with Some _ => _ | None => _ end); [done|].
      destruct (policy_allows_connection policy (paths !! c.(c_id)) c.(c_id)) eqn:Ec; [|done]. by apply Hfound.
    + destruct (non_blank (sel_connection_name selector)) as [name|]; [|done].
      destruct (List.filter allows _) as [|c [|c' l]] eqn:Ef; [by case_bool_decide| |done].
      assert (Hin : c ∈ List.filter allows (List.filter (fun c => eq_ignore_ascii_case (txt c.(c_name)) (txt name)) connections)) by (rewrite Ef; by left).
      apply list_elem_of_In, filter_In in Hin as [Hin Hc]. apply filter_In in Hin as [Hin _]. apply list_elem_of_In in Hin. by apply Hfound.
Qed.

Lemma resolve_connection_asks scope selector h :
  wp allowed (resolve_connection scope selector) h (on_ok (fun h' rc =>
    exists new policy access paths connections,
      h' = new ++ h /\ (read_last new policy access paths connections /\ choose_connection scope selector policy access paths connections = Ok rc)
      /\ omap saw_consent new = [])).
Proof.
  apply wp_and_then. eapply wp_ok_mono; [|apply load_policy_wp]. intros h1 policy ->.
  apply wp_asking; [apply Hread|]. intros access. apply wp_and_then. unfold wrap_err, load_group_paths_for_policy. apply wp_bind.
  split; [apply Hread|]. intros r.
  assert (Hrest : forall paths, saw_groups (Seen LoadGroupDetails r) = Some paths ->
    wp allowed (asking (tool_error "CONNECTION_LOAD_ERROR") LoadConnections (fun connections =>
       Ret (choose_connection scope selector policy access paths connections)))
      (Seen LoadGroupDetails r :: Seen LoadAccessPolicy (Ok access) :: Seen LoadGlobalPolicy (Ok policy) :: h) (on_ok (fun h' rc =>
        exists new policy access paths connections,
          h' = new ++ h /\ (read_last new policy access paths connections /\ choose_connection scope selector policy access paths connections = Ok rc)
          /\ omap saw_consent new = []))).
  { intros paths Hp. apply wp_asking; [apply Hread|]. intros connections. cbn [wp].
    destruct (choose_connection _ _ _ _ _ _) as [rc|e] eqn:Ec; [|done]. simpl.
    exists [Seen LoadConnections (Ok connections); Seen LoadGroupDetails r; Seen LoadAccessPolicy (Ok access); Seen LoadGlobalPolicy (Ok policy)].
    exists policy, access, paths, connections. split; [done|]. split; [|done]. split; [|done]. split; [done..| |done].
    unfold last_read. simpl in *. by rewrite Hp. }
  destruct r as [paths|e]; [|destruct (policy_uses_connection_groups policy)]; simpl; try done; by apply Hrest.
Qed.

Lemma resolve_connection_wp scope selector h :
  wp allowed (resolve_connection scope selector) h (on_ok (fun h' rc =>
    exists new policy access paths connections,
      h' = new ++ h /\ read_last new policy access paths connections /\ choose_connection scope selector policy access paths connections = Ok rc)).
Proof.
  eapply wp_ok_mono; [|apply resolve_connection_asks]. intros h' rc (new & policy & access & paths & connections & -> & Hc & _).
  by exists new, policy, access, paths, connections.
Qed.
End resolution.

(** ** Decisions *)

Lemma level_not_lt a b : level_lt a b = false -> level_le b a = true.
Proof. unfold level_lt, level_le. intros H%Nat.ltb_ge. by apply Nat.leb_le. Qed.

Lemma confirm_confirmed confirm l level high :
  confirm_decide confirm l level high = Confirm ->
  high = true /\ (level_le level l = true /\ confirm = ConfirmHighRisk \/ confirm = ConfirmFull /\ l = LevelWrite /\ level = LevelFull).
Proof.
  unfold confirm_decide. destruct (level_lt l level) eqn:E.
  - destruct (_ && _) eqn:Ec; [|done]. intros _. rewrite !andb_true_iff, !bool_decide_eq_true in Ec. naive_solver.
  - apply level_not_lt in E. destruct (_ && _) eqn:Ec; [|done]. intros _. rewrite !andb_true_iff, !bool_decide_eq_true in Ec. naive_solver.
Qed.

Lemma confirm_allowed confirm l level high :
  confirm_decide confirm l level high = Allow -> level_le level l = true /\ (confirm = ConfirmHighRisk -> high = false).
Proof.
  unfold confirm_decide. destruct (level_lt l level) eqn:E; [by destruct (_ && _)|]. apply level_not_lt in E.
  destruct (_ && _) eqn:Ec; [done|]. intros _. split; [done|]. intros ->. by destruct high.
Qed.
(** ** Product tools *)

(** A person has confirmed a request, and everything was read again since. *)
Definition confirmed_since (h : list (seen Call)) (shown : ToolApprovalRequest -> Prop) (policy : McpGlobalPolicy) (access : McpAccessPolicy)
    (paths : gmap string McpConnectionGroupPath) (connections : list Connection) : Prop :=
  exists new request old, h = new ++ Seen (ApproveTool request) (Ok tt) :: old /\ shown request /\ read_last new policy access paths connections.

Section product.
Context (scope : McpScope) (TOOLS : list McpToolDescriptor) (database_type_str : DatabaseType.t -> string).
Context (to_string_pretty : json -> option string) (value_to_string : json -> string).
Context (tool : string) (selector : ConnectionSelector) (product : Product) (operation : string) (level : McpAccessLevel).
Context (given_scope : option string) (args : json).

(** The call that is made: for Nacos, with the namespace that was authorised. *)
Definition sent_args (scoped : option string) : json :=
  match scoped with Some ns => if bool_decide (product = Nacos) then set_namespace operation ns args else args | None => args end.
Definition sent_call (scoped : option string) : ProductCall :=
  {| call_product := product; call_operation := operation; call_args := sent_args scoped |}.

(** A connection that the policies read at some point of the call expose. *)
Definition exposed (h : list (seen Call)) (paths : gmap string McpConnectionGroupPath) (connection : Connection) : Prop :=
  exists policy access, policy ∈ omap saw_global h /\ access ∈ omap saw_access h /\
    policy_allows_connection policy (paths !! connection.(c_id)) connection.(c_id) = true /\ ensure_access access paths connection = Ok tt.

Lemma exposed_within a new h paths connection : exposed new paths connection -> exposed (a ++ new ++ h) paths connection.
Proof.
  intros (policy & access & Hp & Ha & Hrest). exists policy, access. rewrite !omap_app, !elem_of_app. auto.
Qed.

Lemma chosen_is_exposed policy access paths connections rc new :
  read_last new policy access paths connections -> choose_connection scope selector policy access paths connections = Ok rc ->
  exposed new paths rc.(rc_connection) /\ (connection_scope_enabled scope = true -> scope_matches scope rc.(rc_connection) = true).
Proof.
  intros [Hp Ha _ _] (_ & _ & Hc & He & Hs)%choose_connection_spec. split; [|done].
  exists policy, access. split_and!; [by apply last_read_elem..|done|done].
Qed.

(** The policy that was read first admits the tool, and so does the policy read
    last if somebody was asked to consent in between. *)
Definition tool_admitted (h : list (seen Call)) (policy : McpGlobalPolicy) : Prop :=
  (exists first, last (omap saw_global h) = Some first /\ policy_allows_tool first tool = true) /\
  (omap saw_consent h <> [] -> policy_allows_tool policy tool = true).

(** What was read says of a product call that reaches the backend. *)
Record product_authorised (h : list (seen Call)) (connection : Connection) (call : ProductCall) (policy : McpGlobalPolicy)
    (access : McpAccessPolicy) (paths : gmap string McpConnectionGroupPath) (connections : list Connection)
    (scoped : option string) (resolved : McpResolvedAccess) (l : McpAccessLevel) : Prop := {
  pa_read : read_last h policy access paths connections;
  pa_tool : tool_admitted h policy;
  pa_connection : connection ∈ connections /\ c_db_type connection = product_type product;
  pa_session : connection_scope_enabled scope = true -> scope_matches scope connection = true;
  pa_exposed : exposed h paths connection;
  pa_visible : resolved.(res_visible) = true;
  pa_level : level_le (if bool_decide (level = LevelRead) then LevelRead else LevelWrite) l = true;
  pa_protected : level_lt LevelRead level = true -> connection.(c_read_only) = false /\ is_production connection (default "" scoped) = false;
  pa_granted : level_lt LevelRead level = true ->
    level_le level l = true \/
    confirmation_policy policy = ConfirmFull /\ l = LevelWrite /\ level = LevelFull /\
    confirmed_since h (fun r => r.(req_tool) = tool /\ r.(req_connection_id) = Some connection.(c_id) /\ r.(req_database) = scoped)
      policy access paths connections;
  pa_asked : level = LevelFull -> confirmation_policy policy = ConfirmHighRisk ->
    confirmed_since h (fun r => r.(req_tool) = tool /\ r.(req_connection_id) = Some connection.(c_id) /\ r.(req_database) = scoped)
      policy access paths connections;
  pa_search : level = LevelRead -> all_namespaces_search product operation args = true ->
    sub_scope_allows_all access connection.(c_id) "namespace" = true;
  pa_call : call = sent_call scoped;
}.

(** The sub-scope, the access to it and the level of the tool, from what was read. *)
Definition authorised (h : list (seen Call)) (connection : Connection) (call : ProductCall) : Prop :=
  exists policy access paths connections,
  let scoped := product_scope product operation given_scope args connection in
  let resolved := resolve access (path_ids (paths !! connection.(c_id))) connection.(c_id) (zip_scope (scope_kind product) scoped) in
  product_authorised h connection call policy access paths connections scoped resolved
    (tool_level TOOLS access tool connection.(c_id) resolved.(V2.level)).

Definition product_allowed : allowance := fun X h call => match call with CallProduct c pc => authorised h c pc | _ => True end.

Lemma product_may_read : may_read product_allowed.
Proof. done. Qed.


(** What is left in the history when everything was read again. *)
Lemma recheck_wp policy connection h :
  let scoped := product_scope product operation given_scope args connection in
  wp product_allowed (recheck_product scope TOOLS tool selector product level scoped policy connection) h (on_ok (fun h' c =>
    c = connection /\ exists new policy' access paths connections,
    let resolved := resolve access (path_ids (paths !! c.(c_id))) c.(c_id) (zip_scope (scope_kind product) scoped) in
    h' = new ++ h /\ read_last new policy' access paths connections /\ c ∈ connections /\ c_db_type c = product_type product /\
    resolved.(res_visible) = true /\ policy_allows_tool policy' tool = true /\
    confirm_decide (confirmation_policy policy') (tool_level TOOLS access tool c.(c_id) resolved.(V2.level)) level true = Confirm /\
    c.(c_read_only) = false /\ is_production c (default "" scoped) = false /\
    exposed new paths c /\ (connection_scope_enabled scope = true -> scope_matches scope c = true))).
Proof.
  cbn zeta. apply wp_and_then. eapply wp_ok_mono; [|apply (resolve_connection_wp _ product_may_read)].
  intros h1 rc (new & policy0 & access0 & paths & connections & -> & Hr & Hc). pose proof (chosen_is_exposed _ _ _ _ _ _ Hr Hc) as [Hexp Hsc].
  apply choose_connection_spec in Hc as (Hrc & Hin & _).
  case_bool_decide as Ht; [|done]. cbn [negb]. apply wp_and_then. eapply wp_ok_mono; [|apply (load_policy_wp _ product_may_read)]. intros h2 policy' ->.
  case_bool_decide as Hsame; [|done]. destruct (policy_allows_tool policy' tool) eqn:Htool; [|done]. cbn [negb orb].
  apply wp_asking; [done|]. intros access. rewrite Hrc. cbn [rc_group_ids resolved_connection rc_connection]. rewrite Hsame in *.
  set (resolved := resolve _ _ _ _). destruct (res_visible resolved) eqn:Ev; [|done]. cbn [negb orb].
  case_bool_decide; [|done]. cbn [negb orb]. case_bool_decide as Hd; [|done]. cbn [negb orb].
  destruct (c_read_only connection) eqn:Ero; [done|]. destruct (is_production connection _) eqn:Ep; [done|]. cbn [wp on_ok]. split; [done|].
  exists (Seen LoadAccessPolicy (Ok access) :: Seen LoadGlobalPolicy (Ok policy') :: new), policy', access, paths, connections.
  destruct Hr as [Hr1 Hr2 Hr3 Hr4]. split_and!; try done. rewrite <- (app_nil_r new). by apply (exposed_within [_; _]).
Qed.

(** The last step: the call itself. *)
Lemma call_wp h policy access paths connections access0 c :
  let scoped := product_scope product operation given_scope args c in
  let resolved := resolve access (path_ids (paths !! c.(c_id))) c.(c_id) (zip_scope (scope_kind product) scoped) in
  product_authorised h c (sent_call scoped) policy access paths connections scoped resolved
    (tool_level TOOLS access tool c.(c_id) resolved.(V2.level)) ->
  wp product_allowed (asking (backend_tool_error "DBX_TOOL_ERROR") (CallProduct c (sent_call scoped)) (fun value =>
    if bool_decide (product = Nacos) && String.eqb operation "list_namespaces" then
      Ret (Ok (default "[]" (to_string_pretty (JArray (visible_namespaces access0 c.(c_id) value)))))
    else Ret (Ok (match to_string_pretty value with Some s => s | None => value_to_string value end)))) h (on_ok (fun _ _ => True)).
Proof.
  cbn zeta. intros Ha. apply wp_asking; [by exists policy, access, paths, connections|].
  intros value. by destruct (bool_decide (product = Nacos) && String.eqb operation "list_namespaces").
Qed.

Lemma run_product_wp :
  wp product_allowed (run_product_tool scope TOOLS database_type_str to_string_pretty value_to_string tool selector product operation level given_scope args) []
    (on_ok (fun _ _ => True)).
Proof.
  apply wp_and_then. eapply wp_ok_mono; [|apply (ensure_tool_wp _ product_may_read)]. intros h0 _ (policy0 & -> & Htool).
  apply wp_and_then. eapply wp_ok_mono; [|apply (resolve_connection_asks _ product_may_read)].
  intros h1 rc (new & policy1 & access0 & paths & connections & -> & [Hr Hc] & Hnew). pose proof (chosen_is_exposed _ _ _ _ _ _ Hr Hc) as [Hexp Hsc].
  apply choose_connection_spec in Hc as (Hrc & Hin & _).
  cbv zeta. destruct (bool_decide (c_db_type _ = _)) eqn:Ht; [|done]. apply bool_decide_eq_true in Ht. cbn [negb].
  apply wp_asking; [done|]. intros access. set (c := rc_connection rc) in *.
  assert (Hg : rc_group_ids rc = path_ids (paths !! c.(c_id))) by (rewrite Hrc; done). rewrite Hg.
  set (scoped := product_scope _ _ _ _ _). set (resolved := resolve _ _ _ _). set (l := tool_level _ _ _ _ _).
  destruct (res_visible resolved) eqn:Ev; [|done]. cbn [negb]. destruct (all_namespaces_search _ _ _ && _) eqn:Es; [done|].
  destruct (level_lt l _) eqn:El; [done|]. apply level_not_lt in El. apply wp_and_then.
  set (h2 := Seen LoadAccessPolicy (Ok access) :: _).
  assert (Hr2 : read_last h2 policy1 access paths connections).
  { destruct Hr as [H1 H2 H3 H4]. unfold h2.
    split; [exact (last_read_app _ new _ _ H1)|done|exact (last_read_app _ new _ _ H3)|exact (last_read_app _ new _ _ H4)]. }
  assert (Hfirst : forall a, exists first, last (omap saw_global (a ++ h2)) = Some first /\ policy_allows_tool first tool = true).
  { intros a. exists policy0. split; [|done]. unfold h2. rewrite omap_app. csimpl. rewrite omap_app. csimpl. by rewrite app_assoc, last_snoc. }
  assert (Hquiet : omap saw_consent h2 = []) by (unfold h2; csimpl; by rewrite omap_app, Hnew).
  assert (Hexp2 : forall a, exposed (a ++ h2) paths c).
  { intros a. unfold h2. rewrite cons_middle, app_assoc. by apply exposed_within. }
  clearbody h2.
  destruct (level_lt LevelRead level) eqn:Elw.
  - destruct (c_read_only c) eqn:Ero; [done|]. destruct (is_production c (default "" scoped)) eqn:Ep; [done|].
    apply wp_and_then. eapply wp_ok_mono; [|apply (load_policy_wp _ product_may_read)]. intros h3 policy ->.
    assert (Hr3 : read_last (Seen LoadGlobalPolicy (Ok policy) :: h2) policy access paths connections) by (destruct Hr2; by split).
    destruct (confirm_decide _ l level _) eqn:Ed; [done| |].
    + cbn [wp on_ok]. apply confirm_allowed in Ed as [Hle Hhigh]. eapply call_wp. fold scoped.
      split; try done; [split; [apply (Hfirst [_])|by csimpl; rewrite Hquiet]|apply (Hexp2 [_])|by left| |].
      * intros -> Hh. specialize (Hhigh Hh). by rewrite bool_decide_eq_true_2 in Hhigh.
      * by intros ->.
    + apply wp_asking; [done|]. intros []. eapply wp_ok_mono; [|apply recheck_wp].
      intros h4 c' (-> & new' & policy' & access' & paths' & connections' & -> & Hr' & Hin' & Ht' & Hv' & Htool' & Hd' & Hro' & Hp' & Hexp' & Hsc').
      fold scoped in Hv', Hd', Hp'. apply confirm_confirmed in Hd' as [_ Hd']. eapply call_wp. fold scoped.
      apply confirm_confirmed in Ed as [Hfull _]. apply bool_decide_eq_true in Hfull.
      assert (Hconf : confirmed_since (new' ++ Seen (ApproveTool (with_target (Some (c_id c)) scoped
          (approval_request ProductTool tool (arguments_preview to_string_pretty value_to_string (sent_args scoped))))) (Ok tt) ::
          Seen LoadGlobalPolicy (Ok policy) :: h2)
        (fun r => r.(req_tool) = tool /\ r.(req_connection_id) = Some c.(c_id) /\ r.(req_database) = scoped) policy' access' paths' connections').
      { eexists new', _, _. split; [done|]. by split. }
      split; try done.
      * destruct Hr'. split; by apply last_read_app.
      * split; [|done]. match goal with |- context [new' ++ ?x :: ?y :: h2] => pose proof (Hfirst (new' ++ [x; y])) as Hlast end.
        by rewrite <- app_assoc in Hlast.
      * by apply (exposed_within []).
      * rewrite Hfull. destruct Hd' as [[Hle _]|(_ & -> & _)]; [|done]. unfold level_le in *. apply Nat.leb_le in Hle. rewrite Hfull in Hle.
        apply Nat.leb_le. simpl in *. lia.
      * intros _. destruct Hd' as [[Hle _]|(Hc1 & Hl & Hlev)]; [by left|by right].
      * by intros ->.
  - cbn [wp on_ok]. eapply call_wp. fold scoped. split; try done; try congruence.
    + split; [apply (Hfirst [])|by rewrite Hquiet].
    + apply (Hexp2 []).
    + intros Hf. by rewrite Hf in Elw.
    + intros _ Hs. rewrite Hs in Es. simpl in Es. by apply negb_false_iff in Es.
Qed.
End product.

(** The namespace a call names: that of the target, for instances. *)
Definition sent_namespace (operation : string) (args : json) : option string :=
  if String.eqb operation "update_instance" then value_get "target" args ≫= str_member "namespace" else str_member "namespace" args.

(** The arguments have a place for it. *)
Definition takes_namespace (operation : string) (args : json) : bool :=
  match (if String.eqb operation "update_instance" then value_get "target" args else Some args) with Some (JObject _) => true | _ => false end.

Lemma get_inserted k v m : obj_get k (obj_insert k v m) = Some v.
Proof.
  induction m as [|[k' v'] m IH]; simpl; [by rewrite String.eqb_refl|]. destruct (String.eqb_spec k' k); simpl; [by subst; rewrite String.eqb_refl|].
  by rewrite (proj2 (String.eqb_neq _ _)).
Qed.

Lemma namespace_is_sent operation ns args :
  takes_namespace operation args = true -> sent_namespace operation (set_namespace operation ns args) = Some ns.
Proof.
  unfold takes_namespace, sent_namespace, set_namespace. destruct (String.eqb operation "update_instance").
  - destruct args as [| | | | |m]; simpl; try done. destruct (obj_get "target" m) as [[| | | | |t]|]; try done. intros _. cbn [value_get].
    rewrite get_inserted. cbn [mbind option_bind]. unfold str_member. cbn [value_get]. by rewrite get_inserted.
  - destruct args as [| | | | |m]; try done. intros _. unfold str_member. cbn [value_get]. by rewrite get_inserted.
Qed.

(** C6. What holds when a product tool reaches its backend, whatever changes between
    two questions.  The tool is admitted by the policy read first, and after a
    confirmation also by the policy read last.  The connection is in the scope of
    the session, one of those read last, of the product's type, and exposed by
    policies that were read during the call.  The access policy read last has the
    connection and the sub-scope visible and gives the tool a level, under the
    ceiling of its toolset, of at least read, or write for any change.  A change
    needs a connection that is neither protected nor production; the level is at
    least what the tool declares, or the legacy policy applies, one step is missing
    and a person has confirmed this tool for this connection and sub-scope; a
    high-risk tool under the high-risk policy was confirmed.  A confirmation counts
    only if all policies and connections were read again after it.  The namespace
    that is sent to Nacos is the one that was authorised. *)
Theorem product_call_is_authorised scope TOOLS database_type_str to_string_pretty value_to_string tool selector product operation level
    given_scope args connection call k h :
  run (run_product_tool scope TOOLS database_type_str to_string_pretty value_to_string tool selector product operation level given_scope args)
    [] (Ask (CallProduct connection call) k) h ->
  authorised scope TOOLS tool product operation level given_scope args h connection call /\
  (product = Nacos -> operation <> "list_namespaces" -> all_namespaces_search product operation args = false -> takes_namespace operation args = true ->
   exists ns, product_scope product operation given_scope args connection = Some ns /\ sent_namespace operation call.(call_args) = Some ns).
Proof.
  intros Hr. pose proof (wp_run _ _ _ _ _ _ (run_product_wp scope TOOLS database_type_str to_string_pretty value_to_string
    tool selector product operation level given_scope args) Hr) as Ha. split; [exact Ha|].
  intros -> Hop Hs Ht. destruct Ha as (policy & access & paths & connections & [_ _ _ _ _ _ _ _ _ _ _ Hcall]). subst call.
  unfold product_scope in *. rewrite Hs, (proj2 (String.eqb_neq _ _) Hop) in *. cbn [andb negb bool_decide decide decide_rel Product_eq_dec] in *.
  eexists. split; [done|]. by apply namespace_is_sent.
Qed.

(** ** SQL *)

Section sql.
Context (scope : McpScope).
Context `{UnicodeTables, UnicodeCase, SqlTokenizer, SqlparserLexers, JsonParser, AstVisitor, SqlparserParser, Regexes, PostgresScope}.
Context (data_charset_enabled : Connection -> result bool string) (confirmed_env : option text)
  (validate_transaction_sql_shape : text -> result unit string).

(** A statement that may change something, by either of the two checks. *)
Definition may_write (c : Connection) (sql : text) : bool :=
  match classify_sql_risk_for_database sql (c_db_type c) with Ok risk => negb (bool_decide (risk = ReadOnly)) | Err _ => true end
  || is_write_sql_for_database sql (c_db_type c).

(** What a policy of the first version admits of a statement on a connection. *)
Record admits (c : Connection) (policy : McpGlobalPolicy) (database : string) (sql : text) (permissions : AgentSqlPermissions) : Prop := {
  ad_write : may_write c sql = true ->
    policy.(read_only) = false /\ c.(c_read_only) = false /\ targets_production_database c.(c_safety) (name_text database) sql = false;
  ad_high_risk : is_high_risk c sql = true -> policy.(allow_dangerous_sql) = true;
  ad_transaction : classify_sql_risk_for_database sql (c_db_type c) <> Ok Transaction;
  ad_permissions : permissions = mcp_permissions data_charset_enabled confirmed_env c policy;
}.

Lemma validate_admits c policy database sql switch permissions :
  validate_sql_policy data_charset_enabled confirmed_env c policy database sql switch = Ok permissions -> admits c policy database sql permissions.
Proof.
  unfold validate_sql_policy. destruct (data_charset_enabled c) as [charset|] eqn:Ech; [|done]. simpl.
  destruct (if charset then _ else _); [|done]. simpl. destruct (negb switch && _); [done|].
  assert (Hmw : may_write c sql = match classify_sql_risk_for_database sql (c_db_type c) with Ok risk => negb (bool_decide (risk = ReadOnly)) | Err _ => true end
    || is_write_sql_for_database sql (c_db_type c)) by done.
  assert (Hhr : is_high_risk c sql = match classify_sql_risk_for_database sql (c_db_type c) with Ok risk => bool_decide (risk = DdlRisk) | Err _ => false end
    || is_dangerous_sql_for_database sql (c_db_type c)) by done.
  destruct (classify_sql_risk_for_database sql (c_db_type c)) as [risk|] eqn:Er; [|done].
  destruct (bool_decide (risk = Transaction)) eqn:Htx; [done|]. apply bool_decide_eq_false in Htx. rewrite <- Hmw, <- Hhr.
  destruct (read_only policy && may_write c sql) eqn:E1; [done|]. destruct (c_read_only c && may_write c sql) eqn:E2; [done|].
  destruct (is_high_risk c sql && negb (allow_dangerous_sql policy)) eqn:E3; [done|].
  destruct (may_write c sql && targets_production_database _ _ sql) eqn:E4; [done|]. intros [= <-]. split.
  - intros Hw. rewrite Hw in *. destruct (read_only policy), (c_read_only c); simpl in *; try done.
  - intros Hh. rewrite Hh in E3. by destruct (allow_dangerous_sql policy).
  - by rewrite Er; intros [= ->].
  - done.
Qed.

(** The policy in force on a database, from what was read. *)
Definition in_force (policy : McpGlobalPolicy) (paths : gmap string McpConnectionGroupPath) (c : Connection) (database : string) : McpGlobalPolicy :=
  effective_policy_for_database_with_groups policy (path_ids (paths !! c.(c_id))) c database.

(** High-risk SQL may run as it stands: the full level, and nobody is to be asked. *)
Definition unasked (policy : McpGlobalPolicy) : Prop := policy_level policy = LevelFull /\ confirmation_policy policy <> ConfirmHighRisk.

(** It may run once confirmed: the full level, or the legacy policy and one step
    missing. *)
Definition askable (policy : McpGlobalPolicy) : Prop :=
  policy_level policy = LevelFull /\ confirmation_policy policy = ConfirmHighRisk \/
  confirmation_policy policy = ConfirmFull /\ policy_level policy = LevelWrite.

(** The databases a statement names are in the scope of the policy. *)
Definition names_allowed (gp : McpGlobalPolicy) (c : Connection) (database : string) (sql : text) : Prop :=
  ensure_sql_database_scope (database_scope_for_connection gp c.(c_id)) c database sql = Ok tt /\ ensure_execution_scope gp c database sql = Ok tt.

(** The exact statement was confirmed for this connection and database, and
    everything was read again since; the policy then in force. *)
Definition confirmed_sql (h : list (seen Call)) (c : Connection) (database : string) (sql : text) (token : string) (policy : McpGlobalPolicy) : Prop :=
  exists new old gp access paths connections,
  h = new ++ Seen (ApproveSql c.(c_id) database sql) (Ok token) :: old /\ read_last new gp access paths connections /\ c ∈ connections /\
  policy_allows_connection gp (paths !! c.(c_id)) c.(c_id) = true /\
  (exists d, resolve_database scope (Some database) (resolved_connection gp c (paths !! c.(c_id))) = Ok d) /\
  names_allowed gp c database sql /\
  askable (in_force gp paths c database) /\ policy = lifted (in_force gp paths c database).

Lemma rank_full l : level_le LevelFull l = true -> l = LevelFull.
Proof. by destruct l. Qed.

Lemma confirm_askable policy : confirm_decide (confirmation_policy policy) (policy_level policy) LevelFull true = Confirm -> askable policy.
Proof. intros [_ [[Hl%rank_full Hc]|(Hc & Hl & _)]]%confirm_confirmed; [by left|by right]. Qed.

Lemma confirm_unasked policy : confirm_decide (confirmation_policy policy) (policy_level policy) LevelFull true = Allow -> unasked policy.
Proof. intros [Hl%rank_full Hc]%confirm_allowed. split; [done|]. intros Hh. by specialize (Hc Hh). Qed.

(** Nothing is asked of [approved_sql_policy] but what it needs. *)
Definition sql_allowed (P : list (seen Call) -> Connection -> string -> text -> AgentSqlPermissions -> Prop)
    (T : list (seen Call) -> string -> Connection -> text -> Prop) : allowance :=
  fun X h call => match call with
                  | ExecuteAgentTool c d sql _ permissions => P h c d sql permissions
                  | LeaseQuery sid c sql _ => T h sid c sql
                  | _ => True
                  end.

Lemma sql_may_read P T : may_read (sql_allowed P T).
Proof. done. Qed.

Lemma approved_wp P T c policy database sql switch defer h :
  wp (sql_allowed P T) (approved_sql_policy scope data_charset_enabled confirmed_env c policy database sql switch defer) h (on_ok (fun h' r =>
    (r = (policy, None) /\ h' = h /\ (is_high_risk c sql = true -> unasked policy)) \/
    exists token current h1, r = (current, Some token) /\ confirmed_sql h1 c database sql token current /\ askable policy /\
      h' = (if defer then [] else [Seen (ConsumeApproval token c.(c_id) database sql) (Ok tt)]) ++ h1 /\ exists new, h1 = new ++ h)).
Proof.
  unfold approved_sql_policy. destruct (is_high_risk c sql) eqn:Eh; [|by left]. cbn [negb].
  destruct (confirm_decide _ _ _ _) eqn:Ed.
  - apply wp_lift. done.
  - left. split; [done|]. split; [done|]. intros _. by apply confirm_unasked.
  - apply confirm_askable in Ed. apply wp_lift. intros perm _. apply wp_asking; [done|]. intros token. apply wp_and_then.
    eapply wp_ok_mono; [|apply (resolve_connection_wp _ (sql_may_read P T))].
    intros h1 rc (new & gp & access & paths & connections & -> & Hr & Hc). apply choose_connection_spec in Hc as (Hrc & Hin & Hal & _ & _).
    case_bool_decide as Hsame; [|done]. cbn [negb]. rewrite Hsame in *. rewrite Hrc. cbn [rc_database_scope rc_policy rc_group_ids resolved_connection].
    apply wp_lift. intros d Hd. apply wp_lift. intros [] Hs. apply wp_lift. intros [] He. fold (in_force gp paths c database).
    case_bool_decide; [|done]. cbn [negb orb]. case_bool_decide as Hconf; [|done]. cbn [negb]. apply confirm_askable in Hconf.
    apply wp_lift. intros perm' _.
    assert (Hc : confirmed_sql (new ++ Seen (ApproveSql (c_id c) database sql) (Ok token) :: h) c database sql token (lifted (in_force gp paths c database))).
    { exists new, h, gp, access, paths, connections. split_and!; try done. by exists d. }
    apply wp_and_then. destruct defer.
    + cbn [wp on_ok]. right. eexists token, _, _. split_and!; [done|exact Hc|done|done|]. exists (new ++ [Seen (ApproveSql (c_id c) database sql) (Ok token)]).
      by rewrite <- app_assoc.
    + apply wp_asking; [done|]. intros []. cbn [wp on_ok]. right. eexists token, _, _. split_and!; [done|exact Hc|done|done|].
      exists (new ++ [Seen (ApproveSql (c_id c) database sql) (Ok token)]). by rewrite <- app_assoc.
Qed.

(** *** Outside transactions *)

Context (resolved : ResolvedConnection) (session : option McpSession) (database : string) (request : ExecuteQueryRequest).

(** The policy in force when the call was resolved. *)
Definition base_policy : McpGlobalPolicy :=
  effective_policy_for_database_with_groups resolved.(rc_policy) resolved.(rc_group_ids) resolved.(rc_connection) database.

(** A statement that is run: admitted by the policy the call was resolved with,
    nobody asked, or by the one in force after a confirmation of it, whose token
    was used up. *)
Definition statement_authorised (h0 h : list (seen Call)) (c : Connection) (d : string) (sql : text) (permissions : AgentSqlPermissions) : Prop :=
  c = resolved.(rc_connection) /\ d = database /\ sql = request.(q_sql) /\
  ensure_sql_database_scope resolved.(rc_database_scope) c d sql = Ok tt /\ ensure_execution_scope resolved.(rc_policy) c d sql = Ok tt /\
  exists policy, admits c policy d sql permissions /\
    (policy = base_policy /\ h = h0 /\ (is_high_risk c sql = true -> unasked base_policy) \/
     exists token h1 gp, askable base_policy /\ confirmed_sql h1 c d sql token policy /\ policy_allows_tool gp "dbx_execute_query" = true /\
       h = Seen LoadGlobalPolicy (Ok gp) :: Seen (ConsumeApproval token c.(c_id) d sql) (Ok tt) :: h1).

(** *** In transactions *)

(** A statement of a transaction: admitted by the policies read after the lease
    was obtained; what had to be confirmed was confirmed before, and its token is
    used up after. *)
Definition transaction_authorised (h : list (seen Call)) (sid : string) (c : Connection) (sql : text) : Prop :=
  sql = request.(q_sql) /\ exists s newer older gp access paths connections policy permissions,
  session = Some s /\ sid = s.(s_id) /\ h = newer ++ Seen (AcquireLease sid) (Ok tt) :: older /\ read_last newer gp access paths connections /\
  c ∈ connections /\ c.(c_id) = s.(s_connection_id) /\ policy_allows_connection gp (paths !! c.(c_id)) c.(c_id) = true /\
  names_allowed gp c s.(s_database) sql /\ admits c policy s.(s_database) sql permissions /\
  let current := in_force gp paths c s.(s_database) in
  (policy = current /\ (is_high_risk c sql = true -> unasked current \/ may_write c sql = false) \/
   policy = lifted current /\ askable current /\ exists token new older' admitted,
     Seen (ConsumeApproval token c.(c_id) s.(s_database) sql) (Ok tt) ∈ newer /\ older = new ++ older' /\
     confirmed_sql older' resolved.(rc_connection) database sql token admitted).

Lemma level_full policy : policy_level policy = LevelFull <-> policy.(read_only) = false /\ policy.(allow_dangerous_sql) = true.
Proof. unfold policy_level, from_flags. destruct (read_only policy), (allow_dangerous_sql policy); naive_solver. Qed.

Lemma denied_reads c policy d sql permissions :
  confirm_decide (confirmation_policy policy) (policy_level policy) LevelFull true = Deny -> admits c policy d sql permissions ->
  is_high_risk c sql = true -> may_write c sql = false.
Proof.
  intros Hd [Hw Hh _ _] Hr. specialize (Hh Hr). destruct (may_write c sql); [|done]. destruct (Hw eq_refl) as (Hro & _).
  assert (Hl : policy_level policy = LevelFull) by by apply level_full. rewrite Hl in Hd. unfold confirm_decide in Hd. simpl in Hd.
  by destruct (bool_decide _).
Qed.

Lemma queued_wp (allowed : allowance) c admitted current d sql token h :
  (forall t h, allowed _ h (ConsumeApproval t c.(c_id) d sql)) ->
  wp allowed (queued_sql_permissions data_charset_enabled confirmed_env c admitted current d sql token) h (on_ok (fun h' permissions =>
    exists policy, admits c policy d sql permissions /\
    h' = match token with Some t => [Seen (ConsumeApproval t c.(c_id) d sql) (Ok tt)] | None => [] end ++ h /\
    (policy = current /\ (is_high_risk c sql = true -> unasked current \/ may_write c sql = false) \/
     policy = lifted current /\ askable current /\ is_Some token))).
Proof.
  intros Hc. unfold queued_sql_permissions. apply wp_lift. intros policy Hpolicy. apply wp_lift. intros permissions Hv%validate_admits.
  assert (Hcase : policy = current /\ (is_high_risk c sql = true -> unasked current \/ may_write c sql = false) \/
    policy = lifted current /\ askable current /\ is_Some token).
  { destruct (is_high_risk c sql) eqn:Eh; [|left; injection Hpolicy as <-; done]. case_bool_decide; [|done]. simpl in Hpolicy.
    destruct (confirm_decide _ _ _ _) eqn:Ed; simpl in Hpolicy.
    - injection Hpolicy as <-. left. split; [done|]. intros Hr. right. by eapply denied_reads.
    - injection Hpolicy as <-. left. split; [done|]. intros _. left. by apply confirm_unasked.
    - case_bool_decide as Ht; [done|]. injection Hpolicy as <-. right. split; [done|]. split; [by apply confirm_askable|]. by destruct token; [|]. }
  apply wp_and_then. destruct token as [t|].
  - apply wp_asking; [apply Hc|]. intros []. exists policy. by split_and!.
  - exists policy. by split_and!.
Qed.

Lemma read_last_app new old gp access paths connections : read_last new gp access paths connections -> read_last (new ++ old) gp access paths connections.
Proof. intros [H1' H2' H3' H4']. split; by apply last_read_app. Qed.

Lemma read_last_consumed t c d sql h gp access paths connections :
  read_last h gp access paths connections -> read_last (Seen (ConsumeApproval t c d sql) (Ok tt) :: h) gp access paths connections.
Proof. intros [H1' H2' H3' H4']. by split. Qed.

Lemma transaction_wp P s c policy permissions max_rows token h :
  session = Some s ->
  (forall t, token = Some t -> exists new older admitted, h = new ++ older /\ confirmed_sql older resolved.(rc_connection) database request.(q_sql) t admitted) ->
  wp (sql_allowed P transaction_authorised)
    (run_in_transaction scope data_charset_enabled confirmed_env validate_transaction_sql_shape s c policy permissions request.(q_sql) max_rows token) h
    (on_ok (fun _ _ => True)).
Proof.
  intros Hs Htok. apply wp_lift. intros [] _. destruct (confirmed_batch_sql_block_reason _ _ _); [done|].
  apply wp_asking; [done|]. intros []. apply wp_and_then. eapply wp_ok_mono; [|apply (ensure_tool_wp _ (sql_may_read _ _))].
  intros h1 _ (gp0 & -> & _). apply wp_and_then. eapply wp_ok_mono; [|apply (resolve_connection_wp _ (sql_may_read _ _))].
  intros h2 rc (new & gp & access & paths & connections & -> & Hr & Hc). apply choose_connection_spec in Hc as (Hrc & Hin & Hal & _ & _).
  cbv zeta. set (cur := rc_connection rc) in *. destruct (negb (transaction_connection_supported cur) || negb (String.eqb cur.(c_id) s.(s_connection_id))) eqn:Esup; [done|].
  apply orb_false_iff in Esup as [_ Hid%negb_false_iff%String.eqb_eq]. rewrite Hrc. cbn [rc_database_scope rc_policy rc_group_ids resolved_connection].
  apply wp_lift. intros [] Hd. apply wp_lift. intros [] He. fold (in_force gp paths cur s.(s_database)). apply wp_and_then.
  eapply wp_ok_mono; [|by apply queued_wp]. intros h3 perm (pol & Had & -> & Hcase). apply wp_lift. intros [] _.
  destruct (confirmed_batch_sql_block_reason _ _ _); [done|]. apply wp_asking; [|done]. split; [done|].
  set (used := match token with Some _ => _ | None => _ end).
  exists s, (used ++ new ++ [Seen LoadGlobalPolicy (Ok gp0)]), h, gp, access, paths, connections, pol, perm.
  split_and!; try done.
  - by rewrite <- !app_assoc.
  - unfold used. destruct token; simpl; [apply read_last_consumed|]; by apply read_last_app.
  - destruct Hcase as [Hcase|(Hl & Hask & [t Ht])]; [by left|right]. split; [done|]. split; [done|].
    destruct (Htok t Ht) as (new' & older & admitted & -> & Hconf). exists t, new', older, admitted. split; [|done].
    unfold used. rewrite Ht. simpl. left.
Qed.

Lemma execute_sql_wp h0 :
  wp (sql_allowed (statement_authorised h0) transaction_authorised)
    (execute_sql scope data_charset_enabled confirmed_env validate_transaction_sql_shape resolved session database request) h0 (on_ok (fun _ _ => True)).
Proof.
  unfold execute_sql. cbv zeta. apply wp_lift. intros [] Hd. apply wp_lift. intros [] He. fold base_policy. set (c := rc_connection resolved) in *.
  apply wp_and_then. eapply wp_ok_mono; [|apply approved_wp].
  set (tx := match session with Some s => s_transaction s | None => false end).
  intros h1 [policy token] Hcase. apply wp_and_then.
  assert (Hcall : forall h policy permissions max_rows,
    admits c policy database request.(q_sql) permissions ->
    (policy = base_policy /\ h = h0 /\ (is_high_risk c request.(q_sql) = true -> unasked base_policy) \/
     exists token h1 gp, askable base_policy /\ confirmed_sql h1 c database request.(q_sql) token policy /\ policy_allows_tool gp "dbx_execute_query" = true /\
       h = Seen LoadGlobalPolicy (Ok gp) :: Seen (ConsumeApproval token c.(c_id) database request.(q_sql)) (Ok tt) :: h1) ->
    wp (sql_allowed (statement_authorised h0) transaction_authorised)
      (Ask (ExecuteAgentTool c database request.(q_sql) (query_arguments scope request max_rows session resolved.(rc_policy)) permissions)
         (fun r : bool * string => Ret (agent_result r))) h (on_ok (fun _ _ => True))).
  { intros h pol perm max_rows Had Hh. split; [|intros r; by destruct (agent_result r)]. cbn. split_and!; try done. by exists pol. }
  destruct Hcase as [([= -> ->] & -> & Hun)|(t & current & h2 & [= -> ->] & Hconf & Hask & -> & new & Hnew)].
  - cbn [wp on_ok bool_decide]. rewrite bool_decide_eq_false_2 by by intros [? ?]. cbn [wp on_ok]. apply wp_lift. intros perm Hv%validate_admits.
    destruct session as [s|] eqn:Es; [destruct (s_transaction s)|].
    + by apply transaction_wp.
    + apply Hcall with base_policy; [done|]. by left.
    + apply Hcall with base_policy; [done|]. by left.
  - rewrite bool_decide_eq_true_2 by done. eapply wp_ok_mono; [|apply (ensure_tool_wp _ (sql_may_read _ _))].
    intros h3 _ (gp & -> & Htool). apply wp_lift. intros perm Hv%validate_admits.
    assert (Hdone : tx = false -> wp (sql_allowed (statement_authorised h0) transaction_authorised)
      (Ask (ExecuteAgentTool c database request.(q_sql) (query_arguments scope request (clamp_rows request.(q_max_rows)) session resolved.(rc_policy)) perm)
         (fun r : bool * string => Ret (agent_result r)))
      (Seen LoadGlobalPolicy (Ok gp) :: (if tx then [] else [Seen (ConsumeApproval t c.(c_id) database request.(q_sql)) (Ok tt)]) ++ h2) (on_ok (fun _ _ => True))).
    { intros ->. apply Hcall with current; [done|]. right. by exists t, h2, gp. }
    unfold tx in *. destruct session as [s|] eqn:Es; [destruct (s_transaction s)|]; [|by apply Hdone..].
    apply transaction_wp; [done|]. intros t' [= <-]. by exists [Seen LoadGlobalPolicy (Ok gp)], h2, current.
Qed.
End sql.

(** C5. An SQL statement outside a transaction reaches the database only if it is
    admitted.  It is the statement of the request, on the connection and the
    database the call was resolved to, and names only databases in their scope;
    a statement that may write, by either of two checks, runs only where the
    policy in force, the connection and the production marks allow writing; a
    high-risk statement runs unasked only at the full level of a policy that
    asks nobody, and otherwise only after a person confirmed this very text for
    this connection and database, with all policies read again and admitting it
    since, and with the confirmation used up before. *)
Theorem sql_runs_only_as_admitted
    `{UnicodeTables, UnicodeCase, SqlTokenizer, SqlparserLexers, JsonParser, AstVisitor, SqlparserParser, Regexes, PostgresScope}
    scope data_charset_enabled confirmed_env shape resolved session database request h0 c d sql arguments permissions k h :
  run (execute_sql scope data_charset_enabled confirmed_env shape resolved session database request) h0
    (Ask (ExecuteAgentTool c d sql arguments permissions) k) h ->
  statement_authorised scope data_charset_enabled confirmed_env resolved database request h0 h c d sql permissions.
Proof.
  intros Hr. exact (wp_run _ _ _ _ _ _ (execute_sql_wp scope data_charset_enabled confirmed_env shape resolved session database request h0) Hr).
Qed.

(** A statement of a transaction waits for its turn, and is checked again when
    it comes: it reaches the database only if the policies and the connection
    that were read after the lease was obtained admit it, and a high-risk one
    that needs a confirmation only with one for this very text, given before
    and used up after. *)
Theorem transaction_statement_is_rechecked
    `{UnicodeTables, UnicodeCase, SqlTokenizer, SqlparserLexers, JsonParser, AstVisitor, SqlparserParser, Regexes, PostgresScope}
    scope data_charset_enabled confirmed_env shape resolved session database request h0 sid c sql max_rows k h :
  run (execute_sql scope data_charset_enabled confirmed_env shape resolved session database request) h0
    (Ask (LeaseQuery sid c sql max_rows) k) h ->
  transaction_authorised scope data_charset_enabled confirmed_env resolved session database request h sid c sql.
Proof.
  intros Hr. exact (wp_run _ _ _ _ _ _ (execute_sql_wp scope data_charset_enabled confirmed_env shape resolved session database request h0) Hr).
Qed.

(** ** A run that may not write *)

Section restricted.
Notation restricted_policy p := (effective_mcp_policy_with_legacy_allow_writes p (Some false)).
Notation restricted_access a := (effective_mcp_access_policy (Some false) a).

Lemma find_mapped {A} (f : A -> A) (key : A -> string) k l :
  (forall a, key (f a) = key a) -> List.find (fun a => String.eqb (key a) k) (map f l) = f <$> List.find (fun a => String.eqb (key a) k) l.
Proof. intros Hf. induction l as [|a l IH]; [done|]. simpl. rewrite Hf. by destruct (String.eqb (key a) k). Qed.

Lemma restricted_flags policy groups c d : effective_database_execution_policy_with_groups (restricted_policy policy) groups c d = (true, false).
Proof.
  unfold effective_database_execution_policy_with_groups, find_connection_policy, find_group_policy, find_database_policy.
  unfold effective_mcp_policy_with_legacy_allow_writes. rewrite (bool_decide_eq_true_2 (Some false = Some false)) by done.
  cbn [connection_policies group_policies read_only allow_dangerous_sql].
  assert (Hg : foldl (fun effective group_id =>
    match List.find (fun r => String.eqb r.(grp_group_id) group_id) (map (fun g =>
      {| grp_group_id := g.(grp_group_id); grp_read_only := true; grp_allow_dangerous_sql := false |}) policy.(group_policies)) with
    | Some rule => (rule.(grp_read_only), negb rule.(grp_read_only) && rule.(grp_allow_dangerous_sql))
    | None => effective
    end) (true, false) groups = (true, false)).
  { induction groups as [|g groups IH]; [done|]. simpl. rewrite find_mapped by done. by destruct (List.find _ _). }
  rewrite find_mapped by done. cbn [fmap option_fmap option_map]. destruct (List.find _ (connection_policies policy)) as [r|]; simpl.
  - rewrite find_mapped by done. by destruct (List.find _ (database_policies r)).
  - exact Hg.
Qed.

Lemma restricted_rule a t :
  rule (restricted_access a) t = (fun r => r <| V2.access := (fun l => level_min l LevelRead) <$> r.(V2.access) |>) <$> rule a t.
Proof.
  unfold rule, effective_mcp_access_policy. rewrite (bool_decide_eq_true_2 (Some false = Some false)) by done. apply lookup_fmap.
Qed.

Lemma restricted_connection a groups c : rank (connection_access (restricted_access a) groups c).1 <= 1.
Proof.
  assert (Hg : rank (foldl (fun resolved group_id =>
    match rule (restricted_access a) (Group group_id) ≫= V2.access with
    | Some l => (l, SourceGroup group_id)
    | None => resolved
    end) (level_min a.(default_access) LevelRead, SourceDefault) groups).1 <= 1).
  { assert (Hi : rank (level_min a.(default_access) LevelRead, SourceDefault).1 <= 1) by (simpl; rewrite rank_min; simpl; lia). revert Hi.
    generalize (level_min a.(default_access) LevelRead, SourceDefault). induction groups as [|g groups IH]; intros p Hp; [done|]. cbn [foldl].
    apply IH. rewrite restricted_rule. destruct (rule a (Group g)) as [r|]; [|done]. simpl. destruct (V2.access r) as [l|]; [|done]. simpl.
    rewrite rank_min. simpl. lia. }
  unfold connection_access. change (default_access (restricted_access a)) with (level_min a.(default_access) LevelRead).
  unfold connection_rule. rewrite (restricted_rule a (V2.Connection c)). destruct (rule a (V2.Connection c)) as [r|]; [|exact Hg]. cbn [fmap option_fmap option_map].
  set (p := foldl _ _ _) in *. rewrite apply_access_ceiling_level, apply_access_level. simpl.
  assert (H1 : rank (default p.1 ((fun l => level_min l LevelRead) <$> V2.access r)) <= 1).
  { destruct (V2.access r) as [l|]; simpl; [rewrite rank_min; simpl; lia|done]. }
  destruct (ceiling r) as [k|]; [|done]. rewrite rank_min. lia.
Qed.

Lemma restricted_level a groups c sub : level_le (resolve (restricted_access a) groups c sub).(level) LevelRead = true.
Proof.
  apply Nat.leb_le. rewrite resolve_level. destruct (res_visible _); [|simpl; lia]. unfold raw_level.
  pose proof (restricted_connection a groups c) as Hc. destruct sub as [[kind value]|]; [|done].
  rewrite restricted_rule. destruct (rule a (Scope c kind value)) as [r|]; [|done]. cbn [fmap option_fmap option_map].
  rewrite apply_access_ceiling_level, apply_access_level. simpl. set (p := connection_access _ _ _) in *.
  assert (H1 : rank (default p.1 ((fun l => level_min l LevelRead) <$> V2.access r)) <= 1).
  { destruct (V2.access r) as [l|]; simpl; [rewrite rank_min; simpl; lia|done]. }
  destruct (ceiling r) as [k|]; [|done]. rewrite rank_min. lia.
Qed.

(** Every policy that was read is one of a restricted run. *)
Definition all_restricted (h : list (seen Call)) : Prop :=
  forall s, s ∈ h -> (forall p, saw_global s = Some p -> exists p0, p = restricted_policy p0) /\ (forall a, saw_access s = Some a -> exists a0, a = restricted_access a0).

Lemma last_read_seen {A} (f : seen Call -> option A) h a : last_read f h = Some a -> exists s, s ∈ h /\ f s = Some a.
Proof.
  unfold last_read. induction h as [|s h IH]; [done|]. cbn [omap list_omap]. destruct (f s) as [b|] eqn:E; simpl.
  - intros [= ->]. exists s. split; [by left|done].
  - intros (s' & Hs & Hf)%IH. exists s'. split; [by right|done].
Qed.

Lemma restricted_reads h gp access paths connections :
  all_restricted h -> read_last h gp access paths connections -> (exists p, gp = restricted_policy p) /\ (exists a, access = restricted_access a).
Proof.
  intros Hall [Hg Ha _ _]. apply last_read_seen in Hg as (s & Hs & Hg). apply last_read_seen in Ha as (s' & Hs' & Ha).
  split; [by apply (Hall s Hs)|by apply (Hall s' Hs')].
Qed.

Lemma restricted_sub h1 h2 : all_restricted (h1 ++ h2) -> all_restricted h1 /\ all_restricted h2.
Proof. intros Hall. split; intros s Hs; apply Hall, elem_of_app; [by left|by right]. Qed.

(** The policy in force is read-only, lifted or not. *)
Lemma restricted_in_force p groups c d : (effective_policy_for_database_with_groups (restricted_policy p) groups c d).(read_only) = true.
Proof. unfold effective_policy_for_database_with_groups. cbn [read_only]. by rewrite restricted_flags. Qed.

Lemma lifted_read_only p : (lifted p).(read_only) = p.(read_only).
Proof. unfold lifted. by case_bool_decide. Qed.

Lemma read_only_admits `{UnicodeTables, UnicodeCase, SqlTokenizer, SqlparserLexers, JsonParser, AstVisitor, SqlparserParser, Regexes, PostgresScope}
    charset env c policy d sql permissions :
  admits charset env c policy d sql permissions -> policy.(read_only) = true -> may_write c sql = false.
Proof. intros [Hw _ _ _] Hro. destruct (may_write c sql); [|done]. destruct (Hw eq_refl) as [Hf _]. congruence. Qed.

Lemma tool_level_le TOOLS access tool c l : rank (tool_level TOOLS access tool c l) <= rank l.
Proof. unfold tool_level. destruct (descriptor TOOLS tool ≫= _); [|done]. rewrite rank_min. lia. Qed.
End restricted.

(** C7. In a run that was not confirmed and has writes disallowed, product tools and
    SQL statements only read, whatever is in the saved policies and however they
    change: if every policy the backend answers with is one it has restricted, the
    product tools that reach it are declared as reading, and the statements of
    [dbx_execute_query], in a transaction or not, are such that neither check takes
    them for a write.  (Plugin tools are not restricted in this way:
    [restricted_plugin_call_passes].) *)
Theorem restricted_tools_only_read
    `{UnicodeTables, UnicodeCase, SqlTokenizer, SqlparserLexers, JsonParser, AstVisitor, SqlparserParser, Regexes, PostgresScope} scope h :
  all_restricted h ->
  (forall TOOLS type_str pretty to_str tool selector product operation declared given_scope args c call k,
     run (run_product_tool scope TOOLS type_str pretty to_str tool selector product operation declared given_scope args) [] (Ask (CallProduct c call) k) h ->
     declared = LevelRead) /\
  (forall charset env shape policy c group_ids session database request h0 c' d sql arguments permissions k,
     run (execute_sql scope charset env shape
            {| rc_connection := c; rc_policy := effective_mcp_policy_with_legacy_allow_writes policy (Some false);
               rc_database_scope := database_scope_for_connection policy c.(c_id); rc_group_ids := group_ids |} session database request) h0
       (Ask (ExecuteAgentTool c' d sql arguments permissions) k) h -> may_write c' sql = false) /\
  (forall charset env shape resolved session database request h0 sid c' sql max_rows k,
     run (execute_sql scope charset env shape resolved session database request) h0 (Ask (LeaseQuery sid c' sql max_rows) k) h ->
     may_write c' sql = false).
Proof.
  intros Hall. split_and!.
  - intros * Hr. pose proof (wp_run _ _ _ _ _ _ (run_product_wp scope TOOLS type_str pretty to_str tool selector product operation declared given_scope args) Hr)
      as (policy & access & paths & connections & Ha). destruct Ha as [Hread _ _ _ _ _ Hl _ _ _ _ _].
    apply (restricted_reads h) in Hread as [_ [a ->]]; [|done]. case_bool_decide as Hlev; [done|]. apply Nat.leb_le in Hl.
    pose proof (tool_level_le TOOLS (effective_mcp_access_policy (Some false) a) tool (c_id c)
      (resolve (effective_mcp_access_policy (Some false) a) (path_ids (paths !! c_id c)) (c_id c)
         (zip_scope (scope_kind product) (product_scope product operation given_scope args c))).(V2.level)) as Ht.
    pose proof (restricted_level a (path_ids (paths !! c_id c)) (c_id c)
      (zip_scope (scope_kind product) (product_scope product operation given_scope args c))) as Hr2. apply Nat.leb_le in Hr2. simpl in *. lia.
  - intros * Hr. pose proof (wp_run _ _ _ _ _ _ (execute_sql_wp scope charset env shape _ session database request h0) Hr)
      as (-> & -> & -> & _ & _ & pol & Had & Hcase). apply (read_only_admits _ _ _ _ _ _ _ Had).
    destruct Hcase as [(-> & _)|(token & h1 & gp & _ & Hconf & _ & ->)]; [apply restricted_in_force|].
    destruct Hconf as (new & old & gp' & access & paths & connections & -> & Hread & _ & _ & _ & _ & _ & ->).
    apply (restricted_sub [_; _]) in Hall as [_ Hall]. apply restricted_sub in Hall as [Hall _].
    destruct (restricted_reads _ _ _ _ _ Hall Hread) as [[p ->] _]. rewrite lifted_read_only. apply restricted_in_force.
  - intros * Hr. pose proof (wp_run _ _ _ _ _ _ (execute_sql_wp scope charset env shape resolved session database request h0) Hr)
      as (-> & s & newer & older & gp & access & paths & connections & pol & perm & _ & _ & -> & Hread & _ & _ & _ & _ & Had & Hcase).
    apply (read_only_admits _ _ _ _ _ _ _ Had). apply restricted_sub in Hall as [Hall _].
    destruct (restricted_reads _ _ _ _ _ Hall Hread) as [[p ->] _].
    destruct Hcase as [(-> & _)|(-> & _)]; [|rewrite lifted_read_only]; apply restricted_in_force.
Qed.

(** ** Concrete runs *)

Module GateRuns.

(** A run against a backend that always answers alike, up to a question. *)
Fixpoint until {A} (stop : forall X, Call X -> bool) (answer : forall X, Call X -> X) (p : prog Call A) (h : list (seen Call)) : prog Call A * list (seen Call) :=
  match p with
  | Ret a => (Ret a, h)
  | Ask call k => if stop _ call then (p, h) else until stop answer (k (answer _ call)) (Seen call (answer _ call) :: h)
  end.

Lemma until_run {A} stop answer (p : prog Call A) h : run p h (until stop answer p h).1 (until stop answer p h).2.
Proof.
  revert h. induction p as [a|X call k IH]; intros h; [apply run_here|]. simpl. destruct (stop X call); [apply run_here|].
  eapply run_more. apply IH.
Qed.

Definition executes {X} (call : Call X) : bool :=
  match call with CallProduct _ _ | LeaseQuery _ _ _ _ | ExecuteAgentTool _ _ _ _ _ => true | _ => false end.

(** The question a run has stopped at. *)
Definition stopped_product {A} (p : prog Call A) : option (Connection * ProductCall) :=
  match p with Ask call _ => match call with CallProduct c call => Some (c, call) | _ => None end | Ret _ => None end.
Definition stopped_statement {A} (p : prog Call A) : option (Connection * string * text) :=
  match p with Ask call _ => match call with ExecuteAgentTool c d sql _ _ => Some (c, d, sql) | _ => None end | Ret _ => None end.
Definition stopped_lease {A} (p : prog Call A) : option (string * Connection * text) :=
  match p with Ask call _ => match call with LeaseQuery sid c sql _ => Some (sid, c, sql) | _ => None end | Ret _ => None end.

Lemma at_product {A} (p : prog Call A) c call : stopped_product p = Some (c, call) -> exists k, p = Ask (CallProduct c call) k.
Proof. destruct p as [|X [] k]; try done. intros [= -> ->]. by exists k. Qed.
Lemma at_statement {A} (p : prog Call A) c d sql :
  stopped_statement p = Some (c, d, sql) -> exists arguments permissions k, p = Ask (ExecuteAgentTool c d sql arguments permissions) k.
Proof. destruct p as [|X [] k]; try done. intros [= -> -> ->]. by eexists _, _, k. Qed.
Lemma at_lease {A} (p : prog Call A) sid c sql : stopped_lease p = Some (sid, c, sql) -> exists max_rows k, p = Ask (LeaseQuery sid c sql max_rows) k.
Proof. destruct p as [|X [] k]; try done. intros [= -> -> ->]. by eexists _, k. Qed.

(** A backend with one connection, whose person confirms everything. *)
Definition backend (policy : McpGlobalPolicy) (access : McpAccessPolicy) (c : Connection) {X} (call : Call X) : X :=
  match call in Call X return X with
  | LoadGlobalPolicy => Ok policy
  | LoadAccessPolicy => Ok access
  | LoadGroupDetails => Ok ∅
  | LoadConnections => Ok [c]
  | PolicyConfigured => false
  | ListPluginTools => Ok []
  | ApproveTool _ => Ok tt
  | ApproveSql _ _ _ => Ok "token"
  | ConsumeApproval _ _ _ _ => Ok tt
  | CallProduct _ _ => Err "unused"
  | AcquireLease _ => Ok tt
  | LeaseQuery _ _ _ _ => Err "unused"
  | ExecuteAgentTool _ _ _ _ _ => (true, "unused")
  end.

Definition connection (id : string) (d : DatabaseType.t) : Connection :=
  {| c_id := id; c_name := id; c_host := "localhost"; c_port := 1; c_database := Some "app"; c_read_only := false; c_plugin_id := Some "kube";
     c_safety := mkConnection false [] d None; c_rest := JNull |}.

Definition everywhere : McpScope := {| scope_connection_ids := []; scope_connection_name := None; scope_database := None; scope_schema := None |}.

(** Everything is permitted; high-risk calls are confirmed. *)
Definition full_policy : McpGlobalPolicy :=
  {| read_only := false; allow_dangerous_sql := true; prompt_high_risk_sql := false; call_confirmation := Some ConfirmHighRisk;
     allowed_connection_ids := None; allowed_group_ids := []; allowed_tool_names := None; connection_policies := []; group_policies := [];
     query_timeout_secs := None; plugin_tools_mode := PluginFlat |}.

Definition nacos : Connection := connection "registry" DatabaseType.Nacos.

Definition delete_config : handler string :=
  run_product_tool everywhere [] (fun _ => "nacos") (fun _ => None) (fun _ => "{}") "dbx_nacos_config_delete" (by_id "registry") Nacos "delete_config"
    LevelFull (Some " prod ") (JObject [("dataId", JString "app.yaml")]).

Definition deleted := until (@executes) (@backend full_policy (from_v1 full_policy) nacos) delete_config [].

Lemma product_call_is_authorised_witness :
  exists call h, authorised everywhere [] "dbx_nacos_config_delete" Nacos "delete_config" LevelFull (Some " prod ") (JObject [("dataId", JString "app.yaml")]) h nacos call /\
    sent_namespace "delete_config" call.(call_args) = Some "prod".
Proof.
  pose proof (until_run (@executes) (@backend full_policy (from_v1 full_policy) nacos) delete_config []) as Hr. fold deleted in Hr.
  set (call := {| call_product := Nacos; call_operation := "delete_config";
    call_args := JObject [("dataId", JString "app.yaml"); ("namespace", JString "prod")] |}).
  destruct (at_product deleted.1 nacos call) as [k He]; [vm_compute; reflexivity|]. rewrite He in Hr. exists call. eexists. split; [|done].
  unfold delete_config in Hr. exact (proj1 (product_call_is_authorised _ _ _ _ _ _ _ _ _ _ _ _ _ _ _ _ Hr)).
Defined.

#[local] Instance ascii_tables : UnicodeTables := {| is_alphanumeric := is_ascii_alphanumeric |}.
#[local] Instance ascii_case : UnicodeCase := {| to_lowercase := map to_ascii_lowercase; to_uppercase := map to_ascii_uppercase |}.
#[local] Instance no_tokens : SqlTokenizer := {| tokenize := fun _ => None |}.
#[local] Instance no_json : JsonParser := {| json_from_str := fun _ => None |}.
#[local] Instance no_words : SqlparserLexers := {| tokenize_for := fun _ _ => Some []; tokenize_generic_verbatim := fun _ => None |}.
#[local] Instance no_scope : PostgresScope := {| scope_tokens := fun _ => None; scope_statements := fun _ => None |}.
#[local] Instance no_patterns : Regexes := {| captures_iter := fun _ _ => [] |}.
#[local] Instance no_nodes : AstVisitor := {|
  expr_expressions := fun _ => []; query_expressions := fun _ => []; query_nodes := fun _ => []; expr_leb := fun _ _ => true |}.

(** [DELETE FROM t], or a query. *)
Definition plain_query : Statement := StQuery (mkQuery [] (Select false []) false []).
#[local] Instance parser : SqlparserParser := {| parse_sql := fun _ sql =>
  Some [if bool_decide (sql = txt "DELETE FROM t") then Delete false [mkTable false []] false None else plain_query] |}.

Definition mysql : Connection := connection "crm" DatabaseType.Mysql.
Definition request (sql : string) : ExecuteQueryRequest :=
  {| q_sql := txt sql; q_max_rows := None; q_cell_char_offset := None; q_cell_char_limit := None |}.

Definition execute (policy : McpGlobalPolicy) (session : option McpSession) (sql : string) : handler string :=
  execute_sql everywhere (fun _ => Ok false) None (fun _ => Ok tt) (resolved_connection policy mysql None) session "app" (request sql).

Definition executed (policy : McpGlobalPolicy) (session : option McpSession) (sql : string) :=
  until (@executes) (@backend policy (from_v1 policy) mysql) (execute policy session sql) [].

Lemma executed_run policy session sql :
  run (execute_sql everywhere (fun _ => Ok false) None (fun _ => Ok tt) (resolved_connection policy mysql None) session "app" (request sql)) []
    (executed policy session sql).1 (executed policy session sql).2.
Proof. apply until_run. Qed.

(** The unbounded delete is confirmed, and then runs. *)
Lemma sql_runs_only_as_admitted_witness :
  exists permissions h, statement_authorised everywhere (fun _ => Ok false) None (resolved_connection full_policy mysql None) "app" (request "DELETE FROM t")
    [] h mysql "app" (txt "DELETE FROM t") permissions /\ is_high_risk mysql (txt "DELETE FROM t") = true.
Proof.
  pose proof (executed_run full_policy None "DELETE FROM t") as Hr.
  destruct (at_statement (executed full_policy None "DELETE FROM t").1 mysql "app" (txt "DELETE FROM t")) as (arguments & permissions & k & He);
    [vm_compute; reflexivity|]. rewrite He in Hr. exists permissions. eexists. split; [|vm_compute; reflexivity].
  exact (sql_runs_only_as_admitted _ _ _ _ _ _ _ _ _ _ _ _ _ _ _ _ Hr).
Defined.

Definition transaction : McpSession :=
  {| s_id := "tx"; s_connection_id := "crm"; s_database := "app"; s_client_session_id := "client"; s_transaction := true |}.

Lemma transaction_statement_is_rechecked_witness :
  exists h, transaction_authorised everywhere (fun _ => Ok false) None (resolved_connection full_policy mysql None) (Some transaction) "app"
    (request "DELETE FROM t") h "tx" mysql (txt "DELETE FROM t").
Proof.
  pose proof (executed_run full_policy (Some transaction) "DELETE FROM t") as Hr.
  destruct (at_lease (executed full_policy (Some transaction) "DELETE FROM t").1 "tx" mysql (txt "DELETE FROM t")) as (max_rows & k & He);
    [vm_compute; reflexivity|]. rewrite He in Hr. eexists. exact (transaction_statement_is_rechecked _ _ _ _ _ _ _ _ _ _ _ _ _ _ _ Hr).
Defined.

(** Under the restriction a query still runs, the delete is refused. *)
Definition restricted : McpGlobalPolicy := effective_mcp_policy_with_legacy_allow_writes full_policy (Some false).

Lemma restricted_tools_only_read_witness :
  may_write mysql (txt "SELECT 1") = false /\ stopped_statement (executed restricted None "DELETE FROM t").1 = None.
Proof.
  split; [|vm_compute; reflexivity]. pose proof (executed_run restricted None "SELECT 1") as Hr.
  destruct (at_statement (executed restricted None "SELECT 1").1 mysql "app" (txt "SELECT 1")) as (arguments & permissions & k & He);
    [vm_compute; reflexivity|]. rewrite He in Hr.
  assert (Hh : (executed restricted None "SELECT 1").2 = []) by (vm_compute; reflexivity). rewrite Hh in Hr.
  refine (proj1 (proj2 (restricted_tools_only_read everywhere [] _)) _ _ _ full_policy mysql [] _ _ _ _ _ _ _ _ _ _ Hr).
  intros s Hs. by apply elem_of_nil in Hs.
Defined.

(** A tool of a plugin that changes something. *)
Definition scale : PluginToolEntry :=
  {| e_plugin_id := "kube"; e_plugin_name := "Kubernetes"; e_exposed_name := "dbx_kube__scale";
     e_tool := {| tool_name := "scale"; tool_read_only := false; tool_annotations := JNull |}; e_scope := None; e_toolset := "default";
     e_injects_connection_id := true |}.

(** The restriction does not reach plugins: where no policy is saved, the level
    that was capped at reading is raised to writing again for a connection that
    is not protected itself, and the call passes. *)
Example restricted_plugin_call_passes :
  let access := effective_mcp_access_policy (Some false) (from_v1 default_global_policy) in
  level_le (resolve access [] "cluster" None).(level) LevelRead = true /\
  ensure_plugin_scope access scale [] (Some "cluster") (Some false) (JObject []) = Ok LevelWrite /\
  (until (@executes) (@backend (effective_mcp_policy_with_legacy_allow_writes default_global_policy (Some false)) access (connection "cluster" DatabaseType.Jdbc))
     (ensure_plugin_tool_policy everywhere (fun _ => None) (fun _ => "{}") scale (Some "cluster") (JObject [])) []).1 = Ret (Ok (JObject [])).
Proof. vm_compute. done. Qed.
End GateRuns.
