(* ===== verification/TextExport.v ===== *)
(** * Text formats of exported rows

    Models [crates/dbx-formats/src/csv_export.rs] and [text_export.rs]: the
    guard against spreadsheet formulas, CSV and TSV fields, rows and files in
    every quoting mode, JSON, Markdown and HTML; and [write_table_csv_pages] of
    [crates/dbx-core/src/data/csv_export.rs], which writes a table page by page.

    A string is its Unicode scalar values.  A function that pushes onto a buffer
    is modelled by the text it pushes; [None] is a panic, here a slice that
    cuts a character.  Printing of JSON ([serde_json]) is an argument: the
    pieces that [Display] writes, and the pretty form.  Capacities of buffers
    have no effect and are only computed. *)

From S2P Require Import Prelude SqlDialect.

(** ** Values *)

(** [serde_json::Value]; a number is its decimal text. *)
Inductive Value : Type :=
| VNull
| VBool (b : bool)
| VNumber (repr : text)
| VString (s : text)
| VArray (l : list Value)
| VObject (members : list (text * Value)).

Class JsonText : Type := {
  fragments : Value -> list text;
  to_string_pretty : list Value -> result text text;
}.

Definition value_to_string `{JsonText} (v : Value) : text := concat (fragments v).

(** [Display] writes an array between brackets and an object between braces. *)
Class JsonTextLaws `{JsonText} : Prop := {
  array_text l : exists s, value_to_string (VArray l) = 91%Z :: s;
  object_text m : exists s, value_to_string (VObject m) = 123%Z :: s;
}.

Definition bool_text (b : bool) : text := if b then txt "true" else txt "false".

Module Csv.
(** ** Formats *)

Inductive CsvQuoteMode := QuoteAll | QuoteNecessary | QuoteNever | QuoteStrings.

#[global] Instance CsvQuoteMode_eq_dec : EqDecision CsvQuoteMode.
Proof. solve_decision. Defined.

Definition c_quote : Z := 34.
Definition c_apostrophe : Z := 39.
Definition c_comma : Z := 44.
Definition c_tab : Z := 9.
Definition c_lf : Z := 10.
Definition c_cr : Z := 13.

Definition DEFAULT_CSV_NULL_LITERAL : text := [92%Z; 78%Z].

Definition csv_null_literal (raw : text) : option text := if bool_decide (raw = []) then None else Some raw.
Definition default_csv_null_literal : text := DEFAULT_CSV_NULL_LITERAL.

Record CsvTextFormat := {
  quote_mode : CsvQuoteMode;
  delimiter : Z;
  quote_char : Z;
  include_header : bool;
  null_literal : option text;
}.

Definition default_format : CsvTextFormat :=
  {| quote_mode := QuoteAll; delimiter := c_comma; quote_char := c_quote; include_header := true; null_literal := None |}.

#[global] Instance set_quote_mode : Setter quote_mode := fun v f =>
  {| quote_mode := v; delimiter := f.(delimiter); quote_char := f.(quote_char); include_header := f.(include_header); null_literal := f.(null_literal) |}.
#[global] Instance set_null_literal : Setter null_literal := fun v f =>
  {| quote_mode := f.(quote_mode); delimiter := f.(delimiter); quote_char := f.(quote_char); include_header := f.(include_header); null_literal := v |}.

Definition from_quote_mode (mode : CsvQuoteMode) : CsvTextFormat := default_format <| quote_mode := mode |>.

Definition resolve_csv_delimiter (value : text) : Z := default c_comma (head value).
Definition resolve_csv_quote_char (value : text) : Z := default c_quote (head value).

Definition format_with_null_literal (mode : CsvQuoteMode) (literal : option text) : CsvTextFormat :=
  from_quote_mode mode <| null_literal := literal |>.

(** ** The formula guard *)

Definition FORMULA_TRIGGER_BYTES : list Z := [61; 43; 45; 64; 9; 13]%Z.
Definition EXCEL_SIGNIFICANT_DIGIT_LIMIT : nat := 15.

Definition at_sign_begins_excel_formula (rest : text) : bool :=
  match rest with c :: _ => (c <? 128)%Z | [] => false end.

Definition valid_digits (part : text) : bool := negb (bool_decide (part = [])) && forallb is_ascii_digit part.

Definition is_excel_exact_decimal_literal (value : text) : bool :=
  let digits := match value with c :: rest => if (c =? 43)%Z || (c =? 45)%Z then rest else value | [] => value end in
  let '(whole, rest) := span (fun c => negb (c =? 46)%Z) digits in
  let valid := match rest with _ :: fraction => valid_digits whole && valid_digits fraction | [] => valid_digits digits end in
  valid && bool_decide
    (length (span (fun c => (c =? 48)%Z) (List.filter (fun c => negb (c =? 46)%Z) digits)).2 <= EXCEL_SIGNIFICANT_DIGIT_LIMIT).

Definition needs_formula_guard (value : text) : bool :=
  match (span (fun c => (c =? 32)%Z) value).2 with
  | [] => false
  | c :: rest =>
    if (c =? 45)%Z && is_excel_exact_decimal_literal rest then false
    else if (c =? 64)%Z && negb (at_sign_begins_excel_formula rest) then false
    else bool_decide (c ∈ FORMULA_TRIGGER_BYTES)
  end.

Definition push_formula_guard (value : text) : text :=
  match value with
  | c :: rest =>
    if (c =? c_apostrophe)%Z then
      if at_is rest 0 c_apostrophe || needs_formula_guard rest then [c_apostrophe] else []
    else if needs_formula_guard value then [c_apostrophe] else []
  | [] => []
  end.

Definition strip_formula_guard (value : text) : text :=
  match value with
  | c :: rest =>
    if (c =? c_apostrophe)%Z && (at_is rest 0 c_apostrophe || needs_formula_guard rest) then rest else value
  | [] => value
  end.

(** ** Fields *)

(** [rest[..=pos]] cuts the quote character unless it is one byte long. *)
Fixpoint push_csv_escaped_content (q : Z) (value : text) : option text :=
  match value with
  | [] => Some []
  | c :: rest =>
    if (c =? q)%Z then
      if (q <? 128)%Z then escaped ← push_csv_escaped_content q rest; Some (c :: q :: escaped) else None
    else escaped ← push_csv_escaped_content q rest; Some (c :: escaped)
  end.

Definition push_csv_escaped_with_quote (value : text) (q : Z) : option text :=
  content ← push_csv_escaped_content q value; Some (q :: content ++ [q]).

Definition push_csv_escaped (value : text) : option text := push_csv_escaped_with_quote value c_quote.

Definition csv_field_needs_quotes (value : text) (d q : Z) : bool :=
  existsb (fun c => (c =? c_lf)%Z || (c =? c_cr)%Z || (c =? d)%Z || (c =? q)%Z) value.

(** The guard is written inside the quotes, and is not escaped. *)
Definition quoted_field (value : text) (q : Z) : option text :=
  content ← push_csv_escaped_content q value; Some (q :: push_formula_guard value ++ content ++ [q]).

Definition push_csv_field_with_format (value : text) (format : CsvTextFormat) : option text :=
  match format.(quote_mode) with
  | QuoteAll | QuoteStrings => quoted_field value format.(quote_char)
  | QuoteNecessary =>
    if csv_field_needs_quotes value format.(delimiter) format.(quote_char) then quoted_field value format.(quote_char)
    else Some (push_formula_guard value ++ value)
  | QuoteNever => Some (push_formula_guard value ++ value)
  end.

Definition push_csv_field (value : text) (mode : CsvQuoteMode) : option text :=
  push_csv_field_with_format value (from_quote_mode mode).

Section values.
Context `{JsonText}.

(** Arrays and objects are written piece by piece, each piece escaped. *)
Definition write_escaped (pieces : list text) (q : Z) : option text :=
  (fun written => concat written) <$> mapM (push_csv_escaped_content q) pieces.

Definition push_csv_text_value_with_quote (value : Value) (q : Z) : option text :=
  content ←
    match value with
    | VNull => Some []
    | VString value => escaped ← push_csv_escaped_content q value; Some (push_formula_guard value ++ escaped)
    | VBool b => Some (bool_text b)
    | VNumber repr => Some repr
    | other => write_escaped (fragments other) q
    end;
  Some (q :: content ++ [q]).

Definition push_csv_text_value (value : Value) : option text := push_csv_text_value_with_quote value c_quote.

Definition is_null (value : Value) : bool := match value with VNull => true | _ => false end.

Definition push_csv_value_formatted (value : Value) (format : CsvTextFormat) (quote_null : bool) : option text :=
  match value, format.(null_literal) with
  | VNull, Some literal => push_csv_field_with_format literal (format <| quote_mode := QuoteNecessary |>)
  | _, _ =>
    if bool_decide (format.(quote_mode) = QuoteAll) then
      if is_null value && negb quote_null then Some [] else push_csv_text_value_with_quote value format.(quote_char)
    else
      match value with
      | VNull => Some []
      | VString value => push_csv_field_with_format value format
      | VBool b => Some (bool_text b)
      | VNumber repr => Some repr
      | other => push_csv_field_with_format (value_to_string other) format
      end
  end.

Definition push_tsv_escaped (value : text) : option text :=
  if existsb (fun c => (c =? c_tab)%Z || (c =? c_lf)%Z || (c =? c_cr)%Z || (c =? c_quote)%Z) value
  then quoted_field value c_quote
  else Some (push_formula_guard value ++ value).

Definition push_tsv_value (value : Value) (literal : option text) : option text :=
  match value, literal with
  | VNull, Some literal => push_tsv_escaped literal
  | VNull, None => Some []
  | VString v, _ => push_tsv_escaped v
  | VBool b, _ => Some (bool_text b)
  | VNumber repr, _ => Some repr
  | other, _ => push_tsv_escaped (value_to_string other)
  end.

(** ** Rows and files *)

Definition push_tsv_row (row : list Value) (literal : option text) : option text :=
  join [c_tab] <$> mapM (fun cell => push_tsv_value cell literal) row.

Definition push_tsv_rows (rows : list (list Value)) (literal : option text) : option text :=
  join [c_lf] <$> mapM (fun row => push_tsv_row row literal) rows.

Definition format_tsv_rows (rows : list (list Value)) : option text := push_tsv_rows rows None.

Definition format_tsv (columns : list text) (rows : list (list Value)) : option text :=
  header ← mapM push_tsv_escaped columns;
  body ← push_tsv_rows rows None;
  Some (join [c_tab] header ++ [c_lf] ++ body).

Definition push_query_result_csv_row_with_format (row : list Value) (format : CsvTextFormat) : option text :=
  join [format.(delimiter)] <$> mapM (fun cell => push_csv_value_formatted cell format false) row.
Definition push_query_result_csv_row_with_quote_mode (row : list Value) (mode : CsvQuoteMode) : option text :=
  push_query_result_csv_row_with_format row (from_quote_mode mode).
Definition push_query_result_csv_row (row : list Value) : option text := push_query_result_csv_row_with_quote_mode row QuoteAll.
Definition push_query_result_csv_row_with_options (row : list Value) (mode : CsvQuoteMode) (literal : option text) : option text :=
  push_query_result_csv_row_with_format row (format_with_null_literal mode literal).

Definition push_table_csv_row_with_format (row : list Value) (format : CsvTextFormat) : option text :=
  join [format.(delimiter)] <$> mapM (fun cell => push_csv_value_formatted cell format true) row.
Definition push_table_csv_row_with_quote_mode (row : list Value) (mode : CsvQuoteMode) : option text :=
  push_table_csv_row_with_format row (from_quote_mode mode).
Definition push_table_csv_row (row : list Value) : option text := push_table_csv_row_with_quote_mode row QuoteAll.
Definition push_table_csv_row_with_options (row : list Value) (mode : CsvQuoteMode) (literal : option text) : option text :=
  push_table_csv_row_with_format row (format_with_null_literal mode literal).

Definition push_query_result_csv_rows (rows : list (list Value)) : option text :=
  join [c_lf] <$> mapM push_query_result_csv_row rows.
Definition format_query_result_csv_rows (rows : list (list Value)) : option text := push_query_result_csv_rows rows.

Definition format_csv_with_value_formatter (columns : list text) (rows : list (list Value)) : option text :=
  header ← mapM (fun column => push_csv_field column QuoteAll) columns;
  body ← push_query_result_csv_rows rows;
  Some (join [c_comma] header ++ [c_lf] ++ body).
Definition format_csv (columns : list text) (rows : list (list Value)) : option text := format_csv_with_value_formatter columns rows.

Definition format_csv_with_format (columns : list text) (rows : list (list Value)) (format : CsvTextFormat) : option text :=
  header ← (if format.(include_header)
            then (fun fields => join [format.(delimiter)] fields ++ [c_lf]) <$> mapM (fun column => push_csv_field_with_format column format) columns
            else Some []);
  body ← join [c_lf] <$> mapM (fun row => push_query_result_csv_row_with_format row format) rows;
  Some (header ++ body).
Definition format_csv_with_quote_mode (columns : list text) (rows : list (list Value)) (mode : CsvQuoteMode) : option text :=
  format_csv_with_format columns rows (from_quote_mode mode).
Definition format_csv_with_options (columns : list text) (rows : list (list Value)) (mode : CsvQuoteMode) (literal : option text) : option text :=
  format_csv_with_format columns rows (format_with_null_literal mode literal).
Definition format_query_result_csv (columns : list text) (rows : list (list Value)) : option text := format_csv columns rows.
Definition format_query_result_csv_with_quote_mode (columns : list text) (rows : list (list Value)) (mode : CsvQuoteMode) : option text :=
  format_csv_with_format columns rows (from_quote_mode mode).
Definition format_query_result_csv_with_format (columns : list text) (rows : list (list Value)) (format : CsvTextFormat) : option text :=
  format_csv_with_format columns rows format.
Definition format_query_result_csv_with_options (columns : list text) (rows : list (list Value)) (mode : CsvQuoteMode)
    (literal : option text) : option text :=
  format_csv_with_format columns rows (format_with_null_literal mode literal).

Definition escape_csv (value : text) : option text := push_csv_escaped value.
Definition escape_tsv (value : text) : option text := push_tsv_escaped value.
End values.

(** ** Capacities, in [usize] with saturating arithmetic *)

Definition usize_max : Z := u64_max.
Definition saturating_add (a b : Z) : Z := Z.min (a + b) usize_max.
Definition saturating_mul (a b : Z) : Z := Z.min (a * b) usize_max.
Definition ROWS_CAPACITY_ESTIMATE_MAX : Z := 16 * 1024 * 1024.

Definition estimated_rows_capacity (rows : list (list Value)) : Z :=
  let cells := foldl saturating_add 0%Z (map (fun row => Z.of_nat (length row)) rows) in
  Z.min (saturating_mul cells 12) ROWS_CAPACITY_ESTIMATE_MAX.
End Csv.

(** ** Writing a table page by page *)

Module Pages.
Import Csv.

(** How a writing function ends early: a panic, an error, or (for the loop over
    pages) the bound on the number of pages of the model. *)
Inductive Failure := Panicked | Failed (e : text) | PagesLeft.

#[global] Instance Failure_eq_dec : EqDecision Failure.
Proof. solve_decision. Defined.

(** What the export reads of a result, and what it sets of the options. *)
Record QueryResult := {
  columns : list text;
  rows : list (list Value);
  truncated : bool;
  session_id : option text;
  has_more : bool;
}.

Record QueryExecutionOptions := {
  max_rows : option Z;
  fetch_size : option Z;
  page_size : option Z;
  result_session_id : option text;
  client_session_id : option text;
  timeout_secs : option Z;
}.

Record TableCsvExportOptions := {
  file_path : text;
  connection_id : text;
  database : text;
  schema : option text;
  table_name : text;
  export_columns : list text;
  export_page_size : option Z;
  export_timeout_secs : option Z;
  csv_quote_mode : CsvQuoteMode;
  csv_delimiter : text;
  csv_quote_char : text;
  csv_include_header : bool;
  csv_without_bom : bool;
  export_null_literal : text;
}.

Definition TABLE_DATA_EXPORT_PAGE_SIZE : Z := 10000.
Definition i32_max : Z := 2147483647.

Definition export_format (options : TableCsvExportOptions) : CsvTextFormat :=
  {| quote_mode := options.(csv_quote_mode);
     delimiter := resolve_csv_delimiter options.(csv_delimiter);
     quote_char := resolve_csv_quote_char options.(csv_quote_char);
     include_header := options.(csv_include_header);
     null_literal := csv_null_literal options.(export_null_literal) |}.

Section writers.
Context `{JsonText} {W : Type} (write_all : text -> M W (result unit text)).

Definition failing {A} (m : M W (result A text)) : M W (result A Failure) :=
  let! r := m in ret (match r with Ok a => Ok a | Err e => Err (Failed e) end).

Definition no_panic {A} (o : option A) : M W (result A Failure) :=
  ret (match o with Some a => Ok a | None => Err Panicked end).

Fixpoint write_fields {A} (render : A -> option text) (d : Z) (first : bool) (values : list A) : M W (result unit Failure) :=
  match values with
  | [] => ret (Ok tt)
  | value :: values =>
    let!? _ := (if first then ret (Ok tt) else failing (write_all [d])) in
    let!? formatted := no_panic (render value) in
    let!? _ := failing (write_all formatted) in
    write_fields render d false values
  end.

Definition write_csv_text_row_with_format (values : list text) (format : CsvTextFormat) : M W (result unit Failure) :=
  write_fields (fun value => push_csv_field_with_format value format) format.(delimiter) true values.
Definition write_csv_text_row (values : list text) (mode : CsvQuoteMode) : M W (result unit Failure) :=
  write_csv_text_row_with_format values (from_quote_mode mode).

Definition write_csv_value_row_with_format (values : list Value) (format : CsvTextFormat) : M W (result unit Failure) :=
  write_fields (fun value => push_csv_value_formatted value format false) format.(delimiter) true values.
Definition write_csv_value_row (values : list Value) (mode : CsvQuoteMode) : M W (result unit Failure) :=
  write_csv_value_row_with_format values (from_quote_mode mode).
Definition write_csv_value_row_with_options (values : list Value) (mode : CsvQuoteMode) (literal : option text) : M W (result unit Failure) :=
  write_csv_value_row_with_format values (format_with_null_literal mode literal).

Fixpoint write_page (rows : list (list Value)) (format : CsvTextFormat) : M W (result unit Failure) :=
  match rows with
  | [] => ret (Ok tt)
  | row :: rows =>
    let!? _ := failing (write_all [c_lf]) in
    let!? _ := write_csv_value_row_with_format row format in
    write_page rows format
  end.

Context (flush : M W (result unit text)) (execute_page : text -> QueryExecutionOptions -> M W (result QueryResult text)).
(** The statement for a page, by its limit and offset; the table, its columns
    and the server are the same for every page. *)
Context (build_table_data_select_sql : Z -> Z -> text).

(** A cursor result says itself whether there is more; [Ok] is whether the page
    is the last and the session to go on with. *)
Definition page_complete (use_cursor : bool) (size : Z) (result : QueryResult) : Prelude.result (bool * option text) Failure :=
  if use_cursor then
    let session := match result.(session_id) with
                   | Some session => if bool_decide (trim session = []) then None else Some session
                   | None => None
                   end in
    if result.(truncated) then Err (Failed (txt "Incomplete cursor result during table export"))
    else if result.(has_more) && bool_decide (session = None)
    then Err (Failed (txt "Result session ended before table export completed"))
    else Ok (negb result.(has_more), session)
  else Ok (Z.of_nat (length result.(rows)) <? size, None)%Z.

Fixpoint pages_loop (fuel : nat) (use_cursor : bool) (size : Z) (options : TableCsvExportOptions) (client_session : option text)
    (format : CsvTextFormat) (session : option text) (offset rows_exported : Z) (wrote_header : bool) : M W (result Z Failure) :=
  match fuel with
  | O => ret (Err PagesLeft)
  | S fuel =>
    let!? result := failing (execute_page (build_table_data_select_sql size offset)
      {| max_rows := Some (if use_cursor then i32_max else size);
         fetch_size := if use_cursor then Some size else None;
         page_size := if use_cursor then Some size else None;
         result_session_id := session;
         client_session_id := client_session;
         timeout_secs := options.(export_timeout_secs) |}) in
    let fetched := Z.of_nat (length result.(rows)) in
    let!? (complete, session) := ret (page_complete use_cursor size result) in
    let!? _ := (if wrote_header then ret (Ok tt)
                else if format.(include_header) then write_csv_text_row_with_format result.(columns) format else ret (Ok tt)) in
    let!? _ := write_page result.(rows) format in
    let rows_exported := (rows_exported + fetched)%Z in
    if complete then ret (Ok rows_exported)
    else pages_loop fuel use_cursor size options client_session format session (offset + fetched)%Z rows_exported true
  end.

Definition write_table_csv_pages (fuel : nat) (database_type : DatabaseType.t) (options : TableCsvExportOptions)
    (client_session : option text) : M W (result Z Failure) :=
  let use_cursor := bool_decide (database_type = DatabaseType.Cassandra) in
  let requested_page_size := Z.max (default TABLE_DATA_EXPORT_PAGE_SIZE options.(export_page_size)) 1 in
  let size := if use_cursor then Z.min requested_page_size TABLE_DATA_EXPORT_PAGE_SIZE else requested_page_size in
  let format := export_format options in
  let!? rows_exported := pages_loop fuel use_cursor size options client_session format None 0 0 false in
  let!? _ := (if (rows_exported =? 0)%Z then failing (write_all [c_lf]) else ret (Ok tt)) in
  let!? _ := failing flush in
  ret (Ok rows_exported).

Context (create_file : text -> M W (result unit text)) (close_client_session_pool : text -> text -> text -> M W unit).

(** [config] is the recorded type of the connection; [uuid] the fresh id. *)
Definition export_table_data_csv_core (fuel : nat) (config : option DatabaseType.t) (uuid : text) (options : TableCsvExportOptions) :
    M W (result Z Failure) :=
  match config with
  | None => ret (Err (Failed (txt "Connection config not found: " ++ options.(connection_id))))
  | Some database_type =>
    if bool_decide (database_type = DatabaseType.Salesforce) then
      ret (Err (Failed (txt "Exporting a Salesforce object to CSV is not supported yet: SOQL pages through a QueryLocator, not LIMIT/OFFSET. Run a SOQL query and export its result instead.")))
    else
      let!? _ := (let! r := create_file options.(file_path) in
                  ret (match r with Ok _ => Ok tt | Err e => Err (Failed (txt "Failed to write CSV file: " ++ e)) end)) in
      let!? _ := (if options.(csv_without_bom) then ret (Ok tt) else failing (write_all [65279%Z])) in
      let client_session := if bool_decide (database_type = DatabaseType.Cassandra) then Some (txt "table-export:" ++ uuid) else None in
      let! outcome := write_table_csv_pages fuel database_type options client_session in
      let! _ := match client_session with
                | Some id => close_client_session_pool options.(connection_id) options.(database) id
                | None => ret tt
                end in
      ret outcome
  end.
End writers.
End Pages.

(** ** JSON, Markdown and HTML *)

Module TextFormats.
Import Csv.

Record QueryResultTextExportData := {
  title : option text;
  data_columns : list text;
  data_rows : list (list Value);
}.

Definition text_eqb (a b : text) : bool := bool_decide (a = b).

(** [Value::get] on a value that may not be an object; a map holds a key once. *)
Definition get (v : Value) (key : string) : option Value :=
  match v with VObject m => snd <$> List.find (fun kv => text_eqb kv.1 (txt key)) m | _ => None end.
Definition as_str (v : Value) : option text := match v with VString s => Some s | _ => None end.
Definition is_string (v : Value) : bool := match v with VString _ => true | _ => false end.
Definition is_array (v : Value) : bool := match v with VArray _ => true | _ => false end.
Definition is_some_and {A} (p : A -> bool) (o : option A) : bool := match o with Some a => p a | None => false end.

Definition graph_cell (version : string) (v : Value) : bool :=
  is_some_and (fun s => text_eqb s (txt version)) (get v "__dbx_graph_cell" ≫= as_str)
  && is_some_and is_string (get v "kind") && is_some_and is_array (get v "nodes") && is_some_and is_array (get v "edges").

Definition node_cell (v : Value) : bool :=
  is_some_and (fun s => text_eqb s (txt "v1")) (get v "__dbx_neo4j_node" ≫= as_str)
  && is_some_and is_array (get v "properties").

Definition displayed (v : Value) : Value :=
  match get v "display" ≫= as_str with Some display => VString display | None => v end.

Definition normalize_nebula_export_rows (rows : list (list Value)) : list (list Value) :=
  map (map (fun v => if graph_cell "nebula-v1" v then displayed v else v)) rows.
Definition normalize_neo4j_export_rows (rows : list (list Value)) : list (list Value) :=
  map (map (fun v => if graph_cell "neo4j-v1" v || node_cell v then displayed v else v)) rows.

(** [Map::insert] with the insertion order preserved. *)
Fixpoint map_insert (key : text) (value : Value) (m : list (text * Value)) : list (text * Value) :=
  match m with
  | [] => [(key, value)]
  | (k, v) :: m => if text_eqb k key then (k, value) :: m else (k, v) :: map_insert key value m
  end.

Definition row_object (columns : list text) (row : list Value) : Value :=
  VObject (foldl (fun object cell => map_insert cell.1 cell.2 object) [] (zip columns row)).

Definition format_json `{JsonText} (data : QueryResultTextExportData) : result text text :=
  to_string_pretty (map (row_object data.(data_columns)) data.(data_rows)).

Definition display_cell `{JsonText} (v : Value) : text :=
  match v with
  | VNull => txt "NULL"
  | VBool b => bool_text b
  | VNumber repr => repr
  | VString s => s
  | other => value_to_string other
  end.

Definition replace_char (c : Z) (by_text : text) (s : text) : text := concat (map (fun x => if (x =? c)%Z then by_text else [x]) s).

Fixpoint replace_crlf (by_text : text) (s : text) : text :=
  match s with
  | 13%Z :: (10%Z :: rest) => by_text ++ replace_crlf by_text rest
  | c :: rest => c :: replace_crlf by_text rest
  | [] => []
  end.

Definition markdown_cell (value : text) : text :=
  replace_char c_lf (txt "<br>") (replace_crlf (txt "<br>") (replace_char 124 (txt "\|") value)).

Definition pad (value : text) (width : nat) : text := value ++ replicate (width - length value) 32%Z.

Definition column_width (cells : list (list text)) (index : nat) (column : text) : nat :=
  let row_width := foldr Nat.max 0 (map (fun row => match row !! index with Some cell => length cell | None => 0 end) cells) in
  Nat.max (Nat.max (length column) row_width) 3.

Definition markdown_line (cells : list text) : text := txt "| " ++ join (txt " | ") cells ++ txt " |".

Definition format_markdown `{JsonText} (data : QueryResultTextExportData) : text :=
  let columns := map markdown_cell data.(data_columns) in
  let rows := map (map (fun cell => markdown_cell (display_cell cell))) data.(data_rows) in
  let widths := imap (column_width rows) columns in
  let header := markdown_line (zip_with pad columns widths) in
  let separator := markdown_line (map (fun width => replicate width 45%Z) widths) in
  let body := join [c_lf] (map (fun row => markdown_line (imap (fun index cell => pad cell (default 3 (widths !! index))) row)) rows) in
  join [c_lf] (List.filter (fun part => negb (text_eqb part [])) [header; separator; body]) ++ [c_lf].

Definition html_escape_char (c : Z) : text :=
  if (c =? 60)%Z then txt "&lt;"
  else if (c =? 62)%Z then txt "&gt;"
  else if (c =? 38)%Z then txt "&amp;"
  else if (c =? c_quote)%Z then txt "&quot;"
  else if (c =? c_apostrophe)%Z then txt "&#39;"
  else if (c =? c_lf)%Z then txt "<br>"
  else if (c =? c_cr)%Z then []
  else [c].

Definition html_escape (value : text) : text := concat (map html_escape_char value).

Definition html_cell_value `{JsonText} (v : Value) : text * text :=
  match v with
  | VNull => (txt "NULL", txt "null")
  | VBool true => (txt "true", txt "boolean true")
  | VBool false => (txt "false", txt "boolean false")
  | VNumber repr => (repr, txt "number")
  | VString s => (s, [])
  | other => (value_to_string other, [])
  end.

(** Markup with double quotes, written with backquotes here. *)
Definition html (s : string) : text := map (fun c => if (c =? 96)%Z then c_quote else c) (txt s).

Definition html_formula_guard_attribute (value : text) : text :=
  if needs_formula_guard value then html " style=`mso-number-format:'\@'`" else [].

Definition html_header_cell (index : nat) (column : text) : text :=
  html "              <th" ++ html_formula_guard_attribute column
  ++ html "><button class=`sort-button` type=`button` data-sort-column=`" ++ decimal (Z.of_nat index) ++ html "` aria-sort=`none`>"
  ++ html_escape column ++ html "<span class=`sort-indicator` aria-hidden=`true`>" ++ [8597%Z] ++ html "</span></button></th>" ++ [c_lf].

Definition html_cell `{JsonText} (cell : Value) : text :=
  let '(content, css_class) := html_cell_value cell in
  let guard := html_formula_guard_attribute content in
  if text_eqb css_class []
  then html "              <td" ++ guard ++ html ">" ++ html_escape content ++ html "</td>" ++ [c_lf]
  else html "              <td class=`" ++ css_class ++ html "`" ++ guard ++ html ">" ++ html_escape content ++ html "</td>" ++ [c_lf].

Definition html_row `{JsonText} (row : list Value) : text :=
  html "            <tr>" ++ [c_lf] ++ concat (map html_cell row) ++ html "            </tr>" ++ [c_lf].

Definition html_option (index : nat) (column : text) : text :=
  html "<option value=`" ++ decimal (Z.of_nat index) ++ html "`>" ++ html_escape column ++ html "</option>".

Definition html_line (s : string) : text := html s ++ [c_lf].

(** The page; [now] is the local time, [style] and [script] the two literal
    blocks of the source that depend on nothing. *)
Definition format_html `{JsonText} (now style script : text) (data : QueryResultTextExportData) : text :=
  let heading := default (txt "Query Result") data.(title) in
  html_line "<!DOCTYPE html>" ++ html_line "<html lang=`en`>" ++ html_line "<head>"
  ++ html_line "  <meta charset=`UTF-8`>"
  ++ html_line "  <meta name=`viewport` content=`width=device-width, initial-scale=1.0`>"
  ++ html "  <title>" ++ html_escape heading ++ html_line "</title>"
  ++ style
  ++ html_line "    <div class=`hdr`>"
  ++ html "      <h1>" ++ html_escape heading ++ html_line "</h1>"
  ++ html "      <div class=`meta`>" ++ decimal (Z.of_nat (length data.(data_rows))) ++ html " rows &middot; "
  ++ decimal (Z.of_nat (length data.(data_columns))) ++ html " columns &middot; " ++ html_escape now ++ html_line " &middot; DBX</div>"
  ++ html_line "    </div>"
  ++ html_line "    <div class=`tools` role=`search` aria-label=`Filter query result`>"
  ++ html_line "      <label>Search <input id=`dbx-search` type=`search` placeholder=`Search all columns` autocomplete=`off`></label>"
  ++ html "      <label>Filter <select id=`dbx-filter-column`><option value=``>All columns</option>"
  ++ concat (imap html_option data.(data_columns))
  ++ html_line "</select></label>"
  ++ html_line "      <input id=`dbx-filter-value` type=`search` placeholder=`Filter value` autocomplete=`off` aria-label=`Filter value`>"
  ++ html_line "      <button id=`dbx-clear-filters` type=`button`>Clear</button>"
  ++ html_line "      <span id=`dbx-match-count` class=`count` aria-live=`polite`></span>"
  ++ html_line "    </div>"
  ++ html_line "    <div class=`tbl-wrap`>"
  ++ html_line "      <div class=`tbl-scroll`>"
  ++ html_line "        <table>" ++ html_line "          <thead>" ++ html_line "            <tr>"
  ++ concat (imap html_header_cell data.(data_columns))
  ++ html_line "            </tr>" ++ html_line "          </thead>" ++ html_line "          <tbody>"
  ++ concat (map html_row data.(data_rows))
  ++ html_line "          </tbody>" ++ html_line "        </table>" ++ html_line "      </div>" ++ html_line "    </div>"
  ++ script
  ++ html_line "    <div class=`ftr`>Exported by DBX</div>"
  ++ html_line "  </div>" ++ html_line "</body>" ++ html_line "</html>".
End TextFormats.
