(* ===== verification/TableImport.v ===== *)
(** * Import of delimited files

    Models the part of [crates/dbx-core/src/data/table_import.rs] between a
    delimited file and the database: options and row ranges, headers, cells,
    the parse for a preview and the stream for the import, the mapping of
    columns, the inference of column types, and the fast path of PostgreSQL
    ([COPY ... FORMAT text]) with its accumulator.

    Text is Unicode scalar values.  The [csv] crate is an argument
    ([CsvReader]) that reads what RFC 4180 describes, with blank lines skipped;
    decoders of [encoding_rs], calendar parsing of [chrono], Unicode case and
    the normalisation of a value for its column are arguments. *)

From S2P Require Import Prelude TextExport SqlDialect QueryExecutionSql.

(** ** CSV text

    RFC 4180 with any delimiter and quote character: a field is bare or quoted,
    with quotes doubled inside quotes. *)

Definition plain_char (d q c : Z) : Prop := c <> d /\ c <> q /\ c <> Csv.c_lf /\ c <> Csv.c_cr.

Definition doubled (q : Z) (s : text) : text := concat (map (fun c => if (c =? q)%Z then [q; q] else [c]) s).

Inductive csv_field (d q : Z) : text -> text -> Prop :=
| field_bare s : Forall (plain_char d q) s -> csv_field d q s s
| field_quoted s : csv_field d q s (q :: doubled q s ++ [q]).

Definition csv_line (d q : Z) (fields : list text) (line : text) : Prop :=
  exists written, Forall2 (csv_field d q) fields written /\ line = join [d] written.

Inductive csv_text (d q : Z) : list (list text) -> text -> Prop :=
| csv_end : csv_text d q [] []
| csv_blank records t : csv_text d q records t -> csv_text d q records (Csv.c_lf :: t)
| csv_last fields line : csv_line d q fields line -> line <> [] -> csv_text d q [fields] line
| csv_more fields line records t :
    csv_line d q fields line -> line <> [] -> csv_text d q records t -> csv_text d q (fields :: records) (line ++ Csv.c_lf :: t).

(** The [csv] crate with [flexible(true)] and no headers: the records of a text. *)
Class CsvReader : Type := read_records : Z -> text -> list (list text).

Class CsvReaderLaws `{CsvReader} : Prop :=
  read_csv_text d records t : d <> Csv.c_quote -> d <> Csv.c_lf -> d <> Csv.c_cr -> csv_text d Csv.c_quote records t -> read_records d t = records.

Module Delimited.
(** ** Options *)

Inductive TableImportSourceFormat := FormatCsv | FormatTsv | FormatDelimited | FormatJson | FormatExcel | FormatSql | FormatParquet.
Inductive TableImportTextEncoding := EncodingAuto | Utf8 | Gbk | Windows1252 | Utf16Le | Utf16Be.

#[global] Instance TableImportSourceFormat_eq_dec : EqDecision TableImportSourceFormat.
Proof. solve_decision. Defined.
#[global] Instance TableImportTextEncoding_eq_dec : EqDecision TableImportTextEncoding.
Proof. solve_decision. Defined.

Definition label (f : TableImportSourceFormat) : string :=
  match f with
  | FormatCsv => "csv" | FormatTsv => "tsv" | FormatDelimited => "txt" | FormatJson => "json" | FormatExcel => "excel"
  | FormatSql => "sql" | FormatParquet => "parquet"
  end.

Definition is_delimited (f : TableImportSourceFormat) : bool :=
  match f with FormatCsv | FormatTsv | FormatDelimited => true | _ => false end.

Record TableImportParseOptions := {
  opt_delimiter : option text;
  opt_decimal_separator : option text;
  opt_encoding : option TableImportTextEncoding;
  opt_has_header : option bool;
  opt_title_row : option Z;
  opt_data_start_row : option Z;
  opt_last_data_row : option Z;
  opt_trim_values : option bool;
  opt_empty_string_as_null : option bool;
  opt_null_literal : option text;
}.

Definition default_options : TableImportParseOptions :=
  {| opt_delimiter := None; opt_decimal_separator := None; opt_encoding := Some EncodingAuto; opt_has_header := None; opt_title_row := None;
     opt_data_start_row := None; opt_last_data_row := None; opt_trim_values := Some false; opt_empty_string_as_null := Some true;
     opt_null_literal := None |}.

Record ImportRowRange := { title_row : option Z; data_start_row : Z; last_data_row : option Z }.

Record DelimitedParseConfig := {
  delimiter : Z;
  decimal_separator : Z;
  trim_values : bool;
  empty_string_as_null : bool;
  null_literal : option text;
  row_range : ImportRowRange;
}.

Record ParsedImportFile := {
  columns : list text;
  rows : list (list Value);
  total_rows : nat;
  effective_encoding : option TableImportTextEncoding;
}.

Definition effective_delimited_null_literal (raw : option text) : option text :=
  match raw with None => Some Csv.DEFAULT_CSV_NULL_LITERAL | Some raw => Csv.csv_null_literal raw end.

(** [usize] addition of the release build. *)
Definition wrapping_succ (n : Z) : Z := ((n + 1) mod (Csv.usize_max + 1))%Z.

Definition effective_import_row_range (options : TableImportParseOptions) : result ImportRowRange text :=
  let title := match options.(opt_title_row) with
               | Some row => if (row =? 0)%Z then None else Some row
               | None => if default true options.(opt_has_header) then Some 1%Z else None
               end in
  let start := match options.(opt_data_start_row) with
               | Some row => row
               | None => match title with Some row => wrapping_succ row | None => 1%Z end
               end in
  let last := match options.(opt_last_data_row) with Some row => if (0 <? row)%Z then Some row else None | None => None end in
  if (start =? 0)%Z then Err (txt "Data start row must be at least 1")
  else if match title with Some row => (start <=? row)%Z | None => false end then Err (txt "Title row must be before the data start row")
  else if match last with Some last => (last <? start)%Z | None => false end
  then Err (txt "Last data row must be 0 or not less than the data start row")
  else Ok {| title_row := title; data_start_row := start; last_data_row := last |}.

Definition effective_delimited_config (format : TableImportSourceFormat) (options : TableImportParseOptions) : result DelimitedParseConfig text :=
  let default_delimiter := match format with FormatTsv => Csv.c_tab | _ => Csv.c_comma end in
  let? d := match options.(opt_delimiter) with
            | None => Ok default_delimiter
            | Some value =>
              if bool_decide (value = []) then Ok default_delimiter
              else if bool_decide (value ∈ [txt "\t"; txt "tab"; txt "TAB"]) then Ok Csv.c_tab
              else if bool_decide (byte_len value = 1) then Ok (default Csv.c_comma (head value))
              else Err (txt "Delimiter must be a single-byte character")
            end in
  let literal := effective_delimited_null_literal options.(opt_null_literal) in
  let? separator := match options.(opt_decimal_separator) with
                    | None => Ok 46%Z
                    | Some value =>
                      if bool_decide (value = txt ".") then Ok 46%Z else if bool_decide (value = txt ",") then Ok 44%Z
                      else Err (txt "Decimal separator must be '.' or ','")
                    end in
  let? range := effective_import_row_range options in
  Ok {| delimiter := d; decimal_separator := separator; trim_values := default false options.(opt_trim_values);
        empty_string_as_null := bool_decide (literal = None) && default true options.(opt_empty_string_as_null);
        null_literal := literal; row_range := range |}.

(** ** Cells *)

Definition ends_with (c : Z) (s : text) : option text :=
  match reverse s with x :: r => if (x =? c)%Z then Some (reverse r) else None | [] => None end.

Definition unwrap_csv_force_text (value : text) : text :=
  match value with
  | c1 :: (c2 :: rest) =>
    if (c1 =? 61)%Z && (c2 =? Csv.c_quote)%Z then
      match ends_with Csv.c_quote rest with
      | Some inner => if bool_decide (Csv.c_quote ∈ inner) then value else inner
      | None => value
      end
    else value
  | _ => value
  end.

Definition strip_sign (s : text) : text :=
  match s with c :: rest => if (c =? 43)%Z || (c =? 45)%Z then rest else s | [] => s end.

(** The pattern of [COMMA_DECIMAL]: an optional sign, digits with at most one
    comma before, among or after them, and an optional exponent. *)
Definition comma_decimal (value : text) : bool :=
  let '(whole, rest) := span is_ascii_digit (strip_sign value) in
  let mantissa :=
    match rest with
    | c :: rest' =>
      if (c =? 44)%Z then
        let '(fraction, tail) := span is_ascii_digit rest' in
        if bool_decide (whole = []) && bool_decide (fraction = []) then None else Some tail
      else if bool_decide (whole = []) then None else Some rest
    | [] => if bool_decide (whole = []) then None else Some []
    end in
  match mantissa with
  | None => false
  | Some [] => true
  | Some (c :: exponent) =>
    if (c =? 101)%Z || (c =? 69)%Z then
      let digits := strip_sign exponent in negb (bool_decide (digits = [])) && forallb is_ascii_digit digits
    else false
  end.

Definition csv_value_with_config (value : text) (config : DelimitedParseConfig) : Value :=
  let value := if config.(trim_values) then trim_chars value else value in
  let value := unwrap_csv_force_text value in
  if bool_decide (config.(null_literal) = Some value) then VNull
  else if config.(empty_string_as_null) && bool_decide (value = []) then VNull
  else
    let is_comma_decimal := (config.(decimal_separator) =? 44)%Z && bool_decide (44%Z ∈ value) && comma_decimal value in
    VString (if is_comma_decimal then map (fun c => if (c =? 44)%Z then 46%Z else c) value else value).

Definition csv_value (value : text) : Value :=
  csv_value_with_config value
    {| delimiter := Csv.c_comma; decimal_separator := 46; trim_values := false; empty_string_as_null := true; null_literal := None;
       row_range := {| title_row := Some 1%Z; data_start_row := 2; last_data_row := None |} |}.

Definition delimited_record_to_row (record : list text) (columns_len : nat) (config : DelimitedParseConfig) : list Value :=
  map (fun index => match record !! index with Some value => csv_value_with_config value config | None => VNull end) (seq 0 columns_len).

(** ** Headers *)

Definition column_name (index : nat) : text := txt "column_" ++ decimal (Z.of_nat (S index)).

Definition normalize_header (value : text) (index : nat) : text :=
  let trimmed := trim_chars value in if bool_decide (trimmed = []) then column_name index else trimmed.

Definition trim_bom (value : text) : text := (span (fun c => (c =? 65279)%Z) value).2.

Section headers.
Context `{UnicodeCase}.

Definition candidate (header : text) (suffix : nat) : text :=
  match suffix with O => header | S _ => header ++ txt "_" ++ decimal (Z.of_nat suffix) end.

(** The loop over suffixes; [fuel] bounds its rounds, two more than the names
    already taken is enough. *)
Fixpoint next_candidate (fuel : nat) (header : text) (suffix : nat) (seen : list text) : text * nat :=
  match fuel with
  | O => (candidate header suffix, S suffix)
  | S fuel =>
    if bool_decide (to_lowercase (candidate header suffix) ∈ seen) then next_candidate fuel header (S suffix) seen
    else (candidate header suffix, S suffix)
  end.

Fixpoint unique_headers_from (seen : list text) (next_suffix : gmap text nat) (headers : list text) : list text :=
  match headers with
  | [] => []
  | header :: headers =>
    let suffix := default 0 (next_suffix !! to_lowercase header) in
    let '(name, suffix) := next_candidate (S (S (length seen))) header suffix seen in
    name :: unique_headers_from (to_lowercase name :: seen) (<[to_lowercase header := suffix]> next_suffix) headers
  end.

Definition unique_import_headers (headers : list text) : list text := unique_headers_from [] ∅ headers.

Definition title_columns (record : list text) : list text :=
  unique_import_headers (imap (fun index header => normalize_header (trim_bom header) index) record).

Definition generated_columns (record : list text) : list text := map column_name (seq 0 (length record)).

(** ** The parse for a preview *)

Definition after_last (range : ImportRowRange) (row_number : Z) : bool :=
  match range.(last_data_row) with Some last => (last <? row_number)%Z | None => false end.

(** [records] is what the reader yields: records, then an error or the end. *)
Fixpoint read_rows (config : DelimitedParseConfig) (preview_limit : nat) (count_all_rows : bool) (records : list (result (list text) text))
    (index : Z) (columns : list text) (rows : list (list Value)) (total : nat) : result (list text * list (list Value) * nat) text :=
  match records with
  | [] => Ok (columns, rows, total)
  | Err e :: _ => Err e
  | Ok record :: records =>
    let row_number := (index + 1)%Z in
    if bool_decide (config.(row_range).(title_row) = Some row_number)
    then read_rows config preview_limit count_all_rows records row_number (title_columns record) rows total
    else if (row_number <? config.(row_range).(data_start_row))%Z
    then read_rows config preview_limit count_all_rows records row_number columns rows total
    else if after_last config.(row_range) row_number then Ok (columns, rows, total)
    else
      let columns := if bool_decide (columns = []) then generated_columns record else columns in
      let rows := if (length rows <? preview_limit)%nat then rows ++ [delimited_record_to_row record (length columns) config] else rows in
      if negb count_all_rows && (preview_limit <=? length rows)%nat then Ok (columns, rows, S total)
      else read_rows config preview_limit count_all_rows records row_number columns rows (S total)
  end.

Definition parse_csv_reader_inner (config : DelimitedParseConfig) (preview_limit : nat) (encoding : TableImportTextEncoding)
    (count_all_rows : bool) (records : list (result (list text) text)) : result ParsedImportFile text :=
  let? (columns, rows, total) := read_rows config preview_limit count_all_rows records 0 [] [] 0 in
  if bool_decide (columns = []) then Err (txt "Import file has no columns in the selected row range")
  else if (total =? 0)%nat then Err (txt "Import file has no data rows in the selected row range")
  else Ok {| columns := columns; rows := rows; total_rows := total; effective_encoding := Some encoding |}.

Definition parse_csv_reader (config : DelimitedParseConfig) (preview_limit : nat) (encoding : TableImportTextEncoding)
    (records : list (result (list text) text)) : result ParsedImportFile text :=
  parse_csv_reader_inner config preview_limit encoding true records.
Definition parse_csv_reader_bounded (config : DelimitedParseConfig) (preview_limit : nat) (encoding : TableImportTextEncoding)
    (records : list (result (list text) text)) : result ParsedImportFile text :=
  parse_csv_reader_inner config (Nat.max preview_limit 1) encoding false records.

Definition parse_decoded_delimited_reader `{CsvReader} (decoded : text) (config : DelimitedParseConfig) (preview_limit : nat)
    (encoding : TableImportTextEncoding) : result ParsedImportFile text :=
  parse_csv_reader config preview_limit encoding (map Ok (read_records config.(delimiter) decoded)).
Definition parse_delimited_reader `{CsvReader} (decoded : text) (config : DelimitedParseConfig) (preview_limit : nat) : result ParsedImportFile text :=
  parse_decoded_delimited_reader decoded config preview_limit Utf8.

(** ** The stream for the import *)

Inductive DelimitedStreamMessage :=
| StreamHeader (columns : list text)
| StreamRows (rows : list (list Value))
| StreamDone.

(** The columns, the first record of the range and what follows it. *)
Fixpoint delimited_columns_and_first_record (config : DelimitedParseConfig) (records : list (result (list text) text)) (index : Z)
    (columns : list text) : result (list text * list text * list (result (list text) text)) text :=
  match records with
  | [] => Err (txt "Import file has no data rows in the selected row range")
  | Err e :: _ => Err e
  | Ok record :: records =>
    let row_number := (index + 1)%Z in
    if bool_decide (config.(row_range).(title_row) = Some row_number)
    then delimited_columns_and_first_record config records row_number (title_columns record)
    else if (row_number <? config.(row_range).(data_start_row))%Z
    then delimited_columns_and_first_record config records row_number columns
    else if after_last config.(row_range) row_number then Err (txt "Import file has no data rows in the selected row range")
    else
      let columns := if bool_decide (columns = []) then generated_columns record else columns in
      if bool_decide (columns = []) then Err (txt "Import file has no columns") else Ok (columns, record, records)
  end.

Definition saturating_succ (n : Z) : Z := Z.min (n + 1) Csv.usize_max.

(** The messages sent, and the error that ends the stream if one does; the
    consumer keeps its end of the channel open. *)
Fixpoint stream_records (config : DelimitedParseConfig) (columns_len batch_size : nat) (records : list (result (list text) text)) (row_number : Z)
    (pending : list (list Value)) : list DelimitedStreamMessage * option text :=
  let flushed := (match pending with [] => [] | _ => [StreamRows pending] end) ++ [StreamDone] in
  match records with
  | [] => (flushed, None)
  | Err e :: _ => ([], Some e)
  | Ok record :: records =>
    let row_number := saturating_succ row_number in
    if after_last config.(row_range) row_number then (flushed, None)
    else
      let pending := pending ++ [delimited_record_to_row record columns_len config] in
      if (batch_size <=? length pending)%nat then
        let '(messages, e) := stream_records config columns_len batch_size records row_number [] in (StreamRows pending :: messages, e)
      else stream_records config columns_len batch_size records row_number pending
  end.

Definition stream_delimited_rows_to_channel (config : DelimitedParseConfig) (batch_size : nat) (records : list (result (list text) text)) :
    list DelimitedStreamMessage * option text :=
  match delimited_columns_and_first_record config records 0 [] with
  | Err e => ([], Some e)
  | Ok (columns, first, rest) =>
    let '(messages, e) := stream_records config (length columns) (Nat.max batch_size 1) (Ok first :: rest)
                            (Z.max 0 (config.(row_range).(data_start_row) - 1)) [] in
    (StreamHeader columns :: messages, e)
  end.
End headers.

(** ** Encodings *)

Definition bom_text_encoding (bytes : text) : option (TableImportTextEncoding * nat) :=
  match bytes with
  | 239%Z :: (187%Z :: (191%Z :: _)) => Some (Utf8, 3)
  | 255%Z :: (254%Z :: _) => Some (Utf16Le, 2)
  | 254%Z :: (255%Z :: _) => Some (Utf16Be, 2)
  | _ => None
  end.

Definition matching_bom_len (bytes : text) (encoding : TableImportTextEncoding) : nat :=
  match bom_text_encoding bytes with Some (e, n) => if bool_decide (e = encoding) then n else 0 | None => 0 end.

Section encodings.
(** [encoding_rs]: whether the bytes are text of the encoding. *)
Context (reader_is_valid_for_encoding : text -> TableImportTextEncoding -> bool).

Definition auto_detect_text_encoding_from_bytes (bytes : text) : result (TableImportTextEncoding * nat) text :=
  match bom_text_encoding bytes with
  | Some detected => Ok detected
  | None =>
    match List.find (reader_is_valid_for_encoding bytes) [Utf8; Gbk; Windows1252] with
    | Some encoding => Ok (encoding, 0)
    | None => Err (txt "Could not detect text encoding; select UTF-8, GBK / GB18030, Windows-1252, or UTF-16 manually")
    end
  end.

Definition resolve_text_encoding_from_bytes (bytes : text) (requested : option TableImportTextEncoding) : result (TableImportTextEncoding * nat) text :=
  let requested := default EncodingAuto requested in
  if bool_decide (requested = EncodingAuto) then auto_detect_text_encoding_from_bytes bytes
  else Ok (requested, matching_bom_len bytes requested).
End encodings.
End Delimited.

Module Plan.
(** ** Mapping of columns *)

Inductive TableImportGenerator := GenUuid | GenUuidSimple | GenCurrentTimestamp | GenCurrentDate | GenSequence.

Definition lower (s : text) : text := map to_ascii_lowercase s.

Definition parse_generator (raw : text) : option TableImportGenerator :=
  let trimmed := map (fun c => if (c =? 45)%Z then 95%Z else c) (lower (trim_chars raw)) in
  let named := List.existsb (fun name => bool_decide (trimmed = txt name)) in
  if named ["uuid"; "uuid_v4"] then Some GenUuid
  else if named ["uuid_simple"; "uuidnohyphens"; "uuid_no_hyphens"; "uuid32"; "uuid_32"] then Some GenUuidSimple
  else if named ["current_timestamp"; "currenttimestamp"; "now"; "datetime"] then Some GenCurrentTimestamp
  else if named ["current_date"; "currentdate"; "today"; "date"] then Some GenCurrentDate
  else if named ["sequence"; "autoincrement"; "auto_increment"] then Some GenSequence
  else None.

Inductive ImportColumnSource := SourceIndex (index : nat) | Generator (g : TableImportGenerator).

Record CompiledImportPlan := {
  column_sources : list ImportColumnSource;
  target_columns : list text;
  column_types : list (option text);
}.

Record TableImportColumnMapping := {
  source_column : text;
  target_column : text;
  target_data_type : option text;
  generator : option text;
}.

Fixpoint position (columns : list text) (name : text) : option nat :=
  match columns with
  | [] => None
  | column :: columns => if bool_decide (column = name) then Some 0 else S <$> position columns name
  end.

Definition mapping_generator (m : TableImportColumnMapping) : option TableImportGenerator := m.(generator) ≫= parse_generator.

Fixpoint map_columns (columns : list text) (seen : list text) (mappings : list TableImportColumnMapping) :
    result (list (option nat * TableImportColumnMapping)) text :=
  match mappings with
  | [] => Ok []
  | m :: mappings =>
    let source_index := position columns m.(source_column) in
    if bool_decide (mapping_generator m = None) && bool_decide (source_index = None)
    then Err (txt "Source column not found: " ++ m.(source_column))
    else if bool_decide (trim_chars m.(target_column) = []) then Err (txt "Target column cannot be empty")
    else if bool_decide (m.(target_column) ∈ seen) then Err (txt "Target column mapped more than once: " ++ m.(target_column))
    else
      let? mapped := map_columns columns (m.(target_column) :: seen) mappings in
      Ok ((source_index, m) :: mapped)
  end.

Definition mapping_indexes_with_mappings (columns : list text) (mappings : list TableImportColumnMapping) :
    result (list (option nat * TableImportColumnMapping)) text :=
  match mappings with [] => Err (txt "No columns mapped for import") | _ => map_columns columns [] mappings end.

Definition mapping_indexes_for_columns (columns : list text) (mappings : list TableImportColumnMapping) : result (list (option nat * text)) text :=
  let? mapped := mapping_indexes_with_mappings columns mappings in
  Ok (map (fun m => (m.1, m.2.(target_column))) mapped).

Definition column_source (mapped : option nat * TableImportColumnMapping) : result ImportColumnSource text :=
  match mapping_generator mapped.2, mapped.1 with
  | Some g, _ => Ok (Generator g)
  | None, Some index => Ok (SourceIndex index)
  | None, None => Err (txt "Source column not found: " ++ mapped.2.(source_column))
  end.

Fixpoint column_sources_of (mapped : list (option nat * TableImportColumnMapping)) : result (list ImportColumnSource) text :=
  match mapped with
  | [] => Ok []
  | m :: mapped => let? source := column_source m in let? sources := column_sources_of mapped in Ok (source :: sources)
  end.

Definition compile_import_plan (columns : list text) (mappings : list TableImportColumnMapping) (target_column_types : list (text * text)) :
    result CompiledImportPlan text :=
  let? mapped := mapping_indexes_with_mappings columns mappings in
  let? sources := column_sources_of mapped in
  let targets := map (fun m => m.2.(target_column)) mapped in
  Ok {| column_sources := sources; target_columns := targets;
        column_types := map (fun column => snd <$> List.find (fun t => eq_ignore_ascii_case t.1 column) target_column_types) targets |}.

Definition MAX_ORACLE_IMPORT_BATCH_ROWS : Z := 500.
Definition SQLITE_APPEND_COMMIT_ROWS : Z := 10000.

Definition effective_import_batch_size (db_type : DatabaseType.t) (requested : Z) : Z :=
  let max_rows := match db_type with
                  | DatabaseType.Oracle | DatabaseType.OceanbaseOracle => MAX_ORACLE_IMPORT_BATCH_ROWS
                  | DatabaseType.Iris | DatabaseType.SapHana => 1%Z
                  | DatabaseType.CloudflareD1 | DatabaseType.Transwarp => 100%Z
                  | DatabaseType.SqlServer => 1000%Z
                  | DatabaseType.Sqlite => SQLITE_APPEND_COMMIT_ROWS
                  | _ => Csv.usize_max
                  end in
  Z.min (Z.max requested 1) max_rows.

Section rows.
(** The normalisation of a value for the type of its column, and the generated
    values (random ids, the clock). *)
Context (normalize_import_value : Value -> option text -> Value) (generated : TableImportGenerator -> Value).

Definition generate_value (g : TableImportGenerator) (sequence : Z) : Value :=
  match g with GenSequence => VNumber (decimal sequence) | _ => generated g end.

Definition map_import_row_with_plan (row : list Value) (plan : CompiledImportPlan) (row_sequence : Z) : list Value :=
  imap (fun target_index source =>
    let data_type := match plan.(column_types) !! target_index with Some t => t | None => None end in
    let value := match source with
                 | SourceIndex index => default VNull (row !! index)
                 | Generator g => generate_value g row_sequence
                 end in
    normalize_import_value value data_type) plan.(column_sources).
End rows.

(** ** Types of columns *)

(** A type entered by hand is part of a CREATE TABLE. *)
Fixpoint type_parens (depth : Z) (s : text) : option Z :=
  match s with
  | [] => Some depth
  | c :: s =>
    if (c =? 40)%Z then type_parens (depth + 1) s
    else if (c =? 41)%Z then if (depth =? 0)%Z then None else type_parens (depth - 1) s
    else if (c =? 44)%Z && (depth =? 0)%Z then None
    else type_parens depth s
  end.

Fixpoint contains_pair (a b : Z) (s : text) : bool :=
  match s with x :: rest => (x =? a)%Z && at_is rest 0 b || contains_pair a b rest | [] => false end.

Definition validate_import_target_data_type (data_type : text) : result unit text :=
  let unsupported := Err (txt "Unsupported target data type syntax: " ++ data_type) in
  let lowered := lower data_type in
  if bool_decide (59%Z ∈ data_type) || contains_pair 45 45 lowered || contains_pair 47 42 lowered || contains_pair 42 47 lowered
     || existsb is_control data_type
  then unsupported
  else match type_parens 0 data_type with Some depth => if (depth =? 0)%Z then Ok tt else unsupported | None => unsupported end.

Definition with_default_length_if_required (data_type : text) (db_type : DatabaseType.t) : text :=
  let requires_length := match db_type with
                         | DatabaseType.Mysql | DatabaseType.Doris | DatabaseType.StarRocks | DatabaseType.Goldendb | DatabaseType.Sundb => true
                         | _ => false
                         end in
  if requires_length && bool_decide (map to_ascii_uppercase data_type ∈ [txt "VARCHAR"; txt "CHAR"])
  then data_type ++ txt "(255)" else data_type.

Definition normalize_import_target_data_type (m : TableImportColumnMapping) (db_type : DatabaseType.t) : result (option text) text :=
  match m.(target_data_type) with
  | None => Ok None
  | Some raw =>
    let data_type := trim_chars raw in
    if bool_decide (data_type = []) then Err (txt "Target data type cannot be empty: " ++ m.(target_column))
    else let? _ := validate_import_target_data_type data_type in Ok (Some (with_default_length_if_required data_type db_type))
  end.

Inductive ImportInferredType := TBoolean | TInteger | TDecimal | TDate | TTimestamp | TJson | TText.

#[global] Instance ImportInferredType_eq_dec : EqDecision ImportInferredType.
Proof. solve_decision. Defined.

Definition merge_inferred_type (current : option ImportInferredType) (next : ImportInferredType) : ImportInferredType :=
  match current with
  | None => next
  | Some current =>
    if bool_decide (current = next) then current
    else match current, next with
         | TText, _ | _, TText => TText
         | TInteger, TDecimal | TDecimal, TInteger => TDecimal
         | TDate, TTimestamp | TTimestamp, TDate => TTimestamp
         | _, _ => TText
         end
  end.

Definition has_numeric_leading_zero (value : text) : bool :=
  match (span (fun c => (c =? 43)%Z || (c =? 45)%Z) value).2 with
  | c :: (d :: _) => (c =? 48)%Z && is_ascii_digit d
  | _ => false
  end.

Definition i64_max : Z := 2 ^ 63 - 1.

(** [str::parse::<i64>]. *)
Definition parse_i64 (s : text) : option Z :=
  match s with
  | c :: digits => if (c =? 45)%Z then match digits with [] => None | _ => Z.opp <$> parse_digits (i64_max + 1) 0 digits end else parse_unsigned i64_max s
  | [] => None
  end.

Definition is_integer (s : text) : bool :=
  negb (bool_decide (parse_i64 s = None)) || negb (bool_decide (parse_unsigned u64_max s = None)).

Definition is_current_timestamp_value (v : Value) : bool :=
  match v with
  | VObject [(key, VString value)] => bool_decide (key = txt "$dbxSqlImportExpression") && bool_decide (value = txt "currentTimestamp")
  | _ => false
  end.

Section inference.
(** [chrono] and [f64] parsing. *)
Context (is_likely_timestamp is_likely_date is_finite_float : text -> bool).

Definition infer_string_type (value : text) : ImportInferredType :=
  let value := trim_chars value in
  if bool_decide (value = []) then TText
  else if is_likely_timestamp value then TTimestamp
  else if is_likely_date value then TDate
  else if has_numeric_leading_zero value then TText
  else if is_integer value then TInteger
  else if existsb (fun c => (c =? 46)%Z || (c =? 101)%Z || (c =? 69)%Z) value && is_finite_float value then TDecimal
  else TText.

Definition infer_value_type (v : Value) : option ImportInferredType :=
  if is_current_timestamp_value v then Some TTimestamp
  else match v with
       | VNull => None
       | VBool _ => Some TBoolean
       | VNumber repr => Some (if is_integer repr then TInteger else TDecimal)
       | VString value => Some (infer_string_type value)
       | VArray _ | VObject _ => Some TJson
       end.

Fixpoint infer_rows (rows : list (list Value)) (source_index : nat) (inferred : option ImportInferredType) : option ImportInferredType :=
  match rows with
  | [] => inferred
  | row :: rows =>
    match row !! source_index ≫= infer_value_type with
    | None => infer_rows rows source_index inferred
    | Some value_type =>
      let inferred := Some (merge_inferred_type inferred value_type) in
      if bool_decide (inferred = Some TText) then inferred else infer_rows rows source_index inferred
    end
  end.

Definition infer_column_type (rows : list (list Value)) (source_index : nat) : ImportInferredType :=
  default TText (infer_rows rows source_index None).
End inference.

(** ** Failed rows *)

Definition IMPORT_FAILURE_RECORD_LIMIT : nat := 1000.

Record TableImportFailure := { failure_table : text; failure_row : Z; failure_error : text }.

Record ImportFailureSink := { sink_table : text; failures : list TableImportFailure; failed : Z; omitted : Z }.

Definition new_sink (table : text) : ImportFailureSink := {| sink_table := table; failures := []; failed := 0; omitted := 0 |}.

Definition record_failure (row : Z) (error : text) (s : ImportFailureSink) : ImportFailureSink :=
  let failed := Csv.saturating_add s.(failed) 1 in
  if (length s.(failures) <? IMPORT_FAILURE_RECORD_LIMIT)%nat
  then {| sink_table := s.(sink_table);
          failures := s.(failures) ++ [{| failure_table := s.(sink_table); failure_row := row; failure_error := error |}];
          failed := failed; omitted := s.(omitted) |}
  else {| sink_table := s.(sink_table); failures := s.(failures); failed := failed; omitted := Csv.saturating_add s.(omitted) 1 |}.

Definition failures_truncated (s : ImportFailureSink) : bool := (0 <? s.(omitted))%Z.
End Plan.

(** ** PostgreSQL COPY *)

Module PgCopy.
Import Plan.

Definition copy_escape_char (c : Z) : text :=
  if (c =? 92)%Z then txt "\\"
  else if (c =? 9)%Z then txt "\t"
  else if (c =? 10)%Z then txt "\n"
  else if (c =? 13)%Z then txt "\r"
  else if (c =? 8)%Z then txt "\b"
  else if (c =? 12)%Z then txt "\f"
  else if (c =? 11)%Z then txt "\v"
  else [c].

Definition copy_escape (raw : text) : text := concat (map copy_escape_char raw).

Definition postgres_copy_text_value (v : Value) : result text text :=
  let raw := match v with
             | VNull => None
             | VBool b => Some (Ok (bool_text b))
             | VNumber repr => Some (Ok repr)
             | VString s => Some (Ok s)
             | VArray _ | VObject _ => Some (Err (txt "PostgreSQL COPY fast path does not support structured values"))
             end in
  match raw with
  | None => Ok (txt "\N")
  | Some raw =>
    let? raw := raw in
    if bool_decide (0%Z ∈ raw) then Err (txt "PostgreSQL COPY text format does not support NUL bytes") else Ok (copy_escape raw)
  end.

Definition starts_with (p s : text) : bool := bool_decide (take (length p) s = p).

Definition postgres_copy_compatible_column_type (data_type : option text) : bool :=
  match data_type with
  | None => true
  | Some data_type =>
    let base := lower (trim_chars data_type) in
    negb (starts_with (txt "bytea") base) && negb (starts_with (txt "bit") base) && negb (starts_with (txt "varbit") base)
  end.

Definition POSTGRES_COPY_TARGET_BYTES : Z := 8 * 1024 * 1024.
Definition POSTGRES_COPY_MAX_ROWS : Z := 50000.

Record PostgresCopyAccumulator := {
  copy_sql : text;
  data : text;
  row_count : Z;
  target_bytes : Z;
  max_rows : Z;
}.

Definition data_len (s : text) : Z := Z.of_nat (byte_len s).

Definition with_limits (sql : text) (target_bytes max_rows : Z) : PostgresCopyAccumulator :=
  {| copy_sql := sql; data := []; row_count := 0; target_bytes := Z.max target_bytes 1; max_rows := Z.max max_rows 1 |}.
Definition new_accumulator (sql : text) : PostgresCopyAccumulator := with_limits sql POSTGRES_COPY_TARGET_BYTES POSTGRES_COPY_MAX_ROWS.

Definition is_empty (a : PostgresCopyAccumulator) : bool := (a.(row_count) =? 0)%Z.

Definition should_flush_before (a : PostgresCopyAccumulator) (next_row_bytes : Z) : bool :=
  negb (is_empty a)
  && ((a.(target_bytes) <? Csv.saturating_add (data_len a.(data)) next_row_bytes)%Z || (a.(max_rows) <? Csv.saturating_add a.(row_count) 1)%Z).

Definition append_row (row : text) (a : PostgresCopyAccumulator) : PostgresCopyAccumulator :=
  {| copy_sql := a.(copy_sql); data := a.(data) ++ row; row_count := a.(row_count) + 1; target_bytes := a.(target_bytes); max_rows := a.(max_rows) |}.

Definition should_flush_after_append (a : PostgresCopyAccumulator) : bool :=
  negb (is_empty a) && ((a.(target_bytes) <=? data_len a.(data))%Z || (a.(max_rows) <=? a.(row_count))%Z).

Definition emptied (a : PostgresCopyAccumulator) : PostgresCopyAccumulator :=
  {| copy_sql := a.(copy_sql); data := []; row_count := 0; target_bytes := a.(target_bytes); max_rows := a.(max_rows) |}.

Record PostgresCopyBatch := { batch_sql : text; batch_data : text; batch_rows : Z }.

Definition take_batch (a : PostgresCopyAccumulator) : option PostgresCopyBatch * PostgresCopyAccumulator :=
  if is_empty a then (None, a)
  else (Some {| batch_sql := a.(copy_sql); batch_data := a.(data); batch_rows := a.(row_count) |}, emptied a).

(** The buffer of a batch that was sent comes back empty. *)
Definition recycle_batch_buffer (a : PostgresCopyAccumulator) : PostgresCopyAccumulator :=
  {| copy_sql := a.(copy_sql); data := []; row_count := a.(row_count); target_bytes := a.(target_bytes); max_rows := a.(max_rows) |}.

Record ImportRowsBatchError := { rows_imported : Z; message : text; cancelled : bool }.

Definition with_rows_imported (rows : Z) (message : text) : ImportRowsBatchError := {| rows_imported := rows; message := message; cancelled := false |}.
Definition before_write (message : text) : ImportRowsBatchError := with_rows_imported 0 message.
Definition cancelled_error (rows : Z) : ImportRowsBatchError := {| rows_imported := rows; message := txt "Import cancelled"; cancelled := true |}.

Section copy.
Context (normalize_import_value : Value -> option text -> Value) (generated : TableImportGenerator -> Value).

Fixpoint copy_fields (first : bool) (values : list Value) : result text text :=
  match values with
  | [] => Ok []
  | v :: values =>
    let? field := postgres_copy_text_value v in
    let? rest := copy_fields false values in
    Ok ((if first then [] else [Csv.c_tab]) ++ field ++ rest)
  end.

Definition build_postgres_copy_text_row (row : list Value) (plan : CompiledImportPlan) (row_sequence : Z) : result text text :=
  let? line := copy_fields true (map_import_row_with_plan normalize_import_value generated row plan row_sequence) in
  Ok (line ++ [Csv.c_lf]).

(** The connection: [copy_in] sends a batch, [is_cancelled] asks the user. *)
Context {W : Type} (copy_in : text -> text -> M W (result unit text)) (is_cancelled : M W bool).

Definition ensure_import_write_allowed (rows : Z) : M W (result unit ImportRowsBatchError) :=
  let! c := is_cancelled in ret (if c then Err (cancelled_error rows) else Ok tt).

Definition flush_postgres_copy_accumulator (a : PostgresCopyAccumulator) : M W (result Z text * PostgresCopyAccumulator) :=
  let '(batch, a) := take_batch a in
  match batch with
  | None => ret (Ok 0%Z, a)
  | Some batch =>
    let! sent := copy_in batch.(batch_sql) batch.(batch_data) in
    ret (match sent with Ok _ => (Ok batch.(batch_rows), recycle_batch_buffer a) | Err e => (Err e, a) end)
  end.

Definition flush_pending_postgres_copy (accumulator : option PostgresCopyAccumulator) :
    M W (result Z ImportRowsBatchError * option PostgresCopyAccumulator) :=
  match accumulator with
  | Some a =>
    if is_empty a then ret (Ok 0%Z, accumulator)
    else
      let! allowed := ensure_import_write_allowed 0 in
      match allowed with
      | Err e => ret (Err e, accumulator)
      | Ok _ =>
        let! (flushed, a) := flush_postgres_copy_accumulator a in
        ret (match flushed with Ok n => Ok n | Err e => Err (before_write e) end, Some a)
      end
  | None => ret (Ok 0%Z, None)
  end.

(** A flush between two rows of a batch, if [wanted]. *)
Definition flush_between (wanted : bool) (rows : Z) (a : PostgresCopyAccumulator) : M W (result Z ImportRowsBatchError * PostgresCopyAccumulator) :=
  if wanted then
    let! allowed := ensure_import_write_allowed rows in
    match allowed with
    | Err e => ret (Err e, a)
    | Ok _ =>
      let! (flushed, a) := flush_postgres_copy_accumulator a in
      ret (match flushed with Ok n => Ok (Csv.saturating_add rows n) | Err e => Err (with_rows_imported rows e) end, a)
    end
  else ret (Ok rows, a).

Fixpoint append_rows_from (rows : list (list Value)) (plan : CompiledImportPlan) (start_row_offset : Z) (row_idx : Z) (imported : Z)
    (a : PostgresCopyAccumulator) : M W (result Z ImportRowsBatchError * PostgresCopyAccumulator) :=
  match rows with
  | [] => ret (Ok imported, a)
  | row :: rows =>
    match build_postgres_copy_text_row row plan (start_row_offset + row_idx + 1) with
    | Err message => ret (Err (with_rows_imported imported message), a)
    | Ok encoded =>
      let! (flushed, a) := flush_between (should_flush_before a (data_len encoded)) imported a in
      match flushed with
      | Err e => ret (Err e, a)
      | Ok imported =>
        let a := append_row encoded a in
        let! (flushed, a) := flush_between (should_flush_after_append a) imported a in
        match flushed with
        | Err e => ret (Err e, a)
        | Ok imported => append_rows_from rows plan start_row_offset (row_idx + 1) imported a
        end
      end
    end
  end.

Definition append_postgres_copy_rows (rows : list (list Value)) (plan : CompiledImportPlan) (a : PostgresCopyAccumulator) (start_row_offset : Z) :
    M W (result Z ImportRowsBatchError * PostgresCopyAccumulator) :=
  append_rows_from rows plan start_row_offset 0 0 a.
End copy.
End PgCopy.
