(* ===== verification/TextExportSpec.v ===== *)
(** * Properties of exported and imported text

    Every exported CSV file in a quoting mode is CSV text ([csv_text]) of the
    header and the cells; no text cell of it starts a spreadsheet formula, and
    the guard can be taken off again; a table written page by page is the rows of
    the pages that the server sent, formatted at once.  [CsvMachine] is a reader that satisfies [CsvReaderLaws]. *)

From S2P Require Import Prelude TextExport TableImport SqlDialect QueryExecutionSql.
Import Csv.

(** ** The guard *)

Lemma apostrophe_is_inert s : needs_formula_guard (c_apostrophe :: s) = false.
Proof. reflexivity. Qed.

(** What a text cell holds after the guard. *)
Definition guarded (value : text) : text := push_formula_guard value ++ value.

Lemma guard_cases value : push_formula_guard value = [] \/ push_formula_guard value = [c_apostrophe].
Proof. unfold push_formula_guard. destruct value; [by left|]. repeat case_match; auto. Qed.

Lemma guarded_strips value : strip_formula_guard (guarded value) = value.
Proof.
  unfold guarded, push_formula_guard. destruct value as [|c rest]; [done|].
  destruct (Z.eqb_spec c c_apostrophe) as [->|Hc].
  - destruct (at_is rest 0 c_apostrophe || needs_formula_guard rest) eqn:E; simpl; [done|]. by rewrite E.
  - destruct (needs_formula_guard (c :: rest)) eqn:E; cbn [app]; unfold strip_formula_guard.
    + rewrite E, orb_true_r. done.
    + by rewrite (proj2 (Z.eqb_neq _ _) Hc).
Qed.

Lemma guarded_inert value : needs_formula_guard (guarded value) = false.
Proof.
  unfold guarded. destruct (guard_cases value) as [E|E]; rewrite E; [|apply apostrophe_is_inert]. simpl.
  unfold push_formula_guard in E. destruct value as [|c rest]; [done|]. destruct (Z.eqb_spec c c_apostrophe) as [->|]; [done|].
  by destruct (needs_formula_guard (c :: rest)).
Qed.

(** ** Fields *)

Lemma escaped_is_doubled q value : (q < 128)%Z -> push_csv_escaped_content q value = Some (doubled q value).
Proof.
  intros Hq. unfold doubled. induction value as [|c value IH]; [done|]. cbn [push_csv_escaped_content map concat]. rewrite IH.
  destruct (Z.eqb_spec c q) as [->|]; [|done]. by rewrite (proj2 (Z.ltb_lt _ _) Hq).
Qed.

Lemma doubled_app q a b : doubled q (a ++ b) = doubled q a ++ doubled q b.
Proof. unfold doubled. by rewrite map_app, concat_app. Qed.

Lemma doubled_id q s : Forall (fun c => c <> q) s -> doubled q s = s.
Proof.
  induction 1 as [|c s Hc _ IH]; [done|]. unfold doubled in *. simpl. rewrite (proj2 (Z.eqb_neq _ _) Hc). simpl. by f_equal.
Qed.

(** Formats whose text can be read back: the quote character is one byte long,
    and neither it nor the delimiter is a line end, the apostrophe of the guard
    or part of a number or a truth value. *)
Definition value_char (c : Z) : bool :=
  is_ascii_digit c || bool_decide (c ∈ [43; 45; 46; 69]%Z) || bool_decide (c ∈ txt "truefalse").

Record legal_format (f : CsvTextFormat) : Prop := {
  legal_mode : f.(quote_mode) <> QuoteNever;
  legal_quote : (f.(quote_char) < 128)%Z;
  legal_distinct : f.(delimiter) <> f.(quote_char);
  legal_delimiter_char : (f.(delimiter) ∉ [c_lf; c_cr; c_apostrophe]) /\ value_char f.(delimiter) = false;
  legal_quote_char : (f.(quote_char) ∉ [c_lf; c_cr; c_apostrophe]) /\ value_char f.(quote_char) = false;
}.

(** A number is written with digits, signs, a point and an exponent. *)
Definition wf_value (v : Value) : Prop :=
  match v with VNumber repr => repr <> [] /\ Forall (fun c => value_char c = true) repr | _ => True end.

Section fields.
Context (f : CsvTextFormat) (Hf : legal_format f).
Notation d := f.(delimiter).
Notation q := f.(quote_char).

Lemma apostrophe_plain : plain_char d q c_apostrophe.
Proof using Hf.
  destruct (legal_delimiter_char f Hf) as [Hd _], (legal_quote_char f Hf) as [Hq _]. unfold plain_char.
  split_and!; [intros E|intros E| |]; try done; rewrite <- E in *; set_solver.
Qed.

Lemma value_char_plain c : value_char c = true -> plain_char d q c.
Proof using Hf.
  intros Hc. destruct (legal_delimiter_char f Hf) as [_ Hd], (legal_quote_char f Hf) as [_ Hq].
  split_and!; intros ->; congruence || discriminate Hc.
Qed.

Lemma no_quotes_needed value : csv_field_needs_quotes value d q = false <-> Forall (plain_char d q) value.
Proof.
  unfold csv_field_needs_quotes. induction value as [|c value IH]; [by split|]. cbn [existsb]. rewrite orb_false_iff, Forall_cons, IH.
  unfold plain_char. rewrite !orb_false_iff, !Z.eqb_neq. tauto.
Qed.

Lemma guard_not_quote value : Forall (fun c => c <> q) (push_formula_guard value).
Proof using Hf.
  destruct (guard_cases value) as [->| ->]; [done|]. apply Forall_singleton. apply apostrophe_plain.
Qed.

Lemma quoted_field_text value : exists w, quoted_field value q = Some w /\ csv_field d q (guarded value) w /\ w <> [].
Proof using Hf.
  unfold quoted_field. rewrite escaped_is_doubled by apply (legal_quote f Hf). simpl. eexists. split; [done|]. split; [|done].
  pose proof (doubled_id q _ (guard_not_quote value)) as E. rewrite <- E, app_assoc, <- doubled_app. constructor.
Qed.

Lemma bare_field_text value : Forall (plain_char d q) value -> csv_field d q (guarded value) (guarded value).
Proof using Hf.
  intros Hv. constructor. apply Forall_app. split; [|done]. destruct (guard_cases value) as [->| ->]; [done|].
  apply Forall_singleton, apostrophe_plain.
Qed.

Lemma field_text value : exists w, push_csv_field_with_format value f = Some w /\ csv_field d q (guarded value) w.
Proof using Hf.
  unfold push_csv_field_with_format. destruct (quoted_field_text value) as (w & Hw & Hc & _).
  pose proof (legal_mode f Hf). destruct f.(quote_mode); [eauto| |done|eauto].
  destruct (csv_field_needs_quotes value d q) eqn:E; [eauto|]. apply no_quotes_needed in E. eexists. split; [done|]. by apply bare_field_text.
Qed.
End fields.

(** ** Cells, rows and files *)

(** What the cell of a value holds. *)
Definition cell_content `{JsonText} (f : CsvTextFormat) (v : Value) : text :=
  match v with
  | VNull => match f.(null_literal) with Some literal => guarded literal | None => [] end
  | VBool b => bool_text b
  | VNumber repr => repr
  | VString s => guarded s
  | other => value_to_string other
  end.

Lemma legal_necessary f : legal_format f -> legal_format (f <| quote_mode := QuoteNecessary |>).
Proof. intros []. by constructor. Qed.

Lemma concat_doubled q pieces : concat (map (doubled q) pieces) = doubled q (concat pieces).
Proof. induction pieces as [|p pieces IH]; [done|]. simpl. by rewrite doubled_app, IH. Qed.

Lemma write_escaped_text q pieces : (q < 128)%Z -> write_escaped pieces q = Some (doubled q (concat pieces)).
Proof.
  intros Hq. assert (E : mapM (push_csv_escaped_content q) pieces = Some (map (doubled q) pieces)).
  { induction pieces as [|p pieces IH]; [done|]. simpl. by rewrite escaped_is_doubled, IH. }
  etrans; [exact (f_equal (fmap (fun written => concat written)) E)|]. simpl. by rewrite concat_doubled.
Qed.

Section cells.
Context `{JsonTextLaws} (f : CsvTextFormat) (Hf : legal_format f).
Notation d := f.(delimiter).
Notation q := f.(quote_char).

Lemma composite_guarded v : match v with VArray _ | VObject _ => True | _ => False end -> guarded (value_to_string v) = value_to_string v.
Proof using H0.
  destruct v as [| | | |l|m]; intros Hv; try done; [destruct (array_text l) as [s E]|destruct (object_text m) as [s E]]; by rewrite E.
Qed.

Lemma enclosed content w : content = doubled q w -> csv_field d q w (q :: content ++ [q]).
Proof. intros ->. constructor. Qed.

Lemma text_value_cell v : wf_value v -> (f.(null_literal) = None \/ v <> VNull) ->
  exists w, push_csv_text_value_with_quote v q = Some w /\ csv_field d q (cell_content f v) w.
Proof using H0 Hf.
  intros Hv Hn. pose proof (legal_quote f Hf) as Hq. unfold push_csv_text_value_with_quote.
  assert (Hp : forall s, Forall (fun c => value_char c = true) s -> s = doubled q s).
  { intros s Hs. symmetry. apply doubled_id. eapply Forall_impl; [exact Hs|]. intros c Hc. by apply (value_char_plain f Hf). }
  destruct v as [|b|repr|s|l|m]; cbn [cell_content].
  - destruct Hn as [->|]; [|done]. eexists. split; [done|]. by apply (enclosed []).
  - eexists. split; [done|]. apply enclosed, Hp. destruct b; repeat constructor.
  - eexists. split; [done|]. apply enclosed, Hp, Hv.
  - destruct (quoted_field_text f Hf s) as (w & Hw & Hc & _). exists w. split; [|done]. unfold quoted_field in Hw.
    rewrite escaped_is_doubled in Hw |- * by done. simpl in Hw |- *. by rewrite <- Hw, <- app_assoc.
  - rewrite write_escaped_text by done. simpl. eexists. split; [done|]. by apply enclosed.
  - rewrite write_escaped_text by done. simpl. eexists. split; [done|]. by apply enclosed.
Qed.

(** The text written for a value is a field that holds its content. *)
Lemma value_cell v quote_null : wf_value v ->
  exists w, push_csv_value_formatted v f quote_null = Some w /\ csv_field d q (cell_content f v) w.
Proof using H0 Hf.
  intros Hv. unfold push_csv_value_formatted.
  assert (Hbare : forall s, Forall (fun c => value_char c = true) s -> csv_field d q s s).
  { intros s Hs. constructor. eapply Forall_impl; [exact Hs|]. apply (value_char_plain f Hf). }
  assert (Hn : (exists literal, v = VNull /\ f.(null_literal) = Some literal) \/ f.(null_literal) = None \/ v <> VNull)
    by (destruct v, f.(null_literal); eauto).
  destruct Hn as [(literal & -> & El)|Hn'].
  - rewrite El. destruct (field_text _ (legal_necessary f Hf) literal) as (w & Hw & Hc).
    exists w. split; [exact Hw|]. simpl. rewrite El. exact Hc.
  - destruct (text_value_cell v Hv Hn') as (w & Hw & Hc).
    case_bool_decide as Hm.
    + destruct v, f.(null_literal) eqn:El; try (exfalso; naive_solver); simpl; eauto; destruct quote_null; eauto;
        eexists; (split; [done|]); rewrite El; by constructor.
    + destruct v as [|b|repr|s|l|m]; cbn [cell_content].
      * destruct Hn' as [El|]; [|done]. rewrite El. eexists. split; [done|]. by constructor.
      * eexists. split; [done|]. apply Hbare. destruct b; repeat constructor.
      * eexists. split; [done|]. apply Hbare, Hv.
      * apply (field_text f Hf).
      * destruct (field_text f Hf (value_to_string (VArray l))) as (w' & Hw' & Hc'). exists w'. by rewrite composite_guarded in Hc'.
      * destruct (field_text f Hf (value_to_string (VObject m))) as (w' & Hw' & Hc'). exists w'. by rewrite composite_guarded in Hc'.
Qed.
End cells.

Lemma mapM_fields {A} d q (write : A -> option text) (content : A -> text) (l : list A) :
  (forall a, a ∈ l -> exists w, write a = Some w /\ csv_field d q (content a) w) ->
  exists ws, mapM write l = Some ws /\ Forall2 (csv_field d q) (map content l) ws.
Proof.
  induction l as [|a l IH]; intros Hw; [by exists []|]. destruct (Hw a ltac:(left)) as (w & E & Hc).
  destruct IH as (ws & E' & Hws); [intros b Hb; apply Hw; by right|]. exists (w :: ws). simpl. rewrite E. simpl. rewrite E'. split; [done|by constructor].
Qed.

(** Lines with the records they hold; empty lines hold none. *)
Definition kept_records (lines : list (list text * text)) : list (list text) :=
  map fst (List.filter (fun l => negb (bool_decide (l.2 = []))) lines).

Lemma joined_lines d q (lines : list (list text * text)) :
  Forall (fun l => csv_line d q l.1 l.2) lines -> csv_text d q (kept_records lines) (join [c_lf] (map snd lines)).
Proof.
  induction 1 as [|[record line] lines Hl Hrest IH]; [constructor|]. unfold kept_records in *. cbn [List.filter map].
  destruct lines as [|l lines].
  - simpl in *. case_bool_decide as E; simpl in *; [subst; constructor|]. by constructor.
  - change (join [c_lf] (map snd ((record, line) :: l :: lines))) with (line ++ [c_lf] ++ join [c_lf] (map snd (l :: lines))).
    cbn [snd] in *. case_bool_decide as E; cbn [negb map fst] in *; [subst; simpl; by constructor|]. by constructor.
Qed.

Lemma terminated_line d q record line t records :
  csv_line d q record line -> csv_text d q records t ->
  csv_text d q ((if bool_decide (line = []) then [] else [record]) ++ records) (line ++ c_lf :: t).
Proof. intros Hl Ht. case_bool_decide as E; simpl; [subst; by constructor|by constructor]. Qed.

Section files.
Context `{JsonTextLaws} (f : CsvTextFormat) (Hf : legal_format f).
Notation d := f.(delimiter).
Notation q := f.(quote_char).

Definition row_record (row : list Value) : list text := map (cell_content f) row.

Lemma row_line row : Forall wf_value row ->
  exists line, push_query_result_csv_row_with_format row f = Some line /\ csv_line d q (row_record row) line.
Proof using H0 Hf.
  intros Hr. destruct (mapM_fields d q (fun cell => push_csv_value_formatted cell f false) (cell_content f) row) as (ws & E & Hws).
  { intros v Hv. apply (value_cell f Hf). rewrite Forall_forall in Hr. by apply Hr. }
  exists (join [d] ws). split; [|by exists ws]. exact (f_equal (fmap (join [d])) E).
Qed.

Lemma row_lines rows : Forall (Forall wf_value) rows ->
  exists lines, mapM (fun row => push_query_result_csv_row_with_format row f) rows = Some lines /\
    Forall (fun l => csv_line d q l.1 l.2) (zip (map row_record rows) lines) /\ length lines = length rows /\
    Forall2 (fun row line => push_query_result_csv_row_with_format row f = Some line) rows lines.
Proof using H0 Hf.
  induction 1 as [|row rows Hr _ IH]; [by exists []|]. destruct (row_line row Hr) as (line & E & Hl), IH as (lines & E' & Hls & Hlen & Hp).
  exists (line :: lines). simpl. rewrite E. simpl. rewrite E'. split_and!; [done|by constructor|by simpl; f_equal|by constructor].
Qed.

Lemma header_line columns :
  exists line, (join [d] <$> mapM (fun column => push_csv_field_with_format column f) columns) = Some line /\
    csv_line d q (map guarded columns) line.
Proof using Hf.
  destruct (mapM_fields d q (fun column => push_csv_field_with_format column f) guarded columns) as (ws & E & Hws).
  { intros column _. apply (field_text f Hf). }
  exists (join [d] ws). split; [exact (f_equal (fmap (join [d])) E)|by exists ws].
Qed.

(** A row whose line is empty: it has no cells, or one that is written as the
    empty text. *)
Definition blank_row (row : list Value) : bool :=
  match push_query_result_csv_row_with_format row f with Some [] => true | _ => false end.

Lemma kept_rows rows lines :
  Forall2 (fun row line => push_query_result_csv_row_with_format row f = Some line) rows lines ->
  kept_records (zip (map row_record rows) lines) = map row_record (List.filter (fun row => negb (blank_row row)) rows).
Proof.
  induction 1 as [|row line rows lines E _ IH]; [done|]. unfold kept_records in *. simpl. unfold blank_row at 1. rewrite E.
  destruct line; case_bool_decide; simpl; by rewrite ?IH.
Qed.

(** The line of the header is empty only for no columns, or one without a name
    that is not quoted. *)
Definition header_records (columns : list text) : list (list text) :=
  if f.(include_header) then
    match join [d] <$> mapM (fun column => push_csv_field_with_format column f) columns with
    | Some [] => []
    | _ => [map guarded columns]
    end
  else [].

Definition scalar_value (v : Value) : bool := match v with VBool _ | VNumber _ => true | _ => false end.

Lemma cells_inert :
  (forall v, scalar_value v = false -> needs_formula_guard (cell_content f v) = false) /\
  (forall s, strip_formula_guard (cell_content f (VString s)) = s) /\
  (forall column, needs_formula_guard (guarded column) = false /\ strip_formula_guard (guarded column) = column).
Proof using H0.
  split_and!; [|intros s; apply guarded_strips|intros s; split; [apply guarded_inert|apply guarded_strips]].
  intros [| | |s|l|m] Hv; try done; cbn [cell_content].
  - destruct f.(null_literal); [apply guarded_inert|done].
  - apply guarded_inert.
  - destruct (array_text l) as [u Eu]. by rewrite Eu.
  - destruct (object_text m) as [u Eu]. by rewrite Eu.
Qed.

Lemma formatted_is_csv columns rows :
  Forall (Forall wf_value) rows ->
  exists t, format_csv_with_format columns rows f = Some t /\
    csv_text d q (header_records columns ++ map row_record (List.filter (fun row => negb (blank_row row)) rows)) t.
Proof using H0 Hf.
  intros Hr. destruct (row_lines rows Hr) as (lines & E & Hl & Hlen & Hp), (header_line columns) as (header & Eh & Hh).
  pose proof (joined_lines d q _ Hl) as Hbody. rewrite snd_zip in Hbody by (rewrite length_map; lia). rewrite (kept_rows _ _ Hp) in Hbody.
  assert (Eb : (join [c_lf] <$> mapM (fun row => push_query_result_csv_row_with_format row f) rows) = Some (join [c_lf] lines))
    by exact (f_equal (fmap (join [c_lf])) E).
  unfold format_csv_with_format, header_records. destruct f.(include_header).
  - assert (Eh' : ((fun fields => join [d] fields ++ [c_lf]) <$> mapM (fun column => push_csv_field_with_format column f) columns)
      = Some (header ++ [c_lf])).
    { destruct (mapM (fun column => push_csv_field_with_format column f) columns); simplify_eq/=. done. }
    rewrite Eh', Eh. cbn [mbind option_bind]. rewrite Eb. eexists. split; [done|].
    rewrite <- app_assoc. pose proof (terminated_line d q _ _ _ _ Hh Hbody) as Ht. by destruct header.
  - cbn [mbind option_bind]. rewrite Eb. eexists. split; [done|]. done.
Qed.

(** An exported file is CSV.  In every mode that quotes, with a delimiter and a
    quote character that can be told from line ends, numbers and the guard,
    formatting never panics and the text is CSV of exactly the header and the
    rows, cell by cell (rows whose line is empty, which readers skip, left out);
    no cell but a number or a truth value, and no name of a column, starts a
    spreadsheet formula, and the text of a cell is got back by taking the guard
    off. *)
Theorem exported_file_is_csv columns rows :
  Forall (Forall wf_value) rows ->
  exists t, format_csv_with_format columns rows f = Some t /\
    csv_text d q (header_records columns ++ map row_record (List.filter (fun row => negb (blank_row row)) rows)) t /\
    (forall v, scalar_value v = false -> needs_formula_guard (cell_content f v) = false) /\
    (forall s, strip_formula_guard (cell_content f (VString s)) = s) /\
    (forall column, needs_formula_guard (guarded column) = false /\ strip_formula_guard (guarded column) = column).
Proof using H0 Hf.
  intros Hr. destruct (formatted_is_csv columns rows Hr) as (t & E & Ht). exists t. split; [done|]. split; [done|apply cells_inert].
Qed.
End files.

(** ** A reader *)

(** The states of the [csv] crate's automaton. *)
Module CsvMachine.
Inductive state := StartRecord | StartField | InField | InQuoted | AfterQuote.

Definition line_end (c : Z) : bool := (c =? c_lf)%Z || (c =? c_cr)%Z.

Fixpoint scan (d q : Z) (st : state) (field : text) (fields : list text) (s : text) : list (list text) :=
  match s with
  | [] => match st with StartRecord => [] | _ => [fields ++ [field]] end
  | c :: s =>
    let unquoted :=
      if (c =? d)%Z then scan d q StartField [] (fields ++ [field]) s
      else if line_end c then (fields ++ [field]) :: scan d q StartRecord [] [] s
      else scan d q InField (field ++ [c]) fields s in
    match st with
    | StartRecord => if line_end c then scan d q StartRecord [] [] s else if (c =? q)%Z then scan d q InQuoted [] [] s else unquoted
    | StartField => if (c =? q)%Z then scan d q InQuoted field fields s else unquoted
    | InField => unquoted
    | InQuoted => if (c =? q)%Z then scan d q AfterQuote field fields s else scan d q InQuoted (field ++ [c]) fields s
    | AfterQuote => if (c =? q)%Z then scan d q InQuoted (field ++ [c]) fields s else unquoted
    end
  end.

Definition read (d q : Z) (s : text) : list (list text) := scan d q StartRecord [] [] s.

Section machine.
Context (d q : Z) (Hdq : d <> q) (Hd : line_end d = false) (Hq : line_end q = false).

(** What is left after a field. *)
Definition field_end (rest : text) : Prop := match rest with [] => True | c :: _ => c = d \/ c = c_lf end.

Definition after_field (content : text) (fields : list text) (rest : text) : list (list text) :=
  match rest with
  | [] => [fields ++ [content]]
  | c :: rest => if (c =? d)%Z then scan d q StartField [] (fields ++ [content]) rest else (fields ++ [content]) :: scan d q StartRecord [] [] rest
  end.

Lemma lf_not_delimiter : (c_lf =? d)%Z = false.
Proof using Hd. apply Z.eqb_neq. intros E. by rewrite <- E in Hd. Qed.

Lemma ended st content fields rest : field_end rest -> st = InField \/ st = AfterQuote -> scan d q st content fields rest = after_field content fields rest.
Proof using Hd Hdq Hq.
  intros He Hst. assert (Hlf : (c_lf =? q)%Z = false) by (apply Z.eqb_neq; intros E; by rewrite <- E in Hq). pose proof lf_not_delimiter as Hld.
  destruct rest as [|c rest]; [by destruct Hst as [->| ->]|]. simpl in He. destruct Hst as [->| ->], He as [->| ->]; cbn [scan after_field].
  - by rewrite Z.eqb_refl.
  - by rewrite Hld.
  - rewrite (proj2 (Z.eqb_neq d q)) by done. by rewrite Z.eqb_refl.
  - by rewrite Hlf, Hld.
Qed.

Lemma plain_not c : plain_char d q c -> (c =? d)%Z = false /\ (c =? q)%Z = false /\ line_end c = false.
Proof. intros (H1 & H2 & H3 & H4). unfold line_end. by rewrite !(proj2 (Z.eqb_neq _ _)). Qed.

Lemma scan_bare s content fields rest : Forall (plain_char d q) s -> field_end rest ->
  scan d q InField content fields (s ++ rest) = after_field (content ++ s) fields rest.
Proof using Hd Hdq Hq.
  intros Hs He. revert content. induction Hs as [|c s Hc _ IH]; intros content; [rewrite app_nil_r; apply ended; auto|].
  destruct (plain_not c Hc) as (H1 & H2 & H3). cbn [app scan]. rewrite H1, H3, IH, <- app_assoc. done.
Qed.

Lemma scan_quoted s content fields rest : field_end rest ->
  scan d q InQuoted content fields (doubled q s ++ q :: rest) = after_field (content ++ s) fields rest.
Proof using Hd Hdq Hq.
  intros He. revert content. induction s as [|c s IH]; intros content.
  - cbn [doubled map concat app scan]. rewrite Z.eqb_refl, app_nil_r. apply ended; auto.
  - unfold doubled in *. cbn [map concat]. destruct (Z.eqb_spec c q) as [->|Hc].
    + cbn [app scan]. rewrite !Z.eqb_refl, IH, <- app_assoc. done.
    + cbn [app scan]. rewrite (proj2 (Z.eqb_neq c q)), IH, <- app_assoc by done. done.
Qed.

Lemma scan_field content w fields rest : csv_field d q content w -> field_end rest ->
  scan d q StartField [] fields (w ++ rest) = after_field content fields rest.
Proof using Hd Hdq Hq.
  intros Hw He. destruct Hw as [s Hs|s].
  - destruct Hs as [|c s Hc Hs].
    + destruct rest as [|c rest]; [done|]. cbn [app]. rewrite <- (ended InField) by auto. cbn [scan].
      destruct He as [->| ->]; [by rewrite (proj2 (Z.eqb_neq d q))|]. rewrite (proj2 (Z.eqb_neq c_lf q)); [done|]. intros E. by rewrite <- E in Hq.
    + destruct (plain_not c Hc) as (H1 & H2 & H3). cbn [app scan]. rewrite H1, H2, H3. exact (scan_bare s [c] fields rest Hs He).
  - cbn [app scan]. rewrite Z.eqb_refl, <- app_assoc. exact (scan_quoted s [] fields rest He).
Qed.

Lemma scan_fields contents ws fields rest : Forall2 (csv_field d q) contents ws -> contents <> [] -> (rest = [] \/ exists r, rest = c_lf :: r) ->
  scan d q StartField [] fields (join [d] ws ++ rest) =
    (fields ++ contents) :: match rest with [] => [] | _ :: r => scan d q StartRecord [] [] r end.
Proof using Hd Hdq Hq.
  intros Hw Hne Hrest. revert fields. induction Hw as [|content w contents ws Hc Hw IH]; [done|]. intros fields.
  destruct Hw as [|content' w' contents ws Hc' Hw].
  - cbn [join]. rewrite (scan_field _ _ _ _ Hc).
    + destruct Hrest as [->|[r ->]]; [done|]. unfold after_field. by rewrite lf_not_delimiter.
    + destruct Hrest as [->|[r ->]]; simpl; auto.
  - change (join [d] (w :: w' :: ws)) with (w ++ [d] ++ join [d] (w' :: ws)). rewrite <- !app_assoc.
    rewrite (scan_field _ _ _ _ Hc) by (simpl; auto). cbn [app after_field]. rewrite Z.eqb_refl.
    specialize (IH ltac:(done) (fields ++ [content])). cbn [app] in IH. rewrite IH, <- app_assoc. done.
Qed.

Lemma scan_csv_line contents line rest : csv_line d q contents line -> line <> [] -> (rest = [] \/ exists r, rest = c_lf :: r) ->
  scan d q StartRecord [] [] (line ++ rest) = contents :: match rest with [] => [] | _ :: r => scan d q StartRecord [] [] r end.
Proof using Hd Hdq Hq.
  intros (ws & Hw & ->) Hl Hrest. assert (Hne : contents <> []) by (intros ->; by inversion Hw; subst).
  etrans; [|exact (scan_fields contents ws [] rest Hw Hne Hrest)].
  assert (Hfirst : exists c r, join [d] ws = c :: r /\ line_end c = false).
  { destruct Hw as [|content w contents ws Hc Hw]; [done|]. destruct Hc as [s [|c s' Hc]|s].
    - destruct Hw as [|content' w' contents ws Hc' Hw]; [done|]. by exists d, (join [d] (w' :: ws)).
    - destruct (plain_not c Hc) as (_ & _ & Hc'). destruct Hw; by eexists c, _.
    - destruct Hw; by eexists q, _. }
  destruct Hfirst as (c & r & -> & Hc). cbn [app scan]. by rewrite Hc.
Qed.

Lemma reads_csv_text records t : csv_text d q records t -> read d q t = records.
Proof using Hd Hdq Hq.
  unfold read. induction 1 as [|records t _ IH|fields line Hl Hne|fields line records t Hl Hne _ IH]; [done|exact IH| |].
  - pose proof (scan_csv_line fields line [] Hl Hne) as E. rewrite app_nil_r in E. by apply E; left.
  - rewrite (scan_csv_line fields line (c_lf :: t) Hl Hne) by eauto. by rewrite IH.
Qed.
End machine.

#[export] Instance reader : CsvReader := fun d t => read d c_quote t.

#[export] Instance reader_laws : CsvReaderLaws.
Proof.
  intros d records t H1 H2 H3 Ht. apply reads_csv_text; [done| |done|done]. unfold line_end. by rewrite !(proj2 (Z.eqb_neq _ _)).
Qed.
End CsvMachine.

(** ** Page by page *)

Section pages.
Import Pages.
Context `{JsonText} {Host : Type} (respond : text -> QueryExecutionOptions -> M Host (result QueryResult text)).
Context (close : text -> text -> text -> M Host unit) (build : Z -> Z -> text).

(** A disk that takes every write beside a server of any kind, with a state of its
    own: it may answer what it likes, and the same request twice in two ways. *)
Notation W := (text * Host)%type.
Definition append_write (s : text) : M W (result unit text) := fun '(file, server) => (Ok tt, (file ++ s, server)).
Definition no_flush : M W (result unit text) := ret (Ok tt).
Definition new_file (_ : text) : M W (result unit text) := fun '(_, server) => (Ok tt, ([], server)).
Definition ask (sql : text) (options : QueryExecutionOptions) : M W (result QueryResult text) := fun '(file, server) =>
  let '(r, server') := respond sql options server in (r, (file, server')).
Definition close_session (connection database id : text) : M W unit := fun '(file, server) => (tt, (file, (close connection database id server).2)).

Lemma wrote s file server : failing (append_write s) (file, server) = (Ok tt, (file ++ s, server)).
Proof. done. Qed.

Lemma write_fields_text {A} (render : A -> option text) d first values ws file server : mapM render values = Some ws ->
  write_fields append_write render d first values (file, server) = (Ok tt, (file ++ (if first then join [d] ws else concat (map (cons d) ws)), server)).
Proof.
  revert first ws file. induction values as [|v values IH]; intros first ws file E; simpl in E.
  { injection E as <-. simpl. by destruct first; rewrite app_nil_r. }
  destruct (render v) as [w|] eqn:Ev; [|done]. simpl in E. destruct (mapM render values) as [ws'|] eqn:Es; [|done]. injection E as <-.
  cbn [write_fields]. rewrite (try_run _ _ (file, server) tt (file ++ (if first then [] else [d]), server)) by (destruct first; [by rewrite app_nil_r|done]).
  rewrite (try_run _ _ _ w _) by (by rewrite Ev). rewrite (try_run _ _ _ tt _) by apply wrote. rewrite (IH false _ _ eq_refl), <- !app_assoc.
  destruct first; [by rewrite join_first|done].
Qed.

Context (f : CsvTextFormat).
Notation line_of row := (push_query_result_csv_row_with_format row f).

Lemma write_page_text rows (lines : list text) file server : mapM (fun row => line_of row) rows = Some lines ->
  write_page append_write rows f (file, server) = (Ok tt, (file ++ concat (map (cons c_lf) lines), server)).
Proof.
  revert lines file. induction rows as [|row rows IH]; intros lines file E; simpl in E; [injection E as <-; simpl; by rewrite app_nil_r|].
  destruct (line_of row) as [line|] eqn:El; [|done]. simpl in E. destruct (mapM (fun row => line_of row) rows) as [ls|] eqn:Es; [|done]. injection E as <-.
  unfold push_query_result_csv_row_with_format in El. destruct (mapM _ row) as [ws|] eqn:Ew; [|done]. simpl in El. injection El as <-.
  cbn [write_page]. rewrite (try_run _ _ _ tt _) by apply wrote.
  rewrite (try_run _ _ _ tt _) by exact (write_fields_text _ _ true _ _ _ _ Ew). rewrite (IH _ _ eq_refl), <- !app_assoc. done.
Qed.

Context (cursor : bool) (size : Z) (options : TableCsvExportOptions) (client : option text).

(** The request for a page. *)
Definition page_options (session : option text) : QueryExecutionOptions :=
  {| max_rows := Some (if cursor then i32_max else size); fetch_size := if cursor then Some size else None;
     page_size := if cursor then Some size else None; result_session_id := session; client_session_id := client;
     timeout_secs := options.(export_timeout_secs) |}.

(** The page ends the table: by offsets one that is not full, by a cursor one that
    says so.  Otherwise [next] is the session to go on with. *)
Definition ends (r : QueryResult) : Prop :=
  if cursor then r.(truncated) = false /\ r.(has_more) = false else (Z.of_nat (length r.(rows)) < size)%Z.
Definition goes_on (r : QueryResult) (next : option text) : Prop :=
  if cursor then r.(truncated) = false /\ r.(has_more) = true /\ exists session, r.(session_id) = Some session /\ trim session <> [] /\ next = Some session
  else (size <= Z.of_nat (length r.(rows)))%Z /\ next = None.

(** The pages that the server answers, each asked for at the offset of the rows that
    came before it and with the session of the last, until one ends the table. *)
Inductive answered : option text -> Z -> Host -> list QueryResult -> Host -> Prop :=
| last_page session offset server r server' :
    respond (build size offset) (page_options session) server = (Ok r, server') -> ends r -> answered session offset server [r] server'
| next_page session offset server r server' next pages server'' :
    respond (build size offset) (page_options session) server = (Ok r, server') -> goes_on r next ->
    answered next (offset + Z.of_nat (length r.(rows))) server' pages server'' -> answered session offset server (r :: pages) server''.

Definition sent_rows (pages : list QueryResult) : list (list Value) := concat (map rows pages).

Lemma complete_ends r : ends r -> exists next, page_complete cursor size r = Ok (true, next).
Proof. unfold ends, page_complete. destruct cursor; [intros [-> ->]; by eexists|]. intros Hl. eexists. by rewrite (proj2 (Z.ltb_lt _ _) Hl). Qed.

Lemma complete_goes_on r next : goes_on r next -> page_complete cursor size r = Ok (false, next).
Proof.
  unfold goes_on, page_complete. destruct cursor.
  - intros (-> & -> & session & -> & Ht & ->). rewrite (bool_decide_eq_false_2 _ Ht). done.
  - intros [Hl ->]. by rewrite (proj2 (Z.ltb_ge _ _) Hl).
Qed.

(** The header is written before the first page. *)
Definition before_rows (header : text) (wrote_header : bool) : text := if wrote_header then [] else if f.(include_header) then header else [].

Lemma pages_loop_text session offset server pages server' : answered session offset server pages server' ->
  forall fuel n header wrote_header (lines : list text) file, length pages <= fuel -> mapM (fun row => line_of row) (sent_rows pages) = Some lines ->
  (f.(include_header) = true -> exists r ws, head pages = Some r /\ mapM (fun column => push_csv_field_with_format column f) r.(columns) = Some ws /\
    header = join [f.(delimiter)] ws) \/ wrote_header = true ->
  pages_loop append_write ask build fuel cursor size options client f session offset n wrote_header (file, server) =
    (Ok (n + Z.of_nat (length (sent_rows pages)))%Z, (file ++ before_rows header wrote_header ++ concat (map (cons c_lf) lines), server')).
Proof.
  unfold sent_rows. induction 1 as [session offset server r server' Hr He|session offset server r server' next pages server'' Hr Hg Ha IH];
    intros fuel n header wrote_header lines file Hfuel Hlines Hheader; (destruct fuel as [|fuel]; [cbn in Hfuel; lia|]); cbn [pages_loop map concat] in *.
  all: fold (page_options session); rewrite (try_run _ _ _ r (file, server')) by (unfold failing, bind, ask; by rewrite Hr).
  all: assert (Hhead : (if wrote_header then ret (Ok tt) else if f.(include_header) then write_csv_text_row_with_format append_write r.(columns) f else ret (Ok tt))
      (file, server') = (Ok tt, (file ++ before_rows header wrote_header, server')))
    by (unfold before_rows; destruct wrote_header; [by rewrite app_nil_r|]; destruct f.(include_header); [|by rewrite app_nil_r];
        destruct Hheader as [Hh|]; [|done]; destruct (Hh eq_refl) as (r' & ws & [= <-] & Ew & ->); exact (write_fields_text _ _ true _ _ _ _ Ew)).
  - destruct (complete_ends r He) as [next Hc]. rewrite app_nil_r in *. rewrite (try_run _ _ _ (true, next) (file, server')) by (by rewrite Hc).
    rewrite (try_run _ _ _ tt _) by exact Hhead. rewrite (try_run _ _ _ tt _) by (by apply write_page_text). unfold ret. by rewrite <- app_assoc.
  - rewrite (try_run _ _ _ (false, next) (file, server')) by (by rewrite (complete_goes_on r next Hg)).
    apply mapM_Some in Hlines. apply Forall2_app_inv_l in Hlines as (l1 & l2 & H1 & H2 & ->).
    rewrite (try_run _ _ _ tt _) by exact Hhead. rewrite (try_run _ _ _ tt _) by (by apply write_page_text, mapM_Some).
    rewrite (IH fuel (n + Z.of_nat (length r.(rows)))%Z header true l2) by (by right || by apply mapM_Some || (cbn in Hfuel; lia)).
    cbn [before_rows app]. rewrite length_app, map_app, concat_app, <- !app_assoc. do 2 f_equal. lia.
Qed.
End pages.

Section exports.
Import Pages.
Context `{JsonText} {Host : Type} (respond : text -> QueryExecutionOptions -> M Host (result QueryResult text)).
Context (close : text -> text -> text -> M Host unit) (build : Z -> Z -> text).

Lemma lines_after_header (lines : list text) : lines <> [] -> concat (map (cons c_lf) lines) = c_lf :: join [c_lf] lines.
Proof. destruct lines as [|line lines]; [done|]. intros _. by rewrite join_first. Qed.

Lemma formatted_parts names table f t : format_csv_with_format names table f = Some t ->
  exists lines ws, mapM (fun row => push_query_result_csv_row_with_format row f) table = Some lines /\
    (f.(include_header) = true -> mapM (fun column => push_csv_field_with_format column f) names = Some ws) /\
    t = (if f.(include_header) then join [f.(delimiter)] ws ++ [c_lf] else []) ++ join [c_lf] lines.
Proof.
  unfold format_csv_with_format. destruct (mapM (fun row => _) table) as [lines|] eqn:El; cbn [fmap option_fmap option_map mbind option_bind].
  2: { by destruct (if f.(include_header) then _ else _). }
  destruct f.(include_header); [|intros [= <-]; by exists lines, []].
  destruct (mapM _ names) as [ws|] eqn:Ew; simpl; [|done]. intros [= <-]. by exists lines, ws.
Qed.

(** The size of a page: a cursor has a bound. *)
Definition requested_size (cursor : bool) (options : TableCsvExportOptions) : Z :=
  let size := Z.max (default TABLE_DATA_EXPORT_PAGE_SIZE options.(export_page_size)) 1 in if cursor then Z.min size TABLE_DATA_EXPORT_PAGE_SIZE else size.

Lemma written_pages database_type options client server pages server' r t fuel bom :
  let cursor := bool_decide (database_type = DatabaseType.Cassandra) in
  answered respond build cursor (requested_size cursor options) options client None 0 server pages server' ->
  length pages <= fuel -> head pages = Some r -> format_csv_with_format r.(columns) (sent_rows pages) (export_format options) = Some t ->
  write_table_csv_pages append_write no_flush (ask respond) build fuel database_type options client (bom, server) =
    (Ok (Z.of_nat (length (sent_rows pages))), (bom ++ (if options.(csv_include_header) then t else c_lf :: t), server')).
Proof.
  intros cursor Ha Hfuel Hr Ht. destruct (formatted_parts _ _ _ _ Ht) as (lines & ws & El & Ew & ->). clear Ht.
  set (f := export_format options) in *.
  pose proof (pages_loop_text respond build f cursor (requested_size cursor options) options client None 0 server pages server' Ha
    fuel 0 (join [f.(delimiter)] ws) false lines bom Hfuel El (or_introl (fun Eh => ex_intro _ r (ex_intro _ ws (conj Hr (conj (Ew Eh) eq_refl)))))) as Hloop.
  unfold write_table_csv_pages. fold cursor. cbv beta iota zeta. fold f. fold (requested_size cursor options).
  rewrite (try_run _ _ _ _ _ Hloop). rewrite Z.add_0_l.
  assert (Hll : length lines = length (sent_rows pages)) by (symmetry; eapply Forall2_length, mapM_Some_1, El).
  unfold before_rows. change (f.(include_header)) with options.(csv_include_header). destruct (decide (lines = [])) as [->|Hne].
  - cbn [length] in Hll. rewrite <- Hll. cbn [Z.of_nat Z.eqb]. rewrite (try_run _ _ _ tt _) by apply wrote. unfold no_flush, failing.
    rewrite (try_run _ _ _ tt _) by done. unfold ret. f_equal. destruct options.(csv_include_header); simpl; by rewrite ?app_nil_r, <- ?app_assoc.
  - assert ((Z.of_nat (length (sent_rows pages)) =? 0)%Z = false) as -> by (apply Z.eqb_neq; destruct lines; simpl in *; [done|lia]).
    rewrite (try_run _ _ _ tt _) by done. rewrite (try_run _ _ _ tt _) by done. unfold ret. f_equal. rewrite lines_after_header by done.
    destruct options.(csv_include_header); simpl; by rewrite <- ?app_assoc.
Qed.

(** C26. An export of a table writes what the server sends, all of it and once.  For any
    server, with a state of its own, on every database type but Salesforce, whose export
    is refused: if the server answers the requests with pages, each asked for at the
    offset of the rows before it (Cassandra: with the session of the last page), until
    one that ends the table, if no cell panics and the disk takes every write, then the
    export ends after these pages with the number of their rows, and the file is the mark
    of the encoding, unless it is left out, and the rows of the pages in order under the
    columns of the first, formatted at once; without a header an empty line comes first
    ([headerless_pages]).  That the pages of a server make up a table is not claimed:
    rows asked for without an order may come twice or not at all. *)
Theorem table_export_is_complete database_type uuid options server pages server' r t file fuel :
  let cursor := bool_decide (database_type = DatabaseType.Cassandra) in
  let client := if cursor then Some (txt "table-export:" ++ uuid) else None in
  answered respond build cursor (requested_size cursor options) options client None 0 server pages server' ->
  length pages <= fuel -> head pages = Some r -> format_csv_with_format r.(columns) (sent_rows pages) (export_format options) = Some t ->
  (export_table_data_csv_core append_write no_flush (ask respond) build new_file (close_session close) fuel (Some DatabaseType.Salesforce) uuid options
    (file, server)).2 = (file, server) /\
  (database_type <> DatabaseType.Salesforce ->
   export_table_data_csv_core append_write no_flush (ask respond) build new_file (close_session close) fuel (Some database_type) uuid options (file, server) =
    (Ok (Z.of_nat (length (sent_rows pages))),
     ((if options.(csv_without_bom) then [] else [65279%Z]) ++ (if options.(csv_include_header) then t else c_lf :: t),
      if cursor then (close options.(connection_id) options.(database) (txt "table-export:" ++ uuid) server').2 else server'))).
Proof.
  intros cursor client Ha Hfuel Hr Ht. split; [done|]. intros Hs. set (bom := (if options.(csv_without_bom) then [] else [65279%Z]) : text).
  unfold export_table_data_csv_core. rewrite (bool_decide_eq_false_2 _ Hs). cbv beta iota. rewrite (try_run _ _ _ tt ([] : text, server)) by done.
  rewrite (try_run _ _ _ tt (bom, server)) by (unfold bom; by destruct options.(csv_without_bom)). fold cursor. fold client.
  rewrite (bind_run _ _ _ _ _ (written_pages database_type options client server pages server' r t fuel bom Ha Hfuel Hr Ht)).
  unfold client. by destruct cursor.
Qed.

(** A server that answers a page with the rows of one table at its offset sends the
    table, in as many pages as it fills. *)
Definition page_of (table : list (list Value)) (names : list text) (size offset : Z) : QueryResult :=
  {| columns := names; rows := take (Z.to_nat size) (drop (Z.to_nat offset) table); truncated := false; session_id := None; has_more := false |}.

Theorem stable_server_sends_the_table table names size options client server k :
  (forall size offset options server, respond (build size offset) options server = (Ok (page_of table names size offset), server)) ->
  (0 < size)%Z -> k <= length table ->
  exists pages, answered respond build false size options client None (Z.of_nat k) server pages server /\ sent_rows pages = drop k table /\
    columns <$> head pages = Some names /\ length pages = S ((length table - k) / Z.to_nat size).
Proof.
  intros Hans Hsize. remember (length table - k) as n eqn:Hn. revert k Hn. induction n as [n IH] using lt_wf_ind. intros k Hn Hk.
  set (r := page_of table names size (Z.of_nat k)).
  assert (Hr : r.(rows) = take (Z.to_nat size) (drop k table)) by (unfold r, page_of; cbn; by rewrite Nat2Z.id).
  assert (Hl : length r.(rows) = Nat.min (Z.to_nat size) n) by (rewrite Hr, length_take, length_drop; lia).
  destruct (decide (n < Z.to_nat size)) as [Hlt|Hge].
  - exists [r]. unfold sent_rows. cbn [map concat head length]. rewrite app_nil_r, Hr, take_ge by (rewrite length_drop; lia).
    rewrite Nat.div_small by done. split_and!; try done. eapply last_page; [apply Hans|]. unfold ends. rewrite Hl. lia.
  - destruct (IH (n - Z.to_nat size) ltac:(lia) (k + Z.to_nat size)) as (pages & Ha & Hrows & Hc & Hp); [lia..|].
    exists (r :: pages). unfold sent_rows in *. cbn [map concat head length]. rewrite Hrows, Hr, <- drop_drop, take_drop, Hp. split_and!; try done.
    + eapply next_page; [apply Hans|unfold goes_on; rewrite Hl; split; [lia|done]|]. rewrite Hl, Nat.min_l by lia.
      by replace (Z.of_nat k + Z.of_nat (Z.to_nat size))%Z with (Z.of_nat (k + Z.to_nat size)) by lia.
    + f_equal. replace n with ((n - Z.to_nat size) + 1 * Z.to_nat size) at 2 by lia. rewrite Nat.div_add by lia. lia.
Qed.
End exports.

(** ** Runs *)

Module ExportRuns.
Import Pages.

(** A printer without escapes. *)
Fixpoint print (v : Value) : text :=
  match v with
  | VNull => txt "null"
  | VBool b => bool_text b
  | VNumber repr => repr
  | VString s => c_quote :: s ++ [c_quote]
  | VArray l => [91%Z] ++ join [c_comma] (map print l) ++ [93%Z]
  | VObject m => [123%Z] ++ join [c_comma] (map (fun '(k, v) => c_quote :: k ++ [c_quote; 58%Z] ++ print v) m) ++ [125%Z]
  end.

#[export] Instance printer : JsonText := {| fragments := fun v => [print v]; to_string_pretty := fun l => Ok (print (VArray l)) |}.

#[export] Instance printer_laws : JsonTextLaws.
Proof. split; intros; by eexists. Qed.

Definition semicolons (mode : CsvQuoteMode) : CsvTextFormat :=
  {| quote_mode := mode; delimiter := 59; quote_char := c_quote; include_header := true; null_literal := Some (txt "NULL") |}.

Lemma semicolons_legal mode : mode <> QuoteNever -> legal_format (semicolons mode).
Proof. intros Hm. constructor; [done..|split; [set_solver|done]|split; [set_solver|done]]. Qed.

Definition names : list text := [txt "id"; txt "=note"].
Definition table : list (list Value) :=
  [[VNumber (txt "-1"); VString (txt "=1+2;3")]; [VNull; VString []]; [VBool true; VArray [VNumber (txt "1"); VNull]]].

Lemma table_wf : Forall (Forall wf_value) table.
Proof. repeat constructor; done. Qed.

(** A formula, a delimiter inside a text, NULL and an array. *)
Lemma exported_file_is_csv_witness :
  format_csv_with_format names table (semicolons QuoteNecessary) =
    Some (txt "id;'=note" ++ [10%Z] ++ txt "-1;" ++ [34%Z] ++ txt "'=1+2;3" ++ [34; 10]%Z ++ txt "NULL;" ++ [10%Z] ++ txt "true;[1,null]") /\
  exists t, format_csv_with_format names table (semicolons QuoteNecessary) = Some t /\
    csv_text 59 c_quote
      [[txt "id"; txt "'=note"]; [txt "-1"; txt "'=1+2;3"]; [txt "NULL"; []]; [txt "true"; txt "[1,null]"]] t.
Proof.
  split; [vm_compute; reflexivity|].
  destruct (exported_file_is_csv (semicolons QuoteNecessary) (semicolons_legal QuoteNecessary ltac:(done)) names table table_wf) as (t & E & Ht & _).
  exists t. split; [exact E|exact Ht].
Defined.

(** A server that answers [size offset] with the rows at the offset, and counts. *)
Definition server (sql : text) (options : QueryExecutionOptions) : M nat (Prelude.result QueryResult text) := fun asked =>
  match sql with [size; offset] => (Ok (page_of table names size offset), S asked) | _ => (Err (txt "syntax"), asked) end.
Definition close_none (_ _ _ : text) : M nat unit := ret tt.
Definition statement_at (size offset : Z) : text := [size; offset].

Definition two_rows_a_page (header : bool) : TableCsvExportOptions :=
  {| file_path := txt "t.csv"; connection_id := txt "c"; database := txt "d"; schema := None; table_name := txt "t"; export_columns := names;
     export_page_size := Some 2%Z; export_timeout_secs := None; csv_quote_mode := QuoteAll; csv_delimiter := [59%Z]; csv_quote_char := [34%Z];
     csv_include_header := header; csv_without_bom := true; export_null_literal := txt "NULL" |}.

Definition exported (header : bool) : Prelude.result Z Failure * (text * nat) :=
  export_table_data_csv_core append_write no_flush (ask server) statement_at new_file (close_session close_none) 2
    (Some DatabaseType.Postgres) (txt "u") (two_rows_a_page header) ([], 0).

(** Three rows in two pages, and what a disk that refuses to write gives. *)
Lemma table_export_is_complete_witness : exists t, format_csv_with_format names table (semicolons QuoteAll) = Some t /\
  exported true = (Ok 3%Z, (t, 2)) /\
  (export_table_data_csv_core (fun _ => ret (Err (txt "disk full"))) no_flush (ask server) statement_at new_file (close_session close_none) 2
    (Some DatabaseType.Postgres) (txt "u") (two_rows_a_page true) ([], 0)).1 = Err (Failed (txt "disk full")).
Proof.
  assert (exists t, format_csv_with_format names table (semicolons QuoteAll) = Some t) as [t Ht] by (eexists; vm_compute; reflexivity).
  exists t. split; [exact Ht|]. split; [|vm_compute; reflexivity].
  apply (table_export_is_complete server close_none statement_at DatabaseType.Postgres (txt "u") (two_rows_a_page true) 0
    [page_of table names 2 0; page_of table names 2 2] 2 (page_of table names 2 0) t [] 2); [|done|done|exact Ht|done].
  eapply next_page; [reflexivity|split; [vm_compute; discriminate|reflexivity]|]. eapply last_page; [reflexivity|vm_compute; reflexivity].
Defined.

(** Without a header the pages start with an empty line, which the text formatted
    at once does not have. *)
Example headerless_pages : exists t,
  format_csv_with_format names table (Pages.export_format (two_rows_a_page false)) = Some t /\ exported false = (Ok 3%Z, (c_lf :: t, 2)).
Proof. eexists. split; vm_compute; reflexivity. Qed.

(** A quote character longer than one byte panics on a value that holds it. *)
Example long_quote_panics : quoted_field [8220%Z] 8220 = None.
Proof. reflexivity. Qed.

(** With the apostrophe as quote character the guard closes the field: a reader
    finds the formula's text outside the quotes. *)
Example apostrophe_quotes : quoted_field (txt "=1+1") c_apostrophe = Some (txt "''=1+1'") /\
  CsvMachine.read c_comma c_apostrophe (txt "''=1+1'") <> [[txt "'=1+1"]].
Proof. by split. Qed.

(** A row of one empty text is a blank line when it is not quoted. *)
Example blank_line_is_lost : format_csv_with_format [txt "a"] [[VString []]; [VString (txt "x")]] (semicolons QuoteNecessary) =
    Some (txt "a" ++ [10; 10]%Z ++ txt "x") /\ CsvMachine.read 59 c_quote (txt "a" ++ [10; 10]%Z ++ txt "x") = [[txt "a"]; [txt "x"]].
Proof. by split. Qed.

(** A literal for NULL that looks like a formula is written with the guard. *)
Example guarded_null : push_csv_value_formatted VNull (format_with_null_literal QuoteNecessary (Some (txt "-"))) false = Some (txt "'-").
Proof. reflexivity. Qed.

(** A carriage return stays in a cell of a Markdown table. *)
Example markdown_keeps_cr : TextFormats.markdown_cell [97; 13; 98]%Z = [97; 13; 98]%Z.
Proof. reflexivity. Qed.
End ExportRuns.
