(* ===== verification/TableImportSpec.v ===== *)
(** * Properties of the import of delimited files

    Headers become distinct names; the parse for the preview reads exactly the
    selected rows, and the stream for the import sends the same rows; a table
    that was exported is read back; the type inferred for a column is the least
    one that holds its values; what the PostgreSQL fast path sends is read by
    COPY as the rows, and every row is sent once, in batches within the limits. *)

From S2P Require Import Prelude TextExport TableImport TextExportSpec SqlDialect QueryExecutionSql.
Import Delimited.

(** ** Headers *)

Section headers.
Context `{UnicodeCaseLaws}.

Lemma underscore_digits n : Forall (fun c => (0 <= c < 128)%Z) (txt "_" ++ decimal (Z.of_nat n)).
Proof.
  apply Forall_app. split; [repeat constructor; lia|]. eapply Forall_impl; [apply decimal_digits; lia|].
  intros c Hc. unfold is_ascii_digit in Hc. apply andb_prop in Hc as [H1 H2]. lia.
Qed.

Lemma lower_digits s : Forall (fun c => is_ascii_digit c = true) s -> map to_ascii_lowercase s = s.
Proof.
  induction 1 as [|c s Hc _ IH]; [done|]. simpl. rewrite IH. f_equal. unfold to_ascii_lowercase, is_ascii_uppercase, is_ascii_digit in *.
  apply andb_prop in Hc as [H1 H2]. destruct (Z.leb_spec 65 c); [lia|done].
Qed.

Lemma lower_candidate header n : exists x, to_lowercase (candidate header (S n)) = x ++ [95%Z] ++ decimal (Z.of_nat (S n)).
Proof using H0.
  destruct (lowercase_ascii header (txt "_" ++ decimal (Z.of_nat (S n))) [] (underscore_digits (S n))) as (x & b & E & _ & Hb).
  rewrite app_nil_r, (Hb eq_refl), app_nil_r in E. exists x. unfold candidate. rewrite E. rewrite map_app. f_equal. f_equal.
  apply lower_digits, decimal_digits. lia.
Qed.

Lemma digits_no_underscore n : 95%Z ∉ decimal (Z.of_nat n).
Proof. intros Hin. pose proof (decimal_digits (Z.of_nat n) ltac:(lia)) as Hd. rewrite Forall_forall in Hd. by apply Hd in Hin. Qed.

Lemma last_underscore (a b x y : text) : 95%Z ∉ x -> 95%Z ∉ y -> a ++ [95%Z] ++ x = b ++ [95%Z] ++ y -> x = y.
Proof.
  intros Hx Hy E. apply (f_equal reverse) in E. rewrite !reverse_app in E. cbn [reverse] in E.
  assert (H1 : 95%Z ∉ reverse x) by (by rewrite elem_of_reverse). assert (H2 : 95%Z ∉ reverse y) by (by rewrite elem_of_reverse).
  apply (inj reverse). revert E H1 H2. rewrite !reverse_singleton, <- !app_assoc. generalize (reverse x) (reverse y). clear.
  induction l as [|c l IH]; intros [|c' l'] E H1 H2; simplify_eq/=; [done|set_solver|set_solver|]. f_equal. apply IH; [done|set_solver|set_solver].
Qed.

(** Different suffixes give different names, whatever the case conversion. *)
Lemma candidates_differ header m n :
  to_lowercase (candidate header (S m)) = to_lowercase (candidate header (S n)) -> m = n.
Proof using H0.
  destruct (lower_candidate header m) as [x ->], (lower_candidate header n) as [y ->]. intros E.
  apply last_underscore in E; [|apply digits_no_underscore..]. apply decimal_inj in E; lia.
Qed.

Lemma next_candidate_spec fuel header suffix seen :
  let '(name, next) := next_candidate fuel header suffix seen in
  suffix < next /\ name = candidate header (pred next) /\
  (forall n, suffix <= n < pred next -> to_lowercase (candidate header n) ∈ seen) /\
  ((to_lowercase name ∉ seen) \/ next = S (suffix + fuel)).
Proof.
  revert suffix. induction fuel as [|fuel IH]; intros suffix; simpl; [split_and!; [lia|done|lia|right; lia]|].
  case_bool_decide as Hin; [|split_and!; [lia|done|simpl; lia|by left]].
  specialize (IH (S suffix)). destruct (next_candidate fuel header (S suffix) seen) as [name next].
  destruct IH as (H1 & H2 & H3 & H4). split_and!; [lia|done| |destruct H4 as [H4|H4]; [by left|right; lia]].
  intros n Hn. destruct (decide (n = suffix)) as [->|]; [done|]. apply H3. lia.
Qed.

(** Two more rounds than there are names in use are enough. *)
Lemma next_candidate_fresh header suffix seen :
  let '(name, next) := next_candidate (S (S (length seen))) header suffix seen in
  suffix < next /\ name = candidate header (pred next) /\ (to_lowercase name ∉ seen) /\
  (forall n, suffix <= n < pred next -> to_lowercase (candidate header n) ∈ seen).
Proof using H0.
  pose proof (next_candidate_spec (S (S (length seen))) header suffix seen) as Hs.
  destruct (next_candidate _ header suffix seen) as [name next]. destruct Hs as (H1 & H2 & H3 & [H4|H4]); [done|]. exfalso.
  set (l := map (fun n => to_lowercase (candidate header (S n))) (seq suffix (S (length seen)))).
  assert (Hsub : l ⊆+ seen).
  { apply NoDup_submseteq.
    - unfold l. apply NoDup_fmap_2_strong; [|apply NoDup_seq]. intros x y _ _. apply candidates_differ.
    - intros x (n & -> & Hn)%list_elem_of_fmap. apply elem_of_seq in Hn. apply H3. lia. }
  apply submseteq_length in Hsub. unfold l in Hsub. rewrite length_map, length_seq in Hsub. lia.
Qed.

Definition renamed (header name : text) : Prop := exists n, name = candidate header n.

Lemma unique_headers_spec seen next_suffix headers :
  let names := unique_headers_from seen next_suffix headers in
  NoDup (map to_lowercase names) /\ Forall (fun name => to_lowercase name ∉ seen) names /\ Forall2 renamed headers names.
Proof using H0.
  revert seen next_suffix. induction headers as [|header headers IH]; intros seen next_suffix; cbn [unique_headers_from]; [split_and!; constructor|].
  pose proof (next_candidate_fresh header (default 0 (next_suffix !! to_lowercase header)) seen) as Hc.
  destruct (next_candidate (S (S (length seen))) header _ seen) as [name next]. destruct Hc as (_ & Hn & Hf & _).
  destruct (IH (to_lowercase name :: seen) (<[to_lowercase header := next]> next_suffix)) as (H1 & H2 & H3).
  simpl. split_and!.
  - constructor; [|done]. intros (m & E & Hm)%list_elem_of_fmap. rewrite Forall_forall in H2. apply H2 in Hm. rewrite <- E in Hm. set_solver.
  - constructor; [done|]. eapply Forall_impl; [exact H2|]. set_solver.
  - constructor; [by eexists|done].
Qed.

(** Names that differ are kept. *)
Lemma unique_headers_keep seen next_suffix headers :
  NoDup (map to_lowercase headers) -> Forall (fun h => (to_lowercase h ∉ seen) /\ next_suffix !! to_lowercase h = None) headers ->
  unique_headers_from seen next_suffix headers = headers.
Proof using.
  revert seen next_suffix. induction headers as [|header headers IH]; intros seen next_suffix Hnd Hs; [done|].
  apply Forall_cons in Hs as [[Hh Hnone] Hs]. simpl in Hnd. apply NoDup_cons in Hnd as [Hni Hnd]. cbn [unique_headers_from]. rewrite Hnone.
  cbn [default next_candidate candidate]. rewrite bool_decide_eq_false_2 by done. f_equal. apply IH; [done|].
  rewrite Forall_forall in Hs |- *. intros h Hin. destruct (Hs h Hin) as [H1 H2].
  assert (Hne : to_lowercase h <> to_lowercase header) by (intros E; apply Hni, list_elem_of_fmap; by exists h).
  split; [by apply not_elem_of_cons|]. by rewrite lookup_insert_ne.
Qed.
End headers.

(** ** Preview and stream *)

(** A range as the options give it. *)
Record wf_range (r : ImportRowRange) : Prop := {
  start_positive : (1 <= r.(data_start_row))%Z;
  title_before : forall t, r.(title_row) = Some t -> (1 <= t < r.(data_start_row))%Z;
  last_after : forall l, r.(last_data_row) = Some l -> (r.(data_start_row) <= l)%Z;
}.

Lemma effective_range_wf options r :
  (forall n, options.(opt_title_row) = Some n -> (0 <= n)%Z) -> (forall n, options.(opt_data_start_row) = Some n -> (0 <= n)%Z) ->
  effective_import_row_range options = Ok r -> wf_range r.
Proof.
  intros Ht Hs. unfold effective_import_row_range. set (title := match options.(opt_title_row) with Some _ => _ | None => _ end).
  set (start := match options.(opt_data_start_row) with Some _ => _ | None => _ end).
  set (last := match options.(opt_last_data_row) with Some _ => _ | None => _ end).
  assert (Htitle : forall t, title = Some t -> (1 <= t)%Z).
  { intros t. unfold title. destruct options.(opt_title_row) as [n|]; [specialize (Ht n eq_refl); destruct (Z.eqb_spec n 0); [done|intros [= <-]; lia]|].
    destruct (default true options.(opt_has_header)); [intros [= <-]; lia|done]. }
  assert (Hstart : (0 <= start)%Z).
  { unfold start. destruct options.(opt_data_start_row) as [n|]; [by apply Hs|]. destruct title; [|lia].
    unfold wrapping_succ. apply Z.mod_pos_bound. unfold Csv.usize_max, u64_max. lia. }
  destruct (Z.eqb_spec start 0); [done|]. destruct (match title with Some _ => _ | None => false end) eqn:Et; [done|].
  destruct (match last with Some _ => _ | None => false end) eqn:El; [done|]. intros [= <-]. constructor; simpl; [lia| |].
  - intros t E. rewrite E in Et. specialize (Htitle t E). apply Z.leb_gt in Et. lia.
  - intros l E. rewrite E in El. apply Z.ltb_ge in El. lia.
Qed.

Section reading.
Context `{UnicodeCase} (config : DelimitedParseConfig) (Hrange : wf_range config.(row_range)).
Notation range := config.(row_range).
Notation to_row columns record := (delimited_record_to_row record (length columns) config).

(** The records from [index] on that are not after the last row. *)
Definition within {A} (index : Z) (records : list A) : list A :=
  match range.(last_data_row) with Some l => take (Z.to_nat (l - index)) records | None => records end.

Lemma within_cons {A} index (x : A) records :
  within index (x :: records) = if after_last range (index + 1) then [] else x :: within (index + 1) records.
Proof.
  unfold within, after_last. destruct range.(last_data_row) as [l|]; [|done]. destruct (Z.ltb_spec l (index + 1)).
  - by replace (Z.to_nat (l - index)) with 0 by lia.
  - replace (Z.to_nat (l - index)) with (S (Z.to_nat (l - (index + 1)))) by lia. done.
Qed.

Lemma data_row_checks index : (range.(data_start_row) - 1 <= index)%Z ->
  bool_decide (range.(title_row) = Some (index + 1)%Z) = false /\ (index + 1 <? range.(data_start_row))%Z = false.
Proof using Hrange.
  intros Hi. split; [|apply Z.ltb_ge; lia]. apply bool_decide_eq_false. intros E. apply (title_before _ Hrange) in E. lia.
Qed.

Lemma read_data_rows limit records index columns rows total :
  (range.(data_start_row) - 1 <= index)%Z -> columns <> [] -> length rows <= limit ->
  read_rows config limit true (map Ok records) index columns rows total =
    Ok (columns, take limit (rows ++ map (fun record => to_row columns record) (within index records)), total + length (within index records)).
Proof using Hrange.
  revert index rows total. induction records as [|record records IH]; intros index rows total Hi Hc Hl.
  { unfold within. destruct range.(last_data_row); rewrite ?take_nil; simpl; by rewrite app_nil_r, take_ge, Nat.add_0_r by lia. }
  destruct (data_row_checks index Hi) as [E1 E2]. cbn [map read_rows]. rewrite E1, E2, within_cons.
  destruct (after_last range (index + 1)); [simpl; by rewrite app_nil_r, take_ge, Nat.add_0_r by lia|].
  rewrite bool_decide_eq_false_2 by done. cbn [negb andb]. rewrite IH; [|lia|done|].
  - do 2 f_equal; [f_equal|simpl; lia]. destruct (Nat.ltb_spec (length rows) limit) as [Hlt|Hge]; [by rewrite <- app_assoc|].
    rewrite !take_app_le by lia. done.
  - destruct (Nat.ltb_spec (length rows) limit); [rewrite length_app; simpl; lia|lia].
Qed.

Lemma first_record_spec records index columns : (index <= range.(data_start_row) - 1)%Z ->
  match delimited_columns_and_first_record config records index columns with
  | Ok (cols, first, rest) => exists index' columns',
      (range.(data_start_row) - 1 = index')%Z /\ after_last range (index' + 1) = false /\
      cols = (if bool_decide (columns' = []) then generated_columns first else columns') /\ cols <> [] /\ length (Ok first :: rest) <= length records /\
      forall limit rows total, read_rows config limit true records index columns rows total = read_rows config limit true (Ok first :: rest) index' columns' rows total
  | Err e => (forall limit, read_rows config limit true records index columns [] 0 = Err e) \/
      (exists columns', forall limit, read_rows config limit true records index columns [] 0 = Ok (columns', [], 0)) \/
      (Ok [] : result (list text) text) ∈ records
  end.
Proof using Hrange.
  revert index columns. induction records as [|[record|e] records IH]; intros index columns Hi; cbn [delimited_columns_and_first_record].
  - right. left. by exists columns.
  - cbn [read_rows]. case_bool_decide as Et.
    + assert (Hi' : (index + 1 <= range.(data_start_row) - 1)%Z) by (apply (title_before _ Hrange) in Et; lia).
      specialize (IH _ (title_columns record) Hi'). destruct (delimited_columns_and_first_record _ _ _ _) as [[[cols first] rest]|e].
      * destruct IH as (i & c & H1 & H2 & H3 & H4 & H5 & H6). exists i, c. split_and!; try done. simpl in *. lia.
      * destruct IH as [IH|[IH|IH]]; [by left|by right; left|right; right; by right].
    + destruct (Z.ltb_spec (index + 1) range.(data_start_row)) as [Hlt|Hge].
      * specialize (IH (index + 1)%Z columns ltac:(lia)). destruct (delimited_columns_and_first_record _ _ _ _) as [[[cols first] rest]|e].
        -- destruct IH as (i & c & H1 & H2 & H3 & H4 & H5 & H6). exists i, c. split_and!; try done. simpl in *. lia.
        -- destruct IH as [IH|[IH|IH]]; [by left|by right; left|right; right; by right].
      * destruct (after_last range (index + 1)) eqn:Ea; [right; left; by exists columns|]. case_bool_decide as Ec.
        -- right. right. case_bool_decide; [|done]. unfold generated_columns in Ec. destruct record; [by left|done].
        -- exists index, columns. split_and!; try done; [lia|]. intros limit rows total. cbn [read_rows].
           by rewrite (bool_decide_eq_false_2 _ Et), (proj2 (Z.ltb_ge _ _) Hge), Ea.
  - by left.
Qed.

Lemma read_rows_step limit record records index columns rows total :
  (range.(data_start_row) - 1 <= index)%Z -> columns <> [] -> length rows < limit ->
  read_rows config limit true (Ok record :: records) index columns rows total =
    if after_last range (index + 1) then Ok (columns, rows, total)
    else read_rows config limit true records (index + 1) columns (rows ++ [to_row columns record]) (S total).
Proof using Hrange.
  intros Hi Hc Hl. destruct (data_row_checks index Hi) as [E1 E2]. cbn [read_rows]. rewrite E1, E2, bool_decide_eq_false_2 by done.
  by rewrite (proj2 (Nat.ltb_lt _ _) Hl).
Qed.

Lemma stream_reads batch records index columns pending :
  (range.(data_start_row) - 1 <= index)%Z -> columns <> [] -> length pending < batch -> (index + Z.of_nat (length records) <= Csv.usize_max)%Z ->
  match stream_records config (length columns) batch records index pending with
  | (messages, None) => exists batches rows', messages = map StreamRows batches ++ [StreamDone] /\
      Forall (fun b => 0 < length b <= batch) batches /\ concat batches = pending ++ rows' /\
      forall limit rows total, length rows + length records <= limit ->
        read_rows config limit true records index columns rows total = Ok (columns, rows ++ rows', total + length rows')
  | (_, Some e) => forall limit rows total, length rows + length records <= limit -> read_rows config limit true records index columns rows total = Err e
  end.
Proof using Hrange.
  assert (Hflush : forall pending : list (list Value), length pending < batch -> exists batches,
    (match pending with [] => [] | _ => [StreamRows pending] end) ++ [StreamDone] = map StreamRows batches ++ [StreamDone] /\
    Forall (fun b => 0 < length b <= batch) batches /\ concat batches = pending).
  { intros [|r p] Hp; [by exists []|]. exists [r :: p]. split_and!; [done| |simpl; by rewrite app_nil_r]. apply Forall_singleton; simpl in *; lia. }
  revert index pending. induction records as [|[record|e] records IH]; intros index pending Hi Hc Hp Hmax; cbn [stream_records].
  - destruct (Hflush pending Hp) as (batches & E & Hb & Hcat). exists batches, []. rewrite app_nil_r. split_and!; [done..|].
    intros limit rows total _. simpl. by rewrite app_nil_r, Nat.add_0_r.
  - cbn [length] in Hmax. assert (Es : saturating_succ index = (index + 1)%Z) by (unfold saturating_succ; lia). rewrite Es.
    destruct (after_last range (index + 1)) eqn:Ea.
    { destruct (Hflush pending Hp) as (batches & E & Hb & Hcat). exists batches, []. rewrite app_nil_r. split_and!; [done..|].
      intros limit rows total Hl. simpl in Hl. rewrite read_rows_step, Ea by (done || lia). by rewrite app_nil_r, Nat.add_0_r. }
    assert (Hstep : forall limit rows total, length rows + S (length records) <= limit ->
      read_rows config limit true (Ok record :: records) index columns rows total =
      read_rows config limit true records (index + 1) columns (rows ++ [to_row columns record]) (S total)).
    { intros limit rows total Hl. rewrite read_rows_step, Ea by (done || lia). done. }
    set (row := to_row columns record) in *. destruct (Nat.leb_spec batch (length (pending ++ [row]))) as [Hfull|Hroom].
    + specialize (IH (index + 1)%Z [] ltac:(lia) Hc ltac:(simpl; lia) ltac:(lia)).
      destruct (stream_records config (length columns) batch records (index + 1) []) as [messages [e|]].
      * intros limit rows total Hl. simpl in Hl. rewrite Hstep by lia. apply IH. rewrite length_app. simpl. lia.
      * destruct IH as (batches & rows' & -> & Hb & Hcat & Hr). exists ((pending ++ [row]) :: batches), (row :: rows').
        rewrite length_app in Hfull. simpl in Hfull. split_and!; [done| | |].
        -- constructor; [rewrite length_app; simpl; lia|done].
        -- simpl. rewrite Hcat, <- app_assoc. done.
        -- intros limit rows total Hl. simpl in Hl. rewrite Hstep, Hr by (rewrite ?length_app; simpl; lia).
           rewrite <- app_assoc. simpl. by rewrite Nat.add_succ_r.
    + specialize (IH (index + 1)%Z (pending ++ [row]) ltac:(lia) Hc Hroom ltac:(lia)).
      destruct (stream_records config (length columns) batch records (index + 1) (pending ++ [row])) as [messages [e|]].
      * intros limit rows total Hl. simpl in Hl. rewrite Hstep by lia. apply IH. rewrite length_app. simpl. lia.
      * destruct IH as (batches & rows' & -> & Hb & Hcat & Hr). exists batches, (row :: rows'). split_and!; [done|done|rewrite Hcat, <- app_assoc; done|].
        intros limit rows total Hl. simpl in Hl. rewrite Hstep, Hr by (rewrite ?length_app; simpl; lia). rewrite <- app_assoc. simpl. by rewrite Nat.add_succ_r.
  - intros limit rows total _. done.
Qed.

(** The import reads what the preview showed.  For every file, every range of
    rows and every size of batches: if the stream ends without an error, it has
    sent one header, rows in non-empty batches of at most that size, and the end,
    and the parse of the whole file for a preview gives the same columns and
    the same rows; if it ends with an error, the parse fails. *)
Theorem stream_sends_the_parsed_rows batch_size encoding records limit :
  (Z.of_nat (length records) + range.(data_start_row) <= Csv.usize_max)%Z -> length records <= limit ->
  ((Ok [] : result (list text) text) ∉ records) ->
  match stream_delimited_rows_to_channel config batch_size records with
  | (messages, None) => exists columns batches,
      messages = StreamHeader columns :: map StreamRows batches ++ [StreamDone] /\
      Forall (fun b => 0 < length b <= Nat.max batch_size 1) batches /\ columns <> [] /\
      parse_csv_reader config limit encoding records =
        Ok {| columns := columns; rows := concat batches; total_rows := length (concat batches); effective_encoding := Some encoding |}
  | (_, Some _) => is_ok (parse_csv_reader config limit encoding records) = false
  end.
Proof using Hrange.
  intros Hmax Hlimit Hne. unfold stream_delimited_rows_to_channel, parse_csv_reader, parse_csv_reader_inner.
  pose proof (start_positive _ Hrange) as Hstart. pose proof (first_record_spec records 0 [] ltac:(lia)) as Hfirst.
  destruct (delimited_columns_and_first_record config records 0 []) as [[[cols first] rest]|e].
  2: { destruct Hfirst as [He|[[columns' He]|He]]; [by rewrite He| |done]. rewrite He. simpl. by case_bool_decide. }
  destruct Hfirst as (index & columns' & <- & Ha & Hcols & Hcne & Hlen & Hread).
  replace (Z.max 0 (range.(data_start_row) - 1)) with (range.(data_start_row) - 1)%Z by lia.
  pose proof (stream_reads (Nat.max batch_size 1) (Ok first :: rest) (range.(data_start_row) - 1) cols [] ltac:(lia) Hcne ltac:(simpl; lia) ltac:(lia)) as Hs.
  assert (Hsame : forall n, read_rows config n true records 0 [] [] 0 = read_rows config n true (Ok first :: rest) (range.(data_start_row) - 1) cols [] 0).
  { intros n. rewrite Hread. cbn [read_rows]. destruct (data_row_checks (range.(data_start_row) - 1) ltac:(lia)) as [E1 E2]. rewrite E1, E2, Ha.
    rewrite (bool_decide_eq_false_2 (cols = [])) by done. by rewrite Hcols. }
  rewrite Hsame. destruct (stream_records config (length cols) (Nat.max batch_size 1) (Ok first :: rest) _ []) as [messages [e|]].
  - rewrite Hs by (simpl in *; lia). done.
  - destruct Hs as (batches & rows' & -> & Hb & Hcat & Hr). simpl in Hcat. exists cols, batches. split_and!; [done..|].
    rewrite Hr by (simpl in *; lia). cbn [result_bind app]. rewrite bool_decide_eq_false_2 by done. rewrite Hcat.
    destruct rows' as [|r rows']; [|done]. exfalso. specialize (Hr (length (Ok first :: rest : list (result (list text) text))) [] 0 ltac:(simpl; lia)).
    rewrite read_rows_step, Ha in Hr by (done || simpl; lia).
    pose proof (stream_reads 1 rest (range.(data_start_row)) cols [] ltac:(lia) Hcne ltac:(simpl; lia) ltac:(simpl in *; lia)) as Hs.
    replace (range.(data_start_row) - 1 + 1)%Z with range.(data_start_row) in Hr by lia.
    destruct (stream_records config (length cols) 1 rest (data_start_row range) []) as [m [e|]]; [rewrite Hs in Hr by (simpl; lia); done|].
    destruct Hs as (b' & r' & _ & _ & _ & Hr'). rewrite Hr' in Hr by (simpl; lia). done.
Qed.
End reading.

(** ** Export and import *)

Lemma force_text_unchanged s : head s <> Some 61%Z -> unwrap_csv_force_text s = s.
Proof. intros Hs. destruct s as [|c [|c' s]]; [done..|]. unfold unwrap_csv_force_text. by destruct (Z.eqb_spec c 61) as [->|]. Qed.

Lemma inert_head s : Csv.needs_formula_guard s = false -> head s <> Some 61%Z.
Proof. intros Hs E. destruct s as [|c s]; [done|]. injection E as ->. done. Qed.

(** What the import makes of a value that was exported. *)
Definition imported_value `{JsonText} (v : Value) : Value :=
  match v with
  | VNull => VNull
  | VBool b => VString (bool_text b)
  | VNumber repr => VString repr
  | VString s => if bool_decide (s = Csv.DEFAULT_CSV_NULL_LITERAL) then VNull else VString (guarded s)
  | other => VString (value_to_string other)
  end.

Section round_trip.
Context `{JsonTextLaws, UnicodeCaseLaws, CsvReaderLaws}.

(** The format of an export with the default settings, in any quoting mode but
    the one without quotes. *)
Definition export_format (mode : Csv.CsvQuoteMode) : Csv.CsvTextFormat :=
  Csv.format_with_null_literal mode (Some Csv.DEFAULT_CSV_NULL_LITERAL).

Lemma export_format_legal mode : mode <> Csv.QuoteNever -> legal_format (export_format mode).
Proof using.
  intros Hm. constructor; [done..|split; [|done]|split; [|done]]; rewrite !not_elem_of_cons; (split_and!; [done..|apply not_elem_of_nil]).
Qed.

(** The settings of an import by default. *)
Definition import_config : DelimitedParseConfig :=
  {| delimiter := Csv.c_comma; decimal_separator := 46; trim_values := false; empty_string_as_null := false;
     null_literal := Some Csv.DEFAULT_CSV_NULL_LITERAL; row_range := {| title_row := Some 1%Z; data_start_row := 2; last_data_row := None |} |}.

Lemma import_config_default : effective_delimited_config FormatCsv default_options = Ok import_config.
Proof. reflexivity. Qed.

Lemma import_range_wf : wf_range import_config.(row_range).
Proof. constructor; simpl; [lia|intros t [= <-]; lia|done]. Qed.

Lemma guarded_literal s : guarded s = Csv.DEFAULT_CSV_NULL_LITERAL <-> s = Csv.DEFAULT_CSV_NULL_LITERAL.
Proof.
  split; [|by intros ->]. unfold guarded. destruct (guard_cases s) as [->| ->]; done.
Qed.

Lemma cell_imported mode v : wf_value v ->
  csv_value_with_config (cell_content (export_format mode) v) import_config = imported_value v.
Proof using H0.
  intros Hv. assert (Hplain : forall s, head s <> Some 61%Z -> csv_value_with_config s import_config =
    if bool_decide (s = Csv.DEFAULT_CSV_NULL_LITERAL) then VNull else VString s).
  { intros s Hs. unfold csv_value_with_config. cbn [trim_values import_config]. rewrite force_text_unchanged by done. cbn [null_literal import_config].
    destruct (decide (s = Csv.DEFAULT_CSV_NULL_LITERAL)) as [->|Hn]; [done|]. rewrite (bool_decide_eq_false_2 (s = Csv.DEFAULT_CSV_NULL_LITERAL)), (bool_decide_eq_false_2 (Some _ = Some s)) by congruence. reflexivity. }
  destruct v as [|b|repr|s|l|m]; cbn [cell_content imported_value].
  - reflexivity.
  - by destruct b.
  - destruct Hv as [Hne Hv]. destruct repr as [|c repr]; [done|]. apply Forall_cons in Hv as [Hc Hv].
    rewrite Hplain by (intros [= ->]; done). rewrite bool_decide_eq_false_2; [done|]. intros [= -> ->]. done.
  - rewrite Hplain by (apply inert_head, guarded_inert). case_bool_decide as E; [apply (proj1 (guarded_literal s)) in E; by rewrite bool_decide_eq_true_2|].
    rewrite bool_decide_eq_false_2; [done|]. intros E'. by apply E, guarded_literal.
  - destruct (array_text l) as [u Eu]. rewrite Hplain by (by rewrite Eu). rewrite bool_decide_eq_false_2; [done|]. by rewrite Eu.
  - destruct (object_text m) as [u Eu]. rewrite Hplain by (by rewrite Eu). rewrite bool_decide_eq_false_2; [done|]. by rewrite Eu.
Qed.

Lemma record_to_row (record : list text) config : delimited_record_to_row record (length record) config = map (fun s => csv_value_with_config s config) record.
Proof.
  unfold delimited_record_to_row. apply list_eq. intros i. rewrite !list_lookup_fmap. destruct (record !! i) as [s|] eqn:E.
  - pose proof (lookup_lt_Some _ _ _ E). rewrite lookup_seq_lt by done. simpl. by rewrite E.
  - apply lookup_ge_None in E. by rewrite lookup_seq_ge.
Qed.

(** A name that headers keep: no blanks around it, no byte order mark, nothing
    a spreadsheet could take for a formula. *)
Definition plain_name (name : text) : Prop :=
  name <> [] /\ trim_chars name = name /\ head name <> Some 65279%Z /\ Csv.push_formula_guard name = [].

Lemma title_of_plain names : Forall plain_name names -> NoDup (map to_lowercase names) -> title_columns (map guarded names) = names.
Proof using.
  intros Hn Hd. unfold title_columns. assert (E : imap (fun index header => normalize_header (trim_bom header) index) (map guarded names) = names).
  { rewrite imap_fmap. clear Hd. assert (Hk : forall k, imap (fun i => (fun header => normalize_header (trim_bom header) (k + i)) ∘ guarded) names = names).
    { induction Hn as [|name names (Hne & Ht & Hb & Hg) Hn IH]; intros k; [done|]. simpl. f_equal.
      - unfold guarded. rewrite Hg. simpl. unfold trim_bom. destruct name as [|c name]; [done|]. cbn [span].
        destruct (Z.eqb_spec c 65279) as [->|]; [done|]. cbn [snd]. unfold normalize_header. rewrite Ht. by rewrite bool_decide_eq_false_2.
      - rewrite <- (IH (S k)) at 2. apply imap_ext. intros i x _. simpl. by rewrite Nat.add_succ_r. }
    exact (Hk 0). }
  rewrite E. unfold unique_import_headers. apply unique_headers_keep; [done|]. apply Forall_forall. intros h _. split; [apply not_elem_of_nil|apply lookup_empty].
Qed.

Lemma header_written mode names : mode <> Csv.QuoteNever -> names <> [] -> Forall plain_name names ->
  header_records (export_format mode) names = [map guarded names].
Proof.
  intros Hm Hne Hn. unfold header_records. cbn [Csv.include_header]. pose proof (export_format_legal mode Hm) as Hf.
  destruct (TextExportSpec.header_line _ Hf names) as (line & E & ws & Hws & ->).
  change (Csv.include_header (export_format mode)) with true. cbv iota. rewrite E.
  destruct names as [|name names]; [done|]. inversion Hws as [|? w ? ws' Hw Hws' Ec Eq]. subst. apply Forall_cons in Hn as [(Hnn & _) _].
  assert (Hwne : w <> []) by (intros ->; inversion Hw as [s Hs Es|]; subst; unfold guarded in *; destruct (guard_cases name) as [Eg|Eg]; rewrite Eg in *; done).
  rewrite join_first. by destruct w.
Qed.

End round_trip.

(** The names of an import are distinct.  Whatever the headers, each column gets
    its header or the header with a number behind it, no two names differ only
    in case, and headers that are distinct are kept; the search for a free
    number always ends. *)
Theorem import_headers_are_distinct `{UnicodeCaseLaws} headers :
  let names := unique_import_headers headers in
  NoDup (map to_lowercase names) /\ Forall2 renamed headers names /\ (NoDup (map to_lowercase headers) -> names = headers).
Proof.
  cbn zeta. destruct (unique_headers_spec [] ∅ headers) as (H1 & _ & H3). split_and!; [done..|]. intros Hd. apply unique_headers_keep; [done|].
  apply Forall_forall. intros h _. split; [apply not_elem_of_nil|apply lookup_empty].
Qed.

(** ** Inferred types *)

Section inference.
Import Plan.

(** [t] holds every value that [s] holds. *)
Definition holds (t s : ImportInferredType) : Prop :=
  t = s \/ t = TText \/ (t = TDecimal /\ s = TInteger) \/ (t = TTimestamp /\ s = TDate).

#[local] Instance holds_dec t s : Decision (holds t s).
Proof. unfold holds. apply _. Defined.

Lemma holds_trans a b c : holds a b -> holds b c -> holds a c.
Proof. unfold holds. intros [->|[->|[[-> ->]|[-> ->]]]] H2; [done|auto|intuition congruence|intuition congruence]. Qed.

Lemma merge_is_least current next :
  holds (merge_inferred_type current next) next /\ (forall c, current = Some c -> holds (merge_inferred_type current next) c) /\
  (forall t, holds t next -> (forall c, current = Some c -> holds t c) -> holds t (merge_inferred_type current next)).
Proof.
  unfold merge_inferred_type. destruct current as [c|]; [|split_and!; [by left|done|done]].
  case_bool_decide as E; [subst; split_and!; [by left|intros ? [= <-]; by left|done]|].
  split_and!; [unfold holds; destruct c, next; auto|intros ? [= <-]; unfold holds; destruct c, next; auto|].
  intros t H1 H2. specialize (H2 c eq_refl). unfold holds in *. destruct c, next; try done; destruct t; auto; exfalso; naive_solver.
Qed.

Context (is_likely_timestamp is_likely_date is_finite_float : text -> bool).
Notation value_type := (infer_value_type is_likely_timestamp is_likely_date is_finite_float).

(** The types of the values in a column. *)
Definition column_value_types (rows : list (list Value)) (index : nat) : list ImportInferredType :=
  omap (fun row => row !! index ≫= value_type) rows.

Lemma infer_rows_least rows index inferred :
  match infer_rows is_likely_timestamp is_likely_date is_finite_float rows index inferred with
  | Some t => (forall s, s ∈ column_value_types rows index \/ inferred = Some s -> holds t s) /\
      (forall t', (forall s, s ∈ column_value_types rows index \/ inferred = Some s -> holds t' s) -> holds t' t)
  | None => column_value_types rows index = [] /\ inferred = None
  end.
Proof.
  revert inferred. induction rows as [|row rows IH]; intros inferred; cbn [infer_rows].
  { destruct inferred as [t|]; [|done]. split; [intros s [Hs|[= ->]]; [by apply not_elem_of_nil in Hs|by left]|]. intros t' Ht. apply Ht. by right. }
  unfold column_value_types. cbn [omap list_omap]. fold (column_value_types rows index). destruct (row !! index ≫= value_type) as [next|] eqn:E; [|apply IH].
  destruct (merge_is_least inferred next) as (H1 & H2 & H3). set (merged := merge_inferred_type inferred next) in *.
  case_bool_decide as Et.
  - injection Et as Et. rewrite Et in *. split; [intros s _; right; by left|]. intros t' Ht. apply H3; [apply Ht; left; by left|].
    intros c Hc. apply Ht. by right.
  - specialize (IH (Some merged)). destruct (infer_rows _ _ _ rows index (Some merged)) as [t|]; [|by destruct IH]. destruct IH as [IH1 IH2]. split.
    + intros s [[->|Hs]%elem_of_cons|Hs]; [|apply IH1; by left|]; apply (holds_trans _ merged); try (apply IH1; by right); [done|by apply H2].
    + intros t' Ht. apply IH2. intros s [Hs|[= <-]]; [apply Ht; left; by right|]. apply H3; [apply Ht; left; by left|]. intros c Hc. apply Ht. by right.
Qed.

(** The type inferred for a column holds every value seen in it, and is the
    smallest that does: an integer is a decimal, a date is a timestamp, and
    anything is a text; stopping at the first text changes nothing. *)
Theorem inferred_type_is_least rows index :
  let t := infer_column_type is_likely_timestamp is_likely_date is_finite_float rows index in
  let types := column_value_types rows index in
  (forall s, s ∈ types -> holds t s) /\ (types <> [] -> forall t', (forall s, s ∈ types -> holds t' s) -> holds t' t) /\ (types = [] -> t = TText).
Proof.
  cbn zeta. unfold infer_column_type. pose proof (infer_rows_least rows index None) as Hl.
  destruct (infer_rows _ _ _ rows index None) as [t|]; simpl.
  - destruct Hl as [H1 H2]. split_and!.
    + intros s Hs. apply H1. by left.
    + intros _ t' Ht. apply H2. intros s [Hs|]; [by apply Ht|done].
    + intros E. assert (Hx : forall t', holds t' t) by (intros t'; apply H2; rewrite E; intros s [Hs|]; [by apply not_elem_of_nil in Hs|done]).
      pose proof (Hx TBoolean) as Ha. pose proof (Hx TJson) as Hb. unfold holds in Ha, Hb. destruct t; naive_solver.
  - destruct Hl as [E _]. rewrite E. split_and!; [intros s Hs; by apply not_elem_of_nil in Hs|done|done].
Qed.
End inference.

(** ** COPY *)

Section copy.
Import Plan PgCopy.

(** PostgreSQL's COPY text format: lines of fields, separated by tabs; the field
    [\N] is NULL, and a backslash starts an escape (its octal and hexadecimal
    escapes, which are never written here, are left out). *)
Definition unescape_char (c : Z) : option Z :=
  if (c =? 98)%Z then Some 8%Z
  else if (c =? 102)%Z then Some 12%Z
  else if (c =? 110)%Z then Some 10%Z
  else if (c =? 114)%Z then Some 13%Z
  else if (c =? 116)%Z then Some 9%Z
  else if (c =? 118)%Z then Some 11%Z
  else if (c =? 92)%Z then Some 92%Z
  else None.

Fixpoint unescape (s : text) : option text :=
  match s with
  | [] => Some []
  | c :: rest =>
    if (c =? 92)%Z then match rest with e :: rest => x ← unescape_char e; s' ← unescape rest; Some (x :: s') | [] => None end
    else s' ← unescape rest; Some (c :: s')
  end.

Definition copy_field (s : text) : option (option text) := if bool_decide (s = txt "\N") then Some None else Some <$> unescape s.
Definition copy_line (line : text) : option (list (option text)) := mapM copy_field (split_on Csv.c_tab line).

(** The rows of the data of a COPY: every line ends with a line feed. *)
Fixpoint copy_lines (lines : list text) : option (list (list (option text))) :=
  match lines with
  | [] => None
  | [last] => if bool_decide (last = []) then Some [] else None
  | line :: lines => row ← copy_line line; rows ← copy_lines lines; Some (row :: rows)
  end.
Definition copy_read (data : text) : option (list (list (option text))) := copy_lines (split_on Csv.c_lf data).

(** What the column receives. *)
Definition copied (v : Value) : option text :=
  match v with VNull => None | VBool b => Some (bool_text b) | VNumber repr => Some repr | VString s => Some s | _ => None end.

Lemma unescape_escape s : unescape (copy_escape s) = Some s.
Proof.
  induction s as [|c s IH]; [done|]. unfold copy_escape in *. cbn [map concat].
  assert (E : exists x, copy_escape_char c = [92%Z; x] /\ unescape_char x = Some c \/ copy_escape_char c = [c] /\ c <> 92%Z).
  { unfold copy_escape_char. repeat (match goal with |- context [(c =? ?n)%Z] => destruct (Z.eqb_spec c n) as [->|] end; [eexists; by left|]).
    exists 0%Z. by right. }
  destruct E as (x & [[-> Hx]|[-> Hc]]); cbn [app unescape].
  - rewrite Z.eqb_refl, Hx. cbn [mbind option_bind]. by rewrite IH.
  - rewrite (proj2 (Z.eqb_neq _ _) Hc), IH. done.
Qed.

Lemma escape_clean s c : c ∈ copy_escape s -> c <> Csv.c_tab /\ c <> Csv.c_lf.
Proof.
  unfold copy_escape. rewrite list_elem_of_In, in_concat. intros (p & (x & <- & _)%in_map_iff & Hc). revert Hc. unfold copy_escape_char.
  repeat (match goal with |- context [(x =? ?n)%Z] => destruct (Z.eqb_spec x n) as [->|] end; [intros [<-|[<-|[]]]; done|]).
  intros [<-|[]]. done.
Qed.

Lemma escape_not_null s : copy_escape s <> txt "\N".
Proof.
  intros E. pose proof (unescape_escape s) as Hu. rewrite E in Hu. discriminate Hu.
Qed.

Lemma text_value_field v w : postgres_copy_text_value v = Ok w -> copy_field w = Some (copied v) /\ (Csv.c_tab ∉ w) /\ (Csv.c_lf ∉ w).
Proof.
  assert (Hraw : forall raw : text, (if bool_decide (0%Z ∈ raw) then Err (txt "PostgreSQL COPY text format does not support NUL bytes") else Ok (copy_escape raw)) = Ok w ->
    copy_field w = Some (Some raw) /\ (Csv.c_tab ∉ w) /\ (Csv.c_lf ∉ w)).
  { intros raw Hr. case_bool_decide; [done|]. injection Hr as <-. unfold copy_field.
    rewrite bool_decide_eq_false_2 by apply escape_not_null. rewrite unescape_escape.
    split_and!; [done|intros Hin; by apply escape_clean in Hin as []..]. }
  unfold postgres_copy_text_value. destruct v as [|b|repr|s|l|m]; cbn [result_bind]; intros Hv; try (by apply Hraw in Hv); try done.
  injection Hv as <-. split_and!; [done|set_solver|set_solver].
Qed.

(** The fields of a line, separated by tabs. *)
Lemma copy_fields_line values first line : copy_fields first values = Ok line -> values <> [] ->
  exists ws, line = (if first then [] else [Csv.c_tab]) ++ join [Csv.c_tab] ws /\ mapM copy_field ws = Some (map copied values) /\ ws <> [] /\
    Forall (fun w => (Csv.c_tab ∉ w) /\ (Csv.c_lf ∉ w)) ws.
Proof.
  revert first line. induction values as [|v values IH]; intros first line E Hne; [done|]. cbn [copy_fields] in E.
  destruct (postgres_copy_text_value v) as [w|e] eqn:Ev; [|done]. cbn [result_bind] in E. destruct (copy_fields false values) as [rest|e] eqn:Er; [|done].
  cbn [result_bind] in E. injection E as <-. destruct (text_value_field v w Ev) as (Hf & Hc). destruct values as [|v' values].
  - injection Er as <-. exists [w]. rewrite app_nil_r. split_and!; [done|simpl; by rewrite Hf|done|by constructor].
  - destruct (IH false rest Er ltac:(done)) as (ws & -> & Hm & Hwne & Hclean). exists (w :: ws). split_and!; [|cbn [mapM map]; rewrite Hf; simpl; by rewrite Hm|done|by constructor].
    destruct ws as [|w' ws]; [done|]. done.
Qed.

Lemma join_clean (c d : Z) ws : c <> d -> Forall (fun w => c ∉ w) ws -> c ∉ join [d] ws.
Proof.
  intros Hcd Hw. destruct ws as [|w ws]; [apply not_elem_of_nil|]. rewrite join_first. apply Forall_cons in Hw as [H1 H2].
  rewrite elem_of_app. intros [|Hin]; [done|]. rewrite list_elem_of_In, in_concat in Hin. destruct Hin as (p & (x & <- & Hx)%in_map_iff & Hp).
  destruct Hp as [|Hp]; [done|]. rewrite Forall_forall in H2. apply (H2 x); by apply list_elem_of_In.
Qed.

Context (normalize_import_value : Value -> option text -> Value) (generated : TableImportGenerator -> Value) (plan : CompiledImportPlan).
Notation copy_row row sequence := (build_postgres_copy_text_row normalize_import_value generated row plan sequence).
Notation mapped_row row sequence := (map_import_row_with_plan normalize_import_value generated row plan sequence).

Lemma copy_row_reads row sequence line rest rows : plan.(column_sources) <> [] -> copy_row row sequence = Ok line ->
  copy_read rest = Some rows -> copy_read (line ++ rest) = Some (map copied (mapped_row row sequence) :: rows).
Proof.
  intros Hp E Hrest. unfold build_postgres_copy_text_row in E. destruct (copy_fields true _) as [fields|e] eqn:Ef; [|done]. injection E as <-.
  apply copy_fields_line in Ef as (ws & -> & Hm & Hne & Hclean).
  2: { unfold map_import_row_with_plan. destruct plan.(column_sources); [done|]. rewrite imap_cons. done. }
  unfold copy_read in *. cbn [app]. rewrite <- app_assoc. cbn [app]. rewrite split_on_first.
  2: { apply join_clean; [done|]. eapply Forall_impl; [exact Hclean|]. by intros w [_ ?]. }
  assert (Hl : split_on Csv.c_lf rest <> []) by (destruct rest as [|c rest']; [done|]; cbn [split_on]; destruct (c =? Csv.c_lf)%Z; [done|]; by case_match).
  destruct (split_on Csv.c_lf rest) as [|l ls] eqn:El; [done|].
  change (copy_lines (join [Csv.c_tab] ws :: l :: ls)) with
    (r ← copy_line (join [Csv.c_tab] ws); rs ← copy_lines (l :: ls); Some (r :: rs)).
  unfold copy_line. rewrite split_joined, Hm; [|done|eapply Forall_impl; [exact Hclean|]; by intros w [? _]]. cbn [mbind option_bind]. by rewrite Hrest.
Qed.

(** ** The accumulator *)

(** Batches that were sent, with the answer of the server; the server and the
    user decide as they like. *)
Definition log := list (text * bool).
Context (server : log -> text -> result unit text) (user : log -> bool).

Definition copy_in (sql data : text) : M log (result unit text) := fun l => let r := server l data in (r, l ++ [(data, is_ok r)]).
Definition is_cancelled : M log bool := fun l => (user l, l).

(** The accumulator holds the lines of some rows. *)
Definition accumulates (a : PostgresCopyAccumulator) (lines : list text) : Prop :=
  a.(data) = concat lines /\ a.(row_count) = Z.of_nat (length lines).

Definition within_limits (a : PostgresCopyAccumulator) (lines : list text) : Prop :=
  (Z.of_nat (length lines) <= a.(max_rows))%Z /\ ((data_len (concat lines) <= a.(target_bytes))%Z \/ length lines <= 1).

Definition same_limits (a b : PostgresCopyAccumulator) : Prop := a.(target_bytes) = b.(target_bytes) /\ a.(max_rows) = b.(max_rows).

(** The batches that were accepted, and one that was not, which ends the run. *)
Definition sent (accepted : list (list text)) (rejected : option (list text)) : log :=
  map (fun b => (concat b, true)) accepted ++ match rejected with Some b => [(concat b, false)] | None => [] end.

Lemma flush_between_spec wanted imported a lines l : accumulates a lines -> (wanted = true -> lines <> []) ->
  let '(res, a', l') := (let '((res, a'), l') := flush_between copy_in is_cancelled wanted imported a l in (res, a', l')) in
  same_limits a a' /\
  match res with
  | Ok n => (l' = l /\ a' = a /\ wanted = false /\ n = imported) \/
      (wanted = true /\ l' = l ++ [(concat lines, true)] /\ accumulates a' [] /\ n = Csv.saturating_add imported (Z.of_nat (length lines)))
  | Err e => wanted = true /\ e.(rows_imported) = imported /\
      ((l' = l /\ a' = a) \/ (l' = l ++ [(concat lines, false)] /\ accumulates a' []))
  end.
Proof.
  intros [Hd Hc] Hw. unfold flush_between. destruct wanted; [|simpl; split; [done|]; by left]. specialize (Hw eq_refl).
  unfold ensure_import_write_allowed, bind, is_cancelled, ret. destruct (user l).
  { split; [done|]. split_and!; [done..|by left]. }
  unfold flush_postgres_copy_accumulator, take_batch, is_empty. rewrite Hc.
  assert ((Z.of_nat (length lines) =? 0)%Z = false) as -> by (apply Z.eqb_neq; destruct lines; [done|simpl; lia]).
  cbn [batch_sql batch_data batch_rows]. unfold bind, copy_in, ret. rewrite Hd. destruct (server l (concat lines)) as [[]|e]; simpl.
  - split; [done|]. by right.
  - split; [done|]. split_and!; [done..|]. by right.
Qed.

(** Rows with their numbers in the source. *)
Definition numbered (offset : Z) (rows : list (list Value)) : list (Z * list Value) := imap (fun i row => ((offset + Z.of_nat i + 1)%Z, row)) rows.

Lemma numbered_cons offset row rows : numbered offset (row :: rows) = ((offset + 1)%Z, row) :: numbered (offset + 1) rows.
Proof. unfold numbered. rewrite imap_cons. f_equal; [f_equal; lia|]. apply imap_ext. intros i x _. simpl. f_equal. lia. Qed.

(** What a run over [rows] did: it encoded the first of them, in order, and each
    of these lines, after those held before, is in one batch that was accepted,
    in the one that was rejected, or still held. *)
Definition copy_run (a : PostgresCopyAccumulator) (held : list text) (imported : Z) (rows : list (Z * list Value)) (events : log)
    (res : result Z ImportRowsBatchError) (a' : PostgresCopyAccumulator) : Prop :=
  exists lines accepted rejected pending,
    Forall2 (fun r line => copy_row r.2 r.1 = Ok line) (take (length lines) rows) lines /\
    events = sent accepted rejected /\
    held ++ lines = concat accepted ++ default [] rejected ++ pending /\
    accumulates a' pending /\ Forall (within_limits a) (accepted ++ option_list rejected) /\ within_limits a pending /\
    match res with
    | Ok n => length lines = length rows /\ rejected = None /\ n = (imported + Z.of_nat (length (concat accepted)))%Z
    | Err e => e.(rows_imported) = (imported + Z.of_nat (length (concat accepted)))%Z
    end.

Lemma data_len_app s t : data_len (s ++ t) = (data_len s + data_len t)%Z.
Proof. unfold data_len. rewrite byte_len_app. lia. Qed.

Lemma append_limits a held line : a.(target_bytes) <> Csv.usize_max -> (0 < a.(target_bytes) <= Csv.usize_max)%Z -> (0 < a.(max_rows) < Csv.usize_max)%Z ->
  accumulates a held -> should_flush_before a (data_len line) = false -> within_limits a (held ++ [line]).
Proof.
  intros Hne Ht Hm [Hd Hc] Hf. unfold should_flush_before, is_empty in Hf. rewrite Hc in Hf. unfold within_limits. rewrite length_app. cbn [length].
  destruct held as [|h held]; [split; [simpl; lia|right; simpl; lia]|]. cbn [length Z.of_nat Z.eqb negb andb] in Hf.
  apply orb_false_elim in Hf as [H1 H2]. apply Z.ltb_ge in H1, H2. unfold Csv.saturating_add in *. rewrite Hd in H1. split; [simpl in *; lia|left].
  rewrite concat_app, data_len_app. simpl concat. rewrite app_nil_r. simpl in H1. lia.
Qed.

Lemma limits_same a b lines : same_limits a b -> within_limits a lines <-> within_limits b lines.
Proof. intros [H1 H2]. unfold within_limits. by rewrite H1, H2. Qed.

Lemma run_same a b held imported rows events res a' : same_limits a b ->
  copy_run a held imported rows events res a' -> copy_run b held imported rows events res a'.
Proof.
  intros Hs (lines & acc & rej & pending & H1 & H2 & H3 & H4 & H5 & H6 & H7). exists lines, acc, rej, pending. split_and!; try done.
  - eapply Forall_impl; [exact H5|]. intros b'. by apply (limits_same a b).
  - by apply (limits_same a b).
Qed.

Lemma run_after a acc held held1 imported rows events res a' : held = concat acc ++ held1 -> Forall (within_limits a) acc ->
  copy_run a held1 (imported + Z.of_nat (length (concat acc))) rows events res a' ->
  copy_run a held imported rows (map (fun b => (concat b, true)) acc ++ events) res a'.
Proof.
  intros -> Hacc (lines & acc' & rej & pending & H1 & -> & H3 & H4 & H5 & H6 & H7). exists lines, (acc ++ acc'), rej, pending. split_and!; try done.
  - unfold sent. by rewrite map_app, <- app_assoc.
  - rewrite concat_app, <- !app_assoc. by rewrite H3.
  - rewrite <- app_assoc. apply Forall_app. by split.
  - rewrite concat_app, length_app. destruct res; [destruct H7 as (? & ? & ?); split_and!; try done; lia|lia].
Qed.

Lemma run_line a held imported n row line rows events res a' : copy_row row n = Ok line ->
  copy_run a (held ++ [line]) imported rows events res a' -> copy_run a held imported ((n, row) :: rows) events res a'.
Proof.
  intros Hl (lines & acc & rej & pending & H1 & H2 & H3 & H4 & H5 & H6 & H7). exists (line :: lines), acc, rej, pending. split_and!; try done.
  - simpl. by constructor.
  - by rewrite <- H3, <- app_assoc.
  - destruct res; [|done]. destruct H7 as (? & ? & ?). split_and!; try done. simpl. by f_equal.
Qed.

Lemma run_stop a held imported rows e a' : accumulates a' held -> within_limits a held -> e.(rows_imported) = imported ->
  copy_run a held imported rows [] (Err e) a'.
Proof. intros Ha Hl He. exists [], [], None, held. split_and!; try done; [by rewrite app_nil_r|simpl; lia]. Qed.

Lemma run_reject a held imported rows e a' : accumulates a' [] -> within_limits a held -> within_limits a [] -> e.(rows_imported) = imported ->
  copy_run a held imported rows [(concat held, false)] (Err e) a'.
Proof. intros Ha Hl Hn He. exists [], [], (Some held), []. split_and!; try done; [by constructor|simpl; lia]. Qed.

Lemma nothing_within a : (0 < a.(max_rows))%Z -> within_limits a [].
Proof. intros Hm. split; [simpl; lia|right; simpl; lia]. Qed.

(** A flush, as the batches it sent. *)
Lemma flush_run wanted imported a held l : accumulates a held -> within_limits a held -> (0 < a.(max_rows))%Z -> (wanted = true -> held <> []) ->
  (0 <= imported)%Z -> (imported + Z.of_nat (length held) <= Csv.usize_max)%Z ->
  let '((res, a'), l') := flush_between copy_in is_cancelled wanted imported a l in
  same_limits a a' /\
  match res with
  | Ok n => exists acc held', held = concat acc ++ held' /\ Forall (within_limits a) acc /\ l' = l ++ map (fun b => (concat b, true)) acc /\
      accumulates a' held' /\ n = (imported + Z.of_nat (length (concat acc)))%Z /\ (held' = [] \/ (held' = held /\ wanted = false /\ a' = a))
  | Err e => exists events, l' = l ++ events /\ forall rows, copy_run a held imported rows events (Err e) a'
  end.
Proof.
  intros Ha Hl Hm Hw Hi Hmax. pose proof (flush_between_spec wanted imported a held l Ha Hw) as Hs.
  destruct (flush_between copy_in is_cancelled wanted imported a l) as [[[n|e] a'] l']; destruct Hs as [Hsame Hs]; (split; [done|]).
  - destruct Hs as [(-> & -> & Hf & ->)|(Hf & -> & Ha' & ->)].
    + exists [], held. split_and!; try done; [by rewrite app_nil_r|simpl; lia|by right].
    + exists [held], []. split_and!; try done; [simpl; by rewrite !app_nil_r|by constructor|simpl; rewrite app_nil_r; unfold Csv.saturating_add; lia|by left].
  - destruct Hs as (_ & He & [[-> ->]|[-> Ha']]).
    + exists []. rewrite app_nil_r. split; [done|]. intros rows. by apply run_stop.
    + eexists. split; [done|]. intros rows. apply run_reject; try done. by apply nothing_within.
Qed.

Lemma append_rows_spec rows offset idx imported a held l :
  a.(target_bytes) <> Csv.usize_max -> (0 < a.(target_bytes) <= Csv.usize_max)%Z -> (0 < a.(max_rows) < Csv.usize_max)%Z ->
  (0 <= imported)%Z -> (imported + Z.of_nat (length held + length rows) <= Csv.usize_max)%Z ->
  accumulates a held -> within_limits a held ->
  let '((res, a'), l') := append_rows_from normalize_import_value generated copy_in is_cancelled rows plan offset idx imported a l in
  exists events, l' = l ++ events /\ copy_run a held imported (numbered (offset + idx) rows) events res a'.
Proof.
  revert idx imported a held l. induction rows as [|row rows IH]; intros idx imported a held l Hne Ht Hm Hi Hmax Ha Hl.
  { exists []. rewrite app_nil_r. split; [done|]. exists [], [], None, held. split_and!; try done; [by rewrite app_nil_r|simpl; lia]. }
  rewrite numbered_cons. cbn [append_rows_from]. destruct (copy_row row (offset + idx + 1)) as [line|e] eqn:El.
  2: { exists []. rewrite app_nil_r. split; [done|]. by apply run_stop. }
  assert (Hw : should_flush_before a (data_len line) = true -> held <> []).
  { intros Hf ->. destruct Ha as [_ Hc]. unfold should_flush_before, is_empty in Hf. by rewrite Hc in Hf. }
  simpl in Hmax. pose proof (flush_run _ imported a held l Ha Hl ltac:(lia) Hw Hi ltac:(lia)) as Hf1.
  unfold bind at 1. destruct (flush_between copy_in is_cancelled (should_flush_before a (data_len line)) imported a l) as [[[n1|e1] a1] l1] eqn:E1;
    destruct Hf1 as [Hs1 Hf1]; [|destruct Hf1 as (events & -> & Hrun); by exists events].
  destruct Hf1 as (acc1 & held1 & Eh & Hacc1 & -> & Ha1 & -> & Hcase). destruct Hs1 as [Hs1 Hs2].
  assert (Hl1 : within_limits a (held1 ++ [line])).
  { destruct Hcase as [->|(-> & Hnf & ->)]; [split; [simpl; lia|right; simpl; lia]|]. by apply append_limits. }
  assert (Hlen : length held = length (concat acc1) + length held1) by (by rewrite Eh, length_app).
  set (a2 := append_row line a1). assert (Hs3 : same_limits a a2) by (split; simpl; congruence).
  assert (Ha2 : accumulates a2 (held1 ++ [line])).
  { destruct Ha1 as [Hd1 Hc1]. split; simpl; [rewrite concat_app, Hd1; simpl; by rewrite app_nil_r|rewrite Hc1, length_app; simpl; lia]. }
  pose proof (flush_run (should_flush_after_append a2) (imported + Z.of_nat (length (concat acc1))) a2 (held1 ++ [line]) (l ++ map (fun b => (concat b, true)) acc1) Ha2
    ltac:(by apply (limits_same a a2)) ltac:(destruct Hs3 as [_ <-]; lia) ltac:(intros _; by destruct held1) ltac:(lia) ltac:(rewrite length_app; simpl; lia)) as Hf2.
  cbv beta. unfold bind at 1. destruct (flush_between copy_in is_cancelled (should_flush_after_append a2) _ a2 _) as [[[n2|e2] a3] l2] eqn:E2;
    destruct Hf2 as [Hs4 Hf2].
  2: { destruct Hf2 as (events & -> & Hrun). eexists. split; [by rewrite <- app_assoc|]. apply (run_after a acc1 held held1); [done..|]. apply run_line with line; [done|].
       by apply (run_same a2 a). }
  destruct Hf2 as (acc2 & held2 & Eh2 & Hacc2 & -> & Ha3 & -> & Hcase2).
  assert (Hs5 : same_limits a a3) by (destruct Hs3, Hs4; split; congruence).
  assert (Hlen2 : length held1 + 1 = length (concat acc2) + length held2) by (rewrite <- length_app, <- Eh2, length_app; done).
  assert (Hl3 : within_limits a held2).
  { destruct Hcase2 as [->|(-> & _ & _)]; [apply nothing_within; lia|done]. }
  destruct Hs5 as [Hs5 Hs6].
  specialize (IH (idx + 1)%Z (imported + Z.of_nat (length (concat acc1)) + Z.of_nat (length (concat acc2)))%Z a3 held2
    ((l ++ map (fun b => (concat b, true)) acc1) ++ map (fun b => (concat b, true)) acc2)
    ltac:(congruence) ltac:(lia) ltac:(lia) ltac:(lia) ltac:(lia) Ha3 ltac:(by apply (limits_same a a3))).
  destruct (append_rows_from _ _ _ _ rows plan offset (idx + 1) _ a3 _) as [[res a'] l']. destruct IH as (events & -> & Hrun).
  eexists. split; [by rewrite <- !app_assoc|]. apply (run_after a acc1 held held1); [done..|]. apply run_line with line; [done|].
  apply (run_after a acc2 (held1 ++ [line]) held2); [done|eapply Forall_impl; [exact Hacc2|]; intros b; by apply (limits_same a2 a)|].
  rewrite Z.add_assoc in Hrun. by apply (run_same a3 a).
Qed.

(** C27. The fast path sends every row once.  However the server and the user answer:
    a first part of the rows, all of them if the run succeeds, is encoded in
    order; the lines sent, in the batches the server accepted and in the one it did not, and
    the lines still held are exactly these, in order; no batch has more rows or
    bytes than the limits, a single row apart; the number reported, as a result
    or with an error, is that of the rows in accepted batches, and PostgreSQL
    reads such a batch as the values of its rows. *)
Theorem copy_sends_every_row_once sql target rows_limit rows offset :
  (target < Csv.usize_max)%Z -> (rows_limit < Csv.usize_max)%Z -> (Z.of_nat (length rows) <= Csv.usize_max)%Z ->
  let a := with_limits sql target rows_limit in
  let '((res, a'), l) := append_postgres_copy_rows normalize_import_value generated copy_in is_cancelled rows plan a offset [] in
  copy_run a [] 0 (numbered offset rows) l res a' /\
  (plan.(column_sources) <> [] -> forall numbered_rows lines, Forall2 (fun r line => copy_row r.2 r.1 = Ok line) numbered_rows lines ->
     copy_read (concat lines) = Some (map (fun r => map copied (mapped_row r.2 r.1)) numbered_rows)).
Proof.
  intros Ht Hm Hr. cbn zeta. unfold append_postgres_copy_rows. set (a := with_limits sql target rows_limit).
  assert (Hmax : (1 < Csv.usize_max)%Z) by done.
  pose proof (append_rows_spec rows offset 0 0 a [] [] ltac:(simpl; lia) ltac:(simpl; lia) ltac:(simpl; lia) ltac:(lia) ltac:(simpl; lia)
    ltac:(done) ltac:(apply nothing_within; simpl; lia)) as Hs.
  destruct (append_rows_from normalize_import_value generated copy_in is_cancelled rows plan offset 0 0 a []) as [[res a'] l]. destruct Hs as (events & -> & Hrun). rewrite Z.add_0_r in Hrun.
  split; [done|]. intros Hp nrows lines Hl. induction Hl as [|[n row] line nrows lines E _ IH]; [done|]. cbn [concat map]. by apply copy_row_reads.
Qed.
End copy.

(** ** Runs *)

Module ImportRuns.
Import Plan PgCopy ExportRuns CsvMachine.

#[local] Instance ascii_case : UnicodeCase := {| to_lowercase := map to_ascii_lowercase; to_uppercase := map to_ascii_uppercase |}.

#[local] Instance ascii_case_laws : UnicodeCaseLaws.
Proof.
  split; intros x a b _; [exists (map to_ascii_lowercase x), (map to_ascii_lowercase b)|exists (map to_ascii_uppercase x), (map to_ascii_uppercase b)];
    (split_and!; [by rewrite <- !map_app|by intros ->|by intros ->]).
Qed.

(** Two rows after a title, in batches of one row; the last record is after the
    range. *)
Definition two_rows : DelimitedParseConfig :=
  {| delimiter := Csv.c_comma; decimal_separator := 46; trim_values := false; empty_string_as_null := false; null_literal := None;
     row_range := {| title_row := Some 1%Z; data_start_row := 2; last_data_row := Some 3%Z |} |}.

Definition records : list (result (list text) text) := [Ok [txt "a"; txt "A"]; Ok [txt "1"]; Ok [txt "2"; txt "x"]; Ok [txt "3"]].

Lemma two_rows_wf : wf_range two_rows.(row_range).
Proof. constructor; simpl; [lia|intros t [= <-]; lia|intros l [= <-]; lia]. Qed.

Lemma stream_sends_the_parsed_rows_witness :
  stream_delimited_rows_to_channel two_rows 1 records =
    ([StreamHeader [txt "a"; txt "A_1"]; StreamRows [[VString (txt "1"); VNull]]; StreamRows [[VString (txt "2"); VString (txt "x")]]; StreamDone], None) /\
  exists columns batches, stream_delimited_rows_to_channel two_rows 1 records = (StreamHeader columns :: map StreamRows batches ++ [StreamDone], None) /\
    parse_csv_reader two_rows 9 Utf8 records =
      Ok {| columns := columns; rows := concat batches; total_rows := length (concat batches); effective_encoding := Some Utf8 |}.
Proof.
  assert (E : stream_delimited_rows_to_channel two_rows 1 records =
    ([StreamHeader [txt "a"; txt "A_1"]; StreamRows [[VString (txt "1"); VNull]]; StreamRows [[VString (txt "2"); VString (txt "x")]]; StreamDone], None))
    by (vm_compute; reflexivity).
  split; [exact E|]. assert (Hne : (Ok [] : result (list text) text) ∉ records) by (unfold records; set_solver).
  pose proof (stream_sends_the_parsed_rows two_rows two_rows_wf 1 Utf8 records 9 ltac:(vm_compute; discriminate) ltac:(simpl; lia) Hne) as Hs.
  rewrite E in Hs |- *. destruct Hs as (columns & batches & Em & _ & _ & Hp). exists columns, batches. split; [by rewrite Em|exact Hp].
Defined.

(** A table with a formula, NULL, the empty text and the text of NULL. *)
Definition note_names : list text := [txt "id"; txt "note"].
Definition notes : list (list Value) :=
  [[VNumber (txt "-1"); VString (txt "=1,2")]; [VNull; VString []]; [VBool true; VString (txt "it's")]].


(** Names that only differ in case, and one that is taken by a suffix. *)
Lemma import_headers_are_distinct_witness :
  unique_import_headers [txt "id"; txt "ID"; txt "id_1"; txt "Id"] = [txt "id"; txt "ID_1"; txt "id_1_1"; txt "Id_2"] /\
  NoDup (map to_lowercase (unique_import_headers [txt "id"; txt "ID"; txt "id_1"; txt "Id"])).
Proof. split; [vm_compute; reflexivity|]. exact (proj1 (import_headers_are_distinct [txt "id"; txt "ID"; txt "id_1"; txt "Id"])). Defined.

(** Two rows a batch, a server that refuses its third batch. *)
Definition third_fails (l : log) (_ : text) : result unit text := if 1 <? length l then Err (txt "deadlock") else Ok tt.
Definition one_column : CompiledImportPlan := {| target_columns := [txt "a"]; column_types := [None]; column_sources := [SourceIndex 0] |}.
Definition seven_rows : list (list Value) := map (fun s => [VString (txt s)]) ["a"; "b"; "c"; "d"; "e"; "f"; "g"].
Definition copied_run : (result Z ImportRowsBatchError * PostgresCopyAccumulator) * log :=
  append_postgres_copy_rows (fun v _ => v) (fun _ => VNull) (copy_in third_fails) (is_cancelled (fun _ => false)) seven_rows one_column
    (with_limits (txt "COPY") 100 2) 0 [].

Lemma copy_sends_every_row_once_witness :
  (copied_run.1.1, map snd copied_run.2) = (Err (with_rows_imported 4 (txt "deadlock")), [true; true; false]) /\
  copy_run (fun v _ => v) (fun _ => VNull) one_column (with_limits (txt "COPY") 100 2) [] 0 (numbered 0 seven_rows)
    copied_run.2 copied_run.1.1 copied_run.1.2.
Proof.
  split; [vm_compute; reflexivity|].
  pose proof (copy_sends_every_row_once (fun v _ => v) (fun _ => VNull) one_column third_fails (fun _ => false) (txt "COPY") 100 2 seven_rows 0
    ltac:(vm_compute; reflexivity) ltac:(vm_compute; reflexivity) ltac:(vm_compute; discriminate)) as Hs.
  cbn zeta in Hs. fold copied_run in Hs. destruct copied_run as [[res a'] l]. exact (proj1 Hs).
Defined.

(** A formula-like text comes back with the guard: the import does not take it off. *)
Example guard_stays : csv_value_with_config (guarded (txt "=1+1")) import_config = VString (txt "'=1+1") /\
  Csv.strip_formula_guard (guarded (txt "=1+1")) = txt "=1+1".
Proof. by split. Qed.

(** NULL written with a literal that looks like a formula is not read as NULL. *)
Example guarded_null_is_text :
  csv_value_with_config (guarded (txt "-"))
    {| delimiter := Csv.c_comma; decimal_separator := 46; trim_values := false; empty_string_as_null := false; null_literal := Some (txt "-");
       row_range := import_config.(row_range) |} = VString (txt "'-").
Proof. reflexivity. Qed.
End ImportRuns.
