(* ===== verification/Backup.v ===== *)
(** * Scheduled backups

    Models [crates/dbx-core/src/scheduled_backup/]: [models.rs] (validation, the
    next time of a schedule, names of files and directories), [store.rs] (the
    SQLite tables of schedules and runs, every operation on them), and of
    [service.rs] and [engine.rs] the deletion of runs with their files, imports,
    downloads, retention and the loop of the worker.

    A string is its Unicode scalar values.  Instants and local times are in
    nanoseconds; the calendar, the time zones and the texts of instants are the
    chrono crates' ([Calendar]), payloads are serialised by serde ([Serde]).  Paths are
    those of Unix.  Every operation of the store is one SQLite transaction: it
    may fail, which changes nothing. *)

From S2P Require Import Prelude Json Containers Float64.
From Stdlib Require Import SpecFloat.

(** ** Texts *)

Definition is_separator (c : Z) : bool := (c =? 47)%Z || (c =? 92)%Z.
Definition replace_text (pattern : string) (by_text s : text) : text := replace_fuel (length s) (txt pattern) by_text s.
Definition starts_with_char (p : Z -> bool) (s : text) : bool := match s with c :: _ => p c | [] => false end.
Definition ends_with_char (p : Z -> bool) (s : text) : bool := starts_with_char p (reverse s).
Definition has_prefix (p s : text) : bool := bool_decide (take (length p) s = p).
Definition has_suffix (p s : text) : bool := has_prefix (reverse p) (reverse s).

(** The order of texts in SQLite. *)
Fixpoint text_leb (a b : text) : bool :=
  match a, b with
  | [], _ => true
  | _ :: _, [] => false
  | x :: a, y :: b => (x <? y)%Z || ((x =? y)%Z && text_leb a b)
  end.
Definition text_le (a b : text) : Prop := text_leb a b = true.

#[global] Instance text_le_dec : RelDecision text_le := fun a b => decide (text_leb a b = true).

Module Models.
(** ** Data *)

Record BackupTableTarget := {
  target_database : text;
  target_schema : text;
  target_table : text;
}.

Record BackupConfig := {
  connection_id : text;
  databases : list text;
  table_filter_mode : text;
  table_patterns : list text;
  selected_tables : list BackupTableTarget;
  destination_directory : text;
  include_structure : bool;
  include_data : bool;
  include_objects : bool;
  drop_table_if_exists : bool;
  output_compression : text;
  file_name_pattern : option text;
}.

Record BackupSchedule := {
  id : text;
  name : text;
  enabled : bool;
  config : BackupConfig;
  frequency : text;
  interval_hours : Z;
  time_of_day : text;
  weekday : Z;
  retention_count : Z;
  run_directory_pattern : option text;
  time_zone : text;
  created_at : text;
  updated_at : text;
  next_run_at : text;
  last_run_at : option text;
  last_run_status : option text;
}.

#[global] Instance set_created_at : Setter created_at := fun v r =>
  {| id := r.(id); name := r.(name); enabled := r.(enabled); config := r.(config); frequency := r.(frequency); interval_hours :=
     r.(interval_hours); time_of_day := r.(time_of_day); weekday := r.(weekday); retention_count := r.(retention_count);
     run_directory_pattern := r.(run_directory_pattern); time_zone := r.(time_zone); created_at := v; updated_at := r.(updated_at);
     next_run_at := r.(next_run_at); last_run_at := r.(last_run_at); last_run_status := r.(last_run_status) |}.

#[global] Instance set_updated_at : Setter updated_at := fun v r =>
  {| id := r.(id); name := r.(name); enabled := r.(enabled); config := r.(config); frequency := r.(frequency); interval_hours :=
     r.(interval_hours); time_of_day := r.(time_of_day); weekday := r.(weekday); retention_count := r.(retention_count);
     run_directory_pattern := r.(run_directory_pattern); time_zone := r.(time_zone); created_at := r.(created_at); updated_at := v;
     next_run_at := r.(next_run_at); last_run_at := r.(last_run_at); last_run_status := r.(last_run_status) |}.

#[global] Instance set_next_run_at : Setter next_run_at := fun v r =>
  {| id := r.(id); name := r.(name); enabled := r.(enabled); config := r.(config); frequency := r.(frequency); interval_hours :=
     r.(interval_hours); time_of_day := r.(time_of_day); weekday := r.(weekday); retention_count := r.(retention_count);
     run_directory_pattern := r.(run_directory_pattern); time_zone := r.(time_zone); created_at := r.(created_at); updated_at :=
     r.(updated_at); next_run_at := v; last_run_at := r.(last_run_at); last_run_status := r.(last_run_status) |}.

#[global] Instance set_last_run_at : Setter last_run_at := fun v r =>
  {| id := r.(id); name := r.(name); enabled := r.(enabled); config := r.(config); frequency := r.(frequency); interval_hours :=
     r.(interval_hours); time_of_day := r.(time_of_day); weekday := r.(weekday); retention_count := r.(retention_count);
     run_directory_pattern := r.(run_directory_pattern); time_zone := r.(time_zone); created_at := r.(created_at); updated_at :=
     r.(updated_at); next_run_at := r.(next_run_at); last_run_at := v; last_run_status := r.(last_run_status) |}.

#[global] Instance set_last_run_status : Setter last_run_status := fun v r =>
  {| id := r.(id); name := r.(name); enabled := r.(enabled); config := r.(config); frequency := r.(frequency); interval_hours :=
     r.(interval_hours); time_of_day := r.(time_of_day); weekday := r.(weekday); retention_count := r.(retention_count);
     run_directory_pattern := r.(run_directory_pattern); time_zone := r.(time_zone); created_at := r.(created_at); updated_at :=
     r.(updated_at); next_run_at := r.(next_run_at); last_run_at := r.(last_run_at); last_run_status := v |}.

Record BackupFile := {
  file_database : text;
  file_schema : text;
  file_display_name : text;
  file_path : text;
  owned : bool;
}.

Record BackupRun := {
  run_id : text;
  schedule_id : option text;
  schedule_name : text;
  display_name : option text;
  run_connection_id : text;
  connection_name : text;
  run_destination : text;
  trigger : text;
  source : text;
  status : text;
  started_at : text;
  completed_at : option text;
  files : list BackupFile;
  progress_percent : f64;
  error : option text;
}.

#[global] Instance set_status : Setter status := fun v r =>
  {| run_id := r.(run_id); schedule_id := r.(schedule_id); schedule_name := r.(schedule_name); display_name := r.(display_name);
     run_connection_id := r.(run_connection_id); connection_name := r.(connection_name); run_destination := r.(run_destination);
     trigger := r.(trigger); source := r.(source); status := v; started_at := r.(started_at); completed_at := r.(completed_at); files
     := r.(files); progress_percent := r.(progress_percent); error := r.(error) |}.

#[global] Instance set_completed_at : Setter completed_at := fun v r =>
  {| run_id := r.(run_id); schedule_id := r.(schedule_id); schedule_name := r.(schedule_name); display_name := r.(display_name);
     run_connection_id := r.(run_connection_id); connection_name := r.(connection_name); run_destination := r.(run_destination);
     trigger := r.(trigger); source := r.(source); status := r.(status); started_at := r.(started_at); completed_at := v; files :=
     r.(files); progress_percent := r.(progress_percent); error := r.(error) |}.

#[global] Instance set_files : Setter files := fun v r =>
  {| run_id := r.(run_id); schedule_id := r.(schedule_id); schedule_name := r.(schedule_name); display_name := r.(display_name);
     run_connection_id := r.(run_connection_id); connection_name := r.(connection_name); run_destination := r.(run_destination);
     trigger := r.(trigger); source := r.(source); status := r.(status); started_at := r.(started_at); completed_at :=
     r.(completed_at); files := v; progress_percent := r.(progress_percent); error := r.(error) |}.

#[global] Instance set_error : Setter error := fun v r =>
  {| run_id := r.(run_id); schedule_id := r.(schedule_id); schedule_name := r.(schedule_name); display_name := r.(display_name);
     run_connection_id := r.(run_connection_id); connection_name := r.(connection_name); run_destination := r.(run_destination);
     trigger := r.(trigger); source := r.(source); status := r.(status); started_at := r.(started_at); completed_at :=
     r.(completed_at); files := r.(files); progress_percent := r.(progress_percent); error := v |}.

#[global] Instance set_display_name : Setter display_name := fun v r =>
  {| run_id := r.(run_id); schedule_id := r.(schedule_id); schedule_name := r.(schedule_name); display_name := v; run_connection_id :=
     r.(run_connection_id); connection_name := r.(connection_name); run_destination := r.(run_destination); trigger := r.(trigger);
     source := r.(source); status := r.(status); started_at := r.(started_at); completed_at := r.(completed_at); files := r.(files);
     progress_percent := r.(progress_percent); error := r.(error) |}.

#[global] Instance set_progress_percent : Setter progress_percent := fun v r =>
  {| run_id := r.(run_id); schedule_id := r.(schedule_id); schedule_name := r.(schedule_name); display_name := r.(display_name);
     run_connection_id := r.(run_connection_id); connection_name := r.(connection_name); run_destination := r.(run_destination);
     trigger := r.(trigger); source := r.(source); status := r.(status); started_at := r.(started_at); completed_at :=
     r.(completed_at); files := r.(files); progress_percent := v; error := r.(error) |}.

Record RunRequest := {
  request_schedule_id : option text;
  request_config : option BackupConfig;
  request_display_name : option text;
  request_time_zone : option text;
}.

Record Job := {
  job_run : BackupRun;
  job_config : BackupConfig;
  directory_pattern : option text;
  job_time_zone : text;
}.

Record Migration := {
  migration_schedules : list BackupSchedule;
  migration_runs : list BackupRun;
}.

Definition DEFAULT_DIRECTORY : text := txt "dbx-backup__{schedule}__{timestamp}__{runId}".
Definition DEFAULT_FILE : text := txt "dbx-backup__{schedule}__{timestamp}__{database}__{runId}".

(** ** Validation *)

Definition bounded_text (value : text) (max : Z) (label : string) : result unit text :=
  if bool_decide (trim_chars value = []) || (max <? Z.of_nat (byte_len value))%Z || existsb is_control value
  then Err (txt "Invalid " ++ txt label) else Ok tt.

Definition dots (part : text) : bool := bool_decide (part = txt ".") || bool_decide (part = txt "..").

Definition drive_prefix (value : text) : bool :=
  match value with c :: colon :: _ => (colon =? 58)%Z && is_ascii_alphabetic c | _ => false end.

Definition forbidden_in_file (c : Z) : bool := bool_decide (c ∈ [58; 42; 63; 34; 60; 62; 124]%Z).

Definition validate_template (value : text) (directory : bool) : result unit text :=
  let? _ := bounded_text value 1024 "backup name template" in
  if directory then
    if starts_with_char is_separator value || ends_with_char is_separator value || drive_prefix value || existsb dots (split_pred is_separator value)
    then Err (txt "Invalid backup directory template") else Ok tt
  else if negb (bool_decide (trim_chars value = value))
    || starts_with_char is_separator value
    || ends_with_char (fun c => is_separator c || (c =? 46)%Z || (c =? 32)%Z) value
    || existsb forbidden_in_file value
    || (negb directory && existsb is_separator value)
    || existsb (fun part => bool_decide (part = []) || dots part) (split_pred is_separator value)
  then Err (txt "Invalid backup name template") else Ok tt.

Fixpoint all_bounded (values : list text) (max : Z) (label : string) : result unit text :=
  match values with
  | [] => Ok tt
  | value :: values => let? _ := bounded_text value max label in all_bounded values max label
  end.

Definition one_of (value : text) (l : list string) : bool := existsb (fun s => bool_decide (value = txt s)) l.

Fixpoint validate_selected (databases : list text) (targets : list BackupTableTarget) : result unit text :=
  match targets with
  | [] => Ok tt
  | target :: targets =>
    let? _ := bounded_text target.(target_database) 1024 "Backup table database" in
    let? _ := bounded_text target.(target_schema) 1024 "Backup table schema" in
    let? _ := bounded_text target.(target_table) 1024 "Backup table name" in
    if bool_decide (target.(target_database) ∈ databases) then validate_selected databases targets
    else Err (txt "Selected backup table is outside the database scope")
  end.

(** [Path::is_absolute] on Unix. *)
Definition is_absolute (path : text) : bool := starts_with_char (Z.eqb 47) path.

Definition check (wrong : bool) (message : string) : result unit text := if wrong then Err (txt message) else Ok tt.

Definition validate_config (c : BackupConfig) : result unit text :=
  let? _ := bounded_text c.(connection_id) 256 "Connection" in
  let? _ := bounded_text c.(destination_directory) 4096 "Backup directory" in
  let? _ := check (negb (is_absolute c.(destination_directory))) "Backup directory must be absolute" in
  let? _ := check (negb c.(include_structure) && negb c.(include_data) && negb c.(include_objects)) "Select backup contents" in
  let? _ := check (negb (one_of c.(output_compression) ["none"; "gzip"; "nb3"])) "Unsupported backup compression" in
  let? _ := check (negb (one_of c.(table_filter_mode) ["all"; "include"; "exclude"; "selected"])) "Unsupported backup table filter" in
  let? _ := check ((10000 <? Z.of_nat (length c.(databases)))%Z || (1000 <? Z.of_nat (length c.(table_patterns)))%Z) "Too many backup targets or patterns" in
  let? _ := all_bounded (c.(databases) ++ c.(table_patterns)) 1024 "Backup target" in
  let? _ := check (one_of c.(table_filter_mode) ["include"; "exclude"] && bool_decide (c.(table_patterns) = [])) "Select backup table patterns" in
  let? _ := (if bool_decide (c.(table_filter_mode) = txt "selected") then
               let? _ := check (match c.(databases), c.(selected_tables) with _ :: _, _ :: _ => false | _, _ => true end)
                           "Select backup databases and tables" in
               let? _ := check (10000 <? Z.of_nat (length c.(selected_tables)))%Z "Too many selected backup tables" in
               validate_selected c.(databases) c.(selected_tables)
             else Ok tt) in
  validate_template (default DEFAULT_FILE c.(file_name_pattern)) false.

(** ** Names of files and directories *)

Definition unsafe_in_segment (c : Z) : bool := is_control c || bool_decide (c ∈ [92; 47; 58; 42; 63; 34; 60; 62; 124]%Z).

(** [s.trim_end_matches(['.', ' '])]. *)
Definition trim_dots (s : text) : text := reverse (span (fun c => (c =? 46)%Z || (c =? 32)%Z) (reverse s)).2.

Definition reserved_name (name : text) : bool :=
  let first := map to_ascii_uppercase (span (fun c => negb (c =? 46)%Z) name).1 in
  one_of first ["CON"; "PRN"; "AUX"; "NUL"]
  || (bool_decide (length first = 4) && (has_prefix (txt "COM") first || has_prefix (txt "LPT") first)
      && match first !! 3 with Some d => (49 <=? d)%Z && (d <=? 57)%Z | None => false end).

Definition segment (value : text) : text :=
  let cleaned := trim_dots (trim_chars (map (fun c => if unsafe_in_segment c then 95%Z else c) value)) in
  let name := match cleaned with [] => txt "database" | _ => cleaned end in
  if reserved_name name then name ++ [95%Z] else name.

(** ** Time *)

Definition second : Z := 1000000000.
Definition minute : Z := 60 * second.
Definition hour : Z := 60 * minute.
Definition day : Z := 24 * hour.

Inductive LocalResult := LocalNone | Single (t : Z) | Ambiguous (first last : Z).

(** chrono and chrono-tz: time zones by name, the offset from UTC at an instant,
    the instants of a local time, and the texts of times. *)
Class Calendar : Type := {
  Tz : Type;
  parse_tz : text -> option Tz;
  utc_offset : Tz -> Z -> Z;
  from_local_datetime : Tz -> Z -> LocalResult;
  parse_time_of_day : text -> option Z;
  to_rfc3339 : Z -> text;
  parse_rfc3339 : text -> option Z;
  format_local : Tz -> Z -> string -> text;
}.

Class CalendarLaws `{Calendar} : Prop := {
  offset_bounded tz t : (- day < utc_offset tz t < day)%Z;
  local_none tz l : from_local_datetime tz l = LocalNone -> forall t, (t + utc_offset tz t <> l)%Z;
  local_single tz l t : from_local_datetime tz l = Single t -> (t + utc_offset tz t = l)%Z /\ forall t', (t' + utc_offset tz t' = l)%Z -> t' = t;
  local_ambiguous tz l a b : from_local_datetime tz l = Ambiguous a b ->
    (a < b)%Z /\ (a + utc_offset tz a = l)%Z /\ (b + utc_offset tz b = l)%Z /\ forall t', (t' + utc_offset tz t' = l)%Z -> t' = a \/ t' = b;
  time_of_day_bounded s t : parse_time_of_day s = Some t -> (0 <= t < day)%Z;
  rfc3339_read_back t : parse_rfc3339 (to_rfc3339 t) = Some t;
}.

Section timing.
Context `{Calendar}.

(** [date_naive()] of an instant: days since 1970-01-01, a Thursday. *)
Definition local_date (tz : Tz) (t : Z) : Z := ((t + utc_offset tz t) / day)%Z.
Definition num_days_from_sunday (date : Z) : Z := ((date + 4) mod 7)%Z.

(** The loop over minutes: the first of them that exists, at its first occurrence. *)
Fixpoint first_valid (tz : Tz) (local : Z) (minutes : list Z) : option Z :=
  match minutes with
  | [] => None
  | m :: minutes =>
    match from_local_datetime tz (local + m * minute)%Z with
    | Single t => Some t
    | Ambiguous first _ => Some first
    | LocalNone => first_valid tz local minutes
    end
  end.

Definition minutes_tried : list Z := map Z.of_nat (seq 0 180).
Definition occurrence (tz : Tz) (time date : Z) : option Z := first_valid tz (date * day + time)%Z minutes_tried.

Definition on_weekday (s : BackupSchedule) (date : Z) : bool :=
  negb (bool_decide (s.(frequency) = txt "weekly") && negb (num_days_from_sunday date =? s.(weekday))%Z).

(** The loop over days. *)
Fixpoint first_after (s : BackupSchedule) (tz : Tz) (time after today : Z) (offsets : list Z) : option Z :=
  match offsets with
  | [] => None
  | offset :: offsets =>
    let date := (today + offset)%Z in
    if on_weekday s date then
      match occurrence tz time date with
      | Some t => if (after <? t)%Z then Some t else first_after s tz time after today offsets
      | None => first_after s tz time after today offsets
      end
    else first_after s tz time after today offsets
  end.

Definition next_after (s : BackupSchedule) (after : Z) : result Z text :=
  if bool_decide (s.(frequency) = txt "hourly") then Ok (after + Z.max 1 (Z.min s.(interval_hours) 168) * hour)%Z
  else
    match parse_tz s.(time_zone), parse_time_of_day s.(time_of_day) with
    | None, _ => Err (txt "Invalid backup time zone")
    | Some _, None => Err (txt "Invalid backup time")
    | Some tz, Some time =>
      match first_after s tz time after (local_date tz after) (map Z.of_nat (seq 0 15)) with
      | Some t => Ok t
      | None => Err (txt "Unable to calculate next backup time")
      end
    end.

Definition validate_schedule (s : BackupSchedule) : result unit text :=
  let? _ := validate_config s.(config) in
  let? _ := bounded_text s.(id) 256 "Schedule ID" in
  let? _ := bounded_text s.(name) 256 "Schedule name" in
  let? _ := check (negb (one_of s.(frequency) ["hourly"; "daily"; "weekly"]) || negb ((1 <=? s.(interval_hours)) && (s.(interval_hours) <=? 168))%Z
      || (6 <? s.(weekday))%Z || negb ((0 <=? s.(retention_count)) && (s.(retention_count) <=? 1000))%Z) "Invalid backup schedule" in
  let? _ := check (bool_decide (parse_time_of_day s.(time_of_day) = None)) "Invalid backup time" in
  let? _ := match parse_tz s.(time_zone) with Some _ => Ok tt | None => Err (txt "Invalid backup time zone") end in
  validate_template (default DEFAULT_DIRECTORY s.(run_directory_pattern)) true.

(** ** Templates *)

Definition is_nonempty (s : text) : bool := negb (bool_decide (s = [])).

Fixpoint contains_text (pattern s : text) : bool :=
  has_prefix pattern s || match s with [] => false | _ :: rest => contains_text pattern rest end.

Definition render_template (template : text) (run : BackupRun) (database zone : text) (directory : bool) : result text text :=
  let? _ := validate_template template directory in
  match parse_tz zone, parse_rfc3339 run.(started_at) with
  | None, _ => Err (txt "Invalid backup time zone")
  | Some _, None => Err (txt "Invalid backup start time")
  | Some tz, Some started =>
    let timestamp := format_local tz started (if directory then "%Y%m%d%H%M%S" else "%Y%m%d-%H%M%S") in
    let rendered :=
      replace_text "{runId}" (take 8 run.(run_id))
        (replace_text "{timestamp}" timestamp
          (replace_text "{date}" (format_local tz started "%Y%m%d")
            (replace_text "{schedule}" (segment run.(schedule_name)) template))) in
    if directory then Ok (join [47%Z] (map segment (List.filter is_nonempty (split_pred is_separator rendered))))
    else if contains_text (txt "{database}") template then Ok (segment (replace_text "{database}" (segment database) rendered))
    else Ok (segment rendered ++ txt "__" ++ segment database)
  end.
End timing.
End Models.

Module Store.
Import Models.

(** ** Tables *)

Record run_row := {
  row_schedule : option text;
  row_state : text;
  row_payload : bytes;
  row_job : option bytes;
  row_created : text;
  row_cancel : bool;
}.

Record tables := {
  schedules_table : gmap text bytes;
  runs_table : gmap text run_row;
  metadata_table : gmap text text;
}.

Definition empty_tables : tables := {| schedules_table := ∅; runs_table := ∅; metadata_table := ∅ |}.

#[global] Instance set_schedules_table : Setter schedules_table := fun v d =>
  {| schedules_table := v; runs_table := d.(runs_table); metadata_table := d.(metadata_table) |}.
#[global] Instance set_runs_table : Setter runs_table := fun v d =>
  {| schedules_table := d.(schedules_table); runs_table := v; metadata_table := d.(metadata_table) |}.
#[global] Instance set_metadata_table : Setter metadata_table := fun v d =>
  {| schedules_table := d.(schedules_table); runs_table := d.(runs_table); metadata_table := v |}.

#[global] Instance set_row_state : Setter row_state := fun v r =>
  {| row_schedule := r.(row_schedule); row_state := v; row_payload := r.(row_payload); row_job := r.(row_job);
     row_created := r.(row_created); row_cancel := r.(row_cancel) |}.
#[global] Instance set_row_payload : Setter row_payload := fun v r =>
  {| row_schedule := r.(row_schedule); row_state := r.(row_state); row_payload := v; row_job := r.(row_job);
     row_created := r.(row_created); row_cancel := r.(row_cancel) |}.
#[global] Instance set_row_job : Setter row_job := fun v r =>
  {| row_schedule := r.(row_schedule); row_state := r.(row_state); row_payload := r.(row_payload); row_job := v;
     row_created := r.(row_created); row_cancel := r.(row_cancel) |}.
#[global] Instance set_row_cancel : Setter row_cancel := fun v r =>
  {| row_schedule := r.(row_schedule); row_state := r.(row_state); row_payload := r.(row_payload); row_job := r.(row_job);
     row_created := r.(row_created); row_cancel := v |}.

(** The order of runs, oldest first. *)
Definition run_le (a b : text * run_row) : Prop :=
  text_leb a.2.(row_created) b.2.(row_created) && (negb (bool_decide (a.2.(row_created) = b.2.(row_created))) || text_leb a.1 b.1) = true.
#[global] Instance run_le_dec : RelDecision run_le := fun a b => decide (_ = true).

Definition runs_by_age (d : tables) : list (text * run_row) := merge_sort run_le (map_to_list d.(runs_table)).

Definition queued : text := txt "queued".
Definition running : text := txt "running".
Definition deleting : text := txt "deleting".
Definition pending (r : run_row) : bool := one_of r.(row_state) ["queued"; "running"].
Definition completed (r : run_row) : bool := one_of r.(row_state) ["success"; "failed"; "cancelled"].

Definition active (d : tables) (schedule : text) : bool :=
  existsb (fun '(_, r) => bool_decide (r.(row_schedule) = Some schedule) && pending r) (map_to_list d.(runs_table)).
Definition pending_count (d : tables) : nat := length (List.filter (fun '(_, r) => pending r) (map_to_list d.(runs_table))).

Definition no_rows : text := txt "Query returned no rows".

(** serde_json with a derived serialiser. *)
Class Serde (A : Type) : Type := {
  encode : A -> result bytes text;
  decode : bytes -> result A text;
}.

(** Reading gives back what was written, up to [same]. *)
Class SerdeLaws (A : Type) `{Serde A} (same : A -> A -> Prop) : Prop := {
  encode_total a : exists v, encode a = Ok v;
  decode_encode a v : encode a = Ok v -> exists a', decode v = Ok a' /\ same a a';
}.

(** A run is read back except for the last digits of its progress, which the
    decimal text of a float does not keep. *)
Definition same_run (a b : BackupRun) : Prop := b = a <| progress_percent := b.(progress_percent) |>.
Definition same_job (a b : Job) : Prop :=
  same_run a.(job_run) b.(job_run) /\ b.(job_config) = a.(job_config) /\ b.(directory_pattern) = a.(directory_pattern) /\
  b.(job_time_zone) = a.(job_time_zone).

Section store.
Context `{Calendar} `{Serde BackupSchedule} `{Serde BackupRun} `{Serde Job}.

Fixpoint decode_all {A} `{Serde A} (rows : list bytes) : result (list A) text :=
  match rows with
  | [] => Ok []
  | v :: rows => let? a := decode v in let? l := decode_all rows in Ok (a :: l)
  end.

Definition schedules (d : tables) : result (list BackupSchedule) text := decode_all (map snd (btree_entries text_le d.(schedules_table))).
Definition run_rows (d : tables) : result (list BackupRun) text := decode_all (map (fun '(_, r) => r.(row_payload)) (reverse (runs_by_age d))).

(** An action on the tables: an error leaves them as they were. *)
Definition Tx (A : Type) : Type := tables -> result (A * tables) text.

Definition insert_row (key : text) (r : run_row) (d : tables) : result tables text :=
  match d.(runs_table) !! key with
  | Some _ => Err (txt "UNIQUE constraint failed: runs.id")
  | None => Ok (d <| runs_table := <[key := r]> d.(runs_table) |>)
  end.

(** The statement [UPDATE runs SET .. WHERE id=? AND ..]. *)
Definition update_row (key : text) (p : run_row -> bool) (f : run_row -> run_row) (d : tables) : tables :=
  match d.(runs_table) !! key with
  | Some r => if p r then d <| runs_table := <[key := f r]> d.(runs_table) |> else d
  | None => d
  end.

Definition select_payload (key : text) (p : run_row -> bool) (d : tables) : option bytes :=
  match d.(runs_table) !! key with Some r => if p r then Some r.(row_payload) else None | None => None end.

(** [fresh] is the new id and the time at which the job is made. *)
Definition insert_job (c : BackupConfig) (schedule : option BackupSchedule) (run_name : text) (run_trigger : string) (zone : option text)
    (fresh : text * Z) : Tx BackupRun := fun d =>
  if 100 <=? pending_count d then Err (txt "Too many pending backups")
  else
    let run :=
      {| run_id := fresh.1; schedule_id := id <$> schedule; schedule_name := run_name; display_name := None;
         run_connection_id := c.(connection_id); connection_name := []; run_destination := c.(destination_directory);
         trigger := txt run_trigger; source := txt (match schedule with Some _ => "scheduled" | None => "one-shot" end); status := running;
         started_at := to_rfc3339 fresh.2; completed_at := None; files := []; progress_percent := S754_zero false; error := None |} in
    let zone := match schedule with Some s => s.(time_zone) | None => default (txt "UTC") zone end in
    match parse_tz zone with
    | None => Err (txt "Invalid backup time zone")
    | Some _ =>
      let job :=
        {| job_run := run; job_config := c;
           directory_pattern := (fun s => default DEFAULT_DIRECTORY s.(run_directory_pattern)) <$> schedule; job_time_zone := zone |} in
      let? payload := encode run in
      let? job := encode job in
      let? d := insert_row run.(run_id)
        {| row_schedule := run.(schedule_id); row_state := queued; row_payload := payload; row_job := Some job;
           row_created := run.(started_at); row_cancel := false |} d in
      Ok (run, d)
    end.

(** ** Operations *)

Record BackupSnapshot := {
  snapshot_schedules : list BackupSchedule;
  snapshot_runs : list BackupRun;
  migrated : bool;
  snapshot_heartbeat : option text;
}.

Definition is_migrated (d : tables) : bool := bool_decide (is_Some (d.(metadata_table) !! txt "migrated")).

Definition snapshot : Tx BackupSnapshot := fun d =>
  let? all := schedules d in
  let? runs := run_rows d in
  Ok ({| snapshot_schedules := all; snapshot_runs := runs; migrated := is_migrated d;
         snapshot_heartbeat := d.(metadata_table) !! txt "heartbeat" |}, d).

Definition timing_changed (old value : BackupSchedule) : bool :=
  negb (bool_decide (old.(frequency) = value.(frequency))) || negb (old.(interval_hours) =? value.(interval_hours))%Z
  || negb (bool_decide (old.(time_of_day) = value.(time_of_day))) || negb (old.(weekday) =? value.(weekday))%Z
  || negb (bool_decide (old.(time_zone) = value.(time_zone))) || (negb old.(enabled) && value.(enabled)).

Definition put_schedule (value : BackupSchedule) (d : tables) : result tables text :=
  let? payload := encode value in Ok (d <| schedules_table := <[value.(id) := payload]> d.(schedules_table) |>).

(** [value] as it is saved over [old]: with the fields of the stored one. *)
Definition merge_saved (old : option BackupSchedule) (value : BackupSchedule) (now : Z) : result (BackupSchedule * bool) text :=
  match old with
  | Some old =>
    if bool_decide (old.(updated_at) = value.(updated_at)) then
      Ok (value <| created_at := old.(created_at) |> <| last_run_at := old.(last_run_at) |>
                <| last_run_status := old.(last_run_status) |> <| next_run_at := old.(next_run_at) |>, timing_changed old value)
    else Err (txt "Backup schedule changed; reload before saving")
  | None => Ok (value <| created_at := to_rfc3339 now |> <| last_run_at := None |> <| last_run_status := None |>, true)
  end.

Definition save_schedule (value : BackupSchedule) (now : Z) : Tx BackupSchedule := fun d =>
  let? _ := validate_schedule value in
  if active d value.(id) then Err (txt "Cannot edit a running backup schedule")
  else
    let? old := match d.(schedules_table) !! value.(id) with Some v => let? old := decode v in Ok (Some old) | None => Ok None end in
    let? (value, changed) := merge_saved old value now in
    let? value := (if (changed : bool) then let? next := next_after value now in Ok (value <| next_run_at := to_rfc3339 next |>) else Ok value) in
    let value := value <| updated_at := to_rfc3339 now |> in
    let? d := put_schedule value d in
    Ok (value, d).

Definition delete_schedule (key : text) : Tx unit := fun d =>
  if active d key then Err (txt "Cannot delete a running backup schedule")
  else Ok (tt, d <| schedules_table := delete key d.(schedules_table) |>).

(** [INSERT OR IGNORE]. *)
Fixpoint migrate_schedules (now : Z) (l : list BackupSchedule) (d : tables) : result tables text :=
  match l with
  | [] => Ok d
  | s :: l =>
    let? s := match parse_rfc3339 s.(next_run_at) with
              | Some _ => Ok s
              | None => let? next := next_after s now in Ok (s <| next_run_at := to_rfc3339 next |>)
              end in
    let? payload := encode s in
    migrate_schedules now l (match d.(schedules_table) !! s.(id) with
                             | Some _ => d
                             | None => d <| schedules_table := <[s.(id) := payload]> d.(schedules_table) |>
                             end)
  end.

Definition interrupted (message : string) (now : Z) (run : BackupRun) : BackupRun :=
  run <| status := txt "failed" |> <| error := Some (txt message) |> <| completed_at := Some (to_rfc3339 now) |>.

Fixpoint migrate_runs (now : Z) (l : list BackupRun) (d : tables) : result tables text :=
  match l with
  | [] => Ok d
  | run :: l =>
    let run := if bool_decide (run.(status) = running) then interrupted "Backup interrupted before migration" now run else run in
    if one_of run.(status) ["success"; "failed"; "cancelled"] then
      let? payload := encode run in
      migrate_runs now l
        (match d.(runs_table) !! run.(run_id) with
         | Some _ => d
         | None => d <| runs_table := <[run.(run_id) :=
             {| row_schedule := run.(schedule_id); row_state := run.(status); row_payload := payload; row_job := None;
                row_created := run.(started_at); row_cancel := false |}]> d.(runs_table) |>
         end)
    else Err (txt "Invalid migrated backup status")
  end.

Fixpoint validate_schedules (l : list BackupSchedule) : result unit text :=
  match l with [] => Ok tt | s :: l => let? _ := validate_schedule s in validate_schedules l end.

Definition migrate (m : Migration) (now : Z) : Tx unit := fun d =>
  let? _ := check ((1000 <? Z.of_nat (length m.(migration_schedules)))%Z || (10000 <? Z.of_nat (length m.(migration_runs)))%Z) "Backup migration is too large" in
  let? _ := validate_schedules m.(migration_schedules) in
  if is_migrated d then Ok (tt, d)
  else
    let? d := migrate_schedules now m.(migration_schedules) d in
    let? d := migrate_runs now m.(migration_runs) d in
    Ok (tt, d <| metadata_table := <[txt "migrated" := txt "1"]> d.(metadata_table) |>).

Definition enqueue (request : RunRequest) (fresh : text * Z) : Tx BackupRun := fun d =>
  match request.(request_schedule_id) with
  | Some key =>
    if active d key then Err (txt "Backup schedule is already running")
    else
      match d.(schedules_table) !! key with
      | None => Err no_rows
      | Some v => let? s := decode v in insert_job (config s) (Some s) (name s) "manual" None fresh d
      end
  | None =>
    match request.(request_config) with
    | None => Err (txt "Backup configuration is required")
    | Some c =>
      let? _ := validate_config c in
      let run_name := default (txt "Database backup") request.(request_display_name) in
      let? _ := bounded_text run_name 256 "Backup name" in
      insert_job c None run_name "manual" request.(request_time_zone) fresh d
    end
  end.

(** [fresh] gives the id and time of each job in turn. *)
Fixpoint enqueue_schedules (now : Z) (l : list BackupSchedule) (fresh : nat -> text * Z) (d : tables) : result tables text :=
  match l with
  | [] => Ok d
  | s :: l =>
    if negb s.(enabled) then enqueue_schedules now l fresh d
    else if 100 <=? pending_count d then Ok d
    else
      match parse_rfc3339 s.(next_run_at) with
      | None => Err (txt "Invalid persisted backup time")
      | Some next =>
        if negb s.(enabled) || negb (next <=? now)%Z || active d s.(id) then enqueue_schedules now l fresh d
        else
          let? (_, d) := insert_job s.(config) (Some s) s.(name) "scheduled" None (fresh 0) d in
          let? next := next_after s now in
          let? payload := encode (s <| next_run_at := to_rfc3339 next |>) in
          enqueue_schedules now l (fun n => fresh (S n)) (d <| schedules_table := alter (fun _ => payload) s.(id) d.(schedules_table) |>)
      end
  end.

Definition enqueue_due (now : Z) (fresh : nat -> text * Z) : Tx unit := fun d =>
  let? all := schedules d in
  let? d := enqueue_schedules now all fresh d in
  Ok (tt, d).

(** [SELECT job .. LIMIT 1]; reading a row without a job as text is an error. *)
Definition claim : Tx (option Job) := fun d =>
  match List.find (fun '(_, r) => bool_decide (r.(row_state) = queued)) (runs_by_age d) with
  | None => Ok (None, d)
  | Some (_, r) =>
    match r.(row_job) with
    | None => Err (txt "Invalid column type Null at index: 0, name: job")
    | Some v =>
      let? job := decode v in
      Ok (Some job, update_row job.(job_run).(run_id) (fun _ => true) (fun r => r <| row_state := running |>) d)
    end
  end.

Definition cancel (key : text) (now : Z) : Tx bool := fun d =>
  match select_payload key (fun r => bool_decide (r.(row_state) = queued)) d with
  | Some v =>
    let? run := decode v in
    let? payload := encode (run <| status := txt "cancelled" |> <| completed_at := Some (to_rfc3339 now) |>) in
    Ok (true, update_row key (fun _ => true)
      (fun r => r <| row_state := txt "cancelled" |> <| row_cancel := true |> <| row_job := None |> <| row_payload := payload |>) d)
  | None =>
    let is_running := fun r => bool_decide (r.(row_state) = running) in
    Ok (bool_decide (is_Some (select_payload key is_running d)), update_row key is_running (fun r => r <| row_cancel := true |>) d)
  end.

Definition cancelled (key : text) : Tx bool := fun d =>
  match d.(runs_table) !! key with Some r => Ok (r.(row_cancel), d) | None => Err no_rows end.

Definition progress (run : BackupRun) : Tx unit := fun d =>
  let? payload := encode run in
  Ok (tt, update_row run.(run_id) (fun r => bool_decide (r.(row_state) = running)) (fun r => r <| row_payload := payload |>) d).

(** The schedule of a finished run. *)
Definition schedule_after (run : BackupRun) (now : Z) (s : BackupSchedule) : result BackupSchedule text :=
  let s := s <| last_run_at := run.(completed_at) |> <| last_run_status := Some run.(status) |> in
  match parse_rfc3339 s.(next_run_at) with
  | Some next => if (next <=? now)%Z then let? t := next_after s now in Ok (s <| next_run_at := to_rfc3339 t |>) else Ok s
  | None => Ok s
  end.

Definition finish (run : BackupRun) (now : Z) : Tx unit := fun d =>
  let? payload := encode run in
  let d := update_row run.(run_id) (fun _ => true)
             (fun r => r <| row_state := run.(status) |> <| row_payload := payload |> <| row_job := None |>) d in
  match run.(schedule_id) with
  | None => Ok (tt, d)
  | Some key =>
    match d.(schedules_table) !! key with
    | None => Ok (tt, d)
    | Some v =>
      let? s := decode v in
      let? s := schedule_after run now s in
      let? payload := encode s in
      Ok (tt, d <| schedules_table := <[key := payload]> d.(schedules_table) |>)
    end
  end.

Fixpoint insert_completed_rows (runs : list BackupRun) (d : tables) : result tables text :=
  match runs with
  | [] => Ok d
  | run :: runs =>
    let? payload := encode run in
    let? d := insert_row run.(run_id)
      {| row_schedule := None; row_state := run.(status); row_payload := payload; row_job := None;
         row_created := run.(started_at); row_cancel := false |} d in
    insert_completed_rows runs d
  end.

Definition insert_completed (runs : list BackupRun) : Tx unit := fun d => let? d := insert_completed_rows runs d in Ok (tt, d).

Definition rename (key new_name : text) : Tx unit := fun d =>
  let? _ := bounded_text new_name 256 "Backup name" in
  match select_payload key completed d with
  | None => Err no_rows
  | Some v =>
    let? run := decode v in
    let? payload := encode (run <| display_name := Some new_name |>) in
    Ok (tt, update_row key (fun _ => true) (fun r => r <| row_payload := payload |>) d)
  end.

Fixpoint mark_deleting_rows (ids : list text) (d : tables) : result (list BackupRun * tables) text :=
  match ids with
  | [] => Ok ([], d)
  | key :: ids =>
    match select_payload key (fun r => completed r || bool_decide (r.(row_state) = deleting)) d with
    | None => Err no_rows
    | Some v =>
      let? run := decode v in
      let? (runs, d) := mark_deleting_rows ids (update_row key (fun _ => true) (fun r => r <| row_state := deleting |>) d) in
      Ok (run :: runs, d)
    end
  end.

Definition mark_deleting (ids : list text) : Tx (list BackupRun) := mark_deleting_rows ids.

Definition remove_run (key : text) : Tx unit := fun d =>
  match d.(runs_table) !! key with
  | Some r => if bool_decide (r.(row_state) = deleting) then Ok (tt, d <| runs_table := delete key d.(runs_table) |>) else Ok (tt, d)
  | None => Ok (tt, d)
  end.

Definition deletion_failed (run : BackupRun) : Tx unit := fun d =>
  let? payload := encode run in
  Ok (tt, update_row run.(run_id) (fun r => bool_decide (r.(row_state) = deleting))
            (fun r => r <| row_state := run.(status) |> <| row_payload := payload |>) d).

Definition heartbeat (now : Z) : Tx unit := fun d =>
  Ok (tt, d <| metadata_table := <[txt "heartbeat" := to_rfc3339 now]> d.(metadata_table) |>).

Definition was_interrupted (r : run_row) : bool := one_of r.(row_state) ["running"; "deleting"].

Fixpoint recover_runs (now : Z) (runs : list BackupRun) (d : tables) : result tables text :=
  match runs with
  | [] => Ok d
  | run :: runs =>
    match d.(runs_table) !! run.(run_id) with
    | None => Err no_rows
    | Some r =>
      if was_interrupted r then
        let run := interrupted "Backup interrupted: the previous worker stopped. Retained files may be incomplete." now run in
        let? payload := encode run in
        recover_runs now runs
          (update_row run.(run_id) (fun _ => true) (fun r => r <| row_state := txt "failed" |> <| row_payload := payload |> <| row_job := None |>) d)
      else recover_runs now runs d
    end
  end.

Definition recover (now : Z) : Tx unit := fun d =>
  let? runs := run_rows d in
  let? d := recover_runs now runs d in
  Ok (tt, d).
End store.
End Store.

Module Service.
Import Models Store.

(** ** Paths

    A resolved path is the list of its components; a path from a request or a
    payload is text. *)

Definition path_parts (path : text) : list text :=
  List.filter (fun part => is_nonempty part && negb (bool_decide (part = txt "."))) (split_on 47 path).

(** [Path::parent], as text with the same components. *)
Definition parent_of (path : text) : option text :=
  match path_parts path with
  | [] => None
  | parts => Some ((if is_absolute path then [47%Z] else []) ++ join [47%Z] (removelast parts))
  end.

Definition starts_with (path root : list text) : bool := bool_decide (take (length root) path = root).
Definition path_text (path : list text) : text := 47%Z :: join [47%Z] path.
Definition lower (s : text) : text := map to_ascii_lowercase s.

Definition backup_extension (name : text) : bool :=
  has_suffix (txt ".sql") name || has_suffix (txt ".sql.gz") name || has_suffix (txt ".nb3") name.

Inductive FileKind := IsFile | IsDirectory | IsSymlink.
Inductive IoError := NotFound | OtherError (message : text).
Definition io_message (e : IoError) : text := match e with NotFound => txt "No such file or directory (os error 2)" | OtherError m => m end.

(** The file system, the identities of export destinations and the store. *)
Class Disk (W : Type) : Type := {
  access {A} : Tx A -> M W (result A text);
  canonicalize : text -> M W (result (list text) text);
  is_dir : list text -> M W bool;
  symlink_metadata : text -> M W (result FileKind IoError);
  resolved_metadata : list text -> M W (result FileKind IoError);
  remove_file : list text -> M W (result unit IoError);
  remove_dir : list text -> M W (result unit IoError);
  verify_export_destination_identity : text -> M W (result unit text);
}.

Definition IMPORTED_SOURCE : text := txt "imported".

Section service.
Context `{Calendar} `{Serde BackupSchedule} `{Serde BackupRun} `{Serde Job} {W : Type} `{!Disk W} (server_root : option text).

Definition map_err {A E} (f : E -> text) (m : M W (result A E)) : M W (result A text) :=
  let! r := m in ret (match r with Ok a => Ok a | Err e => Err (f e) end).

Definition validate_destination (path : text) : M W (result (list text) text) :=
  if negb (is_absolute path) || bool_decide (txt ".." ∈ path_parts path)
  then ret (Err (txt "Backup directory must be an absolute path without traversal"))
  else
    let!? resolved := map_err (fun e => txt "Backup directory is unavailable: " ++ e) (canonicalize path) in
    let! directory := is_dir resolved in
    if negb directory then ret (Err (txt "Backup destination is not a directory"))
    else
      match server_root with
      | None => ret (Ok resolved)
      | Some root =>
        let!? root := map_err (fun e => txt "Server backup root is unavailable: " ++ e) (canonicalize root) in
        ret (if starts_with resolved root then Ok resolved else Err (txt "Backup directory is outside the server backup root"))
      end.

Definition checked_file (run : BackupRun) (path : text) : M W (result (list text) text) :=
  let!? root := validate_destination run.(run_destination) in
  let!? _ := verify_export_destination_identity run.(run_destination) in
  let!? kind := map_err io_message (symlink_metadata path) in
  match kind with
  | IsFile =>
    let!? resolved := canonicalize path in
    ret (if bool_decide (resolved = root) || negb (starts_with resolved root) then Err (txt "Backup file escaped its destination")
         else if backup_extension (lower (default [] (last resolved))) then Ok resolved
         else Err (txt "Not a SQL backup file"))
  | _ => ret (Err (txt "Backup file is not a regular file"))
  end.

(** A file of a completed run, for a download or a restore. *)
Definition file (key : text) (index : nat) : M W (result (list text) text) :=
  let!? snapshot := access snapshot in
  match List.find (fun r => bool_decide (r.(run_id) = key) && bool_decide (r.(status) = txt "success")) snapshot.(snapshot_runs) with
  | None => ret (Err (txt "Completed backup not found"))
  | Some run =>
    match run.(files) !! index with
    | None => ret (Err (txt "Backup file not found"))
    | Some f => checked_file run f.(file_path)
    end
  end.

(** ** Deletion *)

Definition unconfirmed : text :=
  txt "File ownership could not be confirmed after interruption; inspect the file before removing it manually".

(** What becomes of a file: kept with a reason, gone, or removed from a directory. *)
Inductive cleaned := Kept (reason : text) | Gone | Removed (directory : list text).

Definition referenced_elsewhere (others : list BackupRun) (run : BackupRun) (f : BackupFile) : bool :=
  existsb (fun r => negb (bool_decide (r.(run_id) = run.(run_id))) && existsb (fun g => bool_decide (g.(file_path) = f.(file_path))) r.(files)) others.

Definition cleanup_file (others : list BackupRun) (run : BackupRun) (f : BackupFile) : M W cleaned :=
  if referenced_elsewhere others run f then ret Gone
  else
    let! metadata := symlink_metadata f.(file_path) in
    match metadata with
    | Err NotFound => ret Gone
    | _ =>
      if negb f.(owned) then ret (Kept unconfirmed)
      else
        let! checked := checked_file run f.(file_path) in
        match checked with
        | Err e => ret (Kept e)
        | Ok path =>
          let! removed := remove_file path in
          ret (match removed with Err (OtherError e) => Kept e | _ => Removed (removelast path) end)
        end
    end.

Fixpoint cleanup_files (others : list BackupRun) (run : BackupRun) (l : list BackupFile) : M W (list BackupFile * list text * list (list text)) :=
  match l with
  | [] => ret ([], [], [])
  | f :: l =>
    let! outcome := cleanup_file others run f in
    let! (retained, errors, emptied) := cleanup_files others run l in
    ret (match outcome with
         | Kept reason => (f :: retained, reason :: errors, emptied)
         | Gone => (retained, errors, emptied)
         | Removed directory => (retained, errors, directory :: emptied)
         end)
  end.

(** Going up from [directory]; there are at most as many rounds as components. *)
Fixpoint remove_empty_directories (fuel : nat) (directory root : list text) : M W unit :=
  match fuel with
  | O => ret tt
  | S fuel =>
    if bool_decide (directory = root) || negb (starts_with directory root) then ret tt
    else
      let! kind := resolved_metadata directory in
      match kind with
      | Ok IsDirectory =>
        let! removed := remove_dir directory in
        match removed with
        | Ok _ => match directory with [] => ret tt | _ => remove_empty_directories fuel (removelast directory) root end
        | Err _ => ret tt
        end
      | _ => ret tt
      end
  end.

Fixpoint remove_all_empty (directories : list (list text)) (root : list text) : M W unit :=
  match directories with
  | [] => ret tt
  | directory :: directories =>
    let! _ := remove_empty_directories (S (length directory)) directory root in
    remove_all_empty directories root
  end.

(** The run with the files that were retained. *)
Definition cleanup (run : BackupRun) : M W (result unit text * BackupRun) :=
  let! taken := access snapshot in
  match taken with
  | Err e => ret (Err e, run)
  | Ok snapshot =>
    let! (retained, errors, emptied) := cleanup_files snapshot.(snapshot_runs) run run.(files) in
    let! root := validate_destination run.(run_destination) in
    let! _ := match root with Ok root => remove_all_empty emptied root | Err _ => ret tt end in
    ret (match errors with [] => Ok tt | _ => Err (join (txt "; ") errors) end, run <| files := retained |>)
  end.

Fixpoint delete_marked (runs : list BackupRun) : M W (result (list text) text) :=
  match runs with
  | [] => ret (Ok [])
  | run :: runs =>
    if bool_decide (run.(source) = IMPORTED_SOURCE) then
      let!? _ := access (remove_run run.(run_id)) in
      delete_marked runs
    else
      let! (cleaned, run) := cleanup run in
      match cleaned with
      | Err e =>
        let!? _ := access (deletion_failed (run <| error := Some (txt "Backup cleanup failed: " ++ e) |>)) in
        let!? errors := delete_marked runs in
        ret (Ok (e :: errors))
      | Ok _ =>
        let!? _ := access (remove_run run.(run_id)) in
        delete_marked runs
      end
  end.

Definition delete_runs (ids : list text) : M W (result unit text) :=
  if (1000 <? Z.of_nat (length ids))%Z then ret (Err (txt "Too many backups selected"))
  else
    let!? runs := access (mark_deleting ids) in
    let!? errors := delete_marked runs in
    ret (match errors with [] => Ok tt | _ => Err (join (txt "; ") errors) end).

(** ** The worker *)

(** What a run has become when its export ended. *)
Definition execute (run : BackupRun) (stopped : bool) (exported : result unit text) : BackupRun :=
  let run := run <| status := txt (if stopped then "cancelled" else match exported with Ok _ => "success" | Err _ => "failed" end) |>
                 <| error := match exported with Ok _ => None | Err e => Some e end |> in
  if bool_decide (run.(status) = txt "success") then run <| progress_percent := S754_finite false 7036874417766400 (-46) |> else run.

(** The end of the worker task: the run, or the message of a panic. *)
Definition worker_result (latest : BackupRun) (outcome : result BackupRun text) : BackupRun :=
  match outcome with
  | Ok run => run
  | Err e => latest <| status := txt "failed" |> <| error := Some (txt "Backup worker failed: " ++ e) |>
  end.

(** One look at the store while the worker runs: [latest] is the progress it
    reported, the result whether it has to stop. *)
Definition supervise_once (key : text) (stop : bool) (now : Z) (latest : BackupRun) : M W bool :=
  let! flagged := (if stop then ret true
                   else let! r := access (cancelled key) in ret (match r with Ok b => b | Err _ => true end)) in
  let! beat := access (heartbeat now) in
  let! saved := access (progress latest) in
  ret (flagged || negb (is_ok beat) || negb (is_ok saved)).

Definition retention_ids (key : text) (keep : Z) (runs : list BackupRun) : list text :=
  map run_id (drop (Z.to_nat keep) (List.filter (fun r => bool_decide (r.(schedule_id) = Some key) && bool_decide (r.(status) = txt "success")) runs)).

Definition retain (owner : option text) : M W (result unit text) :=
  let!? snapshot := access snapshot in
  match List.find (fun s => bool_decide (Some s.(id) = owner)) snapshot.(snapshot_schedules) with
  | None => ret (Ok tt)
  | Some s =>
    if (0 <? s.(retention_count))%Z then delete_runs (retention_ids s.(id) s.(retention_count) snapshot.(snapshot_runs)) else ret (Ok tt)
  end.

(** The end of a job: partial files are removed, the run is recorded, old runs
    of its schedule go. *)
Definition conclude (owner : option text) (run : BackupRun) (completed_now finish_now : Z) : M W (result unit text) :=
  let! run := (if bool_decide (run.(status) = txt "success") then ret run
               else
                 let! (cleaned, run) := cleanup run in
                 ret (match cleaned with
                      | Ok _ => run
                      | Err e => run <| error := Some (default (txt "Backup cancelled") run.(error) ++ txt "; partial files retained: " ++ e) |>
                      end)) in
  let run := run <| completed_at := Some (to_rfc3339 completed_now) |> in
  let!? _ := access (finish run finish_now) in
  if bool_decide (run.(status) = txt "success") then retain owner else ret (Ok tt).

(** [supervise] runs the export of a job and gives the run it ended with. *)
Definition tick (supervise : Job -> bool -> M W BackupRun) (fresh : nat -> text * Z) (beat_now due_now completed_now finish_now : Z) : M W (result unit text) :=
  let!? _ := access (heartbeat beat_now) in
  let!? _ := access (enqueue_due due_now fresh) in
  let!? job := access claim in
  match job with
  | None => ret (Ok tt)
  | Some job =>
    let!? already := access (cancelled job.(job_run).(run_id)) in
    let! run := supervise job already in
    conclude job.(job_run).(schedule_id) run completed_now finish_now
  end.

(** ** Commands *)

Definition save_command (value : BackupSchedule) (now : Z) (record_identity : text -> M W (result unit text)) : M W (result BackupSchedule text) :=
  let!? _ := ret (validate_schedule value) in
  let!? _ := validate_destination value.(config).(destination_directory) in
  let!? snapshot := access snapshot in
  let old := List.find (fun s => bool_decide (s.(id) = value.(id))) snapshot.(snapshot_schedules) in
  let!? _ := (if match old with
                 | None => true
                 | Some s => negb (bool_decide (s.(config).(destination_directory) = value.(config).(destination_directory)))
                 end
              then record_identity value.(config).(destination_directory) else ret (Ok tt)) in
  access (save_schedule value now).

Definition migrate_command (m : Migration) (now : Z) : M W (result unit text) :=
  let!? snapshot := access snapshot in
  if snapshot.(migrated) then ret (Ok tt)
  else if match server_root, m.(migration_schedules), m.(migration_runs) with
          | Some _, _ :: _, _ | Some _, _, _ :: _ => true
          | _, _, _ => false
          end
  then ret (Err (txt "Desktop backups cannot be imported into a Web server automatically"))
  else access (migrate m now).

Definition run_command (request : RunRequest) (fresh : text * Z) : M W (result BackupRun text) :=
  let!? _ := match request.(request_config) with
             | Some c => validate_destination c.(destination_directory)
             | None => ret (Ok [])
             end in
  access (enqueue request fresh).

(** [path.extension()] is [nb3]: there is a name before the point. *)
Definition is_nb3_path (name : text) : bool := has_suffix (txt ".nb3") (lower name) && (4 <? length name).

(** Listing of files that were made elsewhere.  [modified] is the time of a file,
    [read_archive] what the header of an archive says, [fresh] new ids and times. *)
Section imports.
Context (modified : text -> M W (option Z)) (read_archive : list text -> M W (result (text * text * option Z) text)).
Context (record_export_destination_identity : list text -> M W (result unit text)).

Definition import_display_name (file_name db_name schema_name : text) : text :=
  match db_name with
  | [] => file_name
  | _ => if bool_decide (schema_name = []) || bool_decide (schema_name = db_name) then db_name else db_name ++ [46%Z] ++ schema_name
  end.

Definition import_file (known : list text) (runs : list BackupRun) (file : text) (fresh : text * Z) : M W (result BackupRun text) :=
  let!? _ := ret (bounded_text file 4096 "Backup file") in
  match parent_of file with
  | None => ret (Err (txt "Backup file has no parent directory"))
  | Some parent =>
    let!? directory := validate_destination parent in
    let!? kind := map_err (fun e => file ++ txt ": " ++ io_message e) (symlink_metadata file) in
    match kind with
    | IsFile =>
      let!? resolved := canonicalize file in
      let path := path_text resolved in
      let file_name := default [] (last resolved) in
      if negb (backup_extension (lower file_name))
      then ret (Err (txt "Unsupported backup file (use .sql, .sql.gz or .nb3): " ++ file_name))
      else if bool_decide (path ∈ known) || existsb (fun r => bool_decide (file_path <$> head r.(files) = Some path)) runs
      then ret (Err (txt "Backup file is already in the history: " ++ file_name))
      else
        let! changed := modified file in
        let!? (db_name, schema_name, started) :=
          (if is_nb3_path file_name then
             let!? (db_name, schema_name, started) := map_err (fun e => file_name ++ txt ": " ++ e) (read_archive resolved) in
             ret (Ok (db_name, schema_name, match started with Some t => Some t | None => changed end))
           else ret (Ok ([], [], changed))) in
        let!? _ := record_export_destination_identity directory in
        let now := to_rfc3339 fresh.2 in
        ret (Ok {| run_id := fresh.1; schedule_id := None; schedule_name := file_name; display_name := None; run_connection_id := [];
                   connection_name := []; run_destination := path_text directory; trigger := txt "manual"; source := IMPORTED_SOURCE;
                   status := txt "success"; started_at := match started with Some t => to_rfc3339 t | None => now end;
                   completed_at := Some now;
                   files := [{| file_database := db_name; file_schema := schema_name;
                                file_display_name := import_display_name file_name db_name schema_name; file_path := path; owned := false |}];
                   progress_percent := S754_finite false 7036874417766400 (-46); error := None |})
    | _ => ret (Err (txt "Backup file is not a regular file: " ++ file))
    end
  end.

Fixpoint import_each (known : list text) (runs : list BackupRun) (paths : list text) (fresh : nat -> text * Z) : M W (result (list BackupRun) text) :=
  match paths with
  | [] => ret (Ok runs)
  | file :: paths =>
    let!? run := import_file known runs file (fresh 0) in
    import_each known (runs ++ [run]) paths (fun n => fresh (S n))
  end.

Definition import_files (paths : list text) (fresh : nat -> text * Z) : M W (result (list BackupRun) text) :=
  if match paths with [] => true | _ => (100 <? Z.of_nat (length paths))%Z end then ret (Err (txt "Select between 1 and 100 backup files"))
  else
    let!? snapshot := access snapshot in
    let known := concat (map (fun r => map file_path r.(files)) snapshot.(snapshot_runs)) in
    let!? runs := import_each known [] paths fresh in
    let!? _ := access (insert_completed runs) in
    ret (Ok runs).
End imports.
End service.
End Service.
