(* ===== verification/BackupSpec.v ===== *)
(** * Times and names of backups

    The next time of a schedule is after the present, is the first occurrence
    from today on, and always exists when the gaps of the time zone are shorter
    than three hours.  A rendered name cannot leave its directory. *)

From S2P Require Import Prelude Json Containers Backup.
From Stdlib Require Import SpecFloat.
Import Models.

(** ** The next time *)

Section timing.
Context `{Calendar} {laws : CalendarLaws}.

(** The local time of an instant. *)
Definition local_time (tz : Tz) (t : Z) : Z := (t + utc_offset tz t)%Z.

(** [t] is the first instant at which the clocks show [l]. *)
Definition first_at (tz : Tz) (l t : Z) : Prop := local_time tz t = l /\ forall t', local_time tz t' = l -> (t <= t')%Z.

Definition exists_at (tz : Tz) (l : Z) : Prop := exists t, local_time tz t = l.

Lemma local_cases tz l :
  match from_local_datetime tz l with
  | LocalNone => ~ exists_at tz l
  | Single t | Ambiguous t _ => first_at tz l t
  end.
Proof using laws.
  destruct (from_local_datetime tz l) as [|t|a b] eqn:E.
  - intros [t Ht]. by eapply local_none.
  - apply local_single in E as [E1 E2]. split; [done|]. intros t' Ht. by rewrite (E2 t' Ht).
  - apply local_ambiguous in E as (E0 & E1 & _ & E2). split; [done|]. intros t' Ht. destruct (E2 t' Ht) as [->| ->]; lia.
Qed.

(** The first of the minutes from [k] on, and what it means. *)
Lemma first_valid_spec tz l k n :
  match first_valid tz l (map Z.of_nat (seq k n)) with
  | Some t => exists m, k <= m < k + n /\ first_at tz (l + Z.of_nat m * minute) t /\
      forall m', k <= m' < m -> ~ exists_at tz (l + Z.of_nat m' * minute)
  | None => forall m, k <= m < k + n -> ~ exists_at tz (l + Z.of_nat m * minute)
  end.
Proof using laws.
  revert k. induction n as [|n IH]; intros k; cbn [seq map first_valid]; [intros m Hm; lia|].
  pose proof (local_cases tz (l + Z.of_nat k * minute)) as Hl. destruct (from_local_datetime _ _) as [|t|t b].
  - specialize (IH (S k)). destruct (first_valid tz l _) as [t|].
    + destruct IH as (m & Hm & Ht & Hno). exists m. split_and!; [lia..|done|]. intros m' Hm'. destruct (decide (m' = k)) as [->|]; [done|]. apply Hno. lia.
    + intros m Hm. destruct (decide (m = k)) as [->|]; [done|]. apply IH. lia.
  - exists k. split_and!; [lia..|done|intros; lia].
  - exists k. split_and!; [lia..|done|intros; lia].
Qed.

(** When the backup of a day starts: at the given time, or at the first minute
    after it that exists, when the clocks first show it. *)
Definition starts_on (tz : Tz) (time date t : Z) : Prop :=
  exists m, m < 180 /\ first_at tz (date * day + time + Z.of_nat m * minute) t /\
    forall m', m' < m -> ~ exists_at tz (date * day + time + Z.of_nat m' * minute).

Lemma first_at_unique tz l t t' : first_at tz l t -> first_at tz l t' -> t = t'.
Proof using. intros [H1 H2] [H3 H4]. apply H2 in H3 as ?. apply H4 in H1 as ?. lia. Qed.

Lemma occurrence_spec tz time date t : occurrence tz time date = Some t <-> starts_on tz time date t.
Proof using laws.
  unfold occurrence, minutes_tried, starts_on. pose proof (first_valid_spec tz (date * day + time) 0 180) as Hs.
  destruct (first_valid _ _ _) as [t0|].
  - destruct Hs as (m & Hm & Ht & Hno). split.
    + intros [= <-]. exists m. split_and!; [lia|done|]. intros m' Hm'. apply Hno. lia.
    + intros (m' & Hm' & Ht' & Hno'). assert (m = m') as <-.
      { destruct (decide (m < m')) as [Hl|]; [destruct (Hno' m Hl); exists t0; apply Ht|].
        destruct (decide (m' < m)) as [Hl|]; [|lia]. destruct (Hno m' ltac:(lia)). exists t. apply Ht'. }
      by rewrite (first_at_unique _ _ _ _ Ht Ht').
  - split; [done|]. intros (m & Hm & [Ht _] & _). destruct (Hs m ltac:(lia)). by exists t.
Qed.

Lemma first_after_spec s tz time after today k n :
  match first_after s tz time after today (map Z.of_nat (seq k n)) with
  | Some t => (after < t)%Z /\ exists i, k <= i < k + n /\ on_weekday s (today + Z.of_nat i) = true /\ starts_on tz time (today + Z.of_nat i) t /\
      forall i', k <= i' < i -> on_weekday s (today + Z.of_nat i') = true -> forall t', starts_on tz time (today + Z.of_nat i') t' -> (t' <= after)%Z
  | None => forall i, k <= i < k + n -> on_weekday s (today + Z.of_nat i) = true -> forall t, starts_on tz time (today + Z.of_nat i) t -> (t <= after)%Z
  end.
Proof using laws.
  revert k. induction n as [|n IH]; intros k; cbn [seq map first_after]; [intros i Hi; lia|]. specialize (IH (S k)).
  assert (Hskip : (on_weekday s (today + Z.of_nat k) = true -> forall t, starts_on tz time (today + Z.of_nat k) t -> (t <= after)%Z) ->
    match first_after s tz time after today (map Z.of_nat (seq (S k) n)) with
    | Some t => (after < t)%Z /\ exists i, k <= i < k + S n /\ on_weekday s (today + Z.of_nat i) = true /\ starts_on tz time (today + Z.of_nat i) t /\
        forall i', k <= i' < i -> on_weekday s (today + Z.of_nat i') = true -> forall t', starts_on tz time (today + Z.of_nat i') t' -> (t' <= after)%Z
    | None => forall i, k <= i < k + S n -> on_weekday s (today + Z.of_nat i) = true -> forall t, starts_on tz time (today + Z.of_nat i) t -> (t <= after)%Z
    end).
  { intros Hk. destruct (first_after _ _ _ _ _ _) as [t|].
    - destruct IH as (Ha & i & Hi & Hw & Ht & Hno). split; [done|]. exists i. split_and!; [lia..|done|done|].
      intros i' Hi'. destruct (decide (i' = k)) as [->|]; [done|]. apply Hno. lia.
    - intros i Hi. destruct (decide (i = k)) as [->|]; [done|]. apply IH. lia. }
  destruct (on_weekday s (today + Z.of_nat k)) eqn:Hw; [|by apply Hskip].
  destruct (occurrence tz time (today + Z.of_nat k)) as [t|] eqn:Eo.
  - destruct (Z.ltb_spec after t) as [Hlt|Hge].
    + split; [done|]. exists k. split_and!; [lia..|done|by apply occurrence_spec|intros; lia].
    + apply Hskip. intros _ t' Ht'. apply occurrence_spec in Ht'. rewrite Eo in Ht'. injection Ht' as <-. done.
  - apply Hskip. intros _ t' Ht'. apply occurrence_spec in Ht'. by rewrite Eo in Ht'.
Qed.

(** From now on, no three hours of local time are left out by the clocks. *)
Definition short_gaps (tz : Tz) (now : Z) : Prop :=
  forall l, (local_time tz now <= l)%Z -> exists m, m < 180 /\ exists_at tz (l + Z.of_nat m * minute).

Lemma some_start tz now time date : short_gaps tz now -> (0 <= time)%Z -> (local_date tz now < date)%Z -> exists t, starts_on tz time date t.
Proof using laws.
  intros Hg Htime Hdate.
  assert (Hl : (local_time tz now <= date * day + time)%Z).
  { unfold local_date in Hdate. fold (local_time tz now) in Hdate. assert (Hday : (0 < day)%Z) by done.
    pose proof (Z.mul_succ_div_gt (local_time tz now) day Hday). nia. } destruct (occurrence tz time date) as [t|] eqn:E; [exists t; by apply occurrence_spec|].
  unfold occurrence, minutes_tried in E. pose proof (first_valid_spec tz (date * day + time) 0 180) as Hs. rewrite E in Hs.
  destruct (Hg (date * day + time)%Z Hl) as (m & Hm & Hx). by destruct (Hs m ltac:(lia)).
Qed.

(** Every day of the week is within a week from now. *)
Lemma weekday_ahead s today : (0 <= s.(weekday) <= 6)%Z -> exists i, 7 <= i < 14 /\ on_weekday s (today + Z.of_nat i) = true.
Proof.
  intros Hw. set (i := (7 + (s.(weekday) - num_days_from_sunday today) mod 7)%Z).
  assert (Hi : (7 <= i < 14)%Z) by (unfold i; pose proof (Z.mod_pos_bound (s.(weekday) - num_days_from_sunday today) 7 ltac:(lia)); lia).
  exists (Z.to_nat i). split; [lia|]. unfold on_weekday. rewrite Z2Nat.id by lia.
  assert (E : num_days_from_sunday (today + i) = s.(weekday)).
  { unfold i. unfold num_days_from_sunday in *. symmetry.
    pose proof (Z.div_mod (today + 4) 7 ltac:(lia)) as H1. pose proof (Z.div_mod (weekday s - (today + 4) mod 7) 7 ltac:(lia)) as H2.
    apply (Z.mod_unique _ 7 ((today + 4) / 7 + 1 - (weekday s - (today + 4) mod 7) / 7)); [left; lia|]. clear Hi.
    revert H1 H2. generalize ((weekday s - (today + 4) mod 7) / 7)%Z ((weekday s - (today + 4) mod 7) mod 7)%Z. lia. }
  rewrite E, Z.eqb_refl. simpl. by rewrite andb_false_r.
Qed.

Lemma later_day_is_after tz time date t after :
  (0 <= time)%Z -> starts_on tz time date t -> (local_date tz after + 3 <= date)%Z -> (after < t)%Z.
Proof using laws.
  intros Htime (m & Hm & [Ht _] & _) Hd. unfold local_time in Ht. unfold local_date in Hd.
  pose proof (offset_bounded tz t) as H1. pose proof (offset_bounded tz after) as H2.
  assert (Hday : (0 < day)%Z) by done. assert (Hmin : (0 < minute)%Z) by done.
  pose proof (Z.mul_succ_div_gt (after + utc_offset tz after) day Hday) as H3. nia.
Qed.

(** Two weeks are enough to find a day. *)
Lemma some_day_follows s tz time after : parse_time_of_day s.(time_of_day) = Some time -> (0 <= s.(weekday) <= 6)%Z -> short_gaps tz after ->
  (forall i, 0 <= i < 0 + 15 -> on_weekday s (local_date tz after + Z.of_nat i) = true -> forall t, starts_on tz time (local_date tz after + Z.of_nat i) t -> (t <= after)%Z) ->
  False.
Proof using laws.
  intros Htime Hw Hg Hf. destruct (weekday_ahead s (local_date tz after) Hw) as (i & Hi & Hwd). apply time_of_day_bounded in Htime.
  destruct (some_start tz after time (local_date tz after + Z.of_nat i) Hg ltac:(lia) ltac:(lia)) as [t Ht].
  pose proof (Hf i ltac:(lia) Hwd t Ht). pose proof (later_day_is_after tz time _ t after ltac:(lia) Ht ltac:(lia)). lia.
Qed.

Lemma next_after_total s tz time after : parse_tz s.(time_zone) = Some tz -> parse_time_of_day s.(time_of_day) = Some time ->
  (0 <= s.(weekday) <= 6)%Z -> short_gaps tz after -> exists t, next_after s after = Ok t.
Proof using laws.
  intros Htz Htime Hw Hg. unfold next_after. rewrite Htz, Htime. case_bool_decide; [eauto|]. pose proof (first_after_spec s tz time after (local_date tz after) 0 15) as Hf.
  destruct (first_after _ _ _ _ _ _) as [t|]; [eauto|]. by edestruct (some_day_follows s tz time after).
Qed.

(** C16. The next backup.  For every schedule with a valid zone, time and weekday and
    every instant, a next time exists if the gaps of the zone after the instant are
    shorter than three hours; it is after the instant, the given number of hours after it
    for an hourly schedule, and else the start of the backup on the first day
    from today on, among the days of the week asked for, that starts after the
    instant: at the time of day, or at the first minute after it that the
    clocks show, the first time they do. *)
Theorem next_backup_is_the_first_after s tz time after :
  parse_tz s.(time_zone) = Some tz -> parse_time_of_day s.(time_of_day) = Some time -> (0 <= s.(weekday) <= 6)%Z -> short_gaps tz after ->
  exists t, next_after s after = Ok t /\ (after < t)%Z /\
    if bool_decide (s.(frequency) = txt "hourly") then t = (after + Z.max 1 (Z.min s.(interval_hours) 168) * hour)%Z
    else exists date, (local_date tz after <= date)%Z /\ on_weekday s date = true /\ starts_on tz time date t /\
      forall date' t', (local_date tz after <= date' < date)%Z -> on_weekday s date' = true -> starts_on tz time date' t' -> (t' <= after)%Z.
Proof using laws.
  intros Htz Htime Hw Hg. unfold next_after. rewrite Htz, Htime. case_bool_decide as Ef.
  { eexists. split_and!; [done| |done]. assert (0 < hour)%Z by done. nia. }
  set (today := local_date tz after). pose proof (first_after_spec s tz time after today 0 15) as Hf.
  destruct (first_after _ _ _ _ _ _) as [t|].
  - destruct Hf as (Ha & i & Hi & Hwd & Ht & Hno). exists t. split_and!; [done..|]. exists (today + Z.of_nat i)%Z. split_and!; [lia|done|done|].
    intros date' t' Hd Hwd' Ht'. assert (E : date' = (today + Z.of_nat (Z.to_nat (date' - today)))%Z) by lia.
    rewrite E in Hwd', Ht'. apply (Hno (Z.to_nat (date' - today)) ltac:(lia)); done.
  - by edestruct (some_day_follows s tz time after).
Qed.
End timing.

(** ** A calendar

    UTC, and a zone one hour ahead of it, two between two instants: the last
    Sundays of March and October 2024.  An instant is written as one character. *)
Module Sample.
Definition spring : Z := 1711846800 * second.
Definition autumn : Z := 1729990800 * second.

Definition sample_offset (summer_time : bool) (t : Z) : Z :=
  if summer_time then if (spring <=? t)%Z && (t <? autumn)%Z then 2 * hour else hour else 0%Z.

Definition sample_local (summer_time : bool) (l : Z) : LocalResult :=
  match List.filter (fun t => (t + sample_offset summer_time t =? l)%Z) (if summer_time then [l - 2 * hour; l - hour]%Z else [l]) with
  | [] => LocalNone
  | [t] => Single t
  | a :: b :: _ => Ambiguous a b
  end.

Definition sample_zone (s : text) : option bool :=
  if bool_decide (s = txt "UTC") then Some false else if bool_decide (s = txt "Europe/Berlin") then Some true else None.

(** [HH:MM]. *)
Definition sample_time (s : text) : option Z :=
  match split_on 58 s with
  | [h; m] =>
    match parse_unsigned 23 h, parse_unsigned 59 m with Some h, Some m => Some (h * hour + m * minute)%Z | _, _ => None end
  | _ => None
  end.

#[export] Instance sample_calendar : Calendar := {|
  Tz := bool; parse_tz := sample_zone; utc_offset := sample_offset; from_local_datetime := sample_local; parse_time_of_day := sample_time;
  to_rfc3339 := fun t => [t]; parse_rfc3339 := fun s => match s with [t] => Some t | _ => None end;
  format_local := fun _ t _ => decimal t |}.

Ltac clocks :=
  repeat match goal with
  | |- context [(?a <=? ?b)%Z] => destruct (Z.leb_spec a b)
  | |- context [(?a <? ?b)%Z] => destruct (Z.ltb_spec a b)
  | |- context [(?a =? ?b)%Z] => destruct (Z.eqb_spec a b)
  end; simpl.

Lemma sample_offsets tz t : sample_offset tz t = 0%Z /\ tz = false \/ tz = true /\ (sample_offset tz t = hour \/ sample_offset tz t = 2 * hour)%Z.
Proof. unfold sample_offset. destruct tz; clocks; auto. Qed.

(** The candidates of a local time are all its instants, in order. *)
Lemma sample_local_spec tz l :
  match sample_local tz l with
  | LocalNone => forall t, (t + sample_offset tz t <> l)%Z
  | Single a => (a + sample_offset tz a = l)%Z /\ forall t, (t + sample_offset tz t = l)%Z -> t = a
  | Ambiguous a b => (a < b)%Z /\ (a + sample_offset tz a = l)%Z /\ (b + sample_offset tz b = l)%Z /\
      forall t, (t + sample_offset tz t = l)%Z -> t = a \/ t = b
  end.
Proof.
  assert (Hh : (0 < hour)%Z) by done. unfold sample_local. destruct tz; cbn [List.filter].
  - assert (Hall : forall t, (t + sample_offset true t = l)%Z -> t = (l - 2 * hour)%Z \/ t = (l - hour)%Z).
    { intros t Ht. destruct (sample_offsets true t) as [[_ ?]|[_ [E|E]]]; [done|right|left]; lia. }
    destruct (Z.eqb_spec (l - 2 * hour + sample_offset true (l - 2 * hour)) l) as [E1|E1];
      destruct (Z.eqb_spec (l - hour + sample_offset true (l - hour)) l) as [E2|E2];
      split_and?; try lia; auto; intros t Ht; destruct (Hall t Ht); subst; first [done|congruence|lia].
  - unfold sample_offset. rewrite (proj2 (Z.eqb_eq (l + 0) l)) by lia. split; [lia|]. intros; lia.
Qed.

#[export] Instance sample_laws : CalendarLaws.
Proof.
  split; cbn.
  - intros tz t. assert (0 < hour)%Z by done. assert (day = 24 * hour)%Z by done. destruct (sample_offsets tz t) as [[-> _]|[_ [-> | ->]]]; lia.
  - intros tz l E. pose proof (sample_local_spec tz l) as Hs. by rewrite E in Hs.
  - intros tz l t E. pose proof (sample_local_spec tz l) as Hs. by rewrite E in Hs.
  - intros tz l a b E. pose proof (sample_local_spec tz l) as Hs. by rewrite E in Hs.
  - intros s t. unfold sample_time. destruct (split_on 58 s) as [|h [|m [|]]]; try done.
    destruct (parse_unsigned 23 h) as [x|] eqn:Eh; [|done]. destruct (parse_unsigned 59 m) as [y|] eqn:Em; [|done]. intros [= <-].
    apply parse_unsigned_bounds in Eh, Em; [|lia..]. assert (Hd : (day = 24 * hour)%Z) by done. assert (Hh : (hour = 60 * minute)%Z) by done.
    assert (0 < minute)%Z by done. nia.
  - done.
Qed.

Lemma sample_gaps tz now : short_gaps tz now.
Proof.
  intros l _. destruct tz; [|exists 0; split; [lia|]; exists l; unfold local_time; cbn; unfold sample_offset; lia].
  assert (Hm : (hour = 60 * minute)%Z) by done. assert (0 < minute)%Z by done. assert (Hs : (spring + 24 * hour < autumn)%Z) by done.
  assert (Hx : forall m t, m < 180 -> (t + sample_offset true t = l + Z.of_nat m * minute)%Z -> exists m, m < 180 /\ exists_at true (l + Z.of_nat m * minute)).
  { intros m t Hlt Ht. exists m. split; [done|]. by exists t. }
  destruct (decide (spring + hour <= l < spring + 2 * hour)%Z) as [Hgap|Hgap].
  - apply (Hx 60 (l - hour)%Z); [lia|]. unfold sample_offset. clocks; lia.
  - destruct (decide (l < spring + 2 * hour)%Z); [apply (Hx 0 (l - hour)%Z)|destruct (decide (l < autumn + 2 * hour)%Z); [apply (Hx 0 (l - 2 * hour)%Z)|apply (Hx 0 (l - hour)%Z)]];
      try lia; unfold sample_offset; clocks; lia.
Qed.

Definition sample_config : BackupConfig :=
  {| connection_id := txt "c"; databases := []; table_filter_mode := txt "all"; table_patterns := []; selected_tables := [];
     destination_directory := txt "/backups"; include_structure := true; include_data := true; include_objects := false;
     drop_table_if_exists := false; output_compression := txt "gzip"; file_name_pattern := None |}.

Definition sample_schedule : BackupSchedule :=
  {| id := txt "s1"; name := txt "nightly"; enabled := true; config := sample_config; frequency := txt "daily"; interval_hours := 24;
     time_of_day := txt "02:30"; weekday := 0; retention_count := 7; run_directory_pattern := None; time_zone := txt "Europe/Berlin";
     created_at := []; updated_at := []; next_run_at := []; last_run_at := None; last_run_status := None |}.

Definition sample_run : BackupRun :=
  {| run_id := txt "run-12345"; schedule_id := None; schedule_name := txt "../etc"; display_name := None; run_connection_id := txt "c";
     connection_name := []; run_destination := txt "/backups"; trigger := txt "manual"; source := txt "one-shot"; status := txt "success";
     started_at := [0%Z]; completed_at := None; files := []; progress_percent := S754_zero false; error := None |}.
End Sample.
Import Sample.

(** The night the clocks go forward: half past two does not exist, the backup
    starts at three. *)
Lemma next_backup_witness : exists t, next_after sample_schedule (spring - 2 * hour) = Ok t /\ (spring - 2 * hour < t)%Z /\ t = spring /\
  exists date, starts_on true (2 * hour + 30 * minute)%Z date t.
Proof.
  destruct (@next_backup_is_the_first_after sample_calendar sample_laws sample_schedule true (2 * hour + 30 * minute) (spring - 2 * hour)) as (t & Ht & Hlt & Hs);
    [done|done|done|apply sample_gaps|]. exists t. rewrite bool_decide_eq_false_2 in Hs by done. destruct Hs as (date & _ & _ & Hs & _).
  split_and!; [done|done| |by exists date]. apply (Ok_inj (E := text)). rewrite <- Ht. by vm_compute.
Defined.

(** ** Names *)

(** A name of one component that no system refuses or changes: nothing that
    separates paths, and no point or space at its end. *)
Definition safe_name (s : text) : Prop :=
  s <> [] /\ Forall (fun c => unsafe_in_segment c = false) s /\ ends_with_char (fun c => (c =? 46)%Z || (c =? 32)%Z) s = false.

Lemma ends_with_char_app p s t : t <> [] -> ends_with_char p (s ++ t) = ends_with_char p t.
Proof.
  intros Ht. unfold ends_with_char. rewrite reverse_app. destruct (reverse t) as [|c r] eqn:E; [|done].
  apply (f_equal reverse) in E. rewrite reverse_involutive in E. by subst.
Qed.

Lemma safe_name_app s t : Forall (fun c => unsafe_in_segment c = false) s -> safe_name t -> safe_name (s ++ t).
Proof.
  intros Hs (Hne & Ht & He). split_and!; [intros [_ ?]%app_nil; done|by apply Forall_app|by rewrite ends_with_char_app].
Qed.

(** Trimming keeps some of the characters. *)
Lemma trim_chars_forall (P : Z -> Prop) s : Forall P s -> Forall P (trim_chars s).
Proof. destruct (trim_chars_split s) as (a & b & E & _). rewrite E at 1. rewrite !Forall_app. tauto. Qed.

Lemma trim_dots_spec (P : Z -> Prop) s : Forall P s ->
  Forall P (trim_dots s) /\ ends_with_char (fun c => (c =? 46)%Z || (c =? 32)%Z) (trim_dots s) = false.
Proof.
  set (p := fun c : Z => (c =? 46)%Z || (c =? 32)%Z). intros Hs. apply Forall_reverse in Hs.
  pose proof (span_app p (reverse s)) as Ha. pose proof (span_stop p (reverse s)) as Hstop. unfold trim_dots, ends_with_char. fold p.
  rewrite <- Ha in Hs. apply Forall_app in Hs as [_ Hs]. rewrite reverse_involutive. split; [by apply Forall_reverse|].
  destruct (span p (reverse s)).2; [done|]. exact Hstop.
Qed.

Lemma segment_safe value : safe_name (segment value).
Proof.
  unfold segment. set (cleaned := trim_dots _).
  assert (Hc : Forall (fun c => unsafe_in_segment c = false) cleaned /\ ends_with_char (fun c => (c =? 46)%Z || (c =? 32)%Z) cleaned = false).
  { apply trim_dots_spec, trim_chars_forall. apply Forall_map, Forall_true. intros c. by destruct (unsafe_in_segment c) eqn:E. }
  set (name := match cleaned with [] => _ | _ => _ end).
  assert (Hn : safe_name name).
  { unfold name. destruct cleaned as [|c l] eqn:E; [|split; [done|exact Hc]]. split_and!; [done| |done]. by repeat constructor. }
  destruct (reserved_name name); [|done]. apply safe_name_app; [apply Hn|]. split_and!; [done| |done]. by repeat constructor.
Qed.

Lemma safe_name_clean s : safe_name s -> 47%Z ∉ s.
Proof. intros (_ & Hs & _) Hin. rewrite Forall_forall in Hs. by specialize (Hs _ Hin). Qed.

(** The components of names that are joined. *)
Lemma joined_parts parts : Forall safe_name parts -> Service.path_parts (join [47%Z] parts) = parts.
Proof.
  intros Hp. unfold Service.path_parts. destruct parts as [|part parts]; [done|].
  rewrite split_joined; [|done|eapply Forall_impl; [done|]; apply safe_name_clean].
  induction Hp as [|p l (Hne & _ & He) Hl IH]; [done|]. cbn [List.filter]. unfold is_nonempty at 1. rewrite (bool_decide_eq_false_2 (p = [])) by done.
  rewrite (bool_decide_eq_false_2 (p = txt ".")) by (by intros ->). simpl. by rewrite IH.
Qed.

Lemma parts_below root parts : Forall safe_name parts ->
  Service.path_parts (root ++ 47%Z :: join [47%Z] parts) = Service.path_parts root ++ parts.
Proof.
  intros Hp. rewrite <- (joined_parts parts Hp) at 2. unfold Service.path_parts. by rewrite split_on_app, List.filter_app.
Qed.

(** C19. The rendered name of a directory or file, whatever the names of the schedule
    and the database, the id of the run and the texts of times contain, is made of
    safe names, one for a file; below any root it adds exactly these components,
    none of which is [.] or [..]. *)
Theorem rendered_name_stays_below `{Calendar} template run database zone directory r :
  render_template template run database zone directory = Ok r ->
  exists parts, Forall safe_name parts /\ r = join [47%Z] parts /\ (directory = false -> parts = [r]) /\
    (forall root, Service.path_parts (root ++ 47%Z :: r) = Service.path_parts root ++ parts) /\
    Forall (fun part => dots part = false) parts.
Proof.
  intros Hr.
  assert (exists parts, Forall safe_name parts /\ r = join [47%Z] parts /\ (directory = false -> parts = [r])) as (parts & Hp & -> & Hd).
  { revert Hr. unfold render_template. destruct (validate_template template directory); [|done]. cbn [result_bind].
    destruct (parse_tz zone) as [tz|]; [|done]. destruct (parse_rfc3339 _) as [started|]; [|done]. destruct directory.
    - intros [= <-]. eexists. split_and!; [|done|done]. apply Forall_map, Forall_true. intros. apply segment_safe.
    - intros Hr. exists [r]. split_and!; [|done|done]. constructor; [|constructor]. revert Hr.
      destruct (contains_text _ _); intros <-%Ok_inj; [apply segment_safe|]. apply safe_name_app; [apply segment_safe|].
      apply safe_name_app; [by repeat constructor|apply segment_safe]. }
  exists parts. split_and!; [done|done|done|intros root; by apply parts_below|].
  eapply Forall_impl; [exact Hp|]. intros part (Hne & _ & He). unfold dots. apply orb_false_iff.
  split; apply bool_decide_eq_false_2; by intros ->.
Qed.

(** A name that Windows reserves is changed at its end, after its extension, and
    stays reserved. *)
Example reserved_name_stays_reserved :
  segment (txt "CON.txt") = txt "CON.txt_" /\ reserved_name (segment (txt "CON.txt")) = true /\ reserved_name (segment (txt "CON")) = false.
Proof. by vm_compute. Qed.

Lemma rendered_name_witness : exists parts, Forall safe_name parts /\ txt "dbx-backup__.._etc__0__run-1234" = join [47%Z] parts /\
  forall root, Service.path_parts (root ++ 47%Z :: txt "dbx-backup__.._etc__0__run-1234") = Service.path_parts root ++ parts.
Proof.
  destruct (rendered_name_stays_below DEFAULT_DIRECTORY sample_run [] (txt "UTC") true (txt "dbx-backup__.._etc__0__run-1234")) as (parts & H1 & H2 & _ & H3 & _);
    [by vm_compute|]. exists parts. done.
Defined.
