(* ===== verification/BackupStoreSpec.v ===== *)
(** * The store of backups

    Every state that the operations reach is consistent: payloads are readable and
    belong to their rows, a schedule has at most one pending run, at most a hundred
    runs are pending.  Each run follows its life cycle, in which [finish] may write its
    outcome at any point; the schedules that are due
    get one run each, and get it once. *)

From S2P Require Import Prelude Json Containers Backup BackupSpec.
Import Models Store.

(** ** Pending runs *)

Section queue.
Implicit Types d : tables.

Definition pending_keys d : list text := map fst (List.filter (fun '(_, r) => pending r) (map_to_list d.(runs_table))).

Lemma pending_count_keys d : pending_count d = length (pending_keys d).
Proof. unfold pending_count, pending_keys. by rewrite length_map. Qed.

Lemma pending_keys_NoDup d : NoDup (pending_keys d).
Proof. apply NoDup_map_filter, NoDup_fst_map_to_list. Qed.

Lemma elem_of_pending_keys d key : key ∈ pending_keys d <-> exists r, d.(runs_table) !! key = Some r /\ pending r = true.
Proof.
  unfold pending_keys. rewrite list_elem_of_fmap. split.
  - intros ([k r] & -> & [Hin Hp]%elem_of_bool_filter). apply elem_of_map_to_list in Hin. eauto.
  - intros (r & Hr & Hp). exists (key, r). split; [done|]. apply elem_of_bool_filter. by rewrite elem_of_map_to_list.
Qed.

(** Counting is monotone. *)
Lemma pending_count_le d d' (new : list text) : (forall key, key ∈ pending_keys d' -> key ∈ new ++ pending_keys d) ->
  pending_count d' <= length new + pending_count d.
Proof.
  intros Hin. rewrite !pending_count_keys, <- length_app. apply submseteq_length, NoDup_submseteq; [apply pending_keys_NoDup|done].
Qed.

Lemma active_spec d key : active d key = true <-> exists k r, d.(runs_table) !! k = Some r /\ r.(row_schedule) = Some key /\ pending r = true.
Proof.
  unfold active. rewrite existsb_exists. split.
  - intros ([k r] & Hin & Hr). bool_solver. exists k, r. rewrite <- elem_of_map_to_list, list_elem_of_In. done.
  - intros (k & r & Hl & Hs & Hp). exists (k, r). rewrite <- list_elem_of_In, elem_of_map_to_list. split; [done|].
    by rewrite bool_decide_eq_true_2.
Qed.

Lemma inactive_spec d key : active d key = false <-> forall k r, d.(runs_table) !! k = Some r -> r.(row_schedule) = Some key -> pending r = false.
Proof.
  rewrite <- not_true_iff_false, active_spec. split.
  - intros Hn k r Hl Hs. apply not_true_iff_false. intros Hp. apply Hn. eauto.
  - intros Hf (k & r & Hl & Hs & Hp). by rewrite (Hf k r) in Hp.
Qed.

(** At most one pending run per schedule, of a schedule that exists, and at most a
    hundred in all. *)
Record queue_ok d : Prop := {
  one_pending key k1 k2 r1 r2 : d.(runs_table) !! k1 = Some r1 -> d.(runs_table) !! k2 = Some r2 -> pending r1 = true -> pending r2 = true ->
    r1.(row_schedule) = Some key -> r2.(row_schedule) = Some key -> k1 = k2;
  pending_scheduled k r key : d.(runs_table) !! k = Some r -> pending r = true -> r.(row_schedule) = Some key -> is_Some (d.(schedules_table) !! key);
  pending_bounded : pending_count d <= 100;
}.

(** Nothing new is pending and no schedule goes. *)
Lemma queue_ok_shrinks d d' : queue_ok d ->
  (forall k r', d'.(runs_table) !! k = Some r' -> pending r' = true ->
    exists r, d.(runs_table) !! k = Some r /\ pending r = true /\ r.(row_schedule) = r'.(row_schedule)) ->
  (forall key, is_Some (d.(schedules_table) !! key) -> is_Some (d'.(schedules_table) !! key)) -> queue_ok d'.
Proof.
  intros [H1 H2 H3] Hr Hs. split.
  - intros key k1 k2 r1 r2 L1 L2 P1 P2 S1 S2. destruct (Hr k1 r1 L1 P1) as (q1 & ? & ? & ?). destruct (Hr k2 r2 L2 P2) as (q2 & ? & ? & ?).
    apply (H1 key k1 k2 q1 q2); congruence.
  - intros k r key L P S. destruct (Hr k r L P) as (q & ? & ? & ?). apply Hs, (H2 k q); congruence.
  - etrans; [|exact H3]. apply (pending_count_le d d' []). intros key (r & L & P)%elem_of_pending_keys. simpl.
    destruct (Hr key r L P) as (q & ? & ? & _). apply elem_of_pending_keys. eauto.
Qed.

(** A new pending run, of a schedule that has none. *)
Lemma queue_ok_insert d k r : queue_ok d -> d.(runs_table) !! k = None -> pending_count d < 100 ->
  (forall key, r.(row_schedule) = Some key -> active d key = false /\ is_Some (d.(schedules_table) !! key)) ->
  queue_ok (d <| runs_table := <[k := r]> d.(runs_table) |>).
Proof.
  intros [H1 H2 H3] Hk Hc Hs. split; cbn.
  - intros key k1 k2 r1 r2 L1 L2 P1 P2 S1 S2.
    assert (Hno : forall k' r', d.(runs_table) !! k' = Some r' -> pending r' = true -> r'.(row_schedule) = Some key -> r.(row_schedule) = Some key -> False).
    { intros k' r' L P S Sr. destruct (Hs key Sr) as [Ha _]. rewrite inactive_spec in Ha. by rewrite (Ha k' r') in P. }
    apply lookup_insert_Some in L1 as [[<- <-]|[_ L1]]; apply lookup_insert_Some in L2 as [[<- <-]|[_ L2]]; [done|exfalso; eauto..|eauto].
  - intros k' r' key L P S. apply lookup_insert_Some in L as [[<- <-]|[_ L]]; [by apply Hs|eauto].
  - assert (pending_count (d <| runs_table := <[k := r]> d.(runs_table) |>) <= 1 + pending_count d); [|lia].
    apply (pending_count_le d _ [k]). intros key (r' & L & P)%elem_of_pending_keys. cbn in L.
    apply lookup_insert_Some in L as [[<- _]|[_ L]]; [by left|]. right. apply elem_of_pending_keys. eauto.
Qed.
End queue.

(** ** The invariant *)

Definition terminal (s : text) : bool := one_of s ["success"; "failed"; "cancelled"].

(** ** The life cycle of a run *)

Inductive Phase := Queued | Running | Done (outcome : text) | Deleting.

Definition phase (r : run_row) : option Phase :=
  if bool_decide (r.(row_state) = queued) then Some Queued
  else if bool_decide (r.(row_state) = running) then Some Running
  else if bool_decide (r.(row_state) = deleting) then Some Deleting
  else if terminal r.(row_state) then Some (Done r.(row_state)) else None.

Definition phases (d : tables) (key : text) : option Phase := d.(runs_table) !! key ≫= phase.

(** What one operation may do to one run. *)
Inductive edge : option Phase -> option Phase -> Prop :=
| edge_enqueue : edge None (Some Queued)
| edge_record outcome : terminal outcome = true -> edge None (Some (Done outcome))
| edge_claim : edge (Some Queued) (Some Running)
| edge_cancel : edge (Some Queued) (Some (Done (txt "cancelled")))
| edge_interrupt outcome : terminal outcome = true -> edge (Some Running) (Some (Done outcome))
| edge_delete outcome : edge (Some (Done outcome)) (Some Deleting)
| edge_restore outcome : terminal outcome = true -> edge (Some Deleting) (Some (Done outcome))
| edge_remove : edge (Some Deleting) None.

#[local] Hint Constructors edge : dbx.

(** Every run stays or takes a step of [E]. *)
Definition moved (E : option Phase -> option Phase -> Prop) (d d' : tables) : Prop :=
  forall key, phases d' key = phases d key \/ E (phases d key) (phases d' key).

Lemma moved_refl E d d' : d'.(runs_table) = d.(runs_table) -> moved E d d'.
Proof. intros Hr key. left. unfold phases. by rewrite Hr. Qed.

Lemma moved_weaken (E E' : option Phase -> option Phase -> Prop) d d' : (forall a b, E a b -> E' a b) -> moved E d d' -> moved E' d d'.
Proof. intros HE Hm key. destruct (Hm key); auto. Qed.

Lemma moved_trans (E : option Phase -> option Phase -> Prop) d d1 d2 : (forall a b c, E a b -> E b c -> E a c) ->
  moved E d d1 -> moved E d1 d2 -> moved E d d2.
Proof.
  intros HE H1 H2 key. destruct (H1 key) as [E1|E1]; destruct (H2 key) as [E2|E2]; rewrite ?E2, ?E1; [by left|right; congruence|by right|].
  right. eapply HE; [exact E1|exact E2].
Qed.

Lemma moved_row (E : option Phase -> option Phase -> Prop) d d' key : (forall k, k <> key -> d'.(runs_table) !! k = d.(runs_table) !! k) ->
  phases d' key = phases d key \/ E (phases d key) (phases d' key) -> moved E d d'.
Proof. intros Hk Hkey k. destruct (decide (k = key)) as [->|Hne]; [done|]. left. unfold phases. by rewrite Hk. Qed.

Lemma moved_update (E : option Phase -> option Phase -> Prop) d key p f :
  (forall r, d.(runs_table) !! key = Some r -> p r = true -> phase (f r) = phase r \/ E (phase r) (phase (f r))) -> moved E d (update_row key p f d).
Proof.
  intros Hf. unfold update_row. destruct (d.(runs_table) !! key) as [r|] eqn:L; [|by apply moved_refl]. destruct (p r) eqn:P; [|by apply moved_refl].
  apply (moved_row _ _ _ key); [intros k Hk; cbn; by rewrite lookup_insert_ne|]. unfold phases. cbn. rewrite lookup_insert_eq, L. cbn. auto.
Qed.

Lemma moved_insert (E : option Phase -> option Phase -> Prop) d d' key r : insert_row key r d = Ok d' -> E None (phase r) -> moved E d d'.
Proof.
  unfold insert_row. destruct (d.(runs_table) !! key) eqn:L; [done|]. intros <-%Ok_inj HE.
  apply (moved_row _ _ _ key); [intros k Hk; cbn; by rewrite lookup_insert_ne|]. unfold phases. cbn. rewrite lookup_insert_eq, L. cbn. auto.
Qed.

Lemma phase_done r : terminal r.(row_state) = true -> phase r = Some (Done r.(row_state)).
Proof.
  intros Ht. unfold phase. rewrite !bool_decide_eq_false_2; [by rewrite Ht|intros E; rewrite E in Ht; done..].
Qed.

Section store.
Context `{Calendar} `{Serde BackupSchedule} `{Serde BackupRun} `{Serde Job}.
Implicit Types (d : tables) (s : BackupSchedule) (run : BackupRun).

(** A stored schedule is valid, has its own id and a readable next time. *)
Definition schedule_ok (key : text) (v : bytes) : Prop :=
  exists s, decode v = Ok s /\ s.(id) = key /\ validate_schedule s = Ok tt /\ (0 <= s.(weekday))%Z /\ is_Some (parse_rfc3339 s.(next_run_at)).

(** What a row holds in each state. *)
Definition run_ok (key : text) (r : run_row) : Prop :=
  exists run, decode r.(row_payload) = Ok run /\ run.(run_id) = key /\
    (r.(row_state) = queued /\ r.(row_cancel) = false /\
       (exists v job, r.(row_job) = Some v /\ decode v = Ok job /\ job.(job_run).(run_id) = key /\ job.(job_run).(schedule_id) = r.(row_schedule)) \/
     r.(row_state) = running \/
     terminal r.(row_state) = true /\ run.(status) = r.(row_state) \/
     r.(row_state) = deleting /\ terminal run.(status) = true).

Record consistent d : Prop := {
  schedules_ok : map_Forall schedule_ok d.(schedules_table);
  runs_ok : map_Forall run_ok d.(runs_table);
  pending_ok : queue_ok d;
}.

(** The operations, with what their callers guarantee: a weekday is a [u8], a run
    is finished with a final status, only finished runs are imported or retained. *)
Inductive store_step d : tables -> Prop :=
| step_save value now saved d' : (0 <= value.(weekday))%Z -> save_schedule value now d = Ok (saved, d') -> store_step d d'
| step_delete_schedule key d' : delete_schedule key d = Ok (tt, d') -> store_step d d'
| step_migrate m now d' : Forall (fun s => 0 <= s.(weekday))%Z m.(migration_schedules) -> migrate m now d = Ok (tt, d') -> store_step d d'
| step_enqueue request fresh run d' : enqueue request fresh d = Ok (run, d') -> store_step d d'
| step_enqueue_due now fresh d' : enqueue_due now fresh d = Ok (tt, d') -> store_step d d'
| step_claim job d' : claim d = Ok (job, d') -> store_step d d'
| step_cancel key now accepted d' : cancel key now d = Ok (accepted, d') -> store_step d d'
| step_progress run d' : progress run d = Ok (tt, d') -> store_step d d'
| step_finish run now d' : terminal run.(status) = true -> finish run now d = Ok (tt, d') -> store_step d d'
| step_insert_completed runs d' : Forall (fun run => terminal run.(status) = true) runs -> insert_completed runs d = Ok (tt, d') -> store_step d d'
| step_rename key new_name d' : rename key new_name d = Ok (tt, d') -> store_step d d'
| step_mark_deleting ids runs d' : mark_deleting ids d = Ok (runs, d') -> store_step d d'
| step_remove key d' : remove_run key d = Ok (tt, d') -> store_step d d'
| step_deletion_failed run d' : terminal run.(status) = true -> deletion_failed run d = Ok (tt, d') -> store_step d d'
| step_heartbeat now d' : heartbeat now d = Ok (tt, d') -> store_step d d'
| step_recover now d' : recover now d = Ok (tt, d') -> store_step d d'.

(** ** Its preservation *)

Context {laws : CalendarLaws} {schedule_laws : SerdeLaws BackupSchedule eq} {run_laws : SerdeLaws BackupRun same_run} {job_laws : SerdeLaws Job same_job}.

Lemma run_read_back run v : encode run = Ok v ->
  exists run', decode v = Ok run' /\ run'.(run_id) = run.(run_id) /\ run'.(status) = run.(status) /\ run'.(schedule_id) = run.(schedule_id).
Proof using run_laws. intros (run' & Hd & E)%decode_encode. exists run'. unfold same_run in E. split_and!; [done|by rewrite E..]. Qed.

Lemma schedule_read_back s v : encode s = Ok v -> decode v = Ok s.
Proof using schedule_laws. by intros (s' & Hd & ->)%decode_encode. Qed.

Lemma schedule_ok_encode s v : encode s = Ok v -> validate_schedule s = Ok tt -> (0 <= s.(weekday))%Z -> is_Some (parse_rfc3339 s.(next_run_at)) ->
  schedule_ok s.(id) v.
Proof using schedule_laws. intros Hv. exists s. split; [by apply schedule_read_back|done]. Qed.

Lemma consistent_empty : consistent empty_tables.
Proof using. split; [done|done|]. split; [done|done|]. unfold pending_count. simpl. rewrite map_to_list_empty. simpl. lia. Qed.

(** Rows that stay in their states, or leave the queue. *)
Lemma consistent_update d key p f : consistent d ->
  (forall r, d.(runs_table) !! key = Some r -> p r = true ->
    run_ok key (f r) /\ (f r).(row_schedule) = r.(row_schedule) /\ (pending (f r) = true -> pending r = true)) ->
  consistent (update_row key p f d).
Proof using.
  intros [Hs Hr Hq] Hf. unfold update_row. destruct (d.(runs_table) !! key) as [r|] eqn:L; [|done]. destruct (p r) eqn:P; [|done].
  destruct (Hf r eq_refl P) as (H1' & H2' & H3'). split; [done|by apply map_Forall_insert_2|].
  eapply queue_ok_shrinks; [done| |done]. intros k r' L'. cbn in L'. apply lookup_insert_Some in L' as [[<- <-]|[_ L']]; eauto.
Qed.

Lemma consistent_schedules d m : consistent d -> map_Forall schedule_ok m ->
  (forall key, active d key = true -> is_Some (d.(schedules_table) !! key) -> is_Some (m !! key)) -> consistent (d <| schedules_table := m |>).
Proof using.
  intros [Hs Hr Hq] Hm Hk. split; [done|done|]. destruct Hq as [Q1 Q2 Q3]. split; [exact Q1| |exact Q3].
  intros k r key L P S. apply Hk; [|by eapply Q2]. apply active_spec. eauto.
Qed.

Lemma consistent_insert d d' key r : consistent d -> insert_row key r d = Ok d' -> run_ok key r ->
  (pending r = true -> pending_count d < 100 /\ forall k, r.(row_schedule) = Some k -> active d k = false /\ is_Some (d.(schedules_table) !! k)) ->
  consistent d'.
Proof using.
  intros [Hs Hr Hq] Hi Hk Hp. unfold insert_row in Hi. destruct (d.(runs_table) !! key) eqn:L; [done|]. apply Ok_inj in Hi as <-.
  split; [done|by apply map_Forall_insert_2|]. destruct (pending r) eqn:P.
  - destruct (Hp eq_refl). by apply queue_ok_insert.
  - eapply queue_ok_shrinks; [done| |done]. intros k r' L' P'. cbn in L'. apply lookup_insert_Some in L' as [[<- <-]|[_ L']]; [congruence|eauto].
Qed.

Lemma consistent_metadata d m : consistent d -> consistent (d <| metadata_table := m |>).
Proof using. intros [Hs Hr [Q1 Q2 Q3]]. split; [done|done|]. by split. Qed.

(** A new job: a queued row with its configuration. *)
Lemma insert_job_inv c schedule run_name run_trigger zone fresh d run d' :
  insert_job c schedule run_name run_trigger zone fresh d = Ok (run, d') ->
  pending_count d < 100 /\ exists r, insert_row fresh.1 r d = Ok d' /\ run_ok fresh.1 r /\ r.(row_state) = queued /\
    r.(row_schedule) = id <$> schedule /\ r.(row_created) = to_rfc3339 fresh.2 /\
    exists v job, r.(row_job) = Some v /\ decode v = Ok job /\ job.(job_config) = c.
Proof using run_laws job_laws.
  intros Hi. unfold insert_job in Hi. destruct (Nat.leb_spec 100 (pending_count d)) as [|Hlt]; [done|]. split; [done|].
  destruct (parse_tz _); [|done]. inv_ok. eexists. split; [done|]. apply decode_encode in E0 as (job' & Hj & Hrun & Hconf & _). unfold same_run in Hrun.
  split_and!; [|done|done|done|by eexists _, job']. apply run_read_back in E as (run' & Hd & Hid & _). exists run'. split_and!; [done|done|]. left.
  split_and!; [done|done|]. eexists _, job'. split_and!; [done|done|by rewrite Hrun..].
Qed.

Definition enqueued : option Phase -> option Phase -> Prop := fun a b => a = None /\ b = Some Queued.

Lemma insert_job_step c schedule run_name run_trigger zone fresh d run d' : consistent d ->
  insert_job c schedule run_name run_trigger zone fresh d = Ok (run, d') ->
  (forall s, schedule = Some s -> active d s.(id) = false /\ is_Some (d.(schedules_table) !! s.(id))) ->
  consistent d' /\ moved enqueued d d' /\ d'.(schedules_table) = d.(schedules_table).
Proof using run_laws job_laws.
  intros Hc (Hlt & r & Hi & Hok & Hst & Hsc & _)%insert_job_inv Hs. split_and!.
  - eapply consistent_insert; [done|done|done|]. intros _. split; [done|]. intros k Hk. rewrite Hsc in Hk. destruct schedule as [s|]; [|done].
    simplify_eq/=. by apply Hs.
  - eapply moved_insert; [done|]. split; [done|]. unfold phase. by rewrite bool_decide_eq_true_2.
  - unfold insert_row in Hi. destruct (d.(runs_table) !! fresh.1); [done|]. by apply Ok_inj in Hi as <-.
Qed.

Lemma next_after_later s now t : next_after s now = Ok t -> (now < t)%Z.
Proof using.
  unfold next_after. case_bool_decide; [intros <-%Ok_inj; assert (0 < hour)%Z by done; nia|].
  destruct (parse_tz _) as [tz|]; [|done]. destruct (parse_time_of_day _) as [time|]; [|done].
  generalize (map Z.of_nat (seq 0 15)). intros l. induction l as [|i l IH]; [done|]. cbn [first_after].
  destruct (on_weekday _ _); [|done]. destruct (occurrence _ _ _) as [t'|]; [|done]. destruct (Z.ltb_spec now t'); [|done]. by intros <-%Ok_inj.
Qed.

Lemma save_consistent value now d saved d' : consistent d -> (0 <= value.(weekday))%Z -> save_schedule value now d = Ok (saved, d') -> consistent d'.
Proof using laws schedule_laws.
  intros Hc Hw Hsave. unfold save_schedule in Hsave. apply result_bind_ok in Hsave as ([] & Hv & Hsave). destruct (active d value.(id)); [done|].
  apply result_bind_ok in Hsave as (old & Hold & Hsave). apply result_bind_ok in Hsave as ([merged changed] & Hm & Hsave).
  apply result_bind_ok in Hsave as (next & Hn & Hsave).
  assert (Hmerged : merged.(id) = value.(id) /\ validate_schedule merged = Ok tt /\ (0 <= merged.(weekday))%Z /\
    (changed = true \/ is_Some (parse_rfc3339 merged.(next_run_at)))).
  { clear Hn Hsave. unfold merge_saved in Hm. destruct old as [old|]; inv_ok; (split_and!; [done|done|done|]); [|by left]. right. cbn.
    destruct (d.(schedules_table) !! value.(id)) as [v|] eqn:L; inv_ok. destruct Hc as [Hs _ _].
    destruct (Hs _ _ L) as (s & Hd & _ & _ & _ & Hp). congruence. }
  destruct Hmerged as (Hid & Hvm & Hwm & Hnext). unfold put_schedule in Hsave. inv_ok; apply consistent_schedules; try done;
    try (intros key _ Hk; rewrite lookup_insert_is_Some'; by right); (apply map_Forall_insert_2; [|apply Hc]).
  - eapply schedule_ok_encode; [done..|]. cbn. rewrite rfc3339_read_back. eauto.
  - destruct Hnext as [|Hnext]; [done|]. by eapply schedule_ok_encode.
Qed.

Lemma delete_schedule_consistent key d d' : consistent d -> delete_schedule key d = Ok (tt, d') -> consistent d'.
Proof using.
  intros Hc Hd. unfold delete_schedule in Hd. destruct (active d key) eqn:Ha; [done|]. inv_ok.
  apply consistent_schedules; [done|apply map_Forall_delete, Hc|]. intros k Hk Hs. rewrite lookup_delete_ne; [done|]. intros <-. congruence.
Qed.

Lemma pending_states r : pending r = true -> r.(row_state) = queued \/ r.(row_state) = running.
Proof using. unfold pending, one_of. cbn [existsb]. rewrite orb_false_r, orb_true_iff, !bool_decide_eq_true. done. Qed.

Lemma done_not_pending r : terminal r.(row_state) = true -> pending r = false.
Proof using. intros Ht. apply not_true_iff_false. intros [E|E]%pending_states; rewrite E in Ht; done. Qed.

Lemma run_ok_done run v r : encode run = Ok v -> terminal run.(status) = true -> r.(row_payload) = v -> r.(row_state) = run.(status) ->
  run_ok run.(run_id) r.
Proof using run_laws.
  intros (run' & Hd & Hid & Hst & _)%run_read_back Ht <- Hs. exists run'. split_and!; [done|done|]. right. right. left. rewrite Hs. done.
Qed.

(** A row that is done. *)
Lemma insert_done run v r d d' : consistent d -> encode run = Ok v -> terminal run.(status) = true -> r.(row_payload) = v ->
  r.(row_state) = run.(status) -> insert_row run.(run_id) r d = Ok d' ->
  consistent d' /\ moved (fun a b => a = None /\ exists outcome, b = Some (Done outcome) /\ terminal outcome = true) d d'.
Proof using run_laws.
  intros Hc Hv Ht Hp Hs Hi. assert (Htr : terminal r.(row_state) = true) by by rewrite Hs. split.
  - eapply consistent_insert; [done|done|by eapply run_ok_done|]. by rewrite done_not_pending.
  - eapply moved_insert; [done|]. rewrite phase_done by done. eauto.
Qed.

Lemma migrate_schedules_consistent now l d d' : consistent d -> Forall (fun s => 0 <= s.(weekday))%Z l -> validate_schedules l = Ok tt ->
  migrate_schedules now l d = Ok d' -> consistent d' /\ d'.(runs_table) = d.(runs_table).
Proof using laws schedule_laws.
  revert d. induction l as [|s l IH]; intros d Hc Hw Hv Hm; [apply Ok_inj in Hm as <-; done|]. apply Forall_cons in Hw as [Hw Hl]. cbn [validate_schedules] in Hv.
  apply result_bind_ok in Hv as ([] & Hvs & Hv). cbn [migrate_schedules] in Hm. apply result_bind_ok in Hm as (s' & Hs' & Hm). apply result_bind_ok in Hm as (v & E & Hm).
  assert (Hok : schedule_ok s'.(id) v).
  { destruct (parse_rfc3339 s.(next_run_at)) eqn:Ep; inv_ok; (eapply schedule_ok_encode; [done..|]); cbn; rewrite ?rfc3339_read_back; eauto. }
  destruct (d.(schedules_table) !! s'.(id)) eqn:L; [by apply IH in Hm|]. apply IH in Hm as [H3' H4']; [|clear Hm|done|done]; [by split|].
  apply consistent_schedules; [done|apply map_Forall_insert_2; [done|apply Hc]|]. intros key _ Hk. rewrite lookup_insert_is_Some'. by right.
Qed.

Lemma migrate_runs_step now l d d' : consistent d -> migrate_runs now l d = Ok d' ->
  consistent d' /\ moved (fun a b => a = None /\ exists outcome, b = Some (Done outcome) /\ terminal outcome = true) d d'.
Proof using run_laws.
  revert d. induction l as [|run l IH]; intros d Hc Hm; [apply Ok_inj in Hm as <-; split; [done|by apply moved_refl]|]. cbn [migrate_runs] in Hm.
  set (run' := if bool_decide (run.(status) = running) then _ else run) in Hm. destruct (one_of run'.(status) _) eqn:Ht; [|done].
  apply result_bind_ok in Hm as (v & E & Hm). destruct (d.(runs_table) !! run'.(run_id)) eqn:L; [by apply IH in Hm|].
  match type of Hm with migrate_runs _ _ (d <| runs_table := <[_ := ?r]> _ |>) = _ => set (row := r) in Hm end.
  edestruct (insert_done run' v row) as [Hc' Hm']; [exact Hc|exact E|exact Ht|done|done|unfold insert_row; rewrite L; reflexivity|].
  apply IH in Hm as [Hc'' Hm'']; [|done]. split; [done|]. eapply moved_trans; [|exact Hm'|exact Hm'']. intros a b c [_ (o & -> & _)] [[=] _].
Qed.

Lemma migrate_step m now d d' : consistent d -> Forall (fun s => 0 <= s.(weekday))%Z m.(migration_schedules) -> migrate m now d = Ok (tt, d') ->
  consistent d' /\ moved edge d d'.
Proof using laws schedule_laws run_laws.
  intros Hc Hw Hm. unfold migrate in Hm. apply result_bind_ok in Hm as (? & _ & Hm). apply result_bind_ok in Hm as ([] & Hv & Hm).
  destruct (is_migrated d); [inv_ok; split; [done|by apply moved_refl]|]. apply result_bind_ok in Hm as (d1 & H1' & Hm).
  apply migrate_schedules_consistent in H1' as [Hc1 Hr1]; [|done..]. apply result_bind_ok in Hm as (d2 & H2' & Hm).
  apply migrate_runs_step in H2' as [Hc2 Hm2]; [|done]. apply Ok_inj in Hm as [= <-]. split; [by apply consistent_metadata|].
  intros key. specialize (Hm2 key). unfold phases in *. cbn. rewrite <- Hr1. destruct Hm2 as [|(-> & o & -> & Ho)]; [by left|right; auto with dbx].
Qed.

Lemma enqueue_step request fresh d run d' : consistent d -> enqueue request fresh d = Ok (run, d') -> consistent d' /\ moved enqueued d d'.
Proof using run_laws job_laws.
  intros Hc He. unfold enqueue in He. destruct (request_schedule_id request) as [key|].
  - destruct (active d key) eqn:Ha; [done|]. destruct (d.(schedules_table) !! key) as [v|] eqn:L; [|done]. apply result_bind_ok in He as (s & Hs & He).
    destruct (schedules_ok d Hc _ _ L) as (s' & Hs' & Hid & _). assert (s' = s) as -> by congruence.
    apply insert_job_step in He as (? & ? & _); [done|done|]. intros ? [= <-]. rewrite Hid. eauto.
  - destruct (request_config request) as [c|]; [|done]. apply result_bind_ok in He as (? & _ & He). apply result_bind_ok in He as (? & _ & He).
    by apply insert_job_step in He as (? & ? & _).
Qed.

Lemma alter_const {A} (m : gmap text A) key v x : m !! key = Some v -> alter (fun _ => x) key m = <[key := x]> m.
Proof using. intros L. apply map_eq. intros k. destruct (decide (k = key)) as [->|]; by simplify_map_eq. Qed.

(** The schedules of the list as they are stored. *)
Definition stored d (l : list BackupSchedule) : Prop := NoDup (map id l) /\ Forall (fun s => exists v, d.(schedules_table) !! s.(id) = Some v /\ decode v = Ok s) l.

Lemma stored_cons d s l : stored d (s :: l) -> (exists v, d.(schedules_table) !! s.(id) = Some v /\ decode v = Ok s) /\ (s.(id) ∉ map id l) /\ stored d l.
Proof using. intros [[Hn Hl]%NoDup_cons [Hs Hf]%Forall_cons]. done. Qed.

Lemma stored_other d d' key v l : stored d l -> key ∉ map id l -> d'.(schedules_table) = <[key := v]> d.(schedules_table) -> stored d' l.
Proof using.
  intros [Hn Hf] Hk E. split; [done|]. rewrite E. rewrite Forall_forall in Hf |- *. intros s Hs. destruct (Hf s Hs) as (w & Hw & Hd).
  exists w. rewrite lookup_insert_ne; [done|]. intros ->. apply Hk. by apply list_elem_of_fmap_2.
Qed.

Lemma stored_valid d s v : consistent d -> d.(schedules_table) !! s.(id) = Some v -> decode v = Ok s ->
  validate_schedule s = Ok tt /\ (0 <= s.(weekday))%Z /\ is_Some (parse_rfc3339 s.(next_run_at)).
Proof using. intros Hc L Hd. destruct (schedules_ok d Hc _ _ L) as (s' & Hs' & _ & Hv). assert (s' = s) as -> by congruence. done. Qed.

Lemma enqueue_schedules_step now l fresh d d' : consistent d -> stored d l -> enqueue_schedules now l fresh d = Ok d' -> consistent d' /\ moved enqueued d d'.
Proof using laws schedule_laws run_laws job_laws.
  revert fresh d. induction l as [|s l IH]; intros fresh d Hc Hl He; [apply Ok_inj in He as <-; split; [done|by apply moved_refl]|].
  apply stored_cons in Hl as ((v & L & Hd) & Hn & Hl). cbn [enqueue_schedules] in He. destruct (enabled s); cbn [negb orb] in He; [|by eapply IH].
  destruct (100 <=? pending_count d); [apply Ok_inj in He as <-; split; [done|by apply moved_refl]|].
  destruct (parse_rfc3339 _) as [next|] eqn:Ep; [|done]. destruct (negb (next <=? now)%Z || active d s.(id)) eqn:Ed; [by eapply IH|].
  apply orb_false_iff in Ed as [_ Ha]. apply result_bind_ok in He as ([run d1] & Hi & He). apply result_bind_ok in He as (t & Ht & He).
  apply result_bind_ok in He as (payload & E & He). apply insert_job_step in Hi as (Hc1 & Hm1 & Hs1); [|done|intros ? [= <-]; eauto].
  rewrite <- Hs1 in L. rewrite (alter_const _ _ _ _ L) in He. destruct (stored_valid _ _ _ Hc1 L Hd) as (Hv & Hw & _).
  apply IH in He as [Hc2 Hm2].
  - split; [done|]. eapply moved_trans; [|exact Hm1|exact Hm2]. intros a b c [_ ->] [[=] _].
  - apply consistent_schedules; [done| |intros key _ Hk; rewrite lookup_insert_is_Some'; by right]. apply map_Forall_insert_2; [|apply Hc1].
    eapply (schedule_ok_encode _ _ E); [done|done|]. cbn. rewrite rfc3339_read_back. eauto.
  - eapply stored_other; [exact Hl|exact Hn|]. cbn. by rewrite Hs1.
Qed.

Lemma decode_all_elem {A} `{Serde A} rows (l : list A) : decode_all rows = Ok l -> Forall2 (fun v a => decode v = Ok a) rows l.
Proof using.
  revert l. induction rows as [|v rows IH]; intros l Hd; [apply Ok_inj in Hd as <-; constructor|]. cbn in Hd.
  apply result_bind_ok in Hd as (a & Ha & Hd). apply result_bind_ok in Hd as (l' & Hl & Hd). apply Ok_inj in Hd as <-. constructor; auto.
Qed.

Lemma schedules_stored d all : consistent d -> schedules d = Ok all ->
  stored d all /\ forall key v s, d.(schedules_table) !! key = Some v -> decode v = Ok s -> s ∈ all.
Proof using.
  intros Hc Hall. apply decode_all_elem, Forall2_fmap_l in Hall.
  assert (Hf : Forall (fun kv => schedule_ok kv.1 kv.2 /\ d.(schedules_table) !! kv.1 = Some kv.2) (btree_entries text_le d.(schedules_table))).
  { apply Forall_forall. intros [k v] Hin%elem_of_btree_entries. split; [by apply (schedules_ok d Hc)|done]. }
  pose proof (btree_entries_keys_NoDup text_le d.(schedules_table)) as Hn.
  assert (Hin : forall k v, d.(schedules_table) !! k = Some v -> (k, v) ∈ btree_entries text_le d.(schedules_table)) by (intros; by apply elem_of_btree_entries).
  unfold stored. assert (Hids : map id all = (btree_entries text_le d.(schedules_table)).*1 /\
    Forall (fun s => exists v, d.(schedules_table) !! s.(id) = Some v /\ decode v = Ok s) all).
  { clear Hn Hin. induction Hall as [|[k v] s entries all Hd Hall IH]; [done|]. apply Forall_cons in Hf as [[(s' & Hd' & Hid & _) L] Hf]. cbn in *.
    assert (s' = s) as -> by congruence. destruct (IH Hf) as [-> H2']. split; [by rewrite Hid|]. constructor; [|done]. exists v. by rewrite Hid. }
  destruct Hids as [-> Hst]. split; [done|]. intros key v s L Hd. apply Hin in L. clear -L Hall Hd.
  apply list_elem_of_lookup in L as [i L]. destruct (Forall2_lookup_l _ _ _ _ _ Hall L) as (s' & Hs' & Hd'). cbn in Hd'.
  assert (s' = s) as -> by congruence. by eapply list_elem_of_lookup_2.
Qed.

Lemma enqueue_due_step now fresh d d' : consistent d -> enqueue_due now fresh d = Ok (tt, d') -> consistent d' /\ moved enqueued d d'.
Proof using laws schedule_laws run_laws job_laws.
  intros Hc He. unfold enqueue_due in He. apply result_bind_ok in He as (all & Hall & He). apply result_bind_ok in He as (d1 & H1' & He).
  apply Ok_inj in He as [= <-]. apply schedules_stored in Hall as [Hst _]; [|done]. by eapply enqueue_schedules_step.
Qed.

(** ** Runs by age *)

Lemma elem_of_runs_by_age d k r : (k, r) ∈ runs_by_age d <-> d.(runs_table) !! k = Some r.
Proof using. unfold runs_by_age. by rewrite merge_sort_Permutation, elem_of_map_to_list. Qed.

Lemma runs_by_age_NoDup d : NoDup (runs_by_age d).*1.
Proof using. unfold runs_by_age. rewrite merge_sort_Permutation. apply NoDup_fst_map_to_list. Qed.

(** The runs that are listed are those of the rows, each once. *)
Lemma run_rows_ids d runs : consistent d -> run_rows d = Ok runs -> map run_id runs = reverse (runs_by_age d).*1.
Proof using.
  intros Hc Hr. apply decode_all_elem, Forall2_fmap_l in Hr.
  assert (Hf : Forall (fun kr => run_ok kr.1 kr.2) (reverse (runs_by_age d))).
  { apply Forall_reverse, Forall_forall. intros [k r] Hin%elem_of_runs_by_age. by apply (runs_ok d Hc). }
  rewrite <- fmap_reverse. induction Hr as [|[k r] run rows runs Hd Hr IH]; [done|]. apply Forall_cons in Hf as [(run' & Hd' & Hid & _) Hf]. cbn in *.
  assert (run' = run) as -> by congruence. rewrite Hid. f_equal. by apply IH.
Qed.

Lemma claim_inv d job d' : consistent d -> claim d = Ok (job, d') ->
  match job with
  | None => d' = d /\ forall key, phases d key <> Some Queued
  | Some job =>
    let key := job.(job_run).(run_id) in
    exists r v, d.(runs_table) !! key = Some r /\ r.(row_state) = queued /\ r.(row_cancel) = false /\ r.(row_job) = Some v /\ decode v = Ok job /\
      job.(job_run).(schedule_id) = r.(row_schedule) /\
      d' = d <| runs_table := <[key := r <| row_state := running |>]> d.(runs_table) |> /\
      List.find (fun '(_, r) => bool_decide (r.(row_state) = queued)) (runs_by_age d) = Some (key, r)
  end.
Proof using.
  intros Hc Hcl. unfold claim in Hcl. destruct (List.find _ _) as [[key r]|] eqn:Ef.
  - apply find_some in Ef as Hf. destruct Hf as [Hin Hq]. apply list_elem_of_In, elem_of_runs_by_age in Hin. apply bool_decide_eq_true in Hq.
    destruct (runs_ok d Hc _ _ Hin) as (run & _ & _ & Hcases). rewrite Hq in Hcases.
    destruct Hcases as [(_ & Hcn & v & job' & Hj & Hdj & Hid & Hsc)|[[=]|[[[=] _]|[[=] _]]]].
    rewrite Hj in Hcl. apply result_bind_ok in Hcl as (job0 & Hd0 & Hcl). apply Ok_inj in Hcl as [= <- <-]. assert (job' = job0) as -> by congruence.
    cbn. rewrite Hid. exists r, v. split_and!; try done. unfold update_row. by rewrite Hin.
  - apply Ok_inj in Hcl as [= <- <-]. split; [done|]. intros key Hp. unfold phases in Hp. destruct (d.(runs_table) !! key) as [r|] eqn:L; [|done].
    apply elem_of_runs_by_age, list_elem_of_In in L. apply (find_none _ _ Ef) in L. unfold mbind, option_bind, phase in Hp. rewrite L in Hp. repeat case_match; congruence.
Qed.

(** ** The other operations *)

Lemma claim_step d job d' : consistent d -> claim d = Ok (job, d') -> consistent d' /\ moved edge d d'.
Proof using.
  intros Hc Hcl. apply claim_inv in Hcl; [|done]. destruct job as [job|]; [|destruct Hcl as [-> _]; split; [done|by apply moved_refl]].
  destruct Hcl as (r & v & L & Hq & _ & _ & _ & _ & Hd' & _).
  assert (Hu : d' = update_row (run_id (job_run job)) (fun _ => true) (fun r => r <| row_state := running |>) d) by (unfold update_row; by rewrite L).
  rewrite Hu. split; [apply consistent_update|apply moved_update]; [done|..]; intros r' L' _; assert (r' = r) as -> by congruence.
  - split_and!; [|done|]; [|by unfold pending; rewrite Hq]. destruct (runs_ok d Hc _ _ L) as (run & Hd & Hid & _). exists run. split_and!; [done|done|]. auto.
  - right. unfold phase. rewrite Hq. constructor.
Qed.

Lemma cancel_step key now d accepted d' : consistent d -> cancel key now d = Ok (accepted, d') -> consistent d' /\ moved edge d d'.
Proof using run_laws.
  intros Hc Hcan. unfold cancel in Hcan. destruct (select_payload key _ d) as [v|] eqn:Es.
  - unfold select_payload in Es. destruct (d.(runs_table) !! key) as [r|] eqn:L; [|done]. case_bool_decide as Hq; [|done]. injection Es as <-.
    destruct (runs_ok d Hc _ _ L) as (run & Hd & Hid & _). rewrite Hd in Hcan. cbn [result_bind] in Hcan. apply result_bind_ok in Hcan as (payload & E & Hcan).
    apply Ok_inj in Hcan as [= _ <-]. split; [apply consistent_update|apply moved_update]; [done|..]; intros r' L' _; assert (r' = r) as -> by congruence.
    + split_and!; [|done|done]. rewrite <- Hid. by eapply (run_ok_done _ _ _ E).
    + right. unfold phase. rewrite Hq. constructor.
  - apply Ok_inj in Hcan as [= _ <-]. split; [apply consistent_update|apply moved_update]; [done|..]; intros r L Hr; bool_solver.
    + split_and!; [|done|done]. destruct (runs_ok d Hc _ _ L) as (run & Hd & Hid & _). exists run. split_and!; [done|done|]. auto.
    + by left.
Qed.

Lemma progress_step run d d' : consistent d -> progress run d = Ok (tt, d') -> consistent d' /\ moved edge d d'.
Proof using run_laws.
  intros Hc Hp. unfold progress in Hp. apply result_bind_ok in Hp as (v & E & Hp). apply Ok_inj in Hp as [= <-].
  split; [apply consistent_update|apply moved_update]; [done|..]; intros r L Hr; bool_solver; [|by left]. split_and!; [|done|done].
  apply run_read_back in E as (run' & Hd & Hid & _). exists run'. split_and!; [done|done|]. auto.
Qed.

(** A row that is done with a new payload. *)
Lemma update_done run v p f d : consistent d -> encode run = Ok v -> terminal run.(status) = true ->
  (forall r, d.(runs_table) !! run.(run_id) = Some r -> p r = true -> (f r).(row_state) = run.(status) /\ (f r).(row_payload) = v /\
    (f r).(row_schedule) = r.(row_schedule) /\ (r.(row_state) = running \/ r.(row_state) = deleting \/ r.(row_state) = run.(status))) ->
  consistent (update_row run.(run_id) p f d) /\ moved edge d (update_row run.(run_id) p f d).
Proof using run_laws.
  intros Hc Hv Ht Hf. split; [apply consistent_update|apply moved_update]; [done|..]; intros r L P; destruct (Hf r L P) as (H1' & H2' & H3' & Hr).
  - split_and!; [by eapply run_ok_done|done|]. rewrite done_not_pending; [done|by rewrite H1'].
  - rewrite (phase_done (f r)) by (by rewrite H1'). rewrite H1'. destruct Hr as [Hr|[Hr|Hr]].
    + right. unfold phase. rewrite Hr. auto with dbx.
    + right. unfold phase. rewrite Hr. auto with dbx.
    + left. rewrite (phase_done r) by (by rewrite Hr). by rewrite Hr.
Qed.

Lemma schedule_after_ok run now s s' v : schedule_after run now s = Ok s' -> validate_schedule s = Ok tt -> (0 <= s.(weekday))%Z ->
  is_Some (parse_rfc3339 s.(next_run_at)) -> encode s' = Ok v -> schedule_ok s.(id) v.
Proof using laws schedule_laws.
  intros Hs Hv Hw [next Hp] Hen. unfold schedule_after in Hs. cbn in Hs. rewrite Hp in Hs. destruct (next <=? now)%Z.
  - apply result_bind_ok in Hs as (t & _ & Hs). apply Ok_inj in Hs as <-. apply schedule_ok_encode in Hen; [done|done|done|]. cbn. rewrite rfc3339_read_back. eauto.
  - apply Ok_inj in Hs as <-. apply schedule_ok_encode in Hen; [done|done|done|]. cbn. eauto.
Qed.

(** [finish] writes the outcome of the run it names, whatever its state. *)
Definition finished_by d d' (key : text) : Prop :=
  exists run now, run.(run_id) = key /\ finish run now d = Ok (tt, d') /\ terminal run.(status) = true /\ phases d' key = Some (Done run.(status)).

Lemma finish_step run now d d' : consistent d -> terminal run.(status) = true -> finish run now d = Ok (tt, d') ->
  consistent d' /\ forall key, phases d' key = phases d key \/ finished_by d d' key.
Proof using laws schedule_laws run_laws.
  intros Hc Ht Hfin. pose proof Hfin as Hf. unfold finish in Hf. apply result_bind_ok in Hf as (payload & E & Hf).
  set (d1 := update_row _ _ _ d) in Hf. assert (Hc1 : consistent d1).
  { apply consistent_update; [done|]. intros r L _. split_and!; [by eapply run_ok_done|done|]. by rewrite done_not_pending. }
  assert (Hm1 : forall key, phases d1 key = phases d key \/ run.(run_id) = key /\ phases d1 key = Some (Done run.(status))).
  { intros key. unfold d1, update_row, phases. destruct (d.(runs_table) !! run.(run_id)) as [r|] eqn:L; [|by left]. cbn.
    destruct (decide (run.(run_id) = key)) as [<-|Hne]; [right|left; by rewrite lookup_insert_ne]. split; [done|].
    rewrite lookup_insert_eq. cbn. by rewrite phase_done. }
  assert (Hm : d'.(runs_table) = d1.(runs_table) -> forall key, phases d' key = phases d key \/ finished_by d d' key).
  { intros Er key. assert (Ep : phases d' key = phases d1 key) by (unfold phases; by rewrite Er). rewrite Ep.
    destruct (Hm1 key) as [|[Hk Hp]]; [by left|right]. exists run, now. rewrite Ep. done. }
  destruct run.(schedule_id) as [key|]; [|apply Ok_inj in Hf as [= <-]; split; [done|by apply Hm]].
  destruct (d1.(schedules_table) !! key) as [v|] eqn:L; [|apply Ok_inj in Hf as [= <-]; split; [done|by apply Hm]].
  apply result_bind_ok in Hf as (s & Hd & Hf). apply result_bind_ok in Hf as (s' & Hs' & Hf). apply result_bind_ok in Hf as (payload' & E' & Hf).
  apply Ok_inj in Hf as [= <-]. split; [|by apply Hm]. apply consistent_schedules; [done| |intros k _ Hk; rewrite lookup_insert_is_Some'; by right].
  apply map_Forall_insert_2; [|apply Hc1]. destruct (schedules_ok d1 Hc1 _ _ L) as (s0 & Hd0 & Hid & Hv & Hw & Hp). assert (s0 = s) as -> by congruence.
  rewrite <- Hid. by eapply schedule_after_ok.
Qed.

Lemma insert_completed_step runs d d' : consistent d -> Forall (fun run => terminal run.(status) = true) runs ->
  insert_completed_rows runs d = Ok d' ->
  consistent d' /\ moved (fun a b => a = None /\ exists outcome, b = Some (Done outcome) /\ terminal outcome = true) d d'.
Proof using run_laws.
  revert d. induction runs as [|run runs IH]; intros d Hc Ht Hi; [apply Ok_inj in Hi as <-; split; [done|by apply moved_refl]|].
  apply Forall_cons in Ht as [Ht Hts]. cbn [insert_completed_rows] in Hi. apply result_bind_ok in Hi as (v & E & Hi). apply result_bind_ok in Hi as (d1 & H1' & Hi).
  eapply insert_done in H1' as [Hc1 Hm1]; [|exact Hc|exact E|done|done|done]. apply IH in Hi as [Hc2 Hm2]; [|done..]. split; [done|].
  eapply moved_trans; [|exact Hm1|exact Hm2]. intros a b c [_ (o & -> & _)] [[=] _].
Qed.

Lemma rename_step key new_name d d' : consistent d -> rename key new_name d = Ok (tt, d') -> consistent d' /\ moved edge d d'.
Proof using run_laws.
  intros Hc Hr. unfold rename in Hr. apply result_bind_ok in Hr as (? & _ & Hr). unfold select_payload in Hr.
  destruct (d.(runs_table) !! key) as [r|] eqn:L; [|done]. destruct (completed r) eqn:Hcm; [|done]. apply result_bind_ok in Hr as (run & Hd & Hr).
  apply result_bind_ok in Hr as (v & E & Hr). apply Ok_inj in Hr as [= <-]. destruct (runs_ok d Hc _ _ L) as (run' & Hd' & Hid & Hcases).
  assert (run' = run) as -> by congruence. assert (Hst : run.(status) = r.(row_state)).
  { unfold completed in Hcm. destruct Hcases as [[Eq _]|[Eq|[[_ Eq]|[Eq _]]]]; [rewrite Eq in Hcm; done..|done|rewrite Eq in Hcm; done]. }
  rewrite <- Hid in *. change (run_id run) with (run_id (run <| display_name := Some new_name |>)).
  apply (update_done _ v); [done|done|cbn; by rewrite Hst|]. intros r' L' _. cbn in L' |- *.
  assert (r' = r) as -> by congruence. split_and!; [done|done|done|]. auto.
Qed.

Lemma mark_deleting_step ids d runs d' : consistent d -> mark_deleting_rows ids d = Ok (runs, d') ->
  consistent d' /\ moved (fun a b => (exists outcome, a = Some (Done outcome)) /\ b = Some Deleting) d d' /\
  Forall (fun run => terminal run.(status) = true) runs.
Proof using.
  revert d runs. induction ids as [|key ids IH]; intros d runs Hc Hm; [apply Ok_inj in Hm as [= <- <-]; split_and!; [done|by apply moved_refl|done]|].
  cbn [mark_deleting_rows] in Hm. unfold select_payload in Hm. destruct (d.(runs_table) !! key) as [r|] eqn:L; [|done].
  destruct (completed r || _) eqn:Hcm; [|done]. apply result_bind_ok in Hm as (run & Hd & Hm). apply result_bind_ok in Hm as ([runs' d1] & H1' & Hm).
  apply Ok_inj in Hm as [= <- <-]. destruct (runs_ok d Hc _ _ L) as (run' & Hd' & Hid & Hcases). assert (run' = run) as -> by congruence.
  assert (Hst : terminal run.(status) = true /\ (terminal r.(row_state) = true \/ r.(row_state) = deleting)).
  { unfold completed in Hcm. destruct Hcases as [[Eq _]|[Eq|[[Ht Eq]|[Eq Ht]]]]; [rewrite Eq in Hcm; done..|rewrite Eq; auto|auto]. }
  destruct Hst as [Ht Hr].
  assert (consistent (update_row key (fun _ => true) (fun r => r <| row_state := deleting |>) d) /\
    moved (fun a b => (exists outcome, a = Some (Done outcome)) /\ b = Some Deleting) d (update_row key (fun _ => true) (fun r => r <| row_state := deleting |>) d)) as [Hc1 Hm1].
  { split; [apply consistent_update|apply moved_update]; [done|..]; intros r' L' _; assert (r' = r) as -> by congruence.
    - split_and!; [|done|done]. exists run. split_and!; [done|done|]. auto.
    - destruct Hr as [Hr|Hr]; [right; rewrite phase_done by done; eauto|left; unfold phase; by rewrite Hr]. }
  apply IH in H1' as (Hc2 & Hm2 & Hts); [|done]. split_and!; [done| |by constructor].
  eapply moved_trans; [|exact Hm1|exact Hm2]. intros a b c [_ ->] [[? [=]] _].
Qed.

Lemma remove_step key d d' : consistent d -> remove_run key d = Ok (tt, d') -> consistent d' /\ moved edge d d'.
Proof using.
  intros Hc Hr. unfold remove_run in Hr. destruct (d.(runs_table) !! key) as [r|] eqn:L; [|apply Ok_inj in Hr as [= <-]; split; [done|by apply moved_refl]].
  case_bool_decide as Hdel; apply Ok_inj in Hr as [= <-]; [|split; [done|by apply moved_refl]]. split.
  - destruct Hc as [Hs Hr Hq]. split; [done|by apply map_Forall_delete|]. eapply queue_ok_shrinks; [done| |done].
    intros k r' L' P. cbn in L'. apply lookup_delete_Some in L' as [_ L']. eauto.
  - apply (moved_row _ _ _ key); [intros k Hk; cbn; by rewrite lookup_delete_ne|]. right. unfold phases. cbn. rewrite lookup_delete_eq, L. cbn.
    unfold phase. rewrite Hdel. constructor.
Qed.

Lemma deletion_failed_step run d d' : consistent d -> terminal run.(status) = true -> deletion_failed run d = Ok (tt, d') -> consistent d' /\ moved edge d d'.
Proof using run_laws.
  intros Hc Ht Hdf. unfold deletion_failed in Hdf. apply result_bind_ok in Hdf as (v & E & Hdf). apply Ok_inj in Hdf as [= <-].
  apply (update_done run v); [done..|]. intros r L Hr. bool_solver. split_and!; [done|done|done|]. auto.
Qed.

Definition recovered : option Phase -> option Phase -> Prop :=
  fun a b => (a = Some Running \/ a = Some Deleting) /\ b = Some (Done (txt "failed")).

Lemma was_interrupted_spec r : was_interrupted r = true -> r.(row_state) = running \/ r.(row_state) = deleting.
Proof using. unfold was_interrupted, one_of. cbn [existsb]. rewrite orb_false_r, orb_true_iff, !bool_decide_eq_true. done. Qed.

Lemma recover_runs_step now runs d d' : consistent d -> recover_runs now runs d = Ok d' ->
  consistent d' /\ moved recovered d d' /\
  (forall key r, d'.(runs_table) !! key = Some r -> was_interrupted r = true -> d.(runs_table) !! key = Some r /\ (key ∉ map run_id runs)) /\
  (forall key r, d.(runs_table) !! key = Some r -> was_interrupted r = false -> d'.(runs_table) !! key = Some r) /\
  (forall key r, d'.(runs_table) !! key = Some r -> d.(runs_table) !! key = Some r \/ r.(row_state) = txt "failed").
Proof using run_laws.
  revert d. induction runs as [|run runs IH]; intros d Hc Hr.
  { apply Ok_inj in Hr as <-. split_and!; [done|by apply moved_refl|intros; split; [done|apply not_elem_of_nil]|done|auto]. }
  cbn [recover_runs] in Hr. destruct (d.(runs_table) !! run.(run_id)) as [r|] eqn:L; [|done]. destruct (was_interrupted r) eqn:Hi.
  - apply result_bind_ok in Hr as (v & E & Hr). set (run' := interrupted _ now run) in *. change (run_id run') with (run_id run) in *.
    set (f := fun r : run_row => r <| row_state := txt "failed" |> <| row_payload := v |> <| row_job := None |>) in Hr.
    assert (Hf : phase (f r) = Some (Done (txt "failed"))) by done. apply was_interrupted_spec in Hi as Hst.
    destruct (update_done run' v (fun _ => true) f d) as [Hc1 _]; [done|done|done| |].
    { intros r' L' _. change (run_id run') with (run_id run) in L'. assert (r' = r) as -> by congruence. split_and!; [done|done|done|]. tauto. }
    change (run_id run') with (run_id run) in Hc1.
    assert (Hm1 : moved recovered d (update_row run.(run_id) (fun _ => true) f d)).
    { apply moved_update. intros r' L' _. assert (r' = r) as -> by congruence. right. split; [|done]. unfold phase. destruct Hst as [-> | ->]; [by left|by right]. }
    assert (Hl : forall key, (update_row run.(run_id) (fun _ => true) f d).(runs_table) !! key = if decide (key = run.(run_id)) then Some (f r) else d.(runs_table) !! key).
    { intros key. unfold update_row. rewrite L. cbn. case_decide; subst; by simplify_map_eq. }
    apply IH in Hr as (Hc2 & Hm2 & Hno & Hkeep & Hold); [|done]. split_and!; [done| | | |].
    + eapply moved_trans; [|exact Hm1|exact Hm2]. intros a b c [_ ->] [[[=]|[=]] _].
    + intros key q Lq Hq. destruct (Hno key q Lq Hq) as [L1 Hn]. rewrite Hl in L1. case_decide; [simplify_eq; done|]. split; [done|]. cbn. by apply not_elem_of_cons.
    + intros key q Lq Hq. apply Hkeep; [|done]. rewrite Hl. case_decide; [subst; congruence|done].
    + intros key q Lq. destruct (Hold key q Lq) as [L1|]; [|by right]. rewrite Hl in L1. case_decide; [right|by left]. by simplify_eq.
  - apply IH in Hr as (Hc2 & Hm2 & Hno & Hkeep & Hold); [|done]. split_and!; [done|done| |done|done]. intros key q Lq Hq. destruct (Hno key q Lq Hq) as [L1 Hn].
    split; [done|]. cbn. apply not_elem_of_cons. split; [|done]. intros ->. congruence.
Qed.

Lemma recover_step now d d' : consistent d -> recover now d = Ok (tt, d') ->
  consistent d' /\ moved recovered d d' /\ (forall key r, d'.(runs_table) !! key = Some r -> was_interrupted r = false) /\
  (forall key r, d.(runs_table) !! key = Some r -> was_interrupted r = false -> d'.(runs_table) !! key = Some r) /\
  (forall key r, d'.(runs_table) !! key = Some r -> d.(runs_table) !! key = Some r \/ r.(row_state) = txt "failed").
Proof using run_laws.
  intros Hc Hr. unfold recover in Hr. apply result_bind_ok in Hr as (runs & Hrows & Hr). apply result_bind_ok in Hr as (d1 & Hr & E). apply Ok_inj in E as [= <-].
  apply recover_runs_step in Hr as (Hc1 & Hm1 & Hno & Hkeep); [|done]. split_and!; [done|done| |apply Hkeep..]. intros key r L. apply not_true_iff_false. intros Hi.
  destruct (Hno key r L Hi) as [L0 Hn]. apply Hn. rewrite (run_rows_ids d runs Hc Hrows), elem_of_reverse. apply list_elem_of_fmap. exists (key, r).
  split; [done|]. by apply elem_of_runs_by_age.
Qed.

(** Every operation keeps the invariant and takes each run along one edge at most,
    or finishes it. *)
Lemma step_keeps d d' : consistent d -> store_step d d' -> consistent d' /\
  forall key, phases d' key = phases d key \/ edge (phases d key) (phases d' key) \/ finished_by d d' key.
Proof using laws schedule_laws run_laws job_laws.
  intros Hc Hs.
  assert (Hmoved : consistent d' /\ moved edge d d' -> consistent d' /\
    forall key, phases d' key = phases d key \/ edge (phases d key) (phases d' key) \/ finished_by d d' key).
  { intros [? Hm]. split; [done|]. intros key. destruct (Hm key); auto. }
  assert (Henq : moved enqueued d d' -> moved edge d d') by (apply moved_weaken; intros ? ? [-> ->]; constructor).
  assert (Hrec : moved recovered d d' -> moved edge d d') by (apply moved_weaken; intros ? ? [[-> | ->] ->]; by constructor).
  assert (Hdone : moved (fun a b => a = None /\ exists outcome, b = Some (Done outcome) /\ terminal outcome = true) d d' -> moved edge d d')
    by (apply moved_weaken; intros ? ? [-> (o & -> & Ho)]; by constructor).
  assert (Hdel : moved (fun a b => (exists outcome, a = Some (Done outcome)) /\ b = Some Deleting) d d' -> moved edge d d')
    by (apply moved_weaken; intros ? ? [[o ->] ->]; constructor).
  destruct Hs as [value now saved d' Hw Hd|key d' Hd|m now d' Hw Hd|request fresh run d' Hd|now fresh d' Hd|job d' Hd|key now accepted d' Hd|run d' Hd
    |run now d' Ht Hd|runs d' Ht Hd|key new_name d' Hd|ids runs d' Hd|key d' Hd|run d' Ht Hd|now d' Hd|now d' Hd].
  - apply Hmoved. split; [by eapply save_consistent|]. unfold save_schedule, put_schedule in Hd. inv_ok; by apply moved_refl.
  - apply Hmoved. split; [by eapply delete_schedule_consistent|]. unfold delete_schedule in Hd. inv_ok. by apply moved_refl.
  - apply Hmoved. by eapply migrate_step.
  - apply Hmoved. apply enqueue_step in Hd as [? ?]; auto.
  - apply Hmoved. apply enqueue_due_step in Hd as [? ?]; auto.
  - apply Hmoved. by eapply claim_step.
  - apply Hmoved. by eapply cancel_step.
  - apply Hmoved. by eapply progress_step.
  - apply finish_step in Hd as [? Hk]; [|done..]. split; [done|]. intros key. destruct (Hk key); auto.
  - apply Hmoved. unfold insert_completed in Hd. apply result_bind_ok in Hd as (d1 & Hi & Hd). apply Ok_inj in Hd as [= <-]. apply insert_completed_step in Hi as [? ?]; auto.
  - apply Hmoved. by eapply rename_step.
  - apply Hmoved. apply mark_deleting_step in Hd as (? & ? & _); auto.
  - apply Hmoved. by eapply remove_step.
  - apply Hmoved. by eapply deletion_failed_step.
  - apply Hmoved. unfold heartbeat in Hd. apply Ok_inj in Hd as [= <-]. split; [by apply consistent_metadata|by apply moved_refl].
  - apply Hmoved. apply recover_step in Hd as (? & ? & _); auto.
Qed.

Lemma reachable_consistent d : rtc store_step empty_tables d -> consistent d.
Proof using laws schedule_laws run_laws job_laws.
  intros Hr. remember empty_tables as d0 eqn:E. assert (Hc : consistent d0) by (subst; apply consistent_empty). clear E.
  induction Hr as [|d0 d1 d2 Hs Hr IH]; [done|]. apply IH. by eapply step_keeps.
Qed.

(** ** Schedules that are due *)

Definition due d (now : Z) s : bool :=
  s.(enabled) && match parse_rfc3339 s.(next_run_at) with Some next => (next <=? now)%Z | None => false end && negb (active d s.(id)).

Lemma validate_schedule_inv s : validate_schedule s = Ok tt ->
  is_Some (parse_tz s.(time_zone)) /\ is_Some (parse_time_of_day s.(time_of_day)) /\ (s.(weekday) <= 6)%Z.
Proof using.
  intros Hv. unfold validate_schedule in Hv. apply result_bind_ok in Hv as (? & _ & Hv). apply result_bind_ok in Hv as (? & _ & Hv).
  apply result_bind_ok in Hv as (? & _ & Hv). apply result_bind_ok in Hv as (? & Hw & Hv). apply result_bind_ok in Hv as (? & Ht & Hv).
  apply result_bind_ok in Hv as (? & Hz & Hv). unfold check in Hw, Ht. split_and!.
  - destruct (parse_tz _); [eauto|done].
  - case_bool_decide as Hn; [done|]. destruct (parse_time_of_day _); [eauto|]. by destruct Hn.
  - destruct (_ || _) eqn:Hb in Hw; [done|]. bool_solver. lia.
Qed.

Lemma stored_next d s v now : consistent d -> (forall tz, short_gaps tz now) -> d.(schedules_table) !! s.(id) = Some v -> decode v = Ok s ->
  exists t, next_after s now = Ok t.
Proof using laws.
  intros Hc Hg L Hd. destruct (stored_valid _ _ _ Hc L Hd) as (Hv & Hw & _). apply validate_schedule_inv in Hv as ([tz Htz] & [time Htime] & Hw6).
  by eapply next_after_total.
Qed.

Lemma insert_job_total c s run_name run_trigger zone fresh d : is_Some (parse_tz s.(time_zone)) -> pending_count d < 100 ->
  d.(runs_table) !! fresh.1 = None -> exists run d', insert_job c (Some s) run_name run_trigger zone fresh d = Ok (run, d').
Proof using run_laws job_laws.
  intros [tz Htz] Hc Hk. unfold insert_job. destruct (Nat.leb_spec 100 (pending_count d)) as [|_]; [lia|]. rewrite Htz.
  match goal with |- context [encode ?a] => destruct (encode_total a) as [payload ->] end. cbn [result_bind].
  match goal with |- context [encode ?a] => destruct (encode_total a) as [job ->] end. cbn [result_bind].
  unfold insert_row. cbn [run_id]. rewrite Hk. cbn [result_bind]. eauto.
Qed.

Lemma active_grows d d' key : (forall k r, d.(runs_table) !! k = Some r -> d'.(runs_table) !! k = Some r) -> active d key = true -> active d' key = true.
Proof using. intros Hk (k & r & L & Hr)%active_spec. apply active_spec. eauto. Qed.

(** What becomes of a schedule: a due one is queued and its next time is later,
    unless the queue is full; no other one changes. *)
Definition handled (now : Z) d d' s : Prop :=
  if due d now s then
    (active d' s.(id) = true /\
     exists v t, d'.(schedules_table) !! s.(id) = Some v /\ decode v = Ok (s <| next_run_at := to_rfc3339 t |>) /\ next_after s now = Ok t /\ (now < t)%Z) \/
    (100 <= pending_count d' /\ d'.(schedules_table) !! s.(id) = d.(schedules_table) !! s.(id))
  else d'.(schedules_table) !! s.(id) = d.(schedules_table) !! s.(id).

(** A new row is the run of a schedule that was due, with its configuration. *)
Definition run_of_due (now : Z) d (l : list BackupSchedule) (r : run_row) : Prop :=
  r.(row_state) = queued /\ exists s, s ∈ l /\ due d now s = true /\ r.(row_schedule) = Some s.(id) /\
    exists v job, r.(row_job) = Some v /\ decode v = Ok job /\ job.(job_config) = s.(config).

(** What a pass over the schedules of [l] does. *)
Definition pass (now : Z) d d' (l : list BackupSchedule) : Prop :=
  (forall key r, d.(runs_table) !! key = Some r -> d'.(runs_table) !! key = Some r) /\
  (forall key r, d'.(runs_table) !! key = Some r -> d.(runs_table) !! key = Some r \/ run_of_due now d l r) /\
  (forall key, key ∉ map id l -> d'.(schedules_table) !! key = d.(schedules_table) !! key) /\
  Forall (handled now d d') l.

Lemma pass_skip now d d' s l : pass now d d' l -> (s.(id) ∉ map id l) -> due d now s = false -> pass now d d' (s :: l).
Proof using.
  intros (HA & HB & HC & HD) Hn Hdue. split_and!; [done| | |].
  - intros key r Hr. destruct (HB key r Hr) as [|(Hq & t & Ht & Hrest)]; [by left|]. right. split; [done|]. exists t. split; [by right|done].
  - intros key Hk. cbn in Hk. apply not_elem_of_cons in Hk as [_ Hk]. auto.
  - constructor; [|done]. unfold handled. rewrite Hdue. auto.
Qed.

(** The tables after one schedule is queued. *)
Definition queued_one d d2 s (key : text) (r : run_row) (payload : bytes) : Prop :=
  d2.(runs_table) = <[key := r]> d.(runs_table) /\ d2.(schedules_table) = <[s.(id) := payload]> d.(schedules_table) /\
  r.(row_state) = queued /\ r.(row_schedule) = Some s.(id) /\ exists v job, r.(row_job) = Some v /\ decode v = Ok job /\ job.(job_config) = s.(config).

Lemma enqueue_one now s v d fresh : consistent d -> (forall tz, short_gaps tz now) -> d.(schedules_table) !! s.(id) = Some v -> decode v = Ok s ->
  active d s.(id) = false -> pending_count d < 100 -> d.(runs_table) !! fresh.1 = None ->
  exists run d1 t payload r, insert_job s.(config) (Some s) s.(name) "scheduled" None fresh d = Ok (run, d1) /\ next_after s now = Ok t /\
    encode (s <| next_run_at := to_rfc3339 t |>) = Ok payload /\
    let d2 := d1 <| schedules_table := alter (fun _ => payload) s.(id) d1.(schedules_table) |> in consistent d2 /\ queued_one d d2 s fresh.1 r payload.
Proof using laws schedule_laws run_laws job_laws.
  intros Hc Hg L Hd Ha Hroom Hfresh. destruct (stored_valid _ _ _ Hc L Hd) as (Hv & Hw & _). apply validate_schedule_inv in Hv as Hz.
  destruct (insert_job_total s.(config) s s.(name) "scheduled" None fresh d (proj1 Hz) Hroom Hfresh) as (run & d1 & Hi).
  destruct (stored_next d s v now Hc Hg L Hd) as [t Ht]. destruct (encode_total (s <| next_run_at := to_rfc3339 t |>)) as [payload Hp].
  destruct (insert_job_inv _ _ _ _ _ _ _ _ _ Hi) as (_ & r & Hrow & _ & Hq & Hs & _ & Hj).
  destruct (insert_job_step _ _ _ _ _ _ _ _ _ Hc Hi) as (Hc1 & _ & Hs1); [intros ? [= <-]; eauto|]. exists run, d1, t, payload, r.
  rewrite <- Hs1 in L. rewrite (alter_const _ _ _ _ L). do 3 (split; [done|]). split.
  - apply consistent_schedules; [done| |intros key _ Hk; rewrite lookup_insert_is_Some'; by right].
    apply map_Forall_insert_2; [|apply Hc1]. eapply (schedule_ok_encode _ _ Hp); [done|done|]. cbn. rewrite rfc3339_read_back. eauto.
  - unfold insert_row in Hrow. rewrite Hfresh in Hrow. apply Ok_inj in Hrow as <-. by split_and!.
Qed.

Lemma due_other now d d2 s q key r payload : queued_one d d2 s key r payload -> d.(runs_table) !! key = None -> q.(id) <> s.(id) -> due d2 now q = due d now q.
Proof using.
  intros (Hr2 & _ & _ & Hs & _) Hk Hne. unfold due. do 2 f_equal. apply eq_true_iff_eq. rewrite !active_spec, Hr2. split.
  - intros (k & r' & Lr & Sr & Pr). apply lookup_insert_Some in Lr as [[<- <-]|[_ Lr]]; [congruence|eauto].
  - intros (k & r' & Lr & Sr & Pr). exists k, r'. split; [|done]. rewrite lookup_insert_ne; [done|]. intros <-. by rewrite Hk in Lr.
Qed.

Lemma pass_queued now d d2 d' s l key r payload t : queued_one d d2 s key r payload -> d.(runs_table) !! key = None -> (s.(id) ∉ map id l) ->
  due d now s = true -> next_after s now = Ok t -> encode (s <| next_run_at := to_rfc3339 t |>) = Ok payload -> pass now d2 d' l -> pass now d d' (s :: l).
Proof using schedule_laws.
  intros Hone Hk Hn Hdue Ht Hp (HA & HB & HC & HD). destruct (Hone) as (Hr2 & Hs2 & Hq & Hs & Hj).
  assert (Hne : forall q, q ∈ l -> q.(id) <> s.(id)) by (intros q Hql E; apply Hn; rewrite <- E; by apply list_elem_of_fmap_2).
  assert (Hdues : forall q, q ∈ l -> due d2 now q = due d now q) by (intros q Hql; eapply due_other; eauto). split_and!.
  - intros k q Lr. apply HA. rewrite Hr2, lookup_insert_ne; [done|]. intros <-. by rewrite Hk in Lr.
  - intros k q Lr. destruct (HB k q Lr) as [L2|(Hqq & t' & Htl & Htd & Hrest)].
    + rewrite Hr2 in L2. apply lookup_insert_Some in L2 as [[_ <-]|[_ L2]]; [|by left]. right. split; [done|]. exists s. by split_and!; [left|..].
    + right. split; [done|]. exists t'. split_and!; [by right|by rewrite <- Hdues|apply Hrest..].
  - intros k Hkn. cbn in Hkn. apply not_elem_of_cons in Hkn as [Hks Hkl]. rewrite HC by done. rewrite Hs2. by rewrite lookup_insert_ne.
  - constructor.
    + unfold handled. rewrite Hdue. left. split.
      * apply (active_grows d2); [done|]. apply active_spec. exists key, r. rewrite Hr2, lookup_insert_eq. split_and!; [done|done|]. unfold pending. by rewrite Hq.
      * exists payload, t. rewrite HC, Hs2, lookup_insert_eq by done. split_and!; [done|by apply schedule_read_back|done|by eapply next_after_later].
    + rewrite Forall_forall in HD |- *. intros q Hql. specialize (HD q Hql). unfold handled in HD |- *. rewrite Hdues, Hs2, lookup_insert_ne in HD; auto.
      intros E. by apply (Hne q Hql).
Qed.

Lemma enqueue_schedules_spec now l fresh d : consistent d -> stored d l -> (forall tz, short_gaps tz now) ->
  (forall i, d.(runs_table) !! (fresh i).1 = None) -> (forall i j, (fresh i).1 = (fresh j).1 -> i = j) ->
  exists d', enqueue_schedules now l fresh d = Ok d' /\ pass now d d' l.
Proof using laws schedule_laws run_laws job_laws.
  revert fresh d. induction l as [|s l IH]; intros fresh d Hc Hl Hg Hfresh Hinj; [exists d; unfold pass; split_and!; auto|].
  apply stored_cons in Hl as ((v & L & Hd) & Hn & Hl). cbn [enqueue_schedules].
  assert (Hskip : due d now s = false -> exists d', enqueue_schedules now l fresh d = Ok d' /\ pass now d d' (s :: l)).
  { intros Hdue. destruct (IH fresh d Hc Hl Hg Hfresh Hinj) as (d' & He & Hp). exists d'. split; [done|]. by apply pass_skip. }
  destruct (enabled s) eqn:Hen; cbn [negb orb]; [|apply Hskip; unfold due; by rewrite Hen].
  destruct (Nat.leb_spec 100 (pending_count d)) as [Hfull|Hroom].
  { exists d. unfold pass. split_and!; auto. apply Forall_true. intros t. unfold handled. destruct (due d now t); auto. }
  destruct (stored_valid _ _ _ Hc L Hd) as (_ & _ & [next Hnext]). rewrite Hnext. destruct (negb (next <=? now)%Z || active d s.(id)) eqn:Ed.
  { apply Hskip. unfold due. rewrite Hen, Hnext. destruct (next <=? now)%Z; [|done]. simpl in Ed |- *. by rewrite Ed. }
  apply orb_false_iff in Ed as [Hle Ha]. assert (Hdue : due d now s = true) by (unfold due; rewrite Hen, Hnext, Ha; by destruct (next <=? now)%Z).
  destruct (enqueue_one now s v d (fresh 0) Hc Hg L Hd Ha Hroom (Hfresh 0)) as (run & d1 & t & payload & r & -> & Ht & Hp & Hc2 & Hone).
  cbn [result_bind]. rewrite Ht. cbn [result_bind]. rewrite Hp. cbn [result_bind]. set (d2 := d1 <| schedules_table := _ |>) in *.
  destruct Hone as (Hr2 & Hs2 & Hrest). destruct (IH (fun n => fresh (S n)) d2 Hc2) as (d' & He & Hpass); [by eapply stored_other|done| | |].
  { intros i. rewrite Hr2, lookup_insert_ne; [done|]. intros E%Hinj. done. }
  { intros i j E%Hinj. lia. }
  exists d'. split; [exact He|]. by eapply (pass_queued now d d2 d' s l (fresh 0).1 r payload t).
Qed.

(** ** Totality *)

Lemma decode_all_total {A} `{Serde A} (rows : list bytes) : Forall (fun v => exists a : A, decode v = Ok a) rows -> exists l : list A, decode_all rows = Ok l.
Proof using. induction 1 as [|v rows [a Ha] Hf [l Hl]]; cbn [decode_all]; [eauto|]. rewrite Ha. cbn [result_bind]. rewrite Hl. cbn [result_bind]. eauto. Qed.

Lemma schedules_total d : consistent d -> exists all, schedules d = Ok all.
Proof using.
  intros Hc. apply decode_all_total, Forall_map, Forall_forall. intros [k v] Hin%elem_of_btree_entries.
  destruct (schedules_ok d Hc _ _ Hin) as (s & Hd & _). eauto.
Qed.

Lemma run_rows_total d : consistent d -> exists runs, run_rows d = Ok runs.
Proof using.
  intros Hc. apply decode_all_total, Forall_map, Forall_reverse, Forall_forall. intros [k r] Hin%elem_of_runs_by_age.
  destruct (runs_ok d Hc _ _ Hin) as (run & Hd & _). eauto.
Qed.

Lemma due_shrinks now d d' s : (forall k r, d.(runs_table) !! k = Some r -> d'.(runs_table) !! k = Some r) -> due d now s = false -> due d' now s = false.
Proof using.
  intros Hk. unfold due. destruct (enabled s && _); simpl; [|done]. rewrite !negb_false_iff. by apply active_grows.
Qed.

Lemma enqueue_schedules_idle now l fresh d : (100 <= pending_count d \/ Forall (fun s => due d now s = false) l) ->
  Forall (fun s => is_Some (parse_rfc3339 s.(next_run_at))) l -> enqueue_schedules now l fresh d = Ok d.
Proof using.
  intros Hidle Hp. revert fresh. induction Hp as [|s l [next Hnext] Hp IH]; intros fresh; [done|]. cbn [enqueue_schedules].
  assert (Hrest : enqueue_schedules now l fresh d = Ok d).
  { apply IH. destruct Hidle as [|Hf]; [by left|right]. by apply Forall_cons in Hf as [_ Hf]. }
  destruct (enabled s) eqn:Hen; cbn [negb orb]; [|done]. destruct (Nat.leb_spec 100 (pending_count d)) as [|Hroom]; [done|]. rewrite Hnext.
  destruct Hidle as [|Hf]; [lia|]. apply Forall_cons in Hf as [Hf _]. unfold due in Hf. rewrite Hen, Hnext in Hf. simpl in Hf.
  destruct (next <=? now)%Z; simpl in Hf |- *; [|done]. apply negb_false_iff in Hf. by rewrite Hf.
Qed.

Lemma pass_is_over now d d' all all' : consistent d -> consistent d' -> schedules d = Ok all -> schedules d' = Ok all' -> pass now d d' all ->
  100 <= pending_count d' \/ Forall (fun s => due d' now s = false) all'.
Proof using laws.
  intros Hc Hc' Hall Hall' (HA & _ & HC & HD). apply schedules_stored in Hall as [[_ Hst] Hin]; [|done]. apply schedules_stored in Hall' as [[_ Hst'] _]; [|done].
  destruct (decide (100 <= pending_count d')) as [|Hroom]; [by left|]. right. rewrite Forall_forall in Hst, Hst', HD |- *. intros s' Hs'.
  destruct (Hst' s' Hs') as (v' & L' & Hd'). destruct (decide (s'.(id) ∈ map id all)) as [(s & Hid & Hs)%list_elem_of_fmap|Hnot].
  - specialize (HD s Hs). destruct (Hst s Hs) as (v & L & Hd). rewrite Hid in L'. unfold handled in HD. rewrite L' in HD. destruct (due d now s) eqn:Hdue.
    + destruct HD as [[_ (w & t & [= <-] & Hw & _ & Hlt)]|[? _]]; [|lia]. assert (s' = s <| next_run_at := to_rfc3339 t |>) as -> by congruence.
      unfold due. cbn. rewrite rfc3339_read_back, (proj2 (Z.leb_gt t now)) by done. by rewrite andb_false_r.
    + rewrite L in HD. assert (s' = s) as -> by congruence. by eapply due_shrinks.
  - rewrite (HC _ Hnot) in L'. destruct Hnot. apply list_elem_of_fmap. exists s'. split; [done|]. by eapply Hin.
Qed.

Lemma recover_runs_total now runs d : Forall (fun run => is_Some (d.(runs_table) !! run.(run_id))) runs -> exists d', recover_runs now runs d = Ok d'.
Proof using run_laws.
  revert d. induction runs as [|run runs IH]; intros d Hf; [by eexists|]. apply Forall_cons in Hf as [[r L] Hf]. cbn [recover_runs]. rewrite L.
  destruct (was_interrupted r); [|by apply IH]. match goal with |- context [encode ?a] => destruct (encode_total a) as [payload ->] end. cbn [result_bind].
  apply IH. eapply Forall_impl; [exact Hf|]. intros run' Hr'. unfold update_row. case_match; [|done]. cbn. rewrite lookup_insert_is_Some'. by right.
Qed.
End store.

(** ** The order of runs *)

Lemma text_leb_total a b : text_leb a b = true \/ text_leb b a = true.
Proof.
  revert b. induction a as [|x a IH]; intros [|y b]; simpl; auto. destruct (Z.ltb_spec x y); [by left|]. destruct (Z.ltb_spec y x); [by right|].
  assert (x = y) as -> by lia. rewrite Z.eqb_refl. simpl. apply IH.
Qed.

Lemma text_leb_trans a b c : text_leb a b = true -> text_leb b c = true -> text_leb a c = true.
Proof.
  revert b c. induction a as [|x a IH]; intros [|y b] [|z c]; simpl; try done.
  rewrite !orb_true_iff, !andb_true_iff, !Z.ltb_lt, !Z.eqb_eq. intros [Hxy|[-> Hab]] [Hyz|[-> Hbc]]; [left; lia|by left|by left|].
  right. split; [done|]. by eapply IH.
Qed.

Lemma text_leb_antisym a b : text_leb a b = true -> text_leb b a = true -> a = b.
Proof.
  revert b. induction a as [|x a IH]; intros [|y b]; simpl; try done.
  rewrite !orb_true_iff, !andb_true_iff, !Z.ltb_lt, !Z.eqb_eq. intros [Hxy|[-> Hab]] [Hyx|[Hyx Hba]]; try lia. f_equal. by apply IH.
Qed.

Lemma run_le_spec a b : run_le a b <-> text_leb a.2.(row_created) b.2.(row_created) = true /\ (a.2.(row_created) = b.2.(row_created) -> text_leb a.1 b.1 = true).
Proof. unfold run_le. rewrite andb_true_iff. case_bool_decide; simpl; naive_solver. Qed.

#[global] Instance run_le_total : Total run_le.
Proof.
  intros a b. rewrite !run_le_spec. destruct (decide (a.2.(row_created) = b.2.(row_created))) as [E|E].
  - rewrite E. destruct (text_leb_total a.1 b.1), (text_leb_total b.2.(row_created) b.2.(row_created)); naive_solver.
  - destruct (text_leb_total a.2.(row_created) b.2.(row_created)); naive_solver.
Qed.

#[global] Instance run_le_trans : Transitive run_le.
Proof.
  intros a b c. rewrite !run_le_spec. intros [H1 H2] [H3 H4]. split; [by eapply text_leb_trans|]. intros E. rewrite E in H1.
  assert (E' : b.2.(row_created) = c.2.(row_created)) by (by apply text_leb_antisym). apply (text_leb_trans _ b.1); [apply H2|apply H4]; congruence.
Qed.

Lemma runs_by_age_sorted d : StronglySorted run_le (runs_by_age d).
Proof. unfold runs_by_age. apply StronglySorted_merge_sort; apply _. Qed.

(** What is found first is the least. *)
Lemma find_least {A} (R : relation A) (p : A -> bool) l x : (forall a, R a a) -> StronglySorted R l -> List.find p l = Some x ->
  forall y, y ∈ l -> p y = true -> R x y.
Proof.
  intros Hrefl. induction 1 as [|a l Hl IH Ha]; [done|]. cbn [List.find]. destruct (p a) eqn:Pa.
  - intros [= <-] y Hy _. apply elem_of_cons in Hy as [->|Hy]; [done|]. rewrite List.Forall_forall in Ha. apply Ha. by apply list_elem_of_In.
  - intros Hf y Hy Py. apply elem_of_cons in Hy as [->|Hy]; [congruence|auto].
Qed.

(** ** Theorems *)

Section theorems.
Context `{Calendar} {laws : CalendarLaws} `{Serde BackupSchedule} `{Serde BackupRun} `{Serde Job}.
Context {schedule_laws : SerdeLaws BackupSchedule eq} {run_laws : SerdeLaws BackupRun same_run} {job_laws : SerdeLaws Job same_job}.
Implicit Types d : tables.

(** C13. In every state that the store reaches from empty tables by its operations,
    in any order, every schedule and run is readable and has the id of its row, a
    queued run has its job and is not cancelled, a finished one records its
    outcome, a schedule is valid with a readable next time and has at most one
    pending run, the schedule of a pending run exists, and at most a hundred runs
    are pending. *)
Theorem backup_store_is_consistent d : rtc store_step empty_tables d -> consistent d.
Proof using laws schedule_laws run_laws job_laws. apply reachable_consistent. Qed.

(** C14. The store refines the life cycle of runs: every row is in a phase, and an
    operation leaves each run in its phase, takes it along one edge, or is the
    [finish] of that very run, which writes its outcome whatever the phase was (it
    does not look at the state; the worker calls it for the run it has claimed).  So
    a run is queued once, leaves the queue by being claimed, cancelled or finished,
    what is finished or being deleted is never queued or running again, and only
    finished runs are deleted. *)
Theorem runs_follow_their_life_cycle d d' : rtc store_step empty_tables d -> store_step d d' ->
  forall key, (is_Some (d.(runs_table) !! key) <-> is_Some (phases d key)) /\
    (phases d' key = phases d key \/ edge (phases d key) (phases d' key) \/ finished_by d d' key).
Proof using laws schedule_laws run_laws job_laws.
  intros Hc%reachable_consistent Hs key. split; [|by apply (step_keeps d d')]. unfold phases. destruct (d.(runs_table) !! key) as [r|] eqn:L; [|split; intros [? [=]]].
  split; [|done]. intros _. cbn. destruct (runs_ok d Hc _ _ L) as (run & _ & _ & [(Eq & _)|[Eq|[[Ht _]|[Eq _]]]]).
  - unfold phase. rewrite Eq. eauto.
  - unfold phase. rewrite Eq. eauto.
  - rewrite phase_done by done. eauto.
  - unfold phase. rewrite Eq. eauto.
Qed.

(** C15. A pass over the schedules succeeds; it keeps every run, queues one run for
    each schedule that is enabled, due and has none pending, with its
    configuration, and moves its next time past the present, unless a hundred
    runs are pending; no other schedule changes; and a second pass at the same
    time, as after a crash of the caller, changes nothing. *)
Theorem due_schedules_run_once now fresh d : rtc store_step empty_tables d -> (forall tz, short_gaps tz now) ->
  (forall i, d.(runs_table) !! (fresh i).1 = None) -> (forall i j, (fresh i).1 = (fresh j).1 -> i = j) ->
  exists all d', schedules d = Ok all /\ enqueue_due now fresh d = Ok (tt, d') /\ pass now d d' all /\ queue_ok d' /\
    forall fresh', enqueue_due now fresh' d' = Ok (tt, d').
Proof using laws schedule_laws run_laws job_laws.
  intros Hc%reachable_consistent Hg Hfresh Hinj. destruct (schedules_total d Hc) as [all Hall]. destruct (schedules_stored d all Hc Hall) as [Hst _].
  destruct (enqueue_schedules_spec now all fresh d Hc Hst Hg Hfresh Hinj) as (d' & He & Hp). exists all, d'.
  assert (Hdue : enqueue_due now fresh d = Ok (tt, d')) by (unfold enqueue_due; rewrite Hall; cbn [result_bind]; by rewrite He).
  apply enqueue_due_step in Hdue as Hc'; [|done]. destruct Hc' as [Hc' _]. split_and!; [done|done|done|apply Hc'|]. intros fresh'.
  destruct (schedules_total d' Hc') as [all' Hall']. unfold enqueue_due. rewrite Hall'. cbn [result_bind]. rewrite enqueue_schedules_idle; [done|by eapply (pass_is_over now d d' all)|].
  destruct (schedules_stored d' all' Hc' Hall') as [[_ Hst'] _]. eapply Forall_impl; [exact Hst'|]. intros s (v & L & Hd). by apply (stored_valid d' s v).
Qed.

(** The worker always gets its next job: the oldest queued run, which was not
    cancelled, by its time and then its id; that run is then running and nothing
    else changes.  It gets none exactly when none is queued. *)
Theorem claim_takes_the_oldest d : rtc store_step empty_tables d ->
  exists job d', claim d = Ok (job, d') /\
  match job with
  | None => d' = d /\ forall key, phases d key <> Some Queued
  | Some job =>
    let key := job.(job_run).(run_id) in
    exists r, d.(runs_table) !! key = Some r /\ r.(row_state) = queued /\ r.(row_cancel) = false /\ job.(job_run).(schedule_id) = r.(row_schedule) /\
      d' = d <| runs_table := <[key := r <| row_state := running |>]> d.(runs_table) |> /\
      forall k r', d.(runs_table) !! k = Some r' -> r'.(row_state) = queued -> run_le (key, r) (k, r')
  end.
Proof using laws schedule_laws run_laws job_laws.
  intros Hc%reachable_consistent.
  assert (exists job d', claim d = Ok (job, d')) as (job & d' & Hcl).
  { unfold claim. destruct (List.find _ _) as [[key r]|] eqn:Ef; [|eauto]. apply find_some in Ef as [Hin Hq].
    apply list_elem_of_In, elem_of_runs_by_age in Hin. apply bool_decide_eq_true in Hq. destruct (runs_ok d Hc _ _ Hin) as (run & _ & _ & Hcases).
    rewrite Hq in Hcases. destruct Hcases as [(_ & _ & v & job & Hj & Hdj & _)|[[=]|[[[=] _]|[[=] _]]]]. rewrite Hj, Hdj. cbn [result_bind]. eauto. }
  exists job, d'. split; [done|]. apply claim_inv in Hcl; [|done]. destruct job as [job|]; [|done].
  destruct Hcl as (r & v & L & Hq & Hcn & _ & _ & Hsc & Hd' & Hf). exists r. split_and!; try done. intros k r' L' Hq'.
  eapply find_least; [| apply runs_by_age_sorted|exact Hf|by apply elem_of_runs_by_age|by apply bool_decide_eq_true].
  intros a. by destruct (run_le_total a a).
Qed.

(** C18. A new worker always recovers: no run is left running or half deleted, each
    of these is failed, all other runs are as they were, and a schedule is active
    only if it still has a queued run. *)
Theorem restart_frees_schedules now d : rtc store_step empty_tables d ->
  exists d', recover now d = Ok (tt, d') /\ (forall key r, d'.(runs_table) !! key = Some r -> was_interrupted r = false) /\
    (forall key, phases d' key = phases d key \/ recovered (phases d key) (phases d' key)) /\
    (forall key r, d.(runs_table) !! key = Some r -> was_interrupted r = false -> d'.(runs_table) !! key = Some r) /\
    (forall key, active d' key = true <-> exists k r, d.(runs_table) !! k = Some r /\ r.(row_schedule) = Some key /\ r.(row_state) = queued).
Proof using laws schedule_laws run_laws job_laws.
  intros Hc%reachable_consistent. destruct (run_rows_total d Hc) as [runs Hrows].
  assert (Hids : Forall (fun run => is_Some (d.(runs_table) !! run.(run_id))) runs).
  { apply Forall_forall. intros run Hin. assert (Hk : run.(run_id) ∈ map run_id runs) by by apply list_elem_of_fmap_2.
    rewrite (run_rows_ids d runs Hc Hrows), elem_of_reverse in Hk. apply list_elem_of_fmap in Hk as ([k r] & -> & Hr%elem_of_runs_by_age). eauto. }
  destruct (recover_runs_total now runs d Hids) as [d' Hr]. exists d'.
  assert (Hrec : recover now d = Ok (tt, d')) by (unfold recover; rewrite Hrows; cbn [result_bind]; by rewrite Hr).
  destruct (recover_step now d d' Hc Hrec) as (Hc' & Hm & Hno & Hkeep & Hold). split_and!; [done..|]. intros key.
  assert (Hqueued : forall r, r.(row_state) = queued -> pending r = true /\ was_interrupted r = false)
    by (intros r Eq; unfold pending, was_interrupted; rewrite Eq; done).
  rewrite active_spec. split.
  - intros (k & r & L & Hs & Hp). pose proof (Hno k r L) as Hi. destruct (Hold k r L) as [L0|Hfail].
    + exists k, r. split_and!; [done|done|]. apply pending_states in Hp as [|Eq]; [done|]. unfold was_interrupted in Hi. by rewrite Eq in Hi.
    + unfold pending in Hp. by rewrite Hfail in Hp.
  - intros (k & r & L & Hs & Eq). destruct (Hqueued r Eq). exists k, r. split_and!; auto.
Qed.
End theorems.

(** ** A store

    The tables after a schedule is saved, is due, and its run is claimed. *)
Module SampleStore.
Import Sample.

(** Values written one after the other. *)
Class Writable (A : Type) : Type := {
  put : A -> bytes;
  get : bytes -> option (A * bytes);
  get_put a rest : get (put a ++ rest) = Some (a, rest);
}.

#[refine, export] Instance put_Z : Writable Z := {| put (z : Z) := [z]; get l := match l with z :: l => Some (z, l) | [] => None end |}.
Proof. done. Defined.

#[refine, export] Instance put_bool : Writable bool := {| put (b : bool) := [if b then 1 else 0]%Z; get l := match l with z :: l => Some ((z =? 1)%Z, l) | [] => None end |}.
Proof. by intros []. Defined.

#[refine, export] Instance put_positive : Writable positive := {| put (p : positive) := [Z.pos p]; get l := match l with Z.pos p :: l => Some (p, l) | _ => None end |}.
Proof. done. Defined.

#[refine, export] Instance put_unit : Writable unit := {| put (_ : unit) := []; get l := Some (tt, l) |}.
Proof. by intros []. Defined.

#[refine, export] Instance put_prod {A B} `{Writable A} `{Writable B} : Writable (A * B) := {|
  put '(a, b) := put a ++ put b;
  get l := match get l with Some (a, l) => match get l with Some (b, l) => Some ((a, b), l) | None => None end | None => None end |}.
Proof. intros [a b] rest. by rewrite <- app_assoc, get_put, get_put. Defined.

#[refine, export] Instance put_sum {A B} `{Writable A} `{Writable B} : Writable (A + B) := {|
  put x := match x with inl a => 0%Z :: put a | inr b => 1%Z :: put b end;
  get l :=
    match l with
    | 0%Z :: l => match get l with Some (a, l) => Some (inl a, l) | None => None end
    | _ :: l => match get l with Some (b, l) => Some (inr b, l) | None => None end
    | [] => None
    end |}.
Proof. intros [a|b] rest; cbn; by rewrite get_put. Defined.

#[refine, export] Instance put_option {A} `{Writable A} : Writable (option A) := {|
  put x := match x with None => [0]%Z | Some a => 1%Z :: put a end;
  get l := match l with 0%Z :: l => Some (None, l) | _ :: l => match get l with Some (a, l) => Some (Some a, l) | None => None end | [] => None end |}.
Proof. intros [a|] rest; cbn; [by rewrite get_put|done]. Defined.

Fixpoint get_many {A} `{Writable A} (n : nat) (l : bytes) : option (list A * bytes) :=
  match n with
  | O => Some ([], l)
  | S n => match get l with Some (a, l) => match get_many n l with Some (al, l) => Some (a :: al, l) | None => None end | None => None end
  end.

#[refine, export] Instance put_list {A} `{Writable A} : Writable (list A) := {|
  put al := Z.of_nat (length al) :: concat (map put al);
  get l := match l with n :: l => get_many (Z.to_nat n) l | [] => None end |}.
Proof.
  intros al rest. cbn. rewrite Nat2Z.id. induction al as [|a al IH]; [done|]. cbn. by rewrite <- app_assoc, get_put, IH.
Defined.

Definition via {A B} `{Writable B} (f : A -> B) (g : B -> A) : Serde A := {|
  Store.encode a := Ok (put (f a));
  Store.decode v := match get v with Some (b, []) => Ok (g b) | _ => Err (txt "invalid payload") end |}.

Lemma via_laws {A B} `{Writable B} (f : A -> B) (g : B -> A) (same : relation A) : (forall a, g (f a) = a) -> (forall a, same a a) ->
  @SerdeLaws A (via f g) same.
Proof.
  intros Hg Hs. split; [by eexists|]. intros a v Hv. apply Ok_inj in Hv as <-. exists a. split; [|done]. cbn.
  pose proof (get_put (f a) []) as Hp. rewrite app_nil_r in Hp. by rewrite Hp, Hg.
Qed.

Definition target_tuple (t : BackupTableTarget) := (t.(target_database), t.(target_schema), t.(target_table)).
Definition tuple_target '((a, b, c) : text * text * text) : BackupTableTarget := {| target_database := a; target_schema := b; target_table := c |}.

Definition config_tuple (c : BackupConfig) :=
  (c.(connection_id), c.(databases), c.(table_filter_mode), c.(table_patterns), map target_tuple c.(selected_tables), c.(destination_directory),
   c.(include_structure), c.(include_data), c.(include_objects), c.(drop_table_if_exists), c.(output_compression), c.(file_name_pattern)).
Definition tuple_config '((a, b, c, d, e, f, g, h, i, j, k, l) :
    text * list text * text * list text * list (text * text * text) * text * bool * bool * bool * bool * text * option text) : BackupConfig :=
  {| connection_id := a; databases := b; table_filter_mode := c; table_patterns := d; selected_tables := map tuple_target e; destination_directory := f;
     include_structure := g; include_data := h; include_objects := i; drop_table_if_exists := j; output_compression := k; file_name_pattern := l |}.

Lemma tuple_config_tuple c : tuple_config (config_tuple c) = c.
Proof.
  destruct c. unfold config_tuple, tuple_config. cbn. f_equal. rewrite map_map, (map_ext _ (fun t => t)), map_id; [done|]. by intros [].
Qed.

Definition schedule_tuple (s : BackupSchedule) :=
  (s.(id), s.(name), s.(enabled), config_tuple s.(config), s.(frequency), s.(interval_hours), s.(time_of_day), s.(weekday), s.(retention_count),
   (s.(run_directory_pattern), s.(time_zone), s.(created_at), s.(updated_at), s.(next_run_at), s.(last_run_at), s.(last_run_status))).
Definition tuple_schedule '((a, b, c, d, e, f, g, h, i, (j, k, l, m, n, o, p)) :
    text * text * bool * _ * text * Z * text * Z * Z * (option text * text * text * text * text * option text * option text)) : BackupSchedule :=
  {| id := a; name := b; enabled := c; config := tuple_config d; frequency := e; interval_hours := f; time_of_day := g; weekday := h; retention_count := i;
     run_directory_pattern := j; time_zone := k; created_at := l; updated_at := m; next_run_at := n; last_run_at := o; last_run_status := p |}.

Lemma tuple_schedule_tuple s : tuple_schedule (schedule_tuple s) = s.
Proof. destruct s. unfold schedule_tuple, tuple_schedule. cbn [Models.config]. by rewrite tuple_config_tuple. Qed.

Definition float_sum (x : Float64.f64) : bool + bool + (unit + bool * positive * Z) :=
  match x with
  | SpecFloat.S754_zero s => inl (inl s)
  | SpecFloat.S754_infinity s => inl (inr s)
  | SpecFloat.S754_nan => inr (inl tt)
  | SpecFloat.S754_finite s m e => inr (inr (s, m, e))
  end.
Definition sum_float (x : bool + bool + (unit + bool * positive * Z)) : Float64.f64 :=
  match x with
  | inl (inl s) => SpecFloat.S754_zero s
  | inl (inr s) => SpecFloat.S754_infinity s
  | inr (inl _) => SpecFloat.S754_nan
  | inr (inr (s, m, e)) => SpecFloat.S754_finite s m e
  end.

Definition file_tuple (f : BackupFile) := (f.(file_database), f.(file_schema), f.(file_display_name), f.(file_path), f.(owned)).
Definition tuple_file '((a, b, c, d, e) : text * text * text * text * bool) : BackupFile :=
  {| file_database := a; file_schema := b; file_display_name := c; file_path := d; owned := e |}.

Definition run_tuple (r : BackupRun) :=
  (r.(run_id), r.(schedule_id), r.(schedule_name), r.(display_name), r.(run_connection_id), r.(connection_name), r.(run_destination), r.(trigger),
   (r.(source), r.(status), r.(started_at), r.(completed_at), map file_tuple r.(files), float_sum r.(progress_percent), r.(error))).
Definition tuple_run '((a, b, c, d, e, f, g, h, (i, j, k, l, m, n, o)) :
    text * option text * text * option text * text * text * text * text *
    (text * text * text * option text * list (text * text * text * text * bool) * _ * option text)) : BackupRun :=
  {| run_id := a; schedule_id := b; schedule_name := c; display_name := d; run_connection_id := e; connection_name := f; run_destination := g; trigger := h;
     source := i; status := j; started_at := k; completed_at := l; files := map tuple_file m; progress_percent := sum_float n; error := o |}.

Lemma tuple_run_tuple r : tuple_run (run_tuple r) = r.
Proof.
  destruct r as [? ? ? ? ? ? ? ? ? ? ? ? l x ?]. unfold run_tuple, tuple_run. cbn.
  rewrite map_map, (map_ext _ (fun t => t)), map_id; [|by intros []]. by destruct x.
Qed.

Definition job_tuple (j : Job) := (run_tuple j.(job_run), config_tuple j.(job_config), j.(directory_pattern), j.(job_time_zone)).
Definition tuple_job '((a, b, c, d) : _ * _ * option text * text) : Job :=
  {| job_run := tuple_run a; job_config := tuple_config b; directory_pattern := c; job_time_zone := d |}.

Lemma tuple_job_tuple j : tuple_job (job_tuple j) = j.
Proof. destruct j. unfold job_tuple, tuple_job. cbn [job_run job_config directory_pattern job_time_zone]. by rewrite tuple_run_tuple, tuple_config_tuple. Qed.

#[export] Instance schedule_serde : Serde BackupSchedule := via schedule_tuple tuple_schedule.
#[export] Instance run_serde : Serde BackupRun := via run_tuple tuple_run.
#[export] Instance job_serde : Serde Job := via job_tuple tuple_job.

#[export] Instance schedule_serde_laws : SerdeLaws BackupSchedule eq.
Proof. apply via_laws; [apply tuple_schedule_tuple|done]. Qed.

Lemma same_run_refl r : same_run r r.
Proof. by destruct r. Qed.

#[export] Instance run_serde_laws : SerdeLaws BackupRun same_run.
Proof. apply via_laws; [apply tuple_run_tuple|apply same_run_refl]. Qed.

#[export] Instance job_serde_laws : SerdeLaws Job same_job.
Proof. apply via_laws; [apply tuple_job_tuple|]. intros j. split; [apply same_run_refl|done]. Qed.

Definition after {A} (r : result (A * tables) text) : tables := match r with Ok (_, d) => d | Err _ => empty_tables end.

Definition sample_fresh (i : nat) : text * Z := (Z.of_nat i :: txt "-run", spring).
Definition sample_saved : tables := after (save_schedule sample_schedule (spring - 2 * hour) empty_tables).
Definition sample_queued : tables := after (enqueue_due spring sample_fresh sample_saved).
Definition sample_claimed : tables := after (claim sample_queued).

Lemma ok_after {A} (r : result (A * tables) text) : is_ok r = true -> exists a, r = Ok (a, after r).
Proof. destruct r as [[a d]|]; [|done]. by exists a. Qed.

Lemma ok_after_tt (r : result (unit * tables) text) : is_ok r = true -> r = Ok (tt, after r).
Proof. destruct r as [[[] d]|]; done. Qed.

Lemma sample_saved_reachable : rtc store_step empty_tables sample_saved.
Proof.
  assert (Hq : is_ok (save_schedule sample_schedule (spring - 2 * hour) empty_tables) = true) by by vm_compute.
  destruct (ok_after _ Hq) as [saved Hs]. apply rtc_once. by refine (step_save _ _ _ _ _ _ Hs).
Qed.

Lemma sample_queued_step : store_step sample_saved sample_queued.
Proof.
  assert (Hq : is_ok (enqueue_due spring sample_fresh sample_saved) = true) by by vm_compute.
  exact (step_enqueue_due _ _ _ _ (ok_after_tt _ Hq)).
Qed.

Lemma sample_queued_reachable : rtc store_step empty_tables sample_queued.
Proof. eapply rtc_r; [apply sample_saved_reachable|apply sample_queued_step]. Qed.

Lemma sample_claimed_step : store_step sample_queued sample_claimed.
Proof.
  assert (Hq : is_ok (claim sample_queued) = true) by by vm_compute. destruct (ok_after _ Hq) as [job Hj]. exact (step_claim _ _ _ Hj).
Qed.

Lemma sample_claimed_reachable : rtc store_step empty_tables sample_claimed.
Proof. eapply rtc_r; [apply sample_queued_reachable|apply sample_claimed_step]. Qed.

Lemma sample_key : phases sample_queued (sample_fresh 0).1 = Some Queued /\ phases sample_claimed (sample_fresh 0).1 = Some Running.
Proof. by vm_compute. Qed.
End SampleStore.
Import Sample SampleStore.

Lemma backup_store_witness : consistent sample_claimed /\ active sample_claimed (txt "s1") = true.
Proof. split; [apply backup_store_is_consistent, sample_claimed_reachable|by vm_compute]. Defined.

Lemma life_cycle_witness : phases sample_queued (sample_fresh 0).1 = Some Queued /\
  (phases sample_claimed (sample_fresh 0).1 = phases sample_queued (sample_fresh 0).1 \/ edge (Some Queued) (phases sample_claimed (sample_fresh 0).1)
   \/ finished_by sample_queued sample_claimed (sample_fresh 0).1).
Proof.
  split; [apply sample_key|]. rewrite <- (proj1 sample_key).
  apply (runs_follow_their_life_cycle sample_queued sample_claimed sample_queued_reachable sample_claimed_step).
Defined.

Lemma due_schedules_witness : exists all d', schedules sample_saved = Ok all /\ enqueue_due spring sample_fresh sample_saved = Ok (tt, d') /\
  pass spring sample_saved d' all /\ map (due sample_saved spring) all = [true] /\ active d' (txt "s1") = true.
Proof.
  destruct (due_schedules_run_once spring sample_fresh sample_saved sample_saved_reachable) as (all & d' & Ha & He & Hp & _ & _).
  - intros tz. apply sample_gaps.
  - intros i. assert (E : sample_saved.(runs_table) = ∅) by by vm_compute. rewrite E. apply lookup_empty.
  - intros i j [= E]. lia.
  - exists all, d'. split_and!; [done..| |].
    + replace all with (match schedules sample_saved with Ok l => l | Err _ => [] end) by by rewrite Ha. by vm_compute.
    + replace d' with (after (enqueue_due spring sample_fresh sample_saved)) by by rewrite He. by vm_compute.
Defined.

Lemma claim_witness : exists job d', claim sample_queued = Ok (Some job, d') /\ d' = sample_claimed.
Proof.
  destruct (claim_takes_the_oldest sample_queued sample_queued_reachable) as (job & d' & Hc & Hj). exists (default (Build_Job sample_run sample_config None []) job), d'.
  destruct job as [job|]; [|destruct (proj2 Hj (sample_fresh 0).1 (proj1 sample_key))]. split; [exact Hc|]. unfold sample_claimed. by rewrite Hc.
Defined.

Lemma restart_witness : exists d', recover spring sample_claimed = Ok (tt, d') /\ active d' (txt "s1") = false.
Proof.
  destruct (restart_frees_schedules spring sample_claimed sample_claimed_reachable) as (d' & Hr & _). exists d'. split; [done|].
  replace d' with (after (recover spring sample_claimed)) by by rewrite Hr. by vm_compute.
Defined.
