(* ===== verification/BackupServiceSpec.v ===== *)
(** * The files of backups

    Deleting runs, by hand or for retention, and cleaning up after a failed one
    removes only files that the runs own, inside their destinations, and never a
    file of an imported run; the runs that retention deletes are older than those
    it keeps. *)

From S2P Require Import Prelude Json Containers Backup BackupSpec BackupStoreSpec.
Import Models Store Service.

(** ** Removals

    What a computation asks of the store and of the file system, with the answers,
    and what it removes, or tries to, is written down beside the world, in order. *)

Inductive event :=
| Accessed {A : Type} (tx : Tx A) (answer : result A text)
| Resolved (path : text) (answer : result (list text) text)
| Looked (path : text) (answer : result FileKind IoError)
| RemoveFile (path : list text)
| RemoveDirectory (path : list text).

Section tracing.
Context {W : Type}.

Definition silent {A} (m : M W A) : M (W * list event) A := fun '(w, h) => let '(a, w') := m w in (a, (w', h)).
Definition noting {A} (e : A -> event) (m : M W A) : M (W * list event) A := fun '(w, h) => let '(a, w') := m w in (a, (w', h ++ [e a])).

#[export] Instance traced `{Calendar} `{Serde BackupSchedule} `{Serde BackupRun} `{Serde Job} `{!Disk W} : Disk (W * list event) := {|
  access := fun A tx => noting (Accessed tx) (access tx);
  canonicalize := fun path => noting (Resolved path) (canonicalize path);
  is_dir := fun path => silent (is_dir path);
  symlink_metadata := fun path => noting (Looked path) (symlink_metadata path);
  resolved_metadata := fun path => silent (resolved_metadata path);
  remove_file := fun path => noting (fun _ => RemoveFile path) (remove_file path);
  remove_dir := fun path => noting (fun _ => RemoveDirectory path) (remove_dir path);
  verify_export_destination_identity := fun path => silent (verify_export_destination_identity path) |}.

(** From the history [h], every event of [m] satisfies [P] given what was there before
    it, and [Q] holds of the result and of the history in the end. *)
Definition tracing {A} (P : list event -> event -> Prop) (m : M (W * list event) A) (Q : A -> list event -> Prop) (h : list event) : Prop :=
  forall w, exists new, (m (w, h)).2.2 = h ++ new /\ (forall a e b, new = a ++ e :: b -> P (h ++ a) e) /\ Q (m (w, h)).1 (h ++ new).

Lemma tracing_ret {A} P (a : A) (Q : A -> list event -> Prop) h : Q a h -> tracing P (ret a) Q h.
Proof. intros Ha w. exists []. rewrite app_nil_r. split_and!; [done|by intros []|done]. Qed.

Lemma tracing_silent {A} P (m : M W A) (Q : A -> list event -> Prop) h : (forall a, Q a h) -> tracing P (silent m) Q h.
Proof. intros Hq w. exists []. rewrite app_nil_r. unfold silent. destruct (m w). split_and!; [done|by intros []|apply Hq]. Qed.

Lemma tracing_noting {A} (P : list event -> event -> Prop) e (m : M W A) (Q : A -> list event -> Prop) h :
  (forall a, P h (e a)) -> (forall a, Q a (h ++ [e a])) -> tracing P (noting e m) Q h.
Proof.
  intros Hp Hq w. unfold noting. destruct (m w) as [r w']. exists [e r]. split_and!; [done| |apply Hq].
  intros [|x a] e' b E; simplify_eq/=; [rewrite app_nil_r; apply Hp|by destruct a].
Qed.

Lemma tracing_bind {A B} P (m : M (W * list event) A) (k : A -> M (W * list event) B) (Q : A -> list event -> Prop) (R : B -> list event -> Prop) h :
  tracing P m Q h -> (forall a h', h `prefix_of` h' -> Q a h' -> tracing P (k a) R h') -> tracing P (bind m k) R h.
Proof.
  intros Hm Hk w. destruct (Hm w) as (n1 & E1 & P1 & Q1). unfold bind. destruct (m (w, h)) as [a [w1 h1]]. cbn in *. subst h1.
  destruct (Hk a (h ++ n1) ltac:(by exists n1) Q1 w1) as (n2 & E2 & P2 & R2). exists (n1 ++ n2). rewrite app_assoc. split_and!; [done| |done].
  intros x e y [(c & Hc & _)|(c & -> & Hc)]%app_cons_split; [by eapply P1|]. rewrite app_assoc. by eapply P2.
Qed.

Lemma tracing_try {A B E} P (m : M (W * list event) (result A E)) (k : A -> M (W * list event) (result B E)) (Q : A -> list event -> Prop)
    (R : result B E -> list event -> Prop) h :
  tracing P m (fun r h' => match r with Ok a => Q a h' | Err e => R (Err e) h' end) h ->
  (forall a h', h `prefix_of` h' -> Q a h' -> tracing P (k a) R h') -> tracing P (try_bind m k) R h.
Proof. intros Hm Hk. eapply tracing_bind; [exact Hm|]. intros [a|e] h' Hh Hr; [by apply Hk|by apply tracing_ret]. Qed.

Lemma tracing_weaken {A} (P P' : list event -> event -> Prop) (m : M (W * list event) A) (Q Q' : A -> list event -> Prop) h :
  (forall h' e, h `prefix_of` h' -> P h' e -> P' h' e) -> (forall a h', h `prefix_of` h' -> Q a h' -> Q' a h') -> tracing P m Q h -> tracing P' m Q' h.
Proof.
  intros HP HQ Hm w. destruct (Hm w) as (new & E & H1 & H2). exists new. split_and!; [done| |apply HQ; [by exists new|done]].
  intros a e b Hn. apply HP; [by exists a|by eapply H1].
Qed.
End tracing.

Lemma seen_later (h h' : list event) e : h `prefix_of` h' -> e ∈ h -> e ∈ h'.
Proof. intros [x ->]. rewrite elem_of_app. by left. Qed.

Section service.
Context `{Calendar} `{Serde BackupSchedule} `{Serde BackupRun} `{Serde Job} {W : Type} `{!Disk W} (server_root : option text).
Implicit Types (run : BackupRun) (f : BackupFile) (h : list event).

Notation T := (W * list event)%type.
Notation tracing := (tracing (W := W)).

(** The disk has resolved [path] to [p]. *)
Definition resolved h (path : text) (p : list text) : Prop := Resolved path (Ok p) ∈ h.

(** [root] is the directory that [path] names as a destination: below the root of
    the server, if it has one. *)
Definition destination h (path : text) (root : list text) : Prop :=
  is_absolute path = true /\ (txt ".." ∉ path_parts path) /\ resolved h path root /\
  match server_root with Some top => exists base, resolved h top base /\ starts_with root base = true | None => True end.

Definition inside (p root : list text) : Prop := p <> root /\ starts_with p root = true.

Lemma destination_later h h' path root : h `prefix_of` h' -> destination h path root -> destination h' path root.
Proof using.
  intros Hh (H1' & H2' & H3' & H4'). split_and!; [done|done|by eapply seen_later|]. destruct server_root; [|done].
  destruct H4' as (base & Hb & Hs). exists base. split; [by eapply seen_later|done].
Qed.

(** The removals satisfy [P]; nothing is said of what else is asked. *)
Definition removals (P : list event -> event -> Prop) h (e : event) : Prop :=
  match e with RemoveFile _ | RemoveDirectory _ => P h e | _ => True end.

(** The answer of the store, or of the disk, is what was seen last. *)
Lemma access_traced {A} P (tx : Tx A) h :
  tracing (removals P) (access tx : M T (result A text)) (fun r h' => Accessed tx r ∈ h') h.
Proof using. apply tracing_noting; [done|]. intros a. apply elem_of_app. right. by left. Qed.

Lemma access_ok_traced {A} P (tx : Tx A) h :
  tracing (removals P) (access tx : M T (result A text)) (fun r h' => match r with Ok a => Accessed tx (Ok a) ∈ h' | Err _ => True end) h.
Proof using. eapply tracing_weaken; [| |apply access_traced]; [done|]. by intros []. Qed.

Lemma resolve_traced {E} P (g : text -> E) path h :
  tracing (removals P) (let! r := (canonicalize path : M T _) in ret (match r with Ok a => Ok a | Err e => Err (g e) end))
    (fun r h' => match r with Ok p => resolved h' path p | Err _ => True end) h.
Proof using.
  eapply (tracing_bind _ _ _ (fun r h' => Resolved path r ∈ h')).
  - apply tracing_noting; [done|]. intros a. apply elem_of_app. right. by left.
  - intros [p|e] h' _ Hr; by apply tracing_ret.
Qed.

Lemma validate_destination_traced P path h :
  tracing (removals P) (validate_destination (W := T) server_root path) (fun r h' => match r with Ok root => destination h' path root | Err _ => True end) h.
Proof using.
  unfold validate_destination. destruct (negb (is_absolute path) || _) eqn:Hb; [by apply tracing_ret|]. bool_solver.
  eapply (tracing_try _ _ _ (fun root h' => resolved h' path root)); [eapply tracing_weaken; [| |apply resolve_traced]; [done|by intros []]|].
  intros root h1 Hh1 Hroot. eapply (tracing_bind _ _ _ (fun _ h' => h' = h1)); [by apply tracing_silent|]. intros [] h2 _ ->; cbn [negb]; [|by apply tracing_ret].
  unfold destination. destruct server_root as [top|]; [|by apply tracing_ret].
  eapply (tracing_try _ _ _ (fun base h' => resolved h' top base)); [eapply tracing_weaken; [| |apply resolve_traced]; [done|by intros []]|].
  intros base h3 Hh3 Hbase. apply tracing_ret. destruct (starts_with root base) eqn:Hs; [|done]. split_and!; try done; [by eapply seen_later|]. eauto.
Qed.

(** No other run of the list refers to the file. *)
Definition unshared (others : list BackupRun) run f : Prop :=
  forall other g, other ∈ others -> g ∈ other.(files) -> g.(file_path) = f.(file_path) -> other.(run_id) = run.(run_id).

Lemma referenced_unshared others run f : referenced_elsewhere others run f = false -> unshared others run f.
Proof using.
  intros Hr other g Ho Hg E. unfold referenced_elsewhere in Hr. destruct (decide (other.(run_id) = run.(run_id))) as [|Hn]; [done|].
  exfalso. assert (Ht : existsb (fun r => negb (bool_decide (r.(run_id) = run.(run_id))) && existsb (fun g => bool_decide (g.(file_path) = f.(file_path))) r.(files)) others = true); [|congruence].
  apply existsb_exists. exists other. split; [by apply list_elem_of_In|]. rewrite bool_decide_eq_false_2 by done. cbn.
  apply existsb_exists. exists g. split; [by apply list_elem_of_In|by apply bool_decide_eq_true].
Qed.

(** What the removals of a run may be, after what was seen: a file that the run owns,
    that no other listed run refers to, that is a regular file and was resolved to a
    backup file inside the destination; a directory inside the destination. *)
Definition allowed (others : list BackupRun) run h (e : event) : Prop :=
  match e with
  | RemoveFile p => exists f root, f ∈ run.(files) /\ f.(owned) = true /\ unshared others run f /\
      Looked f.(file_path) (Ok IsFile) ∈ h /\ resolved h f.(file_path) p /\
      destination h run.(run_destination) root /\ inside p root /\ backup_extension (lower (default [] (last p))) = true
  | RemoveDirectory p => exists root, destination h run.(run_destination) root /\ inside p root
  | _ => True
  end.

Lemma checked_file_traced P run path h : tracing (removals P) (checked_file (W := T) server_root run path) (fun r h' =>
  match r with
  | Ok p => exists root, destination h' run.(run_destination) root /\ Looked path (Ok IsFile) ∈ h' /\ resolved h' path p /\ inside p root /\
      backup_extension (lower (default [] (last p))) = true
  | Err _ => True
  end) h.
Proof using.
  unfold checked_file. eapply tracing_try; [eapply tracing_weaken; [| |apply validate_destination_traced]; [done|intros [root|e] h' _ Hr; [exact Hr|exact Logic.I]]|].
  intros root h1 Hh1 Hroot. eapply (tracing_try _ _ _ (fun _ h' => h' = h1)); [apply tracing_silent; by intros []|]. intros _ h1' _ ->.
  eapply (tracing_try _ _ _ (fun kind h' => Looked path (Ok kind) ∈ h')).
  { eapply (tracing_bind _ _ _ (fun r h' => Looked path r ∈ h')); [|intros [kind|e] h' _ Hr; by apply tracing_ret].
    apply tracing_noting; [done|]. intros a. apply elem_of_app. right. by left. }
  intros [| |] h2 Hh2 Hkind; [|by apply tracing_ret..].
  eapply (tracing_try _ _ _ (fun p h' => resolved h' path p)).
  { apply tracing_noting; [done|]. intros [p|e]; [|done]. apply elem_of_app. right. by left. }
  intros p h3 Hh3 Hp. apply tracing_ret. destruct (bool_decide _ || _) eqn:Hb; [done|]. bool_solver. destruct (backup_extension _) eqn:He; [|done].
  exists root. split_and!; try done; [|by eapply seen_later]. eapply destination_later; [|exact Hroot]. by etrans.
Qed.

Lemma cleanup_file_traced others run f h : f ∈ run.(files) ->
  tracing (removals (allowed others run)) (cleanup_file (W := T) server_root others run f) (fun _ _ => True) h.
Proof using.
  intros Hf. unfold cleanup_file. destruct (referenced_elsewhere others run f) eqn:Hr; [by apply tracing_ret|].
  eapply (tracing_bind _ _ _ (fun _ _ => True)); [by apply tracing_noting|]. intros metadata h1 _ _.
  assert (Hrest : tracing (removals (allowed others run)) (if negb f.(owned) then ret (Kept unconfirmed) else
    let! checked := checked_file (W := T) server_root run f.(file_path) in
    match checked with
    | Err e => ret (Kept e)
    | Ok path => let! removed := remove_file path in ret (match removed with Err (OtherError e) => Kept e | _ => Removed (removelast path) end)
    end) (fun _ _ => True) h1).
  { destruct (owned f) eqn:Ho; cbn [negb]; [|by apply tracing_ret]. eapply tracing_bind; [apply checked_file_traced|].
    intros [p|e] h2 _ Hp; [|by apply tracing_ret].
    eapply (tracing_bind _ _ _ (fun _ _ => True)); [|by intros; apply tracing_ret]. apply tracing_noting; [|done]. intros _.
    destruct Hp as (root & Hd & Hk & Hp & Hi & He). exists f, root. apply referenced_unshared in Hr. by split_and!. }
  destruct metadata as [kind|[|e]]; [exact Hrest|by apply tracing_ret|exact Hrest].
Qed.

Lemma cleanup_files_traced others run l h : (forall f, f ∈ l -> f ∈ run.(files)) ->
  tracing (removals (allowed others run)) (cleanup_files (W := T) server_root others run l) (fun _ _ => True) h.
Proof using.
  revert h. induction l as [|f l IH]; intros h Hl; cbn [cleanup_files]; [by apply tracing_ret|].
  eapply (tracing_bind _ _ _ (fun _ _ => True)); [apply cleanup_file_traced, Hl; by left|]. intros outcome h1 _ _.
  eapply (tracing_bind _ _ _ (fun _ _ => True)); [apply IH; intros; apply Hl; by right|]. intros [[retained errors] emptied] h2 _ _. by apply tracing_ret.
Qed.

Lemma remove_empty_traced others run fuel directory root h : destination h run.(run_destination) root ->
  tracing (removals (allowed others run)) (remove_empty_directories (W := T) fuel directory root) (fun _ _ => True) h.
Proof using.
  revert directory h. induction fuel as [|fuel IH]; intros directory h Hroot; cbn [remove_empty_directories]; [by apply tracing_ret|].
  destruct (bool_decide _ || _) eqn:Hb; [by apply tracing_ret|]. bool_solver.
  eapply (tracing_bind _ _ _ (fun _ h' => h' = h)); [by apply tracing_silent|].
  intros [[| |]|e] h1 _ ->; try by apply tracing_ret.
  eapply (tracing_bind _ _ _ (fun _ _ => True)); [apply tracing_noting; [|done]; intros _; exists root; split; [exact Hroot|by split]|].
  intros [[]|e] h2 Hh2 _; [|by apply tracing_ret]. destruct directory; [by apply tracing_ret|apply IH]. by eapply destination_later.
Qed.

Lemma remove_all_empty_traced others run l root h : destination h run.(run_destination) root ->
  tracing (removals (allowed others run)) (remove_all_empty (W := T) l root) (fun _ _ => True) h.
Proof using.
  revert h. induction l as [|directory l IH]; intros h Hroot; cbn [remove_all_empty]; [by apply tracing_ret|].
  eapply (tracing_bind _ _ _ (fun _ _ => True)); [by apply remove_empty_traced|]. intros [] h1 Hh1 _. apply IH. by eapply destination_later.
Qed.

(** The list of runs that the store has given. *)
Definition listed h (others : list BackupRun) : Prop := exists taken, Accessed snapshot (Ok taken) ∈ h /\ others = taken.(snapshot_runs).

Definition allowed_given_list run h (e : event) : Prop := exists others, listed h others /\ allowed others run h e.

Lemma cleanup_traced run h :
  tracing (removals (allowed_given_list run)) (cleanup (W := T) server_root run) (fun r _ => r.2.(status) = run.(status)) h.
Proof using.
  unfold cleanup. eapply tracing_bind; [apply access_ok_traced|]. intros [taken|e] h1 _ Ht; [|by apply tracing_ret].
  assert (Hw : forall A (m : M T A) Q h', h1 `prefix_of` h' -> tracing (removals (allowed taken.(snapshot_runs) run)) m Q h' ->
    tracing (removals (allowed_given_list run)) m Q h').
  { intros A m Q h' Hh'. apply tracing_weaken; [|done]. intros h2 e Hh2. destruct e; try done; intros Ha; exists taken.(snapshot_runs);
      (split; [|exact Ha]); exists taken; (split; [|done]); (eapply seen_later; [|exact Ht]); by etrans. }
  eapply (tracing_bind _ _ _ (fun _ _ => True)); [by apply Hw, cleanup_files_traced|]. intros [[retained errors] emptied] h2 Hh2 _.
  eapply tracing_bind; [apply validate_destination_traced|]. intros root h3 Hh3 Hroot.
  eapply (tracing_bind _ _ _ (fun _ _ => True)); [|by intros; apply tracing_ret].
  destruct root as [root|e]; [|by apply tracing_ret]. apply Hw; [by etrans|]. by apply remove_all_empty_traced.
Qed.

(** A removal for one of the runs, none of them imported. *)
Definition allowed_for (runs : list BackupRun) h (e : event) : Prop :=
  exists run, run ∈ runs /\ run.(source) <> IMPORTED_SOURCE /\ allowed_given_list run h e.

Lemma delete_marked_traced runs all h : (forall run, run ∈ runs -> run ∈ all) ->
  tracing (removals (allowed_for all)) (delete_marked (W := T) server_root runs) (fun _ _ => True) h.
Proof using.
  revert h. induction runs as [|run runs IH]; intros h Hin; cbn [delete_marked]; [by apply tracing_ret|].
  assert (Hrest : forall h', tracing (removals (allowed_for all)) (delete_marked (W := T) server_root runs) (fun _ _ => True) h')
    by (intros; apply IH; intros; apply Hin; by right).
  assert (Hskip : forall A (tx : Tx A) h', tracing (removals (allowed_for all)) (access tx : M T (result A text))
    (fun r _ => match r with Ok _ => True | Err _ => True end) h') by (intros; apply tracing_noting; [done|by intros []]).
  case_bool_decide as Himp; [eapply (tracing_try _ _ _ (fun _ _ => True)); [apply Hskip|by intros; apply Hrest]|].
  eapply (tracing_bind _ _ _ (fun _ _ => True)).
  { eapply tracing_weaken; [| |apply cleanup_traced]; [|done]. intros h' e _. destruct e; try done; intros Ha; exists run; (split; [apply Hin; by left|done]). }
  intros [[[]|e] run'] h1 _ _.
  - eapply (tracing_try _ _ _ (fun _ _ => True)); [apply Hskip|by intros; apply Hrest].
  - eapply (tracing_try _ _ _ (fun _ _ => True)); [apply Hskip|]. intros _ h2 _ _.
    eapply (tracing_try _ _ _ (fun _ _ => True)); [eapply tracing_weaken; [| |apply Hrest]; [done|by intros []]|]. intros errors h3 _ _. by apply tracing_ret.
Qed.

(** The runs that the store has marked for deletion. *)
Definition marked h (ids : list text) (runs : list BackupRun) : Prop := Accessed (mark_deleting ids) (Ok runs) ∈ h.

Definition deleting_only (ids : list text) h (e : event) : Prop := exists runs, marked h ids runs /\ allowed_for runs h e.

Lemma delete_runs_traced ids h : tracing (removals (deleting_only ids)) (delete_runs (W := T) server_root ids) (fun _ _ => True) h.
Proof using.
  unfold delete_runs. destruct (_ <? _)%Z; [by apply tracing_ret|].
  eapply (tracing_try _ _ _ (fun runs h' => marked h' ids runs)); [eapply tracing_weaken; [| |apply access_ok_traced]; [done|by intros []]|].
  intros runs h1 _ Hr. eapply (tracing_try _ _ _ (fun _ _ => True)).
  - eapply tracing_weaken; [| |by apply (delete_marked_traced runs runs)]; [|by intros []].
    intros h' e Hh'. destruct e; try done; intros Ha; exists runs; (split; [by eapply seen_later|done]).
  - intros errors h2 _ _. by apply tracing_ret.
Qed.

(** The runs that retention selects for a schedule, in a snapshot of the store. *)
Definition outdated h (owner : option text) (ids : list text) : Prop :=
  exists taken s, Accessed snapshot (Ok taken) ∈ h /\ s ∈ taken.(snapshot_schedules) /\ owner = Some s.(id) /\ (0 < s.(retention_count))%Z /\
    ids = retention_ids s.(id) s.(retention_count) taken.(snapshot_runs).

Definition retaining (owner : option text) h (e : event) : Prop := exists ids, outdated h owner ids /\ deleting_only ids h e.

Lemma retain_traced owner h : tracing (removals (retaining owner)) (retain (W := T) server_root owner) (fun _ _ => True) h.
Proof using.
  unfold retain. eapply (tracing_try _ _ _ (fun taken h' => Accessed snapshot (Ok taken) ∈ h')); [eapply tracing_weaken; [| |apply access_ok_traced]; [done|by intros []]|].
  intros taken h1 _ Ht. destruct (List.find _ _) as [s|] eqn:Ef; [|by apply tracing_ret]. apply find_some in Ef as [Hin Ho]. bool_solver.
  destruct (Z.ltb_spec 0 s.(retention_count)); [|by apply tracing_ret]. eapply tracing_weaken; [| |apply delete_runs_traced]; [|done].
  intros h' e Hh'. destruct e; try done; intros Ha; eexists; (split; [|exact Ha]); exists taken, s; split_and!; try done;
    try (by eapply seen_later); by apply list_elem_of_In.
Qed.

(** What the end of a job may remove: files of the run itself unless it succeeded,
    and then those of the runs that retention selects. *)
Definition concluding (owner : option text) run h (e : event) : Prop :=
  if bool_decide (run.(status) = txt "success") then retaining owner h e else allowed_given_list run h e.

Lemma conclude_traced owner run completed_now finish_now h :
  tracing (removals (concluding owner run)) (conclude (W := T) server_root owner run completed_now finish_now) (fun _ _ => True) h.
Proof using.
  unfold conclude. eapply (tracing_bind _ _ _ (fun run' _ => run'.(status) = run.(status))).
  { unfold concluding. case_bool_decide as Hs; [by apply tracing_ret|]. eapply tracing_bind; [apply cleanup_traced|].
    intros [[[]|e] run'] h' _ Hr; by apply tracing_ret. }
  intros run' h1 _ Hr. eapply (tracing_try _ _ _ (fun _ _ => True)); [apply tracing_noting; [done|by intros []]|]. intros _ h2 _ _.
  change (status (run' <| completed_at := _ |>)) with (status run'). rewrite Hr. case_bool_decide as Hs; [|by apply tracing_ret].
  eapply tracing_weaken; [| |apply retain_traced]; [|done]. intros h' e _. unfold concluding. rewrite bool_decide_eq_true_2 by done. by destruct e.
Qed.

(** C17. What deleting runs removes, in terms of what the store and the file system
    answered before in the same call: a file only if it is recorded as owned by one
    of the runs that the store gave when it marked the ids for deletion, that run was
    not imported, no other run of the list that the store gave refers to the file,
    and the file is a regular one that was resolved to a backup file inside the
    destination of its run, and so inside the root of the server where there is one;
    a directory only inside such a destination (and the operation fails on one that
    is not empty).  The end of a job removes in the same way only files of the run
    itself, if it did not succeed, or else those of the runs that the retention of its
    schedule selects and the store marked. *)
Theorem deletion_removes_only_owned_files ids owner run completed_now finish_now w :
  (exists events, (delete_runs (W := T) server_root ids (w, [])).2.2 = events /\
    forall before e after, events = before ++ e :: after -> removals (deleting_only ids) before e) /\
  (exists events, (conclude (W := T) server_root owner run completed_now finish_now (w, [])).2.2 = events /\
    forall before e after, events = before ++ e :: after -> removals (concluding owner run) before e).
Proof using.
  destruct (delete_runs_traced ids [] w) as (events & E & Hr & _).
  destruct (conclude_traced owner run completed_now finish_now [] w) as (events' & E' & Hr' & _). split; eauto.
Qed.
End service.

(** ** Retention *)

Section retention.
Context `{Calendar} {laws : CalendarLaws} `{Serde BackupSchedule} `{Serde BackupRun} `{Serde Job}.
Context {schedule_laws : SerdeLaws BackupSchedule eq} {run_laws : SerdeLaws BackupRun same_run} {job_laws : SerdeLaws Job same_job}.

Lemma snapshot_same d taken d' : snapshot d = Ok (taken, d') -> d' = d.
Proof using.
  unfold snapshot. intros (all & _ & Hs)%result_bind_ok. apply result_bind_ok in Hs as (runs & _ & Hs). by apply Ok_inj in Hs as [= _ <-].
Qed.

(** [a] was made after [b]. *)
Definition newer (d : tables) (a b : BackupRun) : Prop :=
  exists ra rb, d.(runs_table) !! a.(run_id) = Some ra /\ d.(runs_table) !! b.(run_id) = Some rb /\ run_le (b.(run_id), rb) (a.(run_id), ra).

Lemma StronglySorted_reverse {A} (R : relation A) l : StronglySorted R l -> StronglySorted (flip R) (reverse l).
Proof using.
  induction 1 as [|a l Hl IH Ha]; [constructor|]. rewrite reverse_cons. apply StronglySorted_app_2; [|done|by repeat constructor].
  intros x y Hx Hy. apply list_elem_of_singleton in Hy as ->. rewrite elem_of_reverse in Hx. rewrite List.Forall_forall in Ha. apply Ha. by apply list_elem_of_In.
Qed.

Lemma StronglySorted_bool_filter {A} (R : relation A) (p : A -> bool) l : StronglySorted R l -> StronglySorted R (List.filter p l).
Proof using.
  induction 1 as [|a l Hl IH Ha]; [constructor|]. cbn [List.filter]. destruct (p a); [|done]. constructor; [done|].
  rewrite List.Forall_forall in Ha |- *. intros x [Hx _]%filter_In. auto.
Qed.

(** The runs of a snapshot: one for each row, the newest first. *)
Lemma snapshot_runs_sorted d runs : consistent d -> run_rows d = Ok runs ->
  StronglySorted (newer d) runs /\ (forall run, run ∈ runs <-> exists r, d.(runs_table) !! run.(run_id) = Some r /\ decode r.(row_payload) = Ok run).
Proof using.
  intros Hc Hr. pose proof (StronglySorted_reverse _ _ (runs_by_age_sorted d)) as Hs.
  assert (Hrows : forall k r, (k, r) ∈ reverse (runs_by_age d) <-> d.(runs_table) !! k = Some r) by (intros; by rewrite elem_of_reverse, elem_of_runs_by_age).
  apply decode_all_elem, Forall2_fmap_l in Hr. revert Hr Hs Hrows. generalize (reverse (runs_by_age d)) as rows. intros rows Hr Hs Hrows.
  assert (Hat : forall k r, (k, r) ∈ rows -> forall run, decode r.(row_payload) = Ok run -> run.(run_id) = k).
  { intros k r Hin run Hd. apply Hrows in Hin. destruct (runs_ok d Hc _ _ Hin) as (run' & Hd' & Hid & _). congruence. }
  assert (Hin : forall k r, (k, r) ∈ rows -> d.(runs_table) !! k = Some r) by (intros k r; apply Hrows). split.
  - clear Hrows. induction Hr as [|[k r] run rows runs Hd Hr IH]; [constructor|]. apply StronglySorted_inv in Hs as [Hs Hall]. constructor.
    + apply IH; [done|..]; intros; [eapply Hat|eapply Hin]; eauto; by right.
    + rewrite List.Forall_forall in Hall |- *. intros run' Hrun'. apply list_elem_of_In, list_elem_of_lookup in Hrun' as [i Hi].
      destruct (Forall2_lookup_r _ _ _ _ _ Hr Hi) as ([k' r'] & Hi' & Hd'). apply list_elem_of_lookup_2 in Hi'. cbn in Hd, Hd'.
      pose proof (Hat k r ltac:(by left) run Hd). pose proof (Hat k' r' ltac:(by right) run' Hd'). subst k k'.
      exists r, r'. split_and!; [apply Hin; by left|apply Hin; by right|]. apply (Hall (run'.(run_id), r')). by apply list_elem_of_In.
  - intros run. split.
    + intros [i Hi]%list_elem_of_lookup. destruct (Forall2_lookup_r _ _ _ _ _ Hr Hi) as ([k r] & Hi' & Hd). apply list_elem_of_lookup_2 in Hi'. cbn in Hd.
      exists r. split; [|done]. rewrite (Hat k r Hi' run Hd). by apply Hin.
    + intros (r & L & Hd). apply Hrows, list_elem_of_lookup in L as [i Hi]. destruct (Forall2_lookup_l _ _ _ _ _ Hr Hi) as (run' & Hi' & Hd'). cbn in Hd'.
      assert (run' = run) as -> by congruence. by eapply list_elem_of_lookup_2.
Qed.

(** Retention keeps the newest: of the successful runs of a schedule, exactly the
    first [keep] by age stay, all of them when there are no more, and each run it
    deletes is older than every run it keeps; no run is named twice. *)
Theorem retention_keeps_the_newest d taken key keep : rtc store_step empty_tables d -> snapshot d = Ok (taken, d) ->
  exists kept old, retention_ids key keep taken.(snapshot_runs) = map run_id old /\
    (forall run, run ∈ kept ++ old <-> run.(schedule_id) = Some key /\ run.(status) = txt "success" /\
       exists r, d.(runs_table) !! run.(run_id) = Some r /\ decode r.(row_payload) = Ok run) /\
    length kept = Nat.min (Z.to_nat keep) (length (kept ++ old)) /\ NoDup (map run_id (kept ++ old)) /\
    forall a b, a ∈ kept -> b ∈ old -> newer d a b.
Proof using laws schedule_laws run_laws job_laws.
  intros Hc%reachable_consistent Hs. unfold snapshot in Hs. apply result_bind_ok in Hs as (all & _ & Hs). apply result_bind_ok in Hs as (runs & Hr & Hs).
  apply Ok_inj in Hs as [= <-]. cbn [snapshot_runs]. unfold retention_ids. set (good := List.filter _ runs).
  destruct (snapshot_runs_sorted d runs Hc Hr) as [Hsort Hin]. exists (take (Z.to_nat keep) good), (drop (Z.to_nat keep) good).
  assert (Hg : StronglySorted (newer d) good) by by apply StronglySorted_bool_filter. rewrite take_drop. split_and!; [done| |by rewrite length_take| |].
  - intros run. unfold good. rewrite elem_of_bool_filter, andb_true_iff, !bool_decide_eq_true, Hin. tauto.
  - apply NoDup_map_filter. rewrite (run_rows_ids d runs Hc Hr). rewrite reverse_Permutation. apply runs_by_age_NoDup.
  - intros a b Ha Hb. rewrite <- (take_drop (Z.to_nat keep) good) in Hg. by eapply StronglySorted_app_1_elem_of.
Qed.
End retention.

(** ** A disk *)

Module SampleDisk.
Import Sample SampleStore.

(** The tables and the files that exist; [/backups] is the only directory and
    there are no links. *)
Definition world : Type := tables * list (list text).

#[export] Instance sample_disk : Disk world := {|
  access := fun A (tx : Tx A) '(d, fs) => match tx d with Ok (a, d') => (Ok a, (d', fs)) | Err e => (Err e, (d, fs)) end;
  canonicalize := fun path w => (Ok (path_parts path), w);
  is_dir := fun path w => (bool_decide (path = [txt "backups"]), w);
  symlink_metadata := fun path w => (if bool_decide (path_parts path ∈ w.2) then Ok IsFile else Err NotFound, w);
  resolved_metadata := fun path w => (if bool_decide (path = [txt "backups"]) then Ok IsDirectory else Err NotFound, w);
  remove_file := fun path '(d, fs) => (Ok tt, (d, List.filter (fun q => negb (bool_decide (q = path))) fs));
  remove_dir := fun path w => (Err (OtherError (txt "Directory not empty")), w);
  verify_export_destination_identity := fun path w => (Ok tt, w) |}.

Definition sample_file (path : string) (mine : bool) : BackupFile :=
  {| file_database := txt "app"; file_schema := []; file_display_name := txt "app"; file_path := txt path; owned := mine |}.

(** A run with a file of its own and one that it may not own. *)
Definition sample_finished : BackupRun := sample_run <| files := [sample_file "/backups/a.sql" true; sample_file "/backups/b.sql" false] |>.
Definition sample_tables : tables := after (insert_completed [sample_finished] empty_tables).
Definition sample_world : world := (sample_tables, [[txt "backups"; txt "a.sql"]; [txt "backups"; txt "b.sql"]]).

(** Two successful runs of the schedule, the second one newer. *)
Definition sample_success (key : string) (time : Z) : BackupRun :=
  {| run_id := txt key; schedule_id := Some (txt "s1"); schedule_name := txt "nightly"; display_name := None; run_connection_id := txt "c";
     connection_name := []; run_destination := txt "/backups"; trigger := txt "scheduled"; source := txt "scheduled"; status := txt "success";
     started_at := [time]; completed_at := None; files := []; progress_percent := sample_run.(progress_percent); error := None |}.
Definition sample_history : tables :=
  after (migrate {| migration_schedules := [sample_schedule]; migration_runs := [sample_success "r1" 5; sample_success "r2" 9] |} 0 empty_tables).

Lemma sample_history_reachable : rtc store_step empty_tables sample_history.
Proof.
  assert (Hq : is_ok (migrate {| migration_schedules := [sample_schedule]; migration_runs := [sample_success "r1" 5; sample_success "r2" 9] |} 0 empty_tables) = true)
    by by vm_compute.
  apply rtc_once. refine (step_migrate _ _ _ _ _ (ok_after_tt _ Hq)). by repeat constructor.
Qed.
End SampleDisk.
Import Sample SampleStore SampleDisk.

(** The file of the run is removed: what was asked before allows it. *)
Definition sample_deletion : list event := (delete_runs (W := world * list event) None [txt "run-12345"] (sample_world, [])).2.2.
Definition is_removal (e : event) : bool := match e with RemoveFile _ | RemoveDirectory _ => true | _ => false end.

Example sample_removals : List.filter is_removal sample_deletion = [RemoveFile [txt "backups"; txt "a.sql"]].
Proof. by vm_compute. Qed.

Lemma deletion_witness : exists events, sample_deletion = events /\
  forall before e after, events = before ++ e :: after -> removals (deleting_only None [txt "run-12345"]) before e.
Proof. exact (proj1 (deletion_removes_only_owned_files None [txt "run-12345"] None sample_run 0 0 sample_world)). Defined.

Lemma retention_witness : exists kept old taken, snapshot sample_history = Ok (taken, sample_history) /\
  retention_ids (txt "s1") 1 taken.(snapshot_runs) = map run_id old /\ map run_id old = [txt "r1"] /\ length kept = 1 /\
  forall a b, a ∈ kept -> b ∈ old -> newer sample_history a b.
Proof.
  assert (Hq : is_ok (snapshot sample_history) = true) by by vm_compute. destruct (snapshot sample_history) as [[taken d]|] eqn:Es; [|done].
  pose proof (snapshot_same _ _ _ Es). subst d.
  destruct (retention_keeps_the_newest sample_history taken (txt "s1") 1 sample_history_reachable Es) as (kept & old & E & _ & Hl & _ & Hn).
  exists kept, old, taken. assert (Eo : retention_ids (txt "s1") 1 taken.(snapshot_runs) = [txt "r1"]).
  { replace taken with (match snapshot sample_history with Ok (taken, _) => taken | Err _ => taken end) by by rewrite Es. by vm_compute. }
  split_and!; [done|done|by rewrite <- E|rewrite Hl, length_app|done]. rewrite E in Eo. apply (f_equal length) in Eo. rewrite length_map in Eo. cbn in *. lia.
Defined.

(** When the result of a job cannot be recorded, its run stays running: the tick
    reports the error and nothing records the run later. *)
Lemma unrecorded_run_stays {W} `{!Disk W} server_root owner run completed_now finish_now w e :
  run.(status) = txt "success" -> access (finish (run <| completed_at := Some (to_rfc3339 completed_now) |>) finish_now) w = (Err e, w) ->
  conclude server_root owner run completed_now finish_now w = (Err e, w).
Proof.
  intros Hs Hf. unfold conclude. rewrite bool_decide_eq_true_2 by done. unfold bind at 1, ret at 1. unfold try_bind, bind. by rewrite Hf.
Qed.

(** The schedule of a run that is running, also if its worker is gone, can be
    neither edited, deleted nor run, and is not queued when it is due, until
    another worker recovers the store. *)
Example unfinished_run_blocks_its_schedule :
  phases sample_claimed (sample_fresh 0).1 = Some Running /\
  is_ok (delete_schedule (txt "s1") sample_claimed) = false /\
  is_ok (save_schedule (sample_schedule <| updated_at := [(spring - 2 * hour)%Z] |>) (2 * spring) sample_claimed) = false /\
  is_ok (enqueue {| request_schedule_id := Some (txt "s1"); request_config := None; request_display_name := None; request_time_zone := None |}
           (sample_fresh 1) sample_claimed) = false /\
  pending_count (after (enqueue_due (2 * spring) (fun i => sample_fresh (S i)) sample_claimed)) = 1 /\
  is_ok (delete_schedule (txt "s1") (after (recover (2 * spring) sample_claimed))) = true.
Proof. by vm_compute. Qed.
