(* ===== verification/SchemaDiff.v ===== *)
(** * Comparison of schemas: tables, their order and their objects

    Models [crates/dbx-sql-schema/src/schema_diff.rs]: the data of a schema, the
    dependency graph of tables and its order ([Graph]), and the differences of
    triggers, functions, sequences, rules, owners, permissions and foreign keys
    ([Diff]).  Columns, indexes, views and whole schemas are in [SchemaCompare].

    A string is its Unicode scalar values.  A hash map made of a list keeps the
    last entry of a key; the order in which a hash map or set is iterated is an
    argument. *)

From S2P Require Import Prelude SqlDialect SqlLex QueryExecutionSql Float64.
From Stdlib Require Import SpecFloat.

(** ** Data

    The fields that the comparison reads. *)

Record ColumnInfo := {
  col_name : text;
  col_type : text;
  is_nullable : bool;
  column_default : option text;
  is_primary_key : bool;
  extra : option text;
  col_comment : option text;
  numeric_precision : option Z;
  numeric_scale : option Z;
  character_maximum_length : option Z;
  character_set : option text;
  collation : option text;
}.

Record IndexInfo := {
  index_name : text;
  index_columns : list text;
  is_unique : bool;
  is_primary : bool;
  filter_condition : option text;
  index_type : option text;
  included_columns : option (list text);
  key_is_expression : list bool;
  column_opclasses : list (option text);
  key_options : list Z;
}.

Record ForeignKeyInfo := {
  fk_name : text;
  fk_column : text;
  ref_schema : option text;
  ref_table : text;
  ref_column : text;
  on_update : option text;
  on_delete : option text;
}.

#[global] Instance set_fk_column : Setter fk_column := fun v r =>
  {| fk_name := r.(fk_name); fk_column := v; ref_schema := r.(ref_schema); ref_table := r.(ref_table); ref_column := r.(ref_column);
     on_update := r.(on_update); on_delete := r.(on_delete) |}.
#[global] Instance set_ref_schema : Setter ref_schema := fun v r =>
  {| fk_name := r.(fk_name); fk_column := r.(fk_column); ref_schema := v; ref_table := r.(ref_table); ref_column := r.(ref_column);
     on_update := r.(on_update); on_delete := r.(on_delete) |}.
#[global] Instance set_ref_table : Setter ref_table := fun v r =>
  {| fk_name := r.(fk_name); fk_column := r.(fk_column); ref_schema := r.(ref_schema); ref_table := v; ref_column := r.(ref_column);
     on_update := r.(on_update); on_delete := r.(on_delete) |}.
#[global] Instance set_ref_column : Setter ref_column := fun v r =>
  {| fk_name := r.(fk_name); fk_column := r.(fk_column); ref_schema := r.(ref_schema); ref_table := r.(ref_table); ref_column := v;
     on_update := r.(on_update); on_delete := r.(on_delete) |}.

Record TriggerInfo := {
  trigger_name : text;
  event : text;
  timing : text;
  statement : option text;
}.

Record FunctionInfo := {
  function_name : text;
  function_type : text;
  return_type : text;
  definition : text;
  arguments : text;
}.

Record SequenceInfo := {
  sequence_name : text;
  sequence_type : text;
  start_value : text;
  min_value : text;
  max_value : text;
  increment : text;
  cycle : bool;
  last_value : option text;
}.

Record RuleInfo := { rule_name : text; rule_table : text; rule_definition : text }.
Record OwnerInfo := { object_name : text; object_type : text; owner : text }.

Record TableInfo := {
  table_name : text;
  table_type : text;
  table_comment : option text;
  parent_schema : option text;
}.

Record TableSchemaDetail := {
  detail_name : text;
  columns : list ColumnInfo;
  indexes : list IndexInfo;
  foreign_keys : list ForeignKeyInfo;
  triggers : list TriggerInfo;
  ddl : option text;
}.

(** [haystack.contains(pattern)]. *)
Fixpoint contains (pattern s : text) : bool :=
  bool_decide (pattern `prefix_of` s) || match s with [] => false | _ :: rest => contains pattern rest end.

Definition is_view (t : TableInfo) : bool := contains (txt "VIEW") t.(table_type).

(** [l.iter().map(|x| (key(x), x)).collect::<HashMap<_, _>>()]. *)
Definition hash_map {K A B} `{Countable K} (key : A -> K) (value : A -> B) (l : list A) : gmap K B :=
  list_to_map (reverse (map (fun x => (key x, value x)) l)).

(** The order in which the elements of a hash map or set come, in one of its
    iterations. *)
Class HashOrder : Type := { hash_order : nat -> list text -> list text }.
Class HashOrderLaws `{HashOrder} : Prop := { hash_order_perm n l : hash_order n l ≡ₚ l }.

(** The elements of the set with the elements of [l], in the order of iteration [n]. *)
Definition set_elements `{HashOrder} (n : nat) (l : list text) : list text := hash_order n (elements (list_to_set l : gset text)).

Module Graph.
(** ** Dependencies of tables *)

Record DependencyNode := { depends_on : list text; depended_by : list text }.

Definition push_new (x : text) (l : list text) : list text := if bool_decide (x ∈ l) then l else l ++ [x].

(** [nodes.get_mut(name)], and the name is pushed if it is new. *)
Definition add_dependency (name on : text) (nodes : gmap text DependencyNode) : gmap text DependencyNode :=
  alter (fun node => {| depends_on := push_new on node.(depends_on); depended_by := node.(depended_by) |}) name nodes.
Definition add_dependent (on name : text) (nodes : gmap text DependencyNode) : gmap text DependencyNode :=
  alter (fun node => {| depends_on := node.(depends_on); depended_by := push_new name node.(depended_by) |}) on nodes.

Definition add_edge (name on : text) (nodes : gmap text DependencyNode) : gmap text DependencyNode :=
  add_dependent on name (add_dependency name on nodes).

Definition reference_patterns (table_up : text) : list text :=
  [txt " FROM " ++ table_up; txt " JOIN " ++ table_up; txt " INTO " ++ table_up; txt " TABLE " ++ table_up; txt " REFERENCES " ++ table_up;
   txt " UPDATE " ++ table_up; txt "DELETE FROM " ++ table_up; txt "FROM " ++ table_up ++ txt " ("; txt " " ++ table_up ++ txt "."].

Section build.
Context `{UnicodeCase} `{HashOrder}.

Definition extract_ddl_references (n : nat) (sql : text) (known_tables : list text) : list text :=
  List.filter (fun table => existsb (fun p => contains p (to_uppercase sql)) (reference_patterns (to_uppercase table))) (set_elements n known_tables).

Definition referenced_table (n : nat) (table_names : list text) (ignore_table_name_case : bool) (fk : ForeignKeyInfo) : option text :=
  if bool_decide (fk.(ref_table) ∈ table_names) then Some fk.(ref_table)
  else if ignore_table_name_case then
    match List.filter (fun name => eq_ignore_ascii_case name fk.(ref_table)) (set_elements n table_names) with
    | [name] => Some name
    | _ => None
    end
  else None.

Definition add_edges (name : text) (refs : list text) (nodes : gmap text DependencyNode) : gmap text DependencyNode :=
  fold_left (fun nodes on => add_edge name on nodes) refs nodes.

Definition foreign_key_refs (table_names : list text) (ignore_table_name_case : bool) (detail : TableSchemaDetail) : list text :=
  omap (referenced_table 1 table_names ignore_table_name_case) detail.(foreign_keys).

Definition trigger_refs (table_names : list text) (detail : TableSchemaDetail) : list text :=
  concat (map (fun t => match t.(statement) with Some s => extract_ddl_references 2 s table_names | None => [] end) detail.(triggers)).

(** The edges of every name that has details. *)
Definition scan_details (names : list text) (detail_map : gmap text TableSchemaDetail) (refs : TableSchemaDetail -> list text)
    (nodes : gmap text DependencyNode) : gmap text DependencyNode :=
  fold_left (fun nodes name => match detail_map !! name with Some detail => add_edges name (refs detail) nodes | None => nodes end) names nodes.

(** The dependents of functions; a function is no node itself. *)
Definition scan_functions (names table_names : list text) (functions : gmap text FunctionInfo) (nodes : gmap text DependencyNode) : gmap text DependencyNode :=
  fold_left (fun nodes name =>
    match functions !! name with
    | Some f => fold_left (fun nodes on => add_dependent on name nodes) (extract_ddl_references 3 f.(definition) table_names) nodes
    | None => nodes
    end) names nodes.

Definition names_where (p : TableInfo -> bool) (tables : list TableInfo) : list text := map table_name (List.filter p tables).

Definition initial_nodes (tables : list TableInfo) : gmap text DependencyNode :=
  list_to_map (map (fun t => (t.(table_name), {| depends_on := []; depended_by := [] |})) tables).

Definition build_nodes (details : list TableSchemaDetail) (tables : list TableInfo) (functions : list FunctionInfo) (ignore_table_name_case : bool) :
    gmap text DependencyNode :=
  let table_names := names_where (fun t => negb (is_view t)) tables in
  let view_names := names_where is_view tables in
  let detail_map := hash_map detail_name (fun d => d) details in
  let nodes := scan_details (set_elements 4 table_names) detail_map (foreign_key_refs table_names ignore_table_name_case) (initial_nodes tables) in
  let nodes := scan_details (set_elements 5 view_names) detail_map
                 (fun d => match d.(ddl) with Some ddl => extract_ddl_references 6 ddl table_names | None => [] end) nodes in
  let nodes := scan_details (set_elements 7 (map table_name tables)) detail_map (trigger_refs table_names) nodes in
  scan_functions (set_elements 8 (map function_name functions)) table_names (hash_map function_name (fun f => f) functions) nodes.

(** [usize]. *)
Definition wrap (z : Z) : Z := (z mod 2 ^ 64)%Z.

Definition in_degrees (nodes : gmap text DependencyNode) : gmap text Z := (fun node => wrap (Z.of_nat (length node.(depends_on)))) <$> nodes.

(** What a node that is done does to one that depends on it. *)
Definition release (state : gmap text Z * list text) (dependent : text) : gmap text Z * list text :=
  match state.1 !! dependent with
  | None => state
  | Some deg =>
    let deg := wrap (deg - 1) in
    (<[dependent := deg]> state.1, if (deg =? 0)%Z then state.2 ++ [dependent] else state.2)
  end.

(** The loop over the queue; a node is queued when its degree becomes zero. *)
Fixpoint sort_loop (fuel : nat) (nodes : gmap text DependencyNode) (degrees : gmap text Z) (queue result : list text) : option (list text) :=
  match fuel, queue with
  | _, [] => Some result
  | O, _ => None
  | S fuel, name :: queue =>
    let dependents := match nodes !! name with Some node => node.(depended_by) | None => [] end in
    let '(degrees, queue) := fold_left release dependents (degrees, queue) in
    sort_loop fuel nodes degrees queue (result ++ [name])
  end.

Definition node_names (n : nat) (nodes : gmap text DependencyNode) : list text := hash_order n (map fst (map_to_list nodes)).

Definition topological_sort (fuel : nat) (nodes : gmap text DependencyNode) : option (list text) :=
  let degrees := in_degrees nodes in
  let queue := List.filter (fun name => bool_decide (degrees !! name = Some 0%Z)) (node_names 9 nodes) in
  match sort_loop fuel nodes degrees queue [] with
  | None => None
  | Some result =>
    Some (if bool_decide (length result = size nodes) then result
          else result ++ List.filter (fun name => negb (bool_decide (name ∈ result))) (node_names 10 nodes))
  end.

(** The order of a graph; every node is taken from the queue once. *)
Definition build_order (nodes : gmap text DependencyNode) : option (list text) := topological_sort (size nodes) nodes.
Definition drop_order (nodes : gmap text DependencyNode) : option (list text) := @reverse text <$> build_order nodes.

(** ** Coverage *)

Definition pair_covered (diffed : list text) (a b : text) : bool := bool_decide (a ∈ diffed) && bool_decide (b ∈ diffed).

Definition edges (nodes : gmap text DependencyNode) : list (text * text) :=
  concat (map (fun '(name, node) => map (fun dep => (name, dep)) node.(depends_on)) (map_to_list nodes)).

Definition second_edges (nodes : gmap text DependencyNode) (name : text) : list (text * text) :=
  match nodes !! name with
  | None => []
  | Some node =>
    concat (map (fun indirect => match nodes !! indirect with
                                 | Some inner => map (fun grand => (name, grand)) inner.(depends_on)
                                 | None => []
                                 end) node.(depends_on))
  end.

Definition count_covered (diffed : list text) (l : list (text * text)) : nat * nat :=
  (length (List.filter (fun '(a, b) => pair_covered diffed a b) l), length l).

Definition count_edges (diffed : list text) (nodes : gmap text DependencyNode) : nat * nat := count_covered diffed (edges nodes).
Definition count_transitive_edges (diffed : list text) (nodes : gmap text DependencyNode) : nat * nat :=
  count_covered diffed (concat (map (fun '(name, _) => if bool_decide (name ∈ diffed) then second_edges nodes name else []) (map_to_list nodes))).

Record UncoveredEdge := { from_table : text; to_table : text; edge_level : Z }.

Definition uncovered (diffed : list text) (level : Z) (l : list (text * text)) : list UncoveredEdge :=
  map (fun '(a, b) => {| from_table := a; to_table := b; edge_level := level |}) (List.filter (fun '(a, b) => negb (pair_covered diffed a b)) l).

Definition collect_uncovered_edges (diffed : list text) (nodes : gmap text DependencyNode) : list UncoveredEdge :=
  concat (map (fun name =>
    match nodes !! name with
    | Some node => uncovered diffed 1 (map (fun dep => (name, dep)) node.(depends_on)) ++ uncovered diffed 2 (second_edges nodes name)
    | None => []
    end) (node_names 12 nodes)).

Definition f64_of (n : nat) : f64 := decimal_to_f64 false (Z.of_nat n) 0.
Definition f64_one : f64 := S754_finite false 4503599627370496 (-52).
Definition f64_three_fifths : f64 := S754_finite false 5404319552844595 (-53).
Definition f64_two_fifths : f64 := S754_finite false 7205759403792794 (-54).

(** The share of the pairs that are covered. *)
Definition share (counts : nat * nat) : f64 := if (counts.2 =? 0)%nat then f64_one else SFdiv 53 1024 (f64_of counts.1) (f64_of counts.2).

Definition coverage_score_level1 (diffed : list text) (nodes : gmap text DependencyNode) : f64 :=
  if bool_decide (nodes = ∅) then f64_one else share (count_edges diffed nodes).
Definition coverage_score_level2 (diffed : list text) (nodes : gmap text DependencyNode) : f64 :=
  if bool_decide (nodes = ∅) then f64_one else share (count_transitive_edges diffed nodes).
Definition coverage_score : list text -> gmap text DependencyNode -> f64 := coverage_score_level1.

Record CoverageReport := {
  level1_score : f64;
  level2_score : f64;
  composite_score : f64;
  level1_covered : nat;
  level1_total : nat;
  level2_covered : nat;
  level2_total : nat;
  uncovered_edges : list UncoveredEdge;
}.

Definition composite_coverage_score (diffed : list text) (nodes : gmap text DependencyNode) : CoverageReport :=
  let l1 := count_edges diffed nodes in
  let l2 := count_transitive_edges diffed nodes in
  {| level1_score := share l1; level2_score := share l2;
     composite_score := SFadd 53 1024 (SFmul 53 1024 f64_three_fifths (share l1)) (SFmul 53 1024 f64_two_fifths (share l2));
     level1_covered := l1.1; level1_total := l1.2; level2_covered := l2.1; level2_total := l2.2;
     uncovered_edges := collect_uncovered_edges diffed nodes |}.
End build.
End Graph.

Module Diff.
(** ** Differences *)

Inductive ColumnAddPosition := First | After (name : text).

(** The difference of one object: [diff_type] is [added], [removed], [modified] or
    [renamed], with the definitions on both sides. *)
Record ObjectDiff (A : Type) := {
  diff_type : text;
  diff_name : text;
  source : option A;
  target : option A;
  changes : list text;
  add_position : option ColumnAddPosition;
}.
Arguments diff_type {A}.
Arguments diff_name {A}.
Arguments source {A}.
Arguments target {A}.
Arguments changes {A}.
Arguments add_position {A}.

Definition ColumnDiff : Type := ObjectDiff ColumnInfo.
Definition IndexDiff : Type := ObjectDiff IndexInfo.
Definition TriggerDiff : Type := ObjectDiff TriggerInfo.
Definition FunctionDiff : Type := ObjectDiff FunctionInfo.
Definition SequenceDiff : Type := ObjectDiff SequenceInfo.
Definition RuleDiff : Type := ObjectDiff RuleInfo.
Definition OwnerDiff : Type := ObjectDiff OwnerInfo.

Definition added {A} (name : text) (a : A) (position : option ColumnAddPosition) : ObjectDiff A :=
  {| diff_type := txt "added"; diff_name := name; source := Some a; target := None; changes := []; add_position := position |}.
Definition removed {A} (name : text) (a : A) (position : option ColumnAddPosition) : ObjectDiff A :=
  {| diff_type := txt "removed"; diff_name := name; source := None; target := Some a; changes := []; add_position := position |}.
Definition modified {A} (name : text) (s t : A) (changes : list text) : ObjectDiff A :=
  {| diff_type := txt "modified"; diff_name := name; source := Some s; target := Some t; changes := changes; add_position := None |}.

(** [format!("{kind}: {before} → {after}")]. *)
Definition arrow : text := [32; 8594; 32]%Z.
Definition change (kind : string) (before after : text) : text := txt kind ++ txt ": " ++ before ++ arrow ++ after.
Definition changed (differs : bool) (kind : string) (before after : text) : list text := if differs then [change kind before after] else [].

Definition yes_no (b : bool) : text := txt (if b then "YES" else "NO").
Definition true_false (b : bool) : text := txt (if b then "true" else "false").
Definition text_neq (a b : text) : bool := negb (bool_decide (a = b)).

Definition identifiers_equal (left right : text) (ignore_case : bool) : bool :=
  if ignore_case then eq_ignore_ascii_case left right else bool_decide (left = right).

(** ** Objects compared by their keys

    The loops over the source and over the target, where [key] identifies an object
    and [compare s t] lists its changes. *)
Section keyed.
Context {K A : Type} `{Countable K} (key : A -> K) (name : A -> text) (compare : A -> A -> list text).

Definition keyed_source (target_map : gmap K A) (s : A) : list (ObjectDiff A) :=
  match target_map !! key s with
  | None => [added (name s) s None]
  | Some t => match compare s t with [] => [] | l => [modified (name s) s t l] end
  end.

Definition keyed_target (source_map : gmap K A) (t : A) : list (ObjectDiff A) :=
  match source_map !! key t with None => [removed (name t) t None] | Some _ => [] end.

Definition keyed_diff (s t : list A) : list (ObjectDiff A) :=
  concat (map (keyed_source (hash_map key (fun x => x) t)) s) ++ concat (map (keyed_target (hash_map key (fun x => x) s)) t).
End keyed.

Definition trigger_changes (s t : TriggerInfo) : list text :=
  changed (text_neq s.(event) t.(event)) "event" t.(event) s.(event) ++ changed (text_neq s.(timing) t.(timing)) "timing" t.(timing) s.(timing).
Definition diff_triggers : list TriggerInfo -> list TriggerInfo -> list TriggerDiff := keyed_diff trigger_name trigger_name trigger_changes.

(** [def.replace("\r\n", "\n")], then each line with its words one space apart. *)
Fixpoint crlf_to_lf (s : text) : text :=
  match s with
  | 13%Z :: ((10%Z :: _) as rest) => crlf_to_lf rest
  | c :: rest => c :: crlf_to_lf rest
  | [] => []
  end.
Definition normalize_definition (def : text) : text := join [10%Z] (map (fun line => join [32%Z] (split_whitespace line)) (split_on 10 (crlf_to_lf def))).

Definition function_changes (s t : FunctionInfo) : list text :=
  changed (text_neq s.(function_type) t.(function_type)) "type" t.(function_type) s.(function_type) ++
  changed (text_neq s.(return_type) t.(return_type)) "return type" t.(return_type) s.(return_type) ++
  (if text_neq (normalize_definition s.(definition)) (normalize_definition t.(definition)) then [txt "definition changed"] else []).
Definition diff_functions : list FunctionInfo -> list FunctionInfo -> list FunctionDiff :=
  keyed_diff (fun f => (f.(function_name), f.(arguments))) function_name function_changes.

Definition sequence_changes (s t : SequenceInfo) : list text :=
  changed (text_neq s.(sequence_type) t.(sequence_type)) "data_type" t.(sequence_type) s.(sequence_type) ++
  changed (text_neq s.(start_value) t.(start_value)) "start" t.(start_value) s.(start_value) ++
  changed (text_neq s.(min_value) t.(min_value)) "min" t.(min_value) s.(min_value) ++
  changed (text_neq s.(max_value) t.(max_value)) "max" t.(max_value) s.(max_value) ++
  changed (text_neq s.(increment) t.(increment)) "increment" t.(increment) s.(increment) ++
  changed (xorb s.(cycle) t.(cycle)) "cycle" (true_false t.(cycle)) (true_false s.(cycle)) ++
  match s.(last_value), t.(last_value) with
  | Some a, Some b => changed (text_neq a b) "last_value" b a
  | _, _ => []
  end.
Definition diff_sequences : list SequenceInfo -> list SequenceInfo -> list SequenceDiff := keyed_diff sequence_name sequence_name sequence_changes.

Definition rule_changes (s t : RuleInfo) : list text := if text_neq s.(rule_definition) t.(rule_definition) then [txt "definition changed"] else [].
Definition diff_rules : list RuleInfo -> list RuleInfo -> list RuleDiff := keyed_diff rule_name rule_name rule_changes.

Definition owner_diff (target_map : gmap text OwnerInfo) (s : OwnerInfo) : list OwnerDiff :=
  match target_map !! s.(object_name) with
  | None => []
  | Some t => match changed (text_neq s.(owner) t.(owner)) "owner" t.(owner) s.(owner) with [] => [] | l => [modified s.(object_name) s t l] end
  end.
Definition diff_owners (s t : list OwnerInfo) : list OwnerDiff := concat (map (owner_diff (hash_map object_name (fun x => x) t)) s).

Record PermissionInfo := {
  grantee : text;
  permission_object_type : text;
  permission_object : text;
  privilege : text;
  is_grantable : bool;
}.

(** The difference of a permission repeats the grantee, the object and the privilege of
    its permission. *)
Definition permission_key (p : PermissionInfo) : text * text * text := (p.(grantee), p.(permission_object), p.(privilege)).
Definition diff_permissions : list PermissionInfo -> list PermissionInfo -> list (ObjectDiff PermissionInfo) :=
  keyed_diff permission_key permission_object (fun _ _ => []).

(** ** Foreign keys *)

Record SchemaForeignKeyInfo := { info : ForeignKeyInfo; column_pairs : list (text * text) }.

Definition fk_columns (fk : SchemaForeignKeyInfo) : list text :=
  match fk.(column_pairs) with [] => [fk.(info).(fk_column)] | l => map fst l end.
Definition fk_ref_columns (fk : SchemaForeignKeyInfo) : list text :=
  match fk.(column_pairs) with [] => [fk.(info).(ref_column)] | l => map snd l end.

Definition push_pair (row : ForeignKeyInfo) (fk : SchemaForeignKeyInfo) : SchemaForeignKeyInfo :=
  {| info := fk.(info); column_pairs := fk.(column_pairs) ++ [(row.(fk_column), row.(ref_column))] |}.

(** One row; [positions] is where the constraints with names are. *)
Definition group_row (state : list SchemaForeignKeyInfo * gmap text nat) (row : ForeignKeyInfo) : list SchemaForeignKeyInfo * gmap text nat :=
  let '(constraints, positions) := state in
  if bool_decide (row.(fk_name) = []) then (constraints ++ [{| info := row; column_pairs := [] |}], positions)
  else
    match positions !! row.(fk_name) with
    | Some position => (alter (push_pair row) position constraints, positions)
    | None => (constraints ++ [push_pair row {| info := row; column_pairs := [] |}], <[row.(fk_name) := length constraints]> positions)
    end.

Definition display_columns (fk : SchemaForeignKeyInfo) : SchemaForeignKeyInfo :=
  {| info := fk.(info) <| fk_column := join (txt ", ") (fk_columns fk) |> <| ref_column := join (txt ", ") (fk_ref_columns fk) |>;
     column_pairs := fk.(column_pairs) |}.

Definition group_foreign_keys (rows : list ForeignKeyInfo) : list SchemaForeignKeyInfo :=
  map display_columns (fold_left group_row rows ([], ∅)).1.

Definition normalized_foreign_key_action (action : option text) : option text :=
  match action with
  | None => None
  | Some value => match map to_ascii_uppercase (join [32%Z] (split_whitespace value)) with [] => None | v => Some v end
  end.

Definition comparable_foreign_key_action (action : option text) (mysql_actions : bool) : option text :=
  let normalized := normalized_foreign_key_action action in
  if negb mysql_actions then normalized
  else
    match normalized with
    | None => Some (txt "NO ACTION")
    | Some v => if bool_decide (v = txt "RESTRICT") || bool_decide (v = txt "NO ACTION") then Some (txt "NO ACTION") else normalized
    end.

Definition identifier_lists_equal (left right : list text) (ignore_case : bool) : bool :=
  bool_decide (length left = length right) && forallb (fun '(a, b) => identifiers_equal a b ignore_case) (zip left right).

Definition foreign_key_changes (s t : SchemaForeignKeyInfo) (ignore_table_name_case ignore_column_name_case mysql_actions : bool) : list text :=
  let on_delete fk := comparable_foreign_key_action fk.(info).(on_delete) mysql_actions in
  let on_update fk := comparable_foreign_key_action fk.(info).(on_update) mysql_actions in
  changed (negb (identifier_lists_equal (fk_columns s) (fk_columns t) ignore_column_name_case)) "column" t.(info).(fk_column) s.(info).(fk_column) ++
  changed (negb (identifiers_equal s.(info).(ref_table) t.(info).(ref_table) ignore_table_name_case)) "ref table" t.(info).(ref_table) s.(info).(ref_table) ++
  changed (negb (bool_decide (s.(info).(ref_schema) = t.(info).(ref_schema)))) "ref schema" (default [] t.(info).(ref_schema)) (default [] s.(info).(ref_schema)) ++
  changed (negb (identifier_lists_equal (fk_ref_columns s) (fk_ref_columns t) ignore_column_name_case)) "ref column" t.(info).(ref_column) s.(info).(ref_column) ++
  changed (negb (bool_decide (on_delete s = on_delete t))) "delete" (default [] (on_delete t)) (default [] (on_delete s)) ++
  changed (negb (bool_decide (on_update s = on_update t))) "update" (default [] (on_update t)) (default [] (on_update s)).

(** The first position of [l] that satisfies [p], from [i] on. *)
Fixpoint position {A} (i : nat) (p : nat -> A -> bool) (l : list A) : option nat :=
  match l with
  | [] => None
  | x :: l => if p i x then Some i else position (S i) p l
  end.

Section foreign_keys.
Context (ignore_table_name_case ignore_column_name_case mysql_actions : bool).

Definition fk_match (target : list SchemaForeignKeyInfo) (target_map : gmap text nat) (matched : list nat) (s : SchemaForeignKeyInfo) : option nat :=
  if bool_decide (s.(info).(fk_name) = []) then
    position 0 (fun index t => negb (bool_decide (index ∈ matched)) && bool_decide (t.(info).(fk_name) = []) &&
      bool_decide (foreign_key_changes s t ignore_table_name_case ignore_column_name_case mysql_actions = [])) target
  else target_map !! s.(info).(fk_name).

Fixpoint fk_loop (source target : list SchemaForeignKeyInfo) (target_map : gmap text nat) (matched : list nat) :
    list (ObjectDiff SchemaForeignKeyInfo) * list nat :=
  match source with
  | [] => ([], matched)
  | s :: source =>
    match fk_match target target_map matched s with
    | None =>
      let '(diffs, matched) := fk_loop source target target_map matched in
      (added s.(info).(fk_name) s None :: diffs, matched)
    | Some index =>
      let '(diffs, matched) := fk_loop source target target_map (index :: matched) in
      match target !! index with
      | None => (diffs, matched)
      | Some t =>
        match foreign_key_changes s t ignore_table_name_case ignore_column_name_case mysql_actions with
        | [] => (diffs, matched)
        | l => (modified s.(info).(fk_name) s t l :: diffs, matched)
        end
      end
    end
  end.

Definition fk_positions (target : list SchemaForeignKeyInfo) : gmap text nat :=
  hash_map snd fst (List.filter (fun '(_, name) => negb (bool_decide (name = []))) (imap (fun index fk => (index, fk.(info).(fk_name))) target)).

Definition diff_foreign_keys_with_options (source target : list ForeignKeyInfo) : list (ObjectDiff SchemaForeignKeyInfo) :=
  let source := group_foreign_keys source in
  let target := group_foreign_keys target in
  let '(diffs, matched) := fk_loop source target (fk_positions target) [] in
  diffs ++ concat (imap (fun index t => if bool_decide (index ∈ matched) then [] else [removed t.(info).(fk_name) t None]) target).
End foreign_keys.

Definition diff_foreign_keys : list ForeignKeyInfo -> list ForeignKeyInfo -> list (ObjectDiff SchemaForeignKeyInfo) :=
  diff_foreign_keys_with_options false false false.
End Diff.
