(* ===== verification/SchemaCompare.v ===== *)
(** * Comparison of schemas: columns, indexes, views and whole schemas

    Models [crates/dbx-sql-schema/src/schema_diff.rs] and
    [schema_diff/mysql_charset.rs] up to the texts of the statements: the declared
    types of columns, the matching of columns and their differences ([Columns]), the
    differences of indexes ([Indexes]), the normal forms of the definitions of MySQL
    and Oracle views ([Views]), the default character set of a MySQL table
    ([TableCharset]), the matching of table names, the comparison of whole schemas
    and in shards ([Schema]), and the reverse of a comparison ([Rollback]).

    The tokenizer of the sqlparser crate, the manifest of database types (a data
    file) and the order of hash maps are arguments.  The scanners of view definitions
    run on bytes in the code; every character they look for is ASCII, so they are
    functions on the scalar values that remain. *)

From S2P Require Import Prelude Utf8 SqlDialect SqlLex QueryExecutionSql Float64 SchemaDiff.
From Stdlib Require Import SpecFloat.
Import SchemaDiff.Diff.

(** [DialectKind]. *)
Inductive DialectKind : Type :=
| Mysql | Postgres | Sqlite | DuckDb | SqlServer | Oracle | H2 | ClickHouse | ManticoreSearch | Informix | Questdb | Soql | Unsupported.

#[global] Instance DialectKind_eq_dec : EqDecision DialectKind.
Proof. solve_decision. Defined.

(** The [dialect] of a database type in the manifest. *)
Class DatabaseManifest : Type := { dialect_name : DatabaseType.t -> option text }.

Definition from_label (label : text) : option DialectKind :=
  let label := ascii_lower label in
  if one_of label ["mysql"; "doris"; "starrocks"; "goldendb"; "sundb"; "databend"; "gbase"] then Some Mysql
  else if one_of label ["postgresql"; "postgres"; "gaussdb"; "kwdb"; "opengauss"; "highgo"; "vastbase"; "kingbase"; "firebird"; "redshift";
                        "vertica"; "exasol"] then Some Postgres
  else if one_of label ["sqlite"; "rqlite"; "turso"] then Some Sqlite
  else if one_of label ["duckdb"] then Some DuckDb
  else if one_of label ["sqlserver"; "sql_server"; "mssql"; "sql server"; "access"] then Some SqlServer
  else if one_of label ["oracle"; "dameng"; "oceanbaseoracle"; "oceanbase"; "iris"; "yashandb"; "xugu"] then Some Oracle
  else if one_of label ["h2"] then Some H2
  else if one_of label ["clickhouse"] then Some ClickHouse
  else if one_of label ["manticoresearch"] then Some ManticoreSearch
  else if one_of label ["informix"] then Some Informix
  else if one_of label ["questdb"] then Some Questdb
  else if one_of label ["soql"; "salesforce"] then Some Soql
  else None.

Definition from_database_type `{DatabaseManifest} (d : DatabaseType.t) : DialectKind := default Unsupported (dialect_name d ≫= from_label).

Module Columns.
(** ** Declared types *)

(** An [i32]. *)
Definition display_i32 (z : Z) : text := if (z <? 0)%Z then 45%Z :: decimal (- z) else decimal z.

Definition LENGTH_TYPES : list string :=
  ["VARCHAR"; "CHARACTER VARYING"; "NVARCHAR"; "CHAR"; "CHARACTER"; "NCHAR"; "VARCHAR2"; "NVARCHAR2"].

Definition with_known_length (source_type : text) (character_maximum_length : option Z) : text :=
  let trimmed := trim_chars source_type in
  if contains (txt "(") trimmed then trimmed
  else if negb (one_of (ascii_upper trimmed) LENGTH_TYPES) then trimmed
  else
    match character_maximum_length with
    | Some len => if (0 <? len)%Z then trimmed ++ txt "(" ++ display_i32 len ++ txt ")" else trimmed
    | None => trimmed
    end.

Definition NUMERIC_TYPES_WITH_DECLARED_PRECISION : list string := ["NUMBER"; "NUMERIC"; "DECIMAL"; "DEC"; "FIXED"].

Definition with_known_numeric_precision (source_type : text) (numeric_precision numeric_scale : option Z) : text :=
  let trimmed := trim_chars source_type in
  if contains (txt "(") trimmed then trimmed
  else
    let base := ascii_upper (span (fun c => negb ((c =? 32)%Z || (c =? 40)%Z)) trimmed).1 in
    if negb (one_of base NUMERIC_TYPES_WITH_DECLARED_PRECISION) then trimmed
    else
      match numeric_precision with
      | Some precision =>
        if (0 <? precision)%Z then
          match numeric_scale with
          | Some scale =>
            if (scale =? 0)%Z then trimmed ++ txt "(" ++ display_i32 precision ++ txt ")"
            else trimmed ++ txt "(" ++ display_i32 precision ++ txt "," ++ display_i32 scale ++ txt ")"
          | None => trimmed ++ txt "(" ++ display_i32 precision ++ txt ")"
          end
        else trimmed
      | None => trimmed
      end.

Definition declared_column_type (column : ColumnInfo) : text :=
  with_known_numeric_precision (with_known_length column.(col_type) column.(character_maximum_length)) column.(numeric_precision)
    column.(numeric_scale).

(** ** Types that are the same *)

Record MysqlIntegerTypeSignature := { normalized : text; integer_key : option text; width : option Z }.

Definition is_integer_base (base : text) : bool :=
  one_of base ["tinyint"; "smallint"; "mediumint"; "int"; "integer"; "bigint"; "year"].

Definition lower_words (s : text) : text := ascii_lower (join [32%Z] (split_whitespace s)).

Definition parse_mysql_integer_type (data_type : text) : MysqlIntegerTypeSignature :=
  let normalized := lower_words data_type in
  let other := {| normalized := normalized; integer_key := None; width := None |} in
  match split_once 40 normalized with
  | None =>
    let base := (span (fun c => negb (c =? 32)%Z) normalized).1 in
    {| normalized := normalized; integer_key := if is_integer_base base then Some normalized else None; width := None |}
  | Some (base, rest) =>
    match split_once 41 rest with
    | None => other
    | Some (width_str, suffix) =>
      let base := trim_chars base in
      let width_str := trim_chars width_str in
      if negb (is_integer_base base) || bool_decide (width_str = []) || negb (forallb is_ascii_digit width_str) then other
      else
        let suffix := trim_chars suffix in
        {| normalized := normalized; integer_key := Some (if bool_decide (suffix = []) then base else base ++ txt " " ++ suffix);
           width := parse_unsigned u32_max width_str |}
    end
  end.

(** [s.replacen(pattern, "", 1)]. *)
Definition remove_first (pattern s : text) : text :=
  match find_sub pattern s with Some i => take i s ++ drop (i + length pattern) s | None => s end.

Definition normalize_postgres_temporal_type (data_type : text) : text :=
  let normalized := lower_words data_type in
  let base := (span (fun c => negb ((c =? 40)%Z || (c =? 32)%Z || (c =? 91)%Z)) normalized).1 in
  if one_of base ["timestamp"; "timestamptz"; "time"; "timetz"; "interval"] then remove_first (txt "(6)") normalized else normalized.

Definition same_uuid_type (source_type target_type : text) (source_dialect target_dialect : option DialectKind) : bool :=
  match source_dialect, target_dialect with
  | Some SqlServer, Some Postgres => eq_ignore_ascii_case source_type (txt "uniqueidentifier") && eq_ignore_ascii_case target_type (txt "uuid")
  | Some Postgres, Some SqlServer => eq_ignore_ascii_case source_type (txt "uuid") && eq_ignore_ascii_case target_type (txt "uniqueidentifier")
  | _, _ => false
  end.

Definition mysql_integer_types_equal (source target : MysqlIntegerTypeSignature) : bool :=
  match source.(integer_key), target.(integer_key) with
  | Some source_key, Some target_key =>
    bool_decide (source_key = target_key) &&
    match source.(width), target.(width) with Some a, Some b => (a =? b)%Z | _, _ => true end
  | None, None => bool_decide (source.(normalized) = target.(normalized))
  | _, _ => false
  end.

Definition column_types_equal_for_dialects (source_type target_type : text) (source_dialect target_dialect : option DialectKind) : bool :=
  if eq_ignore_ascii_case source_type target_type then true
  else if same_uuid_type source_type target_type source_dialect target_dialect then true
  else if bool_decide (source_dialect = Some Postgres) && bool_decide (target_dialect = Some Postgres) then
    bool_decide (normalize_postgres_temporal_type source_type = normalize_postgres_temporal_type target_type)
  else if negb (bool_decide (source_dialect = Some Mysql)) || negb (bool_decide (target_dialect = Some Mysql)) then false
  else mysql_integer_types_equal (parse_mysql_integer_type source_type) (parse_mysql_integer_type target_type).

Definition mysql_charset_value (value : option text) : option text :=
  match value with None => None | Some v => match trim_chars v with [] => None | v => Some v end end.

Definition mysql_charset_values_differ (source target : option text) : bool :=
  match mysql_charset_value source, mysql_charset_value target with
  | Some source, Some target => negb (eq_ignore_ascii_case source target)
  | _, _ => false
  end.

(** ** Similarity of types *)

Definition replace_all (pattern replacement s : text) : text := replace_fuel (length s) pattern replacement s.
Definition ends_with (c : Z) (s : text) : bool := opt_is (last s) c.

(** [ColumnType::parse(type_str).base_type]. *)
Definition parse_base_type (type_str : text) : text :=
  let trimmed := trim_chars type_str in
  let base := match split_once 40 trimmed with
              | Some (base, _) => if ends_with 41 trimmed then trim_chars base else trimmed
              | None => trimmed
              end in
  trim_chars (replace_all (txt "[]") [] (replace_all (txt " UNSIGNED") [] (replace_all (txt " unsigned") [] base))).

Definition f64_one : f64 := S754_finite false 4503599627370496 (-52).
Definition f64_four_fifths : f64 := S754_finite false 7205759403792794 (-53).
Definition f64_half : f64 := S754_finite false 4503599627370496 (-53).
Definition f64_zero : f64 := S754_zero false.

Definition EXACT_MATCHES : list (string * string) :=
  [("int", "integer"); ("integer", "int"); ("float", "real"); ("real", "float"); ("double", "double precision"); ("double precision", "double");
   ("bool", "boolean"); ("boolean", "bool"); ("timestamp", "datetime"); ("datetime", "timestamp"); ("uniqueidentifier", "uuid");
   ("uuid", "uniqueidentifier")]%string.
Definition INTEGER_FAMILY : list string := ["tinyint"; "smallint"; "mediumint"; "int"; "integer"; "bigint"; "serial"; "bigserial"].
Definition TEXT_FAMILY : list string := ["char"; "varchar"; "text"; "tinytext"; "mediumtext"; "longtext"; "clob"; "nclob"].

Definition column_type_similarity_score (source_type target_type : text) : f64 :=
  let s := ascii_lower (parse_base_type source_type) in
  let t := ascii_lower (parse_base_type target_type) in
  if bool_decide (s = t) then f64_one
  else if existsb (fun '(a, b) => bool_decide (s = txt a) && bool_decide (t = txt b)) EXACT_MATCHES then f64_one
  else if one_of s INTEGER_FAMILY && one_of t INTEGER_FAMILY then f64_four_fifths
  else if one_of s TEXT_FAMILY && one_of t TEXT_FAMILY then f64_four_fifths
  else f64_zero.

(** ** Columns that match

    A target column is used once; [used] are the positions taken. *)

Definition free (used : list nat) (i : nat) : bool := negb (bool_decide (i ∈ used)).

Fixpoint exact_matches (source target : list ColumnInfo) (used : list nat) : list (option nat) * list nat :=
  match source with
  | [] => ([], used)
  | s :: source =>
    let found := position 0 (fun i t => bool_decide (t.(col_name) = s.(col_name)) && free used i) target in
    let '(matches, used) := exact_matches source target (option_list found ++ used) in
    (found :: matches, used)
  end.

(** The only unused column whose name differs at most in case. *)
Definition case_candidate (target : list ColumnInfo) (used : list nat) (s : ColumnInfo) : option nat :=
  match List.filter (fun '(i, t) => free used i && eq_ignore_ascii_case t.(col_name) s.(col_name)) (imap pair target) with
  | [(i, _)] => Some i
  | _ => None
  end.

Fixpoint case_matches (source target : list ColumnInfo) (matches : list (option nat)) (used : list nat) : list (option nat) :=
  match source, matches with
  | s :: source, Some i :: matches => Some i :: case_matches source target matches used
  | s :: source, None :: matches =>
    let found := case_candidate target used s in
    found :: case_matches source target matches (option_list found ++ used)
  | _, _ => []
  end.

Definition resolve_column_matches (source target : list ColumnInfo) (ignore_column_name_case : bool) : list (option nat) :=
  let '(matches, used) := exact_matches source target [] in
  if ignore_column_name_case then case_matches source target matches used else matches.

Definition column_add_position (columns : list ColumnInfo) (index : nat) : ColumnAddPosition :=
  match index with
  | O => First
  | S i => match columns !! i with Some c => After c.(col_name) | None => First end
  end.

Record column_options := {
  ignore_comments : bool;
  compare_column_order : bool;
  detect_renames : bool;
  rename_threshold : f64;
  source_dialect : option DialectKind;
  target_dialect : option DialectKind;
  ignore_column_name_case : bool;
  compare_charset : bool;
}.

Section diff.
Context (o : column_options).

Definition text_or (d : string) (v : option text) : text := default (txt d) v.

Definition column_changes (can_compare_order : bool) (source_index target_index : nat) (s t : ColumnInfo) : list text :=
  let source_type := declared_column_type s in
  let target_type := declared_column_type t in
  let charset v := default [] (mysql_charset_value v) in
  changed (negb (column_types_equal_for_dialects source_type target_type o.(source_dialect) o.(target_dialect))) "type" target_type source_type ++
  changed (xorb s.(is_nullable) t.(is_nullable)) "nullable" (yes_no t.(is_nullable)) (yes_no s.(is_nullable)) ++
  changed (text_neq (default [] s.(column_default)) (default [] t.(column_default))) "default"
    (text_or "NULL" t.(column_default)) (text_or "NULL" s.(column_default)) ++
  changed (o.(compare_charset) && mysql_charset_values_differ s.(character_set) t.(character_set)) "character set"
    (charset t.(character_set)) (charset s.(character_set)) ++
  changed (o.(compare_charset) && mysql_charset_values_differ s.(collation) t.(collation)) "collation"
    (charset t.(collation)) (charset s.(collation)) ++
  changed (negb o.(ignore_comments) && text_neq (default [] s.(col_comment)) (default [] t.(col_comment))) "comment"
    (default [] t.(col_comment)) (default [] s.(col_comment)) ++
  changed (can_compare_order && negb (source_index =? target_index)%nat) "order"
    (decimal (Z.of_nat (S target_index))) (decimal (Z.of_nat (S source_index))).

Definition source_column_diff (source target : list ColumnInfo) (can_compare_order : bool) (source_index : nat) (s : ColumnInfo) (found : option nat) :
    list ColumnDiff :=
  match found ≫= (fun i => pair i <$> target !! i) with
  | Some (target_index, t) =>
    match column_changes can_compare_order source_index target_index s t with
    | [] => []
    | l => [modified s.(col_name) s t l]
    end
  | None => [added s.(col_name) s (Some (column_add_position source source_index))]
  end.

Definition target_column_diff (matches : list (option nat)) (target : list ColumnInfo) (target_index : nat) (t : ColumnInfo) : list ColumnDiff :=
  if bool_decide (Some target_index ∈ matches) then [] else [removed t.(col_name) t (Some (column_add_position target target_index))].

(** The columns before renames are looked for. *)
Definition column_differences (source target : list ColumnInfo) : list ColumnDiff :=
  let matches := resolve_column_matches source target o.(ignore_column_name_case) in
  let can_compare_order :=
    o.(compare_column_order) && (length source =? length target)%nat && forallb (fun m => bool_decide (is_Some m)) matches in
  concat (imap (fun i '(s, found) => source_column_diff source target can_compare_order i s found) (zip source matches)) ++
  concat (imap (target_column_diff matches target) target).

(** ** Renames *)

Definition indices_of (diff_type' : string) (diffs : list ColumnDiff) : list nat :=
  omap (fun '(i, d) => if bool_decide (d.(diff_type) = txt diff_type') then Some i else None) (imap pair diffs).

Definition rename_score (removed_col added_col : ColumnInfo) (type_score : f64) : f64 :=
  SFmul 53 1024 type_score (if eqb removed_col.(is_nullable) added_col.(is_nullable) then f64_one else f64_four_fifths).

Definition consider_added (diffs : list ColumnDiff) (matched_added : list nat) (removed_col : ColumnInfo) (best : f64 * option nat) (ai : nat) :
    f64 * option nat :=
  if bool_decide (ai ∈ matched_added) then best
  else
    match diffs !! ai ≫= source with
    | None => best
    | Some added_col =>
      let type_score := column_type_similarity_score removed_col.(col_type) added_col.(col_type) in
      if SFltb type_score o.(rename_threshold) then best
      else
        let score := rename_score removed_col added_col type_score in
        if SFltb best.1 score then (score, Some ai) else best
    end.

Fixpoint rename_pairs (diffs : list ColumnDiff) (removed_indices added_indices matched_added : list nat) : list (nat * nat) :=
  match removed_indices with
  | [] => []
  | ri :: removed_indices =>
    match diffs !! ri ≫= target with
    | None => rename_pairs diffs removed_indices added_indices matched_added
    | Some removed_col =>
      match (fold_left (consider_added diffs matched_added removed_col) added_indices (f64_zero, None)).2 with
      | Some ai => (ri, ai) :: rename_pairs diffs removed_indices added_indices (ai :: matched_added)
      | None => rename_pairs diffs removed_indices added_indices matched_added
      end
    end
  end.

Definition renamed (old_name : text) (old_col new_col : ColumnInfo) : ColumnDiff :=
  {| diff_type := txt "renamed"; diff_name := new_col.(col_name); source := Some new_col; target := Some old_col;
     changes := [old_name ++ arrow ++ new_col.(col_name)]; add_position := None |}.

Definition matched_rename : ColumnDiff :=
  {| diff_type := txt "_matched_rename"; diff_name := []; source := None; target := None; changes := []; add_position := None |}.

Definition apply_rename (diffs : list ColumnDiff) (pair : nat * nat) : list ColumnDiff :=
  match diffs !! pair.1, diffs !! pair.2 with
  | Some r, Some a =>
    match r.(target), a.(source) with
    | Some old_col, Some new_col => <[pair.2 := matched_rename]> (<[pair.1 := renamed r.(diff_name) old_col new_col]> diffs)
    | _, _ => diffs
    end
  | _, _ => diffs
  end.

Definition find_renames (diffs : list ColumnDiff) : list ColumnDiff :=
  List.filter (fun d => negb (bool_decide (d.(diff_type) = txt "_matched_rename")))
    (fold_left apply_rename (rename_pairs diffs (indices_of "removed" diffs) (indices_of "added" diffs) []) diffs).

Definition diff_columns_with_identifier_options (source target : list ColumnInfo) : list ColumnDiff :=
  let diffs := column_differences source target in
  if o.(detect_renames) && SFltb f64_zero o.(rename_threshold) then find_renames diffs else diffs.
End diff.

Definition diff_columns_with_dialect_options (source target : list ColumnInfo) (ignore_comments compare_column_order detect_renames : bool)
    (rename_threshold : f64) (source_dialect target_dialect : option DialectKind) : list ColumnDiff :=
  diff_columns_with_identifier_options
    {| ignore_comments := ignore_comments; compare_column_order := compare_column_order; detect_renames := detect_renames;
       rename_threshold := rename_threshold; source_dialect := source_dialect; target_dialect := target_dialect;
       ignore_column_name_case := false;
       compare_charset := bool_decide (source_dialect = Some Mysql) && bool_decide (target_dialect = Some Mysql) |} source target.

Definition diff_columns (source target : list ColumnInfo) : list ColumnDiff :=
  diff_columns_with_dialect_options source target false false false f64_half None None.
End Columns.

Module Indexes.
(** ** Indexes *)

Definition nth_bool (l : list bool) (i : nat) : bool := default false (l !! i).

Definition index_columns_equal (s t : IndexInfo) (ignore_column_name_case : bool) : bool :=
  bool_decide (length s.(index_columns) = length t.(index_columns)) &&
  forallb (fun '(i, (a, b)) =>
    if nth_bool s.(key_is_expression) i || nth_bool t.(key_is_expression) i then bool_decide (a = b)
    else identifiers_equal a b ignore_column_name_case) (imap pair (zip s.(index_columns) t.(index_columns))).

Definition index_name_is_server_generated (name : text) : bool :=
  let upper := ascii_upper (trim_chars name) in
  match strip_prefix (txt "SYS_C") upper with
  | Some digits => negb (bool_decide (digits = [])) && forallb is_ascii_digit digits
  | None => bool_decide (txt "SQLITE_AUTOINDEX_" `prefix_of` upper)
  end.

Definition index_signatures_equal (s t : IndexInfo) (ignore_column_name_case : bool) : bool :=
  eqb s.(is_unique) t.(is_unique) && bool_decide (s.(index_type) = t.(index_type)) &&
  bool_decide (s.(filter_condition) = t.(filter_condition)) && bool_decide (s.(column_opclasses) = t.(column_opclasses)) &&
  bool_decide (s.(key_options) = t.(key_options)) && index_columns_equal s t ignore_column_name_case &&
  identifier_lists_equal (default [] s.(included_columns)) (default [] t.(included_columns)) ignore_column_name_case.

Section indexes.
Context (ignore_column_name_case : bool).

Definition stands_in (source_names : list text) (matched : list nat) (s : IndexInfo) (i : nat) (t : IndexInfo) : bool :=
  negb (bool_decide (i ∈ matched) || t.(is_primary) || bool_decide (t.(index_name) ∈ source_names)) &&
  (index_name_is_server_generated s.(index_name) || index_name_is_server_generated t.(index_name)) &&
  index_signatures_equal s t ignore_column_name_case.

Fixpoint generated_pairs (source target : list IndexInfo) (source_names target_names : list text) (matched : list nat) : list (option nat) :=
  match source with
  | [] => []
  | s :: source =>
    let found := if s.(is_primary) || bool_decide (s.(index_name) ∈ target_names) then None
                 else position 0 (stands_in source_names matched s) target in
    found :: generated_pairs source target source_names target_names (option_list found ++ matched)
  end.

Definition match_server_generated_indexes (source target : list IndexInfo) : list (option nat) :=
  generated_pairs source target (map index_name source) (map index_name target) [].

Definition or_none (l : list text) : text := match l with [] => txt "none" | _ => join (txt ", ") l end.
Definition opclass (o : option text) : text := match o with Some (_ :: _ as v) => v | _ => txt "default" end.
Definition or_text (d : string) (o : option text) : text := default (txt d) o.

Definition index_changes (s t : IndexInfo) : list text :=
  let source_included := default [] s.(included_columns) in
  let target_included := default [] t.(included_columns) in
  let opclasses i := join (txt ", ") (map opclass i.(column_opclasses)) in
  changed (xorb s.(is_unique) t.(is_unique)) "unique" (yes_no t.(is_unique)) (yes_no s.(is_unique)) ++
  changed (negb (index_columns_equal s t ignore_column_name_case)) "columns" (join (txt ", ") t.(index_columns)) (join (txt ", ") s.(index_columns)) ++
  changed (text_neq (default [] s.(index_type)) (default [] t.(index_type))) "type" (or_text "default" t.(index_type)) (or_text "default" s.(index_type)) ++
  changed (text_neq (default [] s.(filter_condition)) (default [] t.(filter_condition))) "filter"
    (or_text "none" t.(filter_condition)) (or_text "none" s.(filter_condition)) ++
  changed (negb (identifier_lists_equal source_included target_included ignore_column_name_case)) "include" (or_none target_included) (or_none source_included) ++
  changed (negb (bool_decide (s.(column_opclasses) = t.(column_opclasses)))) "opclass" (opclasses t) (opclasses s).

Definition source_index_diff (target_map : gmap text IndexInfo) (s : IndexInfo) (found : option nat) : list IndexDiff :=
  if s.(is_primary) then []
  else
    match target_map !! s.(index_name) with
    | None => match found with Some _ => [] | None => [added s.(index_name) s None] end
    | Some t => match index_changes s t with [] => [] | l => [modified s.(index_name) s t l] end
    end.

Definition target_index_diff (source_map : gmap text IndexInfo) (pairs : list (option nat)) (i : nat) (t : IndexInfo) : list IndexDiff :=
  if t.(is_primary) || bool_decide (Some i ∈ pairs) then []
  else match source_map !! t.(index_name) with Some _ => [] | None => [removed t.(index_name) t None] end.

Definition diff_indexes_with_options (source target : list IndexInfo) : list IndexDiff :=
  let target_map := hash_map index_name (fun x => x) target in
  let source_map := hash_map index_name (fun x => x) source in
  let pairs := match_server_generated_indexes source target in
  concat (map (fun '(s, found) => source_index_diff target_map s found) (zip source pairs)) ++ concat (imap (target_index_diff source_map pairs) target).
End indexes.

Definition diff_indexes : list IndexInfo -> list IndexInfo -> list IndexDiff := diff_indexes_with_options false.
End Indexes.

Module Views.
(** ** Definitions of views *)

Inductive ViewTokenKind := Atom | Symbol.

#[global] Instance ViewTokenKind_eq_dec : EqDecision ViewTokenKind.
Proof. solve_decision. Defined.

Definition view_ddl_symbol (c : Z) : bool := bool_decide (c ∈ txt "()[]{},.;+-*/%<>=!|&^~?:@").

(** The characters of a quoted token after its opening quote; a doubled quote stays
    inside, and [escapes] is whether a backslash escapes. *)
Fixpoint quoted_len (escapes : bool) (quote : Z) (s : text) : nat :=
  match s with
  | [] => 0
  | c :: rest =>
    if escapes && (c =? 92)%Z then match rest with [] => 1 | _ :: rest => S (S (quoted_len escapes quote rest)) end
    else if (c =? quote)%Z then
      match rest with
      | d :: rest => if (d =? quote)%Z then S (S (quoted_len escapes quote rest)) else 1
      | [] => 1
      end
    else S (quoted_len escapes quote rest)
  end.

(** The length of the quoted token that [s] starts with. *)
Definition mysql_quoted_token (s : text) : nat :=
  match s with [] => 0 | quote :: rest => S (quoted_len (negb (quote =? 96)%Z) quote rest) end.
Definition oracle_quoted_token (s : text) : nat := match s with [] => 0 | quote :: rest => S (quoted_len false quote rest) end.

Definition strip_last (c : Z) (s : text) : option text := if opt_is (last s) c then Some (removelast s) else None.

(** The text between the quotes, with doubled quotes once. *)
Definition decode_quoted (quote : Z) (identifier : text) : text :=
  let inner := default identifier (strip_prefix [quote] identifier ≫= strip_last quote) in
  replace_fuel (length inner) [quote; quote] [quote] inner.
Definition decode_mysql_quoted_identifier : text -> text := decode_quoted 96.
Definition decode_oracle_quoted_identifier : text -> text := decode_quoted 34.

Definition skip_ascii_whitespace (s : text) : text := (span is_ascii_whitespace s).2.

(** The length of a comment up to its line's end, and of a block comment. *)
Definition line_len (s : text) : nat := length (span (fun c => negb (c =? 10)%Z) s).1.
Definition block_comment_len (s : text) : nat :=
  match find_sub (txt "*/") (drop 2 s) with Some i => 2 + i + 2 | None => length s end.

(** ** MySQL *)

Definition is_header_word (c : Z) : bool := is_ascii_alphanumeric c || (c =? 95)%Z || (c =? 36)%Z.

(** The position of the first word [keyword] before [limit]; [index] is where [s]
    starts. *)
Fixpoint header_keyword (fuel : nat) (keyword : text) (limit index : nat) (s : text) : option nat :=
  match fuel, s with
  | S fuel, c :: rest =>
    if (limit <=? index)%nat then None
    else if (c =? 39)%Z || (c =? 34)%Z || (c =? 96)%Z then
      let n := mysql_quoted_token s in header_keyword fuel keyword limit (index + n) (drop n s)
    else if is_ascii_alphabetic c || (c =? 95)%Z then
      let word := c :: (span is_header_word (take (limit - S index) rest)).1 in
      if eq_ignore_ascii_case word keyword then Some index
      else header_keyword fuel keyword limit (index + length word) (drop (length word) s)
    else header_keyword fuel keyword limit (S index) rest
  | _, _ => None
  end.
Definition find_mysql_header_keyword (ddl : text) (keyword : string) (limit : nat) : option nat :=
  header_keyword (length ddl) (txt keyword) limit 0 ddl.

(** What follows a name of an account. *)
Definition parse_mysql_definer_principal (s : text) : option text :=
  match s with
  | [] => None
  | c :: _ =>
    if (c =? 96)%Z || (c =? 39)%Z || (c =? 34)%Z then Some (drop (mysql_quoted_token s) s)
    else
      let '(name, rest) := span (fun c => negb (is_ascii_whitespace c || (c =? 64)%Z || (c =? 40)%Z || (c =? 41)%Z)) s in
      match name with [] => None | _ => Some rest end
  end.

(** An identifier and what follows it. *)
Definition parse_mysql_identifier (s : text) : option (text * text) :=
  if opt_is (head s) 96 then let n := mysql_quoted_token s in Some (decode_mysql_quoted_identifier (take n s), drop n s)
  else
    let '(name, rest) := span (fun c => negb (is_ascii_whitespace c || view_ddl_symbol c)) s in
    match name with [] => None | _ => Some (name, rest) end.

(** What follows the account at [s]; [None] when it is no account. *)
Definition after_definer (s : text) : option text :=
  rest ← parse_mysql_definer_principal s;
  let rest := skip_ascii_whitespace rest in
  if opt_is (head rest) 64 then skip_ascii_whitespace <$> parse_mysql_definer_principal (skip_ascii_whitespace (drop 1 rest))
  else if eq_ignore_ascii_case (take (length s - length rest) s) (txt "CURRENT_USER") then
    let opened := skip_ascii_whitespace rest in
    if opt_is (head opened) 40 then
      let closed := skip_ascii_whitespace (drop 1 opened) in
      Some (skip_ascii_whitespace (if opt_is (head closed) 41 then drop 1 closed else rest))
    else Some (skip_ascii_whitespace rest)
  else None.

Definition strip_mysql_view_definer (ddl : text) : text :=
  match find_mysql_header_keyword ddl "VIEW" (length ddl) with
  | None => ddl
  | Some view =>
    match find_mysql_header_keyword ddl "DEFINER" view with
    | None => ddl
    | Some definer =>
      let equals := skip_ascii_whitespace (drop (definer + 7) ddl) in
      if opt_is (head equals) 61 then
        match after_definer (skip_ascii_whitespace (drop 1 equals)) with
        | Some rest => take definer ddl ++ rest
        | None => ddl
        end
      else ddl
    end
  end.

Definition mysql_view_schema (ddl : text) : option text :=
  view ← find_mysql_header_keyword ddl "VIEW" (length ddl);
  '(identifier, rest) ← parse_mysql_identifier (skip_ascii_whitespace (drop (view + 4) ddl));
  if opt_is (head (skip_ascii_whitespace rest)) 46 then Some identifier else None.

Definition is_mysql_bare (c : Z) : bool :=
  negb (is_ascii_whitespace c || (c =? 39)%Z || (c =? 34)%Z || (c =? 96)%Z || (c =? 35)%Z || view_ddl_symbol c).

(** The length and kind of the token that [s] starts with. *)
Definition mysql_view_token (s : text) : nat * ViewTokenKind :=
  match s with
  | [] => (0, Atom)
  | c :: rest =>
    if (c =? 39)%Z || (c =? 34)%Z || (c =? 96)%Z then (mysql_quoted_token s, Atom)
    else if (c =? 35)%Z then (line_len s, Atom)
    else if (c =? 45)%Z && opt_is (rest !! 0) 45 && opt_test is_ascii_whitespace (rest !! 1) then (line_len s, Atom)
    else if (c =? 47)%Z && opt_is (rest !! 0) 42 then (block_comment_len s, Atom)
    else if view_ddl_symbol c then (1, Symbol)
    else (S (length (span is_mysql_bare rest).1), Atom)
  end.

Definition mysql_schema_qualifier (schema : option text) (token rest : text) : bool :=
  opt_is (head token) 96 && bool_decide (schema = Some (decode_mysql_quoted_identifier token)) && opt_is (head (trim_chars_start rest)) 46.

Definition spacing (pending_whitespace : bool) (previous : option ViewTokenKind) (kind : ViewTokenKind) : text :=
  if pending_whitespace && bool_decide (previous = Some kind) then [32%Z] else [].

Fixpoint normalize_mysql_loop (fuel : nat) (schema : option text) (previous : option ViewTokenKind) (pending_whitespace : bool) (s : text) : text :=
  match fuel, s with
  | S fuel, c :: rest =>
    if is_ascii_whitespace c then normalize_mysql_loop fuel schema previous true rest
    else
      let '(n, kind) := mysql_view_token s in
      let token := if mysql_schema_qualifier schema (take n s) (drop n s) then txt "`__dbx_schema__`" else take n s in
      spacing pending_whitespace previous kind ++ token ++ normalize_mysql_loop fuel schema (Some kind) false (drop n s)
  | _, _ => []
  end.

Definition normalize_mysql_view_ddl (ddl : text) : text :=
  let ddl := strip_mysql_view_definer ddl in normalize_mysql_loop (length ddl) (mysql_view_schema ddl) None false ddl.

(** ** Oracle *)

Record OracleViewToken := { kind : ViewTokenKind; token_text : text; identifier : bool; quoted : bool; spaced : bool }.

Definition is_oracle_bare (c : Z) : bool := negb (is_ascii_whitespace c || (c =? 39)%Z || (c =? 34)%Z || view_ddl_symbol c).

(** The length of the token that [s] starts with, and the token unless it is a comment. *)
Definition oracle_view_token (spaced : bool) (s : text) : nat * option OracleViewToken :=
  match s with
  | [] => (0, None)
  | c :: rest =>
    let token kind text identifier quoted :=
      Some {| kind := kind; token_text := text; identifier := identifier; quoted := quoted; spaced := spaced |} in
    if (c =? 39)%Z then let n := oracle_quoted_token s in (n, token Atom (take n s) false false)
    else if (c =? 34)%Z then let n := oracle_quoted_token s in (n, token Atom (decode_oracle_quoted_identifier (take n s)) true true)
    else if (c =? 45)%Z && opt_is (rest !! 0) 45 then (line_len s, None)
    else if (c =? 47)%Z && opt_is (rest !! 0) 42 then (block_comment_len s, None)
    else if view_ddl_symbol c then (1, token Symbol [c] false false)
    else let n := S (length (span is_oracle_bare rest).1) in (n, token Atom (take n s) true false)
  end.

Fixpoint oracle_tokens_loop (fuel : nat) (spaced : bool) (s : text) : list OracleViewToken :=
  match fuel, s with
  | S fuel, c :: rest =>
    if is_ascii_whitespace c then oracle_tokens_loop fuel true rest
    else let '(n, token) := oracle_view_token spaced s in option_list token ++ oracle_tokens_loop fuel false (drop n s)
  | _, _ => []
  end.
Definition oracle_view_tokens (ddl : text) : list OracleViewToken := oracle_tokens_loop (length ddl) false ddl.

Definition continues_with_dot (tokens : list OracleViewToken) (position : nat) : bool :=
  match tokens !! S position with Some next => bool_decide (next.(kind) = Symbol) && bool_decide (next.(token_text) = txt ".") | None => false end.

Definition oracle_view_owner (tokens : list OracleViewToken) : option text :=
  view ← position 0 (fun _ token => negb token.(quoted) && eq_ignore_ascii_case token.(token_text) (txt "VIEW")) tokens;
  name ← tokens !! S view;
  if continues_with_dot tokens (S view) then Some name.(token_text) else None.

Definition push_schema (schemas : list text) (ddl : text) : list text :=
  match oracle_view_owner (oracle_view_tokens ddl) with
  | Some owner => if existsb (fun known => eq_ignore_ascii_case known owner) schemas then schemas else schemas ++ [owner]
  | None => schemas
  end.
Definition oracle_view_schemas (source_ddl target_ddl : text) : list text := fold_left push_schema [source_ddl; target_ddl] [].

Definition oracle_replacement (schemas : list text) (tokens : list OracleViewToken) (position : nat) (token : OracleViewToken) : text :=
  if token.(identifier) && existsb (eq_ignore_ascii_case token.(token_text)) schemas && continues_with_dot tokens position
  then txt "__dbx_schema__" else token.(token_text).

Definition previous_kind (tokens : list OracleViewToken) (position : nat) : option ViewTokenKind :=
  match position with O => None | S i => kind <$> tokens !! i end.

Definition normalize_oracle_view_ddl_with_schemas (ddl : text) (schemas : list text) : text :=
  let ddl := trim_chars_end ddl in
  let ddl := match strip_last 59 ddl with Some ddl => trim_chars_end ddl | None => ddl end in
  let tokens := oracle_view_tokens ddl in
  concat (imap (fun position token =>
    spacing token.(spaced) (previous_kind tokens position) token.(kind) ++ oracle_replacement schemas tokens position token) tokens).

Definition view_definitions_differ (source_ddl target_ddl : text) (source_dialect target_dialect : option DialectKind) : bool :=
  if negb (bool_decide (source_dialect = target_dialect)) then false
  else
    match source_dialect with
    | Some Mysql => text_neq (normalize_mysql_view_ddl source_ddl) (normalize_mysql_view_ddl target_ddl)
    | Some Oracle =>
      let schemas := oracle_view_schemas source_ddl target_ddl in
      text_neq (normalize_oracle_view_ddl_with_schemas source_ddl schemas) (normalize_oracle_view_ddl_with_schemas target_ddl schemas)
    | _ => false
    end.
End Views.

Module TableCharset.
(** ** The default character set of a MySQL table *)

Record MysqlTableCharset := { table_character_set : option text; table_collation : option text }.
Record TableCharsetDiff := { charset_source : MysqlTableCharset; charset_target : MysqlTableCharset }.

Definition inverted (d : TableCharsetDiff) : TableCharsetDiff := {| charset_source := d.(charset_target); charset_target := d.(charset_source) |}.

(** The tokens of the sqlparser crate that the code looks at. *)
Inductive Token := Word (value : text) (has_quotes : bool) | LParen | RParen | SemiColon | Eq | SingleQuotedString (s : text) | Whitespace | Other.

Class MysqlTokenizer : Type := { mysql_tokenize : text -> option (list Token) }.

Definition keyword (tokens : list Token) (i : nat) (name : string) : bool :=
  match tokens !! i with Some (Word value false) => eq_ignore_ascii_case value (txt name) | _ => false end.

Definition is_whitespace_token (t : Token) : bool := match t with Whitespace => true | _ => false end.
Definition is_lparen (t : Token) : bool := match t with LParen => true | _ => false end.

Definition depth_after (depth : Z) (t : option Token) : Z :=
  match t with Some LParen => (depth + 1)%Z | Some RParen => (depth - 1)%Z | _ => depth end.

Definition set_default (collation : bool) (name : text) (r : MysqlTableCharset) : MysqlTableCharset :=
  if collation then {| table_character_set := r.(table_character_set); table_collation := Some name |}
  else {| table_character_set := Some name; table_collation := r.(table_collation) |}.

Fixpoint defaults_loop (fuel : nat) (tokens : list Token) (i : nat) (depth : Z) (result : MysqlTableCharset) : option MysqlTableCharset :=
  match fuel, tokens !! i with
  | S fuel, Some token =>
    let depth := depth_after depth (Some token) in
    if match token with SemiColon => (depth =? 0)%Z | _ => false end then Some result
    else if (depth =? 0)%Z then
      if keyword tokens i "PARTITION" then Some result
      else
        let collation := keyword tokens i "COLLATE" in
        let charset := keyword tokens i "CHARSET" || (keyword tokens i "CHARACTER" && keyword tokens (S i) "SET") in
        if collation || charset then
          let value := i + (if keyword tokens i "CHARACTER" then 2 else 1) in
          let value := match tokens !! value with Some Eq => S value | _ => value end in
          match tokens !! value with
          | Some (Word name _) | Some (SingleQuotedString name) => defaults_loop fuel tokens (S value) depth (set_default collation name result)
          | _ => None
          end
        else defaults_loop fuel tokens (S i) depth result
    else defaults_loop fuel tokens (S i) depth result
  | _, _ => Some result
  end.

Section defaults.
Context `{MysqlTokenizer}.

Definition table_defaults (sql : text) : option MysqlTableCharset :=
  tokens ← mysql_tokenize sql;
  let tokens := List.filter (fun t => negb (is_whitespace_token t)) tokens in
  if negb (keyword tokens 0 "CREATE") || negb (existsb (fun i => keyword tokens i "TABLE") [1; 2; 3]) then None
  else
    opened ← position 0 (fun _ t => is_lparen t) tokens;
    defaults_loop (length tokens) tokens (S opened) 1 {| table_character_set := None; table_collation := None |}.

Definition compare_table_defaults (source target : option text) : option TableCharsetDiff :=
  source ← source;
  source ← table_defaults source;
  target ← target;
  target ← table_defaults target;
  if Columns.mysql_charset_values_differ source.(table_character_set) target.(table_character_set) ||
     Columns.mysql_charset_values_differ source.(table_collation) target.(table_collation)
  then Some {| charset_source := source; charset_target := target |} else None.
End defaults.
End TableCharset.
Import TableCharset.

Module Schema.
(** ** Names of tables *)

Record SchemaDiffTableMapping := { source_table : text; mapping_target_table : text }.
Record SchemaDiffTableNameResolution := { pairs : list (text * text); source_only : list text; target_only : list text }.

(** [entry(source).or_insert(target)] for the mappings with both names. *)
Definition explicit_by_source (mappings : list SchemaDiffTableMapping) : gmap text text :=
  fold_left (fun m mapping =>
    if bool_decide (mapping.(source_table) = []) || bool_decide (mapping.(mapping_target_table) = []) then m
    else match m !! mapping.(source_table) with Some _ => m | None => <[mapping.(source_table) := mapping.(mapping_target_table)]> m end)
    mappings ∅.

(** The targets found so far, and those that are taken. *)
Definition resolution : Type := gmap text text * list text.

(** [target_set.contains(target) && used.insert(target)]. *)
Definition take_target (target_names : list text) (source_name target_name : text) (r : resolution) : resolution :=
  if bool_decide (target_name ∈ target_names) && negb (bool_decide (target_name ∈ r.2))
  then (<[source_name := target_name]> r.1, target_name :: r.2) else r.

Definition reserve_explicit (target_names : list text) (explicit : gmap text text) (r : resolution) (source_name : text) : resolution :=
  match explicit !! source_name with Some target_name => take_target target_names source_name target_name r | None => r end.

Definition match_exact (target_names : list text) (r : resolution) (source_name : text) : resolution :=
  match r.1 !! source_name with Some _ => r | None => take_target target_names source_name source_name r end.

Definition match_ignoring_case (target_names : list text) (r : resolution) (source_name : text) : resolution :=
  match r.1 !! source_name with
  | Some _ => r
  | None =>
    match List.filter (fun t => negb (bool_decide (t ∈ r.2)) && identifiers_equal source_name t true) target_names with
    | [target_name] => (<[source_name := target_name]> r.1, target_name :: r.2)
    | _ => r
    end
  end.

Definition resolve_targets (source_names target_names : list text) (mappings : list SchemaDiffTableMapping) (ignore_table_name_case : bool) : resolution :=
  let r := fold_left (reserve_explicit target_names (explicit_by_source mappings)) source_names (∅, []) in
  let r := fold_left (match_exact target_names) source_names r in
  if ignore_table_name_case then fold_left (match_ignoring_case target_names) source_names r else r.

Definition resolve_schema_diff_table_names (source_names target_names : list text) (mappings : list SchemaDiffTableMapping) (ignore_table_name_case : bool) :
    SchemaDiffTableNameResolution :=
  let r := resolve_targets source_names target_names mappings ignore_table_name_case in
  {| pairs := omap (fun s => pair s <$> r.1 !! s) source_names;
     source_only := List.filter (fun s => negb (bool_decide (is_Some (r.1 !! s)))) source_names;
     target_only := List.filter (fun t => negb (bool_decide (t ∈ r.2))) target_names |}.

(** ** Foreign keys of the tables compared *)

Definition normalize_self_referencing_fk (fk : ForeignKeyInfo) (own_table_names : list text) (ignore_table_name_case : bool) : ForeignKeyInfo :=
  if bool_decide (is_Some fk.(ref_schema)) && existsb (fun name => identifiers_equal name fk.(ref_table) ignore_table_name_case) own_table_names
  then fk <| ref_schema := None |> else fk.

Definition mapped_target (ref_table : text) (target_table_names : list text) (table_pairs : list (text * text)) (mappings : list SchemaDiffTableMapping)
    (ignore_table_name_case : bool) : option text :=
  match List.find (fun m => bool_decide (m.(source_table) = ref_table) && bool_decide (m.(mapping_target_table) ∈ target_table_names)) mappings with
  | Some m => Some m.(mapping_target_table)
  | None => snd <$> List.find (fun '(source, _) => identifiers_equal source ref_table ignore_table_name_case) table_pairs
  end.

Definition normalize_mapped_foreign_key (fk : ForeignKeyInfo) (source_table_names target_table_names : list text) (table_pairs : list (text * text))
    (mappings : list SchemaDiffTableMapping) (ignore_table_name_case : bool) : ForeignKeyInfo :=
  let normalized := normalize_self_referencing_fk fk source_table_names ignore_table_name_case in
  match mapped_target normalized.(ref_table) target_table_names table_pairs mappings ignore_table_name_case with
  | Some target => normalized <| ref_table := target |> <| ref_schema := None |>
  | None => normalized
  end.

(** ** Whole schemas *)

Record TableDiff := {
  table_diff_type : text;
  diff_object_type : option text;
  table_diff_name : text;
  target_name : option text;
  column_diffs : option (list ColumnDiff);
  index_diffs : option (list IndexDiff);
  foreign_key_diffs : option (list (ObjectDiff SchemaForeignKeyInfo));
  trigger_diffs : option (list TriggerDiff);
  diff_ddl : option text;
  target_ddl : option text;
  source_table_comment : option (option text);
  target_table_comment : option (option text);
  table_charset : option TableCharsetDiff;
  sync_sql : option text;
}.

Inductive ShardBy := ByTable | BySchema | RoundRobin.
Record ShardStrategy := { shard_count : nat; shard_by : ShardBy }.

(** The options that the comparison of tables reads. *)
Record SchemaDiffPreparationOptions := {
  source_tables : list TableInfo;
  target_tables : list TableInfo;
  source_details : list TableSchemaDetail;
  target_details : list TableSchemaDetail;
  database_type : DatabaseType.t;
  ignore_comments : bool;
  compare_column_order : bool;
  compare_charset : bool;
  ignore_table_name_case : bool;
  ignore_column_name_case : bool;
  detect_renames : bool;
  rename_threshold : f64;
  source_dialect : option DialectKind;
  target_dialect : option DialectKind;
  table_mappings : list SchemaDiffTableMapping;
}.

Section schema.
Context `{DatabaseManifest} `{MysqlTokenizer}.

Definition both_mysql (o : SchemaDiffPreparationOptions) : bool :=
  let target_dialect := default (from_database_type o.(database_type)) o.(target_dialect) in
  let source_dialect := default target_dialect o.(source_dialect) in
  bool_decide (source_dialect = Mysql) && bool_decide (target_dialect = Mysql).

Definition compare_mysql_column_charset (o : SchemaDiffPreparationOptions) : bool :=
  if negb o.(compare_charset) || negb (bool_decide (o.(database_type) ∈ [DatabaseType.Mysql; DatabaseType.Goldendb])) then false
  else both_mysql o.

Definition mysql_foreign_key_actions (o : SchemaDiffPreparationOptions) : bool := both_mysql o.

Definition column_options_of (o : SchemaDiffPreparationOptions) : Columns.column_options :=
  {| Columns.ignore_comments := o.(ignore_comments); Columns.compare_column_order := o.(compare_column_order);
     Columns.detect_renames := o.(detect_renames); Columns.rename_threshold := o.(rename_threshold);
     Columns.source_dialect := o.(source_dialect); Columns.target_dialect := o.(target_dialect);
     Columns.ignore_column_name_case := o.(ignore_column_name_case); Columns.compare_charset := compare_mysql_column_charset o |}.

(** What one comparison looks up. *)
Definition details_of (details : list TableSchemaDetail) : gmap text TableSchemaDetail := hash_map detail_name (fun d => d) details.
Definition comments_of (tables : list TableInfo) : gmap text (option text) := hash_map table_name table_comment tables.
Definition tables_of (tables : list TableInfo) : list text := Graph.names_where (fun t => negb (is_view t)) tables.
Definition views_of (tables : list TableInfo) : list text := Graph.names_where is_view tables.

Definition resolve (o : SchemaDiffPreparationOptions) (names : list TableInfo -> list text) : SchemaDiffTableNameResolution :=
  resolve_schema_diff_table_names (names o.(source_tables)) (names o.(target_tables)) o.(table_mappings) o.(ignore_table_name_case).

Definition normalize_source_fk (o : SchemaDiffPreparationOptions) (fk : ForeignKeyInfo) : ForeignKeyInfo :=
  normalize_mapped_foreign_key fk (tables_of o.(source_tables)) (tables_of o.(target_tables)) (resolve o tables_of).(pairs) o.(table_mappings)
    o.(ignore_table_name_case).

Definition plain (diff_type : string) (object_type : string) (name : text) (ddl target_ddl : option text) : TableDiff :=
  {| table_diff_type := txt diff_type; diff_object_type := Some (txt object_type); table_diff_name := name; target_name := None;
     column_diffs := None; index_diffs := None; foreign_key_diffs := None; trigger_diffs := None; diff_ddl := ddl; target_ddl := target_ddl;
     source_table_comment := None; target_table_comment := None; table_charset := None; sync_sql := None |}.

Definition added_table (o : SchemaDiffPreparationOptions) (name : text) : TableDiff :=
  let detail := details_of o.(source_details) !! name in
  {| table_diff_type := txt "added"; diff_object_type := Some (txt "table"); table_diff_name := name; target_name := None;
     column_diffs := (fun d => imap (fun i c => added c.(col_name) c (Some (Columns.column_add_position d.(columns) i))) d.(columns)) <$> detail;
     index_diffs := (fun d => map (fun i => added i.(index_name) i None) d.(indexes)) <$> detail;
     foreign_key_diffs := (fun d => diff_foreign_keys (map (normalize_source_fk o) d.(foreign_keys)) []) <$> detail;
     trigger_diffs := detail ≫= (fun d => match d.(triggers) with [] => None | l => Some (map (fun t => added t.(trigger_name) t None) l) end);
     diff_ddl := detail ≫= ddl; target_ddl := None; source_table_comment := None; target_table_comment := None; table_charset := None;
     sync_sql := None |}.

Definition removed_table (o : SchemaDiffPreparationOptions) (name : text) : TableDiff :=
  let detail := details_of o.(target_details) !! name in
  {| table_diff_type := txt "removed"; diff_object_type := Some (txt "table"); table_diff_name := name; target_name := None;
     column_diffs := (fun d => imap (fun i c => removed c.(col_name) c (Some (Columns.column_add_position d.(columns) i))) d.(columns)) <$> detail;
     index_diffs := (fun d => map (fun i => removed i.(index_name) i None) d.(indexes)) <$> detail;
     foreign_key_diffs := (fun d => diff_foreign_keys [] d.(foreign_keys)) <$> detail;
     trigger_diffs := (fun d => map (fun t => removed t.(trigger_name) t None) d.(triggers)) <$> detail;
     diff_ddl := None; target_ddl := detail ≫= ddl; source_table_comment := None;
     target_table_comment := comments_of o.(target_tables) !! name; table_charset := None; sync_sql := None |}.

Definition other_name (name target_name : text) : option text := if bool_decide (name = target_name) then None else Some target_name.

Definition common_view (o : SchemaDiffPreparationOptions) (pair : text * text) : list TableDiff :=
  let '(name, target) := pair in
  match details_of o.(source_details) !! name ≫= ddl, details_of o.(target_details) !! target ≫= ddl with
  | Some source_ddl, Some target_ddl' =>
    if Views.view_definitions_differ source_ddl target_ddl' o.(source_dialect) o.(target_dialect) then
      [{| table_diff_type := txt "modified"; diff_object_type := Some (txt "view"); table_diff_name := name; target_name := other_name name target;
          column_diffs := None; index_diffs := None; foreign_key_diffs := None; trigger_diffs := None; diff_ddl := Some source_ddl;
          target_ddl := Some target_ddl'; source_table_comment := None; target_table_comment := None; table_charset := None; sync_sql := None |}]
    else []
  | _, _ => []
  end.

Definition non_empty {A} (has_diff : bool) (l : list A) : option (list A) := if has_diff then match l with [] => None | _ => Some l end else None.

Definition common_table (o : SchemaDiffPreparationOptions) (pair : text * text) : list TableDiff :=
  let '(name, target) := pair in
  match details_of o.(source_details) !! name, details_of o.(target_details) !! target with
  | Some s, Some t =>
    let column_diffs := Columns.diff_columns_with_identifier_options (column_options_of o) s.(columns) t.(columns) in
    let index_diffs := Indexes.diff_indexes_with_options o.(ignore_column_name_case) s.(indexes) t.(indexes) in
    let foreign_key_diffs :=
      diff_foreign_keys_with_options o.(ignore_table_name_case) o.(ignore_column_name_case) (mysql_foreign_key_actions o)
        (map (normalize_source_fk o) s.(foreign_keys))
        (map (fun fk => normalize_self_referencing_fk fk (tables_of o.(target_tables)) o.(ignore_table_name_case)) t.(foreign_keys)) in
    let trigger_diffs := diff_triggers s.(triggers) t.(triggers) in
    let source_comment := mjoin (comments_of o.(source_tables) !! name) in
    let target_comment := mjoin (comments_of o.(target_tables) !! target) in
    let comment_changed := negb o.(ignore_comments) && text_neq (default [] source_comment) (default [] target_comment) in
    let charset := if compare_mysql_column_charset o then compare_table_defaults s.(ddl) t.(ddl) else None in
    let has_diff := negb (bool_decide (column_diffs = [])) || negb (bool_decide (index_diffs = [])) || negb (bool_decide (foreign_key_diffs = []))
                    || negb (bool_decide (trigger_diffs = [])) || comment_changed || bool_decide (is_Some charset) in
    [{| table_diff_type := txt (if has_diff then "modified" else "none"); diff_object_type := Some (txt "table"); table_diff_name := name;
        target_name := other_name name target; column_diffs := non_empty has_diff column_diffs; index_diffs := non_empty has_diff index_diffs;
        foreign_key_diffs := non_empty has_diff foreign_key_diffs; trigger_diffs := non_empty has_diff trigger_diffs; diff_ddl := s.(ddl);
        target_ddl := t.(ddl); source_table_comment := if has_diff && comment_changed then Some source_comment else None;
        target_table_comment := if has_diff && comment_changed then Some target_comment else None; table_charset := charset; sync_sql := None |}]
  | _, _ => []
  end.

Definition diff_schema (o : SchemaDiffPreparationOptions) : list TableDiff :=
  let tables := resolve o tables_of in
  let views := resolve o views_of in
  List.filter (fun d => negb (bool_decide (d.(table_diff_type) = txt "none")))
    (map (added_table o) tables.(source_only) ++ map (removed_table o) tables.(target_only) ++
     map (fun name => plain "added" "view" name (details_of o.(source_details) !! name ≫= ddl) None) views.(source_only) ++
     map (fun name => plain "removed" "view" name None (details_of o.(target_details) !! name ≫= ddl)) views.(target_only) ++
     concat (map (common_view o) views.(pairs)) ++ concat (map (common_table o) tables.(pairs))).

(** ** In shards *)

Definition same_parent (schema : text) (t : TableInfo) : bool := bool_decide (default (txt "default") t.(parent_schema) = schema).

(** The groups of names by their schemas, in the order of a hash map. *)
Definition schema_groups `{HashOrder} (tables : list TableInfo) : list (list text) :=
  map (fun schema => Graph.names_where (same_parent schema) tables) (set_elements 11 (map (fun t => default (txt "default") t.(parent_schema)) tables)).

(** [s[i % count].push(x)] for every [x] at [i]. *)
Definition deal {A} (count : nat) (l : list A) : list (list A) :=
  map (fun k => omap (fun '(i, x) => if (i mod count =? k)%nat then Some x else None) (imap pair l)) (seq 0 count).

Definition shards `{HashOrder} (o : SchemaDiffPreparationOptions) (count : nat) (by_ : ShardBy) : list (list text) :=
  match by_ with
  | ByTable | RoundRobin => deal count (tables_of o.(source_tables) ++ views_of o.(source_tables))
  | BySchema => map (@concat text) (deal count (schema_groups o.(source_tables)))
  end.

Definition in_shard (shard : list text) (name : text) : bool := bool_decide (name ∈ shard).
Definition target_in_shard (o : SchemaDiffPreparationOptions) (shard : list text) (name : text) : bool :=
  in_shard shard name || existsb (fun m => in_shard shard m.(source_table) && bool_decide (m.(mapping_target_table) = name)) o.(table_mappings).

Definition shard_options (o : SchemaDiffPreparationOptions) (shard : list text) : SchemaDiffPreparationOptions :=
  {| source_tables := List.filter (fun t => in_shard shard t.(table_name)) o.(source_tables);
     target_tables := List.filter (fun t => target_in_shard o shard t.(table_name)) o.(target_tables);
     source_details := List.filter (fun d => in_shard shard d.(detail_name)) o.(source_details);
     target_details := List.filter (fun d => target_in_shard o shard d.(detail_name)) o.(target_details);
     database_type := o.(database_type); ignore_comments := o.(ignore_comments); compare_column_order := o.(compare_column_order);
     compare_charset := o.(compare_charset); ignore_table_name_case := o.(ignore_table_name_case);
     ignore_column_name_case := o.(ignore_column_name_case); detect_renames := false; rename_threshold := Columns.f64_half;
     source_dialect := o.(source_dialect); target_dialect := o.(target_dialect); table_mappings := o.(table_mappings) |}.

(** The order of strings. *)
Fixpoint name_leb (a b : text) : bool :=
  match a, b with
  | [], _ => true
  | _ :: _, [] => false
  | x :: a, y :: b => (x <? y)%Z || ((x =? y)%Z && name_leb a b)
  end.

(** A stable sort by name. *)
Fixpoint insert_by_name (d : TableDiff) (l : list TableDiff) : list TableDiff :=
  match l with
  | [] => [d]
  | e :: l => if name_leb d.(table_diff_name) e.(table_diff_name) then d :: e :: l else e :: insert_by_name d l
  end.
Definition sort_by_name (l : list TableDiff) : list TableDiff := foldr insert_by_name [] l.

Definition same_entry (a b : TableDiff) : bool :=
  bool_decide (a.(table_diff_name) = b.(table_diff_name)) && bool_decide (a.(table_diff_type) = b.(table_diff_type)).
Fixpoint dedup_from (previous : TableDiff) (l : list TableDiff) : list TableDiff :=
  match l with
  | [] => []
  | d :: l => if same_entry d previous then dedup_from previous l else d :: dedup_from d l
  end.
Definition dedup (l : list TableDiff) : list TableDiff := match l with [] => [] | d :: l => d :: dedup_from d l end.

Definition shard_diff `{HashOrder} (o : SchemaDiffPreparationOptions) (strategy : ShardStrategy) : list TableDiff :=
  let table_count := Nat.max (length o.(source_tables)) (length o.(target_tables)) in
  let count := Nat.min strategy.(shard_count) (Nat.max table_count 1) in
  if (count <=? 1)%nat then diff_schema o
  else
    let filled := List.filter (fun shard => negb (bool_decide (shard = []))) (shards o count strategy.(shard_by)) in
    dedup (sort_by_name (concat (map (fun shard => diff_schema (shard_options o shard)) filled))).
End schema.
End Schema.

Module Rollback.
(** ** The reverse of a comparison *)
Import Schema.

Definition invert_diff_type (dt : text) : text :=
  if bool_decide (dt = txt "added") then txt "removed"
  else if bool_decide (dt = txt "removed") then txt "added"
  else if bool_decide (dt = txt "renamed") then txt "renamed"
  else txt "modified".

(** [s.split_once(pattern)]. *)
Definition split_at (pattern s : text) : option (text * text) :=
  (fun i => (take i s, drop (i + length pattern) s)) <$> find_sub pattern s.

Definition invert_change_string (ch : text) : text :=
  match split_at arrow ch with
  | None => ch
  | Some (before, after) =>
    match split_at (txt ": ") before with
    | Some (kind, value) => kind ++ txt ": " ++ after ++ arrow ++ value
    | None => after ++ arrow ++ before
    end
  end.

Definition invert_column (c : ColumnDiff) : ColumnDiff :=
  {| diff_type := invert_diff_type c.(diff_type);
     diff_name := if bool_decide (c.(diff_type) = txt "renamed") then match c.(target) with Some t => t.(col_name) | None => c.(diff_name) end
                  else c.(diff_name);
     source := c.(target); target := c.(source); changes := map invert_change_string c.(changes); add_position := c.(add_position) |}.
Definition invert_columns : list ColumnDiff -> list ColumnDiff := map invert_column.

(** Indexes, foreign keys and triggers keep the texts of their changes. *)
Definition invert_object {A} (d : ObjectDiff A) : ObjectDiff A :=
  {| diff_type := invert_diff_type d.(diff_type); diff_name := d.(diff_name); source := d.(target); target := d.(source);
     changes := d.(changes); add_position := d.(add_position) |}.
Definition invert_indexes : list IndexDiff -> list IndexDiff := map invert_object.
Definition invert_fks : list (ObjectDiff SchemaForeignKeyInfo) -> list (ObjectDiff SchemaForeignKeyInfo) := map invert_object.
Definition invert_triggers : list TriggerDiff -> list TriggerDiff := map invert_object.

Definition invert_diff (d : TableDiff) : TableDiff :=
  let inverted_type := invert_diff_type d.(table_diff_type) in
  let '(source_comment, target_comment) :=
    if bool_decide (inverted_type = txt "removed") then (d.(source_table_comment), d.(target_table_comment))
    else (d.(target_table_comment), d.(source_table_comment)) in
  let recreates_removed_table :=
    bool_decide (d.(table_diff_type) = txt "removed") && bool_decide (inverted_type = txt "added") &&
    bool_decide (d.(diff_object_type) = Some (txt "table")) in
  {| table_diff_type := inverted_type; diff_object_type := d.(diff_object_type); table_diff_name := d.(table_diff_name);
     target_name := d.(target_name); column_diffs := invert_columns <$> d.(column_diffs); index_diffs := invert_indexes <$> d.(index_diffs);
     foreign_key_diffs := invert_fks <$> d.(foreign_key_diffs); trigger_diffs := invert_triggers <$> d.(trigger_diffs);
     diff_ddl := if recreates_removed_table then None else d.(target_ddl);
     target_ddl := if recreates_removed_table then d.(target_ddl) else d.(diff_ddl);
     source_table_comment := source_comment; target_table_comment := target_comment;
     table_charset := inverted <$> d.(table_charset); sync_sql := None |}.

Inductive DiffDirection := Forward | Backward.

Record RenameCandidate := { rename_from : text; rename_to : text; candidate_score : f64; column_jaccard : f64; type_similarity : f64 }.

Record DiffNode := {
  table_diff : TableDiff;
  direction : DiffDirection;
  dependency_order : Z;
  rename_source : option text;
  rename_target : option text;
  rename_score : option f64;
}.

Record RollbackGraph := { forward_nodes : list DiffNode; rollback_nodes : list DiffNode; is_consistent : bool; consistency_issues : list text }.

(** A candidate renames the target's table [rename_to] into the source's [rename_from]. *)
Definition node_renames (renames : list RenameCandidate) (d : TableDiff) : option text * option text * option f64 :=
  if bool_decide (d.(table_diff_type) = txt "added") then
    match hash_map rename_from rename_to renames !! d.(table_diff_name) with
    | Some target => (Some target, Some d.(table_diff_name), None)
    | None => (None, None, None)
    end
  else if bool_decide (d.(table_diff_type) = txt "removed") then
    match hash_map rename_to (fun r => r) renames !! d.(table_diff_name) with
    | Some r => (Some d.(table_diff_name), Some r.(rename_from), Some r.(candidate_score))
    | None => (None, None, None)
    end
  else (None, None, None).

Definition order_in (topological_order : list text) (name : text) : Z :=
  match hash_map snd fst (imap pair topological_order) !! name with Some i => Z.of_nat i | None => u64_max end.

Definition forward_node (renames : list RenameCandidate) (topological_order : list text) (d : TableDiff) : DiffNode :=
  {| table_diff := d; direction := Forward; dependency_order := order_in topological_order d.(table_diff_name);
     rename_source := (node_renames renames d).1.1; rename_target := (node_renames renames d).1.2; rename_score := (node_renames renames d).2 |}.
Definition rollback_node (topological_order : list text) (d : TableDiff) : DiffNode :=
  {| table_diff := invert_diff d; direction := Backward; dependency_order := order_in topological_order d.(table_diff_name);
     rename_source := None; rename_target := None; rename_score := None |}.

Definition from_forward_diffs (forward_diffs : list TableDiff) (renames : list RenameCandidate) (topological_order : list text) : RollbackGraph :=
  {| forward_nodes := map (forward_node renames topological_order) forward_diffs; rollback_nodes := map (rollback_node topological_order) forward_diffs;
     is_consistent := false; consistency_issues := [] |}.

Definition inverse_types (forward rollback : text) : bool :=
  existsb (fun '(a, b) => bool_decide (forward = txt a) && bool_decide (rollback = txt b))
    [("added", "removed"); ("removed", "added"); ("modified", "modified"); ("none", "none")]%string.

(** The ring operator of the messages is U+2218. *)
Definition node_issues (rollback_nodes : list DiffNode) (fwd : DiffNode) : list text :=
  let name := fwd.(table_diff).(table_diff_name) in
  let type := fwd.(table_diff).(table_diff_type) in
  let same := List.filter (fun rbk => bool_decide (rbk.(table_diff).(table_diff_name) = name)) rollback_nodes in
  (if existsb (fun rbk => inverse_types type rbk.(table_diff).(table_diff_type)) same then []
   else [txt "No rollback entry for forward " ++ type ++ txt ": " ++ name]) ++
  concat (map (fun rbk =>
    let ror := (invert_diff rbk.(table_diff)).(table_diff_type) in
    if bool_decide (ror = type) then []
    else [txt "Forward" ++ [8728%Z] ++ txt "Rollback mismatch for " ++ name ++ txt ": forward=" ++ type ++ txt ", rollback" ++ [8728%Z] ++
          txt "rollback=" ++ ror]) same).

Definition validate_consistency (g : RollbackGraph) : bool * RollbackGraph :=
  let issues := concat (map (node_issues g.(rollback_nodes)) g.(forward_nodes)) in
  let ok := bool_decide (issues = []) in
  (ok, {| forward_nodes := g.(forward_nodes); rollback_nodes := g.(rollback_nodes); is_consistent := ok; consistency_issues := issues |}).
End Rollback.
