(* ===== verification/SchemaDiffSpec.v ===== *)
(** * Theorems of the order of tables

    The dependency graph mirrors its edges, and the order made from it lists every
    table and view once, each after what it needs unless it is on or behind a cycle. *)

From S2P Require Import Prelude SqlDialect SqlLex QueryExecutionSql Float64 SchemaDiff.
Import SchemaDiff.Graph.

Lemma elem_of_concat_map {A B} (f : A -> list B) l x : x ∈ concat (map f l) <-> exists y, y ∈ l /\ x ∈ f y.
Proof.
  rewrite list_elem_of_In, in_concat. split.
  - intros (p & (y & <- & Hy)%in_map_iff & Hp). exists y. by rewrite !list_elem_of_In.
  - intros (y & Hy & Hx). rewrite !list_elem_of_In in *. exists (f y). split; [by apply in_map|done].
Qed.

(** [n] needs [d]. *)
Definition needs (nodes : gmap text DependencyNode) (d n : text) : Prop := exists node, nodes !! n = Some node /\ d ∈ node.(depends_on).

(** ** The graph mirrors its edges *)

Record mirrored (nodes : gmap text DependencyNode) : Prop := {
  mirrored_once n node : nodes !! n = Some node -> NoDup node.(depends_on) /\ NoDup node.(depended_by);
  mirrored_forth n node d : nodes !! n = Some node -> d ∈ node.(depends_on) -> exists node', nodes !! d = Some node' /\ n ∈ node'.(depended_by);
  mirrored_back d node n node' : nodes !! d = Some node -> n ∈ node.(depended_by) -> nodes !! n = Some node' -> d ∈ node'.(depends_on);
}.

Lemma NoDup_push_new x l : NoDup l -> NoDup (push_new x l).
Proof. unfold push_new. case_bool_decide; [done|]. intros Hl. apply NoDup_app. split; [done|]. split; [set_solver|]. apply NoDup_singleton. Qed.

Lemma elem_of_push_new y x l : y ∈ push_new x l <-> y = x \/ y ∈ l.
Proof. unfold push_new. case_bool_decide; set_solver. Qed.

Lemma elem_of_push_if y x l (b : bool) : y ∈ l -> y ∈ (if b then push_new x l else l).
Proof. destruct b; [|done]. rewrite elem_of_push_new. by right. Qed.

Lemma lookup_add_dependent on name nodes n node : add_dependent on name nodes !! n = Some node -> exists node',
  nodes !! n = Some node' /\ node.(depends_on) = node'.(depends_on)
  /\ node.(depended_by) = (if bool_decide (n = on) then push_new name node'.(depended_by) else node'.(depended_by)).
Proof.
  unfold add_dependent. rewrite lookup_alter. case_decide as Hn.
  - subst. intros (node' & Hl & ->)%fmap_Some. exists node'. rewrite bool_decide_true by done. done.
  - intros Hl. exists node. rewrite bool_decide_false by congruence. done.
Qed.

Lemma dom_add_dependent on name nodes n : is_Some (add_dependent on name nodes !! n) <-> is_Some (nodes !! n).
Proof. unfold add_dependent. rewrite lookup_alter_is_Some. done. Qed.

Lemma dom_add_edge name on nodes n : is_Some (add_edge name on nodes !! n) <-> is_Some (nodes !! n).
Proof. unfold add_edge, add_dependency. rewrite dom_add_dependent, lookup_alter_is_Some. done. Qed.

Lemma lookup_add_dependency name on nodes n node : add_dependency name on nodes !! n = Some node -> exists node',
  nodes !! n = Some node' /\ node.(depended_by) = node'.(depended_by)
  /\ node.(depends_on) = (if bool_decide (n = name) then push_new on node'.(depends_on) else node'.(depends_on)).
Proof.
  unfold add_dependency. rewrite lookup_alter. case_decide as Hn.
  - subst. intros (node' & Hl & ->)%fmap_Some. exists node'. rewrite bool_decide_true by done. done.
  - intros Hl. exists node. rewrite bool_decide_false by congruence. done.
Qed.

(** The node of a name after an edge was added. *)
Lemma lookup_add_edge name on nodes n node : add_edge name on nodes !! n = Some node -> exists node', nodes !! n = Some node'
  /\ node.(depends_on) = (if bool_decide (n = name) then push_new on node'.(depends_on) else node'.(depends_on))
  /\ node.(depended_by) = (if bool_decide (n = on) then push_new name node'.(depended_by) else node'.(depended_by)).
Proof.
  intros (m & (node' & Hl & Hb & Ho)%lookup_add_dependency & Ho' & Hb')%lookup_add_dependent.
  exists node'. by rewrite Ho', Hb', Ho, Hb.
Qed.

Lemma add_edge_mirrored name on nodes : is_Some (nodes !! name) -> is_Some (nodes !! on) -> mirrored nodes -> mirrored (add_edge name on nodes).
Proof.
  intros Hn Ho [H1 H2 H3]. split.
  - intros n node (node' & Hl & -> & ->)%lookup_add_edge. destruct (H1 _ _ Hl).
    split; case_bool_decide; auto using NoDup_push_new.
  - intros n node d (node' & Hl & Hd & _)%lookup_add_edge Hin.
    assert (Hsome : is_Some (add_edge name on nodes !! d)).
    { apply dom_add_edge. rewrite Hd in Hin. case_bool_decide; [apply elem_of_push_new in Hin as [->|Hin]; [done|]|];
        destruct (H2 _ _ _ Hl Hin) as (? & ? & _); eauto. }
    destruct Hsome as [node'' Hd']. exists node''. split; [done|].
    destruct (lookup_add_edge _ _ _ _ _ Hd') as (m & Hm & _ & ->).
    rewrite Hd in Hin. destruct (decide (n = name)) as [->|Hne].
    + rewrite bool_decide_true in Hin by done. apply elem_of_push_new in Hin as [->|Hin].
      * rewrite bool_decide_true by done. apply elem_of_push_new. by left.
      * destruct (H2 _ _ _ Hl Hin) as (m' & Hm' & Hin'). simplify_eq. by apply elem_of_push_if.
    + rewrite bool_decide_false in Hin by done. destruct (H2 _ _ _ Hl Hin) as (m' & Hm' & Hin'). simplify_eq.
      by apply elem_of_push_if.
  - intros d node n node' (m & Hm & _ & Hb)%lookup_add_edge Hin (m' & Hm' & -> & _)%lookup_add_edge. rewrite Hb in Hin.
    destruct (decide (d = on)) as [->|Hne].
    + rewrite bool_decide_true in Hin by done. apply elem_of_push_new in Hin as [->|Hin].
      * rewrite bool_decide_true by done. apply elem_of_push_new. by left.
      * pose proof (H3 _ _ _ _ Hm Hin Hm'). by apply elem_of_push_if.
    + rewrite bool_decide_false in Hin by done. pose proof (H3 _ _ _ _ Hm Hin Hm'). by apply elem_of_push_if.
Qed.

(** A dependent that is no node. *)
Lemma add_dependent_mirrored on name nodes : nodes !! name = None -> mirrored nodes -> mirrored (add_dependent on name nodes).
Proof.
  intros Hn [H1 H2 H3]. split.
  - intros n node (node' & Hl & -> & ->)%lookup_add_dependent. destruct (H1 _ _ Hl). split; [done|]. case_bool_decide; auto using NoDup_push_new.
  - intros n node d (node' & Hl & -> & _)%lookup_add_dependent Hin. destruct (H2 _ _ _ Hl Hin) as (m & Hm & Hin').
    assert (is_Some (add_dependent on name nodes !! d)) as [m' Hm'] by (apply dom_add_dependent; eauto).
    exists m'. split; [done|]. destruct (lookup_add_dependent _ _ _ _ _ Hm') as (m'' & Hm'' & _ & ->). simplify_eq.
    by apply elem_of_push_if.
  - intros d node n node' (m & Hm & _ & Hb)%lookup_add_dependent Hin (m' & Hm' & -> & _)%lookup_add_dependent. rewrite Hb in Hin.
    apply (H3 _ _ n _ Hm); [|done]. destruct (decide (d = on)); [rewrite bool_decide_true in Hin by done|by rewrite bool_decide_false in Hin].
    apply elem_of_push_new in Hin as [->|Hin]; [congruence|done].
Qed.

(** ** What the scans add *)

(** [nodes'] has the nodes of [nodes] with at least their edges. *)
Record grows (nodes nodes' : gmap text DependencyNode) : Prop := {
  grows_dom n : is_Some (nodes' !! n) <-> is_Some (nodes !! n);
  grows_needs d n : needs nodes d n -> needs nodes' d n;
}.

#[global] Instance grows_preorder : PreOrder grows.
Proof. split; [by split|]. intros a b c [H1 H2] [H3 H4]. split; intros; [by rewrite H3|auto]. Qed.

Lemma add_edge_grows name on nodes : grows nodes (add_edge name on nodes).
Proof.
  split; [apply dom_add_edge|]. intros d n (node & Hl & Hin).
  assert (is_Some (add_edge name on nodes !! n)) as [node' Hl'] by (apply dom_add_edge; eauto).
  exists node'. split; [done|]. destruct (lookup_add_edge _ _ _ _ _ Hl') as (m & Hm & -> & _). simplify_eq.
  by apply elem_of_push_if.
Qed.

Lemma add_edge_needs name on nodes : is_Some (nodes !! name) -> needs (add_edge name on nodes) on name.
Proof.
  intros Hn. assert (is_Some (add_edge name on nodes !! name)) as [node' Hl'] by by apply dom_add_edge.
  exists node'. split; [done|]. destruct (lookup_add_edge _ _ _ _ _ Hl') as (m & Hm & -> & _).
  rewrite bool_decide_true by done. apply elem_of_push_new. by left.
Qed.

Lemma add_dependent_grows on name nodes : grows nodes (add_dependent on name nodes).
Proof.
  split; [apply dom_add_dependent|]. intros d n (node & Hl & Hin).
  assert (is_Some (add_dependent on name nodes !! n)) as [node' Hl'] by (apply dom_add_dependent; eauto).
  exists node'. split; [done|]. destruct (lookup_add_dependent _ _ _ _ _ Hl') as (m & Hm & -> & _). by simplify_eq.
Qed.

(** A fold whose steps keep an invariant, on elements that satisfy [P]. *)
Lemma fold_left_grows {A} (f : gmap text DependencyNode -> A -> gmap text DependencyNode) (P : A -> Prop) (l : list A) nodes :
  (forall nodes' x, grows nodes nodes' -> P x -> mirrored nodes' -> grows nodes' (f nodes' x) /\ mirrored (f nodes' x)) ->
  Forall P l -> mirrored nodes -> grows nodes (fold_left f l nodes) /\ mirrored (fold_left f l nodes).
Proof.
  intros Hf HP Hm. assert (Hg : grows nodes nodes) by done. revert Hg Hm. generalize nodes at 2 3 5 6 as acc.
  induction HP as [|x l Hx HP IH]; intros acc Hg Hm; simpl; [done|]. destruct (Hf acc x Hg Hx Hm) as [Hg' Hm'].
  apply IH; [by etrans|done].
Qed.

Lemma add_edges_grows name refs nodes : is_Some (nodes !! name) -> Forall (fun d => is_Some (nodes !! d)) refs -> mirrored nodes ->
  grows nodes (add_edges name refs nodes) /\ mirrored (add_edges name refs nodes).
Proof.
  intros Hn Hr Hm. apply (fold_left_grows _ (fun d => is_Some (nodes !! d))); [|done|done]. intros nodes' d Hg Hd Hm'.
  split; [apply add_edge_grows|]. apply add_edge_mirrored; [by apply (grows_dom _ _ Hg)..|done].
Qed.

Lemma add_edges_only_grows name refs nodes : grows nodes (add_edges name refs nodes).
Proof.
  unfold add_edges. revert nodes. induction refs as [|r refs IH]; intros nodes; simpl; [done|].
  etrans; [apply add_edge_grows|apply IH].
Qed.

Lemma add_edges_needs name refs nodes d : is_Some (nodes !! name) -> d ∈ refs -> needs (add_edges name refs nodes) d name.
Proof.
  revert nodes. induction refs as [|r refs IH]; intros nodes Hn Hd; [by apply elem_of_nil in Hd|]. simpl.
  apply elem_of_cons in Hd as [->|Hd].
  - apply (grows_needs _ _ (add_edges_only_grows _ _ _)). by apply add_edge_needs.
  - apply IH; [by apply dom_add_edge|done].
Qed.

Lemma scan_details_grows names details refs nodes :
  Forall (fun n => is_Some (nodes !! n)) names -> (forall n d, details !! n = Some d -> Forall (fun r => is_Some (nodes !! r)) (refs d)) -> mirrored nodes ->
  grows nodes (scan_details names details refs nodes) /\ mirrored (scan_details names details refs nodes).
Proof.
  intros Hn Hr Hm. apply (fold_left_grows _ (fun n => is_Some (nodes !! n))); [|done|done]. intros nodes' n Hg Hs Hm'.
  destruct (details !! n) as [d|] eqn:Ed; [|done]. apply add_edges_grows; [by apply (grows_dom _ _ Hg)| |done].
  eapply Forall_impl; [by apply (Hr n)|]. intros r. by apply (grows_dom _ _ Hg).
Qed.

Lemma scan_details_only_grows names details refs nodes : grows nodes (scan_details names details refs nodes).
Proof.
  unfold scan_details. revert nodes. induction names as [|n names IH]; intros nodes; simpl; [done|].
  etrans; [|apply IH]. destruct (details !! n); [apply add_edges_only_grows|done].
Qed.

Lemma scan_details_needs names details refs nodes n detail d :
  is_Some (nodes !! n) -> n ∈ names -> details !! n = Some detail -> d ∈ refs detail -> needs (scan_details names details refs nodes) d n.
Proof.
  intros Hs Hin Hd Hr. revert nodes Hs. induction names as [|n' names IH]; intros nodes Hs; [by apply elem_of_nil in Hin|].
  unfold scan_details. simpl. fold (scan_details names details refs). apply elem_of_cons in Hin as [<-|Hin].
  - rewrite Hd. apply (grows_needs _ _ (scan_details_only_grows _ _ _ _)). by apply add_edges_needs.
  - apply IH; [done|]. destruct (details !! n'); [|done]. by apply (grows_dom _ _ (add_edges_only_grows _ _ _)).
Qed.

Section graph.
Context `{UnicodeCase} `{HashOrderLaws}.

Lemma elem_of_set_elements n x l : x ∈ set_elements n l <-> x ∈ l.
Proof. unfold set_elements. rewrite hash_order_perm, elem_of_elements. apply elem_of_list_to_set. Qed.

Lemma extract_ddl_references_known n sql known x : x ∈ extract_ddl_references n sql known -> x ∈ known.
Proof. unfold extract_ddl_references. rewrite elem_of_bool_filter, elem_of_set_elements. tauto. Qed.

Lemma referenced_table_known n names ic fk x : referenced_table n names ic fk = Some x -> x ∈ names.
Proof.
  unfold referenced_table. case_bool_decide; [by intros [= <-]|]. destruct ic; [|done].
  destruct (List.filter _ _) as [|y [|]] eqn:E; [done| |done]. intros [= <-].
  assert (y ∈ List.filter (fun name => eq_ignore_ascii_case name fk.(ref_table)) (set_elements n names)) as Hy by (rewrite E; set_solver).
  apply elem_of_bool_filter in Hy as [Hy _]. by apply elem_of_set_elements in Hy.
Qed.

Lemma initial_nodes_lookup tables n node : initial_nodes tables !! n = Some node -> node = {| depends_on := []; depended_by := [] |}.
Proof.
  unfold initial_nodes. intros Hl%elem_of_list_to_map_2. apply list_elem_of_fmap in Hl as (t & [= -> ->] & _). done.
Qed.

Lemma initial_nodes_dom tables n : is_Some (initial_nodes tables !! n) <-> n ∈ map table_name tables.
Proof.
  unfold initial_nodes. rewrite <- not_eq_None_Some, <- not_elem_of_list_to_map. change (list_fmap _ _ fst) with (map (A := text * DependencyNode) fst).
  rewrite map_map. split; [apply dec_stable|tauto].
Qed.

Lemma initial_nodes_mirrored tables : mirrored (initial_nodes tables).
Proof.
  split; intros *; intros ->%initial_nodes_lookup; simpl; [split; constructor|by intros ?%elem_of_nil..].
Qed.

Lemma names_where_tables p tables : names_where p tables ⊆ map table_name tables.
Proof. intros x. unfold names_where. rewrite !list_elem_of_fmap. intros (t & -> & Ht%elem_of_bool_filter). exists t. tauto. Qed.

Lemma fk_refs_known names ic detail : Forall (.∈ names) (foreign_key_refs names ic detail).
Proof.
  apply Forall_forall. intros x (fk & _ & Hfk)%list_elem_of_omap. by apply referenced_table_known in Hfk.
Qed.

Lemma trigger_refs_known names detail : Forall (.∈ names) (trigger_refs names detail).
Proof.
  apply Forall_forall. intros x. unfold trigger_refs. rewrite elem_of_concat_map. intros (t & _ & Hx). destruct (statement t); [|by apply elem_of_nil in Hx].
  by apply extract_ddl_references_known in Hx.
Qed.

Lemma scan_functions_grows names table_names functions nodes :
  Forall (fun n => nodes !! n = None) names -> mirrored nodes ->
  grows nodes (scan_functions names table_names functions nodes) /\ mirrored (scan_functions names table_names functions nodes).
Proof.
  intros Hn Hm. apply (fold_left_grows _ (fun n => nodes !! n = None)); [|done|done]. intros nodes' n Hg Hs Hm'.
  destruct (functions !! n) as [f|]; [|done]. apply (fold_left_grows _ (fun _ => True)); [|by apply Forall_true|done].
  intros nodes'' x Hg' _ Hm''. split; [apply add_dependent_grows|]. apply add_dependent_mirrored; [|done].
  apply eq_None_not_Some. intros Hx%(grows_dom _ _ Hg')%(grows_dom _ _ Hg). rewrite Hs in Hx. by apply is_Some_None in Hx.
Qed.

(** The nodes of a graph are the tables and views, the edges are mirrored, and every
    foreign key to a table is an edge. *)
Lemma build_nodes_spec details tables functions ic :
  (forall f, f ∈ functions -> function_name f ∉ map table_name tables) ->
  let nodes := build_nodes details tables functions ic in
  let table_names := names_where (fun t => negb (is_view t)) tables in
  mirrored nodes /\ (forall n, is_Some (nodes !! n) <-> n ∈ map table_name tables)
  /\ forall name detail fk d, name ∈ table_names -> hash_map detail_name (fun d => d) details !! name = Some detail -> fk ∈ detail.(foreign_keys) ->
       referenced_table 1 table_names ic fk = Some d -> needs nodes d name.
Proof.
  intros Hf. unfold build_nodes. set (tn := names_where (fun t => negb (is_view t)) tables). set (vn := names_where is_view tables).
  set (dm := hash_map _ _ details). set (n0 := initial_nodes tables).
  assert (Hsome : forall l nodes, grows n0 nodes -> l ⊆ map table_name tables -> Forall (fun n => is_Some (nodes !! n)) l).
  { intros l nodes Hg Hl. apply Forall_forall. intros x Hx. apply (grows_dom _ _ Hg), initial_nodes_dom. auto. }
  assert (Htn : tn ⊆ map table_name tables) by apply names_where_tables.
  assert (Hset : forall n l, l ⊆ map table_name tables -> set_elements n l ⊆ map table_name tables).
  { intros n l Hl x Hx%elem_of_set_elements. auto. }
  assert (Hin : forall l nodes, grows n0 nodes -> Forall (.∈ tn) l -> Forall (fun n => is_Some (nodes !! n)) l).
  { intros l nodes Hg Hl. apply Hsome; [done|]. rewrite Forall_forall in Hl. set_solver. }
  destruct (scan_details_grows (set_elements 4 tn) dm (foreign_key_refs tn ic) n0) as [G1 M1];
    [apply Hsome; [reflexivity|by apply Hset]|intros; apply Hin; [reflexivity|apply fk_refs_known]|apply initial_nodes_mirrored|].
  set (n1 := scan_details (set_elements 4 tn) dm (foreign_key_refs tn ic) n0) in *.
  destruct (scan_details_grows (set_elements 5 vn) dm
    (fun d => match d.(ddl) with Some ddl => extract_ddl_references 6 ddl tn | None => [] end) n1) as [G2 M2];
    [apply Hsome; [done|apply Hset, names_where_tables]| |done|].
  { intros n d _. apply Hin; [done|]. apply Forall_forall. intros x. destruct (ddl d); [apply extract_ddl_references_known|by intros ?%elem_of_nil]. }
  set (n2 := scan_details (set_elements 5 vn) dm _ n1) in *.
  destruct (scan_details_grows (set_elements 7 (map table_name tables)) dm (trigger_refs tn) n2) as [G3 M3];
    [apply Hsome; [by etrans|by apply Hset]|intros; apply Hin; [by etrans|apply trigger_refs_known]|done|].
  set (n3 := scan_details (set_elements 7 (map table_name tables)) dm _ n2) in *.
  assert (G03 : grows n0 n3) by (etrans; [exact G1|]; etrans; [exact G2|exact G3]).
  destruct (scan_functions_grows (set_elements 8 (map function_name functions)) tn (hash_map function_name (fun f => f) functions) n3) as [G4 M4]; [|done|].
  { apply Forall_forall. intros x Hx%elem_of_set_elements. apply list_elem_of_fmap in Hx as (f & -> & Hx).
    apply eq_None_not_Some. intros Hs%(grows_dom _ _ G03)%initial_nodes_dom. by apply (Hf f). }
  split; [done|]. split.
  - intros n. rewrite (grows_dom _ _ G4), (grows_dom _ _ G03). apply initial_nodes_dom.
  - intros name detail fk d Hname Hd Hfk Hr. apply (grows_needs _ _ G4), (grows_needs _ _ G3), (grows_needs _ _ G2).
    apply (scan_details_needs _ _ _ _ _ detail); [by apply initial_nodes_dom, Htn|by apply elem_of_set_elements|done|].
    apply list_elem_of_omap. eauto.
Qed.
End graph.

(** ** The order *)

Lemma nodup_nodes_length (nodes : gmap text DependencyNode) (l : list text) :
  NoDup l -> Forall (fun n => is_Some (nodes !! n)) l -> length l <= size nodes.
Proof.
  intros Hl Hn. rewrite <- (size_list_to_set (C := gset text) l Hl), <- (size_dom (D := gset text)). apply subseteq_size.
  intros x Hx%elem_of_list_to_set. rewrite Forall_forall in Hn. by apply elem_of_dom, Hn.
Qed.

(** What releasing the dependents of a node does to the degrees and to the queue. *)
Lemma fold_release deps degrees queue : NoDup deps ->
  (forall n, (fold_left release deps (degrees, queue)).1 !! n = if bool_decide (n ∈ deps) then (fun d => wrap (d - 1)) <$> degrees !! n else degrees !! n)
  /\ (fold_left release deps (degrees, queue)).2 =
       queue ++ List.filter (fun n => bool_decide ((fun d => wrap (d - 1)) <$> degrees !! n = Some 0%Z)) deps.
Proof.
  intros Hd. revert degrees queue. induction Hd as [|x deps Hx Hd IH]; intros degrees queue; [simpl; rewrite app_nil_r; done|].
  cbn [fold_left List.filter]. unfold release at 2 4. simpl. destruct (degrees !! x) as [deg|] eqn:Ex.
  - destruct (IH (<[x := wrap (deg - 1)]> degrees) (if (wrap (deg - 1) =? 0)%Z then queue ++ [x] else queue)) as [H1 H2]. split.
    + intros n. rewrite H1. destruct (decide (n = x)) as [->|Hne].
      * rewrite bool_decide_false, bool_decide_true by set_solver. by rewrite lookup_insert_eq, Ex.
      * rewrite lookup_insert_ne by done. by replace (bool_decide (n ∈ x :: deps)) with (bool_decide (n ∈ deps)) by (apply bool_decide_ext; set_solver).
    + rewrite H2. rewrite (List.filter_ext_in _ (fun n => bool_decide ((fun d => wrap (d - 1)) <$> degrees !! n = Some 0%Z))).
      * simpl. destruct (wrap (deg - 1) =? 0)%Z eqn:E.
        -- apply Z.eqb_eq in E. rewrite bool_decide_true by (by rewrite E). by rewrite <- app_assoc.
        -- apply Z.eqb_neq in E. rewrite bool_decide_false by congruence. done.
      * intros n Hn%list_elem_of_In. by rewrite lookup_insert_ne by (intros ->; done).
  - destruct (IH degrees queue) as [H1 H2]. split.
    + intros n. rewrite H1. destruct (decide (n = x)) as [->|Hne].
      * rewrite bool_decide_false, bool_decide_true by set_solver. by rewrite Ex.
      * by replace (bool_decide (n ∈ x :: deps)) with (bool_decide (n ∈ deps)) by (apply bool_decide_ext; set_solver).
    + rewrite H2. simpl. done.
Qed.

Definition undone (result : list text) (x : text) : bool := negb (bool_decide (x ∈ result)).
Definition left_over (result : list text) (node : DependencyNode) : nat := length (List.filter (undone result) node.(depends_on)).

Lemma left_over_snoc result name node : NoDup node.(depends_on) -> name ∉ result ->
  left_over result node = left_over (result ++ [name]) node + (if bool_decide (name ∈ node.(depends_on)) then 1 else 0).
Proof.
  unfold left_over. generalize (depends_on node) as l. intros l Hl Hr. induction Hl as [|x l Hx Hl IH]; [done|]. simpl.
  destruct (decide (x = name)) as [->|Hne].
  - assert (undone result name = true) as -> by (unfold undone; by rewrite bool_decide_false).
    assert (undone (result ++ [name]) name = false) as -> by (unfold undone; rewrite bool_decide_true by set_solver; done).
    rewrite bool_decide_false in IH by done. rewrite bool_decide_true by set_solver. simpl. lia.
  - assert (undone (result ++ [name]) x = undone result x) as -> by (unfold undone; f_equal; apply bool_decide_ext; set_solver).
    replace (bool_decide (name ∈ x :: l)) with (bool_decide (name ∈ l)) by (apply bool_decide_ext; set_solver).
    destruct (undone result x); simpl; lia.
Qed.

Lemma left_over_zero result node : left_over result node = 0 <-> forall d, d ∈ node.(depends_on) -> d ∈ result.
Proof.
  unfold left_over. rewrite length_zero_iff_nil. split.
  - intros Hf d Hd. apply dec_stable. intros Hn. assert (d ∈ List.filter (undone result) node.(depends_on)) as Hin.
    { apply elem_of_bool_filter. split; [done|]. unfold undone. by rewrite bool_decide_false. }
    rewrite Hf in Hin. by apply elem_of_nil in Hin.
  - intros Hall. destruct (List.filter _ _) as [|x l] eqn:E; [done|].
    assert (x ∈ List.filter (undone result) node.(depends_on)) as [Hx Hu]%elem_of_bool_filter by (rewrite E; set_solver).
    unfold undone in Hu. rewrite bool_decide_true in Hu by auto. done.
Qed.

(** The loop over the queue, between two turns. *)
Record sorting (nodes : gmap text DependencyNode) (degrees : gmap text Z) (queue result : list text) : Prop := {
  sorting_degree n : degrees !! n = (fun node => Z.of_nat (left_over result node)) <$> nodes !! n;
  sorting_once : NoDup (result ++ queue);
  sorting_free n : n ∈ result ++ queue <-> degrees !! n = Some 0%Z;
  sorting_order pre n post d : result = pre ++ n :: post -> needs nodes d n -> d ∈ pre;
}.

Section sort.
Context (nodes : gmap text DependencyNode) (Hm : mirrored nodes) (Hsize : (Z.of_nat (size nodes) < 2 ^ 64)%Z).

Lemma depends_on_length n node : nodes !! n = Some node -> length node.(depends_on) <= size nodes.
Proof.
  intros Hn. apply nodup_nodes_length; [by apply (mirrored_once _ Hm n)|]. apply Forall_forall. intros d Hd.
  destruct (mirrored_forth _ Hm _ _ _ Hn Hd) as (? & ? & _). eauto.
Qed.

Lemma left_over_bound result n node : nodes !! n = Some node -> (Z.of_nat (left_over result node) < 2 ^ 64)%Z.
Proof.
  intros Hn. pose proof (depends_on_length _ _ Hn). unfold left_over.
  pose proof (List.filter_length_le (undone result) node.(depends_on)). lia.
Qed.

Lemma wrap_pred k : (0 < k < 2 ^ 64)%Z -> wrap (k - 1) = (k - 1)%Z.
Proof. intros Hk. unfold wrap. apply Z.mod_small. lia. Qed.

Definition dependents (name : text) : list text := match nodes !! name with Some node => node.(depended_by) | None => [] end.

Lemma sorting_step degrees name queue result : sorting nodes degrees (name :: queue) result ->
  sorting nodes (fold_left release (dependents name) (degrees, queue)).1 (fold_left release (dependents name) (degrees, queue)).2 (result ++ [name]).
Proof.
  intros [Hdeg Honce Hfree Horder].
  assert (Hname : degrees !! name = Some 0%Z) by (apply Hfree; set_solver).
  assert (exists node, nodes !! name = Some node /\ left_over result node = 0) as (node & Hnode & Hzero).
  { rewrite Hdeg in Hname. apply fmap_Some in Hname as (node & ? & ?). exists node. split; [done|lia]. }
  assert (Hdone : name ∉ result) by (apply NoDup_app in Honce as (_ & Hd & _); intros Hr; by apply (Hd name Hr); left).
  assert (Hdeps : NoDup (dependents name)) by (unfold dependents; rewrite Hnode; by apply (mirrored_once _ Hm name)).
  assert (Hback : forall n node', nodes !! n = Some node' -> (n ∈ dependents name <-> name ∈ node'.(depends_on))).
  { intros n node' Hn. unfold dependents. rewrite Hnode. split; [by intros Hin; apply (mirrored_back _ Hm _ _ _ _ Hnode Hin Hn)|].
    intros Hin. destruct (mirrored_forth _ Hm _ _ _ Hn Hin) as (? & ? & ?). by simplify_eq. }
  destruct (fold_release (dependents name) degrees queue Hdeps) as [Hdeg' Hqueue'].
  assert (Hpositive : forall n, n ∈ dependents name -> degrees !! n <> Some 0%Z).
  { intros n Hin Hz. rewrite Hdeg in Hz. apply fmap_Some in Hz as (node' & Hn & Hz). assert (left_over result node' = 0) as Hl by lia.
    rewrite left_over_zero in Hl. apply Hdone, Hl. by apply (Hback n). }
  split.
  - intros n. rewrite Hdeg', Hdeg. destruct (nodes !! n) as [node'|] eqn:En; [|by case_bool_decide]. simpl.
    pose proof (left_over_snoc result name node' (proj1 (mirrored_once _ Hm _ _ En)) Hdone) as Hs.
    pose proof (left_over_bound result _ _ En) as Hb. rewrite <- (bool_decide_ext _ _ (Hback n node' En)) in Hs.
    destruct (bool_decide (n ∈ dependents name)); simpl; f_equal; [rewrite wrap_pred by lia|]; lia.
  - rewrite Hqueue', <- app_assoc. simpl.
    replace (result ++ name :: queue ++ _) with ((result ++ name :: queue) ++ List.filter (fun n => bool_decide ((fun d => wrap (d - 1)) <$> degrees !! n = Some 0%Z)) (dependents name))
      by (by rewrite <- app_assoc).
    apply NoDup_app. split; [done|]. split; [|by apply NoDup_ListNoDup, List.NoDup_filter, NoDup_ListNoDup].
    intros x Hx [Hin _]%elem_of_bool_filter. apply (Hpositive x Hin). by apply Hfree.
  - intros n. rewrite Hqueue', Hdeg'. replace ((result ++ [name]) ++ queue ++ _) with ((result ++ name :: queue) ++ List.filter (fun n => bool_decide ((fun d => wrap (d - 1)) <$> degrees !! n = Some 0%Z)) (dependents name))
      by (by rewrite <- !app_assoc).
    rewrite elem_of_app, Hfree, elem_of_bool_filter, bool_decide_eq_true. specialize (Hpositive n). case_bool_decide; [tauto|]. tauto.
  - intros pre n post d Heq Hneed. destruct post as [|p post] using rev_ind.
    + apply app_inj_tail in Heq as [-> ->]. destruct Hneed as (node' & Hn & Hin). simplify_eq. by apply (proj1 (left_over_zero _ _) Hzero).
    + rewrite app_comm_cons, app_assoc in Heq. apply app_inj_tail in Heq as [Heq _]. by apply (Horder pre n post).
Qed.

Lemma sorting_length degrees queue result : sorting nodes degrees queue result -> length (result ++ queue) <= size nodes.
Proof.
  intros [Hdeg Honce Hfree _]. apply nodup_nodes_length; [done|]. apply Forall_forall. intros n Hn. apply Hfree in Hn.
  rewrite Hdeg in Hn. by apply fmap_Some in Hn as (? & -> & _).
Qed.

(** With a turn for every node that is left the loop ends with an empty queue. *)
Lemma sort_loop_sorts fuel degrees queue result : size nodes <= fuel + length result -> sorting nodes degrees queue result ->
  exists degrees' result', sort_loop fuel nodes degrees queue result = Some result' /\ sorting nodes degrees' [] result'.
Proof.
  revert degrees queue result. induction fuel as [|fuel IH]; intros degrees queue result Hf Hs; destruct queue as [|name queue]; [eauto| |eauto|].
  - pose proof (sorting_length _ _ _ Hs) as Hl. rewrite length_app in Hl. simpl in *. lia.
  - cbn [sort_loop]. fold (dependents name). pose proof (sorting_step _ _ _ _ Hs) as Hs'.
    destruct (fold_left release (dependents name) (degrees, queue)) as [degrees' queue']. apply (IH degrees' queue'); [|done].
    rewrite length_app. simpl. lia.
Qed.

(** What is not behind a cycle is done. *)
Lemma sorted_well_founded degrees result n : sorting nodes degrees [] result -> Acc (needs nodes) n -> is_Some (nodes !! n) -> n ∈ result.
Proof.
  intros [Hdeg _ Hfree _] Hacc. induction Hacc as [n _ IH]. intros [node Hn].
  rewrite <- (app_nil_r result). apply Hfree. rewrite Hdeg, Hn. simpl.
  rewrite (proj2 (left_over_zero result node)); [done|]. intros d Hd. apply IH; [by exists node|].
  destruct (mirrored_forth _ Hm _ _ _ Hn Hd) as (? & ? & _). eauto.
Qed.
End sort.

Lemma nodup_split {A} (a a' : list A) x b b' : NoDup (a ++ x :: b) -> a ++ x :: b = a' ++ x :: b' -> a = a'.
Proof.
  revert a'. induction a as [|y a IH]; intros [|y' a'] Hd Heq; simpl in *; [done| | |].
  - injection Heq as <- ->. apply NoDup_cons in Hd as [Hx _]. exfalso. set_solver.
  - injection Heq as -> <-. apply NoDup_cons in Hd as [Hx _]. exfalso. set_solver.
  - injection Heq as -> Heq. apply NoDup_cons in Hd as [_ Hd]. f_equal. by apply IH.
Qed.

Section order.
Context `{HashOrderLaws} (nodes : gmap text DependencyNode) (Hm : mirrored nodes) (Hsize : (Z.of_nat (size nodes) < 2 ^ 64)%Z).

Lemma elem_of_node_names k n : n ∈ node_names k nodes <-> is_Some (nodes !! n).
Proof.
  unfold node_names. rewrite hash_order_perm, list_elem_of_fmap. split.
  - intros ([n' node] & -> & Hn%elem_of_map_to_list). eauto.
  - intros [node Hn]. exists (n, node). by rewrite elem_of_map_to_list.
Qed.

Lemma node_names_once k : NoDup (node_names k nodes).
Proof. unfold node_names. rewrite hash_order_perm. apply NoDup_fst_map_to_list. Qed.

Lemma start_sorting : sorting nodes (in_degrees nodes) (List.filter (fun n => bool_decide (in_degrees nodes !! n = Some 0%Z)) (node_names 9 nodes)) [].
Proof.
  assert (Hdeg : forall n, in_degrees nodes !! n = (fun node => Z.of_nat (left_over [] node)) <$> nodes !! n).
  { intros n. unfold in_degrees. rewrite lookup_fmap. destruct (nodes !! n) as [node|] eqn:E; [|done]. simpl. f_equal.
    assert (left_over [] node = length node.(depends_on)) as ->.
    { unfold left_over. f_equal. rewrite (List.filter_ext _ (fun _ => true)); [apply List.filter_true|]. intros x. unfold undone.
      by rewrite bool_decide_false by apply not_elem_of_nil. }
    unfold wrap. apply Z.mod_small. pose proof (depends_on_length nodes Hm _ _ E). lia. }
  split; simpl.
  - done.
  - apply NoDup_ListNoDup, List.NoDup_filter, NoDup_ListNoDup, node_names_once.
  - intros n. rewrite elem_of_bool_filter, bool_decide_eq_true, elem_of_node_names. split; [tauto|]. intros Hz. split; [|done].
    rewrite Hdeg in Hz. by apply fmap_Some in Hz as (? & -> & _).
  - intros pre n post d Heq. by destruct pre.
Qed.

(** Every node is listed once, after what it needs unless it is on or behind a cycle. *)
Lemma build_order_spec : exists order, build_order nodes = Some order /\ NoDup order /\ (forall n, n ∈ order <-> is_Some (nodes !! n))
  /\ forall pre n post d, order = pre ++ n :: post -> Acc (needs nodes) n -> needs nodes d n -> d ∈ pre.
Proof.
  destruct (sort_loop_sorts nodes Hm Hsize (size nodes) (in_degrees nodes) _ [] ltac:(simpl; lia) start_sorting) as (degrees & result & Hl & Hs).
  unfold build_order, topological_sort. rewrite Hl. set (rest := List.filter _ (node_names 10 nodes)).
  assert (Hrest : forall n, n ∈ rest <-> is_Some (nodes !! n) /\ n ∉ result).
  { intros n. unfold rest. rewrite elem_of_bool_filter, negb_true_iff, bool_decide_eq_false, elem_of_node_names. done. }
  destruct Hs as [Hdeg Honce Hfree Horder] eqn:E. clear E. rewrite app_nil_r in Honce.
  assert (Hdom : forall n, n ∈ result -> is_Some (nodes !! n)).
  { intros n Hn. rewrite <- (app_nil_r result) in Hn. apply Hfree in Hn. rewrite Hdeg in Hn. by apply fmap_Some in Hn as (? & -> & _). }
  eexists. split; [reflexivity|].
  assert (Hsplit : exists tail, (if bool_decide (length result = size nodes) then result else result ++ rest) = result ++ tail
    /\ NoDup tail /\ forall n, n ∈ tail <-> is_Some (nodes !! n) /\ n ∉ result).
  { case_bool_decide as Hlen.
    - exists []. rewrite app_nil_r. split; [done|]. split; [constructor|]. intros n. split; [by intros ?%elem_of_nil|]. intros [Hn Hr]. exfalso.
      assert (length (n :: result) <= size nodes) as Hle; [|simpl in Hle; lia].
      apply nodup_nodes_length; [by constructor|]. constructor; [done|]. by apply Forall_forall.
    - exists rest. split; [done|]. split; [|done]. apply NoDup_ListNoDup, List.NoDup_filter, NoDup_ListNoDup, node_names_once. }
  destruct Hsplit as (tail & -> & Htail & Hmem). split; [|split].
  - apply NoDup_app. split; [done|]. split; [|done]. intros n Hn Ht. by apply Hmem in Ht as [_ ?].
  - intros n. rewrite elem_of_app, Hmem. split; [naive_solver|]. intros Hn. destruct (decide (n ∈ result)); tauto.
  - intros pre n post d Heq Hacc Hneed.
    assert (n ∈ result) as (pre' & post' & Hr)%list_elem_of_split.
    { apply (sorted_well_founded nodes Hm degrees); [done|done|]. destruct Hneed as (? & ? & _). eauto. }
    assert (Hd : NoDup (result ++ tail)) by (apply NoDup_app; split; [done|]; split; [|done]; intros x Hx Ht; by apply Hmem in Ht as [_ ?]).
    rewrite Hr, <- app_assoc in Heq, Hd. simpl in Heq, Hd. apply (Horder pre' n post' d) in Hr; [|done].
    by rewrite (nodup_split pre' pre n _ post Hd Heq) in Hr.
Qed.
End order.

(** A schema whose views and keys need [users] and [orders], with a table that refers
    to itself; hash maps in any fixed order. *)
Module SampleGraph.
#[local] Instance ascii_case : UnicodeCase := {| to_lowercase := ascii_lower; to_uppercase := ascii_upper |}.
#[local] Instance in_order : HashOrder := {| hash_order _ l := reverse l |}.
#[local] Instance in_order_laws : HashOrderLaws.
Proof. split. intros n l. simpl. apply reverse_Permutation. Qed.

Definition key (column table : string) : ForeignKeyInfo :=
  {| fk_name := txt "fk_" ++ txt table; fk_column := txt column; ref_schema := None; ref_table := txt table; ref_column := txt "id";
     on_update := None; on_delete := None |}.
Definition detail (name : string) (keys : list ForeignKeyInfo) (ddl : option text) : TableSchemaDetail :=
  {| detail_name := txt name; columns := []; indexes := []; foreign_keys := keys; triggers := []; ddl := ddl |}.
Definition table (name type : string) : TableInfo :=
  {| table_name := txt name; table_type := txt type; table_comment := None; parent_schema := None |}.

Definition tables : list TableInfo := [table "recent" "VIEW"; table "items" "BASE TABLE"; table "orders" "BASE TABLE"; table "users" "BASE TABLE"].
Definition details : list TableSchemaDetail :=
  [detail "items" [key "order_id" "orders"] None; detail "orders" [key "user_id" "users"] None; detail "users" [] None;
   detail "recent" [] (Some (txt "CREATE VIEW recent AS SELECT * FROM orders"))].

Example sample_order : build_order (build_nodes details tables [] false) = Some (map txt ["users"; "orders"; "items"; "recent"]%string)
  \/ build_order (build_nodes details tables [] false) = Some (map txt ["users"; "orders"; "recent"; "items"]%string).
Proof. vm_compute. auto. Qed.

(** A table that refers to itself is behind a cycle, and so is every table that refers
    to it: both come in the order of the hash map. *)
Definition tree_tables : list TableInfo := [table "category" "BASE TABLE"; table "product" "BASE TABLE"].
Definition tree_details : list TableSchemaDetail := [detail "category" [key "parent" "category"] None; detail "product" [key "category_id" "category"] None].

Example self_reference_loses_the_order : build_order (build_nodes tree_details tree_tables [] false) = Some (map txt ["product"; "category"]%string).
Proof. vm_compute. reflexivity. Qed.
End SampleGraph.

(** C22. The order in which tables are created lists every table and view of the
    schema once, and a table that is not on or behind a cycle comes after everything
    it needs: after the tables its foreign keys refer to, and after what the scan of
    views and triggers found.  It holds for every order in which the hash maps are
    iterated, for functions that have no table's name. *)
Theorem build_order_respects_dependencies `{UnicodeCase} `{HashOrderLaws} details tables functions ignore_case :
  (forall f, f ∈ functions -> function_name f ∉ map table_name tables) -> (Z.of_nat (length tables) < 2 ^ 64)%Z ->
  let nodes := build_nodes details tables functions ignore_case in
  let table_names := names_where (fun t => negb (is_view t)) tables in
  (exists order, build_order nodes = Some order /\ drop_order nodes = Some (reverse order)
    /\ NoDup order /\ (forall n, n ∈ order <-> n ∈ map table_name tables)
    /\ forall pre n post d, order = pre ++ n :: post -> Acc (needs nodes) n -> needs nodes d n -> d ∈ pre)
  /\ forall name detail fk, name ∈ table_names -> hash_map detail_name (fun d => d) details !! name = Some detail ->
       fk ∈ detail.(foreign_keys) -> fk.(ref_table) ∈ table_names -> needs nodes fk.(ref_table) name.
Proof.
  intros Hf Hlen nodes table_names. destruct (build_nodes_spec details tables functions ignore_case Hf) as (Hm & Hdom & Hfk).
  fold nodes in Hm, Hdom, Hfk. fold table_names in Hfk. split.
  - assert (Hsize : size nodes <= length tables).
    { rewrite <- (length_map table_name), <- (size_dom (D := gset text)). apply submseteq_length, NoDup_submseteq; [apply NoDup_elements|].
      intros n Hn%elem_of_elements%elem_of_dom. by apply Hdom. }
    destruct (build_order_spec nodes Hm ltac:(lia)) as (order & Ho & Hd & Hin & Hpos). exists order.
    unfold drop_order. rewrite Ho. split; [done|]. split; [done|]. split; [done|]. split; [|done]. intros n. by rewrite Hin.
  - intros name detail fk Hn Hd Hin Hr. apply (Hfk name detail fk); [done..|]. unfold referenced_table. by rewrite bool_decide_true.
Qed.

Lemma build_order_respects_dependencies_witness :
  exists order, @build_order SampleGraph.in_order (@build_nodes SampleGraph.ascii_case SampleGraph.in_order SampleGraph.details SampleGraph.tables [] false) = Some order
    /\ forall n, n ∈ order <-> n ∈ map table_name SampleGraph.tables.
Proof.
  destruct (@build_order_respects_dependencies SampleGraph.ascii_case SampleGraph.in_order SampleGraph.in_order_laws SampleGraph.details SampleGraph.tables []
    false ltac:(intros f Hf; by apply elem_of_nil in Hf) ltac:(reflexivity)) as ((order & Ho & _ & _ & Hin & _) & _).
  exists order. split; [exact Ho|exact Hin].
Defined.
