(* ===== verification/SchemaCompareSpec.v ===== *)
(** * Theorems of the comparison of schemas

    Tables are matched one to one, a schema compared with itself has no differences,
    the differences of columns account for every column once, and what the check of a
    rollback accepts. *)

From S2P Require Import Prelude Utf8 SqlDialect SqlLex QueryExecutionSql Float64 SchemaDiff SchemaCompare SchemaDiffSpec.
From Stdlib Require Import SpecFloat.
Import SchemaDiff.Diff SchemaCompare.TableCharset SchemaCompare.Schema.

(** What every step of a fold keeps. *)
Lemma fold_left_keeps {A B} (P : A -> Prop) (f : A -> B -> A) l a : P a -> (forall a x, x ∈ l -> P a -> P (f a x)) -> P (fold_left f l a).
Proof.
  revert a. induction l as [|x l IH]; intros a Ha Hf; simpl; [done|].
  apply IH; [apply Hf; [left|done]|]. intros a' y Hy. apply Hf. by right.
Qed.

(** What the step at [x] makes true and every step keeps. *)
Lemma fold_left_reaches {A B} (P Q : A -> Prop) (f : A -> B -> A) l a x : x ∈ l -> P a ->
  (forall a y, y ∈ l -> P a -> P (f a y)) -> (forall a y, y ∈ l -> P a -> Q a -> Q (f a y)) -> (forall a, P a -> Q (f a x)) -> Q (fold_left f l a).
Proof.
  intros Hx Ha HP HQ Hstep. apply list_elem_of_split in Hx as (l1 & l2 & ->). rewrite fold_left_app. simpl.
  assert (HP1 : P (fold_left f l1 a)) by (apply fold_left_keeps; [done|]; intros; apply HP; [set_solver|done]).
  assert (HP2 : P (f (fold_left f l1 a) x) /\ Q (f (fold_left f l1 a) x)) by (split; [apply HP; [set_solver|done]|by apply Hstep]).
  apply (fold_left_keeps (fun a => P a /\ Q a) f l2 _ HP2). intros a' y Hy [H1 H2]. split; [apply HP|apply HQ]; try done; set_solver.
Qed.

(** ** Names of tables *)

Section names.
Context (source_names target_names : list text) (mappings : list SchemaDiffTableMapping).
Notation explicit := (explicit_by_source mappings).

(** The targets found are one for each source and all that are taken; [justified]
    says why. *)
Record resolved (justified : text -> text -> Prop) (r : resolution) : Prop := {
  resolved_names s t : r.1 !! s = Some t -> s ∈ source_names /\ t ∈ target_names /\ t ∈ r.2 /\ justified s t;
  resolved_used t : t ∈ r.2 -> exists s, r.1 !! s = Some t;
  resolved_once s s' t : r.1 !! s = Some t -> r.1 !! s' = Some t -> s = s';
}.

Lemma resolved_start justified : resolved justified (∅, []).
Proof. split; simpl; [done|by intros ? ?%elem_of_nil|done]. Qed.

Lemma resolved_insert (J : text -> text -> Prop) r s t : resolved J r -> r.1 !! s = None -> s ∈ source_names -> t ∈ target_names -> t ∉ r.2 -> J s t ->
  resolved J (<[s := t]> r.1, t :: r.2).
Proof.
  intros [H1 H2 H3] Hs Hin Ht Hu HJ. split; simpl.
  - intros s' t'. rewrite lookup_insert. case_decide; [intros; simplify_eq; set_solver|]. intros Hl. destruct (H1 _ _ Hl) as (? & ? & ? & ?). set_solver.
  - intros t' [->|Ht']%elem_of_cons; [exists s; apply lookup_insert_eq|]. destruct (H2 _ Ht') as [s' Hs']. exists s'.
    rewrite lookup_insert_ne; [done|congruence].
  - intros s1 s2 t'. rewrite !lookup_insert. repeat case_decide; intros E1 E2; simplify_eq; [done| | |by apply (H3 s1 s2 t')].
    + by destruct (H1 _ _ E2) as (_ & _ & ? & _).
    + by destruct (H1 _ _ E1) as (_ & _ & ? & _).
Qed.

Lemma resolved_weaken (J J' : text -> text -> Prop) r : (forall s t, J s t -> J' s t) -> resolved J r -> resolved J' r.
Proof. intros HJ [H1 H2 H3]. split; [|done..]. intros s t Hl. destruct (H1 _ _ Hl) as (? & ? & ? & ?). auto. Qed.

(** A step that leaves the targets it found. *)
Definition keeps_found (r r' : resolution) : Prop := forall s t, r.1 !! s = Some t -> r'.1 !! s = Some t.

Lemma kept J r : resolved J r -> resolved J r /\ keeps_found r r.
Proof. intros Hr. split; [done|]. by intros s t. Qed.

Lemma take_target_resolved J r s t : resolved J r -> r.1 !! s = None -> s ∈ source_names -> J s t ->
  resolved J (take_target target_names s t r) /\ keeps_found r (take_target target_names s t r).
Proof.
  intros Hr Hs Hin HJ. unfold take_target. destruct (bool_decide _ && _) eqn:E; [|by apply kept].
  rewrite andb_true_iff, negb_true_iff, bool_decide_eq_true, bool_decide_eq_false in E. destruct E as [Ht Hu].
  split; [by apply resolved_insert|]. intros s' t' Hl. simpl. rewrite lookup_insert_ne; [done|congruence].
Qed.

Definition by_mapping (s t : text) : Prop := explicit !! s = Some t.
Definition by_name (s t : text) : Prop := by_mapping s t \/ t = s.
Definition by_case (s t : text) : Prop := by_name s t \/ identifiers_equal s t true = true.

Lemma reserve_resolved r s : s ∈ source_names -> resolved by_mapping r ->
  resolved by_mapping (reserve_explicit target_names explicit r s) /\ keeps_found r (reserve_explicit target_names explicit r s).
Proof.
  intros Hin Hr. unfold reserve_explicit. destruct (explicit !! s) as [t|] eqn:E; [|by apply kept].
  destruct (r.1 !! s) as [t'|] eqn:Es; [|by apply take_target_resolved].
  destruct (resolved_names _ _ Hr _ _ Es) as (_ & _ & Hu & HJ). unfold by_mapping in HJ. simplify_eq. unfold take_target.
  rewrite (bool_decide_true (t ∈ r.2)) by done. rewrite andb_false_r. by apply kept.
Qed.

Lemma exact_resolved r s : s ∈ source_names -> resolved by_name r ->
  resolved by_name (match_exact target_names r s) /\ keeps_found r (match_exact target_names r s).
Proof.
  intros Hin Hr. unfold match_exact. destruct (r.1 !! s) eqn:Es; [by apply kept|]. apply take_target_resolved; [done..|by right].
Qed.

Lemma case_resolved r s : s ∈ source_names -> resolved by_case r ->
  resolved by_case (match_ignoring_case target_names r s) /\ keeps_found r (match_ignoring_case target_names r s).
Proof.
  intros Hin Hr. unfold match_ignoring_case. destruct (r.1 !! s) eqn:Es; [by apply kept|].
  destruct (List.filter _ _) as [|t [|]] eqn:E; [by apply kept| |by apply kept].
  assert (t ∈ [t]) as Ht by set_solver. rewrite <- E in Ht. apply elem_of_bool_filter in Ht as [Ht Hp].
  rewrite andb_true_iff, negb_true_iff, bool_decide_eq_false in Hp. destruct Hp as [Hu Hc].
  split; [apply resolved_insert; [done..|by right]|]. intros s' t' Hl. simpl. rewrite lookup_insert_ne; [done|congruence].
Qed.

(** The three passes. *)
Definition reserved : resolution := fold_left (reserve_explicit target_names explicit) source_names (∅, []).
Definition matched : resolution := fold_left (match_exact target_names) source_names reserved.

Lemma reserved_resolved : resolved by_mapping reserved.
Proof. unfold reserved. apply fold_left_keeps; [apply resolved_start|]. intros r s Hin Hr. by apply reserve_resolved. Qed.

Lemma matched_resolved : resolved by_name matched /\ keeps_found reserved matched.
Proof.
  unfold matched. apply (fold_left_keeps (fun r => resolved by_name r /\ keeps_found reserved r)).
  - apply kept. apply (resolved_weaken by_mapping); [by left|apply reserved_resolved].
  - intros r s Hin [Hr Hk]. destruct (exact_resolved r s Hin Hr) as [Hr' Hk']. split; [done|]. intros x y Hx. auto.
Qed.

Lemma resolve_targets_resolved ignore_case :
  let r := resolve_targets source_names target_names mappings ignore_case in
  resolved (fun s t => by_name s t \/ ignore_case = true /\ identifiers_equal s t true = true) r /\ keeps_found matched r.
Proof.
  unfold resolve_targets. fold reserved. fold matched. destruct matched_resolved as [Hm _]. destruct ignore_case.
  - assert (resolved by_case (fold_left (match_ignoring_case target_names) source_names matched)
      /\ keeps_found matched (fold_left (match_ignoring_case target_names) source_names matched)) as [Hr Hk].
    { apply (fold_left_keeps (fun r => resolved by_case r /\ keeps_found matched r)).
      - apply kept. apply (resolved_weaken by_name); [by left|done].
      - intros r s Hin [Hr Hk]. destruct (case_resolved r s Hin Hr) as [Hr' Hk']. split; [done|]. intros x y Hx. auto. }
    split; [|done]. apply (resolved_weaken by_case); [|done]. intros s t [|]; auto.
  - apply kept. apply (resolved_weaken by_name); [by left|done].
Qed.

(** A mapping whose target is not asked for by another table is followed. *)
Lemma mapping_followed s t : s ∈ source_names -> t ∈ target_names -> explicit !! s = Some t ->
  (forall s', s' ∈ source_names -> explicit !! s' = Some t -> s' = s) -> reserved.1 !! s = Some t.
Proof.
  intros Hs Ht He Hu. unfold reserved.
  apply (fold_left_reaches (resolved by_mapping) (fun r => r.1 !! s = Some t) _ _ _ s Hs); [apply resolved_start| | |].
  - intros r y Hy Hr. by apply reserve_resolved.
  - intros r y Hy Hr Hq. by apply (reserve_resolved r y Hy Hr).
  - intros r Hr. unfold reserve_explicit. rewrite He. unfold take_target. rewrite (bool_decide_true (t ∈ target_names)) by done. simpl.
    case_bool_decide as Hin; simpl; [|apply lookup_insert_eq]. destruct (resolved_used _ _ Hr _ Hin) as [s' Hs'].
    destruct (resolved_names _ _ Hr _ _ Hs') as (Hs1 & _ & _ & HJ). by rewrite <- (Hu s' Hs1 HJ).
Qed.

(** A name on both sides that no mapping touches is matched with itself. *)
Lemma name_matched s : s ∈ source_names -> s ∈ target_names -> explicit !! s = None -> (forall s', explicit !! s' <> Some s) -> matched.1 !! s = Some s.
Proof.
  intros Hs Ht Hn Hu. unfold matched.
  apply (fold_left_reaches (fun r => r.1 !! s = Some s \/ (r.1 !! s = None /\ s ∉ r.2)) (fun r => r.1 !! s = Some s) _ _ _ s Hs).
  - right. pose proof reserved_resolved as Hr. split.
    + destruct (reserved.1 !! s) as [t|] eqn:E; [|done]. destruct (resolved_names _ _ Hr _ _ E) as (_ & _ & _ & HJ). unfold by_mapping in HJ. congruence.
    + intros (s' & Hs')%(resolved_used _ _ Hr). destruct (resolved_names _ _ Hr _ _ Hs') as (_ & _ & _ & HJ). by apply (Hu s').
  - intros r y Hy HP. unfold match_exact, take_target. destruct (r.1 !! y) eqn:Ey; [done|].
    destruct (bool_decide _ && _); [|done]. simpl. destruct (decide (y = s)) as [->|Hne]; [left; apply lookup_insert_eq|].
    rewrite lookup_insert_ne by done. destruct HP as [HP|[HP1 HP2]]; [by left|right]. set_solver.
  - intros r y Hy _ HQ. unfold match_exact, take_target. destruct (r.1 !! y) eqn:Ey; [done|]. destruct (bool_decide _ && _); [|done].
    simpl. rewrite lookup_insert_ne; [done|congruence].
  - intros r HP. unfold match_exact, take_target. destruct HP as [HP|[HP1 HP2]]; [by rewrite HP|].
    rewrite HP1, bool_decide_true, bool_decide_false by done. apply lookup_insert_eq.
Qed.
End names.

Lemma omap_partition {A B} (f : A -> option B) l :
  omap (fun s => (fun _ => s) <$> f s) l ++ List.filter (fun s => negb (bool_decide (is_Some (f s)))) l ≡ₚ l.
Proof.
  induction l as [|s l IH]; [done|]. simpl. destruct (f s) as [b|]; simpl; [by rewrite IH|].
  by rewrite <- Permutation_middle, IH.
Qed.

(** C23. The tables of two schemas are matched one to one: every table of the source is
    in one pair or only in the source, every table of the target in one pair or only
    in the target.  A pair follows a mapping, or has one name, or, when case is
    ignored, names that differ in case.  A mapping whose target no other table asks
    for is followed, and a name on both sides that no mapping touches is matched
    with itself. *)
Theorem table_names_match_one_to_one source_names target_names mappings ignore_case :
  NoDup source_names -> NoDup target_names ->
  let r := resolve_schema_diff_table_names source_names target_names mappings ignore_case in
  let explicit := explicit_by_source mappings in
  map fst r.(pairs) ++ r.(source_only) ≡ₚ source_names /\ map snd r.(pairs) ++ r.(target_only) ≡ₚ target_names
  /\ (forall s t, (s, t) ∈ r.(pairs) -> explicit !! s = Some t \/ s = t \/ ignore_case = true /\ eq_ignore_ascii_case s t = true)
  /\ (forall s t, s ∈ source_names -> t ∈ target_names -> explicit !! s = Some t ->
        (forall s', s' ∈ source_names -> explicit !! s' = Some t -> s' = s) -> (s, t) ∈ r.(pairs))
  /\ (forall s, s ∈ source_names -> s ∈ target_names -> explicit !! s = None -> (forall s', explicit !! s' <> Some s) -> (s, s) ∈ r.(pairs)).
Proof.
  intros Hs Ht r explicit. destruct (resolve_targets_resolved source_names target_names mappings ignore_case) as [Hr Hk].
  unfold r, resolve_schema_diff_table_names. cbn [pairs source_only target_only].
  set (f := resolve_targets source_names target_names mappings ignore_case) in *. clearbody f.
  assert (Hp : forall s t, (s, t) ∈ omap (fun s => pair s <$> f.1 !! s) source_names <-> s ∈ source_names /\ f.1 !! s = Some t).
  { intros s t. rewrite list_elem_of_omap. split.
    - intros (s' & Hin & (t' & Hl & [= -> ->])%fmap_Some). done.
    - intros [Hin Hl]. exists s. by rewrite Hl. }
  assert (Hfound : forall s t, f.1 !! s = Some t -> (s, t) ∈ omap (fun s => pair s <$> f.1 !! s) source_names).
  { intros s t Hl. apply Hp. split; [by apply (resolved_names _ _ _ _ Hr s t)|done]. }
  destruct (matched_resolved source_names target_names mappings) as [_ Hrm].
  split; [|split; [|split; [|split]]].
  - rewrite <- (omap_partition (fun s => f.1 !! s) source_names) at 3. f_equiv. clear -f. induction source_names as [|s l IH]; [done|].
    simpl. destruct (f.1 !! s); simpl; by rewrite IH.
  - apply NoDup_Permutation; [|done|].
    + apply NoDup_app. split; [|split].
      * pose proof (resolved_once _ _ _ _ Hr) as Hi. clear -Hs Hi. induction Hs as [|s l Hs Hl IH]; simpl; [constructor|]. destruct (f.1 !! s) as [t|] eqn:E; [|done]. simpl. constructor; [|done].
        intros ([s' t'] & Heq & Hin)%list_elem_of_fmap. simpl in Heq. subst t'. apply list_elem_of_omap in Hin as (s'' & Hin & (t'' & Hl' & [= -> ->])%fmap_Some).
        by rewrite (Hi _ _ _ E Hl') in Hs.
      * intros t ([s t'] & -> & [_ Hl]%Hp)%list_elem_of_fmap [_ Hn]%elem_of_bool_filter. apply negb_true_iff, bool_decide_eq_false in Hn.
        by destruct (resolved_names _ _ _ _ Hr _ _ Hl) as (_ & _ & ? & _).
      * apply NoDup_ListNoDup, List.NoDup_filter, NoDup_ListNoDup. done.
    + intros t. rewrite elem_of_app, elem_of_bool_filter, negb_true_iff, bool_decide_eq_false, list_elem_of_fmap. split.
      * intros [([s t'] & -> & [_ Hl]%Hp)|[? _]]; [|done]. by destruct (resolved_names _ _ _ _ Hr _ _ Hl) as (_ & ? & _).
      * intros Hin. destruct (decide (t ∈ f.2)) as [Hu|]; [left|by right]. destruct (resolved_used _ _ _ _ Hr _ Hu) as [s Hl]. exists (s, t). auto.
  - intros s t [_ Hl]%Hp. destruct (resolved_names _ _ _ _ Hr _ _ Hl) as (_ & _ & _ & [[?|?]|?]); auto.
  - intros s t Hin Hin' He Hu. apply Hfound, Hk, Hrm. by apply mapping_followed.
  - intros s Hin Hin' He Hu. apply Hfound, Hk. by apply name_matched.
Qed.

Lemma table_names_match_one_to_one_witness :
  (txt "a", txt "b") ∈ (resolve_schema_diff_table_names [txt "a"; txt "b"; txt "C"] [txt "b"; txt "c"]
    [{| source_table := txt "a"; mapping_target_table := txt "b" |}] true).(pairs).
Proof.
  apply (table_names_match_one_to_one [txt "a"; txt "b"; txt "C"] [txt "b"; txt "c"] [{| source_table := txt "a"; mapping_target_table := txt "b" |}] true);
    [apply (bool_decide_unpack _); vm_compute; exact I..|vm_compute; reflexivity|].
  intros s' Hs' He. rewrite !elem_of_cons in Hs'. destruct Hs' as [->|[->|[->|?%elem_of_nil]]]; [done|vm_compute in He; discriminate..|done].
Defined.

(** ** Nothing differs from itself *)

Lemma concat_imap_nil {A B} (f : nat -> A -> list B) l : (forall i x, l !! i = Some x -> f i x = []) -> concat (imap f l) = [].
Proof.
  revert f. induction l as [|x l IH]; intros f Hf; [done|]. rewrite imap_cons. simpl. rewrite (Hf 0 x) by done. simpl.
  apply (IH (f ∘ S)). intros i y Hi. by apply (Hf (S i) y).
Qed.

Lemma concat_map_nil {A B} (f : A -> list B) l : (forall x, x ∈ l -> f x = []) -> concat (map f l) = [].
Proof. induction l as [|x l IH]; intros Hf; [done|]. simpl. rewrite Hf by left. apply IH. intros y Hy. apply Hf. by right. Qed.

Lemma position_first {A} (p : nat -> A -> bool) l k i x : l !! i = Some x -> p (k + i) x = true ->
  (forall j y, j < i -> l !! j = Some y -> p (k + j) y = false) -> position k p l = Some (k + i).
Proof.
  revert k i. induction l as [|y l IH]; intros k i Hi Hp Hj; [done|]. simpl. destruct i as [|i].
  - simpl in Hi. simplify_eq. rewrite Nat.add_0_r in *. by rewrite Hp.
  - pose proof (Hj 0 y ltac:(lia) eq_refl) as H0. rewrite Nat.add_0_r in H0. rewrite H0. simpl in Hi.
    rewrite <- plus_n_Sm, <- plus_Sn_m in *. apply (IH (S k) i Hi Hp). intros j z Hlt Hz. rewrite plus_Sn_m, plus_n_Sm. by apply (Hj (S j) z); [lia|].
Qed.

Lemma text_neq_same a : text_neq a a = false.
Proof. unfold text_neq. by rewrite bool_decide_true. Qed.
Lemma eq_ignore_same a : eq_ignore_ascii_case a a = true.
Proof. unfold eq_ignore_ascii_case. by apply bool_decide_true. Qed.
Lemma identifiers_equal_same a ic : identifiers_equal a a ic = true.
Proof. unfold identifiers_equal. destruct ic; [apply eq_ignore_same|by apply bool_decide_true]. Qed.

Lemma identifier_lists_equal_same l ic : identifier_lists_equal l l ic = true.
Proof.
  unfold identifier_lists_equal. rewrite bool_decide_true by done. simpl. induction l as [|x l IH]; [done|]. simpl.
  by rewrite identifiers_equal_same, IH.
Qed.

Lemma charset_differ_same v : Columns.mysql_charset_values_differ v v = false.
Proof. unfold Columns.mysql_charset_values_differ. destruct (Columns.mysql_charset_value v); [|done]. by rewrite eq_ignore_same. Qed.

Create Rewrite HintDb same.
#[export] Hint Rewrite text_neq_same eq_ignore_same identifiers_equal_same identifier_lists_equal_same charset_differ_same xorb_nilpotent
  andb_false_r andb_true_r orb_false_r Nat.eqb_refl : same.

Lemma column_changes_same o b i s : Columns.column_changes o b i i s s = [].
Proof.
  unfold Columns.column_changes, Columns.column_types_equal_for_dialects. autorewrite with same. cbn [negb]. autorewrite with same. done.
Qed.

Lemma exact_matches_same pre l used : (forall i, i ∈ used <-> i < length pre) ->
  (Columns.exact_matches l (pre ++ l) used).1 = map Some (seq (length pre) (length l))
  /\ forall i, i ∈ (Columns.exact_matches l (pre ++ l) used).2 <-> i < length pre + length l.
Proof.
  revert pre used. induction l as [|s l IH]; intros pre used Hu; [simpl; split; [done|]; intros i; rewrite Hu; simpl; lia|].
  cbn [Columns.exact_matches]. rewrite (position_first _ _ 0 (length pre) s); cbn [plus].
  - specialize (IH (pre ++ [s]) (length pre :: used)). rewrite <- app_assoc in IH. simpl in IH. simpl.
    destruct (Columns.exact_matches l (pre ++ s :: l) (length pre :: used)) as [m u]. simpl in *. rewrite length_app in IH. simpl in IH.
    destruct IH as [-> IH2].
    + intros i. rewrite elem_of_cons, Hu. lia.
    + rewrite Nat.add_1_r. split; [done|]. intros i. rewrite IH2. lia.
  - by apply list_lookup_middle.
  - rewrite bool_decide_true by done. unfold Columns.free. rewrite bool_decide_false; [done|]. rewrite Hu. lia.
  - intros j y Hj _. unfold Columns.free. rewrite (bool_decide_true (j ∈ used)) by (by apply Hu). by rewrite andb_false_r.
Qed.

Lemma case_matches_all l target matches used : Forall is_Some matches -> length matches = length l -> Columns.case_matches l target matches used = matches.
Proof.
  intros Hm. revert l. induction Hm as [|m matches [i ->] Hm IH]; intros [|s l] Hl; try done. simpl. f_equal. apply IH. by injection Hl.
Qed.

Lemma resolve_same l ic : Columns.resolve_column_matches l l ic = map Some (seq 0 (length l)).
Proof.
  unfold Columns.resolve_column_matches. pose proof (exact_matches_same [] l [] ltac:(intros i; rewrite elem_of_nil; simpl; lia)) as [H1 _].
  simpl in H1. destruct (Columns.exact_matches l l []) as [m u]. simpl in H1. subst m. destruct ic; [|done].
  apply case_matches_all; [|by rewrite length_map, length_seq]. apply Forall_fmap, Forall_true. intros i. eauto.
Qed.

Lemma columns_same o l : Columns.diff_columns_with_identifier_options o l l = [].
Proof.
  assert (Columns.column_differences o l l = []) as Hd.
  { unfold Columns.column_differences. rewrite resolve_same. apply app_nil. split; apply concat_imap_nil.
    - intros i [s found] Hl. apply lookup_zip_Some in Hl as [Hs Hf]. apply list_lookup_fmap_Some in Hf as (j & -> & [-> Hlt]%lookup_seq).
      unfold Columns.source_column_diff. simpl. rewrite Hs. simpl. by rewrite column_changes_same.
    - intros i t Hi. unfold Columns.target_column_diff. rewrite bool_decide_true; [done|].
      apply list_elem_of_fmap. exists i. split; [done|]. apply elem_of_seq. apply lookup_lt_Some in Hi. lia. }
  unfold Columns.diff_columns_with_identifier_options. rewrite Hd. by destruct (_ && _).
Qed.

Lemma hash_map_lookup {K A} `{Countable K} (key : A -> K) l x : NoDup (map key l) -> x ∈ l -> hash_map key (fun a => a) l !! key x = Some x.
Proof.
  intros Hd Hx. unfold hash_map. apply elem_of_list_to_map_1.
  - change (NoDup (map fst (reverse (map (fun x => (key x, x)) l)))). rewrite reverse_Permutation, map_map. done.
  - apply elem_of_reverse, list_elem_of_fmap. by exists x.
Qed.

Lemma keyed_same {K A} `{Countable K} (key : A -> K) name compare l : NoDup (map key l) -> (forall x, compare x x = []) -> keyed_diff key name compare l l = [].
Proof.
  intros Hd Hc. unfold keyed_diff. apply app_nil. split; apply concat_map_nil; intros x Hx.
  - unfold keyed_source. by rewrite hash_map_lookup, Hc.
  - unfold keyed_target. by rewrite hash_map_lookup.
Qed.

Lemma triggers_same l : NoDup (map trigger_name l) -> diff_triggers l l = [].
Proof. intros Hd. apply keyed_same; [done|]. intros x. unfold trigger_changes. by autorewrite with same. Qed.

Lemma index_columns_same s ic : Indexes.index_columns_equal s s ic = true.
Proof.
  unfold Indexes.index_columns_equal. rewrite bool_decide_true by done. simpl. apply forallb_forall. intros [i [a b]] Hin%list_elem_of_In.
  apply list_elem_of_lookup_1 in Hin as [j Hj]. rewrite list_lookup_imap in Hj. apply fmap_Some in Hj as ([x y] & Hz & [= -> -> ->]).
  apply lookup_zip_Some in Hz as [H1 H2]. simplify_eq. rewrite identifiers_equal_same, bool_decide_true by done. by destruct (_ || _).
Qed.

Lemma index_changes_same ic s : Indexes.index_changes ic s s = [].
Proof.
  unfold Indexes.index_changes. rewrite index_columns_same. autorewrite with same. rewrite bool_decide_true by done. done.
Qed.

Lemma indexes_same ic l : NoDup (map index_name l) -> Indexes.diff_indexes_with_options ic l l = [].
Proof.
  intros Hd. unfold Indexes.diff_indexes_with_options. apply app_nil. split.
  - apply concat_map_nil. intros [s found] Hin%list_elem_of_lookup_1. destruct Hin as [i [Hs _]%lookup_zip_Some].
    unfold Indexes.source_index_diff. destruct (is_primary s); [done|].
    rewrite hash_map_lookup, index_changes_same by eauto using list_elem_of_lookup_2. done.
  - apply concat_imap_nil. intros i t Hi. unfold Indexes.target_index_diff. destruct (_ || _); [done|].
    by rewrite hash_map_lookup by eauto using list_elem_of_lookup_2.
Qed.

(** ** Foreign keys *)

(** Rows that differ at most in the spelling of the table they refer to. *)
Definition same_row (ic : bool) (a b : ForeignKeyInfo) : Prop :=
  a.(fk_name) = b.(fk_name) /\ a.(fk_column) = b.(fk_column) /\ a.(ref_schema) = b.(ref_schema) /\ a.(ref_column) = b.(ref_column)
  /\ a.(on_update) = b.(on_update) /\ a.(on_delete) = b.(on_delete) /\ identifiers_equal a.(ref_table) b.(ref_table) ic = true.

Definition same_key (ic : bool) (a b : SchemaForeignKeyInfo) : Prop := same_row ic a.(info) b.(info) /\ a.(column_pairs) = b.(column_pairs).

Lemma foreign_key_changes_same ic ic' mysql a b : same_key ic a b -> foreign_key_changes a b ic ic' mysql = [].
Proof.
  intros [(Hn & Hc & Hs & Hr & Hu & Hd & Ht) Hp]. unfold foreign_key_changes, fk_columns, fk_ref_columns.
  rewrite Hp, Hc, Hs, Hr, Hu, Hd, Ht. autorewrite with same. rewrite !bool_decide_true by done. done.
Qed.

(** The constraints of rows: one for every name. *)
Record grouped (state : list SchemaForeignKeyInfo * gmap text nat) : Prop := {
  grouped_position name i : state.2 !! name = Some i -> exists x, state.1 !! i = Some x;
  grouped_name i x : state.1 !! i = Some x -> x.(info).(fk_name) <> [] -> state.2 !! x.(info).(fk_name) = Some i;
}.

Lemma group_row_grouped state row : grouped state -> grouped (group_row state row).
Proof.
  destruct state as [l m]. intros [H1 H2]. unfold group_row. simpl in *. case_bool_decide as Hn.
  - split; simpl.
    + intros name i Hi. destruct (H1 _ _ Hi) as [x Hx]. exists x. by apply lookup_app_l_Some.
    + intros i x Hx Hne. apply lookup_app_Some in Hx as [Hx|[_ Hx]]; [by apply H2|]. apply list_lookup_singleton_Some in Hx as [_ <-]. done.
  - destruct (m !! fk_name row) as [p|] eqn:Ep; split; simpl.
    + intros name i Hi. destruct (H1 _ _ Hi) as [x Hx]. rewrite list_lookup_alter. case_decide; [subst; rewrite Hx; by eexists|by exists x].
    + intros i x. rewrite list_lookup_alter. case_decide; [|by apply H2]. intros (y & Hy & ->)%fmap_Some. subst. simpl. by apply H2.
    + intros name i. rewrite lookup_insert. case_decide; [intros [= <-]; eexists; by apply list_lookup_middle|].
      intros Hi. destruct (H1 _ _ Hi) as [x Hx]. exists x. by apply lookup_app_l_Some.
    + intros i x Hx Hne. apply lookup_app_Some in Hx as [Hx|[Hi Hx]].
      * pose proof (H2 _ _ Hx Hne). rewrite lookup_insert_ne; [done|congruence].
      * apply list_lookup_singleton_Some in Hx as [Hi' <-]. simpl. rewrite lookup_insert_eq. f_equal. lia.
Qed.

Lemma group_rows_same ic rows rows' state state' : Forall2 (same_row ic) rows rows' -> Forall2 (same_key ic) state.1 state'.1 -> state.2 = state'.2 ->
  Forall2 (same_key ic) (fold_left group_row rows state).1 (fold_left group_row rows' state').1.
Proof.
  intros Hr. revert state state'. induction Hr as [|a b rows rows' Hab Hr IH]; intros [l m] [l' m'] Hl Hm; simpl in *; [done|]. subst m'.
  destruct Hab as (Hn & Hc & Hs & Hrc & Hu & Hd & Ht). apply IH; unfold group_row; rewrite <- Hn.
  - case_bool_decide; simpl; [apply Forall2_app; [done|]; constructor; [by repeat split|constructor]|].
    destruct (m !! fk_name a); simpl.
    + apply Forall2_alter; [done|]. intros x y _ _ [H1 H2]. split; [done|]. simpl. by rewrite H2, Hc, Hrc.
    + apply Forall2_app; [done|]. constructor; [|constructor]. split; [by repeat split|]. simpl. by rewrite Hc, Hrc.
  - case_bool_decide; [done|]. destruct (m !! fk_name a); simpl; [done|]. by rewrite (Forall2_length _ _ _ Hl).
Qed.

Lemma display_columns_same ic a b : same_key ic a b -> same_key ic (display_columns a) (display_columns b).
Proof.
  intros [(Hn & Hc & Hs & Hr & Hu & Hd & Ht) Hp]. unfold display_columns, fk_columns, fk_ref_columns. rewrite Hp, Hc, Hr.
  by repeat split; simpl.
Qed.

Definition named_once (l : list SchemaForeignKeyInfo) : Prop :=
  forall i j x y, l !! i = Some x -> l !! j = Some y -> x.(info).(fk_name) = y.(info).(fk_name) -> x.(info).(fk_name) <> [] -> i = j.

Lemma group_foreign_keys_named_once rows : named_once (group_foreign_keys rows).
Proof.
  assert (Hg : grouped (fold_left group_row rows ([], ∅))).
  { apply fold_left_keeps; [by split|]. intros state row _. apply group_row_grouped. }
  intros i j x y Hx Hy Hn Hne. apply list_lookup_fmap_Some in Hx as (x' & -> & Hx). apply list_lookup_fmap_Some in Hy as (y' & -> & Hy). simpl in *.
  pose proof (grouped_name _ Hg _ _ Hx Hne) as Px. rewrite Hn in Px, Hne. pose proof (grouped_name _ Hg _ _ Hy Hne). congruence.
Qed.

Lemma group_foreign_keys_same ic rows rows' : Forall2 (same_row ic) rows rows' ->
  Forall2 (same_key ic) (group_foreign_keys rows) (group_foreign_keys rows').
Proof.
  intros Hr. unfold group_foreign_keys. apply Forall2_fmap. eapply Forall2_impl; [|intros a b; apply display_columns_same].
  apply group_rows_same; [done|constructor|done].
Qed.

Lemma fk_positions_lookup l i x : named_once l -> l !! i = Some x -> x.(info).(fk_name) <> [] -> fk_positions l !! x.(info).(fk_name) = Some i.
Proof.
  intros Hl Hi Hn. unfold fk_positions, hash_map.
  assert (Hin : forall j name, (name, j) ∈ reverse (map (fun y : nat * text => (y.2, y.1))
      (List.filter (fun '(_, name) => negb (bool_decide (name = []))) (imap (fun index fk => (index, fk.(info).(fk_name))) l)))
    <-> name <> [] /\ exists y, l !! j = Some y /\ y.(info).(fk_name) = name).
  { intros j name. rewrite elem_of_reverse, list_elem_of_fmap. split.
    - intros ([j' name'] & [= -> ->] & [Hin Hne]%elem_of_bool_filter). apply negb_true_iff, bool_decide_eq_false in Hne. split; [done|].
      apply list_elem_of_lookup_1 in Hin as [k Hk]. rewrite list_lookup_imap in Hk. apply fmap_Some in Hk as (y & Hy & [= -> ->]). eauto.
    - intros [Hne (y & Hy & <-)]. exists (j, y.(info).(fk_name)). split; [done|]. apply elem_of_bool_filter. rewrite bool_decide_false by done.
      split; [|done]. apply (list_elem_of_lookup_2 _ j). by rewrite list_lookup_imap, Hy. }
  apply elem_of_list_to_map_1'; [|by apply Hin; eauto]. intros j (_ & y & Hy & Hny)%Hin. by apply (Hl i j x y).
Qed.

Section fks.
Context (ic ic' mysql : bool) (target : list SchemaForeignKeyInfo) (Htarget : named_once target).

Lemma fk_loop_same pre source matched : Forall2 (same_key ic) source (drop (length pre) target) -> pre = take (length pre) target ->
  (forall i, i ∈ matched <-> i < length pre) ->
  (fk_loop ic ic' mysql source target (fk_positions target) matched).1 = []
  /\ forall i, i < length target -> i ∈ (fk_loop ic ic' mysql source target (fk_positions target) matched).2.
Proof.
  revert pre matched. induction source as [|s source IH]; intros pre matched Hs Hpre Hm.
  - simpl. split; [done|]. intros i Hi. apply Hm. apply Forall2_nil_inv_l in Hs. apply (f_equal length) in Hs. rewrite length_drop in Hs. simpl in Hs. lia.
  - inversion Hs as [|? t ? rest Hst Hrest Heq1 Heq2]; subst. symmetry in Heq2.
    assert (Ht : target !! length pre = Some t) by (rewrite <- (Nat.add_0_r (length pre)), <- lookup_drop, Heq2; done).
    assert (Hname : s.(info).(fk_name) = t.(info).(fk_name)) by apply Hst.
    assert (fk_match ic ic' mysql target (fk_positions target) matched s = Some (length pre)) as Hf.
    { unfold fk_match. rewrite Hname. case_bool_decide as Hn; [|by apply fk_positions_lookup].
      rewrite (position_first _ _ 0 (length pre) t); [done|done| |].
      - rewrite bool_decide_false by (rewrite Hm; lia). rewrite bool_decide_true by done. rewrite (foreign_key_changes_same ic) by done. done.
      - intros j y Hj _. rewrite bool_decide_true by (apply Hm; simpl; lia). done. }
    cbn [fk_loop]. rewrite Hf. specialize (IH (pre ++ [t]) (length pre :: matched)).
    assert (length (pre ++ [t]) = S (length pre)) as El by (rewrite length_app; simpl; lia). rewrite El in IH.
    destruct (fk_loop ic ic' mysql source target (fk_positions target) (length pre :: matched)) as [diffs m]. simpl in IH.
    rewrite Ht, (foreign_key_changes_same ic) by done. simpl. apply IH.
    + replace (S (length pre)) with (length pre + 1) by lia. by rewrite <- drop_drop, Heq2.
    + rewrite (take_S_r _ _ _ Ht). by rewrite <- Hpre.
    + intros i. rewrite elem_of_cons, Hm. lia.
Qed.
End fks.

Lemma foreign_keys_same ic ic' mysql rows rows' : Forall2 (same_row ic) rows rows' -> diff_foreign_keys_with_options ic ic' mysql rows rows' = [].
Proof.
  intros Hr. unfold diff_foreign_keys_with_options.
  destruct (fk_loop_same ic ic' mysql (group_foreign_keys rows') (group_foreign_keys_named_once rows') [] (group_foreign_keys rows) []) as [H1 H2];
    [by apply group_foreign_keys_same|done|intros i; rewrite elem_of_nil; simpl; lia|].
  destruct (fk_loop _ _ _ _ _ _ _) as [diffs m]. simpl in *. subst diffs. simpl. apply concat_imap_nil. intros i t Hi.
  rewrite bool_decide_true; [done|]. apply H2. by apply lookup_lt_Some in Hi.
Qed.

(** ** Whole schemas *)

Lemma resolve_names_same names ic :
  resolve_schema_diff_table_names names names [] ic = {| pairs := map (fun n => (n, n)) names; source_only := []; target_only := [] |}.
Proof.
  destruct (resolve_targets_resolved names names [] ic) as [Hr Hk]. unfold resolve_schema_diff_table_names.
  set (f := resolve_targets names names [] ic) in *.
  assert (Hf : forall n, n ∈ names -> f.1 !! n = Some n) by (intros n Hn; apply Hk; by apply name_matched).
  f_equal.
  - clear Hr Hk. clearbody f. induction names as [|n names IH]; [done|]. simpl. rewrite (Hf n) by left. simpl. f_equal. apply IH. intros m Hm. apply Hf. by right.
  - destruct (List.filter _ _) as [|n l] eqn:E; [done|]. assert (n ∈ n :: l) as Hn by left. rewrite <- E in Hn.
    apply elem_of_bool_filter in Hn as [Hn Hb]. rewrite bool_decide_true in Hb by (rewrite Hf by done; eauto). done.
  - destruct (List.filter _ _) as [|n l] eqn:E; [done|]. assert (n ∈ n :: l) as Hn by left. rewrite <- E in Hn.
    apply elem_of_bool_filter in Hn as [Hn Hb]. rewrite bool_decide_true in Hb; [done|]. by apply (resolved_names _ _ _ _ Hr n n), Hf.
Qed.

Lemma find_pairs_same (p : text -> bool) names : List.find (fun '(s, _) => p s) (map (fun n => (n, n)) names) = (fun n => (n, n)) <$> List.find p names.
Proof. induction names as [|n names IH]; [done|]. simpl. by destruct (p n). Qed.

Lemma normalized_rows_same names ic fk :
  same_row ic (normalize_mapped_foreign_key fk names names (map (fun n => (n, n)) names) [] ic) (normalize_self_referencing_fk fk names ic).
Proof.
  unfold normalize_mapped_foreign_key, mapped_target. cbn [List.find]. rewrite (find_pairs_same (fun s => identifiers_equal s _ ic)).
  destruct (List.find _ names) as [n|] eqn:E; simpl.
  - apply find_some in E as [Hn He].
    assert (ref_table (normalize_self_referencing_fk fk names ic) = ref_table fk) as Ht by (unfold normalize_self_referencing_fk; by case_match).
    assert (ref_schema (normalize_self_referencing_fk fk names ic) = None) as Hs.
    { unfold normalize_self_referencing_fk. rewrite Ht in He.
      replace (existsb (fun name => identifiers_equal name (ref_table fk) ic) names) with true by (symmetry; apply existsb_exists; eauto).
      rewrite andb_true_r. case_bool_decide as Hs; [done|]. by destruct (ref_schema fk) eqn:Er; [destruct Hs|]. }
    repeat split; simpl; congruence.
  - repeat split. apply identifiers_equal_same.
Qed.

Definition indexes_and_triggers_named (d : TableSchemaDetail) : Prop := NoDup (map index_name d.(indexes)) /\ NoDup (map trigger_name d.(triggers)).

(** A comparison of a schema with itself, without mappings. *)
Record compares_itself (o : SchemaDiffPreparationOptions) : Prop := {
  itself_tables : o.(target_tables) = o.(source_tables);
  itself_details : o.(target_details) = o.(source_details);
  itself_mappings : o.(table_mappings) = [];
  itself_named : Forall indexes_and_triggers_named o.(source_details);
}.

Lemma hash_map_in {K A} `{Countable K} (key : A -> K) l k x : hash_map key (fun a => a) l !! k = Some x -> x ∈ l.
Proof. unfold hash_map. intros Hl%elem_of_list_to_map_2. by apply elem_of_reverse, list_elem_of_fmap in Hl as (y & [= _ ->] & Hy). Qed.

Section itself.
Context `{DatabaseManifest} `{MysqlTokenizer} (o : SchemaDiffPreparationOptions) (Ho : compares_itself o).

Lemma resolve_itself names :
  resolve o names = {| pairs := map (fun n => (n, n)) (names o.(source_tables)); source_only := []; target_only := [] |}.
Proof. unfold resolve. destruct Ho as [-> _ -> _]. apply resolve_names_same. Qed.

Lemma common_view_itself n : common_view o (n, n) = [].
Proof.
  unfold common_view. destruct Ho as [_ -> _ _]. destruct (details_of (source_details o) !! n ≫= ddl) as [d|]; [|done].
  unfold Views.view_definitions_differ. destruct (negb _); [done|]. rewrite !text_neq_same. by destruct (source_dialect o) as [[]|].
Qed.

Lemma compare_defaults_same d : compare_table_defaults d d = None.
Proof. unfold compare_table_defaults. destruct d as [d|]; [|done]. simpl. destruct (table_defaults d); [|done]. simpl. by autorewrite with same. Qed.

Lemma common_table_itself n : Forall (fun d => table_diff_type d = txt "none") (common_table o (n, n)).
Proof.
  unfold common_table. destruct Ho as [Ht Hd Hm Hn]. rewrite Hd. destruct (details_of (source_details o) !! n) as [d|] eqn:E; [|constructor].
  apply hash_map_in in E. rewrite Forall_forall in Hn. destruct (Hn d E) as [Hi Htr].
  rewrite columns_same, (indexes_same _ _ Hi), (triggers_same _ Htr), foreign_keys_same, compare_defaults_same, Ht, text_neq_same.
  - rewrite andb_false_r, !bool_decide_true by done. constructor; [|constructor]. by destruct (compare_mysql_column_charset o).
  - apply Forall2_fmap, Forall_Forall2_diag, Forall_true. intros fk. unfold normalize_source_fk. rewrite (resolve_itself tables_of), Ht, Hm.
    apply normalized_rows_same.
Qed.

(** C20. A schema compared with itself has no differences, whatever the dialects and
    the options are, renames, column order and ignored case included; no mappings, and
    the indexes and the triggers of a table have different names. *)
Theorem comparison_with_itself_is_empty : diff_schema o = [].
Proof.
  unfold diff_schema. rewrite (resolve_itself tables_of), (resolve_itself views_of). cbn [pairs source_only target_only map app].
  rewrite (concat_map_nil (common_view o)), app_nil_l by (intros x (n & -> & _)%list_elem_of_fmap; apply common_view_itself).
  destruct (List.filter _ _) as [|d l] eqn:E; [done|]. assert (d ∈ d :: l) as Hin by left. rewrite <- E in Hin.
  apply elem_of_bool_filter in Hin as [Hin Hb]. apply elem_of_concat_map in Hin as (x & (n & -> & _)%list_elem_of_fmap & Hx).
  pose proof (common_table_itself n) as Hc. rewrite Forall_forall in Hc. by rewrite bool_decide_true in Hb by auto.
Qed.
End itself.

(** ** Every column once *)
Import SchemaCompare.Columns.

Section matching.
Context (target : list ColumnInfo).

(** The positions that are matched. *)
Definition found_positions (matches : list (option nat)) : list nat := omap (fun m => m) matches.

Lemma elem_of_found matches k : k ∈ found_positions matches <-> Some k ∈ matches.
Proof. unfold found_positions. rewrite list_elem_of_omap. split; [by intros (m & Hm & ->)|]. intros Hm. by exists (Some k). Qed.

Lemma position_some {A} k (p : nat -> A -> bool) l i : position k p l = Some i -> exists j x, i = k + j /\ l !! j = Some x /\ p i x = true.
Proof.
  revert k. induction l as [|y l IH]; intros k; simpl; [done|]. destruct (p k y) eqn:E.
  - intros [= <-]. exists 0, y. by rewrite Nat.add_0_r.
  - intros (j & x & -> & Hl & Hp)%IH. exists (S j), x. split; [lia|]. done.
Qed.

(** A match is a column of the target with the name. *)
Definition matches_name (ic : bool) (s : ColumnInfo) (m : option nat) : Prop :=
  forall k, m = Some k -> exists t, target !! k = Some t /\ identifiers_equal s.(col_name) t.(col_name) ic = true.

Lemma exact_matches_spec source used :
  let r := exact_matches source target used in
  Forall2 (matches_name false) source r.1 /\ NoDup (found_positions r.1) /\ (forall k, k ∈ found_positions r.1 -> k ∉ used)
  /\ forall k, k ∈ r.2 <-> k ∈ used \/ k ∈ found_positions r.1.
Proof.
  revert used. induction source as [|s source IH]; intros used; simpl.
  - split; [constructor|]. split; [constructor|]. split; [by intros k ?%elem_of_nil|]. intros k. rewrite elem_of_nil. tauto.
  - set (f := position 0 _ target). assert (Hf : forall k, f = Some k -> (k ∉ used) /\ exists t, target !! k = Some t /\ t.(col_name) = s.(col_name)).
    { intros k (j & x & -> & Hl & Hp)%position_some. apply andb_true_iff in Hp as [Hn Hu]. apply bool_decide_eq_true in Hn.
      unfold free in Hu. apply negb_true_iff, bool_decide_eq_false in Hu. eauto. }
    specialize (IH (option_list f ++ used)). destruct (exact_matches source target (option_list f ++ used)) as [m u]. simpl in *.
    destruct IH as (H1 & H2 & H3 & H4). split; [|split; [|split]].
    + constructor; [|done]. intros k Hk. destruct (Hf k Hk) as (_ & t & Ht & Hn). exists t. split; [done|]. unfold identifiers_equal. by apply bool_decide_true.
    + destruct f as [k|] eqn:Ef; simpl; [|done]. constructor; [|done]. intros Hk. apply (H3 k Hk). set_solver.
    + intros k. destruct f as [k'|] eqn:Ef; simpl.
      * rewrite elem_of_cons. intros [->|Hk]; [by apply Hf|]. specialize (H3 k Hk). set_solver.
      * intros Hk. specialize (H3 k Hk). set_solver.
    + intros k. rewrite H4. destruct f; simpl; set_solver.
Qed.

Lemma case_candidate_some used s k : case_candidate target used s = Some k ->
  (k ∉ used) /\ exists t, target !! k = Some t /\ eq_ignore_ascii_case t.(col_name) s.(col_name) = true.
Proof.
  unfold case_candidate. destruct (List.filter _ _) as [|[i t] [|]] eqn:E; [done| |done]. intros [= ->].
  assert ((k, t) ∈ [(k, t)]) as Hin by left. rewrite <- E in Hin. apply elem_of_bool_filter in Hin as [Hin Hp].
  apply andb_true_iff in Hp as [Hu Hn]. unfold free in Hu. apply negb_true_iff, bool_decide_eq_false in Hu. split; [done|]. exists t.
  split; [|done]. apply list_elem_of_lookup_1 in Hin as [j Hj]. rewrite list_lookup_imap in Hj. by apply fmap_Some in Hj as (y & Hy & [= -> ->]).
Qed.

Lemma case_matches_spec source matches used :
  Forall2 (matches_name true) source matches -> NoDup (found_positions matches) -> (forall k, k ∈ found_positions matches -> k ∈ used) ->
  let r := case_matches source target matches used in
  Forall2 (matches_name true) source r /\ NoDup (found_positions r) /\ forall k, k ∈ found_positions r -> k ∈ found_positions matches \/ k ∉ used.
Proof.
  intros Hm. revert used. induction Hm as [|s m source matches Hs Hm IH]; intros used Hd Hu; simpl.
  - split; [constructor|]. split; [constructor|]. by intros k ?%elem_of_nil.
  - destruct m as [i|]; simpl in *.
    + apply NoDup_cons in Hd as [Hi Hd]. destruct (IH used Hd) as (H1 & H2 & H3); [intros; apply Hu; by right|]. split; [by constructor|]. split.
      * constructor; [|done]. intros Hin. destruct (H3 i Hin); [done|]. specialize (Hu i). set_solver.
      * intros k [->|Hk]%elem_of_cons; [left; by left|]. destruct (H3 k Hk); [left; by right|by right].
    + set (f := case_candidate target used s). assert (Hf : forall k, f = Some k -> (k ∉ used) /\ matches_name true s (Some k)).
      { intros k Hk. apply case_candidate_some in Hk as [Hk (t & Ht & Hn)]. split; [done|]. intros k' [= <-]. exists t. split; [done|].
        unfold identifiers_equal. revert Hn. unfold eq_ignore_ascii_case. rewrite !bool_decide_eq_true. done. }
      destruct (IH (option_list f ++ used) Hd) as (H1 & H2 & H3); [intros; set_solver|]. split; [constructor; [|done]|split].
      * intros k Hk. by apply (Hf k Hk).
      * destruct f as [k|] eqn:Ef; simpl; [|done]. constructor; [|done]. intros Hin. destruct (Hf k eq_refl) as [Hn _].
        destruct (H3 k Hin) as [Hin'|Hin']; [by apply Hn, Hu|]. set_solver.
      * intros k. destruct f as [k'|] eqn:Ef; simpl.
        -- rewrite elem_of_cons. intros [->|Hin]; [right; by apply Hf|]. destruct (H3 k Hin); [by left|right; set_solver].
        -- intros Hin. by apply H3.
Qed.

(** Every column of the source is matched at most once, with a column of its name. *)
Lemma resolve_column_matches_spec source ic :
  Forall2 (matches_name ic) source (resolve_column_matches source target ic) /\ NoDup (found_positions (resolve_column_matches source target ic)).
Proof.
  unfold resolve_column_matches. destruct (exact_matches_spec source []) as (H1 & H2 & _ & H4).
  destruct (exact_matches source target []) as [m u]. simpl in *. destruct ic; [|done].
  destruct (case_matches_spec source m u) as (? & ? & _); [|done| |done].
  - eapply Forall2_impl; [exact H1|]. intros s k Hk j Hj. destruct (Hk j Hj) as (t & Ht & Hn). exists t. split; [done|].
    unfold identifiers_equal in *. apply bool_decide_eq_true in Hn. rewrite Hn. apply eq_ignore_same.
  - intros k Hk. apply H4. by right.
Qed.
End matching.

(** Two ways through a list, element by element. *)
Lemma concat_imap_parts {A B C} (f : nat -> A -> list B) (u : nat -> A -> list C) (g : B -> option C) (h : A -> list C) l :
  (forall i x, l !! i = Some x -> omap g (f i x) ++ u i x = h x) -> omap g (concat (imap f l)) ++ concat (imap u l) ≡ₚ concat (map h l).
Proof.
  revert f u. induction l as [|x l IH]; intros f u Hfu; [done|]. rewrite !imap_cons. simpl. rewrite omap_app, <- (Hfu 0 x) by done.
  rewrite <- (IH (f ∘ S) (u ∘ S)) by (intros i y Hi; by apply (Hfu (S i) y)). solve_Permutation.
Qed.

Lemma omap_lookup_seq {A} (l : list A) : omap (fun i => l !! i) (seq 0 (length l)) = l.
Proof.
  induction l as [|x l IH]; [done|]. simpl. f_equal. rewrite <- seq_shift. transitivity (omap (fun i => l !! i) (seq 0 (length l))); [|exact IH].
  generalize (seq 0 (length l)) as s. clear. induction s as [|i s IH]; [done|]. simpl. destruct (l !! i); [by f_equal|done].
Qed.

Lemma imap_seq {A B} (f : nat -> A -> list B) (l : list A) k :
  concat (imap (fun i => f (k + i)) l) = concat (map (fun i => match l !! (i - k) with Some x => f i x | None => [] end) (seq k (length l))).
Proof.
  revert k. induction l as [|x l IH]; intros k; [done|]. rewrite imap_cons. simpl. rewrite Nat.sub_diag, Nat.add_0_r. simpl. f_equal.
  transitivity (concat (imap (fun i => f (S k + i)) l)); [f_equal; apply imap_ext; intros i y _; simpl; by rewrite <- plus_n_Sm|].
  rewrite IH. f_equal. apply map_ext_in. intros i [Hi _]%in_seq. replace (i - k) with (S (i - S k)) by lia. done.
Qed.

(** The columns at [ks] and those that are not at [ks]. *)
Lemma positions_partition {A} (l : list A) (ks : list nat) : NoDup ks -> (forall k, k ∈ ks -> k < length l) ->
  omap (fun k => l !! k) ks ++ concat (imap (fun i x => if bool_decide (i ∈ ks) then [] else [x]) l) ≡ₚ l.
Proof.
  intros Hd Hk. pose proof (imap_seq (fun i x => if bool_decide (i ∈ ks) then [] else [x]) l 0) as Hi. cbn [plus] in Hi. rewrite Hi. clear Hi.
  transitivity (omap (fun k => l !! k) (seq 0 (length l))); [|by rewrite omap_lookup_seq].
  assert (seq 0 (length l) ≡ₚ ks ++ List.filter (fun i => negb (bool_decide (i ∈ ks))) (seq 0 (length l))) as Hp.
  { apply NoDup_Permutation; [apply NoDup_seq|apply NoDup_app; split; [done|]; split|].
    - intros k Hin [_ Hn]%elem_of_bool_filter. by rewrite bool_decide_true in Hn.
    - apply NoDup_ListNoDup, List.NoDup_filter, NoDup_ListNoDup, NoDup_seq.
    - intros k. rewrite elem_of_app, elem_of_bool_filter, elem_of_seq, negb_true_iff, bool_decide_eq_false. split; [destruct (decide (k ∈ ks)); tauto|].
      intros [Hin%Hk|[? _]]; lia. }
  etrans; [|by rewrite Hp at 1]. rewrite omap_app. f_equiv. clear. generalize (seq 0 (length l)) as s. induction s as [|i s IH]; [done|]. simpl.
  rewrite Nat.sub_0_r, IH. case_bool_decide; simpl; [by destruct (l !! i)|]. by destruct (l !! i).
Qed.

Lemma flat_map_singletons {A B} (f : A -> B) l : flat_map (fun x => [f x]) l = map f l.
Proof. induction l as [|x l IH]; [done|]. simpl. by rewrite IH. Qed.

(** What the type of a difference says of its columns. *)
Inductive shaped : ColumnDiff -> Prop :=
| shaped_added d s : diff_type d = txt "added" -> source d = Some s -> target d = None -> shaped d
| shaped_removed d t : diff_type d = txt "removed" -> source d = None -> target d = Some t -> shaped d
| shaped_modified d s t : diff_type d = txt "modified" -> source d = Some s -> target d = Some t -> shaped d.

Section account.
Context (o : column_options) (src tgt : list ColumnInfo).

Definition the_matches : list (option nat) := resolve_column_matches src tgt o.(Columns.ignore_column_name_case).

(** The columns that are the same on both sides. *)
Definition unchanged_at (b : bool) (i : nat) (x : ColumnInfo * option nat) : list (ColumnInfo * ColumnInfo) :=
  match x.2 ≫= (fun k => pair k <$> tgt !! k) with
  | Some (k, t) => match column_changes o b i k x.1 t with [] => [(x.1, t)] | _ => [] end
  | None => []
  end.

Lemma column_changes_unordered b i k s t : column_changes o b i k s t = [] -> column_changes o false 0 0 s t = [].
Proof.
  unfold column_changes. intros Hc. repeat (apply app_nil in Hc as [-> Hc]). done.
Qed.

Lemma source_column_diff_shaped b i s m : Forall shaped (source_column_diff o src tgt b i s m).
Proof.
  unfold source_column_diff. destruct (m ≫= _) as [[k t]|]; [destruct (column_changes _ _ _ _ _ _)|];
    repeat constructor; [by eapply shaped_modified|by eapply shaped_added].
Qed.

Lemma column_differences_shaped : Forall shaped (column_differences o src tgt).
Proof.
  unfold column_differences. apply Forall_app. split; apply Forall_concat; apply Forall_forall; intros l (i & Hl)%list_elem_of_lookup_1;
    rewrite list_lookup_imap in Hl; apply fmap_Some in Hl as (x & Hx & ->).
  - destruct x as [s m]. apply source_column_diff_shaped.
  - unfold target_column_diff. case_bool_decide; repeat constructor. by eapply shaped_removed.
Qed.

Lemma map_concat_imap {A B C} (f : B -> C) (u : nat -> A -> list B) l : map f (concat (imap u l)) = concat (imap (fun i x => map f (u i x)) l).
Proof. revert u. induction l as [|x l IH]; intros u; [done|]. rewrite !imap_cons. simpl. by rewrite map_app, (IH (u ∘ S)). Qed.

Lemma omap_concat_imap {A B C} (g : B -> option C) (f : nat -> A -> list B) l : omap g (concat (imap f l)) = concat (imap (fun i x => omap g (f i x)) l).
Proof. revert f. induction l as [|x l IH]; intros f; [done|]. rewrite !imap_cons. simpl. by rewrite omap_app, (IH (f ∘ S)). Qed.

(** The columns that two sides have in common and that do not differ. *)
Definition the_same (p : ColumnInfo * ColumnInfo) : Prop :=
  identifiers_equal p.1.(col_name) p.2.(col_name) o.(Columns.ignore_column_name_case) = true /\ column_changes o false 0 0 p.1 p.2 = [].

Definition accounts (diffs : list ColumnDiff) : Prop := exists unchanged,
  omap source diffs ++ map fst unchanged ≡ₚ src /\ omap target diffs ++ map snd unchanged ≡ₚ tgt /\ Forall the_same unchanged.

Lemma matched_columns : concat (map (fun x : ColumnInfo * option nat => option_list (x.2 ≫= (fun k => tgt !! k))) (zip src the_matches)) =
  omap (fun k => tgt !! k) (found_positions the_matches).
Proof.
  pose proof (Forall2_length _ _ _ (proj1 (resolve_column_matches_spec tgt src o.(Columns.ignore_column_name_case)))) as Hl.
  fold the_matches in Hl. revert Hl. generalize the_matches as ms. induction src as [|s l IH]; intros [|m ms] Hl; try done. simpl.
  rewrite IH by (by injection Hl). destruct m as [k|]; [|done]. simpl. by destruct (tgt !! k).
Qed.

Lemma column_differences_account : accounts (column_differences o src tgt).
Proof.
  destruct (resolve_column_matches_spec tgt src o.(Columns.ignore_column_name_case)) as [Hm Hd]. fold the_matches in Hm, Hd.
  unfold column_differences. fold the_matches. set (b := _ && _ && _). exists (concat (imap (unchanged_at b) (zip src the_matches))).
  rewrite !omap_app, !map_concat_imap. split; [|split].
  - rewrite (omap_concat_imap source (target_column_diff the_matches tgt)), (concat_imap_nil _ tgt), app_nil_r
      by (intros i t _; unfold target_column_diff; by case_bool_decide).
    rewrite (concat_imap_parts _ _ _ (fun x => [x.1])), <- (flat_map_concat_map (fun x => [x.1])).
    + rewrite (flat_map_singletons fst). change (map fst ?l) with (fst <$> l). rewrite fst_zip; [done|]. by rewrite (Forall2_length _ _ _ Hm).
    + intros i [s m] _. unfold source_column_diff, unchanged_at. simpl. destruct (m ≫= _) as [[k t]|]; [|done]. by destruct (column_changes _ _ _ _ _ _).
  - set (u := concat (imap (fun i x => map snd (unchanged_at b i x)) _)). rewrite <- app_assoc, (Permutation_app_comm _ u), app_assoc.
    unfold u. rewrite (concat_imap_parts _ _ _ (fun x => option_list (x.2 ≫= (fun k => tgt !! k)))), matched_columns.
    + etrans; [|apply (positions_partition tgt (found_positions the_matches)); [done|]].
      * f_equiv. rewrite omap_concat_imap. erewrite imap_ext; [reflexivity|]. intros i t _. unfold target_column_diff.
        rewrite (bool_decide_ext _ _ (elem_of_found the_matches i)). by case_bool_decide.
      * intros k Hk%elem_of_found. apply list_elem_of_lookup_1 in Hk as [i Hi].
        destruct (Forall2_lookup_r _ _ _ _ _ Hm Hi) as (s & _ & Hs). destruct (Hs k eq_refl) as (t & Ht & _). by apply lookup_lt_Some in Ht.
    + intros i [s m] _. unfold source_column_diff, unchanged_at. simpl. destruct m as [k|]; [|done]. simpl. destruct (tgt !! k) as [t|]; [|done]. simpl.
      by destruct (column_changes _ _ _ _ _ _).
  - apply Forall_concat, Forall_forall. intros l (i & Hl)%list_elem_of_lookup_1. rewrite list_lookup_imap in Hl.
    apply fmap_Some in Hl as ([s m] & [Hs Hi]%lookup_zip_Some & ->). unfold unchanged_at. simpl. destruct m as [k|]; [|constructor]. simpl.
    destruct (tgt !! k) as [t|] eqn:Et; [|constructor]. simpl. destruct (column_changes _ _ _ _ _ _) eqn:Ec; [|constructor].
    constructor; [|constructor]. split; [|by apply column_changes_unordered in Ec].
    destruct (Forall2_lookup_lr _ _ _ _ _ _ Hm Hs Hi k eq_refl) as (t' & Ht' & Hn). by simplify_eq.
Qed.
End account.

(** ** Renames *)

(** Two types of one difference are the same text. *)
Ltac other_type :=
  exfalso; match goal with H1 : diff_type ?d = txt _, H2 : diff_type ?d = txt _ |- _ => rewrite H1 in H2; vm_compute in H2; discriminate H2 end.

Section renames.
Context (o : column_options).

Lemma consider_added_found diffs matched col added best : let r := fold_left (consider_added o diffs matched col) added best in
  forall ai, r.2 = Some ai -> best.2 = Some ai \/ (ai ∈ added /\ ai ∉ matched).
Proof.
  revert best. induction added as [|a added IH]; intros best; simpl; [by left|]. intros ai Hai.
  destruct (IH _ _ Hai) as [Hb|[? ?]]; [|right; set_solver]. revert Hb. unfold consider_added. case_bool_decide as Hm; [by left|].
  destruct (diffs !! a ≫= source) as [c|]; [|by left]. destruct (SFltb _ (Columns.rename_threshold o)); [by left|].
  destruct (SFltb best.1 _); [|by left]. intros [= ->]. right. set_solver.
Qed.

Lemma rename_pairs_spec diffs removed added matched : NoDup removed ->
  let ps := rename_pairs o diffs removed added matched in
  NoDup (map fst ps) /\ NoDup (map snd ps) /\ forall ri ai, (ri, ai) ∈ ps -> ri ∈ removed /\ ai ∈ added /\ ai ∉ matched.
Proof.
  intros Hd. revert matched. induction Hd as [|ri removed Hri Hd IH]; intros matched; simpl.
  - split; [constructor|]. split; [constructor|]. by intros ri ai ?%elem_of_nil.
  - destruct (diffs !! ri ≫= target) as [col|]; [|destruct (IH matched) as (? & ? & H3); split; [done|]; split; [done|]; intros; destruct (H3 ri0 ai); set_solver].
    destruct (fold_left _ added _).2 as [ai|] eqn:E; [|destruct (IH matched) as (? & ? & H3); split; [done|]; split; [done|]; intros; destruct (H3 ri0 ai); set_solver].
    apply consider_added_found in E as [?|[Ha Hm]]; [done|]. destruct (IH (ai :: matched)) as (H1 & H2 & H3). simpl. split; [|split].
    + constructor; [|done]. intros ([r a] & -> & Hin)%list_elem_of_fmap. by destruct (H3 _ _ Hin).
    + constructor; [|done]. intros ([r a] & -> & Hin)%list_elem_of_fmap. destruct (H3 _ _ Hin) as (_ & _ & Hn). simpl in Hn. set_solver.
    + intros r a [[= -> ->]|Hin]%elem_of_cons; [set_solver|]. destruct (H3 _ _ Hin) as (? & ? & ?). set_solver.
Qed.

Lemma elem_of_indices type diffs i : i ∈ indices_of type diffs <-> exists d, diffs !! i = Some d /\ diff_type d = txt type.
Proof.
  unfold indices_of. rewrite list_elem_of_omap. split.
  - intros ([j d] & (k & Hk)%list_elem_of_lookup_1 & Hd). rewrite list_lookup_imap in Hk. apply fmap_Some in Hk as (x & Hx & [= -> ->]).
    case_bool_decide; [|done]. injection Hd as <-. eauto.
  - intros (d & Hd & Ht). exists (i, d). rewrite bool_decide_true by done. split; [|done]. apply (list_elem_of_lookup_2 _ i). rewrite list_lookup_imap. apply fmap_Some. by exists d.
Qed.

Lemma indices_once type diffs : NoDup (indices_of type diffs).
Proof.
  assert (Hgen : forall k, NoDup (omap (fun '(i, d) => if bool_decide (diff_type d = txt type) then Some i else None) (imap (fun i d => (k + i, d)) diffs))
    /\ forall i, i ∈ omap (fun '(i, d) => if bool_decide (diff_type d = txt type) then Some i else None) (imap (fun i d => (k + i, d)) diffs) -> k <= i).
  { induction diffs as [|d diffs IH]; intros k; [split; [constructor|by intros i ?%elem_of_nil]|]. rewrite imap_cons.
    rewrite (imap_ext _ (fun i d => (S k + i, d)) diffs) by (intros; simpl; by rewrite <- plus_n_Sm). destruct (IH (S k)) as [H1 H2].
    simpl. rewrite Nat.add_0_r. case_bool_decide; simpl.
    - split; [constructor; [|done]; intros Hin%H2; lia|]. intros i [->|Hin%H2]%elem_of_cons; lia.
    - split; [done|]. intros i Hin%H2. lia. }
  apply (Hgen 0).
Qed.

Lemma omap_insert {A B} (f : A -> option B) l i x y : l !! i = Some x -> omap f (<[i := y]> l) ++ option_list (f x) ≡ₚ omap f l ++ option_list (f y).
Proof.
  revert i. induction l as [|z l IH]; intros [|i] Hi; [done..| |].
  - simpl in *. simplify_eq. destruct (f x), (f y); simpl; solve_Permutation.
  - simpl in *. destruct (f z); simpl; by rewrite IH.
Qed.

(** A pair of a removed and an added column. *)
Definition valid_pair (diffs : list ColumnDiff) (p : nat * nat) : Prop :=
  (exists r t, diffs !! p.1 = Some r /\ source r = None /\ target r = Some t) /\ (exists a s, diffs !! p.2 = Some a /\ source a = Some s /\ target a = None).

Lemma apply_rename_keeps diffs p : valid_pair diffs p ->
  omap source (apply_rename diffs p) ≡ₚ omap source diffs /\ omap target (apply_rename diffs p) ≡ₚ omap target diffs.
Proof.
  intros [(r & t & Hr & Hr1 & Hr2) (a & s & Ha & Ha1 & Ha2)]. unfold apply_rename. rewrite Hr, Ha, Hr2, Ha1.
  assert (Hne : p.1 <> p.2) by congruence. set (d := renamed _ _ _).
  assert (Hl : <[p.1 := d]> diffs !! p.2 = Some a) by (by rewrite list_lookup_insert_ne).
  pose proof (omap_insert source diffs p.1 r d Hr) as S1. pose proof (omap_insert source _ p.2 a matched_rename Hl) as S2.
  pose proof (omap_insert target diffs p.1 r d Hr) as T1. pose proof (omap_insert target _ p.2 a matched_rename Hl) as T2.
  rewrite Hr1 in S1. rewrite Ha1 in S2. rewrite Hr2 in T1. rewrite Ha2 in T2. simpl in *. rewrite app_nil_r in *. split.
  - apply (Permutation_app_inv_r [s]). by rewrite S2, S1.
  - rewrite T2, app_nil_r. apply (Permutation_app_inv_r [t]). exact T1.
Qed.

Lemma apply_rename_elsewhere diffs p i : i <> p.1 -> i <> p.2 -> apply_rename diffs p !! i = diffs !! i.
Proof.
  intros H1 H2. unfold apply_rename. destruct (diffs !! p.1); [|done]. destruct (diffs !! p.2); [|done]. destruct (target _); [|done].
  destruct (source _); [|done]. by rewrite !list_lookup_insert_ne.
Qed.

(** A difference after the renames; those that were merged into another have no columns. *)
Definition settled (d : ColumnDiff) : Prop :=
  shaped d \/ (diff_type d = txt "renamed" /\ is_Some (source d) /\ is_Some (target d)) \/ d = matched_rename.

Lemma apply_rename_settled diffs p : Forall settled diffs -> Forall settled (apply_rename diffs p).
Proof.
  intros Hs. unfold apply_rename. destruct (diffs !! p.1); [|done]. destruct (diffs !! p.2); [|done]. destruct (target _); [|done].
  destruct (source _); [|done]. apply Forall_insert; [apply Forall_insert; [done|]|by right; right].
  right. left. split; [done|]. split; by eexists.
Qed.

Lemma apply_renames_keep ps diffs : NoDup (map fst ps) -> NoDup (map snd ps) -> (forall i, i ∈ map fst ps -> i ∉ map snd ps) -> Forall (valid_pair diffs) ps ->
  omap source (fold_left apply_rename ps diffs) ≡ₚ omap source diffs /\ omap target (fold_left apply_rename ps diffs) ≡ₚ omap target diffs.
Proof.
  revert diffs. induction ps as [|p ps IH]; intros diffs H1 H2 H3 Hv; [done|]. simpl in *. apply NoDup_cons in H1 as [H1 H1'].
  apply NoDup_cons in H2 as [H2 H2']. apply Forall_cons in Hv as [Hp Hv]. destruct (apply_rename_keeps _ _ Hp) as [Ks Kt].
  destruct (IH (apply_rename diffs p) H1' H2') as [IHs IHt].
  - intros i Hi. specialize (H3 i). set_solver.
  - rewrite Forall_forall in *. intros q Hq. destruct (Hv q Hq) as [(r & t & Hr & Hr') (a & s & Ha & Ha')].
    assert (q.1 ∈ map fst ps) by (apply list_elem_of_fmap; eauto). assert (q.2 ∈ map snd ps) by (apply list_elem_of_fmap; eauto).
    split; [exists r, t|exists a, s]; (rewrite apply_rename_elsewhere; [done|..]).
    + intros E. apply H1. by rewrite <- E.
    + intros E. apply (H3 q.1); [by right|]. rewrite E. by left.
    + intros E. apply (H3 p.1); [by left|]. right. by rewrite <- E.
    + intros E. apply H2. by rewrite <- E.
  - by rewrite IHs, IHt.
Qed.

Lemma valid_pairs diffs ps : Forall shaped diffs -> (forall ri ai, (ri, ai) ∈ ps -> ri ∈ indices_of "removed" diffs /\ ai ∈ indices_of "added" diffs) ->
  Forall (valid_pair diffs) ps.
Proof.
  intros Hs Hp. apply Forall_forall. intros [ri ai] Hin. destruct (Hp _ _ Hin) as [(r & Hr & Tr)%elem_of_indices (a & Ha & Ta)%elem_of_indices].
  rewrite Forall_forall in Hs. split; simpl.
  - assert (shaped r) as Hsr by (apply Hs; by eapply list_elem_of_lookup_2). inversion Hsr; subst; [other_type|by exists r, t|other_type].
  - assert (shaped a) as Hsa by (apply Hs; by eapply list_elem_of_lookup_2). inversion Hsa; subst; [by exists a, s|other_type|other_type].
Qed.

Lemma settled_kept d : settled d -> diff_type d = txt "_matched_rename" -> source d = None /\ target d = None.
Proof. intros [Hs|[(Ht & _)| ->]] He; [inversion Hs; subst; other_type|other_type|done]. Qed.

Lemma omap_filter_none {A B} (f : A -> option B) (p : A -> bool) l : Forall (fun x => p x = false -> f x = None) l -> omap f (List.filter p l) = omap f l.
Proof. induction 1 as [|x l Hx Hl IH]; [done|]. simpl. destruct (p x); simpl; [destruct (f x); [f_equal|]; exact IH|]. rewrite (Hx eq_refl). exact IH. Qed.

(** Looking for renames keeps the columns of both sides. *)
Lemma find_renames_keeps diffs : Forall shaped diffs ->
  omap source (find_renames o diffs) ≡ₚ omap source diffs /\ omap target (find_renames o diffs) ≡ₚ omap target diffs /\ Forall settled (find_renames o diffs)
  /\ Forall (fun d => d <> matched_rename) (find_renames o diffs).
Proof.
  intros Hs. unfold find_renames. destruct (rename_pairs_spec diffs (indices_of "removed" diffs) (indices_of "added" diffs) [] (indices_once _ _)) as (H1 & H2 & H3).
  set (ps := rename_pairs _ _ _ _ _) in *. set (l := fold_left apply_rename ps diffs).
  assert (Hl : Forall settled l).
  { unfold l. apply fold_left_keeps; [|intros a p _; apply apply_rename_settled]. eapply Forall_impl; [exact Hs|]. by left. }
  assert (Hdis : forall i, i ∈ map fst ps -> i ∉ map snd ps).
  { intros i ([ri ai] & -> & Hin)%list_elem_of_fmap ([ri' ai'] & Heq & Hin')%list_elem_of_fmap. simpl in Heq. subst.
    destruct (H3 _ _ Hin) as [(d & Hd & Td)%elem_of_indices _]. destruct (H3 _ _ Hin') as (_ & (d' & Hd' & Td')%elem_of_indices & _).
    rewrite Hd in Hd'. injection Hd' as <-. other_type. }
  destruct (apply_renames_keep ps diffs H1 H2 Hdis) as [Ks Kt]; [apply valid_pairs; [done|]; intros ri ai Hin; by destruct (H3 _ _ Hin) as (? & ? & _)|].
  fold l in Ks, Kt. rewrite !omap_filter_none.
  - split; [done|]. split; [done|]. split.
    + apply Forall_forall. intros d [Hd _]%elem_of_bool_filter. rewrite Forall_forall in Hl. auto.
    + apply Forall_forall. intros d [_ Hd]%elem_of_bool_filter -> . by rewrite bool_decide_true in Hd.
  - eapply Forall_impl; [exact Hl|]. simpl. intros d Hd Hb. apply settled_kept; [done|]. by apply negb_false_iff, bool_decide_eq_true in Hb.
  - eapply Forall_impl; [exact Hl|]. simpl. intros d Hd Hb. apply settled_kept; [done|]. by apply negb_false_iff, bool_decide_eq_true in Hb.
Qed.
End renames.

(** C21. The differences of columns account for every column of both sides once: with
    the columns that are the same on both sides, the source columns of the differences
    are those of the source and the target columns are those of the target, whatever
    the names, the case and the renames.  A difference is an added column, a removed
    column, or a modified or renamed pair, and the columns that are not listed have
    matching names and nothing that the comparison looks at differs. *)
Theorem column_differences_account_for_every_column o src tgt :
  let diffs := diff_columns_with_identifier_options o src tgt in
  (exists unchanged, omap source diffs ++ map fst unchanged ≡ₚ src /\ omap target diffs ++ map snd unchanged ≡ₚ tgt /\ Forall (the_same o) unchanged)
  /\ Forall (fun d => (diff_type d = txt "added" /\ is_Some (source d) /\ target d = None) \/ (diff_type d = txt "removed" /\ source d = None /\ is_Some (target d))
       \/ ((diff_type d = txt "modified" \/ diff_type d = txt "renamed") /\ is_Some (source d) /\ is_Some (target d))) diffs.
Proof.
  destruct (column_differences_account o src tgt) as (u & Us & Ut & Hu). pose proof (column_differences_shaped o src tgt) as Hs.
  unfold diff_columns_with_identifier_options.
  assert (Hshape : forall d, shaped d -> (diff_type d = txt "added" /\ is_Some (source d) /\ target d = None)
    \/ (diff_type d = txt "removed" /\ source d = None /\ is_Some (target d))
    \/ ((diff_type d = txt "modified" \/ diff_type d = txt "renamed") /\ is_Some (source d) /\ is_Some (target d))).
  { intros d []; [left|right; left|right; right]; repeat split; eauto. }
  destruct (_ && _); simpl.
  - destruct (find_renames_keeps o _ Hs) as (Ks & Kt & Hset & Hnot). split.
    + exists u. by rewrite Ks, Kt.
    + apply Forall_forall. intros d Hd. rewrite Forall_forall in Hset, Hnot. destruct (Hset d Hd) as [|[(Ht & Hsd & Htd)|He]]; [auto|auto|].
      by destruct (Hnot d Hd).
  - split; [by exists u|]. eapply Forall_impl; [exact Hs|]. exact Hshape.
Qed.

(** ** The check of a rollback *)
Import SchemaCompare.Rollback.

Lemma filter_one {A B} `{EqDecision B} (name : A -> B) l x : NoDup (map name l) -> x ∈ l -> List.filter (fun y => bool_decide (name y = name x)) l = [x].
Proof.
  induction l as [|y l IH]; intros Hd Hx; [by apply elem_of_nil in Hx|]. simpl in Hd. apply NoDup_cons in Hd as [Hy Hd]. simpl.
  apply elem_of_cons in Hx as [<-|Hx].
  - rewrite bool_decide_true by done. f_equal. destruct (List.filter _ l) as [|z r] eqn:E; [done|].
    assert (z ∈ z :: r) as Hz by left. rewrite <- E in Hz. apply elem_of_bool_filter in Hz as [Hz He%bool_decide_eq_true]. destruct Hy.
    rewrite <- He. apply list_elem_of_fmap. eauto.
  - rewrite bool_decide_false by (intros He; destruct Hy; rewrite He; apply list_elem_of_fmap; eauto). by apply IH.
Qed.

Lemma concat_nil_iff {A B} (f : A -> list B) l : concat (map f l) = [] <-> forall x, x ∈ l -> f x = [].
Proof.
  split; [|apply concat_map_nil]. induction l as [|y l IH]; intros Hc x Hx; [by apply elem_of_nil in Hx|].
  simpl in Hc. apply app_nil in Hc as [Hy Hc]. apply elem_of_cons in Hx as [->|Hx]; auto.
Qed.

Definition reversible (type : text) : Prop := type = txt "added" \/ type = txt "removed" \/ type = txt "modified".

(** A type has an inverse that is paired with it and whose inverse is the type. *)
Lemma reversible_iff type :
  inverse_types type (invert_diff_type type) = true /\ invert_diff_type (invert_diff_type type) = type <-> reversible type.
Proof.
  unfold reversible. split; [|by intros [->|[->| ->]]; vm_compute].
  intros [Hi _]. unfold inverse_types in Hi. cbn [existsb] in Hi. rewrite orb_false_r, !orb_true_iff, !andb_true_iff, !bool_decide_eq_true in Hi.
  destruct Hi as [[? _]|[[? _]|[[? _]|[-> Hn]]]]; [tauto..|]. by vm_compute in Hn.
Qed.

Lemma invert_diff_name d : table_diff_name (invert_diff d) = table_diff_name d.
Proof. unfold invert_diff. by destruct (bool_decide (_ = txt "removed")). Qed.
Lemma invert_diff_type_of d : table_diff_type (invert_diff d) = invert_diff_type (table_diff_type d).
Proof. unfold invert_diff. by destruct (bool_decide (_ = txt "removed")). Qed.

(** C24. The check of a rollback accepts a comparison whose entries have different
    names exactly when every entry is an added, a removed or a modified table or view.
    A renamed table is reported as an inconsistency, although its reverse is listed. *)
Theorem rollback_is_consistent_unless_renamed forward renames order : NoDup (map table_diff_name forward) ->
  let g := validate_consistency (from_forward_diffs forward renames order) in
  (g.1 = true <-> Forall (fun d => reversible (table_diff_type d)) forward)
  /\ g.2.(is_consistent) = g.1 /\ map table_diff g.2.(rollback_nodes) = map invert_diff forward.
Proof.
  intros Hd g. split; [|split; [done|by unfold g; cbn; rewrite map_map]].
  unfold g, validate_consistency. cbn [fst]. rewrite bool_decide_eq_true, concat_nil_iff, Forall_forall.
  set (rb := rollback_nodes _).
  assert (Hrb : forall d, d ∈ forward ->
    List.filter (fun r => bool_decide (table_diff_name (table_diff r) = table_diff_name d)) rb = [rollback_node order d]).
  { intros d Hin. rewrite <- (invert_diff_name d).
    apply (filter_one (fun r => table_diff_name (table_diff r)) rb (rollback_node order d)); unfold rb; cbn [rollback_nodes from_forward_diffs].
    - rewrite map_map. cbn [table_diff rollback_node]. by rewrite (map_ext _ _ invert_diff_name).
    - apply list_elem_of_fmap. by exists d. }
  assert (Hissue : forall d, d ∈ forward -> (node_issues rb (forward_node renames order d) = [] <-> reversible (table_diff_type d))).
  { intros d Hin. unfold node_issues. cbn [table_diff forward_node]. rewrite (Hrb _ Hin). cbn [existsb map concat table_diff rollback_node].
    rewrite orb_false_r, app_nil_r, <- reversible_iff, !invert_diff_type_of.
    destruct (inverse_types _ _); [|split; [done|by intros [? _]]]. case_bool_decide; simpl; [tauto|]. split; [done|tauto]. }
  cbn [forward_nodes from_forward_diffs]. split.
  - intros Hall d Hin. apply Hissue; [done|]. apply Hall. apply list_elem_of_fmap. by exists d.
  - intros Hall fwd (d & -> & Hin)%list_elem_of_fmap. by apply Hissue, Hall.
Qed.

(** ** Examples *)

Module SampleSchema.
#[export] Instance manifest : DatabaseManifest := {| dialect_name d := if bool_decide (d = DatabaseType.Mysql) then Some (txt "mysql") else None |}.
#[export] Instance no_tokens : MysqlTokenizer := {| mysql_tokenize _ := None |}.
#[export] Instance sorted : HashOrder := {| hash_order _ l := l |}.

Definition column (name type : string) : ColumnInfo :=
  {| col_name := txt name; col_type := txt type; is_nullable := true; column_default := None; is_primary_key := false; extra := None;
     col_comment := None; numeric_precision := None; numeric_scale := None; character_maximum_length := None; character_set := None; collation := None |}.
Definition trigger (body : string) : TriggerInfo :=
  {| trigger_name := txt "t"; event := txt "INSERT"; timing := txt "BEFORE"; statement := Some (txt body) |}.
Definition with_columns (name : string) (l : list ColumnInfo) : TableSchemaDetail :=
  {| detail_name := txt name; columns := l; indexes := []; foreign_keys := [SampleGraph.key "parent" name]; triggers := [trigger "SET @a = 1"]; ddl := None |}.

Definition options (source target : list TableInfo) (source_details target_details : list TableSchemaDetail) : SchemaDiffPreparationOptions :=
  {| source_tables := source; target_tables := target; Schema.source_details := source_details; Schema.target_details := target_details;
     database_type := DatabaseType.Mysql; Schema.ignore_comments := false; Schema.compare_column_order := true; Schema.compare_charset := true;
     ignore_table_name_case := true; Schema.ignore_column_name_case := true; Schema.detect_renames := true; Schema.rename_threshold := f64_half;
     Schema.source_dialect := Some Mysql; Schema.target_dialect := Some Mysql; table_mappings := [] |}.

Definition base (name : string) : TableInfo := SampleGraph.table name "BASE TABLE".
Definition itself : SchemaDiffPreparationOptions :=
  let details := [with_columns "a" [column "id" "int"; column "ID" "text"]; with_columns "b" []] in
  options [base "a"; base "b"] [base "a"; base "b"] details details.

Definition extra_table : SchemaDiffPreparationOptions := options [base "a"; base "b"] [base "a"; base "b"; base "c"] [] [].

Definition table_diff_of (type name : string) : TableDiff := plain type "table" (txt name) None None.

(** A table that only the target has is not reported when the comparison is sharded. *)
Example shards_lose_target_tables :
  map (fun d => (table_diff_type d, table_diff_name d)) (diff_schema extra_table) = [(txt "removed", txt "c")]
  /\ shard_diff extra_table {| shard_count := 2; shard_by := ByTable |} = [].
Proof. vm_compute. done. Qed.

(** A trigger whose statement changed is no difference. *)
Example trigger_bodies_are_not_compared : diff_triggers [trigger "SET @a = 1"] [trigger "SET @a = 2"] = [].
Proof. vm_compute. reflexivity. Qed.

(** The line that ends a comment of a MySQL view is lost with the comment's end: a
    view that selects two columns and one that selects one are not told apart. *)
Example mysql_comment_swallows_the_next_line :
  Views.view_definitions_differ (txt "CREATE VIEW v AS SELECT 1 -- c" ++ [10%Z] ++ txt ", 2") (txt "CREATE VIEW v AS SELECT 1 -- c,2") (Some Mysql) (Some Mysql) = false.
Proof. vm_compute. reflexivity. Qed.

(** A comment of an Oracle view that touches the next word joins the words around it. *)
Example oracle_comment_joins_words :
  Views.view_definitions_differ (txt "CREATE VIEW s.v AS SELECT /*c*/id FROM s.t") (txt "CREATE VIEW s.v AS SELECT id FROM s.t") (Some Oracle) (Some Oracle) = true.
Proof. vm_compute. reflexivity. Qed.

(** A quoted name of an Oracle view and the words it is made of are not told apart. *)
Example oracle_quotes_are_dropped :
  Views.view_definitions_differ (txt "CREATE VIEW s.v AS SELECT " ++ [34%Z] ++ txt "A B" ++ [34%Z] ++ txt " FROM s.t")
    (txt "CREATE VIEW s.v AS SELECT A B FROM s.t") (Some Oracle) (Some Oracle) = false.
Proof. vm_compute. reflexivity. Qed.

(** The account [CURRENT_USER] is only recognised right before its parenthesis. *)
Example current_user_needs_its_parenthesis :
  Views.strip_mysql_view_definer (txt "CREATE DEFINER=CURRENT_USER VIEW v AS SELECT 1") = txt "CREATE DEFINER=CURRENT_USER VIEW v AS SELECT 1"
  /\ Views.strip_mysql_view_definer (txt "CREATE DEFINER=CURRENT_USER() VIEW v AS SELECT 1") = txt "CREATE VIEW v AS SELECT 1".
Proof. vm_compute. done. Qed.

(** Indexes of one name whose columns are sorted in another order are no difference. *)
Definition index (options : list Z) : IndexInfo :=
  {| index_name := txt "i"; index_columns := [txt "a"]; is_unique := false; is_primary := false; filter_condition := None; index_type := None;
     included_columns := None; key_is_expression := []; column_opclasses := []; key_options := options |}.
Example index_directions_are_not_compared : Indexes.diff_indexes [index [3%Z]] [index [0%Z]] = [].
Proof. vm_compute. reflexivity. Qed.

(** A column whose type and name changed together is a rename. *)
Example a_rename :
  map (fun d => (diff_type d, diff_name d)) (diff_columns_with_dialect_options [column "id" "int"; column "title" "varchar(20)"]
    [column "id" "int"; column "name" "text"] false false true f64_half None None) = [(txt "renamed", txt "title")].
Proof. vm_compute. reflexivity. Qed.
End SampleSchema.

Lemma comparison_with_itself_is_empty_witness : @diff_schema SampleSchema.manifest SampleSchema.no_tokens SampleSchema.itself = [].
Proof.
  apply comparison_with_itself_is_empty. split; [reflexivity|reflexivity|reflexivity|].
  repeat constructor; try (by intros ?%elem_of_nil).
Defined.

Lemma rollback_is_consistent_unless_renamed_witness :
  (validate_consistency (from_forward_diffs [SampleSchema.table_diff_of "added" "a"; SampleSchema.table_diff_of "renamed" "b"] [] [])).1 = false.
Proof.
  apply not_true_is_false. intros Hc.
  apply (rollback_is_consistent_unless_renamed [SampleSchema.table_diff_of "added" "a"; SampleSchema.table_diff_of "renamed" "b"] [] []) in Hc.
  - apply Forall_cons in Hc as [_ [Hc _]%Forall_cons]. by destruct Hc as [Hc|[Hc|Hc]]; vm_compute in Hc.
  - apply (bool_decide_unpack _). vm_compute. exact I.
Defined.
