(* ===== verification/SqlIdentifiers.v ===== *)
(** * Identifiers and pages of SQL text

    Models [crates/dbx-sql-dialect/src/sql_dialect/capabilities.rs] and
    [identifiers.rs], with the parts of [table_select.rs] that name a table:
    how each database type quotes the name of a table or column, how it qualifies
    a table, and how it takes a page of rows.  Text is UTF-8 bytes; every character
    the code singles out is ASCII, and no byte of a longer character is.  Percent
    decoding and the Unicode letter classes are arguments. *)

From S2P Require Import Prelude Utf8 ValueLiterals SqlDialect.
Import DatabaseType.

(** [matches!(database_type, A | B | ..)]. *)
Definition type_in (l : list DatabaseType.t) (d : DatabaseType.t) : bool := bool_decide (d ∈ l).
Definition some_type_in (l : list DatabaseType.t) (o : option DatabaseType.t) : bool :=
  match o with Some d => type_in l d | None => false end.

Module Capabilities.

Inductive TablePaginationStrategy :=
| LimitOffset | FetchFirst | Db2FetchFirst | SqlServerTop | IrisTop | InformixFirst | FirebirdRows | Rownum
| QuestDbLimit | Unbounded | AgentMaxRows | OdbcTop.

Inductive PaginationContext := TablePreview | BoundedRead | UserQuery.

Definition is_schema_aware (d : DatabaseType.t) : bool :=
  type_in [Postgres; SqlServer; Oracle; Redshift; Dameng; Gaussdb; Kwdb; Kingbase; Highgo; Uxdb; Gbase8c; Vastbase;
    Yashandb; Oscar; Databricks; SapHana; Teradata; Vertica; Exasol; OpenGauss; OceanbaseOracle; Gbase; Gbase8s; Databend;
    Jdbc; H2; Snowflake; Trino; PrestoSql; Hive; Kyuubi; Impala; Argo; Transwarp; Spark; Db2; Informix; Tdengine; Xugu;
    Sqlite; DuckDb; Iris; Spanner] d.

Definition uses_fetch_first (d : DatabaseType.t) : bool := type_in [Oracle; Dameng; Db2] d.
Definition uses_oracle_row_id (o : option DatabaseType.t) : bool := some_type_in [Oracle; OceanbaseOracle] o.
Definition uses_xugu_row_id (o : option DatabaseType.t) : bool := bool_decide (o = Some Xugu).
Definition uses_postgres_ctid (o : option DatabaseType.t) : bool := bool_decide (o = Some Postgres).
Definition uses_synthetic_row_id (o : option DatabaseType.t) : bool :=
  uses_oracle_row_id o || uses_xugu_row_id o || uses_postgres_ctid o.
Definition uses_single_row_insert_statements (d : DatabaseType.t) : bool := type_in [Oracle; OceanbaseOracle] d.

Definition pagination_strategy (o : option DatabaseType.t) (context : PaginationContext) : TablePaginationStrategy :=
  match o with
  | Some Jdbc => AgentMaxRows
  | Some Cassandra => match context with TablePreview | UserQuery => AgentMaxRows | BoundedRead => LimitOffset end
  | Some Oracle => Rownum
  | Some Oscar => match context with TablePreview => LimitOffset | BoundedRead => Rownum | UserQuery => Unbounded end
  | Some Dameng => Rownum
  | Some Db2 => Db2FetchFirst
  | Some SqlServer => SqlServerTop
  | Some Iris => IrisTop
  | Some Informix | Some Gbase8s => InformixFirst
  | Some Firebird => FirebirdRows
  | Some OceanbaseOracle => Rownum
  | Some Questdb => QuestDbLimit
  | Some Odbc => OdbcTop
  | _ => LimitOffset
  end.

Definition table_pagination_strategy (o : option DatabaseType.t) : TablePaginationStrategy := pagination_strategy o TablePreview.

Definition is_simple_informix_identifier (name : text) : bool :=
  match name with
  | [] => false
  | first :: rest => (is_ascii_alphabetic first || (first =? 95)%Z)
      && forallb (fun c => is_ascii_alphanumeric c || (c =? 95)%Z || (c =? 36)%Z) rest
  end.

(** Limits and offsets are [usize]. *)
Definition firebird_rows_clause (limit offset : Z) : text :=
  if (0 <? offset)%Z then txt "ROWS " ++ decimal (offset + 1) ++ txt " TO " ++ decimal (offset + limit)
  else txt "ROWS " ++ decimal limit.

End Capabilities.

Module Identifiers.
Import Capabilities.

(** [percent_decode_str(value).decode_utf8().ok()] of the percent_encoding crate. *)
Class PercentDecode := percent_decode : text -> option text.

(** [char::is_alphabetic] and [char::is_alphanumeric] on the bytes of a character. *)
Class LetterClasses := { is_alphabetic_char : text -> bool; is_alphanumeric_char : text -> bool }.

Definition SQLSERVER_LINKED_SCHEMA_PREFIX : text := txt "__dbx_sqlserver_linked__:".

Record SqlServerLinkedSchemaRef := { server : text; catalog : text; schema : text }.

Definition is_blank (s : text) : bool := bool_decide (trim s = []).

Definition parse_sqlserver_linked_schema_ref `{PercentDecode} (value : text) : option SqlServerLinkedSchemaRef :=
  payload ← strip_prefix SQLSERVER_LINKED_SCHEMA_PREFIX value;
  match split_on 124 payload with
  | first :: rest =>
    server ← percent_decode first;
    match rest with
    | second :: rest =>
      catalog ← percent_decode second;
      match rest with
      | third :: rest =>
        schema ← percent_decode third;
        if bool_decide (rest <> []) || is_blank server || is_blank catalog || is_blank schema then None
        else Some {| server := server; catalog := catalog; schema := schema |}
      | [] => None
      end
    | [] => None
    end
  | [] => None
  end.

(** Engines whose identifiers are quoted with backticks. *)
Definition uses_backtick_identifier_quoting (o : option DatabaseType.t) : bool :=
  some_type_in [Mysql; ClickHouse; Doris; Goldendb; StarRocks; ManticoreSearch; Hive; Kyuubi; Impala; Argo; Transwarp;
    Spark; Databricks; Databend; Tdengine; Access; Bigquery; Spanner; Questdb; Neo4j; Nebula] o.

Definition starts_with_byte (c : Z) (s : text) : bool := bool_decide (head s = Some c).
Definition ends_with_byte (c : Z) (s : text) : bool := bool_decide (last s = Some c).

Definition is_explicitly_quoted_identifier (name : text) : bool :=
  (2 <=? length name)%nat
  && ((starts_with_byte 34 name && ends_with_byte 34 name)
      || (starts_with_byte 96 name && ends_with_byte 96 name)
      || (starts_with_byte 91 name && ends_with_byte 93 name)).

(** The delimited forms: the closing character is doubled inside. *)
Definition quoted_with (open close : Z) (name : text) : text := open :: replace_char close [close; close] name ++ [close].

Definition quote_table_identifier (o : option DatabaseType.t) (name : text) : text :=
  if some_type_in [Gaussdb; OpenGauss; Postgres] o && is_explicitly_quoted_identifier name then name
  else match o with
  | Some Iotdb => name
  | Some Salesforce => name
  | Some Jdbc => name
  | Some Nebula => txt "`" ++ replace_char 96 [92%Z; 96%Z] (replace_char 92 [92%Z; 92%Z] name) ++ txt "`"
  | _ =>
    if uses_backtick_identifier_quoting o then quoted_with 96 96 name
    else if some_type_in [Informix; Gbase8s] o && is_simple_informix_identifier name then name
    else if some_type_in [Sundb] o && is_simple_informix_identifier name then name
    else match o with
    | Some SqlServer => quoted_with 91 93 name
    | _ => quoted_with 34 34 name
    end
  end.

Definition sqlserver_linked_table_name (linked : SqlServerLinkedSchemaRef) (table_name : text) : text :=
  join (txt ".") (map (quote_table_identifier (Some SqlServer)) [linked.(server); linked.(catalog); linked.(schema); table_name]).

(** [option.map(str::trim).filter(|s| !s.is_empty())]. *)
Definition trimmed (o : option text) : option text :=
  match o with Some s => if is_blank s then None else Some (trim s) | None => None end.

Definition qualified_table_name `{PercentDecode} (o : option DatabaseType.t) (schema : option text) (table_name : text) : text :=
  if bool_decide (o = Some Iotdb) then
    let table := quote_table_identifier o table_name in
    match trimmed schema with
    | Some schema =>
      if bool_decide (table = schema) || bool_decide ((schema ++ txt ".") `prefix_of` table) then table
      else quote_table_identifier o schema ++ txt "." ++ table
    | None => table
    end
  else
    let supports_qualifier :=
      (match o with Some d => is_schema_aware d | None => false end && negb (bool_decide (o = Some Gbase8s)))
      || some_type_in [Mysql; Goldendb; StarRocks; Doris] o in
    match schema with
    | Some schema =>
      if supports_qualifier && negb (bool_decide (o = Some Jdbc)) && negb (is_blank schema) then
        match (if bool_decide (o = Some SqlServer) then parse_sqlserver_linked_schema_ref schema else None) with
        | Some linked => sqlserver_linked_table_name linked table_name
        | None => quote_table_identifier o schema ++ txt "." ++ quote_table_identifier o table_name
        end
      else quote_table_identifier o table_name
    | None => quote_table_identifier o table_name
    end.

Definition qualified_table_name_with_catalog `{PercentDecode} (o : option DatabaseType.t) (catalog schema database : option text)
    (table_name : text) : text :=
  let catalog := trimmed catalog in
  let quote := quote_table_identifier o in
  if bool_decide (o = Some Databricks) then
    let catalog := match catalog with Some c => Some c | None => trimmed database end in
    let schema := trimmed schema in
    match catalog, schema with
    | Some catalog, Some schema => quote catalog ++ txt "." ++ quote schema ++ txt "." ++ quote table_name
    | _, _ => qualified_table_name o schema table_name
    end
  else
    match catalog, o with
    | Some database, Some SqlServer => quote database ++ txt "." ++ qualified_table_name o schema table_name
    | Some catalog, Some Doris | Some catalog, Some StarRocks =>
      if bool_decide (catalog = txt "internal") then qualified_table_name o schema table_name
      else
        let middle := match trimmed schema with Some s => Some s | None => trimmed database end in
        let table := match middle with
                     | Some middle => quote middle ++ txt "." ++ quote table_name
                     | None => quote table_name
                     end in
        quote catalog ++ txt "." ++ table
    | _, _ => qualified_table_name o schema table_name
    end.

(** [name.replace(quote, quote quote)] for a quote that is not empty. *)
Definition double_quote_text (quote name : text) : text := replace_fuel (length name) quote (quote ++ quote) name.

Definition quote_iris_identifier `{LetterClasses} (name : text) (identifier_quote : option text) : text :=
  let ordinary :=
    match chars name with
    | first :: rest =>
      (bool_decide (first = txt "_") || bool_decide (first = txt "%") || is_alphabetic_char first)
      && forallb (fun ch => bool_decide (ch = txt "_") || is_alphanumeric_char ch) rest
    | [] => false
    end in
  if ordinary then name
  else
    let quote := default [34%Z] (trimmed identifier_quote) in
    quote ++ double_quote_text quote name ++ quote.

Definition is_simple_lower_identifier (name : text) : bool :=
  match name with
  | [] => false
  | first :: rest => ((first =? 95)%Z || is_ascii_lowercase first)
      && forallb (fun c => (c =? 95)%Z || (c =? 36)%Z || is_ascii_lowercase c || is_ascii_digit c) rest
  end.

Definition postgres_reserved : list string :=
  ["all"; "analyse"; "analyze"; "and"; "any"; "array"; "as"; "asc"; "asymmetric"; "authorization"; "binary";
   "both"; "case"; "cast"; "check"; "collate"; "collation"; "column"; "concurrently"; "constraint"; "create";
   "cross"; "current_catalog"; "current_date"; "current_role"; "current_schema"; "current_time";
   "current_timestamp"; "current_user"; "default"; "deferrable"; "desc"; "distinct"; "do"; "else"; "end";
   "except"; "false"; "fetch"; "for"; "foreign"; "freeze"; "from"; "full"; "grant"; "group"; "having";
   "ilike"; "in"; "initially"; "inner"; "intersect"; "into"; "is"; "isnull"; "join"; "lateral"; "leading";
   "left"; "like"; "limit"; "localtime"; "localtimestamp"; "natural"; "not"; "notnull"; "null"; "offset";
   "on"; "only"; "or"; "order"; "outer"; "overlaps"; "placing"; "primary"; "references"; "returning"; "right";
   "select"; "session_user"; "similar"; "some"; "symmetric"; "system_user"; "table"; "tablesample"; "then";
   "to"; "trailing"; "true"; "union"; "unique"; "user"; "using"; "variadic"; "verbose"; "when"; "where";
   "window"; "with"].

Definition mysql_only_reserved : list string :=
  ["accessible"; "auto_increment"; "change"; "database"; "databases"; "delayed"; "describe"; "div"; "dual";
   "enclosed"; "escaped"; "explain"; "force"; "fulltext"; "high_priority"; "ignore"; "index"; "infile"; "key";
   "keys"; "kill"; "linear"; "lines"; "load"; "lock"; "low_priority"; "master_ssl_verify_server_cert";
   "maxvalue"; "mediumint"; "mod"; "no_write_to_binlog"; "optimize"; "optionally"; "outfile"; "partition";
   "purge"; "range"; "read_write"; "regexp"; "release"; "rename"; "replace"; "require"; "rlike"; "schema";
   "schemas"; "separator"; "show"; "spatial"; "sql_big_result"; "sql_calc_found_rows"; "sql_small_result";
   "ssl"; "starting"; "straight_join"; "terminated"; "tinyint"; "unlock"; "unsigned"; "use"; "utc_date";
   "utc_time"; "utc_timestamp"; "values"; "varbinary"; "varchar"; "write"; "xor"; "zerofill"].

Definition is_postgres_reserved_identifier (name : text) : bool := existsb (fun w => bool_decide (name = txt w)) postgres_reserved.
Definition is_mysql_only_reserved_identifier (name : text) : bool := existsb (fun w => bool_decide (name = txt w)) mysql_only_reserved.

Definition quote_gaussdb_jdbc_identifier (name identifier_quote : text) : text :=
  if is_explicitly_quoted_identifier name then name
  else
    let quote := trim identifier_quote in
    if bool_decide (quote = []) then name
    else
      let requires_quote := negb (is_simple_lower_identifier name) || is_postgres_reserved_identifier name
                            || (bool_decide (quote = txt "`") && is_mysql_only_reserved_identifier name) in
      if negb requires_quote then name else quote ++ double_quote_text quote name ++ quote.

(** [trim_end_matches(';')]. *)
Definition trim_end_semicolons (s : text) : text := reverse (span (fun c => (c =? 59)%Z) (reverse s)).2.

(** The first five characters are [where] exactly when the first five bytes are. *)
Definition normalize_where_input (where_input : option text) : text :=
  let trimmed := trim (trim_end_semicolons (trim (default [] where_input))) in
  if eq_ignore_ascii_case (take 5 trimmed) (txt "where") then trim (drop 5 trimmed) else trimmed.

Definition quote_transfer_identifier (name : text) (d : DatabaseType.t) : text :=
  if type_in [Mysql; ClickHouse; Doris; StarRocks; Hive; Kyuubi; Impala; Argo; Transwarp; Spark; Questdb] d
  then quoted_with 96 96 name
  else if bool_decide (d = SqlServer) then quoted_with 91 93 name
  else quoted_with 34 34 name.

Definition is_simple_unquoted_identifier (name : text) : bool :=
  match name with
  | [] => false
  | first :: rest => ((first =? 95)%Z || is_ascii_alphabetic first)
      && forallb (fun c => (c =? 95)%Z || (c =? 36)%Z || is_ascii_alphanumeric c) rest
  end.

Definition transfer_column_identifier (name : text) (d : DatabaseType.t) (quote_target_column_names : bool) : text :=
  if quote_target_column_names || negb (type_in [Gaussdb; OpenGauss] d) || negb (is_simple_unquoted_identifier name)
     || is_postgres_reserved_identifier (map to_ascii_lowercase name)
  then quote_transfer_identifier name d else name.

Definition qualified_transfer_table (table_name schema : text) (d : DatabaseType.t) (catalog : option text) : text :=
  let table := quote_transfer_identifier table_name d in
  match catalog with
  | Some catalog => quote_transfer_identifier catalog d ++ txt "." ++ quote_transfer_identifier schema d ++ txt "." ++ table
  | None =>
    if bool_decide (schema = []) || type_in [Mysql; MongoDb; Questdb] d then table
    else quote_transfer_identifier schema d ++ txt "." ++ table
  end.

(** ** Names in the statements of the data grid ([table_select.rs]) *)

Definition uses_connection_identifier_quote (o : option DatabaseType.t) (identifier_quote : option text) : bool :=
  some_type_in [Kingbase; Jdbc; Spanner] o
  || (some_type_in [Kyuubi; Informix; Gbase8s; Gaussdb; OpenGauss; Postgres] o && bool_decide (is_Some identifier_quote)).

Definition quote_table_data_identifier (o : option DatabaseType.t) (name : text) (identifier_quote : option text) : text :=
  if negb (uses_connection_identifier_quote o identifier_quote) then quote_table_identifier o name
  else match identifier_quote with
  | None => quote_table_identifier o name
  | Some quote =>
    if some_type_in [Gaussdb; OpenGauss; Postgres] o then quote_gaussdb_jdbc_identifier name quote
    else if bool_decide (quote = []) then name
    else quote ++ double_quote_text quote name ++ quote
  end.

Definition table_data_qualified_table_name `{PercentDecode, LetterClasses} (o : option DatabaseType.t) (schema : option text)
    (table_name : text) (identifier_quote : option text) : text :=
  if bool_decide (o = Some Iris) then
    let table := quote_iris_identifier table_name identifier_quote in
    match trimmed schema with
    | Some schema => quote_iris_identifier schema identifier_quote ++ txt "." ++ table
    | None => table
    end
  else if bool_decide (o = Some Gbase8s) then quote_table_data_identifier o table_name identifier_quote
  else if negb (uses_connection_identifier_quote o identifier_quote) then qualified_table_name o schema table_name
  else
    let table := quote_table_data_identifier o table_name identifier_quote in
    match trimmed schema with
    | Some schema => quote_table_data_identifier o schema identifier_quote ++ txt "." ++ table
    | None => table
    end.

Definition u64_saturating_add (a b : Z) : Z := Z.min (a + b) u64_max.

Definition build_iris_table_select_sql (select_columns table_alias where_clause order : text) (limit offset : Z) : text :=
  if (offset =? 0)%Z then
    txt "SELECT TOP " ++ decimal limit ++ txt " " ++ select_columns ++ txt " FROM " ++ table_alias ++ where_clause ++ order
  else
    txt "SELECT * FROM (SELECT TOP " ++ decimal (u64_saturating_add offset limit) ++ txt " " ++ select_columns ++ txt " FROM "
    ++ table_alias ++ where_clause ++ order ++ txt ") WHERE %VID > " ++ decimal offset.

Definition victoriametrics_metric_selector (metric_name : text) : text :=
  let escaped := replace_char 10 [92%Z; 110%Z] (replace_char 34 [92%Z; 34%Z] (replace_char 92 [92%Z; 92%Z] metric_name)) in
  txt "{__name__=" ++ [34%Z] ++ escaped ++ [34%Z] ++ txt "}".

Definition build_count_table_sql `{PercentDecode} (o : option DatabaseType.t) (schema : option text) (table_name : text) : text :=
  if bool_decide (o = Some VictoriaMetrics) then txt "count(" ++ victoriametrics_metric_selector table_name ++ txt ")"
  else txt "SELECT COUNT(*) AS row_count FROM " ++ qualified_table_name o schema table_name.

End Identifiers.
