(* ===== verification/SqlIdentifiersSpec.v ===== *)
(** * Names are read back as they were written

    The databases read a delimited identifier up to the first closing character
    that is not doubled (Nebula: not escaped).  The theorems read the texts of
    SqlIdentifiers.v with that rule. *)

From S2P Require Import Prelude Utf8 ValueLiterals SqlDialect SqlIdentifiers.
Import DatabaseType Capabilities Identifiers.

(** ** Reading *)

Inductive QuoteStyle := Delimited (open close : Z) | BackslashEscaped | Verbatim.

(** How a database type delimits an identifier; three take names as they are. *)
Definition quote_style (o : option DatabaseType.t) : QuoteStyle :=
  if some_type_in [Iotdb; Salesforce; Jdbc] o then Verbatim
  else if some_type_in [Nebula] o then BackslashEscaped
  else if uses_backtick_identifier_quoting o then Delimited 96 96
  else if some_type_in [SqlServer] o then Delimited 91 93
  else Delimited 34 34.

(** The text up to the closing character, and what follows it. *)
Fixpoint read_delimited (close : Z) (s : text) : option (text * text) :=
  match s with
  | [] => None
  | c :: rest =>
    if (c =? close)%Z then
      match rest with
      | c' :: rest' => if (c' =? close)%Z then prod_map (cons c) id <$> read_delimited close rest' else Some ([], rest)
      | [] => Some ([], [])
      end
    else prod_map (cons c) id <$> read_delimited close rest
  end.

Fixpoint read_escaped (close : Z) (s : text) : option (text * text) :=
  match s with
  | [] => None
  | c :: rest =>
    if (c =? 92)%Z then match rest with c' :: rest' => prod_map (cons c') id <$> read_escaped close rest' | [] => None end
    else if (c =? close)%Z then Some ([], rest)
    else prod_map (cons c) id <$> read_escaped close rest
  end.

Definition is_bare_char (c : Z) : bool := is_ascii_alphanumeric c || (c =? 95)%Z || (c =? 36)%Z.

(** A delimited identifier, or a run of identifier characters. *)
Definition read_identifier (style : QuoteStyle) (s : text) : option (text * text) :=
  match style, s with
  | Delimited open close, c :: rest =>
    if (c =? open)%Z then read_delimited close rest
    else match span is_bare_char s with ([], _) => None | read => Some read end
  | BackslashEscaped, c :: rest => if (c =? 96)%Z then read_escaped 96 rest else None
  | _, _ => None
  end.

(** A table reference: identifiers with points between them. *)
Fixpoint read_parts (fuel : nat) (style : QuoteStyle) (s : text) : option (list text * text) :=
  match fuel with
  | 0 => None
  | S fuel =>
    '(name, rest) ← read_identifier style s;
    match rest with
    | c :: rest' => if (c =? 46)%Z then prod_map (cons name) id <$> read_parts fuel style rest' else Some ([name], rest)
    | [] => Some ([name], rest)
    end
  end.

(** What may follow an identifier: no quote, point or identifier character. *)
Definition may_follow (c : Z) : bool := negb (is_bare_char c || (c =? 34)%Z || (c =? 93)%Z || (c =? 96)%Z).
Definition follows (rest : text) : Prop := match rest with c :: _ => may_follow c = true | [] => True end.
Definition separates (rest : text) : Prop := follows rest /\ head rest <> Some 46%Z.

(** The name is not one that the code takes for a quoted identifier. *)
Definition plain (o : option DatabaseType.t) (name : text) : bool :=
  negb (some_type_in [Gaussdb; OpenGauss; Postgres] o && is_explicitly_quoted_identifier name).

Lemma read_doubled close name rest : head rest <> Some close ->
  read_delimited close (replace_char close [close; close] name ++ close :: rest) = Some (name, rest).
Proof.
  intros Hr. induction name as [|c name IH]; cbn [replace_char app read_delimited].
  - rewrite Z.eqb_refl. destruct rest as [|c rest]; [done|]. destruct (Z.eqb_spec c close) as [->|]; [by destruct Hr|done].
  - rewrite <- app_assoc. destruct (Z.eqb_spec c close) as [->|Hc]; cbn [app read_delimited].
    + rewrite !Z.eqb_refl, IH. done.
    + rewrite (proj2 (Z.eqb_neq _ _) Hc), IH. done.
Qed.

Lemma read_backslashed name rest :
  read_escaped 96 (replace_char 96 [92%Z; 96%Z] (replace_char 92 [92%Z; 92%Z] name) ++ 96%Z :: rest) = Some (name, rest).
Proof.
  induction name as [|c name IH]; [done|]. cbn [replace_char].
  destruct (Z.eqb_spec c 92) as [->|Hc]; [cbn; by rewrite IH|].
  cbn [app replace_char]. rewrite <- app_assoc. destruct (Z.eqb_spec c 96) as [->|Hq]; [cbn; by rewrite IH|].
  cbn [app read_escaped]. rewrite (proj2 (Z.eqb_neq _ _) Hc), (proj2 (Z.eqb_neq _ _) Hq), IH. done.
Qed.

Lemma read_quoted_with open close name rest : head rest <> Some close ->
  read_identifier (Delimited open close) (quoted_with open close name ++ rest) = Some (name, rest).
Proof.
  intros Hr. unfold quoted_with. cbn [app read_identifier]. rewrite Z.eqb_refl, <- app_assoc. by apply read_doubled.
Qed.

Lemma simple_is_bare name : is_simple_informix_identifier name = true -> Forall (fun c => is_bare_char c = true) name /\ name <> [].
Proof.
  destruct name as [|c name]; [done|]. cbn. intros [Hc Hn]%andb_true_iff. split; [|done]. constructor.
  - unfold is_bare_char, is_ascii_alphanumeric. by destruct (is_ascii_alphabetic c), (is_ascii_digit c), (c =? 95)%Z.
  - apply Forall_forall. intros x Hx. rewrite forallb_forall in Hn. apply Hn. by apply list_elem_of_In.
Qed.

Lemma read_bare name rest : is_simple_informix_identifier name = true -> follows rest ->
  read_identifier (Delimited 34 34) (name ++ rest) = Some (name, rest).
Proof.
  intros [Hb Hne]%simple_is_bare Hf. destruct name as [|c name]; [done|].
  assert (Hs : span is_bare_char ((c :: name) ++ rest) = (c :: name, rest)).
  { apply span_exact; [done|]. destruct rest as [|x rest]; [done|]. cbn in Hf. unfold may_follow in Hf.
    by destruct (is_bare_char x). }
  cbn [app read_identifier] in *. rewrite Hs. apply Forall_cons in Hb as [Hc _].
  destruct (Z.eqb_spec c 34) as [->|]; [by vm_compute in Hc|done].
Qed.

Lemma follows_not rest c : follows rest -> may_follow c = false -> head rest <> Some c.
Proof. destruct rest as [|x rest]; [done|]. cbn. intros Hf Hc [= ->]. congruence. Qed.

(** The identifier a database type writes is read back, whatever follows it. *)
Lemma identifier_reads_back o name rest :
  quote_style o <> Verbatim -> plain o name = true -> follows rest ->
  read_identifier (quote_style o) (quote_table_identifier o name ++ rest) = Some (name, rest).
Proof.
  intros Hv Hp Hf. unfold quote_table_identifier. unfold plain in Hp. rewrite (proj1 (negb_true_iff _) Hp).
  assert (Hq : forall c, may_follow c = false -> head rest <> Some c) by (intros c; by apply follows_not).
  destruct o as [d|]; [|by apply read_quoted_with, Hq].
  destruct d; try (by destruct Hv);
    try (by apply read_quoted_with, Hq);
    try (cbn; rewrite <- app_assoc; apply read_backslashed).
  all: cbn [uses_backtick_identifier_quoting some_type_in].
  all: match goal with |- context [is_simple_informix_identifier ?n] => destruct (is_simple_informix_identifier n) eqn:Hs end.
  all: try (by apply read_bare).
  all: by apply read_quoted_with, Hq.
Qed.

(** ** Table references *)

(** The parts of a reference to a table, as the code decides on them. *)
Definition reference_parts `{PercentDecode} (o : option DatabaseType.t) (schema : option text) (table : text) : list text :=
  match schema with
  | Some schema =>
    if ((match o with Some d => is_schema_aware d | None => false end && negb (bool_decide (o = Some Gbase8s)))
        || some_type_in [Mysql; Goldendb; StarRocks; Doris] o) && negb (is_blank schema)
    then match (if bool_decide (o = Some SqlServer) then parse_sqlserver_linked_schema_ref schema else None) with
         | Some linked => [linked.(server); linked.(Identifiers.catalog); linked.(Identifiers.schema); table]
         | None => [schema; table]
         end
    else [table]
  | None => [table]
  end.

Lemma read_last fuel o name rest : quote_style o <> Verbatim -> plain o name = true -> separates rest ->
  read_parts (S fuel) (quote_style o) (quote_table_identifier o name ++ rest) = Some ([name], rest).
Proof.
  intros Hv Hp [Hf Hd]. cbn [read_parts]. rewrite identifier_reads_back by done. cbn [mbind option_bind].
  destruct rest as [|c rest]; [done|]. destruct (Z.eqb_spec c 46) as [->|]; [by destruct Hd|done].
Qed.

Lemma read_next fuel o name rest : quote_style o <> Verbatim -> plain o name = true ->
  read_parts (S fuel) (quote_style o) (quote_table_identifier o name ++ 46%Z :: rest)
  = prod_map (cons name) id <$> read_parts fuel (quote_style o) rest.
Proof. intros Hv Hp. cbn [read_parts]. rewrite identifier_reads_back by done. done. Qed.

(** Quoted names cannot be taken for anything else: the reference to a table that
    the code writes is read as its parts, and reading stops where it ends, so no
    name of a schema or table, whatever characters it has, changes the rest of a
    statement.  (Except: the three types that take names as they are, and names
    that look quoted already on PostgreSQL, openGauss and GaussDB.) *)
Theorem table_reference_reads_back `{PercentDecode} o schema table rest :
  quote_style o <> Verbatim -> plain o table = true -> (forall s, schema = Some s -> plain o s = true) -> separates rest ->
  read_parts 4 (quote_style o) (qualified_table_name o schema table ++ rest) = Some (reference_parts o schema table, rest).
Proof.
  intros Hv Ht Hs Hr. unfold qualified_table_name, reference_parts.
  rewrite (bool_decide_false (o = Some Iotdb)) by (by intros ->).
  destruct schema as [schema|]; [|by apply read_last]. specialize (Hs schema eq_refl).
  rewrite (bool_decide_false (o = Some Jdbc)) by (by intros ->). rewrite andb_true_r.
  destruct (_ && negb (is_blank schema)); [|by apply read_last].
  case_bool_decide as Ho; [destruct (parse_sqlserver_linked_schema_ref schema) as [linked|]|].
  - subst o. unfold sqlserver_linked_table_name. cbn [map join]. rewrite <- !app_assoc. change (txt ".") with [46%Z].
    cbn [app]. rewrite !read_next by done. rewrite read_last by done. done.
  - rewrite <- !app_assoc. change (txt ".") with [46%Z]. cbn [app]. rewrite read_next by done. by rewrite read_last.
  - rewrite <- !app_assoc. change (txt ".") with [46%Z]. cbn [app]. rewrite read_next by done. by rewrite read_last.
Qed.

Module SampleNames.
Definition no_decoding : PercentDecode := Some.

(** A backtick in a name of a MySQL table, and a closing bracket on SQL Server. *)
Example mysql_reference : @qualified_table_name no_decoding (Some Mysql) (Some (txt "shop")) (txt "a`; DROP TABLE b; -- ")
  = txt "`shop`.`a``; DROP TABLE b; -- `".
Proof. vm_compute. reflexivity. Qed.

Example linked_reference : @qualified_table_name no_decoding (Some SqlServer) (Some (txt "__dbx_sqlserver_linked__:srv|db|dbo")) (txt "t]")
  = txt "[srv].[db].[dbo].[t]]]".
Proof. vm_compute. reflexivity. Qed.

(** A name that starts and ends with a quote is not quoted on PostgreSQL: what
    stands between is a part of the statement. *)
Example quoted_name_is_code :
  let name := [34%Z] ++ txt "a" ++ [34%Z] ++ txt "; DROP TABLE " ++ [34%Z] ++ txt "b" ++ [34%Z] in
  quote_table_identifier (Some Postgres) name = name /\
  read_parts 4 (quote_style (Some Postgres)) name = Some ([txt "a"], txt "; DROP TABLE " ++ [34%Z] ++ txt "b" ++ [34%Z]).
Proof. vm_compute. done. Qed.

(** So is a name in brackets, which PostgreSQL does not take for an identifier. *)
Example bracketed_name_is_not_quoted : quote_table_identifier (Some Postgres) (txt "[t]") = txt "[t]"
  /\ read_parts 4 (quote_style (Some Postgres)) (txt "[t]") = None.
Proof. vm_compute. done. Qed.

(** The word WHERE is taken off without looking at what follows it. *)
Example where_prefix_is_cut : normalize_where_input (Some (txt "whereabouts = 'x'")) = txt "abouts = 'x'".
Proof. vm_compute. reflexivity. Qed.

(** A transfer quotes the names of GoldenDB tables as the data grid does not. *)
Example transfer_quotes_differ : quote_transfer_identifier (txt "t") Goldendb = [34%Z] ++ txt "t" ++ [34%Z]
  /\ quote_table_identifier (Some Goldendb) (txt "t") = txt "`t`".
Proof. vm_compute. done. Qed.
End SampleNames.

Lemma table_reference_reads_back_witness :
  read_parts 4 (Delimited 96 96) (@qualified_table_name SampleNames.no_decoding (Some Mysql) (Some (txt "shop")) (txt "a`; DROP TABLE b; -- ") ++ txt " WHERE x")
  = Some ([txt "shop"; txt "a`; DROP TABLE b; -- "], txt " WHERE x").
Proof.
  apply (table_reference_reads_back (H := SampleNames.no_decoding) (Some Mysql) (Some (txt "shop")) (txt "a`; DROP TABLE b; -- ") (txt " WHERE x")).
  - discriminate.
  - reflexivity.
  - intros s [= <-]. reflexivity.
  - split; [reflexivity|]. vm_compute. discriminate.
Defined.
